(* ===== verification/_CoqProject ===== *)
-Q . S2P
Prelude.v
Tables.v
GoPath.v
SyncPaths.v
HashString.v
Digits.v
Storage.v
SyncDelta.v
SyncBaseline.v
SyncCleanup.v
SyncListing.v
Database.v
SyncLifecycle.v
SyncTasks.v
SyncFailure.v
SyncSystem.v
Bytes.v
Utf8.v
Sanitize.v
Streams.v
Ranges.v
SyncOutcome.v
BackupRepo.v
RestoreReader.v
ProviderHashes.v
TransferCore.v
Overwrite.v
DirCache.v
DavPath.v
ManagerPaths.v
BackupDb.v
BackupRuns.v
BackupCatalog.v
BackupMaintenance.v
BackupScan.v
BackupWriter.v
BackupFrame.v
BackupStore.v
BackupSound.v
BackupKeeper.v
BackupUpkeep.v
BackupKeeperSound.v
RestoreDb.v
RestoreRuns.v
RestoreItems.v
RestoreState.v
RestoreWorker.v
RestoreSound.v
MigrationDb.v
MigrationOps.v
MigrationTasks.v
MigrationState.v
Indexer.v
IndexerRun.v
WorkerMonad.v
MigrationFailure.v
MigrationWorker.v
MigrationTransfer.v
SyncWorker.v
SyncTransfer.v
Verifier.v
Egress.v
Envelope.v
ProviderPool.v
