(* ===== verification/Prelude.v ===== *)
(** * Clumoove verification library

    Clumoove copies, synchronises and backs up files between cloud storages.  Its
    server is a Go program (src/backend) over a PostgreSQL database and a Redis
    queue: API processes change jobs, a scheduler starts and recovers them, workers
    run them against storage providers.  This library models the parts of the
    server that decide what happens to users' files and proves what they promise.

    ** The program and its model

    Strings are byte strings, machine integers are [Z] with their wrap-around
    written out where it matters, times are nanoseconds ([gotime]) or the seconds
    of the database clock.  A function that returns an error returns [res]; a
    database table is a finite map and a statement a function on the database; a
    storage provider, a reader, a destination is a state with operations that may
    answer anything its interface allows.  Hash functions, Unicode tables and
    generated identifiers are parameters.

    - Foundations.  Prelude.v (results, integers, lists and options), Tables.v (rows
      and guarded updates), GoPath.v (package path), Digits.v (strconv), Bytes.v
      (encoding/binary), Utf8.v (runes), Storage.v (storage/provider.go).

    - A synchronisation pass (internal/sync).  SyncListing.v is listFiles of
      delta.go, a coordinator over listings in flight, as a step relation;
      SyncPaths.v its path coordinates; HashString.v hashes and times; SyncDelta.v
      the decision for every path; SyncBaseline.v the rows a pass records and their
      reading by the next pass; SyncCleanup.v the removal of emptied directories;
      SyncOutcome.v the end of a pass, from the task rows to the commit.

    - Jobs and tasks (internal/db, queue, scheduler, processor).  Database.v holds
      the rows, SyncLifecycle.v the statements on jobs, SyncTasks.v those on tasks,
      SyncSystem.v the transition system in which any processes interleave them,
      SyncFailure.v what a worker does after a failed task (processor/sync_task.go).
      The suspension of an account (SuspendUser, db/users.go) is a step of every
      transition system whose rows it changes: SyncLifecycle.v, MigrationOps.v,
      BackupRuns.v and RestoreRuns.v each have their part of the transaction.

    - One transfer (internal/processor, storage, throttle).  Streams.v are the sized
      and throttled readers, Ranges.v ranged downloads, TransferCore.v
      transfer_core.go with its verification, Overwrite.v the promotion of a staged
      upload over an existing file, ProviderHashes.v the hashes providers report,
      Sanitize.v the names acceptable on a target.

    - Backups (internal/backup, backuprepo, restore, db/backups.go).  BackupRepo.v
      is the pack format, RestoreReader.v the reconstruction of a file from packs;
      BackupDb.v, BackupRuns.v and BackupCatalog.v the tables with the statements on
      runs and on the catalog; BackupScan.v and BackupWriter.v the worker of
      coordinator.go as a state and error program; BackupFrame.v what it relies on
      other transactions to leave alone, BackupStore.v the invariant that ties the
      catalog to the files on the target, BackupSound.v the proof that a run keeps
      and extends it.  BackupMaintenance.v has the statements of retention,
      compaction, verification and deletion, BackupKeeper.v the coordinator that
      carries them out, BackupUpkeep.v what the statements do to the invariant and
      BackupKeeperSound.v the proof that maintenance keeps it.

    - Restores (internal/restore, db/restore.go).  RestoreDb.v holds the tables,
      RestoreRuns.v the statements on previews and runs, RestoreItems.v those on
      items and recipes, RestoreState.v the transition system that interleaves them
      with the invariants of the tables; RestoreWorker.v is the coordinator of
      restore/coordinator.go with the staged write of a file and its promotion, and
      RestoreSound.v the proof of what an item changes on the target and that a poll
      is upkeep and one piece of work under its own claim.  The tokens and the session
      of the target that the worker stores on its way are statements; what token
      endpoints, ciphers and connecting answer is a parameter.

    - Migrations (internal/indexer, processor, db/tasks.go).  MigrationDb.v,
      MigrationOps.v and MigrationTasks.v hold the tables and the statements on
      migrations and on their tasks, MigrationState.v their transition system.
      Indexer.v is the traversal of a source with its batches and indexing errors
      and the selection of paths, IndexerRun.v a whole run of the indexer.

    - The worker (internal/processor).  WorkerMonad.v is the state and error monad
      of a task with its assertion rules; MigrationFailure.v handleTaskFailure,
      MigrationWorker.v processTask, MigrationTransfer.v its effect on the target
      against the interface MigrationStore; SyncWorker.v processSyncTask and
      SyncTransfer.v its effect on both sides against SyncStore; Verifier.v the
      verification pass as a step relation of its workers; ProviderPool.v the
      connections a worker keeps.

    - Boundaries (internal/storage, crypto).  Egress.v is the policy for outbound
      connections (ssrf.go), Envelope.v the encrypted columns (crypto.go).

    - Data structures and the file manager (internal/storage).  DirCache.v the
      bounded caches, DavPath.v WebDAV paths, ManagerPaths.v rename, move, copy and
      delete on path-based providers.

    Definitions carry the names of the Go functions; a helper that has no function
    of its own stands for a stretch of one, named in the comment before it.  Where
    two tables use a name, Go's package is the file name: BackupRuns.minutes.

    ** What the theorems show

    - Nothing is lost by a sync: overwriting and deleting decisions are justified by
      the baseline and the options (SyncDelta), a pass whose tasks completed leaves
      nothing to do, unless a path changed between file and directory, which loses its
      row (SyncBaseline), the paths of tasks that did not complete keep their rows
      where they are no directories (SyncOutcome), a complete scan is the tree
      (SyncListing), only empty directories are removed (SyncCleanup).
    - Passes do not interfere, in any interleaving: one claim per generation, one
      finish, one acknowledgement per task claim, the baseline changes only with the
      commit of its pass (SyncSystem, SyncTasks); a failed task settles, unless the
      context of its worker has ended, when nothing is written, and is retried as
      often as the limits allow and no more (SyncFailure).
    - A transfer that succeeds moved exactly the source bytes (TransferCore,
      Streams), and an interrupted overwrite never loses the replaced content
      (Overwrite).
    - Backups restore: a run that starts on a sound repository ([repository]: the
      READY packs are on the target, the files of live snapshots backed by blocks)
      leaves one, whatever it meets, and the files of a published snapshot come back
      as the bytes a download delivered; a restore accepts them exactly when they have
      the size that was listed, which the run does not check (BackupSound);
      maintenance keeps what can be reconstructed in every outcome, retention keeps
      the newest snapshots (BackupKeeperSound, BackupMaintenance);
      the pack format is canonical and round-trips (BackupRepo); the readers
      reconstruct exactly what the recipes name (RestoreReader); jobs have one
      unfinished run and snapshots are published once, verified (BackupRuns).
    - Restores write what was recorded: an item changes only its path and the files
      staged beside it, a restored file has the recorded size and digest, promotion
      never loses the replaced file, a claim of an item ends once, the work on it
      names the claim, and retention leaves frozen packs alone (RestoreSound,
      RestoreState).
    - Migrations account for everything selected: the selection is reduced to
      disjoint trees that cover it, the traversal writes one task per resource, a run
      adds a task for what it found and an error for what it could not read, list or
      support, and the migration ends as both call for (Indexer, IndexerRun); a discovery and a claim end once, in any interleaving, counters
      and notifications follow the tasks (MigrationState); a claimed task changes
      nothing at the target beyond what its strategy, a persisted path or the
      duplicates of the target allow, and a failed one settles while the context of
      its worker lasts (MigrationTransfer, MigrationFailure).
    - A sync task changes only what its action names and is acknowledged after the
      two sides agree (SyncTransfer); a verification pass writes only what the
      target's answers justify and ends (Verifier).
    - Connections of a worker are neither leaked nor closed twice nor used after an
      invalidation (ProviderPool); outbound connections reach allowed addresses only
      (Egress); encrypted columns round-trip and are bound to their domain
      (Envelope).
    - Names, hashes, caches and path operations do what they say on every input
      (Sanitize, ProviderHashes, DirCache, DavPath, ManagerPaths).

    ** Assumptions

    [SHA-256] yields 32 bytes and has no collision among the blocks, and among the
    packs, that occur; generated identifiers are 36 characters; a target keeps a
    file as written until it is written again and delivers prefixes of it
    (TargetLaws); the other transactions of the system keep the frame of a job's
    catalog, which is proved for every transaction of BackupRuns.v; during
    maintenance they also give no dead block of the job a new item.  Theorems about
    interleavings take each transaction as one atomic step.  One indexer works on a
    generation of a migration at a time, which its lease is for.  What a provider
    promises a migration or a sync task is a class with its laws (MigrationStore,
    SyncStore): an operation changes only what it names, an upload that succeeds
    stored what it read, and a download that opens delivers the file; instances show
    that the laws can hold.
    AES-GCM opens what it sealed and nothing else (AEAD).

    ** Fuel

    scanFiles and the other queue and search loops run on fuel or on a measure:
    functions with fuel answer [None] when it runs out, and each file proves that
    enough fuel exists or that its loop ends (SyncListing, RestoreReader, Sanitize);
    for scanFiles no bound exists, since a source may invent directories for ever,
    so the theorems speak of the runs that end.

    The worker's programs need no fuel: their retries are bounded by constants of
    the code (three hash attempts, a hundred names of a rename).  The epochs of the pool
    are 64 bits wide and their theorem allows fewer than 2^64 operations meanwhile.

    ** Not modelled

    HTTP handlers, tokens, mail and the web client: parsing and formatting around the
    statements modelled here.  The wire protocols of the providers, which are input
    and output over third-party libraries, behind the interface of Storage.v.
    Reading credentials and refreshing OAuth tokens, which appear as one outcome of
    a migration or sync task; the token columns of backup_jobs.  A write under a
    context that has ended is no statement: database/sql refuses it.  The scheduler's ticking and its cron library; the recovery of
    orphaned jobs is in SyncLifecycle.v and MigrationTasks.v.  Log lines, metrics, audits
    and the payload of notifications, which decide nothing.  Goroutine scheduling
    below the level of the steps named above.  A read that fails in the middle of a
    download is the end of the stream. *)

From Stdlib Require Export ZArith Ascii String Lia List.
From stdpp Require Export base tactics option list strings gmap sorting fin_maps.
Export ListNotations.

#[export] Set Warnings "-clear-no-such-hyp".

Declare Scope go_scope.
Delimit Scope go_scope with go.
Open Scope string_scope.
Open Scope list_scope.
Open Scope Z_scope.

(** ** Results of fallible operations *)

(** The pair (value, error) of a Go function: a non-nil error means the value
    is not used by the callers modelled here. *)
Inductive res (E A : Type) : Type :=
| Ok (a : A)
| Err (e : E).
Arguments Ok {E A} a.
Arguments Err {E A} e.

Definition res_bind {E A B : Type} (m : res E A) (k : A -> res E B) : res E B :=
  match m with
  | Ok a => k a
  | Err e => Err e
  end.

Definition res_is_ok {E A : Type} (m : res E A) : bool :=
  match m with Ok _ => true | Err _ => false end.

Notation "'let?' x ':=' m 'in' k" := (res_bind m (fun x => k))
  (at level 10, x name, m at level 100, k at level 200) : go_scope.

(** ** Machine integers *)

(** A w-bit two's complement value is a [Z]; these are its wrap-arounds. *)
Definition two63 : Z := 9223372036854775808.
Definition max_int64 : Z := two63 - 1.
Definition min_int64 : Z := - two63.

Definition wrap64 (z : Z) : Z := (z + two63) mod (2 * two63) - two63.
Definition uwrap (w z : Z) : Z := z mod 2 ^ w.

Definition in_int64 (z : Z) : Prop := min_int64 <= z <= max_int64.

Lemma wrap64_id z : in_int64 z -> wrap64 z = z.
Proof.
  unfold in_int64, wrap64, min_int64, max_int64, two63. intros H.
  rewrite Z.mod_small by lia. lia.
Qed.

Lemma wrap64_range z : in_int64 (wrap64 z).
Proof.
  unfold in_int64, wrap64, min_int64, max_int64, two63.
  pose proof (Z.mod_pos_bound (z + 9223372036854775808) (2 * 9223372036854775808)).
  lia.
Qed.

(** ** Go strings: byte sequences *)

Definition str_len (s : string) : Z := Z.of_nat (String.length s).

(** [s[n:]] and [s[:n]] for [n] within bounds. *)
Fixpoint str_drop (n : nat) (s : string) : string :=
  match n, s with
  | O, _ => s
  | S n', String _ s' => str_drop n' s'
  | S _, EmptyString => EmptyString
  end.

Fixpoint str_take (n : nat) (s : string) : string :=
  match n, s with
  | O, _ => EmptyString
  | S n', String c s' => String c (str_take n' s')
  | S _, EmptyString => EmptyString
  end.

(** [strings.HasPrefix], [strings.HasSuffix], [strings.TrimPrefix]. *)
Definition has_prefix (s p : string) : bool := String.prefix p s.

Definition has_suffix (s p : string) : bool :=
  (String.length p <=? String.length s)%nat
  && String.eqb (str_drop (String.length s - String.length p) s) p.

Definition trim_prefix (s p : string) : string :=
  if has_prefix s p then str_drop (String.length p) s else s.

(** [strings.Count(s, c)] for a one-byte separator. *)
Fixpoint str_count (c : ascii) (s : string) : nat :=
  match s with
  | EmptyString => O
  | String a s' => if Ascii.eqb a c then S (str_count c s') else str_count c s'
  end.

(** [strings.Contains(s, string(c))] for a one-byte [c]. *)
Definition str_contains (c : ascii) (s : string) : bool :=
  negb (str_count c s =? 0)%nat.

(** Elementwise mapping of the bytes of a string. *)
Fixpoint str_map (f : ascii -> ascii) (s : string) : string :=
  match s with
  | EmptyString => EmptyString
  | String a s' => String (f a) (str_map f s')
  end.

(** [strings.Split(s, c)] for a one-byte separator: never empty. *)
Fixpoint split_on (c : ascii) (s : string) : list string :=
  match s with
  | EmptyString => [""]
  | String a s' =>
      if Ascii.eqb a c then "" :: split_on c s'
      else match split_on c s' with
           | [] => [String a ""]
           | x :: xs => String a x :: xs
           end
  end.

(** [strings.Join(l, sep)]. *)
Fixpoint join_with (sep : string) (l : list string) : string :=
  match l with
  | [] => ""
  | [x] => x
  | x :: xs => (x +:+ sep +:+ join_with sep xs)%string
  end.

(** [strings.LastIndex(s, ".")] as the parts before it and from it on. *)
Fixpoint cut_last_dot (s : string) : option (string * string) :=
  match s with
  | EmptyString => None
  | String c s =>
      match cut_last_dot s with
      | Some (l, r) => Some (String c l, r)
      | None => if Ascii.eqb c "."%char then Some ("", String c s) else None
      end
  end.

(** ** Lemmas on strings *)

Lemma str_app_cons a s1 s2 :
  (String a s1 +:+ s2 = String a (s1 +:+ s2))%string.
Proof. reflexivity. Qed.

Lemma str_app_nil_l s : ("" +:+ s = s)%string.
Proof. reflexivity. Qed.

Lemma str_app_nil_r s : (s +:+ "" = s)%string.
Proof. induction s as [|a s IH]; [done|]. by rewrite str_app_cons, IH. Qed.

Lemma str_app_assoc s1 s2 s3 :
  (s1 +:+ (s2 +:+ s3) = (s1 +:+ s2) +:+ s3)%string.
Proof. induction s1 as [|a s IH]; [done|]. by rewrite !str_app_cons, IH. Qed.

Lemma str_length_app s1 s2 :
  String.length (s1 +:+ s2)%string = (String.length s1 + String.length s2)%nat.
Proof. induction s1 as [|a s IH]; [done|]. rewrite str_app_cons. cbn. lia. Qed.

Lemma has_prefix_app p s : has_prefix (p +:+ s)%string p = true.
Proof.
  unfold has_prefix. induction p as [|a p IH]; [by destruct s|].
  rewrite str_app_cons. cbn. by destruct (ascii_dec a a).
Qed.

Lemma has_prefix_true s p :
  has_prefix s p = true -> exists r, s = (p +:+ r)%string.
Proof.
  unfold has_prefix. revert s. induction p as [|a p IH]; intros s H.
  - by exists s.
  - destruct s as [|b s]; cbn in H; [done|].
    destruct (ascii_dec a b) as [->|]; [|done].
    destruct (IH _ H) as [r ->]. by exists r.
Qed.

Lemma str_drop_app p s : str_drop (String.length p) (p +:+ s)%string = s.
Proof. by induction p. Qed.

Lemma str_count_app c s1 s2 :
  str_count c (s1 +:+ s2)%string = (str_count c s1 + str_count c s2)%nat.
Proof.
  induction s1 as [|a s IH]; [done|]. rewrite str_app_cons. cbn.
  destruct (Ascii.eqb a c); lia.
Qed.

Lemma join_with_cons sep x y l :
  join_with sep (x :: y :: l) = (x +:+ (sep +:+ join_with sep (y :: l)))%string.
Proof. reflexivity. Qed.

Lemma split_on_not_nil c s : split_on c s <> [].
Proof. destruct s as [|a s]; cbn; [done|]. by repeat case_match. Qed.

Lemma split_on_no_sep c s :
  str_count c s = O -> split_on c s = [s].
Proof.
  induction s as [|a s IH]; cbn; [done|].
  destruct (Ascii.eqb a c); [lia|]. intros H. by rewrite IH.
Qed.

Lemma split_on_app c s1 s2 :
  split_on c (s1 +:+ String c s2)%string = split_on c s1 ++ split_on c s2.
Proof.
  induction s1 as [|a s IH]; rewrite ?str_app_nil_l, ?str_app_cons; cbn.
  - by rewrite Ascii.eqb_refl.
  - destruct (Ascii.eqb a c); rewrite IH; [done|].
    pose proof (split_on_not_nil c s). by destruct (split_on c s).
Qed.

(** Every part of a split is free of the separator. *)
Lemma split_on_parts c s : Forall (fun x => str_count c x = O) (split_on c s).
Proof.
  induction s as [|a s IH]; cbn; [by constructor|].
  destruct (Ascii.eqb a c) eqn:E; [by constructor|].
  destruct (split_on c s) as [|x xs]; [by constructor; cbn; rewrite ?E|].
  inversion IH; subst. constructor; [cbn; by rewrite E|done].
Qed.

(** Splitting undoes joining when no part has the separator. *)
Lemma split_on_join c l :
  l <> [] -> Forall (fun x => str_count c x = O) l ->
  split_on c (join_with (String c "") l) = l.
Proof.
  induction l as [|x l IH]; intros Hn Hl; [done|].
  inversion Hl; subst. destruct l as [|y l].
  - by apply split_on_no_sep.
  - change (join_with (String c "") (x :: y :: l))
      with (x +:+ String c (join_with (String c "") (y :: l)))%string.
    rewrite split_on_app, IH, split_on_no_sep by done. done.
Qed.

(** ** Lemmas on lists *)

Lemma Forall_snoc_inv {A} (P : A -> Prop) l x :
  Forall P (l ++ [x]) -> Forall P l /\ P x.
Proof. intros H. apply Forall_app in H as [H1 H2]. by inversion H2. Qed.

(** ** Automation *)

(** Case analysis on the scrutinees of the goal, closing trivial branches. *)
Ltac go_cases :=
  repeat (case_match; simplify_eq/=; try done).

(** Turn boolean comparisons into propositions. *)
Ltac go_bool :=
  repeat match goal with
  | H : andb _ _ = true |- _ => apply andb_prop in H; destruct H
  | H : orb _ _ = false |- _ => apply orb_false_elim in H; destruct H
  | H : negb _ = true |- _ => apply negb_true_iff in H
  | H : negb _ = false |- _ => apply negb_false_iff in H
  | H : (_ =? _)%Z = true |- _ => apply Z.eqb_eq in H
  | H : (_ =? _)%Z = false |- _ => apply Z.eqb_neq in H
  | H : (_ <? _)%Z = true |- _ => apply Z.ltb_lt in H
  | H : (_ <? _)%Z = false |- _ => apply Z.ltb_ge in H
  | H : (_ <=? _)%Z = true |- _ => apply Z.leb_le in H
  | H : (_ <=? _)%Z = false |- _ => apply Z.leb_gt in H
  | H : (_ >? _)%Z = true |- _ => rewrite Z.gtb_ltb in H
  | H : (_ >? _)%Z = false |- _ => rewrite Z.gtb_ltb in H
  | H : (_ =? _)%nat = true |- _ => apply Nat.eqb_eq in H
  | H : (_ =? _)%nat = false |- _ => apply Nat.eqb_neq in H
  | H : String.eqb _ _ = true |- _ => apply String.eqb_eq in H
  | H : String.eqb _ _ = false |- _ => apply String.eqb_neq in H
  | H : Ascii.eqb _ _ = true |- _ => apply Ascii.eqb_eq in H
  | H : Ascii.eqb _ _ = false |- _ => apply Ascii.eqb_neq in H
  end.

Create HintDb go_db.
#[export] Hint Resolve wrap64_range split_on_not_nil split_on_parts : go_db.
Create Rewrite HintDb go_rw.
#[export] Hint Rewrite str_app_nil_r str_length_app str_count_app
  str_drop_app has_prefix_app String.eqb_refl Ascii.eqb_refl : go_rw.
