(* ===== verification/Tables.v ===== *)
(** * Tables

    A database table as a finite map from primary keys to rows, and the
    statements the modelled operations are made of: the guarded UPDATE of one
    row, the UPDATE of every matching row, COUNT, EXISTS and a lookup by a
    predicate. *)

From S2P Require Import Prelude.

(** UPDATE of one row by its id; the boolean is "one row affected". *)
Definition update_row {R} (k : string) (p : R -> bool) (f : R -> R) (m : gmap string R)
    : bool * gmap string R :=
  match m !! k with
  | Some r => if p r then (true, <[k := f r]> m) else (false, m)
  | None => (false, m)
  end.

(** UPDATE of every row the predicate accepts. *)
Definition update_where {R} (p : R -> bool) (f : R -> R) (m : gmap string R) : gmap string R :=
  (fun r => if p r then f r else r) <$> m.

Definition count_where {R} (p : R -> bool) (m : gmap string R) : Z :=
  Z.of_nat (size (filter (fun '(_, r) => p r = true) m)).

(** EXISTS (SELECT 1 FROM m WHERE p) *)
Definition any_row {R} (p : R -> bool) (m : gmap string R) : bool :=
  existsb (fun '(_, r) => p r) (map_to_list m).

(** SELECT id FROM m WHERE p, of a predicate that at most one row meets. *)
Definition find_key {R} (p : R -> bool) (m : gmap string R) : option string :=
  fst <$> find (fun '(_, r) => p r) (map_to_list m).

Definition b2z (b : bool) : Z := if b then 1 else 0.

(** ** What they do *)

Lemma update_row_spec {R} k (p : R -> bool) f m :
  (exists r, m !! k = Some r /\ p r = true /\ update_row k p f m = (true, <[k := f r]> m))
  \/ (update_row k p f m = (false, m) /\ forall r, m !! k = Some r -> p r = false).
Proof.
  unfold update_row. destruct (m !! k) as [r|] eqn:E; [|by right].
  destruct (p r) eqn:Hp; [left; by exists r|right].
  split; [done|]. by intros r' [= <-].
Qed.

Lemma update_row_hit {R} k (p : R -> bool) f m r :
  m !! k = Some r -> p r = true -> update_row k p f m = (true, <[k := f r]> m).
Proof. intros Hr Hp. unfold update_row. by rewrite Hr, Hp. Qed.

Lemma update_where_lookup {R} (p : R -> bool) f (m : gmap string R) k :
  update_where p f m !! k = (fun r => if p r then f r else r) <$> m !! k.
Proof. unfold update_where. apply lookup_fmap. Qed.

Lemma count_where_insert {R} (p : R -> bool) (m : gmap string R) k r r' :
  m !! k = Some r ->
  count_where p (<[k := r']> m) = count_where p m - b2z (p r) + b2z (p r').
Proof.
  intros Hr. unfold count_where.
  assert (forall x, Z.of_nat (size (filter (fun '(_, r) => p r = true) (<[k := x]> m)))
    = Z.of_nat (size (filter (fun '(_, r) => p r = true) (delete k m))) + b2z (p x)) as H.
  { intros x. destruct (p x) eqn:E.
    - rewrite map_filter_insert_True by done. rewrite <- (insert_delete_eq (filter _ m)).
      rewrite <- map_filter_delete, map_size_insert_None; [cbn; lia|].
      rewrite map_filter_delete. apply lookup_delete_eq.
    - rewrite map_filter_insert_False by (by rewrite E). cbn. lia. }
  rewrite H. rewrite <- (insert_id m k r Hr) at 2. rewrite H. lia.
Qed.

Lemma count_where_pos {R} (p : R -> bool) (m : gmap string R) k r :
  m !! k = Some r -> p r = true -> 0 < count_where p m.
Proof.
  intros Hr Hp. unfold count_where.
  assert (size (filter (fun '(_, r) => p r = true) m) <> 0)%nat; [|lia].
  intros E%map_size_empty_inv.
  assert (filter (fun '(_, r) => p r = true) m !! k = Some r) as Hf
    by by apply map_lookup_filter_Some.
  by rewrite E, lookup_empty in Hf.
Qed.

Lemma any_row_true {R} (p : R -> bool) (m : gmap string R) :
  any_row p m = true <-> exists k r, m !! k = Some r /\ p r = true.
Proof.
  unfold any_row. rewrite existsb_exists. split.
  - intros ([k r] & Hin & Hp). exists k, r. split; [|done].
    by apply elem_of_map_to_list, list_elem_of_In.
  - intros (k & r & Hr & Hp). exists (k, r). split; [|done].
    by apply list_elem_of_In, elem_of_map_to_list.
Qed.

Lemma any_row_false {R} (p : R -> bool) (m : gmap string R) :
  any_row p m = false <-> forall k r, m !! k = Some r -> p r = false.
Proof.
  rewrite <- not_true_iff_false, any_row_true. split.
  - intros H k r Hr. apply not_true_is_false. intros Hp. apply H. by exists k, r.
  - intros H (k & r & Hr & Hp). by rewrite (H k r Hr) in Hp.
Qed.

Lemma find_key_some {R} (p : R -> bool) (m : gmap string R) k :
  find_key p m = Some k -> exists r, m !! k = Some r /\ p r = true.
Proof.
  unfold find_key. destruct (find _ _) as [[k' r]|] eqn:E; [|done]. cbn. intros [= ->].
  apply find_some in E as [Hin Hp]. exists r. split; [|done].
  by apply elem_of_map_to_list, list_elem_of_In.
Qed.

Lemma find_key_none {R} (p : R -> bool) (m : gmap string R) :
  find_key p m = None -> forall k r, m !! k = Some r -> p r = false.
Proof.
  unfold find_key. destruct (find _ _) as [[k' r']|] eqn:E; [done|]. intros _ k r Hr.
  apply (find_none _ _ E (k, r)). by apply list_elem_of_In, elem_of_map_to_list.
Qed.
