(* ===== verification/GoPath.v ===== *)
(** * Slash-separated paths

    The functions of Go's [path] package the program uses ([Clean], [Dir],
    [Base], [Join]) and the normal form of the rooted paths they produce. *)

From S2P Require Import Prelude.

Definition slash : ascii := "/"%char.

Definition rooted (s : string) : bool := has_prefix s "/".

(** ** [path.Clean] *)

(** One element of the path against the (reversed) output so far.  A [..]
    backs up over an element, is dropped at the root of a rooted path and is
    kept at the front of an unrooted one. *)
Definition clean_step (root : bool) (stk : list string) (e : string)
    : list string :=
  if String.eqb e "" || String.eqb e "." then stk
  else if String.eqb e ".." then
    match stk with
    | [] => if root then [] else [".."]
    | top :: rest => if String.eqb top ".." then ".." :: stk else rest
    end
  else e :: stk.

Definition path_clean (p : string) : string :=
  if String.eqb p "" then "."
  else
    let stk := fold_left (clean_step (rooted p)) (split_on slash p) [] in
    let body := join_with "/" (rev stk) in
    if rooted p then ("/" +:+ body)%string
    else if String.eqb body "" then "." else body.

(** ** [path.Dir], [path.Base], [path.Join] *)

(** The part of [s] up to and including its last slash. *)
Fixpoint dir_part (s : string) : string :=
  match s with
  | EmptyString => EmptyString
  | String a s' =>
      if str_contains slash s then String a (dir_part s') else EmptyString
  end.

Definition path_dir (p : string) : string := path_clean (dir_part p).

Fixpoint trim_right_slashes (s : string) : string :=
  match s with
  | EmptyString => EmptyString
  | String a s' =>
      match trim_right_slashes s' with
      | EmptyString => if Ascii.eqb a slash then EmptyString else String a ""
      | t => String a t
      end
  end.

Definition path_base (p : string) : string :=
  if String.eqb p "" then "."
  else
    let t := trim_right_slashes p in
    let b := str_drop (String.length (dir_part t)) t in
    if String.eqb b "" then "/" else b.

(** [path.Ext]: from the last dot of the last element. *)
Definition path_ext (p : string) : string :=
  match cut_last_dot (str_drop (String.length (dir_part p)) p) with Some (_, ext) => ext | None => "" end.

Definition path_join (l : list string) : string :=
  match filter (fun e => e <> "") l with
  | [] => ""
  | l' => path_clean (join_with "/" l')
  end.

(** A path that ends in a slash, with the slash apart. *)
Lemma has_suffix_slash p : has_suffix p "/" = true -> exists q, p = (q +:+ "/")%string.
Proof.
  unfold has_suffix. intros [Hl He]%andb_prop. apply String.eqb_eq in He. revert Hl He.
  cbn [String.length]. induction p as [|a p IH]; [done|]. intros _ He.
  destruct p as [|b p].
  - exists "". cbn in He. by rewrite He.
  - assert (String.length (String a (String b p)) - 1 = S (String.length (String b p) - 1))%nat as Hn
      by (cbn; lia).
    rewrite Hn in He. cbn [str_drop] in He. destruct (IH eq_refl He) as [q Hq].
    exists (String a q). by rewrite str_app_cons, <- Hq.
Qed.

(** ** Normal form of rooted paths *)

Definition good_comp (c : string) : Prop :=
  c <> "" /\ c <> "." /\ c <> ".." /\ str_count slash c = O.

Definition abs_path (cs : list string) : string :=
  ("/" +:+ join_with "/" cs)%string.

(** The components of [p] read below the root. *)
Definition rel_comps (p : string) : list string :=
  rev (fold_left (clean_step true) (split_on slash p) []).

Lemma good_comp_no_slash c : good_comp c -> str_count slash c = O.
Proof. by intros (?&?&?&?). Qed.
#[export] Hint Resolve good_comp_no_slash : go_db.

Lemma clean_step_good c stk e :
  Forall good_comp stk -> str_count slash e = O ->
  Forall good_comp (clean_step c stk e) \/ c = false.
Proof.
  intros Hs He. destruct c; [left|by right]. unfold clean_step.
  destruct (String.eqb e "" || String.eqb e ".") eqn:E1; [done|].
  apply orb_false_elim in E1 as [E1 E1']. go_bool.
  destruct (String.eqb e "..") eqn:E2; go_bool.
  - destruct Hs as [|top rest (?&?&?&?) Hr]; [done|].
    by apply String.eqb_neq in H1 as ->.
  - by repeat constructor.
Qed.

Lemma fold_clean_good l stk :
  Forall good_comp stk -> Forall (fun x => str_count slash x = O) l ->
  Forall good_comp (fold_left (clean_step true) l stk).
Proof.
  revert stk. induction l as [|e l IH]; intros stk Hs Hl; [done|].
  inversion Hl; subst. apply IH; [|done].
  by destruct (clean_step_good true stk e).
Qed.

Lemma rel_comps_good p : Forall good_comp (rel_comps p).
Proof.
  apply Forall_rev, fold_clean_good; [constructor|apply split_on_parts].
Qed.
#[export] Hint Resolve rel_comps_good : go_db.

Lemma fold_clean_push root l stk :
  Forall good_comp l ->
  fold_left (clean_step root) l stk = rev l ++ stk.
Proof.
  intros Hl. revert stk. induction Hl as [|e l (?&?&?&?) Hl IH]; intros stk; [done|].
  cbn [fold_left rev]. rewrite IH, <- app_assoc. f_equal. unfold clean_step.
  rewrite !(proj2 (String.eqb_neq _ _)) by done. done.
Qed.

Lemma rel_comps_app_slash p q :
  rel_comps (p +:+ String slash q)%string
  = rev (fold_left (clean_step true) (split_on slash q) (rev (rel_comps p))).
Proof.
  unfold rel_comps. by rewrite split_on_app, fold_left_app, rev_involutive.
Qed.

Lemma split_on_joined l :
  Forall good_comp l -> l <> [] -> split_on slash (join_with "/" l) = l.
Proof.
  intros Hl Hn. apply (split_on_join slash); [done|].
  eapply Forall_impl; [done|]. by intros ? (?&?&?&?).
Qed.

Lemma rel_comps_joined l :
  Forall good_comp l -> rel_comps (join_with "/" l) = l.
Proof.
  intros Hl. destruct l as [|x l]; [done|]. unfold rel_comps.
  rewrite split_on_joined, fold_clean_push by done.
  by rewrite app_nil_r, rev_involutive.
Qed.

Lemma rel_comps_joined_below root cs :
  Forall good_comp cs ->
  rel_comps (root +:+ String slash (join_with "/" cs))%string = rel_comps root ++ cs.
Proof.
  intros Hc. rewrite rel_comps_app_slash. destruct cs as [|c cs].
  - cbn [join_with]. change (split_on slash "") with [""]. cbn. by rewrite rev_involutive, app_nil_r.
  - rewrite split_on_joined by done.
    rewrite fold_clean_push by done. by rewrite rev_app_distr, !rev_involutive.
Qed.

Lemma rel_comps_slash q : rel_comps ("/" +:+ q)%string = rel_comps q.
Proof. done. Qed.

Lemma rel_comps_abs cs : Forall good_comp cs -> rel_comps (abs_path cs) = cs.
Proof. intros. unfold abs_path. by rewrite rel_comps_slash, rel_comps_joined. Qed.

Lemma abs_path_inj cs cs' :
  Forall good_comp cs -> Forall good_comp cs' ->
  abs_path cs = abs_path cs' -> cs = cs'.
Proof. intros H1 H2 E. by rewrite <- (rel_comps_abs cs), E, rel_comps_abs. Qed.

Lemma path_clean_rooted p :
  rooted p = true -> path_clean p = abs_path (rel_comps p).
Proof.
  intros H. unfold path_clean. rewrite H.
  destruct p as [|a p]; [done|]. done.
Qed.

Lemma rooted_abs cs : rooted (abs_path cs) = true.
Proof. apply has_prefix_app. Qed.

Lemma path_clean_abs cs : Forall good_comp cs -> path_clean (abs_path cs) = abs_path cs.
Proof.
  intros. rewrite path_clean_rooted by apply rooted_abs. by rewrite rel_comps_abs.
Qed.

(** ** Parents *)

Lemma str_contains_true c s1 s2 : str_contains c (s1 +:+ String c s2)%string = true.
Proof.
  unfold str_contains. rewrite str_count_app. cbn. rewrite Ascii.eqb_refl.
  by rewrite Nat.add_succ_r.
Qed.

Lemma dir_part_app s1 s2 :
  str_count slash s2 = O ->
  dir_part (s1 +:+ String slash s2)%string = (s1 +:+ "/")%string.
Proof.
  intros H. induction s1 as [|a s IH].
  - rewrite !str_app_nil_l. cbn [dir_part].
    assert (str_contains slash (String slash s2) = true) as ->
      by apply (str_contains_true slash "" s2).
    change "/" with (String slash ""). f_equal.
    destruct s2 as [|b s2]; [done|]. cbn [dir_part].
    unfold str_contains. by rewrite H.
  - rewrite !str_app_cons. cbn [dir_part].
    rewrite <- str_app_cons, str_contains_true, IH. done.
Qed.

Lemma join_with_snoc l x :
  l <> [] -> join_with "/" (l ++ [x]) = (join_with "/" l +:+ String slash x)%string.
Proof.
  induction l as [|y l IH]; intros Hn; [done|].
  destruct l as [|z l]; [done|].
  change (join_with "/" ((y :: z :: l) ++ [x]))
    with (y +:+ String slash (join_with "/" ((z :: l) ++ [x])))%string.
  rewrite IH by done.
  change (join_with "/" (y :: z :: l)) with (y +:+ String slash (join_with "/" (z :: l)))%string.
  rewrite <- str_app_assoc. done.
Qed.

Lemma abs_path_snoc cs x :
  exists s, abs_path (cs ++ [x]) = (s +:+ String slash x)%string
    /\ rel_comps s = rel_comps (abs_path cs) /\ (cs = [] -> s = "")
    /\ (cs <> [] -> s = abs_path cs).
Proof.
  destruct cs as [|y cs].
  - exists "". by repeat split.
  - exists (abs_path (y :: cs)). unfold abs_path.
    rewrite join_with_snoc, str_app_assoc by done.
    split; [done|]. split; [done|]. split; [discriminate|intros _; reflexivity].
Qed.

Lemma path_dir_snoc cs x :
  Forall good_comp cs -> good_comp x ->
  path_dir (abs_path (cs ++ [x])) = abs_path cs.
Proof.
  intros Hcs Hx. destruct (abs_path_snoc cs x) as (s & E & Hs & Hnil & Hcons).
  unfold path_dir. rewrite E, dir_part_app by eauto with go_db.
  rewrite path_clean_rooted.
  - change "/" with (String slash ""). rewrite rel_comps_app_slash, Hs, rel_comps_abs by done.
    cbn. by rewrite rev_involutive.
  - destruct cs as [|y cs]; [by rewrite Hnil|].
    rewrite Hcons by done. unfold abs_path. rewrite <- str_app_assoc.
    apply has_prefix_app.
Qed.

Lemma path_dir_root : path_dir (abs_path []) = abs_path [].
Proof. done. Qed.

(** ** Examples *)

Example path_clean_ex :
  (path_clean "/a/b/../c//./d", path_clean "../x/..", path_clean "a/..", path_clean "/..")
  = ("/a/c/d", "..", ".", "/").
Proof. reflexivity. Qed.

Example path_base_ex : (path_base "/a/b/", path_base "", path_base "//") = ("b", ".", "/").
Proof. reflexivity. Qed.

Lemma join_with_nonempty cs l :
  cs <> [] -> Forall good_comp cs -> join_with "/" (l ++ cs) <> "".
Proof.
  intros Hne Hcs. destruct cs as [|c cs]; [done|]. apply Forall_cons in Hcs as [(Hc & _) _].
  destruct l as [|x l]; cbn [app].
  - destruct cs; [done|]. rewrite join_with_cons. by destruct c.
  - destruct (l ++ c :: cs) as [|y k] eqn:El; [by destruct l|].
    rewrite join_with_cons. by destruct x.
Qed.

(** Cleaning a path with ordinary components at its end keeps them. *)
Lemma path_clean_below root cs :
  root <> "" -> cs <> [] -> Forall good_comp cs ->
  path_clean (root +:+ String slash (join_with "/" cs))%string
  = ((if rooted root then "/" else "")
     +:+ join_with "/" (rev (fold_left (clean_step (rooted root)) (split_on slash root) []) ++ cs))%string.
Proof.
  intros Hr Hne Hcs. unfold path_clean.
  assert (rooted (root +:+ String slash (join_with "/" cs))%string = rooted root) as ->.
  { destruct root as [|c root]; [done|]. rewrite str_app_cons. unfold rooted, has_prefix.
    cbn [String.prefix]. case_match; [by destruct root|done]. }
  destruct (String.eqb _ "") eqn:E.
  { apply String.eqb_eq in E. by destruct root. }
  rewrite split_on_app, fold_left_app, split_on_joined by done.
  rewrite fold_clean_push, rev_app_distr, rev_involutive by done.
  destruct (rooted root); [done|].
  rewrite (proj2 (String.eqb_neq _ _)); [done|]. by apply join_with_nonempty.
Qed.

(** A component joined below a non-empty root is appended to the cleaned rest. *)
Lemma path_join_snoc root d f :
  root <> "" -> good_comp d -> good_comp f ->
  path_join [root; d; f] = (path_join [root; d] +:+ String slash f)%string.
Proof.
  intros Hr Hd Hf. pose proof Hd as (Hd0 & _). pose proof Hf as (Hf0 & _).
  unfold path_join. rewrite !filter_cons_True by done. rewrite filter_nil.
  pose proof (path_clean_below root [d; f] Hr ltac:(done) ltac:(apply Forall_cons; split; [done|by apply Forall_singleton])) as H1.
  pose proof (path_clean_below root [d] Hr ltac:(done) ltac:(by apply Forall_singleton)) as H2.
  change (join_with "/" [root; d; f]) with (root +:+ String slash (join_with "/" [d; f]))%string.
  change (join_with "/" [root; d]) with (root +:+ String slash (join_with "/" [d]))%string.
  rewrite H1, H2. rewrite <- str_app_assoc, <- join_with_snoc, <- app_assoc; [done|].
  by destruct (rev _).
Qed.
