(* ===== verification/SyncPaths.v ===== *)
(** * Coordinates of a sync pass

    Source-relative and target-absolute paths of a sync job and the
    invalidation of cached directory ETags
    (src/backend/internal/sync/delta.go). *)

From S2P Require Import Prelude GoPath.

Definition cleanRelPath (p : string) : string :=
  let cleaned := path_clean ("/" +:+ p)%string in
  if String.eqb cleaned "." || String.eqb cleaned "" then "/" else cleaned.

Definition getSourceRelPath (targetPath targetDir : string) : string :=
  let targetPath := cleanRelPath targetPath in
  let targetDir := cleanRelPath targetDir in
  if String.eqb targetDir "/" then targetPath
  else
    let prefix := (targetDir +:+ "/")%string in
    if has_prefix targetPath prefix
    then cleanRelPath (str_drop (String.length prefix) targetPath)
    else if String.eqb targetPath targetDir then "/"
    else targetPath.

Definition getTargetAbsPath (relPath targetDir : string) : string :=
  let relPath := cleanRelPath relPath in
  let targetDir := cleanRelPath targetDir in
  if String.eqb targetDir "/" then relPath
  else if String.eqb relPath "/" then targetDir
  else (targetDir +:+ relPath)%string.

(** The loop of [invalidateParentDirectoryETags]; [None] when the fuel runs
    out before the root is reached. *)
Fixpoint invalidate_loop {V} (fuel : nat) (dirETags : gmap string V)
    (dirPath : string) : option (gmap string V) :=
  match fuel with
  | O => None
  | S fuel' =>
      let dirETags := delete dirPath dirETags in
      if String.eqb dirPath "/" then Some dirETags
      else invalidate_loop fuel' dirETags (path_dir dirPath)
  end.

Definition invalidateParentDirectoryETags {V} (dirETags : gmap string V)
    (relPath : string) : gmap string V :=
  let p := cleanRelPath relPath in
  default dirETags (invalidate_loop (S (str_count slash p)) dirETags (path_dir p)).

Definition invalidateProtectedPathDirectoryETags {V}
    (sourceDirETags targetDirETags : gmap string V) (protectedPaths : list string)
    : gmap string V * gmap string V :=
  fold_left (fun '(s, t) relPath =>
    (invalidateParentDirectoryETags s relPath,
     invalidateParentDirectoryETags t relPath))
    protectedPaths (sourceDirETags, targetDirETags).

(** ** Normal forms *)

Lemma abs_path_not_dot cs : abs_path cs <> "." /\ abs_path cs <> "".
Proof. split; intros H; inversion H. Qed.

Lemma cleanRelPath_abs p : cleanRelPath p = abs_path (rel_comps p).
Proof.
  unfold cleanRelPath.
  rewrite path_clean_rooted, rel_comps_slash by apply (has_prefix_app "/").
  destruct (abs_path_not_dot (rel_comps p)) as [H1 H2].
  by rewrite !(proj2 (String.eqb_neq _ _)).
Qed.

Lemma cleanRelPath_of_abs cs :
  Forall good_comp cs -> cleanRelPath (abs_path cs) = abs_path cs.
Proof. intros. by rewrite cleanRelPath_abs, rel_comps_abs. Qed.

Lemma cleanRelPath_idemp p : cleanRelPath (cleanRelPath p) = cleanRelPath p.
Proof. by rewrite !cleanRelPath_abs, rel_comps_abs by auto with go_db. Qed.

Lemma cleanRelPath_eq_iff p q :
  cleanRelPath p = cleanRelPath q <-> rel_comps p = rel_comps q.
Proof.
  rewrite !cleanRelPath_abs. split; [|by intros ->].
  apply abs_path_inj; auto with go_db.
Qed.

Lemma abs_path_root cs : Forall good_comp cs -> abs_path cs = "/" -> cs = [].
Proof. intros H E. by apply abs_path_inj; [done|constructor|]. Qed.

Lemma eqb_root cs :
  Forall good_comp cs ->
  String.eqb (abs_path cs) "/" = match cs with [] => true | _ => false end.
Proof.
  intros H. destruct cs as [|x cs]; [done|].
  apply String.eqb_neq. intros E. by apply abs_path_root in E.
Qed.

Lemma join_with_app xs ys :
  xs <> [] -> ys <> [] ->
  join_with "/" (xs ++ ys) = (join_with "/" xs +:+ ("/" +:+ join_with "/" ys))%string.
Proof.
  intros Hx Hy. induction xs as [|x xs IH]; [done|].
  destruct xs as [|x' xs]; [by destruct ys|].
  cbn [app] in *. rewrite !join_with_cons, IH by done.
  by rewrite !str_app_assoc.
Qed.

Lemma abs_path_app cs x ds :
  abs_path (x :: cs ++ ds)
  = (abs_path (x :: cs) +:+ match ds with [] => "" | _ => abs_path ds end)%string.
Proof.
  destruct ds as [|d ds]; [by rewrite app_nil_r, str_app_nil_r|].
  unfold abs_path. rewrite app_comm_cons, join_with_app by done.
  by rewrite str_app_assoc.
Qed.

Lemma getTargetAbsPath_comps p d :
  getTargetAbsPath p d = abs_path (rel_comps d ++ rel_comps p).
Proof.
  unfold getTargetAbsPath. rewrite !cleanRelPath_abs, !eqb_root by auto with go_db.
  destruct (rel_comps d) as [|x ds]; [done|].
  cbn [app]. rewrite abs_path_app.
  destruct (rel_comps p); [|done]. by rewrite str_app_nil_r.
Qed.

Lemma split_abs_path cs :
  Forall good_comp cs -> cs <> [] -> split_on slash (abs_path cs) = "" :: cs.
Proof.
  intros H Hn. unfold abs_path.
  change (split_on slash ("/" +:+ join_with "/" cs)%string)
    with ("" :: split_on slash (join_with "/" cs)).
  by rewrite split_on_joined.
Qed.

(** A normal path extends [d ++ "/"] exactly when its components strictly
    extend those of [d]. *)
Lemma has_prefix_dir ts ds :
  Forall good_comp ts -> Forall good_comp ds -> ds <> [] ->
  has_prefix (abs_path ts) (abs_path ds +:+ "/")%string = true ->
  exists cs, cs <> [] /\ ts = ds ++ cs.
Proof.
  intros Ht Hd Hn [r E]%has_prefix_true.
  rewrite <- str_app_assoc in E. change ("/" +:+ r)%string with (String slash r) in E.
  assert (ts <> []) as Hts.
  { intros ->. apply (f_equal (str_count slash)) in E.
    destruct ds; [done|]. unfold abs_path in E. autorewrite with go_rw in E.
    cbn in E. lia. }
  apply (f_equal (split_on slash)) in E.
  rewrite split_on_app, !split_abs_path in E by done.
  inversion E. exists (split_on slash r). auto with go_db.
Qed.

Lemma has_prefix_dir_false ts ds :
  Forall good_comp ts -> Forall good_comp ds -> ds <> [] ->
  has_prefix (abs_path ts) (abs_path ds +:+ "/")%string = false ->
  forall cs, cs <> [] -> ts <> ds ++ cs.
Proof.
  intros Ht Hd Hn Hf cs Hc ->. destruct ds as [|x ds]; [done|]. cbn [app] in Hf.
  rewrite abs_path_app in Hf. destruct cs as [|c cs]; [done|].
  unfold abs_path at 2 in Hf. rewrite str_app_assoc in Hf.
  by rewrite has_prefix_app in Hf.
Qed.

Lemma drop_dir_prefix ds cs :
  ds <> [] -> cs <> [] ->
  str_drop (String.length (abs_path ds +:+ "/")%string) (abs_path (ds ++ cs))
  = join_with "/" cs.
Proof.
  intros Hd Hc. destruct ds as [|x ds]; [done|]. destruct cs as [|c cs]; [done|].
  cbn [app]. rewrite abs_path_app.
  change (abs_path (c :: cs)) with ("/" +:+ join_with "/" (c :: cs))%string.
  by rewrite str_app_assoc, str_drop_app.
Qed.

(** [getSourceRelPath] strips the target directory from the paths below it and
    leaves every other path alone. *)
Lemma getSourceRelPath_under t d cs :
  rel_comps t = rel_comps d ++ cs -> getSourceRelPath t d = abs_path cs.
Proof.
  intros E. pose proof (rel_comps_good t) as Ht. pose proof (rel_comps_good d) as Hd.
  unfold getSourceRelPath. rewrite !cleanRelPath_abs, E, eqb_root by done.
  rewrite E in Ht. apply Forall_app in Ht as [_ Hc].
  destruct (rel_comps d) as [|x ds] eqn:Ed; [done|]. rewrite <- Ed in *.
  destruct (decide (cs = [])) as [->|Hcs].
  - rewrite app_nil_r, String.eqb_refl.
    destruct (has_prefix _ _) eqn:Hp; [|done].
    apply has_prefix_dir in Hp as (cs & Hcs & Hx); [|done|done|by rewrite Ed].
    apply (f_equal length) in Hx. rewrite length_app in Hx.
    destruct cs; [done|]. cbn in Hx. lia.
  - destruct (has_prefix _ _) eqn:Hp.
    + rewrite drop_dir_prefix by (done || by rewrite Ed).
      by rewrite rel_comps_joined.
    + eapply has_prefix_dir_false in Hp; [|by apply Forall_app|done|by rewrite Ed|done].
      done.
Qed.

Lemma getSourceRelPath_outside t d :
  (forall cs, rel_comps t <> rel_comps d ++ cs) -> getSourceRelPath t d = cleanRelPath t.
Proof.
  intros H. unfold getSourceRelPath. rewrite !cleanRelPath_abs, eqb_root by auto with go_db.
  destruct (rel_comps d) as [|x ds] eqn:Ed.
  { by destruct (H (rel_comps t)). }
  rewrite <- Ed in *. destruct (has_prefix _ _) eqn:Hp.
  - apply has_prefix_dir in Hp as (cs & _ & Hx); auto with go_db; [|by rewrite Ed].
    by destruct (H cs).
  - destruct (String.eqb _ _) eqn:He; [|done]. go_bool.
    apply abs_path_inj in He; auto with go_db.
    destruct (H []). by rewrite app_nil_r.
Qed.

(** ** Properties *)

(** The mapping of a source-relative path into the target directory and
    back is the identity on normal paths, whatever the spelling of either
    argument. *)
Theorem getSourceRelPath_getTargetAbsPath relPath targetDir :
  getSourceRelPath (getTargetAbsPath relPath targetDir) targetDir
  = cleanRelPath relPath.
Proof.
  rewrite cleanRelPath_abs, getTargetAbsPath_comps.
  apply getSourceRelPath_under, rel_comps_abs, Forall_app; auto with go_db.
Qed.

(** ** Invalidation of parent directories *)

(** The directories made of the first [n] components of [cs], for [n] below
    the bound. *)
Definition prefix_dirs (cs : list string) (bound : nat) : list string :=
  map (fun n => abs_path (take n cs)) (seq 0 bound).

(** The parent chain of [p]: its proper ancestors up to the root, which is on
    the chain of every path, its own included. *)
Definition parent_chain (p : string) : list string :=
  prefix_dirs (rel_comps p) (Nat.max 1 (length (rel_comps p))).

Lemma elem_of_prefix_dirs q cs k :
  q ∈ prefix_dirs cs k <-> exists n, (n < k)%nat /\ q = abs_path (take n cs).
Proof.
  unfold prefix_dirs. rewrite list_elem_of_In, in_map_iff. split.
  - intros (n & <- & Hn%in_seq). exists n. split; [lia|done].
  - intros (n & Hn & ->). exists n. split; [done|]. apply in_seq. lia.
Qed.

Lemma prefix_dirs_snoc q cs x :
  q ∈ prefix_dirs (cs ++ [x]) (S (length (cs ++ [x])))
  <-> q = abs_path (cs ++ [x]) \/ q ∈ prefix_dirs cs (S (length cs)).
Proof.
  rewrite !elem_of_prefix_dirs, length_app. cbn [length]. split.
  - intros (n & Hn & ->). destruct (decide (n = S (length cs))) as [->|].
    + left. rewrite take_ge; [done|]. rewrite length_app. cbn. lia.
    + right. exists n. split; [lia|]. rewrite take_app_le by lia. done.
  - intros [->|(n & Hn & ->)].
    + exists (S (length cs)). split; [lia|].
      rewrite take_ge; [done|]. rewrite length_app. cbn. lia.
    + exists n. split; [lia|]. rewrite take_app_le by lia. done.
Qed.

Lemma invalidate_loop_spec {V} cs fuel (m : gmap string V) :
  Forall good_comp cs -> (length cs < fuel)%nat ->
  exists m', invalidate_loop fuel m (abs_path cs) = Some m' /\
    forall q, m' !! q =
      if decide (q ∈ prefix_dirs cs (S (length cs))) then None else m !! q.
Proof.
  revert fuel m. induction cs as [|x cs IH] using rev_ind; intros fuel m Hg Hf.
  - destruct fuel as [|fuel]; [lia|]. exists (delete "/" m). split; [done|].
    intros q. case_decide as Hd.
    + apply elem_of_prefix_dirs in Hd as (n & _ & ->). rewrite take_nil.
      apply lookup_delete_eq.
    + apply lookup_delete_ne. intros <-. apply Hd, elem_of_prefix_dirs.
      exists O. cbn. split; [lia|done].
  - destruct fuel as [|fuel]; [lia|]. cbn [invalidate_loop].
    pose proof (Forall_snoc_inv _ _ _ Hg) as [Hcs Hx].
    rewrite eqb_root by done.
    replace (match cs ++ [x] with [] => true | _ => false end) with false
      by (destruct cs; reflexivity).
    rewrite path_dir_snoc by done. rewrite length_app in Hf. cbn in Hf.
    destruct (IH fuel (delete (abs_path (cs ++ [x])) m) Hcs) as (m' & -> & Hm'); [lia|].
    eexists. split; [done|]. intros q. rewrite Hm'.
    destruct (decide (q ∈ prefix_dirs (cs ++ [x]) _)) as [Hq|Hq];
      rewrite prefix_dirs_snoc in Hq; case_decide; [done| |tauto|].
    + destruct Hq as [->|]; [|tauto]. apply lookup_delete_eq.
    + apply lookup_delete_ne. intros <-. tauto.
Qed.

Lemma abs_path_slashes cs :
  Forall good_comp cs -> (length cs <= str_count slash (abs_path cs))%nat.
Proof.
  intros H. unfold abs_path. rewrite str_count_app. cbn [str_count].
  induction H as [|x cs Hx H IH]; [cbn; lia|].
  destruct cs as [|y cs]; [cbn; lia|].
  rewrite join_with_cons, !str_count_app. cbn in *. lia.
Qed.

Lemma path_dir_clean p :
  path_dir (cleanRelPath p) = abs_path (removelast (rel_comps p)).
Proof.
  rewrite cleanRelPath_abs. pose proof (rel_comps_good p) as H.
  destruct (rel_comps p) as [|x cs _] using rev_ind; [done|].
  apply Forall_snoc_inv in H as [??].
  by rewrite path_dir_snoc, removelast_last.
Qed.

Lemma parent_chain_removelast q p :
  q ∈ prefix_dirs (removelast (rel_comps p)) (S (length (removelast (rel_comps p))))
  <-> q ∈ parent_chain p.
Proof.
  unfold parent_chain. destruct (rel_comps p) as [|x cs _] using rev_ind; [done|].
  rewrite removelast_last, length_app, !elem_of_prefix_dirs. cbn [length].
  replace (Nat.max 1 (length cs + 1)) with (S (length cs)) by lia.
  split; intros (n & Hn & ->); exists n; (split; [lia|]); by rewrite take_app_le by lia.
Qed.

(** The invalidation loop always reaches the root, and it deletes the ETags of
    the parent chain and of nothing else. *)
Lemma lookup_invalidateParent {V} (m : gmap string V) p q :
  invalidateParentDirectoryETags m p !! q
  = if decide (q ∈ parent_chain p) then None else m !! q.
Proof.
  unfold invalidateParentDirectoryETags. rewrite path_dir_clean.
  assert (Forall good_comp (removelast (rel_comps p))) as Hg.
  { pose proof (rel_comps_good p) as H.
    destruct (rel_comps p) as [|x cs _] using rev_ind; [done|].
    rewrite removelast_last. by apply Forall_app in H as [? _]. }
  destruct (invalidate_loop_spec (removelast (rel_comps p))
    (S (str_count slash (cleanRelPath p))) m Hg) as (m' & -> & Hm').
  { rewrite cleanRelPath_abs. pose proof (abs_path_slashes _ (rel_comps_good p)).
    assert (length (removelast (rel_comps p)) <= length (rel_comps p))%nat; [|lia].
    destruct (rel_comps p) as [|x cs _] using rev_ind; [done|].
    rewrite removelast_last, length_app. lia. }
  cbn. rewrite Hm'.
  destruct (decide (q ∈ parent_chain p)) as [Hq|Hq];
    rewrite <- parent_chain_removelast in Hq; by case_decide.
Qed.

Lemma lookup_invalidateProtected {V} (s t : gmap string V) ps q :
  let '(s', t') := invalidateProtectedPathDirectoryETags s t ps in
  s' !! q = (if decide (Exists (fun p => q ∈ parent_chain p) ps) then None else s !! q)
  /\ t' !! q = (if decide (Exists (fun p => q ∈ parent_chain p) ps) then None else t !! q).
Proof.
  unfold invalidateProtectedPathDirectoryETags. revert s t.
  induction ps as [|p ps IH]; intros s t; cbn [fold_left].
  { case_decide as H; [by apply Exists_nil in H|done]. }
  specialize (IH (invalidateParentDirectoryETags s p) (invalidateParentDirectoryETags t p)).
  destruct (fold_left _ _ _) as [s' t'].
  destruct IH as [-> ->]. rewrite !lookup_invalidateParent.
  destruct (decide (Exists _ (p :: ps))) as [H|H]; rewrite Exists_cons in H;
    repeat case_decide; tauto.
Qed.

(** Invalidating the parent chain of the protected paths removes the cached
    ETag of every directory above one of them, on both sides, and keeps every
    other cached ETag. *)
Theorem invalidate_protected_exact (s t : gmap string string) ps q :
  let '(s', t') := invalidateProtectedPathDirectoryETags s t ps in
  (s' !! q = None /\ t' !! q = None /\ Exists (fun p => q ∈ parent_chain p) ps)
  \/ (s' !! q = s !! q /\ t' !! q = t !! q
      /\ Forall (fun p => q ∉ parent_chain p) ps).
Proof.
  pose proof (lookup_invalidateProtected s t ps q) as H.
  destruct (invalidateProtectedPathDirectoryETags s t ps) as [s' t'].
  destruct H as [-> ->]. case_decide as Hd; [by left|right].
  split; [done|]. split; [done|]. by apply not_Exists_Forall in Hd; [|apply _].
Qed.

Example parent_chain_ex :
  (parent_chain "a/b/c", parent_chain "/") = (["/"; "/a"; "/a/b"], ["/"]).
Proof. reflexivity. Qed.
