(* ===== verification/HashString.v ===== *)
(** * Provider hashes and timestamps

    [storage.ParseHashString] (src/backend/internal/storage/hash.go), the
    string case conversions it uses and the [time.Time] arithmetic of the
    change detection. *)

From S2P Require Import Prelude.

(** ** Case conversion *)

(** Go's [strings.ToUpper], [ToLower] and [EqualFold] work bytewise on ASCII
    strings and follow the Unicode tables otherwise; the tables are an
    interface of the model. *)
Class GoUnicode := {
  uni_ToUpper : string -> string;
  uni_ToLower : string -> string;
  uni_EqualFold : string -> string -> bool;
}.

Definition ascii_upper (a : ascii) : ascii :=
  let n := nat_of_ascii a in
  if ((97 <=? n) && (n <=? 122))%nat then ascii_of_nat (n - 32) else a.

Definition ascii_lower (a : ascii) : ascii :=
  let n := nat_of_ascii a in
  if ((65 <=? n) && (n <=? 90))%nat then ascii_of_nat (n + 32) else a.

Fixpoint is_ascii (s : string) : bool :=
  match s with
  | EmptyString => true
  | String a s' => (nat_of_ascii a <? 128)%nat && is_ascii s'
  end.

Section Case.
Context `{GoUnicode}.

Definition ToUpper (s : string) : string :=
  if is_ascii s then str_map ascii_upper s else uni_ToUpper s.

Definition ToLower (s : string) : string :=
  if is_ascii s then str_map ascii_lower s else uni_ToLower s.

Definition EqualFold (s t : string) : bool :=
  if is_ascii s && is_ascii t
  then String.eqb (str_map ascii_lower s) (str_map ascii_lower t)
  else uni_EqualFold s t.
End Case.

(** The tables of an ASCII-only deployment, used to evaluate examples. *)
Definition ascii_tables : GoUnicode := {|
  uni_ToUpper := fun s => s;
  uni_ToLower := fun s => s;
  uni_EqualFold := String.eqb;
|}.

(** ** Cutting at a byte *)

(** The parts of [s] around the first [c]: [strings.SplitN(s, c, 2)]. *)
Fixpoint cut_at (c : ascii) (s : string) : option (string * string) :=
  match s with
  | EmptyString => None
  | String a s' =>
      if Ascii.eqb a c then Some (EmptyString, s')
      else match cut_at c s' with
           | Some (l, r) => Some (String a l, r)
           | None => None
           end
  end.

Definition dquote : ascii := ascii_of_nat 34.
Definition dquote_s : string := String dquote "".

(** [strings.Trim(s, string(c))]. *)
Fixpoint trim_left (c : ascii) (s : string) : string :=
  match s with
  | EmptyString => EmptyString
  | String a s' => if Ascii.eqb a c then trim_left c s' else s
  end.

Fixpoint trim_right (c : ascii) (s : string) : string :=
  match s with
  | EmptyString => EmptyString
  | String a s' =>
      match trim_right c s' with
      | EmptyString => if Ascii.eqb a c then EmptyString else String a ""
      | t => String a t
      end
  end.

Definition str_trim (c : ascii) (s : string) : string := trim_right c (trim_left c s).

(** ** [ParseHashString] *)

Section Hash.
Context `{GoUnicode}.

Definition hash_algo_alias (algo : string) : string :=
  if String.eqb algo "SHA-256" || String.eqb algo "SHA256" then "SHA256"
  else if String.eqb algo "SHA-1" || String.eqb algo "SHA1" then "SHA1"
  else if String.eqb algo "MD-5" || String.eqb algo "MD5" then "MD5"
  else if String.eqb algo "QUICKXOR" || String.eqb algo "QUICKXORHASH" then "QUICKXOR"
  else algo.

Definition parse_unquoted (hashStr : string) : string * string :=
  match cut_at ":"%char hashStr with
  | Some (a, v) =>
      let algo := hash_algo_alias (ToUpper a) in
      (algo, if String.eqb algo "QUICKXOR" then v else ToLower v)
  | None => ("UNKNOWN", hashStr)
  end.

Definition ParseHashString (hashStr : string) : string * string :=
  if has_prefix hashStr dquote_s || has_suffix hashStr dquote_s then
    if (String.length hashStr <? 2)%nat
       || negb (has_prefix hashStr dquote_s) || negb (has_suffix hashStr dquote_s)
    then ("UNKNOWN", hashStr)
    else parse_unquoted (str_take (String.length hashStr - 2) (str_drop 1 hashStr))
  else parse_unquoted hashStr.
End Hash.

(** ** Timestamps *)

(** A [time.Time] as nanoseconds since the zero time. *)
Definition gotime := Z.
Definition time_IsZero (t : gotime) : bool := t =? 0.

(** [Time.Sub] saturates to the range of [Duration], an int64. *)
Definition time_Sub (a b : gotime) : Z := Z.max min_int64 (Z.min max_int64 (a - b)).

(** [if d < 0 { d = -d }] on an int64: the least value is its own negation. *)
Definition abs_duration (d : Z) : Z := if d <? 0 then wrap64 (- d) else d.

Definition two_seconds : Z := 2000000000.

(** The timestamps differ by at least the two-second tolerance. *)
Definition mtime_differs (a b : gotime) : bool :=
  two_seconds <=? abs_duration (time_Sub a b).

Lemma mtime_differs_refl a : mtime_differs a a = false.
Proof. unfold mtime_differs, time_Sub. by rewrite Z.sub_diag. Qed.

(** On representable differences the tolerance test is exact. *)
Lemma mtime_differs_spec a b :
  in_int64 (a - b) -> a - b <> min_int64 ->
  mtime_differs a b = (two_seconds <=? Z.abs (a - b)).
Proof.
  unfold mtime_differs, time_Sub, abs_duration, in_int64. intros H Hn.
  rewrite Z.min_r, Z.max_r by lia.
  destruct (a - b <? 0) eqn:E; go_bool; [|by rewrite Z.abs_eq by lia].
  rewrite wrap64_id; [by rewrite Z.abs_neq by lia|].
  unfold in_int64, min_int64, max_int64, two63 in *. lia.
Qed.

(** A difference below the range of a [Duration] saturates, its negation
    overflows and the tolerance test calls the timestamps equal. *)
Lemma mtime_differs_saturates a b : a - b <= min_int64 -> mtime_differs a b = false.
Proof.
  intros H. unfold mtime_differs, time_Sub.
  rewrite Z.max_l; [done|]. unfold min_int64, max_int64, two63 in *. lia.
Qed.

Example parse_hash_ex :
  let _ := ascii_tables in
  (ParseHashString "sha-1:ABC", ParseHashString "quickXorHash:aB=",
   ParseHashString (dquote_s +:+ "md5:Aa" +:+ dquote_s)%string, ParseHashString "zz")
  = (("SHA1", "abc"), ("QUICKXOR", "aB="), ("MD5", "aa"), ("UNKNOWN", "zz")).
Proof. reflexivity. Qed.
