(* ===== verification/Digits.v ===== *)
(** * Decimal numbers

    Formatting with [%d] and reading back with [strconv.ParseInt(s, 10, 64)]. *)

From S2P Require Import Prelude HashString.

Definition digit (n : Z) : ascii := ascii_of_nat (48 + Z.to_nat n).

(** Twenty digits are enough for 64 bits. *)
Fixpoint dec_digits (fuel : nat) (n : Z) (acc : string) : string :=
  match fuel with
  | O => acc
  | S fuel =>
      let acc := String (digit (n mod 10)) acc in
      if n / 10 =? 0 then acc else dec_digits fuel (n / 10) acc
  end.

Definition format_int (n : Z) : string :=
  if n <? 0 then ("-" +:+ dec_digits 20 (- n) "")%string else dec_digits 20 n "".

Definition digit_value (c : ascii) : option Z :=
  let n := nat_of_ascii c in
  if ((48 <=? n) && (n <=? 57))%nat then Some (Z.of_nat n - 48) else None.

Fixpoint parse_digits (s : string) (acc : Z) : option Z :=
  match s with
  | EmptyString => Some acc
  | String c s =>
      match digit_value c with
      | Some d => parse_digits s (acc * 10 + d)
      | None => None
      end
  end.

Definition ParseInt (s : string) : option Z :=
  let '(neg, digits) :=
    match s with
    | String c rest => if Ascii.eqb c "-"%char then (true, rest)
                       else if Ascii.eqb c "+"%char then (false, rest) else (false, s)
    | EmptyString => (false, s)
    end in
  if String.eqb digits "" then None
  else match parse_digits digits 0 with
  | None => None
  | Some n =>
      if neg then if two63 <? n then None else Some (- n)
      else if two63 <=? n then None else Some n
  end.

(** ** Numbers read back *)

(** A test that succeeds on the ten digits. *)
Lemma digit_cases (P : Z -> bool) n :
  forallb P (map Z.of_nat (seq 0 10)) = true -> 0 <= n < 10 -> P n = true.
Proof.
  rewrite forallb_forall. intros HP H. apply HP, in_map_iff. exists (Z.to_nat n).
  split; [lia|]. apply in_seq. lia.
Qed.

Lemma digit_value_digit n : 0 <= n < 10 -> digit_value (digit n) = Some n.
Proof.
  intros H.
  pose proof (digit_cases (fun n => bool_decide (digit_value (digit n) = Some n)) n eq_refl H) as Hb.
  by apply bool_decide_eq_true in Hb.
Qed.

Fixpoint str_pow10 (s : string) : Z :=
  match s with EmptyString => 1 | String _ s => 10 * str_pow10 s end.

Lemma parse_dec_digits fuel n acc v :
  0 <= n < 10 ^ Z.of_nat fuel -> (0 < fuel)%nat ->
  parse_digits (dec_digits fuel n acc) v
  = parse_digits acc (v * 10 ^ (Z.of_nat (String.length (dec_digits fuel n acc)) - Z.of_nat (String.length acc)) + n).
Proof.
  revert n acc. induction fuel as [|fuel IH]; intros n acc Hn Hf; [lia|]. cbn [dec_digits].
  assert (0 <= n mod 10 < 10) as Hm by (apply Z.mod_pos_bound; lia).
  destruct (n / 10 =? 0) eqn:E.
  - cbn [parse_digits String.length]. rewrite digit_value_digit by done.
    assert (n = n mod 10) as Hnn by (Z.div_mod_to_equations; lia).
    replace (Z.of_nat (S (String.length acc)) - Z.of_nat (String.length acc)) with 1 by lia.
    by rewrite Z.pow_1_r, <- Hnn.
  - destruct fuel as [|fuel].
    { change (10 ^ Z.of_nat 1) with 10 in Hn. Z.div_mod_to_equations; lia. }
    rewrite IH; [|rewrite (Nat2Z.inj_succ (S fuel)), Z.pow_succ_r in Hn by lia|lia].
    2: { split; [apply Z.div_pos; lia|apply Z.div_lt_upper_bound; lia]. }
    cbn [parse_digits]. rewrite digit_value_digit by done.
    set (d := dec_digits (S fuel) (n / 10) (String (digit (n mod 10)) acc)) in *.
    assert (String.length (String (digit (n mod 10)) acc) <= String.length d)%nat as Hlen.
    { unfold d. clear. generalize (String (digit (n mod 10)) acc) as a, (n / 10) as m, (S fuel) as f.
      intros a m f. revert a m. induction f as [|f IHf]; intros a m; [done|]. cbn [dec_digits].
      destruct (m / 10 =? 0); [cbn; lia|]. etransitivity; [|apply IHf]. cbn. lia. }
    cbn [String.length] in *. f_equal.
    replace (Z.of_nat (String.length d) - Z.of_nat (String.length acc))
      with (Z.succ (Z.of_nat (String.length d) - Z.of_nat (S (String.length acc)))) by lia.
    rewrite Z.pow_succ_r by lia. pose proof (Z.div_mod n 10 ltac:(lia)). lia.
Qed.

Definition is_digit (c : ascii) : bool := let n := nat_of_ascii c in ((48 <=? n) && (n <=? 57))%nat.

Fixpoint all_digits (s : string) : bool :=
  match s with EmptyString => true | String c s => is_digit c && all_digits s end.

Lemma is_digit_digit n : 0 <= n < 10 -> is_digit (digit n) = true.
Proof.
  by apply (digit_cases (fun n => is_digit (digit n))).
Qed.

Lemma dec_digits_all fuel n acc :
  all_digits acc = true -> all_digits (dec_digits fuel n acc) = true.
Proof.
  revert n acc. induction fuel as [|fuel IH]; intros n acc Ha; [done|]. cbn [dec_digits].
  assert (all_digits (String (digit (n mod 10)) acc) = true) as Hd.
  { cbn. rewrite Ha, is_digit_digit by (apply Z.mod_pos_bound; lia). done. }
  destruct (n / 10 =? 0); [done|by apply IH].
Qed.

Lemma dec_digits_nonempty fuel n acc : acc <> "" \/ (0 < fuel)%nat -> dec_digits fuel n acc <> "".
Proof.
  revert n acc. induction fuel as [|fuel IH]; intros n acc Ha; [destruct Ha; [done|lia]|].
  cbn [dec_digits]. destruct (n / 10 =? 0); [done|]. apply IH. by left.
Qed.

Lemma format_int_digits n :
  0 <= n < two63 -> all_digits (format_int n) = true /\ format_int n <> "".
Proof.
  intros Hn. unfold format_int. destruct (n <? 0) eqn:E; [lia|].
  split; [by apply dec_digits_all|apply dec_digits_nonempty; lia].
Qed.

Lemma parse_format_int n : 0 <= n < two63 -> ParseInt (format_int n) = Some n.
Proof.
  intros Hn. destruct (format_int_digits n Hn) as [Ha Hne]. unfold ParseInt.
  assert (parse_digits (format_int n) 0 = Some n) as Hp.
  { unfold format_int. destruct (n <? 0) eqn:E; [lia|].
    rewrite parse_dec_digits by (unfold two63 in *; lia). reflexivity. }
  destruct (format_int n) as [|c s] eqn:Es; [done|]. rewrite <- Es in *.
  assert ((if Ascii.eqb c "-"%char then (true, s)
           else if Ascii.eqb c "+"%char then (false, s) else (false, format_int n))
          = (false, format_int n)) as Hs.
  { rewrite Es in Ha. cbn in Ha. apply andb_prop in Ha as [Ha _].
    destruct (Ascii.eqb c "-"%char) eqn:E1; [by apply Ascii.eqb_eq in E1 as ->|].
    destruct (Ascii.eqb c "+"%char) eqn:E2; [by apply Ascii.eqb_eq in E2 as ->|done]. }
  rewrite Hs. apply String.eqb_neq in Hne. rewrite Hne, Hp.
  destruct (two63 <=? n) eqn:E; [lia|done].
Qed.

Lemma digits_no_char c s : is_digit c = false -> all_digits s = true -> str_count c s = O.
Proof.
  intros Hc. induction s as [|a s IH]; [done|]. cbn. intros [Ha Hs]%andb_prop.
  destruct (Ascii.eqb a c) eqn:E; [apply Ascii.eqb_eq in E as ->; congruence|by apply IH].
Qed.

Lemma digits_ascii s : all_digits s = true -> is_ascii s = true.
Proof.
  induction s as [|a s IH]; [done|]. cbn [all_digits is_ascii]. intros [Ha Hs]%andb_prop.
  rewrite IH by done. apply andb_prop in Ha as [_ Ha]. apply Nat.leb_le in Ha.
  assert ((nat_of_ascii a <? 128)%nat = true) as -> by (apply Nat.ltb_lt; lia). done.
Qed.

