(* ===== verification/Storage.v ===== *)
(** * Storage providers

    The resource record and the part of the [StorageProvider] interface the
    modelled clients use (src/backend/internal/storage/provider.go).  A
    provider is a state with operations: the remote tree it serves, which other
    writers may change between calls, is its state. *)

From S2P Require Import Prelude HashString.

(** The provider-specific [Metadata] map is not part of the model. *)
Record CloudResource := mkResource {
  res_Path : string;
  res_Name : string;
  res_Size : Z;
  res_IsDir : bool;
  res_Hash : string;
  res_ETag : string;
  res_LastModified : gotime;
}.

#[export] Instance CloudResource_eq_dec : EqDecision CloudResource.
Proof. solve_decision. Defined.

(** The errors the clients tell apart with [errors.Is]; every other error is
    [OtherErr]. *)
Inductive storage_error : Type :=
| ErrNotFound
| OtherErr (msg : string).

#[export] Instance storage_error_eq_dec : EqDecision storage_error.
Proof. solve_decision. Defined.

Definition is_not_found {A} (r : res storage_error A) : bool :=
  match r with Err ErrNotFound => true | _ => false end.

(** Operations on the provider state [St], each for the resource type the
    caller passes (always "files" here). *)
Record StorageProvider (St : Type) := mkProvider {
  GetDirectoryListing : St -> string -> res storage_error (list CloudResource) * St;
  InspectResource : St -> string -> res storage_error CloudResource * St;
  DeleteFile : St -> string -> res storage_error unit * St;
  CreateDirectory : St -> string -> res storage_error unit * St;
  RenameFile : St -> string -> string -> res storage_error unit * St;
}.
Arguments GetDirectoryListing {St} _ _ _.
Arguments InspectResource {St} _ _ _.
Arguments DeleteFile {St} _ _ _.
Arguments CreateDirectory {St} _ _ _.
Arguments RenameFile {St} _ _ _ _.
