(* ===== verification/SyncDelta.v ===== *)
(** * Delta calculation of a sync pass

    Change detection and the decision taken for every path of a sync pass:
    src/backend/internal/sync/delta.go ([isFileModified],
    [isFileMatchingTarget], [calculateDirectoryDelta]) and step 7 of
    [runSyncPass] in src/backend/internal/sync/engine.go. *)

From S2P Require Import Prelude GoPath SyncPaths HashString.

(** ** Data *)

Record fileState := mkFileState {
  fs_Path : string;
  fs_Size : Z;
  fs_LastModified : gotime;
  fs_Hash : string;
  fs_ETag : string;
}.

(** A row of the sync_state table without its surrogate key. *)
Record SyncState := mkSyncState {
  ss_SyncJobID : string;
  ss_Side : string;
  ss_RelPath : string;
  ss_Size : Z;
  ss_Mtime : option gotime;
  ss_SourceHash : string;
  ss_TargetHash : string;
  ss_ETag : string;
}.

Record taskToCreate := mkTask {
  filePath : string;
  fileSize : Z;
  sourceHash : string;
  resourceType : string;
  action : string;
  side : string;
  task_id : string;
  prerequisiteTaskID : string;
}.

Record directoryCleanupCandidate := mkCandidate {
  cand_relPath : string;
  cand_side : string;
}.

#[export] Instance fileState_eq_dec : EqDecision fileState.
Proof. solve_decision. Defined.
#[export] Instance SyncState_eq_dec : EqDecision SyncState.
Proof. solve_decision. Defined.
#[export] Instance taskToCreate_eq_dec : EqDecision taskToCreate.
Proof. solve_decision. Defined.
#[export] Instance candidate_eq_dec : EqDecision directoryCleanupCandidate.
Proof. solve_decision. Defined.

(** The settings of the job the pass reads. *)
Record SyncConfig := mkSyncConfig {
  Direction : string;
  ConflictStrategy : string;
  DeletePropagation : bool;
}.

(** ** Change detection *)

Section Compare.
Context `{GoUnicode}.

(** Two hashes compare when both are present and their values are. *)
Definition hash_verdict (a b : string) : option bool :=
  if negb (String.eqb a "") && negb (String.eqb b "") then
    let '(_, ca) := ParseHashString a in
    let '(_, cb) := ParseHashString b in
    if negb (String.eqb ca "") && negb (String.eqb cb "")
    then Some (String.eqb ca cb) else None
  else None.

Definition etag_verdict (a b : string) : option bool :=
  if negb (String.eqb a "") && negb (String.eqb b "") then
    let ca := str_trim dquote a in
    let cb := str_trim dquote b in
    if negb (String.eqb ca "") && negb (String.eqb cb "")
    then Some (String.eqb ca cb) else None
  else None.

Definition isFileModified (curr : fileState) (prev : SyncState) (isSource : bool)
    : bool :=
  if negb (fs_Size curr =? ss_Size prev) then true
  else
    let prevHash :=
      if isSource then ss_SourceHash prev
      else if String.eqb (ss_TargetHash prev) "" then ss_SourceHash prev
      else ss_TargetHash prev in
    match hash_verdict (fs_Hash curr) prevHash with
    | Some same => negb same
    | None =>
      match etag_verdict (fs_ETag curr) (ss_ETag prev) with
      | Some same => negb same
      | None =>
        match ss_Mtime prev with
        | Some t => negb (time_IsZero (fs_LastModified curr))
                    && mtime_differs (fs_LastModified curr) t
        | None => false
        end
      end
    end.

Definition isFileMatchingTarget (src tgt : fileState) : bool :=
  if negb (fs_Size src =? fs_Size tgt) then false
  else
    match hash_verdict (fs_Hash src) (fs_Hash tgt) with
    | Some same => same
    | None =>
      if negb (time_IsZero (fs_LastModified src))
         && negb (time_IsZero (fs_LastModified tgt))
      then negb (mtime_differs (fs_LastModified src) (fs_LastModified tgt))
      else true
    end.

Definition conflictNeedsRename (strategy : string) : bool :=
  String.eqb strategy "RENAME".

(** ** The decision for one path *)

(** What the pass knows of one path. *)
Record pathView := mkView {
  v_src : option fileState;
  v_tgt : option fileState;
  v_psrc : option SyncState;
  v_ptgt : option SyncState;
}.

Definition has {A} (o : option A) : bool :=
  match o with Some _ => true | None => false end.

Definition inSyncDirectMatch (v : pathView) : bool :=
  match v_src v, v_tgt v with
  | Some s, Some t => isFileMatchingTarget s t
  | _, _ => false
  end.

Definition srcModified (v : pathView) : bool :=
  match v_src v with
  | Some s =>
      if inSyncDirectMatch v then false
      else match v_psrc v with
           | Some p => isFileModified s p true
           | None => true
           end
  | None => false
  end.

Definition tgtModified (v : pathView) : bool :=
  match v_tgt v with
  | Some t =>
      if inSyncDirectMatch v then false
      else match v_ptgt v with
           | Some p => isFileModified t p false
           | None => true
           end
  | None => false
  end.

(** A missing map entry reads as the zero value. *)
Definition zero_file : fileState := mkFileState "" 0 0 "" "".

Definition upload_task (S : string) (src : fileState) (pre : string) : taskToCreate :=
  mkTask S (fs_Size src) (fs_Hash src) "files" "upload" "" "" pre.
Definition download_task (S : string) (tgt : fileState) : taskToCreate :=
  mkTask S (fs_Size tgt) (fs_Hash tgt) "files" "download" "" "" "".
Definition delete_task (S side : string) : taskToCreate :=
  mkTask S 0 "" "files" "delete" side "" "".
Definition conflict_copy_task (S id : string) : taskToCreate :=
  mkTask S 0 "" "files" "conflict_copy" "target" id "".

(** The rename tasks and the other tasks of one path. *)
Definition path_tasks : Type := list taskToCreate * list taskToCreate.

Definition delta_one_way (cfg : SyncConfig) (S : string) (v : pathView) : path_tasks :=
  let srcFile := default zero_file (v_src v) in
  let hasSrc := has (v_src v) in
  let hasTgt := has (v_tgt v) in
  let hasPrevSrc := has (v_psrc v) in
  if hasSrc && (srcModified v || negb hasTgt) then ([], [upload_task S srcFile ""])
  else if negb hasSrc && hasPrevSrc then
    if DeletePropagation cfg && hasTgt then ([], [delete_task S "target"]) else ([], [])
  else ([], []).

(** Both sides changed: the conflict strategy decides.  [uuid] is the value
    [uuid.NewString] returns. *)
Definition delta_conflict (cfg : SyncConfig) (S : string) (srcFile : fileState)
    (uuid : string) : path_tasks :=
  if String.eqb (ConflictStrategy cfg) "OVERWRITE" then ([], [upload_task S srcFile ""])
  else if String.eqb (ConflictStrategy cfg) "SKIP" then ([], [])
  else if String.eqb (ConflictStrategy cfg) "RENAME" then
    if conflictNeedsRename (ConflictStrategy cfg)
    then ([conflict_copy_task S uuid], [upload_task S srcFile uuid])
    else ([], [upload_task S srcFile ""])
  else ([], []).

Definition delta_two_way (cfg : SyncConfig) (S : string) (v : pathView) (uuid : string)
    : path_tasks :=
  let srcFile := default zero_file (v_src v) in
  let tgtFile := default zero_file (v_tgt v) in
  let hasSrc := has (v_src v) in
  let hasTgt := has (v_tgt v) in
  let srcDeleted := negb hasSrc && has (v_psrc v) in
  let tgtDeleted := negb hasTgt && has (v_ptgt v) in
  if hasSrc && hasTgt && inSyncDirectMatch v then ([], [])
  else if hasSrc && srcModified v && hasTgt && tgtModified v then
    delta_conflict cfg S srcFile uuid
  else if hasSrc && (srcModified v || (negb hasTgt && negb tgtDeleted)) then
    ([], [upload_task S srcFile ""])
  else if hasTgt && (tgtModified v || (negb hasSrc && negb srcDeleted)) then
    ([], [download_task S tgtFile])
  else if srcDeleted && (negb hasTgt || negb (tgtModified v)) then
    if DeletePropagation cfg && hasTgt then ([], [delete_task S "target"]) else ([], [])
  else if tgtDeleted && (negb hasSrc || negb (srcModified v)) then
    if DeletePropagation cfg && hasSrc then ([], [delete_task S "source"]) else ([], [])
  else ([], []).

Definition delta_path (cfg : SyncConfig) (S : string) (v : pathView) (uuid : string)
    : path_tasks :=
  if String.eqb (Direction cfg) "one_way" then delta_one_way cfg S v
  else delta_two_way cfg S v uuid.

(** ** The delta of a pass *)

Record passMaps := mkMaps {
  sourceMap : gmap string fileState;
  targetMap : gmap string fileState;
  prevSource : gmap string SyncState;
  prevTarget : gmap string SyncState;
}.

Definition view_at (m : passMaps) (S : string) : pathView :=
  mkView (sourceMap m !! S) (targetMap m !! S) (prevSource m !! S) (prevTarget m !! S).

Definition allKeys (m : passMaps) : gset string :=
  dom (sourceMap m) ∪ dom (targetMap m) ∪ dom (prevSource m) ∪ dom (prevTarget m).

(** The loop over the paths in the order [keys] the map iteration gives;
    [newUUID S] is the identifier drawn for a rename at [S]. *)
Definition delta_loop (cfg : SyncConfig) (m : passMaps) (newUUID : string -> string)
    (keys : list string) : path_tasks :=
  fold_left (fun '(renames, tasks) S =>
    let '(r, t) := delta_path cfg S (view_at m S) (newUUID S) in
    (renames ++ r, tasks ++ t)) keys ([], []).
End Compare.

(** ** Directories *)

Definition mkdir_task (dirPath side : string) : taskToCreate :=
  mkTask dirPath 0 "" "files" "mkdir" side "" "".

Definition dir_outcome : Type := list taskToCreate * list directoryCleanupCandidate.

(** The three loops of [calculateDirectoryDelta], each over its own map in the
    order of the given list; a set stands for a map to [true]. *)
Definition source_dir_step (two_way prop : bool) (targetDirs prevTargetDirs : gset string)
    (dir : string) : dir_outcome :=
  let dirPath := cleanRelPath dir in
  if String.eqb dirPath "/" || bool_decide (dirPath ∈ targetDirs) then ([], [])
  else if negb two_way || negb (bool_decide (dirPath ∈ prevTargetDirs))
  then ([mkdir_task dirPath "target"], [])
  else if prop then ([], [mkCandidate dirPath "source"]) else ([], []).

Definition target_dir_step (prop : bool) (sourceDirs prevSourceDirs : gset string)
    (dir : string) : dir_outcome :=
  let dirPath := cleanRelPath dir in
  if String.eqb dirPath "/" || bool_decide (dirPath ∈ sourceDirs) then ([], [])
  else if negb (bool_decide (dirPath ∈ prevSourceDirs))
  then ([mkdir_task dirPath "source"], [])
  else if prop then ([], [mkCandidate dirPath "target"]) else ([], []).

Definition gone_dir_step (sourceDirs targetDirs : gset string) (dir : string) : dir_outcome :=
  let dirPath := cleanRelPath dir in
  if negb (String.eqb dirPath "/") && negb (bool_decide (dirPath ∈ sourceDirs))
     && bool_decide (dirPath ∈ targetDirs)
  then ([], [mkCandidate dirPath "target"]) else ([], []).

Definition dir_loop (step : string -> dir_outcome) (dirs : list string) (acc : dir_outcome)
    : dir_outcome :=
  fold_left (fun '(ts, cs) d => let '(t, c) := step d in (ts ++ t, cs ++ c)) dirs acc.

(** [so], [to] and [po] are the orders in which the maps are iterated. *)
Definition calculateDirectoryDelta (direction : string) (deletePropagation : bool)
    (sourceDirs targetDirs prevSourceDirs prevTargetDirs : gset string)
    (so to po : list string) : dir_outcome :=
  let two_way := String.eqb direction "two_way" in
  let one_way := String.eqb direction "one_way" in
  let acc := dir_loop (source_dir_step two_way deletePropagation targetDirs prevTargetDirs)
               so ([], []) in
  let acc := if two_way
    then dir_loop (target_dir_step deletePropagation sourceDirs prevSourceDirs) to acc
    else acc in
  if one_way && deletePropagation
  then dir_loop (gone_dir_step sourceDirs targetDirs) po acc
  else acc.

(** ** Lemmas *)

(** Evaluates the conditions of the delta on a view whose four entries are
    known to be present or absent. *)
Ltac delta_norm :=
  cbn in *;
  repeat (progress cbn in * || match goal with
  | H : context [_ && true] |- _ => rewrite andb_true_r in H
  | H : context [_ && false] |- _ => rewrite andb_false_r in H
  | H : context [_ || true] |- _ => rewrite orb_true_r in H
  | H : context [_ || false] |- _ => rewrite orb_false_r in H
  | H : _ ∈ [] |- _ => apply elem_of_nil in H; destruct H
  | H : false = true |- _ => discriminate H
  | H : true = false |- _ => discriminate H
  end).
Ltac delta_cases :=
  repeat (delta_norm; match goal with
  | |- context [if ?b then _ else _] => destruct b eqn:?; cbn in *; try done
  | H : context [if ?b then _ else _] |- _ => destruct b eqn:?; cbn in *; try done
  end); delta_norm.

Lemma elem_of_fold_pairs {A B C} (f : C -> list A * list B) (l : list C) r0 t0 x :
  x ∈ (fold_left (fun '(r, t) c => let '(r', t') := f c in (r ++ r', t ++ t')) l (r0, t0)).2
  <-> x ∈ t0 \/ exists c, c ∈ l /\ x ∈ (f c).2.
Proof.
  revert r0 t0. induction l as [|c l IH]; intros r0 t0; cbn [fold_left].
  { split; [by left|]. intros [?|(?&H&_)]; [done|]. by apply elem_of_nil in H. }
  destruct (f c) as [r' t'] eqn:E. rewrite IH, elem_of_app. split.
  - intros [[?|Hx]|(c' & ? & ?)]; [by left| |].
    + right. exists c. rewrite E. split; [by left|done].
    + right. exists c'. split; [by right|done].
  - intros [?|(c' & Hc & Hx)]; [by left; left|].
    apply elem_of_cons in Hc as [->|Hc]; [rewrite E in Hx; by left; right|].
    right. by exists c'.
Qed.

Lemma elem_of_fold_pairs_fst {A B C} (f : C -> list A * list B) (l : list C) r0 t0 x :
  x ∈ (fold_left (fun '(r, t) c => let '(r', t') := f c in (r ++ r', t ++ t')) l (r0, t0)).1
  <-> x ∈ r0 \/ exists c, c ∈ l /\ x ∈ (f c).1.
Proof.
  revert r0 t0. induction l as [|c l IH]; intros r0 t0; cbn [fold_left].
  { split; [by left|]. intros [?|(?&H&_)]; [done|]. by apply elem_of_nil in H. }
  destruct (f c) as [r' t'] eqn:E. rewrite IH, elem_of_app. split.
  - intros [[?|Hx]|(c' & ? & ?)]; [by left| |].
    + right. exists c. rewrite E. split; [by left|done].
    + right. exists c'. split; [by right|done].
  - intros [?|(c' & Hc & Hx)]; [by left; left|].
    apply elem_of_cons in Hc as [->|Hc]; [rewrite E in Hx; by left; right|].
    right. by exists c'.
Qed.

Section Facts.
Context `{GoUnicode}.

Lemma elem_of_delta_loop cfg m uuid keys t :
  t ∈ (delta_loop cfg m uuid keys).2
  <-> exists S, S ∈ keys /\ t ∈ (delta_path cfg S (view_at m S) (uuid S)).2.
Proof.
  unfold delta_loop.
  rewrite (elem_of_fold_pairs (fun S => delta_path cfg S (view_at m S) (uuid S))).
  split; [|by right]. intros [Hx|?]; [by apply elem_of_nil in Hx|done].
Qed.

Lemma elem_of_delta_renames cfg m uuid keys t :
  t ∈ (delta_loop cfg m uuid keys).1
  <-> exists S, S ∈ keys /\ t ∈ (delta_path cfg S (view_at m S) (uuid S)).1.
Proof.
  unfold delta_loop.
  rewrite (elem_of_fold_pairs_fst (fun S => delta_path cfg S (view_at m S) (uuid S))).
  split; [|by right]. intros [Hx|?]; [by apply elem_of_nil in Hx|done].
Qed.

(** The tasks of one path are for that path, at most one of each kind. *)
Lemma delta_path_shape cfg S v uuid :
  exists r t, delta_path cfg S v uuid = (r, t) /\ (length r <= 1)%nat /\ (length t <= 1)%nat
    /\ Forall (fun x => filePath x = S) r /\ Forall (fun x => filePath x = S) t.
Proof.
  unfold delta_path, delta_one_way, delta_two_way, delta_conflict.
  delta_cases; do 2 eexists; (split; [done|]); cbn; repeat split; repeat constructor.
Qed.

Lemma delta_path_filePath cfg S v uuid t :
  t ∈ (delta_path cfg S v uuid).2 -> filePath t = S.
Proof.
  destruct (delta_path_shape cfg S v uuid) as (r & ts & -> & _ & _ & _ & Hf).
  intros Ht. by rewrite Forall_forall in Hf; apply Hf.
Qed.

Lemma hash_verdict_refl a : hash_verdict a a <> Some false.
Proof.
  unfold hash_verdict. destruct (ParseHashString a) as [x y].
  rewrite String.eqb_refl. by repeat case_match.
Qed.

Lemma etag_verdict_refl a : etag_verdict a a <> Some false.
Proof. unfold etag_verdict. rewrite String.eqb_refl. by repeat case_match. Qed.

(** Modification is decided relative to the view alone. *)
Lemma tgtModified_baseline v t p :
  v_tgt v = Some t -> v_ptgt v = Some p -> inSyncDirectMatch v = false ->
  tgtModified v = isFileModified t p false.
Proof. intros Ht Hp Hm. unfold tgtModified. by rewrite Ht, Hp, Hm. Qed.

Lemma srcModified_baseline v s p :
  v_src v = Some s -> v_psrc v = Some p -> inSyncDirectMatch v = false ->
  srcModified v = isFileModified s p true.
Proof. intros Ht Hp Hm. unfold srcModified. by rewrite Ht, Hp, Hm. Qed.
End Facts.

(** ** Properties *)

Section Properties.
Context `{GoUnicode}.

(** The destination of a change still holds what the last pass recorded. *)
Definition unedited (f : fileState) (prev : option SyncState) (isSource : bool) : Prop :=
  exists p, prev = Some p /\ isFileModified f p isSource = false.

Lemma unedited_of_src v s :
  v_src v = Some s -> inSyncDirectMatch v = false -> srcModified v = false ->
  unedited s (v_psrc v) true.
Proof.
  unfold srcModified, unedited. intros -> -> Hm.
  destruct (v_psrc v) as [p|]; [by eexists|done].
Qed.

Lemma unedited_of_tgt v t :
  v_tgt v = Some t -> inSyncDirectMatch v = false -> tgtModified v = false ->
  unedited t (v_ptgt v) false.
Proof.
  unfold tgtModified, unedited. intros -> -> Hm.
  destruct (v_ptgt v) as [p|]; [by eexists|done].
Qed.

Lemma no_match_src_only v : v_tgt v = None -> inSyncDirectMatch v = false.
Proof. unfold inSyncDirectMatch. intros ->. by destruct (v_src v). Qed.

Lemma no_match_tgt_only v : v_src v = None -> inSyncDirectMatch v = false.
Proof. unfold inSyncDirectMatch. by intros ->. Qed.

(** What a deletion of one path requires. *)
Lemma delta_path_delete cfg S v uuid t :
  t ∈ (delta_path cfg S v uuid).2 -> action t = "delete" ->
  DeletePropagation cfg = true /\
  ((side t = "target" /\ v_src v = None /\ is_Some (v_psrc v) /\
      exists f, v_tgt v = Some f /\
        (Direction cfg <> "one_way" -> unedited f (v_ptgt v) false))
   \/ (side t = "source" /\ Direction cfg <> "one_way" /\ v_tgt v = None /\
       is_Some (v_ptgt v) /\ exists f, v_src v = Some f /\ unedited f (v_psrc v) true)).
Proof.
  unfold delta_path. destruct (String.eqb (Direction cfg) "one_way") eqn:Ed; go_bool.
  - unfold delta_one_way. intros Ht Ha.
    destruct (v_src v) as [s|] eqn:Es, (v_tgt v) as [f|] eqn:Et,
      (v_psrc v) as [p|] eqn:Ep; delta_cases;
      apply list_elem_of_singleton in Ht as ->; try done.
    split; [done|]. left.
    repeat (split; [done|]). by exists f.
  - unfold delta_two_way, delta_conflict. intros Ht Ha.
    destruct (v_src v) as [s|] eqn:Es, (v_tgt v) as [f|] eqn:Et,
      (v_psrc v) as [p|] eqn:Ep, (v_ptgt v) as [q|] eqn:Eq; delta_cases;
      apply list_elem_of_singleton in Ht as ->; try done;
      (split; [done|]).
    all: first
      [ left; repeat (split; [done|]); exists f; split; [done|]; intros _;
        rewrite <- Eq; apply unedited_of_tgt; auto using no_match_tgt_only
      | right; repeat (split; [done|]); exists s; split; [done|];
        rewrite <- Ep; apply unedited_of_src; auto using no_match_src_only ].
Qed.
(** What an upload over an existing target, or a download over an existing
    source, requires in a two-way pass. *)
Lemma delta_path_upload cfg S v uuid t f :
  Direction cfg <> "one_way" ->
  t ∈ (delta_path cfg S v uuid).2 -> action t = "upload" -> v_tgt v = Some f ->
  unedited f (v_ptgt v) false
  \/ ConflictStrategy cfg = "OVERWRITE"
  \/ (ConflictStrategy cfg = "RENAME" /\ prerequisiteTaskID t = uuid
      /\ conflict_copy_task S uuid ∈ (delta_path cfg S v uuid).1).
Proof.
  intros Hd. unfold delta_path. rewrite (proj2 (String.eqb_neq _ _) Hd).
  unfold delta_two_way, delta_conflict, conflictNeedsRename. intros Ht Ha Et.
  rewrite Et in *.
  destruct (v_src v) as [s|] eqn:Es, (v_psrc v) as [p|] eqn:Ep,
    (v_ptgt v) as [q|] eqn:Eq; delta_cases;
    apply list_elem_of_singleton in Ht as ->; try done; go_bool; try (by auto).
  all: first [ right; right; split; [done|]; split; [done|];
               by apply list_elem_of_singleton
             | left; rewrite <- Eq; by apply unedited_of_tgt ].
Qed.

Lemma delta_path_download cfg S v uuid t f :
  t ∈ (delta_path cfg S v uuid).2 -> action t = "download" -> v_src v = Some f ->
  Direction cfg <> "one_way" /\ unedited f (v_psrc v) true.
Proof.
  unfold delta_path. destruct (String.eqb (Direction cfg) "one_way") eqn:Ed; go_bool.
  - unfold delta_one_way. intros Ht Ha Es. rewrite Es in *.
    delta_cases; by apply list_elem_of_singleton in Ht as ->.
  - unfold delta_two_way, delta_conflict. intros Ht Ha Es. rewrite Es in *.
    destruct (v_tgt v) as [g|] eqn:Et, (v_psrc v) as [p|] eqn:Ep,
      (v_ptgt v) as [q|] eqn:Eq; delta_cases;
      apply list_elem_of_singleton in Ht as ->; try done.
    all: split; [done|]; rewrite <- Ep; apply unedited_of_src; auto.
Qed.

(** C9: a pass deletes a file only when the job propagates deletions, the
    other side still has a baseline row for it but no file, and - in a
    two-way job - the copy to delete is unchanged since its own baseline.  A
    one-way pass never deletes on the source. *)
Theorem delta_delete_justified cfg m uuid keys t :
  t ∈ (delta_loop cfg m uuid keys).2 -> action t = "delete" ->
  let S := filePath t in
  DeletePropagation cfg = true /\
  ((side t = "target" /\ sourceMap m !! S = None /\ is_Some (prevSource m !! S) /\
      exists f, targetMap m !! S = Some f /\
        (Direction cfg <> "one_way" -> unedited f (prevTarget m !! S) false))
   \/ (side t = "source" /\ Direction cfg <> "one_way" /\ targetMap m !! S = None /\
       is_Some (prevTarget m !! S) /\
       exists f, sourceMap m !! S = Some f /\ unedited f (prevSource m !! S) true)).
Proof.
  intros (S & _ & Ht)%elem_of_delta_loop Ha.
  pose proof (delta_path_filePath _ _ _ _ _ Ht) as ->.
  exact (delta_path_delete _ _ _ _ _ Ht Ha).
Qed.

(** C8: a two-way pass never silently overwrites an edit.  A transfer onto a
    file that exists requires that file to be unchanged since its baseline,
    or an OVERWRITE strategy, or a RENAME whose conflict copy of the same
    path is the upload's prerequisite. *)
Theorem delta_overwrite_justified cfg m uuid keys t :
  Direction cfg <> "one_way" -> t ∈ (delta_loop cfg m uuid keys).2 ->
  let S := filePath t in
  (action t = "upload" -> forall f, targetMap m !! S = Some f ->
     unedited f (prevTarget m !! S) false
     \/ ConflictStrategy cfg = "OVERWRITE"
     \/ (ConflictStrategy cfg = "RENAME" /\ prerequisiteTaskID t = uuid S
         /\ conflict_copy_task S (uuid S) ∈ (delta_loop cfg m uuid keys).1))
  /\ (action t = "download" -> forall f, sourceMap m !! S = Some f ->
       unedited f (prevSource m !! S) true).
Proof.
  intros Hd (S & HS & Ht)%elem_of_delta_loop.
  pose proof (delta_path_filePath _ _ _ _ _ Ht) as ->. cbn zeta. split.
  - intros Ha f Hf.
    destruct (delta_path_upload _ _ _ _ _ f Hd Ht Ha Hf) as [?|[?|(?&?&?)]]; auto.
    right. right. split; [done|]. split; [done|].
    apply elem_of_delta_renames. by exists S.
  - intros Ha f Hf. by apply (delta_path_download _ _ _ _ _ f Ht Ha Hf).
Qed.

(** A baseline row taken from a listing entry. *)
Definition baseline_of (f : fileState) (p : SyncState) (isSource : bool) : Prop :=
  ss_Size p = fs_Size f /\ ss_ETag p = fs_ETag f
  /\ ss_Mtime p = (if time_IsZero (fs_LastModified f) then None
                   else Some (fs_LastModified f))
  /\ (if isSource then ss_SourceHash p = fs_Hash f
      else ss_TargetHash p = fs_Hash f /\ ss_SourceHash p = "").

Lemma isFileModified_baseline f p isSource :
  baseline_of f p isSource -> isFileModified f p isSource = false.
Proof.
  intros (Hs & He & Hm & Hh). unfold isFileModified.
  rewrite Hs, Z.eqb_refl, He, Hm. cbn [negb].
  assert ((if isSource then ss_SourceHash p
           else if String.eqb (ss_TargetHash p) "" then ss_SourceHash p
           else ss_TargetHash p) = fs_Hash f) as ->.
  { destruct isSource; [done|]. destruct Hh as [Hh ->].
    destruct (String.eqb (ss_TargetHash p) "") eqn:E; [|done]. go_bool. congruence. }
  pose proof (hash_verdict_refl (fs_Hash f)) as H1.
  pose proof (etag_verdict_refl (fs_ETag f)) as H2.
  destruct (hash_verdict _ _) as [[]|]; [done|done|].
  destruct (etag_verdict _ _) as [[]|]; [done|done|].
  destruct (time_IsZero _) eqn:E; [done|]. by rewrite mtime_differs_refl, andb_false_r.
Qed.

(** The recorded baseline is the current listing of both sides. *)
Definition baseline_current (m : passMaps) : Prop :=
  (forall S, match sourceMap m !! S, prevSource m !! S with
             | Some f, Some p => baseline_of f p true
             | None, None => True
             | _, _ => False
             end)
  /\ (forall S, match targetMap m !! S, prevTarget m !! S with
               | Some f, Some p => baseline_of f p false
               | None, None => True
               | _, _ => False
               end).

Lemma delta_path_stable cfg m S uuid :
  baseline_current m ->
  (is_Some (sourceMap m !! S) -> is_Some (targetMap m !! S)) ->
  (Direction cfg <> "one_way" -> is_Some (targetMap m !! S) -> is_Some (sourceMap m !! S)) ->
  delta_path cfg S (view_at m S) uuid = ([], []).
Proof.
  intros [Hsrc Htgt] Hd1 Hd2. specialize (Hsrc S). specialize (Htgt S).
  unfold delta_path, delta_one_way, delta_two_way, srcModified, tgtModified,
    inSyncDirectMatch. cbn.
  destruct (sourceMap m !! S) as [s|] eqn:Es, (targetMap m !! S) as [f|] eqn:Et,
    (prevSource m !! S) as [p|], (prevTarget m !! S) as [q|]; try done; cbn.
  - rewrite (isFileModified_baseline s p true Hsrc), (isFileModified_baseline f q false Htgt).
    destruct (isFileMatchingTarget s f), (String.eqb _ _); done.
  - by destruct (Hd1 (mk_is_Some _ _ eq_refl)).
  - destruct (String.eqb (Direction cfg) "one_way") eqn:E; [done|]. go_bool.
    by destruct (Hd2 E (mk_is_Some _ _ eq_refl)).
  - by destruct (String.eqb _ _).
Qed.

Lemma delta_loop_nil cfg m uuid keys :
  (forall S, S ∈ keys -> delta_path cfg S (view_at m S) (uuid S) = ([], [])) ->
  delta_loop cfg m uuid keys = ([], []).
Proof.
  unfold delta_loop. induction keys as [|k keys IH]; intros Hk; [done|]. cbn [fold_left].
  rewrite (Hk k) by (by left). apply IH. intros S HS. apply Hk. by right.
Qed.

Lemma delta_loop_stable cfg m uuid keys :
  baseline_current m ->
  dom (sourceMap m) ⊆ dom (targetMap m) ->
  (Direction cfg <> "one_way" -> dom (targetMap m) ⊆ dom (sourceMap m)) ->
  delta_loop cfg m uuid keys = ([], []).
Proof.
  intros Hb H1 H2. apply delta_loop_nil. intros S _. apply delta_path_stable; [done| |].
  - rewrite <- !elem_of_dom. apply H1.
  - intros Hd. rewrite <- !elem_of_dom. by apply H2.
Qed.

(** A pass whose baseline is the current listing of both sides, with every
    source file present on the target and - in a two-way job - the converse,
    creates no task: an unchanged tree is never transferred again. *)
Theorem delta_stable cfg m uuid keys :
  baseline_current m ->
  dom (sourceMap m) ⊆ dom (targetMap m) ->
  (Direction cfg <> "one_way" -> dom (targetMap m) ⊆ dom (sourceMap m)) ->
  delta_loop cfg m uuid keys = ([], []).
Proof. apply delta_loop_stable. Qed.

(** Without hashes and ETags, a file of unchanged size is modified exactly
    when its timestamp moved by two seconds or more - for differences a
    [Duration] can hold; below that range the saturated difference negates to
    itself and the change is missed. *)
Theorem isFileModified_by_mtime curr prev isSource t :
  fs_Size curr = ss_Size prev -> fs_Hash curr = "" -> fs_ETag curr = "" ->
  fs_LastModified curr <> 0 -> ss_Mtime prev = Some t ->
  (min_int64 < fs_LastModified curr - t <= max_int64 ->
     isFileModified curr prev isSource = true
     <-> two_seconds <= Z.abs (fs_LastModified curr - t))
  /\ (fs_LastModified curr - t <= min_int64 ->
      isFileModified curr prev isSource = false).
Proof.
  intros Hs Hh He Hz Hm. unfold isFileModified.
  rewrite Hs, Z.eqb_refl, Hh, He, Hm. cbn. unfold time_IsZero.
  rewrite (proj2 (Z.eqb_neq _ 0) Hz). cbn. split; intros Hr.
  - rewrite mtime_differs_spec; [by rewrite Z.leb_le|unfold in_int64; lia|lia].
  - by apply mtime_differs_saturates.
Qed.
End Properties.

(** ** Directories *)

Lemma elem_of_dir_loop (step : string -> dir_outcome) dirs acc :
  (forall t, t ∈ (dir_loop step dirs acc).1 <-> t ∈ acc.1 \/ exists d, d ∈ dirs /\ t ∈ (step d).1)
  /\ forall c, c ∈ (dir_loop step dirs acc).2 <-> c ∈ acc.2 \/ exists d, d ∈ dirs /\ c ∈ (step d).2.
Proof.
  destruct acc as [ts cs]. split; intros x.
  - apply elem_of_fold_pairs_fst.
  - apply elem_of_fold_pairs.
Qed.

Ltac dir_steps :=
  repeat match goal with
  | H : _ ∈ (dir_loop _ _ _).1 |- _ => apply elem_of_dir_loop in H as [H|(? & ? & H)]
  | H : _ ∈ (dir_loop _ _ _).2 |- _ => apply elem_of_dir_loop in H as [H|(? & ? & H)]
  | H : context [source_dir_step] |- _ => unfold source_dir_step in H
  | H : context [target_dir_step] |- _ => unfold target_dir_step in H
  | H : context [gone_dir_step] |- _ => unfold gone_dir_step in H
  | H : _ ∈ (if ?b then _ else _).1 |- _ => destruct b eqn:?
  | H : _ ∈ (if ?b then _ else _).2 |- _ => destruct b eqn:?
  | H : _ ∈ [] |- _ => by apply elem_of_nil in H
  | H : _ ∈ ([], _).1 |- _ => by apply elem_of_nil in H
  | H : _ ∈ (_, []).2 |- _ => by apply elem_of_nil in H
  | H : _ ∈ ([_], _).1 |- _ => apply list_elem_of_singleton in H; subst
  | H : _ ∈ (_, [_]).2 |- _ => apply list_elem_of_singleton in H; subst
  end; cbn in *.

Ltac dir_facts :=
  go_bool;
  repeat match goal with
  | E : bool_decide _ = _ |- _ => first [apply bool_decide_eq_true in E | apply bool_decide_eq_false in E]
  | E : String.eqb _ _ = false |- _ => rewrite String.eqb_neq in E
  end.

Section Directory_delta.
Context (direction : string) (prop : bool) (sd td psd ptd : gset string).
Context (so to po : list string).
Hypothesis Hso : forall d, d ∈ so -> d ∈ sd /\ cleanRelPath d = d.
Hypothesis Hto : forall d, d ∈ to -> d ∈ td /\ cleanRelPath d = d.
Hypothesis Hpo : forall d, d ∈ po -> d ∈ psd /\ cleanRelPath d = d.
Hypothesis Hdir : direction = "one_way" \/ direction = "two_way".
Let out := calculateDirectoryDelta direction prop sd td psd ptd so to po.

Lemma directory_cand_spec c : c ∈ out.2 ->
  let d := cand_relPath c in
  prop = true /\ d <> "/"
  /\ ((cand_side c = "target" /\ d ∈ td /\ (d ∉ sd) /\ d ∈ psd)
      \/ (cand_side c = "source" /\ direction = "two_way" /\ d ∈ sd /\ (d ∉ td) /\ d ∈ ptd)).
Proof.
  unfold out, calculateDirectoryDelta. intros Hc. destruct Hdir as [-> | ->]; cbn in *;
    dir_steps; dir_facts; subst; try done;
    match goal with H : ?x ∈ _ |- context [cleanRelPath ?x] =>
      first [destruct (Hso x H) as [? E] | destruct (Hto x H) as [? E]
            | destruct (Hpo x H) as [? E]]; rewrite E in * end; auto 10.
Qed.

Lemma directory_task_spec t : t ∈ out.1 ->
  let d := filePath t in
  action t = "mkdir" /\ d <> "/"
  /\ ((side t = "target" /\ d ∈ sd /\ (d ∉ td) /\ (direction = "two_way" -> d ∉ ptd))
      \/ (side t = "source" /\ direction = "two_way" /\ d ∈ td /\ (d ∉ sd) /\ d ∉ psd)).
Proof.
  unfold out, calculateDirectoryDelta. intros Hc. destruct Hdir as [-> | ->]; cbn in *;
    dir_steps; dir_facts; subst; try done;
    match goal with H : ?x ∈ _ |- context [cleanRelPath ?x] =>
      first [destruct (Hso x H) as [? E] | destruct (Hto x H) as [? E]
            | destruct (Hpo x H) as [? E]]; rewrite E in * end;
    naive_solver.
Qed.
End Directory_delta.

(** Directory reconciliation in a two-way or one-way job.  A directory
    becomes a cleanup candidate only when deletions are propagated, it exists
    on the side to clean, it is gone from the other side and the other side's
    previous pass recorded it; a one-way job never cleans the source.  The
    tasks it creates are creations of directories missing on the other side,
    and no directory is both created and cleaned up. *)
Theorem directory_delta_justified direction prop (sd td psd ptd : gset string) so to po :
  (forall d, d ∈ so -> d ∈ sd /\ cleanRelPath d = d) ->
  (forall d, d ∈ to -> d ∈ td /\ cleanRelPath d = d) ->
  (forall d, d ∈ po -> d ∈ psd /\ cleanRelPath d = d) ->
  direction = "one_way" \/ direction = "two_way" ->
  let '(tasks, cands) := calculateDirectoryDelta direction prop sd td psd ptd so to po in
  (forall c, c ∈ cands -> let d := cand_relPath c in
     prop = true /\ d <> "/"
     /\ ((cand_side c = "target" /\ d ∈ td /\ (d ∉ sd) /\ d ∈ psd)
         \/ (cand_side c = "source" /\ direction = "two_way" /\ d ∈ sd /\ (d ∉ td) /\ d ∈ ptd)))
  /\ (forall t, t ∈ tasks -> let d := filePath t in
       action t = "mkdir" /\ d <> "/"
       /\ ((side t = "target" /\ d ∈ sd /\ d ∉ td)
           \/ (side t = "source" /\ direction = "two_way" /\ d ∈ td /\ d ∉ sd))
       /\ forall c, c ∈ cands -> cand_relPath c <> d).
Proof.
  intros Hso Hto Hpo Hdir.
  pose proof (directory_cand_spec direction prop sd td psd ptd so to po Hso Hto Hpo Hdir) as Hc.
  pose proof (directory_task_spec direction prop sd td psd ptd so to po Hso Hto Hpo Hdir) as Ht.
  destruct (calculateDirectoryDelta _ _ _ _ _ _ _ _ _) as [tasks cands]. cbn in *.
  split; [done|]. intros t Hin. destruct (Ht t Hin) as (Ha & Hr & Hs).
  split; [done|]. split; [done|]. split; [naive_solver|].
  intros c Hin' E. destruct (Hc c Hin') as (_ & _ & Hs'). rewrite E in Hs'.
  destruct Hs as [(_ & ? & ? & Hn)|(_ & ? & ? & ? & ?)],
    Hs' as [(_ & ? & ? & ?)|(_ & Hd & ? & ? & ?)]; try done. by apply Hn.
Qed.

(** ** Concrete passes *)

Definition row_ex (jobSide path : string) (size t : Z) : SyncState :=
  mkSyncState "j" jobSide path size (Some t) "" "" "".
Definition file_ex (path : string) (size t : Z) : fileState := mkFileState path size t "" "".

(** "/gone" was deleted on the source, "/c" was edited on both sides. *)
Definition maps_ex : passMaps := mkMaps
  {["/c" := file_ex "/c" 5 90000000000]}
  {["/c" := file_ex "/c" 6 80000000000; "/gone" := file_ex "/gone" 3 1000]}
  {["/c" := row_ex "source" "/c" 4 1000; "/gone" := row_ex "source" "/gone" 3 1000]}
  {["/c" := row_ex "target" "/c" 4 1000; "/gone" := row_ex "target" "/gone" 3 1000]}.
Definition cfg_ex : SyncConfig := mkSyncConfig "two_way" "RENAME" true.

Example delta_ex :
  @delta_loop ascii_tables cfg_ex maps_ex (fun S => ("id" +:+ S)%string) ["/c"; "/gone"]
  = ([conflict_copy_task "/c" "id/c"],
     [upload_task "/c" (file_ex "/c" 5 90000000000) "id/c"; delete_task "/gone" "target"]).
Proof. vm_compute. reflexivity. Qed.

Ltac decide_now := apply (bool_decide_unpack _); vm_compute; exact I.

Lemma delta_delete_justified_witness :
  exists f, targetMap maps_ex !! "/gone" = Some f
    /\ @unedited ascii_tables f (prevTarget maps_ex !! "/gone") false.
Proof.
  destruct (@delta_delete_justified ascii_tables cfg_ex maps_ex (fun S => ("id" +:+ S)%string)
    ["/c"; "/gone"] (delete_task "/gone" "target")) as (_ & [(_ & _ & _ & f & Hf & Hu)|(Hs & _)]).
  - decide_now.
  - reflexivity.
  - exists f. split; [exact Hf|]. apply Hu. discriminate.
  - discriminate Hs.
Defined.

Lemma delta_overwrite_justified_witness :
  @unedited ascii_tables (file_ex "/c" 6 80000000000) (prevTarget maps_ex !! "/c") false
  \/ ConflictStrategy cfg_ex = "OVERWRITE"
  \/ (ConflictStrategy cfg_ex = "RENAME" /\ "id/c" = "id/c"
      /\ conflict_copy_task "/c" "id/c"
         ∈ (@delta_loop ascii_tables cfg_ex maps_ex (fun S => ("id" +:+ S)%string) ["/c"; "/gone"]).1).
Proof.
  apply (@delta_overwrite_justified ascii_tables cfg_ex maps_ex (fun S => ("id" +:+ S)%string)
    ["/c"; "/gone"] (upload_task "/c" (file_ex "/c" 5 90000000000) "id/c")).
  - discriminate.
  - decide_now.
  - reflexivity.
  - vm_compute. reflexivity.
Defined.

Definition maps_stable : passMaps := mkMaps
  {["/a" := file_ex "/a" 5 9000]} {["/a" := file_ex "/a" 5 7000]}
  {["/a" := row_ex "source" "/a" 5 9000]} {["/a" := row_ex "target" "/a" 5 7000]}.

Lemma delta_stable_witness :
  @delta_loop ascii_tables cfg_ex maps_stable (fun _ => "u") ["/a"] = ([], []).
Proof.
  apply delta_stable.
  - split; intros S; cbn; destruct (decide (S = "/a")) as [->|Hne];
      rewrite ?lookup_singleton_eq, ?lookup_singleton_ne by congruence; done.
  - cbn. set_solver.
  - intros _. cbn. set_solver.
Defined.

Lemma isFileModified_by_mtime_witness :
  @isFileModified ascii_tables (file_ex "/a" 5 9000000000) (row_ex "source" "/a" 5 7000000000) true
  = true.
Proof.
  destruct (@isFileModified_by_mtime ascii_tables (file_ex "/a" 5 9000000000)
    (row_ex "source" "/a" 5 7000000000) true 7000000000) as [H _];
    [reflexivity|reflexivity|reflexivity|discriminate|reflexivity|].
  apply H; vm_compute; done.
Defined.

Lemma directory_delta_justified_witness :
  calculateDirectoryDelta "two_way" true {["/a"]} {["/b"]} {["/b"]} ∅ ["/a"] ["/b"] ["/b"]
  = ([mkdir_task "/a" "target"], [mkCandidate "/b" "target"])
  /\ "/b" ∉ ({["/a"]} : gset string).
Proof.
  assert (calculateDirectoryDelta "two_way" true {["/a"]} {["/b"]} {["/b"]} ∅ ["/a"] ["/b"] ["/b"]
    = ([mkdir_task "/a" "target"], [mkCandidate "/b" "target"])) as E by (vm_compute; reflexivity).
  split; [exact E|].
  pose proof (directory_delta_justified "two_way" true {["/a"]} {["/b"]} {["/b"]} ∅
    ["/a"] ["/b"] ["/b"]) as H. rewrite E in H.
  destruct H as [H _]; try (intros d ->%list_elem_of_singleton; split; [set_solver|reflexivity]).
  { by right. }
  destruct (H (mkCandidate "/b" "target")) as (_ & _ & [(_ & _ & Hn & _)|(Hs & _)]);
    [by left|exact Hn|discriminate Hs].
Defined.
