(* ===== verification/SyncBaseline.v ===== *)
(** * Durable baseline of a sync pass

    What a pass records in the sync_state table: reconciliation of the
    completed operations, empty-only directory cleanup, the row changes of
    [syncStateChanges] (src/backend/internal/sync/delta.go), their application
    in [bulkUpsertSyncStatesTx] (src/backend/internal/db/sync.go) and the
    reading of the table at the start of the next pass
    (src/backend/internal/sync/engine.go). *)

From S2P Require Import Prelude GoPath SyncPaths HashString Storage SyncDelta.

(** ** The sync_state table *)

(** Rows under their unique key (sync_job_id, side, rel_path). *)
Definition state_key : Type := string * string * string.
Abbreviation state_table := (gmap state_key SyncState).

Record SyncStateDelete := mkDelete {
  del_SyncJobID : string;
  del_Side : string;
  del_RelPath : string;
}.

Definition row_key (s : SyncState) : state_key :=
  (ss_SyncJobID s, ss_Side s, ss_RelPath s).
Definition delete_key (d : SyncStateDelete) : state_key :=
  (del_SyncJobID d, del_Side d, del_RelPath d).

(** All upserts run before all deletes. *)
Definition bulkUpsertSyncStatesTx (upserts : list SyncState)
    (deletes : list SyncStateDelete) (t : state_table) : state_table :=
  let t := fold_left (fun t s => <[row_key s := s]> t) upserts t in
  fold_left (fun t d => delete (delete_key d) t) deletes t.

(** ** The listing snapshot of a pass *)

Record snapshot := mkSnapshot {
  sn_sourceMap : gmap string fileState;
  sn_targetMap : gmap string fileState;
  sn_sourceDirs : gset string;
  sn_targetDirs : gset string;
  sn_sourceETags : gmap string string;
  sn_targetETags : gmap string string;
}.

(** ** [syncStateChanges] *)

Definition file_row (jobID side relPath : string) (f : fileState) : SyncState :=
  mkSyncState jobID side relPath (fs_Size f)
    (if time_IsZero (fs_LastModified f) then None else Some (fs_LastModified f))
    (if String.eqb side "source" then fs_Hash f else "")
    (if String.eqb side "source" then "" else fs_Hash f)
    (fs_ETag f).

Definition dir_row (jobID side dirPath etag : string) : SyncState :=
  mkSyncState jobID side (cleanRelPath dirPath) (-1) None "" "" etag.

(** The row change of one side of one path. *)
Definition side_change (jobID side relPath : string) (o : option fileState)
    : list SyncState * list SyncStateDelete :=
  let cleanPath := cleanRelPath relPath in
  match o with
  | Some f => ([file_row jobID side cleanPath f], [])
  | None => ([], [mkDelete jobID side cleanPath])
  end.

Definition path_change (jobID : string) (sn : snapshot) (protectedPaths : gset string)
    (relPath : string) : list SyncState * list SyncStateDelete :=
  if bool_decide (relPath ∈ protectedPaths) then ([], [])
  else
    let '(u1, d1) := side_change jobID "source" relPath (sn_sourceMap sn !! relPath) in
    let '(u2, d2) := side_change jobID "target" relPath (sn_targetMap sn !! relPath) in
    (u1 ++ u2, d1 ++ d2).

Definition etag_rows (jobID side : string) (etags : gmap string string) : list SyncState :=
  flat_map (fun '(dirPath, etag) =>
    if negb (String.eqb etag "") then [dir_row jobID side dirPath etag] else [])
    (map_to_list etags).

Definition plain_dir_rows (jobID side : string) (dirs : gset string)
    (etags : gmap string string) : list SyncState :=
  flat_map (fun dirPath =>
    if negb (has (etags !! cleanRelPath dirPath)) then [dir_row jobID side dirPath ""] else [])
    (elements dirs).

Definition stale_dir_deletes (jobID side : string) (prevDirs dirs : gset string)
    (etags : gmap string string) : list SyncStateDelete :=
  flat_map (fun dirPath =>
    let cdir := cleanRelPath dirPath in
    if negb (bool_decide (cdir ∈ dirs)) && negb (has (etags !! cdir))
    then [mkDelete jobID side cdir] else []) (elements prevDirs).

Definition allPaths (sn : snapshot) (prevSource prevTarget : gmap string SyncState)
    : gset string :=
  set_map cleanRelPath (dom (sn_sourceMap sn)) ∪ set_map cleanRelPath (dom (sn_targetMap sn))
  ∪ set_map cleanRelPath (dom prevSource) ∪ set_map cleanRelPath (dom prevTarget).

(** Go leaves the order of a map iteration open; the model follows the order of
    [elements] and the properties depend on membership only. *)
Definition syncStateChanges (jobID : string) (sn : snapshot)
    (prevSource prevTarget : gmap string SyncState) (prevSourceDirs prevTargetDirs : gset string)
    (protectedPaths : gset string) : list SyncState * list SyncStateDelete :=
  let '(ups, dels) := fold_left (fun '(u, d) p =>
      let '(u', d') := path_change jobID sn protectedPaths p in (u ++ u', d ++ d'))
      (elements (allPaths sn prevSource prevTarget)) ([], []) in
  (ups
   ++ etag_rows jobID "source" (sn_sourceETags sn)
   ++ etag_rows jobID "target" (sn_targetETags sn)
   ++ plain_dir_rows jobID "source" (sn_sourceDirs sn) (sn_sourceETags sn)
   ++ plain_dir_rows jobID "target" (sn_targetDirs sn) (sn_targetETags sn),
   dels
   ++ stale_dir_deletes jobID "source" prevSourceDirs (sn_sourceDirs sn) (sn_sourceETags sn)
   ++ stale_dir_deletes jobID "target" prevTargetDirs (sn_targetDirs sn) (sn_targetETags sn)).

(** ** Reading the baseline *)

Record prevStates := mkPrev {
  pv_source : gmap string SyncState;
  pv_target : gmap string SyncState;
  pv_sourceDirETags : gmap string string;
  pv_targetDirETags : gmap string string;
  pv_sourceFiles : gmap string fileState;
  pv_targetFiles : gmap string fileState;
  pv_sourceDirs : gset string;
  pv_targetDirs : gset string;
}.

Definition prev_empty : prevStates := mkPrev ∅ ∅ ∅ ∅ ∅ ∅ ∅ ∅.

Definition load_row (pv : prevStates) (state : SyncState) : prevStates :=
  let cPath := cleanRelPath (ss_RelPath state) in
  let '(mkPrev s t se te sf tf sd td) := pv in
  if ss_Size state =? -1 then
    if String.eqb (ss_Side state) "source"
    then mkPrev s t (<[cPath := ss_ETag state]> se) te sf tf ({[cPath]} ∪ sd) td
    else mkPrev s t se (<[cPath := ss_ETag state]> te) sf tf sd ({[cPath]} ∪ td)
  else
    let stateHash :=
      if String.eqb (ss_Side state) "target" then ss_TargetHash state else ss_SourceHash state in
    let fs := mkFileState cPath (ss_Size state) (default 0 (ss_Mtime state)) stateHash
                (ss_ETag state) in
    if String.eqb (ss_Side state) "source"
    then mkPrev (<[cPath := state]> s) t se te (<[cPath := fs]> sf) tf sd td
    else mkPrev s (<[cPath := state]> t) se te sf (<[cPath := fs]> tf) sd td.

(** [ListSyncStateByJob]: the rows of the job. *)
Definition job_rows (jobID : string) (t : state_table) : list SyncState :=
  (map_to_list (filter (fun kv : state_key * SyncState => kv.1.1.1 = jobID) t)).*2.

Definition load_prev (rows : list SyncState) : prevStates := fold_left load_row rows prev_empty.

(** ** Sides *)

Definition side_name (b : bool) : string := if b then "source" else "target".
Definition files (sn : snapshot) (b : bool) := if b then sn_sourceMap sn else sn_targetMap sn.
Definition dirs (sn : snapshot) (b : bool) := if b then sn_sourceDirs sn else sn_targetDirs sn.
Definition etags (sn : snapshot) (b : bool) := if b then sn_sourceETags sn else sn_targetETags sn.
Definition prev_dirs (ps pt : gset string) (b : bool) := if b then ps else pt.

Lemma side_name_inj b b' : side_name b = side_name b' -> b = b'.
Proof. by destruct b, b'. Qed.

(** ** The table after a bulk write *)

Lemma fold_insert_lookup (ups : list SyncState) (t : state_table) k s :
  s ∈ ups -> row_key s = k -> (forall s', s' ∈ ups -> row_key s' = k -> s' = s) ->
  fold_left (fun t s => <[row_key s := s]> t) ups t !! k = Some s.
Proof.
  intros Hin Hk Hu. induction ups as [|x ups IH] using rev_ind.
  { by apply elem_of_nil in Hin. }
  rewrite fold_left_app. cbn. destruct (decide (row_key x = k)) as [Hx|Hx].
  - rewrite Hx, lookup_insert_eq. f_equal. apply Hu; [|done].
    apply elem_of_app. right. by apply list_elem_of_singleton.
  - rewrite lookup_insert_ne by done. apply IH.
    + apply elem_of_app in Hin as [|Hin]; [done|].
      apply list_elem_of_singleton in Hin as ->. done.
    + intros s' Hs'. apply Hu. apply elem_of_app. by left.
Qed.

Lemma fold_insert_frame (ups : list SyncState) (t : state_table) k :
  (forall s, s ∈ ups -> row_key s <> k) ->
  fold_left (fun t s => <[row_key s := s]> t) ups t !! k = t !! k.
Proof.
  revert t. induction ups as [|x ups IH]; intros t Hu; [done|]. cbn.
  rewrite IH by (intros s Hs; apply Hu; by right).
  apply lookup_insert_ne, Hu. by left.
Qed.

Lemma fold_delete_lookup (dels : list SyncStateDelete) (t : state_table) k :
  fold_left (fun t d => delete (delete_key d) t) dels t !! k
  = if decide (k ∈ map delete_key dels) then None else t !! k.
Proof.
  revert t. induction dels as [|d dels IH]; intros t; cbn [fold_left map].
  { case_decide as H; [by apply elem_of_nil in H|done]. }
  rewrite IH. destruct (decide (k = delete_key d)) as [->|Hk].
  - rewrite lookup_delete_eq. rewrite (decide_True (P := _ ∈ _ :: _)) by (by left).
    by case_decide.
  - rewrite lookup_delete_ne by done.
    destruct (decide (k ∈ map delete_key dels)) as [H|H].
    + rewrite decide_True; [done|by right].
    + rewrite decide_False; [done|]. intros [?|?]%elem_of_cons; done.
Qed.

Lemma bulk_deleted (ups : list SyncState) (dels : list SyncStateDelete) t k :
  (exists d, d ∈ dels /\ delete_key d = k) -> bulkUpsertSyncStatesTx ups dels t !! k = None.
Proof.
  intros (d & Hd & <-). unfold bulkUpsertSyncStatesTx. rewrite fold_delete_lookup.
  case_decide as H; [done|]. destruct H. apply list_elem_of_In, in_map, list_elem_of_In, Hd.
Qed.

Lemma bulk_not_deleted (ups : list SyncState) (dels : list SyncStateDelete) t k :
  (forall d, d ∈ dels -> delete_key d <> k) ->
  bulkUpsertSyncStatesTx ups dels t !! k
  = fold_left (fun t s => <[row_key s := s]> t) ups t !! k.
Proof.
  intros H. unfold bulkUpsertSyncStatesTx. rewrite fold_delete_lookup.
  case_decide as Hd; [|done]. exfalso.
  apply list_elem_of_In, in_map_iff in Hd as (d & <- & Hd).
  by apply (H d); [apply list_elem_of_In|].
Qed.

Lemma fold_insert_origin (ups : list SyncState) (t : state_table) k s :
  fold_left (fun t s => <[row_key s := s]> t) ups t !! k = Some s ->
  (s ∈ ups /\ row_key s = k) \/ t !! k = Some s.
Proof.
  revert t. induction ups as [|x ups IH]; intros t; cbn; [by right|].
  intros [[? ?]|H]%IH; [left; split; [by right|done]|].
  destruct (decide (row_key x = k)) as [Hx|Hx].
  - rewrite Hx, lookup_insert_eq in H. simplify_eq. left. split; [by left|done].
  - rewrite lookup_insert_ne in H by done. by right.
Qed.

Lemma bulk_origin (ups : list SyncState) (dels : list SyncStateDelete) (t : state_table) k s :
  bulkUpsertSyncStatesTx ups dels t !! k = Some s ->
  (s ∈ ups /\ row_key s = k) \/ t !! k = Some s.
Proof.
  unfold bulkUpsertSyncStatesTx. rewrite fold_delete_lookup. case_decide; [done|].
  apply fold_insert_origin.
Qed.

(** ** The rows written and removed *)

Section Changes.
Variables (jobID : string) (sn : snapshot) (prevSource prevTarget : gmap string SyncState)
  (psd ptd protectedPaths : gset string).

Let changes :=
  syncStateChanges jobID sn prevSource prevTarget psd ptd protectedPaths.
Let paths := allPaths sn prevSource prevTarget.

Lemma elem_of_path_change s p :
  s ∈ (path_change jobID sn protectedPaths p).1
  <-> (p ∉ protectedPaths) /\ exists b f, files sn b !! p = Some f
        /\ s = file_row jobID (side_name b) (cleanRelPath p) f.
Proof.
  unfold path_change. case_bool_decide as Hp; cbn.
  { split; [by intros ?%elem_of_nil|]. by intros [? _]. }
  split.
  - intros Hs. split; [done|].
    destruct (sn_sourceMap sn !! p) as [f|] eqn:Es, (sn_targetMap sn !! p) as [g|] eqn:Et;
      cbn in Hs.
    all: repeat (apply elem_of_cons in Hs as [->|Hs]); try (by apply elem_of_nil in Hs).
    all: first [ by exists true; eexists | by exists false; eexists ].
  - intros [_ ([] & f & Hf & ->)]; cbn in Hf; rewrite Hf;
      destruct (sn_sourceMap sn !! p), (sn_targetMap sn !! p); cbn; set_solver.
Qed.

Lemma elem_of_path_delete d p :
  d ∈ (path_change jobID sn protectedPaths p).2
  <-> (p ∉ protectedPaths) /\ exists b, files sn b !! p = None
        /\ d = mkDelete jobID (side_name b) (cleanRelPath p).
Proof.
  unfold path_change. case_bool_decide as Hp; cbn.
  { split; [by intros ?%elem_of_nil|]. by intros [? _]. }
  split.
  - intros Hs. split; [done|].
    destruct (sn_sourceMap sn !! p) as [f|] eqn:Es, (sn_targetMap sn !! p) as [g|] eqn:Et;
      cbn in Hs.
    all: repeat (apply elem_of_cons in Hs as [->|Hs]); try (by apply elem_of_nil in Hs).
    all: first [ by exists true | by exists false ].
  - intros [_ ([] & Hf & ->)]; cbn in Hf; rewrite Hf;
      destruct (sn_sourceMap sn !! p), (sn_targetMap sn !! p); cbn; set_solver.
Qed.

Lemma elem_of_etag_rows s b :
  s ∈ etag_rows jobID (side_name b) (etags sn b)
  <-> exists d e, etags sn b !! d = Some e /\ e <> "" /\ s = dir_row jobID (side_name b) d e.
Proof.
  unfold etag_rows. rewrite list_elem_of_In, in_flat_map. split.
  - intros ([d e] & Hin & Hs). apply list_elem_of_In, elem_of_map_to_list in Hin.
    destruct (String.eqb e "") eqn:E; go_bool; cbn in Hs; [done|].
    destruct Hs as [<-|[]]. by exists d, e.
  - intros (d & e & Hd & He & ->). exists (d, e).
    split; [by apply list_elem_of_In, elem_of_map_to_list|].
    rewrite (proj2 (String.eqb_neq _ _) He). by left.
Qed.

Lemma elem_of_plain_dir_rows s b :
  s ∈ plain_dir_rows jobID (side_name b) (dirs sn b) (etags sn b)
  <-> exists d, d ∈ dirs sn b /\ etags sn b !! cleanRelPath d = None
        /\ s = dir_row jobID (side_name b) d "".
Proof.
  unfold plain_dir_rows. rewrite list_elem_of_In, in_flat_map. split.
  - intros (d & Hin & Hs). apply list_elem_of_In, elem_of_elements in Hin.
    exists d. destruct (etags sn b !! cleanRelPath d); cbn in Hs; [done|].
    by destruct Hs as [<-|[]].
  - intros (d & Hd & He & ->). exists d.
    split; [by apply list_elem_of_In, elem_of_elements|]. rewrite He. by left.
Qed.

Lemma elem_of_stale d b :
  d ∈ stale_dir_deletes jobID (side_name b) (prev_dirs psd ptd b) (dirs sn b) (etags sn b)
  <-> exists x, x ∈ prev_dirs psd ptd b /\ (cleanRelPath x ∉ dirs sn b)
        /\ etags sn b !! cleanRelPath x = None
        /\ d = mkDelete jobID (side_name b) (cleanRelPath x).
Proof.
  unfold stale_dir_deletes. rewrite list_elem_of_In, in_flat_map. split.
  - intros (x & Hin & Hs). apply list_elem_of_In, elem_of_elements in Hin. exists x.
    case_bool_decide; cbn in Hs; [done|].
    destruct (etags sn b !! cleanRelPath x); cbn in Hs; [done|]. by destruct Hs as [<-|[]].
  - intros (x & Hx & Hd & He & ->). exists x.
    split; [by apply list_elem_of_In, elem_of_elements|].
    rewrite bool_decide_eq_false_2, He by done. by left.
Qed.

Lemma elem_of_upserts s :
  s ∈ changes.1 <->
  exists b,
    (exists p f, p ∈ paths /\ (p ∉ protectedPaths) /\ files sn b !! p = Some f
       /\ s = file_row jobID (side_name b) (cleanRelPath p) f)
    \/ (exists d e, etags sn b !! d = Some e /\ e <> "" /\ s = dir_row jobID (side_name b) d e)
    \/ (exists d, d ∈ dirs sn b /\ etags sn b !! cleanRelPath d = None
          /\ s = dir_row jobID (side_name b) d "").
Proof.
  unfold changes, syncStateChanges.
  pose proof (elem_of_fold_pairs_fst (path_change jobID sn protectedPaths)
    (elements paths) [] [] s) as Hf. unfold paths in Hf.
  destruct (fold_left _ _ _) as [u d]. cbn in *.
  rewrite !elem_of_app, Hf, (elem_of_etag_rows s true), (elem_of_etag_rows s false),
    (elem_of_plain_dir_rows s true), (elem_of_plain_dir_rows s false).
  split.
  - intros [[?%elem_of_nil|(p & Hp%elem_of_elements & (Hn & b & f & Hb & ->)%elem_of_path_change)]
      |[?|[?|[?|?]]]]; [done| |by exists true; auto|by exists false; auto
      |by exists true; auto|by exists false; auto].
    exists b. left. by exists p, f.
  - intros [b [(p & f & Hp & Hn & Hb & ->)|[Hx|Hx]]].
    + left. right. exists p. split; [by apply elem_of_elements|].
      apply elem_of_path_change. split; [done|]. by exists b, f.
    + destruct b; tauto.
    + destruct b; tauto.
Qed.

Lemma elem_of_deletes d :
  d ∈ changes.2 <->
  exists b,
    (exists p, p ∈ paths /\ (p ∉ protectedPaths) /\ files sn b !! p = None
       /\ d = mkDelete jobID (side_name b) (cleanRelPath p))
    \/ (exists x, x ∈ prev_dirs psd ptd b /\ (cleanRelPath x ∉ dirs sn b)
          /\ etags sn b !! cleanRelPath x = None
          /\ d = mkDelete jobID (side_name b) (cleanRelPath x)).
Proof.
  unfold changes, syncStateChanges.
  pose proof (elem_of_fold_pairs (path_change jobID sn protectedPaths)
    (elements paths) [] [] d) as Hf. unfold paths in Hf.
  destruct (fold_left _ _ _) as [u ds]. cbn in *.
  rewrite !elem_of_app, Hf, (elem_of_stale d true), (elem_of_stale d false).
  split.
  - intros [[?%elem_of_nil|(p & Hp%elem_of_elements & (Hn & b & Hb & ->)%elem_of_path_delete)]
      |[?|?]]; [done| |by exists true; auto|by exists false; auto].
    exists b. left. by exists p.
  - intros [b [(p & Hp & Hn & Hb & ->)|Hx]].
    + left. right. exists p. split; [by apply elem_of_elements|].
      apply elem_of_path_delete. split; [done|]. by exists b.
    + destruct b; tauto.
Qed.
End Changes.

(** ** What the table records *)

(** The maps of a pass are keyed by normal paths. *)
Definition normal (p : string) : Prop := cleanRelPath p = p.
Definition normal_snapshot (sn : snapshot) : Prop :=
  forall b, (forall p, is_Some (files sn b !! p) -> normal p)
    /\ (forall p, p ∈ dirs sn b -> normal p) /\ (forall p, is_Some (etags sn b !! p) -> normal p).

(** [p] names no directory on side [b], neither now nor in the baseline. *)
Definition no_dir (sn : snapshot) (psd ptd : gset string) (b : bool) (p : string) : Prop :=
  (p ∉ dirs sn b) /\ etags sn b !! p = None /\ (p ∉ prev_dirs psd ptd b).

Definition normal_set (X : gset string) : Prop := forall p, p ∈ X -> normal p.

Lemma allPaths_normal sn ps pt p : p ∈ allPaths sn ps pt -> normal p.
Proof.
  unfold allPaths, normal. rewrite !elem_of_union, !elem_of_map.
  intros [[[(x & -> & _)|(x & -> & _)]|(x & -> & _)]|(x & -> & _)]; apply cleanRelPath_idemp.
Qed.

Lemma in_allPaths sn ps pt b p :
  normal p -> is_Some (files sn b !! p) -> p ∈ allPaths sn ps pt.
Proof.
  unfold normal, allPaths. intros Hn Hs. rewrite !elem_of_union, !elem_of_map.
  destruct b; cbn in Hs.
  - left; left; left. exists p. rewrite elem_of_dom. by rewrite Hn.
  - left; left; right. exists p. rewrite elem_of_dom. by rewrite Hn.
Qed.

Section Record_pass.
Context (jobID : string) (sn : snapshot) (ps pt : gmap string SyncState)
  (psd ptd prot : gset string) (T : state_table).
Hypothesis Hsn : normal_snapshot sn.
Hypothesis Hpsd : normal_set psd.
Hypothesis Hptd : normal_set ptd.

Definition table_after : state_table :=
  let '(ups, dels) := syncStateChanges jobID sn ps pt psd ptd prot in
  bulkUpsertSyncStatesTx ups dels T.

Lemma prev_dirs_normal b p : p ∈ prev_dirs psd ptd b -> normal p.
Proof. destruct b; [apply Hpsd|apply Hptd]. Qed.

Lemma table_after_eq :
  table_after = bulkUpsertSyncStatesTx (syncStateChanges jobID sn ps pt psd ptd prot).1
                  (syncStateChanges jobID sn ps pt psd ptd prot).2 T.
Proof. unfold table_after. by destruct (syncStateChanges _ _ _ _ _ _ _). Qed.

Lemma file_row_key b p f :
  row_key (file_row jobID (side_name b) p f) = (jobID, side_name b, p).
Proof. done. Qed.

(** The rows written under the key of a path that is no directory. *)
Lemma upserts_at b p s :
  no_dir sn psd ptd b p -> s ∈ (syncStateChanges jobID sn ps pt psd ptd prot).1 ->
  row_key s = (jobID, side_name b, p) ->
  (p ∉ prot) /\ exists f, files sn b !! p = Some f /\ s = file_row jobID (side_name b) p f.
Proof.
  intros (Hd & He & _) (b' & Hs)%elem_of_upserts Hk.
  destruct Hs as [(q & f & Hq & Hn & Hf & ->)|[(d & e & Hd' & _ & ->)|(d & Hd' & _ & ->)]].
  - pose proof (allPaths_normal _ _ _ _ Hq) as Hqn. unfold normal in Hqn.
    rewrite Hqn, file_row_key in Hk. inversion Hk as [[Hb Hp]].
    apply side_name_inj in Hb as ->. subst q. rewrite Hqn. split; [done|]. by exists f.
  - exfalso. inversion Hk as [[Hb Hp]]. apply side_name_inj in Hb as ->.
    destruct (Hsn b) as (_ & _ & He'). rewrite (He' d) in Hp by done. congruence.
  - exfalso. inversion Hk as [[Hb Hp]]. apply side_name_inj in Hb as ->.
    destruct (Hsn b) as (_ & Hd'' & _). rewrite (Hd'' d) in Hp by done. congruence.
Qed.

(** The deletions under the key of a path that is no directory. *)
Lemma deletes_at b p d :
  no_dir sn psd ptd b p -> d ∈ (syncStateChanges jobID sn ps pt psd ptd prot).2 ->
  delete_key d = (jobID, side_name b, p) -> (p ∉ prot) /\ files sn b !! p = None.
Proof.
  intros (_ & _ & Hpd) (b' & Hs)%elem_of_deletes Hk.
  destruct Hs as [(q & Hq & Hn & Hf & ->)|(x & Hx & _ & _ & ->)].
  - pose proof (allPaths_normal _ _ _ _ Hq) as Hqn. unfold normal in Hqn.
    unfold delete_key in Hk. cbn in Hk. inversion Hk as [[Hb Hp]].
    apply side_name_inj in Hb as ->. rewrite Hqn in Hp. subst q. by rewrite Hqn.
  - exfalso. unfold delete_key in Hk. cbn in Hk. inversion Hk as [[Hb Hp]].
    apply side_name_inj in Hb as ->. apply Hpd.
    pose proof (prev_dirs_normal _ _ Hx) as Hxn. unfold normal in Hxn. congruence.
Qed.

Lemma table_after_file b p :
  p ∈ allPaths sn ps pt -> p ∉ prot -> no_dir sn psd ptd b p ->
  table_after !! (jobID, side_name b, p) = file_row jobID (side_name b) p <$> files sn b !! p.
Proof.
  intros Hp Hn Hd. rewrite table_after_eq.
  pose proof (allPaths_normal _ _ _ _ Hp) as Hpn. unfold normal in Hpn.
  destruct (files sn b !! p) as [f|] eqn:Ef; cbn.
  - rewrite bulk_not_deleted.
    + apply fold_insert_lookup; [|done|].
      * apply elem_of_upserts. exists b. left. exists p, f. by rewrite Hpn.
      * intros s' Hs' Hk. destruct (upserts_at _ _ _ Hd Hs' Hk) as (_ & f' & Hf' & ->).
        congruence.
    + intros d Hd' Hk. destruct (deletes_at _ _ _ Hd Hd' Hk). congruence.
  - apply bulk_deleted. exists (mkDelete jobID (side_name b) p). split; [|done].
    apply elem_of_deletes. exists b. left. exists p. by rewrite Hpn.
Qed.

Lemma table_after_protected b p :
  p ∈ prot -> no_dir sn psd ptd b p ->
  table_after !! (jobID, side_name b, p) = T !! (jobID, side_name b, p).
Proof.
  intros Hp Hd. rewrite table_after_eq, bulk_not_deleted.
  - apply fold_insert_frame. intros s Hs Hk. by destruct (upserts_at _ _ _ Hd Hs Hk).
  - intros d Hd' Hk. by destruct (deletes_at _ _ _ Hd Hd' Hk).
Qed.

Lemma fold_insert_some (ups : list SyncState) (t : state_table) k :
  is_Some (t !! k) -> is_Some (fold_left (fun t s => <[row_key s := s]> t) ups t !! k).
Proof.
  revert t. induction ups as [|x ups IH]; intros t Ht; [done|]. cbn. apply IH.
  destruct (decide (row_key x = k)) as [->|Hx]; [rewrite lookup_insert_eq; by eexists|by rewrite lookup_insert_ne].
Qed.

(** A protected path keeps its row, or has the row of a directory, or loses that of a
    directory that is gone. *)
Lemma table_after_protected_any b p :
  p ∈ prot ->
  table_after !! (jobID, side_name b, p) = T !! (jobID, side_name b, p)
  \/ (exists s, table_after !! (jobID, side_name b, p) = Some s /\ ss_Size s = -1)
  \/ table_after !! (jobID, side_name b, p) = None /\ p ∈ prev_dirs psd ptd b.
Proof.
  intros Hp. rewrite table_after_eq.
  set (ups := (syncStateChanges _ _ _ _ _ _ _).1). set (dels := (syncStateChanges _ _ _ _ _ _ _).2).
  destruct (bulkUpsertSyncStatesTx ups dels T !! _) as [s|] eqn:Es.
  - apply bulk_origin in Es as [[Hs Hk]|Hs]; [|by left]. apply elem_of_upserts in Hs as (b' & Hs).
    destruct Hs as [(q & f & Hq & Hn & Hf & ->)|[(d & e & _ & _ & ->)|(d & _ & _ & ->)]];
      [|right; left; by eexists..].
    exfalso. pose proof (allPaths_normal _ _ _ _ Hq) as Hqn. unfold normal in Hqn.
    rewrite Hqn, file_row_key in Hk. inversion Hk as [[Hb Hpq]]. by subst q.
  - destruct (T !! (jobID, side_name b, p)) as [s|] eqn:Et; [|by left]. right; right. split; [done|].
    destruct (decide (Exists (fun d => delete_key d = (jobID, side_name b, p)) dels)) as [He|He].
    + apply Exists_exists in He as (d & Hd & Hk). apply elem_of_deletes in Hd as (b' & Hd).
      destruct Hd as [(q & Hq & Hn & Hf & ->)|(x & Hx & _ & _ & ->)]; unfold delete_key in Hk; cbn in Hk; inversion Hk as [[Hb Hpq]].
      * exfalso. pose proof (allPaths_normal _ _ _ _ Hq) as Hqn. unfold normal in Hqn. rewrite Hqn in Hpq. by subst q.
      * apply side_name_inj in Hb as ->. pose proof (prev_dirs_normal _ _ Hx) as Hxn. unfold normal in Hxn. congruence.
    + exfalso. rewrite bulk_not_deleted in Es.
      * destruct (fold_insert_some ups T (jobID, side_name b, p)) as [x Hx]; [by eexists; exact Et|]. congruence.
      * intros d Hd Hk. apply He, Exists_exists. by exists d.
Qed.

Lemma table_after_dir_lost b d :
  d ∈ allPaths sn ps pt -> d ∉ prot -> files sn b !! d = None ->
  table_after !! (jobID, side_name b, d) = None.
Proof.
  intros Hp Hn Hf. rewrite table_after_eq. apply bulk_deleted.
  exists (mkDelete jobID (side_name b) d). split; [|done].
  apply elem_of_deletes. exists b. left. exists d.
  pose proof (allPaths_normal _ _ _ _ Hp) as Hpn. unfold normal in Hpn. by rewrite Hpn.
Qed.

Lemma table_after_file_lost b p :
  p ∈ prev_dirs psd ptd b -> p ∉ dirs sn b -> etags sn b !! p = None ->
  table_after !! (jobID, side_name b, p) = None.
Proof.
  intros Hp Hd He. rewrite table_after_eq. apply bulk_deleted.
  exists (mkDelete jobID (side_name b) p). split; [|done].
  apply elem_of_deletes. exists b. right. exists p.
  pose proof (prev_dirs_normal _ _ Hp) as Hpn. unfold normal in Hpn. by rewrite Hpn.
Qed.
End Record_pass.

(** ** Reading back *)

Definition pv_states (pv : prevStates) (b : bool) : gmap string SyncState :=
  if b then pv_source pv else pv_target pv.

(** A row the load step stores as the file baseline of [p] on side [b]. *)
Definition file_row_of (b : bool) (p : string) (s : SyncState) : Prop :=
  String.eqb (ss_Side s) "source" = b /\ ss_Size s <> -1 /\ cleanRelPath (ss_RelPath s) = p.

Lemma load_row_lookup pv s b p :
  (file_row_of b p s /\ pv_states (load_row pv s) b !! p = Some s)
  \/ (~ file_row_of b p s /\ pv_states (load_row pv s) b !! p = pv_states pv b !! p).
Proof.
  unfold file_row_of, load_row. destruct pv as [a1 a2 a3 a4 a5 a6 a7 a8].
  destruct (ss_Size s =? -1) eqn:E; go_bool.
  { right. split; [tauto|]. by destruct (String.eqb (ss_Side s) "source"), b. }
  destruct (decide (cleanRelPath (ss_RelPath s) = p)) as [<-|Hp].
  - destruct (String.eqb (ss_Side s) "source") eqn:Es, b; cbn;
      (left; split; [done|by rewrite lookup_insert_eq])
      || (right; split; [by intros [? _]|done]).
  - right. split; [tauto|].
    by destruct (String.eqb (ss_Side s) "source"), b; cbn; rewrite ?lookup_insert_ne.
Qed.

Lemma load_prev_lookup (rows : list SyncState) b p s :
  s ∈ rows -> file_row_of b p s -> (forall s', s' ∈ rows -> file_row_of b p s' -> s' = s) ->
  pv_states (load_prev rows) b !! p = Some s.
Proof.
  unfold load_prev. induction rows as [|x rows IH] using rev_ind; intros Hin Hs Hu.
  { by apply elem_of_nil in Hin. }
  rewrite fold_left_app. cbn [fold_left].
  destruct (load_row_lookup (fold_left load_row rows prev_empty) x b p) as [[Hx ->]|[Hx ->]].
  - f_equal. apply Hu; [|done]. apply elem_of_app. right. by apply list_elem_of_singleton.
  - apply IH; [|done|].
    + apply elem_of_app in Hin as [|Hin]; [done|].
      by apply list_elem_of_singleton in Hin as ->.
    + intros s' Hs'. apply Hu. apply elem_of_app. by left.
Qed.

Lemma load_prev_none (rows : list SyncState) b p :
  (forall s, s ∈ rows -> ~ file_row_of b p s) -> pv_states (load_prev rows) b !! p = None.
Proof.
  unfold load_prev. induction rows as [|x rows IH] using rev_ind; intros Hn.
  { by destruct b. }
  rewrite fold_left_app. cbn [fold_left].
  destruct (load_row_lookup (fold_left load_row rows prev_empty) x b p) as [[Hx _]|[_ ->]].
  - destruct (Hn x); [|done]. apply elem_of_app. right. by apply list_elem_of_singleton.
  - apply IH. intros s Hs. apply Hn, elem_of_app. by left.
Qed.

(** Rows sit under their own key, name a side and carry a normal path. *)
Definition wf_table (T : state_table) : Prop :=
  forall k s, T !! k = Some s ->
    row_key s = k /\ (exists b, ss_Side s = side_name b) /\ normal (ss_RelPath s).

Definition reload (jobID : string) (T : state_table) : prevStates :=
  load_prev (job_rows jobID T).

Lemma elem_of_job_rows jobID T s :
  wf_table T -> s ∈ job_rows jobID T <-> T !! row_key s = Some s /\ ss_SyncJobID s = jobID.
Proof.
  intros Hw. unfold job_rows. rewrite list_elem_of_fmap. split.
  - intros ([k s'] & -> & Hin). apply elem_of_map_to_list in Hin.
    apply map_lookup_filter_Some in Hin as [Hk Hj]. cbn in *.
    destruct (Hw _ _ Hk) as (<- & _). done.
  - intros [Hk Hj]. exists (row_key s, s). split; [done|].
    apply elem_of_map_to_list, map_lookup_filter_Some. done.
Qed.

Lemma reload_lookup jobID T b p :
  wf_table T ->
  pv_states (reload jobID T) b !! p
  = match T !! (jobID, side_name b, p) with
    | Some s => if ss_Size s =? -1 then None else Some s
    | None => None
    end.
Proof.
  intros Hw. unfold reload.
  assert (forall s, s ∈ job_rows jobID T -> file_row_of b p s ->
    T !! (jobID, side_name b, p) = Some s /\ ss_Size s <> -1) as Hrows.
  { intros s (Hk & Hj)%elem_of_job_rows (Hb & Hz & Hp); [|done].
    destruct (Hw _ _ Hk) as (_ & [b' Hs] & Hn). unfold normal in Hn.
    rewrite Hn in Hp. unfold row_key in Hk. rewrite Hj, Hp, Hs in Hk.
    rewrite Hs in Hb. by destruct b', b. }
  destruct (T !! (jobID, side_name b, p)) as [s|] eqn:Es.
  - destruct (Hw _ _ Es) as (Hk & _ & Hn). unfold row_key in Hk. injection Hk as Hj Hs Hr.
    destruct (ss_Size s =? -1) eqn:Ez; go_bool.
    + apply load_prev_none. intros s' Hs' Hf. destruct (Hrows _ Hs' Hf). congruence.
    + apply load_prev_lookup.
      * apply elem_of_job_rows; [done|]. unfold row_key. by rewrite Hj, Hs, Hr.
      * repeat split; [by rewrite Hs; destruct b|done|]. by rewrite Hn.
      * intros s' Hs' Hf. destruct (Hrows _ Hs' Hf). congruence.
  - apply load_prev_none. intros s' Hs' Hf. destruct (Hrows _ Hs' Hf). congruence.
Qed.



(** ** Reconciliation of the completed operations *)

Record completedTaskOperation := mkOp {
  op_filePath : string;
  op_action : string;
  op_side : string;
}.

Definition set_file (sn : snapshot) (b : bool) (p : string) (o : option fileState) : snapshot :=
  let upd m := match o with Some f => <[p := f]> m | None => delete p m end in
  let '(mkSnapshot s t sd td se te) := sn in
  if b then mkSnapshot (upd s) t sd td se te else mkSnapshot s (upd t) sd td se te.

Definition set_dirs (sn : snapshot) (b : bool) (f : gset string -> gset string) : snapshot :=
  let '(mkSnapshot s t sd td se te) := sn in
  if b then mkSnapshot s t (f sd) td se te else mkSnapshot s t sd (f td) se te.

Definition set_etags (sn : snapshot) (b : bool) (f : gmap string string -> gmap string string)
    : snapshot :=
  let '(mkSnapshot s t sd td se te) := sn in
  if b then mkSnapshot s t sd td (f se) te else mkSnapshot s t sd td se (f te).

Section Reconcile.
(** [InspectResource] of the source ([true]) and target client at the end of
    the pass. *)
Variable inspect : bool -> string -> res storage_error CloudResource.
Variable targetDir : string.

Definition reconcile_op (st : snapshot * gset string) (op : completedTaskOperation)
    : snapshot * gset string :=
  let '(sn, protectedPaths) := st in
  let relPath := cleanRelPath (op_filePath op) in
  if bool_decide (relPath ∈ protectedPaths) then st
  else if String.eqb (op_action op) "upload" || String.eqb (op_action op) "download" then
    let b := String.eqb (op_action op) "download" in
    let destinationPath := if b then relPath else getTargetAbsPath relPath targetDir in
    match inspect b destinationPath with
    | Ok r =>
        if res_IsDir r then (sn, {[relPath]} ∪ protectedPaths)
        else
          let f := mkFileState relPath (res_Size r) (res_LastModified r) (res_Hash r)
                     (res_ETag r) in
          (set_etags (set_file sn b relPath (Some f)) b
             (fun m => invalidateParentDirectoryETags m relPath), protectedPaths)
    | Err _ => (sn, {[relPath]} ∪ protectedPaths)
    end
  else if String.eqb (op_action op) "delete" then
    let b := String.eqb (op_side op) "source" in
    let sn := set_file sn b relPath None in
    let sn := set_dirs sn b (fun d => d ∖ {[relPath]}) in
    (set_etags sn b (fun m => invalidateParentDirectoryETags (delete relPath m) relPath),
     protectedPaths)
  else if String.eqb (op_action op) "mkdir" then
    let b := String.eqb (op_side op) "source" in
    let sn := set_dirs sn b (fun d => {[relPath]} ∪ d) in
    (set_etags sn b (fun m => invalidateParentDirectoryETags (delete relPath m) relPath),
     protectedPaths)
  else if String.eqb (op_action op) "conflict_copy" then
    (set_etags sn false (fun m => invalidateParentDirectoryETags m relPath), protectedPaths)
  else st.

Definition reconcileSuccessfulOperations (sn : snapshot)
    (operations : list completedTaskOperation) (protectedPaths : gset string)
    : snapshot * gset string :=
  fold_left reconcile_op operations (sn, protectedPaths).

Lemma files_set_file sn b p o b' :
  files (set_file sn b p o) b'
  = if Bool.eqb b b'
    then match o with Some f => <[p := f]> (files sn b') | None => delete p (files sn b') end
    else files sn b'.
Proof. by destruct sn, b, b'. Qed.

Lemma files_set_etags sn b f b' : files (set_etags sn b f) b' = files sn b'.
Proof. by destruct sn, b, b'. Qed.

Lemma files_set_dirs sn b f b' : files (set_dirs sn b f) b' = files sn b'.
Proof. by destruct sn, b, b'. Qed.

(** An operation changes the file entries of its own path only. *)
Lemma reconcile_op_frame st op b p :
  p <> cleanRelPath (op_filePath op) ->
  files (reconcile_op st op).1 b !! p = files st.1 b !! p.
Proof.
  intros Hp. destruct st as [sn prot]. unfold reconcile_op.
  go_cases; cbn; rewrite ?files_set_etags, ?files_set_dirs, ?files_set_file;
    try done; case_match; try done;
    rewrite ?lookup_insert_ne, ?lookup_delete_ne by done; done.
Qed.

Lemma reconcile_frame ops st b p :
  Forall (fun op => p <> cleanRelPath (op_filePath op)) ops ->
  files (fold_left reconcile_op ops st).1 b !! p = files st.1 b !! p.
Proof.
  intros H. revert st. induction H as [|op ops Hop Hops IH]; intros st; [done|].
  cbn [fold_left]. by rewrite IH, reconcile_op_frame.
Qed.

(** The effect of a file operation on the presence of its path, when the
    destination can be inspected. *)
Definition op_presence (op : completedTaskOperation) (b : bool) (present : bool) : bool :=
  if String.eqb (op_action op) "upload" then (if b then present else true)
  else if String.eqb (op_action op) "download" then (if b then true else present)
  else if String.eqb (op_action op) "delete" then
    (if Bool.eqb (String.eqb (op_side op) "source") b then false else present)
  else present.

Hypothesis inspect_ok : forall b p, exists r, inspect b p = Ok r /\ res_IsDir r = false.

Lemma reconcile_op_presence sn op b :
  has (files (reconcile_op (sn, ∅) op).1 b !! cleanRelPath (op_filePath op))
  = op_presence op b (has (files sn b !! cleanRelPath (op_filePath op)))
  /\ (reconcile_op (sn, ∅) op).2 = ∅.
Proof.
  unfold reconcile_op, op_presence. rewrite bool_decide_eq_false_2 by set_solver.
  destruct (String.eqb (op_action op) "upload") eqn:E1; cbn [orb].
  - go_bool. rewrite E1. cbn.
    destruct (inspect_ok false (getTargetAbsPath (cleanRelPath (op_filePath op)) targetDir))
      as (r & -> & ->).
    cbn. rewrite files_set_etags, files_set_file. destruct b; cbn; [done|].
    by rewrite lookup_insert_eq.
  - destruct (String.eqb (op_action op) "download") eqn:E2.
    + destruct (inspect_ok true (cleanRelPath (op_filePath op))) as (r & -> & ->).
      cbn. rewrite files_set_etags, files_set_file. destruct b; cbn; [|done].
      by rewrite lookup_insert_eq.
    + destruct (String.eqb (op_action op) "delete"); [|by go_cases; cbn;
        rewrite ?files_set_etags, ?files_set_dirs].
      cbn. rewrite files_set_etags, files_set_dirs, files_set_file.
      destruct (Bool.eqb _ _); [by rewrite lookup_delete_eq|done].
Qed.

Lemma reconcile_unprotected sn ops :
  (fold_left reconcile_op ops (sn, ∅)).2 = ∅.
Proof.
  revert sn. induction ops as [|op ops IH]; intros sn; [done|]. cbn [fold_left].
  destruct (reconcile_op_presence sn op true) as [_ H].
  destruct (reconcile_op (sn, ∅) op) as [sn' prot']. cbn in H. subst. apply IH.
Qed.

Lemma reconcile_presence sn ops op b :
  op ∈ ops -> NoDup (map (fun o => cleanRelPath (op_filePath o)) ops) ->
  has (files (fold_left reconcile_op ops (sn, ∅)).1 b !! cleanRelPath (op_filePath op))
  = op_presence op b (has (files sn b !! cleanRelPath (op_filePath op))).
Proof.
  intros Hin Hnd. revert sn. induction ops as [|o ops IH]; intros sn.
  { by apply elem_of_nil in Hin. }
  cbn [map] in Hnd. apply NoDup_cons in Hnd as [Hno Hnd]. cbn [fold_left].
  destruct (reconcile_op_presence sn o b) as [Hp He].
  destruct (reconcile_op (sn, ∅) o) as [sn' prot'] eqn:Eo. cbn in Hp, He. subst prot'.
  apply elem_of_cons in Hin as [->|Hin].
  - rewrite reconcile_frame; [done|]. apply Forall_forall. intros o' Ho' E. apply Hno.
    apply list_elem_of_fmap. by exists o'.
  - rewrite IH by done. f_equal. f_equal.
    change sn' with (sn', ∅ : gset string).1. rewrite <- Eo, reconcile_op_frame; [done|].
    intros E. apply Hno. apply list_elem_of_fmap. by exists op.
Qed.
End Reconcile.

(** ** The end of a pass and the start of the next *)

Definition op_of (t : taskToCreate) : completedTaskOperation :=
  mkOp (filePath t) (action t) (side t).

Section Converge.
Context `{GoUnicode}.

Lemma delta_loop_flat cfg m uuid keys :
  (delta_loop cfg m uuid keys).2
  = flat_map (fun S => (delta_path cfg S (view_at m S) (uuid S)).2) keys.
Proof.
  unfold delta_loop.
  assert (forall r0 t0, (fold_left (fun '(renames, tasks) S =>
      let '(r, t) := delta_path cfg S (view_at m S) (uuid S) in (renames ++ r, tasks ++ t))
      keys (r0, t0)).2
    = t0 ++ flat_map (fun S => (delta_path cfg S (view_at m S) (uuid S)).2) keys) as Hg;
    [|apply Hg].
  induction keys as [|k keys IH]; intros r0 t0; cbn; [by rewrite app_nil_r|].
  destruct (delta_path cfg k (view_at m k) (uuid k)) as [r t]. by rewrite IH, app_assoc.
Qed.

(** The tasks of a pass address distinct paths. *)
Lemma delta_loop_nodup cfg m uuid keys :
  NoDup keys -> NoDup (map filePath (delta_loop cfg m uuid keys).2).
Proof.
  rewrite delta_loop_flat. induction 1 as [|k keys Hk Hnd IH]; cbn; [constructor|].
  rewrite map_app.
  destruct (delta_path_shape cfg k (view_at m k) (uuid k)) as (r & t & -> & _ & Hl & _ & Hf).
  cbn. destruct t as [|x [|y t]]; cbn in *; [done| |lia].
  apply Forall_inv in Hf. constructor; [|done].
  intros Hin. apply list_elem_of_fmap in Hin as (z & Hz & Hin).
  apply list_elem_of_In, in_flat_map in Hin as (k' & Hk' & Hin).
  apply list_elem_of_In in Hin. apply delta_path_filePath in Hin.
  apply Hk. apply list_elem_of_In. congruence.
Qed.

(** Which sides hold the path of a view once its tasks have completed. *)
Definition post_presence (ts : list taskToCreate) (b : bool) (present : bool) : bool :=
  match ts with [] => present | t :: _ => op_presence (op_of t) b present end.

Lemma delta_path_converges cfg S v uuid :
  ConflictStrategy cfg = "OVERWRITE" -> DeletePropagation cfg = true ->
  let ts := (delta_path cfg S v uuid).2 in
  let src := post_presence ts true (has (v_src v)) in
  let tgt := post_presence ts false (has (v_tgt v)) in
  (src = true -> tgt = true) /\ (Direction cfg <> "one_way" -> tgt = true -> src = true).
Proof.
  intros Hc Hp. unfold delta_path.
  destruct (String.eqb (Direction cfg) "one_way") eqn:Ed; go_bool.
  - unfold delta_one_way. rewrite Hp.
    destruct (v_src v), (v_tgt v), (v_psrc v); cbn; try done; by destruct (srcModified v).
  - unfold delta_two_way, delta_conflict. rewrite Hp, Hc.
    destruct (v_src v), (v_tgt v), (v_psrc v), (v_ptgt v); cbn; try done;
      destruct (inSyncDirectMatch v), (srcModified v), (tgtModified v); done.
Qed.

Lemma has_is_Some {A} (o : option A) : has o = true <-> is_Some o.
Proof. destruct o; cbn; [by eauto|]. split; [done|by intros [? ?]]. Qed.

Section Pass.
Context (cfg : SyncConfig) (m : passMaps) (uuid : string -> string) (keys : list string)
  (sn : snapshot) (inspect : bool -> string -> res storage_error CloudResource)
  (targetDir : string).
Hypothesis Hsrc : files sn true = sourceMap m.
Hypothesis Htgt : files sn false = targetMap m.
Hypothesis Hnd : NoDup keys.
Hypothesis Hkeys : forall p, p ∈ keys <-> p ∈ allKeys m.
Hypothesis Hnorm : forall p, p ∈ keys -> normal p.
Hypothesis inspect_ok : forall b p, exists r, inspect b p = Ok r /\ res_IsDir r = false.

(** The snapshot once every task of the pass has completed and been
    reconciled. *)
Definition completed_snapshot : snapshot :=
  (reconcileSuccessfulOperations inspect targetDir sn
     (map op_of (delta_loop cfg m uuid keys).2) ∅).1.

Lemma ops_paths :
  map (fun o => cleanRelPath (op_filePath o)) (map op_of (delta_loop cfg m uuid keys).2)
  = map filePath (delta_loop cfg m uuid keys).2.
Proof.
  rewrite map_map. apply map_ext_in. intros t Ht. apply list_elem_of_In in Ht.
  apply elem_of_delta_loop in Ht as (S & HS & Ht).
  pose proof (delta_path_filePath _ _ _ _ _ Ht) as E. cbn. rewrite E. by apply Hnorm.
Qed.

Lemma completed_presence b p :
  p ∈ keys ->
  has (files completed_snapshot b !! p)
  = post_presence (delta_path cfg p (view_at m p) (uuid p)).2 b (has (files sn b !! p)).
Proof.
  intros Hp. unfold completed_snapshot, reconcileSuccessfulOperations.
  destruct (delta_path_shape cfg p (view_at m p) (uuid p)) as (r & ts & E & _ & Hl & _ & Hf).
  rewrite E. cbn. destruct ts as [|t ts].
  - rewrite reconcile_frame; [done|]. apply Forall_forall. intros o Ho Ep.
    apply list_elem_of_fmap in Ho as (t & -> & Ht).
    apply elem_of_delta_loop in Ht as (S & HS & Ht).
    pose proof (delta_path_filePath _ _ _ _ _ Ht) as Ef. cbn in Ep.
    rewrite Ef, (Hnorm S HS) in Ep. subst S. rewrite E in Ht. by apply elem_of_nil in Ht.
  - apply Forall_inv in Hf. cbn.
    assert (op_of t ∈ map op_of (delta_loop cfg m uuid keys).2) as Hin.
    { apply list_elem_of_fmap. exists t. split; [done|]. apply elem_of_delta_loop.
      exists p. rewrite E. split; [done|by left]. }
    pose proof (reconcile_presence inspect targetDir inspect_ok sn _ _ b Hin) as Hpr.
    rewrite ops_paths in Hpr. specialize (Hpr (delta_loop_nodup _ _ _ _ Hnd)).
    cbn in Hpr. rewrite Hf, (Hnorm p Hp) in Hpr. by rewrite <- Hpr.
Qed.

Lemma completed_outside b p : p ∉ keys -> files completed_snapshot b !! p = None.
Proof.
  intros Hp. unfold completed_snapshot, reconcileSuccessfulOperations.
  rewrite reconcile_frame.
  - rewrite Hkeys in Hp. unfold allKeys in Hp. rewrite !not_elem_of_union in Hp.
    destruct Hp as [[[H1 H2] _] _]. cbn. destruct b.
    + rewrite Hsrc. by apply not_elem_of_dom.
    + rewrite Htgt. by apply not_elem_of_dom.
  - apply Forall_forall. intros o Ho Ep.
    apply list_elem_of_fmap in Ho as (t & -> & Ht).
    apply elem_of_delta_loop in Ht as (S & HS & Ht).
    pose proof (delta_path_filePath _ _ _ _ _ Ht) as Ef. cbn in Ep.
    rewrite Ef, (Hnorm S HS) in Ep. by subst S.
Qed.

Lemma completed_sides_agree :
  ConflictStrategy cfg = "OVERWRITE" -> DeletePropagation cfg = true ->
  dom (files completed_snapshot true) ⊆ dom (files completed_snapshot false)
  /\ (Direction cfg <> "one_way" ->
      dom (files completed_snapshot false) ⊆ dom (files completed_snapshot true)).
Proof.
  intros Hc Hp.
  assert (forall p b, p ∈ keys -> has (files sn b !! p)
    = has (if b then v_src (view_at m p) else v_tgt (view_at m p))) as Hv.
  { intros p [] _; [by rewrite Hsrc|by rewrite Htgt]. }
  split; [|intros Hd]; intros p; rewrite !elem_of_dom, <- !has_is_Some.
  all: destruct (decide (p ∈ keys)) as [Hk|Hk];
    [|rewrite !completed_outside by done; by intros ?].
  all: rewrite !completed_presence, !Hv by done;
    destruct (delta_path_converges cfg p (view_at m p) (uuid p) Hc Hp) as [H1 H2]; auto.
Qed.
End Pass.
End Converge.

Lemma load_prev_dirs_normal (rows : list SyncState) :
  normal_set (pv_sourceDirs (load_prev rows)) /\ normal_set (pv_targetDirs (load_prev rows)).
Proof.
  unfold load_prev. induction rows as [|x rows [IH1 IH2]] using rev_ind.
  { split; intros p Hp; by apply elem_of_empty in Hp. }
  rewrite fold_left_app. cbn [fold_left].
  destruct (fold_left load_row rows prev_empty) as [a1 a2 a3 a4 a5 a6 a7 a8].
  cbn in IH1, IH2. unfold load_row.
  repeat case_match; cbn; split; try done; intros p Hp;
    (apply elem_of_union in Hp as [Hp|Hp]; [|auto]);
    apply elem_of_singleton in Hp as ->; apply cleanRelPath_idemp.
Qed.

(** The path, if it is or was a directory of the side, is no file path of the pass. *)
Definition kind_kept (sn : snapshot) (pv : prevStates) (b : bool) (p : string) : Prop :=
  p ∈ dirs sn b \/ is_Some (etags sn b !! p) \/ p ∈ prev_dirs (pv_sourceDirs pv) (pv_targetDirs pv) b ->
  p ∉ allPaths sn (pv_source pv) (pv_target pv).

(** The path of the side changed between file and directory since the recorded baseline:
    it is a directory and was a file, or it is a file and was a directory. *)
Definition kind_changed (sn : snapshot) (pv : prevStates) (prot : gset string) (b : bool) (p : string) : Prop :=
  (p ∈ dirs sn b /\ files sn b !! p = None /\ p ∈ allPaths sn (pv_source pv) (pv_target pv) /\ (p ∉ prot))
  \/ (is_Some (files sn b !! p) /\ p ∈ prev_dirs (pv_sourceDirs pv) (pv_targetDirs pv) b /\ (p ∉ dirs sn b)
     /\ etags sn b !! p = None).

Definition kinds_separate (sn : snapshot) (pv : prevStates) : Prop := forall b p, kind_kept sn pv b p.

Definition sized (sn : snapshot) : Prop :=
  forall b p f, files sn b !! p = Some f -> 0 <= fs_Size f.

(** The baseline rows the next pass reads. *)
Definition next_baseline (jobID : string) (sn : snapshot) (prot : gset string)
    (T : state_table) : prevStates :=
  let pv := reload jobID T in
  reload jobID (table_after jobID sn (pv_source pv) (pv_target pv)
                  (pv_sourceDirs pv) (pv_targetDirs pv) prot T).

Section Finalize.
Context (jobID : string) (sn : snapshot) (prot : gset string) (T : state_table).
Hypothesis HT : wf_table T.
Hypothesis Hsn : normal_snapshot sn.
Hypothesis Hsize : sized sn.
Let pv := reload jobID T.
Let T' := table_after jobID sn (pv_source pv) (pv_target pv)
            (pv_sourceDirs pv) (pv_targetDirs pv) prot T.

Lemma pv_normal : normal_set (pv_sourceDirs pv) /\ normal_set (pv_targetDirs pv).
Proof. apply load_prev_dirs_normal. Qed.

Lemma table_after_wf : wf_table T'.
Proof.
  intros k s Hs. unfold T' in Hs. rewrite table_after_eq in Hs.
  apply bulk_origin in Hs as [[Hin Hk]|Hs]; [|by apply HT].
  split; [done|]. apply elem_of_upserts in Hin as (b & Hin).
  destruct Hin as [(p & f & _ & _ & _ & ->)|[(d & e & _ & _ & ->)|(d & _ & _ & ->)]];
    (split; [by exists b|apply cleanRelPath_idemp]).
Qed.

Lemma outside_no_file b p :
  p ∉ allPaths sn (pv_source pv) (pv_target pv) ->
  files sn b !! p = None /\ pv_states pv b !! p = None.
Proof.
  intros Hp. split.
  - destruct (files sn b !! p) as [f|] eqn:E; [|done]. destruct Hp.
    apply (in_allPaths _ _ _ b); [|by rewrite E].
    destruct (Hsn b) as (Hf & _ & _). apply Hf. by rewrite E.
  - destruct (pv_states pv b !! p) as [s|] eqn:E; [|done]. destruct Hp.
    assert (normal p) as Hn.
    { unfold pv in E. rewrite reload_lookup in E by done.
      destruct (T !! _) as [s'|] eqn:Es; [|done]. destruct (HT _ _ Es) as (Hk & _ & Hn).
      unfold row_key in Hk. injection Hk as _ _ <-. done. }
    unfold allPaths. rewrite !elem_of_union, !elem_of_map.
    destruct b; cbn in E; [left; right|right]; exists p; rewrite Hn, elem_of_dom; by eauto.
Qed.

Lemma next_outside b p :
  p ∉ allPaths sn (pv_source pv) (pv_target pv) -> pv_states (reload jobID T') b !! p = None.
Proof.
  intros Hp. rewrite reload_lookup by apply table_after_wf.
  destruct (T' !! (jobID, side_name b, p)) as [s|] eqn:Es; [|done].
  assert (ss_Size s = -1) as Hz; [|by rewrite Hz].
  unfold T' in Es. rewrite table_after_eq in Es.
  apply bulk_origin in Es as [[Hin Hk]|Hs].
  - apply elem_of_upserts in Hin as (b' & Hin).
    destruct Hin as [(q & f & Hq & _ & _ & ->)|[(d & e & _ & _ & ->)|(d & _ & _ & ->)]];
      [|done|done].
    pose proof (allPaths_normal _ _ _ _ Hq) as Hqn. unfold normal in Hqn.
    rewrite Hqn, file_row_key in Hk. injection Hk as _ ->. done.
  - destruct (outside_no_file b p Hp) as [_ Hn]. unfold pv in Hn.
    rewrite reload_lookup in Hn by done. case_match eqn:Et;
      pose proof (eq_trans (eq_sym Hs) Et) as Ess; [|done]. injection Ess as <-.
    destruct (ss_Size s =? -1) eqn:E; go_bool; done.
Qed.

Lemma next_lookup b p : kind_kept sn pv b p ->
  pv_states (reload jobID T') b !! p
  = if decide (p ∈ prot) then pv_states pv b !! p
    else file_row jobID (side_name b) p <$> files sn b !! p.
Proof.
  intros Hkind. destruct pv_normal as [Hn1 Hn2].
  destruct (decide (p ∈ allPaths sn (pv_source pv) (pv_target pv))) as [Hp|Hp].
  - assert (no_dir sn (pv_sourceDirs pv) (pv_targetDirs pv) b p) as Hd.
    { unfold no_dir. repeat split.
      - intros ?. by apply Hkind; [left|].
      - destruct (etags sn b !! p) eqn:E; [|done].
        exfalso. apply Hkind; [right; left; by rewrite E|done].
      - intros ?. by apply Hkind; [right; right|]. }
    rewrite reload_lookup by apply table_after_wf. unfold T'. case_decide as Hpr.
    + rewrite table_after_protected by done. unfold pv. by rewrite reload_lookup.
    + rewrite table_after_file by done.
      destruct (files sn b !! p) as [f|] eqn:E; cbn; [|done].
      pose proof (Hsize _ _ _ E). by rewrite (proj2 (Z.eqb_neq _ _)) by lia.
  - rewrite next_outside by done. destruct (outside_no_file b p Hp) as [-> ->].
    by case_decide.
Qed.
End Finalize.

(** A path that was a file and became a directory (or the reverse) on one side
    loses the row just written for it, because all deletions run after all
    upserts: the next pass has no baseline for the surviving object. *)
Lemma kind_change_loses_row jobID sn pv prot T b p :
  normal_set (pv_sourceDirs pv) -> normal_set (pv_targetDirs pv) -> kind_changed sn pv prot b p ->
  table_after jobID sn (pv_source pv) (pv_target pv) (pv_sourceDirs pv) (pv_targetDirs pv) prot T
    !! (jobID, side_name b, p) = None.
Proof.
  intros Hs Ht [(Hd & Hf & Hp & Hn)|(_ & Hp & Hd & He)].
  - by apply table_after_dir_lost.
  - by apply table_after_file_lost.
Qed.


Lemma file_row_baseline jobID b p f : baseline_of f (file_row jobID (side_name b) p f) b.
Proof. by destruct b. Qed.

Lemma finalize_current jobID sn T :
  wf_table T -> normal_snapshot sn -> sized sn -> kinds_separate sn (reload jobID T) ->
  let pv := next_baseline jobID sn ∅ T in
  baseline_current (mkMaps (files sn true) (files sn false) (pv_source pv) (pv_target pv)).
Proof.
  intros HT Hsn Hz Hk pv. split; intros S; cbn.
  - change (pv_source pv) with (pv_states pv true). unfold pv.
    unfold next_baseline. rewrite next_lookup, decide_False by (done || apply Hk || set_solver).
    change (sn_sourceMap sn) with (files sn true).
    destruct (files sn true !! S); [apply (file_row_baseline jobID true)|done].
  - change (pv_target pv) with (pv_states pv false). unfold pv.
    unfold next_baseline. rewrite next_lookup, decide_False by (done || apply Hk || set_solver).
    change (sn_targetMap sn) with (files sn false).
    destruct (files sn false !! S); [apply (file_row_baseline jobID false)|done].
Qed.

(** C10: passes converge.  When the conflict strategy is OVERWRITE, deletions are
    propagated and every task of the pass completes, and the finalization can inspect both
    sides of every path and finds no directory there, the baseline written at the end makes
    the next pass create no file task at all - provided its listing is the reconciled one
    of this pass and no path of that listing changed between file and directory (such a path
    loses its row, as [finalize_baseline] says, and may be transferred once more). *)
Theorem pass_converges `{GoUnicode} cfg m uuid uuid' keys keys' sn inspect targetDir jobID T :
  files sn true = sourceMap m -> files sn false = targetMap m ->
  NoDup keys -> (forall p, p ∈ keys <-> p ∈ allKeys m) -> (forall p, p ∈ keys -> normal p) ->
  (forall b p, exists r, inspect b p = Ok r /\ res_IsDir r = false) ->
  ConflictStrategy cfg = "OVERWRITE" -> DeletePropagation cfg = true ->
  let sn' := completed_snapshot cfg m uuid keys sn inspect targetDir in
  wf_table T -> normal_snapshot sn' -> sized sn' -> kinds_separate sn' (reload jobID T) ->
  let pv := next_baseline jobID sn' ∅ T in
  delta_loop cfg (mkMaps (files sn' true) (files sn' false) (pv_source pv) (pv_target pv))
    uuid' keys' = ([], []).
Proof.
  intros Hs Ht Hnd Hk Hn Hi Hc Hp sn' HT Hsn Hz Hsep pv.
  destruct (completed_sides_agree cfg m uuid keys sn inspect targetDir Hs Ht Hnd Hk Hn Hi Hc Hp)
    as [H1 H2].
  apply delta_loop_stable; [by apply finalize_current|done|done].
Qed.

(** Without delete propagation a two-way pass leaves a file alone that the other
    side deleted, but the baseline row of the deleted copy goes with the pass:
    the next pass uploads the file again. *)
Theorem unpropagated_deletion_returns `{GoUnicode} cfg S s p q uuid :
  Direction cfg <> "one_way" -> DeletePropagation cfg = false ->
  isFileModified s p true = false ->
  delta_path cfg S (mkView (Some s) None (Some p) (Some q)) uuid = ([], [])
  /\ delta_path cfg S (mkView (Some s) None (Some p) None) uuid = ([], [upload_task S s ""]).
Proof.
  intros Hd Hp Hm. unfold delta_path. rewrite (proj2 (String.eqb_neq _ _) Hd).
  unfold delta_two_way, srcModified, tgtModified, inSyncDirectMatch. cbn.
  by rewrite Hm, Hp.
Qed.

(** ** A concrete baseline *)

Definition sn_ex : snapshot :=
  mkSnapshot {["/a" := file_ex "/a" 5 9000]} ∅ ∅ ∅ ∅ ∅.

Lemma wf_table_empty : wf_table ∅.
Proof. intros k s Hs. by rewrite lookup_empty in Hs. Qed.

Lemma singleton_some {A} (k p : string) (x : A) :
  is_Some (({[k := x]} : gmap string A) !! p) -> p = k.
Proof. intros [y Hy]. by apply lookup_singleton_Some in Hy as [<- _]. Qed.

Lemma empty_some {A} (p : string) : ~ is_Some ((∅ : gmap string A) !! p).
Proof. intros [y Hy]. by rewrite lookup_empty in Hy. Qed.

(** A snapshot of the file "/a" on one or both sides meets the side conditions. *)
Definition sn_of (t : gmap string fileState) : snapshot :=
  mkSnapshot {["/a" := file_ex "/a" 5 9000]} t ∅ ∅ ∅ ∅.

Lemma sn_of_ok t :
  (forall p f, t !! p = Some f -> p = "/a" /\ 0 <= fs_Size f) ->
  normal_snapshot (sn_of t) /\ sized (sn_of t) /\ kinds_separate (sn_of t) (reload "j" ∅).
Proof.
  intros Ht. split; [|split].
  - intros []; (split; [|split]); cbn; intros p Hp;
      try (by destruct (empty_some p Hp)); try (by apply elem_of_empty in Hp).
    + apply singleton_some in Hp as ->. reflexivity.
    + destruct Hp as [f Hf]. destruct (Ht p f Hf) as [-> _]. reflexivity.
  - intros [] p f Hf; cbn in Hf; [|by apply (Ht p f)].
    apply lookup_singleton_Some in Hf as [<- <-]. cbn. lia.
  - intros [] p; cbn; intros [Hp|[Hp|Hp]];
      try (by destruct (empty_some p Hp)); by apply elem_of_empty in Hp.
Qed.


(** The upload of a new file: the next pass has nothing to do. *)
Definition maps_new : passMaps := mkMaps {["/a" := file_ex "/a" 5 9000]} ∅ ∅ ∅.
Definition cfg_over : SyncConfig := mkSyncConfig "two_way" "OVERWRITE" true.
Definition inspect_new (b : bool) (p : string) : res storage_error CloudResource :=
  Ok (mkResource p "a" 5 false "" "" 9500).
Definition sn_new : snapshot :=
  @completed_snapshot ascii_tables cfg_over maps_new (fun _ => "u") ["/a"] sn_ex inspect_new "/".

Lemma sn_new_eq : sn_new = sn_of {["/a" := mkFileState "/a" 5 9500 "" ""]}.
Proof. vm_compute. reflexivity. Qed.

Lemma sn_new_ok :
  normal_snapshot sn_new /\ sized sn_new /\ kinds_separate sn_new (reload "j" ∅).
Proof.
  rewrite sn_new_eq. apply sn_of_ok. intros p f Hf.
  apply lookup_singleton_Some in Hf as [<- <-]. split; [done|cbn; lia].
Qed.

Lemma pass_converges_witness :
  @delta_loop ascii_tables cfg_over
    (mkMaps (files sn_new true) (files sn_new false)
       (pv_source (next_baseline "j" sn_new ∅ ∅)) (pv_target (next_baseline "j" sn_new ∅ ∅)))
    (fun _ => "v") ["/a"] = ([], []).
Proof.
  apply (@pass_converges ascii_tables cfg_over maps_new (fun _ => "u") (fun _ => "v")
           ["/a"] ["/a"] sn_ex inspect_new "/" "j" ∅).
  - reflexivity.
  - reflexivity.
  - apply NoDup_singleton.
  - intros p. rewrite list_elem_of_singleton. unfold allKeys. cbn.
    rewrite !elem_of_union, dom_singleton_L, elem_of_singleton. set_solver.
  - intros p ->%list_elem_of_singleton. reflexivity.
  - intros b p. eexists. split; reflexivity.
  - reflexivity.
  - reflexivity.
  - exact wf_table_empty.
  - apply sn_new_ok.
  - apply sn_new_ok.
  - apply sn_new_ok.
Defined.
