(* ===== verification/SyncCleanup.v ===== *)
(** * Removal of empty directories

    [cleanupEmptyDirectories] and [applyDirectoryCleanupResults]
    (src/backend/internal/sync/delta.go): the only place where a sync pass
    deletes a collection.  The clients are arbitrary providers over a shared
    world, so that calls, their order and their effects can be stated. *)

From S2P Require Import Prelude GoPath HashString Storage SyncPaths SyncDelta.

(** ** Candidates and their order *)

Definition candidate_clean (c : directoryCleanupCandidate) : directoryCleanupCandidate :=
  mkCandidate (cleanRelPath (cand_relPath c)) (cand_side c).

Definition candidate_valid (c : directoryCleanupCandidate) : bool :=
  negb (String.eqb (cand_relPath c) "/")
  && (String.eqb (cand_side c) "source" || String.eqb (cand_side c) "target").

(** The deduplicated candidates, in the order the map iteration gives. *)
Definition candidate_unique (candidates : list directoryCleanupCandidate)
    : list directoryCleanupCandidate :=
  remove_dups (List.filter candidate_valid (map candidate_clean candidates)).

Definition depth (c : directoryCleanupCandidate) : nat := str_count slash (cand_relPath c).

Definition candidate_less (a b : directoryCleanupCandidate) : bool :=
  if negb (Nat.eqb (depth a) (depth b)) then Nat.ltb (depth b) (depth a)
  else String.ltb (cand_relPath a) (cand_relPath b).

Definition candidate_le (a b : directoryCleanupCandidate) : Prop := candidate_less b a = false.

#[export] Instance candidate_le_dec : RelDecision candidate_le.
Proof. intros a b. unfold candidate_le. apply _. Defined.

(** [sort.Slice] leaves candidates with the same path, one per side, in an
    unspecified order; here it is the order of the argument. *)
Definition candidate_order (candidates : list directoryCleanupCandidate)
    : list directoryCleanupCandidate :=
  merge_sort candidate_le (candidate_unique candidates).

Definition provider_path (targetDir : string) (c : directoryCleanupCandidate) : string :=
  if String.eqb (cand_side c) "source" then cand_relPath c
  else getTargetAbsPath (cand_relPath c) targetDir.

(** ** The loop *)

Section Cleanup.
Context {W : Type} (sourceClient targetClient : StorageProvider W) (targetDir : string).

Definition client_of (c : directoryCleanupCandidate) : StorageProvider W :=
  if String.eqb (cand_side c) "source" then sourceClient else targetClient.

(** Whether the candidate counts as removed. *)
Definition cleanup_one (w : W) (c : directoryCleanupCandidate) : bool * W :=
  let p := provider_path targetDir c in
  let '(listing, w) := GetDirectoryListing (client_of c) w p in
  match listing with
  | Err ErrNotFound => (true, w)
  | Err _ => (false, w)
  | Ok (_ :: _) => (false, w)
  | Ok [] =>
      let '(r, w) := DeleteFile (client_of c) w p in
      (res_is_ok r, w)
  end.

Fixpoint cleanup_loop (w : W) (ordered : list directoryCleanupCandidate)
    : list directoryCleanupCandidate * W :=
  match ordered with
  | [] => ([], w)
  | c :: ordered =>
      let '(gone, w) := cleanup_one w c in
      let '(removed, w) := cleanup_loop w ordered in
      (if gone then c :: removed else removed, w)
  end.

Definition cleanupEmptyDirectories (w : W) (candidates : list directoryCleanupCandidate)
    : list directoryCleanupCandidate * W :=
  cleanup_loop w (candidate_order candidates).
End Cleanup.

(** The directory sets and ETag caches of the two sides, [true] the source. *)
Definition apply_cleanup_one {V} (c : directoryCleanupCandidate)
    (dirs : gset string) (etags : gmap string V) : gset string * gmap string V :=
  (dirs ∖ {[cand_relPath c]},
   invalidateParentDirectoryETags (delete (cand_relPath c) etags) (cand_relPath c)).

Definition applyDirectoryCleanupResults {V} (removed : list directoryCleanupCandidate)
    (sourceDirMap targetDirMap : gset string) (sourceDirETags targetDirETags : gmap string V)
    : (gset string * gmap string V) * (gset string * gmap string V) :=
  fold_left (fun '((sd, se), (td, te)) c =>
    if String.eqb (cand_side c) "source"
    then (apply_cleanup_one c sd se, (td, te))
    else ((sd, se), apply_cleanup_one c td te))
    removed ((sourceDirMap, sourceDirETags), (targetDirMap, targetDirETags)).

(** ** The order is deepest first *)

Lemma string_ltb_asym s t : String.ltb s t = true -> String.ltb t s = false.
Proof.
  unfold String.ltb. rewrite (String.compare_antisym s t).
  by destruct (String.compare t s).
Qed.

#[export] Instance candidate_le_total : Total candidate_le.
Proof.
  intros a b. unfold candidate_le, candidate_less.
  rewrite (Nat.eqb_sym (depth b)). destruct (Nat.eqb (depth a) (depth b)) eqn:E; cbn.
  - destruct (String.ltb (cand_relPath a) (cand_relPath b)) eqn:L; [|by right].
    left. by apply string_ltb_asym.
  - apply Nat.eqb_neq in E. destruct (Nat.ltb (depth b) (depth a)) eqn:L; [|by right].
    left. apply Nat.ltb_lt in L. apply Nat.ltb_ge. lia.
Qed.

Definition deeper (a b : directoryCleanupCandidate) : Prop := (depth b <= depth a)%nat.

Lemma candidate_le_deeper a b : candidate_le a b -> deeper a b.
Proof.
  unfold candidate_le, candidate_less, deeper.
  destruct (Nat.eqb (depth b) (depth a)) eqn:E; cbn [negb].
  - apply Nat.eqb_eq in E. lia.
  - intros H. apply Nat.ltb_ge in H. lia.
Qed.

Lemma candidate_order_deepest_first cs : StronglySorted deeper (candidate_order cs).
Proof.
  apply Sorted_StronglySorted; [intros x y z; unfold deeper; lia|].
  pose proof (Sorted_merge_sort candidate_le (candidate_unique cs)) as H.
  change (merge_sort candidate_le (candidate_unique cs)) with (candidate_order cs) in H.
  induction H as [|c l _ IH Hc]; constructor; [done|].
  destruct Hc; constructor. by apply candidate_le_deeper.
Qed.

Lemma elem_of_candidate_order c cs :
  c ∈ candidate_order cs
  <-> candidate_valid c = true /\ exists c0, c0 ∈ cs /\ c = candidate_clean c0.
Proof.
  unfold candidate_order, candidate_unique.
  rewrite (merge_sort_Permutation candidate_le), elem_of_remove_dups, !list_elem_of_In.
  rewrite filter_In, in_map_iff. setoid_rewrite list_elem_of_In. split.
  - intros [(c0 & <- & H) Hv]. eauto.
  - intros [Hv (c0 & H & ->)]. eauto.
Qed.

(** ** Every deletion follows an empty listing *)

Inductive call : Type :=
| Listed (source : bool) (p : string) (r : res storage_error (list CloudResource))
| Deleted (source : bool) (p : string) (r : res storage_error unit).

(** The client [P] of one side, writing its listings and deletions to a log. *)
Definition logged {W} (source : bool) (P : StorageProvider W)
    : StorageProvider (W * list call) := {|
  GetDirectoryListing := fun '(w, l) p =>
    let '(r, w) := GetDirectoryListing P w p in (r, (w, l ++ [Listed source p r]));
  InspectResource := fun '(w, l) p => let '(r, w) := InspectResource P w p in (r, (w, l));
  DeleteFile := fun '(w, l) p =>
    let '(r, w) := DeleteFile P w p in (r, (w, l ++ [Deleted source p r]));
  CreateDirectory := fun '(w, l) p => let '(r, w) := CreateDirectory P w p in (r, (w, l));
  RenameFile := fun '(w, l) p q => let '(r, w) := RenameFile P w p q in (r, (w, l));
|}.

(** Deletions directly follow an empty listing of the same path. *)
Definition empty_before_delete (l : list call) : Prop :=
  forall n b p r, l !! n = Some (Deleted b p r) ->
  exists m, n = S m /\ l !! m = Some (Listed b p (Ok [])).

Lemma empty_before_delete_listed l b p r :
  empty_before_delete l -> empty_before_delete (l ++ [Listed b p r]).
Proof.
  intros H n b' p' r' Hn. apply lookup_snoc_Some in Hn as [[Hl Hn]|[_ [=]]].
  destruct (H _ _ _ _ Hn) as (m & -> & Hm). exists m. split; [done|].
  by apply lookup_app_l_Some.
Qed.

Lemma empty_before_delete_deleted l b p r :
  empty_before_delete l ->
  empty_before_delete ((l ++ [Listed b p (Ok [])]) ++ [Deleted b p r]).
Proof.
  intros H n b' p' r' Hn.
  apply lookup_snoc_Some in Hn as [[Hl Hn]|[-> E]].
  - destruct (empty_before_delete_listed _ b p (Ok []) H _ _ _ _ Hn) as (m & -> & Hm).
    exists m. split; [done|]. by apply lookup_app_l_Some.
  - injection E as <- <- <-. rewrite length_app. cbn.
    exists (length l). split; [lia|]. apply lookup_app_l_Some.
    apply lookup_snoc_Some. by right.
Qed.

Lemma cleanup_loop_log {W} (S T : StorageProvider W) targetDir ordered w l :
  empty_before_delete l ->
  empty_before_delete
    (cleanup_loop (logged true S) (logged false T) targetDir (w, l) ordered).2.2.
Proof.
  revert w l. induction ordered as [|c ordered IH]; intros w l Hl; [done|].
  cbn [cleanup_loop]. unfold cleanup_one.
  assert (client_of (logged true S) (logged false T) c
    = logged (String.eqb (cand_side c) "source") (client_of S T c)) as ->.
  { unfold client_of. by destruct (String.eqb _ _). }
  cbn [GetDirectoryListing DeleteFile logged].
  destruct (GetDirectoryListing _ _ _) as [[[|x items]|[|e]] w'].
  2-4: match goal with |- context [?l ++ [Listed ?b ?p ?r]] =>
      specialize (IH w' _ (empty_before_delete_listed l b p r Hl)) end;
    by destruct (cleanup_loop _ _ _ _ _).
  destruct (DeleteFile _ _ _) as [r w''].
  match goal with |- context [?l ++ [Listed ?b ?p _]] =>
    specialize (IH w'' _ (empty_before_delete_deleted l b p r Hl)) end.
  by destruct (cleanup_loop _ _ _ _ _).
Qed.

(** Whatever the providers answer, a directory cleanup issues a deletion
    only directly after the same client answered the listing of the same path
    with no entry. *)
Theorem cleanup_deletes_only_empty {W} (S T : StorageProvider W) targetDir candidates w :
  empty_before_delete
    (cleanupEmptyDirectories (logged true S) (logged false T) targetDir (w, []) candidates).2.2.
Proof. apply cleanup_loop_log. intros n b p r Hn. by rewrite lookup_nil in Hn. Qed.


(** ** What the cleanup removes from a well-behaved tree *)

(** [q] lies strictly below [p]. *)
Definition below (p q : string) : Prop :=
  rel_comps p `prefix_of` rel_comps q /\ rel_comps p <> rel_comps q.

#[export] Instance below_dec p q : Decision (below p q).
Proof. unfold below. apply _. Defined.

Lemma below_trans p q r : below p q -> below q r -> below p r.
Proof.
  intros [H1 N1] [H2 N2]. split; [by etrans|]. intros E. rewrite <- E in H2.
  apply N1, prefix_length_eq; [done|]. by apply prefix_length.
Qed.

Lemma below_longer p q :
  below p q -> (length (rel_comps p) < length (rel_comps q))%nat.
Proof.
  intros [[k E] N]. rewrite E in *. rewrite length_app.
  destruct k; [by rewrite app_nil_r in N|]. cbn. lia.
Qed.

Lemma below_irrefl p : ~ below p p.
Proof. by intros [_ N]. Qed.

Definition is_leaf (objects : gset string) (p : string) : Prop :=
  set_Forall (fun q => ~ below p q) objects.

(** The contract of a client that answers every request, for the side [b] of
    the world: a listing reports a missing path and is empty exactly when
    nothing lies below the path; deleting a path with nothing below it removes
    that path.  Neither touches anything else. *)
Record tree_client {W} (objs : W -> bool -> gset string) (b : bool) (P : StorageProvider W)
    : Prop := {
  tree_list : forall w p, let '(r, w') := GetDirectoryListing P w p in
    objs w' = objs w /\
    if decide (p ∈ objs w b) then
      exists items, r = Ok items /\ (items = [] <-> is_leaf (objs w b) p)
    else r = Err ErrNotFound;
  tree_delete : forall w p, p ∈ objs w b -> is_leaf (objs w b) p ->
    let '(r, w') := DeleteFile P w p in
    r = Ok tt /\ objs w' b = objs w b ∖ {[p]} /\ objs w' (negb b) = objs w (negb b);
}.

Definition cand_source (c : directoryCleanupCandidate) : bool :=
  String.eqb (cand_side c) "source".

(** A candidate of [l] on the side [b] whose provider path is [q]. *)
Definition is_cand (targetDir : string) (l : list directoryCleanupCandidate) (b : bool)
    (q : string) : Prop :=
  exists c, c ∈ l /\ cand_source c = b /\ provider_path targetDir c = q.

(** [q] is a candidate and so is every object below it. *)
Definition removable (targetDir : string) (l : list directoryCleanupCandidate) (b : bool)
    (objects : gset string) (q : string) : Prop :=
  is_cand targetDir l b q
  /\ forall q', q' ∈ objects -> below q q' -> is_cand targetDir l b q'.

Definition clean_cand (c : directoryCleanupCandidate) : Prop :=
  cand_relPath c = cleanRelPath (cand_relPath c) /\ cand_relPath c <> "/".

Lemma abs_path_depth cs :
  Forall good_comp cs -> cs <> [] -> str_count slash (abs_path cs) = length cs.
Proof.
  intros H Hn. unfold abs_path. rewrite str_count_app. cbn [str_count].
  change (slash =? "/")%char with true. cbn.
  induction H as [|x cs Hx H IH]; [done|].
  destruct cs as [|y cs]; [cbn; by rewrite good_comp_no_slash|].
  rewrite join_with_cons, !str_count_app, good_comp_no_slash by done.
  specialize (IH ltac:(done)). cbn in *. lia.
Qed.

Lemma clean_cand_depth c :
  clean_cand c -> depth c = length (rel_comps (cand_relPath c)).
Proof.
  intros [E N]. unfold depth. rewrite cleanRelPath_abs in E.
  rewrite E at 1. apply abs_path_depth; [auto with go_db|].
  intros E'. by rewrite E' in E.
Qed.

Lemma provider_path_comps targetDir c :
  rel_comps (provider_path targetDir c)
  = (if cand_source c then [] else rel_comps targetDir) ++ rel_comps (cand_relPath c).
Proof.
  unfold provider_path, cand_source. destruct (String.eqb _ _); [done|].
  rewrite getTargetAbsPath_comps, rel_comps_abs; [done|].
  apply Forall_app; auto with go_db.
Qed.

Lemma below_cand_deeper targetDir c c' :
  clean_cand c -> clean_cand c' -> cand_source c = cand_source c' ->
  below (provider_path targetDir c) (provider_path targetDir c') ->
  ~ deeper c c'.
Proof.
  intros Hc Hc' Hs Hb%below_longer. unfold deeper.
  rewrite !provider_path_comps, Hs, !length_app in Hb.
  rewrite !clean_cand_depth by done. lia.
Qed.

Section Tree.
Context {W : Type} (objs : W -> bool -> gset string).
Context (S T : StorageProvider W) (targetDir : string).
Hypothesis HS : tree_client objs true S.
Hypothesis HT : tree_client objs false T.

Lemma client_tree c : tree_client objs (cand_source c) (client_of S T c).
Proof. unfold client_of, cand_source. by destruct (String.eqb _ _). Qed.

(** One candidate, against its side of the world. *)
Lemma cleanup_one_tree w c :
  let p := provider_path targetDir c in
  let b := cand_source c in
  let '(gone, w') := cleanup_one S T targetDir w c in
  objs w' (negb b) = objs w (negb b)
  /\ (is_leaf (objs w b) p -> objs w' b = objs w b ∖ {[p]})
  /\ (~ is_leaf (objs w b) p -> objs w' b = objs w b)
  /\ (gone = true -> p ∉ objs w' b).
Proof.
  cbn zeta. unfold cleanup_one. destruct (client_tree c) as [Hl Hd].
  specialize (Hl w (provider_path targetDir c)).
  destruct (GetDirectoryListing _ _ _) as [r w1]. destruct Hl as [Ho Hr].
  case_decide as Hp.
  - destruct Hr as (items & -> & Hi). destruct items as [|x items].
    + assert (is_leaf (objs w (cand_source c)) (provider_path targetDir c)) as Hleaf
        by (by apply Hi).
      specialize (Hd w1 (provider_path targetDir c)). rewrite Ho in Hd.
      specialize (Hd Hp Hleaf). destruct (DeleteFile _ _ _) as [r w2].
      destruct Hd as (-> & H1 & H2). repeat split; [done|done|tauto|].
      intros _. rewrite H1. set_solver.
    + assert (~ is_leaf (objs w (cand_source c)) (provider_path targetDir c)) as Hleaf
        by (intros ?%Hi; done).
      rewrite Ho. repeat split; done || tauto.
  - rewrite Hr, Ho. repeat split; try done. intros _. set_solver.
Qed.

Lemma removable_leaf c l (objects : gset string) q :
  is_leaf objects (provider_path targetDir c) ->
  q ∈ objects ->
  removable targetDir (c :: l) (cand_source c) objects q
  <-> q = provider_path targetDir c
      \/ removable targetDir l (cand_source c) (objects ∖ {[provider_path targetDir c]}) q.
Proof.
  intros Hleaf Hq. set (p := provider_path targetDir c) in *. split.
  - intros [Hc Hb]. destruct (decide (q = p)) as [|Hne]; [by left|right]. split.
    + destruct Hc as (c' & [->|Hc']%elem_of_cons & ? & ?); [done|]. by exists c'.
    + intros q' [Hq' Hn]%elem_of_difference Hb'.
      destruct (Hb q' Hq' Hb') as (c' & [->|Hc']%elem_of_cons & ? & ?); [set_solver|].
      by exists c'.
  - intros [->|[Hc Hb]].
    + split; [exists c; split; [by left|done]|]. intros q' Hq' Hb'. by destruct (Hleaf q' Hq').
    + split; [destruct Hc as (c' & ? & ?); exists c'; split; [by right|done]|].
      intros q' Hq' Hb'. destruct (decide (q' = p)) as [->|Hne].
      * exists c. split; [by left|done].
      * destruct (Hb q') as (c' & ? & ?); [set_solver|done|].
        exists c'. split; [by right|done].
Qed.

Lemma removable_inner c l (objects : gset string) q :
  Forall clean_cand (c :: l) -> Forall (deeper c) l ->
  ~ is_leaf objects (provider_path targetDir c) ->
  q ∈ objects ->
  removable targetDir (c :: l) (cand_source c) objects q
  <-> removable targetDir l (cand_source c) objects q.
Proof.
  intros [Hcl Hclean]%Forall_cons Hdeep Hinner Hq.
  set (p := provider_path targetDir c) in *.
  assert (exists q', q' ∈ objects /\ below p q') as (r & Hr & Hb).
  { apply dec_stable. intros Hn. apply Hinner. intros q' Hq' Hb. apply Hn. eauto. }
  assert (~ is_cand targetDir (c :: l) (cand_source c) r) as Hno.
  { intros (c' & [->|Hc']%elem_of_cons & Hs & <-); [by eapply below_irrefl|].
    rewrite Forall_forall in Hclean, Hdeep.
    by eapply (below_cand_deeper targetDir c c'); eauto. }
  assert (forall q', is_cand targetDir (c :: l) (cand_source c) q' -> q' <> p ->
    is_cand targetDir l (cand_source c) q') as Hother.
  { intros q' (c' & [->|Hc']%elem_of_cons & ? & ?) Hne; [done|]. by exists c'. }
  split; intros [Hc Hall]; split.
  - apply Hother; [done|]. intros ->. eauto.
  - intros q' Hq' Hb'. apply Hother; [by eauto|]. intros ->.
    apply Hno, Hall; [done|]. by eapply below_trans.
  - destruct Hc as (c' & ? & ?). exists c'. split; [by right|done].
  - intros q' Hq' Hb'. destruct (Hall q' Hq' Hb') as (c' & ? & ?).
    exists c'. split; [by right|done].
Qed.

Lemma is_cand_other c l b q :
  b <> cand_source c -> is_cand targetDir (c :: l) b q <-> is_cand targetDir l b q.
Proof.
  intros Hb. split.
  - intros (c' & [->|Hc]%elem_of_cons & <- & <-); [done|]. by exists c'.
  - intros (c' & ? & ?). exists c'. split; [by right|done].
Qed.

Lemma removable_other c l b objects q :
  b <> cand_source c ->
  removable targetDir (c :: l) b objects q <-> removable targetDir l b objects q.
Proof. intros Hb. unfold removable. by setoid_rewrite (is_cand_other c l b _ Hb). Qed.

Lemma cleanup_loop_tree l w b q :
  Forall clean_cand l -> StronglySorted deeper l ->
  let '(removed, w') := cleanup_loop S T targetDir w l in
  (q ∈ objs w' b <-> q ∈ objs w b /\ ~ removable targetDir l b (objs w b) q)
  /\ forall c, c ∈ removed -> provider_path targetDir c ∉ objs w' (cand_source c).
Proof.
  revert w b q. induction l as [|c l IH]; intros w b q Hcl Hsort.
  { cbn. split; [|intros c Hc; by apply elem_of_nil in Hc].
    split; [|tauto]. intros Hq. split; [done|]. intros [(c & Hc & _) _].
    by apply elem_of_nil in Hc. }
  apply StronglySorted_inv in Hsort as [Hsort Hdeep]. cbn [cleanup_loop].
  pose proof (cleanup_one_tree w c) as H1.
  destruct (cleanup_one S T targetDir w c) as [gone w1].
  destruct H1 as (Hoth & Hleaf & Hinner & Hgone).
  assert (forall b q, let '(_, w') := cleanup_loop S T targetDir w1 l in
    q ∈ objs w' b <-> q ∈ objs w1 b /\ ~ removable targetDir l b (objs w1 b) q) as IH1.
  { intros b' q'. specialize (IH w1 b' q' (Forall_inv_tail Hcl) Hsort).
    destruct (cleanup_loop _ _ _ _ _) as [? ?]. apply IH. }
  specialize (IH w1 b q (Forall_inv_tail Hcl) Hsort).
  destruct (cleanup_loop S T targetDir w1 l) as [removed w'].
  destruct IH as [IHq IHr]. split.
  - rewrite IHq. destruct (decide (b = cand_source c)) as [->|Hb].
    + destruct (decide (is_leaf (objs w (cand_source c)) (provider_path targetDir c)))
        as [Hl|Hl].
      * rewrite Hleaf by done. split.
        -- intros [[Hq Hne]%elem_of_difference Hr]. split; [done|].
           rewrite removable_leaf by done. set_solver.
        -- intros [Hq Hr]. rewrite removable_leaf in Hr by done. set_solver.
      * rewrite Hinner by done. split; intros [Hq Hr]; (split; [done|]);
          by rewrite removable_inner in *.
    + assert (b = negb (cand_source c)) as Hn by (destruct b, (cand_source c); done).
      rewrite removable_other by done. by rewrite Hn, Hoth.
  - intros c' Hc'. destruct (decide (c' ∈ removed)) as [Hr|Hr]; [by apply IHr|].
    destruct gone; [|done]. apply elem_of_cons in Hc' as [->|]; [|done].
    rewrite IH1. intros [Hin _]. by apply Hgone.
Qed.

Lemma candidate_order_clean candidates : Forall clean_cand (candidate_order candidates).
Proof.
  apply Forall_forall. intros c (Hv & c0 & _ & ->)%elem_of_candidate_order.
  unfold candidate_valid in Hv. apply andb_true_iff in Hv as [Hv _].
  apply negb_true_iff in Hv. go_bool. split; [cbn; by rewrite cleanRelPath_idemp|done].
Qed.
End Tree.

(** On trees whose clients answer every request, the cleanup removes
    exactly the candidates all of whose descendants are candidates: bottom-up
    order makes whole empty trees disappear, while an object that is no
    candidate keeps itself and its ancestors.  Every reported directory is
    absent at the end. *)
Theorem cleanup_removes_empty_trees {W} (objs : W -> bool -> gset string)
    (S T : StorageProvider W) targetDir candidates w :
  tree_client objs true S -> tree_client objs false T ->
  let l := candidate_order candidates in
  let '(removed, w') := cleanupEmptyDirectories S T targetDir w candidates in
  (forall b q, q ∈ objs w' b <-> q ∈ objs w b /\ ~ removable targetDir l b (objs w b) q)
  /\ forall c, c ∈ removed -> provider_path targetDir c ∉ objs w' (cand_source c).
Proof.
  intros HS HT. cbn zeta. unfold cleanupEmptyDirectories.
  pose proof (fun b q => cleanup_loop_tree objs S T targetDir HS HT _ w b q
    (candidate_order_clean candidates) (candidate_order_deepest_first candidates)) as H.
  destruct (cleanup_loop _ _ _ _ _) as [removed w']. split.
  - intros b q. apply (H b q).
  - apply (H true ""%string).
Qed.

(** ** A client that meets the contract *)

Definition world : Type := bool -> gset string.

Definition entry (p : string) : CloudResource := mkResource p (path_base p) 0 true "" "" 0.

Definition ideal_client (b : bool) : StorageProvider world := {|
  GetDirectoryListing := fun w p =>
    (if decide (p ∈ w b)
     then Ok (entry <$> List.filter (fun q => bool_decide (below p q)) (elements (w b)))
     else Err ErrNotFound, w);
  InspectResource := fun w p =>
    (if decide (p ∈ w b) then Ok (entry p) else Err ErrNotFound, w);
  DeleteFile := fun w p =>
    (Ok tt, fun x => if Bool.eqb x b then w x ∖ {[p]} else w x);
  CreateDirectory := fun w p =>
    (Ok tt, fun x => if Bool.eqb x b then w x ∪ {[p]} else w x);
  RenameFile := fun w p q => (Err (OtherErr "unsupported"), w);
|}.

Lemma ideal_client_ok b : tree_client (fun w : world => w) b (ideal_client b).
Proof.
  split.
  - intros w p. cbn. split; [done|]. case_decide; [|done]. eexists; split; [done|].
    assert (forall q, In q (List.filter (fun q => bool_decide (below p q)) (elements (w b)))
      <-> q ∈ w b /\ below p q) as Hf.
    { intros q. by rewrite filter_In, bool_decide_eq_true, <- list_elem_of_In, elem_of_elements. }
    destruct (List.filter _ _) as [|q l]; cbn; (split; [intros E|intros Hl]); try done.
    + intros q Hq Hb. by apply (Hf q).
    + destruct (proj1 (Hf q) (or_introl eq_refl)) as [Hq Hb]. by destruct (Hl q).
  - intros w p _ _. cbn. by destruct b.
Qed.

Definition world_ex : world :=
  fun b => if b then {["/"]} else {["/t"; "/t/a"; "/t/a/b"; "/t/c"; "/t/c/keep.txt"]}.

Definition cands_ex : list directoryCleanupCandidate :=
  [mkCandidate "/a" "target"; mkCandidate "a/b/" "target"; mkCandidate "/c" "target"].

Lemma cleanup_removes_empty_trees_witness :
  elements ((cleanupEmptyDirectories (ideal_client true) (ideal_client false) "/t"
               world_ex cands_ex).2 false) = ["/t/c/keep.txt"; "/t/c"; "/t"]
  /\ "/t/a" ∉ (cleanupEmptyDirectories (ideal_client true) (ideal_client false) "/t"
                 world_ex cands_ex).2 false.
Proof.
  split; [vm_compute; reflexivity|].
  pose proof (cleanup_removes_empty_trees _ _ _ "/t" cands_ex world_ex
    (ideal_client_ok true) (ideal_client_ok false)) as H.
  assert (mkCandidate "/a" "target" ∈ (cleanupEmptyDirectories (ideal_client true)
    (ideal_client false) "/t" world_ex cands_ex).1) as Ha.
  { apply (bool_decide_unpack _). vm_compute. exact I. }
  destruct (cleanupEmptyDirectories _ _ _ _ _) as [removed w'].
  destruct H as [_ H]. exact (H _ Ha).
Defined.
