(* ===== verification/SyncListing.v ===== *)
(** * The parallel listing of one side

    [Engine.listFiles] (src/backend/internal/sync/delta.go): the coordinator
    that owns the pending directories and the result maps, with its sixteen
    workers as an unordered set of listings in flight.  The remote tree is a
    pair of functions that answer inspections and listings during the scan. *)

From S2P Require Import Prelude GoPath HashString Storage SyncPaths SyncDelta.

Record listJob := mkJob {
  job_dirPath : string;
  job_etag : string;
}.

#[export] Instance listJob_eq_dec : EqDecision listJob.
Proof. solve_decision. Defined.

(** The coordinator's variables; [sc_inFlight] are the jobs the workers hold. *)
Record scan := mkScan {
  sc_fileMap : gmap string fileState;
  sc_dirMap : gset string;
  sc_dirETagMap : gmap string string;
  sc_indexErrors : list string;
  sc_pending : list listJob;
  sc_visited : gset string;
  sc_inFlight : list listJob;
}.

Definition scan_empty : scan := mkScan ∅ ∅ ∅ [] [] ∅ [].

Definition set_path (fs : fileState) (p : string) : fileState :=
  mkFileState p (fs_Size fs) (fs_LastModified fs) (fs_Hash fs) (fs_ETag fs).

Definition addFile (fs : fileState) (s : scan) : scan :=
  let p := cleanRelPath (fs_Path fs) in
  mkScan (<[p := set_path fs p]> (sc_fileMap s)) (sc_dirMap s) (sc_dirETagMap s)
    (sc_indexErrors s) (sc_pending s) (sc_visited s) (sc_inFlight s).

Definition addDirETag (dirPath etag : string) (s : scan) : scan :=
  if String.eqb etag "" then s
  else mkScan (sc_fileMap s) (sc_dirMap s) (<[cleanRelPath dirPath := etag]> (sc_dirETagMap s))
         (sc_indexErrors s) (sc_pending s) (sc_visited s) (sc_inFlight s).

Definition addDir (dirPath : string) (s : scan) : scan :=
  mkScan (sc_fileMap s) ({[cleanRelPath dirPath]} ∪ sc_dirMap s) (sc_dirETagMap s)
    (sc_indexErrors s) (sc_pending s) (sc_visited s) (sc_inFlight s).

Definition removeDir (dirPath : string) (s : scan) : scan :=
  mkScan (sc_fileMap s) (sc_dirMap s ∖ {[cleanRelPath dirPath]})
    (delete (cleanRelPath dirPath) (sc_dirETagMap s))
    (sc_indexErrors s) (sc_pending s) (sc_visited s) (sc_inFlight s).

Definition addError (path : string) (s : scan) : scan :=
  mkScan (sc_fileMap s) (sc_dirMap s) (sc_dirETagMap s) (sc_indexErrors s ++ [path])
    (sc_pending s) (sc_visited s) (sc_inFlight s).

Definition set_queue (pending : list listJob) (visited : gset string)
    (inFlight : list listJob) (s : scan) : scan :=
  mkScan (sc_fileMap s) (sc_dirMap s) (sc_dirETagMap s) (sc_indexErrors s)
    pending visited inFlight.

(** [p] is in the subtree of the clean directory [cdir], as the code tests it. *)
Definition in_subtree (cdir p : string) : bool :=
  let prefix := if String.eqb cdir "/" then cdir else (cdir +:+ "/")%string in
  String.eqb cdir "/" || String.eqb p cdir || has_prefix p prefix.

Section List_files.
Context (inspect : string -> res storage_error CloudResource).
Context (listing : string -> res storage_error (list CloudResource)).
Context (prevDirETags : gmap string string) (prevFileStates : gmap string fileState).

Definition copyPreviousSubtree (dirPath : string) (s : scan) : scan :=
  let cdir := cleanRelPath dirPath in
  let s := foldr (fun '(p, fs) s => if in_subtree cdir p then addFile fs s else s)
             s (map_to_list prevFileStates) in
  foldr (fun '(d, etag) s =>
      if in_subtree cdir d then addDirETag d etag (addDir d s) else s)
    s (map_to_list prevDirETags).

(** The directory is unchanged since its recorded ETag. *)
Definition skips (cdir etag : string) : bool :=
  negb (String.eqb etag "") && bool_decide (prevDirETags !! cdir = Some etag).

Definition enqueueDir (dirPath etag : string) (s : scan) : scan :=
  let cdir := cleanRelPath dirPath in
  if bool_decide (cdir ∈ sc_visited s) then s
  else
    let s := set_queue (sc_pending s) ({[cdir]} ∪ sc_visited s) (sc_inFlight s) s in
    if skips cdir etag then copyPreviousSubtree cdir s
    else set_queue (sc_pending s ++ [mkJob dirPath etag]) (sc_visited s) (sc_inFlight s) s.

Definition start_one (s : scan) (startPath : string) : scan :=
  if String.eqb startPath "" then s
  else match inspect startPath with
  | Err ErrNotFound => s
  | Err _ => addError startPath s
  | Ok r =>
      if negb (res_IsDir r)
      then addFile (mkFileState startPath (res_Size r) (res_LastModified r)
                      (res_Hash r) (res_ETag r)) s
      else enqueueDir startPath (res_ETag r)
             (addDir startPath (addDirETag startPath (res_ETag r) s))
  end.

Definition scan_start (startPaths : list string) : scan :=
  fold_left start_one startPaths scan_empty.

Definition take_entry (s : scan) (file : CloudResource) : scan :=
  let cpath := cleanRelPath (res_Path file) in
  if res_IsDir file
  then enqueueDir (res_Path file) (res_ETag file)
         (addDir cpath (addDirETag cpath (res_ETag file) s))
  else addFile (mkFileState cpath (res_Size file) (res_LastModified file)
                  (res_Hash file) (res_ETag file)) s.

Definition take_result (job : listJob) (s : scan) : scan :=
  match listing (job_dirPath job) with
  | Err _ => addError (job_dirPath job) (removeDir (job_dirPath job) s)
  | Ok files => fold_left take_entry files s
  end.

(** One turn of the coordinator's select: the head of the queue goes to a
    worker, or the result of any listing in flight arrives. *)
Inductive scan_step : scan -> scan -> Prop :=
| step_dispatch s job rest :
    sc_pending s = job :: rest ->
    scan_step s (set_queue rest (sc_visited s) (job :: sc_inFlight s) s)
| step_result s l1 job l2 :
    sc_inFlight s = l1 ++ job :: l2 ->
    scan_step s (take_result job (set_queue (sc_pending s) (sc_visited s) (l1 ++ l2) s)).

Definition scan_done (s : scan) : Prop := sc_pending s = [] /\ sc_inFlight s = [].

Definition scan_reach (startPaths : list string) (s : scan) : Prop :=
  rtc scan_step (scan_start startPaths) s.
End List_files.

(** ** What the scan has to find *)

Section Spec.
Context (inspect : string -> res storage_error CloudResource).
Context (listing : string -> res storage_error (list CloudResource)).
Context (prevDirETags : gmap string string) (prevFileStates : gmap string fileState).
Context (startPaths : list string).

Local Abbreviation unchanged_dir := (skips prevDirETags).
Local Abbreviation reach := (scan_reach inspect listing prevDirETags prevFileStates startPaths).
Local Abbreviation step := (scan_step listing prevDirETags prevFileStates).
Local Abbreviation enqueue := (enqueueDir prevDirETags prevFileStates).
Local Abbreviation entry_step := (take_entry prevDirETags prevFileStates).
Local Abbreviation copy := (copyPreviousSubtree prevDirETags prevFileStates).

(** A directory reported by an inspection or by the listing of a directory
    that is not skipped, with the path and ETag of the report. *)
Inductive found_dir : string -> string -> Prop :=
| found_start p r :
    p ∈ startPaths -> p <> "" -> inspect p = Ok r -> res_IsDir r = true ->
    found_dir p (res_ETag r)
| found_child d e items it :
    found_dir d e -> unchanged_dir (cleanRelPath d) e = false ->
    listing d = Ok items -> it ∈ items -> res_IsDir it = true ->
    found_dir (res_Path it) (res_ETag it).

(** A file of the snapshot: inspected, listed, or recorded below a directory
    whose ETag did not change. *)
Inductive found_file : string -> fileState -> Prop :=
| file_start p r :
    p ∈ startPaths -> p <> "" -> inspect p = Ok r -> res_IsDir r = false ->
    found_file (cleanRelPath p)
      (mkFileState (cleanRelPath p) (res_Size r) (res_LastModified r) (res_Hash r) (res_ETag r))
| file_listed d e items it :
    found_dir d e -> unchanged_dir (cleanRelPath d) e = false ->
    listing d = Ok items -> it ∈ items -> res_IsDir it = false ->
    found_file (cleanRelPath (res_Path it))
      (mkFileState (cleanRelPath (res_Path it)) (res_Size it) (res_LastModified it)
         (res_Hash it) (res_ETag it))
| file_kept d e q fs :
    found_dir d e -> unchanged_dir (cleanRelPath d) e = true ->
    prevFileStates !! q = Some fs -> in_subtree (cleanRelPath d) q = true ->
    found_file (cleanRelPath (fs_Path fs)) (set_path fs (cleanRelPath (fs_Path fs))).

(** ** What the operations keep *)

Definition extends (s s' : scan) : Prop :=
  dom (sc_fileMap s) ⊆ dom (sc_fileMap s')
  /\ sc_visited s ⊆ sc_visited s'
  /\ (sc_indexErrors s' = [] -> sc_indexErrors s = [] /\ sc_dirMap s ⊆ sc_dirMap s').

#[local] Instance extends_preorder : PreOrder extends.
Proof.
  split; [by intros s|]. intros s t u (?&?&H1) (?&?&H2). unfold extends.
  split; [by etrans|]. split; [by etrans|]. intros [E ?]%H2. destruct (H1 E).
  split; [done|by etrans].
Qed.

Ltac ext := unfold extends; cbn; rewrite ?dom_insert_L; set_solver.

Lemma addFile_extends fs s : extends s (addFile fs s).
Proof. unfold addFile. ext. Qed.

Lemma addDir_extends d s : extends s (addDir d s).
Proof. unfold addDir. ext. Qed.

Lemma addDirETag_extends d e s : extends s (addDirETag d e s).
Proof. unfold addDirETag. case_match; ext. Qed.

Lemma foldr_extends {A} (f : A -> scan -> scan) l s :
  (forall x s, extends s (f x s)) -> extends s (foldr f s l).
Proof. intros Hf. induction l as [|x l IH]; [done|]. cbn. by etrans; [|apply Hf]. Qed.

Lemma copy_extends d s : extends s (copy d s).
Proof.
  unfold copyPreviousSubtree. etrans; [|apply foldr_extends].
  - apply foldr_extends. intros [q fs] s'. case_match; [apply addFile_extends|done].
  - intros [q e] s'. case_match; [|done].
    etrans; [apply addDir_extends|apply addDirETag_extends].
Qed.

Lemma enqueue_extends d e s : extends s (enqueue d e s).
Proof.
  unfold enqueueDir. case_bool_decide; [done|].
  case_match; [etrans; [|apply copy_extends]|]; ext.
Qed.

Lemma entry_extends s it : extends s (entry_step s it).
Proof.
  unfold take_entry. case_match; [|apply addFile_extends].
  etrans; [apply addDirETag_extends|]. etrans; [apply addDir_extends|].
  apply enqueue_extends.
Qed.

(** The queue part of the state: only [enqueueDir] appends to it. *)
Definition same_queue (s s' : scan) : Prop :=
  sc_pending s' = sc_pending s /\ sc_visited s' = sc_visited s
  /\ sc_inFlight s' = sc_inFlight s.

#[local] Instance same_queue_preorder : PreOrder same_queue.
Proof. split; [done|]. intros s t u (?&?&?) (?&?&?). split_and!; congruence. Qed.

Lemma foldr_same_queue {A} (f : A -> scan -> scan) l s :
  (forall x s, same_queue s (f x s)) -> same_queue s (foldr f s l).
Proof. intros Hf. induction l as [|x l IH]; [done|]. cbn. by etrans; [|apply Hf]. Qed.

Lemma addDirETag_same_queue d e s : same_queue s (addDirETag d e s).
Proof. unfold addDirETag. by case_match. Qed.

Lemma copy_same_queue d s : same_queue s (copy d s).
Proof.
  unfold copyPreviousSubtree. etrans; [|apply foldr_same_queue].
  - apply foldr_same_queue. intros [q fs] s'. by case_match.
  - intros [q e] s'. case_match; [|done]. etrans; [|apply addDirETag_same_queue]. done.
Qed.

(** Every entry of the file map is a file of the snapshot. *)
Definition files_sound (s : scan) : Prop :=
  forall p fs, sc_fileMap s !! p = Some fs -> found_file p fs.

Lemma addFile_sound fs s :
  files_sound s -> found_file (cleanRelPath (fs_Path fs)) (set_path fs (cleanRelPath (fs_Path fs))) ->
  files_sound (addFile fs s).
Proof.
  intros Hs Hf p fs'. cbn. rewrite lookup_insert_Some. intros [[<- <-]|[_ H]]; [done|by apply Hs].
Qed.

Lemma fileMap_sound s s' : sc_fileMap s' = sc_fileMap s -> files_sound s -> files_sound s'.
Proof. unfold files_sound. by intros ->. Qed.

Lemma addDirETag_fileMap d e s : sc_fileMap (addDirETag d e s) = sc_fileMap s.
Proof. unfold addDirETag. by case_match. Qed.

Lemma copy_fileMap d s :
  sc_fileMap (copy d s)
  = sc_fileMap (foldr (fun '(p, fs) s => if in_subtree (cleanRelPath d) p then addFile fs s else s)
             s (map_to_list prevFileStates)).
Proof.
  unfold copyPreviousSubtree. generalize (map_to_list prevDirETags) as l.
  intros l. induction l as [|[q e] l IH]; [done|]. cbn [foldr].
  case_match; [|done]. by rewrite addDirETag_fileMap.
Qed.

Lemma copy_fold_sound d e s l :
  found_dir d e -> unchanged_dir (cleanRelPath d) e = true -> files_sound s ->
  (forall q fs, (q, fs) ∈ l -> prevFileStates !! q = Some fs) ->
  files_sound (foldr (fun '(p, fs) s => if in_subtree (cleanRelPath d) p then addFile fs s else s)
             s l).
Proof.
  intros Hd He Hs. induction l as [|[q fs] l IH]; intros Hl; [done|]. cbn [foldr].
  assert (files_sound (foldr (fun '(p, fs) s =>
    if in_subtree (cleanRelPath d) p then addFile fs s else s) s l)) as IH'.
  { apply IH. intros q' fs' ?. apply Hl. by right. }
  case_match eqn:Hi; [|done]. apply addFile_sound; [done|].
  apply (file_kept d e q); [done..| |done]. apply Hl. by left.
Qed.

Lemma copy_sound d e s :
  found_dir d e -> unchanged_dir (cleanRelPath d) e = true -> files_sound s ->
  files_sound (copy d s).
Proof.
  intros Hd He Hs. eapply fileMap_sound; [apply copy_fileMap|].
  eapply copy_fold_sound; [done..|]. intros q fs. by rewrite elem_of_map_to_list.
Qed.

Lemma copy_complete d s q fs :
  prevFileStates !! q = Some fs -> in_subtree (cleanRelPath d) q = true ->
  cleanRelPath (fs_Path fs) ∈ dom (sc_fileMap (copy d s)).
Proof.
  intros Hq Hi. rewrite copy_fileMap.
  apply elem_of_map_to_list in Hq. revert Hq. generalize (map_to_list prevFileStates) as l.
  intros l. induction l as [|[q' fs'] l IH]; [by intros ?%elem_of_nil|].
  cbn [foldr]. intros [E|H]%elem_of_cons.
  - injection E as <- <-. rewrite Hi. cbn. rewrite dom_insert_L. set_solver.
  - specialize (IH H). case_match; [|done]. cbn. rewrite dom_insert_L. set_solver.
Qed.

(** ** The invariant of the coordinator *)

Definition outstanding (ex : list listJob) (s : scan) : list listJob :=
  sc_pending s ++ sc_inFlight s ++ ex.

(** The report of [d] has had its effect on the state. *)
Definition settled (s : scan) (d e : string) : Prop :=
  if unchanged_dir (cleanRelPath d) e
  then forall q fs, prevFileStates !! q = Some fs -> in_subtree (cleanRelPath d) q = true ->
         cleanRelPath (fs_Path fs) ∈ dom (sc_fileMap s)
  else match listing d with
       | Err _ => sc_indexErrors s <> []
       | Ok items => forall it, it ∈ items ->
           if res_IsDir it then cleanRelPath (res_Path it) ∈ sc_visited s
           else cleanRelPath (res_Path it) ∈ dom (sc_fileMap s)
       end.

Lemma settled_extends s s' d e : extends s s' -> settled s d e -> settled s' d e.
Proof.
  intros (Hf & Hv & He). unfold settled. case_match; [by eauto|].
  case_match; [|naive_solver]. intros Hs it Hit. specialize (Hs it Hit). case_match; auto.
Qed.

(** [ex] are jobs whose result is being taken. *)
Record inv (ex : list listJob) (s : scan) : Prop := {
  inv_jobs : forall j, j ∈ outstanding ex s ->
    found_dir (job_dirPath j) (job_etag j)
    /\ unchanged_dir (cleanRelPath (job_dirPath j)) (job_etag j) = false
    /\ cleanRelPath (job_dirPath j) ∈ sc_visited s;
  inv_visited : forall c, c ∈ sc_visited s ->
    (exists j, j ∈ outstanding ex s /\ cleanRelPath (job_dirPath j) = c)
    \/ (exists d e, found_dir d e /\ cleanRelPath d = c /\ settled s d e);
  inv_files : files_sound s;
  inv_dirs : sc_indexErrors s = [] -> sc_visited s ⊆ sc_dirMap s;
}.

(** A step that leaves queue and visited set alone and only extends. *)
Lemma inv_extends ex s s' :
  extends s s' -> same_queue s s' -> files_sound s' -> inv ex s -> inv ex s'.
Proof.
  intros He (Hp & Hv & Hq) Hs [H1 H2 H3 H4]. pose proof He as (_ & _ & Hd).
  split; [| |done|].
  - unfold outstanding. by rewrite Hp, Hv, Hq.
  - unfold outstanding. rewrite Hp, Hv, Hq. intros c Hc. destruct (H2 c Hc) as [?|(d & e & ? & ? & ?)];
      [by left|right]. exists d, e. eauto using settled_extends.
  - intros [E ?]%Hd. rewrite Hv. etrans; [by apply H4|done].
Qed.

Lemma enqueue_inv ex d e s :
  found_dir d e -> (sc_indexErrors s = [] -> cleanRelPath d ∈ sc_dirMap s) ->
  inv ex s -> inv ex (enqueue d e s) /\ cleanRelPath d ∈ sc_visited (enqueue d e s).
Proof.
  intros Hd Hdir Hi. pose proof (enqueue_extends d e s) as Hext. pose proof Hext as (_ & _ & Herr).
  unfold enqueueDir in *. case_bool_decide as Hc; [done|]. cbn in *.
  destruct Hi as [H1 H2 H3 H4]. case_match eqn:Hsk.
  - destruct (copy_same_queue (cleanRelPath d) (set_queue (sc_pending s)
      ({[cleanRelPath d]} ∪ sc_visited s) (sc_inFlight s) s)) as (Hp & Hv & Hq). cbn in *.
    split; [|rewrite Hv; set_solver]. split.
    + unfold outstanding. rewrite Hp, Hv, Hq. intros j Hj.
      destruct (H1 j Hj) as (? & ? & ?). split_and!; [done..|set_solver].
    + unfold outstanding. rewrite Hp, Hv, Hq. intros c [->%elem_of_singleton|Hin]%elem_of_union.
      * right. exists d, e. split; [done|]. split; [done|]. unfold settled. rewrite Hsk.
        intros q fs Hq' Hi. apply copy_complete with q; [done|]. by rewrite cleanRelPath_idemp.
      * destruct (H2 c Hin) as [?|(d' & e' & ? & ? & ?)]; [by left|right].
        exists d', e'. eauto using settled_extends.
    + eapply fileMap_sound; [apply copy_fileMap|]. rewrite cleanRelPath_idemp.
      eapply copy_fold_sound; [done..|]. intros q fs. by rewrite elem_of_map_to_list.
    + intros [E Hsub]%Herr. rewrite Hv. specialize (Hdir E). specialize (H4 E). set_solver.
  - split; [|cbn; set_solver]. split; cbn; [| |done|].
    + intros j Hj. unfold outstanding in *. cbn in Hj.
      rewrite <- app_assoc, elem_of_app, elem_of_app in Hj.
      destruct Hj as [Hj|[->%list_elem_of_singleton|Hj]].
      * destruct (H1 j) as (? & ? & ?); [set_solver|]. split_and!; [done..|set_solver].
      * cbn. split_and!; [done..|set_solver].
      * destruct (H1 j) as (? & ? & ?); [set_solver|]. split_and!; [done..|set_solver].
    + intros c [->%elem_of_singleton|Hin]%elem_of_union.
      * left. exists (mkJob d e). split; [|done]. unfold outstanding. cbn. set_solver.
      * destruct (H2 c Hin) as [(j & Hj & ?)|(d' & e' & ? & ? & ?)].
        -- left. exists j. split; [|done]. unfold outstanding in *. cbn. set_solver.
        -- right. exists d', e'. eauto using settled_extends.
    + intros E. specialize (Hdir E). specialize (H4 E). set_solver.
Qed.

Lemma add_dir_inv ex d e s :
  found_dir d e -> inv ex s ->
  let s' := enqueue d e (addDir d (addDirETag d e s)) in
  inv ex s' /\ cleanRelPath d ∈ sc_visited s'.
Proof.
  intros Hd Hi. apply enqueue_inv; [done|cbn; set_solver|].
  eapply inv_extends; [etrans; [apply addDirETag_extends|apply addDir_extends]| | |done].
  - etrans; [apply addDirETag_same_queue|done].
  - apply (fileMap_sound s); [apply addDirETag_fileMap|apply Hi].
Qed.

Lemma addFile_inv ex fs s :
  found_file (cleanRelPath (fs_Path fs)) (set_path fs (cleanRelPath (fs_Path fs))) ->
  inv ex s ->
  inv ex (addFile fs s) /\ cleanRelPath (fs_Path fs) ∈ dom (sc_fileMap (addFile fs s)).
Proof.
  intros Hf Hi. split; [|cbn; rewrite dom_insert_L; set_solver].
  eapply inv_extends; [apply addFile_extends|done| |done].
  apply addFile_sound; [apply Hi|done].
Qed.

Lemma entry_inv ex d e items s it :
  found_dir d e -> unchanged_dir (cleanRelPath d) e = false -> listing d = Ok items -> it ∈ items ->
  inv ex s ->
  inv ex (entry_step s it)
  /\ if res_IsDir it then cleanRelPath (res_Path it) ∈ sc_visited (entry_step s it)
     else cleanRelPath (res_Path it) ∈ dom (sc_fileMap (entry_step s it)).
Proof.
  intros Hd Hsk Hl Hit Hi. unfold take_entry. destruct (res_IsDir it) eqn:Ed.
  - unfold addDir, addDirETag. rewrite cleanRelPath_idemp.
    apply (add_dir_inv ex (res_Path it)); [by eapply found_child|done].
  - match goal with |- context [addFile ?f s] =>
      pose proof (addFile_inv ex f s) as Ha end.
    cbn [fs_Path] in Ha. rewrite cleanRelPath_idemp in Ha. apply Ha; [|done].
    by eapply file_listed.
Qed.

Lemma entries_extends items s : extends s (fold_left entry_step items s).
Proof.
  revert s. induction items as [|it items IH]; intros s; [done|]. cbn [fold_left].
  etrans; [apply entry_extends|apply IH].
Qed.

Lemma entries_inv ex d e items l s :
  found_dir d e -> unchanged_dir (cleanRelPath d) e = false -> listing d = Ok items ->
  (forall it, it ∈ l -> it ∈ items) -> inv ex s ->
  let s' := fold_left entry_step l s in
  inv ex s' /\ forall it, it ∈ l ->
    if res_IsDir it then cleanRelPath (res_Path it) ∈ sc_visited s'
    else cleanRelPath (res_Path it) ∈ dom (sc_fileMap s').
Proof.
  intros Hd Hsk Hl. revert s. induction l as [|x l IH]; intros s Hsub Hi; cbn [fold_left].
  { split; [done|]. by intros it ?%elem_of_nil. }
  destruct (entry_inv ex d e items s x) as [Hi' Hx]; [done..|apply Hsub; by left|done|].
  destruct (IH (entry_step s x)) as [Hi'' Hall]; [|done|].
  { intros it ?. apply Hsub. by right. }
  split; [done|]. intros it [->|Hit]%elem_of_cons; [|by apply Hall].
  destruct (entries_extends l (entry_step s x)) as (? & ? & _).
  destruct (res_IsDir x); set_solver.
Qed.

(** Once the result of [job] has been taken, the job needs no excuse. *)
Lemma inv_settled ex job s :
  found_dir (job_dirPath job) (job_etag job) ->
  settled s (job_dirPath job) (job_etag job) -> inv (job :: ex) s -> inv ex s.
Proof.
  intros Hf Hs [H1 H2 H3 H4]. split; [| |done|done].
  - intros j Hj. apply H1. unfold outstanding in *. set_solver.
  - intros c Hc. destruct (H2 c Hc) as [(j & Hj & E)|?]; [|by right].
    unfold outstanding in Hj. rewrite !elem_of_app, elem_of_cons in Hj.
    destruct Hj as [Hj|[Hj|[->|Hj]]]; [left|left|right|left];
      try (exists j; split; [unfold outstanding; set_solver|done]).
    exists (job_dirPath job), (job_etag job). done.
Qed.

Lemma inv_outstanding ex ex' s s' :
  (forall j, j ∈ outstanding ex' s' <-> j ∈ outstanding ex s) ->
  sc_fileMap s' = sc_fileMap s -> sc_visited s' = sc_visited s ->
  sc_dirMap s' = sc_dirMap s -> sc_indexErrors s' = sc_indexErrors s ->
  inv ex s -> inv ex' s'.
Proof.
  intros Ho E1 E2 E3 E4 [H1 H2 H3 H4]. split.
  - intros j Hj%Ho. rewrite E2. by apply H1.
  - rewrite E2. intros c Hc. destruct (H2 c Hc) as [(j & Hj%Ho & ?)|(d & e & ? & ? & Hs)].
    + left. by exists j.
    + right. exists d, e. split; [done|]. split; [done|]. unfold settled in *.
      by rewrite E1, E2, E4.
  - by eapply fileMap_sound.
  - by rewrite E2, E3, E4.
Qed.

Lemma take_result_inv job s :
  inv [job] s -> inv [] (take_result listing prevDirETags prevFileStates job s).
Proof.
  intros Hi. destruct (inv_jobs _ _ Hi job) as (Hf & Hsk & Hv).
  { unfold outstanding. set_solver. }
  unfold take_result. destruct (listing (job_dirPath job)) as [items|err] eqn:El.
  - destruct (entries_inv [job] _ _ items items s Hf Hsk El) as [Hi' Hall]; [done|done|].
    eapply inv_settled; [done| |done]. unfold settled. rewrite Hsk, El. apply Hall.
  - apply inv_settled with job; [done| |].
    { unfold settled. rewrite Hsk, El. cbn. by destruct (sc_indexErrors s). }
    destruct Hi as [H1 H2 H3 H4]. split; [done| |done|].
    + intros c Hc. destruct (H2 c Hc) as [?|(d & e & ? & ? & Hs)]; [by left|right].
      exists d, e. split; [done|]. split; [done|]. unfold settled in *. cbn.
      case_match; [done|]. case_match; [done|]. by destruct (sc_indexErrors s).
    + cbn. by destruct (sc_indexErrors s).
Qed.

Lemma step_inv s s' : step s s' -> inv [] s -> inv [] s'.
Proof.
  intros [st job rest Hp|st l1 job l2 Hq] Hi.
  - apply (inv_outstanding [] _ st); [|done..]. intros j. unfold outstanding. cbn.
    rewrite Hp. set_solver.
  - apply take_result_inv. apply (inv_outstanding [] _ st); [|done..].
    intros j. unfold outstanding. cbn. rewrite Hq. set_solver.
Qed.

(** The effect the start paths have before any listing. *)
Definition start_settled (s : scan) (p : string) : Prop :=
  p <> "" -> match inspect p with
  | Err ErrNotFound => True
  | Err _ => sc_indexErrors s <> []
  | Ok r => if res_IsDir r then cleanRelPath p ∈ sc_visited s
            else cleanRelPath p ∈ dom (sc_fileMap s)
  end.

Lemma start_settled_extends s s' p : extends s s' -> start_settled s p -> start_settled s' p.
Proof.
  intros (Hf & Hv & He) Hs Hp. specialize (Hs Hp).
  destruct (inspect p) as [r|[|m]]; [destruct (res_IsDir r); auto|done|].
  intros E. destruct (He E) as [E' _]. by apply Hs.
Qed.

Lemma start_one_inv p s :
  p ∈ startPaths -> inv [] s ->
  let s' := start_one inspect prevDirETags prevFileStates s p in
  inv [] s' /\ start_settled s' p.
Proof.
  intros Hp Hi. unfold start_one, start_settled. destruct (String.eqb p "") eqn:E; go_bool.
  { by subst. }
  destruct (inspect p) as [r|[|m]] eqn:Ei; [|done|].
  - destruct (res_IsDir r) eqn:Ed; cbn [negb].
    + destruct (add_dir_inv [] p (res_ETag r) s) as [? ?]; [by apply found_start|done|done].
    + match goal with |- context [addFile ?f s] =>
        destruct (addFile_inv [] f s) as [? ?] end; [|done|done].
      by apply file_start.
  - split; [|intros _; cbn; by destruct (sc_indexErrors s)].
    destruct Hi as [H1 H2 H3 H4]. split; [done| |done|cbn; by destruct (sc_indexErrors s)].
    intros c Hc. destruct (H2 c Hc) as [?|(d & e & ? & ? & Hs)]; [by left|right].
    exists d, e. split; [done|]. split; [done|]. unfold settled in *. cbn.
    case_match; [done|]. case_match; [done|]. by destruct (sc_indexErrors s).
Qed.

Lemma start_one_extends p s :
  extends s (start_one inspect prevDirETags prevFileStates s p).
Proof.
  unfold start_one. case_match; [done|].
  destruct (inspect p) as [r|[|m]]; [|done|].
  - case_match; [apply addFile_extends|].
    etrans; [apply addDirETag_extends|]. etrans; [apply addDir_extends|].
    apply enqueue_extends.
  - unfold extends. cbn. split_and!; [done..|]. by destruct (sc_indexErrors s).
Qed.

Lemma starts_extends l s :
  extends s (fold_left (start_one inspect prevDirETags prevFileStates) l s).
Proof.
  revert s. induction l as [|x l IH]; intros s; [done|]. cbn [fold_left].
  etrans; [apply start_one_extends|apply IH].
Qed.

Lemma starts_inv l s :
  (forall p, p ∈ l -> p ∈ startPaths) -> inv [] s ->
  let s' := fold_left (start_one inspect prevDirETags prevFileStates) l s in
  inv [] s' /\ forall p, p ∈ l -> start_settled s' p.
Proof.
  revert s. induction l as [|x l IH]; intros s Hsub Hi; cbn [fold_left].
  { split; [done|]. by intros p ?%elem_of_nil. }
  destruct (start_one_inv x s) as [Hi' Hx]; [apply Hsub; by left|done|].
  destruct (IH (start_one inspect prevDirETags prevFileStates s x)) as [Hi'' Hall]; [|done|].
  { intros p ?. apply Hsub. by right. }
  split; [done|]. intros p [->|Hp]%elem_of_cons; [|by apply Hall].
  eapply start_settled_extends; [apply starts_extends|done].
Qed.

Lemma empty_inv : inv [] scan_empty.
Proof.
  split; cbn; [by intros j ?%elem_of_nil|set_solver| |done].
  intros p fs. cbn. by rewrite lookup_empty.
Qed.

Lemma step_extends s s' : step s s' -> extends s s'.
Proof.
  intros [st job rest Hp|st l1 job l2 Hq]; [ext|]. unfold take_result.
  destruct (listing (job_dirPath job)) as [items|err].
  - etrans; [|apply entries_extends]. ext.
  - unfold extends. cbn. split_and!; [done..|]. by destruct (sc_indexErrors st).
Qed.

Lemma reach_inv s :
  reach s -> inv [] s /\ forall p, p ∈ startPaths -> start_settled s p.
Proof.
  unfold scan_reach. intros Hr.
  assert (inv [] s /\ extends (scan_start inspect prevDirETags prevFileStates startPaths) s)
    as [Hi He].
  { revert Hr. eapply (rtc_ind_r (fun s => inv [] s /\ extends _ s)).
    - split; [|done]. apply starts_inv; [done|apply empty_inv].
    - intros s1 s2 _ Hstep [Hi He]. split; [by eapply step_inv|].
      etrans; [done|by apply step_extends]. }
  split; [done|]. intros p Hp. eapply start_settled_extends; [done|].
  by apply starts_inv; [|apply empty_inv|].
Qed.

(** Each directory is reported alike wherever it is reported: with one ETag,
    and listed alike whatever the spelling of its path. *)
Definition consistent_tree : Prop :=
  forall d e d' e', found_dir d e -> found_dir d' e' -> cleanRelPath d = cleanRelPath d' ->
  e = e' /\ listing d = listing d'.

Lemma done_settled s d e :
  consistent_tree -> inv [] s -> scan_done s -> found_dir d e ->
  cleanRelPath d ∈ sc_visited s -> settled s d e.
Proof.
  intros Hc Hi [Hp Hq] Hd Hv. destruct (inv_visited _ _ Hi _ Hv) as [(j & Hj & _)|Hx].
  { unfold outstanding in Hj. rewrite Hp, Hq in Hj. by apply elem_of_nil in Hj. }
  destruct Hx as (d' & e' & Hd' & E & Hs). destruct (Hc _ _ _ _ Hd' Hd E) as [<- El].
  unfold settled in *. by rewrite <- E, <- El.
Qed.

Lemma done_visited s d e :
  consistent_tree -> reach s -> scan_done s -> sc_indexErrors s = [] ->
  found_dir d e -> cleanRelPath d ∈ sc_visited s.
Proof.
  intros Hc Hr Hdone He. apply reach_inv in Hr as [Hi Hst].
  induction 1 as [p r Hp Hne Hin Hdir|d e items it Hd IH Hsk Hl Hit Hdir].
  - specialize (Hst p Hp Hne). by rewrite Hin, Hdir in Hst.
  - pose proof (done_settled s d e Hc Hi Hdone Hd IH) as Hs. unfold settled in Hs.
    rewrite Hsk, Hl in Hs. specialize (Hs it Hit). by rewrite Hdir in Hs.
Qed.

(** ** Termination *)

(** Work left when all directories are in [D]: two steps for a directory not
    seen yet or pending, one for a listing in flight. *)
Definition work (D : gset string) (s : scan) : nat :=
  (2 * size (D ∖ sc_visited s) + 2 * length (sc_pending s) + length (sc_inFlight s))%nat.

Lemma enqueue_work D d e s :
  cleanRelPath d ∈ D -> (work D (enqueue d e s) <= work D s)%nat.
Proof.
  intros Hd. unfold enqueueDir. case_bool_decide as Hv; [done|]. cbn.
  assert (size (D ∖ sc_visited s) = S (size (D ∖ ({[cleanRelPath d]} ∪ sc_visited s)))) as Hs.
  { transitivity (size ({[cleanRelPath d]} ∪ (D ∖ ({[cleanRelPath d]} ∪ sc_visited s)))).
    - f_equal. apply set_eq. intros x. destruct (decide (x = cleanRelPath d)) as [->|]; set_solver.
    - rewrite size_union, size_singleton by set_solver. done. }
  case_match.
  - match goal with |- context [copy ?c ?s0] =>
      destruct (copy_same_queue c s0) as (E1 & E2 & E3) end.
    unfold work. rewrite E1, E2, E3. cbn. lia.
  - unfold work. cbn. rewrite length_app. cbn. lia.
Qed.

Lemma entries_work D items s :
  (forall it, it ∈ items -> res_IsDir it = true -> cleanRelPath (res_Path it) ∈ D) ->
  (work D (fold_left entry_step items s) <= work D s)%nat.
Proof.
  revert s. induction items as [|it items IH]; intros s Hin; [done|]. cbn [fold_left].
  etrans; [apply IH; intros; apply Hin; [by right|done]|].
  unfold take_entry. case_match eqn:Ed; [|done].
  etrans; [apply enqueue_work, Hin; [by left|done]|].
  unfold work. destruct (addDirETag_same_queue (cleanRelPath (res_Path it)) (res_ETag it) s)
    as (E1 & E2 & E3). cbn. by rewrite E1, E2, E3.
Qed.

Lemma step_work D s s' :
  (forall d e, found_dir d e -> cleanRelPath d ∈ D) -> inv [] s -> step s s' ->
  (work D s' < work D s)%nat.
Proof.
  intros HD Hi Hstep. revert Hi. destruct Hstep as [st job rest Hp|st l1 job l2 Hq]; intros Hi.
  - unfold work. cbn. rewrite Hp. cbn. lia.
  - destruct (inv_jobs _ _ Hi job) as (Hf & Hsk & _).
    { unfold outstanding. rewrite Hq. set_solver. }
    set (s0 := set_queue _ _ _ _).
    assert (work D s0 < work D st)%nat as H0.
    { unfold s0, work. cbn. rewrite Hq, !length_app. cbn. lia. }
    eapply Nat.le_lt_trans; [|done]. unfold take_result.
    destruct (listing (job_dirPath job)) as [items|] eqn:El; [|done].
    apply entries_work. intros it Hit Hdir. eapply HD. by eapply found_child.
Qed.

Lemma steps_work D n s s' :
  (forall d e, found_dir d e -> cleanRelPath d ∈ D) -> inv [] s -> nsteps step n s s' ->
  (n + work D s' <= work D s)%nat.
Proof.
  intros HD Hi Hn. induction Hn as [s|n s1 s2 s3 Hs _ IH]; [done|].
  pose proof (step_work D _ _ HD Hi Hs). specialize (IH (step_inv _ _ Hs Hi)). lia.
Qed.

Lemma starts_work D l s :
  (forall d e, found_dir d e -> cleanRelPath d ∈ D) -> (forall p, p ∈ l -> p ∈ startPaths) ->
  (work D (fold_left (start_one inspect prevDirETags prevFileStates) l s) <= work D s)%nat.
Proof.
  intros HD. revert s. induction l as [|p l IH]; intros s Hsub; [done|]. cbn [fold_left].
  etrans; [apply IH; intros; apply Hsub; by right|].
  unfold start_one. case_match eqn:E; [done|]. go_bool.
  destruct (inspect p) as [r|[|m]] eqn:Ei; [|done|done].
  destruct (res_IsDir r) eqn:Ed; cbn [negb]; [|done].
  etrans; [apply enqueue_work, (HD p (res_ETag r)), found_start; auto; apply Hsub; by left|].
  unfold work. destruct (addDirETag_same_queue p (res_ETag r) s) as (E1 & E2 & E3).
  cbn. by rewrite E1, E2, E3.
Qed.

(** ** Properties *)

(** C40: a scan that ends without an indexing error is a complete snapshot,
    whatever the order in which the workers answered: every directory that is
    not skipped was listed, the file map holds exactly the files of the
    inspected, listed and unchanged directories, and every directory is
    recorded. *)
Theorem scan_complete s :
  consistent_tree -> reach s -> scan_done s -> sc_indexErrors s = [] ->
  (forall d e, found_dir d e -> cleanRelPath d ∈ sc_dirMap s
     /\ (unchanged_dir (cleanRelPath d) e = false -> exists items, listing d = Ok items))
  /\ (forall p fs, found_file p fs -> is_Some (sc_fileMap s !! p))
  /\ (forall p fs, sc_fileMap s !! p = Some fs -> found_file p fs).
Proof.
  intros Hc Hr Hdone He. pose proof (done_visited s) as Hv.
  pose proof (reach_inv s Hr) as [Hi Hst].
  pose proof (fun d e H => done_settled s d e Hc Hi Hdone H (Hv d e Hc Hr Hdone He H)) as Hs.
  split; [|split].
  - intros d e Hd. split; [by apply (inv_dirs _ _ Hi), (Hv d e)|]. intros Hsk.
    specialize (Hs d e Hd). unfold settled in Hs. rewrite Hsk in Hs.
    destruct (listing d) as [items|]; [by eexists|done].
  - intros p fs Hf. apply elem_of_dom. destruct Hf as
      [p r Hp Hne Hin Hdir|d e items it Hd Hsk Hl Hit Hdir|d e q fs Hd Hsk Hq Hsub].
    + specialize (Hst p Hp Hne). by rewrite Hin, Hdir in Hst.
    + specialize (Hs d e Hd). unfold settled in Hs. rewrite Hsk, Hl in Hs.
      specialize (Hs it Hit). by rewrite Hdir in Hs.
    + specialize (Hs d e Hd). unfold settled in Hs. rewrite Hsk in Hs. by eapply Hs.
  - apply Hi.
Qed.

(** The scan of a tree with finitely many directories ends: the
    coordinator takes at most two turns per directory, however the listings
    are interleaved, and never blocks before everything was listed. *)
Theorem scan_terminates (D : gset string) :
  (forall d e, found_dir d e -> cleanRelPath d ∈ D) ->
  (forall n s, nsteps step n (scan_start inspect prevDirETags prevFileStates startPaths) s ->
     (n <= 2 * size D)%nat)
  /\ (forall s, reach s -> scan_done s \/ exists s', step s s').
Proof.
  intros HD. split.
  - intros n s Hn.
    assert (inv [] (scan_start inspect prevDirETags prevFileStates startPaths)) as Hi
      by (apply reach_inv; constructor).
    pose proof (steps_work D n _ _ HD Hi Hn).
    enough (work D (scan_start inspect prevDirETags prevFileStates startPaths) <= 2 * size D)%nat
      by lia.
    etrans; [by apply starts_work|]. unfold work. cbn.
    pose proof (subseteq_size (D ∖ ∅) D ltac:(set_solver)). lia.
  - intros s Hr. unfold scan_done. destruct (sc_pending s) as [|j l] eqn:Ep.
    + destruct (sc_inFlight s) as [|j l] eqn:Eq; [by left|right].
      eexists. apply (step_result _ _ _ s [] j l Eq).
    + right. eexists. by apply (step_dispatch _ _ _ s j l).
Qed.
End Spec.

(** ** A scan by a single worker *)

Fixpoint scan_run (listing : string -> res storage_error (list CloudResource))
    (prevDirETags : gmap string string) (prevFileStates : gmap string fileState)
    (fuel : nat) (s : scan) : scan :=
  match fuel with
  | O => s
  | S fuel =>
      match sc_inFlight s, sc_pending s with
      | job :: rest, _ =>
          scan_run listing prevDirETags prevFileStates fuel
            (take_result listing prevDirETags prevFileStates job
               (set_queue (sc_pending s) (sc_visited s) rest s))
      | [], job :: rest =>
          scan_run listing prevDirETags prevFileStates fuel
            (set_queue rest (sc_visited s) (job :: sc_inFlight s) s)
      | [], [] => s
      end
  end.

Lemma scan_run_steps listing pe pf fuel s :
  rtc (scan_step listing pe pf) s (scan_run listing pe pf fuel s).
Proof.
  revert s. induction fuel as [|fuel IH]; intros s; [constructor|]. cbn.
  destruct (sc_inFlight s) as [|job rest] eqn:Eq.
  - destruct (sc_pending s) as [|job rest] eqn:Ep; [constructor|].
    eapply rtc_l; [by apply (step_dispatch listing pe pf s)|]. by rewrite Eq.
  - eapply rtc_l; [|apply IH]. by apply (step_result listing pe pf s [] job rest).
Qed.

Definition res_file (p : string) (size : Z) : CloudResource :=
  mkResource p (path_base p) size false "" "" 0.
Definition res_dir (p etag : string) : CloudResource :=
  mkResource p (path_base p) 0 true "" etag 0.

(** A tree with a directory that changed and one whose ETag did not. *)
Definition inspect_ex (p : string) : res storage_error CloudResource :=
  if String.eqb p "/" then Ok (res_dir "/" "") else Err ErrNotFound.
Definition listing_ex (p : string) : res storage_error (list CloudResource) :=
  if String.eqb p "/" then Ok [res_file "/f" 1; res_dir "/d" "e2"; res_dir "/k" "e1"]
  else if String.eqb p "/d" then Ok [res_file "/d/g" 2] else Err ErrNotFound.
Definition prevETags_ex : gmap string string := {["/d" := "e1"; "/k" := "e1"]}.
Definition prevFiles_ex : gmap string fileState :=
  {["/k/h" := mkFileState "/k/h" 3 0 "" ""; "/d/old" := mkFileState "/d/old" 4 0 "" ""]}.
Definition scan_ex : scan :=
  scan_run listing_ex prevETags_ex prevFiles_ex 10
    (scan_start inspect_ex prevETags_ex prevFiles_ex ["/"]).

Example scan_ex_files :
  map (fun '(p, f) => (p, fs_Size f)) (map_to_list (sc_fileMap scan_ex))
  = [("/k/h", 3); ("/f", 1); ("/d/g", 2)].
Proof. vm_compute. reflexivity. Qed.

Lemma found_ex d e :
  found_dir inspect_ex listing_ex prevETags_ex ["/"] d e ->
  (d, e) ∈ [("/", ""); ("/d", "e2"); ("/k", "e1")].
Proof.
  induction 1 as [p r Hp Hne Hin Hdir|d e items it Hd IH Hsk Hl Hit Hdir].
  - apply list_elem_of_singleton in Hp as ->. injection Hin as <-. by left.
  - rewrite !elem_of_cons in IH. destruct IH as [[= -> ->]|[[= -> ->]|[[= -> ->]|IH]]].
    + injection Hl as <-. rewrite !elem_of_cons in Hit.
      destruct Hit as [->|[->|[->|?%elem_of_nil]]]; [done| | |done]; set_solver.
    + injection Hl as <-. apply list_elem_of_singleton in Hit as ->. done.
    + done.
    + by apply elem_of_nil in IH.
Qed.

Lemma scan_complete_witness : is_Some (sc_fileMap scan_ex !! "/d/g").
Proof.
  destruct (scan_complete inspect_ex listing_ex prevETags_ex prevFiles_ex ["/"] scan_ex)
    as (_ & H & _).
  - intros d e d' e' H1%found_ex H2%found_ex E.
    rewrite !elem_of_cons in H1, H2.
    destruct H1 as [[= -> ->]|[[= -> ->]|[[= -> ->]|H1%elem_of_nil]]],
      H2 as [[= -> ->]|[[= -> ->]|[[= -> ->]|H2%elem_of_nil]]]; done.
  - apply scan_run_steps.
  - split; vm_compute; reflexivity.
  - vm_compute. reflexivity.
  - apply (H "/d/g" (mkFileState "/d/g" 2 0 "" "")).
    apply (file_listed inspect_ex listing_ex prevETags_ex prevFiles_ex ["/"] "/d" "e2"
             [res_file "/d/g" 2] (res_file "/d/g" 2)); [|reflexivity|reflexivity|by left|reflexivity].
    apply (found_child inspect_ex listing_ex prevETags_ex ["/"] "/" ""
             [res_file "/f" 1; res_dir "/d" "e2"; res_dir "/k" "e1"] (res_dir "/d" "e2"));
      [|reflexivity|reflexivity|right; by left|reflexivity].
    apply (found_start inspect_ex listing_ex prevETags_ex ["/"] "/" (res_dir "/" ""));
      [by left|discriminate|reflexivity|reflexivity].
Defined.

Lemma scan_terminates_witness :
  exists n, nsteps (scan_step listing_ex prevETags_ex prevFiles_ex) n
    (scan_start inspect_ex prevETags_ex prevFiles_ex ["/"]) scan_ex /\ (n <= 6)%nat.
Proof.
  destruct (scan_terminates inspect_ex listing_ex prevETags_ex prevFiles_ex ["/"]
              {["/"; "/d"; "/k"]}) as [H _].
  { intros d e H%found_ex. rewrite !elem_of_cons in H.
  destruct H as [[= -> ->]|[[= -> ->]|[[= -> ->]|H%elem_of_nil]]]; [..|done];
    apply (bool_decide_unpack _); vm_compute; exact I.
  }
  destruct (rtc_nsteps_1 _ _ (scan_run_steps listing_ex prevETags_ex prevFiles_ex 10
    (scan_start inspect_ex prevETags_ex prevFiles_ex ["/"]))) as [n Hn].
  exists n. split; [exact Hn|exact (H n _ Hn)].
Defined.
