(* ===== verification/Database.v ===== *)
(** * The job and task tables

    Rows of sync_jobs, tasks and schedules as the sync lifecycle reads and
    writes them (db/schema.sql, src/backend/internal/db), and the guarded
    UPDATE statement every operation is made of: one row, found by its id,
    changes exactly when the predicate of the WHERE clause holds. *)

From S2P Require Import Prelude Tables HashString SyncDelta SyncBaseline.

Inductive job_status : Type :=
| IDLE | INDEXING | RUNNING | VERIFYING | JFAILED | PAUSED | PAUSED_CONNECTION_LOSS.

Inductive task_status : Type :=
| PENDING | TRUNNING | COMPLETED | TFAILED | SKIPPED | CANCELLED.

#[export] Instance job_status_eq_dec : EqDecision job_status.
Proof. solve_decision. Defined.
#[export] Instance task_status_eq_dec : EqDecision task_status.
Proof. solve_decision. Defined.

Record counters := mkCounters {
  total_files : Z;
  total_bytes : Z;
  processed_files : Z;
  processed_bytes : Z;
  live_bytes : Z;
  verified_files : Z;
  changed_files : Z;
  deleted_files : Z;
  failed_files : Z;
}.

Record job_row := mkJobRow {
  jr_status : job_status;
  run_generation : Z;
  verification_generation : Z;
  verification_lease_until : option Z;
  last_run_status : option string;
  jr_error : option string;
  jr_counters : counters;
  threads : Z;
  jr_updated : Z;
}.

Record task_row := mkTaskRow {
  tr_sync_job : string;
  pass_generation : Z;
  prerequisite_task_id : option string;
  tr_status : task_status;
  attempts : Z;
  tr_error : option string;
  next_retry_at : option Z;
  worker_hash : option string;
  claim_epoch : Z;
  source_hash : option string;
  target_hash : option string;
  checksum_verified : bool;
  tr_updated : Z;
}.

Record schedule_row := mkSchedule {
  is_active : bool;
  next_run_at : Z;
}.

#[export] Instance counters_eq_dec : EqDecision counters.
Proof. solve_decision. Defined.
#[export] Instance job_row_eq_dec : EqDecision job_row.
Proof. solve_decision. Defined.
#[export] Instance task_row_eq_dec : EqDecision task_row.
Proof. solve_decision. Defined.

(** Schedules are those of task type 'sync', by the job they start. *)
Record database := mkDb {
  sync_jobs : gmap string job_row;
  tasks : gmap string task_row;
  schedules : gmap string schedule_row;
  sync_state : state_table;
}.

Definition set_jobs (m : gmap string job_row) (d : database) : database :=
  mkDb m (tasks d) (schedules d) (sync_state d).
Definition set_tasks (m : gmap string task_row) (d : database) : database :=
  mkDb (sync_jobs d) m (schedules d) (sync_state d).
Definition set_schedules (m : gmap string schedule_row) (d : database) : database :=
  mkDb (sync_jobs d) (tasks d) m (sync_state d).
Definition set_sync_state (m : state_table) (d : database) : database :=
  mkDb (sync_jobs d) (tasks d) (schedules d) m.

(** ** Guarded updates *)

Definition update_job (id : string) (p : job_row -> bool) (f : job_row -> job_row)
    (d : database) : bool * database :=
  let '(ok, m) := update_row id p f (sync_jobs d) in (ok, set_jobs m d).

Definition update_task (id : string) (p : task_row -> bool) (f : task_row -> task_row)
    (d : database) : bool * database :=
  let '(ok, m) := update_row id p f (tasks d) in (ok, set_tasks m d).

Definition status_in (l : list job_status) (s : job_status) : bool := bool_decide (s ∈ l).

(** ** Row changes the statements share *)

Definition clear_lease (s : job_status) (l : option Z) : option Z :=
  match s with VERIFYING => l | _ => None end.

(** [error_message = CASE WHEN $1 IS NOT NULL THEN $1 ELSE error_message END] *)
Definition coalesce (e old : option string) : option string :=
  match e with Some _ => e | None => old end.

Definition job_set (s : job_status) (lease : option Z) (err : option string) (now : Z)
    (j : job_row) : job_row :=
  mkJobRow s (run_generation j) (verification_generation j) lease (last_run_status j) err
    (jr_counters j) (threads j) now.

Definition job_counters (f : counters -> counters) (now : Z) (j : job_row) : job_row :=
  mkJobRow (jr_status j) (run_generation j) (verification_generation j)
    (verification_lease_until j) (last_run_status j) (jr_error j)
    (f (jr_counters j)) (threads j) now.

Lemma set_jobs_id d : set_jobs (sync_jobs d) d = d.
Proof. by destruct d. Qed.
Lemma set_tasks_id d : set_tasks (tasks d) d = d.
Proof. by destruct d. Qed.

(** A guarded update that is refused leaves the database alone. *)
Lemma update_job_refused id p f d :
  (forall j, sync_jobs d !! id = Some j -> p j = false) -> update_job id p f d = (false, d).
Proof.
  intros H. unfold update_job.
  destruct (update_row_spec id p f (sync_jobs d)) as [(r & Hr & Hp & _)|[-> _]].
  - by rewrite (H r Hr) in Hp.
  - by rewrite set_jobs_id.
Qed.

Lemma update_task_refused id p f d :
  (forall t, tasks d !! id = Some t -> p t = false) -> update_task id p f d = (false, d).
Proof.
  intros H. unfold update_task.
  destruct (update_row_spec id p f (tasks d)) as [(r & Hr & Hp & _)|[-> _]].
  - by rewrite (H r Hr) in Hp.
  - by rewrite set_tasks_id.
Qed.

Lemma update_job_spec id p f d :
  (exists j, sync_jobs d !! id = Some j /\ p j = true
     /\ update_job id p f d = (true, set_jobs (<[id := f j]> (sync_jobs d)) d))
  \/ update_job id p f d = (false, d).
Proof.
  unfold update_job.
  destruct (update_row_spec id p f (sync_jobs d)) as [(r & Hr & Hp & ->)|[-> _]].
  - left. by exists r.
  - right. by rewrite set_jobs_id.
Qed.

Lemma update_task_spec id p f d :
  (exists t, tasks d !! id = Some t /\ p t = true
     /\ update_task id p f d = (true, set_tasks (<[id := f t]> (tasks d)) d))
  \/ update_task id p f d = (false, d).
Proof.
  unfold update_task.
  destruct (update_row_spec id p f (tasks d)) as [(r & Hr & Hp & ->)|[-> _]].
  - left. by exists r.
  - right. by rewrite set_tasks_id.
Qed.
