(* ===== verification/SyncLifecycle.v ===== *)
(** * The lifecycle of a sync job

    The statements of src/backend/internal/db/sync.go that move a job between
    its statuses and passes, with the recovery of the scheduler
    (src/backend/internal/scheduler/scheduler.go) and the verification leases
    (src/backend/internal/db/verification.go).  [now] is the database clock;
    intervals are in seconds. *)

From S2P Require Import Prelude HashString SyncDelta SyncBaseline Tables Database.

(** ** Status transitions *)

Definition UpdateSyncJobStatus (id : string) (status : job_status) (errMsg : option string)
    (now : Z) (d : database) : database :=
  (update_job id (fun _ => true)
    (fun j => job_set status (clear_lease status (verification_lease_until j))
                (coalesce errMsg (jr_error j)) now j) d).2.

Definition UpdateSyncJobStatusForGeneration (id : string) (generation : Z)
    (status : job_status) (errMsg : option string) (now : Z) (d : database) : bool * database :=
  update_job id (fun j => run_generation j =? generation)
    (fun j => job_set status (clear_lease status (verification_lease_until j)) errMsg now j) d.

Definition pausable : list job_status := [IDLE; INDEXING; RUNNING; VERIFYING].

Definition PauseSyncJob (id : string) (errMsg : option string) (now : Z) (d : database)
    : bool * database :=
  update_job id (fun j => status_in pausable (jr_status j))
    (fun j => job_set PAUSED None (coalesce errMsg (jr_error j)) now j) d.

Definition cancel_task (now : Z) (t : task_row) : task_row :=
  mkTaskRow (tr_sync_job t) (pass_generation t) (prerequisite_task_id t) CANCELLED (attempts t)
    (tr_error t) None None (claim_epoch t) (source_hash t) (target_hash t)
    (checksum_verified t) now.

Definition awaits_retry (t : task_row) : bool :=
  bool_decide (tr_status t = TFAILED) && bool_decide (is_Some (next_retry_at t)).

Definition of_pass (id : string) (generation : Z) (t : task_row) : bool :=
  String.eqb (tr_sync_job t) id && (pass_generation t =? generation).

(** The transaction: the job, its schedules and its unclaimed tasks. *)
Definition PauseSyncJobAndDeactivateSchedules (id : string) (errMsg : option string)
    (now : Z) (d : database) : (Z * bool) * database :=
  match sync_jobs d !! id with
  | None => ((0, false), d)
  | Some j =>
      let generation := run_generation j in
      if negb (status_in pausable (jr_status j)) then ((generation, false), d)
      else
        let '(updated, d1) := update_job id (fun j => run_generation j =? generation)
          (fun j => job_set PAUSED None (coalesce errMsg (jr_error j)) now j) d in
        if negb updated then ((generation, false), d)
        else
          let d2 := set_schedules (alter (fun s => mkSchedule false (next_run_at s)) id
                                     (schedules d1)) d1 in
          let d3 := set_tasks (update_where
            (fun t => of_pass id generation t
                      && (bool_decide (tr_status t = PENDING) || awaits_retry t))
            (cancel_task now) (tasks d2)) d2 in
          ((generation, true), d3)
  end.

Definition suspended : list job_status := [INDEXING; RUNNING; VERIFYING; PAUSED_CONNECTION_LOSS].

Definition stopped_job (owned : string -> bool) (d : database) (id : string) : bool :=
  owned id && match sync_jobs d !! id with Some j => status_in suspended (jr_status j) | None => false end.

(** The suspension of an account (SuspendUser, src/backend/internal/db/users.go): the jobs
    of the user are [owned]. *)
Definition SuspendUser (owned : string -> bool) (now : Z) (d : database) : database :=
  mkDb (map_imap (fun id j => Some (if stopped_job owned d id
          then job_set PAUSED (verification_lease_until j) (jr_error j) now j else j)) (sync_jobs d))
    (update_where (fun t => stopped_job owned d (tr_sync_job t)
        && (bool_decide (tr_status t ∈ [PENDING; TRUNNING]) || awaits_retry t)) (cancel_task now) (tasks d))
    (map_imap (fun id s => Some (if owned id then mkSchedule false (next_run_at s) else s)) (schedules d))
    (sync_state d).

Definition ResumeSyncJob (id : string) (errMsg : option string) (now : Z) (d : database)
    : bool * database :=
  update_job id (fun j => status_in [PAUSED] (jr_status j))
    (fun j => job_set IDLE (verification_lease_until j) (coalesce errMsg (jr_error j)) now j) d.

Definition ResumeSyncJobAndReactivateSchedules (id : string) (errMsg : option string)
    (nextRunAt now : Z) (d : database) : bool * database :=
  match sync_jobs d !! id with
  | None => (false, d)
  | Some j =>
      if negb (bool_decide (jr_status j = PAUSED)) then (false, d)
      else
        let '(_, d1) := ResumeSyncJob id errMsg now d in
        (true, set_schedules (alter (fun _ => mkSchedule true nextRunAt) id (schedules d1)) d1)
  end.

(** The three transitions of a pass that differ in their statuses only. *)
Definition transition (from to : job_status) (keep_lease : bool) (id : string)
    (generation now : Z) (d : database) : bool * database :=
  update_job id (fun j => status_in [from] (jr_status j) && (run_generation j =? generation))
    (fun j => job_set to (if keep_lease then verification_lease_until j else None)
                (jr_error j) now j) d.

Definition TransitionSyncJobToRunning := transition INDEXING RUNNING true.
Definition TransitionSyncJobToVerifying := transition RUNNING VERIFYING false.
Definition AbortSyncJobVerification := transition VERIFYING RUNNING false.
Definition ReleaseUnstartedSyncPass := transition INDEXING IDLE true.

Definition claimable : list job_status := [IDLE; JFAILED].

(** The claimed generation, if the job could be claimed. *)
Definition ClaimSyncJobPass (id : string) (now : Z) (d : database) : option Z * database :=
  let '(ok, d') := update_job id (fun j => status_in claimable (jr_status j))
    (fun j => mkJobRow INDEXING (run_generation j + 1) (verification_generation j)
                (verification_lease_until j) (last_run_status j) (jr_error j)
                (jr_counters j) (threads j) now) d in
  (if ok then run_generation <$> (sync_jobs d' !! id) else None, d').

Definition RecoverConnectionLostSyncJob (id : string) (now : Z) (d : database) : bool * database :=
  let '(updated, d1) := update_job id (fun j => status_in [PAUSED_CONNECTION_LOSS] (jr_status j))
    (fun j => job_set IDLE (verification_lease_until j) (jr_error j) now j) d in
  if negb updated then (false, d)
  else (true, set_schedules (alter (fun s => if is_active s then mkSchedule true now else s) id
                               (schedules d1)) d1).

(** ** Counters *)

Definition UpdateSyncJobTotals (id : string) (generation totalFiles totalBytes now : Z)
    (d : database) : bool * database :=
  update_job id (fun j => (run_generation j =? generation) && status_in [INDEXING] (jr_status j))
    (job_counters (fun c => mkCounters totalFiles totalBytes 0 0 0 (verified_files c) 0 0 0) now) d.

Definition AddSyncJobLiveBytesForGeneration (id : string) (generation bytesDelta now : Z)
    (d : database) : database :=
  if bytesDelta <=? 0 then d
  else (update_job id
    (fun j => (run_generation j =? generation) && status_in [RUNNING] (jr_status j))
    (job_counters (fun c => mkCounters (total_files c) (total_bytes c) (processed_files c)
       (processed_bytes c) (live_bytes c + bytesDelta) (verified_files c) (changed_files c)
       (deleted_files c) (failed_files c)) now) d).2.

Definition IncrementSyncJobProgressForGeneration (id : string)
    (generation filesDelta changedDelta deletedDelta failedDelta bytesDelta now : Z)
    (d : database) : bool * database :=
  update_job id (fun j => (run_generation j =? generation) && status_in [RUNNING] (jr_status j))
    (job_counters (fun c => mkCounters (total_files c) (total_bytes c)
       (processed_files c + filesDelta) (processed_bytes c + bytesDelta)
       (Z.max (live_bytes c) (processed_bytes c + bytesDelta)) (verified_files c)
       (changed_files c + changedDelta) (deleted_files c + deletedDelta)
       (failed_files c + failedDelta)) now) d.

Definition is_open (t : task_row) : bool :=
  bool_decide (tr_status t = PENDING) || bool_decide (tr_status t = TRUNNING) || awaits_retry t.

Definition has_status (s : task_status) (t : task_row) : bool := bool_decide (tr_status t = s).

Definition ReconcileSyncJobProgress (id : string) (generation now : Z) (d : database) : database :=
  let n p := count_where (fun t => of_pass id generation t && p t) (tasks d) in
  let completed := n (has_status COMPLETED) in
  let skipped := n (has_status SKIPPED) in
  let failed := n (has_status TFAILED) in
  let cancelled := n (has_status CANCELLED) in
  let open := n is_open in
  let total := completed + skipped + failed + cancelled + open in
  if total =? 0 then d
  else (update_job id
    (fun j => (run_generation j =? generation) && status_in [RUNNING] (jr_status j))
    (job_counters (fun c => mkCounters (total_files c) (total_bytes c) (completed + skipped)
       (processed_bytes c) (live_bytes c) (verified_files c) (changed_files c) (deleted_files c)
       (failed + cancelled)) now) d).2.

Definition CancelRemainingPendingSyncTasksForGeneration (id : string) (generation now : Z)
    (d : database) : Z * database :=
  let p t := of_pass id generation t && has_status PENDING t in
  (count_where p (tasks d),
   set_tasks (update_where p
     (fun t => mkTaskRow (tr_sync_job t) (pass_generation t) (prerequisite_task_id t) CANCELLED
        (attempts t) (tr_error t) (next_retry_at t) (worker_hash t) (claim_epoch t)
        (source_hash t) (target_hash t) (checksum_verified t) now) (tasks d)) d).

(** ** End of a pass *)

Record run_stats := mkStats {
  st_total : Z;
  st_processed : Z;
  st_changed : Z;
  st_deleted : Z;
  st_failed : Z;
}.

Definition finished_row (s : job_status) (lastRunStatus : string) (errMsg : option string)
    (st : run_stats) (now : Z) (j : job_row) : job_row :=
  let c := jr_counters j in
  mkJobRow s (run_generation j) (verification_generation j) None (Some lastRunStatus) errMsg
    (mkCounters (st_total st) (total_bytes c) (st_processed st) (processed_bytes c)
       (live_bytes c) (verified_files c) (st_changed st) (st_deleted st) (st_failed st))
    (threads j) now.

Definition finalizeRunningSyncPass : list job_status := [RUNNING; VERIFYING].
Definition finalizeEmptySyncPass : list job_status := [INDEXING].

(** The job row and the baseline change in one transaction or not at all. *)
Definition finalizeSyncJobPassWithStates (predicate : list job_status) (id : string)
    (generation : Z) (lastRunStatus : string) (errMsg : option string) (st : run_stats)
    (upserts : list SyncState) (deletes : list SyncStateDelete) (now : Z) (d : database)
    : bool * database :=
  let '(finalized, d1) := update_job id
    (fun j => (run_generation j =? generation) && status_in predicate (jr_status j))
    (finished_row IDLE lastRunStatus errMsg st now) d in
  if negb finalized then (false, d)
  else (true, set_sync_state (bulkUpsertSyncStatesTx upserts deletes (sync_state d1)) d1).

Definition FinalizeSyncJobPassWithStates := finalizeSyncJobPassWithStates finalizeRunningSyncPass.
Definition FinalizeEmptySyncJobPassWithStates :=
  finalizeSyncJobPassWithStates finalizeEmptySyncPass.

Definition active : list job_status := [INDEXING; RUNNING; VERIFYING].

Definition FailSyncJobPass (id : string) (generation : Z) (errMsg : string) (now : Z)
    (d : database) : bool * database :=
  update_job id (fun j => (run_generation j =? generation) && status_in active (jr_status j))
    (finished_row JFAILED "FAILED" (Some errMsg) (mkStats 0 0 0 0 0) now) d.

(** ** Recovery and verification leases *)

Definition minutes (n : Z) : Z := 60 * n.

Definition recoveryMsg : string := "Recovered from stale INDEXING/RUNNING/VERIFYING (coordinator lost)".

(** Some open task of the job, of any pass, was touched in the last ten minutes. *)
Definition fresh_open_work (id : string) (now : Z) (m : gmap string task_row) : bool :=
  0 <? count_where (fun t => String.eqb (tr_sync_job t) id && is_open t
                             && (now - minutes 10 <? tr_updated t)) m.

Definition lease_expired (now : Z) (l : option Z) : bool :=
  match l with None => true | Some u => u <=? now end.

Definition orphaned (id : string) (now : Z) (m : gmap string task_row) (j : job_row) : bool :=
  (jr_updated j <? now - minutes 30)
  && match jr_status j with
     | INDEXING => true
     | RUNNING => negb (fresh_open_work id now m)
     | VERIFYING => lease_expired now (verification_lease_until j)
     | _ => false
     end.

Definition recoverOrphanedSyncJobs (now : Z) (d : database) : database :=
  set_jobs (map_imap (fun id j =>
    Some (if orphaned id now (tasks d) j then job_set IDLE None (Some recoveryMsg) now j else j))
    (sync_jobs d)) d.

Definition ClaimSyncJobVerification (id : string) (now : Z) (d : database) : option Z * database :=
  let '(ok, d') := update_job id
    (fun j => status_in [VERIFYING] (jr_status j) && lease_expired now (verification_lease_until j))
    (fun j => mkJobRow (jr_status j) (run_generation j) (verification_generation j + 1)
                (Some (now + minutes 2)) (last_run_status j) (jr_error j) (jr_counters j)
                (threads j) now) d in
  (if ok then verification_generation <$> (sync_jobs d' !! id) else None, d').

Definition holds_lease (runGeneration verificationGeneration now : Z) (j : job_row) : bool :=
  status_in [VERIFYING] (jr_status j) && (run_generation j =? runGeneration)
  && (verification_generation j =? verificationGeneration)
  && negb (lease_expired now (verification_lease_until j)).

Definition RenewSyncJobVerificationLease (id : string)
    (runGeneration verificationGeneration now : Z) (d : database) : bool * database :=
  update_job id (holds_lease runGeneration verificationGeneration now)
    (fun j => job_set (jr_status j) (Some (now + minutes 2)) (jr_error j) now j) d.

Definition ReleaseSyncJobVerificationLease (id : string) (verificationGeneration now : Z)
    (d : database) : database :=
  (update_job id
    (fun j => status_in [VERIFYING] (jr_status j)
              && (verification_generation j =? verificationGeneration))
    (fun j => job_set (jr_status j) None (jr_error j) now j) d).2.
