(* ===== verification/SyncTasks.v ===== *)
(** * Task claims of a sync pass

    Dequeueing, acknowledging, verifying, requeueing and recovering the tasks of
    sync jobs (src/backend/internal/db/tasks.go, sync.go,
    src/backend/internal/queue/queue.go,
    src/backend/internal/processor/schedulers.go): the claim epoch fences a
    worker's claim, the pass generation fences its pass. *)

From S2P Require Import Prelude HashString SyncDelta SyncBaseline Tables Database SyncLifecycle.

(** ** Acknowledgements *)

(** The worker's copy of the row, as far as the statements write it. *)
Record ack := mkAck {
  ack_id : string;
  ack_sync_job : string;
  ack_epoch : Z;
  ack_generation : Z;
  ack_status : task_status;
  ack_attempts : Z;
  ack_error : option string;
  ack_next_retry : option Z;
  ack_worker : option string;
  ack_source_hash : option string;
  ack_target_hash : option string;
  ack_verified : bool;
}.

Definition acked (a : ack) (now : Z) (t : task_row) : task_row :=
  mkTaskRow (tr_sync_job t) (pass_generation t) (prerequisite_task_id t) (ack_status a)
    (ack_attempts a) (ack_error a) (ack_next_retry a) (ack_worker a) (claim_epoch t)
    (ack_source_hash a) (ack_target_hash a) (ack_verified a) now.

(** [status = 'RUNNING' AND claim_epoch = $e] *)
Definition holds_claim (epoch : Z) (t : task_row) : bool :=
  has_status TRUNNING t && (claim_epoch t =? epoch).

Definition holds_sync_claim (a : ack) (t : task_row) : bool :=
  String.eqb (tr_sync_job t) (ack_sync_job a) && holds_claim (ack_epoch a) t
  && (pass_generation t =? ack_generation a).

Definition UpdateClaimedTaskStatus (a : ack) (now : Z) (d : database) : bool * database :=
  update_task (ack_id a) (holds_claim (ack_epoch a)) (acked a now) d.

Definition UpdateClaimedSyncTaskStatus (a : ack) (now : Z) (d : database) : bool * database :=
  update_task (ack_id a) (holds_sync_claim a) (acked a now) d.

(** The transaction: [true] when it commits. *)
Definition UpdateSyncTaskStatusAndIncrementProgress (a : ack)
    (filesDelta changedDelta deletedDelta failedDelta bytesDelta now : Z) (d : database)
    : bool * database :=
  let '(ok, d1) := update_task (ack_id a) (holds_sync_claim a) (acked a now) d in
  if negb ok then (false, d)
  else
    let '(counted, d2) := update_job (ack_sync_job a)
      (fun j => (run_generation j =? ack_generation a) && status_in [RUNNING] (jr_status j))
      (job_counters (fun c => mkCounters (total_files c) (total_bytes c)
         (processed_files c + filesDelta) (processed_bytes c + bytesDelta) (live_bytes c)
         (verified_files c + b2z (ack_verified a)) (changed_files c + changedDelta)
         (deleted_files c + deletedDelta) (failed_files c + failedDelta)) now) d1 in
    if counted then (true, d2)
    else match sync_jobs d1 !! ack_sync_job a with
    | Some j => if run_generation j =? ack_generation a then (true, d1) else (false, d)
    | None => (false, d)
    end.

Definition touch (now : Z) (t : task_row) : task_row :=
  mkTaskRow (tr_sync_job t) (pass_generation t) (prerequisite_task_id t) (tr_status t)
    (attempts t) (tr_error t) (next_retry_at t) (worker_hash t) (claim_epoch t)
    (source_hash t) (target_hash t) (checksum_verified t) now.

(** The job the task belongs to is at [generation]. *)
Definition job_at (d : database) (t : task_row) (p : job_row -> bool) : bool :=
  match sync_jobs d !! tr_sync_job t with Some j => p j | None => false end.

Definition HeartbeatSyncTaskClaim (taskID : string) (epoch generation now : Z) (d : database)
    : bool * database :=
  update_task taskID (fun t => holds_claim epoch t && (pass_generation t =? generation)
      && job_at d t (fun j => run_generation j =? generation)) (touch now) d.

Definition TransitionClaimedTask (taskID : string) (epoch : Z) (status : task_status) (now : Z)
    (d : database) : bool * database :=
  update_task taskID (holds_claim epoch)
    (fun t => mkTaskRow (tr_sync_job t) (pass_generation t) (prerequisite_task_id t) status
       (attempts t) (tr_error t) (next_retry_at t) None (claim_epoch t) (source_hash t)
       (target_hash t) (checksum_verified t) now) d.

(** ** Verification *)

Definition unverified (runGeneration verificationGeneration now : Z) (d : database)
    (t : task_row) : bool :=
  has_status COMPLETED t && negb (checksum_verified t) && (pass_generation t =? runGeneration)
  && job_at d t (holds_lease runGeneration verificationGeneration now).

Definition MarkSyncTaskChecksumVerifiedWhileVerifying (taskID targetHash : string)
    (runGeneration verificationGeneration now : Z) (d : database) : bool * database :=
  let '(ok, d1) := update_task taskID (unverified runGeneration verificationGeneration now d)
    (fun t => mkTaskRow (tr_sync_job t) (pass_generation t) (prerequisite_task_id t) (tr_status t)
       (attempts t) (tr_error t) (next_retry_at t) (worker_hash t) (claim_epoch t)
       (source_hash t) (if String.eqb targetHash "" then target_hash t else Some targetHash)
       true now) d in
  if negb ok then (false, d)
  else match tasks d1 !! taskID with
  | Some t => update_job (tr_sync_job t) (fun _ => true)
      (job_counters (fun c => mkCounters (total_files c) (total_bytes c) (processed_files c)
         (processed_bytes c) (live_bytes c) (verified_files c + 1) (changed_files c)
         (deleted_files c) (failed_files c)) now) d1
  | None => (false, d1)
  end.

Definition MarkSyncTaskChecksumMismatchWhileVerifying (a : ack)
    (runGeneration verificationGeneration now : Z) (d : database) : bool * database :=
  update_task (ack_id a) (unverified runGeneration verificationGeneration now d)
    (fun t => mkTaskRow (tr_sync_job t) (pass_generation t) (prerequisite_task_id t)
       (ack_status a) (ack_attempts a) (ack_error a) None (ack_worker a) (claim_epoch t)
       (ack_source_hash a) (ack_target_hash a) (ack_verified a) now) d.

(** ** Dequeueing *)

Definition prerequisite_failed (m : gmap string task_row) (t : task_row) : bool :=
  match prerequisite_task_id t with
  | Some p =>
      match m !! p with
      | Some q => has_status CANCELLED q || has_status SKIPPED q
                  || (has_status TFAILED q && negb (bool_decide (is_Some (next_retry_at q))))
      | None => false
      end
  | None => false
  end.

Definition prerequisite_done (m : gmap string task_row) (t : task_row) : bool :=
  match prerequisite_task_id t with
  | Some p => match m !! p with Some q => has_status COMPLETED q | None => false end
  | None => true
  end.

Definition skip_dependents (now : Z) (m : gmap string task_row) : gmap string task_row :=
  update_where (fun t => has_status PENDING t && prerequisite_failed m t)
    (fun t => mkTaskRow (tr_sync_job t) (pass_generation t) (prerequisite_task_id t) SKIPPED
       (attempts t) (Some "conflict_copy prerequisite failed; upload skipped")
       (next_retry_at t) None (claim_epoch t) (source_hash t) (target_hash t)
       (checksum_verified t) now) m.

Definition running_of_pass (id : string) (generation : Z) (m : gmap string task_row) : Z :=
  count_where (fun t => of_pass id generation t && has_status TRUNNING t) m.

(** What the candidate query accepts, of the tasks of sync jobs. *)
Definition candidate (d : database) (t : task_row) : bool :=
  has_status PENDING t && prerequisite_done (tasks d) t
  && job_at d t (fun j => status_in [RUNNING] (jr_status j)
       && (pass_generation t =? run_generation j)
       && (running_of_pass (tr_sync_job t) (run_generation j) (tasks d) <? threads j)).

Record Payload := mkPayload {
  pl_TaskID : string;
  pl_SyncJobID : string;
  pl_ClaimEpoch : Z;
  pl_PassGeneration : Z;
}.

Definition claim_task (workerID : string) (now : Z) (t : task_row) : task_row :=
  mkTaskRow (tr_sync_job t) (pass_generation t) (prerequisite_task_id t) TRUNNING (attempts t)
    (tr_error t) (next_retry_at t) (Some workerID) (claim_epoch t + 1) (source_hash t)
    (target_hash t) (checksum_verified t) now.

(** [pick] is the row the candidate query returns: the oldest one no other
    worker has locked.  The query ran before the parent row was locked, so the
    status, the generation and the capacity are tested again. *)
Definition DequeueSQL (workerID : string) (pick : option string) (now : Z) (d : database)
    : option Payload * database :=
  let d0 := d in
  let d := set_tasks (skip_dependents now (tasks d)) d in
  match pick with
  | None => (None, d)
  | Some id =>
    match tasks d !! id with
    | None => (None, d)
    | Some t =>
      match sync_jobs d !! tr_sync_job t with
      | None => (None, d0)
      | Some j =>
        if negb (status_in [RUNNING] (jr_status j)) then (None, d)
        else if negb (pass_generation t =? run_generation j) then (None, d)
        else if threads j <=? running_of_pass (tr_sync_job t) (run_generation j) (tasks d)
        then (None, d)
        else
          let '(ok, d') := update_task id (has_status PENDING) (claim_task workerID now) d in
          (if ok then Some (mkPayload id (tr_sync_job t) (claim_epoch t + 1) (pass_generation t))
           else None, d')
      end
    end
  end.

(** ** Requeueing, recovery and the task set of a pass *)

Definition back_to_pending (worker : option string) (retry : option Z) (verified : bool)
    (now : Z) (t : task_row) : task_row :=
  mkTaskRow (tr_sync_job t) (pass_generation t) (prerequisite_task_id t) PENDING (attempts t)
    (tr_error t) retry worker (claim_epoch t) (source_hash t) (target_hash t) verified now.

Definition RecoverAbandonedTasks (workerID : string) (now : Z) (d : database) : database :=
  set_tasks (update_where
    (fun t => has_status TRUNNING t && bool_decide (worker_hash t = Some workerID)
              && (tr_updated t <? now - minutes 2))
    (fun t => back_to_pending None (next_retry_at t) (checksum_verified t) now t) (tasks d)) d.

(** The sync tasks of requeueOrphanedRunningTasks (src/backend/internal/processor/schedulers.go). *)
Definition requeueOrphanedRunningTasks (now : Z) (d : database) : database :=
  set_tasks (update_where
    (fun t => has_status TRUNNING t && (tr_updated t <? now - minutes 10)
              && job_at d t (fun j => status_in [RUNNING; INDEXING] (jr_status j)))
    (fun t => back_to_pending None (next_retry_at t) (checksum_verified t) now t) (tasks d)) d.

Definition requeueFailedTasks (now : Z) (d : database) : database :=
  set_tasks (update_where
    (fun t => has_status TFAILED t
              && match next_retry_at t with Some r => r <=? now | None => false end
              && job_at d t (fun j => (pass_generation t =? run_generation j)
                                      && status_in [RUNNING; INDEXING; VERIFYING] (jr_status j)))
    (fun t => back_to_pending (worker_hash t) None false now t) (tasks d)) d.

(** New rows are PENDING with epoch 0; an id already in the table refuses the
    whole batch, as the primary key does. *)
Definition new_task (jobID : string) (generation : Z) (prereq : option string) (now : Z) : task_row :=
  mkTaskRow jobID generation prereq PENDING 0 None None None 0 None None false now.

Fixpoint bulk_insert (rows : list (string * task_row)) (m : gmap string task_row)
    : option (gmap string task_row) :=
  match rows with
  | [] => Some m
  | (id, t) :: rows => match m !! id with
                       | Some _ => None
                       | None => bulk_insert rows (<[id := t]> m)
                       end
  end.

Definition BulkCreateSyncTasks (jobID : string) (generation : Z)
    (rows : list (string * option string)) (now : Z) (d : database) : bool * database :=
  match bulk_insert (map (fun '(id, pre) => (id, new_task jobID generation pre now)) rows) (tasks d) with
  | Some m => (true, set_tasks m d)
  | None => (false, d)
  end.

(** The engine's DELETE before a new delta: every row of the job that is not
    RUNNING. *)
Definition clear_old_tasks (jobID : string) (d : database) : database :=
  set_tasks (filter (fun '(_, t) =>
    negb (String.eqb (tr_sync_job t) jobID && negb (has_status TRUNNING t)) = true) (tasks d)) d.

(** ** What the statements promise *)

(** What a successful dequeue did, after the dependents were skipped. *)
Lemma dequeue_spec w pick now d p d' :
  DequeueSQL w pick now d = (Some p, d') ->
  let d1 := set_tasks (skip_dependents now (tasks d)) d in
  exists t j, pick = Some (pl_TaskID p) /\ tasks d1 !! pl_TaskID p = Some t
    /\ tr_status t = PENDING /\ sync_jobs d !! tr_sync_job t = Some j
    /\ jr_status j = RUNNING /\ pass_generation t = run_generation j
    /\ running_of_pass (tr_sync_job t) (run_generation j) (tasks d1) < threads j
    /\ p = mkPayload (pl_TaskID p) (tr_sync_job t) (claim_epoch t + 1) (pass_generation t)
    /\ d' = set_tasks (<[pl_TaskID p := claim_task w now t]> (tasks d1)) d1.
Proof.
  cbn zeta. unfold DequeueSQL.
  set (d1 := set_tasks (skip_dependents now (tasks d)) d).
  destruct pick as [id|]; [|done].
  destruct (tasks d1 !! id) as [t|] eqn:Et; [|done].
  destruct (sync_jobs d1 !! tr_sync_job t) as [j|] eqn:Ej; [|done].
  destruct (negb _) eqn:Es; [done|]. destruct (negb (pass_generation t =? _)) eqn:Eg; [done|].
  destruct (threads j <=? _) eqn:Ec; [done|].
  destruct (update_task_spec id (has_status PENDING) (claim_task w now) d1)
    as [(t' & Ht' & Hp & ->)| ->]; [|done].
  rewrite Et in Ht'. injection Ht' as <-. intros [= <- <-]. cbn.
  exists t, j. split_and!; try done.
  - unfold has_status in Hp. by apply bool_decide_eq_true in Hp.
  - unfold status_in in Es. apply negb_false_iff, bool_decide_eq_true in Es. set_solver.
  - apply negb_false_iff in Eg. lia.
  - apply Z.leb_gt in Ec. exact Ec.
Qed.

(** What a successful acknowledgement found and left. *)
Lemma ack_spec id p f d d' :
  update_task id p f d = (true, d') ->
  exists r, tasks d !! id = Some r /\ p r = true /\ d' = set_tasks (<[id := f r]> (tasks d)) d.
Proof.
  destruct (update_task_spec id p f d) as [(r & Hr & Hp & ->)| ->]; [|done].
  intros [= <-]. by exists r.
Qed.

(** A dequeue respects the job.  When a task is handed out, its job is
    RUNNING at the task's generation, the rows RUNNING in that pass - this one
    included - are at most the job's thread limit, and only the claimed row
    changed besides the skipped dependents. *)
Theorem dequeue_respects_job w pick now d p d' :
  DequeueSQL w pick now d = (Some p, d') ->
  exists j t, sync_jobs d !! pl_SyncJobID p = Some j /\ jr_status j = RUNNING
    /\ pl_PassGeneration p = run_generation j
    /\ running_of_pass (pl_SyncJobID p) (run_generation j) (tasks d') <= threads j
    /\ tasks d' = <[pl_TaskID p := t]> (skip_dependents now (tasks d))
    /\ tr_status t = TRUNNING /\ claim_epoch t = pl_ClaimEpoch p /\ worker_hash t = Some w.
Proof.
  intros H. destruct (dequeue_spec _ _ _ _ _ _ H) as
    (t & j & _ & Ht & Hst & Hj & Hrun & Hg & Hcap & Hp & ->).
  exists j, (claim_task w now t). rewrite Hp. cbn in *. split_and!; try done.
  unfold running_of_pass in *. rewrite (count_where_insert _ _ _ t) by done.
  unfold b2z. repeat case_match; lia.
Qed.

(** A conflicting upload never overtakes its conflict copy.  A task with a
    prerequisite that the candidate query accepts is handed out only after the
    prerequisite COMPLETED; when the prerequisite ended otherwise, the dependent
    is SKIPPED by the next dequeue, whatever that dequeue picks. *)
Theorem dequeue_respects_prerequisite w pick now d id t q :
  tasks d !! id = Some t -> tr_status t = PENDING -> prerequisite_task_id t = Some q ->
  let d1 := set_tasks (skip_dependents now (tasks d)) d in
  (forall p d', DequeueSQL w pick now d = (Some p, d') ->
     (exists u, tasks d1 !! pl_TaskID p = Some u /\ candidate d1 u = true) ->
     pl_TaskID p = id -> exists r, tasks d !! q = Some r /\ tr_status r = COMPLETED)
  /\ (forall r, tasks d !! q = Some r ->
        tr_status r = CANCELLED \/ tr_status r = SKIPPED
        \/ (tr_status r = TFAILED /\ next_retry_at r = None) ->
        exists t', tasks d1 !! id = Some t' /\ tr_status t' = SKIPPED).
Proof.
  intros Ht Hst Hq d1. split.
  - intros p d' H (u & Hu & Hcand) <-.
    unfold candidate in Hcand. apply andb_true_iff in Hcand as [Hcand _].
    apply andb_true_iff in Hcand as [Hpend Hdone].
    unfold d1, skip_dependents in Hu. cbn in Hu. rewrite update_where_lookup, Ht in Hu.
    cbn in Hu. unfold prerequisite_done in Hdone.
    assert (prerequisite_task_id u = Some q) as Eq by (injection Hu as <-; by case_match).
    rewrite Eq in Hdone. unfold d1, skip_dependents in Hdone. cbn in Hdone.
    rewrite update_where_lookup in Hdone. destruct (tasks d !! q) as [r|]; [|done].
    exists r. split; [done|]. cbn in Hdone. unfold has_status in Hdone.
    apply bool_decide_eq_true in Hdone. case_match; [done|done].
  - intros r Hr Hend. eexists. unfold d1, skip_dependents. cbn.
    rewrite update_where_lookup, Ht. cbn.
    assert (has_status PENDING t && prerequisite_failed (tasks d) t = true) as ->; [|done].
    unfold prerequisite_failed, has_status. rewrite Hq, Hr, Hst.
    destruct Hend as [-> | [-> | [-> ->]]]; done.
Qed.

(** ** Counters and recovery *)

(** The acknowledgement with counters is one transaction: when it commits,
    the claimed row has the worker's result and the counters of the job moved
    by the deltas, unless the pass is no longer RUNNING, when they stay; when it
    does not commit, nothing changed. *)
Theorem ack_count_atomic a fd cd dd xd bd now d :
  let '(ok, d') := UpdateSyncTaskStatusAndIncrementProgress a fd cd dd xd bd now d in
  (ok = false -> d' = d)
  /\ (ok = true -> exists r j j',
       tasks d !! ack_id a = Some r /\ holds_sync_claim a r = true
       /\ tasks d' = <[ack_id a := acked a now r]> (tasks d)
       /\ sync_jobs d !! ack_sync_job a = Some j /\ run_generation j = ack_generation a
       /\ sync_jobs d' = <[ack_sync_job a := j']> (sync_jobs d)
       /\ if status_in [RUNNING] (jr_status j)
          then processed_files (jr_counters j') = processed_files (jr_counters j) + fd
               /\ processed_bytes (jr_counters j') = processed_bytes (jr_counters j) + bd
               /\ changed_files (jr_counters j') = changed_files (jr_counters j) + cd
               /\ deleted_files (jr_counters j') = deleted_files (jr_counters j) + dd
               /\ failed_files (jr_counters j') = failed_files (jr_counters j) + xd
          else j' = j).
Proof.
  unfold UpdateSyncTaskStatusAndIncrementProgress.
  destruct (update_task_spec (ack_id a) (holds_sync_claim a) (acked a now) d)
    as [(r & Hr & Hp & ->)| ->]; [|by split]. cbn [negb].
  match goal with |- context [update_job ?k ?p ?h ?d1] =>
    destruct (update_job_spec k p h d1) as [(j & Hj & Hpj & ->)|E];
    [|pose proof E as E'; unfold update_job in E'; rewrite E] end.
  - cbn in Hj. apply andb_true_iff in Hpj as [Hg Hst]. split; [done|]. intros _.
    exists r, j. eexists. cbn. split_and!; try done; [lia|]. by rewrite Hst.
  - cbn [sync_jobs set_tasks]. destruct (sync_jobs d !! ack_sync_job a) as [j|] eqn:Ej;
      [|by split].
    destruct (run_generation j =? ack_generation a) eqn:Eg; [|by split].
    split; [done|]. intros _. exists r, j, j. split_and!; try done; [lia|symmetry; by apply insert_id|].
    destruct (status_in [RUNNING] (jr_status j)) eqn:Est; [|done]. exfalso.
    unfold update_row in E'. cbn [sync_jobs set_tasks] in E'. rewrite Ej, Eg, Est in E'. done.
Qed.

(** the orphan recovery never resets a live transfer: after a heartbeat of a
    worker, its RUNNING job is left alone for ten minutes, however stale the
    job row itself is. *)
Theorem recovery_spares_heartbeat taskID e g t d d1 r j now :
  HeartbeatSyncTaskClaim taskID e g t d = (true, d1) ->
  tasks d !! taskID = Some r -> sync_jobs d !! tr_sync_job r = Some j ->
  jr_status j = RUNNING -> now - minutes 10 < t ->
  sync_jobs (recoverOrphanedSyncJobs now d1) !! tr_sync_job r = Some j.
Proof.
  intros H Hr Hj Hst Hnow. apply ack_spec in H as (r0 & Hr0 & Hp & ->).
  rewrite Hr in Hr0. injection Hr0 as <-.
  cbn. rewrite map_lookup_imap, Hj. cbn.
  assert (orphaned (tr_sync_job r) now (<[taskID := touch t r]> (tasks d)) j = false) as ->; [|done].
  unfold orphaned. rewrite Hst. unfold fresh_open_work.
  assert (0 < count_where (fun t0 => String.eqb (tr_sync_job t0) (tr_sync_job r) && is_open t0
    && (now - minutes 10 <? tr_updated t0)) (<[taskID := touch t r]> (tasks d))) as Hpos.
  { apply (count_where_pos _ _ taskID (touch t r)); [apply lookup_insert_eq|].
    assert (is_open (touch t r) = true) as Hopen.
    { unfold holds_claim in Hp. repeat (apply andb_true_iff in Hp as [Hp _]).
      unfold is_open, has_status in *. apply bool_decide_eq_true in Hp. cbn. by rewrite Hp. }
    rewrite Hopen. change (tr_sync_job (touch t r)) with (tr_sync_job r).
    change (tr_updated (touch t r)) with t. rewrite String.eqb_refl. by apply Z.ltb_lt. }
  apply Z.ltb_lt in Hpos. rewrite Hpos. by rewrite andb_false_r.
Qed.

