(* ===== verification/SyncFailure.v ===== *)
(** * Failed sync tasks

    What a worker does with a task whose processing failed:
    [handleSyncTaskFailure] (src/backend/internal/processor/sync_task.go) with the
    error classes, back-off schedules and connection-loss counters it uses
    (src/backend/internal/processor/processor.go).  The statements are those of
    SyncTasks and SyncLifecycle; times are in seconds. *)

From S2P Require Import Prelude HashString SyncDelta SyncBaseline Tables Database SyncLifecycle SyncTasks.

(** ** Errors and their classes *)

(** An error as the handler sees it: its text and the sentinels and types
    [errors.Is] and [errors.As] find in its chain. *)
Record task_error := mkError {
  er_text : string;
  er_canceled : bool;
  er_network : bool;
  er_auth : bool;
  er_permanent : bool;
  er_retry_after : option Z;
}.

(** [strings.Contains(s, sub)] *)
Fixpoint contains_str (s sub : string) : bool :=
  has_prefix s sub || match s with EmptyString => false | String _ s => contains_str s sub end.

Definition permanent_markers : list string :=
  ["exportsizelimitexceeded"; "badrequest"; "conversion is not supported";
   "filenotdownloadable"; "only files with binary content can be downloaded";
   "too large to be exported"; "notfound"; "filenotfound"; "not supported by";
   "path escapes storage root"].

Definition network_markers : list string :=
  ["connection refused"; "connection reset"; "no such host"; "i/o timeout"; "broken pipe";
   "handshake failure"; "http2: server sent goaway"].

Definition auth_markers : list string :=
  ["autherror"; "invalid credentials"; "invalid authentication credentials"].

(** [oauth.IsProvider] *)
Definition IsProvider (provider : string) : bool :=
  bool_decide (provider ∈ ["dropbox"; "google"; "onedrive"; "hidrive"]).

Section Classes.
Context `{GoUnicode}.

Definition isPermanentTransferError (e : task_error) : bool :=
  er_permanent e || existsb (contains_str (ToLower (er_text e))) permanent_markers.

Definition isNetworkError (e : task_error) : bool :=
  er_network e || existsb (contains_str (ToLower (er_text e))) network_markers.

Definition shouldInvalidateProviderPool (e : task_error) : bool :=
  isNetworkError e || er_auth e || existsb (contains_str (ToLower (er_text e))) auth_markers.

(** The texts are matched with their case. *)
Definition isAuthError (e : task_error) : bool :=
  er_auth e || contains_str (er_text e) "authError" || contains_str (er_text e) "Invalid Credentials".

Definition oauthAuthFailureRoleForProviders (sourceProvider targetProvider errText : string)
    : string :=
  let errText := ToLower errText in
  let sourceOAuth := IsProvider sourceProvider in
  let targetOAuth := IsProvider targetProvider in
  if sourceOAuth && contains_str errText "source" then "source"
  else if targetOAuth && contains_str errText "target" then "target"
  else if sourceOAuth && negb targetOAuth then "source"
  else if targetOAuth && negb sourceOAuth then "target"
  else "".
End Classes.

(** ** Schedules *)

Definition retryBackoff (attempt : Z) : Z :=
  if attempt =? 1 then 10 else if attempt =? 2 then 30 else 90.

Definition retryDelay (e : task_error) (attempt : Z) : Z :=
  let delay := retryBackoff attempt in
  match er_retry_after e with
  | Some after => if delay <? after then after else delay
  | None => delay
  end.

Definition connLossEscalationThreshold : Z := 3.
Definition maxConnLossTaskAttempts : Z := 3.

Definition recoveryBackoff (attempts : Z) : Z :=
  if attempts <=? 0 then 0 else if attempts =? 1 then 60 else 300.

Record recoveryState := mkRecovery { rs_lastAttempt : Z; rs_attempts : Z }.

Definition shouldProbeRecovery (state : recoveryState) (now : Z) : bool :=
  let backoff := recoveryBackoff (rs_attempts state) in
  (backoff =? 0) || (backoff <=? now - rs_lastAttempt state).

(** ** The counters of a worker process *)

Record worker_mem := mkMem {
  connLossCounts : gmap string Z;
  connLossTaskAttempts : gmap string Z;
  recoveryAttempts : gmap string recoveryState;
}.

Definition recoveryAttemptKey (syncJob : bool) (id : string) : string :=
  if syncJob then ("sync:" +:+ id)%string else ("migration:" +:+ id)%string.

Definition recordConnLoss (job : string) (m : worker_mem) : Z * worker_mem :=
  let n := default 0 (connLossCounts m !! job) + 1 in
  (n, mkMem (<[job := n]> (connLossCounts m)) (connLossTaskAttempts m) (recoveryAttempts m)).

Definition recordConnLossTask (task : string) (m : worker_mem) : Z * worker_mem :=
  let n := default 0 (connLossTaskAttempts m !! task) + 1 in
  (n, mkMem (connLossCounts m) (<[task := n]> (connLossTaskAttempts m)) (recoveryAttempts m)).

Definition clearConnLoss (job : string) (m : worker_mem) : worker_mem :=
  mkMem (delete job (connLossCounts m)) (connLossTaskAttempts m) (recoveryAttempts m).

Definition clearConnLossTask (task : string) (m : worker_mem) : worker_mem :=
  mkMem (connLossCounts m) (delete task (connLossTaskAttempts m)) (recoveryAttempts m).

Definition recordRecoveryFailure (syncJob : bool) (id : string) (attempts now : Z) (m : worker_mem)
    : worker_mem :=
  mkMem (connLossCounts m) (connLossTaskAttempts m)
    (<[recoveryAttemptKey syncJob id := mkRecovery now (attempts + 1)]> (recoveryAttempts m)).

Definition forget_recovery (key : string) (m : worker_mem) : worker_mem :=
  mkMem (connLossCounts m) (connLossTaskAttempts m) (delete key (recoveryAttempts m)).

(** Everything remembered about the job and the task. *)
Definition forget (job task : string) (m : worker_mem) : worker_mem :=
  forget_recovery (recoveryAttemptKey true job) (clearConnLossTask task (clearConnLoss job m)).

(** ** handleSyncTaskFailure *)

(** The row as [db.GetTask] reads it, under the epoch of the worker's claim. *)
Definition ack_of (id : string) (epoch : Z) (t : task_row) : ack :=
  mkAck id (tr_sync_job t) epoch (pass_generation t) (tr_status t) (attempts t) (tr_error t)
    (next_retry_at t) (worker_hash t) (source_hash t) (target_hash t) (checksum_verified t).

(** The fields the handler changes. *)
Definition ack_with (status : task_status) (attempts : Z) (err : option string) (retry : option Z)
    (a : ack) : ack :=
  mkAck (ack_id a) (ack_sync_job a) (ack_epoch a) (ack_generation a) status attempts err retry
    (ack_worker a) (ack_source_hash a) (ack_target_hash a) (ack_verified a).

(** Which way the handler went. *)
Inductive failure_outcome :=
| Unreadable
| Stale
| TaskCancelled
| Requeued
| NotWritten
| RetryAt (at_ : Z)
| JobPaused
| JobFailed
| Terminal
| Panicked.

Section Handler.
Context `{GoUnicode}.
(** The redaction of error texts, the providers of the job and the token refresh
    for a role. *)
Context (SanitizeError : string -> string) (SourceProvider TargetProvider : string)
  (refreshSyncOAuthToken : string -> bool).

Definition refreshed_msg : string := "OAuth access token rejected; refreshed token scheduled for retry".
Definition auth_msg : string := "Authentication failed - please check your credentials".

Definition update_claimed (a : ack) (now : Z) (d : database) : database :=
  (UpdateClaimedSyncTaskStatus a now d).2.

(** [lossCount] and [taskConnLoss] are the counts after this loss. *)
Definition handle_conn_loss (p : Payload) (a : ack) (attempts' : Z) (err : option string)
    (now : Z) (m : worker_mem) (d : database) : failure_outcome * worker_mem * database :=
  let '(lossCount, m) := recordConnLoss (pl_SyncJobID p) m in
  let '(taskConnLoss, m) := recordConnLossTask (ack_id a) m in
  if (lossCount <? connLossEscalationThreshold) && (taskConnLoss <? maxConnLossTaskAttempts) then
    let nextRetry := now + retryBackoff taskConnLoss in
    (RetryAt nextRetry, m,
     update_claimed (ack_with TFAILED attempts' err (Some nextRetry) a) now d)
  else
    let d := (UpdateSyncJobStatusForGeneration (pl_SyncJobID p) (ack_generation a)
                PAUSED_CONNECTION_LOSS None now d).2 in
    (JobPaused, forget (pl_SyncJobID p) (ack_id a) m,
     update_claimed (ack_with PENDING attempts' err (ack_next_retry a) a) now d).

Definition fail_job (p : Payload) (a : ack) (attempts' : Z) (err : option string)
    (now : Z) (m : worker_mem) (d : database) : failure_outcome * worker_mem * database :=
  let d := (UpdateSyncJobStatusForGeneration (pl_SyncJobID p) (ack_generation a) JFAILED
              (Some auth_msg) now d).2 in
  let m := forget (pl_SyncJobID p) (ack_id a) m in
  let '(ok, d) := UpdateSyncTaskStatusAndIncrementProgress
                    (ack_with TFAILED attempts' err None a) 1 0 0 1 0 now d in
  if negb ok then (JobFailed, m, d)
  else
    let '(cancelled, d) := CancelRemainingPendingSyncTasksForGeneration (ack_sync_job a)
                             (ack_generation a) now d in
    (JobFailed, m,
     if 0 <? cancelled
     then (IncrementSyncJobProgressForGeneration (ack_sync_job a) (ack_generation a)
             0 0 0 cancelled 0 now d).2
     else d).

(** [job] is the row [db.GetSyncJob] returned; without one the code dereferences a
    nil pointer to look up the providers. *)
Definition handle_auth (p : Payload) (a : ack) (job : option job_row) (e : task_error)
    (attempts' : Z) (now : Z) (m : worker_mem) (d : database)
    : failure_outcome * worker_mem * database :=
  match job with
  | None => (Panicked, m, d)
  | Some _ =>
      let role := oauthAuthFailureRoleForProviders SourceProvider TargetProvider (er_text e) in
      if negb (String.eqb role "") && (attempts' <=? 3) && refreshSyncOAuthToken role then
        let nextRetry := now + retryBackoff attempts' in
        (RetryAt nextRetry, m,
         update_claimed (ack_with TFAILED attempts' (Some refreshed_msg) (Some nextRetry) a) now d)
      else fail_job p a attempts' (Some (SanitizeError (er_text e))) now m d
  end.

Definition handle_transfer (a : ack) (e : task_error) (attempts' : Z) (now : Z) (m : worker_mem)
    (d : database) : failure_outcome * worker_mem * database :=
  let err := Some (SanitizeError (er_text e)) in
  if (attempts' <? 3) && negb (isPermanentTransferError e) then
    let nextRetry := now + retryDelay e attempts' in
    (RetryAt nextRetry, m, update_claimed (ack_with TFAILED attempts' err (Some nextRetry) a) now d)
  else
    let '(ok, d) := UpdateSyncTaskStatusAndIncrementProgress
                      (ack_with TFAILED attempts' err None a) 1 0 0 1 0 now d in
    (Terminal, if ok then clearConnLossTask (ack_id a) m else m, d).

(** [readTask] and [readJob] say whether the two reads succeeded, [ctxDone] whether
    the worker's context has ended: the statements on the task are executed under
    that context, and none of them then reaches the database.  The code also tests
    for a COMPLETED job, a status no statement gives a sync job. *)
Definition handleSyncTaskFailure (p : Payload) (e : task_error) (ctxDone readTask readJob : bool)
    (now : Z) (m : worker_mem) (d : database) : failure_outcome * worker_mem * database :=
  match (if readTask then tasks d !! pl_TaskID p else None) with
  | None => (Unreadable, m, d)
  | Some t =>
      let a := ack_of (pl_TaskID p) (pl_ClaimEpoch p) t in
      let job := if readJob then sync_jobs d !! pl_SyncJobID p else None in
      let stale := match job with
                   | Some j => negb (pass_generation t =? run_generation j)
                   | None => false
                   end in
      let paused := match job with
                    | Some j => status_in [PAUSED; PAUSED_CONNECTION_LOSS] (jr_status j)
                    | None => false
                    end in
      if stale then (Stale, m, d)
      else if ctxDone then (NotWritten, m, d)
      else if paused then
        (TaskCancelled, m,
         update_claimed (ack_with CANCELLED (attempts t) (tr_error t) (next_retry_at t) a) now d)
      else if er_canceled e then
        (Requeued, m,
         update_claimed (ack_with PENDING (attempts t) (tr_error t) (next_retry_at t) a) now d)
      else
        let attempts' := attempts t + 1 in
        if isNetworkError e then
          handle_conn_loss p a attempts' (Some (SanitizeError (er_text e))) now m d
        else if isAuthError e then handle_auth p a job e attempts' now m d
        else handle_transfer a e attempts' now m d
  end.
End Handler.

(** ** What the handler leaves behind *)

Lemma update_task_hit id p f d t :
  tasks d !! id = Some t -> p t = true ->
  update_task id p f d = (true, set_tasks (<[id := f t]> (tasks d)) d).
Proof. intros Ht Hp. unfold update_task, update_row. by rewrite Ht, Hp. Qed.

Lemma update_job_hit id p f d j :
  sync_jobs d !! id = Some j -> p j = true ->
  update_job id p f d = (true, set_jobs (<[id := f j]> (sync_jobs d)) d).
Proof. intros Hj Hp. unfold update_job, update_row. by rewrite Hj, Hp. Qed.

(** The worker still holds the claim the payload names, in the job's present pass. *)
Definition claim_held (p : Payload) (t : task_row) (j : job_row) (d : database) : Prop :=
  tasks d !! pl_TaskID p = Some t /\ holds_claim (pl_ClaimEpoch p) t = true
  /\ tr_sync_job t = pl_SyncJobID p /\ sync_jobs d !! pl_SyncJobID p = Some j
  /\ pass_generation t = run_generation j.

(** The task row and the job row each outcome promises. *)
Definition settled_as (o : failure_outcome) (now : Z) (t t' : task_row) (j j' : job_row) : Prop :=
  match o with
  | TaskCancelled => tr_status t' = CANCELLED /\ attempts t' = attempts t /\ j' = j
  | Requeued => tr_status t' = PENDING /\ attempts t' = attempts t /\ j' = j
  | RetryAt r => tr_status t' = TFAILED /\ attempts t' = attempts t + 1
      /\ next_retry_at t' = Some r /\ now < r /\ j' = j
  | JobPaused => tr_status t' = PENDING /\ attempts t' = attempts t + 1
      /\ jr_status j' = PAUSED_CONNECTION_LOSS /\ jr_counters j' = jr_counters j
  | JobFailed => tr_status t' = TFAILED /\ attempts t' = attempts t + 1
      /\ next_retry_at t' = None /\ jr_status j' = JFAILED /\ jr_counters j' = jr_counters j
  | Terminal => tr_status t' = TFAILED /\ attempts t' = attempts t + 1
      /\ next_retry_at t' = None /\ jr_status j' = jr_status j
      /\ failed_files (jr_counters j')
         = failed_files (jr_counters j) + b2z (status_in [RUNNING] (jr_status j))
      /\ processed_files (jr_counters j')
         = processed_files (jr_counters j) + b2z (status_in [RUNNING] (jr_status j))
  | Unreadable | Stale | NotWritten | Panicked => False
  end.

(** The rows after the handler, seen from the rows before it. *)
Definition settled (p : Payload) (o : failure_outcome) (now : Z) (t : task_row) (j : job_row)
    (d d' : database) : Prop :=
  exists t' j', tasks d' !! pl_TaskID p = Some t' /\ claim_epoch t' = claim_epoch t
    /\ sync_jobs d' = <[pl_SyncJobID p := j']> (sync_jobs d)
    /\ run_generation j' = run_generation j
    /\ settled_as o now t t' j j'
    /\ (o = JobFailed -> forall k, k <> pl_TaskID p ->
          match tasks d !! k, tasks d' !! k with
          | Some u, Some u' =>
              if of_pass (pl_SyncJobID p) (run_generation j) u && has_status PENDING u
              then tr_status u' = CANCELLED else u' = u
          | None, None => True
          | _, _ => False
          end)
    /\ (o <> JobFailed -> tasks d' = <[pl_TaskID p := t']> (tasks d)).

Lemma retryBackoff_pos n : 10 <= retryBackoff n.
Proof. unfold retryBackoff. repeat case_match; lia. Qed.

Lemma retryDelay_pos e n : 10 <= retryDelay e n.
Proof.
  pose proof (retryBackoff_pos n). unfold retryDelay. repeat case_match; lia.
Qed.

Section Held.
Context (p : Payload) (t : task_row) (j : job_row) (d : database).
Hypothesis Hheld : claim_held p t j d.

Lemma held_holds s n err r :
  holds_sync_claim (ack_with s n err r (ack_of (pl_TaskID p) (pl_ClaimEpoch p) t)) t = true.
Proof.
  destruct Hheld as (_ & Hc & _). unfold holds_sync_claim. cbn.
  by rewrite String.eqb_refl, Hc, Z.eqb_refl.
Qed.

(** The plain acknowledgement, in the database [db] the job statement left. *)
Lemma held_update s n err r now db :
  tasks db = tasks d ->
  let a := ack_with s n err r (ack_of (pl_TaskID p) (pl_ClaimEpoch p) t) in
  update_claimed a now db = set_tasks (<[pl_TaskID p := acked a now t]> (tasks d)) db.
Proof.
  intros E. cbn zeta. unfold update_claimed, UpdateClaimedSyncTaskStatus. cbn [ack_id ack_with ack_of].
  rewrite (update_task_hit _ _ _ _ t); [by cbn; rewrite E| |apply held_holds].
  rewrite E. by destruct Hheld.
Qed.

Lemma held_ack_settled o s n err r now :
  o <> JobFailed ->
  let a := ack_with s n err r (ack_of (pl_TaskID p) (pl_ClaimEpoch p) t) in
  settled_as o now t (acked a now t) j j ->
  settled p o now t j d (update_claimed a now d).
Proof.
  intros Ho a Hs. unfold a. rewrite held_update by done.
  destruct Hheld as (_ & _ & _ & Hj & _).
  eexists _, j. cbn [tasks sync_jobs set_tasks]. split_and!; [apply lookup_insert_eq|done| |done|exact Hs|done|done].
  by rewrite insert_id.
Qed.

(** The transaction with counters, after the job's row became [j1]. *)
Lemma held_terminal s n err r now j1 db :
  tasks db = tasks d -> sync_jobs db !! pl_SyncJobID p = Some j1 ->
  run_generation j1 = run_generation j ->
  let a := ack_with s n err r (ack_of (pl_TaskID p) (pl_ClaimEpoch p) t) in
  exists j2, UpdateSyncTaskStatusAndIncrementProgress a 1 0 0 1 0 now db
    = (true, set_jobs (<[pl_SyncJobID p := j2]> (sync_jobs db))
               (set_tasks (<[pl_TaskID p := acked a now t]> (tasks d)) db))
    /\ run_generation j2 = run_generation j1 /\ jr_status j2 = jr_status j1
    /\ (status_in [RUNNING] (jr_status j1) = false -> j2 = j1)
    /\ failed_files (jr_counters j2)
       = failed_files (jr_counters j1) + b2z (status_in [RUNNING] (jr_status j1))
    /\ processed_files (jr_counters j2)
       = processed_files (jr_counters j1) + b2z (status_in [RUNNING] (jr_status j1)).
Proof.
  intros E Hj1 Hg a. destruct Hheld as (Ht & _ & Hid & _ & Hpg).
  unfold UpdateSyncTaskStatusAndIncrementProgress.
  rewrite (update_task_hit _ _ _ _ t); [|by rewrite E|apply held_holds]. cbn [negb].
  cbn [ack_sync_job ack_with ack_of ack_generation a]. rewrite Hid, E.
  destruct (status_in [RUNNING] (jr_status j1)) eqn:Es.
  - rewrite (update_job_hit _ _ _ _ j1); [|done|by rewrite Es, Hpg, Hg, Z.eqb_refl].
    eexists. split_and!; try reflexivity; done.
  - rewrite update_job_refused.
    2: { intros j' Hj'. cbn in Hj'. rewrite Hj1 in Hj'. injection Hj' as <-.
         by rewrite Es, andb_false_r. }
    cbn [sync_jobs set_tasks]. rewrite Hj1, Hpg, Hg, Z.eqb_refl.
    exists j1. cbn [b2z]. rewrite (insert_id (sync_jobs db)) by done.
    split_and!; try done; lia.
Qed.
End Held.

Section Settles.
Context `{GoUnicode}.
Context (SanitizeError : string -> string) (SourceProvider TargetProvider : string)
  (refreshSyncOAuthToken : string -> bool).
Context (p : Payload) (t : task_row) (j : job_row) (d : database).
Hypothesis Hheld : claim_held p t j d.

Let a0 := ack_of (pl_TaskID p) (pl_ClaimEpoch p) t.

Lemma conn_loss_settled err now m :
  let '(o, _, d') := handle_conn_loss p a0 (attempts t + 1) err now m d in
  settled p o now t j d d' /\ o <> Panicked.
Proof.
  unfold handle_conn_loss. destruct (recordConnLoss _ m) as [lc m1].
  destruct (recordConnLossTask _ m1) as [tc m2]. pose proof (retryBackoff_pos tc).
  destruct (_ && _); (split; [|done]).
  - apply held_ack_settled; [done..|]. cbn. split_and!; try done; lia.
  - pose proof Hheld as (Ht & Hc & Hid & Hj & Hg).
    unfold UpdateSyncJobStatusForGeneration.
    rewrite (update_job_hit _ _ _ _ j) by (done || by cbn; rewrite Hg, Z.eqb_refl). cbn [snd].
    unfold a0. rewrite (held_update p t j d) by done.
    eexists _, _. cbn [tasks sync_jobs set_tasks set_jobs].
    split_and!; [apply lookup_insert_eq|done|reflexivity|done| |done|done]. by cbn.
Qed.

Lemma transfer_settled e now m :
  let '(o, _, d') := handle_transfer SanitizeError a0 e (attempts t + 1) now m d in
  settled p o now t j d d' /\ o <> Panicked.
Proof.
  unfold handle_transfer. pose proof (retryDelay_pos e (attempts t + 1)).
  destruct (_ && _).
  - split; [|done]. apply held_ack_settled; [done..|]. cbn. split_and!; try done; lia.
  - pose proof Hheld as (_ & _ & _ & Hj & _).
    destruct (held_terminal p t j d Hheld TFAILED (attempts t + 1)
      (Some (SanitizeError (er_text e))) None now j d) as (j2 & E & Hg & Hs & _ & Hf & Hpf);
      [done..|].
    unfold a0. rewrite E. split; [|done]. eexists _, j2. cbn [tasks sync_jobs set_tasks set_jobs].
    split_and!; [apply lookup_insert_eq|done|reflexivity|done| |done|done].
    cbn [settled_as]. by split_and!.
Qed.

Lemma fail_job_settled err now m :
  let '(o, _, d') := fail_job p a0 (attempts t + 1) err now m d in
  settled p o now t j d d' /\ o <> Panicked.
Proof.
  unfold fail_job. pose proof Hheld as (Ht & Hc & Hid & Hj & Hg).
  unfold UpdateSyncJobStatusForGeneration.
  rewrite (update_job_hit _ _ _ _ j) by (done || by cbn; rewrite Hg, Z.eqb_refl). cbn [snd].
  set (jf := job_set JFAILED _ _ _ j). set (db := set_jobs _ d).
  assert (sync_jobs db !! pl_SyncJobID p = Some jf) as Hjf by apply lookup_insert_eq.
  destruct (held_terminal p t j d Hheld TFAILED (attempts t + 1) err None now jf db)
    as (j2 & E & _ & _ & Hsame & _ & _); [done..|].
  unfold a0. rewrite E. cbn [negb]. rewrite (Hsame eq_refl), (insert_id (sync_jobs db)) by done.
  unfold CancelRemainingPendingSyncTasksForGeneration.
  cbn [ack_sync_job ack_generation ack_of tasks set_tasks set_jobs]. rewrite Hid, Hg.
  unfold IncrementSyncJobProgressForGeneration. rewrite update_job_refused.
  2: { intros j' Hj'. cbn in Hj'. rewrite lookup_insert_eq in Hj'. injection Hj' as <-.
       by rewrite andb_false_r. }
  cbn [snd]. match goal with |- context [if ?b then ?x else ?x] =>
    replace (if b then x else x) with x by by destruct b end.
  split; [|done]. eexists _, jf. cbn [tasks sync_jobs set_tasks set_jobs].
  split_and!; [rewrite update_where_lookup, lookup_insert_eq; cbn [fmap option_fmap option_map];
    unfold has_status; cbn; by rewrite andb_false_r|done|reflexivity|done|by cbn| |done].
  intros _ k Hk. rewrite update_where_lookup, lookup_insert_ne by done.
  destruct (tasks d !! k) as [u|]; [|done]. cbn [fmap option_fmap option_map]. by destruct (_ && _).
Qed.

Lemma auth_settled job e now m :
  let '(o, _, d') := handle_auth SanitizeError SourceProvider TargetProvider refreshSyncOAuthToken
                       p a0 job e (attempts t + 1) now m d in
  o <> Panicked -> settled p o now t j d d'.
Proof.
  unfold handle_auth. destruct job as [j'|]; [|done].
  pose proof (retryBackoff_pos (attempts t + 1)). destruct (_ && _).
  - intros _. apply held_ack_settled; [done..|]. cbn. split_and!; try done; lia.
  - pose proof (fail_job_settled (Some (SanitizeError (er_text e))) now m).
    destruct (fail_job _ _ _ _ _ _ _) as [[o m'] d']. intros _. by destruct H1.
Qed.

(** C37: a failure is always settled.  While the worker holds the claim in the job's
    present pass and the row can be read, whatever the error was: if the worker's context
    has not ended, the task leaves RUNNING, to the status the way the handler went calls
    for, a retry lies in the future, attempts and counters move by exactly one, a failed
    or paused job keeps its counters, and no other task changes, except that the PENDING
    tasks of a failed job's pass become CANCELLED; the one way out is the crash on an
    authentication error after the job could not be read.  If the context has ended, as
    it has at a shutdown, nothing at all is written and the task stays RUNNING. *)
Theorem failure_settles e ctxDone readJob now m :
  let '(o, _, d') := handleSyncTaskFailure SanitizeError SourceProvider TargetProvider
                       refreshSyncOAuthToken p e ctxDone true readJob now m d in
  (ctxDone = true -> o = NotWritten /\ d' = d)
  /\ (ctxDone = false -> (o = Panicked -> readJob = false /\ isAuthError e = true)
        /\ (o <> Panicked -> settled p o now t j d d')).
Proof.
  unfold handleSyncTaskFailure. pose proof Hheld as (Ht & Hc & Hid & Hj & Hg). rewrite Ht.
  assert ((if readJob then sync_jobs d !! pl_SyncJobID p else None)
          = if readJob then Some j else None) as -> by by destruct readJob.
  fold a0.
  assert (match (if readJob then Some j else None) with
          | Some j0 => negb (pass_generation t =? run_generation j0) | None => false end = false)
    as -> by (destruct readJob; [by rewrite Hg, Z.eqb_refl|done]).
  destruct ctxDone; [done|].
  destruct (match (if readJob then _ else _) with Some j0 => status_in _ _ | None => _ end).
  { split; [done|]. intros _. split; [done|]. intros _. by apply held_ack_settled. }
  destruct (er_canceled e).
  { split; [done|]. intros _. split; [done|]. intros _. by apply held_ack_settled. }
  destruct (isNetworkError e).
  { pose proof (conn_loss_settled (Some (SanitizeError (er_text e))) now m) as C.
    destruct (handle_conn_loss _ _ _ _ _ _ _) as [[o m'] d'].
    destruct C. by split. }
  destruct (isAuthError e).
  { pose proof (auth_settled (if readJob then Some j else None) e now m) as C.
    destruct (handle_auth _ _ _ _ _ _ _ _ _ _ _ _) as [[o m'] d'] eqn:E. split; [done|]. intros _. split; [|done].
    intros ->. split; [|done]. destruct readJob; [|done]. exfalso. revert E. unfold handle_auth, fail_job.
    repeat case_match; congruence. }
  pose proof (transfer_settled e now m) as C.
  destruct (handle_transfer _ _ _ _ _ _ _) as [[o m'] d']. destruct C. by split.
Qed.
End Settles.

(** ** Retries end *)

Section Retries.
Context `{GoUnicode}.
Context (SanitizeError : string -> string) (SourceProvider TargetProvider : string)
  (refreshSyncOAuthToken : string -> bool).
Context (id : string).

Let handle := handleSyncTaskFailure SanitizeError SourceProvider TargetProvider
                refreshSyncOAuthToken.

Definition task_losses (m : worker_mem) : Z := default 0 (connLossTaskAttempts m !! id).

(** What the rest of the system may do between two failures of the task: its row
    keeps or gains attempts, or goes away, and its losses are not forgotten (they
    are when the job pauses or fails, when the task ends, and at a restart). *)
Definition keeps_count (m m' : worker_mem) (d d' : database) : Prop :=
  task_losses m <= task_losses m'
  /\ forall t', tasks d' !! id = Some t' ->
       exists t, tasks d !! id = Some t /\ attempts t <= attempts t'.

(** A run in which the task was given [c] retries after connection losses and [n] after
    other errors. *)
Inductive retried : nat -> nat -> worker_mem -> database -> Prop :=
| retried_start m d :
    0 <= task_losses m -> (forall t, tasks d !! id = Some t -> 0 <= attempts t) ->
    retried 0 0 m d
| retried_other c n m d m' d' :
    retried c n m d -> keeps_count m m' d d' -> retried c n m' d'
| retried_again c n m d p t j e ctxDone readJob now r m' d' :
    retried c n m d -> pl_TaskID p = id -> claim_held p t j d ->
    handle p e ctxDone true readJob now m d = (RetryAt r, m', d') ->
    retried (if isNetworkError e then S c else c) (if isNetworkError e then n else S n) m' d'.

(** When a failure of a held task is retried, and after how long: two losses of a
    connection by the task, fewer when other tasks of the job lost theirs in a row; three
    refreshed tokens; two other errors that are not permanent. *)
Definition retry_rule (p : Payload) (t : task_row) (e : task_error) (m : worker_mem) : option Z :=
  if isNetworkError e then
    if (default 0 (connLossCounts m !! pl_SyncJobID p) <? 2) && (task_losses m <? 2)
    then Some (retryBackoff (task_losses m + 1)) else None
  else if isAuthError e then
    let role := oauthAuthFailureRoleForProviders SourceProvider TargetProvider (er_text e) in
    if negb (String.eqb role "") && (attempts t <? 3) && refreshSyncOAuthToken role
    then Some (retryBackoff (attempts t + 1)) else None
  else if (attempts t <? 2) && negb (isPermanentTransferError e)
  then Some (retryDelay e (attempts t + 1)) else None.

(** How it ends otherwise. *)
Definition last_outcome (e : task_error) : failure_outcome :=
  if isNetworkError e then JobPaused else if isAuthError e then JobFailed else Terminal.

(** The losses and the attempts that may still be retried. *)
Definition losses_left (m : worker_mem) : Z := Z.max 0 (2 - task_losses m).
Definition attempts_left (d : database) : Z :=
  match tasks d !! id with Some t => Z.max 0 (3 - attempts t) | None => 0 end.

Lemma task_losses_recorded m job k m1 :
  recordConnLossTask id (recordConnLoss job m).2 = (k, m1) ->
  k = task_losses m + 1 /\ task_losses m1 = task_losses m + 1.
Proof.
  unfold recordConnLossTask, recordConnLoss, task_losses. cbn.
  intros [= <- <-]. cbn. by rewrite lookup_insert_eq.
Qed.

Lemma conn_loss_counts job m :
  (recordConnLoss job m).1 = default 0 (connLossCounts m !! job) + 1
  /\ (recordConnLossTask id (recordConnLoss job m).2).1 = task_losses m + 1
  /\ task_losses (recordConnLossTask id (recordConnLoss job m).2).2 = task_losses m + 1.
Proof.
  split; [done|]. destruct (recordConnLossTask id _) as [k m1] eqn:E. by destruct (task_losses_recorded _ _ _ _ E).
Qed.

(** The handler follows the rule. *)
Lemma handle_follows p t j d e readJob now m :
  pl_TaskID p = id -> claim_held p t j d -> status_in [PAUSED; PAUSED_CONNECTION_LOSS] (jr_status j) = false ->
  er_canceled e = false -> (isAuthError e = true -> isNetworkError e = true \/ readJob = true) ->
  (handle p e false true readJob now m d).1.1
  = match retry_rule p t e m with Some after => RetryAt (now + after) | None => last_outcome e end.
Proof.
  intros Hid (Ht & _ & _ & Hj & Hg) Hs Hc Hr. unfold handle, handleSyncTaskFailure. rewrite Ht, Hc.
  assert ((if readJob then sync_jobs d !! pl_SyncJobID p else None) = if readJob then Some j else None) as -> by by destruct readJob.
  assert (match (if readJob then Some j else None) with
          | Some j0 => negb (pass_generation t =? run_generation j0) | None => false end = false) as ->
    by (destruct readJob; [by rewrite Hg, Z.eqb_refl|done]).
  assert (match (if readJob then Some j else None) with
          | Some j0 => status_in [PAUSED; PAUSED_CONNECTION_LOSS] (jr_status j0) | None => false end = false) as ->
    by by destruct readJob.
  unfold retry_rule, last_outcome. destruct (isNetworkError e) eqn:En.
  - unfold handle_conn_loss. cbn [ack_id ack_of]. rewrite Hid.
    destruct (conn_loss_counts (pl_SyncJobID p) m) as (H1 & H2 & _).
    destruct (recordConnLoss _ m) as [lc m1]. cbn [fst snd] in *. destruct (recordConnLossTask id m1) as [tc m2]. cbn [fst] in *.
    subst lc tc. unfold connLossEscalationThreshold, maxConnLossTaskAttempts.
    assert (forall a, (a + 1 <? 3) = (a <? 2)) as Hlt by (intros a; destruct (Z.ltb_spec (a + 1) 3), (Z.ltb_spec a 2); try done; lia).
    rewrite !Hlt. by destruct (_ && _).
  - destruct (isAuthError e) eqn:Ea.
    + destruct (Hr eq_refl) as [Hn| ->]; [congruence|]. unfold handle_auth.
      assert ((attempts t + 1 <=? 3) = (attempts t <? 3)) as -> by (destruct (Z.leb_spec (attempts t + 1) 3), (Z.ltb_spec (attempts t) 3); try done; lia).
      destruct (_ && _); [done|]. unfold fail_job. by repeat case_match.
    + unfold handle_transfer.
      assert ((attempts t + 1 <? 3) = (attempts t <? 2)) as -> by (destruct (Z.ltb_spec (attempts t + 1) 3), (Z.ltb_spec (attempts t) 2); try done; lia).
      destruct (_ && _); [done|]. by repeat case_match.
Qed.

(** What a retry does to the row and to the losses of the task. *)
Lemma retry_uses_one p t j d e ctxDone readJob now r m m' d' :
  pl_TaskID p = id -> claim_held p t j d ->
  handle p e ctxDone true readJob now m d = (RetryAt r, m', d') ->
  (exists t', tasks d' !! id = Some t' /\ attempts t' = attempts t + 1)
  /\ if isNetworkError e then task_losses m' = task_losses m + 1 /\ task_losses m < 2
     else task_losses m' = task_losses m /\ attempts t < 3.
Proof.
  intros Hid Hheld E. unfold handle in E. pose proof Hheld as (Ht & _). rewrite Hid in Ht.
  assert (forall d1 s err rt, (UpdateClaimedSyncTaskStatus (ack_with s (attempts t + 1) err rt
            (ack_of id (pl_ClaimEpoch p) t)) now d).2 = d1 ->
          exists t', tasks d1 !! id = Some t' /\ attempts t' = attempts t + 1) as Hupd.
  { intros d1 s err rt <-. rewrite <- Hid. pose proof (held_update p t j d Hheld s (attempts t + 1) err rt now d eq_refl) as U.
    unfold update_claimed in U. rewrite U. eexists. cbn. by rewrite lookup_insert_eq. }
  unfold handleSyncTaskFailure in E. rewrite Hid, Ht in E.
  destruct (match (if readJob then _ else _) with Some j0 => negb _ | None => _ end); [done|].
  destruct ctxDone; [done|].
  destruct (match (if readJob then _ else _) with Some j0 => status_in _ _ | None => _ end); [done|].
  destruct (er_canceled e); [done|].
  destruct (isNetworkError e).
  - unfold handle_conn_loss in E. cbn [ack_id ack_of] in E.
    destruct (conn_loss_counts (pl_SyncJobID p) m) as (_ & H2 & H3).
    destruct (recordConnLoss _ m) as [lc m1]. cbn [fst snd] in *. destruct (recordConnLossTask id m1) as [tc m2]. cbn [fst snd] in *.
    subst tc. destruct (_ && _) eqn:Eb; [|done]. injection E as _ <- E.
    apply andb_true_iff in Eb as [_ Eb%Z.ltb_lt]. unfold maxConnLossTaskAttempts in Eb.
    split; [by eapply Hupd|]. split; [done|lia].
  - destruct (isAuthError e).
    + unfold handle_auth, fail_job in E. destruct (if readJob then _ else _); [|done]. destruct (_ && _) eqn:Eb; [|by repeat case_match].
      injection E as _ <- E. apply andb_true_iff in Eb as [Eb _]. apply andb_true_iff in Eb as [_ Eb%Z.leb_le].
      split; [by eapply Hupd|]. split; [done|lia].
    + unfold handle_transfer in E. destruct (_ && _) eqn:Eb; [|by repeat case_match].
      injection E as _ <- E. apply andb_true_iff in Eb as [Eb%Z.ltb_lt _]. split; [by eapply Hupd|]. split; [done|lia].
Qed.

Lemma retried_left c n m d :
  retried c n m d ->
  0 <= task_losses m /\ (forall t, tasks d !! id = Some t -> 0 <= attempts t)
  /\ Z.of_nat c + losses_left m <= 2 /\ Z.of_nat n + attempts_left d <= 3.
Proof.
  unfold losses_left, attempts_left.
  induction 1 as [m d Hl Ht|c n m d m' d' _ (Hl & Ht & IHc & IHn) Hk
                 |c n m d p t j e cd rj now r m' d' _ (Hl & Ht & IHc & IHn) Hid Hheld E].
  - split_and!; [done..|lia|]. destruct (tasks d !! id) as [t|]; [|lia]. specialize (Ht t eq_refl). lia.
  - destruct Hk as [Hl' Ht']. destruct (tasks d' !! id) as [t'|].
    + destruct (Ht' t' eq_refl) as (t & E & Hle). rewrite E in IHn. specialize (Ht t E).
      split_and!; [lia|intros ? [= <-]; lia|lia|lia].
    + split_and!; [lia|done|lia|]. destruct (tasks d !! id) as [t|]; [|lia]. lia.
  - pose proof Hheld as (Htt & _). rewrite Hid in Htt. specialize (Ht t Htt). rewrite Htt in IHn.
    destruct (retry_uses_one _ _ _ _ _ _ _ _ _ _ _ _ Hid Hheld E) as ((t' & Ht' & Ha') & Hn). rewrite Ht'.
    destruct (isNetworkError e); destruct Hn as [Hm Hlt]; (split_and!; [lia|intros ? [= <-]; lia|lia|lia]).
Qed.

(** C38: the retries of a task end, and it is given those it has left.  In any
    interleaving with the rest of the system that keeps its attempts and its connection
    losses, a task is given at most two retries after connection losses and at most three
    after other errors.  And in every state of such a run, a failure of the held task,
    when its job is not paused and the worker goes on, is retried after the delay of
    [retry_rule] exactly when that rule allows it: fewer than two losses, of the task and
    in a row of its job; fewer than three attempts and a refreshed token; fewer than two
    attempts and an error that is not permanent.  Otherwise it pauses the job, fails
    the job or ends the task. *)
Theorem retries_bounded c n m d : retried c n m d ->
  (c <= 2)%nat /\ (n <= 3)%nat
  /\ forall p t j e readJob now, pl_TaskID p = id -> claim_held p t j d ->
       status_in [PAUSED; PAUSED_CONNECTION_LOSS] (jr_status j) = false -> er_canceled e = false ->
       (isAuthError e = true -> isNetworkError e = true \/ readJob = true) ->
       (handle p e false true readJob now m d).1.1
       = match retry_rule p t e m with Some after => RetryAt (now + after) | None => last_outcome e end.
Proof.
  intros Hr. destruct (retried_left c n m d Hr) as (_ & _ & Hc & Hn).
  assert (0 <= losses_left m) by (unfold losses_left; lia).
  assert (0 <= attempts_left d) by (unfold attempts_left; case_match; lia).
  split; [lia|split; [lia|]]. intros. by eapply handle_follows.
Qed.
End Retries.

(** ** Witnesses *)

Definition fx_job (s : job_status) : job_row :=
  mkJobRow s 1 0 None None None (mkCounters 4 40 1 10 10 0 1 0 0) 2 0.
Definition fx_task (attempts : Z) : task_row :=
  mkTaskRow "j" 1 None TRUNNING attempts None None (Some "w") 1 None None false 0.
Definition fx_db (attempts : Z) : database :=
  mkDb {[ "j" := fx_job RUNNING ]} {[ "t" := fx_task attempts ]} ∅ ∅.
Definition fx_payload : Payload := mkPayload "t" "j" 1 1.
Definition fx_mem (losses : Z) : worker_mem := mkMem ∅ {[ "t" := losses ]} ∅.
Definition fx_auth : task_error := mkError "source: 401" false false true false None.
Definition fx_lost : task_error := mkError "connection reset" false false false false None.

Definition fx_handle := @handleSyncTaskFailure ascii_tables (fun s => s) "dropbox" "webdav"
  (fun _ => true).

Lemma fx_held a : claim_held fx_payload (fx_task a) (fx_job RUNNING) (fx_db a).
Proof. split_and!; reflexivity. Qed.

(** The fourth authentication failure of the task fails the job. *)
Lemma failure_settles_witness :
  claim_held fx_payload (fx_task 3) (fx_job RUNNING) (fx_db 3)
  /\ (fx_handle fx_payload fx_auth false true true 7 (fx_mem 0) (fx_db 3)).1.1 = JobFailed
  /\ exists d', settled fx_payload JobFailed 7 (fx_task 3) (fx_job RUNNING) (fx_db 3) d'.
Proof.
  split_and!; [exact (fx_held 3)|vm_compute; reflexivity|].
  pose proof (@failure_settles ascii_tables (fun s => s) "dropbox" "webdav" (fun _ => true)
    fx_payload (fx_task 3) (fx_job RUNNING) (fx_db 3) (fx_held 3) fx_auth false true 7 (fx_mem 0))
    as H.
  revert H. destruct (handleSyncTaskFailure _ _ _ _ _ _ _ _ _ _ _ _) as [[o m] d'] eqn:E.
  assert (o = JobFailed) as ->.
  { change o with (o, m, d').1.1. rewrite <- E. vm_compute. reflexivity. }
  intros [_ H]. exists d'. by apply H.
Defined.

Abbreviation fx_retried := (@retried ascii_tables (fun s => s) "dropbox" "webdav" (fun _ => true) "t").

(** One retry after [e], and the next claim of the task. *)
Lemma fx_step e c n a a' k k' r :
  (fx_handle fx_payload e false true true 7 (fx_mem k) (fx_db a)).1.1 = RetryAt r ->
  keeps_count "t" (fx_handle fx_payload e false true true 7 (fx_mem k) (fx_db a)).1.2 (fx_mem k')
    (fx_handle fx_payload e false true true 7 (fx_mem k) (fx_db a)).2 (fx_db a') ->
  fx_retried c n (fx_mem k) (fx_db a) ->
  fx_retried (if isNetworkError (H := ascii_tables) e then S c else c) (if isNetworkError (H := ascii_tables) e then n else S n)
    (fx_mem k') (fx_db a').
Proof.
  intros Ho Hk Hn. eapply retried_other; [|exact Hk].
  eapply (retried_again _ _ _ _ _ _ _ _ _ fx_payload); [exact Hn|reflexivity|exact (fx_held a)|].
  destruct (fx_handle _ _ _ _ _ _ _ _) as [[o m] d] eqn:E. cbn in *. subst o. exact E.
Qed.

Ltac fx_keeps :=
  split; [by vm_compute|intros ? [= <-]; eexists; split; [by vm_compute|by vm_compute]].

(** All five retries can be used. *)
Lemma fx_all_retries : fx_retried 2 3 (fx_mem 2) (fx_db 5).
Proof.
  apply (fx_step fx_lost 1 3 4 5 1 2 37); [by vm_compute|fx_keeps|].
  apply (fx_step fx_lost 0 3 3 4 0 1 17); [by vm_compute|fx_keeps|].
  apply (fx_step fx_auth 0 2 2 3 0 0 97); [by vm_compute|fx_keeps|].
  apply (fx_step fx_auth 0 1 1 2 0 0 37); [by vm_compute|fx_keeps|].
  apply (fx_step fx_auth 0 0 0 1 0 0 17); [by vm_compute|fx_keeps|].
  apply retried_start; [vm_compute; discriminate|]. intros t' [= <-]. vm_compute. discriminate.
Qed.

Lemma retries_bounded_witness :
  (2 <= 2)%nat /\ (fx_handle fx_payload fx_lost false true true 7 (fx_mem 2) (fx_db 5)).1.1 = JobPaused.
Proof.
  destruct (retries_bounded _ _ _ _ _ _ _ _ _ fx_all_retries) as (Hc & _ & Hrule). split; [exact Hc|].
  refine (eq_trans (Hrule fx_payload (fx_task 5) (fx_job RUNNING) fx_lost true 7 eq_refl (fx_held 5) _ _ _) _);
    [reflexivity|reflexivity|by right|vm_compute; reflexivity].
Defined.
