(* ===== verification/SyncSystem.v ===== *)
(** * The lifecycle as a transition system

    Every statement of SyncLifecycle and SyncTasks as a step of one database
    that API processes, schedulers and workers share; a run is any
    interleaving.  Jobs are neither created nor deleted during a run, and the
    identifiers of new tasks are fresh, as UUIDs are. *)

From S2P Require Import Prelude HashString SyncDelta SyncBaseline Tables Database SyncLifecycle SyncTasks.

(** What a step tells its caller. *)
Inductive event : Type :=
| Claimed (id : string) (generation : Z)
| Finished (id : string) (generation : Z)
| Dequeued (task : string) (epoch : Z)
| Acked (task : string) (epoch : Z)
| Silent.

#[export] Instance event_eq_dec : EqDecision event.
Proof. solve_decision. Defined.

(** A step of the job statements. *)
Inductive job_step (d : database) : event -> database -> Prop :=
| js_claim id g now d' :
    ClaimSyncJobPass id now d = (Some g, d') -> job_step d (Claimed id g) d'
| js_finalize pred id g s err st ups dels now d' :
    pred = finalizeRunningSyncPass \/ pred = finalizeEmptySyncPass ->
    finalizeSyncJobPassWithStates pred id g s err st ups dels now d = (true, d') ->
    job_step d (Finished id g) d'
| js_fail id g err now d' :
    FailSyncJobPass id g err now d = (true, d') -> job_step d (Finished id g) d'
| js_status id s err now :
    s = JFAILED \/ s = IDLE ->
    job_step d Silent (UpdateSyncJobStatus id s err now d)
| js_status_gen id g s err now :
    s = JFAILED \/ s = PAUSED_CONNECTION_LOSS ->
    job_step d Silent (UpdateSyncJobStatusForGeneration id g s err now d).2
| js_pause id err now : job_step d Silent (PauseSyncJobAndDeactivateSchedules id err now d).2
| js_resume id err next now :
    job_step d Silent (ResumeSyncJobAndReactivateSchedules id err next now d).2
| js_running id g now : job_step d Silent (TransitionSyncJobToRunning id g now d).2
| js_verifying id g now : job_step d Silent (TransitionSyncJobToVerifying id g now d).2
| js_abort id g now : job_step d Silent (AbortSyncJobVerification id g now d).2
| js_release id g now : job_step d Silent (ReleaseUnstartedSyncPass id g now d).2
| js_reconnect id now : job_step d Silent (RecoverConnectionLostSyncJob id now d).2
| js_totals id g n b now : job_step d Silent (UpdateSyncJobTotals id g n b now d).2
| js_live id g b now : job_step d Silent (AddSyncJobLiveBytesForGeneration id g b now d)
| js_progress id g a b c e f now :
    job_step d Silent (IncrementSyncJobProgressForGeneration id g a b c e f now d).2
| js_reconcile id g now : job_step d Silent (ReconcileSyncJobProgress id g now d)
| js_recover now : job_step d Silent (recoverOrphanedSyncJobs now d)
| js_lease id now : job_step d Silent (ClaimSyncJobVerification id now d).2
| js_renew id g v now : job_step d Silent (RenewSyncJobVerificationLease id g v now d).2
| js_unlease id v now : job_step d Silent (ReleaseSyncJobVerificationLease id v now d).

(** A step of the task statements.  Workers never acknowledge RUNNING. *)
Inductive task_step (d : database) : event -> database -> Prop :=
| ts_dequeue w pick now p d' :
    DequeueSQL w pick now d = (Some p, d') -> task_step d (Dequeued (pl_TaskID p) (pl_ClaimEpoch p)) d'
| ts_dequeue_none w pick now d' :
    DequeueSQL w pick now d = (None, d') -> task_step d Silent d'
| ts_ack a now d' :
    ack_status a <> TRUNNING -> UpdateClaimedSyncTaskStatus a now d = (true, d') ->
    task_step d (Acked (ack_id a) (ack_epoch a)) d'
| ts_ack_count a b c e f g now d' :
    ack_status a <> TRUNNING ->
    UpdateSyncTaskStatusAndIncrementProgress a b c e f g now d = (true, d') ->
    task_step d (Acked (ack_id a) (ack_epoch a)) d'
| ts_transition id epoch s now d' :
    s <> TRUNNING -> TransitionClaimedTask id epoch s now d = (true, d') ->
    task_step d (Acked id epoch) d'
| ts_heartbeat id e g now : task_step d Silent (HeartbeatSyncTaskClaim id e g now d).2
| ts_verified id h g v now :
    task_step d Silent (MarkSyncTaskChecksumVerifiedWhileVerifying id h g v now d).2
| ts_mismatch a g v now :
    ack_status a <> TRUNNING ->
    task_step d Silent (MarkSyncTaskChecksumMismatchWhileVerifying a g v now d).2
| ts_abandoned w now : task_step d Silent (RecoverAbandonedTasks w now d)
| ts_requeue now : task_step d Silent (requeueFailedTasks now d)
| ts_orphaned now : task_step d Silent (requeueOrphanedRunningTasks now d)
| ts_cancel id g now :
    task_step d Silent (CancelRemainingPendingSyncTasksForGeneration id g now d).2.

(** A fenced statement that found no row to change, or was rolled back. *)
Inductive refused (d : database) : database -> Prop :=
| rf_claim id now d' : ClaimSyncJobPass id now d = (None, d') -> refused d d'
| rf_finalize pred id g s err st ups dels now d' :
    finalizeSyncJobPassWithStates pred id g s err st ups dels now d = (false, d') -> refused d d'
| rf_fail id g err now d' : FailSyncJobPass id g err now d = (false, d') -> refused d d'
| rf_ack a now d' : UpdateClaimedSyncTaskStatus a now d = (false, d') -> refused d d'
| rf_ack_count a b c e f g now d' :
    UpdateSyncTaskStatusAndIncrementProgress a b c e f g now d = (false, d') -> refused d d'
| rf_transition id epoch s now d' :
    TransitionClaimedTask id epoch s now d = (false, d') -> refused d d'.

(** The database and the task identifiers drawn so far. *)
Record sys := mkSys {
  sys_db : database;
  sys_born : gset string;
}.

Inductive sys_step : event -> sys -> sys -> Prop :=
| ss_job d born ev d' : job_step d ev d' -> sys_step ev (mkSys d born) (mkSys d' born)
| ss_task d born ev d' : task_step d ev d' -> sys_step ev (mkSys d born) (mkSys d' born)
| ss_refused d born d' : refused d d' -> sys_step Silent (mkSys d born) (mkSys d' born)
| ss_create d born job g rows now :
    (forall id, id ∈ rows.*1 -> id ∉ born) ->
    sys_step Silent (mkSys d born)
      (mkSys (BulkCreateSyncTasks job g rows now d).2 (list_to_set (rows.*1) ∪ born))
| ss_clear d born job : sys_step Silent (mkSys d born) (mkSys (clear_old_tasks job d) born)
| ss_suspend d born owned now : sys_step Silent (mkSys d born) (mkSys (SuspendUser owned now d) born).

(** A refused statement leaves no trace. *)
Lemma update_job_unmatched id p f d d' : update_job id p f d = (false, d') -> d' = d.
Proof. destruct (update_job_spec id p f d) as [(j & _ & _ & ->)| ->]; congruence. Qed.

Lemma update_task_unmatched id p f d d' : update_task id p f d = (false, d') -> d' = d.
Proof. destruct (update_task_spec id p f d) as [(j & _ & _ & ->)| ->]; congruence. Qed.

Lemma refused_same d d' : refused d d' -> d' = d.
Proof.
  destruct 1 as [id now d' H|pred id g s err st ups dels now d' H|id g err now d' H|a now d' H
                |a b c e f g now d' H|id epoch s now d' H].
  - unfold ClaimSyncJobPass in H.
    match type of H with context [update_job id ?p ?h d] =>
      destruct (update_job_spec id p h d) as [(j & _ & _ & E)|E]; rewrite E in H end; [|congruence].
    cbn in H. by rewrite lookup_insert_eq in H.
  - unfold finalizeSyncJobPassWithStates in H. destruct (update_job _ _ _ _) as [[] ?]; cbn in H; congruence.
  - by apply update_job_unmatched in H.
  - by apply update_task_unmatched in H.
  - unfold UpdateSyncTaskStatusAndIncrementProgress in H.
    repeat (case_match; try congruence).
  - by apply update_task_unmatched in H.
Qed.

Inductive run : list event -> sys -> sys -> Prop :=
| run_nil s : run [] s s
| run_cons ev es s1 s2 s3 : sys_step ev s1 s2 -> run es s2 s3 -> run (ev :: es) s1 s3.

(** ** How a step changes the rows of a job *)

Definition inactive (j : job_row) : Prop := status_in active (jr_status j) = false.

(** The row changed without a claim. *)
Definition quiet (j j' : job_row) : Prop :=
  run_generation j' = run_generation j
  /\ (inactive j -> inactive j' /\ jr_counters j' = jr_counters j
                    /\ last_run_status j' = last_run_status j).

Definition evolves (ev : event) (id : string) (j j' : job_row) : Prop :=
  (ev = Claimed id (run_generation j + 1) /\ run_generation j' = run_generation j + 1
   /\ status_in claimable (jr_status j) = true)
  \/ ((forall g, ev <> Claimed id g) /\ quiet j j').

Definition jobs_quiet (d d' : database) : Prop :=
  forall id j', sync_jobs d' !! id = Some j' ->
  exists j, sync_jobs d !! id = Some j /\ quiet j j'.

Lemma quiet_refl j : quiet j j.
Proof. by split. Qed.

Lemma quiet_trans j1 j2 j3 : quiet j1 j2 -> quiet j2 j3 -> quiet j1 j3.
Proof.
  intros [G1 H1] [G2 H2]. split; [congruence|]. intros Hi.
  destruct (H1 Hi) as (Hi2 & E1 & E2). destruct (H2 Hi2) as (? & ? & ?).
  split_and!; congruence.
Qed.

Lemma jobs_quiet_same d d' : sync_jobs d' = sync_jobs d -> jobs_quiet d d'.
Proof. intros E id j' H. rewrite E in H. exists j'. split; [done|apply quiet_refl]. Qed.

Lemma jobs_quiet_trans d1 d2 d3 : jobs_quiet d1 d2 -> jobs_quiet d2 d3 -> jobs_quiet d1 d3.
Proof.
  intros H1 H2 id j3 H. destruct (H2 id j3 H) as (j2 & Hj2 & Q2).
  destruct (H1 id j2 Hj2) as (j1 & Hj1 & Q1). exists j1. eauto using quiet_trans.
Qed.

Lemma update_job_quiet id p f d :
  (forall j, p j = true -> quiet j (f j)) -> jobs_quiet d (update_job id p f d).2.
Proof.
  intros Hf. destruct (update_job_spec id p f d) as [(j & Hj & Hp & ->)| ->].
  - intros id' j'. cbn. rewrite lookup_insert_Some. intros [[<- <-]|[_ H]].
    + eauto.
    + exists j'. split; [done|apply quiet_refl].
  - by apply jobs_quiet_same.
Qed.

Lemma update_task_jobs id p f d : sync_jobs (update_task id p f d).2 = sync_jobs d.
Proof. by destruct (update_task_spec id p f d) as [(t & _ & _ & ->)| ->]. Qed.

(** Decides [quiet] from the statuses a statement's guard allows. *)
Ltac solve_quiet :=
  let j := fresh "j" in let Hp := fresh "Hp" in
  intros j Hp; split; [done|]; unfold inactive; cbn;
  repeat (apply andb_true_iff in Hp as [Hp ?]);
  destruct (jr_status j); done.

Definition jobs_evolve (ev : event) (d d' : database) : Prop :=
  forall id j', sync_jobs d' !! id = Some j' ->
  exists j, sync_jobs d !! id = Some j /\ evolves ev id j j'.

Lemma jobs_quiet_evolve ev d d' :
  (forall id g, ev <> Claimed id g) -> jobs_quiet d d' -> jobs_evolve ev d d'.
Proof.
  intros He Hq id j' H. destruct (Hq id j' H) as (j & Hj & Q).
  exists j. split; [done|]. right. split; [apply He|done].
Qed.

Lemma pause_quiet id err now d :
  jobs_quiet d (PauseSyncJobAndDeactivateSchedules id err now d).2.
Proof.
  unfold PauseSyncJobAndDeactivateSchedules.
  destruct (sync_jobs d !! id) as [j|]; [|by apply jobs_quiet_same].
  destruct (negb _); [by apply jobs_quiet_same|].
  pose proof (update_job_quiet id (fun j' => run_generation j' =? run_generation j)
    (fun j => job_set PAUSED None (coalesce err (jr_error j)) now j) d) as Hq.
  destruct (update_job id _ _ d) as [[] d1]; [|by apply jobs_quiet_same]. cbn in *.
  apply Hq. solve_quiet.
Qed.

Lemma resume_quiet id err next now d :
  jobs_quiet d (ResumeSyncJobAndReactivateSchedules id err next now d).2.
Proof.
  unfold ResumeSyncJobAndReactivateSchedules, ResumeSyncJob.
  destruct (sync_jobs d !! id) as [j|]; [|by apply jobs_quiet_same].
  destruct (negb _); [by apply jobs_quiet_same|].
  match goal with |- context [update_job id ?p ?f d] =>
    pose proof (update_job_quiet id p f d) as Hq end.
  destruct (update_job id _ _ d) as [b d1]. cbn in *. apply Hq. solve_quiet.
Qed.

Lemma reconnect_quiet id now d : jobs_quiet d (RecoverConnectionLostSyncJob id now d).2.
Proof.
  unfold RecoverConnectionLostSyncJob.
  match goal with |- context [update_job id ?p ?f d] =>
    pose proof (update_job_quiet id p f d) as Hq end.
  destruct (update_job id _ _ d) as [[] d1]; [|by apply jobs_quiet_same]. cbn in *.
  apply Hq. solve_quiet.
Qed.

Lemma recover_quiet now d : jobs_quiet d (recoverOrphanedSyncJobs now d).
Proof.
  intros id j'. unfold recoverOrphanedSyncJobs. cbn. rewrite map_lookup_imap.
  destruct (sync_jobs d !! id) as [j|]; [|done]. cbn. intros [= <-].
  exists j. split; [done|]. split; [by destruct (orphaned _ _ _ _)|]. intros Hi.
  assert (orphaned id now (tasks d) j = false) as ->; [|done].
  unfold orphaned. unfold inactive in Hi. destruct (jr_status j); try done; by rewrite andb_false_r.
Qed.

Lemma finalize_quiet pred id g s err st ups dels now d :
  jobs_quiet d (finalizeSyncJobPassWithStates pred id g s err st ups dels now d).2
  \/ ~ (pred = finalizeRunningSyncPass \/ pred = finalizeEmptySyncPass).
Proof.
  destruct (decide (pred = finalizeRunningSyncPass \/ pred = finalizeEmptySyncPass)) as [Hp|];
    [left|by right].
  unfold finalizeSyncJobPassWithStates.
  match goal with |- context [update_job id ?p ?f d] =>
    pose proof (update_job_quiet id p f d) as Hq end.
  destruct (update_job id _ _ d) as [[] d1]; [|by apply jobs_quiet_same].
  cbn in *. apply Hq. destruct Hp as [-> | ->]; solve_quiet.
Qed.

Lemma job_step_evolve d ev d' : job_step d ev d' -> jobs_evolve ev d d'.
Proof.
  destruct 1.
  - unfold ClaimSyncJobPass in H.
    match type of H with context [update_job id ?p ?f d] =>
      destruct (update_job_spec id p f d) as [(j & Hj & Hp & E)|E]; rewrite E in H end; [|done].
    cbn in H. rewrite lookup_insert_eq in H. cbn in H. injection H as <- <-.
    intros id' j'. cbn. rewrite lookup_insert_Some. intros [[<- <-]|[Hne Hj']].
    + exists j. split; [done|]. by left.
    + exists j'. split; [done|]. right. split; [|apply quiet_refl]. congruence.
  - apply jobs_quiet_evolve; [done|].
    destruct (finalize_quiet pred id g s err st ups dels now d) as [Hq|]; [|done].
    by rewrite H0 in Hq.
  - apply jobs_quiet_evolve; [done|]. unfold FailSyncJobPass in H.
    match type of H with context [update_job id ?p ?f d] =>
      pose proof (update_job_quiet id p f d) as Hq end.
    rewrite H in Hq. apply Hq. solve_quiet.
  - apply jobs_quiet_evolve; [done|]. apply update_job_quiet. destruct H as [-> | ->]; solve_quiet.
  - apply jobs_quiet_evolve; [done|]. apply update_job_quiet. destruct H as [-> | ->]; solve_quiet.
  - apply jobs_quiet_evolve; [done|]. apply pause_quiet.
  - apply jobs_quiet_evolve; [done|]. apply resume_quiet.
  - apply jobs_quiet_evolve; [done|]. apply update_job_quiet. solve_quiet.
  - apply jobs_quiet_evolve; [done|]. apply update_job_quiet. solve_quiet.
  - apply jobs_quiet_evolve; [done|]. apply update_job_quiet. solve_quiet.
  - apply jobs_quiet_evolve; [done|]. apply update_job_quiet. solve_quiet.
  - apply jobs_quiet_evolve; [done|]. apply reconnect_quiet.
  - apply jobs_quiet_evolve; [done|]. apply update_job_quiet. solve_quiet.
  - apply jobs_quiet_evolve; [done|]. unfold AddSyncJobLiveBytesForGeneration.
    case_match; [by apply jobs_quiet_same|]. apply update_job_quiet. solve_quiet.
  - apply jobs_quiet_evolve; [done|]. apply update_job_quiet. solve_quiet.
  - apply jobs_quiet_evolve; [done|]. unfold ReconcileSyncJobProgress.
    case_match; [by apply jobs_quiet_same|]. apply update_job_quiet. solve_quiet.
  - apply jobs_quiet_evolve; [done|]. apply recover_quiet.
  - apply jobs_quiet_evolve; [done|]. unfold ClaimSyncJobVerification.
    match goal with |- context [update_job id ?p ?f d] =>
      pose proof (update_job_quiet id p f d) as Hq; destruct (update_job id p f d) as [b d1] end.
    apply Hq. solve_quiet.
  - apply jobs_quiet_evolve; [done|]. apply update_job_quiet. solve_quiet.
  - apply jobs_quiet_evolve; [done|]. apply update_job_quiet. solve_quiet.
Qed.

(** The job tables of task statements: untouched, or one row's counters. *)
Lemma dequeue_jobs w pick now d : sync_jobs (DequeueSQL w pick now d).2 = sync_jobs d.
Proof.
  unfold DequeueSQL. repeat case_match; try done.
  all: match goal with E : update_task ?k ?p ?f ?d0 = _ |- _ =>
    pose proof (update_task_jobs k p f d0) as Hj; rewrite E in Hj; exact Hj end.
Qed.

Lemma ack_count_quiet a b c e f g now d :
  jobs_quiet d (UpdateSyncTaskStatusAndIncrementProgress a b c e f g now d).2.
Proof.
  unfold UpdateSyncTaskStatusAndIncrementProgress.
  match goal with |- context [update_task ?k ?p ?h d] =>
    pose proof (update_task_jobs k p h d) as Ht; destruct (update_task k p h d) as [[] d1] end;
    [|by apply jobs_quiet_same]. cbn [negb snd] in *.
  match goal with |- context [update_job ?k ?p ?h d1] =>
    pose proof (update_job_quiet k p h d1) as Hq; destruct (update_job k p h d1) as [[] d2] end.
  - eapply jobs_quiet_trans; [by apply jobs_quiet_same|]. apply Hq. solve_quiet.
  - repeat case_match; by apply jobs_quiet_same.
Qed.

Lemma verified_quiet id h g v now d :
  jobs_quiet d (MarkSyncTaskChecksumVerifiedWhileVerifying id h g v now d).2.
Proof.
  unfold MarkSyncTaskChecksumVerifiedWhileVerifying.
  match goal with |- context [update_task ?k ?p ?h d] =>
    destruct (update_task_spec k p h d) as [(t & Ht & Hp & E)|E]; rewrite E end;
    cbn [negb snd]; [|by apply jobs_quiet_same].
  cbn. rewrite lookup_insert_eq. cbn.
  match goal with |- context [update_job ?k ?p ?h ?d1] =>
    destruct (update_job_spec k p h d1) as [(j & Hj & _ & E')|E']; rewrite E' end;
    [|by apply jobs_quiet_same].
  intros id' j'. cbn in *. rewrite lookup_insert_Some. intros [[<- <-]|[_ H]].
  - exists j. split; [done|]. split; [done|]. intros Hi. exfalso.
    unfold unverified, job_at in Hp. rewrite Hj in Hp. unfold inactive in Hi.
    apply andb_true_iff in Hp as [_ Hp]. unfold holds_lease in Hp.
    destruct (jr_status j); done.
  - exists j'. split; [done|apply quiet_refl].
Qed.

Lemma suspend_quiet owned now d : jobs_quiet d (SuspendUser owned now d).
Proof.
  intros id j'. cbn. rewrite map_lookup_imap. destruct (sync_jobs d !! id) as [j|] eqn:Hj; [|done].
  cbn. intros [= <-]. exists j. split; [done|]. split; [by destruct (stopped_job _ _ _)|]. intros Hi.
  by destruct (stopped_job _ _ _).
Qed.

Lemma task_step_quiet d ev d' : task_step d ev d' -> jobs_quiet d d'.
Proof.
  destruct 1.
  - apply jobs_quiet_same. pose proof (dequeue_jobs w pick now d) as E. by rewrite H in E.
  - apply jobs_quiet_same. pose proof (dequeue_jobs w pick now d) as E. by rewrite H in E.
  - apply jobs_quiet_same. unfold UpdateClaimedSyncTaskStatus in *.
    match type of H0 with update_task ?k ?p ?h d = _ =>
      pose proof (update_task_jobs k p h d) as E end. by rewrite H0 in E.
  - pose proof (ack_count_quiet a b c e f g now d) as E. by rewrite H0 in E.
  - apply jobs_quiet_same. unfold TransitionClaimedTask in *.
    match type of H0 with update_task ?k ?p ?h d = _ =>
      pose proof (update_task_jobs k p h d) as E end. by rewrite H0 in E.
  - apply jobs_quiet_same, update_task_jobs.
  - apply verified_quiet.
  - apply jobs_quiet_same, update_task_jobs.
  - by apply jobs_quiet_same.
  - by apply jobs_quiet_same.
  - by apply jobs_quiet_same.
  - by apply jobs_quiet_same.
Qed.

Lemma task_step_no_claim d ev d' : task_step d ev d' -> forall id g, ev <> Claimed id g.
Proof. by destruct 1. Qed.

Lemma sys_step_evolve ev s s' : sys_step ev s s' -> jobs_evolve ev (sys_db s) (sys_db s').
Proof.
  destruct 1; cbn.
  - by apply job_step_evolve.
  - apply jobs_quiet_evolve; [by eapply task_step_no_claim|by eapply task_step_quiet].
  - rewrite (refused_same _ _ H). apply jobs_quiet_evolve; [done|by apply jobs_quiet_same].
  - apply jobs_quiet_evolve; [done|]. apply jobs_quiet_same.
    unfold BulkCreateSyncTasks. by case_match.
  - apply jobs_quiet_evolve; [done|]. by apply jobs_quiet_same.
  - apply jobs_quiet_evolve; [done|apply suspend_quiet].
Qed.

(** ** How a step changes the rows of a task *)

Definition unclaimed (r : task_row) : Prop := tr_status r <> TRUNNING.

(** The claim of the row was not renewed. *)
Definition tquiet (r r' : task_row) : Prop :=
  claim_epoch r' = claim_epoch r /\ (unclaimed r -> unclaimed r').

Definition tasks_quiet (d d' : database) : Prop :=
  forall id r', tasks d' !! id = Some r' -> exists r, tasks d !! id = Some r /\ tquiet r r'.

Lemma tquiet_refl r : tquiet r r.
Proof. by split. Qed.

Lemma tasks_quiet_same d d' : tasks d' = tasks d -> tasks_quiet d d'.
Proof. intros E id r H. rewrite E in H. exists r. split; [done|apply tquiet_refl]. Qed.

Lemma tasks_quiet_trans d1 d2 d3 : tasks_quiet d1 d2 -> tasks_quiet d2 d3 -> tasks_quiet d1 d3.
Proof.
  intros H1 H2 id r3 H. destruct (H2 id r3 H) as (r2 & Hr2 & E2 & Q2).
  destruct (H1 id r2 Hr2) as (r1 & Hr1 & E1 & Q1). exists r1. split; [done|].
  split; [congruence|auto].
Qed.

Lemma update_task_quiet id p f d :
  (forall r, p r = true -> tquiet r (f r)) -> tasks_quiet d (update_task id p f d).2.
Proof.
  intros Hf. destruct (update_task_spec id p f d) as [(r & Hr & Hp & ->)| ->].
  - intros id' r'. cbn. rewrite lookup_insert_Some. intros [[<- <-]|[_ H]]; [by eauto|].
    exists r'. split; [done|apply tquiet_refl].
  - by apply tasks_quiet_same.
Qed.

Lemma update_where_quiet p f d :
  (forall r, p r = true -> tquiet r (f r)) ->
  tasks_quiet d (set_tasks (update_where p f (tasks d)) d).
Proof.
  intros Hf id r'. cbn. rewrite update_where_lookup.
  destruct (tasks d !! id) as [r|]; [|done]. cbn. intros [= <-]. exists r. split; [done|].
  destruct (p r) eqn:E; [by apply Hf|apply tquiet_refl].
Qed.

Lemma update_job_tasks id p f d : tasks (update_job id p f d).2 = tasks d.
Proof. by destruct (update_job_spec id p f d) as [(t & _ & _ & ->)| ->]. Qed.

Lemma pause_tasks id err now d :
  tasks_quiet d (PauseSyncJobAndDeactivateSchedules id err now d).2.
Proof.
  unfold PauseSyncJobAndDeactivateSchedules.
  destruct (sync_jobs d !! id) as [j|]; [|by apply tasks_quiet_same].
  destruct (negb _); [by apply tasks_quiet_same|].
  match goal with |- context [update_job id ?p ?f d] =>
    pose proof (update_job_tasks id p f d) as E end.
  destruct (update_job id _ _ d) as [[] d1]; [|by apply tasks_quiet_same].
  cbn [negb snd] in *. eapply tasks_quiet_trans; [|by apply update_where_quiet].
  by apply tasks_quiet_same.
Qed.

Ltac job_only :=
  repeat match goal with
  | |- context [update_job ?id ?p ?f ?d] =>
      pose proof (update_job_tasks id p f d);
      destruct (update_job id p f d) as [[] ?]; cbn in *
  | H : context [update_job ?id ?p ?f ?d] |- _ =>
      pose proof (update_job_tasks id p f d);
      destruct (update_job id p f d) as [[] ?]; cbn in *
  | |- context [match ?x with _ => _ end] => destruct x; cbn in *
  end; simplify_eq; try done.

Lemma job_step_tasks d ev d' : job_step d ev d' -> tasks_quiet d d'.
Proof.
  destruct 1.
  6: apply pause_tasks.
  all: apply tasks_quiet_same; unfold ClaimSyncJobPass, finalizeSyncJobPassWithStates,
    FailSyncJobPass, UpdateSyncJobStatus, UpdateSyncJobStatusForGeneration,
    ResumeSyncJobAndReactivateSchedules, ResumeSyncJob, TransitionSyncJobToRunning,
    TransitionSyncJobToVerifying, AbortSyncJobVerification, ReleaseUnstartedSyncPass,
    transition, RecoverConnectionLostSyncJob, UpdateSyncJobTotals,
    AddSyncJobLiveBytesForGeneration, IncrementSyncJobProgressForGeneration,
    ReconcileSyncJobProgress, recoverOrphanedSyncJobs, ClaimSyncJobVerification,
    RenewSyncJobVerificationLease, ReleaseSyncJobVerificationLease in *; try done; job_only.
Qed.

(** The row of [id] was claimed by this step, or not at all. *)
Definition task_evolves (ev : event) (id : string) (r r' : task_row) : Prop :=
  (ev = Dequeued id (claim_epoch r + 1) /\ claim_epoch r' = claim_epoch r + 1 /\ unclaimed r)
  \/ tquiet r r'.

Definition tasks_evolve (ev : event) (d d' : database) : Prop :=
  forall id r', tasks d' !! id = Some r' ->
  exists r, tasks d !! id = Some r /\ task_evolves ev id r r'.

Lemma tasks_quiet_evolve ev d d' : tasks_quiet d d' -> tasks_evolve ev d d'.
Proof. intros H id r' Hr. destruct (H id r' Hr) as (r & ? & ?). exists r. split; [done|by right]. Qed.

Lemma skip_quiet now d : tasks_quiet d (set_tasks (skip_dependents now (tasks d)) d).
Proof. apply update_where_quiet. by intros r _. Qed.

Lemma dequeue_none_quiet w pick now d d' :
  DequeueSQL w pick now d = (None, d') -> tasks_quiet d d'.
Proof.
  unfold DequeueSQL. pose proof (skip_quiet now d) as Hs.
  set (d1 := set_tasks (skip_dependents now (tasks d)) d) in *.
  destruct pick as [id|]; [|by intros [= <-]].
  destruct (tasks d1 !! id) as [t|]; [|by intros [= <-]].
  destruct (sync_jobs d1 !! tr_sync_job t) as [j|]; [|by intros [= <-]; apply tasks_quiet_same].
  destruct (negb _); [by intros [= <-]|]. destruct (negb (pass_generation t =? _)); [by intros [= <-]|].
  destruct (threads j <=? _); [by intros [= <-]|].
  destruct (update_task_spec id (has_status PENDING) (claim_task w now) d1)
    as [(t' & Ht' & Hp & ->)| ->]; [done|]. by intros [= <-].
Qed.

Lemma ack_count_spec a b c e f g now d d' :
  UpdateSyncTaskStatusAndIncrementProgress a b c e f g now d = (true, d') ->
  exists r, tasks d !! ack_id a = Some r /\ holds_sync_claim a r = true
    /\ tasks d' = <[ack_id a := acked a now r]> (tasks d).
Proof.
  unfold UpdateSyncTaskStatusAndIncrementProgress.
  destruct (update_task_spec (ack_id a) (holds_sync_claim a) (acked a now) d)
    as [(r & Hr & Hp & ->)| ->]; [|done]. cbn [negb].
  match goal with |- context [update_job ?k ?p ?h ?d1] =>
    pose proof (update_job_tasks k p h d1) as Hj; destruct (update_job k p h d1) as [[] d2] end;
    cbn in *.
  - intros [= <-]. exists r. by rewrite Hj.
  - repeat case_match; try done. intros [= <-]. exists r. done.
Qed.

Lemma task_step_evolve d ev d' : task_step d ev d' -> tasks_evolve ev d d'.
Proof.
  destruct 1.
  - destruct (dequeue_spec _ _ _ _ _ _ H) as (t & j & _ & Ht & Hs & _ & _ & _ & _ & Hp & ->).
    intros id r'. cbn. rewrite lookup_insert_Some. intros [[<- <-]|[Hne Hr]].
    + destruct (skip_quiet now d _ _ Ht) as (r & Hr & Eq & Hu). exists r. split; [done|]. left.
      rewrite Hp. cbn. rewrite Eq. split_and!; [done..|].
      unfold skip_dependents in Ht. cbn in Ht. rewrite update_where_lookup, Hr in Ht.
      cbn in Ht. injection Ht as Ht. case_match; [by subst t|]. subst r. unfold unclaimed.
      by rewrite Hs.
    + destruct (skip_quiet now d id r' Hr) as (r & ? & ?). exists r. split; [done|by right].
  - by eapply tasks_quiet_evolve, dequeue_none_quiet.
  - apply ack_spec in H0 as (r & Hr & Hp & ->). apply tasks_quiet_evolve. intros id r'. cbn.
    rewrite lookup_insert_Some. intros [[<- <-]|[_ ?]]; [by exists r|].
    exists r'. split; [done|apply tquiet_refl].
  - apply ack_count_spec in H0 as (r & Hr & Hp & E). apply tasks_quiet_evolve. intros id r'.
    rewrite E, lookup_insert_Some. intros [[<- <-]|[_ ?]]; [by exists r|].
    exists r'. split; [done|apply tquiet_refl].
  - apply ack_spec in H0 as (r & Hr & Hp & ->). apply tasks_quiet_evolve. intros id' r'. cbn.
    rewrite lookup_insert_Some. intros [[<- <-]|[_ ?]]; [by exists r|].
    exists r'. split; [done|apply tquiet_refl].
  - by apply tasks_quiet_evolve, update_task_quiet.
  - apply tasks_quiet_evolve. unfold MarkSyncTaskChecksumVerifiedWhileVerifying.
    match goal with |- context [update_task ?k ?p ?h d] =>
      pose proof (update_task_quiet k p h d) as Hq; destruct (update_task k p h d) as [[] d1] end;
      [|by apply tasks_quiet_same].
    cbn in *. eapply tasks_quiet_trans; [apply Hq; intros r _; by split|].
    destruct (tasks d1 !! id); [|by apply tasks_quiet_same].
    apply tasks_quiet_same, update_job_tasks.
  - by apply tasks_quiet_evolve, update_task_quiet.
  - by apply tasks_quiet_evolve, update_where_quiet.
  - by apply tasks_quiet_evolve, update_where_quiet.
  - by apply tasks_quiet_evolve, update_where_quiet.
  - by apply tasks_quiet_evolve, update_where_quiet.
Qed.

Lemma suspend_tasks owned now d : tasks_quiet d (SuspendUser owned now d).
Proof.
  intros id r'. cbn. rewrite update_where_lookup. destruct (tasks d !! id) as [r|]; [|done]. cbn. intros [= <-].
  exists r. split; [done|]. by destruct (_ && _).
Qed.

(** ** Runs *)

Definition wf_sys (s : sys) : Prop := dom (tasks (sys_db s)) ⊆ sys_born s.

Lemma bulk_insert_lookup rows m m' id r :
  bulk_insert rows m = Some m' -> m' !! id = Some r -> m !! id = Some r \/ id ∈ rows.*1.
Proof.
  revert m. induction rows as [|[k t] rows IH]; intros m; cbn; [intros [= ->]; by left|].
  destruct (m !! k) eqn:E; [done|]. intros H Hr.
  destruct (IH _ H Hr) as [Hl|Hl]; [|right; by right].
  apply lookup_insert_Some in Hl as [[<- _]|[_ ?]]; [right; by left|by left].
Qed.

Lemma bulk_rows_ids job g now (rows : list (string * option string)) :
  (map (fun '(id, pre) => (id, new_task job g pre now)) rows).*1 = rows.*1.
Proof. induction rows as [|[id pre] rows IH]; [done|]. cbn. by rewrite IH. Qed.

Lemma sys_step_born ev s s' :
  sys_step ev s s' -> wf_sys s ->
  wf_sys s' /\ sys_born s ⊆ sys_born s'
  /\ forall id r', tasks (sys_db s') !! id = Some r' -> id ∈ sys_born s ->
     exists r, tasks (sys_db s) !! id = Some r /\ task_evolves ev id r r'.
Proof.
  intros Hs Hw. unfold wf_sys in *. destruct Hs; cbn in *.
  - pose proof (job_step_tasks _ _ _ H) as Hq. split_and!; [|done|].
    + intros id [r Hr]%elem_of_dom. destruct (Hq id r Hr) as (r0 & ? & _).
      apply Hw, elem_of_dom. by exists r0.
    + intros id r' Hr _. destruct (Hq id r' Hr) as (r0 & ? & ?). exists r0. split; [done|by right].
  - pose proof (task_step_evolve _ _ _ H) as Hq. split_and!; [|done|].
    + intros id [r Hr]%elem_of_dom. destruct (Hq id r Hr) as (r0 & ? & _).
      apply Hw, elem_of_dom. by exists r0.
    + intros id r' Hr _. by apply Hq.
  - rewrite (refused_same _ _ H). split_and!; [done|done|]. intros id r' Hr _. exists r'.
    split; [done|right; apply tquiet_refl].
  - unfold BulkCreateSyncTasks. destruct (bulk_insert _ _) as [m|] eqn:E; cbn.
    + split_and!; [|set_solver|].
      * intros id [r Hr]%elem_of_dom. destruct (bulk_insert_lookup _ _ _ _ _ E Hr) as [Hl|Hl].
        -- apply elem_of_union_r, Hw, elem_of_dom. by exists r.
        -- rewrite bulk_rows_ids in Hl. apply elem_of_union_l. by apply elem_of_list_to_set.
      * intros id r' Hr Hb. destruct (bulk_insert_lookup _ _ _ _ _ E Hr) as [Hl|Hl].
        -- exists r'. split; [done|right; apply tquiet_refl].
        -- rewrite bulk_rows_ids in Hl. by destruct (H id Hl).
    + split_and!; [set_solver|set_solver|]. intros id r' Hr _. exists r'.
      split; [done|right; apply tquiet_refl].
  - split_and!; [|done|].
    + intros id [r Hr]%elem_of_dom. apply map_lookup_filter_Some in Hr as [Hr _].
      apply Hw, elem_of_dom. by exists r.
    + intros id r' Hr _. apply map_lookup_filter_Some in Hr as [Hr _]. exists r'.
      split; [done|right; apply tquiet_refl].
  - pose proof (suspend_tasks owned now d) as Hq. split_and!; [|done|].
    + intros id [r Hr]%elem_of_dom. destruct (Hq id r Hr) as (r0 & ? & _).
      apply Hw, elem_of_dom. by exists r0.
    + intros id r' Hr _. destruct (Hq id r' Hr) as (r0 & ? & ?). exists r0. split; [done|by right].
Qed.

(** How often an event happens in a run. *)
Definition occurrences (e : event) (es : list event) : nat :=
  length (filter (fun x => x = e) es).

(** An event that retires itself happens at most once in a run. *)
Lemma at_most_once e (R : sys -> Prop) :
  (forall ev s s', wf_sys s -> sys_step ev s s' -> R s -> R s') ->
  (forall s s', wf_sys s -> sys_step e s s' -> ~ R s /\ R s') ->
  forall es s s', wf_sys s -> run es s s' ->
  (R s -> occurrences e es = O) /\ (occurrences e es <= 1)%nat.
Proof.
  intros Hk Hone es s s' Hw Hr. unfold occurrences.
  induction Hr as [s|ev es s1 s2 s3 Hs Hr IH]; [cbn; split; [done|lia]|].
  destruct (sys_step_born _ _ _ Hs Hw) as (Hw2 & _). destruct (IH Hw2) as [IH1 IH2].
  rewrite filter_cons. destruct (decide (ev = e)) as [->|Hne].
  - destruct (Hone s1 s2 Hw Hs) as [Hn HR]. cbn. rewrite (IH1 HR). split; [done|lia].
  - split; [|done]. intros HR. by apply IH1, (Hk ev s1 s2).
Qed.

(** ** Passes *)

(** Claims of generation [g] are over. *)
Definition claimed_past (id : string) (g : Z) (s : sys) : Prop :=
  forall j, sync_jobs (sys_db s) !! id = Some j -> g <= run_generation j.

(** The pass [g] is over: superseded, or its job left the active statuses. *)
Definition pass_over (id : string) (g : Z) (s : sys) : Prop :=
  forall j, sync_jobs (sys_db s) !! id = Some j ->
  g < run_generation j \/ (g = run_generation j /\ inactive j).

Lemma claimed_past_step id g ev s s' :
  sys_step ev s s' -> claimed_past id g s -> claimed_past id g s'.
Proof.
  intros Hs HR j' Hj'. destruct (sys_step_evolve _ _ _ Hs id j' Hj') as (j & Hj & He).
  specialize (HR j Hj). destruct He as [(_ & -> & _)|(_ & -> & _)]; lia.
Qed.

Lemma pass_over_step id g ev s s' : sys_step ev s s' -> pass_over id g s -> pass_over id g s'.
Proof.
  intros Hs HR j' Hj'. destruct (sys_step_evolve _ _ _ Hs id j' Hj') as (j & Hj & He).
  specialize (HR j Hj). destruct He as [(_ & -> & _)|(_ & -> & Hq)]; [lia|].
  destruct HR as [|[-> Hi]]; [by left|right]. split; [done|]. by apply Hq.
Qed.

Lemma claim_step id g s s' :
  sys_step (Claimed id g) s s' -> ~ claimed_past id g s /\ claimed_past id g s'.
Proof.
  intros Hs. inversion Hs as [d born ev d' Hj| d born ev d' Ht | | | |]; subst.
  2: by destruct (task_step_no_claim _ _ _ Ht id g).
  inversion Hj as [? ? now ? H| | | | | | | | | | | | | | | | | | |]; subst.
  unfold ClaimSyncJobPass in H.
  match type of H with context [update_job id ?p ?f d] =>
    destruct (update_job_spec id p f d) as [(j & Hj' & Hp & E)|E]; rewrite E in H end; [|done].
  cbn in H. rewrite lookup_insert_eq in H. cbn in H. injection H as <- <-. split.
  - intros HR. specialize (HR j Hj'). lia.
  - intros j'. cbn. rewrite lookup_insert_eq. intros [= <-]. cbn. lia.
Qed.

Lemma finish_job d id g d' :
  job_step d (Finished id g) d' ->
  exists j j', sync_jobs d !! id = Some j /\ run_generation j = g
    /\ status_in active (jr_status j) = true
    /\ sync_jobs d' !! id = Some j' /\ run_generation j' = g /\ inactive j'.
Proof.
  inversion 1 as [|pred ? ? s err st ups dels now ? Hpred H0| ? ? err now ? H0 | | | | | | | | | | | | | | | | |]; subst.
  - unfold finalizeSyncJobPassWithStates in H0.
    match type of H0 with context [update_job id ?p ?f d] =>
      destruct (update_job_spec id p f d) as [(j & Hj' & Hp & E)|E]; rewrite E in H0 end; [|done].
    cbn in H0. injection H0 as <-. apply andb_true_iff in Hp as [Hg Hst].
    exists j. eexists. cbn. rewrite lookup_insert_eq. split_and!; try done; [lia| |cbn; lia].
    destruct Hpred as [-> | ->]; destruct (jr_status j); done.
  - unfold FailSyncJobPass in H0.
    match type of H0 with update_job id ?p ?f d = _ =>
      destruct (update_job_spec id p f d) as [(j & Hj' & Hp & E)|E]; rewrite E in H0 end; [|done].
    injection H0 as <-. apply andb_true_iff in Hp as [Hg Hst].
    exists j. eexists. cbn. rewrite lookup_insert_eq. split_and!; try done; [lia|cbn; lia].
Qed.

Lemma finish_step id g s s' :
  sys_step (Finished id g) s s' -> ~ pass_over id g s /\ pass_over id g s'.
Proof.
  intros Hs. inversion Hs as [d born ev d' Hj| d born ev d' Ht | | | |]; subst; [|by inversion Ht].
  apply finish_job in Hj as (j & j' & Hj & Hg & Ha & Hj' & Hg' & Hi). split.
  - intros HR. destruct (HR j Hj) as [?|[_ Hi']]; [lia|]. unfold inactive in Hi'. congruence.
  - intros j''. cbn. rewrite Hj'. intros [= <-]. right. auto.
Qed.

(** A pass generation is claimed at most once, whatever the interleaving of
    API processes, schedulers and workers, and a claim makes every lower
    generation unclaimable. *)
Theorem claim_exclusive es s s' id g :
  wf_sys s -> run es s s' ->
  (occurrences (Claimed id g) es <= 1)%nat.
Proof.
  intros Hw Hr. eapply (at_most_once (Claimed id g) (claimed_past id g)); [| |done|done].
  - intros ev s1 s2 _. apply claimed_past_step.
  - intros s1 s2 _. apply claim_step.
Qed.

(** C12: a pass ends at most once: of all the finalizations and failures of one
    generation in a run, at most one takes effect. *)
Theorem finish_exclusive es s s' id g :
  wf_sys s -> run es s s' ->
  (occurrences (Finished id g) es <= 1)%nat.
Proof.
  intros Hw Hr. eapply (at_most_once (Finished id g) (pass_over id g)); [| |done|done].
  - intros ev s1 s2 _. apply pass_over_step.
  - intros s1 s2 _. apply finish_step.
Qed.

(** Until the next claim, the published result of a job that is not active
    stays as it is: no late worker, verifier, coordinator or scheduler changes
    its counters, its last run status or its generation. *)
Theorem inactive_result_frozen es s s' id j :
  run es s s' -> (forall g, Claimed id g ∉ es) ->
  sync_jobs (sys_db s) !! id = Some j -> inactive j ->
  forall j', sync_jobs (sys_db s') !! id = Some j' ->
  jr_counters j' = jr_counters j /\ last_run_status j' = last_run_status j
  /\ run_generation j' = run_generation j /\ inactive j'.
Proof.
  intros Hr Hc Hj Hi.
  assert (forall j', sync_jobs (sys_db s') !! id = Some j' -> quiet j j') as H.
  { revert j Hj Hi. induction Hr as [s|ev es s1 s2 s3 Hs Hr IH]; intros j Hj Hi j' Hj'.
    { rewrite Hj in Hj'. injection Hj' as <-. apply quiet_refl. }
    destruct (sync_jobs (sys_db s2) !! id) as [j2|] eqn:E2.
    - destruct (sys_step_evolve _ _ _ Hs id j2 E2) as (j0 & Hj0 & He).
      rewrite Hj in Hj0. injection Hj0 as <-.
      destruct He as [(-> & _)|[_ Hq]]; [by destruct (Hc (run_generation j + 1)); left|].
      eapply quiet_trans; [done|]. eapply IH; [|done|by apply Hq|done].
      intros g Hg. destruct (Hc g). by right.
    - exfalso. clear IH Hc Hi Hj Hs. revert E2 Hj'.
      induction Hr as [s|ev' es' s4 s5 s6 Hs' Hr' IH']; intros E2 Hj'; [congruence|].
      apply IH'; [|done]. destruct (sync_jobs (sys_db s5) !! id) as [j5|] eqn:E5; [|done].
      destruct (sys_step_evolve _ _ _ Hs' id j5 E5) as (? & ? & _). congruence. }
  intros j' Hj'. destruct (H j' Hj') as [Hg Hq]. destruct (Hq Hi) as (? & ? & ?). auto.
Qed.

(** ** The delta baseline *)

Lemma update_job_state id p f d : sync_state (update_job id p f d).2 = sync_state d.
Proof. by destruct (update_job_spec id p f d) as [(t & _ & _ & ->)| ->]. Qed.

Lemma update_task_state id p f d : sync_state (update_task id p f d).2 = sync_state d.
Proof. by destruct (update_task_spec id p f d) as [(t & _ & _ & ->)| ->]. Qed.

Ltac state_only :=
  repeat match goal with
  | |- context [update_job ?id ?p ?f ?d] =>
      pose proof (update_job_state id p f d);
      destruct (update_job id p f d) as [[] ?]; cbn in *
  | |- context [update_task ?id ?p ?f ?d] =>
      pose proof (update_task_state id p f d);
      destruct (update_task id p f d) as [[] ?]; cbn in *
  | H : context [update_job ?id ?p ?f ?d] |- _ =>
      lazymatch type of H with sync_state _ = _ => fail | _ => idtac end;
      pose proof (update_job_state id p f d);
      destruct (update_job id p f d) as [[] ?]; cbn in *
  | H : context [update_task ?id ?p ?f ?d] |- _ =>
      lazymatch type of H with sync_state _ = _ => fail | _ => idtac end;
      pose proof (update_task_state id p f d);
      destruct (update_task id p f d) as [[] ?]; cbn in *
  | |- context [match ?x with _ => _ end] => destruct x; cbn in *
  | H : context [match ?x with _ => _ end] |- _ => destruct x; cbn in *
  end; simplify_eq; try congruence; try done.

Lemma job_step_state d ev d' :
  job_step d ev d' -> (forall id g, ev <> Finished id g) -> sync_state d' = sync_state d.
Proof.
  intros Hs Hn. destruct Hs; try (by destruct (Hn id g));
    unfold ClaimSyncJobPass, UpdateSyncJobStatus, UpdateSyncJobStatusForGeneration,
    PauseSyncJobAndDeactivateSchedules,
    ResumeSyncJobAndReactivateSchedules, ResumeSyncJob, TransitionSyncJobToRunning,
    TransitionSyncJobToVerifying, AbortSyncJobVerification, ReleaseUnstartedSyncPass,
    transition, RecoverConnectionLostSyncJob, UpdateSyncJobTotals,
    AddSyncJobLiveBytesForGeneration, IncrementSyncJobProgressForGeneration,
    ReconcileSyncJobProgress, recoverOrphanedSyncJobs, ClaimSyncJobVerification,
    RenewSyncJobVerificationLease, ReleaseSyncJobVerificationLease in *; try done; state_only.
Qed.

Lemma task_step_state d ev d' : task_step d ev d' -> sync_state d' = sync_state d.
Proof.
  destruct 1; unfold UpdateClaimedSyncTaskStatus, TransitionClaimedTask,
    HeartbeatSyncTaskClaim, MarkSyncTaskChecksumMismatchWhileVerifying in *; try done.
  - by destruct (dequeue_spec _ _ _ _ _ _ H) as (t & j & _ & _ & _ & _ & _ & _ & _ & _ & ->).
  - unfold DequeueSQL in H. state_only.
  - state_only.
  - unfold UpdateSyncTaskStatusAndIncrementProgress in *. state_only.
  - state_only.
  - state_only.
  - unfold MarkSyncTaskChecksumVerifiedWhileVerifying. state_only.
  - state_only.
Qed.

(** The delta baseline only changes together with the end of a pass: a step
    that changes it finalizes one generation, and in the same commit the job
    leaves the active statuses of exactly that generation. *)
Theorem baseline_changes_with_finish ev s s' :
  sys_step ev s s' -> sync_state (sys_db s') <> sync_state (sys_db s) ->
  exists id g j j', ev = Finished id g
    /\ sync_jobs (sys_db s) !! id = Some j /\ run_generation j = g
    /\ status_in active (jr_status j) = true
    /\ sync_jobs (sys_db s') !! id = Some j' /\ run_generation j' = g /\ inactive j'.
Proof.
  intros Hs Hn. destruct Hs; cbn in *.
  - destruct ev as [id g|id g|t e|t e|].
    2: { destruct (finish_job _ _ _ _ H) as (j & j' & Hx). exists id, g, j, j'. by split. }
    all: destruct Hn; apply (job_step_state _ _ _ H); done.
  - destruct Hn. by eapply task_step_state.
  - destruct Hn. by rewrite (refused_same _ _ H).
  - destruct Hn. unfold BulkCreateSyncTasks. by case_match.
  - done.
  - done.
Qed.

(** ** Task claims *)

(** The claim epochs up to [e] of the task are spent. *)
Definition epoch_spent (id : string) (e : Z) (s : sys) : Prop :=
  id ∈ sys_born s /\ forall r, tasks (sys_db s) !! id = Some r -> e <= claim_epoch r.

(** The claim [e] of the task is over. *)
Definition claim_over (id : string) (e : Z) (s : sys) : Prop :=
  id ∈ sys_born s /\ forall r, tasks (sys_db s) !! id = Some r ->
  e < claim_epoch r \/ (e = claim_epoch r /\ unclaimed r).

Lemma epoch_spent_step id e ev s s' :
  wf_sys s -> sys_step ev s s' -> epoch_spent id e s -> epoch_spent id e s'.
Proof.
  intros Hw Hs [Hb HR]. destruct (sys_step_born _ _ _ Hs Hw) as (_ & Hsub & Hev).
  split; [by apply Hsub|]. intros r' Hr'. destruct (Hev id r' Hr' Hb) as (r & Hr & He).
  specialize (HR r Hr). destruct He as [(_ & -> & _)|[-> _]]; lia.
Qed.

Lemma claim_over_step id e ev s s' :
  wf_sys s -> sys_step ev s s' -> claim_over id e s -> claim_over id e s'.
Proof.
  intros Hw Hs [Hb HR]. destruct (sys_step_born _ _ _ Hs Hw) as (_ & Hsub & Hev).
  split; [by apply Hsub|]. intros r' Hr'. destruct (Hev id r' Hr' Hb) as (r & Hr & He).
  specialize (HR r Hr). destruct He as [(_ & -> & _)|[-> Hq]]; [lia|].
  destruct HR as [|[-> Hu]]; [by left|right; auto].
Qed.

Lemma dequeue_step id e s s' :
  wf_sys s -> sys_step (Dequeued id e) s s' -> ~ epoch_spent id e s /\ epoch_spent id e s'.
Proof.
  intros Hw Hs. inversion Hs as [d born ev d' Hj|d born ev d' Ht| | | |]; subst; [by inversion Hj|].
  inversion Ht as [w pick now p ? H| | | | | | | | | | |]; subst.
  destruct (dequeue_spec _ _ _ _ _ _ H) as (t & j & _ & Ht' & _ & _ & _ & _ & _ & Hp & ->).
  destruct (skip_quiet now d _ _ Ht') as (r & Hr & Eq & _). rewrite Hp. cbn.
  unfold epoch_spent. cbn. split.
  - intros [_ HR]. specialize (HR r Hr). lia.
  - split; [apply Hw, elem_of_dom; by exists r|]. intros r'. rewrite lookup_insert_eq.
    intros [= <-]. cbn. lia.
Qed.

Lemma ack_event d id e d' :
  task_step d (Acked id e) d' ->
  exists r r', tasks d !! id = Some r /\ claim_epoch r = e /\ tr_status r = TRUNNING
    /\ tasks d' = <[id := r']> (tasks d) /\ claim_epoch r' = e /\ unclaimed r'.
Proof.
  assert (forall a r, holds_sync_claim a r = true ->
    claim_epoch r = ack_epoch a /\ tr_status r = TRUNNING) as Hc.
  { intros a r Hp. unfold holds_sync_claim, holds_claim, has_status in Hp.
    repeat (apply andb_true_iff in Hp as [Hp ?]). apply andb_true_iff in H0 as [H0 H1].
    apply bool_decide_eq_true in H0. split; [lia|done]. }
  inversion 1 as [ | |a now ? Hn H0|a b c x f g now ? Hn H0|? ? st now ? Hn H0| | | | | | |]; subst.
  - apply ack_spec in H0 as (r & Hr & Hp & ->). destruct (Hc a r Hp) as [E1 E2].
    exists r. eexists. split_and!; try done.
  - apply ack_count_spec in H0 as (r & Hr & Hp & E). destruct (Hc a r Hp) as [E1 E2].
    exists r. eexists. split_and!; try done.
  - apply ack_spec in H0 as (r & Hr & Hp & ->). unfold holds_claim, has_status in Hp.
    apply andb_true_iff in Hp as [Hp He]. apply bool_decide_eq_true in Hp.
    exists r. eexists. split_and!; try done; cbn; lia.
Qed.

Lemma ack_step id e s s' :
  wf_sys s -> sys_step (Acked id e) s s' -> ~ claim_over id e s /\ claim_over id e s'.
Proof.
  intros Hw Hs. inversion Hs as [d born ev d' Hj|d born ev d' Ht| | | |]; subst; [by inversion Hj|].
  destruct (ack_event _ _ _ _ Ht) as (r & r' & Hr & He & Hst & E & He' & Hu).
  unfold claim_over. cbn. split.
  - intros [_ HR]. destruct (HR r Hr) as [|[_ Hu']]; [lia|done].
  - split; [apply Hw, elem_of_dom; by exists r|]. intros r''. rewrite E, lookup_insert_eq.
    intros [= <-]. right. auto.
Qed.

(** C13: the claim epoch fences workers.  In any run one claim of a task is
    handed out at most once and acknowledged at most once: a worker whose claim
    was recovered, cancelled or superseded cannot write its result over the
    result of the next claim. *)
Theorem task_claim_exclusive es s s' id e :
  wf_sys s -> run es s s' ->
  (occurrences (Dequeued id e) es <= 1)%nat /\ (occurrences (Acked id e) es <= 1)%nat.
Proof.
  intros Hw Hr. split.
  - eapply (at_most_once (Dequeued id e) (epoch_spent id e)); [| |done|done].
    + intros ev s1 s2. apply epoch_spent_step.
    + intros s1 s2. apply dequeue_step.
  - eapply (at_most_once (Acked id e) (claim_over id e)); [| |done|done].
    + intros ev s1 s2. apply claim_over_step.
    + intros s1 s2. apply ack_step.
Qed.

(** ** A run of one pass *)

Definition job_ex : job_row :=
  mkJobRow IDLE 0 0 None None None (mkCounters 0 0 0 0 0 0 0 0 0) 2 0.
Definition db0 : database := mkDb {["j" := job_ex]} ∅ ∅ ∅.

Definition ack_ex (id : string) (s : task_status) (verified : bool) : ack :=
  mkAck id "j" 1 1 s 0 None None None None None verified.

Definition db1 := (ClaimSyncJobPass "j" 10 db0).2.
Definition db2 := (BulkCreateSyncTasks "j" 1 [("t1", None); ("t2", Some "t1")] 11 db1).2.
Definition db3 := (TransitionSyncJobToRunning "j" 1 12 db2).2.
Definition db4 := (DequeueSQL "w1" (Some "t1") 13 db3).2.
Definition db5 :=
  (UpdateSyncTaskStatusAndIncrementProgress (ack_ex "t1" COMPLETED true) 1 1 0 0 0 14 db4).2.
Definition db6 := (DequeueSQL "w2" (Some "t2") 15 db5).2.
Definition db7 :=
  (UpdateSyncTaskStatusAndIncrementProgress (ack_ex "t2" COMPLETED true) 1 1 0 0 7 16 db6).2.
Definition db8 := (FinalizeSyncJobPassWithStates "j" 1 "SUCCESS" None (mkStats 2 2 2 0 0)
  [mkSyncState "j" "source" "/a" 7 None "" "" ""] [] 17 db7).2.

Definition events_ex : list event :=
  [Claimed "j" 1; Silent; Silent; Dequeued "t1" 1; Acked "t1" 1; Dequeued "t2" 1; Acked "t2" 1;
   Finished "j" 1].

Definition born_ex : gset string := list_to_set ["t1"; "t2"] ∪ ∅.

Lemma run_ex : run events_ex (mkSys db0 ∅) (mkSys db8 born_ex).
Proof.
  eapply run_cons; [by apply ss_job, (js_claim db0 "j" 1 10 db1)|].
  eapply run_cons; [apply (ss_create db1 ∅ "j" 1 [("t1", None); ("t2", Some "t1")] 11); set_solver|].
  eapply run_cons; [by apply ss_job, (js_running db2 "j" 1 12)|].
  eapply run_cons; [by apply ss_task, (ts_dequeue db3 "w1" (Some "t1") 13 (mkPayload "t1" "j" 1 1) db4)|].
  eapply run_cons; [by apply ss_task, (ts_ack_count db4 (ack_ex "t1" COMPLETED true) 1 1 0 0 0 14 db5)|].
  eapply run_cons; [by apply ss_task, (ts_dequeue db5 "w2" (Some "t2") 15 (mkPayload "t2" "j" 1 1) db6)|].
  eapply run_cons; [by apply ss_task, (ts_ack_count db6 (ack_ex "t2" COMPLETED true) 1 1 0 0 7 16 db7)|].
  eapply run_cons; [|apply run_nil].
  apply ss_job. by apply (js_finalize db7 finalizeRunningSyncPass "j" 1 "SUCCESS" None
    (mkStats 2 2 2 0 0) [mkSyncState "j" "source" "/a" 7 None "" "" ""] [] 17 db8); [left|].
Qed.

Lemma wf_ex : wf_sys (mkSys db0 ∅).
Proof. unfold wf_sys. cbn. set_solver. Qed.

Lemma claim_exclusive_witness : (occurrences (Claimed "j" 1) events_ex <= 1)%nat.
Proof. exact (claim_exclusive _ _ _ "j" 1 wf_ex run_ex). Defined.

Lemma finish_exclusive_witness : (occurrences (Finished "j" 1) events_ex <= 1)%nat.
Proof. exact (finish_exclusive _ _ _ "j" 1 wf_ex run_ex). Defined.

Lemma task_claim_exclusive_witness :
  (occurrences (Dequeued "t2" 1) events_ex <= 1)%nat /\ (occurrences (Acked "t2" 1) events_ex <= 1)%nat.
Proof. exact (task_claim_exclusive _ _ _ "t2" 1 wf_ex run_ex). Defined.

(** A step after the end of the pass leaves its result alone. *)
Lemma inactive_result_frozen_witness :
  jr_counters <$> sync_jobs (UpdateSyncJobStatus "j" JFAILED None 99 db8) !! "j"
  = jr_counters <$> sync_jobs db8 !! "j".
Proof.
  destruct (sync_jobs db8 !! "j") as [j|] eqn:Hj; [|vm_compute in Hj; discriminate Hj].
  destruct (sync_jobs (UpdateSyncJobStatus "j" JFAILED None 99 db8) !! "j") as [j'|] eqn:Hj';
    [|vm_compute in Hj'; discriminate Hj'].
  cbn. f_equal.
  apply (inactive_result_frozen [Silent] (mkSys db8 born_ex)
           (mkSys (UpdateSyncJobStatus "j" JFAILED None 99 db8) born_ex) "j" j); [| |done| |done].
  - eapply run_cons; [apply ss_job, js_status; by left|apply run_nil].
  - intros g Hg. by apply list_elem_of_singleton in Hg.
  - vm_compute in Hj. injection Hj as <-. reflexivity.
Defined.

Lemma baseline_changes_with_finish_witness :
  exists id g j j', Finished "j" 1 = Finished id g
    /\ sync_jobs db7 !! id = Some j /\ run_generation j = g
    /\ status_in active (jr_status j) = true
    /\ sync_jobs db8 !! id = Some j' /\ run_generation j' = g /\ inactive j'.
Proof.
  apply (baseline_changes_with_finish (Finished "j" 1) (mkSys db7 born_ex) (mkSys db8 born_ex)).
  - apply ss_job. by apply (js_finalize db7 finalizeRunningSyncPass "j" 1 "SUCCESS" None
      (mkStats 2 2 2 0 0) [mkSyncState "j" "source" "/a" 7 None "" "" ""] [] 17 db8); [left|].
  - intros E. apply (f_equal (fun m : state_table => size m)) in E. vm_compute in E. discriminate E.
Defined.

Lemma dequeue_respects_job_witness :
  exists j t, sync_jobs db5 !! "j" = Some j /\ jr_status j = RUNNING /\ 1 = run_generation j
    /\ running_of_pass "j" (run_generation j) (tasks db6) <= threads j
    /\ tasks db6 = <["t2" := t]> (skip_dependents 15 (tasks db5))
    /\ tr_status t = TRUNNING /\ claim_epoch t = 1 /\ worker_hash t = Some "w2".
Proof.
  apply (dequeue_respects_job "w2" (Some "t2") 15 db5 (mkPayload "t2" "j" 1 1) db6).
  vm_compute. reflexivity.
Defined.

Lemma dequeue_respects_prerequisite_witness :
  exists r, tasks db5 !! "t1" = Some r /\ tr_status r = COMPLETED.
Proof.
  destruct (tasks db5 !! "t2") as [t|] eqn:Et; [|vm_compute in Et; discriminate Et].
  pose proof Et as Et'. vm_compute in Et'. injection Et' as <-.
  destruct (dequeue_respects_prerequisite "w2" (Some "t2") 15 db5 "t2" _ "t1" Et eq_refl eq_refl)
    as [H _].
  apply (H (mkPayload "t2" "j" 1 1) db6); [vm_compute; reflexivity| |reflexivity].
  eexists. split; vm_compute; reflexivity.
Defined.

(** The job row is an hour old, the heartbeat nine minutes. *)
Lemma recovery_spares_heartbeat_witness :
  exists j, sync_jobs (recoverOrphanedSyncJobs 4140
    (HeartbeatSyncTaskClaim "t1" 1 1 3600 db4).2) !! "j" = Some j /\ jr_status j = RUNNING.
Proof.
  destruct (tasks db4 !! "t1") as [r|] eqn:Er; [|vm_compute in Er; discriminate Er].
  destruct (sync_jobs db4 !! "j") as [j|] eqn:Ej; [|vm_compute in Ej; discriminate Ej].
  assert (tr_sync_job r = "j") as Hr by (vm_compute in Er; injection Er as <-; reflexivity).
  assert (jr_status j = RUNNING) as Hj by (vm_compute in Ej; injection Ej as <-; reflexivity).
  exists j. split; [|done]. rewrite <- Hr in *.
  apply (recovery_spares_heartbeat "t1" 1 1 3600 db4 _ r j 4140); [|done|done|done|unfold minutes; lia].
  vm_compute. reflexivity.
Defined.

(** ** Counters that drift *)

(** The totals of a new pass reset every counter of the previous one except
    [verified_files], which no other statement resets either. *)
Theorem totals_keep_verified id g n b now d d' :
  UpdateSyncJobTotals id g n b now d = (true, d') ->
  exists j j', sync_jobs d !! id = Some j /\ sync_jobs d' !! id = Some j'
    /\ jr_counters j' = mkCounters n b 0 0 0 (verified_files (jr_counters j)) 0 0 0.
Proof.
  unfold UpdateSyncJobTotals. intros H.
  match type of H with update_job id ?p ?f d = _ =>
    destruct (update_job_spec id p f d) as [(j & Hj & _ & E)|E]; rewrite E in H end; [|done].
  injection H as <-. exists j. eexists. cbn. by rewrite lookup_insert_eq.
Qed.

(** The reconciler counts a task that awaits its retry as failed; when the
    retries run out the worker counts it again. *)
Definition db_retry : database :=
  let d := (DequeueSQL "w1" (Some "t1") 13 db3).2 in
  let d := (UpdateClaimedSyncTaskStatus
              (mkAck "t1" "j" 1 1 TFAILED 2 None (Some 20) None None None false) 14 d).2 in
  let d := ReconcileSyncJobProgress "j" 1 15 d in
  let d := requeueFailedTasks 20 d in
  let d := (DequeueSQL "w1" (Some "t1") 21 d).2 in
  (UpdateSyncTaskStatusAndIncrementProgress
     (mkAck "t1" "j" 2 1 TFAILED 3 None None None None None false) 1 0 0 1 0 22 d).2.

Theorem reconcile_counts_retry_twice :
  (failed_files ∘ jr_counters) <$> sync_jobs db_retry !! "j" = Some 2
  /\ count_where (fun t => of_pass "j" 1 t && has_status TFAILED t) (tasks db_retry) = 1.
Proof. split; vm_compute; reflexivity. Qed.
