(* ===== verification/Bytes.v ===== *)
(** * Byte strings

    Bytes as [Byte.byte], slices measured by 64-bit lengths as [Z], and the
    big-endian integers of encoding/binary. *)

From Stdlib Require Export Strings.Byte NArith.
From S2P Require Import Prelude.

Abbreviation bytes := (list byte).

#[export] Instance byte_eq_decision : EqDecision byte := Byte.byte_eq_dec.

Definition zlen {A} (l : list A) : Z := Z.of_nat (length l).

(** [l[:n]] and [l[n:]], cut at the end of [l]. *)
Fixpoint ztake {A} (n : Z) (l : list A) : list A :=
  match l with
  | [] => []
  | x :: l => if n <=? 0 then [] else x :: ztake (n - 1) l
  end.

Fixpoint zdrop {A} (n : Z) (l : list A) : list A :=
  match l with
  | [] => []
  | x :: l' => if n <=? 0 then l else zdrop (n - 1) l'
  end.

Lemma ztake_take {A} n (l : list A) : ztake n l = take (Z.to_nat n) l.
Proof.
  revert n. induction l as [|x l IH]; intros n; [by rewrite take_nil|]. cbn [ztake].
  destruct (n <=? 0) eqn:E; [by replace (Z.to_nat n) with O by lia|].
  rewrite IH. replace (Z.to_nat n) with (S (Z.to_nat (n - 1))) by lia. done.
Qed.

Lemma zdrop_drop {A} n (l : list A) : zdrop n l = drop (Z.to_nat n) l.
Proof.
  revert n. induction l as [|x l IH]; intros n; [by rewrite drop_nil|]. cbn [zdrop].
  destruct (n <=? 0) eqn:E; [by replace (Z.to_nat n) with O by lia|].
  rewrite IH. replace (Z.to_nat n) with (S (Z.to_nat (n - 1))) by lia. done.
Qed.

Lemma ztake_zdrop {A} n (l : list A) : ztake n l ++ zdrop n l = l.
Proof. by rewrite ztake_take, zdrop_drop, take_drop. Qed.

Lemma zlen_nonneg {A} (l : list A) : 0 <= zlen l.
Proof. unfold zlen. lia. Qed.

Lemma zlen_app {A} (l k : list A) : zlen (l ++ k) = zlen l + zlen k.
Proof. unfold zlen. rewrite length_app. lia. Qed.

Lemma zlen_nil_inv {A} (l : list A) : zlen l = 0 -> l = [].
Proof. unfold zlen. destruct l; cbn; [done|lia]. Qed.

Lemma zlen_ztake {A} n (l : list A) : 0 <= n -> zlen (ztake n l) = Z.min n (zlen l).
Proof. intros. unfold zlen. rewrite ztake_take, length_take. lia. Qed.

Lemma zlen_zdrop {A} n (l : list A) : 0 <= n -> zlen (zdrop n l) = Z.max 0 (zlen l - n).
Proof. intros. unfold zlen. rewrite zdrop_drop, length_drop. lia. Qed.

Lemma ztake_app {A} n (l k : list A) : n = zlen l -> ztake n (l ++ k) = l.
Proof. intros ->. unfold zlen. by rewrite ztake_take, Nat2Z.id, take_app_length. Qed.

Lemma zdrop_app {A} n (l k : list A) : n = zlen l -> zdrop n (l ++ k) = k.
Proof. intros ->. unfold zlen. by rewrite zdrop_drop, Nat2Z.id, drop_app_length. Qed.

Lemma zdrop_app_more {A} n (l k : list A) : zlen l <= n -> zdrop n (l ++ k) = zdrop (n - zlen l) k.
Proof.
  intros Hn. unfold zlen in *. rewrite !zdrop_drop, drop_app_ge by lia. f_equal. lia.
Qed.

(** ** [io.ReadFull] *)

Definition read_full (n : Z) (src : bytes) : option (bytes * bytes) :=
  if zlen src <? n then None else Some (ztake n src, zdrop n src).

Lemma read_full_app n (l k : bytes) : n = zlen l -> read_full n (l ++ k) = Some (l, k).
Proof.
  intros Hn. unfold read_full. rewrite zlen_app, ztake_app, zdrop_app by done.
  pose proof (zlen_nonneg k). destruct (zlen l + zlen k <? n) eqn:E; [lia|done].
Qed.

Lemma read_full_some n src l k :
  0 <= n -> read_full n src = Some (l, k) -> src = l ++ k /\ zlen l = n.
Proof.
  intros Hn. unfold read_full. destruct (zlen src <? n) eqn:E; [done|]. intros [= <- <-].
  split; [by rewrite ztake_zdrop|]. rewrite zlen_ztake; lia.
Qed.

(** ** Big-endian integers *)

Definition byte_of (z : Z) : byte :=
  match Byte.of_N (Z.to_N (z mod 256)) with Some b => b | None => x00 end.

Definition z_of (b : byte) : Z := Z.of_N (Byte.to_N b).

(** ** [hex.EncodeToString] *)

Definition hex_lower (n : Z) : ascii :=
  ascii_of_nat (Z.to_nat (if n <? 10 then 48 + n else 87 + n)).

Fixpoint hex_encode (l : bytes) : string :=
  match l with
  | [] => ""
  | b :: l => String (hex_lower (z_of b / 16)) (String (hex_lower (z_of b mod 16)) (hex_encode l))
  end.

Fixpoint be_put (width : nat) (z : Z) : bytes :=
  match width with
  | O => []
  | S w => byte_of (z / 256 ^ Z.of_nat w) :: be_put w z
  end.

Definition be_get (l : bytes) : Z := fold_left (fun acc b => acc * 256 + z_of b) l 0.

Lemma z_of_range b : 0 <= z_of b < 256.
Proof. unfold z_of. pose proof (Byte.to_N_bounded b). lia. Qed.

Lemma z_of_byte_of z : z_of (byte_of z) = z mod 256.
Proof.
  unfold byte_of, z_of. pose proof (Z.mod_pos_bound z 256 ltac:(lia)) as Hb.
  destruct (Byte.of_N (Z.to_N (z mod 256))) as [b|] eqn:E.
  - apply Byte.to_of_N in E. rewrite E. lia.
  - apply Byte.of_N_None_iff in E. lia.
Qed.

Lemma byte_of_z_of b : byte_of (z_of b) = b.
Proof.
  unfold byte_of, z_of. pose proof (Byte.to_N_bounded b).
  rewrite Z.mod_small by lia. rewrite N2Z.id, Byte.of_to_N. done.
Qed.

Lemma be_put_length w z : length (be_put w z) = w.
Proof. induction w as [|w IH]; [done|]. cbn. by rewrite IH. Qed.

Lemma be_fold_acc l acc : fold_left (fun acc b => acc * 256 + z_of b) l acc
  = acc * 256 ^ zlen l + be_get l.
Proof.
  unfold be_get. revert acc. induction l as [|b l IH]; intros acc; [unfold zlen; cbn; lia|]. cbn [fold_left].
  rewrite IH, (IH (0 * 256 + z_of b)). unfold zlen. cbn [length].
  rewrite Nat2Z.inj_succ, Z.pow_succ_r by lia. ring.
Qed.

Lemma be_get_cons b l : be_get (b :: l) = z_of b * 256 ^ zlen l + be_get l.
Proof. unfold be_get at 1. cbn [fold_left]. by rewrite be_fold_acc. Qed.

Lemma be_get_put w z : be_get (be_put w z) = z mod 256 ^ Z.of_nat w.
Proof.
  induction w as [|w IH]; [cbn; by rewrite Z.mod_1_r|]. cbn [be_put].
  rewrite be_get_cons, IH, z_of_byte_of. unfold zlen. rewrite be_put_length.
  rewrite Nat2Z.inj_succ, Z.pow_succ_r by lia.
  assert (0 < 256 ^ Z.of_nat w) by (apply Z.pow_pos_nonneg; lia).
  rewrite (Z.mul_comm 256), Z.rem_mul_r by lia. ring.
Qed.

Lemma be_get_range l : 0 <= be_get l < 256 ^ zlen l.
Proof.
  induction l as [|b l IH]; [unfold zlen; cbn; lia|]. rewrite be_get_cons.
  pose proof (z_of_range b). unfold zlen in *. cbn [length].
  rewrite Nat2Z.inj_succ, Z.pow_succ_r by lia.
  assert (0 < 256 ^ Z.of_nat (length l)) by (apply Z.pow_pos_nonneg; lia). nia.
Qed.

(** Only the low bytes count. *)
Lemma be_put_low w k z x :
  (w <= k)%nat -> be_put w (x + z * 256 ^ Z.of_nat k) = be_put w x.
Proof.
  induction w as [|w IHw]; intros Hw; [done|]. cbn [be_put]. rewrite IHw by lia. f_equal.
  unfold byte_of.
  replace (Z.of_nat k) with (Z.of_nat w + (1 + (Z.of_nat k - Z.of_nat w - 1))) by lia.
  rewrite !Z.pow_add_r by lia.
  assert (0 < 256 ^ Z.of_nat w) by (apply Z.pow_pos_nonneg; lia).
  replace (z * (256 ^ Z.of_nat w * (256 ^ 1 * 256 ^ (Z.of_nat k - Z.of_nat w - 1))))
    with ((z * 256 ^ (Z.of_nat k - Z.of_nat w - 1)) * 256 * 256 ^ Z.of_nat w) by ring.
  rewrite Z.div_add by lia. by rewrite Z.mod_add by lia.
Qed.

Lemma be_put_get l : be_put (length l) (be_get l) = l.
Proof.
  induction l as [|b l IH]; [done|]. cbn [length be_put]. rewrite be_get_cons.
  pose proof (be_get_range l) as Hr. unfold zlen in *.
  assert (0 < 256 ^ Z.of_nat (length l)) as Hp by (apply Z.pow_pos_nonneg; lia).
  rewrite Z.add_comm. rewrite be_put_low, IH by lia. f_equal.
  by rewrite Z.div_add, (Z.div_small (be_get l)), Z.add_0_l, byte_of_z_of by lia.
Qed.

Lemma be_get_inj l k : length l = length k -> be_get l = be_get k -> l = k.
Proof. intros Hl Hv. by rewrite <- (be_put_get l), <- (be_put_get k), Hl, Hv. Qed.
