(* ===== verification/Utf8.v ===== *)
(** * UTF-8 in Go strings

    What ranging over a string, [[]rune(s)], [string(runes)], [WriteRune] and
    [utf8.RuneCountInString] do: a Go string is any byte sequence, a byte that
    starts no valid encoding is read as one [utf8.RuneError]. *)

From S2P Require Import Prelude HashString Bytes.

(** ** Bytes of a string as numbers *)

Definition code (c : ascii) : Z := Z.of_N (N_of_ascii c).
Definition chr (z : Z) : ascii := ascii_of_N (Z.to_N z).

Lemma code_range c : 0 <= code c < 256.
Proof. unfold code. pose proof (N_ascii_bounded c). lia. Qed.

Lemma chr_code c z : z = code c -> chr z = c.
Proof. intros ->. unfold chr, code. by rewrite N2Z.id, ascii_N_embedding. Qed.

Lemma code_chr z : 0 <= z < 256 -> code (chr z) = z.
Proof. intros Hz. unfold chr, code. rewrite N_ascii_embedding; lia. Qed.

(** ** Decoding *)

Definition RuneError : Z := 65533.

Definition in_range (lo hi z : Z) : bool := (lo <=? z) && (z <=? hi).
Definition cont (b : Z) : bool := in_range 128 191 b.

(** The second bytes a first byte accepts: no overlong form, no surrogate,
    nothing above U+10FFFF. *)
Definition second_ok (b0 b1 : Z) : bool :=
  if b0 =? 224 then in_range 160 191 b1
  else if b0 =? 237 then in_range 128 159 b1
  else if b0 =? 240 then in_range 144 191 b1
  else if b0 =? 244 then in_range 128 143 b1
  else cont b1.

Fixpoint runes (s : string) : list Z :=
  match s with
  | EmptyString => []
  | String c0 s1 =>
      let b0 := code c0 in
      if b0 <? 128 then b0 :: runes s1
      else match s1 with
      | EmptyString => [RuneError]
      | String c1 s2 =>
          let b1 := code c1 in
          if in_range 194 223 b0 && cont b1 then ((b0 - 192) * 64 + (b1 - 128)) :: runes s2
          else match s2 with
          | EmptyString => RuneError :: runes s1
          | String c2 s3 =>
              let b2 := code c2 in
              if in_range 224 239 b0 && second_ok b0 b1 && cont b2
              then ((b0 - 224) * 4096 + (b1 - 128) * 64 + (b2 - 128)) :: runes s3
              else match s3 with
              | EmptyString => RuneError :: runes s1
              | String c3 s4 =>
                  let b3 := code c3 in
                  if in_range 240 244 b0 && second_ok b0 b1 && cont b2 && cont b3
                  then ((b0 - 240) * 262144 + (b1 - 128) * 4096 + (b2 - 128) * 64 + (b3 - 128))
                         :: runes s4
                  else RuneError :: runes s1
              end
          end
      end
  end.

Definition RuneCountInString (s : string) : Z := zlen (runes s).

(** [utf8.RuneStart] *)
Definition RuneStart (c : ascii) : bool := negb (cont (code c)).

(** ** Encoding *)

Definition valid_rune (r : Z) : bool := in_range 0 55295 r || in_range 57344 1114111 r.

Definition encode_valid (r : Z) : string :=
  if r <? 128 then String (chr r) ""
  else if r <? 2048 then String (chr (192 + r / 64)) (String (chr (128 + r mod 64)) "")
  else if r <? 65536
  then String (chr (224 + r / 4096))
         (String (chr (128 + (r / 64) mod 64)) (String (chr (128 + r mod 64)) ""))
  else String (chr (240 + r / 262144))
         (String (chr (128 + (r / 4096) mod 64))
           (String (chr (128 + (r / 64) mod 64)) (String (chr (128 + r mod 64)) ""))).

(** [WriteRune]: what is no code point is written as [RuneError]. *)
Definition encode_rune (r : Z) : string :=
  encode_valid (if valid_rune r then r else RuneError).

(** [string(runes)] *)
Fixpoint encode_runes (rs : list Z) : string :=
  match rs with
  | [] => ""
  | r :: rs => (encode_rune r +:+ encode_runes rs)%string
  end.

(** ** Round trips *)

Ltac euclid := Z.to_euclidean_division_equations; lia.

Lemma in_range_spec lo hi z : in_range lo hi z = true <-> lo <= z <= hi.
Proof. unfold in_range. rewrite andb_true_iff, !Z.leb_le. done. Qed.

Lemma cont_spec b : cont b = true <-> 128 <= b <= 191.
Proof. apply in_range_spec. Qed.

Lemma valid_rune_spec r :
  valid_rune r = true <-> 0 <= r <= 55295 \/ 57344 <= r <= 1114111.
Proof. unfold valid_rune. by rewrite orb_true_iff, !in_range_spec. Qed.

Lemma second_ok_cont b0 b1 : second_ok b0 b1 = true -> 128 <= b1 <= 191.
Proof.
  unfold second_ok, cont. repeat case_match; rewrite in_range_spec; lia.
Qed.

Lemma second_ok_spec b0 b1 :
  second_ok b0 b1 = true <->
  128 <= b1 <= 191 /\ (b0 = 224 -> 160 <= b1) /\ (b0 = 237 -> b1 <= 159)
  /\ (b0 = 240 -> 144 <= b1) /\ (b0 = 244 -> b1 <= 143).
Proof.
  unfold second_ok, cont.
  destruct (b0 =? 224) eqn:E1; [|destruct (b0 =? 237) eqn:E2; [|destruct (b0 =? 240) eqn:E3;
    [|destruct (b0 =? 244) eqn:E4]]]; rewrite in_range_spec; lia.
Qed.

Lemma encode_valid_2 c0 c1 :
  194 <= code c0 <= 223 -> 128 <= code c1 <= 191 ->
  encode_valid ((code c0 - 192) * 64 + (code c1 - 128)) = String c0 (String c1 "").
Proof.
  intros H0 H1. unfold encode_valid.
  destruct (_ <? 128) eqn:E1; [lia|]. destruct (_ <? 2048) eqn:E2; [|lia].
  rewrite (chr_code c0), (chr_code c1) by euclid. done.
Qed.

Lemma encode_valid_3 c0 c1 c2 :
  224 <= code c0 <= 239 -> second_ok (code c0) (code c1) = true -> 128 <= code c2 <= 191 ->
  encode_valid ((code c0 - 224) * 4096 + (code c1 - 128) * 64 + (code c2 - 128))
  = String c0 (String c1 (String c2 "")).
Proof.
  intros H0 H1 H2. apply second_ok_spec in H1. unfold encode_valid.
  destruct (_ <? 128) eqn:E1; [lia|]. destruct (_ <? 2048) eqn:E2; [lia|].
  destruct (_ <? 65536) eqn:E3; [|lia].
  rewrite (chr_code c0), (chr_code c1), (chr_code c2) by euclid. done.
Qed.

Lemma encode_valid_4 c0 c1 c2 c3 :
  240 <= code c0 <= 244 -> second_ok (code c0) (code c1) = true ->
  128 <= code c2 <= 191 -> 128 <= code c3 <= 191 ->
  encode_valid ((code c0 - 240) * 262144 + (code c1 - 128) * 4096 + (code c2 - 128) * 64
                + (code c3 - 128)) = String c0 (String c1 (String c2 (String c3 ""))).
Proof.
  intros H0 H1 H2 H3. apply second_ok_spec in H1. unfold encode_valid.
  destruct (_ <? 128) eqn:E1; [lia|]. destruct (_ <? 2048) eqn:E2; [lia|].
  destruct (_ <? 65536) eqn:E3; [lia|].
  rewrite (chr_code c0), (chr_code c1), (chr_code c2), (chr_code c3) by euclid. done.
Qed.

(** What one step of the decoder takes: a whole encoding, or one byte that is
    no ASCII character and counts as [RuneError]. *)
Definition rune_chunk (r : Z) (chunk : string) : Prop :=
  (valid_rune r = true /\ chunk = encode_valid r)
  \/ (r = RuneError /\ exists c, 128 <= code c /\ chunk = String c "").

Lemma runes_step s :
  s <> "" -> exists r chunk rest, s = (chunk +:+ rest)%string /\ chunk <> ""
    /\ rune_chunk r chunk /\ runes s = r :: runes rest.
Proof.
  destruct s as [|c0 s1]; [done|]. intros _. cbn [runes].
  pose proof (code_range c0).
  assert (forall l, l = RuneError :: runes s1 -> 128 <= code c0 ->
    exists r chunk rest, String c0 s1 = (chunk +:+ rest)%string /\ chunk <> ""
      /\ rune_chunk r chunk /\ l = r :: runes rest) as Herr.
  { intros l -> Hc. exists RuneError, (String c0 ""), s1. split_and!; try done.
    right. split; [done|]. by exists c0. }
  destruct (code c0 <? 128) eqn:E0.
  { exists (code c0), (String c0 ""), s1. split_and!; try done. left.
    split; [apply valid_rune_spec; lia|]. unfold encode_valid. rewrite E0.
    by rewrite (chr_code c0). }
  destruct s1 as [|c1 s2]; [apply Herr; [done|lia]|].
  destruct (in_range 194 223 (code c0) && cont (code c1)) eqn:E2.
  { apply andb_true_iff in E2 as [E2 E2']. apply in_range_spec in E2. apply cont_spec in E2'.
    exists ((code c0 - 192) * 64 + (code c1 - 128)), (String c0 (String c1 "")), s2.
    split_and!; try done. left. split; [apply valid_rune_spec; lia|]. by rewrite encode_valid_2. }
  destruct s2 as [|c2 s3]; [apply Herr; [done|lia]|].
  destruct (in_range 224 239 (code c0) && second_ok (code c0) (code c1) && cont (code c2)) eqn:E3.
  { apply andb_true_iff in E3 as [[E3 Hs]%andb_true_iff Hc]. apply in_range_spec in E3.
    apply cont_spec in Hc. eexists _, (String c0 (String c1 (String c2 ""))), s3.
    split_and!; [done|done| |done]. left. rewrite encode_valid_3 by done. split; [|done].
    apply second_ok_spec in Hs. apply valid_rune_spec. lia. }
  destruct s3 as [|c3 s4]; [apply Herr; [done|lia]|].
  destruct (in_range 240 244 (code c0) && second_ok (code c0) (code c1) && cont (code c2)
            && cont (code c3)) eqn:E4; [|apply Herr; [done|lia]].
  apply andb_true_iff in E4 as [[[E4 Hs]%andb_true_iff Hc]%andb_true_iff Hc'].
  apply in_range_spec in E4. apply cont_spec in Hc, Hc'.
  eexists _, (String c0 (String c1 (String c2 (String c3 "")))), s4.
  split_and!; [done|done| |done]. left. rewrite encode_valid_4 by done. split; [|done].
  apply second_ok_spec in Hs. apply valid_rune_spec. lia.
Qed.

(** Induction along the decoder. *)
Lemma runes_ind (P : string -> Prop) :
  P "" ->
  (forall r chunk rest, chunk <> "" -> rune_chunk r chunk ->
     runes (chunk +:+ rest)%string = r :: runes rest -> P rest -> P (chunk +:+ rest)%string) ->
  forall s, P s.
Proof.
  intros H0 H1 s. remember (String.length s) as n eqn:Hn. revert s Hn.
  induction n as [n IH] using lt_wf_ind. intros s Hn.
  destruct (decide (s = "")) as [->|Hne]; [done|].
  destruct (runes_step s Hne) as (r & chunk & rest & -> & Hc & Hr & E).
  apply (H1 r); [done|done|done|]. eapply IH; [|reflexivity].
  subst n. rewrite str_length_app. destruct chunk; [done|]. cbn. lia.
Qed.

Lemma runes_valid s : Forall (fun r => valid_rune r = true) (runes s).
Proof.
  induction s as [|r chunk rest Hc Hr E IH] using runes_ind; [constructor|]. rewrite E.
  constructor; [|done]. destruct Hr as [[Hv _]|[-> _]]; done.
Qed.

Lemma encode_rune_valid r : valid_rune r = true -> encode_rune r = encode_valid r.
Proof. unfold encode_rune. by intros ->. Qed.

(** An encoding is read back, whatever follows. *)
Lemma runes_encode_app r s :
  valid_rune r = true -> runes (encode_valid r +:+ s)%string = r :: runes s.
Proof.
  intros Hv%valid_rune_spec. unfold encode_valid.
  destruct (r <? 128) eqn:E1.
  { rewrite str_app_cons, str_app_nil_l. cbn [runes]. rewrite code_chr, E1 by lia. done. }
  destruct (r <? 2048) eqn:E2.
  { rewrite !str_app_cons, str_app_nil_l. cbn [runes]. rewrite !code_chr by euclid.
    rewrite (proj2 (Z.ltb_ge _ _)) by euclid.
    rewrite (proj2 (andb_true_iff _ _)); [f_equal; euclid|].
    split; [apply in_range_spec|apply cont_spec]; euclid. }
  destruct (r <? 65536) eqn:E3.
  { rewrite !str_app_cons, str_app_nil_l. cbn [runes]. rewrite !code_chr by euclid.
    rewrite (proj2 (Z.ltb_ge _ _)) by euclid.
    rewrite (andb_false_intro1 (in_range 194 223 _))
      by (apply not_true_iff_false; rewrite in_range_spec; euclid).
    rewrite (proj2 (andb_true_iff _ _)); [f_equal; euclid|]. rewrite andb_true_iff.
    split_and!; [apply in_range_spec; euclid|apply second_ok_spec|apply cont_spec; euclid].
    split_and!; euclid. }
  rewrite !str_app_cons, str_app_nil_l. cbn [runes]. rewrite !code_chr by euclid.
  rewrite (proj2 (Z.ltb_ge _ _)) by euclid.
  rewrite (andb_false_intro1 (in_range 194 223 _))
    by (apply not_true_iff_false; rewrite in_range_spec; euclid).
  rewrite (andb_false_intro1 (in_range 224 239 _ && _))
    by (apply andb_false_intro1, not_true_iff_false; rewrite in_range_spec; euclid).
  rewrite (proj2 (andb_true_iff _ _)); [f_equal; euclid|]. rewrite !andb_true_iff.
  split_and!; [apply in_range_spec; euclid|apply second_ok_spec|apply cont_spec; euclid..].
  split_and!; euclid.
Qed.

Lemma runes_encode_runes rs s :
  Forall (fun r => valid_rune r = true) rs ->
  runes (encode_runes rs +:+ s)%string = rs ++ runes s.
Proof.
  induction 1 as [|r rs Hr _ IH]; [done|]. cbn [encode_runes].
  rewrite <- str_app_assoc, encode_rune_valid, runes_encode_app, IH by done. done.
Qed.

Lemma encode_runes_app rs rs' :
  encode_runes (rs ++ rs') = (encode_runes rs +:+ encode_runes rs')%string.
Proof.
  induction rs as [|r rs IH]; [done|]. cbn [encode_runes app]. by rewrite IH, str_app_assoc.
Qed.

(** ** Valid strings *)

(** The string is valid UTF-8. *)
Definition valid_utf8 (s : string) : Prop := encode_runes (runes s) = s.

Lemma valid_encoded rs :
  Forall (fun r => valid_rune r = true) rs -> valid_utf8 (encode_runes rs)
    /\ runes (encode_runes rs) = rs.
Proof.
  intros H. pose proof (runes_encode_runes rs "" H) as E.
  rewrite str_app_nil_r, app_nil_r in E. split; [|done]. unfold valid_utf8. by rewrite E.
Qed.

Lemma valid_app_runes s t : valid_utf8 s -> runes (s +:+ t)%string = runes s ++ runes t.
Proof. intros <-. rewrite runes_encode_runes; [|apply runes_valid].
  by rewrite (proj2 (valid_encoded _ (runes_valid s))). Qed.

Lemma valid_app s t : valid_utf8 s -> valid_utf8 t -> valid_utf8 (s +:+ t)%string.
Proof.
  intros Hs Ht. unfold valid_utf8. rewrite valid_app_runes, encode_runes_app by done.
  by rewrite Hs, Ht.
Qed.

(** ** ASCII characters are their bytes *)

Lemma str_count_cons_other c c' s : c' <> c -> str_count c (String c' s) = str_count c s.
Proof. intros H. cbn. by rewrite (proj2 (Ascii.eqb_neq _ _)). Qed.

Lemma chunk_ascii r chunk c :
  rune_chunk r chunk -> code c < 128 -> (str_count c chunk = O <-> r <> code c).
Proof.
  intros [[Hv ->]|(-> & c' & Hc' & ->)] Hc.
  - apply valid_rune_spec in Hv. unfold encode_valid. destruct (r <? 128) eqn:E1.
    + cbn. destruct (Ascii.eqb (chr r) c) eqn:E.
      * apply Ascii.eqb_eq in E as <-. rewrite code_chr by lia. lia.
      * apply Ascii.eqb_neq in E. split; [|done]. intros _ ->. apply E. by apply chr_code.
    + assert (forall z t, 128 <= z < 256 -> str_count c (String (chr z) t) = str_count c t) as Hn.
      { intros z t Hz. apply str_count_cons_other. intros <-. rewrite code_chr in Hc by lia. lia. }
      destruct (r <? 2048) eqn:E2; [|destruct (r <? 65536) eqn:E3];
        rewrite !Hn by euclid; cbn; lia.
  - rewrite str_count_cons_other by (intros ->; lia). cbn. unfold RuneError. lia.
Qed.

Lemma runes_ascii c s : code c < 128 -> (str_count c s = O <-> code c ∉ runes s).
Proof.
  intros Hc. induction s as [|r chunk rest Hne Hr E IH] using runes_ind.
  { cbn. split; [|done]. intros _. by apply not_elem_of_nil. }
  rewrite E, str_count_app, not_elem_of_cons, <- IH.
  pose proof (chunk_ascii _ _ _ Hr Hc). destruct (str_count c chunk); intuition lia.
Qed.

(** ** Splitting at an ASCII character *)

Lemma str_app_split s t u v :
  (s +:+ t = u +:+ v)%string ->
  exists w, (u = (s +:+ w)%string /\ t = (w +:+ v)%string)
         \/ (s = (u +:+ w)%string /\ v = (w +:+ t)%string).
Proof.
  revert u. induction s as [|c s IH]; intros u H.
  - exists u. by left.
  - destruct u as [|c' u].
    + exists (String c s). by right.
    + rewrite !str_app_cons in H. injection H as -> H.
      destruct (IH u H) as (w & [[-> ->]|[-> ->]]); exists w; [left|right]; done.
Qed.

Lemma str_app_inj_l s t u : (s +:+ t = s +:+ u)%string -> t = u.
Proof. induction s as [|c s IH]; [done|]. rewrite !str_app_cons. intros [= ?]. auto. Qed.

Lemma runes_lone c s : 128 <= code c < 194 -> runes (String c s) = RuneError :: runes s.
Proof.
  intros Hc. cbn [runes]. rewrite (proj2 (Z.ltb_ge _ _)) by lia.
  assert (forall lo hi, 194 <= lo -> in_range lo hi (code c) = false) as Hf
    by (intros lo hi Hlo; apply not_true_iff_false; rewrite in_range_spec; lia).
  do 3 (destruct s as [|? s]; [done|]; cbv beta iota; rewrite Hf by lia; cbn [andb]). done.
Qed.

(** A byte read as an error starts no encoding. *)
Lemma error_no_encoding c s r t :
  valid_rune r = true -> String c s = (encode_valid r +:+ t)%string -> 128 <= code c ->
  runes (String c s) <> RuneError :: runes s.
Proof.
  intros Hv E Hc Hr. rewrite E, runes_encode_app in Hr by done. injection Hr as -> Hr.
  change (encode_valid RuneError)
    with (String (chr 239) (String (chr 191) (String (chr 189) ""))) in E.
  rewrite !str_app_cons, str_app_nil_l in E. injection E as -> ->.
  rewrite (runes_lone (chr 191)), (runes_lone (chr 189)) in Hr by (rewrite code_chr; lia).
  apply (f_equal (@length Z)) in Hr. cbn in Hr. lia.
Qed.

Lemma chunk_no_ascii r c u v :
  valid_rune r = true -> encode_valid r = (u +:+ String c v)%string -> u <> "" -> 128 <= code c.
Proof.
  intros Hv E Hu. destruct (Z.lt_ge_cases (code c) 128) as [Hc|]; [|done].
  assert (str_count c (encode_valid r) <> O) as Hn.
  { rewrite E, str_count_app. cbn. rewrite Ascii.eqb_refl. lia. }
  pose proof (chunk_ascii r (encode_valid r) c (or_introl (conj Hv eq_refl)) Hc) as Ha.
  destruct (decide (r = code c)) as [->|Hne]; [|by apply Ha in Hne].
  unfold encode_valid in E. rewrite (proj2 (Z.ltb_lt _ _)) in E by done.
  destruct u as [|a u]; [done|]. rewrite str_app_cons in E. injection E as _ E. by destruct u.
Qed.

Lemma runes_app_ascii a c b :
  code c < 128 -> runes (a +:+ String c b)%string = runes a ++ code c :: runes b.
Proof.
  intros Hc. induction a as [|r chunk rest Hne Hr E IH] using runes_ind.
  { rewrite str_app_nil_l. cbn [runes app]. by rewrite (proj2 (Z.ltb_lt _ _)). }
  rewrite E, <- str_app_assoc. cbn [app]. rewrite <- IH.
  destruct Hr as [[Hv ->]|(-> & c' & Hc' & ->)]; [by rewrite runes_encode_app|].
  rewrite !str_app_cons, !str_app_nil_l in *. clear IH.
  destruct (runes_step (String c' (rest +:+ String c b)%string)) as
    (r2 & chunk2 & rest2 & E2 & Hne2 & [[Hv2 ->]|(-> & c2 & Hc2 & ->)] & Er); [done| |].
  - exfalso. change (String c' (rest +:+ String c b)%string)
      with (String c' rest +:+ String c b)%string in E2.
    destruct (str_app_split _ _ _ _ E2) as (w & [[H1 H2]|[H1 H2]]).
    + destruct w as [|cw w].
      * rewrite str_app_nil_r in H1. eapply (error_no_encoding c' rest r2 ""); try done.
        by rewrite str_app_nil_r.
      * rewrite str_app_cons in H2. injection H2 as <- H2.
        pose proof (chunk_no_ascii r2 c (String c' rest) w Hv2 H1 ltac:(done)). lia.
    + eapply (error_no_encoding c' rest r2 w); done.
  - rewrite str_app_cons, str_app_nil_l in E2. injection E2 as _ <-. by rewrite Er.
Qed.

Lemma encode_runes_length s : (String.length s <= String.length (encode_runes (runes s)))%nat.
Proof.
  induction s as [|r chunk rest Hne Hr E IH] using runes_ind; [done|].
  rewrite E, str_length_app. cbn [encode_runes]. rewrite str_length_app.
  destruct Hr as [[Hv ->]|(-> & c & _ & ->)]; [rewrite encode_rune_valid by done; lia|].
  change (String.length (encode_rune RuneError)) with 3%nat. cbn. lia.
Qed.

Lemma str_app_inj_len s t u v :
  String.length s = String.length u -> (s +:+ t = u +:+ v)%string -> s = u /\ t = v.
Proof.
  revert u. induction s as [|c s IH]; intros [|c' u] Hl H; try done.
  rewrite !str_app_cons in H. injection H as -> H. injection Hl as Hl.
  by destruct (IH u Hl H) as [-> ->].
Qed.

Lemma valid_split a c b :
  code c < 128 -> valid_utf8 (a +:+ String c b)%string ->
  valid_utf8 a /\ valid_utf8 (String c b).
Proof.
  intros Hc Hv. unfold valid_utf8 in *. rewrite runes_app_ascii, encode_runes_app in Hv by done.
  assert (runes (String c b) = code c :: runes b) as Hr by apply (runes_app_ascii "" c b Hc).
  rewrite <- Hr in Hv.
  pose proof (encode_runes_length a). pose proof (encode_runes_length (String c b)).
  pose proof (f_equal String.length Hv) as Hl. rewrite !str_length_app in Hl.
  apply str_app_inj_len in Hv; [done|lia].
Qed.

(** ** Cutting at the start of a rune *)

Lemma chunk_tail r j c :
  valid_rune r = true -> (0 < j)%nat -> String.get j (encode_valid r) = Some c ->
  RuneStart c = false.
Proof.
  intros Hv%valid_rune_spec Hj. unfold encode_valid, RuneStart.
  assert (forall z, 128 <= z < 192 -> negb (cont (code (chr z))) = false) as Hz.
  { intros z Hz. rewrite code_chr by lia. apply negb_false_iff, cont_spec. lia. }
  destruct (r <? 128) eqn:E1; [|destruct (r <? 2048) eqn:E2; [|destruct (r <? 65536) eqn:E3]];
    destruct j as [|[|[|[|j]]]]; cbn [String.get]; try lia; try done;
    intros [= <-]; apply Hz; euclid.
Qed.

Lemma str_get_app s t k :
  String.get k (s +:+ t)%string
  = if (k <? String.length s)%nat then String.get k s else String.get (k - String.length s) t.
Proof.
  revert k. induction s as [|c s IH]; intros k.
  - rewrite str_app_nil_l. cbn. by rewrite Nat.sub_0_r.
  - rewrite str_app_cons. destruct k as [|k]; [done|]. cbn. apply IH.
Qed.

Lemma str_take_app s t k :
  str_take k (s +:+ t)%string
  = if (k <=? String.length s)%nat then str_take k s
    else (s +:+ str_take (k - String.length s) t)%string.
Proof.
  revert k. induction s as [|c s IH]; intros k.
  - rewrite str_app_nil_l. cbn. rewrite Nat.sub_0_r. by destruct k.
  - rewrite str_app_cons. destruct k as [|k]; [done|]. cbn. rewrite IH.
    by destruct (k <=? String.length s)%nat.
Qed.

Lemma str_take_all s k : (String.length s <= k)%nat -> str_take k s = s.
Proof.
  revert k. induction s as [|c s IH]; intros [|k] H; cbn in *; try done; [lia|].
  by rewrite IH by lia.
Qed.

Lemma cut_valid s k :
  valid_utf8 s -> (forall c, String.get k s = Some c -> RuneStart c = true) ->
  valid_utf8 (str_take k s).
Proof.
  revert k. induction s as [|r chunk rest Hne Hr E IH] using runes_ind; intros k Hs Hk.
  { by destruct k. }
  assert (chunk = encode_valid r /\ valid_rune r = true) as [-> Hv].
  { destruct Hr as [[? ?]|(-> & c & _ & ->)]; [done|]. exfalso. unfold valid_utf8 in Hs.
    rewrite E in Hs. cbn [encode_runes] in Hs.
    apply (f_equal String.length) in Hs. rewrite !str_length_app in Hs.
    change (String.length (encode_rune RuneError)) with 3%nat in Hs. cbn in Hs.
    pose proof (encode_runes_length rest). lia. }
  assert (valid_utf8 rest) as Hrest.
  { unfold valid_utf8 in *. rewrite E in Hs. cbn [encode_runes] in Hs.
    rewrite encode_rune_valid in Hs by done. by apply str_app_inj_l in Hs. }
  assert (valid_utf8 (encode_valid r)) as Hc.
  { pose proof (runes_encode_app r "" Hv) as H1. rewrite str_app_nil_r in H1.
    unfold valid_utf8. rewrite H1. cbn. by rewrite encode_rune_valid, str_app_nil_r. }
  rewrite str_take_app. destruct (k <=? String.length (encode_valid r))%nat eqn:El.
  - apply Nat.leb_le in El. destruct (decide (k = String.length (encode_valid r))) as [->|Hlt].
    { by rewrite str_take_all. }
    destruct k as [|k]; [by destruct (encode_valid r)|]. exfalso.
    destruct (String.get (S k) (encode_valid r)) as [c|] eqn:Eg.
    + pose proof (chunk_tail r (S k) c Hv ltac:(lia) Eg) as Ht.
      rewrite (Hk c) in Ht; [done|]. rewrite str_get_app.
      rewrite (proj2 (Nat.ltb_lt _ _)) by lia. done.
    + assert (forall s n, (n < String.length s)%nat -> String.get n s <> None) as Hg.
      { intros s'. induction s' as [|a s' IHs]; intros n Hn; cbn in *; [lia|].
        destruct n; [done|]. apply IHs. lia. }
      by apply (Hg (encode_valid r) (S k)); [lia|].
  - apply Nat.leb_gt in El. apply valid_app; [done|]. apply IH; [done|]. intros c Hg. apply Hk.
    rewrite str_get_app. by rewrite (proj2 (Nat.ltb_ge _ _)) by lia.
Qed.
