(* ===== verification/Sanitize.v ===== *)
(** * Names on the target

    File names made acceptable to a provider: [SanitizeFilename] and its helpers
    (src/backend/internal/sanitize/sanitize.go), collision detection
    (collision.go) and collision resolution (resolve.go).  The Unicode
    categories outside ASCII are an interface of the model. *)

From S2P Require Import Prelude GoPath HashString Storage Digits Bytes Utf8.

(** ** Provider tables *)

Class UnicodeTables := {
  uni_case :: GoUnicode;
  uni_So : Z -> bool;
  uni_Mn : Z -> bool;
  uni_Cf : Z -> bool;
}.

(** No ASCII character is in the categories So, Mn and Cf. *)
Definition is_So `{UnicodeTables} (r : Z) : bool := (128 <=? r) && uni_So r.
Definition is_Mn `{UnicodeTables} (r : Z) : bool := (128 <=? r) && uni_Mn r.
Definition is_Cf `{UnicodeTables} (r : Z) : bool := (128 <=? r) && uni_Cf r.

Definition reservedWindowsNames : list string :=
  ["con"; "prn"; "aux"; "nul";
   "com1"; "com2"; "com3"; "com4"; "com5"; "com6"; "com7"; "com8"; "com9";
   "lpt1"; "lpt2"; "lpt3"; "lpt4"; "lpt5"; "lpt6"; "lpt7"; "lpt8"; "lpt9"].

(** backslash / : * ? double-quote < > | *)
Definition windows_forbidden : list Z := [92; 47; 58; 42; 63; 34; 60; 62; 124].

Definition providerForbiddenChars : list (string * list Z) :=
  [("smb", windows_forbidden); ("onedrive", windows_forbidden);
   ("dropbox", [47]); ("google", [47]); ("nextcloud", [47]); ("opencloud", [47]);
   ("magentacloud", [47]); ("webdav", [47]); ("sftp", [47]); ("ftp", [47]); ("hidrive", [47]);
   ("local", [47]); ("seafile", [47]); ("mega", [47]); ("koofr", [92; 47])].

Definition providerMaxLength : list (string * Z) :=
  [("smb", 255); ("onedrive", 255); ("dropbox", 255); ("google", 255); ("hidrive", 255);
   ("nextcloud", 255); ("magentacloud", 255); ("webdav", 255); ("sftp", 255);
   ("seafile", 255); ("mega", 255); ("s3", 1024)].

Definition providerMaxPathLength : list (string * Z) := [("hidrive", 1020); ("onedrive", 400)].

Definition caseInsensitiveProviders : list string := ["dropbox"; "google"; "smb"; "onedrive"; "koofr"].

(** [m[key]] of a table literal. *)
Fixpoint table_get {A} (m : list (string * A)) (key : string) : option A :=
  match m with
  | [] => None
  | (k, v) :: m => if String.eqb k key then Some v else table_get m key
  end.

Definition GetMaxPathLength (provider : string) : Z :=
  default 4096 (table_get providerMaxPathLength provider).

Definition IsPathTooLong (path targetProvider : string) : bool :=
  if String.eqb targetProvider "onedrive"
  then GetMaxPathLength targetProvider <? RuneCountInString path
  else GetMaxPathLength targetProvider <? str_len path.

Definition IsCaseInsensitive (provider : string) : bool :=
  bool_decide (provider ∈ caseInsensitiveProviders).

Definition GetForbiddenChars (provider : string) : list Z :=
  default [] (table_get providerForbiddenChars provider).

Definition getMaxFilenameLength (provider : string) : Z :=
  default 255 (table_get providerMaxLength provider).

Definition filenameLength (name provider : string) : Z :=
  if String.eqb provider "hidrive" then str_len name else RuneCountInString name.

(** ** The passes over a name *)

Definition isForbidden (r : Z) (forbidden : list Z) : bool := existsb (Z.eqb r) forbidden.

(** ['_'] *)
Definition underscore : Z := 95.

Definition replaceForbidden (name : string) (forbidden : list Z) : string :=
  encode_runes (map (fun r => if isForbidden r forbidden then underscore else r) (runes name)).

(** [for end > 0 && end < len(name) && !utf8.RuneStart(name[end]) { end-- }] *)
Fixpoint back_to_start (end_ : nat) (name : string) : nat :=
  match end_ with
  | O => O
  | S e =>
      match String.get end_ name with
      | Some c => if RuneStart c then end_ else back_to_start e name
      | None => end_
      end
  end.

Definition truncateFilename (name : string) (maxLen : Z) (provider : string) : string :=
  if maxLen <=? 0 then ""
  else if negb (String.eqb provider "hidrive") then encode_runes (ztake maxLen (runes name))
  else if str_len name <=? maxLen then name
  else str_take (back_to_start (Z.to_nat maxLen) name) name.

(** The extension starts at the last dot that is not the first byte. *)
Definition split_ext (name : string) : string * string :=
  match cut_last_dot name with
  | Some (base, ext) => if String.eqb base "" then (name, "") else (base, ext)
  | None => (name, "")
  end.

Definition truncatePreserveExt (name : string) (maxLen : Z) (provider : string) : string :=
  if maxLen <=? 0 then ""
  else
    let '(base, ext) := split_ext name in
    let extLen := filenameLength ext provider in
    if maxLen <=? extLen then truncateFilename name maxLen provider
    else (truncateFilename base (maxLen - extLen) provider +:+ ext)%string.

(** [strings.TrimRight(s, " .")] *)
Fixpoint trim_right (s : string) : string :=
  match s with
  | EmptyString => EmptyString
  | String c s =>
      match trim_right s with
      | EmptyString => if Ascii.eqb c " "%char || Ascii.eqb c "."%char then "" else String c ""
      | t => String c t
      end
  end.

Definition trimWindowsTrailing (name : string) : string :=
  let trimmed := trim_right name in
  if String.eqb trimmed "" then name else trimmed.

Section Names.
Context `{UnicodeTables}.

(** [replaced] is the flag of the loop: the last rune written stands for a symbol. *)
Fixpoint replace_symbols (replaced : bool) (rs : list Z) : list Z :=
  match rs with
  | [] => []
  | r :: rs =>
      if is_So r then underscore :: replace_symbols true rs
      else if replaced && (is_Mn r || is_Cf r) then replace_symbols replaced rs
      else r :: replace_symbols false rs
  end.

Definition replaceUnicodeSymbols (name : string) : string :=
  encode_runes (replace_symbols false (runes name)).

Definition first_part (name : string) : string :=
  match cut_at "."%char name with
  | Some (base, _) => if String.eqb base "" then name else base
  | None => name
  end.

Definition sanitizeWindowsReserved (name : string) : string :=
  let lowerBase := ToLower (first_part name) in
  if existsb (String.eqb lowerBase) reservedWindowsNames then ("_" +:+ name)%string
  else if existsb (fun reserved =>
    has_prefix lowerBase reserved
    && match String.get (String.length reserved) lowerBase with
       | Some next => isForbidden (code next) windows_forbidden
       | None => false
       end) reservedWindowsNames
  then ("_" +:+ name)%string
  else name.

(** ** SanitizeFilename *)

Record SanitizeResult := mkSanitized {
  OriginalName : string;
  SanitizedName : string;
  Changed : bool;
  Reasons : list string;
}.

(** One pass: the name it gives, recorded with its reason when it differs. *)
Definition pass (enabled : bool) (f : string -> string) (reason : string) (r : SanitizeResult)
    : SanitizeResult :=
  if enabled then
    let sanitized := f (SanitizedName r) in
    if String.eqb sanitized (SanitizedName r) then r
    else mkSanitized (OriginalName r) sanitized true (Reasons r ++ [reason])
  else r.

Definition is_windows (provider : string) : bool :=
  String.eqb provider "smb" || String.eqb provider "onedrive".

Definition non_empty {A} (l : list A) : bool := match l with [] => false | _ => true end.

Definition sanitize_passes (targetProvider : string) (r : SanitizeResult) : SanitizeResult :=
  let forbidden := GetForbiddenChars targetProvider in
  let r := pass (is_windows targetProvider) sanitizeWindowsReserved "reserved_name" r in
  let r := pass (non_empty forbidden) (fun n => replaceForbidden n forbidden) "forbidden_char" r in
  let r := pass (String.eqb targetProvider "seafile") replaceUnicodeSymbols
             "unsupported_unicode_symbol" r in
  pass (is_windows targetProvider) trimWindowsTrailing "trailing_chars" r.

Definition fit_length (targetProvider : string) (r : SanitizeResult) : SanitizeResult :=
  let maxLen := getMaxFilenameLength targetProvider in
  if maxLen <? filenameLength (SanitizedName r) targetProvider
  then mkSanitized (OriginalName r) (truncatePreserveExt (SanitizedName r) maxLen targetProvider)
         true (Reasons r ++ ["length_truncated"])
  else r.

Definition SanitizeFilename (name targetProvider : string) : SanitizeResult :=
  if String.eqb name "" then mkSanitized name "unnamed_file" true ["empty_name"]
  else
    let r := fit_length targetProvider
               (sanitize_passes targetProvider (mkSanitized name name false [])) in
    if String.eqb (SanitizedName r) ""
    then mkSanitized (OriginalName r) "unnamed_file" true (Reasons r ++ ["empty_after_sanitize"])
    else r.

(** ** Collisions *)

Definition CheckCaseCollision (listing : res storage_error (list CloudResource))
    (fileName : string) : res storage_error string :=
  match listing with
  | Err e => Err e
  | Ok items =>
      Ok (default "" (res_Name <$> List.find (fun i =>
        negb (res_IsDir i) && EqualFold (res_Name i) fileName
        && negb (String.eqb (res_Name i) fileName)) items))
  end.

Definition maxRenameAttempts : nat := 100.

Definition collisionCandidate (base ext : string) (counter : Z) (targetProvider : string) : string :=
  let maxLen := getMaxFilenameLength targetProvider in
  let suffix := ("_" +:+ format_int counter +:+ ext)%string in
  if maxLen <=? filenameLength suffix targetProvider
  then truncateFilename suffix maxLen targetProvider
  else (truncateFilename base (maxLen - filenameLength suffix targetProvider) targetProvider
        +:+ suffix)%string.

Definition item_name (i : CloudResource) : string :=
  if String.eqb (res_Name i) "" then path_base (res_Path i) else res_Name i.

Definition hasCaseInsensitiveCollision (listing : list CloudResource) (candidate : string) : bool :=
  existsb (fun i => EqualFold (item_name i) candidate) listing.

(** The candidate is a name of the directory, or one up to case where that counts. *)
Definition taken (items : list CloudResource) (targetProvider candidate : string) : bool :=
  bool_decide (candidate ∈ map item_name items)
  || (IsCaseInsensitive targetProvider && hasCaseInsensitiveCollision items candidate).

(** The candidates from [counter] on, for the attempts left. *)
Fixpoint resolve_loop (attempts : nat) (counter : Z) (base ext targetProvider : string)
    (listing : list CloudResource) : option string :=
  match attempts with
  | O => None
  | S attempts =>
      let candidate :=
        SanitizedName (SanitizeFilename (collisionCandidate base ext counter targetProvider)
                         targetProvider) in
      if taken listing targetProvider candidate
      then resolve_loop attempts (counter + 1) base ext targetProvider listing
      else Some candidate
  end.

Definition ResolveCollision (listing : res storage_error (list CloudResource))
    (fileName targetProvider : string) : res string string :=
  let '(base, ext) := split_ext fileName in
  match listing with
  | Err _ => Err "failed to list target directory for collision resolution"
  | Ok items =>
      match resolve_loop maxRenameAttempts 1 base ext targetProvider items with
      | Some candidate => Ok candidate
      | None => Err "failed to resolve collision after 100 attempts"
      end
  end.
End Names.

(** ** Forbidden characters *)

Lemma forbidden_lists p : GetForbiddenChars p ∈ [windows_forbidden; [47]; [92; 47]; []].
Proof.
  unfold GetForbiddenChars, providerForbiddenChars. cbn [table_get].
  repeat case_match; cbn; rewrite !elem_of_cons; tauto.
Qed.

Lemma forbidden_ascii p f : f ∈ GetForbiddenChars p -> 0 <= f < 128 /\ f <> underscore.
Proof.
  pose proof (forbidden_lists p) as H. rewrite !elem_of_cons in H. unfold underscore.
  destruct H as [->|[->|[->|[->|H]]]]; [| | | |by apply elem_of_nil in H];
    unfold windows_forbidden; rewrite ?elem_of_cons; intros Hf;
    repeat (destruct Hf as [->|Hf]; [lia|]); by apply elem_of_nil in Hf.
Qed.

Lemma isForbidden_spec r l : isForbidden r l = true <-> r ∈ l.
Proof.
  unfold isForbidden. rewrite existsb_exists. split.
  - intros (x & Hx & ->%Z.eqb_eq). by apply list_elem_of_In.
  - intros Hr. exists r. split; [by apply list_elem_of_In|apply Z.eqb_refl].
Qed.

(** No forbidden character of the provider. *)
Definition clean (p : string) (rs : list Z) : Prop :=
  forall f, f ∈ GetForbiddenChars p -> f ∉ rs.

Lemma clean_bytes p s :
  clean p (runes s) <-> forall f, f ∈ GetForbiddenChars p -> str_count (chr f) s = O.
Proof.
  unfold clean. split; intros H f Hf; pose proof (forbidden_ascii p f Hf) as [Hr _];
    specialize (H f Hf); pose proof (runes_ascii (chr f) s) as Ha;
    rewrite code_chr in Ha by lia; apply Ha; done || lia.
Qed.

Lemma str_take_drop k s : (str_take k s +:+ str_drop k s)%string = s.
Proof. revert k. induction s as [|c s IH]; intros [|k]; try done.
  cbn [str_take str_drop]. by rewrite str_app_cons, IH.
Qed.

Lemma clean_app p s t :
  clean p (runes (s +:+ t)%string) <-> clean p (runes s) /\ clean p (runes t).
Proof.
  rewrite !clean_bytes. split.
  - intros H. split; intros f Hf; specialize (H f Hf); rewrite str_count_app in H; lia.
  - intros [Hs Ht] f Hf. rewrite str_count_app, Hs, Ht by done. done.
Qed.

Lemma clean_take p s k : clean p (runes s) -> clean p (runes (str_take k s)).
Proof. intros Hc. rewrite <- (str_take_drop k s) in Hc. by apply clean_app in Hc as [? _]. Qed.

Lemma replaceForbidden_runes name p :
  runes (replaceForbidden name (GetForbiddenChars p))
  = map (fun r => if isForbidden r (GetForbiddenChars p) then underscore else r) (runes name)
  /\ valid_utf8 (replaceForbidden name (GetForbiddenChars p)).
Proof.
  apply and_comm, valid_encoded. apply Forall_map. eapply Forall_impl; [apply runes_valid|].
  cbn. intros r Hr. by case_match.
Qed.

Lemma replaceForbidden_clean name p : clean p (runes (replaceForbidden name (GetForbiddenChars p))).
Proof.
  rewrite (proj1 (replaceForbidden_runes name p)). intros f Hf (r & Hr & _)%list_elem_of_fmap.
  destruct (isForbidden r (GetForbiddenChars p)) eqn:E.
  - by apply forbidden_ascii in Hf as [_ ?].
  - subst r. apply isForbidden_spec in Hf. congruence.
Qed.

Lemma replaceForbidden_id name p :
  valid_utf8 name -> clean p (runes name) -> replaceForbidden name (GetForbiddenChars p) = name.
Proof.
  intros Hv Hc. unfold replaceForbidden. etransitivity; [|exact Hv]. f_equal.
  rewrite <- (map_id (runes name)) at 2. apply map_ext_in. intros r Hr%list_elem_of_In.
  destruct (isForbidden r (GetForbiddenChars p)) eqn:E; [|done].
  apply isForbidden_spec in E. by destruct (Hc r E).
Qed.

(** ** Cutting *)

Lemma cut_last_dot_spec s l r :
  cut_last_dot s = Some (l, r) -> s = (l +:+ r)%string /\ exists t, r = String "."%char t.
Proof.
  revert l r. induction s as [|c s IH]; intros l r; [done|]. cbn [cut_last_dot].
  destruct (cut_last_dot s) as [[l' r']|].
  - intros [= <- <-]. destruct (IH l' r' eq_refl) as [-> Ht]. by split.
  - destruct (Ascii.eqb c "."%char) eqn:E; [|done]. apply Ascii.eqb_eq in E as ->.
    intros [= <- <-]. split; [done|]. by exists s.
Qed.

(** The extension is empty or starts with its dot. *)
Lemma split_ext_spec name base ext :
  split_ext name = (base, ext) ->
  name = (base +:+ ext)%string /\ (ext = "" \/ exists t, ext = String "."%char t).
Proof.
  unfold split_ext. destruct (cut_last_dot name) as [[l r]|] eqn:E.
  - apply cut_last_dot_spec in E as [-> Ht]. destruct (String.eqb l "") eqn:El.
    + intros [= <- <-]. split; [by rewrite str_app_nil_r|by left].
    + intros [= <- <-]. split; [done|by right].
  - intros [= <- <-]. split; [by rewrite str_app_nil_r|by left].
Qed.

Lemma split_ext_valid name base ext :
  split_ext name = (base, ext) -> valid_utf8 name -> valid_utf8 base /\ valid_utf8 ext.
Proof.
  intros Hs Hv. apply split_ext_spec in Hs as [-> [->|[t ->]]].
  - by rewrite str_app_nil_r in Hv.
  - by apply valid_split in Hv.
Qed.

Lemma back_to_start_le k s : (back_to_start k s <= k)%nat.
Proof. induction k as [|k IH]; cbn; [lia|]. repeat case_match; lia. Qed.

Lemma back_to_start_start k s c :
  (0 < back_to_start k s)%nat -> String.get (back_to_start k s) s = Some c -> RuneStart c = true.
Proof.
  induction k as [|k IH]; cbn [back_to_start]; [lia|].
  destruct (String.get (S k) s) as [c'|] eqn:Eg.
  - destruct (RuneStart c') eqn:Er; [|done]. intros _ H. congruence.
  - intros _ H. congruence.
Qed.

Lemma length_take_le k s : (String.length (str_take k s) <= k)%nat.
Proof. revert k. induction s as [|c s IH]; intros [|k]; cbn; try lia. specialize (IH k). lia. Qed.

Lemma truncate_runes_valid name n :
  valid_utf8 (encode_runes (ztake n (runes name)))
  /\ runes (encode_runes (ztake n (runes name))) = ztake n (runes name).
Proof.
  apply valid_encoded. rewrite ztake_take. eapply Forall_take, runes_valid.
Qed.

Lemma truncateFilename_valid name n p : valid_utf8 name -> valid_utf8 (truncateFilename name n p).
Proof.
  intros Hv. unfold truncateFilename. destruct (n <=? 0); [done|].
  destruct (negb _); [apply truncate_runes_valid|]. destruct (_ <=? n); [done|].
  apply cut_valid; [done|]. intros c Hc.
  destruct (Nat.eq_0_gt_0_cases (back_to_start (Z.to_nat n) name)) as [E|Hp];
    [|by eapply back_to_start_start].
  rewrite E in Hc. unfold valid_utf8 in Hv. destruct name as [|c0 name]; [done|].
  cbn in Hc. injection Hc as <-.
  destruct (runes_step (String c0 name)) as (r & chunk & rest & Es & Hne & Hr & Er); [done|].
  destruct chunk as [|c1 chunk]; [done|]. rewrite str_app_cons in Es. injection Es as <- Es.
  rewrite Er in Hv. cbn [encode_runes] in Hv. unfold RuneStart.
  destruct Hr as [[Hvr Hch]|(-> & c' & Hc' & [= -> ->])].
  - unfold encode_valid in Hch. apply valid_rune_spec in Hvr.
    apply negb_true_iff, not_true_iff_false. rewrite cont_spec.
    destruct (r <? 128) eqn:E1; [|destruct (r <? 2048) eqn:E2; [|destruct (r <? 65536) eqn:E3]];
      injection Hch as -> _; rewrite code_chr by euclid; euclid.
  - change (encode_rune RuneError) with (String (chr 239) (String (chr 191) (String (chr 189) ""))) in Hv.
    rewrite str_app_cons in Hv. injection Hv as <- _. reflexivity.
Qed.

Lemma truncateFilename_clean p name n q :
  clean p (runes name) -> clean p (runes (truncateFilename name n q)).
Proof.
  intros Hc. unfold truncateFilename. destruct (n <=? 0); [by intros f _ ?%elem_of_nil|].
  destruct (negb _).
  - rewrite (proj2 (truncate_runes_valid name n)), ztake_take. intros f Hf Hin.
    apply (Hc f Hf). apply elem_of_take in Hin as (i & Hi & _). by eapply list_elem_of_lookup_2.
  - destruct (_ <=? n); [done|]. by apply clean_take.
Qed.

Lemma truncateFilename_length name n p :
  0 < n -> filenameLength (truncateFilename name n p) p <= n.
Proof.
  intros Hn. unfold truncateFilename, filenameLength. rewrite (proj2 (Z.leb_gt _ _)) by lia.
  destruct (String.eqb p "hidrive") eqn:Ep; cbn [negb].
  - destruct (str_len name <=? n) eqn:El; [lia|]. unfold str_len.
    pose proof (length_take_le (back_to_start (Z.to_nat n) name) name).
    pose proof (back_to_start_le (Z.to_nat n) name). lia.
  - unfold RuneCountInString. rewrite (proj2 (truncate_runes_valid name n)), zlen_ztake by lia. lia.
Qed.

Lemma filenameLength_app s t p :
  (p = "hidrive" \/ valid_utf8 s) ->
  filenameLength (s +:+ t)%string p = filenameLength s p + filenameLength t p.
Proof.
  unfold filenameLength. intros Hs. destruct (String.eqb p "hidrive") eqn:Ep.
  - unfold str_len. rewrite str_length_app. lia.
  - destruct Hs as [->|Hs]; [done|]. unfold RuneCountInString.
    by rewrite valid_app_runes, zlen_app.
Qed.

Lemma filenameLength_nonneg s p : 0 <= filenameLength s p.
Proof. unfold filenameLength, str_len, RuneCountInString. case_match; [lia|apply zlen_nonneg]. Qed.

Lemma truncated_valid name n p : p = "hidrive" \/ valid_utf8 (truncateFilename name n p).
Proof.
  unfold truncateFilename. destruct (String.eqb p "hidrive") eqn:Ep.
  - left. by apply String.eqb_eq.
  - right. cbn [negb]. destruct (n <=? 0); [done|]. apply truncate_runes_valid.
Qed.

Lemma truncatePreserveExt_length name n p :
  0 < n -> filenameLength (truncatePreserveExt name n p) p <= n.
Proof.
  intros Hn. unfold truncatePreserveExt. rewrite (proj2 (Z.leb_gt _ _)) by lia.
  destruct (split_ext name) as [base ext] eqn:E.
  destruct (n <=? filenameLength ext p) eqn:El; [by apply truncateFilename_length|].
  rewrite filenameLength_app by apply truncated_valid.
  pose proof (truncateFilename_length base (n - filenameLength ext p) p). lia.
Qed.

Lemma truncatePreserveExt_clean p name n q :
  clean p (runes name) -> clean p (runes (truncatePreserveExt name n q)).
Proof.
  intros Hc. unfold truncatePreserveExt. destruct (n <=? 0); [by intros f _ ?%elem_of_nil|].
  destruct (split_ext name) as [base ext] eqn:E. pose proof (split_ext_spec _ _ _ E) as [-> _].
  destruct (_ <=? _); [by apply truncateFilename_clean|].
  apply clean_app in Hc as [Hb He]. apply clean_app. split; [by apply truncateFilename_clean|done].
Qed.

Lemma truncatePreserveExt_valid name n p :
  valid_utf8 name -> valid_utf8 (truncatePreserveExt name n p).
Proof.
  intros Hv. unfold truncatePreserveExt. destruct (n <=? 0); [done|].
  destruct (split_ext name) as [base ext] eqn:E.
  destruct (_ <=? _); [by apply truncateFilename_valid|].
  destruct (split_ext_valid _ _ _ E Hv). apply valid_app; [by apply truncateFilename_valid|done].
Qed.

Lemma trim_right_prefix s : exists t, s = (trim_right s +:+ t)%string.
Proof.
  induction s as [|c s [t IH]]; [by exists ""|]. cbn [trim_right].
  destruct (trim_right s) as [|c' s'] eqn:E.
  - destruct (Ascii.eqb c " "%char || Ascii.eqb c "."%char); [by exists (String c s)|by exists s].
  - exists t. rewrite str_app_cons. by f_equal.
Qed.

Lemma trimWindowsTrailing_clean p name : clean p (runes name) -> clean p (runes (trimWindowsTrailing name)).
Proof.
  intros Hc. unfold trimWindowsTrailing. destruct (String.eqb _ _); [done|].
  destruct (trim_right_prefix name) as [t E]. rewrite E in Hc. by apply clean_app in Hc as [? _].
Qed.

(** ** The sanitized name *)

Section Name_facts.
Context `{UnicodeTables}.

Lemma pass_name enabled f reason r :
  SanitizedName (pass enabled f reason r)
  = if enabled then f (SanitizedName r) else SanitizedName r.
Proof.
  unfold pass. destruct enabled; [|done]. destruct (String.eqb _ _) eqn:E; [|done].
  by apply String.eqb_eq in E.
Qed.

(** A result reported as unchanged is the name [n]. *)
Definition reported (n : string) (r : SanitizeResult) : Prop :=
  Changed r = false -> SanitizedName r = n.

Lemma pass_reported n enabled f reason r : reported n r -> reported n (pass enabled f reason r).
Proof. intros Hr. unfold pass. destruct enabled; [|done]. by destruct (String.eqb _ _). Qed.

Lemma sanitize_reported name p : reported name (SanitizeFilename name p).
Proof.
  unfold SanitizeFilename. destruct (String.eqb name ""); [done|].
  assert (reported name (fit_length p (sanitize_passes p (mkSanitized name name false [])))) as Hr.
  { unfold fit_length. destruct (_ <? _); [done|]. by do 4 apply pass_reported. }
  by destruct (String.eqb _ _).
Qed.

Lemma replace_symbols_valid b rs :
  Forall (fun r => valid_rune r = true) rs ->
  Forall (fun r => valid_rune r = true) (replace_symbols b rs).
Proof.
  intros Hrs. revert b. induction Hrs as [|r rs Hr _ IH]; intros b; cbn; [constructor|].
  repeat case_match; try constructor; auto.
Qed.

Lemma replaceUnicodeSymbols_runes name :
  valid_utf8 (replaceUnicodeSymbols name)
  /\ runes (replaceUnicodeSymbols name) = replace_symbols false (runes name).
Proof. apply valid_encoded, replace_symbols_valid, runes_valid. Qed.

Lemma replace_symbols_in b rs r :
  r ∈ replace_symbols b rs -> is_So r = false /\ (r = underscore \/ r ∈ rs).
Proof.
  revert b. induction rs as [|r' rs IH]; intros b; cbn; [by intros ?%elem_of_nil|].
  destruct (is_So r') eqn:E; [|destruct (b && _)]; rewrite ?elem_of_cons.
  - intros [->|Hr]; [split; [done|by left]|]. destruct (IH _ Hr) as [? [?|?]]; auto.
  - intros Hr. destruct (IH _ Hr) as [? [?|?]]; auto.
  - intros [->|Hr]; [auto|]. destruct (IH _ Hr) as [? [?|?]]; auto.
Qed.

Lemma replace_symbols_id rs :
  Forall (fun r => is_So r = false) rs -> replace_symbols false rs = rs.
Proof. induction 1 as [|r rs Hr _ IH]; [done|]. cbn. by rewrite Hr, IH. Qed.

Lemma underscore_allowed p : underscore ∉ GetForbiddenChars p.
Proof. intros Hf. by apply forbidden_ascii in Hf as [_ ?]. Qed.

Lemma replaceUnicodeSymbols_clean p name :
  clean p (runes name) -> clean p (runes (replaceUnicodeSymbols name)).
Proof.
  intros Hc. rewrite (proj2 (replaceUnicodeSymbols_runes name)). intros f Hf Hin.
  apply replace_symbols_in in Hin as [_ [->|Hin]]; [by apply underscore_allowed in Hf|].
  by apply (Hc f Hf).
Qed.

Lemma passes_clean p r : clean p (runes (SanitizedName (sanitize_passes p r))).
Proof.
  unfold sanitize_passes. rewrite !pass_name.
  assert (forall n, clean p (runes (if non_empty (GetForbiddenChars p)
    then replaceForbidden n (GetForbiddenChars p) else n))) as Hf.
  { intros n. destruct (GetForbiddenChars p) eqn:E; cbn [non_empty].
    - intros f Hf. rewrite E in Hf. by apply elem_of_nil in Hf.
    - rewrite <- E. apply replaceForbidden_clean. }
  destruct (is_windows p); [apply trimWindowsTrailing_clean|];
    (destruct (String.eqb p "seafile"); [apply replaceUnicodeSymbols_clean|]; apply Hf).
Qed.

Lemma maxlen_bounds p : 255 <= getMaxFilenameLength p.
Proof.
  unfold getMaxFilenameLength, providerMaxLength. cbn [table_get]. repeat case_match; cbn; lia.
Qed.

Lemma fit_length_spec p r :
  filenameLength (SanitizedName (fit_length p r)) p <= getMaxFilenameLength p.
Proof.
  unfold fit_length. pose proof (maxlen_bounds p).
  destruct (_ <? _) eqn:E; [apply truncatePreserveExt_length; lia|lia].
Qed.

Lemma unnamed_ok p :
  clean p (runes "unnamed_file") /\ filenameLength "unnamed_file" p <= getMaxFilenameLength p.
Proof.
  split.
  - pose proof (forbidden_lists p) as Hl. rewrite !elem_of_cons in Hl. unfold clean.
    destruct Hl as [->|[->|[->|[->|Hl]]]]; [| | | |by apply elem_of_nil in Hl];
      unfold windows_forbidden; intros f Hf Hin; apply isForbidden_spec in Hin;
      rewrite ?elem_of_cons in Hf; repeat (destruct Hf as [->|Hf]; [vm_compute in Hin; done|]);
      by apply elem_of_nil in Hf.
  - pose proof (maxlen_bounds p). unfold filenameLength.
    replace (str_len "unnamed_file") with 12 by reflexivity.
    replace (RuneCountInString "unnamed_file") with 12 by reflexivity. case_match; lia.
Qed.

(** A name the passes leave alone: valid where a pass re-encodes it, without
    forbidden characters and, on Seafile, without symbols. *)
Definition settled (p n : string) : Prop :=
  (GetForbiddenChars p <> [] -> valid_utf8 n) /\ clean p (runes n)
  /\ (p = "seafile" -> Forall (fun r => is_So r = false) (runes n)).

Lemma seafile_forbidden : GetForbiddenChars "seafile" <> [].
Proof. by vm_compute. Qed.

Lemma passes_settled p r :
  is_windows p = false -> settled p (SanitizedName (sanitize_passes p r)).
Proof.
  intros Hw. pose proof (passes_clean p r) as Hc. split_and!; [|exact Hc|].
  - intros Hf. unfold sanitize_passes. rewrite !pass_name, Hw.
    destruct (String.eqb p "seafile"); [apply replaceUnicodeSymbols_runes|].
    destruct (GetForbiddenChars p) eqn:E; [done|]. cbn [non_empty]. rewrite <- E.
    apply replaceForbidden_runes.
  - intros ->. unfold sanitize_passes. rewrite !pass_name, Hw. cbn [String.eqb Ascii.eqb Bool.eqb].
    rewrite (proj2 (replaceUnicodeSymbols_runes _)). apply Forall_forall.
    intros r' Hr. by apply replace_symbols_in in Hr as [? _].
Qed.

(** Runes of a truncated name come from the name, when it is valid. *)
Lemma truncateFilename_subset m j p r :
  p <> "hidrive" -> r ∈ runes (truncateFilename m j p) -> r ∈ runes m.
Proof.
  intros Hp. unfold truncateFilename. destruct (j <=? 0); [by intros ?%elem_of_nil|].
  rewrite (proj2 (String.eqb_neq _ _) Hp). cbn [negb].
  rewrite (proj2 (truncate_runes_valid m j)), ztake_take.
  intros (i & Hi & _)%elem_of_take. by eapply list_elem_of_lookup_2.
Qed.

Lemma truncatePreserveExt_subset n k p :
  valid_utf8 n -> p <> "hidrive" -> forall r, r ∈ runes (truncatePreserveExt n k p) -> r ∈ runes n.
Proof.
  intros Hv Hp r. pose proof (fun m j => truncateFilename_subset m j p r Hp) as Ht.
  unfold truncatePreserveExt. destruct (k <=? 0); [by intros ?%elem_of_nil|].
  destruct (split_ext n) as [base ext] eqn:E.
  destruct (split_ext_valid _ _ _ E Hv) as [Hb He]. apply split_ext_spec in E as [-> _].
  destruct (_ <=? _); [apply Ht|].
  rewrite !valid_app_runes, !elem_of_app by (done || by apply truncateFilename_valid).
  intros [Hr|Hr]; [left; by eapply Ht|by right].
Qed.

Lemma fit_settled p r : settled p (SanitizedName r) -> settled p (SanitizedName (fit_length p r)).
Proof.
  intros (Hv & Hc & Hs). unfold fit_length. destruct (_ <? _); [|done]. split_and!.
  - intros Hf. by apply truncatePreserveExt_valid, Hv.
  - by apply truncatePreserveExt_clean.
  - intros ->. specialize (Hs eq_refl). specialize (Hv seafile_forbidden).
    rewrite Forall_forall in Hs |- *. intros r' Hr. apply Hs.
    eapply truncatePreserveExt_subset; [exact Hv| |exact Hr]. done.
Qed.

Lemma unnamed_settled p : settled p "unnamed_file".
Proof.
  split_and!; [done|apply unnamed_ok|]. intros _. apply Forall_forall. intros r Hr.
  unfold is_So. destruct (128 <=? r) eqn:E; [|done]. exfalso.
  assert (forallb (fun r => r <? 128) (runes "unnamed_file") = true) as Ha by reflexivity.
  rewrite forallb_forall in Ha. apply list_elem_of_In, Ha in Hr. lia.
Qed.

Lemma settled_unchanged p n :
  is_windows p = false -> settled p n -> n <> "" ->
  filenameLength n p <= getMaxFilenameLength p -> SanitizeFilename n p = mkSanitized n n false [].
Proof.
  intros Hw (Hv & Hc & Hs) Hn Hl. unfold SanitizeFilename, sanitize_passes. rewrite Hw.
  rewrite (proj2 (String.eqb_neq _ _) Hn). cbn [pass].
  assert (pass (non_empty (GetForbiddenChars p)) (fun m => replaceForbidden m (GetForbiddenChars p))
    "forbidden_char" (mkSanitized n n false []) = mkSanitized n n false []) as ->.
  { unfold pass. destruct (GetForbiddenChars p) eqn:E; [done|]. cbn [non_empty SanitizedName].
    rewrite <- E, replaceForbidden_id; [by rewrite String.eqb_refl|apply Hv; congruence|done]. }
  assert (pass (String.eqb p "seafile") replaceUnicodeSymbols "unsupported_unicode_symbol"
    (mkSanitized n n false []) = mkSanitized n n false []) as ->.
  { unfold pass. destruct (String.eqb p "seafile") eqn:E; [|done]. apply String.eqb_eq in E.
    cbn [SanitizedName]. unfold replaceUnicodeSymbols. rewrite replace_symbols_id by auto.
    assert (encode_runes (runes n) = n) as -> by (apply Hv; rewrite E; apply seafile_forbidden).
    by rewrite String.eqb_refl. }
  cbn [pass]. unfold fit_length. cbn [SanitizedName].
  rewrite (proj2 (Z.ltb_ge _ _)) by done. cbn [SanitizedName].
  by rewrite (proj2 (String.eqb_neq _ _) Hn).
Qed.

Lemma sanitized_name_cases name p :
  (SanitizedName (SanitizeFilename name p) = "unnamed_file")
  \/ (SanitizedName (SanitizeFilename name p)
      = SanitizedName (fit_length p (sanitize_passes p (mkSanitized name name false [])))
      /\ SanitizedName (SanitizeFilename name p) <> "").
Proof.
  unfold SanitizeFilename. destruct (String.eqb name ""); [by left|].
  destruct (String.eqb (SanitizedName _) "") eqn:E; [by left|]. right. split; [done|].
  by apply String.eqb_neq.
Qed.
End Name_facts.

(** ** Properties *)

Lemma sanitized_name_ok `{UnicodeTables} name p :
  let r := SanitizeFilename name p in
  SanitizedName r <> "" /\ filenameLength (SanitizedName r) p <= getMaxFilenameLength p
  /\ (forall f, f ∈ GetForbiddenChars p -> f ∉ runes (SanitizedName r))
  /\ (Changed r = false -> SanitizedName r = name).
Proof.
  cbv zeta. pose proof (sanitize_reported name p : Changed _ = false -> _) as Hu.
  destruct (sanitized_name_cases name p) as [E|[E Hn]].
  - rewrite E in *. split_and!; [done|apply unnamed_ok|apply unnamed_ok|done].
  - split_and!; [done|rewrite E; apply fit_length_spec| |done]. rewrite E.
    unfold fit_length. destruct (_ <? _); [apply truncatePreserveExt_clean|]; apply passes_clean.
Qed.

(** C39: a sanitized name is acceptable.  Whatever the name and the provider, the
    result is not empty, is within the provider's length limit in the unit the
    provider counts, and has none of the provider's forbidden characters; a
    result reported as unchanged is the name itself. *)
Theorem sanitize_acceptable `{UnicodeTables} name p :
  let r := SanitizeFilename name p in
  SanitizedName r <> "" /\ filenameLength (SanitizedName r) p <= getMaxFilenameLength p
  /\ (forall f, f ∈ GetForbiddenChars p -> f ∉ runes (SanitizedName r))
  /\ (Changed r = false -> SanitizedName r = name).
Proof. apply sanitized_name_ok. Qed.

(** Sanitizing is stable.  On every provider without Windows naming rules a
    sanitized name is left as it is when it is sanitized again, so that a path
    built from sanitized names does not drift between passes. *)
Theorem sanitize_stable `{UnicodeTables} name p :
  is_windows p = false ->
  let n := SanitizedName (SanitizeFilename name p) in
  SanitizeFilename n p = mkSanitized n n false [].
Proof.
  intros Hw. cbv zeta. pose proof (sanitized_name_ok name p) as (Hn & Hl & _).
  apply settled_unchanged; [done| |done|done].
  destruct (sanitized_name_cases name p) as [->|[-> _]]; [apply unnamed_settled|].
  by apply fit_settled, passes_settled.
Qed.

(** ** Resolving collisions *)

Section Resolve_facts.
Context `{UnicodeTables}.

(** The name of the [n]-th attempt. *)
Definition attempt (fileName p : string) (n : Z) : string :=
  let '(base, ext) := split_ext fileName in
  SanitizedName (SanitizeFilename (collisionCandidate base ext n p) p).

Lemma resolve_loop_spec k n base ext p items :
  let at_ i := SanitizedName (SanitizeFilename (collisionCandidate base ext i p) p) in
  match resolve_loop k n base ext p items with
  | Some c => exists i, n <= i < n + Z.of_nat k /\ c = at_ i /\ taken items p c = false
                /\ forall j, n <= j < i -> taken items p (at_ j) = true
  | None => forall j, n <= j < n + Z.of_nat k -> taken items p (at_ j) = true
  end.
Proof.
  cbv zeta. revert n. induction k as [|k IH]; intros n; cbn [resolve_loop]; [lia|].
  destruct (taken items p _) eqn:E; cycle 1.
  { exists n. split; [lia|]. split; [done|]. split; [done|]. lia. }
  specialize (IH (n + 1)). destruct (resolve_loop k (n + 1) base ext p items) as [c|].
  - destruct IH as (i & Hi & -> & Ht & Hall). exists i. split_and!; try (done || lia).
    intros j Hj. destruct (decide (j = n)) as [->|]; [done|apply Hall; lia].
  - intros j Hj. destruct (decide (j = n)) as [->|]; [done|apply IH; lia].
Qed.
End Resolve_facts.

Lemma resolve_collision_spec `{UnicodeTables} listing fileName p :
  match ResolveCollision listing fileName p with
  | Ok c => exists items n, listing = Ok items /\ 1 <= n <= 100 /\ c = attempt fileName p n
      /\ (forall i, i ∈ items -> item_name i <> c
            /\ (IsCaseInsensitive p = true -> EqualFold (item_name i) c = false))
      /\ forall m, 1 <= m < n -> taken items p (attempt fileName p m) = true
  | Err _ => forall items, listing = Ok items ->
      forall n, 1 <= n <= 100 -> taken items p (attempt fileName p n) = true
  end.
Proof.
  unfold ResolveCollision, attempt. destruct (split_ext fileName) as [base ext].
  destruct listing as [items|e]; [|done].
  pose proof (resolve_loop_spec maxRenameAttempts 1 base ext p items) as Hl. cbv zeta in Hl.
  destruct (resolve_loop maxRenameAttempts 1 base ext p items) as [c|].
  - destruct Hl as (i & Hi & -> & Ht & Hall). exists items, i.
    split_and!; [done|unfold maxRenameAttempts in Hi; lia..|done| |exact Hall].
    apply orb_false_elim in Ht as [Hin Hci]. apply bool_decide_eq_false in Hin.
    intros it Hit. split.
    + intros Hn. apply Hin. rewrite <- Hn. by apply list_elem_of_fmap_2.
    + intros Hp. rewrite Hp in Hci. cbn [andb] in Hci. apply not_true_is_false. intros Hf.
      apply not_true_iff_false in Hci. apply Hci. apply existsb_exists. exists it.
      split; [by apply list_elem_of_In|done].
  - intros items' [= <-] n Hn. apply Hl. unfold maxRenameAttempts. lia.
Qed.

(** A resolved collision is the first free name.  The result is the sanitized
    candidate of the first attempt, of one hundred, that is no name of the
    directory and, where the provider ignores case, no name up to case; it is an
    error only when the directory cannot be listed or every candidate is taken. *)
Theorem resolve_collision_first `{UnicodeTables} listing fileName p :
  match ResolveCollision listing fileName p with
  | Ok c => exists items n, listing = Ok items /\ 1 <= n <= 100 /\ c = attempt fileName p n
      /\ (forall i, i ∈ items -> item_name i <> c
            /\ (IsCaseInsensitive p = true -> EqualFold (item_name i) c = false))
      /\ forall m, 1 <= m < n -> taken items p (attempt fileName p m) = true
  | Err _ => forall items, listing = Ok items ->
      forall n, 1 <= n <= 100 -> taken items p (attempt fileName p n) = true
  end.
Proof. apply resolve_collision_spec. Qed.

(** ** A free name is found *)

Lemma str_app_inj_r s t u : (s +:+ u = t +:+ u)%string -> s = t.
Proof.
  intros E. pose proof (f_equal String.length E) as Hl. rewrite !str_length_app in Hl.
  apply str_app_inj_len in E; [by destruct E|lia].
Qed.

(** The digits after the last character that is no digit. *)
Lemma digits_tail x y c d e :
  is_digit c = false -> all_digits d = true -> all_digits e = true ->
  (x +:+ String c d = y +:+ String c e)%string -> d = e.
Proof.
  intros Hc Hd He E. destruct (str_app_split _ _ _ _ E) as (w & [[_ Ew]|[_ Ew]]);
    (destruct w as [|a w]; [by injection Ew|]);
    rewrite str_app_cons in Ew; injection Ew as -> Ew;
    [apply (f_equal (str_count a)) in Ew; rewrite (digits_no_char a d) in Ew by done
    |apply (f_equal (str_count a)) in Ew; rewrite (digits_no_char a e) in Ew by done];
    rewrite str_count_app in Ew; cbn in Ew; rewrite Ascii.eqb_refl in Ew; lia.
Qed.

Lemma format_int_inj n m :
  0 <= n < two63 -> 0 <= m < two63 -> format_int n = format_int m -> n = m.
Proof.
  intros Hn Hm E. pose proof (parse_format_int n Hn) as Hp.
  rewrite E, parse_format_int in Hp by done. congruence.
Qed.

Lemma ascii_runes s :
  is_ascii s = true -> valid_utf8 s /\ Forall (fun r => 0 <= r < 128) (runes s)
    /\ RuneCountInString s = str_len s.
Proof.
  induction s as [|c s IH]; [done|]. cbn [is_ascii]. intros [Hc Hs]%andb_prop.
  apply Nat.ltb_lt in Hc. destruct (IH Hs) as (Hv & Hf & Hl).
  assert (0 <= code c < 128) as Hr.
  { unfold code. unfold nat_of_ascii in Hc. pose proof (N_ascii_bounded c). lia. }
  assert (runes (String c s) = code c :: runes s) as E by (apply (runes_app_ascii "" c s); lia).
  split_and!.
  - unfold valid_utf8. rewrite E. cbn [encode_runes]. rewrite encode_rune_valid by (apply valid_rune_spec; lia).
    unfold encode_valid. rewrite (proj2 (Z.ltb_lt _ _)) by lia. rewrite (chr_code c) by done.
    rewrite str_app_cons, str_app_nil_l. by f_equal.
  - rewrite E. by constructor.
  - unfold RuneCountInString, str_len in *. rewrite E. unfold zlen in *. cbn [length String.length]. lia.
Qed.

Section Found.
Context `{UnicodeTables}.

Lemma suffix_length n : 1 <= n <= 100 -> str_len ("_" +:+ format_int n)%string <= 4.
Proof.
  intros Hn. apply Z.leb_le.
  assert (forallb (fun n => str_len ("_" +:+ format_int n)%string <=? 4)
            (map Z.of_nat (seq 1 100)) = true) as Ha by reflexivity.
  rewrite forallb_forall in Ha. apply Ha, in_map_iff. exists (Z.to_nat n).
  split; [lia|apply in_seq; lia].
Qed.

(** The number between the name and its extension, none of it forbidden. *)
Lemma suffix_clean n p :
  1 <= n <= 100 -> is_ascii ("_" +:+ format_int n)%string = true
    /\ clean p (runes ("_" +:+ format_int n)%string).
Proof.
  intros Hn. destruct (format_int_digits n) as [Hd _]; [unfold two63; lia|].
  split; [rewrite str_app_cons, str_app_nil_l; cbn [is_ascii]; by rewrite digits_ascii|].
  apply clean_bytes. intros f Hf. pose proof (forbidden_ascii p f Hf) as [Hr Hu].
  rewrite str_app_cons, str_app_nil_l, str_count_cons_other.
  - apply digits_no_char; [|done]. pose proof (forbidden_lists p) as Hl.
    rewrite !elem_of_cons in Hl. destruct Hl as [E|[E|[E|[E|E]]]];
      [rewrite E in Hf; unfold windows_forbidden in Hf; rewrite ?elem_of_cons in Hf;
       repeat (destruct Hf as [->|Hf]; [reflexivity|]); by apply elem_of_nil in Hf..
      |by apply elem_of_nil in E].
  - intros E. apply Hu. apply (f_equal code) in E. rewrite code_chr in E by lia. by rewrite <- E.
Qed.

Lemma settled_app p s t :
  valid_utf8 s -> settled p s -> settled p t -> settled p (s +:+ t)%string.
Proof.
  intros Hv (Hs1 & Hs2 & Hs3) (Ht1 & Ht2 & Ht3). split_and!.
  - intros Hf. apply valid_app; auto.
  - by apply clean_app.
  - intros Hp. rewrite valid_app_runes by done. apply Forall_app. auto.
Qed.

Lemma settled_ascii p s : is_ascii s = true -> clean p (runes s) -> settled p s.
Proof.
  intros Ha Hc. destruct (ascii_runes s Ha) as (Hv & Hf & _). split_and!; [done|done|].
  intros _. eapply Forall_impl; [exact Hf|]. cbn. intros r Hr. unfold is_So.
  by rewrite (proj2 (Z.leb_gt _ _)) by lia.
Qed.

Lemma split_settled p name base ext :
  split_ext name = (base, ext) -> settled p name -> settled p base /\ settled p ext.
Proof.
  intros E (Hv & Hc & Hs). pose proof (split_ext_spec _ _ _ E) as [-> _].
  apply clean_app in Hc as [Hb He].
  assert (p = "seafile" -> Forall (fun r => is_So r = false) (runes base)
    /\ Forall (fun r => is_So r = false) (runes ext)) as Hse.
  { intros ->. specialize (Hs eq_refl). destruct (split_ext_valid _ _ _ E (Hv seafile_forbidden)).
    rewrite valid_app_runes in Hs by done. by apply Forall_app in Hs. }
  split; (split_and!; [|done|intros Hp; by apply Hse]); intros Hf;
    by destruct (split_ext_valid _ _ _ E (Hv Hf)).
Qed.

Lemma truncate_settled p base k :
  settled p base -> valid_utf8 (truncateFilename base k p) /\ settled p (truncateFilename base k p).
Proof.
  intros (Hv & Hc & Hs).
  assert (valid_utf8 (truncateFilename base k p)) as Hvt.
  { destruct (truncated_valid base k p) as [->|]; [|done].
    apply truncateFilename_valid, Hv. by vm_compute. }
  split; [done|]. split_and!; [done|by apply truncateFilename_clean|].
  intros ->. specialize (Hs eq_refl). rewrite Forall_forall in Hs |- *. intros r Hr. apply Hs.
  eapply truncateFilename_subset; [|exact Hr]. done.
Qed.

(** With room for the number, an attempt is the name cut, numbered and extended. *)
Lemma attempt_form name p n :
  is_windows p = false -> settled p name -> 1 <= n <= 100 ->
  filenameLength (split_ext name).2 p + 4 < getMaxFilenameLength p ->
  exists t, attempt name p n = (t +:+ String "_"%char (format_int n) +:+ (split_ext name).2)%string.
Proof.
  intros Hw Hs Hn Hl. unfold attempt. destruct (split_ext name) as [base ext] eqn:E.
  cbn [snd] in *. destruct (split_settled _ _ _ _ E Hs) as [Hb He].
  destruct (suffix_clean n p Hn) as [Ha Hc]. pose proof (suffix_length n Hn) as Hsl.
  destruct (ascii_runes _ Ha) as (Hva & _ & Hra).
  assert (filenameLength ("_" +:+ format_int n)%string p <= 4) as Hs4.
  { unfold filenameLength. case_match; [done|]. rewrite Hra. done. }
  assert (collisionCandidate base ext n p
    = (truncateFilename base (getMaxFilenameLength p
         - filenameLength (("_" +:+ format_int n) +:+ ext) p) p
       +:+ (("_" +:+ format_int n) +:+ ext))%string) as Ec.
  { unfold collisionCandidate. rewrite str_app_assoc.
    rewrite (filenameLength_app _ ext) by by right.
    rewrite (proj2 (Z.leb_gt _ _)) by lia. done. }
  rewrite Ec. set (k := getMaxFilenameLength p - _).
  destruct (truncate_settled p base k Hb) as [Hvt Hst].
  assert (0 < k) as Hk by (subst k; rewrite filenameLength_app by (by right); lia).
  rewrite settled_unchanged; cbn [SanitizedName]; [by exists (truncateFilename base k p)|done| | |].
  - apply settled_app; [done|done|]. apply settled_app; [done|by apply settled_ascii|done].
  - rewrite str_app_cons, str_app_cons. by destruct (truncateFilename base k p).
  - rewrite filenameLength_app by by right. pose proof (truncateFilename_length base k p Hk). lia.
Qed.

Lemma attempt_inj name p n m :
  is_windows p = false -> settled p name ->
  filenameLength (split_ext name).2 p + 4 < getMaxFilenameLength p ->
  1 <= n <= 100 -> 1 <= m <= 100 -> attempt name p n = attempt name p m -> n = m.
Proof.
  intros Hw Hs Hl Hn Hm E.
  destruct (attempt_form name p n Hw Hs Hn Hl) as [t En].
  destruct (attempt_form name p m Hw Hs Hm Hl) as [u Em].
  rewrite En, Em, !str_app_assoc in E. apply str_app_inj_r in E.
  apply digits_tail in E; [|reflexivity|apply format_int_digits; unfold two63; lia..].
  apply format_int_inj in E; unfold two63; lia.
Qed.
End Found.

(** A collision is resolved.  On a case-sensitive provider without Windows
    naming rules, a sanitized name whose extension leaves room for a number always
    gets a free name in a directory of fewer than one hundred entries. *)
Theorem collision_resolved `{UnicodeTables} name items p :
  is_windows p = false -> IsCaseInsensitive p = false -> (length items < 100)%nat ->
  let fileName := SanitizedName (SanitizeFilename name p) in
  filenameLength (split_ext fileName).2 p + 4 < getMaxFilenameLength p ->
  exists c, ResolveCollision (Ok items) fileName p = Ok c.
Proof.
  intros Hw Hci Hlen fileName Hl.
  assert (settled p fileName) as Hs.
  { subst fileName. destruct (sanitized_name_cases name p) as [->|[-> _]];
      [apply unnamed_settled|by apply fit_settled, passes_settled]. }
  pose proof (resolve_collision_spec (Ok items) fileName p) as Hr.
  destruct (ResolveCollision (Ok items) fileName p) as [c|e]; [by exists c|]. exfalso.
  set (ns := map Z.of_nat (seq 1 100)).
  assert (forall n, n ∈ ns -> 1 <= n <= 100) as Hns.
  { intros n (k & -> & Hk)%list_elem_of_fmap. apply elem_of_seq in Hk. lia. }
  assert (map (attempt fileName p) ns ⊆+ map item_name items) as Hsub.
  { apply NoDup_submseteq.
    - apply NoDup_fmap_2_strong; [|by apply (bool_decide_unpack (NoDup ns)); vm_compute].
      intros n m Hn Hm. by apply attempt_inj; auto.
    - intros c (n & -> & Hn)%list_elem_of_fmap. specialize (Hr items eq_refl n (Hns n Hn)).
      unfold taken in Hr. rewrite Hci, orb_false_r in Hr. by apply bool_decide_eq_true in Hr. }
  apply submseteq_length in Hsub. rewrite !length_map in Hsub. cbn in Hsub. lia.
Qed.

(** ** Witnesses and limits *)

Section Examples.
#[local] Instance plain_tables : UnicodeTables := {|
  uni_case := ascii_tables;
  uni_So := fun r => in_range 127744 129791 r;
  uni_Mn := fun r => in_range 768 879 r;
  uni_Cf := fun r => in_range 8203 8207 r;
|}.

Lemma sanitize_stable_witness :
  is_windows "hidrive" = false
  /\ SanitizeFilename (SanitizedName (SanitizeFilename "a/b.txt" "hidrive")) "hidrive"
     = mkSanitized "a_b.txt" "a_b.txt" false [].
Proof. split; [reflexivity|]. exact (sanitize_stable "a/b.txt" "hidrive" eq_refl). Defined.

Lemma collision_resolved_witness :
  exists c, ResolveCollision (Ok [mkResource "/x.txt" "x.txt" 1 false "" "" 0]) "x.txt" "sftp" = Ok c.
Proof.
  apply (collision_resolved "x.txt" [mkResource "/x.txt" "x.txt" 1 false "" "" 0] "sftp");
    [reflexivity|reflexivity|cbn; lia|vm_compute; reflexivity].
Defined.

(** Trimming comes after the check for reserved names and can produce one. *)
Example reserved_name_after_trim :
  SanitizedName (SanitizeFilename "CON " "smb") = "CON"
  /\ SanitizedName (SanitizeFilename "CON" "smb") = "_CON".
Proof. split; vm_compute; reflexivity. Qed.

Fixpoint letters (n : nat) : string :=
  match n with O => "" | S n => String "a"%char (letters n) end.

(** Truncation comes after trimming and can leave a trailing space. *)
Example trailing_space_after_cut :
  SanitizedName (SanitizeFilename (letters 254 +:+ " bc") "onedrive") = (letters 254 +:+ " ")%string.
Proof. vm_compute. reflexivity. Qed.
End Examples.
