(* ===== verification/Streams.v ===== *)
(** * Sized readers

    The wrappers that make a stream end where its declared size says:
    expectedSizeReader (src/backend/internal/processor/expected_size_reader.go),
    ExactSizeReader (storage/file_manager.go), exactRangedReadCloser
    (storage/ranges.go), and the ThrottledReader below them
    (throttle/throttle.go).  A reader is a state with a read operation; [Source]
    is the contract of io.Reader for a stream with a content, and every wrapper is
    proved to keep it. *)

From S2P Require Import Prelude Bytes.

Inductive io_error :=
| EOF
| ErrUnexpectedEOF
| ErrUploadSizeMismatch
| IOError (what : string).

#[export] Instance io_error_eq_dec : EqDecision io_error.
Proof. solve_decision. Defined.

(** [Read(p)] for a buffer of the given length: the bytes, the error, the state. *)
Abbreviation read_op R := (R -> Z -> bytes * option io_error * R).

(** The contract of a reader with bytes [content] left: a read delivers a prefix
    that fits the buffer, and EOF means that nothing is left.  Other errors may
    occur at any time. *)
Class Source {R} (read : read_op R) (content : R -> bytes) : Prop := {
  source_split : forall r n d e r', 0 <= n -> read r n = (d, e, r') -> content r = d ++ content r';
  source_fits : forall r n d e r', 0 <= n -> read r n = (d, e, r') -> zlen d <= n;
  source_eof : forall r n d r', 0 <= n -> read r n = (d, Some EOF, r') -> content r' = [];
}.

(** A consumer: it asks for buffers and reacts to what it gets. *)
Inductive consumer (A : Type) :=
| Done (a : A)
| ReadMore (n : Z) (k : bytes -> option io_error -> consumer A).
Arguments Done {A} a.
Arguments ReadMore {A} n k.

Section Run.
Context {R A : Type} (read : read_op R).

(** The result, the bytes the consumer got, the errors it saw, the reader. *)
Fixpoint run_consumer (c : consumer A) (r : R) : A * bytes * list io_error * R :=
  match c with
  | Done a => (a, [], [], r)
  | ReadMore n k =>
      let '(d, e, r1) := read r (Z.max 0 n) in
      let '(a, d', es, r2) := run_consumer (k d e) r1 in
      (a, d ++ d', option_list e ++ es, r2)
  end.
End Run.

Section Wrappers.
Context {R : Type} (read : read_op R).

(** ** expectedSizeReader *)

Record expectedSizeReader := mkExpected {
  er_r : R;
  expected : Z;
  er_read : Z;
  complete : bool;
}.

Definition newExpectedSizeReader (r : R) (expected : Z) : expectedSizeReader :=
  mkExpected r expected 0 false.

Definition expected_Read (h : expectedSizeReader) (n : Z)
    : bytes * option io_error * expectedSizeReader :=
  if expected h <=? er_read h then ([], Some EOF, h)
  else
    let remaining := expected h - er_read h in
    let n := if remaining <? n then remaining else n in
    let '(d, err, r) := read (er_r h) n in
    let h := mkExpected r (expected h) (er_read h + zlen d) (complete h) in
    let err := if (er_read h <? expected h) && bool_decide (err = Some EOF)
               then Some ErrUnexpectedEOF else err in
    (d, err, h).

Definition VerifyComplete (h : expectedSizeReader) : res string unit * expectedSizeReader :=
  if negb (er_read h =? expected h) then (Err "source stream size mismatch", h)
  else if complete h then (Ok tt, h)
  else
    let '(d, err, r) := read (er_r h) 1 in
    let h := mkExpected r (expected h) (er_read h) (complete h) in
    if 0 <? zlen d then (Err "read more than expected bytes", h)
    else match err with
    | Some EOF => (Ok tt, mkExpected r (expected h) (er_read h) true)
    | Some _ => (Err "failed to confirm source stream length", h)
    | None => (Err "reader returned no data", h)
    end.

(** ** ExactSizeReader *)

Record ExactSizeReader := mkExact {
  xr_reader : R;
  xr_remaining : Z;
  checked : bool;
  trailing : option io_error;
}.

Definition NewExactSizeReader (r : R) (size : Z) : ExactSizeReader := mkExact r size false None.

Definition checkTrailing (h : ExactSizeReader) : option io_error * ExactSizeReader :=
  if checked h then (trailing h, h)
  else
    let '(d, err, r) := read (xr_reader h) 1 in
    if 0 <? zlen d
    then (Some ErrUploadSizeMismatch,
          mkExact r (xr_remaining h) true (Some ErrUploadSizeMismatch))
    else match err with
    | None | Some EOF => (None, mkExact r (xr_remaining h) true (trailing h))
    | Some e => (Some e, mkExact r (xr_remaining h) true (Some e))
    end.

Definition exact_Read (h : ExactSizeReader) (n : Z)
    : bytes * option io_error * ExactSizeReader :=
  if n =? 0 then ([], None, h)
  else if xr_remaining h =? 0 then
    match checkTrailing h with
    | (Some e, h) => ([], Some e, h)
    | (None, h) => ([], Some EOF, h)
    end
  else
    let n := if xr_remaining h <? n then xr_remaining h else n in
    let '(d, err, r) := read (xr_reader h) n in
    (d, err, mkExact r (xr_remaining h - zlen d) (checked h) (trailing h)).

Definition Verify (h : ExactSizeReader) : option io_error * ExactSizeReader :=
  if negb (xr_remaining h =? 0) then (Some ErrUploadSizeMismatch, h) else checkTrailing h.

(** ** exactRangedReadCloser *)

Record exactRangedReadCloser := mkRanged {
  rc : R;
  rc_remaining : Z;
}.

Definition newRangedReadCloser (rc : R) (length : Z) : exactRangedReadCloser := mkRanged rc length.

Definition ranged_Read (h : exactRangedReadCloser) (n : Z)
    : bytes * option io_error * exactRangedReadCloser :=
  if rc_remaining h <=? 0 then ([], Some EOF, h)
  else
    let n := if rc_remaining h <? n then rc_remaining h else n in
    let '(d, err, r) := read (rc h) n in
    let h := mkRanged r (rc_remaining h - zlen d) in
    if bool_decide (err = Some EOF) && (0 <? rc_remaining h)
    then (d, Some ErrUnexpectedEOF, h) else (d, err, h).
End Wrappers.
Arguments mkExpected {R}. Arguments er_r {R}. Arguments er_read {R}. Arguments expected {R}.
Arguments complete {R}. Arguments mkExact {R}. Arguments xr_reader {R}. Arguments xr_remaining {R}.
Arguments checked {R}. Arguments trailing {R}. Arguments mkRanged {R}. Arguments rc {R}.
Arguments rc_remaining {R}.

(** ** ThrottledReader *)

Section Throttle.
Context {R : Type} (read : read_op R).

(** The limiter in force: its burst, and [WaitN] as a state transition of the
    token bucket that may fail. *)
Record limiter (L : Type) := mkLimiter {
  Burst : Z;
  WaitN : L -> Z -> option io_error * L;
}.
Arguments Burst {L} _. Arguments WaitN {L} _ _ _.

(** The context's error is polled first; a nil limiter lets everything through. *)
Definition throttled_Read {L} (ctx_err : L -> option io_error) (lim : L -> option (limiter L))
    (h : R * L) (n : Z) : bytes * option io_error * (R * L) :=
  let '(r, l) := h in
  match ctx_err l with
  | Some e => ([], Some e, h)
  | None =>
      if n =? 0 then let '(d, e, r) := read r n in (d, e, (r, l))
      else match lim l with
      | None => let '(d, e, r) := read r n in (d, e, (r, l))
      | Some lm =>
          let readSize := if (0 <? Burst lm) && (Burst lm <? n) then Burst lm else n in
          match WaitN lm l readSize with
          | (Some e, l) => ([], Some e, (r, l))
          | (None, l) => let '(d, e, r) := read r readSize in (d, e, (r, l))
          end
      end
  end.
End Throttle.
Arguments mkLimiter {L}. Arguments Burst {L}. Arguments WaitN {L}.

(** ** The wrappers are readers *)

Lemma ztake_app_more {A} n (d c : list A) : zlen d <= n -> ztake n (d ++ c) = d ++ ztake (n - zlen d) c.
Proof.
  intros H. unfold zlen in *. rewrite !ztake_take, take_app_ge by lia. do 2 f_equal. lia.
Qed.

Lemma ztake_nonpos {A} n (l : list A) : n <= 0 -> ztake n l = [].
Proof. intros H. rewrite ztake_take. by replace (Z.to_nat n) with O by lia. Qed.

Lemma ztake_nil {A} n : ztake n (@nil A) = [].
Proof. done. Qed.

Lemma clamp_le a b : (if a <? b then a else b) = Z.min a b.
Proof. destruct (a <? b) eqn:E; lia. Qed.

Section Contracts.
Context {R : Type} (read : read_op R) (content : R -> bytes) `{!Source read content}.

Definition expected_content (h : expectedSizeReader) : bytes :=
  ztake (expected h - er_read h) (content (er_r h)).

Lemma expected_step h n d e h' :
  0 <= n -> expected_Read read h n = (d, e, h') ->
  expected_content h = d ++ expected_content h' /\ zlen d <= n
  /\ (e = Some EOF -> expected_content h' = [] /\ expected h <= er_read h')
  /\ er_read h' = er_read h + zlen d /\ expected h' = expected h /\ complete h' = complete h
  /\ (er_read h <= expected h -> er_read h' <= expected h)
  /\ content (er_r h) = d ++ content (er_r h').
Proof.
  intros Hn. unfold expected_Read, expected_content.
  destruct (expected h <=? er_read h) eqn:E.
  { intros H. simplify_eq. rewrite ztake_nonpos by lia. change (zlen []) with 0.
    split_and!; try done; try lia; intros _; split; done || lia. }
  rewrite clamp_le. destruct (read _ _) as [[d1 e1] r1] eqn:Er.
  assert (0 <= Z.min (expected h - er_read h) n) as Hm by lia.
  pose proof (source_fits _ _ _ _ _ Hm Er) as Hf.
  pose proof (source_split _ _ _ _ _ Hm Er) as Hs.
  cbn [er_r er_read expected]. intros H. simplify_eq. cbn [er_r er_read expected complete].
  split_and!; try done; try lia.
  - rewrite Hs, ztake_app_more by lia. do 2 f_equal. lia.
  - case_bool_decide as Ee; [|by rewrite andb_false_r].
    subst e1. destruct (er_read h + zlen d <? expected h) eqn:E2; cbn [andb]; [done|].
    intros _. pose proof (source_eof (content := content) _ _ _ _ Hm Er) as ->.
    split; [apply ztake_nil|lia].
Qed.

#[export] Instance expected_source : Source (expected_Read read) expected_content.
Proof.
  split; intros * Hn H; apply (expected_step _ _ _ _ _ Hn) in H as (Hs & Hf & He & _);
    [done..|by apply He].
Qed.

Lemma run_expected {A} (c : consumer A) h a d es h' :
  run_consumer (expected_Read read) c h = (a, d, es, h') ->
  content (er_r h) = d ++ content (er_r h') /\ er_read h' = er_read h + zlen d
  /\ expected h' = expected h /\ complete h' = complete h
  /\ (er_read h <= expected h -> er_read h' <= expected h)
  /\ (EOF ∈ es -> expected h <= er_read h').
Proof.
  revert h a d es h'. induction c as [a0|n k IH]; intros h a d es h'; cbn [run_consumer].
  { intros H. simplify_eq. change (zlen []) with 0. split_and!; try done; try lia. by intros ?%elem_of_nil. }
  destruct (expected_Read read h (Z.max 0 n)) as [[d1 e1] h1] eqn:E1.
  destruct (run_consumer (expected_Read read) (k d1 e1) h1) as [[[a2 d2] es2] h2] eqn:E2.
  intros H. simplify_eq. apply IH in E2 as (I1 & I2 & I3 & I4 & I5 & I6).
  apply expected_step in E1 as (_ & _ & He & Hr & Hx & Hc & Hle & Hs); [|lia].
  pose proof (zlen_nonneg d2). rewrite zlen_app. split_and!; try lia.
  - by rewrite Hs, I1, app_assoc.
  - congruence.
  - rewrite elem_of_app. intros [Hin|Hin].
    + destruct e1 as [e1|]; [|by apply elem_of_nil in Hin].
      apply list_elem_of_singleton in Hin as <-. destruct (He eq_refl). lia.
    + rewrite Hx in I6. by apply I6.
Qed.

(** A completed check found the end of the stream. *)
Lemma verify_complete_end h :
  complete h = false -> (VerifyComplete read h).1 = Ok tt ->
  content (er_r h) = [] /\ er_read h = expected h.
Proof.
  intros Hcm. unfold VerifyComplete. destruct (er_read h =? expected h) eqn:E; [|done].
  cbn [negb]. rewrite Hcm. destruct (read (er_r h) 1) as [[d1 e1] r1] eqn:Er.
  destruct (0 <? zlen d1) eqn:El; [done|].
  assert (d1 = []) as -> by (apply zlen_nil_inv; pose proof (zlen_nonneg d1); lia).
  destruct e1 as [[]|]; try done. intros _.
  assert (0 <= 1) as Hn by lia.
  pose proof (source_split (content := content) _ _ _ _ _ Hn Er) as Hs.
  rewrite (source_eof (content := content) _ _ _ _ Hn Er) in Hs. split; [done|lia].
Qed.

(** ** ExactSizeReader *)

Lemma checkTrailing_keeps h err h' :
  checkTrailing read h = (err, h') -> xr_remaining h' = xr_remaining h.
Proof.
  unfold checkTrailing. destruct (checked h); [by intros [= <- <-]|].
  destruct (read (xr_reader h) 1) as [[d e] r]. destruct (0 <? zlen d); [by intros [= <- <-]|].
  destruct e as [[]|]; by intros [= <- <-].
Qed.

(** The state after handing out [d] of a stream with content [c0]: once the end
    was probed without an error, [d] is everything. *)
Definition exact_inv (c0 d : bytes) (size : Z) (h : ExactSizeReader) : Prop :=
  0 <= xr_remaining h /\ xr_remaining h = size - zlen d
  /\ if checked h then xr_remaining h = 0 /\ (trailing h = None -> c0 = d)
     else trailing h = None /\ c0 = d ++ content (xr_reader h).

Hypothesis probe_answers : forall r r', read r 1 <> ([], None, r').

Lemma exact_inv_check c0 d size h err h' :
  exact_inv c0 d size h -> xr_remaining h = 0 -> checkTrailing read h = (err, h') ->
  exact_inv c0 d size h' /\ (err = None -> c0 = d).
Proof.
  intros (H0 & Hr & Hi) Hz. unfold checkTrailing, exact_inv. destruct (checked h) eqn:Ec.
  { intros [= <- <-]. rewrite Ec. destruct Hi as [_ Hi]. by split_and!. }
  destruct Hi as [Ht ->]. destruct (read (xr_reader h) 1) as [[d1 e1] r1] eqn:Er.
  assert (0 <= 1) as Hn by lia.
  pose proof (source_split _ _ _ _ _ Hn Er) as Hs.
  destruct (0 <? zlen d1) eqn:El.
  { intros [= <- <-]. cbn. by split_and!. }
  assert (d1 = []) as -> by (apply zlen_nil_inv; pose proof (zlen_nonneg d1); lia).
  assert (e1 = None -> False) as He by (intros ->; by apply probe_answers in Er).
  destruct e1 as [e1|]; [|by destruct He].
  destruct (decide (e1 = EOF)) as [->|Hne].
  - intros [= <- <-]. cbn. pose proof (source_eof (content := content) _ _ _ _ Hn Er) as Hc.
    rewrite Hs, Hc, !app_nil_r. by split_and!.
  - assert (checkTrailing read h = (Some e1, mkExact r1 (xr_remaining h) true (Some e1))) as Hct.
    { unfold checkTrailing. rewrite Ec, Er. cbn. by destruct e1. }
    intros H. assert ((err, h') = (Some e1, mkExact r1 (xr_remaining h) true (Some e1))) as Heq.
    { rewrite <- H. by destruct e1. }
    injection Heq as -> ->. cbn. by split_and!.
Qed.

Lemma exact_inv_read c0 d size h n d1 e h' :
  exact_inv c0 d size h -> 0 <= n -> exact_Read read h n = (d1, e, h') ->
  exact_inv c0 (d ++ d1) size h'.
Proof.
  intros Hi Hn. unfold exact_Read. destruct (n =? 0); [intros H; simplify_eq; by rewrite app_nil_r|].
  destruct (xr_remaining h =? 0) eqn:Ez.
  { destruct (checkTrailing read h) as [err h1] eqn:Ec. apply (exact_inv_check c0 d size) in Ec as [Ec _];
      [|done|lia].
    destruct err; intros H; simplify_eq; by rewrite app_nil_r. }
  rewrite clamp_le. destruct Hi as (H0 & Hr & Hi).
  destruct (read _ _) as [[d2 e2] r2] eqn:Er. intros H. simplify_eq.
  assert (0 <= Z.min (xr_remaining h) n) as Hm by lia.
  pose proof (source_split _ _ _ _ _ Hm Er) as Hs. pose proof (source_fits _ _ _ _ _ Hm Er) as Hf.
  unfold exact_inv. cbn [xr_remaining checked trailing xr_reader]. rewrite zlen_app.
  destruct (checked h); [destruct Hi; lia|]. destruct Hi as [Ht ->].
  split_and!; try lia; [done|]. by rewrite Hs, app_assoc.
Qed.

Lemma exact_inv_run {A} (c : consumer A) c0 d size h a d1 es h' :
  exact_inv c0 d size h -> run_consumer (exact_Read read) c h = (a, d1, es, h') ->
  exact_inv c0 (d ++ d1) size h'.
Proof.
  revert d h a d1 es h'. induction c as [a0|n k IH]; intros d h a d1 es h' Hi; cbn [run_consumer].
  { intros H. simplify_eq. by rewrite app_nil_r. }
  destruct (exact_Read read h (Z.max 0 n)) as [[d2 e2] h2] eqn:E1.
  destruct (run_consumer (exact_Read read) (k d2 e2) h2) as [[[a3 d3] es3] h3] eqn:E2.
  intros H. simplify_eq. rewrite app_assoc. eapply IH, E2.
  eapply exact_inv_read, E1; [done|lia].
Qed.

(** ** exactRangedReadCloser *)

Definition ranged_content (h : exactRangedReadCloser) : bytes := ztake (rc_remaining h) (content (rc h)).

Lemma ranged_step h n d e h' :
  0 <= n -> ranged_Read read h n = (d, e, h') ->
  ranged_content h = d ++ ranged_content h' /\ zlen d <= n
  /\ (e = Some EOF -> rc_remaining h' <= 0) /\ rc_remaining h' = rc_remaining h - zlen d.
Proof.
  intros Hn. unfold ranged_Read, ranged_content.
  destruct (rc_remaining h <=? 0) eqn:E.
  { intros H. simplify_eq. rewrite ztake_nonpos by lia. change (zlen []) with 0. split_and!; done || lia. }
  rewrite clamp_le. destruct (read _ _) as [[d1 e1] r1] eqn:Er.
  assert (0 <= Z.min (rc_remaining h) n) as Hm by lia.
  pose proof (source_fits _ _ _ _ _ Hm Er) as Hf.
  pose proof (source_split _ _ _ _ _ Hm Er) as Hs.
  cbn [rc rc_remaining]. intros H.
  assert (d = d1 /\ h' = mkRanged r1 (rc_remaining h - zlen d1)) as [-> ->]
    by (destruct (_ && _); by simplify_eq).
  cbn [rc rc_remaining]. rewrite Hs, ztake_app_more by lia. split_and!; try done; try lia.
  intros ->. destruct (0 <? rc_remaining h - zlen d1) eqn:E2; [|lia].
  rewrite andb_true_r in H. case_bool_decide; by simplify_eq.
Qed.

#[export] Instance ranged_source : Source (ranged_Read read) ranged_content.
Proof.
  split; intros * Hn H; apply (ranged_step _ _ _ _ _ Hn) in H as (Hs & Hf & He & _); [done..|].
  apply ztake_nonpos. by apply He.
Qed.

Lemma run_ranged {A} (c : consumer A) h a d es h' :
  run_consumer (ranged_Read read) c h = (a, d, es, h') ->
  ranged_content h = d ++ ranged_content h' /\ rc_remaining h' = rc_remaining h - zlen d
  /\ (0 <= rc_remaining h -> zlen d <= rc_remaining h)
  /\ (EOF ∈ es -> rc_remaining h' <= 0).
Proof.
  revert h a d es h'. induction c as [a0|n k IH]; intros h a d es h'; cbn [run_consumer].
  { intros H. simplify_eq. change (zlen []) with 0. split_and!; try done; try lia. by intros ?%elem_of_nil. }
  destruct (ranged_Read read h (Z.max 0 n)) as [[d1 e1] h1] eqn:E1.
  destruct (run_consumer (ranged_Read read) (k d1 e1) h1) as [[[a2 d2] es2] h2] eqn:E2.
  intros H. simplify_eq. apply IH in E2 as (I1 & I2 & I3 & I4).
  assert (ranged_content h = d1 ++ ranged_content h1) as Hs1
    by (eapply (source_split (read := ranged_Read read)); [|exact E1]; lia).
  apply ranged_step in E1 as (_ & Hf & He & Hr); [|lia].
  pose proof (zlen_nonneg d2). rewrite zlen_app. split_and!; try lia.
  - by rewrite Hs1, I1, app_assoc.
  - intros H0. pose proof (zlen_ztake (rc_remaining h) (content (rc h)) H0) as Hz.
    change (ztake (rc_remaining h) (content (rc h))) with (ranged_content h) in Hz.
    rewrite Hs1, I1, !zlen_app in Hz. pose proof (zlen_nonneg (ranged_content h')). lia.
  - rewrite elem_of_app. intros [Hin|Hin]; [|by apply I4].
    destruct e1 as [e1|]; [|by apply elem_of_nil in Hin].
    apply list_elem_of_singleton in Hin as <-. pose proof (He eq_refl). lia.
Qed.

(** ** ThrottledReader *)

Definition throttled_content {L} (h : R * L) : bytes := content h.1.

#[export] Instance throttled_source {L} (ctx_err : L -> option io_error)
    (lim : L -> option (limiter L)) :
  (forall l, ctx_err l <> Some EOF) -> (forall l lm n l', lim l = Some lm -> WaitN lm l n <> (Some EOF, l')) ->
  Source (throttled_Read read ctx_err lim) throttled_content.
Proof.
  intros Hctx Hlim.
  assert (forall (h : R * L) n d e h', 0 <= n -> throttled_Read read ctx_err lim h n = (d, e, h') ->
    (d = [] /\ e <> Some EOF /\ h'.1 = h.1)
    \/ exists m, 0 <= m <= n /\ read h.1 m = (d, e, h'.1)) as Hstep.
  { intros [r l] n d e h' Hn. unfold throttled_Read. destruct (ctx_err l) eqn:Ec.
    { intros H. simplify_eq. left. split_and!; try done. intros [= ->]. by apply Hctx in Ec. }
    destruct (n =? 0).
    { destruct (read r n) as [[d1 e1] r1] eqn:Er. intros H. simplify_eq. right. exists n. by split. }
    destruct (lim l) as [lm|] eqn:El.
    2: { destruct (read r n) as [[d1 e1] r1] eqn:Er. intros H. simplify_eq. right. exists n. by split. }
    set (m := if (0 <? Burst lm) && (Burst lm <? n) then Burst lm else n).
    assert (0 <= m <= n) as Hm.
    { unfold m. destruct (0 <? Burst lm) eqn:E1, (Burst lm <? n) eqn:E2; cbn [andb]; lia. }
    destruct (WaitN lm l m) as [[e1|] l1] eqn:Ew.
    - intros H. simplify_eq. left. split_and!; try done. intros [= ->]. by apply (Hlim l lm m l1).
    - destruct (read r m) as [[d1 e1] r1] eqn:Er. intros H. simplify_eq. right. by exists m. }
  unfold throttled_content. split; intros * Hn H;
    apply (Hstep _ _ _ _ _ Hn) in H as [(? & ? & Hh)|(m & Hm & Hr)]; simplify_eq; try done.
  - by rewrite Hh.
  - eapply (source_split (read := read) (content := content)); [|exact Hr]. lia.
  - etransitivity; [eapply (source_fits (read := read) (content := content)); [|exact Hr]; lia|lia].
  - eapply (source_eof (read := read) (content := content)); [|exact Hr]. lia.
Qed.
End Contracts.

(** A size-checked transfer is the whole source.  Whatever consumer reads
    through the expected-size reader, it never gets more than the expected bytes
    and sees a clean end only after all of them; and when the completion check
    succeeds afterwards, it got the entire source, which has the expected size. *)
Theorem expected_size_verified {R A} (read : read_op R) (content : R -> bytes)
    `{!Source read content} (c : consumer A) r size a d es h :
  0 <= size ->
  run_consumer (expected_Read read) c (newExpectedSizeReader r size) = (a, d, es, h) ->
  zlen d <= size /\ (EOF ∈ es -> zlen d = size)
  /\ ((VerifyComplete read h).1 = Ok tt -> d = content r /\ zlen d = size).
Proof.
  intros Hsz H. apply (run_expected read content) in H as (Hc & Hr & Hx & Hcm & Hle & He).
  cbn in Hc, Hr, Hx, Hcm, Hle, He. pose proof (Hle Hsz).
  split; [lia|]. split; [intros Hin; pose proof (He Hin); lia|].
  intros Hv. apply (verify_complete_end read content) in Hv as [Hend Heq]; [|done].
  rewrite Hc, Hend, app_nil_r. split; [done|lia].
Qed.

(** A verified upload body has its declared size.  When [Verify] returns nil
    after a consumer read through the exact-size reader, the consumer got the
    whole body and the body has the declared size - provided the body's reader
    does not answer the one-byte probe with neither data nor an error. *)
Theorem exact_size_verified {R A} (read : read_op R) (content : R -> bytes)
    `{!Source read content} (c : consumer A) r size a d es h :
  0 <= size -> (forall r r', read r 1 <> ([], None, r')) ->
  run_consumer (exact_Read read) c (NewExactSizeReader r size) = (a, d, es, h) ->
  zlen d <= size /\ ((Verify read h).1 = None -> d = content r /\ zlen d = size).
Proof.
  intros Hsz Hp H. apply (exact_inv_run read content Hp c (content r) [] size) in H.
  2: { unfold exact_inv. cbn [NewExactSizeReader xr_remaining checked trailing xr_reader app].
    change (zlen []) with 0. split_and!; done || lia. }
  cbn [app] in H. pose proof H as (H0 & Hr & _). split; [lia|].
  unfold Verify. destruct (xr_remaining h =? 0) eqn:E; [|done]. cbn [negb].
  destruct (checkTrailing read h) as [err h1] eqn:Ec.
  apply (exact_inv_check read content Hp (content r) d size) in Ec as [_ Hd]; [|done|lia].
  cbn [fst]. intros He. split; [by rewrite Hd|lia].
Qed.

(** A range reader delivers exactly the range.  A consumer gets a prefix of
    the stream of at most the requested length, and sees a clean end only when it
    got all of it; a stream that ends early is reported as an error. *)
Theorem ranged_exact {R A} (read : read_op R) (content : R -> bytes)
    `{!Source read content} (c : consumer A) r length a d es h :
  0 <= length ->
  run_consumer (ranged_Read read) c (newRangedReadCloser r length) = (a, d, es, h) ->
  (exists rest, content r = d ++ rest) /\ zlen d <= length
  /\ (EOF ∈ es -> d = ztake length (content r) /\ zlen d = length).
Proof.
  intros H0 H. apply (run_ranged read content) in H as (Hs & Hr & Hle & He).
  cbn [newRangedReadCloser rc_remaining rc] in *. unfold ranged_content at 1 in Hs.
  cbn [newRangedReadCloser rc_remaining rc] in Hs.
  split; [exists (ranged_content content h ++ zdrop length (content r));
    by rewrite app_assoc, <- Hs, ztake_zdrop|].
  split; [by apply Hle|]. intros Hin. pose proof (He Hin). pose proof (Hle H0).
  rewrite Hs. unfold ranged_content. rewrite ztake_nonpos, app_nil_r by done. split; [done|lia].
Qed.

(** ** Examples *)

(** A reader over the bytes left and the chunks it still delivers (an empty chunk
    is a read with neither data nor an error). *)
Definition chunk_read (r : list bytes) (n : Z) : bytes * option io_error * list bytes :=
  match r with
  | [] => ([], Some EOF, [])
  | c :: r => (ztake n c, None, if n <? zlen c then zdrop n c :: r else r)
  end.

#[export] Instance chunk_source : Source chunk_read (@concat byte).
Proof.
  split; intros [|c r] n * Hn; cbn [chunk_read]; intros H; simplify_eq; try done.
  - destruct (n <? zlen c) eqn:E; cbn [concat].
    + by rewrite app_assoc, ztake_zdrop.
    + rewrite ztake_take, take_ge by (unfold zlen in *; lia). done.
  - rewrite zlen_ztake; lia.
Qed.

(** [io.ReadAll] with a given buffer, for a bounded number of reads. *)
Fixpoint read_all (fuel : nat) (n : Z) : consumer unit :=
  match fuel with
  | O => Done tt
  | S fuel => ReadMore n (fun _ e => match e with Some _ => Done tt | None => read_all fuel n end)
  end.

Lemma expected_size_verified_witness :
  let '(_, d, _, h) := run_consumer (expected_Read chunk_read) (read_all 9 2)
                         (newExpectedSizeReader [[x41; x42; x43]; [x44]] 4) in
  (VerifyComplete chunk_read h).1 = Ok tt /\ d = [x41; x42; x43; x44] /\ zlen d = 4.
Proof.
  destruct (run_consumer _ _ _) as [[[a d] es] h] eqn:E.
  pose proof (expected_size_verified chunk_read (@concat byte) _ _ 4 a d es h ltac:(lia) E) as (_ & _ & Hv).
  assert ((VerifyComplete chunk_read h).1 = Ok tt) as Hok
    by (vm_compute in E; injection E as <- <- <- <-; reflexivity).
  split; [exact Hok|exact (Hv Hok)].
Defined.

(** A reader that never answers with neither data nor an error. *)
Definition line_read (r : bytes) (n : Z) : bytes * option io_error * bytes :=
  match r with
  | [] => ([], Some EOF, [])
  | _ => (ztake n r, None, zdrop n r)
  end.

#[export] Instance line_source : Source line_read (fun r => r).
Proof.
  split; intros [|b r] n * Hn; cbn [line_read]; intros H; simplify_eq; try done.
  - by rewrite ztake_zdrop.
  - rewrite zlen_ztake; lia.
Qed.

Lemma exact_size_verified_witness :
  let '(_, d, _, h) := run_consumer (exact_Read line_read) (read_all 9 2)
                         (NewExactSizeReader [x41; x42; x43] 3) in
  (Verify line_read h).1 = None /\ d = [x41; x42; x43] /\ zlen d = 3.
Proof.
  destruct (run_consumer _ _ _) as [[[a d] es] h] eqn:E.
  assert (forall r r', line_read r 1 <> ([], None, r')) as Hp by (by intros [|b r]).
  pose proof (exact_size_verified line_read (fun r => r) _ _ 3 a d es h ltac:(lia) Hp E) as (_ & Hv).
  assert ((Verify line_read h).1 = None) as Hok
    by (vm_compute in E; injection E as <- <- <- <-; reflexivity).
  split; [exact Hok|exact (Hv Hok)].
Defined.

(** Without the proviso it fails: a reader that answers the probe with nothing
    lets a longer body pass. *)
Example exact_size_stutter :
  let '(_, d, _, h) := run_consumer (exact_Read chunk_read) (ReadMore 2 (fun _ _ => Done tt))
                         (NewExactSizeReader [[x41; x42]; []; [x43]] 2) in
  (Verify chunk_read h).1 = None /\ d = [x41; x42] /\ concat [[x41; x42]; []; [x43]] <> d.
Proof. vm_compute. split; [reflexivity|]. split; [reflexivity|discriminate]. Qed.

Lemma ranged_exact_witness :
  let '(_, d, es, _) := run_consumer (ranged_Read chunk_read) (read_all 9 2)
                         (newRangedReadCloser [[x41; x42; x43]; [x44]] 3) in
  EOF ∈ es /\ d = [x41; x42; x43] /\ zlen d = 3.
Proof.
  destruct (run_consumer _ _ _) as [[[a d] es] h] eqn:E.
  pose proof (ranged_exact chunk_read (@concat byte) _ _ 3 a d es h ltac:(lia) E) as (_ & _ & Hv).
  assert (EOF ∈ es) as Hok by (vm_compute in E; injection E as <- <- <- <-; left).
  split; [exact Hok|exact (Hv Hok)].
Defined.
