(* ===== verification/Ranges.v ===== *)
(** * Byte ranges over HTTP

    ValidateByteRange, FormatByteRangeHeader, parseContentRange and
    ValidateHTTPRangeResponse of src/backend/internal/storage/ranges.go. *)

From S2P Require Import Prelude GoPath HashString Digits Bytes Streams.

Inductive range_error :=
| ErrInvalidByteRange
| ErrRangeNotSatisfied
| ErrRangeHeaderMismatch (what : string).

(** The bound is computed on int64 values; the disjuncts are evaluated in order. *)
Definition ValidateByteRange (offset length : Z) : res range_error Z :=
  if (offset <? 0) || (length <=? 0) || (wrap64 (max_int64 - length) <? offset)
  then Err ErrInvalidByteRange
  else Ok (wrap64 (wrap64 (offset + length) - 1)).

Definition FormatByteRangeHeader (offset length : Z) : res range_error string :=
  match ValidateByteRange offset length with
  | Err e => Err e
  | Ok end_ => Ok ("bytes=" +:+ format_int offset +:+ "-" +:+ format_int end_)%string
  end.

(** ** Content-Range *)

(** [strings.TrimSpace] outside ASCII follows the Unicode tables. *)
Class GoSpace := { uni_TrimSpace : string -> string }.

Definition is_space (c : ascii) : bool :=
  let n := nat_of_ascii c in ((9 <=? n) && (n <=? 13))%nat || (n =? 32)%nat.

Fixpoint skip_spaces (s : string) : string :=
  match s with
  | EmptyString => EmptyString
  | String c s' => if is_space c then skip_spaces s' else s
  end.

Fixpoint drop_spaces (s : string) : string :=
  match s with
  | EmptyString => EmptyString
  | String c s =>
      match drop_spaces s with
      | EmptyString => if is_space c then EmptyString else String c ""
      | t => String c t
      end
  end.

Section Response.
Context `{GoUnicode, GoSpace}.

Definition TrimSpace (s : string) : string :=
  if is_ascii s then drop_spaces (skip_spaces s) else uni_TrimSpace s.

Definition parseContentRange (cr : string) : res string (Z * Z) :=
  let cr := TrimSpace cr in
  if negb (has_prefix (ToLower cr) "bytes ") then Err "invalid range unit in Content-Range"
  else
    let spec := TrimSpace (str_drop 6 cr) in
    let rangePart := match cut_at "/"%char spec with Some (l, _) => l | None => spec end in
    match cut_at "-"%char rangePart with
    | None => Err "invalid range span in Content-Range"
    | Some (first, rest) =>
        if String.eqb first "" || String.eqb rest ""
        then Err "invalid range span in Content-Range"
        else match ParseInt first with
        | None => Err "invalid range start in Content-Range"
        | Some s =>
            if s <? 0 then Err "invalid range start in Content-Range"
            else match ParseInt rest with
            | None => Err "invalid range end in Content-Range"
            | Some e =>
                if e <? s then Err "invalid range end in Content-Range" else Ok (s, e)
            end
        end
    end.

(** The parts of the response the check reads; an absent header is empty and an
    unknown length negative. *)
Record Response (R : Type) := mkResponse {
  StatusCode : Z;
  ContentRange : string;
  ContentLength : Z;
  Body : R;
}.
Arguments StatusCode {R}. Arguments ContentRange {R}. Arguments ContentLength {R}.
Arguments Body {R}.

(** The range reader or the error, and whether the body was closed. *)
Definition ValidateHTTPRangeResponse {R} (resp : Response R) (offset length : Z)
    : res range_error (exactRangedReadCloser (R := R)) * bool :=
  if negb (StatusCode resp =? 206) then
    (Err (if StatusCode resp =? 200
          then ErrRangeHeaderMismatch "server returned 200 OK instead of 206 Partial Content"
          else if StatusCode resp =? 416 then ErrRangeNotSatisfied
          else ErrRangeHeaderMismatch "unexpected HTTP status"), true)
  else match ValidateByteRange offset length with
  | Err e => (Err e, true)
  | Ok end_ =>
      if String.eqb (ContentRange resp) ""
      then (Err (ErrRangeHeaderMismatch "missing Content-Range header"), true)
      else match parseContentRange (ContentRange resp) with
      | Err _ => (Err (ErrRangeHeaderMismatch "Content-Range does not match requested range"), true)
      | Ok (crStart, crEnd) =>
          if negb (crStart =? offset) || negb (crEnd =? end_)
          then (Err (ErrRangeHeaderMismatch "Content-Range does not match requested range"), true)
          else if (0 <=? ContentLength resp) && negb (ContentLength resp =? length)
          then (Err (ErrRangeHeaderMismatch "Content-Length does not match requested length"), true)
          else (Ok (newRangedReadCloser (Body resp) length), false)
      end
  end.
End Response.
Arguments mkResponse {R}. Arguments StatusCode {R}. Arguments ContentRange {R}.
Arguments ContentLength {R}. Arguments Body {R}.

(** ** Ranges stay within 64 bits *)

Lemma validate_range_spec offset length :
  in_int64 offset -> in_int64 length ->
  ValidateByteRange offset length
  = if bool_decide (0 <= offset /\ 0 < length /\ offset + length <= max_int64)
    then Ok (offset + length - 1) else Err ErrInvalidByteRange.
Proof.
  intros Ho Hl. unfold ValidateByteRange, in_int64, min_int64, max_int64, two63 in *.
  destruct (offset <? 0) eqn:E1; cbn [orb]; [rewrite bool_decide_false by lia; done|].
  destruct (length <=? 0) eqn:E2; cbn [orb]; [rewrite bool_decide_false by lia; done|].
  rewrite wrap64_id by (unfold in_int64, min_int64, max_int64, two63; lia).
  destruct (_ <? offset) eqn:E3; [rewrite bool_decide_false by lia; done|].
  rewrite bool_decide_true by lia.
  rewrite (wrap64_id (offset + length)) by (unfold in_int64, min_int64, max_int64, two63; lia).
  rewrite wrap64_id by (unfold in_int64, min_int64, max_int64, two63; lia). done.
Qed.

(** A validated range is a range.  On 64-bit arguments the check accepts exactly
    the non-empty ranges at non-negative offsets whose end fits, and returns their
    last position without overflow. *)
Theorem byte_range_bounds offset length :
  in_int64 offset -> in_int64 length ->
  ValidateByteRange offset length
  = if bool_decide (0 <= offset /\ 0 < length /\ offset + length <= max_int64)
    then Ok (offset + length - 1) else Err ErrInvalidByteRange.
Proof. apply validate_range_spec. Qed.

Lemma byte_range_bounds_witness :
  ValidateByteRange (max_int64 - 1) 1 = Ok (max_int64 - 1)
  /\ ValidateByteRange max_int64 1 = Err ErrInvalidByteRange.
Proof.
  split; rewrite byte_range_bounds; try reflexivity;
    unfold in_int64, min_int64, max_int64, two63; lia.
Defined.

Lemma cut_at_app c l r : str_count c l = O -> cut_at c (l +:+ String c r)%string = Some (l, r).
Proof.
  induction l as [|a l IH]; intros Hl.
  - rewrite str_app_nil_l. cbn. by rewrite Ascii.eqb_refl.
  - rewrite str_app_cons. cbn in *. destruct (Ascii.eqb a c); [done|]. by rewrite IH.
Qed.

Lemma is_ascii_app s t : is_ascii (s +:+ t)%string = is_ascii s && is_ascii t.
Proof.
  induction s as [|a s IH]; [by rewrite str_app_nil_l|].
  rewrite str_app_cons. cbn [is_ascii]. by rewrite IH, andb_assoc.
Qed.

Lemma drop_spaces_app s t : drop_spaces t <> "" -> drop_spaces (s +:+ t)%string = (s +:+ drop_spaces t)%string.
Proof.
  intros Ht. induction s as [|a s IH]; [by rewrite !str_app_nil_l|].
  rewrite !str_app_cons. cbn [drop_spaces]. rewrite IH.
  destruct (s +:+ drop_spaces t)%string eqn:E; [|done].
  destruct s; [rewrite str_app_nil_l in E; done|rewrite str_app_cons in E; done].
Qed.

Lemma drop_spaces_char c s : is_space c = false -> drop_spaces (String c s) = String c (drop_spaces s).
Proof. intros H. cbn. rewrite H. by destruct (drop_spaces s). Qed.

Lemma drop_spaces_ascii s : is_ascii s = true -> is_ascii (drop_spaces s) = true.
Proof.
  induction s as [|a s IH]; [done|]. cbn [is_ascii drop_spaces]. intros [Ha Hs]%andb_prop.
  specialize (IH Hs).
  destruct (drop_spaces s); [destruct (is_space a); [done|]; cbn [is_ascii]; by rewrite Ha|].
  cbn [is_ascii] in *. by rewrite Ha.
Qed.

Lemma skip_spaces_digit s t :
  all_digits s = true -> s <> "" -> skip_spaces (s +:+ t)%string = (s +:+ t)%string.
Proof.
  destruct s as [|a s]; [done|]. cbn [all_digits]. intros [Ha _]%andb_prop _. rewrite str_app_cons.
  cbn [skip_spaces]. assert (is_space a = false) as ->; [|done]. apply andb_prop in Ha as [Ha _].
  apply Nat.leb_le in Ha. unfold is_space. apply orb_false_intro.
  - apply andb_false_intro2. apply Nat.leb_gt. lia.
  - apply Nat.eqb_neq. lia.
Qed.

Lemma str_map_app f s t : str_map f (s +:+ t)%string = (str_map f s +:+ str_map f t)%string.
Proof.
  induction s as [|a s IH]; [by rewrite !str_app_nil_l|]. rewrite str_app_cons. cbn.
  by rewrite IH, str_app_cons.
Qed.

Section Roundtrip.
Context `{GoUnicode, GoSpace}.

(** The header a server sends for the range from [s] to [e]. *)
Definition content_range (s e : Z) (total : string) : string :=
  ("bytes " +:+ format_int s +:+ String "-"%char (format_int e +:+ String slash total))%string.

Lemma parse_content_range s e total :
  0 <= s -> s <= e -> e < two63 -> is_ascii total = true ->
  parseContentRange (content_range s e total) = Ok (s, e).
Proof.
  intros Hs He Hm Ht. unfold parseContentRange, content_range.
  destruct (format_int_digits s ltac:(lia)) as [Ds Ns], (format_int_digits e ltac:(lia)) as [De Ne].
  set (body := fun t => (format_int s +:+ String "-"%char (format_int e +:+ String slash t))%string).
  assert (forall t, is_ascii t = true -> is_ascii (body t) = true) as Hascii.
  { intros t Hta. unfold body. rewrite is_ascii_app. cbn [is_ascii].
    rewrite is_ascii_app. cbn [is_ascii]. by rewrite (digits_ascii _ Ds), (digits_ascii _ De), Hta. }
  assert (forall t, drop_spaces (body t) = body (drop_spaces t)) as Hdrop.
  { intros t. unfold body. rewrite drop_spaces_app.
    - rewrite drop_spaces_char by done. rewrite drop_spaces_app; [by rewrite drop_spaces_char|].
      by rewrite drop_spaces_char.
    - by rewrite drop_spaces_char. }
  assert (forall t, body t <> "") as Hbne.
  { intros t. unfold body. destruct (format_int s); [done|]. by rewrite str_app_cons. }
  assert (forall t, is_ascii t = true -> is_ascii ("bytes " +:+ body t)%string = true) as Hpa.
  { intros t Hta. rewrite is_ascii_app. by rewrite Hascii. }
  assert (TrimSpace ("bytes " +:+ body total)%string = ("bytes " +:+ body (drop_spaces total))%string)
    as Htrim.
  { unfold TrimSpace. rewrite Hpa by done.
    change (skip_spaces ("bytes " +:+ body total)%string) with ("bytes " +:+ body total)%string.
    rewrite drop_spaces_app by (rewrite Hdrop; apply Hbne). by rewrite Hdrop. }
  cbn zeta. fold (body total). rewrite Htrim.
  set (t1 := drop_spaces total). assert (is_ascii t1 = true) as Ht1 by by apply drop_spaces_ascii.
  assert (has_prefix (ToLower ("bytes " +:+ body t1)%string) "bytes " = true) as Hpre.
  { unfold ToLower. rewrite Hpa by done. rewrite str_map_app. apply (has_prefix_app "bytes "). }
  rewrite Hpre. cbn [negb]. rewrite (str_drop_app "bytes ").
  unfold TrimSpace. rewrite Hascii by done. unfold body at 1 2. rewrite skip_spaces_digit by done.
  fold (body t1). rewrite Hdrop. set (t2 := drop_spaces t1).
  assert (cut_at "/"%char (body t2)
    = Some ((format_int s +:+ String "-"%char (format_int e))%string, t2)) as Hcut.
  { unfold body. replace (format_int s +:+ String "-"%char (format_int e +:+ String slash t2))%string
      with ((format_int s +:+ String "-"%char (format_int e)) +:+ String slash t2)%string
      by (by rewrite <- str_app_assoc, str_app_cons).
    apply cut_at_app. rewrite str_count_app. cbn. by rewrite !digits_no_char. }
  rewrite Hcut. rewrite cut_at_app by (by apply digits_no_char).
  apply String.eqb_neq in Ns, Ne. rewrite Ns, Ne. cbn [orb].
  rewrite !parse_format_int by lia.
  destruct (s <? 0) eqn:E1; [lia|]. destruct (e <? s) eqn:E2; [lia|done].
Qed.
End Roundtrip.

(** The header of a matching response is understood.  For every range that fits
    64 bits, the Content-Range header that states it - whatever total size follows
    the slash - parses to exactly that range. *)
Theorem content_range_parses `{GoUnicode, GoSpace} s e total :
  0 <= s -> s <= e -> e < two63 -> is_ascii total = true ->
  parseContentRange (content_range s e total) = Ok (s, e).
Proof. apply parse_content_range. Qed.

Lemma content_range_parses_witness :
  let _ := ascii_tables in let _ := Build_GoSpace (fun s => s) in
  parseContentRange "bytes 100-9223372036854775806/* " = Ok (100, 9223372036854775806).
Proof.
  cbn zeta.
  apply (content_range_parses (H := ascii_tables) (H0 := Build_GoSpace (fun s => s))
    100 9223372036854775806 "* "); done.
Defined.

(** Only the requested bytes are accepted.  A response passes the check only
    with status 206, a Content-Range that states exactly the requested range and a
    Content-Length that is absent or equal; the body is then open and limited to
    the requested length.  A response for the range passes, and one that fails has
    its body closed. *)
Theorem range_response_checked `{GoUnicode, GoSpace} {R} (resp : Response R) offset length :
  in_int64 offset -> in_int64 length ->
  match ValidateHTTPRangeResponse resp offset length with
  | (Ok reader, closed) =>
      closed = false /\ reader = newRangedReadCloser (Body resp) length
      /\ StatusCode resp = 206 /\ 0 <= offset /\ 0 < length /\ offset + length <= max_int64
      /\ parseContentRange (ContentRange resp) = Ok (offset, offset + length - 1)
      /\ (ContentLength resp < 0 \/ ContentLength resp = length)
  | (Err _, closed) =>
      closed = true
      /\ ~ (StatusCode resp = 206 /\ 0 <= offset /\ 0 < length /\ offset + length <= max_int64
            /\ (exists total, is_ascii total = true
                /\ ContentRange resp = content_range offset (offset + length - 1) total)
            /\ (ContentLength resp < 0 \/ ContentLength resp = length))
  end.
Proof.
  intros Ho Hl. unfold ValidateHTTPRangeResponse.
  destruct (StatusCode resp =? 206) eqn:E1; cbn [negb]; [|split; [done|intros (? & _); lia]].
  rewrite validate_range_spec by done.
  case_bool_decide as Hr; [|split; [done|tauto]].
  destruct (String.eqb (ContentRange resp) "") eqn:E2.
  { split; [done|]. apply String.eqb_eq in E2. rewrite E2.
    intros (_ & _ & _ & _ & (total & _ & Ht) & _). by unfold content_range in Ht. }
  assert (forall total, is_ascii total = true ->
    ContentRange resp = content_range offset (offset + length - 1) total ->
    parseContentRange (ContentRange resp) = Ok (offset, offset + length - 1)) as Hp.
  { intros total Ha ->. apply parse_content_range; unfold max_int64 in *; done || lia. }
  destruct (parseContentRange (ContentRange resp)) as [[crStart crEnd]|] eqn:E3.
  2: { split; [done|]. intros (_ & _ & _ & _ & (total & Ha & Ht) & _). by specialize (Hp total Ha Ht). }
  destruct (crStart =? offset) eqn:E4, (crEnd =? offset + length - 1) eqn:E5; cbn [negb orb].
  2, 3, 4: split; [done|]; intros (_ & _ & _ & _ & (total & Ha & Ht) & _);
    specialize (Hp total Ha Ht); injection Hp as -> ->; lia.
  destruct ((0 <=? ContentLength resp) && negb (ContentLength resp =? length)) eqn:E6.
  - split; [done|]. intros (_ & _ & _ & _ & _ & Hc). lia.
  - split_and!; try done; try lia. do 2 f_equal; lia.
Qed.

Lemma range_response_checked_witness :
  let _ := ascii_tables in let _ := Build_GoSpace (fun s => s) in
  exists reader, ValidateHTTPRangeResponse (mkResponse 206 "bytes 5-9/20" 5 tt) 5 5 = (Ok reader, false)
    /\ reader = newRangedReadCloser tt 5
    /\ parseContentRange "bytes 5-9/20" = Ok (5, 9).
Proof.
  cbn zeta. exists (newRangedReadCloser tt 5). split; [vm_compute; reflexivity|].
  pose proof (range_response_checked (H := ascii_tables) (H0 := Build_GoSpace (fun s => s))
    (mkResponse 206 "bytes 5-9/20" 5 tt) 5 5) as Hc.
  assert (in_int64 5) as H5 by (unfold in_int64, min_int64, max_int64, two63; lia).
  specialize (Hc H5 H5).
  destruct (ValidateHTTPRangeResponse _ 5 5) as [[r|e] c] eqn:E; [|vm_compute in E; discriminate E].
  split; [done|]. by destruct Hc as (_ & _ & _ & _ & _ & _ & Hp & _).
Defined.
