(* ===== verification/SyncOutcome.v ===== *)
(** * The end of a sync pass

    readFinalTaskOutcomes (src/backend/internal/sync/delta.go) and the steps of
    runSyncPass after the last task ended: the final status, the reconciliation of
    the snapshot, the empty-directory cleanup and the commit of the baseline with
    the job row (src/backend/internal/sync/engine.go); and waitForNoRunningTasks,
    which gates the start of a pass. *)

From S2P Require Import Prelude GoPath SyncPaths HashString Storage SyncDelta SyncBaseline SyncCleanup.
From S2P Require Import Tables Database SyncLifecycle Digits Bytes.

(** ** Task outcomes *)

(** A row of the final query; the metadata as [json.Unmarshal] reads it. *)
Record outcome_row := mkOutcome {
  oc_filePath : string;
  oc_status : task_status;
  oc_meta : option (string * string);
}.

Record finalTaskStats := mkFinal {
  fs_total : Z;
  fs_completed : Z;
  fs_skipped : Z;
  fs_failed : Z;
  fs_changed : Z;
  fs_deleted : Z;
  completedOperations : list completedTaskOperation;
  protectedPaths : gset string;
}.

Definition count_row (r : outcome_row) (s : finalTaskStats) : finalTaskStats :=
  let p := cleanRelPath (oc_filePath r) in
  let '(mkFinal t c k f ch de ops prot) := s in
  match oc_status r with
  | COMPLETED => mkFinal (t + 1) (c + 1) k f ch de ops prot
  | SKIPPED => mkFinal (t + 1) c (k + 1) f ch de ops ({[p]} ∪ prot)
  | TFAILED | CANCELLED => mkFinal (t + 1) c k (f + 1) ch de ops ({[p]} ∪ prot)
  | _ => mkFinal (t + 1) c k f ch de ops ({[p]} ∪ prot)
  end.

Definition count_action (r : outcome_row) (s : finalTaskStats) : finalTaskStats :=
  let '(mkFinal t c k f ch de ops prot) := s in
  match oc_status r, oc_meta r with
  | COMPLETED, Some (action, side) | SKIPPED, Some (action, side) =>
      let ops := match oc_status r with
                 | COMPLETED => ops ++ [mkOp (oc_filePath r) action side]
                 | _ => ops
                 end in
      if String.eqb action "delete" then mkFinal t c k f ch (de + 1) ops prot
      else if String.eqb action "upload" || String.eqb action "download"
              || String.eqb action "conflict_copy"
      then mkFinal t c k f (ch + 1) de ops prot
      else mkFinal t c k f ch de ops prot
  | _, _ => s
  end.

Definition readFinalTaskOutcomes (rows : list outcome_row) : finalTaskStats :=
  fold_left (fun s r => count_action r (count_row r s)) rows (mkFinal 0 0 0 0 0 0 [] ∅).

Definition finalRunStatus (s : finalTaskStats) : string * option string :=
  if 0 <? fs_failed s then
    if fs_failed s =? fs_total s then ("FAILED", Some "All file transfer tasks failed")
    else ("PARTIAL",
          Some (format_int (fs_failed s) +:+ " of " +:+ format_int (fs_total s)
                +:+ " tasks failed")%string)
  else ("SUCCESS", None).

(** ** Committing the outcome *)

Section Complete.
(** The inspections at the end of the pass, and what the cleanup removed. *)
Context (inspect : bool -> string -> res storage_error CloudResource) (targetDir : string).

(** The snapshot that becomes the baseline and the paths kept out of it. *)
Definition outcome_snapshot (sn : snapshot) (stats : finalTaskStats)
    (removed : list directoryCleanupCandidate) : snapshot * gset string :=
  let '(sn, prot) :=
    reconcileSuccessfulOperations inspect targetDir sn (completedOperations stats)
      (protectedPaths stats) in
  let '(se, te) := invalidateProtectedPathDirectoryETags (sn_sourceETags sn) (sn_targetETags sn)
                     (elements prot) in
  let '((sd, se), (td, te)) :=
    applyDirectoryCleanupResults removed (sn_sourceDirs sn) (sn_targetDirs sn) se te in
  (mkSnapshot (sn_sourceMap sn) (sn_targetMap sn) sd td se te, prot).

Definition complete_pass (jobID : string) (generation : Z) (rows : list outcome_row)
    (sn : snapshot) (prevSource prevTarget : gmap string SyncState) (prevSourceDirs prevTargetDirs : gset string)
    (removed : list directoryCleanupCandidate) (now : Z) (d : database) : bool * database :=
  let stats := readFinalTaskOutcomes rows in
  let '(status, err) := finalRunStatus stats in
  let '(sn, prot) := outcome_snapshot sn stats removed in
  let '(upserts, deletes) :=
    syncStateChanges jobID sn prevSource prevTarget prevSourceDirs prevTargetDirs prot in
  FinalizeSyncJobPassWithStates jobID generation status err
    (mkStats (fs_total stats) (fs_completed stats + fs_skipped stats) (fs_changed stats)
       (fs_deleted stats) (fs_failed stats))
    upserts deletes now d.
End Complete.

(** ** Waiting for the tasks of an earlier pass *)

Inductive wait_result :=
| Drained
| WaitError (what : string).

(** [answers] is what the count returns at each tick and [expired] whether the
    context ended before that tick; [None] is still waiting. *)
Fixpoint wait_ticks (answers : list (bool * res string Z)) : option wait_result :=
  match answers with
  | [] => None
  | (true, _) :: _ => Some (WaitError "context")
  | (false, Err e) :: _ => Some (WaitError e)
  | (false, Ok count) :: answers => if count =? 0 then Some Drained else wait_ticks answers
  end.

(** The first check needs no tick. *)
Definition waitForNoRunningTasks := wait_ticks.

(** ** What the statistics say *)

Definition has_outcome (s : task_status) (r : outcome_row) : bool := bool_decide (oc_status r = s).

Definition count_rows (P : outcome_row -> bool) (rows : list outcome_row) : Z :=
  zlen (List.filter P rows).

Lemma count_rows_snoc P rows r :
  count_rows P (rows ++ [r]) = count_rows P rows + (if P r then 1 else 0).
Proof.
  unfold count_rows. rewrite List.filter_app, zlen_app. cbn. by destruct (P r).
Qed.

Lemma stats_spec rows :
  let s := readFinalTaskOutcomes rows in
  fs_total s = zlen rows
  /\ fs_completed s = count_rows (has_outcome COMPLETED) rows
  /\ fs_skipped s = count_rows (has_outcome SKIPPED) rows
  /\ fs_failed s = count_rows (fun r => has_outcome TFAILED r || has_outcome CANCELLED r) rows
  /\ (forall p, p ∈ protectedPaths s <-> exists r, r ∈ rows /\ oc_status r <> COMPLETED
        /\ p = cleanRelPath (oc_filePath r))
  /\ (forall op, op ∈ completedOperations s <-> exists r a sd, r ∈ rows /\ oc_status r = COMPLETED
        /\ oc_meta r = Some (a, sd) /\ op = mkOp (oc_filePath r) a sd).
Proof.
  cbn zeta. induction rows as [|r rows IH] using rev_ind.
  { split_and!; try done.
    - intros p. split; [by intros ?%elem_of_empty|]. intros (r & Hr & _). by apply elem_of_nil in Hr.
    - intros op. split; [by intros ?%elem_of_nil|]. intros (r & a & sd & Hr & _). by apply elem_of_nil in Hr. }
  unfold readFinalTaskOutcomes in *. rewrite fold_left_app. cbn [fold_left].
  destruct (fold_left _ rows _) as [t c k f ch de ops prot].
  cbn [fs_total fs_completed fs_skipped fs_failed protectedPaths completedOperations] in IH.
  destruct IH as (-> & -> & -> & -> & Hp & Ho).
  set (s := count_action r _).
  assert (fs_total s = zlen rows + 1
    /\ fs_completed s = count_rows (has_outcome COMPLETED) rows + (if has_outcome COMPLETED r then 1 else 0)
    /\ fs_skipped s = count_rows (has_outcome SKIPPED) rows + (if has_outcome SKIPPED r then 1 else 0)
    /\ fs_failed s = count_rows (fun r => has_outcome TFAILED r || has_outcome CANCELLED r) rows
         + (if has_outcome TFAILED r || has_outcome CANCELLED r then 1 else 0)
    /\ protectedPaths s = (if has_outcome COMPLETED r then prot
                           else {[cleanRelPath (oc_filePath r)]} ∪ prot)
    /\ completedOperations s = ops ++ (if has_outcome COMPLETED r then
         match oc_meta r with Some (a, sd) => [mkOp (oc_filePath r) a sd] | None => [] end else []))
    as (-> & -> & -> & -> & -> & ->).
  { unfold s, count_action, count_row, has_outcome.
    destruct (oc_status r), (oc_meta r) as [[a sd]|]; cbn;
      repeat case_match; cbn; rewrite ?Z.add_0_r, ?app_nil_r; done. }
  rewrite zlen_app, !count_rows_snoc. unfold has_outcome in *.
  split_and!; try done.
  - intros p. case_bool_decide as Hc.
    + rewrite Hp. split; intros (r' & Hr & Hs & ->); exists r'; (split; [|done]).
      * apply elem_of_app. by left.
      * apply elem_of_app in Hr as [|Hr]; [done|]. by apply list_elem_of_singleton in Hr as ->.
    + rewrite elem_of_union, elem_of_singleton, Hp. split.
      * intros [->|(r' & Hr & Hs & ->)]; [exists r|exists r']; rewrite elem_of_app.
        -- split; [right; by left|done].
        -- split; [by left|done].
      * intros (r' & Hr & Hs & ->). apply elem_of_app in Hr as [Hr|Hr].
        -- right. by exists r'.
        -- apply list_elem_of_singleton in Hr as ->. by left.
  - intros op. rewrite elem_of_app, Ho. split.
    + intros [(r' & a & sd & Hr & Hs)|Hr].
      * exists r', a, sd. split; [apply elem_of_app; by left|done].
      * case_bool_decide as Hc; [|by apply elem_of_nil in Hr].
        destruct (oc_meta r) as [[a sd]|] eqn:Em; [|by apply elem_of_nil in Hr].
        apply list_elem_of_singleton in Hr as ->. exists r, a, sd.
        split; [apply elem_of_app; right; by left|done].
    + intros (r' & a & sd & Hr & Hs & Hm & ->). apply elem_of_app in Hr as [Hr|Hr].
      * left. by exists r', a, sd.
      * right. apply list_elem_of_singleton in Hr as ->. rewrite bool_decide_true, Hm by done. by left.
Qed.

(** The outcome of a pass is the outcome of its tasks.  The counters count the
    rows of each kind; exactly the paths of the tasks that did not complete are
    protected; exactly the completed tasks are reconciled; and the run is a SUCCESS
    when no task failed or was cancelled, FAILED when all were, PARTIAL between. *)
Theorem outcome_exact rows :
  let s := readFinalTaskOutcomes rows in
  fs_total s = zlen rows
  /\ fs_completed s = count_rows (has_outcome COMPLETED) rows
  /\ fs_skipped s = count_rows (has_outcome SKIPPED) rows
  /\ fs_failed s = count_rows (fun r => has_outcome TFAILED r || has_outcome CANCELLED r) rows
  /\ (forall p, p ∈ protectedPaths s <-> exists r, r ∈ rows /\ oc_status r <> COMPLETED
        /\ p = cleanRelPath (oc_filePath r))
  /\ (forall op, op ∈ completedOperations s <-> exists r a sd, r ∈ rows /\ oc_status r = COMPLETED
        /\ oc_meta r = Some (a, sd) /\ op = mkOp (oc_filePath r) a sd)
  /\ (finalRunStatus s).1
     = if fs_failed s =? 0 then "SUCCESS" else if fs_failed s =? zlen rows then "FAILED" else "PARTIAL".
Proof.
  cbn zeta. pose proof (stats_spec rows) as H. cbn zeta in H.
  destruct H as (H1 & H2 & H3 & H4 & H5 & H6). split_and!; try done.
  unfold finalRunStatus. rewrite H1.
  assert (0 <= fs_failed (readFinalTaskOutcomes rows)) by (rewrite H4; apply zlen_nonneg).
  destruct (fs_failed _ =? 0) eqn:E0, (0 <? fs_failed _) eqn:E1; try done || lia.
  by destruct (fs_failed _ =? zlen rows).
Qed.

(** ** What the commit leaves alone *)

Section Complete_facts.
Context (inspect : bool -> string -> res storage_error CloudResource) (targetDir : string).

Lemma reconcile_protects ops st p :
  p ∈ st.2 -> p ∈ (fold_left (reconcile_op inspect targetDir) ops st).2.
Proof.
  revert st. induction ops as [|op ops IH]; intros st Hp; [done|]. cbn [fold_left]. apply IH.
  destruct st as [sn prot]. unfold reconcile_op. cbn [snd] in Hp.
  go_cases; cbn; try done; repeat case_match; cbn; try done; set_solver.
Qed.

Lemma applyCleanup_sub {V} removed (sd td : gset string) (se te : gmap string V) :
  let '((sd', se'), (td', te')) := applyDirectoryCleanupResults removed sd td se te in
  sd' ⊆ sd /\ td' ⊆ td /\ (forall q, is_Some (se' !! q) -> se' !! q = se !! q)
  /\ (forall q, is_Some (te' !! q) -> te' !! q = te !! q).
Proof.
  unfold applyDirectoryCleanupResults. revert sd td se te.
  induction removed as [|c removed IH]; intros sd td se te; cbn [fold_left]; [done|].
  destruct (String.eqb (cand_side c) "source"); cbn [apply_cleanup_one].
  - specialize (IH (sd ∖ {[cand_relPath c]}) td
      (invalidateParentDirectoryETags (delete (cand_relPath c) se) (cand_relPath c)) te).
    destruct (fold_left _ removed _) as [[sd' se'] [td' te']].
    destruct IH as (I1 & I2 & I3 & I4). split_and!; [set_solver|done| |done].
    intros q Hq. pose proof (I3 q Hq) as Hx. rewrite Hx in Hq |- *.
    rewrite lookup_invalidateParent in *. case_decide; [by destruct Hq|].
    destruct (decide (q = cand_relPath c)) as [->|]; [rewrite lookup_delete_eq in *; by destruct Hq|].
    by rewrite lookup_delete_ne.
  - specialize (IH sd (td ∖ {[cand_relPath c]}) se
      (invalidateParentDirectoryETags (delete (cand_relPath c) te) (cand_relPath c))).
    destruct (fold_left _ removed _) as [[sd' se'] [td' te']].
    destruct IH as (I1 & I2 & I3 & I4). split_and!; [done|set_solver|done|].
    intros q Hq. pose proof (I4 q Hq) as Hx. rewrite Hx in Hq |- *.
    rewrite lookup_invalidateParent in *. case_decide; [by destruct Hq|].
    destruct (decide (q = cand_relPath c)) as [->|]; [rewrite lookup_delete_eq in *; by destruct Hq|].
    by rewrite lookup_delete_ne.
Qed.

(** The committed snapshot has no directory or cached ETag the reconciled one
    lacks, the same files, and the protected paths of the reconciliation. *)
Lemma outcome_snapshot_sub sn stats removed :
  let '(sn1, prot1) := reconcileSuccessfulOperations inspect targetDir sn
                         (completedOperations stats) (protectedPaths stats) in
  let '(sn2, prot2) := outcome_snapshot inspect targetDir sn stats removed in
  prot2 = prot1 /\ (forall b, files sn2 b = files sn1 b /\ dirs sn2 b ⊆ dirs sn1 b
    /\ forall q, is_Some (etags sn2 b !! q) -> etags sn2 b !! q = etags sn1 b !! q).
Proof.
  unfold outcome_snapshot. destruct (reconcileSuccessfulOperations _ _ _ _ _) as [sn1 prot1].
  destruct (invalidateProtectedPathDirectoryETags _ _ _) as [se te] eqn:Ei.
  pose proof (fun q => lookup_invalidateProtected (sn_sourceETags sn1) (sn_targetETags sn1) (elements prot1) q) as Hi.
  rewrite Ei in Hi.
  pose proof (applyCleanup_sub removed (sn_sourceDirs sn1) (sn_targetDirs sn1) se te) as Hc.
  destruct (applyDirectoryCleanupResults _ _ _ _ _) as [[sd' se'] [td' te']].
  destruct Hc as (C1 & C2 & C3 & C4). split; [done|]. intros b. destruct b; cbn; split_and!; try done.
  - intros q Hq. pose proof (C3 q Hq) as Hx. rewrite Hx in Hq |- *. destruct (Hi q) as [Hs _].
    rewrite Hs in *. case_decide; [by destruct Hq|done].
  - intros q Hq. pose proof (C4 q Hq) as Hx. rewrite Hx in Hq |- *. destruct (Hi q) as [_ Hs].
    rewrite Hs in *. case_decide; [by destruct Hq|done].
Qed.

(** Reconciliation keeps the keys normal. *)
Lemma reconcile_op_normal st op :
  normal_snapshot st.1 -> normal_snapshot (reconcile_op inspect targetDir st op).1.
Proof.
  destruct st as [sn prot]. intros Hn. unfold reconcile_op. cbn [fst] in Hn.
  assert (forall sn b p o, normal_snapshot sn -> normal p -> normal_snapshot (set_file sn b p o)) as Hf.
  { clear. intros sn b p o Hn Hp b'. destruct (Hn b') as (H1 & H2 & H3).
    split; [|by destruct sn, b, b'].
    intros q. rewrite files_set_file. destruct (Bool.eqb b b'); [|apply H1].
    destruct o; destruct (decide (q = p)) as [->|]; try done;
      rewrite ?lookup_insert_ne, ?lookup_delete_ne by done; apply H1. }
  assert (forall sn b f, normal_snapshot sn ->
    (forall m q, is_Some (f m !! q) -> is_Some ((m : gmap string string) !! q)) ->
    normal_snapshot (set_etags sn b f)) as He.
  { clear. intros sn b f Hn Hf b'. destruct (Hn b') as (H1 & H2 & H3).
    destruct sn, b, b'; cbn in *; split_and!; try done; intros q Hq; by apply H3, Hf. }
  assert (forall sn b f, normal_snapshot sn ->
    (forall (X : gset string) q, q ∈ f X -> normal q \/ q ∈ X) -> normal_snapshot (set_dirs sn b f)) as Hd.
  { clear. intros sn b f Hn Hf b'. destruct (Hn b') as (H1 & H2 & H3).
    destruct sn, b, b'; cbn in *; split_and!; try done; intros q Hq;
      destruct (Hf _ _ Hq) as [|Hx]; try done; by apply H2. }
  assert (normal (cleanRelPath (op_filePath op))) as Hp by apply cleanRelPath_idemp.
  assert (forall (m : gmap string string) p q, is_Some (invalidateParentDirectoryETags m p !! q) -> is_Some (m !! q)) as Hi.
  { intros m p q. rewrite lookup_invalidateParent. case_decide; [by intros []|done]. }
  assert (forall (m : gmap string string) p q,
    is_Some (invalidateParentDirectoryETags (delete p m) p !! q) -> is_Some (m !! q)) as Hid.
  { intros m p q Hq. apply Hi in Hq. destruct (decide (q = p)) as [->|].
    - rewrite lookup_delete_eq in Hq. by destruct Hq.
    - by rewrite lookup_delete_ne in Hq. }
  repeat (case_match; cbn [fst]; try done);
    repeat first [apply Hf | apply He | apply Hd]; try done; try (by intros; eapply Hi);
    try (by intros; eapply Hid); set_solver.
Qed.

Lemma reconcile_normal ops st :
  normal_snapshot st.1 -> normal_snapshot (fold_left (reconcile_op inspect targetDir) ops st).1.
Proof.
  revert st. induction ops as [|op ops IH]; intros st Hn; [done|]. cbn [fold_left].
  apply IH. by apply reconcile_op_normal.
Qed.
End Complete_facts.

Lemma dirs_set_file sn b p o b' : dirs (set_file sn b p o) b' = dirs sn b'.
Proof. by destruct sn, b, b'. Qed.
Lemma dirs_set_etags sn b f b' : dirs (set_etags sn b f) b' = dirs sn b'.
Proof. by destruct sn, b, b'. Qed.
Lemma dirs_set_dirs sn b f b' :
  dirs (set_dirs sn b f) b' = if Bool.eqb b b' then f (dirs sn b') else dirs sn b'.
Proof. by destruct sn, b, b'. Qed.
Lemma etags_set_file sn b p o b' : etags (set_file sn b p o) b' = etags sn b'.
Proof. by destruct sn, b, b'. Qed.
Lemma etags_set_dirs sn b f b' : etags (set_dirs sn b f) b' = etags sn b'.
Proof. by destruct sn, b, b'. Qed.
Lemma etags_set_etags sn b f b' :
  etags (set_etags sn b f) b' = if Bool.eqb b b' then f (etags sn b') else etags sn b'.
Proof. by destruct sn, b, b'. Qed.

Section Keep.
Context (inspect : bool -> string -> res storage_error CloudResource) (targetDir : string).

Lemma reconcile_op_no_dir st op b p :
  p ∈ st.2 -> (p ∉ dirs st.1 b) -> etags st.1 b !! p = None ->
  (p ∉ dirs (reconcile_op inspect targetDir st op).1 b)
  /\ etags (reconcile_op inspect targetDir st op).1 b !! p = None.
Proof.
  destruct st as [sn prot]. cbn [fst snd]. intros Hp Hd He. unfold reconcile_op.
  case_bool_decide as Hr; [done|].
  assert (p <> cleanRelPath (op_filePath op)) as Hne by (intros ->; done).
  assert (forall (m : gmap string string) q, m !! p = None -> invalidateParentDirectoryETags m q !! p = None) as Hi.
  { intros m q Hm. rewrite lookup_invalidateParent. by case_decide. }
  assert (forall (m : gmap string string) q, m !! p = None -> delete q m !! p = None) as Hdel.
  { intros m q Hm. destruct (decide (p = q)) as [->|]; [apply lookup_delete_eq|by rewrite lookup_delete_ne]. }
  assert (forall (X : gset string) q, p ∉ X -> p ∉ X ∖ {[q]}) as Hx1
    by (intros X q Hx; rewrite elem_of_difference; tauto).
  assert (forall X : gset string, p ∉ X -> p ∉ {[cleanRelPath (op_filePath op)]} ∪ X) as Hx2
    by (intros X Hx; rewrite elem_of_union, elem_of_singleton; tauto).
  repeat (case_match; cbn [fst]; try done);
    rewrite ?dirs_set_etags, ?dirs_set_dirs, ?dirs_set_file, ?etags_set_etags, ?etags_set_dirs, ?etags_set_file;
    split; repeat case_match; try done; auto.
Qed.

Lemma reconcile_no_dir ops st b p :
  p ∈ st.2 -> (p ∉ dirs st.1 b) -> etags st.1 b !! p = None ->
  (p ∉ dirs (fold_left (reconcile_op inspect targetDir) ops st).1 b)
  /\ etags (fold_left (reconcile_op inspect targetDir) ops st).1 b !! p = None.
Proof.
  revert st. induction ops as [|op ops IH]; intros st Hp Hd He; [done|]. cbn [fold_left].
  destruct (reconcile_op_no_dir st op b p Hp Hd He). apply IH; [|done|done].
  apply (reconcile_protects inspect targetDir [op] st p Hp).
Qed.
End Keep.

Lemma finalize_sync_state predicate id g status err st ups dels now d d' :
  finalizeSyncJobPassWithStates predicate id g status err st ups dels now d = (true, d') ->
  sync_state d' = bulkUpsertSyncStatesTx ups dels (sync_state d).
Proof.
  unfold finalizeSyncJobPassWithStates.
  destruct (update_job_spec id (fun j => (run_generation j =? g) && status_in predicate (jr_status j))
    (finished_row IDLE status err st now) d) as [(j & _ & _ & ->)| ->]; [|done].
  cbn [negb]. by intros [= <-].
Qed.

(** C14: a pass never forgets unfinished work.  When the commit of a pass succeeds, the
    baseline row of every path with a task that did not complete is, on each side where the
    path neither is nor was a directory, the row it was before - whatever the other tasks
    did, the final inspections answered and the cleanup removed.  On a side where it is or
    was a directory it is that row still, or the row of a directory, or, for a directory
    recorded before, gone: in no case is a file recorded anew. *)
Theorem incomplete_keeps_baseline inspect targetDir jobID generation rows sn ps pt psd ptd removed
    now d d' r b :
  normal_snapshot sn -> normal_set psd -> normal_set ptd ->
  complete_pass inspect targetDir jobID generation rows sn ps pt psd ptd removed now d = (true, d') ->
  r ∈ rows -> oc_status r <> COMPLETED ->
  let key := (jobID, side_name b, cleanRelPath (oc_filePath r)) in
  (no_dir sn psd ptd b (cleanRelPath (oc_filePath r)) -> sync_state d' !! key = sync_state d !! key)
  /\ (sync_state d' !! key = sync_state d !! key
      \/ (exists row, sync_state d' !! key = Some row /\ ss_Size row = -1)
      \/ sync_state d' !! key = None /\ cleanRelPath (oc_filePath r) ∈ prev_dirs psd ptd b).
Proof.
  intros Hsn Hpsd Hptd Hc Hr Hs key. unfold key. set (p := cleanRelPath (oc_filePath r)) in *.
  pose proof (stats_spec rows) as Hst. cbn zeta in Hst. destruct Hst as (_ & _ & _ & _ & Hprot & _).
  unfold complete_pass in Hc. set (stats := readFinalTaskOutcomes rows) in *.
  assert (p ∈ protectedPaths stats) as Hp by (apply Hprot; by exists r).
  destruct (finalRunStatus stats) as [status err].
  pose proof (outcome_snapshot_sub inspect targetDir sn stats removed) as Ho.
  unfold reconcileSuccessfulOperations in Ho.
  set (st0 := (sn, protectedPaths stats)) in *.
  pose proof (reconcile_protects inspect targetDir (completedOperations stats) st0 p Hp) as Hp1.
  pose proof (reconcile_normal inspect targetDir (completedOperations stats) st0 Hsn) as Hn1.
  pose proof (fun Hd : no_dir sn psd ptd b p => reconcile_no_dir inspect targetDir (completedOperations stats) st0 b p Hp (proj1 Hd) (proj1 (proj2 Hd))) as Hnd.
  destruct (fold_left _ (completedOperations stats) st0) as [sn1 prot1]. cbn [fst snd] in *.
  destruct (outcome_snapshot inspect targetDir sn stats removed) as [sn2 prot2].
  destruct Ho as [-> Ho].
  assert (normal_snapshot sn2) as Hn2.
  { intros b'. destruct (Ho b') as (Hf & Hdd & Hee). destruct (Hn1 b') as (N1 & N2 & N3).
    rewrite Hf. split_and!; [done|by intros q Hq; apply N2, Hdd|].
    intros q Hq. apply N3. by rewrite <- (Hee q Hq). }
  pose proof (table_after_protected jobID sn2 ps pt psd ptd prot1 (sync_state d) Hn2 Hpsd Hptd b p Hp1) as Ht.
  pose proof (table_after_protected_any jobID sn2 ps pt psd ptd prot1 (sync_state d) Hpsd Hptd b p Hp1) as Ha.
  unfold table_after in Ht, Ha. destruct (syncStateChanges _ _ _ _ _ _ _) as [ups dels].
  rewrite (finalize_sync_state _ _ _ _ _ _ _ _ _ _ _ Hc). split; [|exact Ha].
  intros Hd. apply Ht. destruct (Hnd Hd) as [Hd1' Hd2']. destruct Hd as (_ & _ & Hd3). destruct (Ho b) as (_ & Hdd & Hee).
  split; [by intros Hx; apply Hd1', Hdd|]. split; [|done].
  destruct (etags sn2 b !! p) eqn:E; [|done]. rewrite Hee in E by (by rewrite E). congruence.
Qed.

(** A successor waits for every running task.  The wait ends without an error
    only at a check that counted no running task, every earlier check having
    counted some, before the context ended; while a check answers with a running
    task it goes on, and an error of the count or of the context ends it as an
    error. *)
Theorem wait_exact answers :
  match waitForNoRunningTasks answers with
  | Some Drained => exists before after, answers = before ++ (false, Ok 0) :: after
      /\ Forall (fun a => a.1 = false /\ exists n, a.2 = Ok n /\ n <> 0) before
  | Some (WaitError e) => exists before a after, answers = before ++ a :: after
      /\ Forall (fun a => a.1 = false /\ exists n, a.2 = Ok n /\ n <> 0) before
      /\ (a.1 = true \/ a.2 = Err e)
  | None => Forall (fun a => a.1 = false /\ exists n, a.2 = Ok n /\ n <> 0) answers
  end.
Proof.
  unfold waitForNoRunningTasks. induction answers as [|[expired r] answers IH]; [constructor|].
  cbn [wait_ticks]. destruct expired; [exists [], (true, r), answers; split_and!; auto|].
  destruct r as [n|e]; [|exists [], (false, Err e), answers; split_and!; auto].
  destruct (n =? 0) eqn:E.
  - apply Z.eqb_eq in E as ->. by exists [], answers.
  - assert ((fun a : bool * res string Z => a.1 = false /\ exists n, a.2 = Ok n /\ n <> 0) (false, Ok n))
      as Hn by (split; [done|]; exists n; split; [done|lia]).
    destruct (wait_ticks answers) as [[|e]|].
    + destruct IH as (before & after & -> & Hb). exists ((false, Ok n) :: before), after.
      split; [done|by constructor].
    + destruct IH as (before & a & after & -> & Hb & Ha). exists ((false, Ok n) :: before), a, after.
      split; [done|]. split; [by constructor|done].
    + by constructor.
Qed.

(** ** Witness *)

Definition outcome_job : job_row :=
  mkJobRow RUNNING 3 0 None None None (mkCounters 2 9 1 5 0 0 1 0 1) 4 100.
Definition outcome_rows : list outcome_row :=
  [mkOutcome "/a" TFAILED (Some ("upload", "")); mkOutcome "/b" COMPLETED (Some ("upload", ""))].
Definition outcome_old_row : SyncState := file_row "j" "source" "/a" (file_ex "/a" 4 8000).
Definition outcome_db : database :=
  mkDb {["j" := outcome_job]} ∅ ∅ {[("j", "source", "/a") := outcome_old_row]}.

Lemma normal_set_empty : normal_set ∅.
Proof. intros p Hp. by apply elem_of_empty in Hp. Qed.

Lemma outcome_no_dir : no_dir (sn_of ∅) ∅ ∅ true "/a".
Proof.
  split; [|split]; [intros Hp; by apply elem_of_empty in Hp|reflexivity
    |intros Hp; by apply elem_of_empty in Hp].
Qed.

Lemma incomplete_keeps_baseline_witness :
  exists d', complete_pass inspect_new "/" "j" 3 outcome_rows (sn_of ∅) ∅ ∅ ∅ ∅ [] 200 outcome_db
             = (true, d')
    /\ sync_state d' !! ("j", "source", "/a") = Some outcome_old_row.
Proof.
  destruct (complete_pass inspect_new "/" "j" 3 outcome_rows (sn_of ∅) ∅ ∅ ∅ ∅ [] 200 outcome_db)
    as [ok d'] eqn:E.
  assert (ok = true) as ->.
  { apply (f_equal fst) in E. cbn [fst] in E. rewrite <- E. vm_compute. reflexivity. }
  exists d'. split; [reflexivity|].
  assert (normal_snapshot (sn_of ∅)) as Hn.
  { apply (sn_of_ok ∅). intros p f Hf. by rewrite lookup_empty in Hf. }
  pose proof normal_set_empty as He.
  pose proof (incomplete_keeps_baseline inspect_new "/" "j" 3 outcome_rows (sn_of ∅) ∅ ∅ ∅ ∅ [] 200
    outcome_db d' (mkOutcome "/a" TFAILED (Some ("upload", ""))) true Hn He He E) as Hk.
  etransitivity; [refine (proj1 (Hk _ _) _); [by left|done|exact outcome_no_dir]|]. apply lookup_singleton_eq.
Defined.
