(* ===== verification/BackupRepo.v ===== *)
(** * The backup repository format

    Packs, blocks and snapshot paths of src/backend/internal/backuprepo/
    repository.go.  The hash function is a parameter with 32-byte values; a
    reader is the byte string it will deliver, a writer the bytes written. *)

From S2P Require Import Prelude GoPath Bytes.

Definition FormatVersion : Z := 1.
Definition BlockSize : Z := 4 * 1024 * 1024.
Definition MaxPackSize : Z := 64 * 1024 * 1024.
Definition packPrefixSize : Z := 16.
Definition packFooterSize : Z := 20.
Definition sha256_Size : Z := 32.

(** "CLMPACK1" and "CLMEND01" *)
Definition packMagic : bytes := [x43; x4c; x4d; x50; x41; x43; x4b; x31].
Definition footerMagic : bytes := [x43; x4c; x4d; x45; x4e; x44; x30; x31].

Record Entry := mkEntry {
  e_Hash : bytes;
  e_Data : bytes;
}.

Record Pack := mkPack {
  p_ID : bytes;
  p_Size : Z;
  p_EntryCount : Z;
}.

Definition backslash : ascii := "\"%char.

Definition NormalizeRelativePath (value : string) : res string string :=
  if String.eqb value "" || str_contains backslash value
  then Err "backup path must be a non-empty slash-separated relative path"
  else
    let cleaned := path_clean value in
    if String.eqb cleaned "." || has_prefix cleaned "/" || String.eqb cleaned ".."
       || has_prefix cleaned "../"
    then Err "backup path escapes the snapshot root"
    else Ok cleaned.

Section Repository.
Context (sha256 : bytes -> bytes).

(** ** Blocks *)

(** How the source ends: cleanly, with [io.ErrUnexpectedEOF] of its own (a
    transfer that was cut), or with another error. *)
Inductive stream_end := AtEOF | Truncated | ReadFailed (e : string).

(** The loop over the source; the callback threads the caller's state, which an
    error of the caller carries too.  [io.ReadFull] answers a partial block with
    [io.ErrUnexpectedEOF]. *)
Fixpoint split_loop {A E} (fail : A -> string -> E) (fuel : nat) (callback : A -> Entry -> res E A)
    (source : bytes) (stop : stream_end) (a : A) : option (res E A) :=
  match fuel with
  | O => None
  | S fuel =>
      let block := ztake BlockSize source in
      match (if 0 <? zlen block then callback a (mkEntry (sha256 block) block) else Ok a) with
      | Err e => Some (Err e)
      | Ok a =>
          if zlen block <? BlockSize
          then Some match stop with
                    | AtEOF | Truncated => Ok a
                    | ReadFailed e => Err (fail a e)
                    end
          else split_loop fail fuel callback (zdrop BlockSize source) stop a
      end
  end.

(** The hash of the whole stream and the state the callback built. *)
Definition SplitBlocks {A E} (fail : A -> string -> E) (callback : A -> Entry -> res E A)
    (source : bytes) (stop : stream_end) (a : A) : res E (bytes * A) :=
  match split_loop fail (S (length source)) callback source stop a with
  | Some (Ok a) => Ok (sha256 source, a)
  | Some (Err e) => Err e
  | None => Err (fail a "out of fuel")
  end.

(** ** Writing a pack *)

Definition entry_size (e : Entry) : Z := sha256_Size + 4 + zlen (e_Data e).

Fixpoint check_entries (entries : list Entry) (payloadSize : Z) : res string Z :=
  match entries with
  | [] => Ok payloadSize
  | e :: entries =>
      if (zlen (e_Data e) =? 0) || (BlockSize <? zlen (e_Data e)) then Err "invalid block length"
      else if negb (bool_decide (sha256 (e_Data e) = e_Hash e))
      then Err "block hash does not match payload"
      else check_entries entries (payloadSize + entry_size e)
  end.

Definition encode_entry (e : Entry) : bytes :=
  e_Hash e ++ be_put 4 (zlen (e_Data e)) ++ e_Data e.

Definition pack_prefix : bytes := be_put 2 FormatVersion ++ [x00; x00; x00; x00; x00; x00].

Definition pack_footer (count dataEnd : Z) : bytes :=
  footerMagic ++ be_put 4 count ++ be_put 8 dataEnd.

Definition EncodePack (entries : list Entry) : res string (Pack * bytes) :=
  if 2 ^ 32 - 1 <? zlen entries then Err "too many pack entries"
  else match check_entries entries 0 with
  | Err e => Err e
  | Ok payloadSize =>
      if MaxPackSize <? packPrefixSize + packFooterSize + payloadSize
      then Err "encoded pack exceeds maximum size"
      else
        let body := concat (map encode_entry entries) in
        let dataEnd := packPrefixSize + payloadSize in
        let stream := packMagic ++ pack_prefix ++ body ++ pack_footer (zlen entries) dataEnd in
        Ok (mkPack (sha256 stream) (dataEnd + packFooterSize) (zlen entries), stream)
  end.

(** ** Reading a pack *)

(** One entry: the block and the rest of the stream. *)
Definition read_entry (offset : Z) (src : bytes) : res string (Z * Entry * bytes) :=
  if MaxPackSize <? offset + (sha256_Size + 4) + packFooterSize
  then Err "pack exceeds maximum size"
  else match read_full sha256_Size src with
  | None => Err "read block hash"
  | Some (blockHash, src) =>
    match read_full 4 src with
    | None => Err "read block length"
    | Some (encodedLength, src) =>
      let payloadOffset := offset + sha256_Size + 4 in
      let len := be_get encodedLength in
      if (len =? 0) || (BlockSize <? len) || (MaxPackSize <? payloadOffset + len + packFooterSize)
      then Err "invalid block length"
      else match read_full len src with
      | None => Err "read block payload"
      | Some (payload, src) =>
          if negb (bool_decide (sha256 payload = blockHash)) then Err "block payload hash mismatch"
          else Ok (payloadOffset, mkEntry blockHash payload, src)
      end
    end
  end.

Fixpoint entries_loop {A} (fuel : nat) (callback : A -> Z -> Entry -> res string A)
    (offset count : Z) (src : bytes) (a : A) : option (res string (Z * Z * bytes * A)) :=
  match fuel with
  | O => None
  | S fuel =>
      if zlen src <? 8 then Some (Err "read pack entry or footer")
      else if bool_decide (ztake 8 src = footerMagic) then Some (Ok (offset, count, src, a))
      else match read_entry offset src with
      | Err e => Some (Err e)
      | Ok (payloadOffset, e, src) =>
          if count =? 2 ^ 32 - 1 then Some (Err "too many pack entries")
          else match callback a payloadOffset e with
          | Err e => Some (Err e)
          | Ok a => entries_loop fuel callback (payloadOffset + zlen (e_Data e)) (count + 1) src a
          end
      end
  end.

Definition check_header (source : bytes) : res string bytes :=
  match read_full 8 source with
  | None => Err "invalid pack magic"
  | Some (magic, src) =>
    if negb (bool_decide (magic = packMagic)) then Err "invalid pack magic"
    else match read_full 8 src with
    | None => Err "read pack prefix"
    | Some (prefix, src) =>
      if negb (be_get (ztake 2 prefix) =? FormatVersion)
         || negb (bool_decide (ztake 2 (zdrop 2 prefix) = [x00; x00]))
         || negb (be_get (zdrop 4 prefix) =? 0)
      then Err "unsupported pack version, flags, or header"
      else Ok src
    end
  end.

(** [expectedID] is compared with the hash of the bytes consumed. *)
Definition check_footer (source : bytes) (offset count : Z) (src : bytes) (expectedID : bytes)
    : res string Pack :=
  match read_full 20 src with
  | None => Err "read pack footer"
  | Some (footer, rest) =>
    if negb (bool_decide (ztake 8 footer = footerMagic))
       || negb (be_get (ztake 4 (zdrop 8 footer)) =? count)
       || negb (be_get (zdrop 12 footer) =? offset)
    then Err "pack footer does not match entries"
    else if MaxPackSize <? offset + 20 then Err "pack exceeds maximum size"
    else if negb (bool_decide (rest = [])) then Err "pack has trailing data"
    else
      let actualID := sha256 source in
      if negb (bool_decide (actualID = expectedID))
      then Err "pack hash does not match catalogued pack ID"
      else Ok (mkPack actualID (offset + 20) count)
  end.

Definition ValidatePack {A} (callback : A -> Z -> Entry -> res string A) (source expectedID : bytes)
    (a : A) : res string (Pack * A) :=
  match check_header source with
  | Err e => Err e
  | Ok src =>
    match entries_loop (S (length src)) callback packPrefixSize 0 src a with
    | None => Err "out of fuel"
    | Some (Err e) => Err e
    | Some (Ok (offset, count, src, a)) =>
      match check_footer source offset count src expectedID with
      | Err e => Err e
      | Ok pack => Ok (pack, a)
      end
    end
  end.
End Repository.

(** ** Packs and their entries *)

Section Pack_facts.
Context (sha256 : bytes -> bytes).
Hypothesis sha256_length : forall l, length (sha256 l) = 32%nat.

Definition valid_entry (e : Entry) : Prop :=
  0 < zlen (e_Data e) <= BlockSize /\ sha256 (e_Data e) = e_Hash e.

(** The hash does not read as the start of the footer. *)
Definition not_footer (e : Entry) : Prop := ztake 8 (e_Hash e) <> footerMagic.

Definition payload_size (es : list Entry) : Z := foldr (fun e s => entry_size e + s) 0 es.

(** The entries with their payload offsets in a pack whose next entry starts at
    [offset]. *)
Fixpoint located (offset : Z) (es : list Entry) : list (Z * Entry) :=
  match es with
  | [] => []
  | e :: es => (offset + sha256_Size + 4, e) :: located (offset + entry_size e) es
  end.

Fixpoint run_callback {A} (callback : A -> Z -> Entry -> res string A) (a : A)
    (l : list (Z * Entry)) : res string A :=
  match l with
  | [] => Ok a
  | (o, e) :: l => match callback a o e with Ok a => run_callback callback a l | Err x => Err x end
  end.

Lemma entry_size_pos e : 36 <= entry_size e.
Proof. unfold entry_size, sha256_Size. pose proof (zlen_nonneg (e_Data e)). lia. Qed.

Lemma payload_size_cons e es : payload_size (e :: es) = entry_size e + payload_size es.
Proof. reflexivity. Qed.

Lemma payload_size_nonneg es : 0 <= payload_size es.
Proof.
  induction es as [|e es IH]; [done|]. rewrite payload_size_cons.
  pose proof (entry_size_pos e). lia.
Qed.

Lemma payload_size_app es es' : payload_size (es ++ es') = payload_size es + payload_size es'.
Proof. induction es as [|e es IH]; [done|]. cbn [app]. rewrite !payload_size_cons, IH. lia. Qed.

Lemma hash_length e : valid_entry e -> zlen (e_Hash e) = 32.
Proof. intros [_ <-]. unfold zlen. by rewrite sha256_length. Qed.

Lemma encode_entry_length e : valid_entry e -> zlen (encode_entry e) = entry_size e.
Proof.
  intros H. unfold encode_entry, entry_size, sha256_Size.
  rewrite !zlen_app, hash_length by done. unfold zlen at 1. rewrite be_put_length. lia.
Qed.

Lemma check_entries_ok es n m :
  check_entries sha256 es n = Ok m <-> Forall valid_entry es /\ m = n + payload_size es.
Proof.
  revert n. induction es as [|e es IH]; intros n; cbn [check_entries].
  { change (payload_size []) with 0.
    split; [intros [= <-]; split; [constructor|lia]|intros [_ ->]; f_equal; lia]. }
  rewrite payload_size_cons.
  rewrite Forall_cons. pose proof (zlen_nonneg (e_Data e)) as Hn.
  destruct ((zlen (e_Data e) =? 0) || (BlockSize <? zlen (e_Data e))) eqn:El.
  { split; [done|]. intros [[[? _] _] _]. lia. }
  case_bool_decide as Hs; cbn [negb].
  - rewrite IH. split.
    + intros [? ->]. split; [|lia]. split; [|done]. split; [lia|done].
    + intros [[_ ?] ->]. split; [done|lia].
  - split; [done|]. by intros [[[_ ?] _] _].
Qed.

Lemma be_get_put4 z : 0 <= z < 2 ^ 32 -> be_get (be_put 4 z) = z.
Proof. intros H. rewrite be_get_put. apply Z.mod_small. done. Qed.

Lemma be_get_put8 z : 0 <= z < 2 ^ 64 -> be_get (be_put 8 z) = z.
Proof. intros H. rewrite be_get_put. apply Z.mod_small. done. Qed.

Lemma read_entry_encode offset e rest :
  valid_entry e -> 0 <= offset -> offset + entry_size e + packFooterSize <= MaxPackSize ->
  read_entry sha256 offset (encode_entry e ++ rest) = Ok (offset + sha256_Size + 4, e, rest).
Proof.
  intros Hv Ho Hm. pose proof (hash_length e Hv) as Hh. destruct Hv as [Hl Hs].
  unfold read_entry, encode_entry, entry_size, sha256_Size, packFooterSize in *.
  destruct (MaxPackSize <? _) eqn:E1; [lia|].
  rewrite <- !app_assoc, read_full_app by done.
  rewrite read_full_app by (unfold zlen; by rewrite be_put_length).
  unfold BlockSize in *. rewrite be_get_put4 by lia.
  match goal with |- context [if ?c then Err "invalid block length" else _] =>
    assert (c = false) as -> end.
  { repeat rewrite orb_false_iff. split; [split|]; lia. }
  rewrite read_full_app by done. rewrite bool_decide_true by done. by destruct e.
Qed.

Lemma entries_loop_encode {A} (callback : A -> Z -> Entry -> res string A) es :
  forall fuel offset count foot a,
  Forall valid_entry es -> Forall not_footer es -> ztake 8 foot = footerMagic ->
  0 <= offset -> offset + payload_size es + packFooterSize <= MaxPackSize ->
  count + zlen es <= 2 ^ 32 - 1 -> (length es < fuel)%nat ->
  entries_loop sha256 fuel callback offset count (concat (map encode_entry es) ++ foot) a
  = Some match run_callback callback a (located offset es) with
         | Ok a' => Ok (offset + payload_size es, count + zlen es, foot, a')
         | Err x => Err x
         end.
Proof.
  induction es as [|e es IH]; intros fuel offset count foot a Hv Hn Hf Ho Hm Hc Hfu.
  - destruct fuel as [|fuel]; [cbn in Hfu; lia|]. cbn.
    assert (8 <= zlen foot) as Hl.
    { apply (f_equal zlen) in Hf. rewrite zlen_ztake in Hf by lia.
      change (zlen footerMagic) with 8 in Hf. lia. }
    destruct (zlen foot <? 8) eqn:E; [lia|]. rewrite bool_decide_true by done.
    by rewrite !Z.add_0_r.
  - destruct fuel as [|fuel]; [cbn in Hfu; lia|].
    apply Forall_cons in Hv as [He Hv]. apply Forall_cons in Hn as [Hne Hn].
    cbn [map concat]. rewrite payload_size_cons in *.
    pose proof (payload_size_nonneg es) as Hp. pose proof (entry_size_pos e) as Hes.
    rewrite <- app_assoc. cbn [entries_loop].
    assert ((zlen (encode_entry e ++ concat (map encode_entry es) ++ foot) <? 8) = false) as ->.
    { rewrite zlen_app, encode_entry_length by done.
      pose proof (zlen_nonneg (concat (map encode_entry es) ++ foot)). lia. }
    assert (ztake 8 (encode_entry e ++ concat (map encode_entry es) ++ foot)
            = ztake 8 (e_Hash e)) as ->.
    { unfold encode_entry. rewrite <- app_assoc, !ztake_take. apply take_app_le.
      pose proof (hash_length e He) as Hh. unfold zlen in Hh. lia. }
    rewrite bool_decide_false by done.
    rewrite read_entry_encode by (done || lia).
    unfold zlen in Hc. cbn [length] in Hc, Hfu.
    destruct (count =? 2 ^ 32 - 1) eqn:Ec; [lia|].
    cbn [located run_callback]. destruct (callback a (offset + sha256_Size + 4) e) as [a'|x]; [|done].
    replace (offset + sha256_Size + 4 + zlen (e_Data e)) with (offset + entry_size e)
      by (unfold entry_size; lia).
    rewrite IH; [|done|done|done|lia|lia|unfold zlen; lia|lia].
    destruct (run_callback _ _ _) as [a''|x]; [|done]. unfold zlen. cbn [length].
    replace (offset + (entry_size e + payload_size es))
      with (offset + entry_size e + payload_size es) by lia.
    by replace (count + Z.of_nat (S (length es))) with (count + 1 + Z.of_nat (length es)) by lia.
Qed.

(** ** Soundness of the reader *)

Lemma read_entry_sound offset src p e rest :
  read_entry sha256 offset src = Ok (p, e, rest) ->
  src = encode_entry e ++ rest /\ valid_entry e /\ p = offset + sha256_Size + 4
  /\ offset + entry_size e + packFooterSize <= MaxPackSize.
Proof.
  unfold read_entry. destruct (MaxPackSize <? _) eqn:E1; [done|].
  destruct (read_full sha256_Size src) as [[h src1]|] eqn:R1; [|done].
  apply read_full_some in R1 as [-> H1]; [|done].
  destruct (read_full 4 src1) as [[l src2]|] eqn:R2; [|done].
  apply read_full_some in R2 as [-> H2]; [|done].
  pose proof (be_get_range l) as Hr.
  match goal with |- context [if ?c then Err "invalid block length" else _] =>
    destruct c eqn:E2 end; [done|].
  destruct (read_full (be_get l) src2) as [[d src3]|] eqn:R3; [|done].
  apply read_full_some in R3 as [-> H3]; [|lia].
  case_bool_decide as Hs; [|done]. cbn [negb]. intros [= <- <- <-].
  assert (length l = 4%nat) as Hl4 by (unfold zlen in H2; lia).
  assert (be_put 4 (be_get l) = l) as Hb by (rewrite <- (be_put_get l) at 2; by rewrite Hl4).
  unfold encode_entry, valid_entry, entry_size, sha256_Size, packFooterSize in *.
  cbn [e_Hash e_Data]. rewrite H3, Hb, <- !app_assoc. split_and!; done || lia.
Qed.

Lemma entries_loop_sound {A} (callback : A -> Z -> Entry -> res string A) fuel :
  forall offset count src a offset' count' rest a',
  entries_loop sha256 fuel callback offset count src a = Some (Ok (offset', count', rest, a')) ->
  count <= 2 ^ 32 - 1 -> offset + packFooterSize <= MaxPackSize ->
  exists es, src = concat (map encode_entry es) ++ rest /\ Forall valid_entry es
    /\ Forall not_footer es /\ ztake 8 rest = footerMagic
    /\ offset' = offset + payload_size es /\ count' = count + zlen es /\ count' <= 2 ^ 32 - 1
    /\ offset' + packFooterSize <= MaxPackSize
    /\ run_callback callback a (located offset es) = Ok a'.
Proof.
  induction fuel as [|fuel IH]; intros offset count src a offset' count' rest a' H Hc Ho; [done|].
  cbn [entries_loop] in H. destruct (zlen src <? 8) eqn:E8; [done|].
  case_bool_decide as Hm.
  - injection H as <- <- <- <-. exists []. cbn. unfold zlen. cbn.
    split_and!; done || lia || constructor.
  - destruct (read_entry sha256 offset src) as [[[p e] src1]|] eqn:Er; [|done].
    apply read_entry_sound in Er as (-> & Hv & -> & Hsz).
    destruct (count =? 2 ^ 32 - 1) eqn:Ec; [done|].
    destruct (callback a (offset + sha256_Size + 4) e) as [a1|] eqn:Ecb; [|done].
    replace (offset + sha256_Size + 4 + zlen (e_Data e)) with (offset + entry_size e) in H
      by (unfold entry_size; lia).
    apply IH in H as (es & -> & Hvs & Hns & Hf & -> & -> & Hc' & Ho' & Hr); [|lia|lia].
    exists (e :: es). cbn [map concat located run_callback]. rewrite payload_size_cons.
    rewrite <- app_assoc, Ecb.
    assert (not_footer e) as Hne.
    { unfold not_footer. intros E. apply Hm. rewrite <- E. unfold encode_entry.
      rewrite <- !app_assoc, !ztake_take. apply take_app_le.
      pose proof (hash_length e Hv) as Hh. unfold zlen in Hh. lia. }
    unfold zlen in *. cbn [length]. split_and!; try done; try lia; by constructor.
Qed.

Lemma header_ok rest : check_header (packMagic ++ pack_prefix ++ rest) = Ok rest.
Proof. unfold check_header. by rewrite !read_full_app by done. Qed.

Lemma header_sound source rest :
  check_header source = Ok rest -> source = packMagic ++ pack_prefix ++ rest.
Proof.
  unfold check_header. destruct (read_full 8 source) as [[magic src]|] eqn:R1; [|done].
  apply read_full_some in R1 as [-> H1]; [|done].
  case_bool_decide as Hm; [|done]. subst magic. cbn [negb].
  destruct (read_full 8 src) as [[prefix src']|] eqn:R2; [|done].
  apply read_full_some in R2 as [-> H2]; [|done].
  destruct (negb (be_get (ztake 2 prefix) =? FormatVersion)) eqn:E1; [done|].
  case_bool_decide as E2; [|done]. destruct (negb (be_get (zdrop 4 prefix) =? 0)) eqn:E3; [done|].
  intros [= <-]. f_equal. f_equal.
  destruct prefix as [|b1 [|b2 [|b3 [|b4 [|b5 [|b6 [|b7 [|b8 [|b9 prefix]]]]]]]]];
    try (unfold zlen in H2; cbn in H2; lia).
  cbn in E2. injection E2 as -> ->. apply negb_false_iff, Z.eqb_eq in E1.
  apply negb_false_iff, Z.eqb_eq in E3.
  assert ([b1; b2] = be_put 2 FormatVersion) as E.
  { apply be_get_inj; [done|]. rewrite be_get_put. exact E1. }
  assert ([b5; b6; b7; b8] = be_put 4 0) as E'.
  { apply be_get_inj; [done|]. rewrite be_get_put. exact E3. }
  injection E as -> ->. injection E' as -> -> -> ->. reflexivity.
Qed.

Lemma footer_length count dataEnd : zlen (pack_footer count dataEnd) = 20.
Proof. unfold pack_footer, zlen. rewrite !length_app, !be_put_length. done. Qed.

Lemma footer_ok source offset count :
  0 <= count < 2 ^ 32 -> 0 <= offset -> offset + 20 <= MaxPackSize ->
  check_footer sha256 source offset count (pack_footer count offset) (sha256 source)
  = Ok (mkPack (sha256 source) (offset + 20) count).
Proof.
  intros Hc Ho Hm. unfold check_footer.
  rewrite <- (app_nil_r (pack_footer count offset)), read_full_app by (by rewrite footer_length).
  unfold pack_footer. rewrite ztake_app by done. rewrite (zdrop_app 8) by done.
  rewrite ztake_app by (unfold zlen; by rewrite be_put_length).
  replace (zdrop 12 (footerMagic ++ be_put 4 count ++ be_put 8 offset)) with (be_put 8 offset).
  2: { rewrite app_assoc, zdrop_app; [done|]. unfold zlen. by rewrite length_app, be_put_length. }
  rewrite be_get_put4, be_get_put8 by (unfold MaxPackSize in Hm; lia).
  rewrite bool_decide_true, !Z.eqb_refl by done. cbn [negb orb].
  destruct (MaxPackSize <? offset + 20) eqn:E; [lia|]. by rewrite !bool_decide_true.
Qed.

Lemma footer_sound source offset count src expectedID p :
  0 <= count < 2 ^ 32 -> 0 <= offset ->
  check_footer sha256 source offset count src expectedID = Ok p ->
  src = pack_footer count offset /\ sha256 source = expectedID
  /\ p = mkPack expectedID (offset + 20) count.
Proof.
  intros Hc Ho. unfold check_footer.
  destruct (read_full 20 src) as [[foot rest]|] eqn:R; [|done].
  apply read_full_some in R as [-> Hl]; [|done].
  case_bool_decide as E1; [|done]. cbn [negb orb].
  destruct (be_get (ztake 4 (zdrop 8 foot)) =? count) eqn:E2; [|done].
  destruct (be_get (zdrop 12 foot) =? offset) eqn:E3; [|done]. cbn [negb orb].
  destruct (MaxPackSize <? offset + 20) eqn:E4; [done|].
  case_bool_decide as E5; [|done]. cbn [negb]. case_bool_decide as E6; [|done].
  intros [= <-]. subst rest expectedID. rewrite app_nil_r. split; [|done].
  rewrite <- (ztake_zdrop 8 foot), E1. unfold pack_footer. f_equal.
  rewrite <- (ztake_zdrop 4 (zdrop 8 foot)). f_equal.
  - apply be_get_inj; [|rewrite be_get_put4; lia].
    pose proof (zlen_ztake 4 (zdrop 8 foot) ltac:(lia)) as Hz.
    rewrite zlen_zdrop in Hz by lia. unfold zlen in *. rewrite be_put_length. lia.
  - replace (zdrop 4 (zdrop 8 foot)) with (zdrop 12 foot)
      by (rewrite !zdrop_drop, drop_drop; done).
    apply be_get_inj; [|rewrite be_get_put8; unfold MaxPackSize in E4; lia].
    pose proof (zlen_zdrop 12 foot ltac:(lia)) as Hz. unfold zlen in *. rewrite be_put_length. lia.
Qed.

Lemma encode_ok es p stream :
  EncodePack sha256 es = Ok (p, stream) <->
  zlen es <= 2 ^ 32 - 1 /\ Forall valid_entry es
  /\ packPrefixSize + payload_size es + packFooterSize <= MaxPackSize
  /\ stream = packMagic ++ pack_prefix ++ concat (map encode_entry es)
              ++ pack_footer (zlen es) (packPrefixSize + payload_size es)
  /\ p = mkPack (sha256 stream) (packPrefixSize + payload_size es + packFooterSize) (zlen es).
Proof.
  unfold EncodePack. destruct (2 ^ 32 - 1 <? zlen es) eqn:E1.
  { split; [done|]. intros (? & _). lia. }
  destruct (check_entries sha256 es 0) as [n|x] eqn:E2.
  - apply check_entries_ok in E2 as [Hv ->]. rewrite Z.add_0_l.
    unfold packPrefixSize, packFooterSize in *.
    destruct (MaxPackSize <? _) eqn:E3; [split; [done|intros (_ & _ & ? & _); lia]|].
    split.
    + intros [= <- <-]. split_and!; done || lia.
    + intros (_ & _ & _ & -> & ->). done.
  - split; [done|]. intros (_ & Hv & _).
    assert (check_entries sha256 es 0 = Ok (0 + payload_size es)) as E
      by (apply check_entries_ok; done).
    by rewrite E in E2.
Qed.

Lemma encode_size es p stream : EncodePack sha256 es = Ok (p, stream) -> zlen stream = p_Size p.
Proof.
  intros (_ & Hv & _ & -> & ->)%encode_ok. cbn [p_Size].
  assert (zlen (concat (map encode_entry es)) = payload_size es) as Hc.
  { induction Hv as [|e es He Hv IH]; [done|]. cbn [map concat].
    by rewrite zlen_app, encode_entry_length, IH, payload_size_cons. }
  rewrite !zlen_app, footer_length, Hc. change (zlen packMagic) with 8.
  change (zlen pack_prefix) with 8. unfold packPrefixSize, packFooterSize. lia.
Qed.

(** Entries are read off a concatenation in one way only. *)
Lemma encode_concat_inj es : forall es',
  Forall valid_entry es -> Forall valid_entry es' ->
  concat (map encode_entry es) = concat (map encode_entry es') -> es = es'.
Proof.
  induction es as [|e es IH]; intros [|e' es'] Hv Hv' H; try done.
  - apply Forall_cons in Hv' as [Hv' _]. apply (f_equal zlen) in H. cbn [map concat] in H.
    rewrite zlen_app, encode_entry_length in H by done. pose proof (entry_size_pos e').
    pose proof (zlen_nonneg (concat (map encode_entry es'))). change (zlen []) with 0 in H. lia.
  - apply Forall_cons in Hv as [Hv _]. apply (f_equal zlen) in H. cbn [map concat] in H.
    rewrite zlen_app, encode_entry_length in H by done. pose proof (entry_size_pos e).
    pose proof (zlen_nonneg (concat (map encode_entry es))). change (zlen []) with 0 in H. lia.
  - apply Forall_cons in Hv as [He Hv]. apply Forall_cons in Hv' as [He' Hv'].
    cbn [map concat] in H.
    assert (forall x, valid_entry x -> 0 + entry_size x + packFooterSize <= MaxPackSize) as Hm.
    { intros x [Hx _]. unfold entry_size, sha256_Size, packFooterSize, MaxPackSize, BlockSize in *. lia. }
    pose proof (read_entry_encode 0 e (concat (map encode_entry es)) He ltac:(done) (Hm e He)) as R.
    pose proof (read_entry_encode 0 e' (concat (map encode_entry es')) He' ltac:(done) (Hm e' He')) as R'.
    rewrite H, R' in R. injection R as -> Hc. f_equal. by apply IH.
Qed.

Lemma encode_inj es es' p p' stream :
  EncodePack sha256 es = Ok (p, stream) -> EncodePack sha256 es' = Ok (p', stream) -> es = es'.
Proof.
  intros (_ & Hv & _ & Hs & _)%encode_ok (_ & Hv' & _ & Hs' & _)%encode_ok.
  rewrite Hs in Hs'. apply app_inv_head, app_inv_head in Hs'.
  apply app_inj_2 in Hs' as [Hs' _].
  - by apply encode_concat_inj.
  - unfold pack_footer. by rewrite !length_app, !be_put_length.
Qed.

(** The reader on a written pack: the callback sees every entry at its offset. *)
Lemma validate_encoded {A} (callback : A -> Z -> Entry -> res string A) es p stream a :
  EncodePack sha256 es = Ok (p, stream) -> Forall not_footer es ->
  ValidatePack sha256 callback stream (p_ID p) a
  = match run_callback callback a (located packPrefixSize es) with
    | Ok a' => Ok (p, a')
    | Err x => Err x
    end.
Proof.
  intros (Hc & Hv & Hm & -> & ->)%encode_ok Hn. unfold ValidatePack. rewrite header_ok.
  pose proof (payload_size_nonneg es) as Hp. pose proof (zlen_nonneg es) as Hz.
  rewrite entries_loop_encode; try done.
  2: { rewrite length_app. clear -sha256_length Hv.
       enough (length es <= length (concat (map encode_entry es)))%nat by lia.
       induction Hv as [|e es He Hv IH]; [done|]. cbn [map concat length]. rewrite length_app.
       pose proof (encode_entry_length e He). pose proof (entry_size_pos e). unfold zlen in *. lia. }
  destruct (run_callback _ _ _) as [a'|x]; [|done]. cbn [p_ID]. rewrite Z.add_0_l.
  unfold packPrefixSize, packFooterSize in *. rewrite footer_ok by lia. done.
Qed.

Lemma validate_sound {A} (callback : A -> Z -> Entry -> res string A) source id a p a' :
  ValidatePack sha256 callback source id a = Ok (p, a') ->
  exists es, EncodePack sha256 es = Ok (p, source) /\ p_ID p = id /\ Forall not_footer es
    /\ run_callback callback a (located packPrefixSize es) = Ok a'.
Proof.
  unfold ValidatePack. destruct (check_header source) as [src|] eqn:Eh; [|done].
  apply header_sound in Eh.
  destruct (entries_loop _ _ _ _ _ _ _) as [[[[[offset count] rest] a1]|]|] eqn:El; [|done|done].
  apply entries_loop_sound in El as (es & Hsrc & Hv & Hn & _ & -> & -> & Hc & Hm & Hr);
    [|lia|unfold packPrefixSize, packFooterSize, MaxPackSize; lia].
  destruct (check_footer _ _ _ _ _ _) as [pack|] eqn:Ef; [|done]. intros [= <- <-].
  pose proof (payload_size_nonneg es) as Hp. pose proof (zlen_nonneg es) as Hz.
  apply footer_sound in Ef as (-> & <- & ->); [|lia|unfold packPrefixSize; lia].
  exists es. split_and!; [|done|done|done]. rewrite Z.add_0_l in *.
  apply encode_ok. subst src. split_and!; done || lia.
Qed.
End Pack_facts.

(** C34: packs round trip.  Reading back a written pack under its own identifier
    succeeds, returns the identifier, size and entry count the writer returned,
    and hands every entry, in order and at its payload offset, to the callback -
    provided no block hash begins with the bytes of the footer mark. *)
Theorem pack_roundtrip (sha256 : bytes -> bytes) {A}
    (callback : A -> Z -> Entry -> res string A) es p stream a :
  (forall l, length (sha256 l) = 32%nat) ->
  EncodePack sha256 es = Ok (p, stream) -> Forall not_footer es ->
  ValidatePack sha256 callback stream (p_ID p) a
  = match run_callback callback a (located packPrefixSize es) with
    | Ok a' => Ok (p, a')
    | Err x => Err x
    end.
Proof. intros Hs. by apply validate_encoded. Qed.

(** The reader accepts nothing but written packs: whatever bytes it
    validates under an identifier are the encoding of the entries it handed to
    the callback, with matching block hashes, counts and sizes, and the
    identifier is the hash of all of them. *)
Theorem validate_pack_canonical (sha256 : bytes -> bytes) {A}
    (callback : A -> Z -> Entry -> res string A) source id a p a' :
  (forall l, length (sha256 l) = 32%nat) ->
  ValidatePack sha256 callback source id a = Ok (p, a') ->
  exists es, EncodePack sha256 es = Ok (p, source) /\ p_ID p = id
    /\ run_callback callback a (located packPrefixSize es) = Ok a'.
Proof.
  intros Hs H. destruct (validate_sound sha256 Hs callback source id a p a' H)
    as (es & He & Hi & _ & Hr). by exists es.
Qed.

(** ** Blocks *)

Section Block_facts.
Context (sha256 : bytes -> bytes).

Fixpoint run_blocks {A E} (callback : A -> Entry -> res E A) (a : A) (l : list Entry)
    : res E A :=
  match l with
  | [] => Ok a
  | e :: l => match callback a e with Ok a => run_blocks callback a l | Err x => Err x end
  end.

(** The callback over the blocks and then the end of the stream. *)
Definition run_stream {A E} (fail : A -> string -> E) (callback : A -> Entry -> res E A)
    (stop : stream_end) (a : A) (l : list Entry) : res E A :=
  match run_blocks callback a l with
  | Ok a => match stop with AtEOF | Truncated => Ok a | ReadFailed e => Err (fail a e) end
  | Err x => Err x
  end.

(** The blocks of a stream: full ones, the last one possibly shorter. *)
Inductive blocks_of : bytes -> list Entry -> Prop :=
| blocks_nil : blocks_of [] []
| blocks_last l : 0 < zlen l < BlockSize -> blocks_of l [mkEntry (sha256 l) l]
| blocks_full b l es :
    zlen b = BlockSize -> blocks_of l es -> blocks_of (b ++ l) (mkEntry (sha256 b) b :: es).

Lemma blocks_of_data l es : blocks_of l es -> concat (map e_Data es) = l.
Proof. induction 1 as [|l Hl|b l es Hb _ IH]; [done|cbn; by rewrite app_nil_r|cbn; by rewrite IH]. Qed.

Lemma split_loop_blocks {A E} (fail : A -> string -> E) (callback : A -> Entry -> res E A) stop
    fuel : forall source a, (length source < fuel)%nat ->
  exists es, blocks_of source es
    /\ split_loop sha256 fail fuel callback source stop a = Some (run_stream fail callback stop a es).
Proof.
  unfold run_stream. induction fuel as [|fuel IH]; intros source a Hf; [lia|]. cbn [split_loop].
  pose proof (zlen_ztake BlockSize source ltac:(done)) as Hl.
  pose proof (zlen_nonneg source) as Hs.
  destruct (zlen (ztake BlockSize source) <? BlockSize) eqn:El.
  - assert (ztake BlockSize source = source) as Ht.
    { rewrite ztake_take. apply take_ge. unfold zlen in *. lia. }
    rewrite Ht in *. destruct (0 <? zlen source) eqn:E0.
    + exists [mkEntry (sha256 source) source]. split; [constructor; lia|]. cbn.
      by destruct (callback a _).
    + exists []. assert (source = []) as -> by (apply zlen_nil_inv; lia).
      split; [constructor|done].
  - destruct (0 <? zlen (ztake BlockSize source)) eqn:E0; [|unfold BlockSize in *; lia].
    destruct (callback a (mkEntry (sha256 (ztake BlockSize source)) (ztake BlockSize source)))
      as [a'|x] eqn:Ec.
    + destruct (IH (zdrop BlockSize source) a') as (es & Hb & ->).
      { rewrite zdrop_drop, length_drop. unfold zlen, BlockSize in *. lia. }
      eexists. split.
      * rewrite <- (ztake_zdrop BlockSize source) at 1. apply blocks_full; [lia|done].
      * cbn. by rewrite Ec.
    + destruct (IH (zdrop BlockSize source) a) as (es & Hb & _).
      { rewrite zdrop_drop, length_drop. unfold zlen, BlockSize in *. lia. }
      eexists. split.
      * rewrite <- (ztake_zdrop BlockSize source) at 1. apply blocks_full; [lia|done].
      * cbn. by rewrite Ec.
Qed.
End Block_facts.

(** Splitting covers the file.  Every stream has blocks - full ones followed
    by at most one shorter, non-empty one, each with its own hash, whose data
    concatenate to the stream - such that the split runs the callback over
    exactly them in order, stopping at its first error, and then, unless the
    source failed, returns the hash of the whole stream. *)
Theorem split_blocks_cover (sha256 : bytes -> bytes) {A E} (fail : A -> string -> E)
    (callback : A -> Entry -> res E A) source stop a :
  exists es, blocks_of sha256 source es /\ concat (map e_Data es) = source
    /\ Forall (fun e => 0 < zlen (e_Data e) <= BlockSize /\ sha256 (e_Data e) = e_Hash e) es
    /\ SplitBlocks sha256 fail callback source stop a
       = match run_stream fail callback stop a es with
         | Ok a' => Ok (sha256 source, a')
         | Err x => Err x
         end.
Proof.
  destruct (split_loop_blocks sha256 fail callback stop (S (length source)) source a)
    as (es & Hb & He); [lia|].
  exists es. split; [done|]. split; [by apply (blocks_of_data sha256)|]. split.
  - clear He. induction Hb as [|l Hl|b l es Hl _ IH]; constructor; try done; cbn;
      unfold BlockSize in *; split; done || lia.
  - unfold SplitBlocks. rewrite He. by destruct (run_stream _ _ _ _ _).
Qed.

(** ** Snapshot paths *)

(** The output of [Clean] on an unrooted path: what is left of its elements
    after as many ".." as it escapes. *)
Lemma clean_unrooted_stack l ups gs :
  Forall (fun x => str_count slash x = O) l ->
  Forall (fun x => x = "..") ups -> Forall good_comp gs ->
  exists ups' gs', Forall (fun x => x = "..") ups' /\ Forall good_comp gs'
    /\ fold_left (clean_step false) l (gs ++ ups) = gs' ++ ups'.
Proof.
  revert ups gs. induction l as [|e l IH]; intros ups gs Hl Hu Hg; [by exists ups, gs|].
  apply Forall_cons in Hl as [He Hl]. cbn [fold_left]. unfold clean_step at 2.
  destruct (String.eqb e "" || String.eqb e ".") eqn:E1; [by apply IH|].
  apply orb_false_elim in E1 as [E1 E1']. go_bool.
  destruct (String.eqb e "..") eqn:E2; go_bool.
  - destruct gs as [|g gs]; cbn [app].
    + destruct ups as [|u ups].
      * apply (IH [".."] []); [done|by repeat constructor|constructor].
      * pose proof Hu as Hu'. apply Forall_cons in Hu' as [-> _]. rewrite String.eqb_refl.
        apply (IH (".." :: ".." :: ups) []); [done|by constructor|constructor].
    + apply Forall_cons in Hg as [Hg Hgs]. pose proof Hg as (_ & _ & Hn & _).
      apply String.eqb_neq in Hn. rewrite Hn. by apply IH.
  - apply (IH ups (e :: gs)); [done..|]. constructor; [|done]. by repeat split.
Qed.

(** Ordinary components are in cleaned form already. *)
Lemma path_clean_joined cs :
  Forall good_comp cs -> cs <> [] -> path_clean (join_with "/" cs) = join_with "/" cs.
Proof.
  intros Hc Hne. destruct cs as [|c cs]; [done|].
  assert (rooted (join_with "/" (c :: cs)) = false /\ join_with "/" (c :: cs) <> "") as [Hr Hj].
  { apply Forall_cons in Hc as [(H0 & _ & _ & Hs) _].
    destruct c as [|a c]; [done|]. assert (a <> slash) as Ha by (intros ->; by cbn in Hs).
    assert (exists s, join_with "/" (String a c :: cs) = String a s) as [s ->].
    { destruct cs; [by exists c|]. rewrite join_with_cons, str_app_cons. by eexists. }
    split; [|done]. apply not_true_is_false. intros Hp. apply has_prefix_true in Hp as [t Ht].
    apply Ha. change (String a s = String slash t) in Ht. congruence. }
  unfold path_clean. apply String.eqb_neq in Hj. rewrite Hj, Hr.
  rewrite split_on_joined by done.
  rewrite fold_clean_push, app_nil_r by done.
  rewrite rev_involutive, Hj. done.
Qed.

Lemma join_with_dotdot us cs :
  Forall (fun x => x = "..") us -> us <> [] ->
  let s := join_with "/" (us ++ cs) in s = ".." \/ has_prefix s "../" = true.
Proof.
  destruct us as [|u us]; [done|]. intros [-> _]%Forall_cons _. cbn zeta. cbn [app].
  destruct (us ++ cs) as [|x l]; [by left|right]. rewrite join_with_cons.
  exact (has_prefix_app "../" _).
Qed.

(** A normalized snapshot path cannot escape its root.  Whatever is accepted
    is a non-empty sequence of ordinary components, so that below any root it
    names something strictly inside, and normalizing again changes nothing. *)
Theorem normalized_path_stays_below value cleaned :
  NormalizeRelativePath value = Ok cleaned ->
  exists cs, cs <> [] /\ Forall good_comp cs /\ cleaned = join_with "/" cs
    /\ (forall root, rel_comps (root +:+ String slash cleaned)%string = rel_comps root ++ cs)
    /\ path_clean cleaned = cleaned.
Proof.
  unfold NormalizeRelativePath. destruct (String.eqb value "") eqn:Ev; [done|].
  destruct (str_contains backslash value) eqn:Eb; [done|]. cbn [orb].
  destruct (_ || _) eqn:Ec; [done|]. intros [= <-]. repeat (apply orb_false_elim in Ec as [Ec ?]).
  unfold path_clean in *. rewrite Ev in *.
  destruct (rooted value) eqn:Er; [by rewrite has_prefix_app in *|].
  destruct (clean_unrooted_stack (split_on slash value) [] []) as (us & gs & Hu & Hg & Hst);
    [apply split_on_parts|constructor|constructor|]. cbn [app] in Hst. rewrite Hst in *.
  rewrite rev_app_distr in *.
  set (cs := rev gs) in *. assert (Forall good_comp cs) as Hcs by by apply Forall_rev.
  assert (us = []) as ->.
  { destruct us as [|u us]; [done|]. exfalso.
    destruct (join_with_dotdot (rev (u :: us)) cs) as [E|E].
    - by apply Forall_rev.
    - cbn. by destruct (rev us).
    - rewrite E in *. by cbn in *.
    - destruct (String.eqb (join_with "/" (rev (u :: us) ++ cs)) ""); [|congruence].
      by cbn in Ec. }
  cbn [rev app] in *.
  destruct (String.eqb (join_with "/" cs) "") eqn:Ej; [by cbn in Ec|].
  assert (cs <> []) as Hne by (intros E; by rewrite E in Ej).
  exists cs. split_and!; [done|done|done|by intros; apply rel_comps_joined_below|].
  by apply path_clean_joined.
Qed.

(** ** Witnesses *)

(** A 32-byte checksum standing for the hash. *)
Definition toy_hash (l : bytes) : bytes := be_put 32 (be_get l + 1).

Lemma toy_hash_length l : length (toy_hash l) = 32%nat.
Proof. apply be_put_length. Qed.

Definition toy_entries : list Entry :=
  [ mkEntry (toy_hash [x41; x42]) [x41; x42]; mkEntry (toy_hash [x43]) [x43] ].

Definition toy_stream : bytes :=
  match EncodePack toy_hash toy_entries with Ok (_, s) => s | Err _ => [] end.

Definition toy_pack : Pack := mkPack (toy_hash toy_stream) 111 2.

Definition note_offset (acc : list Z) (o : Z) (e : Entry) : res string (list Z) := Ok (acc ++ [o]).

Lemma pack_roundtrip_witness :
  ValidatePack toy_hash note_offset toy_stream (p_ID toy_pack) [] = Ok (toy_pack, [52; 90]).
Proof.
  assert (EncodePack toy_hash toy_entries = Ok (toy_pack, toy_stream)) as He
    by (vm_compute; reflexivity).
  rewrite (pack_roundtrip toy_hash note_offset _ _ _ [] toy_hash_length He).
  - vm_compute. reflexivity.
  - repeat constructor; unfold not_footer; vm_compute; discriminate.
Defined.

Lemma validate_pack_canonical_witness :
  exists es, EncodePack toy_hash es = Ok (toy_pack, toy_stream) /\ p_ID toy_pack = toy_hash toy_stream
    /\ run_callback note_offset [] (located packPrefixSize es) = Ok [52; 90].
Proof.
  apply (validate_pack_canonical toy_hash note_offset toy_stream (toy_hash toy_stream) []).
  - apply toy_hash_length.
  - vm_compute. reflexivity.
Defined.

Lemma normalized_path_stays_below_witness :
  exists cs, cs <> [] /\ Forall good_comp cs /\ "docs/img/a.png" = join_with "/" cs
    /\ rel_comps "/srv/backup/docs/img/a.png" = rel_comps "/srv/backup" ++ cs
    /\ path_clean "docs/img/a.png" = "docs/img/a.png".
Proof.
  destruct (normalized_path_stays_below "docs//tmp/../img/./a.png" "docs/img/a.png")
    as (cs & Hn & Hg & Hc & Hr & Hp); [reflexivity|].
  exists cs. split_and!; [done|done|done|exact (Hr "/srv/backup")|done].
Defined.

(** A block whose hash begins with the footer mark is written and then cannot be
    read back: the reader takes the entry for the footer. *)
Definition footer_hash (l : bytes) : bytes := footerMagic ++ be_put 24 (be_get l).

Example footer_mark_unreadable :
  match EncodePack footer_hash [mkEntry (footer_hash [x41]) [x41]] with
  | Ok (p, stream) => ValidatePack footer_hash note_offset stream (p_ID p) []
  | Err e => Err e
  end = Err "pack footer does not match entries".
Proof. vm_compute. reflexivity. Qed.
