(* ===== verification/RestoreReader.v ===== *)
(** * Reconstructing files from packs

    src/backend/internal/restore/reader.go.  A provider is what it delivers for
    a path: the stream and the outcome of closing it.  A destination is a state
    with a write operation that may fail.  Cancellation of the context is not
    modelled. *)

From S2P Require Import Prelude GoPath Bytes BackupRepo.

Record BlockRecipe := mkBlockRecipe {
  PackPath : string;
  PackSHA256 : bytes;
  PayloadOffset : Z;
  PayloadLength : Z;
  BlockSHA256 : bytes;
  PlaintextSize : Z;
}.

Inductive restore_error :=
| ErrRepositoryCorrupt (what : string)
| ErrTransfer (what : string).

Definition invalid_recipe (r : BlockRecipe) : bool :=
  String.eqb (PackPath r) "" || (PayloadOffset r <? 0) || (PayloadLength r <=? 0)
  || negb (PayloadLength r =? PlaintextSize r).

(** The recipes at the front that read the same pack. *)
Fixpoint same_pack (path : string) (id : bytes) (recipes : list BlockRecipe)
    : list BlockRecipe * list BlockRecipe :=
  match recipes with
  | [] => ([], [])
  | r :: rest =>
      if String.eqb (PackPath r) path && bool_decide (PackSHA256 r = id)
      then let '(group, rest) := same_pack path id rest in (r :: group, rest)
      else ([], recipes)
  end.

(** The callback of the pack reader: [extracted] has a slot per recipe. *)
Fixpoint extract_entry (group : list BlockRecipe) (extracted : list (option bytes))
    (foundCount offset : Z) (entry : Entry) : res string (list (option bytes) * Z) :=
  match group, extracted with
  | r :: group, x :: extracted =>
      if PayloadOffset r =? offset then
        if negb (bool_decide (e_Hash entry = BlockSHA256 r))
           || negb (zlen (e_Data entry) =? PayloadLength r)
        then Err "restore block locator does not match pack entry"
        else match x with
        | Some _ => Err "restore block locator is ambiguous"
        | None =>
            match extract_entry group extracted (foundCount + 1) offset entry with
            | Ok (extracted, n) => Ok (Some (e_Data entry) :: extracted, n)
            | Err e => Err e
            end
        end
      else match extract_entry group extracted foundCount offset entry with
      | Ok (extracted, n) => Ok (x :: extracted, n)
      | Err e => Err e
      end
  | _, _ => Ok (extracted, foundCount)
  end.

Definition extract (group : list BlockRecipe) (st : list (option bytes) * Z) (offset : Z)
    (entry : Entry) : res string (list (option bytes) * Z) :=
  extract_entry group st.1 st.2 offset entry.

Section Reader.
Context (sha256 : bytes -> bytes).
Context {D : Type}.
Context (write : D -> bytes -> D * option string).

(** The stream of a pack and the error of closing its reader. *)
Context (openPack : string -> res string (bytes * option string)).

(** The destination, what went into the file hash, and the bytes counted. *)
Record output := mkOutput {
  o_dest : D;
  o_hashed : bytes;
  o_written : Z;
}.

Fixpoint write_all (blocks : list bytes) (o : output) : output * option restore_error :=
  match blocks with
  | [] => (o, None)
  | data :: blocks =>
      match write (o_dest o) data with
      | (d, Some e) => (mkOutput d (o_hashed o) (o_written o), Some (ErrTransfer e))
      | (d, None) => write_all blocks (mkOutput d (o_hashed o ++ data) (o_written o + zlen data))
      end
  end.

Definition read_group (path : string) (id : bytes) (group : list BlockRecipe)
    : res restore_error (list bytes) :=
  if existsb invalid_recipe group
  then Err (ErrRepositoryCorrupt "invalid restore block recipe")
  else match openPack path with
  | Err e => Err (ErrTransfer e)
  | Ok (stream, closeErr) =>
      match ValidatePack sha256 (extract group) stream id (map (fun _ => None) group, 0) with
      | Err e => Err (ErrRepositoryCorrupt e)
      | Ok (_, (extracted, foundCount)) =>
          match closeErr with
          | Some e => Err (ErrTransfer e)
          | None =>
              if negb (foundCount =? zlen group)
              then Err (ErrRepositoryCorrupt "restore block is absent from pack")
              else Ok (map (default []) extracted)
          end
      end
  end.

Fixpoint group_loop (fuel : nat) (recipes : list BlockRecipe) (o : output)
    : option (output * option restore_error) :=
  match recipes with
  | [] => Some (o, None)
  | r :: rest =>
      match fuel with
      | O => None
      | S fuel =>
          let '(more, rest) := same_pack (PackPath r) (PackSHA256 r) rest in
          match read_group (PackPath r) (PackSHA256 r) (r :: more) with
          | Err e => Some (o, Some e)
          | Ok blocks =>
              match write_all blocks o with
              | (o, Some e) => Some (o, Some e)
              | (o, None) => group_loop fuel rest o
              end
          end
      end
  end.

(** The checks on the whole file. *)
Definition check_file (expectedSize : Z) (expectedSHA256 : bytes) (o : output)
    : output * option restore_error :=
  if negb (o_written o =? expectedSize)
  then (o, Some (ErrRepositoryCorrupt "reconstructed file size mismatch"))
  else if negb (bool_decide (sha256 (o_hashed o) = expectedSHA256))
  then (o, Some (ErrRepositoryCorrupt "reconstructed file hash mismatch"))
  else (o, None).

Definition ReconstructFile (destination : D) (recipes : list BlockRecipe) (expectedSize : Z)
    (expectedSHA256 : bytes) : output * option restore_error :=
  let o := mkOutput destination [] 0 in
  if expectedSize <? 0 then (o, Some (ErrTransfer "restore reconstruction parameters are invalid"))
  else match group_loop (length recipes) recipes o with
  | None => (o, Some (ErrTransfer "out of fuel"))
  | Some (o, Some e) => (o, Some e)
  | Some (o, None) => check_file expectedSize expectedSHA256 o
  end.

(** ** Reading ranges *)

(** What a range request delivers, the error of reading it and of closing it. *)
Context (openRange : string -> Z -> Z -> res string (bytes * option string * option string)).

Definition read_range (r : BlockRecipe) : res restore_error bytes :=
  if invalid_recipe r then Err (ErrRepositoryCorrupt "invalid restore block recipe")
  else match openRange (PackPath r) (PayloadOffset r) (PayloadLength r) with
  | Err e => Err (ErrTransfer e)
  | Ok (stream, readErr, closeErr) =>
      let payload := ztake (PayloadLength r + 1) stream in
      match readErr, closeErr with
      | Some e, _ => Err (ErrTransfer e)
      | None, Some e => Err (ErrTransfer e)
      | None, None =>
          if negb (zlen payload =? PayloadLength r)
          then Err (ErrRepositoryCorrupt "restore pack range length mismatch")
          else if negb (bool_decide (sha256 payload = BlockSHA256 r))
          then Err (ErrRepositoryCorrupt "restore block hash mismatch")
          else Ok payload
      end
  end.

Fixpoint range_loop (recipes : list BlockRecipe) (o : output) : output * option restore_error :=
  match recipes with
  | [] => (o, None)
  | r :: recipes =>
      match read_range r with
      | Err e => (o, Some e)
      | Ok payload =>
          match write_all [payload] o with
          | (o, Some e) => (o, Some e)
          | (o, None) => range_loop recipes o
          end
      end
  end.

Definition ReconstructFileWithRanges (destination : D) (recipes : list BlockRecipe)
    (expectedSize : Z) (expectedSHA256 : bytes) : output * option restore_error :=
  let o := mkOutput destination [] 0 in
  if expectedSize <? 0 then (o, Some (ErrTransfer "restore reconstruction parameters are invalid"))
  else match range_loop recipes o with
  | (o, Some e) => (o, Some e)
  | (o, None) => check_file expectedSize expectedSHA256 o
  end.
End Reader.

(** ** The callback over a pack *)

Definition count_some (l : list (option bytes)) : Z :=
  foldr (fun x n => match x with Some _ => 1 | None => 0 end + n) 0 l.

Lemma count_some_cons x l :
  count_some (x :: l) = match x with Some _ => 1 | None => 0 end + count_some l.
Proof. reflexivity. Qed.

Lemma count_some_le l : count_some l <= zlen l.
Proof.
  induction l as [|x l IH]; [done|]. rewrite count_some_cons. unfold zlen in *. cbn [length].
  destruct x; lia.
Qed.

Lemma count_some_full l : count_some l = zlen l -> map (fun d => Some (default [] d)) l = l.
Proof.
  induction l as [|x l IH]; [done|]. rewrite count_some_cons. intros H. cbn [map].
  pose proof (count_some_le l) as Hl. unfold zlen in *. cbn [length] in H.
  destruct x as [x|]; [|lia]. cbn. by rewrite IH by lia.
Qed.

Lemma count_some_map l : count_some (map Some l) = zlen l.
Proof.
  induction l as [|x l IH]; [done|]. cbn [map]. rewrite count_some_cons, IH.
  unfold zlen. cbn [length]. lia.
Qed.

Lemma count_some_none {A} (l : list A) : count_some (map (fun _ => None) l) = 0.
Proof. induction l as [|x l IH]; [done|]. cbn [map]. by rewrite count_some_cons, IH. Qed.

(** The entry a recipe asks for. *)
Definition located_block (es : list (Z * Entry)) (r : BlockRecipe) (data : bytes) : Prop :=
  exists e, (PayloadOffset r, e) ∈ es /\ e_Hash e = BlockSHA256 r /\ e_Data e = data
    /\ zlen data = PayloadLength r.

Definition slot (seen : list (Z * Entry)) (r : BlockRecipe) (x : option bytes) : Prop :=
  match x with None => True | Some d => located_block seen r d end.

Lemma located_block_mono es es' r d :
  (forall x, x ∈ es -> x ∈ es') -> located_block es r d -> located_block es' r d.
Proof. intros Hs (e & ? & ?). exists e. split; [by apply Hs|done]. Qed.

Lemma extract_keeps seen group ex n o e ex' n' :
  Forall2 (slot seen) group ex ->
  extract_entry group ex n o e = Ok (ex', n') ->
  Forall2 (slot (seen ++ [(o, e)])) group ex' /\ n' - count_some ex' = n - count_some ex.
Proof.
  intros Hf. revert n ex' n'. induction Hf as [|r x group ex Hx Hf IH]; intros n ex' n'.
  { by intros [= <- <-]. }
  cbn [extract_entry]. destruct (PayloadOffset r =? o) eqn:Eo.
  - case_bool_decide as Eh; [|done]. cbn [negb orb].
    destruct (zlen (e_Data e) =? PayloadLength r) eqn:El; [|done]. cbn [negb].
    destruct x; [done|].
    destruct (extract_entry group ex (n + 1) o e) as [[ex1 n1]|] eqn:E1; [|done].
    intros [= <- <-]. apply IH in E1 as [Hf1 Hn]. rewrite !count_some_cons.
    split; [|lia]. constructor; [|done]. exists e. split; [|by apply Z.eqb_eq in El].
    apply Z.eqb_eq in Eo. rewrite Eo. apply elem_of_app. right. by apply list_elem_of_singleton.
  - destruct (extract_entry group ex n o e) as [[ex1 n1]|] eqn:E1; [|done].
    intros [= <- <-]. apply IH in E1 as [Hf1 Hn]. rewrite !count_some_cons.
    split; [|lia]. constructor; [|done]. destruct x; [|done]. cbn in *.
    eapply located_block_mono, Hx. intros y Hy. apply elem_of_app. by left.
Qed.

Lemma extract_run_keeps l seen group ex n ex' n' :
  Forall2 (slot seen) group ex ->
  run_callback (extract group) (ex, n) l = Ok (ex', n') ->
  Forall2 (slot (seen ++ l)) group ex' /\ n' - count_some ex' = n - count_some ex.
Proof.
  revert seen ex n. induction l as [|[o e] l IH]; intros seen ex n Hf; cbn [run_callback].
  { intros [= <- <-]. by rewrite app_nil_r. }
  destruct (extract group (ex, n) o e) as [[ex1 n1]|] eqn:E; [|done]. intros Hr.
  apply (extract_keeps seen) in E as [Hf1 Hn1]; [|done].
  apply (IH (seen ++ [(o, e)])) in Hr as [Hf' Hn']; [|done].
  rewrite <- app_assoc in Hf'. cbn [fst snd] in *. split; [done|lia].
Qed.

(** A slot before and after its entry. *)
Definition awaits (rest : list (Z * Entry)) (r : BlockRecipe) (x : option bytes) (d : bytes)
    : Prop :=
  (x = None /\ located_block rest r d) \/ (x = Some d /\ PayloadOffset r ∉ map fst rest).

Lemma extract_progress o e rest group ex want n :
  o ∉ map fst rest ->
  Forall3 (awaits ((o, e) :: rest)) group ex want ->
  exists ex' n', extract_entry group ex n o e = Ok (ex', n')
    /\ Forall3 (awaits rest) group ex' want /\ n' - count_some ex' = n - count_some ex.
Proof.
  intros Ho Hf. revert n. induction Hf as [|r x d group ex want Hx Hf IH]; intros n.
  { exists [], n. split; [done|]. split; [constructor|lia]. }
  cbn [extract_entry]. destruct Hx as [(-> & e' & Hin & Hh & Hd & Hl)|[-> Hn]].
  - apply elem_of_cons in Hin as [[= Hoff ->]|Hin].
    + rewrite Hoff, Z.eqb_refl, bool_decide_true, Hd, Hl, Z.eqb_refl by done. cbn [negb orb].
      destruct (IH (n + 1)) as (ex' & n' & -> & Hf' & Hn').
      eexists _, _. split; [reflexivity|]. rewrite !count_some_cons. split; [|lia].
      constructor; [|done]. right. split; [done|]. by rewrite Hoff.
    + assert (PayloadOffset r <> o) as Hne.
      { intros Heq. apply Ho. apply list_elem_of_fmap. exists (PayloadOffset r, e'). by split. }
      apply Z.eqb_neq in Hne. rewrite Hne.
      destruct (IH n) as (ex' & n' & -> & Hf' & Hn').
      eexists _, _. split; [reflexivity|]. rewrite !count_some_cons. split; [|lia].
      constructor; [|done]. left. split; [done|]. by exists e'.
  - cbn [map fst] in Hn. apply not_elem_of_cons in Hn as [Hne Hn].
    apply Z.eqb_neq in Hne. rewrite Hne.
    destruct (IH n) as (ex' & n' & -> & Hf' & Hn').
    eexists _, _. split; [reflexivity|]. rewrite !count_some_cons. split; [|lia].
    constructor; [|done]. by right.
Qed.

Lemma extract_run_progress l group ex want n :
  NoDup (map fst l) -> Forall3 (awaits l) group ex want ->
  exists n', run_callback (extract group) (ex, n) l = Ok (map Some want, n')
    /\ n' - zlen want = n - count_some ex.
Proof.
  revert ex n. induction l as [|[o e] l IH]; intros ex n Hnd Hf; cbn [run_callback].
  - assert (ex = map Some want) as ->.
    { induction Hf as [|r x d group ex want Hx Hf IH']; [done|]. cbn [map]. f_equal; [|exact IH'].
      destruct Hx as [(_ & e & He & _)|[-> _]]; [by apply elem_of_nil in He|done]. }
    exists n. rewrite count_some_map. by split.
  - cbn [map fst] in Hnd. apply NoDup_cons in Hnd as [Ho Hnd].
    destruct (extract_progress o e l group ex want n Ho Hf) as (ex1 & n1 & E & Hf1 & Hn1).
    unfold extract at 1. cbn [fst snd]. rewrite E.
    destruct (IH ex1 n1 Hnd Hf1) as (n' & Hr & Hn'). exists n'. split; [exact Hr|lia].
Qed.

Lemma located_above offset es : Forall (fun x => offset < x) (map fst (located offset es)).
Proof.
  revert offset. induction es as [|e es IH]; intros offset; [constructor|]. cbn [located map fst].
  constructor; [unfold sha256_Size; lia|]. eapply Forall_impl; [apply IH|].
  intros x Hx. cbn in Hx. pose proof (entry_size_pos e). lia.
Qed.

Lemma located_NoDup offset es : NoDup (map fst (located offset es)).
Proof.
  revert offset. induction es as [|e es IH]; intros offset; [constructor|]. cbn [located map fst].
  constructor; [|apply IH]. intros Hin.
  pose proof (located_above (offset + entry_size e) es) as Ha.
  rewrite Forall_forall in Ha. apply Ha in Hin. unfold entry_size in Hin.
  pose proof (zlen_nonneg (e_Data e)). lia.
Qed.

(** ** Reconstruction *)

Section Reader_facts.
Context (sha256 : bytes -> bytes).
Hypothesis sha256_length : forall l, length (sha256 l) = 32%nat.
Context {D : Type} (write : D -> bytes -> D * option string).
Context (openPack : string -> res string (bytes * option string)).

(** The block a recipe stands for: the pack under its path is well formed, has
    the catalogued identifier, and holds the block at the recipe's offset. *)
Definition pack_holds (r : BlockRecipe) (stream data : bytes) : Prop :=
  exists es p, EncodePack sha256 es = Ok (p, stream) /\ p_ID p = PackSHA256 r
    /\ Forall not_footer es /\ located_block (located packPrefixSize es) r data.

Definition recipe_block (r : BlockRecipe) (data : bytes) : Prop :=
  invalid_recipe r = false
  /\ exists stream, openPack (PackPath r) = Ok (stream, None) /\ pack_holds r stream data.

Fixpoint run_writes (d : D) (blocks : list bytes) : option D :=
  match blocks with
  | [] => Some d
  | data :: blocks => match write d data with (d, None) => run_writes d blocks | _ => None end
  end.

Lemma write_all_ok blocks o o' :
  write_all write blocks o = (o', None) <->
  exists d, run_writes (o_dest o) blocks = Some d
    /\ o' = mkOutput d (o_hashed o ++ concat blocks) (o_written o + zlen (concat blocks)).
Proof.
  revert o. induction blocks as [|b blocks IH]; intros o; cbn [write_all run_writes concat].
  - rewrite app_nil_r. change (zlen []) with 0. rewrite Z.add_0_r. split.
    + intros [= <-]. exists (o_dest o). split; [done|]. by destruct o.
    + intros (d & [= <-] & ->). by destruct o.
  - destruct (write (o_dest o) b) as [d1 [e|]] eqn:E.
    { split; [done|]. by intros (d & ? & _). }
    rewrite IH. cbn [o_dest o_hashed o_written]. by rewrite zlen_app, <- app_assoc, <- Z.add_assoc.
Qed.

Lemma write_all_app bs bs' o :
  write_all write (bs ++ bs') o
  = match write_all write bs o with
    | (o, None) => write_all write bs' o
    | (o, Some e) => (o, Some e)
    end.
Proof.
  revert o. induction bs as [|b bs IH]; intros o; [done|]. cbn [write_all app].
  destruct (write (o_dest o) b) as [d [e|]]; [done|apply IH].
Qed.

(** Two readings of a stream as a pack agree. *)
Lemma encoding_unique es es' p p' stream :
  EncodePack sha256 es = Ok (p, stream) -> EncodePack sha256 es' = Ok (p', stream) ->
  located packPrefixSize es = located packPrefixSize es'.
Proof. intros H H'. by rewrite (encode_inj sha256 sha256_length es es' p p' stream H H'). Qed.

Lemma slots_empty seen group : Forall2 (slot seen) group (map (fun _ => None) group).
Proof. induction group; by constructor. Qed.

Lemma slots_full seen group ex :
  Forall2 (slot seen) group ex -> count_some ex = zlen group ->
  Forall2 (located_block seen) group (map (default []) ex).
Proof.
  induction 1 as [|r x group ex Hx Hf IH]; [constructor|]. rewrite count_some_cons. intros H.
  pose proof (count_some_le ex) as Hl. pose proof (Forall2_length _ _ _ Hf) as Hlen.
  unfold zlen in *. cbn [length] in H. destruct x as [x|]; [|lia].
  constructor; [done|]. apply IH. lia.
Qed.

Lemma slots_await seen group want :
  Forall2 (located_block seen) group want ->
  Forall3 (awaits seen) group (map (fun _ => None) group) want.
Proof. induction 1; constructor; [by left|done]. Qed.

Lemma Forall2_with_l {A B} (P : A -> B -> Prop) (Q : A -> Prop) l k :
  Forall Q l -> Forall2 P l k -> Forall2 (fun x y => Q x /\ P x y) l k.
Proof. intros Hq Hp. induction Hp; constructor; apply Forall_cons in Hq as [? ?]; auto. Qed.

Lemma read_group_sound path id group blocks :
  Forall (fun r => PackPath r = path /\ PackSHA256 r = id) group ->
  read_group sha256 openPack path id group = Ok blocks -> Forall2 recipe_block group blocks.
Proof.
  intros Hsame. unfold read_group.
  destruct (existsb invalid_recipe group) eqn:Ei; [done|].
  destruct (openPack path) as [[stream closeErr]|] eqn:Eo; [|done].
  destruct (ValidatePack _ _ _ _ _) as [[p [ex n]]|] eqn:Ev; [|done].
  destruct closeErr; [done|]. destruct (n =? zlen group) eqn:En; [|done].
  cbn [negb]. intros [= <-].
  apply validate_sound in Ev as (es & He & Hid & Hnf & Hrun); [|done].
  apply (extract_run_keeps _ []) in Hrun as [Hf Hn]; [|apply slots_empty].
  rewrite count_some_none in Hn. cbn [app] in Hf.
  apply slots_full in Hf; [|lia].
  assert (Forall (fun r => invalid_recipe r = false) group) as Hv.
  { apply Forall_forall. intros r Hr. apply not_true_is_false. intros Hi.
    enough (existsb invalid_recipe group = true) by congruence.
    apply existsb_exists. exists r. by rewrite <- list_elem_of_In. }
  pose proof (Forall2_with_l _ _ _ _ Hsame (Forall2_with_l _ _ _ _ Hv Hf)) as Hall.
  eapply Forall2_impl; [exact Hall|]. intros r d [[Hpp Hp] [Hi Hb]].
  split; [done|]. exists stream. rewrite Hpp. split; [done|]. exists es, p. by rewrite Hp.
Qed.

Lemma read_group_complete path id group blocks :
  group <> [] -> Forall (fun r => PackPath r = path /\ PackSHA256 r = id) group ->
  Forall2 recipe_block group blocks -> read_group sha256 openPack path id group = Ok blocks.
Proof.
  intros Hne Hsame Hf. unfold read_group.
  assert (existsb invalid_recipe group = false) as ->.
  { apply not_true_is_false. intros Ei. apply existsb_exists in Ei as (r & Hr & Hi).
    apply list_elem_of_In in Hr. apply list_elem_of_lookup in Hr as [k Hr].
    destruct (Forall2_lookup_l _ _ _ _ _ Hf Hr) as (b & _ & Hb & _). congruence. }
  destruct group as [|r0 group]; [done|].
  pose proof Hf as Hf0. apply Forall2_cons_inv_l in Hf0 as (d0 & ds & (_ & stream & Ho & es & p & He & Hid & Hnf & _) & _ & ->).
  pose proof Hsame as Hs0. apply Forall_cons in Hs0 as [[Hp0 Hi0] _].
  rewrite Hp0 in Ho. rewrite Ho. rewrite <- Hi0, <- Hid.
  rewrite (validate_encoded sha256 sha256_length _ es p stream _ He Hnf).
  assert (Forall2 (located_block (located packPrefixSize es)) (r0 :: group) (d0 :: ds)) as Hl.
  { pose proof (Forall2_with_l _ _ _ _ Hsame Hf) as Hall.
    eapply Forall2_impl; [exact Hall|].
    intros r d [[Hpr _] (_ & stream' & Ho' & es' & p' & He' & _ & Hnf' & Hb)].
    rewrite Hpr, Ho in Ho'. injection Ho' as <-.
    by rewrite (encoding_unique _ _ _ _ _ He He'). }
  apply slots_await in Hl as Ha.
  destruct (extract_run_progress _ _ _ _ 0 (located_NoDup packPrefixSize es) Ha) as (n & Hr & Hn).
  rewrite Hr. rewrite count_some_none in Hn.
  assert ((n =? zlen (r0 :: group)) = true) as Hz.
  { apply Forall2_length in Hl. unfold zlen in *. lia. }
  rewrite Hz. cbn [negb]. f_equal. rewrite map_map. cbn. by rewrite map_id.
Qed.

Lemma read_group_ok path id group blocks :
  group <> [] -> Forall (fun r => PackPath r = path /\ PackSHA256 r = id) group ->
  read_group sha256 openPack path id group = Ok blocks <-> Forall2 recipe_block group blocks.
Proof.
  intros Hne Hsame. split; [by apply read_group_sound|by apply read_group_complete].
Qed.

Lemma same_pack_ok path id recipes group rest :
  same_pack path id recipes = (group, rest) ->
  recipes = group ++ rest /\ Forall (fun r => PackPath r = path /\ PackSHA256 r = id) group.
Proof.
  revert group rest. induction recipes as [|r recipes IH]; intros group rest; cbn [same_pack].
  { by intros [= <- <-]. }
  destruct (String.eqb (PackPath r) path && bool_decide (PackSHA256 r = id)) eqn:E.
  - destruct (same_pack path id recipes) as [g rs]. intros [= <- <-].
    destruct (IH g rs eq_refl) as [-> Hg]. apply andb_prop in E as [E1 E2].
    apply String.eqb_eq in E1. apply bool_decide_eq_true in E2. split; [done|by constructor].
  - by intros [= <- <-].
Qed.

Lemma group_loop_ok fuel recipes o o' :
  (length recipes <= fuel)%nat ->
  group_loop sha256 write openPack fuel recipes o = Some (o', None) <->
  exists blocks, Forall2 recipe_block recipes blocks /\ write_all write blocks o = (o', None).
Proof.
  revert recipes o. induction fuel as [|fuel IH]; intros [|r recipes] o Hlen; cbn [length] in Hlen;
    try lia.
  1, 2: cbn [group_loop]; split;
    [intros [= ->]; by exists []|
     intros (blocks & Hf & Hw); apply Forall2_nil_inv_l in Hf as ->; cbn in Hw; congruence].
  cbn [group_loop]. destruct (same_pack (PackPath r) (PackSHA256 r) recipes) as [more rest] eqn:Es.
  apply same_pack_ok in Es as [-> Hs]. rewrite length_app in Hlen.
  pose proof (read_group_ok (PackPath r) (PackSHA256 r) (r :: more)) as Hg.
  destruct (read_group sha256 openPack (PackPath r) (PackSHA256 r) (r :: more)) as [bs|e] eqn:Er.
  - destruct (Hg bs) as [Hg' _]; [done|by constructor|]. specialize (Hg' eq_refl).
    destruct (write_all write bs o) as [o1 [e|]] eqn:Ew.
    + split; [done|]. intros (blocks & Hf & Hw).
      change (r :: more ++ rest) with ((r :: more) ++ rest) in Hf.
      apply Forall2_app_inv_l in Hf as (b1 & b2 & Hf1 & Hf2 & ->).
      apply Hg in Hf1; [|done|by constructor]. injection Hf1 as ->.
      by rewrite write_all_app, Ew in Hw.
    + rewrite IH by lia. split.
      * intros (blocks & Hf & Hw). exists (bs ++ blocks). split.
        -- change (r :: more ++ rest) with ((r :: more) ++ rest). by apply Forall2_app.
        -- by rewrite write_all_app, Ew.
      * intros (blocks & Hf & Hw).
        change (r :: more ++ rest) with ((r :: more) ++ rest) in Hf.
        apply Forall2_app_inv_l in Hf as (b1 & b2 & Hf1 & Hf2 & ->).
        apply Hg in Hf1; [|done|by constructor]. injection Hf1 as ->.
        exists b2. split; [done|]. by rewrite write_all_app, Ew in Hw.
  - split; [done|]. intros (blocks & Hf & Hw).
    change (r :: more ++ rest) with ((r :: more) ++ rest) in Hf.
    apply Forall2_app_inv_l in Hf as (b1 & b2 & Hf1 & Hf2 & ->).
    apply Hg in Hf1; [done|done|by constructor].
Qed.

Lemma check_file_ok size hash o o' :
  check_file (D := D) sha256 size hash o = (o', None) <->
  o' = o /\ o_written o = size /\ sha256 (o_hashed o) = hash.
Proof.
  unfold check_file. destruct (o_written o =? size) eqn:E1; cbn [negb];
    [|split; [done|intros (-> & ? & ?); lia]].
  case_bool_decide as E2; cbn [negb]; [|split; [done|by intros (-> & ? & ?)]].
  split; [intros [= <-]; split_and!; done || lia|by intros (-> & _)].
Qed.

Lemma reconstruct_ok d recipes size hash o :
  ReconstructFile sha256 write openPack d recipes size hash = (o, None) <->
  0 <= size /\ exists blocks, Forall2 recipe_block recipes blocks
    /\ zlen (concat blocks) = size /\ sha256 (concat blocks) = hash
    /\ exists d', run_writes d blocks = Some d' /\ o = mkOutput d' (concat blocks) size.
Proof.
  unfold ReconstructFile. destruct (size <? 0) eqn:Es; [split; [done|intros [? _]; lia]|].
  pose proof (group_loop_ok (length recipes) recipes (mkOutput d [] 0)) as Hg.
  destruct (group_loop _ _ _ _ _ _) as [[o1 [e|]]|] eqn:E.
  - split; [done|]. intros (_ & blocks & Hf & _ & _ & d' & Hw & _).
    destruct (Hg (mkOutput d' (concat blocks) (zlen (concat blocks)))) as [_ Hg']; [done|].
    exfalso. discriminate Hg'. exists blocks. split; [done|]. apply write_all_ok. by exists d'.
  - destruct (Hg o1) as [Hg' _]; [done|]. destruct (Hg' eq_refl) as (blocks & Hf & Hw).
    apply write_all_ok in Hw as (d' & Hd & ->). cbn [o_dest o_hashed o_written app] in *.
    rewrite Z.add_0_l, check_file_ok. cbn [o_hashed o_written]. split.
    + intros (-> & Hs & Hh). split; [lia|]. exists blocks. rewrite Hs. split_and!; try done.
      by exists d'.
    + intros (_ & blocks' & Hf' & <- & <- & d1 & Hd1 & ->).
      destruct (Hg (mkOutput d1 (concat blocks') (zlen (concat blocks')))) as [_ Hg1]; [done|].
      assert (Some (mkOutput d' (concat blocks) (zlen (concat blocks)), @None restore_error)
        = Some (mkOutput d1 (concat blocks') (zlen (concat blocks')), None)) as Heq.
      { apply Hg1. exists blocks'. split; [done|]. apply write_all_ok. by exists d1. }
      injection Heq as -> -> _. done.
  - split; [done|]. intros (_ & blocks & Hf & _ & _ & d' & Hw & _).
    destruct (Hg (mkOutput d' (concat blocks) (zlen (concat blocks)))) as [_ Hg']; [done|].
    exfalso. discriminate Hg'. exists blocks. split; [done|]. apply write_all_ok. by exists d'.
Qed.

(** ** Ranges *)

Context (openRange : string -> Z -> Z -> res string (bytes * option string * option string)).

(** A range request delivers the slice of the pack it asks for. *)
Definition ranges_exact : Prop := forall path stream offset len,
  openPack path = Ok (stream, None) -> 0 <= offset -> 0 < len -> offset + len <= zlen stream ->
  openRange path offset len = Ok (ztake len (zdrop offset stream), None, None).

(** A located block is a slice of the pack. *)
Lemma located_slice es offset pre post x :
  Forall (valid_entry sha256) es -> zlen pre = offset ->
  x ∈ located offset es ->
  zlen (e_Data x.2) <= zlen (concat (map encode_entry es)) + offset - x.1
  /\ offset <= x.1
  /\ ztake (zlen (e_Data x.2)) (zdrop x.1 (pre ++ concat (map encode_entry es) ++ post))
     = e_Data x.2.
Proof.
  intros Hv. revert offset pre. induction Hv as [|e es He Hv IH]; intros offset pre Hpre;
    cbn [located map concat]; [by intros ?%elem_of_nil|].
  pose proof (encode_entry_length sha256 sha256_length e He) as Hel.
  pose proof (entry_size_pos e) as Hep.
  rewrite zlen_app, Hel. intros [->|Hx]%elem_of_cons; cbn [fst snd].
  - pose proof (zlen_nonneg (concat (map encode_entry es))).
    pose proof (hash_length sha256 sha256_length e He) as Hh.
    split; [unfold entry_size, sha256_Size in *; lia|]. split; [unfold sha256_Size; lia|].
    replace (pre ++ (encode_entry e ++ concat (map encode_entry es)) ++ post)
      with ((pre ++ e_Hash e ++ be_put 4 (zlen (e_Data e))) ++ e_Data e
            ++ concat (map encode_entry es) ++ post)
      by (unfold encode_entry; by rewrite <- !app_assoc).
    rewrite zdrop_app.
    + by apply ztake_app.
    + assert (zlen (be_put 4 (zlen (e_Data e))) = 4) as Hb
        by (unfold zlen at 1; by rewrite be_put_length).
      rewrite !zlen_app, Hh, Hpre, Hb. unfold sha256_Size. lia.
  - replace (pre ++ (encode_entry e ++ concat (map encode_entry es)) ++ post)
      with ((pre ++ encode_entry e) ++ concat (map encode_entry es) ++ post)
      by (by rewrite <- !app_assoc).
    destruct (IH (offset + entry_size e) (pre ++ encode_entry e)) as (H1 & H2 & H3);
      [rewrite zlen_app; lia|done|].
    split_and!; [lia|lia|done].
Qed.

Lemma read_range_ok r data :
  ranges_exact -> recipe_block r data -> read_range sha256 openRange r = Ok data.
Proof.
  intros Hr (Hi & stream & Ho & es & p & He & Hid & _ & e & Hin & Hh & <- & Hl).
  unfold read_range. rewrite Hi. unfold invalid_recipe in Hi.
  repeat (apply orb_false_elim in Hi as [Hi ?]).
  pose proof He as He'. apply encode_ok in He' as (_ & Hv & _ & Hs & _).
  destruct (located_slice es packPrefixSize (packMagic ++ pack_prefix)
    (pack_footer (zlen es) (packPrefixSize + payload_size es)) _ Hv eq_refl Hin)
    as (H3 & H4 & H5). cbn [fst snd] in *.
  rewrite <- app_assoc, <- Hs in H5.
  rewrite (Hr _ stream) by (try done; try lia; rewrite Hs, !zlen_app;
    change (zlen packMagic) with 8; change (zlen pack_prefix) with 8;
    pose proof (zlen_nonneg (pack_footer (zlen es) (packPrefixSize + payload_size es)));
    unfold packPrefixSize in *; lia).
  rewrite <- Hl, H5. rewrite ztake_take, take_ge by (unfold zlen; lia).
  rewrite Z.eqb_refl. apply encode_ok in He as (_ & Hve & _).
  assert (valid_entry sha256 e) as [_ Hve'].
  { rewrite Forall_forall in Hve. apply Hve. clear -Hin. revert Hin. generalize packPrefixSize.
    induction es as [|e' es IH]; intros o; cbn [located]; [by intros ?%elem_of_nil|].
    intros [[= _ ->]|Hx]%elem_of_cons; [apply elem_of_cons; by left|].
    apply elem_of_cons. right. by eapply IH. }
  rewrite Hve', Hh, bool_decide_true by done. done.
Qed.

Lemma range_loop_ok recipes blocks o :
  ranges_exact -> Forall2 recipe_block recipes blocks ->
  range_loop sha256 write openRange recipes o = write_all write blocks o.
Proof.
  intros Hr Hf. revert o. induction Hf as [|r data recipes blocks Hb Hf IH]; intros o; [done|].
  cbn [range_loop write_all]. rewrite (read_range_ok r data) by done.
  destruct (write (o_dest o) data) as [d [e|]]; [done|apply IH].
Qed.
End Reader_facts.

(** A reconstruction succeeds exactly when every recipe names a block of a
    well-formed pack with the catalogued identifier, the blocks in recipe order
    are the file with the expected size and hash, and the destination takes all
    the writes; what it wrote is then those blocks in order. *)
Theorem reconstruct_exact (sha256 : bytes -> bytes) {D} (write : D -> bytes -> D * option string)
    openPack d recipes size hash o :
  (forall l, length (sha256 l) = 32%nat) ->
  ReconstructFile sha256 write openPack d recipes size hash = (o, None) <->
  0 <= size /\ exists blocks, Forall2 (recipe_block sha256 openPack) recipes blocks
    /\ zlen (concat blocks) = size /\ sha256 (concat blocks) = hash
    /\ exists d', run_writes write d blocks = Some d' /\ o = mkOutput d' (concat blocks) size.
Proof. intros Hs. by apply reconstruct_ok. Qed.

(** Reading ranges is a refinement of reading whole packs.  If range requests
    deliver the slices they ask for, every file the full-pack reader reconstructs
    is reconstructed by the range reader, with the same output. *)
Theorem ranges_reconstruct_same (sha256 : bytes -> bytes) {D}
    (write : D -> bytes -> D * option string) openPack openRange d recipes size hash o :
  (forall l, length (sha256 l) = 32%nat) -> ranges_exact openPack openRange ->
  ReconstructFile sha256 write openPack d recipes size hash = (o, None) ->
  ReconstructFileWithRanges sha256 write openRange d recipes size hash = (o, None).
Proof.
  intros Hs Hr H. apply reconstruct_ok in H as (Hz & blocks & Hf & Hl & Hh & d' & Hw & ->); [|done].
  unfold ReconstructFileWithRanges. destruct (size <? 0) eqn:E; [lia|].
  rewrite (range_loop_ok sha256 Hs write openPack openRange _ blocks) by done.
  assert (write_all write blocks (mkOutput d [] 0)
    = (mkOutput d' (concat blocks) (zlen (concat blocks)), None)) as ->.
  { apply write_all_ok. by exists d'. }
  rewrite Hl. by apply check_file_ok.
Qed.

Definition collect (acc : list Entry) (e : Entry) : res string (list Entry) := Ok (acc ++ [e]).

Lemma run_blocks_collect es acc : run_blocks collect acc es = Ok (acc ++ es).
Proof.
  revert acc. induction es as [|e es IH]; intros acc; cbn; [by rewrite app_nil_r|].
  by rewrite IH, <- app_assoc.
Qed.

Lemma located_entry offset es x : x ∈ located offset es -> offset <= x.1 /\ x.2 ∈ es.
Proof.
  revert offset. induction es as [|e es IH]; intros offset; cbn [located];
    [by intros ?%elem_of_nil|].
  intros [->|Hx]%elem_of_cons; cbn [fst snd]; rewrite elem_of_cons.
  - split; [unfold sha256_Size; lia|by left].
  - apply IH in Hx as [? ?]. pose proof (entry_size_pos e). split; [lia|by right].
Qed.

Lemma entry_located offset es e : e ∈ es -> exists o, (o, e) ∈ located offset es.
Proof.
  revert offset. induction es as [|e0 es IH]; intros offset; [by intros ?%elem_of_nil|].
  intros [->|He]%elem_of_cons; [eexists; by left|].
  destruct (IH (offset + entry_size e0) He) as [o Ho]. exists o. by right.
Qed.

(** The recipe of an entry of a written pack. *)
Definition entry_recipe (path : string) (p : Pack) (x : Z * Entry) : BlockRecipe :=
  mkBlockRecipe path (p_ID p) x.1 (zlen (e_Data x.2)) (e_Hash x.2) (zlen (e_Data x.2)).

(** The recipes of a file whose blocks are one pack. *)
Definition pack_recipes (path : string) (p : Pack) (es : list Entry) : list BlockRecipe :=
  map (entry_recipe path p) (located packPrefixSize es).

Lemma entry_recipe_block sha256 openPack path p es stream x :
  path <> "" -> EncodePack sha256 es = Ok (p, stream) -> Forall not_footer es ->
  openPack path = Ok (stream, None) -> x ∈ located packPrefixSize es ->
  recipe_block sha256 openPack (entry_recipe path p x) (e_Data x.2).
Proof.
  intros Hp He Hn Ho Hx. pose proof He as He'. apply encode_ok in He' as (_ & Hv & _).
  pose proof (located_entry _ _ _ Hx) as [Hoff Hin]. rewrite Forall_forall in Hv.
  destruct (Hv _ Hin) as [[? ?] _]. split.
  - unfold invalid_recipe. cbn. apply String.eqb_neq in Hp. rewrite Hp, Z.eqb_refl.
    unfold packPrefixSize in Hoff. cbn [orb negb].
    destruct (x.1 <? 0) eqn:E1, (zlen (e_Data x.2) <=? 0) eqn:E2; done || lia.
  - exists stream. split; [done|]. exists es, p. split_and!; try done.
    exists x.2. split_and!; try done. by destruct x.
Qed.

Lemma located_data offset es : map (fun x => e_Data x.2) (located offset es) = map e_Data es.
Proof. revert offset. induction es as [|e es IH]; intros offset; cbn; [done|]. by rewrite IH. Qed.

Lemma pack_recipes_blocks sha256 openPack path p es stream :
  path <> "" -> EncodePack sha256 es = Ok (p, stream) -> Forall not_footer es ->
  openPack path = Ok (stream, None) ->
  Forall2 (recipe_block sha256 openPack) (pack_recipes path p es) (map e_Data es).
Proof.
  intros Hp He Hn Ho. rewrite <- (located_data packPrefixSize es). unfold pack_recipes.
  apply Forall2_fmap. apply Forall_Forall2_diag, Forall_forall.
  intros x Hx. by apply (entry_recipe_block sha256 openPack path p es stream x).
Qed.

(** a backup restores.  The file read back through the recipes of the blocks
    it was split into, from the pack that was written for them, is the file that
    was backed up, under its size and hash. *)
Theorem restore_returns_backup (sha256 : bytes -> bytes) {D}
    (write : D -> bytes -> D * option string) openPack d d' path source hash es p stream :
  (forall l, length (sha256 l) = 32%nat) ->
  SplitBlocks sha256 (fun _ e => e) collect source AtEOF [] = Ok (hash, es) ->
  EncodePack sha256 es = Ok (p, stream) -> Forall not_footer es ->
  path <> "" -> openPack path = Ok (stream, None) ->
  run_writes write d (map e_Data es) = Some d' ->
  ReconstructFile sha256 write openPack d (pack_recipes path p es) (zlen source) hash
  = (mkOutput d' source (zlen source), None).
Proof.
  intros Hs Hsplit He Hn Hp Ho Hw.
  unfold SplitBlocks in Hsplit.
  destruct (split_loop_blocks sha256 (fun (_ : list Entry) e => e) collect AtEOF
    (S (length source)) source []) as (bs & Hb & Hl); [lia|].
  unfold run_stream in Hl. rewrite Hl, run_blocks_collect in Hsplit. injection Hsplit as <- <-. cbn [app] in *.
  apply blocks_of_data in Hb. apply reconstruct_ok; [done|].
  split; [apply zlen_nonneg|]. exists (map e_Data bs). rewrite Hb. split_and!; try done.
  - by apply (pack_recipes_blocks _ _ _ _ _ stream).
  - by exists d'.
Qed.

(** ** Witnesses *)

Definition append_dest (d b : bytes) : bytes * option string := (d ++ b, None).
Definition toy_open (path : string) : res string (bytes * option string) :=
  if String.eqb path "packs/1" then Ok (toy_stream, None) else Err "not found".
Definition toy_range (path : string) (offset len : Z)
    : res string (bytes * option string * option string) :=
  match toy_open path with
  | Ok (stream, _) => Ok (ztake len (zdrop offset stream), None, None)
  | Err e => Err e
  end.

Lemma ranges_reconstruct_same_witness :
  ReconstructFileWithRanges toy_hash append_dest toy_range [] (pack_recipes "packs/1" toy_pack toy_entries)
    3 (toy_hash [x41; x42; x43]) = (mkOutput [x41; x42; x43] [x41; x42; x43] 3, None).
Proof.
  apply (ranges_reconstruct_same toy_hash append_dest toy_open).
  - apply toy_hash_length.
  - intros path stream offset len Ho _ _ _. unfold toy_range. by rewrite Ho.
  - vm_compute. reflexivity.
Defined.

Lemma reconstruct_exact_witness :
  0 <= 3 /\ exists blocks, Forall2 (recipe_block toy_hash toy_open)
      (pack_recipes "packs/1" toy_pack toy_entries) blocks
    /\ zlen (concat blocks) = 3 /\ toy_hash (concat blocks) = toy_hash [x41; x42; x43]
    /\ exists d', run_writes append_dest [] blocks = Some d'
       /\ mkOutput [x41; x42; x43] [x41; x42; x43] 3 = mkOutput d' (concat blocks) 3.
Proof.
  apply (reconstruct_exact toy_hash append_dest toy_open [] _ 3); [apply toy_hash_length|].
  vm_compute. reflexivity.
Defined.

Lemma restore_returns_backup_witness :
  let source := [x41; x42] in let es := [mkEntry (toy_hash source) source] in
  match EncodePack toy_hash es with
  | Ok (p, stream) =>
      ReconstructFile toy_hash append_dest (fun _ => Ok (stream, None)) []
        (pack_recipes "packs/1" p es) 2 (toy_hash source) = (mkOutput source source 2, None)
  | Err _ => False
  end.
Proof.
  cbn zeta. destruct (EncodePack toy_hash [mkEntry (toy_hash [x41; x42]) [x41; x42]])
    as [[p stream]|e] eqn:E.
  - apply (restore_returns_backup toy_hash append_dest (fun _ => Ok (stream, None)) [] [x41; x42]
      "packs/1" [x41; x42] _ _ p stream); try done.
    repeat constructor; unfold not_footer; vm_compute; discriminate.
  - vm_compute in E. discriminate E.
Defined.
