(* ===== verification/ProviderHashes.v ===== *)
(** * Provider content hashes

    The streaming hashes the transfer path computes for comparison with the
    value a provider reports: OneDrive's QuickXorHash
    (src/backend/internal/storage/quickxorhash.go) and HiDrive's hierarchical
    chash (hidrivehash.go).  SHA-1 is a parameter. *)

From S2P Require Import Prelude Bytes.

(** ** QuickXorHash *)

Module QuickXor.

Record QuickXorHasher := mkHasher {
  data : list Z;
  length : Z;
  shift : Z;
}.

Definition NewQuickXorHasher : QuickXorHasher := mkHasher (replicate 20 0) 0 0.

Definition xor_byte (data : list Z) (i : Z) (m : Z) : list Z :=
  alter (fun x => Z.lxor x m) (Z.to_nat i) data.

Definition write_bit (shift b : Z) (data : list Z) (bit : Z) : list Z :=
  if Z.land b (Z.shiftl 1 bit) =? 0 then data
  else
    let pos := (shift + bit) mod 160 in
    xor_byte data (pos / 8) (Z.shiftl 1 (pos mod 8)).

Definition write_byte (h : QuickXorHasher) (b : byte) : QuickXorHasher :=
  mkHasher (fold_left (write_bit (shift h) (z_of b)) [0; 1; 2; 3; 4; 5; 6; 7] (data h))
    (length h) ((shift h + 11) mod 160).

Definition Write (h : QuickXorHasher) (p : bytes) : QuickXorHasher :=
  let h := fold_left write_byte p h in
  mkHasher (data h) (wrap64 (length h + zlen p)) (shift h).

Definition Sum (h : QuickXorHasher) : list Z :=
  fold_left (fun out i =>
      xor_byte out (12 + i) (uwrap 8 (Z.shiftr (uwrap 64 (length h)) (8 * i))))
    [0; 1; 2; 3; 4; 5; 6; 7] (data h).

(** Bit [j] of a little-endian byte string. *)
Definition bit_at (l : list Z) (j : Z) : bool :=
  Z.testbit (default 0 (l !! Z.to_nat (j / 8))) (j mod 8).

(** Bit [j] of the 160-bit reference: the parity of the input bits that land on
    it, bit [k] of byte number [i] landing on [(11 * i + k) mod 160]. *)
Fixpoint landed (i : Z) (p : bytes) (j : Z) : bool :=
  match p with
  | [] => false
  | b :: p =>
      let k := (j - 11 * i) mod 160 in
      xorb ((k <? 8) && Z.testbit (z_of b) k) (landed (i + 1) p j)
  end.

Lemma xor_byte_length l i m : List.length (xor_byte l i m) = List.length l.
Proof. apply length_alter. Qed.

Lemma bit_at_xor l i m j :
  0 <= j -> 0 <= i < zlen l ->
  bit_at (xor_byte l i m) j = xorb (bit_at l j) ((j / 8 =? i) && Z.testbit m (j mod 8)).
Proof.
  intros Hj Hi. unfold bit_at, xor_byte, zlen in *.
  assert (0 <= j / 8) by (apply Z.div_pos; lia).
  destruct (j / 8 =? i) eqn:E.
  - apply Z.eqb_eq in E as <-. rewrite list_lookup_alter_eq.
    destruct (lookup_lt_is_Some_2 l (Z.to_nat (j / 8)) ltac:(lia)) as [x ->].
    cbn. by rewrite Z.lxor_spec.
  - rewrite list_lookup_alter_ne by lia. cbn. by rewrite xorb_false_r.
Qed.

Lemma land_bit b bit : 0 <= bit -> (Z.land b (Z.shiftl 1 bit) =? 0) = negb (Z.testbit b bit).
Proof.
  intros Hb. rewrite Z.shiftl_1_l. destruct (Z.testbit b bit) eqn:E; cbn [negb].
  - apply Z.eqb_neq. intros H. assert (Z.testbit (Z.land b (2 ^ bit)) bit = false) as Hf
      by (by rewrite H, Z.bits_0).
    by rewrite Z.land_spec, E, Z.pow2_bits_true in Hf by done.
  - apply Z.eqb_eq, Z.bits_inj'. intros n Hn. rewrite Z.land_spec, Z.bits_0, Z.pow2_bits_eqb by done.
    destruct (bit =? n) eqn:En; [|by rewrite andb_false_r].
    apply Z.eqb_eq in En as <-. by rewrite E.
Qed.

Lemma bit_at_write_bit s b l bit j :
  zlen l = 20 -> 0 <= s -> 0 <= bit -> 0 <= j < 160 ->
  zlen (write_bit s b l bit) = 20
  /\ bit_at (write_bit s b l bit) j
     = xorb (bit_at l j) (Z.testbit b bit && ((j - s) mod 160 =? bit mod 160)).
Proof.
  intros Hl Hs Hb Hj. unfold write_bit. rewrite land_bit by done.
  destruct (Z.testbit b bit); cbn [negb andb]; [|by rewrite xorb_false_r].
  pose proof (Z.mod_pos_bound (s + bit) 160 ltac:(lia)) as Hp.
  split; [unfold zlen in *; by rewrite xor_byte_length|].
  set (pos := (s + bit) mod 160) in *.
  rewrite bit_at_xor, Z.shiftl_1_l, Z.pow2_bits_eqb
    by (try apply Z.mod_pos_bound; try (split; [apply Z.div_pos|apply Z.div_lt_upper_bound]); lia).
  f_equal.
  destruct (j / 8 =? pos / 8) eqn:E1, (pos mod 8 =? j mod 8) eqn:E2,
    ((j - s) mod 160 =? bit mod 160) eqn:E3; try done; exfalso; unfold pos in *;
    Z.div_mod_to_equations; lia.
Qed.

Lemma bit_at_write_byte h b j :
  zlen (data h) = 20 -> 0 <= shift h -> 0 <= j < 160 ->
  zlen (data (write_byte h b)) = 20
  /\ bit_at (data (write_byte h b)) j
     = xorb (bit_at (data h) j)
         (((j - shift h) mod 160 <? 8) && Z.testbit (z_of b) ((j - shift h) mod 160)).
Proof.
  intros Hl Hs Hj. unfold write_byte. cbn [data fold_left].
  set (s := shift h) in *. set (z := z_of b).
  assert (forall l bits acc, zlen l = 20 -> bit_at l j = acc -> Forall (fun x => 0 <= x < 8) bits ->
    zlen (fold_left (write_bit s z) bits l) = 20
    /\ bit_at (fold_left (write_bit s z) bits l) j
       = fold_left (fun a bit => xorb a (Z.testbit z bit && ((j - s) mod 160 =? bit))) bits acc)
    as Hfold.
  { intros l bits. revert l. induction bits as [|bit bits IH]; intros l acc Hz Ha Hf; [done|].
    apply Forall_cons in Hf as [Hb Hf]. cbn [fold_left].
    destruct (bit_at_write_bit s z l bit j) as [H1 H2]; try done || lia.
    apply IH; try done. rewrite H2, Ha, (Z.mod_small bit) by lia. done. }
  destruct (Hfold (data h) [0; 1; 2; 3; 4; 5; 6; 7] (bit_at (data h) j) Hl eq_refl) as [H1 H2];
    [repeat constructor; lia|].
  split; [exact H1|]. cbn [fold_left] in H2. rewrite H2. clear.
  pose proof (Z.mod_pos_bound (j - s) 160 ltac:(lia)) as Hk. set (k := (j - s) mod 160) in *.
  destruct (k <? 8) eqn:E.
  - assert (k = 0 \/ k = 1 \/ k = 2 \/ k = 3 \/ k = 4 \/ k = 5 \/ k = 6 \/ k = 7) as Hc by lia.
    destruct Hc as [->|[->|[->|[->|[->|[->|[->| ->]]]]]]]; cbn;
      rewrite ?andb_false_r, ?andb_true_r, ?xorb_false_r; done.
  - repeat match goal with |- context [k =? ?n] => replace (k =? n) with false by lia end.
    by rewrite !andb_false_r, !xorb_false_r.
Qed.

Lemma mod_shift j i : (j - (11 * i) mod 160) mod 160 = (j - 11 * i) mod 160.
Proof. by rewrite Zminus_mod_idemp_r. Qed.

Lemma bit_at_bytes p h i j :
  zlen (data h) = 20 -> shift h = (11 * i) mod 160 -> 0 <= j < 160 ->
  zlen (data (fold_left write_byte p h)) = 20
  /\ shift (fold_left write_byte p h) = (11 * (i + zlen p)) mod 160
  /\ length (fold_left write_byte p h) = length h
  /\ bit_at (data (fold_left write_byte p h)) j = xorb (bit_at (data h) j) (landed i p j).
Proof.
  revert h i. induction p as [|b p IH]; intros h i Hl Hs Hj; cbn [fold_left landed].
  { change (zlen []) with 0. by rewrite Z.add_0_r, xorb_false_r. }
  pose proof (Z.mod_pos_bound (11 * i) 160 ltac:(lia)) as Hb.
  destruct (bit_at_write_byte h b j Hl ltac:(lia) Hj) as [H1 H2].
  destruct (IH (write_byte h b) (i + 1)) as (I1 & I2 & I3 & I4); [done| |done|].
  { unfold write_byte. cbn [shift]. rewrite Hs, Zplus_mod_idemp_l. f_equal. lia. }
  split; [done|]. split.
  { rewrite I2. unfold zlen. cbn [List.length]. f_equal. lia. }
  split; [by rewrite I3|].
  rewrite I4, H2, Hs, mod_shift. by rewrite xorb_assoc.
Qed.

Definition tracks (h : QuickXorHasher) (p : bytes) : Prop :=
  zlen (data h) = 20 /\ shift h = (11 * zlen p) mod 160 /\ length h = wrap64 (zlen p)
  /\ forall j, 0 <= j < 160 -> bit_at (data h) j = landed 0 p j.

Lemma landed_app i p q j : landed i (p ++ q) j = xorb (landed i p j) (landed (i + zlen p) q j).
Proof.
  revert i. induction p as [|b p IH]; intros i.
  - change (zlen []) with 0. cbn [app landed]. by rewrite Z.add_0_r, xorb_false_l.
  - cbn [app landed]. rewrite IH, xorb_assoc. do 3 f_equal. unfold zlen. cbn [List.length]. lia.
Qed.

Lemma tracks_write h p q : tracks h p -> tracks (Write h q) (p ++ q).
Proof.
  intros (Hl & Hs & Hn & Hb). unfold Write, tracks. cbn [data shift length].
  destruct (bit_at_bytes q h (zlen p) 0) as (H1 & H2 & H3 & _); [done..|lia|].
  rewrite zlen_app, H2, H3, Hn. split; [done|]. split; [done|]. split.
  - unfold wrap64, two63. rewrite <- (Zplus_mod_idemp_l (zlen p + zlen q)).
    rewrite <- (Z.add_assoc _ _ 9223372036854775808). Z.div_mod_to_equations; lia.
  - intros j Hj. destruct (bit_at_bytes q h (zlen p) j) as (_ & _ & _ & H4); [done..|].
    by rewrite H4, Hb, landed_app, Z.add_0_l.
Qed.

Lemma tracks_new : tracks NewQuickXorHasher [].
Proof.
  split; [done|]. split; [done|]. split; [done|]. intros j Hj. cbn [data landed].
  unfold bit_at. destruct (lookup_lt_is_Some_2 (replicate 20 0) (Z.to_nat (j / 8))) as [x Hx].
  - rewrite length_replicate. assert (j / 8 < 20) by (apply Z.div_lt_upper_bound; lia). lia.
  - cbn [data NewQuickXorHasher]. rewrite Hx. apply lookup_replicate in Hx as [-> _]. cbn.
    by rewrite Z.bits_0.
Qed.

Lemma tracks_chunks chunks : tracks (fold_left Write chunks NewQuickXorHasher) (concat chunks).
Proof.
  assert (forall cs h p, tracks h p -> tracks (fold_left Write cs h) (p ++ concat cs)) as Hg.
  { induction cs as [|c cs IH]; intros h p Hh; cbn; [by rewrite app_nil_r|].
    rewrite app_assoc. apply IH. by apply tracks_write. }
  apply (Hg chunks _ []), tracks_new.
Qed.

Lemma bit_at_sum h p j :
  tracks h p -> zlen p < two63 -> 0 <= j < 160 ->
  bit_at (Sum h) j = xorb (landed 0 p j) ((96 <=? j) && Z.testbit (zlen p) (j - 96)).
Proof.
  intros (Hl & _ & Hn & Hb) Hp Hj. unfold Sum. rewrite <- Hb by done.
  pose proof (zlen_nonneg p) as Hp0.
  assert (uwrap 64 (length h) = zlen p) as ->.
  { rewrite Hn, wrap64_id by (unfold in_int64, min_int64, max_int64; lia).
    unfold uwrap, two63 in *. apply Z.mod_small. lia. }
  set (n := zlen p) in *.
  pose (step := fun out i => xor_byte out (12 + i) (uwrap 8 (Z.shiftr n (8 * i)))).
  change (bit_at (fold_left step [0; 1; 2; 3; 4; 5; 6; 7] (data h)) j
    = xorb (bit_at (data h) j) ((96 <=? j) && Z.testbit n (j - 96))).
  assert (forall ixs l acc, zlen l = 20 -> bit_at l j = acc -> Forall (fun x => 0 <= x < 8) ixs ->
    bit_at (fold_left step ixs l) j
    = fold_left (fun a i => xorb a ((j / 8 =? 12 + i) && Z.testbit n (j - 96))) ixs acc) as Hfold.
  { induction ixs as [|i ixs IH]; intros l acc Hz Ha Hf; [done|].
    apply Forall_cons in Hf as [Hi Hf]. cbn [fold_left]. apply IH; [|clear IH|done].
    - unfold step, zlen in *. by rewrite xor_byte_length.
    - unfold step. rewrite bit_at_xor, Ha by lia. f_equal.
      destruct (j / 8 =? 12 + i) eqn:E; [|done]. cbn [andb]. unfold uwrap.
      pose proof (Z.mod_pos_bound j 8 ltac:(lia)).
      rewrite Z.mod_pow2_bits_low, Z.shiftr_spec by lia. f_equal.
      Z.div_mod_to_equations; lia. }
  rewrite (Hfold _ _ _ Hl eq_refl) by (repeat constructor; lia). cbn [fold_left]. clear -Hj.
  destruct (96 <=? j) eqn:E.
  - assert (exists c, j / 8 = 12 + c /\ 0 <= c < 8) as (c & -> & Hc).
    { exists (j / 8 - 12). Z.div_mod_to_equations; lia. }
    assert (c = 0 \/ c = 1 \/ c = 2 \/ c = 3 \/ c = 4 \/ c = 5 \/ c = 6 \/ c = 7) as Hcs by lia.
    destruct Hcs as [->|[->|[->|[->|[->|[->|[->| ->]]]]]]]; cbn [Z.add Z.eqb Pos.eqb Pos.add Pos.succ andb];
      by rewrite ?xorb_false_r.
  - assert (j / 8 < 12) by (apply Z.div_lt_upper_bound; lia).
    repeat match goal with |- context [j / 8 =? ?n] => replace (j / 8 =? n) with false by lia end.
    by rewrite !andb_false_l, !xorb_false_r.
Qed.

(** The streaming hash is QuickXorHash.  However the stream is cut into
    writes, bit [j] of the digest is the parity of the input bits that land on it,
    combined at bit 96 and above with the bits of the stream's length. *)
Theorem quickxor_digest chunks j :
  zlen (concat chunks) < two63 -> 0 <= j < 160 ->
  bit_at (Sum (fold_left Write chunks NewQuickXorHasher)) j
  = xorb (landed 0 (concat chunks) j) ((96 <=? j) && Z.testbit (zlen (concat chunks)) (j - 96)).
Proof. intros Hn Hj. apply bit_at_sum; [apply tracks_chunks|done|done]. Qed.

Lemma quickxor_digest_witness :
  bit_at (Sum (fold_left Write [[x01; x80]; [xff]] NewQuickXorHasher)) 22 = true.
Proof. rewrite quickxor_digest; [vm_compute; reflexivity|vm_compute; reflexivity|lia]. Defined.
End QuickXor.

(** ** HiDrive's hierarchical hash *)

Module HiDrive.

Definition hiDriveHashBlockSize : Z := 4096.

Record hiDriveHashLevel := mkLevel {
  sum : bytes;
  count : Z;
}.

Record HiDriveHasher := mkHiDrive {
  block : bytes;
  levels : list hiDriveHashLevel;
  last : bytes;
}.

Definition zero_node : bytes := replicate 20 x00.
Definition empty_level : hiDriveHashLevel := mkLevel zero_node 0.
Definition NewHiDriveHasher : HiDriveHasher := mkHiDrive [] [] zero_node.

(** Byte-wise addition from the last byte up, with the final carry. *)
Fixpoint add_carry (dst src : bytes) : Z * bytes :=
  match dst, src with
  | d :: dst, s :: src =>
      let '(carry, r) := add_carry dst src in
      let v := z_of d + z_of s + carry in
      (Z.shiftr v 8, byte_of v :: r)
  | _, _ => (0, [])
  end.

Definition addHiDriveModulo (dst src : bytes) : bytes := (add_carry dst src).2.

(** *** Pieces of a list *)

(** [l] cut into pieces of length [n], the last one possibly shorter. *)
Inductive pieces {A} (n : Z) : list A -> list (list A) -> Prop :=
| pieces_nil : pieces n [] []
| pieces_last l : 0 < zlen l < n -> pieces n l [l]
| pieces_full p l ps : zlen p = n -> pieces n l ps -> pieces n (p ++ l) (p :: ps).

Lemma pieces_groups {A} n (groups : list (list A)) rest :
  Forall (fun g => zlen g = n) groups -> zlen rest < n ->
  pieces n (concat groups ++ rest) (groups ++ match rest with [] => [] | _ => [rest] end).
Proof.
  intros Hg Hr. induction Hg as [|g groups Hl Hg IH]; cbn [concat app].
  - destruct rest as [|x rest]; constructor. split; [unfold zlen; cbn; lia|done].
  - rewrite <- app_assoc. by constructor.
Qed.

(** *** Addition modulo a power of 256 *)

Lemma add_carry_spec dst src :
  length dst = length src ->
  let '(c, r) := add_carry dst src in
  length r = length dst /\ 0 <= c
  /\ be_get r + c * 256 ^ zlen dst = be_get dst + be_get src.
Proof.
  revert src. induction dst as [|d dst IH]; intros [|s src] Hl; try done. injection Hl as Hl.
  cbn [add_carry]. specialize (IH src Hl). destruct (add_carry dst src) as [c r].
  destruct IH as (Hr & Hc & He). rewrite !be_get_cons, z_of_byte_of.
  pose proof (z_of_range d). pose proof (z_of_range s).
  assert (zlen r = zlen dst /\ zlen src = zlen dst) as [-> ->] by (unfold zlen; lia).
  assert (zlen (d :: dst) = zlen dst + 1) as -> by (unfold zlen; cbn [length]; lia).
  pose proof (zlen_nonneg dst). rewrite Z.pow_add_r, Z.pow_1_r, Z.shiftr_div_pow2 by lia.
  change (2 ^ 8) with 256. set (v := z_of d + z_of s + c).
  pose proof (Z.div_mod v 256 ltac:(lia)) as Hd.
  split; [cbn; by rewrite Hr|]. split; [apply Z.div_pos; lia|].
  replace (v mod 256) with (v - 256 * (v / 256)) by lia. unfold v in *. nia.
Qed.

Lemma addHiDriveModulo_spec dst src :
  length dst = length src ->
  addHiDriveModulo dst src = be_put (length dst) (be_get dst + be_get src).
Proof.
  intros Hl. pose proof (add_carry_spec dst src Hl) as H. unfold addHiDriveModulo.
  destruct (add_carry dst src) as [c r]. destruct H as (Hr & _ & <-). cbn [snd].
  rewrite <- Hr at 1. unfold zlen. by rewrite <- Hr, be_put_low, be_put_get by lia.
Qed.

Section Hash.
Context (sha1 : bytes -> bytes).

(** A node joining a level. *)
Definition join_level (l : hiDriveHashLevel) (node : bytes) : hiDriveHashLevel :=
  mkLevel (if bool_decide (node = zero_node) then sum l
           else addHiDriveModulo (sum l) (sha1 (node ++ [byte_of (count l)])))
    (count l + 1).

(** The loop of [add], on the levels from the given one up; the new [last]. *)
Fixpoint add_levels (ls : list hiDriveHashLevel) (node : bytes)
    : list hiDriveHashLevel * bytes :=
  match ls with
  | [] => ([join_level empty_level node], node)
  | l :: ls =>
      let l := join_level l node in
      if count l <? 256 then (l :: ls, node)
      else let '(ls, last) := add_levels ls (sum l) in (empty_level :: ls, last)
  end.

Definition add (h : HiDriveHasher) (level : nat) (node : bytes) : HiDriveHasher :=
  let '(ls, last) := add_levels (drop level (levels h)) node in
  mkHiDrive (block h) (take level (levels h) ++ ls) last.

Definition block_node (b : bytes) : bytes :=
  if existsb (fun b => negb (bool_decide (b = x00))) b then sha1 b else zero_node.

Definition commitBlock (h : HiDriveHasher) : HiDriveHasher :=
  add (mkHiDrive [] (levels h) (last h)) 0 (block_node (block h)).

Fixpoint write_loop (fuel : nat) (h : HiDriveHasher) (p : bytes) : option HiDriveHasher :=
  match p with
  | [] => Some h
  | _ =>
      match fuel with
      | O => None
      | S fuel =>
          let need := Z.min (hiDriveHashBlockSize - zlen (block h)) (zlen p) in
          let h := mkHiDrive (block h ++ ztake need p) (levels h) (last h) in
          let p := zdrop need p in
          write_loop fuel (if zlen (block h) =? hiDriveHashBlockSize then commitBlock h else h) p
      end
  end.

Definition Write (h : HiDriveHasher) (p : bytes) : option HiDriveHasher :=
  write_loop (length p) h p.

(** The loop of [Sum], on the levels from the current one up. *)
Fixpoint finish (fuel : nat) (ls : list hiDriveHashLevel) (last : bytes) : option bytes :=
  match ls with
  | [] => Some zero_node
  | [l] => Some (if 1 <? count l then sum l else last)
  | l :: ls =>
      match fuel with
      | O => None
      | S fuel =>
          let '(ls, last) := if 0 <? count l then add_levels ls (sum l) else (ls, last) in
          finish fuel ls last
      end
  end.

Definition top_count (ls : list hiDriveHashLevel) : Z := count (List.last ls empty_level).

Definition finish_fuel (ls : list hiDriveHashLevel) : nat :=
  Z.to_nat (256 * zlen ls + top_count ls).

Definition Sum (h : HiDriveHasher) : option bytes :=
  let clone :=
    if 0 <? zlen (block h)
    then commitBlock
           (mkHiDrive (block h ++ replicate (Z.to_nat (hiDriveHashBlockSize - zlen (block h))) x00)
              (levels h) (last h))
    else h in
  finish (finish_fuel (levels clone)) (levels clone) (last clone).

(** *** The reference *)

(** What a node in place [i] of its group adds to the parent. *)
Definition contribution (i : Z) (node : bytes) : Z :=
  if bool_decide (node = zero_node) then 0 else be_get (sha1 (node ++ [byte_of i])).

Fixpoint total (i : Z) (nodes : list bytes) : Z :=
  match nodes with
  | [] => 0
  | x :: nodes => contribution i x + total (i + 1) nodes
  end.

(** The parent of a group: the sum modulo 2^160. *)
Definition agg (nodes : list bytes) : bytes := be_put 20 (total 0 nodes).

(** The level over [nodes] is their parents in groups of 256, the last group
    possibly shorter; the digest is the single node of the level that has one. *)
Inductive root_is : list bytes -> bytes -> Prop :=
| root_nil : root_is [] zero_node
| root_one x : root_is [x] x
| root_up nodes groups x :
    2 <= zlen nodes -> pieces 256 nodes groups -> root_is (map agg groups) x ->
    root_is nodes x.

Definition padded (b : bytes) : bytes :=
  b ++ replicate (Z.to_nat (hiDriveHashBlockSize - zlen b)) x00.

(** *** Levels *)

Hypothesis sha1_length : forall l, length (sha1 l) = 20%nat.

Definition level_of (nodes : list bytes) (l : hiDriveHashLevel) : Prop :=
  sum l = agg nodes /\ count l = zlen nodes.

Lemma total_snoc i nodes x : total i (nodes ++ [x]) = total i nodes + contribution (i + zlen nodes) x.
Proof.
  revert i. induction nodes as [|y nodes IH]; intros i.
  - cbn [app total]. change (zlen []) with 0. rewrite (Z.add_0_r i). lia.
  - cbn [app total]. rewrite IH. replace (i + zlen (y :: nodes)) with (i + 1 + zlen nodes); [lia|].
    unfold zlen. cbn [length]. lia.
Qed.

Lemma level_of_empty : level_of [] empty_level.
Proof. split; reflexivity. Qed.

Lemma level_of_join nodes l x : level_of nodes l -> level_of (nodes ++ [x]) (join_level l x).
Proof.
  intros [Hs Hc]. unfold join_level, level_of. cbn [sum count].
  split; [|rewrite zlen_app, Hc; unfold zlen; cbn; lia].
  unfold agg. rewrite total_snoc, Z.add_0_l, <- Hc. unfold contribution.
  case_bool_decide as Ex; [by rewrite Z.add_0_r|].
  rewrite Hs. unfold agg.
  rewrite addHiDriveModulo_spec by (by rewrite be_put_length, sha1_length).
  rewrite be_put_length, be_get_put. apply be_get_inj; [by rewrite !be_put_length|].
  rewrite !be_get_put. by rewrite Zplus_mod_idemp_l.
Qed.

(** [ls] holds the level with [nodes] and those above it.  The top level's only
    node is the last one added, unless a level below has nodes left to pass up. *)
Fixpoint rep (below : Prop) (last : bytes) (ls : list hiDriveHashLevel) (nodes : list bytes) : Prop :=
  match ls with
  | [] => nodes = []
  | l :: ls =>
      nodes <> [] /\ exists groups rest,
        nodes = concat groups ++ rest /\ Forall (fun g => zlen g = 256) groups
        /\ zlen rest < 256 /\ level_of rest l
        /\ (ls = [] -> below \/ forall x, nodes = [x] -> last = x)
        /\ rep (below \/ 0 < count l) last ls (map agg groups)
  end.

Lemma rep_mono (P Q : Prop) x ls nodes : (P -> Q) -> rep P x ls nodes -> rep Q x ls nodes.
Proof.
  revert P Q nodes. induction ls as [|l ls IH]; intros P Q nodes HPQ; cbn [rep]; [done|].
  intros (Hn & groups & rest & ? & ? & ? & ? & Hl & Hr). split; [done|].
  exists groups, rest. split_and!; try done; [tauto|].
  revert Hr. apply IH. tauto.
Qed.

Lemma rep_below (P Q : Prop) x y ls nodes : Q -> rep P x ls nodes -> rep Q y ls nodes.
Proof.
  intros HQ. revert P Q HQ nodes. induction ls as [|l ls IH]; intros P Q HQ nodes; cbn [rep]; [done|].
  intros (Hn & groups & rest & ? & ? & ? & ? & Hl & Hr). split; [done|].
  exists groups, rest. split_and!; try done; [by left|].
  revert Hr. apply IH. by left.
Qed.

Lemma rep_nonempty P x ls nodes : rep P x ls nodes -> nodes <> [] -> ls <> [].
Proof. by destruct ls. Qed.

Lemma snoc_not_nil {A} (l : list A) x : l ++ [x] <> [].
Proof. by destruct l. Qed.

Lemma add_levels_rep P ls nodes x y ls' y' :
  rep P y ls nodes -> add_levels ls x = (ls', y') -> rep False y' ls' (nodes ++ [x]).
Proof.
  revert P nodes x y ls' y'. induction ls as [|l ls IH]; intros P nodes x y ls' y' Hr.
  - cbn in Hr. subst nodes. intros [= <- <-]. cbn [rep app]. split; [done|].
    exists [], [x]. split_and!; [done|constructor|done|apply (level_of_join [] _ x level_of_empty)| |done].
    intros _. right. by intros z [= ->].
  - destruct Hr as (Hn & groups & rest & -> & Hg & Hlt & Hl & Hlast & Hr).
    cbn [add_levels]. pose proof (level_of_join rest l x Hl) as [Hs Hc].
    rewrite zlen_app in Hc. change (zlen [x]) with 1 in Hc.
    destruct (count (join_level l x) <? 256) eqn:E.
    + intros [= <- <-]. cbn [rep]. split; [apply snoc_not_nil|].
      exists groups, (rest ++ [x]). split_and!.
      * by rewrite app_assoc.
      * done.
      * rewrite zlen_app. change (zlen [x]) with 1. lia.
      * by apply level_of_join.
      * intros _. right. intros z Hz.
        by destruct (concat groups ++ rest) as [|a [|b q]]; simplify_list_eq.
      * eapply rep_below, Hr. right. pose proof (zlen_nonneg rest). lia.
    + destruct (add_levels ls (sum (join_level l x))) as [ls1 y1] eqn:Ea. intros [= <- <-].
      rewrite Hs in Ea. eapply IH in Ea; [|exact Hr]. cbn [rep]. split; [apply snoc_not_nil|].
      exists (groups ++ [rest ++ [x]]), []. split_and!.
      * by rewrite concat_app, app_nil_r, <- app_assoc; cbn; rewrite app_nil_r.
      * apply Forall_app. split; [done|]. constructor; [|done].
        rewrite zlen_app. change (zlen [x]) with 1. lia.
      * done.
      * apply level_of_empty.
      * intros ->. exfalso. cbn in Ea. by apply snoc_not_nil in Ea.
      * rewrite map_app. eapply rep_mono; [|exact Ea]. done.
Qed.

Lemma finish_root fuel ls nodes x r :
  rep False x ls nodes -> finish fuel ls x = Some r -> root_is nodes r.
Proof.
  revert ls nodes x. induction fuel as [|fuel IH]; intros ls nodes x Hr Hf.
  all: destruct ls as [|l ls]; [cbn in Hr, Hf; subst nodes; injection Hf as <-; constructor|].
  all: destruct Hr as (Hn & groups & rest & -> & Hg & Hlt & [Hs Hc] & Hlast & Hr).
  all: destruct ls as [|l' ls].
  1, 3: cbn in Hr; apply map_eq_nil in Hr as ->; cbn [concat app] in *;
    cbn in Hf; injection Hf as <-; destruct (1 <? count l) eqn:E;
    [rewrite Hs; apply root_up with [rest]; [lia| |constructor];
     apply pieces_last; lia
    |destruct rest as [|y rest]; [done|]; assert (rest = []) as -> by
       (apply zlen_nil_inv; pose proof (zlen_nonneg rest); unfold zlen in *; cbn [length] in *; lia);
     destruct (Hlast eq_refl) as [[]|Hx]; rewrite (Hx y eq_refl); constructor].
  { cbn in Hf. done. }
  cbn [finish] in Hf.
  assert (groups <> []) as Hgn by (intros ->; by destruct Hr).
  apply root_up with (groups ++ match rest with [] => [] | _ => [rest] end);
    [|by apply pieces_groups|].
  { destruct groups as [|g groups]; [done|]. apply Forall_cons in Hg as [Hg _].
    cbn [concat]. rewrite !zlen_app. pose proof (zlen_nonneg rest).
    pose proof (zlen_nonneg (concat groups)). lia. }
  destruct (0 <? count l) eqn:E.
  - destruct (add_levels (l' :: ls) (sum l)) as [ls1 x1] eqn:Ea.
    rewrite Hs in Ea. eapply add_levels_rep in Ea; [|exact Hr].
    destruct rest as [|y rest]; [unfold zlen in Hc; cbn in Hc; lia|].
    rewrite map_app. eapply IH; [exact Ea|exact Hf].
  - assert (rest = []) as -> by (apply zlen_nil_inv; pose proof (zlen_nonneg rest); lia).
    rewrite app_nil_r. eapply IH; [|exact Hf]. eapply rep_mono; [|exact Hr]. lia.
Qed.

(** *** Termination of the last loop *)

Lemma top_count_cons l l' ls : top_count (l :: l' :: ls) = top_count (l' :: ls).
Proof. reflexivity. Qed.

Lemma add_levels_grows ls x ls' y :
  ls <> [] -> Forall (fun l => 0 <= count l <= 255) ls -> add_levels ls x = (ls', y) ->
  ls' <> [] /\ Forall (fun l => 0 <= count l <= 255) ls'
  /\ 256 * zlen ls' + top_count ls' <= 256 * zlen ls + top_count ls + 2.
Proof.
  revert x ls' y. induction ls as [|l ls IH]; intros x ls' y Hne Hc; [done|].
  apply Forall_cons in Hc as [Hl Hc]. cbn [add_levels]. cbn [join_level count].
  destruct (count l + 1 <? 256) eqn:E.
  - intros [= <- <-]. split; [done|]. split; [constructor; [cbn; lia|done]|].
    destruct ls as [|l' ls]; [unfold top_count, zlen; cbn; lia|].
    rewrite !top_count_cons. unfold zlen. cbn [length]. lia.
  - destruct (add_levels ls _) as [ls1 y1] eqn:Ea. intros [= <- <-].
    split; [done|]. destruct ls as [|l' ls].
    + cbn in Ea. injection Ea as <- <-. split; [repeat constructor; cbn; lia|].
      unfold top_count, zlen. cbn [List.last join_level length count empty_level]. lia.
    + apply IH in Ea as (Hn1 & Hc1 & Hm1); [|done|done]. split; [constructor; [cbn; lia|done]|].
      destruct ls1 as [|l1 ls1]; [done|]. rewrite !top_count_cons in *.
      unfold zlen in *. cbn [length] in *. lia.
Qed.

Lemma finish_total fuel ls x :
  Forall (fun l => 0 <= count l <= 255) ls -> 256 * zlen ls + top_count ls <= Z.of_nat fuel ->
  exists r, finish fuel ls x = Some r.
Proof.
  revert ls x. induction fuel as [|fuel IH]; intros ls x Hc Hm.
  all: destruct ls as [|l [|l' ls]]; [by eexists|by eexists|].
  all: rewrite top_count_cons in Hm; apply Forall_cons in Hc as [Hl Hc].
  all: assert (0 <= top_count (l' :: ls)) by
    (unfold top_count; clear -Hc; revert l' Hc; induction ls as [|l2 ls IH]; intros l' Hc;
     apply Forall_cons in Hc as [H1 H2]; [cbn; lia|apply IH, H2]).
  { unfold zlen in Hm. cbn [length] in Hm. lia. }
  cbn [finish]. destruct (0 <? count l).
  - destruct (add_levels (l' :: ls) (sum l)) as [ls1 x1] eqn:Ea.
    apply add_levels_grows in Ea as (_ & Hc1 & Hm1); [|done|done].
    apply IH; [done|]. unfold zlen in *. cbn [length] in *. lia.
  - apply IH; [done|]. unfold zlen in *. cbn [length] in *. lia.
Qed.

Lemma rep_counts P x ls nodes : rep P x ls nodes -> Forall (fun l => 0 <= count l <= 255) ls.
Proof.
  revert P nodes. induction ls as [|l ls IH]; intros P nodes; [constructor|].
  intros (_ & groups & rest & _ & _ & Hlt & [_ Hc] & _ & Hr). constructor; [|by eapply IH].
  pose proof (zlen_nonneg rest). lia.
Qed.

(** *** The stream *)

Definition holds (h : HiDriveHasher) (stream : bytes) : Prop :=
  exists full, stream = concat full ++ block h
    /\ Forall (fun b => zlen b = hiDriveHashBlockSize) full
    /\ zlen (block h) < hiDriveHashBlockSize
    /\ rep False (last h) (levels h) (map block_node full).

Lemma commit_holds full h :
  rep False (last h) (levels h) (map block_node full) ->
  rep False (last (commitBlock h)) (levels (commitBlock h)) (map block_node (full ++ [block h]))
  /\ block (commitBlock h) = [].
Proof.
  intros Hr. unfold commitBlock, add. cbn [levels last block]. rewrite drop_0, take_0.
  destruct (add_levels (levels h) (block_node (block h))) as [ls y] eqn:E. cbn [levels last block app].
  split; [|done]. rewrite map_app. eapply add_levels_rep; [exact Hr|exact E].
Qed.

Lemma write_loop_holds fuel h stream p :
  holds h stream -> (length p <= fuel)%nat ->
  exists h', write_loop fuel h p = Some h' /\ holds h' (stream ++ p).
Proof.
  revert h stream p. induction fuel as [|fuel IH]; intros h stream p Hh Hp.
  all: destruct p as [|b p]; [exists h; by rewrite app_nil_r|]; cbn [length] in Hp; try lia.
  cbn [write_loop]. set (q := b :: p) in *.
  destruct Hh as (full & -> & Hf & Hb & Hr).
  set (need := Z.min (hiDriveHashBlockSize - zlen (block h)) (zlen q)).
  assert (1 <= zlen q) by (unfold q, zlen; cbn [length]; lia).
  assert (1 <= need) by lia.
  pose proof (zlen_ztake need q ltac:(lia)) as Ht.
  assert (length (zdrop need q) <= fuel)%nat as Hlen.
  { rewrite zdrop_drop, length_drop. unfold zlen, q in *. cbn [length]. lia. }
  assert ((concat full ++ block h) ++ q = concat full ++ (block h ++ ztake need q) ++ zdrop need q)
    as -> by (by rewrite <- !app_assoc, ztake_zdrop).
  set (h1 := mkHiDrive (block h ++ ztake need q) (levels h) (last h)).
  rewrite (app_assoc (concat full)).
  destruct (zlen (block h1) =? hiDriveHashBlockSize) eqn:E.
  - apply IH; [|done]. destruct (commit_holds full h1 Hr) as [Hr1 Hb1].
    exists (full ++ [block h1]). rewrite Hb1, app_nil_r. split_and!; [|by apply Forall_app; split; [|constructor; [lia|]]|done|done].
    rewrite concat_app. cbn. by rewrite app_nil_r.
  - apply IH; [|done]. exists full. split_and!; try done.
    cbn [block h1] in *. rewrite zlen_app in *. lia.
Qed.

Fixpoint writes (h : HiDriveHasher) (ps : list bytes) : option HiDriveHasher :=
  match ps with
  | [] => Some h
  | p :: ps => match Write h p with Some h => writes h ps | None => None end
  end.

Lemma writes_hold ps h stream :
  holds h stream -> exists h', writes h ps = Some h' /\ holds h' (stream ++ concat ps).
Proof.
  revert h stream. induction ps as [|p ps IH]; intros h stream Hh; cbn [writes concat].
  - exists h. by rewrite app_nil_r.
  - destruct (write_loop_holds (length p) h stream p Hh ltac:(done)) as (h1 & Hw & Hh1).
    unfold Write. rewrite Hw. rewrite app_assoc. by apply IH.
Qed.

Lemma padded_full b : zlen b = hiDriveHashBlockSize -> padded b = b.
Proof. intros H. unfold padded. rewrite H, Z.sub_diag. apply app_nil_r. Qed.

Lemma sum_holds h stream :
  holds h stream ->
  exists r blocks, Sum h = Some r /\ pieces hiDriveHashBlockSize stream blocks
    /\ root_is (map (fun b => block_node (padded b)) blocks) r.
Proof.
  intros (full & -> & Hf & Hb & Hr). unfold Sum.
  set (clone := if 0 <? zlen (block h) then _ else _).
  set (blocks := full ++ match block h with [] => [] | _ => [block h] end).
  assert (rep False (last clone) (levels clone)
    (map (fun b => block_node (padded b)) blocks)) as Hclone.
  { assert (map (fun b => block_node (padded b)) full = map block_node full) as Hm.
    { apply map_ext_Forall. eapply Forall_impl; [exact Hf|]. intros b Hb'. cbn in Hb'.
      by rewrite padded_full. }
    unfold clone, blocks. rewrite map_app, Hm. clear clone blocks.
    destruct (block h) as [|b0 bs] eqn:Eb.
    - cbn. by rewrite app_nil_r.
    - assert ((0 <? zlen (b0 :: bs)) = true) as -> by done.
      destruct (commit_holds full (mkHiDrive (padded (b0 :: bs)) (levels h) (last h)) Hr)
        as [Hr1 _].
      rewrite map_app in Hr1. exact Hr1. }
  destruct (finish_total (finish_fuel (levels clone)) (levels clone) (last clone)) as [r Hfin].
  - by eapply rep_counts.
  - unfold finish_fuel. lia.
  - exists r, blocks. split; [exact Hfin|]. split; [by apply pieces_groups|].
    by eapply finish_root.
Qed.

Lemma holds_new : holds NewHiDriveHasher [].
Proof. exists []. by split_and!. Qed.
End Hash.

(** The streaming hash is the hierarchical hash.  However the stream is cut
    into writes, both loops terminate and the digest is the root over the 4096-byte
    blocks of the stream, the last one padded with zeros: level by level, groups of
    256 nodes are replaced by the sum modulo 2^160 of the hashes of their nodes with
    their places, an all-zero node counting nothing. *)
Theorem hidrive_digest (sha1 : bytes -> bytes) chunks :
  (forall l, length (sha1 l) = 20%nat) ->
  exists h r blocks, writes sha1 NewHiDriveHasher chunks = Some h /\ Sum sha1 h = Some r
    /\ pieces hiDriveHashBlockSize (concat chunks) blocks
    /\ root_is sha1 (map (fun b => block_node sha1 (padded b)) blocks) r.
Proof.
  intros Hs. destruct (writes_hold sha1 Hs chunks NewHiDriveHasher [] (holds_new sha1)) as (h & Hw & Hh).
  destruct (sum_holds sha1 Hs h _ Hh) as (r & blocks & Hr & Hp & Hroot). by exists h, r, blocks.
Qed.

Definition toy_sha1 (l : bytes) : bytes := be_put 20 (be_get l + 1).

Lemma hidrive_digest_witness :
  exists h r blocks, writes toy_sha1 NewHiDriveHasher [[x01]; [x02; x03]] = Some h
    /\ Sum toy_sha1 h = Some r
    /\ pieces hiDriveHashBlockSize [x01; x02; x03] blocks
    /\ root_is toy_sha1 (map (fun b => block_node toy_sha1 (padded b)) blocks) r.
Proof. apply (hidrive_digest toy_sha1 [[x01]; [x02; x03]]). intros l. apply be_put_length. Defined.
End HiDrive.
