(* ===== verification/TransferCore.v ===== *)
(** * The transfer core

    runTransferCore and its hash selection
    (src/backend/internal/processor/transfer_core.go), verifyTargetSize
    (processor.go) and the inline checksum verification (inline_verify.go,
    verifier.go).  The source provider supplies a reader, the target an upload
    that consumes a reader; deadlines and cancellation are errors those may
    return.  A hasher is the bytes written to it. *)

From S2P Require Import Prelude HashString Bytes Streams.

Definition chunkedUploadThreshold : Z := 50 * 1024 * 1024.

Section Hashers.
Context `{GoUnicode}.

(** The algorithm of the source hasher and the checksum to announce. *)
Definition transferSourceHasher (provider sourceHash : string) : string * string :=
  let '(algo, expected) :=
    if negb (String.eqb sourceHash "") && negb (String.eqb provider "webdav") then
      let '(parsed, value) := ParseHashString sourceHash in
      if String.eqb parsed "SHA1" || String.eqb parsed "SHA256" || String.eqb parsed "MD5"
         || String.eqb parsed "DROPBOX"
      then (parsed, value) else ("SHA1", "")
    else ("SHA1", "") in
  let algo :=
    if String.eqb provider "dropbox" then "DROPBOX"
    else if String.eqb provider "google" || String.eqb provider "koofr" then "MD5"
    else if String.eqb provider "onedrive" then "QUICKXOR" else algo in
  if String.eqb algo "MD5" || String.eqb algo "DROPBOX" || String.eqb algo "SHA256"
     || String.eqb algo "QUICKXOR"
  then (algo, expected) else ("SHA1", expected).

Definition transferTargetHasher (provider : string) : string :=
  if String.eqb provider "dropbox" then "DROPBOX"
  else if String.eqb provider "s3" then "SHA256"
  else if String.eqb provider "google" || String.eqb provider "koofr" then "MD5"
  else if String.eqb provider "hidrive" then "HIDRIVE"
  else if String.eqb provider "onedrive" then "QUICKXOR"
  else "SHA1".
End Hashers.

(** ** The reader stack *)

Section Stack.
Context {R L : Type} (read : read_op R).

(** [io.TeeReader]: what is read is written to the hashers. *)
Definition tee_Read {Q} (read : read_op Q) (h : Q * bytes) (n : Z)
    : bytes * option io_error * (Q * bytes) :=
  let '(d, e, q) := read h.1 n in (d, e, (q, h.2 ++ d)).

(** A job throttler: the context's error and the limiter in force; without one
    the reader is used as it is. *)
Record throttler := mkThrottler {
  ctx_err : L -> option io_error;
  current : L -> option (limiter L);
}.

Definition maybe_throttled {Q} (read : read_op Q) (t : option throttler) (h : Q * L) (n : Z)
    : bytes * option io_error * (Q * L) :=
  match t with
  | Some t => throttled_Read read (ctx_err t) (current t) h n
  | None => let '(d, e, q) := read h.1 n in (d, e, (q, h.2))
  end.

Definition download_read (t : option throttler) : read_op (R * L) := maybe_throttled read t.

(** Upload throttling over hashing over the size check over download throttling. *)
Definition upload_state : Type := (expectedSizeReader (R := R * L) * bytes) * L.

Definition upload_read (down up : option throttler) : read_op upload_state :=
  maybe_throttled (tee_Read (expected_Read (download_read down))) up.
End Stack.
Arguments mkThrottler {L}. Arguments ctx_err {L}. Arguments current {L}.
Arguments upload_state : clear implicits.

(** ** The transfer *)

Record transferRequest := mkRequest {
  SourceProvider : string;
  TargetProvider : string;
  ResourceType : string;
  SourcePath : string;
  TargetPath : string;
  VerificationPath : string;
  FileSize : Z;
  SourceHash : string;
}.

Record transferResult := mkResult {
  SourceAlgorithm : string;
  SourceHasher : bytes;
  TargetAlgorithm : string;
  TargetHasher : option bytes;
}.

(** The checksum announced to the target: the one that was indexed, with its algorithm. *)
Definition announced_checksum `{GoUnicode} (req : transferRequest) : option string :=
  let '(sourceAlgo, expectedHash) := transferSourceHasher (SourceProvider req) (SourceHash req) in
  if String.eqb expectedHash "" then None else Some (sourceAlgo +:+ ":" +:+ expectedHash)%string.

Section Transfer.
Context `{GoUnicode} {R L T : Type} (read : read_op R).

(** The target: its uploads consume a reader and end with an error or without,
    and it answers size queries. *)
Record target := mkTarget {
  StreamUpload : T -> string -> Z -> option string -> consumer (option string * T);
  StreamUploadChunked : T -> string -> Z -> option string -> consumer (option string * T);
  FileExists : T -> string -> res string (bool * Z) * T;
}.

Context (StreamDownload : string -> res string R) (tgt : target).
Context (down up : option (throttler (L := L))) (l0 : L).

(** [Finalize], for example the promotion of a staging object. *)
Context (Finalize : option (T -> option string * T)).

Fixpoint verify_attempts (attempts : nat) (last : res string (bool * Z)) (path : string) (t : T)
    : res string (bool * Z) * T :=
  match attempts with
  | O => (last, t)
  | S attempts =>
      match FileExists tgt t path with
      | (Ok v, t) => (Ok v, t)
      | (Err e, t) => verify_attempts attempts (Err e) path t
      end
  end.

Definition verifyTargetSize (path : string) (t : T) : res string (bool * Z) * T :=
  verify_attempts 3 (Ok (false, 0)) path t.

Definition check_target (req : transferRequest) (t : T) : option string * T :=
  if String.eqb (ResourceType req) "files" then
    let path := if String.eqb (VerificationPath req) "" then TargetPath req
                else VerificationPath req in
    match verifyTargetSize path t with
    | (Err e, t) => (Some ("failed to verify target size: " +:+ e), t)
    | (Ok (exists_, size), t) =>
        if negb exists_ || negb (size =? FileSize req)
        then (Some "target size mismatch", t) else (None, t)
    end
  else (None, t).

Definition run_finalize (t : T) : option string * T :=
  match Finalize with Some f => f t | None => (None, t) end.

Definition runTransferCore (req : transferRequest) (t : T) : res string transferResult * T :=
  match StreamDownload (SourcePath req) with
  | Err e => (Err ("failed to download from source: " +:+ e), t)
  | Ok stream =>
      let '(sourceAlgo, expectedHash) := transferSourceHasher (SourceProvider req) (SourceHash req) in
      let targetAlgo := transferTargetHasher (TargetProvider req) in
      let checksum := if String.eqb expectedHash "" then None
                      else Some (sourceAlgo +:+ ":" +:+ expectedHash)%string in
      let upload := if chunkedUploadThreshold <? FileSize req
                    then StreamUploadChunked tgt t (TargetPath req) (FileSize req) checksum
                    else StreamUpload tgt t (TargetPath req) (FileSize req) checksum in
      let st := (newExpectedSizeReader (stream, l0) (FileSize req), [], l0) in
      let '((uploadErr, t), _, _, (reader, hashed, _)) :=
        run_consumer (upload_read read down up) upload st in
      match uploadErr with
      | Some e => (Err ("upload to target failed: " +:+ e), t)
      | None =>
        match VerifyComplete (download_read read down) reader with
        | (Err e, _) => (Err e, t)
        | (Ok _, _) =>
          match run_finalize t with
          | (Some e, t) => (Err e, t)
          | (None, t) =>
            match check_target req t with
            | (Some e, t) => (Err e, t)
            | (None, t) =>
                (Ok (mkResult sourceAlgo hashed targetAlgo
                       (if String.eqb sourceAlgo targetAlgo then None else Some hashed)), t)
            end
          end
        end
      end
  end.
End Transfer.
Arguments mkTarget {T}. Arguments StreamUpload {T}. Arguments StreamUploadChunked {T}.
Arguments FileExists {T}.

(** ** Inline verification *)

Record Task := mkTask {
  t_SourceHash : option string;
  t_WorkerHash : option string;
  t_TargetHash : option string;
  t_ChecksumVerified : bool;
}.

Section Verify.
Context `{GoUnicode}.

Definition isComparableHash (algo : string) : bool :=
  existsb (String.eqb (ToUpper algo))
    ["SHA1"; "SHA256"; "MD5"; "SHA512"; "DROPBOX"; "HIDRIVE"; "QUICKXOR"].

Definition is_etag (s : string) : bool := has_prefix (ToUpper s) "ETAG:".

Definition bestSourceHash (task : Task) : string :=
  let workerHash := default "" (t_WorkerHash task) in
  let sourceHash := default "" (t_SourceHash task) in
  if negb (String.eqb sourceHash "") && negb (is_etag sourceHash) then sourceHash
  else if negb (String.eqb workerHash "") && negb (is_etag workerHash) then workerHash
  else if negb (String.eqb sourceHash "") then sourceHash
  else if negb (String.eqb workerHash "") then workerHash
  else "".

(** [GetFileHash] of the target is the argument. *)
Definition tryInlineHashVerify (task : Task) (GetFileHash : res string string) : bool * Task :=
  match GetFileHash with
  | Err _ => (false, task)
  | Ok targetHash =>
      if String.eqb targetHash "" then (false, task)
      else
        let '(targetAlgo, cleanTarget) := ParseHashString targetHash in
        let srcHash := bestSourceHash task in
        let srcHash :=
          match t_WorkerHash task with
          | Some w =>
              if String.eqb (ParseHashString w).1 targetAlgo
                 && negb (String.eqb (ParseHashString srcHash).1 targetAlgo)
              then w else srcHash
          | None => srcHash
          end in
        if String.eqb srcHash "" then (false, task)
        else
          let '(sourceAlgo, cleanSource) := ParseHashString srcHash in
          if isComparableHash sourceAlgo && isComparableHash targetAlgo
             && String.eqb sourceAlgo targetAlgo && String.eqb cleanSource cleanTarget
          then (true, mkTask (t_SourceHash task) (t_WorkerHash task) (Some targetHash) true)
          else (false, task)
  end.
End Verify.

(** ** The stack hands out the source *)

Section Stack_facts.
Context {R L : Type} (read : read_op R) (content : R -> bytes) `{!Source read content}.

(** A throttler's own errors are not the end of the stream. *)
Definition throttler_ok (t : option (throttler (L := L))) : Prop :=
  match t with
  | None => True
  | Some t => (forall l, ctx_err t l <> Some EOF)
      /\ (forall l lm n l', current t l = Some lm -> WaitN lm l n <> (Some EOF, l'))
  end.

Definition base_content (h : R * L) : bytes := content h.1.

Lemma download_source down :
  throttler_ok down -> Source (download_read read down) base_content.
Proof.
  destruct down as [t|].
  - intros [Hc Hw]. exact (throttled_source read content (ctx_err t) (current t) Hc Hw).
  - intros _. unfold download_read, maybe_throttled, base_content.
    assert (forall (h : R * L) n d e h',
      (let '(d, e, q) := read h.1 n in (d, e, (q, h.2))) = (d, e, h') ->
      read h.1 n = (d, e, h'.1)) as Hstep.
    { intros [r l] n d e h'. cbn [fst snd]. destruct (read r n) as [[d1 e1] r1]. intros H. by simplify_eq. }
    split; intros * Hn H; apply Hstep in H.
    + exact (source_split (content := content) _ _ _ _ _ Hn H).
    + exact (source_fits (content := content) _ _ _ _ _ Hn H).
    + exact (source_eof (content := content) _ _ _ _ Hn H).
Qed.

(** From one state of the stack to another that handed out [d]. *)
Definition advanced (st st' : upload_state R L) (d : bytes) : Prop :=
  base_content (er_r st.1.1) = d ++ base_content (er_r st'.1.1)
  /\ st'.1.2 = st.1.2 ++ d
  /\ er_read st'.1.1 = er_read st.1.1 + zlen d
  /\ expected st'.1.1 = expected st.1.1 /\ complete st'.1.1 = complete st.1.1.

Lemma advanced_refl st : advanced st st [].
Proof. unfold advanced. change (zlen []) with 0. rewrite app_nil_r. split_and!; done || lia. Qed.

Lemma advanced_trans st1 st2 st3 d d' :
  advanced st1 st2 d -> advanced st2 st3 d' -> advanced st1 st3 (d ++ d').
Proof.
  intros (A1 & A2 & A3 & A4 & A5) (B1 & B2 & B3 & B4 & B5). unfold advanced.
  rewrite A1, B1, B2, A2, zlen_app, <- !app_assoc. split_and!; done || lia || congruence.
Qed.

Lemma upload_step down up st n d e st' :
  throttler_ok down -> 0 <= n -> upload_read read down up st n = (d, e, st') ->
  advanced st st' d.
Proof.
  intros Hd Hn. pose proof (download_source down Hd) as Hsrc.
  assert (forall h m d e h', 0 <= m ->
    tee_Read (expected_Read (download_read read down)) h m = (d, e, h') ->
    forall l l', advanced (h, l) (h', l') d) as Htee.
  { intros [er hashed] m d0 e0 h' Hm. unfold tee_Read. cbn [fst snd].
    destruct (expected_Read _ er m) as [[d1 e1] er1] eqn:E. intros H l l'. simplify_eq.
    apply (expected_step (download_read read down) base_content) in E
      as (_ & _ & _ & Hr & Hx & Hc & _ & Hs); [|done].
    unfold advanced. cbn [fst snd]. by split_and!. }
  destruct st as [h l]. unfold upload_read, maybe_throttled. destruct up as [t|].
  2: { cbn [fst snd]. destruct (tee_Read _ h n) as [[d1 e1] h1] eqn:E. intros H. simplify_eq.
    by eapply Htee. }
  unfold throttled_Read. destruct (ctx_err t l); [intros H; simplify_eq; apply advanced_refl|].
  destruct (n =? 0).
  { destruct (tee_Read _ h n) as [[d1 e1] h1] eqn:E. intros H. simplify_eq. by eapply Htee. }
  destruct (current t l) as [lm|].
  2: { destruct (tee_Read _ h n) as [[d1 e1] h1] eqn:E. intros H. simplify_eq. by eapply Htee. }
  set (m := if (0 <? Burst lm) && (Burst lm <? n) then Burst lm else n).
  assert (0 <= m) as Hm.
  { unfold m. destruct (0 <? Burst lm) eqn:E1, (Burst lm <? n) eqn:E2; cbn [andb]; lia. }
  destruct (WaitN lm l m) as [[e1|] l1].
  - intros H. simplify_eq. apply (advanced_refl (h, l)).
  - destruct (tee_Read _ h m) as [[d1 e1] h1] eqn:E. intros H. simplify_eq. by eapply Htee.
Qed.

Lemma upload_run {A} (c : consumer A) down up st a d es st' :
  throttler_ok down -> run_consumer (upload_read read down up) c st = (a, d, es, st') ->
  advanced st st' d.
Proof.
  intros Hd. revert st a d es st'. induction c as [a0|n k IH]; intros st a d es st';
    cbn [run_consumer]; [intros H; simplify_eq; apply advanced_refl|].
  destruct (upload_read read down up st (Z.max 0 n)) as [[d1 e1] st1] eqn:E1.
  destruct (run_consumer _ (k d1 e1) st1) as [[[a2 d2] es2] st2] eqn:E2.
  intros H. simplify_eq. eapply advanced_trans; [|by eapply IH].
  eapply upload_step; [done| |exact E1]. lia.
Qed.
End Stack_facts.

Lemma verify_attempts_ok {T} (tgt : target (T := T)) n last path t v t' :
  (forall v, last <> Ok v) \/ (0 < n)%nat ->
  verify_attempts tgt n last path t = (Ok v, t') -> exists t1, FileExists tgt t1 path = (Ok v, t').
Proof.
  revert last t. induction n as [|n IH]; intros last t Hl; cbn [verify_attempts].
  - intros H. simplify_eq. destruct Hl as [Hl|]; [by destruct (Hl v)|lia].
  - destruct (FileExists tgt t path) as [[v1|e1] t1] eqn:E; [intros H; simplify_eq; by exists t|].
    apply IH. left. done.
Qed.

Lemma check_target_ok {T} (tgt : target (T := T)) req t t' :
  check_target tgt req t = (None, t') -> ResourceType req = "files" ->
  exists t1, FileExists tgt t1
    (if String.eqb (VerificationPath req) "" then TargetPath req else VerificationPath req)
    = (Ok (true, FileSize req), t').
Proof.
  intros H Hf. unfold check_target in H. rewrite Hf in H. cbn [String.eqb] in H.
  destruct (verifyTargetSize _ _ _) as [[[x size]|e] t1] eqn:E; [|done].
  destruct x; [|done]. destruct (size =? FileSize req) eqn:Es; [|done]. cbn in H. simplify_eq.
  apply Z.eqb_eq in Es as ->. eapply verify_attempts_ok, E. right. lia.
Qed.

(** An upload without an error whose size check passed handed over and hashed all of the
    source, and the source has the size. *)
Lemma upload_all {R L A} (read : read_op R) (content : R -> bytes) `{!Source read content} (c : consumer (option string * A)) down up (l0 : L)
    stream size t1 d es reader reader' hashed l :
  throttler_ok down -> 0 <= size ->
  run_consumer (upload_read read down up) c (newExpectedSizeReader (stream, l0) size, [], l0) = ((None, t1), d, es, (reader, hashed, l)) ->
  VerifyComplete (download_read read down) reader = (Ok tt, reader') ->
  d = content stream /\ hashed = content stream /\ zlen (content stream) = size.
Proof.
  intros Hd Hsz Er Ev.
  pose proof (upload_run read content c down up _ _ _ _ _ Hd Er) as (H1 & H2 & H3 & H4 & H5).
  cbn [fst snd newExpectedSizeReader er_r er_read expected complete app] in *.
  pose proof (download_source read content down Hd) as Hsrc.
  apply (f_equal fst) in Ev. cbn [fst] in Ev.
  apply (verify_complete_end (download_read read down) (base_content content)) in Ev as [He1 He2];
    [|done].
  rewrite He1, app_nil_r in H1. unfold base_content in H1. cbn [fst] in H1. subst d.
  split_and!; done || lia.
Qed.

(** What the success of the core goes through: the whole stream is uploaded and
    hashed, the promotion succeeds, and the size is confirmed. *)
Lemma transfer_core_ok `{GoUnicode} {R L T} (read : read_op R) (content : R -> bytes)
    `{!Source read content} StreamDownload (tgt : target (T := T)) down up (l0 : L) Finalize
    req t result t' :
  throttler_ok down -> 0 <= FileSize req ->
  runTransferCore read StreamDownload tgt down up l0 Finalize req t = (Ok result, t') ->
  exists stream t1 es st t2, StreamDownload (SourcePath req) = Ok stream
    /\ zlen (content stream) = FileSize req
    /\ run_consumer (upload_read read down up)
         (if chunkedUploadThreshold <? FileSize req
          then StreamUploadChunked tgt t (TargetPath req) (FileSize req) (announced_checksum req)
          else StreamUpload tgt t (TargetPath req) (FileSize req) (announced_checksum req))
         (newExpectedSizeReader (stream, l0) (FileSize req), [], l0)
       = ((None, t1), content stream, es, st)
    /\ run_finalize Finalize t1 = (None, t2) /\ check_target tgt req t2 = (None, t')
    /\ SourceHasher result = content stream
    /\ match TargetHasher result with
       | None => TargetAlgorithm result = SourceAlgorithm result
       | Some h => h = content stream
       end.
Proof.
  intros Hd Hsz. unfold runTransferCore, announced_checksum. destruct (StreamDownload _) as [stream|]; [|done].
  destruct (transferSourceHasher _ _) as [sourceAlgo expectedHash].
  match goal with |- context [run_consumer _ ?u _] => set (upload := u) end.
  destruct (run_consumer _ upload _) as [[[[uploadErr t1] d] es] [[reader hashed] l]] eqn:Er.
  destruct uploadErr; [done|].
  destruct (VerifyComplete _ reader) as [[u|e] reader'] eqn:Ev; [|done].
  destruct (run_finalize Finalize t1) as [[e|] t2] eqn:Ef; [done|].
  destruct (check_target tgt req t2) as [[e|] t3] eqn:Ec; [done|]. intros Hok. simplify_eq.
  destruct u. destruct (upload_all read content upload down up l0 stream (FileSize req) t1 d es reader reader' hashed l Hd Hsz Er Ev)
    as (-> & -> & Hz).
  exists stream, t1, es, (reader, content stream, l), t2. cbn [SourceHasher TargetHasher TargetAlgorithm SourceAlgorithm].
  split_and!; try done.
  destruct (String.eqb sourceAlgo _) eqn:Ea; [|done]. by apply String.eqb_eq in Ea.
Qed.

(** C16: a successful transfer moved and hashed exactly the source.  If the transfer core
    reports success, the download of the source path opened a stream of the indexed size;
    the target's upload to the target path - chunked above the threshold, with the
    indexed size and checksum announced - was handed all of it and ended without an error;
    the hashers saw all of it; the finalization ran on what that upload left and
    succeeded; and for files the target answered last, about the path to verify, that it
    holds that many bytes. *)
Theorem transfer_complete `{GoUnicode} {R L T} (read : read_op R) (content : R -> bytes)
    `{!Source read content} StreamDownload (tgt : target (T := T)) down up (l0 : L) Finalize
    req t result t' :
  throttler_ok down -> 0 <= FileSize req ->
  runTransferCore read StreamDownload tgt down up l0 Finalize req t = (Ok result, t') ->
  exists stream t1 es st t2, StreamDownload (SourcePath req) = Ok stream
    /\ zlen (content stream) = FileSize req
    /\ run_consumer (upload_read read down up)
         (if chunkedUploadThreshold <? FileSize req
          then StreamUploadChunked tgt t (TargetPath req) (FileSize req) (announced_checksum req)
          else StreamUpload tgt t (TargetPath req) (FileSize req) (announced_checksum req))
         (newExpectedSizeReader (stream, l0) (FileSize req), [], l0)
       = ((None, t1), content stream, es, st)
    /\ SourceHasher result = content stream
    /\ match TargetHasher result with
       | None => TargetAlgorithm result = SourceAlgorithm result
       | Some h => h = content stream
       end
    /\ run_finalize Finalize t1 = (None, t2)
    /\ (ResourceType req = "files" -> exists t3, FileExists tgt t3
          (if String.eqb (VerificationPath req) "" then TargetPath req else VerificationPath req)
          = (Ok (true, FileSize req), t')).
Proof.
  intros Hd Hsz Hrun. destruct (transfer_core_ok read content StreamDownload tgt down up l0 Finalize req t result t' Hd Hsz Hrun)
    as (stream & t1 & es & st & t2 & H1 & H2 & H3 & H4 & H5 & H6 & H7).
  exists stream, t1, es, st, t2. split_and!; try done. intros Hf. by eapply check_target_ok.
Qed.

(** An inline verification compares like with like.  It marks a task verified
    only if the target's checksum and a checksum recorded for the task - the
    indexed one or the one computed while streaming - are of the same comparable
    algorithm with the same value, and otherwise leaves the task as it was. *)
Theorem inline_verify_sound `{GoUnicode} task hash b task' :
  tryInlineHashVerify task hash = (b, task') ->
  if b then exists targetHash srcHash algo value, hash = Ok targetHash
      /\ (t_SourceHash task = Some srcHash \/ t_WorkerHash task = Some srcHash)
      /\ ParseHashString targetHash = (algo, value) /\ ParseHashString srcHash = (algo, value)
      /\ isComparableHash algo = true /\ t_ChecksumVerified task' = true
      /\ t_TargetHash task' = Some targetHash
  else task' = task.
Proof.
  unfold tryInlineHashVerify. destruct hash as [targetHash|]; [|by intros [= <- <-]].
  destruct (String.eqb targetHash ""); [by intros [= <- <-]|].
  destruct (ParseHashString targetHash) as [targetAlgo cleanTarget] eqn:Et.
  set (src := match t_WorkerHash task with Some w => _ | None => _ end).
  destruct (String.eqb src "") eqn:Es; [by intros [= <- <-]|].
  destruct (ParseHashString src) as [sourceAlgo cleanSource] eqn:Ep.
  destruct (_ && _) eqn:Ec; intros [= <- <-]; [|done].
  apply andb_prop in Ec as [Ec Ev]. apply andb_prop in Ec as [Ec Ea].
  apply andb_prop in Ec as [Ec1 Ec2]. apply String.eqb_eq in Ev as ->, Ea as ->.
  exists targetHash, src, targetAlgo, cleanTarget. split_and!; try done.
  assert (bestSourceHash task <> "" ->
    t_SourceHash task = Some (bestSourceHash task) \/ t_WorkerHash task = Some (bestSourceHash task)) as Hb.
  { unfold bestSourceHash.
    destruct (t_SourceHash task) as [s|], (t_WorkerHash task) as [w|]; cbn [default];
      repeat case_match; auto; intros; try done. }
  apply String.eqb_neq in Es. unfold src in *.
  destruct (t_WorkerHash task) as [w|]; [|by apply Hb].
  destruct (_ && _); [by right|by apply Hb].
Qed.

(** ** Witnesses *)

(** A target that stores the body it reads. *)
Fixpoint drain (fuel : nat) (acc : bytes) : consumer (option string * bytes) :=
  match fuel with
  | O => Done (Some "timeout", acc)
  | S fuel => ReadMore 4 (fun d e =>
      match e with
      | None => drain fuel (acc ++ d)
      | Some EOF => Done (None, acc ++ d)
      | Some _ => Done (Some "read", acc ++ d)
      end)
  end.

Definition store_target : target (T := bytes) :=
  mkTarget (fun _ _ _ _ => drain 9 []) (fun _ _ _ _ => drain 9 []) (fun t _ => (Ok (true, zlen t), t)).

Definition store_request : transferRequest :=
  mkRequest "local" "onedrive" "files" "/a.txt" "/b.txt" "" 6 "".

Lemma transfer_complete_witness :
  let _ := ascii_tables in
  let body := [[x41; x42; x43]; [x44; x45; x46]] in
  runTransferCore chunk_read (fun _ => Ok body) store_target None None tt None store_request []
  = (Ok (mkResult "SHA1" (concat body) "QUICKXOR" (Some (concat body))), concat body)
  /\ exists stream t1 es st,
       Ok (A := list bytes) (E := string) body = Ok stream /\ zlen (concat stream) = 6
       /\ run_consumer (upload_read chunk_read None None) (StreamUpload store_target [] "/b.txt" 6 None)
            (newExpectedSizeReader (stream, tt) 6, [], tt) = ((None, t1), concat stream, es, st).
Proof.
  cbn zeta. set (body := [[x41; x42; x43]; [x44; x45; x46]]).
  assert (runTransferCore (H := ascii_tables) chunk_read (fun _ => Ok body) store_target None None tt
    None store_request [] = (Ok (mkResult "SHA1" (concat body) "QUICKXOR" (Some (concat body))),
    concat body)) as Hrun by (vm_compute; reflexivity).
  split; [exact Hrun|].
  destruct (transfer_complete (H := ascii_tables) chunk_read (@concat byte) (fun _ => Ok body)
    store_target None None tt None store_request [] _ _ I ltac:(done) Hrun)
    as (stream & t1 & es & st & t2 & Hs & Hz & Hr & _).
  exists stream, t1, es, st. split; [exact Hs|]. split; [exact Hz|exact Hr].
Defined.

Lemma inline_verify_sound_witness :
  let _ := ascii_tables in
  let task := mkTask (Some "ETAG:x") (Some "SHA1:AB") None false in
  (tryInlineHashVerify task (Ok "sha-1:ab")).1 = true
  /\ exists targetHash srcHash algo value, Ok (E := string) "sha-1:ab" = Ok targetHash
      /\ (t_SourceHash task = Some srcHash \/ t_WorkerHash task = Some srcHash)
      /\ ParseHashString targetHash = (algo, value) /\ ParseHashString srcHash = (algo, value).
Proof.
  cbn zeta. split; [reflexivity|].
  destruct (inline_verify_sound (H := ascii_tables) (mkTask (Some "ETAG:x") (Some "SHA1:AB") None false)
    (Ok "sha-1:ab") true _ eq_refl) as (h & s & a & v & H1 & H2 & H3 & H4 & _).
  exists h, s, a, v. by split_and!.
Defined.
