(* ===== verification/Overwrite.v ===== *)
(** * Promoting an overwrite

    useTempThenRename, overwriteBackupPath, cleanupStagingUpload and
    promoteOverwrite of src/backend/internal/processor/processor.go.  The code is
    a program over the operations of the target; the target is a store of paths
    in which an operation may fail before or after taking effect, and a run may
    stop between any two operations. *)

From S2P Require Import Prelude.

(** ** Programs over a target *)

Inductive target_prog (A : Type) :=
| Return (a : A)
| FileExists (path : string) (k : res string bool -> target_prog A)
| DeleteFile (path : string) (k : res string unit -> target_prog A)
| RenameFile (old new : string) (k : res string unit -> target_prog A).
Arguments Return {A} a.
Arguments FileExists {A} path k.
Arguments DeleteFile {A} path k.
Arguments RenameFile {A} old new k.

Section Store.
Context {F : Type}.

Abbreviation store := (gmap string F).

Definition rename_effect (old new : string) (fs : store) : store :=
  match fs !! old with Some c => <[new := c]> (delete old fs) | None => fs end.

(** One operation of a run, with every outcome the target may give. *)
Inductive target_step {A} : target_prog A * store -> target_prog A * store -> Prop :=
| exists_answer path k fs :
    target_step (FileExists path k, fs) (k (Ok (bool_decide (is_Some (fs !! path)))), fs)
| exists_error path k fs e : target_step (FileExists path k, fs) (k (Err e), fs)
| delete_done path k fs : target_step (DeleteFile path k, fs) (k (Ok tt), delete path fs)
| delete_error path k fs e : target_step (DeleteFile path k, fs) (k (Err e), fs)
| delete_error_late path k fs e : target_step (DeleteFile path k, fs) (k (Err e), delete path fs)
| rename_done old new k fs :
    is_Some (fs !! old) ->
    target_step (RenameFile old new k, fs) (k (Ok tt), rename_effect old new fs)
| rename_error old new k fs e : target_step (RenameFile old new k, fs) (k (Err e), fs)
| rename_error_late old new k fs e :
    target_step (RenameFile old new k, fs) (k (Err e), rename_effect old new fs).

(** What holds at every point of every run, and at its end. *)
Fixpoint always {A} (Q : store -> Prop) (post : A -> store -> Prop) (p : target_prog A) (fs : store)
    : Prop :=
  Q fs /\
  match p with
  | Return a => post a fs
  | FileExists path k =>
      always Q post (k (Ok (bool_decide (is_Some (fs !! path))))) fs
      /\ forall e, always Q post (k (Err e)) fs
  | DeleteFile path k =>
      always Q post (k (Ok tt)) (delete path fs)
      /\ forall e, always Q post (k (Err e)) fs /\ always Q post (k (Err e)) (delete path fs)
  | RenameFile old new k =>
      (is_Some (fs !! old) -> always Q post (k (Ok tt)) (rename_effect old new fs))
      /\ forall e, always Q post (k (Err e)) fs
          /\ always Q post (k (Err e)) (rename_effect old new fs)
  end.

Lemma always_now {A} Q post (p : target_prog A) fs : always Q post p fs -> Q fs.
Proof. by destruct p; intros []. Qed.

Lemma always_reach {A} Q post (p : target_prog A) fs p' fs' :
  always Q post p fs -> rtc target_step (p, fs) (p', fs') -> always Q post p' fs'.
Proof.
  intros Ha Hr. remember (p, fs) as s eqn:Es. remember (p', fs') as s' eqn:Es'.
  revert p fs Es Ha. induction Hr as [s|s1 s2 s3 Hstep Hr IH]; intros p fs Es Ha; subst.
  { by simplify_eq. }
  destruct s2 as [p2 fs2]. apply (IH eq_refl p2 fs2 eq_refl).
  inversion Hstep; subst; cbn in Ha; naive_solver.
Qed.
End Store.

(** ** The code *)

Definition useTempThenRename (supportsAtomicRename deleteAfterUpload : bool) : bool :=
  deleteAfterUpload && supportsAtomicRename.

Definition overwriteBackupPath (targetPath taskID : string) : string :=
  let taskID := if (8 <? String.length taskID)%nat then str_take 8 taskID else taskID in
  (targetPath +:+ ".bak-" +:+ taskID)%string.

(** A failed cleanup is only logged. *)
Definition cleanupStagingUpload {A} (uploadPath : string) (k : target_prog A) : target_prog A :=
  DeleteFile uploadPath (fun _ => k).

Definition finish_promotion (backupPath : string) (originalBackedUp : bool)
    : target_prog (res string unit) :=
  if originalBackedUp then
    DeleteFile backupPath (fun r =>
      match r with
      | Err e => Return (Err "overwrite promoted target but failed to remove preserved backup")
      | Ok _ => Return (Ok tt)
      end)
  else Return (Ok tt).

Definition promote_upload (targetPath uploadPath backupPath : string) (originalBackedUp : bool)
    : target_prog (res string unit) :=
  RenameFile uploadPath targetPath (fun r =>
    match r with
    | Err e =>
        cleanupStagingUpload uploadPath
          (if originalBackedUp then
             RenameFile backupPath targetPath (fun r =>
               match r with
               | Err e => Return (Err "failed to restore preserved target")
               | Ok _ => Return (Err "failed to promote temporary upload; preserved target restored")
               end)
           else Return (Err "failed to promote temporary upload"))
    | Ok _ => finish_promotion backupPath originalBackedUp
    end).

Definition preserve_target (targetPath uploadPath backupPath : string)
    : target_prog (res string unit) :=
  RenameFile targetPath backupPath (fun r =>
    match r with
    | Err e => Return (Err "failed to preserve existing target before overwrite promotion")
    | Ok _ => promote_upload targetPath uploadPath backupPath true
    end).

Definition promoteOverwrite (targetPath uploadPath backupPath : string)
    : target_prog (res string unit) :=
  FileExists targetPath (fun r =>
    match r with
    | Err e => Return (Err "failed to check target before overwrite promotion")
    | Ok false => promote_upload targetPath uploadPath backupPath false
    | Ok true =>
        FileExists backupPath (fun r =>
          match r with
          | Err e => Return (Err "failed to check overwrite backup path")
          | Ok true =>
              DeleteFile backupPath (fun r =>
                match r with
                | Err e => Return (Err "recovery backup already exists and cleanup failed")
                | Ok _ => preserve_target targetPath uploadPath backupPath
                end)
          | Ok false => preserve_target targetPath uploadPath backupPath
          end)
    end).

(** ** No data is lost *)

Section Promotion.
Context {F : Type} (T U B : string) (HTU : T <> U) (HTB : T <> B) (HUB : U <> B).
Context (fs0 : gmap string F).

(** The replaced content is in place, preserved, or the new one is in place;
    the backup of an earlier attempt goes only while a target is in place; other
    paths are as they were. *)
Definition promotion_safe (fs : gmap string F) : Prop :=
  (forall old, fs0 !! T = Some old ->
    fs !! T = Some old \/ fs !! B = Some old \/ (is_Some (fs0 !! U) /\ fs !! T = fs0 !! U))
  /\ (fs0 !! T = None -> fs !! B = fs0 !! B)
  /\ (forall p, p <> T -> p <> U -> p <> B -> fs !! p = fs0 !! p).

(** Success means promoted: nothing of the attempt is left. *)
Definition promotion_post (r : res string unit) (fs : gmap string F) : Prop :=
  match r with
  | Err _ => True
  | Ok _ => is_Some (fs0 !! U) /\ fs !! T = fs0 !! U /\ fs !! U = None
      /\ (is_Some (fs0 !! T) -> fs !! B = None)
  end.

(** The keys of the three paths after an operation. *)
Lemma rename_effect_lookup (a b : string) (fs : gmap string F) c q :
  fs !! a = Some c -> a <> b ->
  rename_effect a b fs !! q
  = if decide (q = b) then Some c else if decide (q = a) then None else fs !! q.
Proof.
  intros Ha Hab. unfold rename_effect. rewrite Ha.
  destruct (decide (q = b)) as [->|]; [by rewrite lookup_insert_eq|].
  rewrite lookup_insert_ne by done.
  destruct (decide (q = a)) as [->|]; [by rewrite lookup_delete_eq|by rewrite lookup_delete_ne].
Qed.

Lemma rename_effect_none (a b : string) (fs : gmap string F) :
  fs !! a = None -> rename_effect a b fs = fs.
Proof. intros Ha. unfold rename_effect. by rewrite Ha. Qed.

Lemma delete_lookup (a : string) (fs : gmap string F) q :
  delete a fs !! q = if decide (q = a) then None else fs !! q.
Proof.
  destruct (decide (q = a)) as [->|]; [by rewrite lookup_delete_eq|by rewrite lookup_delete_ne].
Qed.

(** The contents of T, U and B, the rest as at the start. *)
Definition holding (t u b : option F) (fs : gmap string F) : Prop :=
  fs !! T = t /\ fs !! U = u /\ fs !! B = b
  /\ forall p, p <> T -> p <> U -> p <> B -> fs !! p = fs0 !! p.

Ltac holding_solve :=
  intros; unfold holding in *; destruct_and?;
  repeat match goal with
  | |- context [rename_effect ?a ?b ?fs] =>
      first [rewrite (rename_effect_none a b fs) by congruence
            |erewrite !(rename_effect_lookup a b fs) by (try eassumption; congruence)]
  end;
  split_and!; intros; rewrite ?delete_lookup;
  repeat (erewrite rename_effect_lookup by (try eassumption; congruence));
  repeat case_decide; subst; try congruence; eauto.

Lemma holding_delete_U t u b fs : holding t u b fs -> holding t None b (delete U fs).
Proof. holding_solve. Qed.

Lemma holding_delete_B t u b fs : holding t u b fs -> holding t u None (delete B fs).
Proof. holding_solve. Qed.

Lemma holding_T_to_B c u b fs : holding (Some c) u b fs -> holding None u (Some c) (rename_effect T B fs).
Proof. holding_solve. Qed.

Lemma holding_U_to_T t c b fs : holding t (Some c) b fs -> holding (Some c) None b (rename_effect U T fs).
Proof. holding_solve. Qed.

Lemma holding_B_to_T t u c fs : holding t u (Some c) fs -> holding (Some c) u None (rename_effect B T fs).
Proof. holding_solve. Qed.

Lemma holding_U_to_T_none t b fs : holding t None b fs -> holding t None b (rename_effect U T fs).
Proof. intros H. rewrite rename_effect_none; [done|]. by destruct H as (_ & -> & _). Qed.

Lemma holding_B_to_T_none t u fs : holding t u None fs -> holding t u None (rename_effect B T fs).
Proof. intros H. rewrite rename_effect_none; [done|]. by destruct H as (_ & _ & -> & _). Qed.

Lemma holding_start fs : fs = fs0 -> holding (fs0 !! T) (fs0 !! U) (fs0 !! B) fs.
Proof. by intros ->. Qed.

Lemma holding_safe t u b fs :
  holding t u b fs ->
  (forall old, fs0 !! T = Some old ->
    t = Some old \/ b = Some old \/ (is_Some (fs0 !! U) /\ t = fs0 !! U)) ->
  (fs0 !! T = None -> b = fs0 !! B) -> promotion_safe fs.
Proof. intros (<- & _ & <- & Hf) H1 H2. by split_and!. Qed.

Lemma promotion_safe_start : promotion_safe fs0.
Proof. split_and!; auto. Qed.

#[local] Opaque promotion_safe.

Abbreviation safe_run := (always promotion_safe promotion_post).

Lemma safe_return_err fs e : promotion_safe fs -> safe_run (Return (Err e)) fs.
Proof. done. Qed.

(** With the original preserved: promotion, rollback and clean-up. *)
Lemma finish_promotion_safe c fs b :
  holding (Some c) None b fs -> fs0 !! U = Some c ->
  (fs0 !! T = None -> b = fs0 !! B) ->
  forall backed, (is_Some (fs0 !! T) <-> backed = true) ->
  safe_run (finish_promotion B backed) fs.
Proof.
  intros Hh Hu Hb backed Hbk.
  assert (forall b', (fs0 !! T = None -> b' = fs0 !! B) -> forall fs', holding (Some c) None b' fs' ->
    promotion_safe fs') as Hs.
  { intros b' Hb' fs' Hh'. eapply holding_safe; [done| |done]. intros. right; right. by rewrite Hu. }
  destruct backed; cbn.
  - assert (is_Some (fs0 !! T)) as [old Hold] by tauto.
    pose proof (holding_delete_B _ _ _ _ Hh) as Hd.
    assert (promotion_safe (delete B fs)) by (eapply Hs, Hd; congruence).
    assert (promotion_post (Ok tt) (delete B fs)) as Hpost.
    { destruct Hd as (H1 & H2 & H3 & _). unfold promotion_post. rewrite Hu. by split_and!. }
    pose proof (Hs b Hb fs Hh). split; [done|]. split; [by split|]. intros e. split; by split.
  - split; [by eapply Hs|]. destruct Hh as (H1 & H2 & _).
    unfold promotion_post. rewrite Hu. split_and!; try done. intros Hx. by apply Hbk in Hx.
Qed.

Lemma promote_backed_safe old fs :
  fs0 !! T = Some old -> holding None (fs0 !! U) (Some old) fs ->
  safe_run (promote_upload T U B true) fs.
Proof.
  intros Hold Hh.
  assert (forall t u b fs', holding t u b fs' -> t = Some old \/ b = Some old -> promotion_safe fs') as Hs.
  { intros t u b fs' Hh' Hor. eapply holding_safe; [done| |congruence]. intros o Ho.
    assert (o = old) as -> by congruence. tauto. }
  (** After the promotion failed, whatever the upload path holds now. *)
  assert (forall t u fs', holding t u (Some old) fs' -> t = None \/ t = Some old \/ t = fs0 !! U ->
    safe_run (cleanupStagingUpload U (RenameFile B T (fun r =>
      match r with
      | Err e => Return (Err "failed to restore preserved target")
      | Ok _ => Return (Err "failed to promote temporary upload; preserved target restored")
      end))) fs') as Hroll.
  { intros t u fs' Hh' Ht.
    pose proof (holding_delete_U _ _ _ _ Hh') as Hd.
    pose proof (holding_B_to_T _ _ _ _ Hh') as Hr. pose proof (holding_B_to_T _ _ _ _ Hd) as Hdr.
    cbn. split_and!; intros; split_and?; intros; split_and?; try done;
      (eapply Hs; [eassumption|]; auto). }
  unfold promote_upload. cbn [always]. split; [eapply Hs; [done|by right]|].
  destruct (fs0 !! U) as [c|] eqn:Hu.
  - pose proof (holding_U_to_T _ _ _ _ Hh) as Hp. split.
    + intros _. eapply finish_promotion_safe; [exact Hp|done|congruence|]. rewrite Hold. by split.
    + intros e. split.
      * eapply Hroll; [exact Hh|by left].
      * eapply Hroll; [exact Hp|right; by right].
  - split.
    + intros [c Hc]. destruct Hh as (_ & Hn & _). congruence.
    + intros e. split; [eapply Hroll; [exact Hh|by left]|].
      eapply Hroll; [apply holding_U_to_T_none, Hh|by left].
Qed.

Lemma promote_fresh_safe fs :
  fs0 !! T = None -> holding None (fs0 !! U) (fs0 !! B) fs ->
  safe_run (promote_upload T U B false) fs.
Proof.
  intros Hnone Hh.
  assert (forall t u fs', holding t u (fs0 !! B) fs' -> promotion_safe fs') as Hs.
  { intros t u fs' Hh'. eapply holding_safe; [done|congruence|done]. }
  assert (forall t u fs', holding t u (fs0 !! B) fs' ->
    safe_run (cleanupStagingUpload U (Return (Err "failed to promote temporary upload"))) fs') as Hc.
  { intros t u fs' Hh'. pose proof (holding_delete_U _ _ _ _ Hh') as Hd.
    cbn. split_and!; intros; split_and?; try done; by eapply Hs. }
  unfold promote_upload. cbn [always]. split; [by eapply Hs|].
  destruct (fs0 !! U) as [c|] eqn:Hu.
  - pose proof (holding_U_to_T _ _ _ _ Hh) as Hp. split.
    + intros _. eapply finish_promotion_safe; [exact Hp|done|done|]. rewrite Hnone. split; [intros [x Hx]|]; congruence.
    + intros e. split; by eapply Hc.
  - split.
    + intros [c Hx]. destruct Hh as (_ & Hn & _). congruence.
    + intros e. split; eapply Hc; [exact Hh|apply holding_U_to_T_none, Hh].
Qed.

Lemma preserve_safe old b fs :
  fs0 !! T = Some old -> holding (Some old) (fs0 !! U) b fs ->
  safe_run (preserve_target T U B) fs.
Proof.
  intros Hold Hh. pose proof (holding_T_to_B _ _ _ _ Hh) as Hr.
  assert (promotion_safe fs) as Hs.
  { eapply holding_safe; [done| |congruence]. intros o Ho. left. congruence. }
  assert (promotion_safe (rename_effect T B fs)) as Hs'.
  { eapply holding_safe; [exact Hr| |congruence]. intros o Ho. right; left. congruence. }
  unfold preserve_target. cbn [always]. split; [done|]. split.
  - intros _. by eapply promote_backed_safe.
  - intros e. by split.
Qed.

Lemma promote_overwrite_always : safe_run (promoteOverwrite T U B) fs0.
Proof.
  pose proof promotion_safe_start as Hs. pose proof (holding_start fs0 eq_refl) as Hh.
  unfold promoteOverwrite. cbn [always]. split; [done|]. split; [|done].
  destruct (fs0 !! T) as [old|] eqn:Ht.
  - rewrite bool_decide_true by eauto. cbn [always]. split; [done|]. split; [|done].
    destruct (bool_decide _).
    + pose proof (holding_delete_B _ _ _ _ Hh) as Hd. cbn [always]. split; [done|]. split.
      * by eapply preserve_safe.
      * intros e. split; [done|]. split; [|done]. eapply holding_safe; [exact Hd| |congruence].
        intros o Ho. left. congruence.
    + by eapply preserve_safe.
  - rewrite bool_decide_false by (intros [x Hx]; congruence). by apply promote_fresh_safe.
Qed.
End Promotion.

Lemma str_app_neq s t : t <> "" -> s <> (s +:+ t)%string.
Proof.
  intros Ht He. apply (f_equal String.length) in He. rewrite str_length_app in He.
  destruct t; [done|]. cbn in He. lia.
Qed.

(** C15: promoting an overwrite never loses data.  From any store, wherever the run
    stops and whichever operations fail, before or after taking effect: a target
    that existed is in place, is kept under the backup path, or has been replaced
    by the upload; the backup of an earlier attempt is only touched while a target
    is in place; and no other path changes.  When the promotion reports success,
    the upload is the target and neither it nor the preserved original is left. *)
Theorem promote_overwrite_safe {F} targetPath taskID (fs0 fs : gmap string F) p :
  let T := targetPath in
  let U := (targetPath +:+ ".tmp")%string in
  let B := overwriteBackupPath targetPath taskID in
  rtc target_step (promoteOverwrite T U B, fs0) (p, fs) ->
  (forall old, fs0 !! T = Some old ->
    fs !! T = Some old \/ fs !! B = Some old \/ (is_Some (fs0 !! U) /\ fs !! T = fs0 !! U))
  /\ (fs0 !! T = None -> fs !! B = fs0 !! B)
  /\ (forall q, q <> T -> q <> U -> q <> B -> fs !! q = fs0 !! q)
  /\ (p = Return (Ok tt) ->
      is_Some (fs0 !! U) /\ fs !! T = fs0 !! U /\ fs !! U = None
      /\ (is_Some (fs0 !! T) -> fs !! B = None)).
Proof.
  cbn zeta. intros Hr. unfold overwriteBackupPath in *.
  match type of Hr with context [(_ +:+ (".bak-" +:+ ?i))%string] => set (id := i) in * end.
  apply (always_reach (promotion_safe targetPath (targetPath +:+ ".tmp")%string
    (targetPath +:+ ".bak-" +:+ id)%string fs0)
    (promotion_post targetPath (targetPath +:+ ".tmp")%string
    (targetPath +:+ ".bak-" +:+ id)%string fs0)) in Hr.
  - destruct (always_now _ _ _ _ Hr) as (H1 & H2 & H3). split_and!; try done.
    all: intros ->; by destruct Hr as [_ [Hx Hy]].
  - apply promote_overwrite_always.
    + by apply str_app_neq.
    + by apply str_app_neq.
    + intros He. apply (f_equal (str_drop (String.length targetPath))) in He.
      by rewrite !str_drop_app in He.
Qed.

Lemma promote_overwrite_safe_witness :
  let fs0 := {[ "/a" := 1%Z; "/a.tmp" := 2%Z; "/b" := 3%Z ]} : gmap string Z in
  let fs := {[ "/a.bak-12345678" := 1%Z; "/b" := 3%Z ]} : gmap string Z in
  exists p, rtc target_step (promoteOverwrite "/a" "/a.tmp" "/a.bak-12345678", fs0) (p, fs)
    /\ (fs !! "/a" = Some 1%Z \/ fs !! "/a.bak-12345678" = Some 1%Z
        \/ (is_Some (fs0 !! "/a.tmp") /\ fs !! "/a" = fs0 !! "/a.tmp")).
Proof.
  cbn zeta.
  assert (exists p, rtc target_step (promoteOverwrite "/a" "/a.tmp" "/a.bak-12345678",
      {[ "/a" := 1%Z; "/a.tmp" := 2%Z; "/b" := 3%Z ]} : gmap string Z)
    (p, {[ "/a.bak-12345678" := 1%Z; "/b" := 3%Z ]})) as [p Hr].
  { eexists. eapply rtc_l; [apply exists_answer|]. cbn.
    eapply rtc_l; [apply exists_answer|]. cbn.
    eapply rtc_l; [apply rename_done; by eexists|].
    eapply rtc_l; [apply (rename_error _ _ _ _ "timeout")|].
    eapply rtc_l; [apply delete_done|]. apply rtc_refl. }
  exists p. split; [exact Hr|].
  destruct (promote_overwrite_safe "/a" "1234567890" _ _ p Hr) as (H1 & _). by apply H1.
Defined.
