(* ===== verification/DirCache.v ===== *)
(** * Bounded caches

    boundedDirCache and boundedStringCache of
    src/backend/internal/storage/bounded_cache.go.  The mutex serialises the
    operations; each is one step here. *)

From S2P Require Import Prelude.

(** ** boundedDirCache *)

Record boundedDirCache := mkDirCache {
  m : gmap string bool;
  order : list string;
  index : gmap string nat;
  maxCap : nat;
}.

Definition newBoundedDirCache (cap : Z) : boundedDirCache :=
  mkDirCache ∅ [] ∅ (if cap <=? 0 then 5000 else Z.to_nat cap).

(** [for i := position; i < len(order); i++ { index[order[i]] = i }] *)
Fixpoint reindex (i : nat) (l : list string) (index : gmap string nat) : gmap string nat :=
  match l with
  | [] => index
  | k :: l => reindex (S i) l (<[k := i]> index)
  end.

(** The entry at [position] taken out, the later ones moved down. *)
Definition take_out (position : nat) (l : list string) : list string :=
  take position l ++ drop (S position) l.

Definition touch (c : boundedDirCache) (key : string) : boundedDirCache :=
  let position := default O (index c !! key) in
  if (position =? length (order c) - 1)%nat then c
  else
    let order' := take_out position (order c) ++ [key] in
    mkDirCache (m c) order' (reindex position (drop position order') (index c)) (maxCap c).

Definition Contains (c : boundedDirCache) (key : string) : bool * boundedDirCache :=
  if default false (m c !! key) then (true, touch c key) else (false, c).

(** The oldest entry dropped when the cache is full. *)
Definition evict (c : boundedDirCache) : boundedDirCache :=
  match order c with
  | oldest :: rest =>
      mkDirCache (delete oldest (m c)) rest (reindex 0 rest (delete oldest (index c))) (maxCap c)
  | [] => c
  end.

Definition Add (c : boundedDirCache) (key : string) : boundedDirCache :=
  if default false (m c !! key) then touch c key
  else
    let c := if (maxCap c <=? size (m c))%nat then evict c else c in
    mkDirCache (<[key := true]> (m c)) (order c ++ [key]) (<[key := length (order c)]> (index c))
      (maxCap c).

Definition Remove (c : boundedDirCache) (key : string) : boundedDirCache :=
  match index c !! key with
  | None => c
  | Some position =>
      let order' := take_out position (order c) in
      mkDirCache (delete key (m c)) order'
        (reindex position (drop position order') (delete key (index c))) (maxCap c)
  end.

Inductive cache_op := OpContains (key : string) | OpAdd (key : string) | OpRemove (key : string).

Definition apply_op (c : boundedDirCache) (o : cache_op) : option bool * boundedDirCache :=
  match o with
  | OpContains key => let '(b, c) := Contains c key in (Some b, c)
  | OpAdd key => (None, Add c key)
  | OpRemove key => (None, Remove c key)
  end.

Fixpoint run_ops (c : boundedDirCache) (ops : list cache_op) : list (option bool) * boundedDirCache :=
  match ops with
  | [] => ([], c)
  | o :: ops =>
      let '(b, c) := apply_op c o in let '(bs, c) := run_ops c ops in (b :: bs, c)
  end.

(** ** The specification: a list of keys, least recently used first *)

Definition without (key : string) (l : list string) : list string :=
  filter (fun x => x <> key) l.

Definition spec_op (cap : nat) (l : list string) (o : cache_op) : option bool * list string :=
  match o with
  | OpContains key =>
      if bool_decide (key ∈ l) then (Some true, without key l ++ [key]) else (Some false, l)
  | OpAdd key =>
      (None, if bool_decide (key ∈ l) then without key l ++ [key]
             else (if (cap <=? length l)%nat then drop 1 l else l) ++ [key])
  | OpRemove key => (None, without key l)
  end.

Fixpoint run_spec (cap : nat) (l : list string) (ops : list cache_op)
    : list (option bool) * list string :=
  match ops with
  | [] => ([], l)
  | o :: ops =>
      let '(b, l) := spec_op cap l o in let '(bs, l) := run_spec cap l ops in (b :: bs, l)
  end.

(** ** The cache implements the list *)

(** The maps describe the list of keys. *)
Definition cache_ok (c : boundedDirCache) : Prop :=
  NoDup (order c)
  /\ (forall k b, m c !! k = Some b <-> b = true /\ k ∈ order c)
  /\ (forall k i, index c !! k = Some i <-> order c !! i = Some k)
  /\ (length (order c) <= maxCap c)%nat /\ (0 < maxCap c)%nat.

Lemma reindex_lookup i l idx k :
  NoDup l ->
  (forall j, l !! j = Some k -> reindex i l idx !! k = Some (i + j)%nat)
  /\ (k ∉ l -> reindex i l idx !! k = idx !! k).
Proof.
  revert i idx. induction l as [|x l IH]; intros i idx Hnd; [done|].
  apply NoDup_cons in Hnd as [Hx Hnd]. cbn [reindex].
  destruct (IH (S i) (<[x := i]> idx) Hnd) as [H1 H2]. split.
  - intros [|j] Hj.
    + injection Hj as ->. rewrite H2, lookup_insert_eq by done. by rewrite Nat.add_0_r.
    + rewrite (H1 j Hj). f_equal. lia.
  - intros Hk. apply not_elem_of_cons in Hk as [Hne Hk]. rewrite H2 by done.
    by rewrite lookup_insert_ne.
Qed.

Lemma filter_all (P : string -> Prop) `{!forall x, Decision (P x)} l : Forall P l -> filter P l = l.
Proof. induction 1 as [|x l Hx Hl IH]; [done|]. by rewrite filter_cons_True, IH. Qed.

Lemma take_out_without l i k : NoDup l -> l !! i = Some k -> take_out i l = without k l.
Proof.
  intros Hnd Hi. unfold take_out, without. rewrite <- (take_drop_middle l i k Hi) at 3.
  rewrite <- (take_drop_middle l i k Hi) in Hnd. apply NoDup_app in Hnd as (_ & Hd & Hnd).
  apply NoDup_cons in Hnd as [Hk _].
  rewrite filter_app, filter_cons_False by tauto. f_equal; symmetry; apply filter_all.
  - apply Forall_forall. intros x Hx ->. apply (Hd k Hx). by left.
  - apply Forall_forall. intros x Hx ->. done.
Qed.

Lemma without_NoDup k l : NoDup l -> NoDup (without k l).
Proof. unfold without. apply NoDup_filter. Qed.

Lemma elem_without k l x : x ∈ without k l <-> x <> k /\ x ∈ l.
Proof. unfold without. by rewrite list_elem_of_filter. Qed.

(** The index rebuilt from a position on describes the new order, when it
    described the part before. *)
Lemma reindex_ok p l idx :
  NoDup l ->
  (forall i k, (i < p)%nat -> l !! i = Some k -> idx !! k = Some i) ->
  (forall k i, idx !! k = Some i -> k ∈ l) ->
  forall k i, reindex p (drop p l) idx !! k = Some i <-> l !! i = Some k.
Proof.
  intros Hnd Hlow Hin k i.
  assert (NoDup (drop p l)) as Hd by (eapply sublist_NoDup; [done|apply sublist_drop]).
  destruct (reindex_lookup p (drop p l) idx k Hd) as [H1 H2].
  assert (forall i', l !! i' = Some k -> reindex p (drop p l) idx !! k = Some i') as Hfwd.
  { intros i' Hi'. destruct (decide (i' < p)%nat) as [Hlt|Hge].
    - rewrite H2; [by apply Hlow|]. intros Hk. apply list_elem_of_lookup in Hk as [j Hj].
      rewrite lookup_drop in Hj. pose proof (NoDup_lookup _ _ _ _ Hnd Hi' Hj). lia.
    - replace i' with (p + (i' - p))%nat by lia. apply H1. rewrite lookup_drop.
      by replace (p + (i' - p))%nat with i' by lia. }
  split; [|apply Hfwd]. intros Hk.
  assert (k ∈ l) as Hkl.
  { destruct (decide (k ∈ drop p l)) as [Hkd|Hkd].
    - apply list_elem_of_lookup in Hkd as [j Hj]. rewrite lookup_drop in Hj.
      by eapply list_elem_of_lookup_2.
    - rewrite H2 in Hk by done. by eapply Hin. }
  apply list_elem_of_lookup in Hkl as [i' Hi']. pose proof (Hfwd i' Hi'). congruence.
Qed.

Lemma in_cache c k : cache_ok c -> default false (m c !! k) = bool_decide (k ∈ order c).
Proof.
  intros (_ & Hm & _). destruct (m c !! k) as [b|] eqn:E.
  - apply Hm in E as [-> Hk]. by rewrite bool_decide_true.
  - case_bool_decide as Hk; [|done].
    assert (m c !! k = Some true) by (by apply Hm). congruence.
Qed.

Lemma size_cache c : cache_ok c -> size (m c) = length (order c).
Proof.
  intros (Hnd & Hm & _). assert (dom (m c) = list_to_set (order c)) as Hd.
  { apply set_eq. intros k. rewrite elem_of_dom, elem_of_list_to_set. split.
    - intros [b Hb]. by apply Hm in Hb as [_ ?].
    - intros Hk. exists true. by apply Hm. }
  rewrite <- size_dom, Hd. by apply size_list_to_set.
Qed.

Lemma touch_ok c k :
  cache_ok c -> k ∈ order c ->
  cache_ok (touch c k) /\ order (touch c k) = without k (order c) ++ [k]
  /\ maxCap (touch c k) = maxCap c.
Proof.
  intros (Hnd & Hm & Hi & Hlen & Hcap) Hk. unfold touch.
  apply list_elem_of_lookup in Hk as [p Hp]. pose proof (proj2 (Hi k p) Hp) as Hx. rewrite Hx.
  change (default O (Some p)) with p.
  pose proof (lookup_lt_Some _ _ _ Hp) as Hlt.
  pose proof (take_out_without _ _ _ Hnd Hp) as Hto.
  destruct (p =? length (order c) - 1)%nat eqn:E.
  - apply Nat.eqb_eq in E. split; [exact (conj Hnd (conj Hm (conj Hi (conj Hlen Hcap))))|]. split; [|done].
    rewrite <- Hto. unfold take_out.
    rewrite (drop_ge (order c) (S p)) by lia. rewrite app_nil_r.
    rewrite <- (take_drop_middle (order c) p k Hp) at 1.
    rewrite (drop_ge (order c) (S p)) by lia. done.
  - set (l' := take_out p (order c) ++ [k]).
    assert (forall x, x ∈ l' <-> x ∈ order c) as Hmem.
    { intros x. unfold l'. rewrite Hto, elem_of_app, list_elem_of_singleton, elem_without.
      split; [|destruct (decide (x = k)); tauto].
      intros [[_ ?]| ->]; [done|]. by eapply list_elem_of_lookup_2. }
    assert (NoDup l') as Hnd'.
    { unfold l'. rewrite Hto. apply NoDup_app. split; [by apply without_NoDup|].
      split; [|apply NoDup_singleton]. intros x Hx1 ->%list_elem_of_singleton.
      by apply elem_without in Hx1 as [? _]. }
    assert (length l' = length (order c)) as Hl'.
    { unfold l', take_out. rewrite !length_app, length_take, length_drop. cbn. lia. }
    cbn [order maxCap]. split; [|by unfold l'; rewrite Hto].
    split; [done|]. cbn [m index order maxCap]. split_and!; [|intros x i|lia|done].
    + intros x b. rewrite Hm, Hmem. done.
    + apply reindex_ok; [done| |].
      * intros i' x' Hi' Hx'. apply Hi. unfold l', take_out in Hx'.
        rewrite lookup_app_l in Hx' by (rewrite length_app, length_take; lia).
        rewrite lookup_app_l in Hx' by (rewrite length_take; lia).
        by rewrite lookup_take_lt in Hx' by done.
      * intros x' i' Hx'. apply Hi in Hx'. apply Hmem. by eapply list_elem_of_lookup_2.
Qed.

Lemma evict_ok c x l :
  cache_ok c -> order c = x :: l ->
  cache_ok (evict c) /\ order (evict c) = l /\ maxCap (evict c) = maxCap c.
Proof.
  intros (Hnd & Hm & Hi & Hlen & Hcap) Ho. unfold evict. rewrite Ho in *.
  apply NoDup_cons in Hnd as [Hx Hnd]. split; [|done].
  split; [done|]. cbn [m index order maxCap length] in *. split_and!; [|intros k i|lia|done].
  - intros k b. destruct (decide (k = x)) as [->|Hne].
    + rewrite lookup_delete_eq. split; [done|]. by intros [_ ?].
    + rewrite lookup_delete_ne, Hm by done. rewrite elem_of_cons. tauto.
  - change l with (drop 0 l) at 1. apply reindex_ok; [done|lia|].
    intros x' i' Hx'. destruct (decide (x' = x)) as [->|Hne]; [by rewrite lookup_delete_eq in Hx'|].
    rewrite lookup_delete_ne in Hx' by done. apply Hi in Hx'.
    apply list_elem_of_lookup_2 in Hx'. apply elem_of_cons in Hx' as [|]; [done|done].
Qed.

Lemma append_ok c k :
  cache_ok c -> k ∉ order c -> (length (order c) < maxCap c)%nat ->
  cache_ok (mkDirCache (<[k := true]> (m c)) (order c ++ [k]) (<[k := length (order c)]> (index c))
    (maxCap c)).
Proof.
  intros (Hnd & Hm & Hi & Hlen & Hcap) Hk Hlt. split.
  { cbn. apply NoDup_app. split; [done|]. split; [|apply NoDup_singleton].
    by intros x Hx ->%list_elem_of_singleton. }
  cbn [m index order maxCap]. split_and!; [| |rewrite length_app; cbn; lia|done].
  - intros x b. rewrite elem_of_app, list_elem_of_singleton. destruct (decide (x = k)) as [->|Hne].
    + rewrite lookup_insert_eq. split; [intros [= <-]; tauto|by intros [-> _]].
    + rewrite lookup_insert_ne, Hm by done. tauto.
  - intros x i. destruct (decide (x = k)) as [->|Hne].
    + rewrite lookup_insert_eq. split.
      * intros [= <-]. by rewrite lookup_app_r, Nat.sub_diag.
      * intros Hx. destruct (decide (i < length (order c))%nat) as [Hlt'|Hge].
        -- rewrite lookup_app_l in Hx by done. by apply list_elem_of_lookup_2 in Hx.
        -- rewrite lookup_app_r in Hx by lia. destruct (i - length (order c))%nat eqn:Ei.
           ++ f_equal. lia.
           ++ done.
    + rewrite lookup_insert_ne, Hi by done. split.
      * intros Hx. rewrite lookup_app_l; [done|]. by eapply lookup_lt_Some.
      * intros Hx. apply lookup_app_Some in Hx as [Hx|[_ Hx]]; [done|].
        apply list_lookup_singleton_Some in Hx as [_ ->]. done.
Qed.

Lemma remove_ok c k :
  cache_ok c -> cache_ok (Remove c k) /\ order (Remove c k) = without k (order c)
  /\ maxCap (Remove c k) = maxCap c.
Proof.
  intros Hc. pose proof Hc as (Hnd & Hm & Hi & Hlen & Hcap). unfold Remove.
  destruct (index c !! k) as [p|] eqn:Hx.
  2: { split; [done|]. split; [|done]. symmetry. apply filter_all. apply Forall_forall.
       intros x Hx1 ->. apply list_elem_of_lookup in Hx1 as [j Hj]. apply Hi in Hj. congruence. }
  pose proof (proj1 (Hi k p) Hx) as Hp. pose proof (take_out_without _ _ _ Hnd Hp) as Hto.
  pose proof (lookup_lt_Some _ _ _ Hp) as Hlt. cbn [order maxCap]. rewrite Hto.
  split; [|done]. split; [by apply without_NoDup|]. cbn [m index order maxCap].
  split_and!; [|intros x i| |done].
  - intros x b. rewrite elem_without. destruct (decide (x = k)) as [->|Hne].
    + rewrite lookup_delete_eq. split; [done|tauto].
    + rewrite lookup_delete_ne, Hm by done. tauto.
  - apply reindex_ok; [by apply without_NoDup| |].
    + intros i' x' Hi' Hx'. rewrite <- Hto in Hx'. unfold take_out in Hx'.
      rewrite lookup_app_l in Hx' by (rewrite length_take; lia).
      rewrite lookup_take_lt in Hx' by done.
      rewrite lookup_delete_ne; [by apply Hi|]. intros <-.
      pose proof (NoDup_lookup _ _ _ _ Hnd Hp Hx'). lia.
    + intros x' i' Hx'. apply elem_without. destruct (decide (x' = k)) as [->|Hne].
      * by rewrite lookup_delete_eq in Hx'.
      * rewrite lookup_delete_ne in Hx' by done. apply Hi in Hx'. split; [done|].
        by eapply list_elem_of_lookup_2.
  - rewrite <- Hto. unfold take_out. rewrite length_app, length_take, length_drop. lia.
Qed.

Lemma apply_op_ok c o :
  cache_ok c ->
  cache_ok (apply_op c o).2 /\ maxCap (apply_op c o).2 = maxCap c
  /\ ((apply_op c o).1, order (apply_op c o).2) = spec_op (maxCap c) (order c) o.
Proof.
  intros Hc. destruct o as [k|k|k]; cbn [apply_op spec_op].
  - unfold Contains. rewrite in_cache by done. case_bool_decide as Hk; cbn [fst snd]; [|done].
    destruct (touch_ok c k Hc Hk) as (H1 & -> & H2). done.
  - unfold Add. rewrite in_cache by done. case_bool_decide as Hk; cbn [fst snd].
    { destruct (touch_ok c k Hc Hk) as (H1 & -> & H2). done. }
    rewrite size_cache by done. destruct (maxCap c <=? length (order c))%nat eqn:E.
    + apply Nat.leb_le in E. pose proof Hc as (Hnd & _ & _ & Hlen & Hcap).
      destruct (order c) as [|x l] eqn:Ho; [cbn in *; lia|].
      destruct (evict_ok c x l Hc Ho) as (H1 & H2 & H3). cbn [drop].
      split; [apply append_ok; [done| |]|split; [done|]].
      * rewrite H2. intros Hx. apply Hk. by right.
      * rewrite H2, H3. cbn [length] in *. lia.
      * by cbn [order]; rewrite H2.
    + apply Nat.leb_gt in E. split; [by apply append_ok|done].
  - cbn [fst snd]. destruct (remove_ok c k Hc) as (H1 & -> & H2). done.
Qed.

Lemma new_ok cap : cache_ok (newBoundedDirCache cap).
Proof.
  split; [constructor|]. cbn. split_and!.
  - intros k b. rewrite lookup_empty. split; [done|]. by intros [_ ?%elem_of_nil].
  - intros k i. by rewrite lookup_empty, lookup_nil.
  - lia.
  - destruct (cap <=? 0) eqn:E; lia.
Qed.

Lemma run_ops_ok c ops :
  cache_ok c ->
  cache_ok (run_ops c ops).2 /\ maxCap (run_ops c ops).2 = maxCap c
  /\ ((run_ops c ops).1, order (run_ops c ops).2) = run_spec (maxCap c) (order c) ops.
Proof.
  revert c. induction ops as [|o ops IH]; intros c Hc; [done|]. cbn [run_ops run_spec].
  destruct (apply_op_ok c o Hc) as (H1 & H2 & H3).
  destruct (apply_op c o) as [b c1]. cbn [fst snd] in *. rewrite <- H3.
  destruct (IH c1 H1) as (I1 & I2 & I3). rewrite H2 in I3.
  destruct (run_ops c1 ops) as [bs c2]. cbn [fst snd] in *. rewrite <- I3.
  split_and!; [done|congruence|done].
Qed.

(** The directory cache is an LRU set.  Whatever operations run on a new cache,
    their answers and the resulting order are those of a list of keys in which a
    hit moves the key to the end and an insertion at capacity drops the head; the
    three data structures stay consistent and the bound is kept. *)
Theorem dir_cache_is_lru cap ops :
  let c := newBoundedDirCache cap in
  let '(answers, c') := run_ops c ops in
  (answers, order c') = run_spec (maxCap c) [] ops
  /\ NoDup (order c')
  /\ (forall k, default false (m c' !! k) = bool_decide (k ∈ order c'))
  /\ (forall k i, index c' !! k = Some i <-> order c' !! i = Some k)
  /\ (size (m c') <= maxCap c)%nat.
Proof.
  cbn zeta. pose proof (run_ops_ok (newBoundedDirCache cap) ops (new_ok cap)) as (H1 & H2 & H3).
  destruct (run_ops _ ops) as [answers c']. cbn [fst snd] in *. split; [exact H3|].
  pose proof H1 as (Hnd & _ & Hi & Hlen & _). split_and!; [done|by intros; apply in_cache|done|].
  rewrite size_cache by done. lia.
Qed.

Example dir_cache_ex :
  (run_ops (newBoundedDirCache 2)
     [OpAdd "a"; OpAdd "b"; OpContains "a"; OpAdd "c"; OpContains "b"; OpRemove "a"; OpContains "c"]).1
  = [None; None; Some true; None; Some false; None; Some true].
Proof. vm_compute. reflexivity. Qed.

(** ** boundedStringCache *)

Record boundedStringCache := mkStringCache {
  sm : gmap string string;
  s_maxCap : nat;
}.

Definition newBoundedStringCache (cap : Z) : boundedStringCache :=
  mkStringCache ∅ (if cap <=? 0 then 5000 else Z.to_nat cap).

Definition Get (c : boundedStringCache) (key : string) : option string := sm c !! key.

(** A full cache is cleared as a unit. *)
Definition Set_ (c : boundedStringCache) (key value : string) : boundedStringCache :=
  let mm := if bool_decide (sm c !! key = None) && (s_maxCap c <=? size (sm c))%nat then ∅ else sm c in
  mkStringCache (<[key := value]> mm) (s_maxCap c).

Lemma sets_maxCap sets c :
  s_maxCap (fold_left (fun c kv => Set_ c kv.1 kv.2) sets c) = s_maxCap c.
Proof. revert c. induction sets as [|kv sets IH]; intros c; [done|]. cbn [fold_left]. by rewrite IH. Qed.

(** The string cache forgets but never lies.  After any sequence of [Set]s a
    cached value is the last one set for its key, the last key set is cached, and
    the cache holds at most its capacity. *)
Theorem string_cache_sound cap sets :
  let c := fold_left (fun c kv => Set_ c kv.1 kv.2) sets (newBoundedStringCache cap) in
  (forall k v, Get c k = Some v ->
     exists before after, sets = before ++ (k, v) :: after /\ k ∉ map fst after)
  /\ (forall k v before, sets = before ++ [(k, v)] -> Get c k = Some v)
  /\ (size (sm c) <= s_maxCap c)%nat.
Proof.
  cbn zeta. induction sets as [|[k v] sets IH] using rev_ind.
  { split_and!; [done| |cbn [fold_left newBoundedStringCache sm s_maxCap]; rewrite map_size_empty; lia].
    intros k v before H. by destruct before. }
  rewrite fold_left_app. cbn [fold_left fst snd].
  set (c := fold_left _ sets _) in *. destruct IH as (H1 & _ & H3).
  assert (0 < s_maxCap c)%nat as Hpos
    by (unfold c; rewrite sets_maxCap; cbn; destruct (cap <=? 0) eqn:E; lia).
  unfold Set_, Get in *. split_and!.
  - intros x y. cbn [sm]. destruct (decide (x = k)) as [->|Hne].
    + rewrite lookup_insert_eq. intros [= ->]. exists sets, []. split; [done|]. apply not_elem_of_nil.
    + rewrite lookup_insert_ne by done. intros Hx.
      assert (sm c !! x = Some y) as Hx' by (by destruct (_ && _)).
      destruct (H1 x y Hx') as (before & after & -> & Ha). exists before, (after ++ [(k, v)]).
      split; [by rewrite <- app_assoc|]. rewrite map_app, elem_of_app. cbn.
      rewrite list_elem_of_singleton. tauto.
  - intros x y before He. apply app_inj_2 in He as [_ [= -> ->]]; [|done].
    cbn [sm]. apply lookup_insert_eq.
  - cbn [sm s_maxCap]. case_bool_decide as Hk; cbn [andb].
    + destruct (s_maxCap c <=? size (sm c))%nat eqn:E.
      * rewrite insert_empty, map_size_singleton. lia.
      * rewrite map_size_insert_None by done. apply Nat.leb_gt in E. lia.
    + destruct (sm c !! k) eqn:Ek; [|done]. by erewrite map_size_insert_Some.
Qed.
