(* ===== verification/DavPath.v ===== *)
(** * WebDAV paths and names

    escapeDAVPath, cleanDAVEndpointPath and isUnreserved of
    src/backend/internal/storage/davpath.go. *)

From S2P Require Import Prelude GoPath.

Definition isUnreserved (c : ascii) : bool :=
  let n := nat_of_ascii c in
  ((65 <=? n) && (n <=? 90))%nat || ((97 <=? n) && (n <=? 122))%nat
  || ((48 <=? n) && (n <=? 57))%nat
  || Ascii.eqb c "-"%char || Ascii.eqb c "."%char || Ascii.eqb c "_"%char || Ascii.eqb c "~"%char.

(** ["0123456789ABCDEF"[n]] *)
Definition hex_digit (n : nat) : ascii :=
  ascii_of_nat (if (n <? 10)%nat then 48 + n else 55 + n).

Fixpoint escapeDAVPath (p : string) : string :=
  match p with
  | EmptyString => EmptyString
  | String c p =>
      if isUnreserved c || Ascii.eqb c slash then String c (escapeDAVPath p)
      else String "%"%char (String (hex_digit (nat_of_ascii c / 16))
             (String (hex_digit (nat_of_ascii c mod 16)) (escapeDAVPath p)))
  end.

Definition cleanDAVEndpointPath (endpointPath : string) : string :=
  trim_prefix (path_clean ("/" +:+ endpointPath)%string) "/".

(** ** What a server makes of an escaped path *)

Definition hex_value (c : ascii) : option nat :=
  let n := nat_of_ascii c in
  if ((48 <=? n) && (n <=? 57))%nat then Some (n - 48)%nat
  else if ((65 <=? n) && (n <=? 70))%nat then Some (n - 55)%nat
  else if ((97 <=? n) && (n <=? 102))%nat then Some (n - 87)%nat
  else None.

(** Percent-decoding, RFC 3986. *)
Fixpoint percent_decode (p : string) : option string :=
  match p with
  | EmptyString => Some EmptyString
  | String c p =>
      if Ascii.eqb c "%"%char then
        match p with
        | String h (String l p) =>
            match hex_value h, hex_value l, percent_decode p with
            | Some h, Some l, Some p => Some (String (ascii_of_nat (16 * h + l)) p)
            | _, _, _ => None
            end
        | _ => None
        end
      else match percent_decode p with Some p => Some (String c p) | None => None end
  end.

Lemma hex_value_digit n : (n < 16)%nat -> hex_value (hex_digit n) = Some n.
Proof. intros H. do 16 (destruct n as [|n]; [reflexivity|]). lia. Qed.

Lemma hex_digit_char n : (n < 16)%nat -> isUnreserved (hex_digit n) = true /\ hex_digit n <> slash.
Proof. intros H. do 16 (destruct n as [|n]; [by split|]). lia. Qed.

Lemma hex_digits c :
  (nat_of_ascii c / 16 < 16)%nat /\ (nat_of_ascii c mod 16 < 16)%nat
  /\ ascii_of_nat (16 * (nat_of_ascii c / 16) + nat_of_ascii c mod 16) = c.
Proof.
  pose proof (nat_ascii_bounded c). split; [by apply Nat.Div0.div_lt_upper_bound|].
  split; [by apply Nat.mod_upper_bound|]. rewrite <- Nat.div_mod_eq. apply ascii_nat_embedding.
Qed.

Lemma escape_decode p : percent_decode (escapeDAVPath p) = Some p.
Proof.
  induction p as [|c p IH]; [done|]. cbn [escapeDAVPath].
  destruct (isUnreserved c || Ascii.eqb c slash) eqn:E.
  - cbn [percent_decode]. rewrite IH. destruct (Ascii.eqb c "%"%char) eqn:Ec; [|done].
    apply Ascii.eqb_eq in Ec as ->. done.
  - destruct (hex_digits c) as (H1 & H2 & H3). cbn [percent_decode Ascii.eqb Bool.eqb].
    rewrite !hex_value_digit, IH by done. cbn -[Nat.mul Nat.div Nat.modulo]. by rewrite H3.
Qed.

Lemma split_cons c s :
  split_on slash (String c s)
  = if Ascii.eqb c slash then "" :: split_on slash s
    else match split_on slash s with [] => [String c ""] | x :: l => String c x :: l end.
Proof. reflexivity. Qed.

Lemma escape_segments p :
  split_on slash (escapeDAVPath p) = map escapeDAVPath (split_on slash p).
Proof.
  induction p as [|c p IH]; [done|]. cbn [escapeDAVPath]. rewrite (split_cons c p).
  destruct (isUnreserved c || Ascii.eqb c slash) eqn:E.
  - rewrite split_cons, IH. destruct (Ascii.eqb c slash) eqn:Es; [done|].
    destruct (split_on slash p) as [|x l]; cbn [map escapeDAVPath]; by rewrite Es, E.
  - destruct (hex_digits c) as (H1 & H2 & _).
    destruct (hex_digit_char _ H1) as [_ N1], (hex_digit_char _ H2) as [_ N2].
    apply Ascii.eqb_neq in N1, N2. apply orb_false_elim in E as [E1 E2].
    rewrite !split_cons, N1, N2, E2, IH. cbn [Ascii.eqb Bool.eqb].
    destruct (split_on slash p) as [|x l]; cbn [map escapeDAVPath]; rewrite E1, E2; done.
Qed.

(** The characters of a request path: unreserved, the separator, and escapes. *)
Fixpoint str_forall (f : ascii -> bool) (s : string) : bool :=
  match s with EmptyString => true | String c s => f c && str_forall f s end.

Lemma escape_chars p :
  str_forall (fun c => isUnreserved c || Ascii.eqb c slash || Ascii.eqb c "%"%char) (escapeDAVPath p) = true.
Proof.
  induction p as [|c p IH]; [done|]. cbn [escapeDAVPath].
  destruct (isUnreserved c || Ascii.eqb c slash) eqn:E; cbn [str_forall]; [by rewrite E, IH|].
  destruct (hex_digits c) as (H1 & H2 & _).
  destruct (hex_digit_char _ H1) as [-> _], (hex_digit_char _ H2) as [-> _]. by rewrite IH.
Qed.

(** Escaping is faithful.  A server that percent-decodes an escaped path gets
    the path back, the segments of the escaped path are the escaped segments - a
    slash in the request is always a separator and never data - and only
    unreserved characters, separators and escapes are sent. *)
Theorem dav_escape_faithful p :
  percent_decode (escapeDAVPath p) = Some p
  /\ split_on slash (escapeDAVPath p) = map escapeDAVPath (split_on slash p)
  /\ str_forall (fun c => isUnreserved c || Ascii.eqb c slash || Ascii.eqb c "%"%char) (escapeDAVPath p)
     = true.
Proof. split_and!; [apply escape_decode|apply escape_segments|apply escape_chars]. Qed.

(** A server-reported path cannot leave its namespace.  The normalized path is
    made of ordinary components only - no "..", no empty ones - so that below any
    root it stays below it. *)
Theorem dav_endpoint_contained endpointPath :
  exists cs, Forall good_comp cs /\ cleanDAVEndpointPath endpointPath = join_with "/" cs
    /\ forall root, rel_comps (root +:+ String slash (cleanDAVEndpointPath endpointPath))%string
         = rel_comps root ++ cs.
Proof.
  exists (rel_comps endpointPath).
  assert (cleanDAVEndpointPath endpointPath = join_with "/" (rel_comps endpointPath)) as He.
  { unfold cleanDAVEndpointPath. rewrite path_clean_rooted by apply (has_prefix_app "/").
    rewrite rel_comps_slash. unfold abs_path, trim_prefix. rewrite has_prefix_app.
    apply (str_drop_app "/"). }
  split; [apply rel_comps_good|]. split; [done|]. intros root. rewrite He.
  apply rel_comps_joined_below, rel_comps_good.
Qed.
