(* ===== verification/ManagerPaths.v ===== *)
(** * File-manager operations on path-backed providers

    deleteManagerFileOnly and deleteManagerPathItemWithDirectoryDeleter
    (src/backend/internal/storage/manager_delete_path.go), and PathManagerMutator:
    validation, conflict resolution, rename, move and copy
    (manager_mutation_path.go), with managerRenamedName (google_manager.go).  The
    provider is an arbitrary implementation of the interface of Storage.v; copying
    the bytes of one file is an operation of the provider here (its size check is
    ExactSizeReader, see Streams.v). *)

From S2P Require Import Prelude GoPath SyncPaths HashString Storage.

(** The sentinel errors; [ProviderError] passes a provider's error on. *)
Inductive manager_error :=
| ErrManagerConflict
| ErrManagerUnsupported
| ErrManagerDirectoryNotEmpty
| ErrManagerInvalidDestination
| ErrManagerDirectoryCycle
| ErrManagerNoop
| ErrManagerPartial
| ProviderError (e : storage_error).

Inductive ManagerConflictStrategy := NoStrategy | ManagerConflictSkip | ManagerConflictOverwrite
  | ManagerConflictRename.

Record ManagerMutationResult := mkMutation {
  mr_Status : string;
  mr_FinalName : string;
  mr_Native : bool;
}.

(** ** Paths and names *)

Definition managerJoin (parent name : string) : string :=
  let joined := path_join [("/" +:+ trim_prefix parent "/")%string; name] in
  if has_prefix joined "/" then joined else ("/" +:+ joined)%string.

Definition suffix_number (n : nat) : string :=
  if (n <? 10)%nat then String (ascii_of_nat (48 + n)) ""
  else if (n <? 100)%nat
  then String (ascii_of_nat (48 + n / 10)) (String (ascii_of_nat (48 + n mod 10)) "")
  else "100".

(** [%s (%d)%s], for the suffixes 1 to 100 the callers try. *)
Definition managerRenamedName (name : string) (suffix : nat) : string :=
  match cut_last_dot name with
  | Some (base, ext) =>
      if String.eqb base "" then (name +:+ " (" +:+ suffix_number suffix +:+ ")")%string
      else (base +:+ " (" +:+ suffix_number suffix +:+ ")" +:+ ext)%string
  | None => (name +:+ " (" +:+ suffix_number suffix +:+ ")")%string
  end.

Definition with_slash (p : string) : string :=
  ((if has_suffix p "/" then str_take (String.length p - 1) p else p) +:+ "/")%string.

Section Manager.
Context {St : Type} (provider : StorageProvider St).

Definition lift {A} (r : res storage_error A) : res manager_error A :=
  match r with Ok a => Ok a | Err e => Err (ProviderError e) end.

(** ** Deletion *)

Definition deleteManagerFileOnly (s : St) (path : string) : res manager_error unit * St :=
  if String.eqb path "" || String.eqb path "/" then (Err ErrManagerUnsupported, s)
  else match InspectResource provider s path with
  | (Err e, s) => (Err (ProviderError e), s)
  | (Ok item, s) =>
      if res_IsDir item then (Err ErrManagerUnsupported, s)
      else let '(r, s) := DeleteFile provider s path in (lift r, s)
  end.

(** [deleteDirectory] is the provider's native directory operation. *)
Definition deleteManagerPathItemWithDirectoryDeleter
    (deleteDirectory : St -> string -> bool -> res storage_error unit * St)
    (s : St) (path : string) (recursive : bool) : res manager_error unit * St :=
  if String.eqb path "" || String.eqb path "/" then (Err ErrManagerUnsupported, s)
  else match InspectResource provider s path with
  | (Err e, s) => (Err (ProviderError e), s)
  | (Ok item, s) =>
      if res_IsDir item then
        let '(empty, s) :=
          if recursive then (Ok tt, s)
          else match GetDirectoryListing provider s path with
          | (Err e, s) => (Err (ProviderError e), s)
          | (Ok [], s) => (Ok tt, s)
          | (Ok _, s) => (Err ErrManagerDirectoryNotEmpty, s)
          end in
        match empty with
        | Err e => (Err e, s)
        | Ok _ => let '(r, s) := deleteDirectory s path recursive in (lift r, s)
        end
      else let '(r, s) := DeleteFile provider s path in (lift r, s)
  end.

Definition deleteManagerPathItem (s : St) (path : string) (recursive : bool)
    : res manager_error unit * St :=
  deleteManagerPathItemWithDirectoryDeleter (fun s path _ => DeleteFile provider s path)
    s path recursive.

(** ** Validation and conflicts *)

Definition validate (s : St) (locator destination name : string)
    : res manager_error (CloudResource * string) * St :=
  if String.eqb locator "" || String.eqb locator "/" || String.eqb destination ""
  then (Err ErrManagerInvalidDestination, s)
  else match InspectResource provider s locator with
  | (Err e, s) => (Err (ProviderError e), s)
  | (Ok source, s) =>
      let '(dir, s) :=
        if String.eqb destination "/" then (Ok tt, s)
        else match InspectResource provider s destination with
        | (Err e, s) => (Err (ProviderError e), s)
        | (Ok item, s) => if res_IsDir item then (Ok tt, s) else (Err ErrManagerInvalidDestination, s)
        end in
      match dir with
      | Err e => (Err e, s)
      | Ok _ =>
          if res_IsDir source
             && (String.eqb destination locator
                 || has_prefix (with_slash destination) (with_slash locator))
          then (Err ErrManagerDirectoryCycle, s)
          else (Ok (source, managerJoin destination name), s)
      end
  end.

(** The last listed item with the name. *)
Definition existing_item (items : list CloudResource) (name : string) : option CloudResource :=
  fold_left (fun acc i => if String.eqb (res_Name i) name then Some i else acc) items None.

Fixpoint free_name (tries suffix : nat) (names : list string) (name : string) : option string :=
  match tries with
  | O => None
  | S tries =>
      let candidate := managerRenamedName name suffix in
      if bool_decide (candidate ∈ names) then free_name tries (S suffix) names name
      else Some candidate
  end.

Definition resolve_among (items : list CloudResource) (name : string) (sourceIsDir : bool)
    (strategy : ManagerConflictStrategy) : res manager_error (string * string) :=
  match existing_item items name with
  | None => Ok (name, "")
  | Some existing =>
      match strategy with
      | ManagerConflictSkip => Ok (name, "skipped")
      | ManagerConflictRename =>
          match free_name 100 1 (map res_Name items) name with
          | Some candidate => Ok (candidate, "renamed_on_conflict")
          | None => Err ErrManagerConflict
          end
      | ManagerConflictOverwrite =>
          if res_IsDir existing || sourceIsDir then Err ErrManagerConflict else Ok (name, "")
      | NoStrategy => Err ErrManagerConflict
      end
  end.

Definition resolveDestination (s : St) (parent name : string) (sourceIsDir : bool)
    (strategy : ManagerConflictStrategy) : res manager_error (string * string) * St :=
  match GetDirectoryListing provider s parent with
  | (Err e, s) => (Err (ProviderError e), s)
  | (Ok items, s) => (resolve_among items name sourceIsDir strategy, s)
  end.

(** ** Rename and move *)

Definition move (native : bool) (s : St) (locator destination name : string)
    (strategy : ManagerConflictStrategy) (status : string)
    : res manager_error ManagerMutationResult * St :=
  match validate s locator destination name with
  | (Err e, s) => (Err e, s)
  | (Ok (source, _), s) =>
    match resolveDestination s destination name (res_IsDir source) strategy with
    | (Err e, s) => (Err e, s)
    | (Ok (finalName, resultStatus), s) =>
        if String.eqb resultStatus "skipped"
        then (Ok (mkMutation resultStatus finalName false), s)
        else
          let status := if String.eqb resultStatus "renamed_on_conflict" then resultStatus
                        else status in
          let target := managerJoin destination finalName in
          if String.eqb (res_Path source) target then (Err ErrManagerNoop, s)
          else match RenameFile provider s (res_Path source) target with
          | (Err e, s) => (Err (ProviderError e), s)
          | (Ok _, s) => (Ok (mkMutation status finalName native), s)
          end
    end
  end.

Definition RenameManagerItem (native : bool) (s : St) (locator parent name : string)
    (strategy : ManagerConflictStrategy) : res manager_error ManagerMutationResult * St :=
  move native s locator parent name strategy "renamed".

Definition MoveManagerItem (native : bool) (s : St) (locator destination name : string)
    (strategy : ManagerConflictStrategy) : res manager_error ManagerMutationResult * St :=
  move native s locator destination name strategy "moved".

(** ** Copy *)

Context (copyFile : St -> string -> string -> Z -> res storage_error unit * St).

(** The items of one directory, the subdirectories queued behind [queue]. *)
Fixpoint copy_items (s : St) (target : string) (items : list CloudResource)
    (queue : list (string * string)) : res storage_error (list (string * string)) * St :=
  match items with
  | [] => (Ok queue, s)
  | item :: items =>
      let childTarget := managerJoin target (res_Name item) in
      if res_IsDir item then
        match CreateDirectory provider s childTarget with
        | (Err e, s) => (Err e, s)
        | (Ok _, s) => copy_items s target items (queue ++ [(res_Path item, childTarget)])
        end
      else match copyFile s (res_Path item) childTarget (res_Size item) with
      | (Err e, s) => (Err e, s)
      | (Ok _, s) => copy_items s target items queue
      end
  end.

(** The breadth-first loop; [None] when the fuel runs out. *)
Fixpoint copy_loop (fuel : nat) (s : St) (queue : list (string * string))
    : option (res storage_error unit * St) :=
  match queue with
  | [] => Some (Ok tt, s)
  | (source, target) :: queue =>
      match fuel with
      | O => None
      | S fuel =>
          match GetDirectoryListing provider s source with
          | (Err e, s) => Some (Err e, s)
          | (Ok items, s) =>
              match copy_items s target items queue with
              | (Err e, s) => Some (Err e, s)
              | (Ok queue, s) => copy_loop fuel s queue
              end
          end
      end
  end.

Definition copyDirectory (fuel : nat) (s : St) (source target : string)
    : option (res storage_error unit * St) :=
  match CreateDirectory provider s target with
  | (Err e, s) => Some (Err e, s)
  | (Ok _, s) => copy_loop fuel s [(source, target)]
  end.

Definition copy_status (status : string) : string :=
  if String.eqb status "renamed_on_conflict" then status else "copied".

Definition copyValidated (fuel : nat) (s : St) (source : CloudResource) (destination name : string)
    (strategy : ManagerConflictStrategy) : option (res manager_error ManagerMutationResult * St) :=
  match resolveDestination s destination name (res_IsDir source) strategy with
  | (Err e, s) => Some (Err e, s)
  | (Ok (finalName, status), s) =>
      if String.eqb status "skipped" then Some (Ok (mkMutation status finalName false), s)
      else
        let target := managerJoin destination finalName in
        let done s := (Ok (mkMutation (copy_status status) finalName false), s) in
        if res_IsDir source then
          match copyDirectory fuel s (res_Path source) target with
          | None => None
          | Some (Err _, s) => Some (Err ErrManagerPartial, s)
          | Some (Ok _, s) => Some (done s)
          end
        else match copyFile s (res_Path source) target (res_Size source) with
        | (Err e, s) => Some (Err (ProviderError e), s)
        | (Ok _, s) => Some (done s)
        end
  end.

Definition CopyManagerItem (fuel : nat) (s : St) (locator destination name : string)
    (strategy : ManagerConflictStrategy) : option (res manager_error ManagerMutationResult * St) :=
  match validate s locator destination name with
  | (Err e, s) => Some (Err e, s)
  | (Ok (source, _), s) => copyValidated fuel s source destination name strategy
  end.

(** The server-side copy: [operation] submits the request. *)
Definition copyNativePathManagerItem
    (operation : St -> CloudResource -> string -> bool -> res storage_error unit * St)
    (s : St) (locator destination name : string) (strategy : ManagerConflictStrategy)
    : res manager_error ManagerMutationResult * St :=
  match validate s locator destination name with
  | (Err e, s) => (Err e, s)
  | (Ok (source, _), s) =>
    match resolveDestination s destination name (res_IsDir source) strategy with
    | (Err e, s) => (Err e, s)
    | (Ok (finalName, status), s) =>
        if String.eqb status "skipped" then (Ok (mkMutation status finalName false), s)
        else
          match operation s source (managerJoin destination finalName)
                  (match strategy with ManagerConflictOverwrite => true | _ => false end) with
          | (Err e, s) => (Err (ProviderError e), s)
          | (Ok _, s) => (Ok (mkMutation (copy_status status) finalName true), s)
          end
    end
  end.
End Manager.

(** ** Directory cycles *)

Lemma abs_path_no_trailing ds : Forall good_comp ds -> ds <> [] -> has_suffix (abs_path ds) "/" = false.
Proof.
  intros Hd Hn. apply not_true_is_false. intros [q Hq]%has_suffix_slash.
  apply (f_equal (split_on slash)) in Hq. rewrite split_abs_path in Hq by done.
  change "/" with (String slash "") in Hq. rewrite split_on_app in Hq.
  destruct ds as [|d ds] using rev_ind; [done|]. rewrite app_comm_cons in Hq.
  apply app_inj_tail in Hq as [_ ->]. apply Forall_app in Hd as [_ Hd].
  apply Forall_singleton in Hd as [Hd _]. done.
Qed.

Lemma with_slash_abs ds :
  Forall good_comp ds ->
  with_slash (abs_path ds) = match ds with [] => "/" | _ => (abs_path ds +:+ "/")%string end.
Proof.
  intros Hd. destruct ds as [|d ds]; [done|]. unfold with_slash. by rewrite abs_path_no_trailing.
Qed.

Lemma with_slash_prefix cs ds :
  Forall good_comp cs -> Forall good_comp ds -> cs <> [] ->
  has_prefix (with_slash (abs_path ds)) (with_slash (abs_path cs)) = true
  <-> exists rest, ds = cs ++ rest.
Proof.
  intros Hc Hd Hn. rewrite !with_slash_abs by done. destruct cs as [|c cs]; [done|]. split.
  - intros [r E]%has_prefix_true. rewrite <- str_app_assoc in E.
    destruct ds as [|d ds].
    { apply (f_equal (split_on slash)) in E.
      change ("/" +:+ r)%string with (String slash r) in E.
      rewrite split_on_app, split_abs_path in E by done.
      change (split_on slash "/") with ["" : string; ""] in E.
      apply Forall_cons in Hc as [(Hne & _) _]. cbn in E. injection E as E _. by destruct Hne. }
    apply (f_equal (split_on slash)) in E.
    change ("/" +:+ r)%string with (String slash r) in E.
    change ((abs_path (d :: ds) +:+ "/")%string) with (abs_path (d :: ds) +:+ String slash "")%string in E.
    rewrite !split_on_app, !split_abs_path in E by done.
    destruct (split_on slash r) as [|x l] eqn:Er using rev_ind; [by apply split_on_not_nil in Er|].
    rewrite app_assoc in E. change (split_on slash "") with ["" : string] in E.
    apply app_inj_tail in E as [E _]. cbn [app] in E. injection E as E1 E2. exists l.
    cbn [app]. by rewrite E1, E2.
  - intros [rest ->]. destruct rest as [|x rest].
    { rewrite app_nil_r. rewrite <- (str_app_nil_r (abs_path (c :: cs) +:+ "/")) at 1.
      apply has_prefix_app. }
    cbn [app]. rewrite (abs_path_app cs c (x :: rest)).
    change (abs_path (x :: rest)) with ("/" +:+ join_with "/" (x :: rest))%string.
    rewrite <- str_app_assoc. rewrite <- str_app_assoc. rewrite (str_app_assoc (abs_path (c :: cs))).
    apply has_prefix_app.
Qed.

Lemma cycle_test cs ds :
  Forall good_comp cs -> Forall good_comp ds -> cs <> [] ->
  String.eqb (abs_path ds) (abs_path cs)
    || has_prefix (with_slash (abs_path ds)) (with_slash (abs_path cs)) = true
  <-> exists rest, ds = cs ++ rest.
Proof.
  intros Hc Hd Hn. rewrite orb_true_iff, with_slash_prefix by done. split.
  - intros [He|He]; [|done]. apply String.eqb_eq, abs_path_inj in He; [|done|done].
    exists []. by rewrite app_nil_r.
  - by right.
Qed.

Lemma abs_path_nonroot cs :
  Forall good_comp cs -> cs <> [] ->
  String.eqb (abs_path cs) "" = false /\ String.eqb (abs_path cs) "/" = false.
Proof.
  intros Hc Hn. split; [by destruct cs|]. apply String.eqb_neq. intros He. apply Hn.
  by apply (abs_path_inj cs []).
Qed.

(** Nothing is moved or copied into itself.  For normal paths the validation
    of a move or copy reports a cycle exactly when the source is a directory and
    the destination is an existing directory that is the source or lies below it,
    component by component; in particular a sibling whose name extends the
    source's name is allowed. *)
Theorem cycle_check_exact {St} (provider : StorageProvider St) s cs ds name :
  Forall good_comp cs -> Forall good_comp ds -> cs <> [] ->
  (validate provider s (abs_path cs) (abs_path ds) name).1 = Err ErrManagerDirectoryCycle
  <-> exists source s1 item s2 rest,
        InspectResource provider s (abs_path cs) = (Ok source, s1) /\ res_IsDir source = true
        /\ InspectResource provider s1 (abs_path ds) = (Ok item, s2) /\ res_IsDir item = true
        /\ ds = cs ++ rest.
Proof.
  intros Hc Hd Hn. destruct (abs_path_nonroot cs Hc Hn) as [E1 E2].
  pose proof (cycle_test cs ds Hc Hd Hn) as Ht. unfold validate. rewrite E1, E2. cbn [orb].
  replace (String.eqb (abs_path ds) "") with false by (by destruct ds).
  destruct (InspectResource provider s (abs_path cs)) as [[source|e] s1]; cycle 1.
  { split; [done|]. by intros (? & ? & ? & ? & ? & [=] & _). }
  destruct ds as [|d ds].
  { change (String.eqb (abs_path []) "/") with true. cbv iota.
    assert (forall rest, [] <> cs ++ rest) as Hnil by (intros rest H; by destruct cs).
    destruct (String.eqb (abs_path []) _ || _).
    { destruct (proj1 Ht eq_refl) as [rest Hr]. by destruct (Hnil rest). }
    rewrite andb_false_r. split; [done|]. intros (? & ? & ? & ? & rest & _ & _ & _ & _ & H).
    by destruct (Hnil rest). }
  rewrite (proj2 (abs_path_nonroot _ Hd ltac:(done))).
  destruct (InspectResource provider s1 (abs_path (d :: ds))) as [[item|e] s2] eqn:Ei; cycle 1.
  { split; [done|]. intros (? & ? & ? & ? & ? & [= <- <-] & _ & H & _). by rewrite Ei in H. }
  destruct (res_IsDir item) eqn:Hi; cycle 1.
  { split; [done|]. intros (? & ? & i & ? & ? & [= <- <-] & _ & H & H' & _). congruence. }
  destruct (res_IsDir source) eqn:Hs; cbn [andb]; cycle 1.
  { split; [done|]. intros (? & ? & ? & ? & ? & [= <- <-] & H & _). congruence. }
  destruct (String.eqb _ _ || _).
  - split; [|done]. destruct (proj1 Ht eq_refl) as [rest Hr]. intros _. by exists source, s1, item, s2, rest.
  - split; [done|]. intros (? & ? & ? & ? & rest & _ & _ & _ & _ & H).
    by discriminate (proj2 Ht (ex_intro _ rest H)).
Qed.

(** ** Conflicts *)

Lemma existing_item_spec items name :
  match existing_item items name with
  | Some i => i ∈ items /\ res_Name i = name
  | None => name ∉ map res_Name items
  end.
Proof.
  unfold existing_item. induction items as [|i items IH] using rev_ind; [by apply not_elem_of_nil|].
  rewrite fold_left_app. cbn [fold_left].
  destruct (String.eqb (res_Name i) name) eqn:E.
  - apply String.eqb_eq in E. split; [|done]. apply elem_of_app. right. by left.
  - apply String.eqb_neq in E.
    destruct (fold_left _ items None) as [j|].
    + destruct IH as [? ?]. split; [|done]. apply elem_of_app. by left.
    + rewrite map_app, not_elem_of_app. split; [done|]. cbn. by intros ->%list_elem_of_singleton.
Qed.

Lemma free_name_spec tries suffix names name candidate :
  free_name tries suffix names name = Some candidate ->
  (candidate ∉ names) /\ exists n, (suffix <= n < suffix + tries)%nat /\ candidate = managerRenamedName name n.
Proof.
  revert suffix. induction tries as [|tries IH]; intros suffix; [done|]. cbn [free_name].
  case_bool_decide as Hin.
  - intros H. apply IH in H as (Hn & n & Hr & ->). split; [done|]. exists n. split; [lia|done].
  - intros [= <-]. split; [done|]. exists suffix. split; [lia|done].
Qed.

(** The name the mutation uses does not hit an entry of the destination, except
    where a file is to overwrite a file. *)
Definition name_free (items : list CloudResource) (final : string) (sourceIsDir : bool)
    (strategy : ManagerConflictStrategy) : Prop :=
  final ∉ map res_Name items
  \/ (strategy = ManagerConflictOverwrite /\ sourceIsDir = false
      /\ exists i, i ∈ items /\ res_Name i = final /\ res_IsDir i = false).

Lemma resolve_among_spec items name sourceIsDir strategy final status :
  resolve_among items name sourceIsDir strategy = Ok (final, status) ->
  (status = "skipped" /\ final = name /\ strategy = ManagerConflictSkip /\ name ∈ map res_Name items)
  \/ (status = "" /\ final = name /\ name_free items final sourceIsDir strategy)
  \/ (status = "renamed_on_conflict" /\ strategy = ManagerConflictRename
      /\ (final ∉ map res_Name items) /\ exists n, (1 <= n <= 100)%nat /\ final = managerRenamedName name n).
Proof.
  unfold resolve_among. pose proof (existing_item_spec items name) as He.
  destruct (existing_item items name) as [i|].
  - destruct He as [Hi Hn]. destruct strategy; [done| | |].
    + intros [= <- <-]. left. split_and!; try done. rewrite <- Hn. by apply list_elem_of_fmap_2.
    + destruct (res_IsDir i || sourceIsDir) eqn:Ed; [done|]. intros [= <- <-]. right; left.
      apply orb_false_elim in Ed as [Ei ->]. split_and!; try done. right. split_and!; try done.
      by exists i.
    + destruct (free_name 100 1 _ name) as [candidate|] eqn:Ef; [|done]. intros [= <- <-].
      right; right. apply free_name_spec in Ef as (Hf & n & Hr & ->). split_and!; try done.
      exists n. split; [lia|done].
  - intros [= <- <-]. right; left. split_and!; try done. by left.
Qed.

(** ** What the operations may write *)

Section Safety.
Context {St : Type} (provider : StorageProvider St).

(** A listing or an inspection. *)
Inductive read_step : St -> St -> Prop :=
| inspects s path : read_step s (InspectResource provider s path).2
| lists s path : read_step s (GetDirectoryListing provider s path).2.

Lemma reads_once s s' t : read_step s s' -> rtc read_step s' t -> rtc read_step s t.
Proof. apply rtc_l. Qed.

Lemma inspect_read s path r s' : InspectResource provider s path = (r, s') -> read_step s s'.
Proof. intros H. replace s' with (InspectResource provider s path).2 by (by rewrite H). constructor. Qed.

Lemma listing_read s path r s' : GetDirectoryListing provider s path = (r, s') -> read_step s s'.
Proof. intros H. replace s' with (GetDirectoryListing provider s path).2 by (by rewrite H). constructor. Qed.

Lemma validate_reads s locator destination name r s' :
  validate provider s locator destination name = (r, s') ->
  rtc read_step s s' /\
  match r with
  | Err _ => True
  | Ok (source, target) =>
      locator <> "" /\ locator <> "/" /\ target = managerJoin destination name
      /\ (exists s0 s1, rtc read_step s s0 /\ InspectResource provider s0 locator = (Ok source, s1))
      /\ (res_IsDir source = true ->
          String.eqb destination locator
          || has_prefix (with_slash destination) (with_slash locator) = false)
  end.
Proof.
  unfold validate. destruct (_ || _ || _) eqn:E0.
  { intros [= <- <-]. split; [apply rtc_refl|done]. }
  apply orb_false_elim in E0 as [E0 _]. apply orb_false_elim in E0 as [E1 E2].
  apply String.eqb_neq in E1, E2.
  destruct (InspectResource provider s locator) as [[source|e] s1] eqn:Ei.
  2: { intros [= <- <-]. split; [|done]. apply rtc_once. by eapply inspect_read. }
  pose proof (inspect_read _ _ _ _ Ei) as H1.
  destruct (if String.eqb destination "/" then _ else _) as [dir s2] eqn:Ed.
  assert (rtc read_step s1 s2) as H2.
  { destruct (String.eqb destination "/"); [injection Ed as <- <-; apply rtc_refl|].
    destruct (InspectResource provider s1 destination) as [[item|e] s3] eqn:Ej;
      [destruct (res_IsDir item)|]; injection Ed as <- <-; apply rtc_once; by eapply inspect_read. }
  assert (rtc read_step s s2) as H by by eapply rtc_l.
  destruct dir as [u|e]; [|intros [= <- <-]; by split].
  destruct (res_IsDir source && _) eqn:Ec; [intros [= <- <-]; by split|].
  intros [= <- <-]. split; [done|]. split_and!; try done.
  - exists s, s1. split; [apply rtc_refl|done].
  - intros Hdir. by rewrite Hdir in Ec.
Qed.

(** A move renames into a free place or not at all.  Whatever the provider
    answers, up to the last step the operation only inspects and lists; the one
    write it may issue renames the inspected source into the destination directory,
    under a name that was not in the destination's last listing unless a file is to
    overwrite a file, and never a directory into itself; without that write the
    result is an error or a skip. *)
Theorem move_writes_once native s locator destination name strategy status r s' :
  move provider native s locator destination name strategy status = (r, s') ->
  exists s1, rtc read_step s s1 /\
    ((s' = s1 /\ match r with Ok m => mr_Status m = "skipped" | Err _ => True end)
     \/ exists source items final s0 out,
          GetDirectoryListing provider s0 destination = (Ok items, s1)
          /\ RenameFile provider s1 (res_Path source) (managerJoin destination final) = (out, s')
          /\ (final = name \/ final ∉ map res_Name items)
          /\ name_free items final (res_IsDir source) strategy
          /\ res_Path source <> managerJoin destination final
          /\ (res_IsDir source = true ->
              String.eqb destination locator
              || has_prefix (with_slash destination) (with_slash locator) = false)
          /\ match r with Ok m => out = Ok tt /\ mr_FinalName m = final | Err _ => out <> Ok tt end).
Proof.
  unfold move. destruct (validate provider s locator destination name) as [[[source target]|e] s1] eqn:Ev;
    apply validate_reads in Ev as [Hr1 Hv].
  2: { intros [= <- <-]. exists s1. split; [done|]. by left. }
  destruct Hv as (_ & _ & _ & _ & Hcycle). unfold resolveDestination.
  destruct (GetDirectoryListing provider s1 destination) as [[items|e] s2] eqn:El;
    pose proof (listing_read _ _ _ _ El) as Hl;
    assert (rtc read_step s s2) as Hr2 by (eapply rtc_r; [exact Hr1|exact Hl]).
  2: { intros [= <- <-]. exists s2. split; [done|]. by left. }
  destruct (resolve_among items name (res_IsDir source) strategy) as [[final st]|e] eqn:Er.
  2: { intros [= <- <-]. exists s2. split; [done|]. by left. }
  apply resolve_among_spec in Er.
  destruct (String.eqb st "skipped") eqn:Es.
  { intros [= <- <-]. exists s2. split; [done|]. left. split; [done|]. by apply String.eqb_eq in Es. }
  assert (name_free items final (res_IsDir source) strategy
    /\ (final = name \/ final ∉ map res_Name items)) as [Hfree Hname].
  { destruct Er as [(-> & _)|[(_ & -> & Hf)|(_ & -> & Hf & _)]]; [done|by split; [|left]|].
    split; [by left|by right]. }
  destruct (String.eqb (res_Path source) (managerJoin destination final)) eqn:Ep.
  { intros [= <- <-]. exists s2. split; [done|]. by left. }
  apply String.eqb_neq in Ep.
  destruct (RenameFile provider s2 (res_Path source) (managerJoin destination final)) as [[u|e] s3] eqn:En;
    intros [= <- <-]; exists s2; split; try done; right.
  - exists source, items, final, s1, (Ok u). destruct u. by split_and!.
  - exists source, items, final, s1, (Err e). by split_and!.
Qed.

(** A deletion is checked first.  Whatever the provider answers, the operation
    only reads before its one deletion, never deletes the root, and deletes a
    directory without the recursive flag only directly after its listing was
    empty. *)
Theorem delete_checked deleteDirectory s path recursive r s' :
  deleteManagerPathItemWithDirectoryDeleter provider deleteDirectory s path recursive = (r, s') ->
  exists s1, rtc read_step s s1 /\
    ((s' = s1 /\ r <> Ok tt)
     \/ (path <> "" /\ path <> "/"
         /\ exists s0 item, InspectResource provider s path = (Ok item, s0)
            /\ if res_IsDir item
               then (exists out, deleteDirectory s1 path recursive = (out, s') /\ lift out = r)
                    /\ (recursive = false -> GetDirectoryListing provider s0 path = (Ok [], s1))
               else (exists out, DeleteFile provider s1 path = (out, s') /\ lift out = r))).
Proof.
  unfold deleteManagerPathItemWithDirectoryDeleter.
  destruct (_ || _) eqn:E0.
  { intros [= <- <-]. exists s. split; [apply rtc_refl|]. by left. }
  apply orb_false_elim in E0 as [E1 E2]. apply String.eqb_neq in E1, E2.
  destruct (InspectResource provider s path) as [[item|e] s0] eqn:Ei;
    pose proof (inspect_read _ _ _ _ Ei) as Hi.
  2: { intros [= <- <-]. exists s0. split; [by apply rtc_once|]. by left. }
  destruct (res_IsDir item) eqn:Ed.
  2: { destruct (DeleteFile provider s0 path) as [out s1] eqn:Ex. intros [= <- <-].
       exists s0. split; [by apply rtc_once|]. right. split_and!; try done.
       exists s0, item. rewrite Ed. split; [done|]. by exists out. }
  destruct recursive.
  { destruct (deleteDirectory s0 path true) as [out s1] eqn:Ex. intros [= <- <-].
    exists s0. split; [by apply rtc_once|]. right. split_and!; try done.
    exists s0, item. rewrite Ed. split; [done|]. split; [by exists out|done]. }
  destruct (GetDirectoryListing provider s0 path) as [[items|e] s1] eqn:El;
    pose proof (listing_read _ _ _ _ El) as Hl;
    assert (rtc read_step s s1) as Hr by (eapply rtc_l; [exact Hi|by apply rtc_once]).
  2: { intros [= <- <-]. exists s1. split; [done|]. by left. }
  destruct items as [|x items].
  2: { intros [= <- <-]. exists s1. split; [done|]. by left. }
  destruct (deleteDirectory s1 path false) as [out s2] eqn:Ex. intros [= <- <-].
  exists s1. split; [done|]. right. split_and!; try done.
  exists s0, item. rewrite Ed. split; [done|]. split; [by exists out|done].
Qed.
End Safety.

(** ** Witnesses *)

(** A provider with one file and one empty directory that logs its writes. *)
Definition log_provider : StorageProvider (list string) := {|
  GetDirectoryListing := fun s p => (Ok (if String.eqb p "/" then [mkResource "/a.txt" "a.txt" 1 false "" "" 0] else []), s);
  InspectResource := fun s p =>
    (if String.eqb p "/a.txt" then Ok (mkResource "/a.txt" "a.txt" 1 false "" "" 0)
     else if String.eqb p "/d" then Ok (mkResource "/d" "d" 0 true "" "" 0) else Err ErrNotFound, s);
  DeleteFile := fun s p => (Ok tt, s ++ [("delete " +:+ p)%string]);
  CreateDirectory := fun s p => (Ok tt, s ++ [("mkdir " +:+ p)%string]);
  RenameFile := fun s p q => (Ok tt, s ++ [("rename " +:+ p +:+ " " +:+ q)%string]);
|}.

(** Two nested directories and a sibling. *)
Definition tree_provider : StorageProvider unit := {|
  GetDirectoryListing := fun s p => (Ok [], s);
  InspectResource := fun s p =>
    (if bool_decide (p ∈ ["/a"; "/a/b"; "/ab"]) then Ok (mkResource p p 0 true "" "" 0) else Err ErrNotFound, s);
  DeleteFile := fun s p => (Ok tt, s);
  CreateDirectory := fun s p => (Ok tt, s);
  RenameFile := fun s p q => (Ok tt, s);
|}.

Lemma cycle_check_exact_witness :
  (validate tree_provider tt "/a" "/a/b" "a").1 = Err ErrManagerDirectoryCycle
  /\ (validate tree_provider tt "/a" "/ab" "a").1 <> Err ErrManagerDirectoryCycle.
Proof.
  split.
  - apply (cycle_check_exact tree_provider tt ["a"] ["a"; "b"] "a"); [repeat constructor; done..|done|].
    eexists _, _, _, _, ["b"]. repeat (split; [vm_compute; reflexivity|]). reflexivity.
  - intros H. apply (cycle_check_exact tree_provider tt ["a"] ["ab"] "a") in H;
      [|repeat constructor; done..|done].
    by destruct H as (? & ? & ? & ? & rest & _ & _ & _ & _ & [=]).
Defined.

Lemma move_writes_once_witness :
  MoveManagerItem log_provider true [] "/a.txt" "/d" "b.txt" NoStrategy
  = (Ok (mkMutation "moved" "b.txt" true), ["rename /a.txt /d/b.txt"])
  /\ exists s1, rtc (read_step log_provider) [] s1
     /\ exists source final s2, RenameFile log_provider s1 (res_Path source) (managerJoin "/d" final)
          = (Ok tt, s2) /\ res_Path source <> managerJoin "/d" final.
Proof.
  assert (move log_provider true [] "/a.txt" "/d" "b.txt" NoStrategy "moved"
    = (Ok (mkMutation "moved" "b.txt" true), ["rename /a.txt /d/b.txt"])) as Hm
    by (vm_compute; reflexivity).
  split; [exact Hm|].
  destruct (move_writes_once _ _ _ _ _ _ _ _ _ _ Hm)
    as (s1 & Hr & [[_ Hsk]|(source & items & final & s0 & out & _ & Hn & _ & _ & Hne & _ & Hok & _)]).
  - discriminate Hsk.
  - exists s1. split; [exact Hr|]. exists source, final, ["rename /a.txt /d/b.txt"].
    rewrite Hok in Hn. by split.
Defined.

Lemma delete_checked_witness :
  deleteManagerPathItem log_provider [] "/d" false = (Ok tt, ["delete /d"])
  /\ exists s1, rtc (read_step log_provider) [] s1
     /\ exists out, DeleteFile log_provider s1 "/d" = (out, ["delete /d"]).
Proof.
  assert (deleteManagerPathItem log_provider [] "/d" false = (Ok tt, ["delete /d"])) as Hd
    by (vm_compute; reflexivity).
  split; [exact Hd|].
  destruct (delete_checked log_provider _ _ _ _ _ _ Hd) as (s1 & Hr & [[_ Hne]|(_ & _ & s0 & item & _ & H)]).
  - by destruct Hne.
  - exists s1. split; [exact Hr|]. destruct (res_IsDir item).
    + destruct H as [(out & Ho & _) _]. by exists out.
    + destruct H as (out & Ho & _). by exists out.
Defined.
