(* ===== verification/BackupDb.v ===== *)
(** * The backup tables

    Rows of backup_jobs, backup_runs and of the repository catalog (db/schema.sql,
    src/backend/internal/db/backups.go), as far as the statements of the backup
    coordinator read and write them.  Credentials, audit rows and the deliveries
    of a notification are left out. *)

From S2P Require Import Prelude HashString Tables Bytes.

#[export] Instance byte_countable : Countable byte :=
  inj_countable Byte.to_N Byte.of_N Byte.of_to_N.

(** ** Jobs and runs *)

Inductive backup_status : Type :=
| BIDLE | BQUEUED | BSCANNING | BRUNNING | BVERIFYING | BPAUSED | BFAILED | BDELETING.

Inductive run_state : Type :=
| RQUEUED | RSCANNING | RRUNNING | RVERIFYING | RCOMPLETED | RPARTIAL | RFAILED | RCANCELLED.

Inductive deletion_state : Type := NotDeleting | DeletingRepository.

Inductive run_trigger : Type := Manual | Scheduled | CatchUp.

#[export] Instance backup_status_eq_dec : EqDecision backup_status.
Proof. solve_decision. Defined.
#[export] Instance run_state_eq_dec : EqDecision run_state.
Proof. solve_decision. Defined.
#[export] Instance deletion_state_eq_dec : EqDecision deletion_state.
Proof. solve_decision. Defined.
#[export] Instance run_trigger_eq_dec : EqDecision run_trigger.
Proof. solve_decision. Defined.

Record run_totals := mkTotals {
  tt_files : Z;
  tt_bytes : Z;
  tt_processed_files : Z;
  tt_processed_bytes : Z;
  tt_deduplicated_bytes : Z;
  tt_failed_files : Z;
}.

Definition no_totals : run_totals := mkTotals 0 0 0 0 0 0.

Record backup_job := mkBackupJob {
  bj_user : string;
  bj_status : backup_status;
  bj_generation : Z;
  bj_deletion : deletion_state;
  bj_last_run : option run_state;
  bj_totals : run_totals;
  bj_error : option string;
}.

Record backup_run := mkBackupRun {
  br_job : string;
  br_generation : Z;
  br_trigger : run_trigger;
  br_key : option string;
  br_state : run_state;
  br_totals : run_totals;
  br_error : option string;
  br_created : Z;
  br_updated : Z;
}.

(** ** Snapshots and their items *)

Inductive snapshot_state : Type := PUBLISHING | READY | PARTIAL | EXPIRED | DELETING | DAMAGED.

Inductive integrity_state : Type := UNKNOWN | VALID | BROKEN.

#[export] Instance snapshot_state_eq_dec : EqDecision snapshot_state.
Proof. solve_decision. Defined.
#[export] Instance integrity_state_eq_dec : EqDecision integrity_state.
Proof. solve_decision. Defined.

Record snapshot_totals := mkSnapshotTotals {
  st_files : Z;
  st_dirs : Z;
  st_bytes : Z;
  st_unstable : Z;
  st_errors : Z;
}.

Record backup_snapshot := mkSnapshot {
  sn_job : string;
  sn_run : string;
  sn_state : snapshot_state;
  sn_roots : list string;
  sn_totals : snapshot_totals;
  sn_integrity : integrity_state;
  sn_created : Z;
}.

Record snapshot_item := mkItem {
  it_snapshot : string;
  it_path : string;
  it_is_dir : bool;
  it_size : Z;
  it_mtime : option gotime;
  it_sha256 : option bytes;
  it_state : string;
}.

(** ** Packs and blocks *)

(** The schema also knows UPLOADING and REPLACING, which no statement writes. *)
Inductive pack_state : Type := PackReady | PackDeletePending | PackDeleted | PackDamaged.

#[export] Instance pack_state_eq_dec : EqDecision pack_state.
Proof. solve_decision. Defined.

Record pack_row := mkPackRow {
  pk_job : string;
  pk_path : string;
  pk_sha256 : bytes;
  pk_size : Z;
  pk_state : pack_state;
  pk_generation : Z;
  pk_checked : option Z;
  pk_created : Z;
}.

Record block_row := mkBlockRow {
  bl_job : string;
  bl_sha256 : bytes;
  bl_plaintext : Z;
  bl_pack : string;
  bl_offset : Z;
  bl_length : Z;
}.

(** ** Maintenance and pins *)

Inductive maintenance_kind : Type := RETENTION | COMPACTION | DELETE_REPOSITORY | VERIFY.

Inductive maintenance_state : Type :=
| MPENDING | MRUNNING | MRETRY_WAIT | MCANCELLING | MCANCELLED | MCOMPLETED | MFAILED.

#[export] Instance maintenance_kind_eq_dec : EqDecision maintenance_kind.
Proof. solve_decision. Defined.
#[export] Instance maintenance_state_eq_dec : EqDecision maintenance_state.
Proof. solve_decision. Defined.

Inductive verify_mode : Type := METADATA | BUDGETED | FULL.

#[export] Instance verify_mode_eq_dec : EqDecision verify_mode.
Proof. solve_decision. Defined.

(** The audit columns started_at and finished_at and the cursor are left out. *)
Record maintenance_row := mkMaintenance {
  mt_job : string;
  mt_kind : maintenance_kind;
  mt_state : maintenance_state;
  mt_budget : option Z;
  mt_mode : option verify_mode;
  mt_attempts : Z;
  mt_next_retry : option Z;
  mt_deadline : option Z;
  mt_lease : option Z;
  mt_worker : option string;
  mt_generation : Z;
  mt_error : option string;
  mt_processed : Z;
  mt_total : Z;
  mt_checked : Z;
  mt_missing : Z;
  mt_damaged : Z;
  mt_created : Z;
}.

Definition new_maintenance (jobID : string) (kind : maintenance_kind) (budget : option Z)
    (mode : option verify_mode) (now : Z) : maintenance_row :=
  mkMaintenance jobID kind MPENDING budget mode 0 None None None None 0 None 0 0 0 0 0 now.

(** The schema also knows FAILED and CANCELLED, which no statement writes. *)
Inductive target_state : Type := TPENDING | TRUNNING | TCOMPLETED | TMISSING | TDAMAGED.

#[export] Instance target_state_eq_dec : EqDecision target_state.
Proof. solve_decision. Defined.

Record verify_target := mkVerifyTarget {
  vt_maintenance : string;
  vt_pack : option string;
  vt_path : string;
  vt_sha256 : bytes;
  vt_size : Z;
  vt_state : target_state;
  vt_epoch : Z;
  vt_deadline : option Z;
  vt_worker : option string;
  vt_read : Z;
}.

(** A pin names the restore run that needs the pack. *)
Record backup_db := mkBackupDb {
  jobs : gmap string backup_job;
  runs : gmap string backup_run;
  snapshots : gmap string backup_snapshot;
  items : gmap string snapshot_item;
  item_blocks : gmap (string * nat) string;
  packs : gmap string pack_row;
  blocks : gmap string block_row;
  maintenance : gmap string maintenance_row;
  verify_targets : gmap string verify_target;
  pins : gset (string * string);
  schedules_on : gset string;
  notified : list string;
}.

Definition set_jobs f d := mkBackupDb (f (jobs d)) (runs d) (snapshots d) (items d)
  (item_blocks d) (packs d) (blocks d) (maintenance d) (verify_targets d) (pins d)
  (schedules_on d) (notified d).
Definition set_runs f d := mkBackupDb (jobs d) (f (runs d)) (snapshots d) (items d)
  (item_blocks d) (packs d) (blocks d) (maintenance d) (verify_targets d) (pins d)
  (schedules_on d) (notified d).
Definition set_snapshots f d := mkBackupDb (jobs d) (runs d) (f (snapshots d)) (items d)
  (item_blocks d) (packs d) (blocks d) (maintenance d) (verify_targets d) (pins d)
  (schedules_on d) (notified d).
Definition set_items f g d := mkBackupDb (jobs d) (runs d) (snapshots d) (f (items d))
  (g (item_blocks d)) (packs d) (blocks d) (maintenance d) (verify_targets d) (pins d)
  (schedules_on d) (notified d).
Definition set_packs f g d := mkBackupDb (jobs d) (runs d) (snapshots d) (items d)
  (item_blocks d) (f (packs d)) (g (blocks d)) (maintenance d) (verify_targets d) (pins d)
  (schedules_on d) (notified d).
Definition set_maintenance f g d := mkBackupDb (jobs d) (runs d) (snapshots d) (items d)
  (item_blocks d) (packs d) (blocks d) (f (maintenance d)) (g (verify_targets d)) (pins d)
  (schedules_on d) (notified d).
Definition set_schedules_on f d := mkBackupDb (jobs d) (runs d) (snapshots d) (items d)
  (item_blocks d) (packs d) (blocks d) (maintenance d) (verify_targets d) (pins d)
  (f (schedules_on d)) (notified d).
Definition set_notified f d := mkBackupDb (jobs d) (runs d) (snapshots d) (items d)
  (item_blocks d) (packs d) (blocks d) (maintenance d) (verify_targets d) (pins d)
  (schedules_on d) (f (notified d)).

(** ** Predicates the statements share *)

Definition run_in (l : list run_state) (s : run_state) : bool := bool_decide (s ∈ l).
Definition job_in (l : list backup_status) (s : backup_status) : bool := bool_decide (s ∈ l).
Definition snapshot_in (l : list snapshot_state) (s : snapshot_state) : bool := bool_decide (s ∈ l).
Definition maintenance_in (l : list maintenance_state) (s : maintenance_state) : bool :=
  bool_decide (s ∈ l).

(** The job status that goes with the state of an active run. *)
Definition status_of (s : run_state) : option backup_status :=
  match s with
  | RQUEUED => Some BQUEUED
  | RSCANNING => Some BSCANNING
  | RRUNNING => Some BRUNNING
  | RVERIFYING => Some BVERIFYING
  | _ => None
  end.

Definition working : list run_state := [RSCANNING; RRUNNING; RVERIFYING].
Definition unfinished : list run_state := [RQUEUED; RSCANNING; RRUNNING; RVERIFYING].
Definition job_working : list backup_status := [BSCANNING; BRUNNING; BVERIFYING].
Definition visible : list snapshot_state := [READY; PARTIAL].

Lemma in_true {A} `{EqDecision A} (x : A) (l : list A) : bool_decide (x ∈ l) = true <-> x ∈ l.
Proof. apply bool_decide_eq_true. Qed.

Lemma unfinished_status s : run_in unfinished s = true <-> is_Some (status_of s).
Proof.
  unfold run_in, unfinished. rewrite in_true. destruct s; cbn; split; intros H;
    first [by eexists | by destruct H | set_solver].
Qed.
