(* ===== verification/BackupRuns.v ===== *)
(** * The lifecycle of a backup run

    Claims, transitions, completion, publication, recovery, pause and deletion of
    backup runs: the transactions of src/backend/internal/db/backups.go and
    src/backend/cmd/api/backup_handlers.go that move backup_jobs, backup_runs and
    backup_snapshots together.  A transaction that is rolled back or refused leaves
    the database alone; [now] is the database clock in seconds. *)

From S2P Require Import Prelude HashString Tables Bytes BackupDb.

(** ** Row changes *)

Definition run_set (s : run_state) (now : Z) (r : backup_run) : backup_run :=
  mkBackupRun (br_job r) (br_generation r) (br_trigger r) (br_key r) s (br_totals r)
    (br_error r) (br_created r) now.

(** [updated_at] is set by a trigger on every update. *)
Definition run_finish (s : run_state) (t : run_totals) (err : option string) (now : Z)
    (r : backup_run) : backup_run :=
  mkBackupRun (br_job r) (br_generation r) (br_trigger r) (br_key r) s t err (br_created r) now.

Definition job_status (s : backup_status) (j : backup_job) : backup_job :=
  mkBackupJob (bj_user j) s (bj_generation j) (bj_deletion j) (bj_last_run j) (bj_totals j)
    (bj_error j).

Definition job_finish (s : backup_status) (last : run_state) (t : run_totals)
    (err : option string) (j : backup_job) : backup_job :=
  mkBackupJob (bj_user j) s (bj_generation j) (bj_deletion j) (Some last) t err.

Definition snapshot_set (s : snapshot_state) (n : backup_snapshot) : backup_snapshot :=
  mkSnapshot (sn_job n) (sn_run n) s (sn_roots n) (sn_totals n) (sn_integrity n) (sn_created n).

(** ** Claiming a pass *)

Inductive claim_outcome : Type :=
| BackupClaimed (run : backup_run)
| BackupClaimOverlap
| BackupClaimDuplicate
| BackupClaimBlocked
| BackupClaimError (e : string).

Definition same_occurrence (jobID : string) (key : option string) (r : backup_run) : bool :=
  String.eqb (br_job r) jobID && bool_decide (is_Some key) && bool_decide (br_key r = key).

Definition same_generation (jobID : string) (generation : Z) (r : backup_run) : bool :=
  String.eqb (br_job r) jobID && (br_generation r =? generation).

(** [runID] is the identifier the insert generates. *)
Definition ClaimBackupJobPassContext (jobID : string) (trigger : run_trigger)
    (key : option string) (runID : string) (now : Z) (d : backup_db) : claim_outcome * backup_db :=
  if bool_decide (trigger = Manual) && bool_decide (is_Some key)
  then (BackupClaimError "manual backup run cannot have a scheduled local key", d)
  else match jobs d !! jobID with
  | None => (BackupClaimError "sql: no rows in result set", d)
  | Some j =>
      if job_in [BQUEUED; BSCANNING; BRUNNING; BVERIFYING] (bj_status j)
      then (BackupClaimOverlap, d)
      else if negb (job_in [BIDLE; BFAILED] (bj_status j)) then (BackupClaimBlocked, d)
      else
        let generation := bj_generation j in
        if any_row (same_occurrence jobID key) (runs d) then (BackupClaimDuplicate, d)
        else if any_row (same_generation jobID (generation + 1)) (runs d)
                || bool_decide (is_Some (runs d !! runID))
        then (BackupClaimError "insert backup run", d)
        else
          let run := mkBackupRun jobID (generation + 1) trigger key RQUEUED no_totals None now now in
          let '(updated, m) := update_row jobID
            (fun j => (bj_generation j =? generation) && job_in [BIDLE; BFAILED] (bj_status j))
            (fun j => mkBackupJob (bj_user j) BQUEUED (generation + 1) (bj_deletion j)
                        (bj_last_run j) (bj_totals j) None) (jobs d) in
          if updated
          then (BackupClaimed run, set_jobs (fun _ => m) (set_runs (insert runID run) d))
          else (BackupClaimError "backup job changed while locked", d)
  end.

(** What the selection of [ClaimNextQueuedBackupRunContext] accepts. *)
Definition claimable_run (d : backup_db) (r : backup_run) : bool :=
  run_in [RQUEUED] (br_state r)
  && match jobs d !! br_job r with
     | Some j => job_in [BQUEUED] (bj_status j) && (bj_generation j =? br_generation r)
                 && bool_decide (bj_deletion j = NotDeleting)
     | None => false
     end.

(** [pick] is the row the selection returned: the oldest one no other worker has
    locked. *)
Definition ClaimNextQueuedBackupRunContext (pick : option string) (now : Z) (d : backup_db)
    : option (string * backup_run) * backup_db :=
  match pick with
  | None => (None, d)
  | Some runID =>
      match runs d !! runID with
      | None => (None, d)
      | Some r =>
          if negb (claimable_run d r) then (None, d)
          else
            let '(_, rs) := update_row runID (fun r => run_in [RQUEUED] (br_state r))
                              (run_set RSCANNING now) (runs d) in
            let '(updated, js) := update_row (br_job r)
              (fun j => (bj_generation j =? br_generation r) && job_in [BQUEUED] (bj_status j))
              (job_status BSCANNING) (jobs d) in
            if updated
            then (Some (runID, run_set RSCANNING now r),
                  set_jobs (fun _ => js) (set_runs (fun _ => rs) d))
            else (None, d)
      end
  end.

(** ** Transitions and completion *)

Definition validBackupTransition (expectedState nextState : run_state) : bool :=
  match expectedState, nextState with
  | RQUEUED, RSCANNING | RSCANNING, RRUNNING | RRUNNING, RVERIFYING => true
  | _, _ => false
  end.

Definition owns_run (jobID : string) (generation : Z) (expected : run_state) (r : backup_run)
    : bool :=
  String.eqb (br_job r) jobID && (br_generation r =? generation) && run_in [expected] (br_state r).

Definition owns_job (generation : Z) (expected : run_state) (j : backup_job) : bool :=
  (bj_generation j =? generation) && bool_decide (Some (bj_status j) = status_of expected).

(** The run and the job change together or not at all. *)
Definition move_run (jobID : string) (generation : Z) (runID : string) (expected : run_state)
    (fr : backup_run -> backup_run) (fj : backup_job -> backup_job) (d : backup_db)
    : bool * backup_db :=
  let '(updated, rs) := update_row runID (owns_run jobID generation expected) fr (runs d) in
  if negb updated then (false, d)
  else
    let '(updated, js) := update_row jobID (owns_job generation expected) fj (jobs d) in
    if negb updated then (false, d)
    else (true, set_jobs (fun _ => js) (set_runs (fun _ => rs) d)).

Definition TransitionBackupRunContext (jobID : string) (generation : Z) (runID : string)
    (expectedState nextState : run_state) (now : Z) (d : backup_db) : bool * backup_db :=
  if negb (validBackupTransition expectedState nextState) then (false, d)
  else match status_of nextState with
  | None => (false, d)
  | Some s => move_run jobID generation runID expectedState (run_set nextState now) (job_status s) d
  end.

(** One event per run, for the runs users are told about. *)
Definition createBackupNotificationEventTx (runID : string) (d : backup_db) : backup_db :=
  match runs d !! runID with
  | Some r => if run_in [RCOMPLETED; RPARTIAL; RFAILED] (br_state r)
                 && negb (bool_decide (runID ∈ notified d))
              then set_notified (cons runID) d else d
  | None => d
  end.

Definition negative_totals (t : run_totals) : bool :=
  (tt_files t <? 0) || (tt_bytes t <? 0) || (tt_processed_files t <? 0)
  || (tt_processed_bytes t <? 0) || (tt_deduplicated_bytes t <? 0) || (tt_failed_files t <? 0).

Definition completeBackupRunContext (jobID : string) (generation : Z) (runID : string)
    (expectedState terminalState : run_state) (jobState : backup_status) (t : run_totals)
    (err : option string) (now : Z) (d : backup_db) : bool * backup_db :=
  if negative_totals t then (false, d)
  else
    let '(ok, d') := move_run jobID generation runID expectedState
      (run_finish terminalState t err now) (job_finish jobState terminalState t err) d in
    if ok then (true, createBackupNotificationEventTx runID d') else (false, d).

Definition FinalizeBackupRunContext (jobID : string) (generation : Z) (runID : string)
    (expectedState terminalState : run_state) (t : run_totals) (err : option string) (now : Z)
    (d : backup_db) : bool * backup_db :=
  if negb (run_in working expectedState) || negb (run_in [RCOMPLETED; RPARTIAL; RCANCELLED] terminalState)
  then (false, d)
  else completeBackupRunContext jobID generation runID expectedState terminalState BIDLE t err now d.

Definition FailBackupRunContext (jobID : string) (generation : Z) (runID : string)
    (expectedState : run_state) (errorCode : string) (now : Z) (d : backup_db) : bool * backup_db :=
  if negb (run_in unfinished expectedState) then (false, d)
  else completeBackupRunContext jobID generation runID expectedState RFAILED BFAILED no_totals
         (Some errorCode) now d.

(** ** Snapshots of a run *)

(** A run has one draft: UNIQUE (backup_job_id, backup_run_id). *)
Definition CreateBackupSnapshotDraftContext (snapshotID jobID runID : string)
    (selectedRoots : list string) (now : Z) (d : backup_db) : bool * backup_db :=
  if bool_decide (is_Some (snapshots d !! snapshotID))
     || any_row (fun n => String.eqb (sn_job n) jobID && String.eqb (sn_run n) runID) (snapshots d)
     || negb (match runs d !! runID with Some r => String.eqb (br_job r) jobID | None => false end)
  then (false, d)
  else (true, set_snapshots (insert snapshotID
    (mkSnapshot jobID runID PUBLISHING selectedRoots (mkSnapshotTotals 0 0 0 0 0) UNKNOWN now)) d).

(** Deleting a snapshot deletes its items and their block links. *)
Definition delete_snapshots (p : string -> backup_snapshot -> bool) (d : backup_db) : backup_db :=
  let gone id := match snapshots d !! id with Some n => p id n | None => false end in
  let item_gone id := match items d !! id with Some i => gone (it_snapshot i) | None => false end in
  set_items (filter (fun '(_, i) => gone (it_snapshot i) = false))
            (filter (fun '((i, _), _) => item_gone i = false))
    (set_snapshots (filter (fun '(id, n) => p id n = false)) d).

Definition is_draft (jobID runID : string) (n : backup_snapshot) : bool :=
  String.eqb (sn_job n) jobID && String.eqb (sn_run n) runID && snapshot_in [PUBLISHING] (sn_state n).

Definition DiscardBackupSnapshotDraftContext (snapshotID jobID runID : string) (d : backup_db)
    : backup_db :=
  delete_snapshots (fun id n => String.eqb id snapshotID && is_draft jobID runID n) d.

Definition BackupRunActiveContext (jobID : string) (generation : Z) (runID : string)
    (d : backup_db) : bool :=
  match runs d !! runID with
  | Some r =>
      String.eqb (br_job r) jobID && (br_generation r =? generation)
      && run_in working (br_state r)
      && match jobs d !! br_job r with
         | Some j => (bj_generation j =? br_generation r)
                     && bool_decide (Some (bj_status j) = status_of (br_state r))
         | None => false
         end
  | None => false
  end.

(** [maintenanceID] is the identifier of the retention request it enqueues. *)
Definition PublishBackupSnapshotAndFinalizeContext (jobID : string) (generation : Z)
    (runID snapshotID : string) (snapshotState : snapshot_state) (runState : run_state)
    (st : snapshot_totals) (t : run_totals) (maintenanceID : string) (now : Z) (d : backup_db)
    : bool * backup_db :=
  let '(updated, ns) := update_row snapshotID (is_draft jobID runID)
    (fun n => mkSnapshot (sn_job n) (sn_run n) snapshotState (sn_roots n) st VALID (sn_created n))
    (snapshots d) in
  if negb updated then (false, d)
  else
    let '(ok, d') := move_run jobID generation runID RVERIFYING
      (fun r => run_finish runState t (br_error r) now r) (job_finish BIDLE runState t None) d in
    if negb ok || bool_decide (is_Some (maintenance d !! maintenanceID)) then (false, d)
    else
      (true, createBackupNotificationEventTx runID
        (set_maintenance (insert maintenanceID (new_maintenance jobID RETENTION None None now)) id
          (set_snapshots (fun _ => ns) d'))).

(** ** Recovery, heartbeat, pause, resume and deletion *)

Definition minutes (n : Z) : Z := 60 * n.

Definition stale_run (now : Z) (d : backup_db) (r : backup_run) : bool :=
  run_in working (br_state r) && (br_updated r <? now - minutes 10)
  && match jobs d !! br_job r with
     | Some j => (bj_generation j =? br_generation r) && job_in job_working (bj_status j)
     | None => false
     end.

Definition recoveredCode : string := "BACKUP_RUN_RECOVERED".

(** The stale runs fail, then their jobs, then their drafts are deleted. *)
Definition RecoverStaleBackupRunsContext (now : Z) (d : backup_db) : backup_db :=
  let stale r := stale_run now d r in
  let of_job jobID g := any_row (fun r => stale r && String.eqb (br_job r) jobID
                                          && (br_generation r =? g)) (runs d) in
  let of_run jobID runID := match runs d !! runID with
                            | Some r => stale r && String.eqb (br_job r) jobID
                            | None => false
                            end in
  delete_snapshots (fun _ n => of_run (sn_job n) (sn_run n) && snapshot_in [PUBLISHING] (sn_state n))
    (set_jobs (map_imap (fun id j =>
        Some (if of_job id (bj_generation j) && job_in job_working (bj_status j)
              then mkBackupJob (bj_user j) BFAILED (bj_generation j) (bj_deletion j)
                     (Some RFAILED) (bj_totals j) (Some recoveredCode)
              else j)))
      (set_runs (update_where stale
        (fun r => run_finish RFAILED (br_totals r) (Some recoveredCode) now r)) d)).

Definition heartbeat_accepted (jobID : string) (generation : Z) (d : backup_db) (r : backup_run)
    : bool :=
  String.eqb (br_job r) jobID && (br_generation r =? generation) && run_in working (br_state r)
  && match jobs d !! br_job r with
     | Some j => (bj_generation j =? br_generation r) && job_in job_working (bj_status j)
     | None => false
     end.

Definition TouchBackupRunContext (jobID : string) (generation : Z) (runID : string) (now : Z)
    (d : backup_db) : backup_db :=
  set_runs (fun m => (update_row runID (heartbeat_accepted jobID generation d)
                        (fun r => run_set (br_state r) now r) m).2) d.

Definition cancel_runs (jobID : string) (now : Z) (m : gmap string backup_run)
    : gmap string backup_run :=
  update_where (fun r => String.eqb (br_job r) jobID && run_in unfinished (br_state r))
    (run_set RCANCELLED now) m.

Definition pausable : list backup_status := [BIDLE; BFAILED; BQUEUED; BSCANNING; BRUNNING; BVERIFYING].

Definition handlePauseBackup (jobID userID : string) (now : Z) (d : backup_db) : bool * backup_db :=
  let '(updated, js) := update_row jobID
    (fun j => String.eqb (bj_user j) userID && job_in pausable (bj_status j))
    (job_status BPAUSED) (jobs d) in
  if negb updated then (false, d)
  else (true, set_schedules_on (fun s => s ∖ {[ jobID ]})
                (set_runs (cancel_runs jobID now) (set_jobs (fun _ => js) d))).

(** [next] says whether the cron expression has a next run. *)
Definition handleResumeBackup (jobID userID : string) (next : bool) (d : backup_db)
    : bool * backup_db :=
  let '(updated, js) := update_row jobID
    (fun j => String.eqb (bj_user j) userID && job_in [BPAUSED] (bj_status j))
    (job_status BIDLE) (jobs d) in
  if negb (updated && next) then (false, d)
  else (true, set_schedules_on (fun s => {[ jobID ]} ∪ s) (set_jobs (fun _ => js) d)).

Definition RequestBackupRepositoryDeletionContext (jobID userID maintenanceID : string) (now : Z)
    (d : backup_db) : bool * backup_db :=
  let '(updated, js) := update_row jobID
    (fun j => String.eqb (bj_user j) userID && bool_decide (bj_deletion j = NotDeleting))
    (fun j => mkBackupJob (bj_user j) BDELETING (bj_generation j) DeletingRepository
                (bj_last_run j) (bj_totals j) (bj_error j)) (jobs d) in
  if negb updated || bool_decide (is_Some (maintenance d !! maintenanceID)) then (false, d)
  else
    (true, set_maintenance (insert maintenanceID
        (new_maintenance jobID DELETE_REPOSITORY (Some 1000) None now)) id
      (set_snapshots (update_where
          (fun n => String.eqb (sn_job n) jobID && snapshot_in [PUBLISHING; READY; PARTIAL] (sn_state n))
          (snapshot_set EXPIRED))
        (set_runs (cancel_runs jobID now)
          (set_schedules_on (fun s => s ∖ {[ jobID ]}) (set_jobs (fun _ => js) d))))).

(** The job row goes when every pack is deleted; the foreign keys take its runs,
    snapshots, packs and maintenance with it and refuse while a block remains. *)
Definition DeleteBackupJobAfterRepositoryCleanupContext (jobID : string) (d : backup_db)
    : res string bool * backup_db :=
  match jobs d !! jobID with
  | None => (Ok false, d)
  | Some j =>
      if negb (job_in [BDELETING] (bj_status j))
         || any_row (fun p => String.eqb (pk_job p) jobID
                              && negb (bool_decide (pk_state p = PackDeleted))) (packs d)
      then (Ok false, d)
      else if any_row (fun b => String.eqb (bl_job b) jobID) (blocks d)
      then (Err "violates foreign key constraint on backup_blocks", d)
      else
        let d := delete_snapshots (fun _ n => String.eqb (sn_job n) jobID) d in
        let gone id := match maintenance d !! id with
                       | Some m => String.eqb (mt_job m) jobID
                       | None => false
                       end in
        (Ok true,
         set_maintenance (filter (fun '(_, m) => String.eqb (mt_job m) jobID = false))
                         (filter (fun '(_, t) => gone (vt_maintenance t) = false))
           (set_packs (filter (fun '(_, p) => String.eqb (pk_job p) jobID = false)) id
             (set_runs (filter (fun '(_, r) => String.eqb (br_job r) jobID = false))
               (set_jobs (delete jobID) d))))
  end.

(** What the transaction that suspends an account (SuspendUser, src/backend/internal/db/users.go)
    does to the backups of the user: jobs in a pass are paused, their runs and their
    maintenance cancelled, and the schedules switched off. *)
Definition user_owns (userID : string) (d : backup_db) (jobID : string) : bool :=
  match jobs d !! jobID with Some j => String.eqb (bj_user j) userID | None => false end.

Definition cancel_maintenance (m : maintenance_row) : maintenance_row :=
  mkMaintenance (mt_job m) (mt_kind m) MCANCELLED (mt_budget m) (mt_mode m) (mt_attempts m)
    (mt_next_retry m) (mt_deadline m) (mt_lease m) (mt_worker m) (mt_generation m) (mt_error m)
    (mt_processed m) (mt_total m) (mt_checked m) (mt_missing m) (mt_damaged m) (mt_created m).

Definition suspend_backups (userID : string) (now : Z) (d : backup_db) : backup_db :=
  set_schedules_on (filter (fun jobID => user_owns userID d jobID = false))
    (set_maintenance (update_where (fun m => user_owns userID d (mt_job m)
         && maintenance_in [MPENDING; MRUNNING; MRETRY_WAIT; MCANCELLING] (mt_state m)) cancel_maintenance) id
      (set_runs (update_where (fun r => user_owns userID d (br_job r) && run_in unfinished (br_state r))
                   (run_set RCANCELLED now))
        (set_jobs (update_where (fun j => String.eqb (bj_user j) userID
             && job_in [BQUEUED; BSCANNING; BRUNNING; BVERIFYING] (bj_status j)) (job_status BPAUSED)) d))).

(** ** The system of all transactions *)

Inductive backup_op : Type :=
| OClaim (jobID : string) (trigger : run_trigger) (key : option string) (runID : string)
| ONext (pick : option string)
| OTransition (jobID : string) (generation : Z) (runID : string) (e n : run_state)
| OFinalize (jobID : string) (generation : Z) (runID : string) (e f : run_state) (t : run_totals)
    (err : option string)
| OFail (jobID : string) (generation : Z) (runID : string) (e : run_state) (code : string)
| OPublish (jobID : string) (generation : Z) (runID snapshotID : string) (complete : bool)
    (st : snapshot_totals) (t : run_totals) (maintenanceID : string)
| ODraft (snapshotID jobID runID : string) (roots : list string)
| ODiscard (snapshotID jobID runID : string)
| ORecover
| OTouch (jobID : string) (generation : Z) (runID : string)
| OPause (jobID userID : string)
| OResume (jobID userID : string) (next : bool)
| ODelete (jobID userID maintenanceID : string)
| OCleanup (jobID : string)
| OSuspend (userID : string).

(** A run with unstable files publishes PARTIAL. *)
Definition apply_op (now : Z) (o : backup_op) (d : backup_db) : backup_db :=
  match o with
  | OClaim jobID trigger key runID => (ClaimBackupJobPassContext jobID trigger key runID now d).2
  | ONext pick => (ClaimNextQueuedBackupRunContext pick now d).2
  | OTransition jobID g runID e n => (TransitionBackupRunContext jobID g runID e n now d).2
  | OFinalize jobID g runID e f t err => (FinalizeBackupRunContext jobID g runID e f t err now d).2
  | OFail jobID g runID e code => (FailBackupRunContext jobID g runID e code now d).2
  | OPublish jobID g runID snapshotID complete st t m =>
      (PublishBackupSnapshotAndFinalizeContext jobID g runID snapshotID
         (if complete then READY else PARTIAL) (if complete then RCOMPLETED else RPARTIAL)
         st t m now d).2
  | ODraft snapshotID jobID runID roots =>
      (CreateBackupSnapshotDraftContext snapshotID jobID runID roots now d).2
  | ODiscard snapshotID jobID runID => DiscardBackupSnapshotDraftContext snapshotID jobID runID d
  | ORecover => RecoverStaleBackupRunsContext now d
  | OTouch jobID g runID => TouchBackupRunContext jobID g runID now d
  | OPause jobID userID => (handlePauseBackup jobID userID now d).2
  | OResume jobID userID next => (handleResumeBackup jobID userID next d).2
  | ODelete jobID userID m => (RequestBackupRepositoryDeletionContext jobID userID m now d).2
  | OCleanup jobID => (DeleteBackupJobAfterRepositoryCleanupContext jobID d).2
  | OSuspend userID => suspend_backups userID now d
  end.

(** Everything else in the repository - the catalog, retention, compaction and
    verification - leaves jobs and runs alone and makes no snapshot visible. *)
Definition catalog_step (d d' : backup_db) : Prop :=
  jobs d' = jobs d /\ runs d' = runs d
  /\ forall id n, snapshots d' !! id = Some n -> snapshot_in visible (sn_state n) = true ->
       snapshots d !! id = Some n.

Inductive backup_step : backup_db -> backup_db -> Prop :=
| step_op now o d : backup_step d (apply_op now o d)
| step_catalog d d' : catalog_step d d' -> backup_step d d'.

Definition backup_reach : backup_db -> backup_db -> Prop := rtc backup_step.

(** ** The invariant *)

Definition job_active (s : backup_status) : bool :=
  job_in [BQUEUED; BSCANNING; BRUNNING; BVERIFYING] s.

(** The run of a job that is in progress. *)
Definition current (d : backup_db) (jobID : string) (j : backup_job) (r : backup_run) : Prop :=
  br_job r = jobID /\ br_generation r = bj_generation j
  /\ status_of (br_state r) = Some (bj_status j).

Record consistent (d : backup_db) : Prop := mkConsistent {
  c_run : forall id r, runs d !! id = Some r -> is_Some (status_of (br_state r)) ->
    exists j, jobs d !! br_job r = Some j /\ current d (br_job r) j r;
  c_job : forall id j, jobs d !! id = Some j -> job_active (bj_status j) = true ->
    exists rid r, runs d !! rid = Some r /\ current d id j r;
  c_gen : forall id r j, runs d !! id = Some r -> jobs d !! br_job r = Some j ->
    br_generation r <= bj_generation j;
  c_unique : forall id id' r r', runs d !! id = Some r -> runs d !! id' = Some r' ->
    br_job r = br_job r' -> br_generation r = br_generation r' -> id = id';
  c_snapshot : forall id n, snapshots d !! id = Some n -> snapshot_in visible (sn_state n) = true ->
    exists r, runs d !! sn_run n = Some r /\ br_job r = sn_job n
      /\ br_state r = (if bool_decide (sn_state n = READY) then RCOMPLETED else RPARTIAL);
}.

Lemma status_active s b : status_of s = Some b -> job_active b = true.
Proof. by destruct s; cbn; intros [= <-]. Qed.

Lemma job_active_inv b : job_active b = true -> exists s, status_of s = Some b.
Proof.
  unfold job_active, job_in. rewrite in_true. intros H.
  destruct b; try set_solver; [by exists RQUEUED|by exists RSCANNING|by exists RRUNNING|by exists RVERIFYING].
Qed.

Lemma status_of_inj s s' b : status_of s = Some b -> status_of s' = Some b -> s = s'.
Proof. destruct s, s'; cbn; congruence. Qed.

(** ** Shapes of change *)

(** Some runs in progress end, and their jobs with them. *)
Record finishes (d d' : backup_db) : Prop := mkFinishes {
  f_runs : forall id, runs d' !! id = runs d !! id \/ exists r r',
    runs d !! id = Some r /\ runs d' !! id = Some r' /\ br_job r' = br_job r
    /\ br_generation r' = br_generation r /\ is_Some (status_of (br_state r))
    /\ status_of (br_state r') = None;
  f_jobs : forall id, jobs d' !! id = jobs d !! id \/ exists j j',
    jobs d !! id = Some j /\ jobs d' !! id = Some j' /\ bj_generation j' = bj_generation j
    /\ job_active (bj_status j') = false;
  f_open : forall id r, runs d' !! id = Some r -> is_Some (status_of (br_state r)) ->
    jobs d' !! br_job r = jobs d !! br_job r;
  f_kept : forall id r j, runs d !! id = Some r -> jobs d' !! br_job r = Some j ->
    job_active (bj_status j) = true -> current d (br_job r) j r -> runs d' !! id = Some r;
}.

Lemma finishes_consistent d d' :
  consistent d -> finishes d d' ->
  (forall id n, snapshots d' !! id = Some n -> snapshot_in visible (sn_state n) = true ->
     snapshots d !! id = Some n \/ exists r, runs d' !! sn_run n = Some r /\ br_job r = sn_job n
       /\ br_state r = (if bool_decide (sn_state n = READY) then RCOMPLETED else RPARTIAL)) ->
  consistent d'.
Proof.
  intros [Hr Hj Hg Hu Hs] [Fr Fj Fo Fk] Hn.
  assert (forall id r', runs d' !! id = Some r' -> exists r, runs d !! id = Some r
            /\ br_job r' = br_job r /\ br_generation r' = br_generation r) as Hold.
  { intros id r' H'. destruct (Fr id) as [E|(r & r1 & H1 & H2 & H3 & H4 & _)].
    - rewrite H' in E. by exists r'.
    - rewrite H' in H2. injection H2 as <-. by exists r. }
  split.
  - intros id r Hid Ha. rewrite (Fo id r Hid Ha).
    destruct (Fr id) as [E|(r0 & r1 & _ & H2 & _ & _ & _ & H6)].
    + rewrite Hid in E. by destruct (Hr id r) as (j & ? & ?); [done|done|exists j].
    + rewrite Hid in H2. injection H2 as <-. rewrite H6 in Ha. by destruct Ha.
  - intros id j Hid Ha. destruct (Fj id) as [E|(j0 & j1 & _ & H2 & _ & H4)].
    + rewrite Hid in E. destruct (Hj id j) as (rid & r & Hrid & Hc); [done|done|].
      exists rid, r. split; [|done]. pose proof Hc as (Hc1 & _). subst id.
      by apply (Fk rid r j).
    + rewrite Hid in H2. injection H2 as <-. congruence.
  - intros id r' j' Hid Hj'. destruct (Hold id r' Hid) as (r & H1 & H2 & H3). rewrite H2 in Hj'.
    destruct (Fj (br_job r)) as [E|(j0 & j1 & H4 & H5 & H6 & _)].
    + rewrite Hj' in E. rewrite H3. by apply (Hg id r).
    + rewrite Hj' in H5. injection H5 as <-. rewrite H3, H6. by apply (Hg id r).
  - intros id id' r r' Hid Hid' Ej Eg.
    destruct (Hold id r Hid) as (r1 & H1 & E1 & E2). destruct (Hold id' r' Hid') as (r2 & H2 & E3 & E4).
    apply (Hu id id' r1 r2); congruence.
  - intros id n Hid Hv. destruct (Hn id n Hid Hv) as [Hold'|?]; [|done].
    destruct (Hs id n Hold' Hv) as (r & H1 & H2 & H3).
    exists r. split; [|done]. destruct (Fr (sn_run n)) as [E|(r0 & r1 & H4 & _ & _ & _ & H5 & _)].
    + by rewrite E.
    + rewrite H1 in H4. injection H4 as <-. rewrite H3 in H5. case_bool_decide; by destruct H5.
Qed.

(** One run and its job change together. *)
Lemma moved_spec jobID g runID e fr fj d d' :
  move_run jobID g runID e fr fj d = (true, d') ->
  exists r j, runs d !! runID = Some r /\ jobs d !! jobID = Some j /\ br_job r = jobID
    /\ br_generation r = g /\ br_state r = e /\ bj_generation j = g
    /\ Some (bj_status j) = status_of e
    /\ d' = set_jobs (fun _ => <[jobID := fj j]> (jobs d)) (set_runs (fun _ => <[runID := fr r]> (runs d)) d).
Proof.
  unfold move_run.
  destruct (update_row_spec runID (owns_run jobID g e) fr (runs d)) as [(r & Hr & Hp & ->)|[-> _]];
    [|done]. cbn [negb].
  destruct (update_row_spec jobID (owns_job g e) fj (jobs d)) as [(j & Hj & Hq & ->)|[-> _]];
    [|done]. cbn [negb]. intros [= <-].
  unfold owns_run in Hp. apply andb_true_iff in Hp as [Hp Hp3].
  apply andb_true_iff in Hp as [Hp1 Hp2]. unfold owns_job in Hq. apply andb_true_iff in Hq as [Hq1 Hq2].
  apply String.eqb_eq in Hp1. unfold run_in in Hp3. rewrite in_true in Hp3.
  apply bool_decide_eq_true in Hq2.
  exists r, j. split_and!; try done; try lia. set_solver.
Qed.

Lemma moved_consistent jobID g runID e fr fj d d' :
  consistent d -> move_run jobID g runID e fr fj d = (true, d') ->
  (forall r, br_job (fr r) = br_job r /\ br_generation (fr r) = br_generation r) ->
  (forall j, bj_generation (fj j) = bj_generation j) ->
  (forall r j, status_of (br_state (fr r)) = Some (bj_status (fj j))
     \/ status_of (br_state (fr r)) = None /\ job_active (bj_status (fj j)) = false) ->
  consistent d'.
Proof.
  intros [Hr Hj Hg Hu Hs] Hm Hfr Hfj Hst.
  apply moved_spec in Hm as (r & j & Hrid & Hjid & Ej & Eg & Es & Ejg & Est & ->).
  destruct (Hfr r) as [F1 F2]. pose proof (Hfj j) as F3.
  assert (forall id r0, runs d !! id = Some r0 -> br_job r0 = jobID ->
            is_Some (status_of (br_state r0)) -> id = runID) as Honly.
  { intros id r0 H1 H2 H3. destruct (Hr id r0 H1 H3) as (j0 & Hj0 & _ & Hc & _).
    rewrite H2, Hjid in Hj0. injection Hj0 as <-. apply (Hu id runID r0 r); congruence. }
  split; cbn [jobs runs snapshots set_jobs set_runs].
  - intros id r1 H1 Ha. destruct (decide (id = runID)) as [->|Hne].
    + rewrite lookup_insert_eq in H1. injection H1 as <-. rewrite F1, Ej, lookup_insert_eq.
      eexists. split; [done|]. destruct (Hst r j) as [H|[H _]].
      * unfold current. rewrite F1, F2, F3. split_and!; congruence.
      * rewrite H in Ha. by destruct Ha.
    + rewrite lookup_insert_ne in H1 by done.
      destruct (decide (br_job r1 = jobID)) as [E|E].
      * by destruct Hne; apply (Honly id r1).
      * rewrite lookup_insert_ne by congruence. by apply (Hr id).
  - intros id j1 H1 Ha. destruct (decide (id = jobID)) as [->|Hne].
    + rewrite lookup_insert_eq in H1. injection H1 as <-. exists runID, (fr r).
      rewrite lookup_insert_eq. split; [done|]. destruct (Hst r j) as [H|[_ H]]; [|congruence].
      unfold current. rewrite F1, F2, F3. split_and!; congruence.
    + rewrite lookup_insert_ne in H1 by done. destruct (Hj id j1 H1 Ha) as (rid & r1 & Hr1 & Hc).
      exists rid, r1. split; [|done]. rewrite lookup_insert_ne; [done|]. intros <-.
      rewrite Hrid in Hr1. injection Hr1 as <-. destruct Hc as (Hc & _). congruence.
  - intros id r1 j1 H1 H2.
    assert (exists r0, runs d !! id = Some r0 /\ br_job r1 = br_job r0
              /\ br_generation r1 = br_generation r0) as (r0 & R1 & R2 & R3).
    { destruct (decide (id = runID)) as [->|Hne].
      - rewrite lookup_insert_eq in H1. injection H1 as <-. by exists r.
      - rewrite lookup_insert_ne in H1 by done. by exists r1. }
    rewrite R2 in H2. rewrite R3. destruct (decide (br_job r0 = jobID)) as [E|E].
    + rewrite E, lookup_insert_eq in H2. injection H2 as <-. rewrite F3.
      apply (Hg id r0); [done|by rewrite E].
    + rewrite lookup_insert_ne in H2 by done. by apply (Hg id r0).
  - intros id id' r1 r2 H1 H2 E1 E2.
    assert (forall i x, <[runID:=fr r]> (runs d) !! i = Some x -> exists y, runs d !! i = Some y
              /\ br_job x = br_job y /\ br_generation x = br_generation y) as Hold.
    { intros i x Hx. destruct (decide (i = runID)) as [->|Hne].
      - rewrite lookup_insert_eq in Hx. injection Hx as <-. by exists r.
      - rewrite lookup_insert_ne in Hx by done. by exists x. }
    destruct (Hold _ _ H1) as (y1 & ? & ? & ?). destruct (Hold _ _ H2) as (y2 & ? & ? & ?).
    apply (Hu id id' y1 y2); congruence.
  - intros id n H1 Hv. destruct (Hs id n H1 Hv) as (r1 & Hr1 & Hb & Hstate).
    exists r1. split; [|done]. rewrite lookup_insert_ne; [done|]. intros Heq. subst.
    rewrite Hrid in Hr1. injection Hr1 as <-. rewrite Hstate in Est.
    case_bool_decide; cbn in Est; discriminate.
Qed.

(** Only snapshots changed. *)
Lemma same_runs_consistent d d' :
  consistent d -> jobs d' = jobs d -> runs d' = runs d ->
  (forall id n, snapshots d' !! id = Some n -> snapshot_in visible (sn_state n) = true ->
     snapshots d !! id = Some n \/ exists r, runs d' !! sn_run n = Some r /\ br_job r = sn_job n
       /\ br_state r = (if bool_decide (sn_state n = READY) then RCOMPLETED else RPARTIAL)) ->
  consistent d'.
Proof.
  intros Hc Ej Er Hs. apply (finishes_consistent d); [done| |exact Hs].
  split; intros; rewrite ?Ej, ?Er in *; auto.
Qed.

Lemma visible_not_draft n jobID runID :
  is_draft jobID runID n = true -> snapshot_in visible (sn_state n) = false.
Proof.
  unfold is_draft. intros H. apply andb_true_iff in H as [_ H]. unfold snapshot_in in H.
  rewrite in_true in H. apply list_elem_of_singleton in H. by rewrite H.
Qed.

Lemma notify_same runID d :
  jobs (createBackupNotificationEventTx runID d) = jobs d
  /\ runs (createBackupNotificationEventTx runID d) = runs d
  /\ snapshots (createBackupNotificationEventTx runID d) = snapshots d.
Proof. unfold createBackupNotificationEventTx. repeat case_match; done. Qed.

Lemma notify_consistent runID d : consistent d -> consistent (createBackupNotificationEventTx runID d).
Proof.
  intros Hc. destruct (notify_same runID d) as (Ej & Er & Es).
  apply (same_runs_consistent d); [done..|]. rewrite Es. auto.
Qed.

Lemma delete_snapshots_consistent p d : consistent d -> consistent (delete_snapshots p d).
Proof.
  intros Hc. apply (same_runs_consistent d); [done..|]. cbn. intros id n H _. left.
  by apply map_lookup_filter_Some in H as [? _].
Qed.

Lemma complete_consistent jobID g runID e f s t err now d :
  status_of f = None -> job_active s = false -> consistent d ->
  consistent (completeBackupRunContext jobID g runID e f s t err now d).2.
Proof.
  intros Hf Hs Hc. unfold completeBackupRunContext. destruct (negative_totals t); [done|].
  destruct (move_run _ _ _ _ _ _ _) as [[] d'] eqn:E; [|done].
  apply notify_consistent. apply (moved_consistent _ _ _ _ _ _ _ _ Hc E); try done.
  intros r j. by right.
Qed.

Lemma claim_consistent jobID trigger key runID now d :
  consistent d -> consistent (ClaimBackupJobPassContext jobID trigger key runID now d).2.
Proof.
  intros Hc. pose proof Hc as [Hr Hj Hg Hu Hs]. unfold ClaimBackupJobPassContext.
  destruct (_ && _); [done|]. destruct (jobs d !! jobID) as [j|] eqn:Ej; [|done].
  destruct (job_in _ (bj_status j)) eqn:Ea; [done|].
  destruct (negb _) eqn:Ei; [done|]. apply negb_false_iff in Ei.
  destruct (any_row (same_occurrence _ _) _); [done|].
  destruct (any_row (same_generation _ _) _ || _) eqn:Eg; [done|].
  apply orb_false_iff in Eg as [_ Eg]. apply bool_decide_eq_false in Eg.
  rewrite (update_row_hit jobID _ _ _ j) by (done || by rewrite Z.eqb_refl).
  assert (forall id r, runs d !! id = Some r -> br_job r = jobID ->
            br_generation r <= bj_generation j /\ ~ is_Some (status_of (br_state r))) as Hold.
  { intros id r H1 H2. split; [apply (Hg id r); [done|by rewrite H2]|].
    intros H3. destruct (Hr id r H1 H3) as (j0 & Hj0 & _ & _ & Hst). rewrite H2, Ej in Hj0.
    injection Hj0 as <-. apply status_active in Hst. unfold job_active in Hst. congruence. }
  assert (runs d !! runID = None) as Hfresh by by apply eq_None_not_Some.
  set (run := mkBackupRun _ _ _ _ _ _ _ _ _).
  split; cbn [jobs runs snapshots set_jobs set_runs snd].
  - intros id r H1 Ha. destruct (decide (id = runID)) as [->|Hne].
    + rewrite lookup_insert_eq in H1. injection H1 as <-. cbn [br_job run].
      rewrite lookup_insert_eq. eexists. split; [done|]. by split_and!.
    + rewrite lookup_insert_ne in H1 by done.
      destruct (decide (br_job r = jobID)) as [E|E]; [by destruct (Hold id r H1 E)|].
      rewrite lookup_insert_ne by congruence. by apply (Hr id).
  - intros id j1 H1 Ha. destruct (decide (id = jobID)) as [->|Hne].
    + rewrite lookup_insert_eq in H1. injection H1 as <-. exists runID, run.
      rewrite lookup_insert_eq. by split_and!.
    + rewrite lookup_insert_ne in H1 by done. destruct (Hj id j1 H1 Ha) as (rid & r1 & Hr1 & Hcur).
      exists rid, r1. split; [|done]. rewrite lookup_insert_ne; [done|congruence].
  - intros id r1 j1 H1 H2. destruct (decide (id = runID)) as [->|Hne].
    + rewrite lookup_insert_eq in H1. injection H1 as <-. cbn [br_job run] in H2.
      rewrite lookup_insert_eq in H2. injection H2 as <-. cbn. lia.
    + rewrite lookup_insert_ne in H1 by done. destruct (decide (br_job r1 = jobID)) as [E|E].
      * rewrite E, lookup_insert_eq in H2. injection H2 as <-. cbn.
        destruct (Hold id r1 H1 E). lia.
      * rewrite lookup_insert_ne in H2 by congruence. by apply (Hg id r1).
  - assert (forall id r, runs d !! id = Some r -> br_job r = br_job run ->
              br_generation r = br_generation run -> False) as Hno.
    { intros id r H1 H2 H3. destruct (Hold id r H1 H2) as [Hle _]. cbn in H3. lia. }
    intros id id' r1 r2 H1 H2 E1 E2.
    destruct (decide (id = runID)) as [->|Hn1], (decide (id' = runID)) as [->|Hn2]; [done| | |].
    + rewrite lookup_insert_eq in H1. injection H1 as <-. rewrite lookup_insert_ne in H2 by done.
      by destruct (Hno id' r2).
    + rewrite lookup_insert_eq in H2. injection H2 as <-. rewrite lookup_insert_ne in H1 by done.
      by destruct (Hno id r1).
    + rewrite lookup_insert_ne in H1 by done. rewrite lookup_insert_ne in H2 by done.
      by apply (Hu id id' r1 r2).
  - intros id n H1 Hv. destruct (Hs id n H1 Hv) as (r1 & Hr1 & Hrest). exists r1. split; [|done].
    rewrite lookup_insert_ne; [done|congruence].
Qed.

Lemma next_consistent pick now d :
  consistent d -> consistent (ClaimNextQueuedBackupRunContext pick now d).2.
Proof.
  intros Hc. unfold ClaimNextQueuedBackupRunContext.
  destruct pick as [runID|]; [|done]. destruct (runs d !! runID) as [r|] eqn:Er; [|done].
  destruct (claimable_run d r) eqn:Ec; [|done]. cbn [negb].
  unfold claimable_run in Ec. apply andb_true_iff in Ec as [Eq Ec].
  destruct (jobs d !! br_job r) as [j|] eqn:Ej; [|done].
  apply andb_true_iff in Ec as [Ec _]. apply andb_true_iff in Ec as [Eb Eg].
  rewrite (update_row_hit runID _ _ _ r) by done.
  rewrite (update_row_hit (br_job r) _ _ _ j) by (done || by rewrite Eg, Eb). cbn [snd].
  unfold job_in in Eb. rewrite in_true in Eb. apply list_elem_of_singleton in Eb.
  unfold run_in in Eq. rewrite in_true in Eq. apply list_elem_of_singleton in Eq.
  apply (moved_consistent (br_job r) (br_generation r) runID RQUEUED (run_set RSCANNING now)
    (job_status BSCANNING) d); [done| |done|done|].
  - unfold move_run. rewrite (update_row_hit runID _ _ _ r); [|done|].
    2: { unfold owns_run. by rewrite String.eqb_refl, Z.eqb_refl, Eq. }
    cbn [negb]. rewrite (update_row_hit (br_job r) _ _ _ j); [done|done|].
    unfold owns_job. rewrite Eg, Eb. by rewrite bool_decide_true.
  - intros r0 j0. by left.
Qed.

Lemma refused_move jobID g runID e fr fj d d' :
  move_run jobID g runID e fr fj d = (false, d') -> d' = d.
Proof.
  unfold move_run. destruct (update_row runID _ _ _) as [[] rs]; cbn [negb]; [|by intros [= <-]].
  destruct (update_row jobID _ _ _) as [[] js]; cbn [negb]; by intros [= <-].
Qed.

Lemma transition_consistent jobID g runID e n now d :
  consistent d -> consistent (TransitionBackupRunContext jobID g runID e n now d).2.
Proof.
  intros Hc. unfold TransitionBackupRunContext. destruct (negb _); [done|].
  destruct (status_of n) as [s|] eqn:Es; [|done].
  destruct (move_run _ _ _ _ _ _ _) as [[] d'] eqn:E; [|by apply refused_move in E as ->].
  apply (moved_consistent _ _ _ _ _ _ _ _ Hc E); try done. intros r j. by left.
Qed.

Lemma publish_consistent jobID g runID snapshotID complete st t m now d :
  consistent d ->
  consistent (apply_op now (OPublish jobID g runID snapshotID complete st t m) d).
Proof.
  intros Hc. cbn [apply_op]. unfold PublishBackupSnapshotAndFinalizeContext.
  destruct (update_row_spec snapshotID (is_draft jobID runID)
    (fun n => mkSnapshot (sn_job n) (sn_run n) (if complete then READY else PARTIAL) (sn_roots n)
                st VALID (sn_created n)) (snapshots d)) as [(n & Hn & Hd & ->)|[-> _]]; [|done].
  cbn [negb]. destruct (move_run _ _ _ _ _ _ _) as [[] d'] eqn:E; cbn [negb orb]; [|done].
  case_bool_decide; [done|]. cbn [snd]. apply notify_consistent.
  assert (consistent d') as Hc'.
  { apply (moved_consistent _ _ _ _ _ _ _ _ Hc E); try done. intros r j. right. by destruct complete. }
  apply moved_spec in E as (r & j & Hr & _ & Ej & _ & _ & _ & _ & ->).
  apply (same_runs_consistent _ _ Hc'); [done..|]. cbn. intros id n' H1 Hv.
  destruct (decide (id = snapshotID)) as [->|Hne].
  - rewrite lookup_insert_eq in H1. injection H1 as <-. right. cbn.
    unfold is_draft in Hd. apply andb_true_iff in Hd as [Hd _]. apply andb_true_iff in Hd as [Hj Hrun].
    apply String.eqb_eq in Hj, Hrun. rewrite Hrun, lookup_insert_eq. eexists. split; [done|].
    cbn. split; [congruence|]. by destruct complete.
  - rewrite lookup_insert_ne in H1 by done. by left.
Qed.

Lemma draft_consistent snapshotID jobID runID roots now d :
  consistent d -> consistent (CreateBackupSnapshotDraftContext snapshotID jobID runID roots now d).2.
Proof.
  intros Hc. unfold CreateBackupSnapshotDraftContext. destruct (_ || _); [done|].
  apply (same_runs_consistent d); [done..|]. cbn. intros id n H1 Hv. left.
  destruct (decide (id = snapshotID)) as [->|Hne].
  - rewrite lookup_insert_eq in H1. injection H1 as <-. done.
  - by rewrite lookup_insert_ne in H1.
Qed.

(** Cancelling every run of a job in progress ends them with the job. *)
Lemma cancel_finishes jobID now d d' j j' :
  consistent d -> jobs d !! jobID = Some j -> bj_generation j' = bj_generation j ->
  job_active (bj_status j') = false ->
  jobs d' = <[jobID := j']> (jobs d) -> runs d' = cancel_runs jobID now (runs d) ->
  finishes d d'.
Proof.
  intros Hc Hj Hg Ha Ej Er.
  assert (forall id, runs d' !! id = (fun r => if String.eqb (br_job r) jobID
      && run_in unfinished (br_state r) then run_set RCANCELLED now r else r) <$> runs d !! id) as Hl.
  { intros id. rewrite Er. unfold cancel_runs. apply update_where_lookup. }
  split.
  - intros id. rewrite Hl. destruct (runs d !! id) as [r|] eqn:E; [|by left]. cbn.
    destruct (String.eqb (br_job r) jobID && _) eqn:Ep; [|by left]. right.
    apply andb_true_iff in Ep as [_ Ep]. apply unfinished_status in Ep.
    exists r. eexists. by split_and!.
  - intros id. rewrite Ej. destruct (decide (id = jobID)) as [->|Hne].
    + right. exists j, j'. rewrite lookup_insert_eq. by split_and!.
    + left. by rewrite lookup_insert_ne.
  - intros id r H1 Hopen. rewrite Hl in H1. apply fmap_Some in H1 as (r0 & _ & ->).
    rewrite Ej. destruct (String.eqb (br_job r0) jobID) eqn:Eb; cbn [andb] in *.
    + destruct (run_in unfinished (br_state r0)) eqn:Eu; [by destruct Hopen|].
      apply unfinished_status in Hopen. congruence.
    + apply String.eqb_neq in Eb. by rewrite lookup_insert_ne by congruence.
  - intros id r j1 H1 H2 Ha1 (Hcj & _ & Hst). rewrite Hl, H1. cbn. rewrite Ej in H2.
    destruct (String.eqb (br_job r) jobID) eqn:Eb; [|done]. apply String.eqb_eq in Eb.
    rewrite Eb, lookup_insert_eq in H2. injection H2 as <-. congruence.
Qed.

Lemma pause_consistent jobID userID now d :
  consistent d -> consistent (handlePauseBackup jobID userID now d).2.
Proof.
  intros Hc. unfold handlePauseBackup.
  match goal with |- context [update_row jobID ?p ?f ?m] =>
    destruct (update_row_spec jobID p f m) as [(j & Hj & _ & ->)|[-> _]] end; [|done].
  cbn [negb snd]. eapply finishes_consistent; [exact Hc| |cbn; auto].
  by apply (cancel_finishes jobID now d _ j (job_status BPAUSED j)).
Qed.

Lemma resume_consistent jobID userID next d :
  consistent d -> consistent (handleResumeBackup jobID userID next d).2.
Proof.
  intros Hc. unfold handleResumeBackup.
  match goal with |- context [update_row jobID ?p ?f ?m] =>
    destruct (update_row_spec jobID p f m) as [(j & Hj & Hp & ->)|[-> _]] end; [|done].
  destruct next; [|done]. cbn [negb andb snd].
  apply andb_true_iff in Hp as [_ Hp]. unfold job_in in Hp. rewrite in_true in Hp.
  apply list_elem_of_singleton in Hp.
  eapply finishes_consistent; [exact Hc| |cbn; auto]. split; cbn.
  - by left.
  - intros id. destruct (decide (id = jobID)) as [->|Hne].
    + right. exists j. eexists. rewrite lookup_insert_eq. by split_and!.
    + left. by rewrite lookup_insert_ne.
  - intros id r H1 Ho. destruct (c_run d Hc id r H1 Ho) as (j1 & H2 & _ & _ & Hst).
    rewrite lookup_insert_ne; [done|]. intros Heq. rewrite <- Heq, Hj in H2. injection H2 as <-.
    rewrite Hp in Hst. apply status_active in Hst. done.
  - by intros.
Qed.

Lemma request_deletion_consistent jobID userID m now d :
  consistent d -> consistent (RequestBackupRepositoryDeletionContext jobID userID m now d).2.
Proof.
  intros Hc. unfold RequestBackupRepositoryDeletionContext.
  match goal with |- context [update_row jobID ?p ?f ?m] =>
    destruct (update_row_spec jobID p f m) as [(j & Hj & _ & ->)|[-> _]] end; [|done].
  cbn [negb orb]. case_bool_decide; [done|]. cbn [snd].
  eapply finishes_consistent; [exact Hc| |].
  - eapply (cancel_finishes jobID now d _ j); [done|done| | |reflexivity|reflexivity]; done.
  - cbn [snapshots set_snapshots set_maintenance set_runs set_schedules_on set_jobs].
    intros id n H1 Hv. left. rewrite update_where_lookup in H1.
    apply fmap_Some in H1 as (n0 & H1 & ->). rewrite H1.
    destruct (String.eqb (sn_job n0) jobID && _); done.
Qed.

Lemma touch_consistent jobID g runID now d :
  consistent d -> consistent (TouchBackupRunContext jobID g runID now d).
Proof.
  intros Hc. unfold TouchBackupRunContext.
  destruct (update_row_spec runID (heartbeat_accepted jobID g d)
    (fun r => run_set (br_state r) now r) (runs d)) as [(r & Hr & Hp & E)|[E _]].
  2: { unfold set_runs. rewrite E. by destruct d. }
  pose proof Hc as [Hr' Hj Hg Hu Hs]. unfold set_runs. rewrite E. cbn [snd].
  set (m := <[runID:=_]> (runs d)).
  assert (forall id x, m !! id = Some x -> exists y, runs d !! id = Some y /\ br_job x = br_job y
      /\ br_generation x = br_generation y /\ br_state x = br_state y) as Hold.
  { intros id x. unfold m. destruct (decide (id = runID)) as [->|Hne].
    - rewrite lookup_insert_eq. intros [= <-]. exists r. by split_and!.
    - rewrite lookup_insert_ne by done. exists x. by split_and!. }
  assert (forall id y, runs d !! id = Some y -> exists x,
    m !! id = Some x
    /\ br_job x = br_job y /\ br_generation x = br_generation y /\ br_state x = br_state y) as Hnew.
  { intros id y Hy. unfold m. destruct (decide (id = runID)) as [->|Hne].
    - rewrite lookup_insert_eq. rewrite Hr in Hy. injection Hy as <-. eexists. by split_and!.
    - rewrite lookup_insert_ne by done. exists y. by split_and!. }
  split; cbn [jobs runs snapshots].
  - intros id x Hx Ho. destruct (Hold id x Hx) as (y & Hy & E1 & E2 & E3). rewrite E3 in Ho.
    destruct (Hr' id y Hy Ho) as (j & H3 & Hcur). exists j. rewrite E1. split; [done|].
    unfold current in *. by rewrite E1, E2, E3.
  - intros id j Hid Ha. destruct (Hj id j Hid Ha) as (rid & y & Hy & Hcur).
    destruct (Hnew rid y Hy) as (x & Hx & E1 & E2 & E3). exists rid, x. split; [done|].
    unfold current in *. by rewrite E1, E2, E3.
  - intros id x j Hx Hjx. destruct (Hold id x Hx) as (y & Hy & E1 & E2 & _). rewrite E1 in Hjx.
    rewrite E2. by apply (Hg id y).
  - intros id id' x x' Hx Hx' E1 E2. destruct (Hold id x Hx) as (y & ? & ? & ? & _).
    destruct (Hold id' x' Hx') as (y' & ? & ? & ? & _). apply (Hu id id' y y'); congruence.
  - intros id n Hn Hv. destruct (Hs id n Hn Hv) as (y & Hy & E4 & E5).
    destruct (Hnew _ y Hy) as (x & Hx & E1 & _ & E3). exists x. split; [done|].
    by rewrite E1, E3.
Qed.

Lemma recover_consistent now d : consistent d -> consistent (RecoverStaleBackupRunsContext now d).
Proof.
  intros Hc. unfold RecoverStaleBackupRunsContext. apply delete_snapshots_consistent.
  set (of_job := fun jobID g => any_row (fun r => stale_run now d r && String.eqb (br_job r) jobID
                                          && (br_generation r =? g)) (runs d)).
  eapply finishes_consistent; [exact Hc| |cbn; auto].
  assert (forall r, stale_run now d r = true -> run_in working (br_state r) = true
    /\ exists j, jobs d !! br_job r = Some j /\ bj_generation j = br_generation r
         /\ job_in job_working (bj_status j) = true) as Hst.
  { intros r H. unfold stale_run in H. apply andb_true_iff in H as [H Hj].
    apply andb_true_iff in H as [H _]. split; [done|].
    destruct (jobs d !! br_job r) as [j|]; [|done]. apply andb_true_iff in Hj as [H1 H2].
    exists j. split_and!; [done|lia|done]. }
  split; cbn [jobs runs set_jobs set_runs].
  - intros id. rewrite update_where_lookup. destruct (runs d !! id) as [r|] eqn:E; [|by left]. cbn.
    destruct (stale_run now d r) eqn:Es; [|by left]. right. exists r. eexists.
    destruct (Hst r Es) as [Hw _]. split_and!; try done.
    apply unfinished_status. unfold run_in, working, unfinished in *. rewrite in_true in *. set_solver.
  - intros id. rewrite map_lookup_imap. destruct (jobs d !! id) as [j|] eqn:E; [|by left]. cbn.
    fold (of_job id (bj_generation j)). destruct (of_job id _ && _); [|by left]. right.
    exists j. eexists. by split_and!.
  - intros id r H1 Ho. rewrite update_where_lookup in H1. apply fmap_Some in H1 as (r0 & H0 & ->).
    destruct (stale_run now d r0) eqn:Es; [by destruct Ho|].
    rewrite map_lookup_imap. destruct (c_run d Hc id r0 H0 Ho) as (j & Hj & _ & Hg & _). rewrite Hj. cbn.
    fold (of_job (br_job r0) (bj_generation j)).
    assert (of_job (br_job r0) (bj_generation j) = false) as ->; [|done].
    apply any_row_false. intros k r1 H1. apply not_true_is_false. intros Hp.
    apply andb_true_iff in Hp as [Hp Hp3]. apply andb_true_iff in Hp as [Hp1 Hp2].
    apply String.eqb_eq in Hp2. assert (k = id) as ->.
    { apply (c_unique d Hc k id r1 r0); [done|done|done|lia]. }
    rewrite H0 in H1. injection H1 as <-. congruence.
  - intros id r j H1 H2 Ha (_ & Hg & Hcur). rewrite update_where_lookup, H1. cbn.
    destruct (stale_run now d r) eqn:Es; [|done]. exfalso.
    destruct (Hst r Es) as (_ & j0 & Hj0 & Hg0 & Hw).
    rewrite map_lookup_imap, Hj0 in H2. cbn in H2. fold (of_job (br_job r) (bj_generation j0)) in H2.
    assert (of_job (br_job r) (bj_generation j0) = true) as E.
    { apply any_row_true. exists id, r. split; [done|]. rewrite Es, String.eqb_refl, Hg0. cbn. lia. }
    rewrite E, Hw in H2. injection H2 as <-. done.
Qed.

Lemma cleanup_consistent jobID d :
  consistent d -> consistent (DeleteBackupJobAfterRepositoryCleanupContext jobID d).2.
Proof.
  intros Hc. unfold DeleteBackupJobAfterRepositoryCleanupContext.
  destruct (jobs d !! jobID) as [j|] eqn:Ej; [|done]. destruct (_ || _); [done|].
  destruct (any_row _ (blocks d)); [done|]. cbn [snd].
  pose proof Hc as [Hr Hj Hg Hu Hs].
  assert (forall (m : gmap string backup_run) id r,
    filter (fun '(_, r) => String.eqb (br_job r) jobID = false) m !! id = Some r <->
    m !! id = Some r /\ br_job r <> jobID) as Hf.
  { intros m id r. rewrite map_lookup_filter_Some. by rewrite String.eqb_neq. }
  split; cbn [jobs runs snapshots set_jobs set_runs set_packs set_maintenance delete_snapshots
              set_items set_snapshots].
  - intros id r H1 Ho. apply Hf in H1 as [H1 Hne]. rewrite lookup_delete_ne by congruence.
    by apply (Hr id).
  - intros id j1 H1 Ha. destruct (decide (id = jobID)) as [->|Hne]; [by rewrite lookup_delete_eq in H1|].
    rewrite lookup_delete_ne in H1 by done. destruct (Hj id j1 H1 Ha) as (rid & r & Hrid & Hcur).
    exists rid, r. split; [|done]. apply Hf. split; [done|]. destruct Hcur as [-> _]. done.
  - intros id r j1 H1 H2. apply Hf in H1 as [H1 Hne]. rewrite lookup_delete_ne in H2 by congruence.
    by apply (Hg id r).
  - intros id id' r r' H1 H2. apply Hf in H1 as [H1 _]. apply Hf in H2 as [H2 _]. by apply (Hu id id').
  - intros id n H1 Hv. apply map_lookup_filter_Some in H1 as [H1 Hne]. apply String.eqb_neq in Hne.
    destruct (Hs id n H1 Hv) as (r & Hr1 & Hb & Hst). exists r. split; [|done].
    apply Hf. split; [done|congruence].
Qed.

Lemma suspend_finishes userID now d : consistent d -> finishes d (suspend_backups userID now d).
Proof.
  intros Hc. unfold suspend_backups. split; cbn [jobs runs set_jobs set_runs set_maintenance set_schedules_on].
  - intros id. rewrite update_where_lookup. destruct (runs d !! id) as [r|]; [|by left]. cbn.
    destruct (_ && _) eqn:E; [|by left]. apply andb_true_iff in E as [_ E%unfinished_status].
    right. exists r. eexists. by split_and!.
  - intros id. rewrite update_where_lookup. destruct (jobs d !! id) as [j|]; [|by left]. cbn.
    destruct (_ && _); [|by left]. right. exists j. eexists. by split_and!.
  - intros id r H1 Ho. rewrite update_where_lookup in H1. apply fmap_Some in H1 as (r0 & H0 & ->).
    destruct (user_owns userID d (br_job r0) && _) eqn:Es; [by destruct Ho|].
    rewrite update_where_lookup. destruct (jobs d !! br_job r0) as [j|] eqn:Hj; [|done]. cbn.
    apply unfinished_status in Ho. rewrite Ho, andb_true_r in Es. unfold user_owns in Es. rewrite Hj in Es. by rewrite Es.
  - intros id r j Hr Hj Ha (E1 & _ & E3). rewrite update_where_lookup in Hj. apply fmap_Some in Hj as (j0 & Hj0 & ->).
    rewrite update_where_lookup, Hr. cbn. destruct (user_owns userID d (br_job r) && _) eqn:Es; [|done].
    apply andb_true_iff in Es as [Eo _]. unfold user_owns in Eo. rewrite Hj0 in Eo. rewrite Eo in Ha. cbn in Ha.
    destruct (job_in _ (bj_status j0)) eqn:Ej; [done|]. unfold job_active in Ha. congruence.
Qed.

Lemma suspend_consistent userID now d : consistent d -> consistent (suspend_backups userID now d).
Proof. intros Hc. eapply finishes_consistent; [exact Hc|by apply suspend_finishes|cbn; auto]. Qed.

Lemma step_consistent d d' : consistent d -> backup_step d d' -> consistent d'.
Proof.
  intros Hc Hstep. destruct Hstep as [now o d0|d0 d1 (Ej & Er & Hs)].
  2: { apply (same_runs_consistent d0); [done..|]. intros id n H1 H2. left. by apply Hs. }
  destruct o; [by apply claim_consistent|by apply next_consistent|by apply transition_consistent
    | | |by apply publish_consistent|by apply draft_consistent
    |by apply delete_snapshots_consistent|by apply recover_consistent|by apply touch_consistent
    |by apply pause_consistent|by apply resume_consistent|by apply request_deletion_consistent
    |by apply cleanup_consistent|by apply suspend_consistent].
  - cbn [apply_op]. unfold FinalizeBackupRunContext. destruct (_ || _) eqn:E; [done|].
    apply orb_false_iff in E as [_ E]. apply negb_false_iff in E. unfold run_in in E.
    rewrite in_true in E. apply complete_consistent; [|done|done]. set_solver.
  - cbn [apply_op]. unfold FailBackupRunContext. destruct (negb _); [done|].
    by apply complete_consistent.
Qed.

Lemma reach_consistent d d' : consistent d -> backup_reach d d' -> consistent d'.
Proof.
  intros Hc H. revert Hc. induction H as [d|d d1 d' Hs _ IH]; [done|]. intros Hc.
  apply IH. by apply (step_consistent d).
Qed.

(** ** Passes *)

Definition run_open (r : backup_run) : Prop := is_Some (status_of (br_state r)).

(** C36: a job is in at most one pass, and shows it.  In every state the
    transactions can reach, in any interleaving: two unfinished runs of a job are
    the same run; an unfinished run is the one of its job's present generation and
    the job has the matching status; and a job that shows a pass in progress has
    such a run, so no job is stuck in a pass that nobody can end. *)
Theorem backup_passes_exclusive d d' :
  consistent d -> backup_reach d d' ->
  (forall id id' r r', runs d' !! id = Some r -> runs d' !! id' = Some r' ->
     run_open r -> run_open r' -> br_job r = br_job r' -> id = id')
  /\ (forall id r, runs d' !! id = Some r -> run_open r ->
     exists j, jobs d' !! br_job r = Some j /\ current d' (br_job r) j r)
  /\ (forall id j, jobs d' !! id = Some j -> job_active (bj_status j) = true ->
     exists rid r, runs d' !! rid = Some r /\ current d' id j r).
Proof.
  intros Hc Hr. apply (reach_consistent _ _ Hc) in Hr as [Cr Cj Cg Cu Cs].
  split; [|split]; [|exact Cr|exact Cj].
  intros id id' r r' H1 H2 H3 H4 Ej. destruct (Cr id r H1 H3) as (j & Hj & _ & Hg & _).
  destruct (Cr id' r' H2 H4) as (j' & Hj' & _ & Hg' & _).
  apply (Cu id id' r r'); try done. rewrite <- Ej, Hj in Hj'. injection Hj' as <-. congruence.
Qed.

Lemma move_run_frozen jobID g runID e fr fj d id r :
  is_Some (status_of e) -> runs d !! id = Some r -> ~ run_open r ->
  runs (move_run jobID g runID e fr fj d).2 !! id = Some r.
Proof.
  intros He Hr Ho. destruct (move_run _ _ _ _ _ _ _) as [[] d'] eqn:E.
  - apply moved_spec in E as (r1 & j & Hr1 & _ & _ & _ & Es & _ & _ & ->). cbn.
    rewrite lookup_insert_ne; [done|]. intros ->. rewrite Hr in Hr1. injection Hr1 as <-.
    apply Ho. unfold run_open. by rewrite Es.
  - by apply refused_move in E as ->.
Qed.

Lemma complete_frozen jobID g runID e f s t err now d id r :
  is_Some (status_of e) -> runs d !! id = Some r -> ~ run_open r ->
  runs (completeBackupRunContext jobID g runID e f s t err now d).2 !! id = Some r.
Proof.
  intros He Hr Ho. unfold completeBackupRunContext. destruct (negative_totals t); [done|].
  pose proof (move_run_frozen jobID g runID e (run_finish f t err now) (job_finish s f t err) d id r
    He Hr Ho) as H.
  destruct (move_run _ _ _ _ _ _ _) as [[] d'] eqn:E; [|done]. cbn [snd].
  by rewrite (proj1 (proj2 (notify_same runID d'))).
Qed.

Lemma where_frozen p f m id r :
  (forall r, p r = true -> run_in unfinished (br_state r) = true) ->
  m !! id = Some r -> ~ run_open r -> update_where p f m !! id = Some r.
Proof.
  intros Hp Hr Ho. rewrite update_where_lookup, Hr. cbn. destruct (p r) eqn:E; [|done].
  apply Hp, unfinished_status in E. done.
Qed.

Section Frozen.
Context (d : backup_db) (id : string) (r : backup_run).
Hypothesis Hr : runs d !! id = Some r.
Hypothesis Ho : ~ run_open r.

Lemma insert_frozen rid r0 f :
  runs d !! rid = Some r0 -> run_in unfinished (br_state r0) = true ->
  <[rid := f r0]> (runs d) !! id = Some r.
Proof.
  intros H0 H. rewrite lookup_insert_ne; [done|]. intros ->. rewrite Hr in H0.
  injection H0 as <-. by apply Ho, unfinished_status.
Qed.

Lemma claim_frozen jobID trigger key runID now :
  runs (ClaimBackupJobPassContext jobID trigger key runID now d).2 !! id = Some r.
Proof.
  unfold ClaimBackupJobPassContext. repeat (case_match; try done). cbn.
  rewrite lookup_insert_ne; [done|]. intros ->.
  match goal with H : _ || bool_decide (is_Some _) = false |- _ =>
    apply orb_false_iff in H as [_ H]; apply bool_decide_eq_false in H; by destruct H end.
Qed.

Lemma next_frozen pick now :
  runs (ClaimNextQueuedBackupRunContext pick now d).2 !! id = Some r.
Proof.
  unfold ClaimNextQueuedBackupRunContext. destruct pick as [rid|]; [|done].
  destruct (runs d !! rid) as [r0|] eqn:E0; [|done].
  destruct (claimable_run d r0) eqn:Ec; [|done]. cbn [negb].
  apply andb_true_iff in Ec as [Ec _].
  rewrite (update_row_hit rid _ _ _ r0) by done.
  destruct (update_row (br_job r0) _ _ _) as [[] js]; [|done].
  apply (insert_frozen rid r0 (run_set RSCANNING now)); [done|].
  unfold run_in, unfinished in *. rewrite in_true in *. set_solver.
Qed.

Lemma publish_frozen jobID g runID sid s f st t m now :
  runs (PublishBackupSnapshotAndFinalizeContext jobID g runID sid s f st t m now d).2 !! id = Some r.
Proof.
  unfold PublishBackupSnapshotAndFinalizeContext.
  destruct (update_row sid _ _ _) as [[] ns]; [|done]. cbn [negb].
  match goal with |- context [move_run ?a ?b ?c ?x ?fr ?fj d] =>
    pose proof (move_run_frozen a b c x fr fj d id r ltac:(by eexists) Hr Ho) as H;
    destruct (move_run a b c x fr fj d) as [[] d'] end; [|done].
  cbn [negb orb]. case_bool_decide; [done|]. cbn [snd].
  by rewrite (proj1 (proj2 (notify_same _ _))).
Qed.

Lemma touch_frozen jobID g runID now :
  runs (TouchBackupRunContext jobID g runID now d) !! id = Some r.
Proof.
  cbn. destruct (update_row_spec runID (heartbeat_accepted jobID g d)
    (fun r => run_set (br_state r) now r) (runs d)) as [(r0 & H0 & Hp & ->)|[-> _]]; [|done].
  apply (insert_frozen runID r0 (fun r => run_set (br_state r) now r)); [done|].
  unfold heartbeat_accepted in Hp. apply andb_true_iff in Hp as [Hp _].
  apply andb_true_iff in Hp as [_ Hp]. unfold run_in, working, unfinished in *.
  rewrite in_true in *. set_solver.
Qed.

Lemma cleanup_frozen jobID :
  runs (DeleteBackupJobAfterRepositoryCleanupContext jobID d).2 !! id = Some r
  \/ jobs (DeleteBackupJobAfterRepositoryCleanupContext jobID d).2 !! br_job r = None.
Proof.
  unfold DeleteBackupJobAfterRepositoryCleanupContext. destruct (jobs d !! jobID); [|by left].
  destruct (_ || _); [by left|]. destruct (any_row _ (blocks d)); [by left|]. cbn.
  destruct (String.eqb (br_job r) jobID) eqn:E.
  - right. apply String.eqb_eq in E. rewrite E. apply lookup_delete_eq.
  - left. apply map_lookup_filter_Some. by rewrite E.
Qed.

Lemma cancel_frozen jobID now : cancel_runs jobID now (runs d) !! id = Some r.
Proof. apply where_frozen; [|done|done]. intros r0 H. by apply andb_true_iff in H as [_ H]. Qed.

Lemma suspend_frozen userID now : runs (suspend_backups userID now d) !! id = Some r.
Proof.
  cbn [suspend_backups runs set_jobs set_runs set_maintenance set_schedules_on].
  apply where_frozen; [|done|done]. intros r0 H. by apply andb_true_iff in H as [_ H].
Qed.

Lemma recover_frozen now : runs (RecoverStaleBackupRunsContext now d) !! id = Some r.
Proof.
  cbn. apply where_frozen; [|done|done]. intros r0 H. unfold stale_run in H.
  apply andb_true_iff in H as [H _]. apply andb_true_iff in H as [H _].
  unfold run_in, working, unfinished in *. rewrite in_true in *. set_solver.
Qed.
End Frozen.

(** A finished run stays as it ended.  No transaction changes the row of a run
    that completed, failed or was cancelled; it goes only when its job's repository
    has been deleted. *)
Theorem finished_run_frozen d d' id r :
  backup_step d d' -> runs d !! id = Some r -> ~ run_open r ->
  runs d' !! id = Some r \/ jobs d' !! br_job r = None.
Proof.
  intros Hstep Hr Ho. destruct Hstep as [now o d|d d1 (_ & Er & _)]; [|left; by rewrite Er].
  destruct o; cbn [apply_op]; try (by apply cleanup_frozen); left;
    try first [by apply claim_frozen | by apply next_frozen | by apply publish_frozen
              | by apply touch_frozen | by apply recover_frozen | by apply suspend_frozen | done].
  - unfold TransitionBackupRunContext. destruct (validBackupTransition e n) eqn:Ev; [|done].
    cbn [negb]. destruct (status_of n); [|done]. apply move_run_frozen; [|done|done]. by destruct e.
  - unfold FinalizeBackupRunContext. destruct (_ || _) eqn:E; [done|].
    apply orb_false_iff in E as [E _]. apply negb_false_iff in E.
    apply complete_frozen; [|done|done]. apply unfinished_status. unfold run_in, working, unfinished in *.
    rewrite in_true in *. set_solver.
  - unfold FailBackupRunContext. destruct (negb _) eqn:E; [done|]. apply negb_false_iff in E.
    apply complete_frozen; [by apply unfinished_status|done|done].
  - unfold CreateBackupSnapshotDraftContext. by destruct (_ || _).
  - unfold handlePauseBackup. destruct (update_row jobID _ _ _) as [[] js]; [|done].
    by apply cancel_frozen.
  - unfold handleResumeBackup. destruct (update_row jobID _ _ _) as [[] js], next; done.
  - unfold RequestBackupRepositoryDeletionContext. destruct (update_row jobID _ _ _) as [[] js]; [|done].
    cbn [negb orb]. case_bool_decide; [done|]. by apply cancel_frozen.
Qed.

(** ** How a snapshot becomes visible *)

Section Shown.
Context (d d' : backup_db) (id : string) (n : backup_snapshot).
Hypothesis Hn : snapshots d' !! id = Some n.
Hypothesis Hv : snapshot_in visible (sn_state n) = true.
Hypothesis Hnew : snapshots d !! id <> Some n.

Lemma shown_same : snapshots d' = snapshots d -> False.
Proof. intros E. apply Hnew. by rewrite <- E. Qed.

Lemma shown_deleted p x :
  snapshots d' = snapshots (delete_snapshots p x) -> snapshots x = snapshots d -> False.
Proof.
  intros E1 E2. apply Hnew. rewrite E1 in Hn. cbn in Hn.
  apply map_lookup_filter_Some in Hn as [H _]. by rewrite E2 in H.
Qed.

Lemma shown_published jobID g runID sid s f st t m now :
  d' = (PublishBackupSnapshotAndFinalizeContext jobID g runID sid s f st t m now d).2 ->
  exists r j n0, runs d !! sn_run n = Some r /\ jobs d !! sn_job n = Some j
    /\ current d (sn_job n) j r /\ br_state r = RVERIFYING
    /\ snapshots d !! id = Some n0 /\ sn_state n0 = PUBLISHING /\ sn_run n0 = sn_run n.
Proof.
  intros E. pose proof shown_same as Hsame. rewrite E in Hsame, Hn. clear E d'.
  unfold PublishBackupSnapshotAndFinalizeContext in *.
  match type of Hn with context [update_row sid ?p ?f ?mm] =>
    destruct (update_row_spec sid p f mm) as [(n0 & Hn0 & Hd & E)|[E _]]; rewrite E in Hn, Hsame end;
    [|by destruct Hsame].
  cbn [negb] in Hn, Hsame.
  destruct (move_run _ _ _ _ _ _ _) as [[] d'] eqn:Em; [|by destruct Hsame].
  cbn [negb orb] in Hn, Hsame. destruct (bool_decide _); [by destruct Hsame|]. cbn [snd] in Hn.
  rewrite (proj2 (proj2 (notify_same _ _))) in Hn. cbn in Hn.
  destruct (decide (id = sid)) as [->|Hne].
  2: { rewrite lookup_insert_ne in Hn by done. by destruct Hnew. }
  rewrite lookup_insert_eq in Hn. injection Hn as <-. cbn [sn_run sn_job].
  apply moved_spec in Em as (r & j & Hr & Hj & Ej & Eg & Es & Egj & Est & _).
  unfold is_draft in Hd. apply andb_true_iff in Hd as [Hd Hp]. apply andb_true_iff in Hd as [Hd1 Hd2].
  apply String.eqb_eq in Hd1, Hd2. unfold snapshot_in in Hp. rewrite in_true in Hp.
  apply list_elem_of_singleton in Hp. rewrite Hd1, Hd2.
  exists r, j, n0. split_and!; try done. unfold current. split_and!; congruence.
Qed.

Lemma shown_draft sid jobID runID roots now :
  d' = (CreateBackupSnapshotDraftContext sid jobID runID roots now d).2 -> False.
Proof.
  intros E. pose proof shown_same as Hsame. rewrite E in Hsame, Hn.
  unfold CreateBackupSnapshotDraftContext in *. destruct (_ || _); [by apply Hsame|].
  cbn in Hn. destruct (decide (id = sid)) as [->|Hne].
  - rewrite lookup_insert_eq in Hn. injection Hn as <-. done.
  - by rewrite lookup_insert_ne in Hn.
Qed.

Lemma shown_request jobID userID m now :
  d' = (RequestBackupRepositoryDeletionContext jobID userID m now d).2 -> False.
Proof.
  intros E. pose proof shown_same as Hsame. rewrite E in Hsame, Hn.
  unfold RequestBackupRepositoryDeletionContext in *.
  destruct (update_row jobID _ _ _) as [[] js]; [|by apply Hsame]. cbn [negb orb] in *.
  destruct (bool_decide _); [by apply Hsame|].
  cbn [snd snapshots set_snapshots set_maintenance set_runs set_schedules_on set_jobs] in Hn.
  rewrite update_where_lookup in Hn. apply fmap_Some in Hn as (n0 & H0 & ->).
  destruct (String.eqb (sn_job n0) jobID && _); [done|]. by destruct Hnew.
Qed.

Lemma shown_cleanup jobID :
  d' = (DeleteBackupJobAfterRepositoryCleanupContext jobID d).2 -> False.
Proof.
  intros E. pose proof shown_same as Hsame. pose proof shown_deleted as Hdel. rewrite E in Hsame, Hdel.
  unfold DeleteBackupJobAfterRepositoryCleanupContext in *.
  destruct (jobs d !! jobID); [|by apply Hsame]. destruct (_ || _); [by apply Hsame|].
  destruct (any_row _ (blocks d)); [by apply Hsame|].
  by apply (Hdel (fun _ n => String.eqb (sn_job n) jobID) d).
Qed.
End Shown.

Lemma same_snapshots_move jobID g runID e fr fj d :
  snapshots (move_run jobID g runID e fr fj d).2 = snapshots d.
Proof.
  destruct (move_run _ _ _ _ _ _ _) as [[] d'] eqn:E.
  - by apply moved_spec in E as (? & ? & _ & _ & _ & _ & _ & _ & _ & ->).
  - by apply refused_move in E as ->.
Qed.

Lemma same_snapshots_complete jobID g runID e f s t err now d :
  snapshots (completeBackupRunContext jobID g runID e f s t err now d).2 = snapshots d.
Proof.
  unfold completeBackupRunContext. destruct (negative_totals t); [done|].
  pose proof (same_snapshots_move jobID g runID e (run_finish f t err now) (job_finish s f t err) d) as H.
  destruct (move_run _ _ _ _ _ _ _) as [[] d']; [|done]. cbn [snd] in *.
  by rewrite (proj2 (proj2 (notify_same _ _))).
Qed.

(** C35: only a verified pass shows a snapshot.  From a consistent state, a snapshot
    becomes visible only in the transaction that ends the run it belongs to, which
    was the job's present run and VERIFYING; the run then is COMPLETED for a READY
    and PARTIAL for a PARTIAL snapshot, and so is the run of every visible snapshot
    from then on. *)
Theorem snapshot_published_once_verified d d' id n :
  consistent d -> backup_step d d' -> snapshots d' !! id = Some n ->
  snapshot_in visible (sn_state n) = true ->
  (exists r, runs d' !! sn_run n = Some r /\ br_job r = sn_job n
     /\ br_state r = (if bool_decide (sn_state n = READY) then RCOMPLETED else RPARTIAL))
  /\ (snapshots d !! id <> Some n ->
      exists r j n0, runs d !! sn_run n = Some r /\ jobs d !! sn_job n = Some j
        /\ current d (sn_job n) j r /\ br_state r = RVERIFYING
        /\ snapshots d !! id = Some n0 /\ sn_state n0 = PUBLISHING /\ sn_run n0 = sn_run n).
Proof.
  intros Hc Hstep Hn Hv.
  split; [by apply (c_snapshot d' (step_consistent _ _ Hc Hstep) id n)|]. intros Hnew.
  pose proof (shown_same d d' id n Hn Hnew) as Hsame.
  pose proof (shown_deleted d d' id n Hn Hnew) as Hdel.
  destruct Hstep as [now o d|d d1 (_ & _ & Hs)]; [|exfalso; apply Hnew; by apply Hs].
  destruct o; cbn [apply_op] in *;
    try (by eapply (shown_published _ _ id n Hn Hv Hnew); reflexivity); exfalso;
    try first [by eapply (shown_draft _ _ id n Hn Hv Hnew); reflexivity
              | by eapply (shown_request _ _ id n Hn Hv Hnew); reflexivity
              | by eapply (shown_cleanup _ _ id n Hn Hnew); reflexivity
              | by eapply Hdel; reflexivity | by apply Hsame]; apply Hsame.
  - unfold ClaimBackupJobPassContext. by repeat case_match.
  - unfold ClaimNextQueuedBackupRunContext. by repeat (case_match; try done).
  - unfold TransitionBackupRunContext. destruct (negb _); [done|].
    destruct (status_of n0); [|done]. apply same_snapshots_move.
  - unfold FinalizeBackupRunContext. destruct (_ || _); [done|]. apply same_snapshots_complete.
  - unfold FailBackupRunContext. destruct (negb _); [done|]. apply same_snapshots_complete.
  - unfold handlePauseBackup. by destruct (update_row jobID _ _ _) as [[] js].
  - unfold handleResumeBackup. by destruct (update_row jobID _ _ _) as [[] js], next.
Qed.

(** ** Witnesses *)

Definition apply_ops (l : list backup_op) (d : backup_db) : backup_db :=
  fold_left (fun d o => apply_op 100 o d) l d.

Lemma apply_ops_reach l d : backup_reach d (apply_ops l d).
Proof.
  revert d. induction l as [|o l IH]; intros d; [apply rtc_refl|].
  eapply rtc_l; [apply step_op|apply IH].
Qed.

Definition bx_job : backup_job :=
  mkBackupJob "u" BIDLE 0 NotDeleting None no_totals None.
Definition bx_db : backup_db :=
  mkBackupDb {[ "b" := bx_job ]} ∅ ∅ ∅ ∅ ∅ ∅ ∅ ∅ ∅ {[ "b" ]} [].

(** A pass up to its verification, with its draft. *)
Definition bx_pass : list backup_op :=
  [OClaim "b" Manual None "r"; ONext (Some "r"); OTransition "b" 1 "r" RSCANNING RRUNNING;
   ODraft "s" "b" "r" ["/docs"]; OTransition "b" 1 "r" RRUNNING RVERIFYING].
Definition bx_publish : backup_op :=
  OPublish "b" 1 "r" "s" true (mkSnapshotTotals 1 0 3 0 0) (mkTotals 1 3 1 3 0 0) "m".

Definition bx_verifying : backup_db := apply_ops bx_pass bx_db.
Definition bx_published : backup_db := apply_op 100 bx_publish bx_verifying.

Lemma bx_consistent : consistent bx_db.
Proof.
  split.
  - intros id r H. discriminate H.
  - intros id j H. change (({[ "b" := bx_job ]} : gmap string backup_job) !! id = Some j) in H.
    apply lookup_singleton_Some in H as [<- <-]. done.
  - intros id r j H. discriminate H.
  - intros id id' r r' H. discriminate H.
  - intros id n H. discriminate H.
Qed.

Lemma bx_verifying_consistent : consistent bx_verifying.
Proof. apply (reach_consistent bx_db); [apply bx_consistent|apply apply_ops_reach]. Qed.

Definition bx_run (s : run_state) (t : run_totals) : backup_run :=
  mkBackupRun "b" 1 Manual None s t None 100 100.

Lemma backup_passes_exclusive_witness :
  runs bx_verifying !! "r" = Some (bx_run RVERIFYING no_totals)
  /\ exists j, jobs bx_verifying !! "b" = Some j
     /\ current bx_verifying "b" j (bx_run RVERIFYING no_totals).
Proof.
  assert (runs bx_verifying !! "r" = Some (bx_run RVERIFYING no_totals)) as Hr
    by (vm_compute; reflexivity).
  split; [exact Hr|].
  destruct (backup_passes_exclusive bx_db bx_verifying bx_consistent (apply_ops_reach bx_pass bx_db))
    as (_ & H & _).
  apply (H "r" _ Hr). exists BVERIFYING. reflexivity.
Defined.

(** Pausing the job afterwards leaves the completed run alone. *)
Lemma finished_run_frozen_witness :
  let r := bx_run RCOMPLETED (mkTotals 1 3 1 3 0 0) in
  runs (apply_op 200 (OPause "b" "u") bx_published) !! "r" = Some r
  \/ jobs (apply_op 200 (OPause "b" "u") bx_published) !! "b" = None.
Proof.
  apply (finished_run_frozen bx_published _ "r" (bx_run RCOMPLETED (mkTotals 1 3 1 3 0 0))).
  - apply step_op.
  - vm_compute. reflexivity.
  - intros [b H]. discriminate H.
Defined.

Lemma snapshot_published_once_verified_witness :
  exists r j n0, runs bx_verifying !! "r" = Some r /\ jobs bx_verifying !! "b" = Some j
    /\ current bx_verifying "b" j r /\ br_state r = RVERIFYING
    /\ snapshots bx_verifying !! "s" = Some n0 /\ sn_state n0 = PUBLISHING /\ sn_run n0 = "r".
Proof.
  destruct (snapshot_published_once_verified bx_verifying bx_published "s"
    (mkSnapshot "b" "r" READY ["/docs"] (mkSnapshotTotals 1 0 3 0 0) VALID 100)) as [_ H].
  - apply bx_verifying_consistent.
  - apply step_op.
  - vm_compute. reflexivity.
  - reflexivity.
  - apply H. vm_compute. discriminate.
Defined.
