(* ===== verification/BackupCatalog.v ===== *)
(** * The repository catalog

    Packs, blocks, snapshot items and their block links: the statements of
    src/backend/internal/db/backups.go the backup worker runs, and the recipes a
    restore freezes from the same rows (src/backend/internal/db/restore.go).
    Identifiers the database generates are arguments; an insert that violates a
    constraint refuses the whole transaction. *)

From S2P Require Import Prelude HashString Tables Bytes BackupDb BackupRepo RestoreReader.

(** [string(hash)], the key of the maps the worker keeps. *)
Definition hash_key (h : bytes) : string := string_of_list_byte h.

(** ** Packs and blocks *)

Record BackupPackBlock := mkPackBlock {
  ppb_Hash : bytes;
  ppb_PlaintextSize : Z;
  ppb_PayloadOffset : Z;
  ppb_PayloadLength : Z;
}.

(** UNIQUE (job, remote path), UNIQUE (job, sha256) and the checks. *)
Definition pack_conflict (p q : pack_row) : bool :=
  String.eqb (pk_job q) (pk_job p)
  && (String.eqb (pk_path q) (pk_path p) || bool_decide (pk_sha256 q = pk_sha256 p)).

Definition insert_pack (id : string) (p : pack_row) (m : gmap string pack_row)
    : option (gmap string pack_row) :=
  if bool_decide (is_Some (m !! id)) || any_row (pack_conflict p) m
     || negb (zlen (pk_sha256 p) =? 32) || (pk_size p <? 0)
  then None else Some (<[id := p]> m).

(** UNIQUE (job, sha256) and the checks. *)
Definition same_block (jobID : string) (hash : bytes) (b : block_row) : bool :=
  String.eqb (bl_job b) jobID && bool_decide (bl_sha256 b = hash).

Definition block_length_ok (n : Z) : bool := (1 <=? n) && (n <=? BlockSize).

Definition insert_block (id : string) (b : block_row) (m : gmap string block_row)
    : option (gmap string block_row) :=
  if bool_decide (is_Some (m !! id)) || any_row (same_block (bl_job b) (bl_sha256 b)) m
     || negb (zlen (bl_sha256 b) =? 32) || negb (block_length_ok (bl_plaintext b))
     || negb (block_length_ok (bl_length b)) || (bl_offset b <? 0)
  then None else Some (<[id := b]> m).

Fixpoint insert_blocks (jobID packID : string) (newID : nat -> string) (l : list BackupPackBlock)
    (m : gmap string block_row) (ids : gmap string string)
    : option (gmap string block_row * gmap string string) :=
  match l with
  | [] => Some (m, ids)
  | b :: l =>
      match insert_block (newID O) (mkBlockRow jobID (ppb_Hash b) (ppb_PlaintextSize b) packID
                                      (ppb_PayloadOffset b) (ppb_PayloadLength b)) m with
      | None => None
      | Some m => insert_blocks jobID packID (fun i => newID (S i)) l m
                    (<[hash_key (ppb_Hash b) := newID O]> ids)
      end
  end.

(** The ids of the blocks by their hashes. *)
Definition RecordBackupPackAndBlocksContext (jobID remotePath : string) (packHash : bytes)
    (packSize : Z) (l : list BackupPackBlock) (packID : string) (newID : nat -> string) (now : Z)
    (d : backup_db) : option (gmap string string * backup_db) :=
  match l with
  | [] => None
  | _ =>
      match insert_pack packID (mkPackRow jobID remotePath packHash packSize PackReady 0 None now)
              (packs d) with
      | None => None
      | Some ps =>
          match insert_blocks jobID packID newID l (blocks d) ∅ with
          | None => None
          | Some (bs, ids) => Some (ids, set_packs (fun _ => ps) (fun _ => bs) d)
          end
      end
  end.

(** The pack is the job's and READY. *)
Definition ready_pack (d : backup_db) (jobID packID : string) : bool :=
  match packs d !! packID with
  | Some p => String.eqb (pk_job p) jobID && bool_decide (pk_state p = PackReady)
  | None => false
  end.

Definition FindBackupBlockContext (jobID : string) (hash : bytes) (d : backup_db) : option string :=
  find_key (fun b => same_block jobID hash b && ready_pack d (bl_job b) (bl_pack b)) (blocks d).

(** ** Snapshot items *)

Record BatchSnapshotItem := mkBatchItem {
  bi_RelativePath : string;
  bi_IsDir : bool;
  bi_SizeBytes : Z;
  bi_Mtime : gotime;
  bi_FileSHA256 : option bytes;
  bi_State : string;
  bi_BlockIDs : list string;
}.

(** The links of one item, from its first ordinal. *)
Fixpoint insert_links (itemID : string) (ordinal : nat) (ids : list string)
    (bs : gmap string block_row) (m : gmap (string * nat) string)
    : option (gmap (string * nat) string) :=
  match ids with
  | [] => Some m
  | id :: ids =>
      if bool_decide (is_Some (m !! (itemID, ordinal))) || negb (bool_decide (is_Some (bs !! id)))
      then None else insert_links itemID (S ordinal) ids bs (<[(itemID, ordinal) := id]> m)
  end.

Definition nullTime (t : gotime) : option gotime := if time_IsZero t then None else Some t.

Definition item_check (b : BatchSnapshotItem) : bool :=
  if bi_IsDir b then (bi_SizeBytes b =? 0) && negb (bool_decide (is_Some (bi_FileSHA256 b)))
  else (0 <=? bi_SizeBytes b)
       && match bi_FileSHA256 b with Some h => zlen h =? 32 | None => false end.

Definition insert_item (snapshotID id : string) (b : BatchSnapshotItem)
    (m : gmap string snapshot_item) : option (gmap string snapshot_item) :=
  if bool_decide (is_Some (m !! id)) || negb (item_check b)
     || any_row (fun i => String.eqb (it_snapshot i) snapshotID
                          && String.eqb (it_path i) (bi_RelativePath b)) m
  then None
  else Some (<[id := mkItem snapshotID (bi_RelativePath b) (bi_IsDir b) (bi_SizeBytes b)
                       (nullTime (bi_Mtime b)) (bi_FileSHA256 b) (bi_State b)]> m).

Fixpoint insert_items (snapshotID : string) (newID : nat -> string) (l : list BatchSnapshotItem)
    (bs : gmap string block_row) (im : gmap string snapshot_item) (lm : gmap (string * nat) string)
    : option (gmap string snapshot_item * gmap (string * nat) string) :=
  match l with
  | [] => Some (im, lm)
  | b :: l =>
      match insert_item snapshotID (newID O) b im with
      | None => None
      | Some im =>
          match insert_links (newID O) O (bi_BlockIDs b) bs lm with
          | None => None
          | Some lm => insert_items snapshotID (fun i => newID (S i)) l bs im lm
          end
      end
  end.

Definition BatchCreateBackupSnapshotItemsAndBlocksContext (snapshotID : string)
    (l : list BatchSnapshotItem) (newID : nat -> string) (d : backup_db) : option backup_db :=
  match l with
  | [] => Some d
  | _ =>
      if negb (bool_decide (is_Some (snapshots d !! snapshotID))) then None
      else match insert_items snapshotID newID l (blocks d) (items d) (item_blocks d) with
      | None => None
      | Some (im, lm) => Some (set_items (fun _ => im) (fun _ => lm) d)
      end
  end.

(** The links of an item ORDER BY ordinal. *)
Definition last_ordinal (m : gmap (string * nat) string) : nat :=
  max_list (map (fun '((_, n), _) => S n) (map_to_list m)).

Definition item_links (m : gmap (string * nat) string) (itemID : string) : list (nat * string) :=
  omap (fun n => pair n <$> m !! (itemID, n)) (seq 0 (last_ordinal m)).

(** ** The catalog of the previous snapshot *)

Definition newer (a b : string * backup_snapshot) : Prop := sn_created b.2 <= sn_created a.2.

#[export] Instance newer_dec : RelDecision newer.
Proof. intros a b. unfold newer. apply _. Defined.

(** Snapshots of equal age in the order of the table. *)
Definition snapshots_by_age (jobID : string) (d : backup_db) : list (string * backup_snapshot) :=
  merge_sort newer
    (List.filter (fun '(_, n) => String.eqb (sn_job n) jobID && snapshot_in visible (sn_state n))
       (map_to_list (snapshots d))).

Definition GetLatestValidBackupSnapshotIDContext (jobID : string) (d : backup_db) : option string :=
  fst <$> head (List.filter (fun '(_, n) => bool_decide (sn_integrity n = VALID))
                  (snapshots_by_age jobID d)).

Record BackupSnapshotCatalogItem := mkCatalogItem {
  ci_SizeBytes : Z;
  ci_Mtime : gotime;
  ci_FileSHA256 : bytes;
  ci_BlockIDs : list string;
}.

Record catalogAcc := mkAcc { ca_blockIDs : list string; ca_expectedOrd : Z; ca_invalid : bool }.

(** One row of the query: the ordinal, the block and the state of its pack. *)
Definition scan_row (size : Z) (acc : catalogAcc) (row : Z * string * option pack_state)
    : catalogAcc :=
  let '(ordinal, blockID, packState) := row in
  if size =? 0 then
    if negb (ordinal =? -1) && negb (String.eqb blockID "")
    then mkAcc (ca_blockIDs acc) (ca_expectedOrd acc) true else acc
  else if negb (ordinal =? ca_expectedOrd acc) || String.eqb blockID ""
          || negb (bool_decide (packState = Some PackReady))
  then mkAcc (ca_blockIDs acc) (ca_expectedOrd acc) true
  else mkAcc (ca_blockIDs acc ++ [blockID]) (ca_expectedOrd acc + 1) (ca_invalid acc).

Definition block_pack_state (d : backup_db) (blockID : string) : option pack_state :=
  b ← blocks d !! blockID; p ← packs d !! bl_pack b; Some (pk_state p).

(** An item without links is one row of NULLs. *)
Definition item_rows (d : backup_db) (itemID : string) : list (Z * string * option pack_state) :=
  match item_links (item_blocks d) itemID with
  | [] => [(-1, "", None)]
  | l => map (fun '(n, id) => (Z.of_nat n, id, block_pack_state d id)) l
  end.

Definition catalog_item (d : backup_db) (itemID : string) (i : snapshot_item)
    : option BackupSnapshotCatalogItem :=
  let acc := fold_left (scan_row (it_size i)) (item_rows d itemID) (mkAcc [] 0 false) in
  match it_sha256 i, it_mtime i with
  | Some h, Some t =>
      if negb (zlen h =? 32) || ca_invalid acc || time_IsZero t then None
      else if (0 <? it_size i) && (zlen (ca_blockIDs acc) =? 0) then None
      else Some (mkCatalogItem (it_size i) t h (ca_blockIDs acc))
  | _, _ => None
  end.

Definition reusable (snapshotID : string) (i : snapshot_item) : bool :=
  String.eqb (it_snapshot i) snapshotID && negb (it_is_dir i) && String.eqb (it_state i) "AVAILABLE".

Definition GetBackupSnapshotFileCatalogContext (snapshotID : string) (d : backup_db)
    : gmap string BackupSnapshotCatalogItem :=
  list_to_map (omap (fun '(id, i) => if reusable snapshotID i
                                     then pair (it_path i) <$> catalog_item d id i else None)
                 (map_to_list (items d))).

(** ** Packs of a snapshot *)

(** Some item of the snapshot has a block in the pack. *)
Definition snapshot_uses (d : backup_db) (snapshotID packID : string) : bool :=
  existsb (fun '((itemID, _), blockID) =>
      match items d !! itemID, blocks d !! blockID with
      | Some i, Some b => String.eqb (it_snapshot i) snapshotID && String.eqb (bl_pack b) packID
      | _, _ => false
      end) (map_to_list (item_blocks d)).

Definition ListBackupSnapshotPacksContext (jobID snapshotID : string) (d : backup_db)
    : list (string * pack_row) :=
  match snapshots d !! snapshotID with
  | Some n =>
      if String.eqb (sn_job n) jobID && snapshot_in [PUBLISHING] (sn_state n)
      then List.filter (fun '(id, p) => String.eqb (pk_job p) jobID && snapshot_uses d snapshotID id)
             (map_to_list (packs d))
      else []
  | None => []
  end.

Definition set_checked (now : Z) (p : pack_row) : pack_row :=
  mkPackRow (pk_job p) (pk_path p) (pk_sha256 p) (pk_size p) (pk_state p) (pk_generation p)
    (Some now) (pk_created p).

Definition set_pack_state (s : pack_state) (p : pack_row) : pack_row :=
  mkPackRow (pk_job p) (pk_path p) (pk_sha256 p) (pk_size p) s (pk_generation p) (pk_checked p)
    (pk_created p).

Definition MarkBackupPacksCheckedContext (jobID : string) (ids : list string) (now : Z)
    (d : backup_db) : backup_db :=
  set_packs (map_imap (fun id p =>
    Some (if String.eqb (pk_job p) jobID && bool_decide (pk_state p = PackReady)
             && bool_decide (id ∈ ids) then set_checked now p else p))) id d.

(** Every snapshot that uses the pack is damaged with it. *)
Definition MarkBackupPackDamagedContext (jobID packID : string) (d : backup_db) : backup_db :=
  match jobs d !! jobID with
  | None => d
  | Some _ =>
      set_snapshots (map_imap (fun id n =>
          Some (if String.eqb (sn_job n) jobID && snapshot_in [PUBLISHING; READY; PARTIAL] (sn_state n)
                   && snapshot_uses d id packID
                then mkSnapshot (sn_job n) (sn_run n) DAMAGED (sn_roots n) (sn_totals n) BROKEN
                       (sn_created n)
                else n)))
        (set_packs (fun m => (update_row packID (fun p => String.eqb (pk_job p) jobID)
                                (set_pack_state PackDamaged) m).2) id d)
  end.

(** ** The recipes a restore freezes *)

Definition recipe_of (b : block_row) (p : pack_row) : BlockRecipe :=
  mkBlockRecipe (pk_path p) (pk_sha256 p) (bl_offset b) (bl_length b) (bl_sha256 b) (bl_plaintext b).

Definition freeze_link (d : backup_db) (jobID blockID : string) : option BlockRecipe :=
  match blocks d !! blockID with
  | Some b =>
      match packs d !! bl_pack b with
      | Some p => if String.eqb (bl_job b) jobID && ready_pack d (bl_job b) (bl_pack b)
                  then Some (recipe_of b p) else None
      | None => None
      end
  | None => None
  end.

Definition restore_item_blocks (d : backup_db) (jobID itemID : string) : list BlockRecipe :=
  omap (fun '(_, blockID) => freeze_link d jobID blockID) (item_links (item_blocks d) itemID).

(** ** Links and the catalog read back *)

Lemma last_ordinal_bound m k n v : m !! (k, n) = Some v -> (n < last_ordinal m)%nat.
Proof.
  intros H. unfold last_ordinal. apply (Nat.lt_le_trans _ (S n)); [lia|].
  apply max_list_elem_of_le, list_elem_of_fmap. exists ((k, n), v). split; [done|].
  by apply elem_of_map_to_list.
Qed.

Lemma omap_seq_lookup {A} (l : list A) : forall k b (f : nat -> option A),
  (length l <= b)%nat -> (forall n, f (k + n)%nat = l !! n) ->
  omap (fun n => pair n <$> f n) (seq k b) = imap (fun n x => ((k + n)%nat, x)) l.
Proof.
  induction l as [|x l IH]; intros k b f Hb Hf.
  - cbn [imap]. cut (forall i, omap (fun n => pair n <$> f n) (seq (k + i) b) = []).
    { intros H. specialize (H O). by rewrite Nat.add_0_r in H. }
    clear Hb. induction b as [|b IHb]; intros i; cbn; [done|].
    rewrite Hf. cbn. rewrite <- Nat.add_succ_r. apply IHb.
  - cbn [length] in Hb. destruct b as [|b]; [lia|].
    change (seq k (S b)) with (k :: seq (S k) b). cbn [omap list_omap].
    pose proof (Hf O) as H0. rewrite Nat.add_0_r in H0. rewrite H0. cbn.
    rewrite Nat.add_0_r. f_equal. etrans; [apply (IH (S k) b f); [lia|]|].
    + intros n. specialize (Hf (S n)). by rewrite Nat.add_succ_r in Hf.
    + apply imap_ext. intros n y _. cbn. by rewrite Nat.add_succ_r.
Qed.

Lemma item_links_exact m itemID l :
  (forall n, m !! (itemID, n) = l !! n) -> item_links m itemID = imap pair l.
Proof.
  intros H. unfold item_links.
  apply (omap_seq_lookup l 0 (last_ordinal m) (fun n => m !! (itemID, n))); [|exact H].
  destruct (length l) as [|k] eqn:E; [lia|].
  destruct (lookup_lt_is_Some_2 l k) as [x Hx]; [lia|]. rewrite <- H in Hx.
  by apply last_ordinal_bound in Hx.
Qed.

Lemma item_links_lookup m itemID n id :
  (n, id) ∈ item_links m itemID <-> m !! (itemID, n) = Some id.
Proof.
  unfold item_links. rewrite list_elem_of_omap. split.
  - intros (k & _ & H). destruct (m !! (itemID, k)) eqn:E; [|done]. cbn in H.
    injection H as <- <-. done.
  - intros H. exists n. rewrite H. split; [|done]. apply elem_of_seq.
    apply last_ordinal_bound in H. lia.
Qed.

Lemma insert_links_spec itemID ids : forall o bs m m',
  insert_links itemID o ids bs m = Some m' ->
  Forall (fun id => is_Some (bs !! id)) ids
  /\ (forall k n, m' !! (k, n) = if bool_decide (k = itemID /\ (o <= n < o + length ids)%nat)
                                then ids !! (n - o)%nat else m !! (k, n)).
Proof.
  induction ids as [|id ids IH]; intros o bs m m'; cbn [insert_links].
  - intros [= <-]. split; [constructor|]. intros k n.
    rewrite bool_decide_false; [done|]. cbn. intros [_ ?]; lia.
  - destruct (_ || _) eqn:E; [done|]. apply orb_false_iff in E as [_ E].
    apply negb_false_iff, bool_decide_eq_true in E. intros H.
    apply IH in H as [Hf Hl]. split; [by constructor|]. intros k n. rewrite Hl. cbn [length].
    case_bool_decide as H1; case_bool_decide as H2.
    + by replace (n - o)%nat with (S (n - S o)) by lia.
    + exfalso. apply H2. destruct H1. split; [done|lia].
    + destruct H2 as [-> H2]. assert (n = o) as -> by (destruct (decide (n = o)); [done|]; exfalso; apply H1; split; [done|lia]).
      by rewrite lookup_insert_eq, Nat.sub_diag.
    + rewrite lookup_insert_ne; [done|]. intros [= <- <-]. apply H2. split; [done|lia].
Qed.

Lemma scan_rows_ok size rows : forall acc,
  ca_invalid (fold_left (scan_row size) rows acc) = false ->
  ca_invalid acc = false /\ (size <> 0 ->
    ca_blockIDs (fold_left (scan_row size) rows acc) = ca_blockIDs acc ++ map (fun r => r.1.2) rows
    /\ map (fun r => r.1.1) rows = map (fun n => ca_expectedOrd acc + Z.of_nat n) (seq 0 (length rows))
    /\ Forall (fun r => r.2 = Some PackReady) rows).
Proof.
  induction rows as [|[[o id] st] rows IH]; intros acc H; cbn [fold_left] in *.
  { split; [done|]. intros _. rewrite app_nil_r. split_and!; done || constructor. }
  apply IH in H as [Hi Hr]. unfold scan_row in Hi, Hr |- *.
  destruct (size =? 0) eqn:Es.
  { split; [|lia]. by destruct (_ && _). }
  destruct (_ || _) eqn:E; [done|]. split; [done|]. intros Hs.
  apply orb_false_iff in E as [E E3]. apply orb_false_iff in E as [E1 E2].
  apply negb_false_iff, bool_decide_eq_true in E3.
  destruct (Hr Hs) as (R1 & R2 & R3). cbn [ca_blockIDs ca_expectedOrd] in *.
  cbn [map fst snd length seq]. rewrite R1, <- app_assoc, R2. split; [done|]. split; [|by constructor].
  rewrite <- seq_shift, map_map. f_equal; [lia|]. apply map_ext. intros n. lia.
Qed.

Lemma block_pack_ready d id :
  block_pack_state d id = Some PackReady ->
  exists b p, blocks d !! id = Some b /\ packs d !! bl_pack b = Some p /\ pk_state p = PackReady.
Proof.
  unfold block_pack_state. destruct (blocks d !! id) as [b|]; [|done]. cbn.
  destruct (packs d !! bl_pack b) as [p|] eqn:E; [|done]. cbn. intros [= H]. by exists b, p.
Qed.

(** What a reused item took over: all the links of the previous one, in order, in
    READY packs. *)
Lemma catalog_item_spec d itemID i c :
  (forall n, item_blocks d !! (itemID, n) <> Some "") ->
  catalog_item d itemID i = Some c ->
  Some (ci_FileSHA256 c) = it_sha256 i /\ ci_SizeBytes c = it_size i
  /\ Some (ci_Mtime c) = it_mtime i /\ zlen (ci_FileSHA256 c) = 32
  /\ ci_BlockIDs c = map snd (item_links (item_blocks d) itemID)
  /\ map fst (item_links (item_blocks d) itemID) = seq 0 (length (ci_BlockIDs c)).
Proof.
  intros Hne. unfold catalog_item. destruct (it_sha256 i) as [h|]; [|done].
  destruct (it_mtime i) as [t|]; [|done].
  destruct (negb (zlen h =? 32) || _ || _) eqn:E; [done|].
  destruct (_ && _) eqn:E2; [done|]. intros [= <-]. cbn [ci_FileSHA256 ci_SizeBytes ci_Mtime ci_BlockIDs].
  apply orb_false_iff in E as [E _]. apply orb_false_iff in E as [E1 E].
  apply negb_false_iff, Z.eqb_eq in E1.
  pose proof (scan_rows_ok _ _ _ E) as [_ Hr]. unfold item_rows in *.
  destruct (item_links (item_blocks d) itemID) as [|[n0 id0] l] eqn:El.
  { cbn in *. destruct (it_size i =? 0) eqn:Es; [by split_and!|].
    discriminate E. }
  destruct (decide (it_size i = 0)) as [Hz|Hz].
  { exfalso. cbn [map fold_left] in E. unfold scan_row at 2 in E. rewrite Hz in E.
    destruct (Z.eqb_spec (Z.of_nat n0) (-1)) as [En|_]; [lia|]. cbn in E.
    pose proof (item_links_lookup (item_blocks d) itemID n0 id0) as Hl. rewrite El in Hl.
    destruct (String.eqb id0 "") eqn:Eid; cbn in E.
    - apply String.eqb_eq in Eid. subst id0. apply (Hne n0), Hl. constructor.
    - apply scan_rows_ok in E as [E _]. done. }
  destruct (Hr Hz) as (R1 & R2 & _). rewrite R1. cbn [ca_blockIDs app ca_expectedOrd] in *.
  split_and!; try done.
  - rewrite map_map. apply map_ext. by intros [n id].
  - rewrite map_map in *. rewrite length_map in *.
    assert (map (fun x : nat * string => Z.of_nat x.1) ((n0, id0) :: l)
            = map Z.of_nat (seq 0 (length ((n0, id0) :: l)))) as H.
    { etrans; [|etrans; [exact R2|]]; apply map_ext; [by intros [n id]|]. intros n. lia. }
    apply (f_equal (map Z.to_nat)) in H. rewrite !map_map in H.
    etrans; [|etrans; [exact H|]].
    + apply map_ext. intros [n id]. cbn. lia.
    + etrans; [apply map_ext; intros n; apply Nat2Z.id|apply map_id].
Qed.

(** The previous snapshot is one of the job's own and visible. *)
Lemma latest_valid jobID d id :
  GetLatestValidBackupSnapshotIDContext jobID d = Some id ->
  exists n, snapshots d !! id = Some n /\ sn_job n = jobID /\ snapshot_in visible (sn_state n) = true.
Proof.
  unfold GetLatestValidBackupSnapshotIDContext, snapshots_by_age.
  set (l := merge_sort newer _). destruct (head _) as [[i n]|] eqn:Eh; [|done]. cbn. intros [= ->].
  assert ((id, n) ∈ l) as Hin.
  { apply list_elem_of_In. destruct (List.filter _ l) as [|x k] eqn:Ef; [done|]. cbn in Eh.
    injection Eh as ->. assert (In (id, n) (List.filter (fun '(_, n) => bool_decide (sn_integrity n = VALID)) l)) as Hi
      by (rewrite Ef; by left).
    by apply filter_In in Hi as [Hi _]. }
  subst l. rewrite merge_sort_Permutation in Hin. apply list_elem_of_In, filter_In in Hin as [Hin Hp].
  apply list_elem_of_In, elem_of_map_to_list in Hin. apply andb_true_iff in Hp as [HJ Hv].
  apply String.eqb_eq in HJ. by exists n.
Qed.

Lemma file_catalog_lookup sid d path ci :
  GetBackupSnapshotFileCatalogContext sid d !! path = Some ci ->
  exists i it, items d !! i = Some it /\ it_snapshot it = sid /\ it_is_dir it = false
    /\ it_path it = path /\ catalog_item d i it = Some ci.
Proof.
  unfold GetBackupSnapshotFileCatalogContext. intros H%elem_of_list_to_map_2.
  apply list_elem_of_omap in H as ([i it] & Hi & H). apply elem_of_map_to_list in Hi.
  unfold reusable in H. destruct (_ && _) eqn:E; [|done].
  apply andb_true_iff in E as [E _]. apply andb_true_iff in E as [E1 E2].
  apply String.eqb_eq in E1. apply negb_true_iff in E2.
  destruct (catalog_item d i it) as [ci'|] eqn:Ec; [|done]. cbn in H. injection H as <- <-.
  by exists i, it.
Qed.
