(* ===== verification/BackupMaintenance.v ===== *)
(** * Maintenance of a backup repository: the statements

    Retention, compaction, verification and deletion work on backup_maintenance,
    backup_verify_targets and the repository catalog through the statements of
    src/backend/internal/db/backups.go modelled here.  A transaction that is refused
    or rolled back answers [None] or leaves the database alone; [now] is the
    database clock in seconds; audit rows and the columns no statement reads back
    are left out. *)

From S2P Require Import Prelude HashString Tables Bytes BackupDb BackupRepo BackupRuns BackupCatalog.

(** ** Claims *)

Definition open_maintenance : list maintenance_state := [MPENDING; MRUNNING; MRETRY_WAIT; MCANCELLING].

Definition nullableBackupString (value : string) : option string :=
  if String.eqb value "" then None else Some value.

Definition before (t : option Z) (now : Z) : bool := match t with Some t => t <? now | None => false end.

(** A check whose coordinator has gone silent. *)
Definition abandoned_check (now : Z) (m : maintenance_row) : bool :=
  bool_decide (mt_kind m = VERIFY) && bool_decide (mt_state m = MRUNNING)
  && (before (mt_lease m) now
      || bool_decide (mt_lease m = None) && before (mt_deadline m) now).

Definition release_check (m : maintenance_row) : maintenance_row :=
  mkMaintenance (mt_job m) (mt_kind m) MPENDING (mt_budget m) (mt_mode m) (mt_attempts m)
    (mt_next_retry m) None None None (mt_generation m) (Some "REPOSITORY_CHECK_RECOVERED")
    (mt_processed m) (mt_total m) (mt_checked m) (mt_missing m) (mt_damaged m) (mt_created m).

Definition claimable_maintenance (now : Z) (d : backup_db) (m : maintenance_row) : bool :=
  maintenance_in [MPENDING; MRETRY_WAIT] (mt_state m)
  && match mt_next_retry m with Some t => t <=? now | None => true end
  && bool_decide (is_Some (jobs d !! mt_job m)).

Definition older_maintenance (a b : string * maintenance_row) : Prop := mt_created a.2 <= mt_created b.2.

#[export] Instance older_maintenance_dec : RelDecision older_maintenance.
Proof. intros a b. unfold older_maintenance. apply _. Defined.

Definition claim_maintenance (now : Z) (workerID : string) (m : maintenance_row) : maintenance_row :=
  mkMaintenance (mt_job m) (mt_kind m) MRUNNING (mt_budget m) (mt_mode m) (mt_attempts m + 1)
    (mt_next_retry m) (Some (now + minutes 10)) (Some (now + minutes 2))
    (nullableBackupString workerID) (mt_generation m + 1) (mt_error m)
    (mt_processed m) (mt_total m) (mt_checked m) (mt_missing m) (mt_damaged m) (mt_created m).

Definition ClaimNextBackupMaintenanceForWorkerContext (workerID : string) (now : Z) (d : backup_db)
    : option (string * maintenance_row) * backup_db :=
  let d := set_maintenance (update_where (abandoned_check now) release_check) id d in
  match merge_sort older_maintenance
          (List.filter (fun '(_, m) => claimable_maintenance now d m) (map_to_list (maintenance d))) with
  | [] => (None, d)
  | (id_, m) :: _ =>
      let m := claim_maintenance now workerID m in
      (Some (id_, m), set_maintenance (insert id_ m) id d)
  end.

Definition finish_maintenance (m : maintenance_row) : maintenance_row :=
  let cancelled := bool_decide (mt_state m = MCANCELLING) in
  mkMaintenance (mt_job m) (mt_kind m) (if cancelled then MCANCELLED else MCOMPLETED)
    (mt_budget m) (mt_mode m) (mt_attempts m) (mt_next_retry m) None (mt_lease m) (mt_worker m)
    (mt_generation m) (if cancelled then Some "BACKUP_VERIFY_CANCELLED" else None)
    (mt_processed m) (mt_total m) (mt_checked m) (mt_missing m) (mt_damaged m) (mt_created m).

(** The targets of a finished check no longer pin their packs. *)
Definition unpin_target (t : verify_target) : verify_target :=
  mkVerifyTarget (vt_maintenance t) None (vt_path t) (vt_sha256 t) (vt_size t) (vt_state t)
    (vt_epoch t) (vt_deadline t) (vt_worker t) (vt_read t).

Definition of_maintenance (id : string) (t : verify_target) : bool := String.eqb (vt_maintenance t) id.

Definition running_or_cancelling (m : maintenance_row) : bool :=
  maintenance_in [MRUNNING; MCANCELLING] (mt_state m).

Definition CompleteBackupMaintenanceContext (maintenanceID : string) (d : backup_db) : option backup_db :=
  match maintenance d !! maintenanceID with
  | None => None
  | Some _ =>
      let '(updated, ms) := update_row maintenanceID running_or_cancelling finish_maintenance
                              (maintenance d) in
      if negb updated then Some d
      else Some (set_maintenance (fun _ => ms)
                   (update_where (of_maintenance maintenanceID) unpin_target) d)
  end.

Definition cancel_check (m : maintenance_row) : maintenance_row :=
  let waiting := maintenance_in [MPENDING; MRETRY_WAIT] (mt_state m) in
  mkMaintenance (mt_job m) (mt_kind m) (if waiting then MCANCELLED else MCANCELLING)
    (mt_budget m) (mt_mode m) (mt_attempts m) (mt_next_retry m)
    (if waiting then None else mt_deadline m) (mt_lease m) (mt_worker m) (mt_generation m)
    (Some "BACKUP_VERIFY_CANCELLED")
    (mt_processed m) (mt_total m) (mt_checked m) (mt_missing m) (mt_damaged m) (mt_created m).

Definition CancelBackupVerifyForOwnerContext (maintenanceID userID : string) (d : backup_db)
    : bool * backup_db :=
  let '(ok, ms) := update_row maintenanceID
    (fun m => bool_decide (mt_kind m = VERIFY) && maintenance_in [MPENDING; MRETRY_WAIT; MRUNNING] (mt_state m)
              && match jobs d !! mt_job m with Some j => String.eqb (bj_user j) userID | None => false end)
    cancel_check (maintenance d) in
  (ok, set_maintenance (fun _ => ms) id d).

Definition IsBackupMaintenanceCancellingContext (maintenanceID : string) (d : backup_db) : bool :=
  match maintenance d !! maintenanceID with
  | Some m => bool_decide (mt_state m = MCANCELLING)
  | None => false
  end.

Definition retry_maintenance (now : Z) (errorCode : string) (m : maintenance_row) : maintenance_row :=
  mkMaintenance (mt_job m) (mt_kind m) MRETRY_WAIT (mt_budget m) (mt_mode m) (mt_attempts m)
    (Some (now + 30)) None (mt_lease m) (mt_worker m) (mt_generation m) (Some errorCode)
    (mt_processed m) (mt_total m) (mt_checked m) (mt_missing m) (mt_damaged m) (mt_created m).

Definition RetryBackupMaintenanceContext (maintenanceID errorCode : string) (now : Z) (d : backup_db)
    : backup_db :=
  set_maintenance (fun ms => (update_row maintenanceID (fun m => bool_decide (mt_state m = MRUNNING))
                               (retry_maintenance now errorCode) ms).2) id d.

(** The unique index allows one open check per job. *)
Definition open_check_of (jobID : string) (m : maintenance_row) : bool :=
  String.eqb (mt_job m) jobID && bool_decide (mt_kind m = VERIFY)
  && maintenance_in open_maintenance (mt_state m).

Definition EnqueueBackupMaintenanceContext (jobID : string) (kind : maintenance_kind)
    (newID : string) (now : Z) (d : backup_db) : option backup_db :=
  if negb (bool_decide (is_Some (jobs d !! jobID))) || bool_decide (is_Some (maintenance d !! newID))
     || bool_decide (kind = VERIFY)
  then None
  else Some (set_maintenance (insert newID (new_maintenance jobID kind
         (if bool_decide (kind = COMPACTION) then Some 536870912 else None) None now)) id d).

(** ** Checks of the repository *)

Definition valid_budget (mode : verify_mode) (byteBudget : option Z) : bool :=
  match mode, byteBudget with
  | BUDGETED, Some b => (67108864 <=? b) && (b <=? 1099511627776)
  | BUDGETED, None => false
  | _, Some _ => false
  | _, None => true
  end.

Definition CreateBackupVerifyContext (jobID userID : string) (mode : verify_mode)
    (byteBudget : option Z) (newID : string) (now : Z) (d : backup_db) : option backup_db :=
  if negb (valid_budget mode byteBudget) then None
  else match jobs d !! jobID with
  | Some j =>
      if String.eqb (bj_user j) userID && bool_decide (bj_deletion j = NotDeleting)
         && negb (bool_decide (is_Some (maintenance d !! newID)))
         && negb (any_row (open_check_of jobID) (maintenance d))
      then Some (set_maintenance (insert newID (new_maintenance jobID VERIFY byteBudget (Some mode) now)) id d)
      else None
  | None => None
  end.

(** Some item of a visible snapshot has the block. *)
Definition block_live (d : backup_db) (blockID : string) : bool :=
  existsb (fun '((itemID, _), b) =>
    String.eqb b blockID
    && match items d !! itemID with
       | Some i => match snapshots d !! it_snapshot i with
                   | Some n => snapshot_in visible (sn_state n)
                   | None => false
                   end
       | None => false
       end) (map_to_list (item_blocks d)).

Definition pack_live (d : backup_db) (packID : string) : bool :=
  existsb (fun '(id, b) => String.eqb (bl_pack b) packID && block_live d id) (map_to_list (blocks d)).

(** A check that has not ended holds the pack. *)
Definition pack_checked_now (d : backup_db) (packID : string) : bool :=
  any_row (fun t => bool_decide (vt_pack t = Some packID)
    && match maintenance d !! vt_maintenance t with
       | Some m => bool_decide (mt_kind m = VERIFY) && maintenance_in open_maintenance (mt_state m)
       | None => false
       end) (verify_targets d).

Definition pack_pinned (d : backup_db) (packID : string) : bool :=
  existsb (fun '(_, p) => String.eqb p packID) (elements (pins d)).

Definition target_conflict (maintenanceID path : string) (t : verify_target) : bool :=
  String.eqb (vt_maintenance t) maintenanceID && String.eqb (vt_path t) path.

(** The rows of the INSERT ... SELECT; ON CONFLICT DO NOTHING. *)
Fixpoint insert_targets (maintenanceID : string) (newID : nat -> string) (l : list (string * pack_row))
    (ts : gmap string verify_target) : option (gmap string verify_target) :=
  match l with
  | [] => Some ts
  | (packID, p) :: l =>
      if any_row (target_conflict maintenanceID (pk_path p)) ts
      then insert_targets maintenanceID (fun i => newID (S i)) l ts
      else if bool_decide (is_Some (ts !! newID O)) || negb (0 <? pk_size p) then None
      else insert_targets maintenanceID (fun i => newID (S i)) l
             (<[newID O := mkVerifyTarget maintenanceID (Some packID) (pk_path p) (pk_sha256 p)
                             (pk_size p) TPENDING 0 None None 0]> ts)
  end.

Definition set_total (n : Z) (m : maintenance_row) : maintenance_row :=
  mkMaintenance (mt_job m) (mt_kind m) (mt_state m) (mt_budget m) (mt_mode m) (mt_attempts m)
    (mt_next_retry m) (mt_deadline m) (mt_lease m) (mt_worker m) (mt_generation m) (mt_error m)
    (mt_processed m) n (mt_checked m) (mt_missing m) (mt_damaged m) (mt_created m).

Definition is_running (m : maintenance_row) : bool := bool_decide (mt_state m = MRUNNING).

Definition SnapshotBackupVerifyTargetsContext (maintenanceID jobID : string) (newID : nat -> string)
    (d : backup_db) : option backup_db :=
  let l := List.filter (fun '(id, p) => String.eqb (pk_job p) jobID
             && bool_decide (pk_state p = PackReady) && pack_live d id) (map_to_list (packs d)) in
  if negb (bool_decide (is_Some (maintenance d !! maintenanceID))) && negb (bool_decide (l = []))
  then None
  else match insert_targets maintenanceID newID l (verify_targets d) with
  | None => None
  | Some ts =>
      Some (set_maintenance
        (fun ms => (update_row maintenanceID is_running
                      (set_total (count_where (of_maintenance maintenanceID) ts)) ms).2)
        (fun _ => ts) d)
  end.

Definition set_target (s : target_state) (epoch : Z) (deadline : option Z) (worker : option string)
    (t : verify_target) : verify_target :=
  mkVerifyTarget (vt_maintenance t) (vt_pack t) (vt_path t) (vt_sha256 t) (vt_size t) s epoch deadline
    worker (vt_read t).

Definition reset_target (t : verify_target) : verify_target :=
  set_target TPENDING (vt_epoch t) None None t.

(** The pack checked longest ago first, then by identifier. *)
Definition last_checked (d : backup_db) (t : verify_target) : option Z :=
  packID ← vt_pack t; p ← packs d !! packID; pk_checked p.

Definition target_before (d : backup_db) (a b : string * verify_target) : Prop :=
  match last_checked d a.2, last_checked d b.2 with
  | Some x, Some y => x < y \/ x = y /\ String.leb a.1 b.1 = true
  | None, None => String.leb a.1 b.1 = true
  | checked, _ => checked = None
  end.

#[export] Instance target_before_dec d : RelDecision (target_before d).
Proof. intros a b. unfold target_before. repeat case_match; apply _. Defined.

Definition ClaimNextBackupVerifyTargetContext (maintenanceID workerID : string) (now : Z) (d : backup_db)
    : option (string * verify_target) * backup_db :=
  let d := set_maintenance id (update_where
    (fun t => of_maintenance maintenanceID t && bool_decide (vt_state t = TRUNNING)
              && before (vt_deadline t) now) reset_target) d in
  match merge_sort (target_before d)
          (List.filter (fun '(_, t) => of_maintenance maintenanceID t
             && bool_decide (vt_state t = TPENDING)) (map_to_list (verify_targets d))) with
  | [] => (None, d)
  | (id_, t) :: _ =>
      let t := set_target TRUNNING (vt_epoch t + 1) (Some (now + minutes 10))
                 (nullableBackupString workerID) t in
      (Some (id_, t), set_maintenance id (insert id_ t) d)
  end.

Definition update_target (id_ : string) (p : verify_target -> bool) (f : verify_target -> verify_target)
    (d : backup_db) : backup_db :=
  set_maintenance id (fun ts => (update_row id_ p f ts).2) d.

Definition ReleaseBackupVerifyTargetClaimContext (targetID : string) (claimEpoch : Z) (d : backup_db)
    : backup_db :=
  update_target targetID (fun t => bool_decide (vt_state t = TRUNNING) && (vt_epoch t =? claimEpoch))
    reset_target d.

(** The claim is still held; an epoch of zero claims nothing in particular. *)
Definition claimed_target (claimEpoch : Z) (t : verify_target) : bool :=
  (bool_decide (vt_state t = TPENDING) || bool_decide (vt_state t = TRUNNING))
  && ((claimEpoch =? 0) || (vt_epoch t =? claimEpoch)).

Definition target_verdict (exists_ : bool) (expectedSize actualSize : Z) : target_state :=
  if negb exists_ || (actualSize <? 0) then TMISSING
  else if negb (actualSize =? expectedSize) then TDAMAGED else TCOMPLETED.

Definition CompleteBackupVerifyTargetContext (targetID : string) (exists_ : bool)
    (expectedSize actualSize claimEpoch : Z) (d : backup_db) : target_state * backup_db :=
  let state := target_verdict exists_ expectedSize actualSize in
  (state, update_target targetID (claimed_target claimEpoch)
            (fun t => set_target state (vt_epoch t) None None t) d).

Definition MarkBackupVerifyTargetDamagedContext (targetID : string) (claimEpoch : Z) (d : backup_db)
    : backup_db :=
  update_target targetID (claimed_target claimEpoch)
    (fun t => set_target TDAMAGED (vt_epoch t) None None t) d.

Definition MarkBackupVerifyTargetReadContext (targetID : string) (n claimEpoch : Z) (d : backup_db)
    : backup_db :=
  update_target targetID (claimed_target claimEpoch)
    (fun t => mkVerifyTarget (vt_maintenance t) (vt_pack t) (vt_path t) (vt_sha256 t) (vt_size t)
                (vt_state t) (vt_epoch t) (vt_deadline t) (vt_worker t) n) d.

Definition update_check (id_ : string) (f : maintenance_row -> maintenance_row) (d : backup_db)
    : backup_db :=
  set_maintenance (fun ms => (update_row id_ is_running f ms).2) id d.

Definition add_bytes (n : Z) (m : maintenance_row) : maintenance_row :=
  mkMaintenance (mt_job m) (mt_kind m) (mt_state m) (mt_budget m) (mt_mode m) (mt_attempts m)
    (mt_next_retry m) (mt_deadline m) (mt_lease m) (mt_worker m) (mt_generation m) (mt_error m)
    (mt_processed m + n) (mt_total m) (mt_checked m) (mt_missing m) (mt_damaged m) (mt_created m).

Definition AddBackupVerifyProcessedBytesContext (maintenanceID : string) (n : Z) (d : backup_db)
    : backup_db :=
  update_check maintenanceID (add_bytes n) d.

Definition renew_lease (now : Z) (m : maintenance_row) : maintenance_row :=
  mkMaintenance (mt_job m) (mt_kind m) (mt_state m) (mt_budget m) (mt_mode m) (mt_attempts m)
    (mt_next_retry m) (Some (now + minutes 10)) (Some (now + minutes 2)) (mt_worker m)
    (mt_generation m) (mt_error m)
    (mt_processed m) (mt_total m) (mt_checked m) (mt_missing m) (mt_damaged m) (mt_created m).

Definition AdvanceBackupVerifyCursorContext (maintenanceID : string) (now : Z) (d : backup_db)
    : backup_db :=
  update_check maintenanceID (renew_lease now) d.

Definition settle_check (ts : gmap string verify_target) (id_ : string) (m : maintenance_row)
    : maintenance_row :=
  let count s := count_where (fun t => of_maintenance id_ t && bool_decide (vt_state t = s)) ts in
  mkMaintenance (mt_job m) (mt_kind m)
    (if bool_decide (mt_state m = MCANCELLING) then MCANCELLED else MCOMPLETED)
    (mt_budget m) (mt_mode m) (mt_attempts m) (mt_next_retry m) None (mt_lease m) (mt_worker m)
    (mt_generation m) (mt_error m)
    (mt_processed m) (mt_total m) (count TCOMPLETED) (count TMISSING) (count TDAMAGED) (mt_created m).

Definition CompleteBackupVerifyContext (maintenanceID : string) (d : backup_db) : option backup_db :=
  let '(updated, ms) := update_row maintenanceID running_or_cancelling
                          (settle_check (verify_targets d) maintenanceID) (maintenance d) in
  if negb updated then None
  else Some (set_maintenance (fun _ => ms)
               (update_where (of_maintenance maintenanceID) unpin_target) d).

(** ** Retention and deletion of packs *)

Definition older_pack (a b : string * pack_row) : Prop := pk_created a.2 <= pk_created b.2.

#[export] Instance older_pack_dec : RelDecision older_pack.
Proof. intros a b. unfold older_pack. apply _. Defined.

(** ORDER BY created_at LIMIT limit *)
Definition oldest_packs (limit : nat) (p : string -> pack_row -> bool) (d : backup_db)
    : list (string * pack_row) :=
  take limit (merge_sort older_pack (List.filter (fun '(id, r) => p id r) (map_to_list (packs d)))).

Definition held (d : backup_db) (packID : string) : bool :=
  pack_pinned d packID || pack_checked_now d packID.

Definition ListBackupPacksForDeletionContext (jobID : string) (limit : nat) (d : backup_db)
    : list (string * pack_row) :=
  oldest_packs limit (fun id p => String.eqb (pk_job p) jobID
    && negb (bool_decide (pk_state p = PackDeleted)) && negb (held d id)) d.

Definition ListBackupReclaimablePacksContext (jobID : string) (limit : nat) (d : backup_db)
    : list (string * pack_row) :=
  oldest_packs limit (fun id p => String.eqb (pk_job p) jobID
    && (bool_decide (pk_state p = PackReady) || bool_decide (pk_state p = PackDeletePending))
    && negb (held d id) && negb (pack_live d id)) d.

(** The newest [keep] visible snapshots stay. *)
Definition ExpireBackupSnapshotsContext (jobID : string) (keep : nat) (d : backup_db) : backup_db :=
  let expired := map fst (drop keep (snapshots_by_age jobID d)) in
  set_snapshots (map_imap (fun id n =>
    Some (if bool_decide (id ∈ expired)
          then mkSnapshot (sn_job n) (sn_run n) EXPIRED (sn_roots n) (sn_totals n) (sn_integrity n)
                 (sn_created n)
          else n))) d.

(** The link leads from a snapshot that is gone for good to a block of the pack. *)
Definition dead_link (d : backup_db) (jobID packID itemID blockID : string) : bool :=
  match items d !! itemID, blocks d !! blockID with
  | Some i, Some b =>
      String.eqb (bl_job b) jobID && String.eqb (bl_pack b) packID
      && match snapshots d !! it_snapshot i with
         | Some n => snapshot_in [EXPIRED; DELETING] (sn_state n)
         | None => false
         end
  | _, _ => false
  end.

Definition drop_dead_links (jobID packID : string) (d : backup_db) : backup_db :=
  set_items id (filter (fun '((itemID, _), blockID) => dead_link d jobID packID itemID blockID = false)) d.

Definition linked (d : backup_db) (blockID : string) : bool :=
  existsb (fun '(_, b) => String.eqb b blockID) (map_to_list (item_blocks d)).

(** The blocks of the pack that no item has. *)
Definition drop_unlinked_blocks (jobID packID : string) (d : backup_db) : backup_db :=
  set_packs id (filter (fun '(id, b) =>
    String.eqb (bl_job b) jobID && String.eqb (bl_pack b) packID && negb (linked d id) = false)) d.

Definition MarkBackupPackDeletedContext (jobID packID : string) (d : backup_db) : option backup_db :=
  let d := drop_unlinked_blocks jobID packID (drop_dead_links jobID packID d) in
  let '(updated, ps) := update_row packID (fun p => String.eqb (pk_job p) jobID && negb (held d packID))
                          (set_pack_state PackDeleted) (packs d) in
  if negb updated then None else Some (set_packs (fun _ => ps) id d).

(** ** Compaction *)

Record BackupLiveBlock := mkLiveBlock { lb_ID : string; lb_Hash : bytes; lb_Size : Z }.

Definition id_le (a b : string * block_row) : Prop := String.leb a.1 b.1 = true.

#[export] Instance id_le_dec : RelDecision id_le.
Proof. intros a b. unfold id_le. apply _. Defined.

Definition ListBackupLiveBlocksContext (jobID packID : string) (d : backup_db) : list BackupLiveBlock :=
  map (fun '(id, b) => mkLiveBlock id (bl_sha256 b) (bl_plaintext b))
    (merge_sort id_le (List.filter (fun '(id, b) =>
       String.eqb (bl_job b) jobID && String.eqb (bl_pack b) packID && block_live d id)
       (map_to_list (blocks d)))).

(** A READY pack with live and with dead blocks. *)
Definition FindBackupCompactionCandidateContext (jobID : string) (d : backup_db)
    : option (string * pack_row) :=
  head (oldest_packs 1 (fun id p => String.eqb (pk_job p) jobID && bool_decide (pk_state p = PackReady)
    && pack_live d id
    && existsb (fun '(k, b) => String.eqb (bl_pack b) id && negb (block_live d k)) (map_to_list (blocks d)))
    d).

(** The locators of the listed blocks move to the new pack. *)
Fixpoint move_blocks (jobID oldPackID newPackID : string) (l : list (string * BackupPackBlock))
    (bs : gmap string block_row) : option (gmap string block_row) :=
  match l with
  | [] => Some bs
  | (blockID, b) :: l =>
      let '(updated, bs) := update_row blockID
        (fun r => String.eqb (bl_job r) jobID && String.eqb (bl_pack r) oldPackID
                  && bool_decide (bl_sha256 r = ppb_Hash b))
        (fun r => mkBlockRow (bl_job r) (bl_sha256 r) (bl_plaintext r) newPackID
                    (ppb_PayloadOffset b) (ppb_PayloadLength b)) bs in
      if negb updated || negb (block_length_ok (ppb_PayloadLength b)) || (ppb_PayloadOffset b <? 0)
      then None else move_blocks jobID oldPackID newPackID l bs
  end.

Definition ReplaceBackupPackLocatorsContext (jobID oldPackID remotePath : string) (packHash : bytes)
    (packSize : Z) (l : list BackupPackBlock) (blockIDs : list string) (newID : string) (now : Z)
    (d : backup_db) : option backup_db :=
  if (zlen l =? 0) || negb (zlen l =? zlen blockIDs) then None
  else match insert_pack newID (mkPackRow jobID remotePath packHash packSize PackReady 1 None now)
               (packs d) with
  | None => None
  | Some ps =>
      match move_blocks jobID oldPackID newID (zip blockIDs l) (blocks d) with
      | None => None
      | Some bs =>
          let d := set_packs (fun _ => ps) (fun _ => bs) d in
          let d := drop_unlinked_blocks jobID oldPackID (drop_dead_links jobID oldPackID d) in
          Some (set_packs (fun ps => (update_row oldPackID
                  (fun p => String.eqb (pk_job p) jobID && bool_decide (pk_state p = PackReady))
                  (set_pack_state PackDeletePending) ps).2) id d)
      end
  end.

(** ** Lists of packs *)

Lemma oldest_in n p d x : x ∈ oldest_packs n p d -> packs d !! x.1 = Some x.2 /\ p x.1 x.2 = true.
Proof.
  intros Hx. unfold oldest_packs in Hx.
  apply (subseteq_take n) in Hx. rewrite merge_sort_Permutation in Hx.
  apply list_elem_of_In, filter_In in Hx as [Hin Hp]. destruct x as [id r].
  split; [|done]. by apply elem_of_map_to_list, list_elem_of_In.
Qed.

(** ** Retention keeps the newest snapshots *)

Lemma by_age_in jobID d x :
  x ∈ snapshots_by_age jobID d <->
  snapshots d !! x.1 = Some x.2 /\ sn_job x.2 = jobID /\ sn_state x.2 ∈ visible.
Proof.
  unfold snapshots_by_age. rewrite merge_sort_Permutation. destruct x as [id n].
  rewrite list_elem_of_In, filter_In. cbn [fst snd].
  rewrite <- list_elem_of_In, elem_of_map_to_list, andb_true_iff, String.eqb_eq.
  unfold snapshot_in. by rewrite bool_decide_eq_true.
Qed.

Lemma by_age_nodup jobID d : NoDup (map fst (snapshots_by_age jobID d)).
Proof.
  unfold snapshots_by_age.
  assert (forall l : list (string * backup_snapshot), NoDup l.*1 -> forall p, NoDup (List.filter p l).*1) as Hf.
  { induction l as [|x l IH]; intros Hn p; [done|]. cbn in *. apply NoDup_cons in Hn as [Hx Hn].
    destruct (p x); [|by apply IH]. cbn. apply NoDup_cons. split; [|by apply IH].
    intros (y & E & Hy)%list_elem_of_fmap. apply Hx. apply list_elem_of_fmap. exists y. split; [done|].
    apply list_elem_of_In, filter_In in Hy as [Hy _]. by apply list_elem_of_In. }
  eapply NoDup_Permutation_proper; [|apply (Hf _ (NoDup_fst_map_to_list (snapshots d)))].
  apply fmap_Permutation. apply merge_sort_Permutation.
Qed.

Lemma by_age_sorted jobID d : StronglySorted newer (snapshots_by_age jobID d).
Proof.
  apply Sorted_StronglySorted; [intros a b c; unfold newer; lia|].
  apply Sorted_merge_sort. intros a b. unfold newer. lia.
Qed.

Lemma sorted_split {A} (R : A -> A -> Prop) l1 l2 :
  StronglySorted R (l1 ++ l2) -> forall a b, a ∈ l1 -> b ∈ l2 -> R a b.
Proof.
  induction l1 as [|x l1 IH]; intros Hs a b; [by intros ?%elem_of_nil|].
  cbn in Hs. apply StronglySorted_inv in Hs as [Hs Hx].
  intros [->|Ha]%elem_of_cons Hb; [|by apply IH].
  rewrite Forall_forall in Hx. apply Hx, elem_of_app. by right.
Qed.

(** Retention expires the visible snapshots of the job beyond the newest [keep]:
    those kept stay as they are, are the newest ones, and are [keep] of them unless
    there were fewer; the others become EXPIRED, and no other snapshot of any job is
    touched. *)
Theorem retention_keeps_newest jobID keep d :
  let l := snapshots_by_age jobID d in
  let d' := ExpireBackupSnapshotsContext jobID keep d in
  length (take keep l) = Nat.min keep (length l)
  /\ (forall a b, a ∈ take keep l -> b ∈ drop keep l -> sn_created b.2 <= sn_created a.2)
  /\ (forall x, x ∈ take keep l -> snapshots d' !! x.1 = Some x.2)
  /\ (forall x, x ∈ drop keep l -> sn_state <$> snapshots d' !! x.1 = Some EXPIRED)
  /\ (forall id n, snapshots d !! id = Some n -> (sn_job n <> jobID \/ sn_state n ∉ visible) ->
        snapshots d' !! id = Some n).
Proof.
  cbv zeta. set (l := snapshots_by_age jobID d). set (d' := ExpireBackupSnapshotsContext jobID keep d).
  assert (forall id n, snapshots d !! id = Some n -> id ∉ map fst (drop keep l) ->
    snapshots d' !! id = Some n) as Hkeep.
  { intros id n Hn Hni. cbn. rewrite map_lookup_imap, Hn. cbn. by rewrite bool_decide_false. }
  assert (forall x, x ∈ l -> snapshots d !! x.1 = Some x.2 /\ sn_job x.2 = jobID /\ sn_state x.2 ∈ visible)
    as Hin by (intros x; apply by_age_in).
  pose proof (by_age_nodup jobID d) as Hnd. fold l in Hnd. rewrite <- (take_drop keep l) in Hnd.
  rewrite map_app in Hnd. apply NoDup_app in Hnd as (_ & Hdis & _).
  split_and!.
  - apply length_take.
  - intros a b Ha Hb. pose proof (by_age_sorted jobID d) as Hs. fold l in Hs.
    rewrite <- (take_drop keep l) in Hs. by apply (sorted_split _ _ _ Hs a b).
  - intros x Hx. destruct (Hin x) as (Hn & _); [by eapply subseteq_take|]. apply Hkeep; [done|].
    apply Hdis. by apply list_elem_of_fmap_2.
  - intros x Hx. destruct (Hin x) as (Hn & _); [by eapply subseteq_drop|].
    cbn. rewrite map_lookup_imap, Hn. cbn. rewrite bool_decide_true; [done|]. fold l.
    by apply list_elem_of_fmap_2.
  - intros id n Hn Hor. apply Hkeep; [done|]. intros (x & -> & Hx)%list_elem_of_fmap.
    destruct (Hin x) as (Hn' & HJ & Hv); [by eapply subseteq_drop|].
    rewrite Hn in Hn'. injection Hn' as ->. by destruct Hor.
Qed.

(** ** The statements of the catalog

    Each statement of the catalog and of maintenance leaves jobs and runs alone and makes
    no snapshot visible, as [catalog_step] says of all of them. *)

Inductive catalog_statement : backup_db -> backup_db -> Prop :=
| cat_record J path hash size l packID newID now d ids d' :
    RecordBackupPackAndBlocksContext J path hash size l packID newID now d = Some (ids, d') -> catalog_statement d d'
| cat_items sid l newID d d' :
    BatchCreateBackupSnapshotItemsAndBlocksContext sid l newID d = Some d' -> catalog_statement d d'
| cat_checked J ids now d : catalog_statement d (MarkBackupPacksCheckedContext J ids now d)
| cat_damaged J packID d : catalog_statement d (MarkBackupPackDamagedContext J packID d)
| cat_claim w now d : catalog_statement d (ClaimNextBackupMaintenanceForWorkerContext w now d).2
| cat_complete id d d' : CompleteBackupMaintenanceContext id d = Some d' -> catalog_statement d d'
| cat_cancel id u d : catalog_statement d (CancelBackupVerifyForOwnerContext id u d).2
| cat_retry id e now d : catalog_statement d (RetryBackupMaintenanceContext id e now d)
| cat_enqueue J k newID now d d' :
    EnqueueBackupMaintenanceContext J k newID now d = Some d' -> catalog_statement d d'
| cat_create J u mode b newID now d d' :
    CreateBackupVerifyContext J u mode b newID now d = Some d' -> catalog_statement d d'
| cat_snapshot id J newID d d' :
    SnapshotBackupVerifyTargetsContext id J newID d = Some d' -> catalog_statement d d'
| cat_claim_target id w now d : catalog_statement d (ClaimNextBackupVerifyTargetContext id w now d).2
| cat_release id e d : catalog_statement d (ReleaseBackupVerifyTargetClaimContext id e d)
| cat_complete_target id b x y e d : catalog_statement d (CompleteBackupVerifyTargetContext id b x y e d).2
| cat_damaged_target id e d : catalog_statement d (MarkBackupVerifyTargetDamagedContext id e d)
| cat_read id n e d : catalog_statement d (MarkBackupVerifyTargetReadContext id n e d)
| cat_bytes id n d : catalog_statement d (AddBackupVerifyProcessedBytesContext id n d)
| cat_cursor id now d : catalog_statement d (AdvanceBackupVerifyCursorContext id now d)
| cat_complete_check id d d' : CompleteBackupVerifyContext id d = Some d' -> catalog_statement d d'
| cat_expire J keep d : catalog_statement d (ExpireBackupSnapshotsContext J keep d)
| cat_deleted J packID d d' : MarkBackupPackDeletedContext J packID d = Some d' -> catalog_statement d d'
| cat_replace J old path hash size l ids newID now d d' :
    ReplaceBackupPackLocatorsContext J old path hash size l ids newID now d = Some d' -> catalog_statement d d'.

Lemma catalog_same d d' : jobs d' = jobs d -> runs d' = runs d -> snapshots d' = snapshots d -> catalog_step d d'.
Proof. intros Ej Er Es. split_and!; [done|done|]. intros id n. by rewrite Es. Qed.

(** Snapshots change only by being hidden. *)
Lemma catalog_hidden f d :
  (forall id n, f id n = n \/ snapshot_in visible (sn_state (f id n)) = false) ->
  catalog_step d (set_snapshots (map_imap (fun id n => Some (f id n))) d).
Proof.
  intros Hf. split_and!; [done|done|]. intros id n. cbn [snapshots set_snapshots]. rewrite map_lookup_imap.
  destruct (snapshots d !! id) as [n0|]; [|done]. cbn. intros [= <-] Hv. by destruct (Hf id n0) as [->|E]; [|congruence].
Qed.

Lemma catalog_statement_step d d' : catalog_statement d d' -> catalog_step d d'.
Proof.
  assert (forall d1 d2, jobs d1 = jobs d2 -> runs d1 = runs d2 -> snapshots d1 = snapshots d2 ->
    forall d', catalog_step d1 d' -> catalog_step d2 d') as Hsame.
  { intros d1 d2 E1 E2 E3 d3 (H1 & H2 & H3). unfold catalog_step. by rewrite <- E1, <- E2, <- E3. }
  destruct 1 as [J path hash size l packID newID now d ids d' E|sid l newID d d' E|J ids now d|J packID d|w now d
    |id d d' E|id u d|id e now d|J k newID now d d' E|J u mode b newID now d d' E|id J newID d d' E|id w now d|id e d
    |id b x y e d|id e d|id n e d|id n d|id now d|id d d' E|J keep d|J packID d d' E|J old path hash size l ids newID now d d' E].
  - unfold RecordBackupPackAndBlocksContext in E. repeat (case_match; try done); simplify_eq; by apply catalog_same.
  - unfold BatchCreateBackupSnapshotItemsAndBlocksContext in E. repeat (case_match; try done); simplify_eq; by apply catalog_same.
  - by apply catalog_same.
  - unfold MarkBackupPackDamagedContext. destruct (jobs d !! J); [|by apply catalog_same].
    eapply Hsame; [..|apply (catalog_hidden (fun id n => if String.eqb (sn_job n) J
      && snapshot_in [PUBLISHING; READY; PARTIAL] (sn_state n) && snapshot_uses d id packID
      then mkSnapshot (sn_job n) (sn_run n) DAMAGED (sn_roots n) (sn_totals n) BROKEN (sn_created n) else n))]; [done..|].
    intros id n. destruct (_ && _); [by right|by left].
  - unfold ClaimNextBackupMaintenanceForWorkerContext. case_match; [|case_match]; by apply catalog_same.
  - unfold CompleteBackupMaintenanceContext in E. repeat (case_match; try done); simplify_eq; by apply catalog_same.
  - unfold CancelBackupVerifyForOwnerContext. case_match. by apply catalog_same.
  - by apply catalog_same.
  - unfold EnqueueBackupMaintenanceContext in E. case_match; [done|]. simplify_eq. by apply catalog_same.
  - unfold CreateBackupVerifyContext in E. repeat (case_match; try done); simplify_eq; by apply catalog_same.
  - unfold SnapshotBackupVerifyTargetsContext in E. repeat (case_match; try done); simplify_eq; by apply catalog_same.
  - unfold ClaimNextBackupVerifyTargetContext. case_match; [|case_match]; by apply catalog_same.
  - by apply catalog_same.
  - by apply catalog_same.
  - by apply catalog_same.
  - by apply catalog_same.
  - by apply catalog_same.
  - by apply catalog_same.
  - unfold CompleteBackupVerifyContext in E. repeat (case_match; try done); simplify_eq; by apply catalog_same.
  - unfold ExpireBackupSnapshotsContext. apply (catalog_hidden (fun id n =>
      if bool_decide (id ∈ map fst (drop keep (snapshots_by_age J d)))
      then mkSnapshot (sn_job n) (sn_run n) EXPIRED (sn_roots n) (sn_totals n) (sn_integrity n) (sn_created n) else n)).
    intros id n. case_bool_decide; [by right|by left].
  - unfold MarkBackupPackDeletedContext in E. cbn in E. repeat (case_match; try done); simplify_eq; by apply catalog_same.
  - unfold ReplaceBackupPackLocatorsContext in E. repeat (case_match; try done); simplify_eq; by apply catalog_same.
Qed.
