(* ===== verification/BackupScan.v ===== *)
(** * Scanning the source of a backup

    [scanFiles] of src/backend/internal/backup/coordinator.go and the path checks
    it shares with the repository.  The source is a state with operations; the
    queue loop runs on fuel, and a cancelled context shows as the error of the
    operation in progress. *)

From S2P Require Import Prelude GoPath HashString Storage Bytes BackupRepo Ranges.

Inductive run_error := ErrCancelled | ErrRun (msg : string).

#[export] Instance run_error_eq_dec : EqDecision run_error.
Proof. solve_decision. Defined.

(** What a download delivers: the bytes, how the stream ends and the error of
    closing it. *)
Record download := mkDownload {
  dl_data : bytes;
  dl_end : stream_end;
  dl_close : option run_error;
}.

Record backup_source (S : Type) := mkSource {
  src_Inspect : string -> S -> res run_error CloudResource * S;
  src_Listing : string -> S -> res run_error (list CloudResource) * S;
  src_Download : string -> S -> res run_error download * S;
}.
Arguments src_Inspect {S} _ _ _.
Arguments src_Listing {S} _ _ _.
Arguments src_Download {S} _ _ _.

Record scannedFile := mkScanned {
  sf_sourcePath : string;
  sf_relativePath : string;
  sf_size : Z;
  sf_mtime : gotime;
}.

Record scannedDirectory := mkScannedDir {
  sd_relativePath : string;
  sd_mtime : gotime;
}.

Definition isBackupPathWithin (root candidate : string) : bool :=
  if String.eqb root "" then false
  else String.eqb root "/" || String.eqb candidate root
       || has_prefix candidate (root +:+ "/")%string.

Definition canonicalBackupScanPath (value : string) : string := path_clean value.

Record scan_state := mkScan {
  sc_files : list scannedFile;
  sc_dirs : list scannedDirectory;
  sc_seen : gset string;
  sc_queue : list string;
}.

Definition scan_nothing : scan_state := mkScan [] [] ∅ [].

(** A directory of the selection or of a listing. *)
Definition scan_dir (r : CloudResource) (s : scan_state) : res run_error scan_state :=
  if bool_decide (("d:" +:+ res_Path r)%string ∈ sc_seen s) then Ok s
  else
    let seen := {[ ("d:" +:+ res_Path r)%string ]} ∪ sc_seen s in
    let queue := sc_queue s ++ [res_Path r] in
    let relative := trim_prefix (res_Path r) "/" in
    if String.eqb relative "" then Ok (mkScan (sc_files s) (sc_dirs s) seen queue)
    else match NormalizeRelativePath relative with
    | Err e => Err (ErrRun e)
    | Ok normRel =>
        Ok (mkScan (sc_files s) (sc_dirs s ++ [mkScannedDir normRel (res_LastModified r)]) seen queue)
    end.

(** A file of the selection or of a listing. *)
Definition scan_file (r : CloudResource) (s : scan_state) : res run_error scan_state :=
  match NormalizeRelativePath (trim_prefix (res_Path r) "/") with
  | Err e => Err (ErrRun e)
  | Ok relative =>
      if bool_decide (("f:" +:+ relative)%string ∈ sc_seen s) then Ok s
      else Ok (mkScan
        (sc_files s ++ [mkScanned (res_Path r) relative (res_Size r) (res_LastModified r)])
        (sc_dirs s) ({[ ("f:" +:+ relative)%string ]} ∪ sc_seen s) (sc_queue s))
  end.

Definition scan_resource (r : CloudResource) (s : scan_state) : res run_error scan_state :=
  if res_IsDir r then scan_dir r s else scan_file r s.

Section Scan.
Context `{GoSpace} {S : Type} (source : backup_source S).

Definition safeRemotePath (value : string) : res run_error unit :=
  if String.eqb (TrimSpace value) "" || str_contains backslash value
  then Err (ErrRun "invalid backup repository path")
  else if existsb (String.eqb "..") (split_on slash value)
  then Err (ErrRun "backup path escapes repository")
  else Ok tt.

Definition repositoryPath (root : string) (parts : list string) : res run_error string :=
  match safeRemotePath root with
  | Err e => Err e
  | Ok _ =>
      let joined := path_join (root :: parts) in
      match safeRemotePath joined with
      | Err e => Err e
      | Ok _ => Ok joined
      end
  end.

Fixpoint scan_roots (excludedRoot : string) (selected : list string) (s : scan_state) (st : S)
    : res run_error scan_state * S :=
  match selected with
  | [] => (Ok s, st)
  | root :: selected =>
      match safeRemotePath root with
      | Err e => (Err e, st)
      | Ok _ =>
          if isBackupPathWithin excludedRoot root then scan_roots excludedRoot selected s st
          else match src_Inspect source root st with
          | (Err e, st) => (Err e, st)
          | (Ok r, st) =>
              match safeRemotePath (res_Path r) with
              | Err e => (Err e, st)
              | Ok _ =>
                  if isBackupPathWithin excludedRoot (res_Path r)
                  then scan_roots excludedRoot selected s st
                  else match scan_resource r s with
                  | Err e => (Err e, st)
                  | Ok s => scan_roots excludedRoot selected s st
                  end
              end
          end
      end
  end.

(** A listing may name the directory itself. *)
Fixpoint scan_children (excludedRoot currentDir : string) (children : list CloudResource)
    (s : scan_state) : res run_error scan_state :=
  match children with
  | [] => Ok s
  | child :: children =>
      match safeRemotePath (res_Path child) with
      | Err e => Err e
      | Ok _ =>
          let canonicalCurrentDir := canonicalBackupScanPath currentDir in
          let canonicalChildPath := canonicalBackupScanPath (res_Path child) in
          if String.eqb canonicalChildPath canonicalCurrentDir
          then scan_children excludedRoot currentDir children s
          else if negb (isBackupPathWithin canonicalCurrentDir canonicalChildPath)
          then Err (ErrRun "backup listing returned a non-child path")
          else if isBackupPathWithin excludedRoot (res_Path child)
          then scan_children excludedRoot currentDir children s
          else match scan_resource child s with
          | Err e => Err e
          | Ok s => scan_children excludedRoot currentDir children s
          end
      end
  end.

Fixpoint scan_loop (fuel : nat) (excludedRoot : string) (s : scan_state) (st : S)
    : option (res run_error scan_state * S) :=
  match sc_queue s with
  | [] => Some (Ok s, st)
  | currentDir :: queue =>
      match fuel with
      | O => None
      | Datatypes.S fuel =>
          match src_Listing source currentDir st with
          | (Err e, st) => Some (Err e, st)
          | (Ok children, st) =>
              match scan_children excludedRoot currentDir children
                      (mkScan (sc_files s) (sc_dirs s) (sc_seen s) queue) with
              | Err e => Some (Err e, st)
              | Ok s => scan_loop fuel excludedRoot s st
              end
          end
      end
  end.

Definition scanFiles (fuel : nat) (selected : list string) (excludedRoot : string) (st : S)
    : option (res run_error (list scannedFile * list scannedDirectory) * S) :=
  match scan_roots excludedRoot selected scan_nothing st with
  | (Err e, st) => Some (Err e, st)
  | (Ok s, st) =>
      match scan_loop fuel excludedRoot s st with
      | None => None
      | Some (Err e, st) => Some (Err e, st)
      | Some (Ok s, st) => Some (Ok (sc_files s, sc_dirs s), st)
      end
  end.
End Scan.
