(* ===== verification/BackupWriter.v ===== *)
(** * The backup worker

    The run of a backup job in src/backend/internal/backup/coordinator.go: the
    pack builder, [backupFile], [verifySnapshotSample] and [execute], over the
    database statements of BackupRuns.v and BackupCatalog.v.  The worker is a state
    and error program.  What surrounds it is a parameter: the source and the target
    with their own states, the transactions other workers run before each of its
    statements, the statements that fail, the clock and the generated identifiers.
    Logging, auditing and the heartbeat are not modelled. *)

From S2P Require Import Prelude GoPath HashString Storage Tables Bytes BackupRepo Ranges RestoreReader.
From S2P Require Import BackupDb BackupRuns BackupCatalog BackupScan.

Record backup_target (T : Type) := mkTarget {
  tgt_Listing : string -> T -> res run_error (list CloudResource) * T;
  tgt_CreateParents : string -> T -> res run_error unit * T;
  tgt_Upload : string -> bytes -> Z -> T -> res run_error unit * T;
  tgt_FileExists : string -> T -> res run_error (bool * Z) * T;
  tgt_Download : string -> T -> res run_error (bytes * option run_error) * T;
  tgt_Delete : string -> T -> res run_error unit * T;
}.
Arguments tgt_Listing {T} _ _ _.
Arguments tgt_CreateParents {T} _ _ _.
Arguments tgt_Upload {T} _ _ _ _ _.
Arguments tgt_FileExists {T} _ _ _.
Arguments tgt_Download {T} _ _ _.
Arguments tgt_Delete {T} _ _ _.

(** ** Data of a run *)

Record pendingFile := mkPending {
  pf_file : scannedFile;
  pf_fileHash : bytes;
  pf_blockIDs : list string;
}.

Record runStats := mkStats {
  rs_totalFiles : Z;
  rs_totalDirs : Z;
  rs_processedFiles : Z;
  rs_failedFiles : Z;
  rs_unstableFiles : Z;
  rs_totalBytes : Z;
  rs_processedBytes : Z;
  rs_deduplicatedBytes : Z;
}.

Definition no_stats : runStats := mkStats 0 0 0 0 0 0 0 0.

Definition scan_stats (files : list scannedFile) (dirs : list scannedDirectory) : runStats :=
  mkStats (zlen files) (zlen dirs) 0 0 0 (foldr (fun f n => sf_size f + n) 0 files) 0 0.

Definition add_deduplicated (n : Z) (s : runStats) : runStats :=
  mkStats (rs_totalFiles s) (rs_totalDirs s) (rs_processedFiles s) (rs_failedFiles s)
    (rs_unstableFiles s) (rs_totalBytes s) (rs_processedBytes s) (rs_deduplicatedBytes s + n).

Definition add_unstable (s : runStats) : runStats :=
  mkStats (rs_totalFiles s) (rs_totalDirs s) (rs_processedFiles s) (rs_failedFiles s)
    (rs_unstableFiles s + 1) (rs_totalBytes s) (rs_processedBytes s) (rs_deduplicatedBytes s).

Definition add_processed (n : Z) (s : runStats) : runStats :=
  mkStats (rs_totalFiles s) (rs_totalDirs s) (rs_processedFiles s + 1) (rs_failedFiles s)
    (rs_unstableFiles s) (rs_totalBytes s) (rs_processedBytes s + n) (rs_deduplicatedBytes s).

Definition run_totals_of (s : runStats) : run_totals :=
  mkTotals (rs_totalFiles s) (rs_totalBytes s) (rs_processedFiles s) (rs_processedBytes s)
    (rs_deduplicatedBytes s) (rs_failedFiles s).

Definition snapshot_totals_of (s : runStats) : snapshot_totals :=
  mkSnapshotTotals (rs_totalFiles s) (rs_totalDirs s) (rs_totalBytes s) (rs_unstableFiles s)
    (rs_failedFiles s).

Record packBuilder := mkBuilder {
  pb_entries : list Entry;
  pb_encodedSize : Z;
  pb_ids : gmap string string;
  pb_pending : gset string;
}.

Definition newPackBuilder : packBuilder := mkBuilder [] (16 + 20) ∅ ∅.

Definition catalogBlockID (b : packBuilder) (key : string) : option string := pb_ids b !! key.
Definition hasPendingBlock (b : packBuilder) (key : string) : bool := bool_decide (key ∈ pb_pending b).

(** A placeholder becomes the identifier of its block; anything else stays. *)
Definition resolveBlockID (b : packBuilder) (reference : string) : string :=
  default reference (catalogBlockID b reference).

Definition sameSource (file : scannedFile) (r : CloudResource) : bool :=
  negb (res_IsDir r) && (res_Size r =? sf_size file) && (res_LastModified r =? sf_mtime file)
  && String.eqb (res_Path r) (sf_sourcePath file).

Definition zero_hash : bytes := repeat x00 32.

(** The file is listed as it was backed up. *)
Definition reusable_entry (catalog : gmap string BackupSnapshotCatalogItem) (file : scannedFile)
    : option BackupSnapshotCatalogItem :=
  match catalog !! sf_relativePath file with
  | Some prev =>
      if negb (time_IsZero (sf_mtime file)) && negb (time_IsZero (ci_Mtime prev))
         && (ci_Mtime prev =? sf_mtime file) && (ci_SizeBytes prev =? sf_size file)
         && ((sf_size file =? 0) || (0 <? zlen (ci_BlockIDs prev)))
         && negb (bool_decide (ci_FileSHA256 prev = zero_hash))
      then Some prev else None
  | None => None
  end.

Definition failureCodeForState (s : run_state) : string :=
  match s with
  | RSCANNING => "BACKUP_SCAN_FAILED"
  | RVERIFYING => "BACKUP_VERIFICATION_FAILED"
  | _ => "BACKUP_RUN_FAILED"
  end.

(** ** The worker's state *)

(** [wk_delivered] records what completed downloads of the source delivered; the
    worker does not read it. *)
Record worker (S T : Type) := mkWorker {
  wk_db : backup_db;
  wk_source : S;
  wk_target : T;
  wk_clock : nat;
  wk_builder : packBuilder;
  wk_stats : runStats;
  wk_state : run_state;
  wk_delivered : list (string * bytes);
}.
Arguments mkWorker {S T} _ _ _ _ _ _ _ _.
Arguments wk_db {S T} _.
Arguments wk_source {S T} _.
Arguments wk_target {S T} _.
Arguments wk_clock {S T} _.
Arguments wk_builder {S T} _.
Arguments wk_stats {S T} _.
Arguments wk_state {S T} _.
Arguments wk_delivered {S T} _.

Section Monad.
Context {S T : Type}.

Definition M (X : Type) : Type := worker S T -> res run_error X * worker S T.

Definition ret {X} (x : X) : M X := fun w => (Ok x, w).
Definition throw {X} (e : run_error) : M X := fun w => (Err e, w).
Definition bind {X Y} (m : M X) (k : X -> M Y) : M Y := fun w =>
  match m w with
  | (Ok x, w) => k x w
  | (Err e, w) => (Err e, w)
  end.

(** The error as a value. *)
Definition attempt {X} (m : M X) : M (res run_error X) := fun w => let '(r, w) := m w in (Ok r, w).
Definition lift {X} (r : res run_error X) : M X := fun w => (r, w).
Definition get {X} (f : worker S T -> X) : M X := fun w => (Ok (f w), w).

Definition set_builder (b : packBuilder) : M unit := fun w =>
  (Ok tt, mkWorker (wk_db w) (wk_source w) (wk_target w) (wk_clock w) b (wk_stats w) (wk_state w)
            (wk_delivered w)).
Definition set_stats (f : runStats -> runStats) : M unit := fun w =>
  (Ok tt, mkWorker (wk_db w) (wk_source w) (wk_target w) (wk_clock w) (wk_builder w)
            (f (wk_stats w)) (wk_state w) (wk_delivered w)).
Definition set_state (s : run_state) : M unit := fun w =>
  (Ok tt, mkWorker (wk_db w) (wk_source w) (wk_target w) (wk_clock w) (wk_builder w) (wk_stats w) s
            (wk_delivered w)).
Definition deliver (path : string) (data : bytes) : M unit := fun w =>
  (Ok tt, mkWorker (wk_db w) (wk_source w) (wk_target w) (wk_clock w) (wk_builder w) (wk_stats w)
            (wk_state w) ((path, data) :: wk_delivered w)).

Definition source_call {X} (f : S -> res run_error X * S) : M X := fun w =>
  let '(r, s) := f (wk_source w) in
  (r, mkWorker (wk_db w) s (wk_target w) (wk_clock w) (wk_builder w) (wk_stats w) (wk_state w)
        (wk_delivered w)).

Definition target_call {X} (f : T -> res run_error X * T) : M X := fun w =>
  let '(r, t) := f (wk_target w) in
  (r, mkWorker (wk_db w) (wk_source w) t (wk_clock w) (wk_builder w) (wk_stats w) (wk_state w)
        (wk_delivered w)).
End Monad.

Declare Scope worker_scope.
Delimit Scope worker_scope with worker.
Notation "'let*' x := m 'in' k" := (bind m (fun x => k))
  (at level 10, x pattern, m at level 200, k at level 200) : worker_scope.
Open Scope worker_scope.

Section Worker.
Context `{GoSpace} (sha256 : bytes -> bytes).
Context {S T : Type} (source : backup_source S) (target : backup_target T).

(** What runs between two statements, the failing ones, the database clock and
    the identifiers a statement generates. *)
Context (other : nat -> backup_db -> backup_db) (fault : nat -> option run_error).
Context (now : nat -> Z) (uuid : nat -> nat -> string).

(** The pack the verification starts at. *)
Context (sample : nat -> Z).

(** The claimed run. *)
Context (jobID runID : string) (generation : Z) (repositoryRoot : string).

Abbreviation M := (@M S T).

(** A failing statement has no effect. *)
Definition db_call {X} (f : Z -> (nat -> string) -> backup_db -> res run_error X * backup_db) : M X :=
  fun w =>
    let n := wk_clock w in
    let d := other n (wk_db w) in
    let '(r, d) := match fault n with Some e => (Err e, d) | None => f (now n) (uuid n) d end in
    (r, mkWorker d (wk_source w) (wk_target w) (Datatypes.S n) (wk_builder w) (wk_stats w)
          (wk_state w) (wk_delivered w)).

(** ** The pack builder *)

(** The comparison of the pack read back with what was written. *)
Definition confirm_entry (entries : list Entry) (acc : list BackupPackBlock * nat) (offset : Z)
    (entry : Entry) : res string (list BackupPackBlock * nat) :=
  match entries !! acc.2 with
  | None => Err "remote pack catalog mismatch"
  | Some e =>
      if negb (bool_decide (e_Hash entry = e_Hash e)) || negb (bool_decide (e_Data entry = e_Data e))
      then Err "remote pack catalog mismatch"
      else Ok (acc.1 ++ [mkPackBlock (e_Hash entry) (zlen (e_Data entry)) offset (zlen (e_Data entry))],
               Datatypes.S acc.2)
  end.

Definition confirm_pack (entries : list Entry) (pack : Pack) (remote : bytes)
    : res run_error (list BackupPackBlock) :=
  match ValidatePack sha256 (confirm_entry entries) remote (p_ID pack) ([], O) with
  | Ok (validated, (blocks, entryIndex)) =>
      if negb (p_Size validated =? p_Size pack) || negb (entryIndex =? length entries)%nat
      then Err (ErrRun "remote pack validation failed") else Ok blocks
  | Err _ => Err (ErrRun "remote pack validation failed")
  end.

Definition pack_path (id : bytes) : res run_error string :=
  repositoryPath repositoryRoot ["packs"; (hex_encode id +:+ ".pack")%string].

(** The blocks of a flushed pack have identifiers from now on. *)
Definition flushed (ids : gmap string string) (b : packBuilder) : packBuilder :=
  mkBuilder [] (16 + 20) (ids ∪ pb_ids b) (pb_pending b ∖ dom ids).

Definition record_pack (remotePath : string) (pack : Pack) (blocks : list BackupPackBlock)
    : M (gmap string string) :=
  db_call (fun now newID d =>
    match RecordBackupPackAndBlocksContext jobID remotePath (p_ID pack) (p_Size pack) blocks
            (newID O) (fun i => newID (Datatypes.S i)) now d with
    | Some (ids, d) => (Ok ids, d)
    | None => (Err (ErrRun "record backup pack"), d)
    end).

(** The size the target reports and the pack read back from it. *)
Definition confirm_upload (remotePath : string) (pack : Pack) (entries : list Entry)
    : M (list BackupPackBlock) :=
  let* confirmed := attempt (target_call (tgt_FileExists target remotePath)) in
  match confirmed with
  | Ok (true, size) =>
      if negb (size =? p_Size pack) then throw (ErrRun "remote pack size confirmation failed")
      else
        let* remote := target_call (tgt_Download target remotePath) in
        lift (confirm_pack entries pack remote.1)
  | _ => throw (ErrRun "remote pack size confirmation failed")
  end.

Definition flush : M unit :=
  let* b := get wk_builder in
  match pb_entries b with
  | [] => ret tt
  | _ =>
      match EncodePack sha256 (pb_entries b) with
      | Err e => throw (ErrRun e)
      | Ok (pack, encoded) =>
          let* remotePath := lift (pack_path (p_ID pack)) in
          let* _ := target_call (tgt_CreateParents target remotePath) in
          let* _ := target_call (tgt_Upload target remotePath encoded (p_Size pack)) in
          let* blocks := confirm_upload remotePath pack (pb_entries b) in
          let* ids := record_pack remotePath pack blocks in
          set_builder (flushed ids b)
      end
  end.

Definition append_entry (entry : Entry) (b : packBuilder) : packBuilder :=
  mkBuilder (pb_entries b ++ [entry]) (pb_encodedSize b + entry_size entry) (pb_ids b)
    ({[ hash_key (e_Hash entry) ]} ∪ pb_pending b).

Definition add (entry : Entry) : M unit :=
  let* b := get wk_builder in
  if hasPendingBlock b (hash_key (e_Hash entry)) then ret tt
  else
    let* _ := if (MaxPackSize <? pb_encodedSize b + entry_size entry)
                 && negb (bool_decide (pb_entries b = []))
              then flush else ret tt in
    let* b := get wk_builder in
    set_builder (append_entry entry b).

(** ** One file *)

(** What the split calls for every block. *)
Definition store_block (blockIDs : list string) (entry : Entry) : M (list string) :=
  let key := hash_key (e_Hash entry) in
  let* b := get wk_builder in
  match catalogBlockID b key with
  | Some id =>
      let* _ := set_stats (add_deduplicated (zlen (e_Data entry))) in ret (blockIDs ++ [id])
  | None =>
      if hasPendingBlock b key
      then let* _ := set_stats (add_deduplicated (zlen (e_Data entry))) in ret (blockIDs ++ [key])
      else
        let* found := db_call (fun _ _ d => (Ok (FindBackupBlockContext jobID (e_Hash entry) d), d)) in
        match found with
        | Some id =>
            let* _ := set_stats (add_deduplicated (zlen (e_Data entry))) in ret (blockIDs ++ [id])
        | None => let* _ := add entry in ret (blockIDs ++ [key])
        end
  end.

(** A read of a cancelled context. *)
Definition read_error (e : string) : run_error :=
  if String.eqb e "context canceled" then ErrCancelled else ErrRun e.

Definition split_callback (acc : list string * worker S T) (entry : Entry)
    : res (run_error * worker S T) (list string * worker S T) :=
  match store_block acc.1 entry acc.2 with
  | (Ok ids, w) => Ok (ids, w)
  | (Err e, w) => Err (e, w)
  end.

Definition split_file (d : download) : M (bytes * list string) := fun w =>
  match SplitBlocks sha256 (fun acc e => (read_error e, acc.2)) split_callback (dl_data d) (dl_end d)
          ([], w) with
  | Ok (fileHash, (ids, w)) => (Ok (fileHash, ids), w)
  | Err (e, w) => (Err e, w)
  end.

(** [None]: the file changed during every attempt. *)
Fixpoint file_attempts (attempts : nat) (file : scannedFile) : M (option pendingFile) :=
  match attempts with
  | O => ret None
  | Datatypes.S attempts =>
      let* current := source_call (src_Inspect source (sf_sourcePath file)) in
      if negb (sameSource file current) then file_attempts attempts file
      else
        let* d := source_call (src_Download source (sf_sourcePath file)) in
        let* split := split_file d in
        let* _ := match dl_close d with Some e => throw e | None => ret tt end in
        let* _ := deliver (sf_sourcePath file) (dl_data d) in
        let* after := source_call (src_Inspect source (sf_sourcePath file)) in
        if sameSource file after then ret (Some (mkPending file split.1 split.2))
        else file_attempts attempts file
  end.

Definition backupFile (file : scannedFile) : M (option pendingFile) := file_attempts 2 file.

(** ** Ending a run *)

Definition fail (code : string) : M unit :=
  let* s := get wk_state in
  let* _ := attempt (db_call (fun now _ d =>
    let '(ok, d) := FailBackupRunContext jobID generation runID s code now d in (Ok ok, d))) in
  ret tt.

Definition finishOrFail (s : run_state) (e : run_error) : M unit :=
  match e with
  | ErrCancelled =>
      let* stats := get wk_stats in
      let* _ := attempt (db_call (fun now _ d =>
        let '(ok, d) := FinalizeBackupRunContext jobID generation runID s RCANCELLED
                          (run_totals_of stats) None now d in (Ok ok, d))) in
      ret tt
  | ErrRun _ => fail (failureCodeForState s)
  end.

Definition runActive (snapshotID : string) : M bool :=
  let* active := attempt (db_call (fun _ _ d =>
    (Ok (BackupRunActiveContext jobID generation runID d), d))) in
  match active with
  | Err _ => let* _ := fail "BACKUP_CATALOG_FAILED" in ret false
  | Ok true => ret true
  | Ok false =>
      let* _ := attempt (db_call (fun _ _ d =>
        (Ok tt, DiscardBackupSnapshotDraftContext snapshotID jobID runID d))) in
      ret false
  end.

(** A statement that must change the row of the run. *)
Definition claim_step (code : string) (f : Z -> backup_db -> bool * backup_db) : M bool :=
  let* r := attempt (db_call (fun now _ d => let '(ok, d) := f now d in (Ok ok, d))) in
  match r with
  | Ok true => ret true
  | _ => let* _ := fail code in ret false
  end.

(** ** The files *)

Definition try_reuse (catalog : gmap string BackupSnapshotCatalogItem) (file : scannedFile)
    : M (option pendingFile) :=
  match reusable_entry catalog file with
  | None => ret None
  | Some prev =>
      let* current := attempt (source_call (src_Inspect source (sf_sourcePath file))) in
      match current with
      | Ok current =>
          if sameSource file current
          then
            let* _ := set_stats (add_deduplicated (sf_size file)) in
            ret (Some (mkPending file (ci_FileSHA256 prev) (ci_BlockIDs prev)))
          else ret None
      | Err _ => ret None
      end
  end.

(** [None]: the run has ended. *)
Fixpoint file_loop (snapshotID : string) (catalog : gmap string BackupSnapshotCatalogItem)
    (files : list scannedFile) (pending : list pendingFile) : M (option (list pendingFile)) :=
  match files with
  | [] => ret (Some pending)
  | file :: files =>
      let* active := runActive snapshotID in
      if negb active then ret None
      else
        let* reused := try_reuse catalog file in
        match reused with
        | Some item => file_loop snapshotID catalog files (pending ++ [item])
        | None =>
            let* r := attempt (backupFile file) in
            match r with
            | Err e => let* _ := finishOrFail RRUNNING e in ret None
            | Ok None =>
                let* _ := set_stats add_unstable in file_loop snapshotID catalog files pending
            | Ok (Some item) => file_loop snapshotID catalog files (pending ++ [item])
            end
        end
  end.

Definition directory_item (d : scannedDirectory) : BatchSnapshotItem :=
  mkBatchItem (sd_relativePath d) true 0 (sd_mtime d) None "AVAILABLE" [].

Definition file_item (b : packBuilder) (item : pendingFile) : BatchSnapshotItem :=
  mkBatchItem (sf_relativePath (pf_file item)) false (sf_size (pf_file item))
    (sf_mtime (pf_file item)) (Some (pf_fileHash item)) "AVAILABLE"
    (map (resolveBlockID b) (pf_blockIDs item)).

Definition batch_items (b : packBuilder) (directories : list scannedDirectory)
    (pending : list pendingFile) : list BatchSnapshotItem :=
  map directory_item directories ++ map (file_item b) pending.

Definition count_processed (pending : list pendingFile) (s : runStats) : runStats :=
  fold_left (fun s item => add_processed (sf_size (pf_file item)) s) pending s.

(** ** Verification of a sample *)

Definition sampleBudget : Z := 64 * 1024 * 1024.

Definition markPackDamaged (packID : string) : M unit :=
  let* _ := attempt (db_call (fun _ _ d => (Ok tt, MarkBackupPackDamagedContext jobID packID d))) in
  ret tt.

Definition discard_entry (acc : unit) (_ : Z) (_ : Entry) : res string unit := Ok acc.

(** One pack of the sample: an error if it is not what the catalog says. *)
Definition check_pack (pack : pack_row) : M (res run_error unit) :=
  if negb (zlen (pk_sha256 pack) =? 32) || negb (bool_decide (pk_state pack = PackReady))
  then ret (Err (ErrRun "backup pack catalog is invalid"))
  else
    let* exists_ := attempt (target_call (tgt_FileExists target (pk_path pack))) in
    match exists_ with
    | Ok (true, size) =>
        if negb (size =? pk_size pack) then ret (Err (ErrRun "backup pack size verification failed"))
        else
          let* reader := attempt (target_call (tgt_Download target (pk_path pack))) in
          match reader with
          | Err e => ret (Err e)
          | Ok (stream, closeErr) =>
              match ValidatePack sha256 discard_entry stream (pk_sha256 pack) tt, closeErr with
              | Err e, _ => ret (Err (ErrRun e))
              | Ok _, Some e => ret (Err e)
              | Ok _, None => ret (Ok tt)
              end
          end
    | _ => ret (Err (ErrRun "backup pack size verification failed"))
    end.

(** A pack above the remaining budget is skipped. *)
Fixpoint verify_loop (packs : list (string * pack_row)) (remaining : Z) (checked : list string)
    : M (list string) :=
  match packs with
  | [] => ret checked
  | (packID, pack) :: packs =>
      if remaining <? pk_size pack then verify_loop packs remaining checked
      else
        let* r := check_pack pack in
        match r with
        | Err e => let* _ := markPackDamaged packID in throw e
        | Ok _ =>
            let remaining := remaining - pk_size pack in
            if remaining =? 0 then ret (checked ++ [packID])
            else verify_loop packs remaining (checked ++ [packID])
        end
  end.

Definition verifySnapshotSample (snapshotID : string) : M unit :=
  let* packs := db_call (fun _ _ d => (Ok (ListBackupSnapshotPacksContext jobID snapshotID d), d)) in
  match packs with
  | [] => ret tt
  | _ =>
      let* n := get wk_clock in
      let start := Z.to_nat (sample n mod zlen packs) in
      let* checked := verify_loop (rotate start packs) sampleBudget [] in
      db_call (fun now _ d => (Ok tt, MarkBackupPacksCheckedContext jobID checked now d))
  end.

(** ** The target directory *)

Definition dquoted (s : string) : string := (dquote_s +:+ s +:+ dquote_s)%string.

Definition format_content (repositoryID : string) : string :=
  ("{" +:+ dquoted "repository_id" +:+ ":" +:+ dquoted repositoryID
   +:+ "," +:+ dquoted "format_version" +:+ ":1," +:+ dquoted "block_size" +:+ ":4194304,"
   +:+ dquoted "target_pack_size" +:+ ":67108864," +:+ dquoted "compression" +:+ ":"
   +:+ dquoted "none" +:+ "}" +:+ String (ascii_of_nat 10) "")%string.

(** The target directory is empty or holds this repository alone. *)
Definition ensureDedicatedTarget (targetDir repositoryID : string) : M unit :=
  let* entries := target_call (tgt_Listing target targetDir) in
  match entries with
  | [] => ret tt
  | e :: more =>
      let* container := lift (repositoryPath targetDir [".clumoove-backup"]) in
      if negb (bool_decide (more = [])) || negb (String.eqb (path_clean (res_Path e)) (path_clean container))
         || negb (res_IsDir e)
      then throw (ErrRun "backup target directory is not empty")
      else
        let* entries := attempt (target_call (tgt_Listing target container)) in
        match entries with
        | Ok [e] =>
            match repositoryPath container [repositoryID] with
            | Ok root =>
                if String.eqb (path_clean (res_Path e)) (path_clean root) && res_IsDir e then ret tt
                else throw (ErrRun "backup target directory belongs to another repository")
            | Err _ => throw (ErrRun "backup target directory belongs to another repository")
            end
        | _ => throw (ErrRun "backup target directory is not dedicated")
        end
  end.

Definition ensureFormat (repositoryID : string) : M unit :=
  let format := list_byte_of_string (format_content repositoryID) in
  let* formatPath := lift (repositoryPath repositoryRoot ["format-v1.json"]) in
  let* found := target_call (tgt_FileExists target formatPath) in
  if negb found.1
  then
    let* _ := target_call (tgt_CreateParents target formatPath) in
    target_call (tgt_Upload target formatPath format (zlen format))
  else if negb (found.2 =? zlen format)
  then throw (ErrRun "unexpected backup repository format size")
  else
    let* content := target_call (tgt_Download target formatPath) in
    if bool_decide (ztake (zlen format + 1) content.1 = format) then ret tt
    else throw (ErrRun "unsupported backup repository format").

(** ** The run *)

(** The settings of the job and what the environment answers before the scan:
    whether the providers serve files, whether they could be connected, and
    whether both are the same connection. *)
Record run_setup := mkSetup {
  su_selectedPaths : list string;
  su_targetDir : string;
  su_repositoryID : string;
  su_supported : bool;
  su_connected : res run_error unit;
  su_sameConnection : res run_error bool;
  su_fuel : nat;
}.

(** A step whose error ends the run under a code of its own. *)
Definition guarded (code : string) (m : M unit) : M bool :=
  let* r := attempt m in
  match r with
  | Ok _ => ret true
  | Err _ => let* _ := fail code in ret false
  end.

Definition load_catalog : M (gmap string BackupSnapshotCatalogItem) :=
  let* previous := db_call (fun _ _ d => (Ok (GetLatestValidBackupSnapshotIDContext jobID d), d)) in
  match previous with
  | None => ret ∅
  | Some id => db_call (fun _ _ d => (Ok (GetBackupSnapshotFileCatalogContext id d), d))
  end.

Definition create_draft (selectedRoots : list string) : M string :=
  db_call (fun now newID d =>
    match CreateBackupSnapshotDraftContext (newID O) jobID runID selectedRoots now d with
    | (true, d) => (Ok (newID O), d)
    | (false, d) => (Err (ErrRun "create backup snapshot draft"), d)
    end).

Definition write_items (snapshotID : string) (l : list BatchSnapshotItem) : M unit :=
  db_call (fun _ newID d =>
    match BatchCreateBackupSnapshotItemsAndBlocksContext snapshotID l newID d with
    | Some d => (Ok tt, d)
    | None => (Err (ErrRun "insert backup snapshot items"), d)
    end).

Definition publish (snapshotID : string) (stats : runStats) : M bool :=
  let complete := negb (0 <? rs_unstableFiles stats) in
  let* r := attempt (db_call (fun now newID d =>
    let '(ok, d) := PublishBackupSnapshotAndFinalizeContext jobID generation runID snapshotID
      (if complete then READY else PARTIAL) (if complete then RCOMPLETED else RPARTIAL)
      (snapshot_totals_of stats) (run_totals_of stats) (newID O) now d in (Ok ok, d))) in
  match r with
  | Ok true => ret true
  | _ => let* _ := fail "BACKUP_PUBLICATION_FAILED" in ret false
  end.

(** The last flush and the items of the snapshot. *)
Definition store_items (snapshotID : string) (dirs : list scannedDirectory)
    (pending : list pendingFile) : M (option string) :=
  let* active := runActive snapshotID in
  if negb active then ret None
  else
    let* r := attempt flush in
    match r with
    | Err e => let* _ := finishOrFail RRUNNING e in ret None
    | Ok _ =>
        let* active := runActive snapshotID in
        if negb active then ret None
        else
          let* b := get wk_builder in
          let* _ := set_stats (count_processed pending) in
          let* r := attempt (write_items snapshotID (batch_items b dirs pending)) in
          match r with
          | Err _ =>
              let* _ := finishOrFail RRUNNING (ErrRun "backup catalog write failed") in ret None
          | Ok _ => ret (Some snapshotID)
          end
    end.

(** From the end of the scan to the catalogued snapshot; [None] when the run has
    ended on the way. *)
Definition transfer (setup : run_setup) (files : list scannedFile) (dirs : list scannedDirectory)
    : M (option string) :=
  let* ok := claim_step "BACKUP_TRANSITION_FAILED"
               (TransitionBackupRunContext jobID generation runID RSCANNING RRUNNING) in
  if negb ok then ret None
  else
    let* _ := set_state RRUNNING in
    let* draft := attempt (create_draft (su_selectedPaths setup)) in
    match draft with
    | Err _ => let* _ := fail "BACKUP_CATALOG_FAILED" in ret None
    | Ok snapshotID =>
        let* catalog := attempt load_catalog in
        match catalog with
        | Err _ => let* _ := fail "BACKUP_CATALOG_FAILED" in ret None
        | Ok catalog =>
            let* _ := set_builder newPackBuilder in
            let* pending := file_loop snapshotID catalog files [] in
            match pending with
            | None => ret None
            | Some pending => store_items snapshotID dirs pending
            end
        end
    end.

(** Verification and publication; the result says whether the run published. *)
Definition conclude (snapshotID : string) : M bool :=
  let* active := runActive snapshotID in
  if negb active then ret false
  else
    let* ok := claim_step "BACKUP_TRANSITION_FAILED"
                 (TransitionBackupRunContext jobID generation runID RRUNNING RVERIFYING) in
    if negb ok then ret false
    else
      let* _ := set_state RVERIFYING in
      let* ok := guarded "BACKUP_VERIFICATION_FAILED" (verifySnapshotSample snapshotID) in
      if negb ok then ret false
      else
        let* stats := get wk_stats in
        publish snapshotID stats.

(** Everything before the scan. *)
Definition prepare (setup : run_setup) : M (option string) :=
  if negb (su_supported setup) || bool_decide (su_selectedPaths setup = [])
  then let* _ := fail "BACKUP_FILES_UNSUPPORTED" in ret None
  else
    let* ok := guarded "BACKUP_CONNECTION_FAILED" (lift (su_connected setup)) in
    if negb ok then ret None
    else
      let* ok := guarded "BACKUP_TARGET_NOT_EMPTY"
                   (ensureDedicatedTarget (su_targetDir setup) (su_repositoryID setup)) in
      if negb ok then ret None
      else
        let* ok := guarded "BACKUP_REPOSITORY_FORMAT_INVALID" (ensureFormat (su_repositoryID setup)) in
        if negb ok then ret None
        else match su_sameConnection setup with
        | Err _ => let* _ := fail "BACKUP_CONNECTION_FAILED" in ret None
        | Ok same => ret (Some (if same then repositoryRoot else ""))
        end.

(** [None]: the scan did not end within the fuel. *)
Definition scan_source (setup : run_setup) (excludedRoot : string)
    : worker S T -> option (res run_error (list scannedFile * list scannedDirectory) * worker S T) :=
  fun w =>
    match scanFiles source (su_fuel setup) (su_selectedPaths setup) excludedRoot (wk_source w) with
    | None => None
    | Some (r, s) =>
        Some (r, mkWorker (wk_db w) s (wk_target w) (wk_clock w) (wk_builder w) (wk_stats w)
                   (wk_state w) (wk_delivered w))
    end.

(** What a run ends with: the published snapshot, or nothing. *)
Definition after_scan (setup : run_setup)
    (r : res run_error (list scannedFile * list scannedDirectory)) : M (option string) :=
  match r with
  | Err e => let* _ := finishOrFail RSCANNING e in ret None
  | Ok (files, dirs) =>
      let* _ := set_stats (fun _ => scan_stats files dirs) in
      let* drafted := transfer setup files dirs in
      match drafted with
      | None => ret None
      | Some snapshotID =>
          let* published := conclude snapshotID in
          ret (if published then Some snapshotID else None)
      end
  end.

Definition execute (setup : run_setup) (w : worker S T)
    : option (res run_error (option string) * worker S T) :=
  match prepare setup w with
  | (Err e, w) => Some (Err e, w)
  | (Ok None, w) => Some (Ok None, w)
  | (Ok (Some excludedRoot), w) =>
      match scan_source setup excludedRoot w with
      | None => None
      | Some (r, w) => Some (after_scan setup r w)
      end
  end.
End Worker.
