(* ===== verification/BackupFrame.v ===== *)
(** * What the rest of the system leaves of a job's catalog

    A worker relies on the other transactions of the system leaving the packs and
    blocks of its job alone and touching its snapshots only in ways it can live
    with.  [frame] states that promise; the transactions of BackupRuns.v keep it. *)

From S2P Require Import Prelude HashString Tables Bytes BackupDb BackupRuns.

(** The foreign keys of snapshot items, of their block links and of blocks; a block
    is of the job its pack is of. *)
Record catalog_fk (d : backup_db) : Prop := mkFk {
  fk_items : forall i it, items d !! i = Some it -> is_Some (snapshots d !! it_snapshot it);
  fk_links : forall i n b, item_blocks d !! (i, n) = Some b -> is_Some (items d !! i);
  fk_packs : forall id b, blocks d !! id = Some b ->
    exists p, packs d !! bl_pack b = Some p /\ pk_job p = bl_job b;
}.

Section Frame.
Context (jobID : string).

(** The run whose draft may still be published, if there is one; the drafts other
    runs left behind never are. *)
Context (draft : option string).

(** A snapshot that is visible or may become so. *)
Definition live (n : backup_snapshot) : bool :=
  snapshot_in visible (sn_state n)
  || snapshot_in [PUBLISHING] (sn_state n) && bool_decide (draft = Some (sn_run n)).

Lemma live_spec n :
  live n = true <->
  sn_state n ∈ visible \/ (sn_state n = PUBLISHING /\ draft = Some (sn_run n)).
Proof.
  unfold live, snapshot_in. rewrite orb_true_iff, andb_true_iff, !bool_decide_eq_true.
  by rewrite list_elem_of_singleton.
Qed.

(** Some snapshot of the job has the identifier. *)
Definition job_snapshot (d : backup_db) (id : string) (n : backup_snapshot) : Prop :=
  snapshots d !! id = Some n /\ sn_job n = jobID.

Record framed (d d' : backup_db) : Prop := mkFramed {
  fr_fk : catalog_fk d';
  fr_packs : forall pid p, pk_job p = jobID -> packs d' !! pid = Some p <-> packs d !! pid = Some p;
  fr_blocks : forall id b, bl_job b = jobID -> blocks d' !! id = Some b <-> blocks d !! id = Some b;
  fr_item : forall i it n, items d' !! i = Some it -> job_snapshot d' (it_snapshot it) n ->
    items d !! i = Some it /\ (forall k, item_blocks d' !! (i, k) = item_blocks d !! (i, k))
    /\ exists n0, job_snapshot d (it_snapshot it) n0 /\ (live n = true -> live n0 = true);
  fr_kept : forall sid n, job_snapshot d' sid n ->
    (exists n0, job_snapshot d sid n0)
    /\ forall i it, items d !! i = Some it -> it_snapshot it = sid -> items d' !! i = Some it;
}.

Definition frame (d d' : backup_db) : Prop := catalog_fk d -> framed d d'.

Lemma framed_refl d : catalog_fk d -> framed d d.
Proof.
  intros H. split; try done.
  - intros i it n Hi Hn. split; [done|]. split; [done|]. by exists n.
  - intros sid n Hn. split; [by exists n|done].
Qed.

Lemma framed_trans d1 d2 d3 : framed d1 d2 -> framed d2 d3 -> framed d1 d3.
Proof.
  intros [F1 P1 B1 I1 K1] [F2 P2 B2 I2 K2]. split; [done| | | |].
  - intros pid p Hp. rewrite P2 by done. by apply P1.
  - intros id b Hb. rewrite B2 by done. by apply B1.
  - intros i it n Hi Hn. destruct (I2 i it n Hi Hn) as (Hi2 & Hk2 & n2 & Hn2 & Hl2).
    destruct (I1 i it n2 Hi2 Hn2) as (Hi1 & Hk1 & n1 & Hn1 & Hl1). split; [done|].
    split; [intros k; by rewrite Hk2|]. exists n1. auto.
  - intros sid n Hn. destruct (K2 sid n Hn) as [[n2 Hn2] Ki2].
    destruct (K1 sid n2 Hn2) as [Hex Ki1]. split; [done|]. intros i it Hi Hs. eauto.
Qed.

(** A change of other tables. *)
Lemma frame_same d d' :
  snapshots d' = snapshots d -> items d' = items d -> item_blocks d' = item_blocks d ->
  packs d' = packs d -> blocks d' = blocks d -> frame d d'.
Proof.
  intros Hs Hi Hl Hp Hb Hfk. unfold job_snapshot. split.
  - split; rewrite ?Hs, ?Hi, ?Hl, ?Hp, ?Hb; apply Hfk.
  - by rewrite Hp.
  - by rewrite Hb.
  - intros i it n. unfold job_snapshot. rewrite Hs, Hi, Hl. intros H1 H2. split; [done|].
    split; [done|]. by exists n.
  - intros sid n. unfold job_snapshot. rewrite Hs, Hi. intros Hn. split; [by exists n|done].
Qed.

(** A change of snapshot rows that makes none live and moves none to the job. *)
Lemma frame_snapshots d d' :
  items d' = items d -> item_blocks d' = item_blocks d -> packs d' = packs d -> blocks d' = blocks d ->
  (forall id n, snapshots d !! id = Some n -> is_Some (snapshots d' !! id)) ->
  (forall id n', job_snapshot d' id n' -> exists n, job_snapshot d id n
     /\ (live n' = true -> live n = true)) ->
  frame d d'.
Proof.
  intros Hi Hl Hp Hb Hup Hdown Hfk. split.
  - split; rewrite ?Hi, ?Hl, ?Hp, ?Hb; [|apply Hfk..]. intros i it Hit.
    destruct (fk_items d Hfk i it Hit) as [n Hn]. by apply (Hup _ n).
  - by rewrite Hp.
  - by rewrite Hb.
  - intros i it n'. rewrite Hi, Hl. intros H1 H2. split; [done|]. split; [done|].
    destruct (Hdown _ _ H2) as (n & Hn & Hlive). by exists n.
  - intros sid n' Hn'. rewrite Hi. destruct (Hdown _ _ Hn') as (n & Hn & _).
    split; [by exists n|done].
Qed.

(** Deleting snapshots takes their items and links with them. *)
Lemma frame_delete_snapshots p d : frame d (delete_snapshots p d).
Proof.
  intros Hfk. unfold delete_snapshots, set_items, set_snapshots, job_snapshot. split;
    cbn [snapshots items item_blocks packs blocks].
  - split; cbn [snapshots items item_blocks packs blocks]; [| |apply Hfk].
    + intros i it [Hi Hp]%map_lookup_filter_Some. destruct (fk_items d Hfk i it Hi) as [n Hn].
      exists n. apply map_lookup_filter_Some. split; [done|]. by rewrite Hn in Hp.
    + intros i k b [Hb Hp]%map_lookup_filter_Some. destruct (fk_links d Hfk i k b Hb) as [it Hi].
      exists it. apply map_lookup_filter_Some. split; [done|]. by rewrite Hi in Hp.
  - done.
  - done.
  - intros i it n [Hi Hp]%map_lookup_filter_Some [Hn HJ].
    unfold job_snapshot in *. cbn [snapshots] in Hn. apply map_lookup_filter_Some in Hn as [Hn Hpn].
    split; [done|]. split; [|by exists n]. intros k.
    destruct (item_blocks d !! (i, k)) as [b|] eqn:Eb.
    + apply map_lookup_filter_Some. split; [done|]. by rewrite Hi, Hn.
    + apply map_lookup_filter_None. by left.
  - intros sid n [Hn HJ]. unfold job_snapshot in *. cbn [snapshots] in Hn.
    apply map_lookup_filter_Some in Hn as [Hn Hpn]. split; [by exists n|].
    intros i it Hi Hs. apply map_lookup_filter_Some. split; [done|]. by rewrite Hs, Hn.
Qed.

Lemma frame_trans d1 d2 d3 : frame d1 d2 -> frame d2 d3 -> frame d1 d3.
Proof.
  intros H1 H2 Hfk. specialize (H1 Hfk). eapply framed_trans; [done|]. apply H2, H1.
Qed.
End Frame.

(** ** The transactions of the run lifecycle keep the frame *)

Section Ops.
Context (jobID : string) (draft : option string).

Lemma move_run_tables J g runID e fr fj d ok d' :
  move_run J g runID e fr fj d = (ok, d') ->
  snapshots d' = snapshots d /\ items d' = items d /\ item_blocks d' = item_blocks d
  /\ packs d' = packs d /\ blocks d' = blocks d.
Proof.
  unfold move_run. destruct (update_row runID _ _ _) as [[] rs]; cbn [negb]; [|by intros [= <- <-]].
  destruct (update_row J _ _ _) as [[] js]; cbn [negb]; by intros [= <- <-].
Qed.

Lemma notify_tables runID d :
  let d' := createBackupNotificationEventTx runID d in
  snapshots d' = snapshots d /\ items d' = items d /\ item_blocks d' = item_blocks d
  /\ packs d' = packs d /\ blocks d' = blocks d.
Proof.
  cbv zeta. unfold createBackupNotificationEventTx. destruct (runs d !! runID); [|done].
  by destruct (_ && _).
Qed.

Lemma complete_tables J g runID e f s t err now d ok d' :
  completeBackupRunContext J g runID e f s t err now d = (ok, d') ->
  snapshots d' = snapshots d /\ items d' = items d /\ item_blocks d' = item_blocks d
  /\ packs d' = packs d /\ blocks d' = blocks d.
Proof.
  unfold completeBackupRunContext. destruct (negative_totals t); [by intros [= <- <-]|].
  destruct (move_run _ _ _ _ _ _ _) as [[] d1] eqn:E; intros [= <- <-]; [|done].
  apply move_run_tables in E as (<- & <- & <- & <- & <-). apply notify_tables.
Qed.

(** The statements of the worker itself, and of every other one. *)
Lemma transition_frame J g runID e n now d :
  frame jobID draft d (TransitionBackupRunContext J g runID e n now d).2.
Proof.
  unfold TransitionBackupRunContext. destruct (negb _); [by apply frame_same|].
  destruct (status_of n); [|by apply frame_same].
  destruct (move_run _ _ _ _ _ _ _) as [ok d'] eqn:E.
  apply move_run_tables in E as (? & ? & ? & ? & ?). by apply frame_same.
Qed.

Lemma complete_frame J g runID e f s t err now d :
  frame jobID draft d (completeBackupRunContext J g runID e f s t err now d).2.
Proof.
  destruct (completeBackupRunContext _ _ _ _ _ _ _ _ _ _) as [ok d'] eqn:E.
  apply complete_tables in E as (? & ? & ? & ? & ?). by apply frame_same.
Qed.

Lemma fail_frame J g runID e code now d :
  frame jobID draft d (FailBackupRunContext J g runID e code now d).2.
Proof. unfold FailBackupRunContext. destruct (negb _); [by apply frame_same|apply complete_frame]. Qed.

Lemma finalize_frame J g runID e f t err now d :
  frame jobID draft d (FinalizeBackupRunContext J g runID e f t err now d).2.
Proof. unfold FinalizeBackupRunContext. destruct (_ || _); [by apply frame_same|apply complete_frame]. Qed.

Lemma publish_frame J g runID sid s f st t m now d :
  s ∈ visible -> (J = jobID -> draft = Some runID) ->
  frame jobID draft d (PublishBackupSnapshotAndFinalizeContext J g runID sid s f st t m now d).2.
Proof.
  intros Hs HJd. unfold PublishBackupSnapshotAndFinalizeContext.
  destruct (update_row_spec sid (is_draft J runID)
    (fun n => mkSnapshot (sn_job n) (sn_run n) s (sn_roots n) st VALID (sn_created n)) (snapshots d))
    as [(n & Hn & Hd & ->)|[-> _]]; cbn [negb]; [|by apply frame_same].
  destruct (move_run _ _ _ _ _ _ _) as [ok d1] eqn:E.
  apply move_run_tables in E as (E1 & E2 & E3 & E4 & E5).
  destruct (_ || _); [by apply frame_same|]. cbn [snd].
  match goal with |- frame _ _ _ (createBackupNotificationEventTx _ ?x) =>
    destruct (notify_tables runID x) as (N1 & N2 & N3 & N4 & N5) end.
  apply frame_snapshots; rewrite ?N2, ?N3, ?N4, ?N5; try done.
  - intros id x Hx. rewrite N1. cbn [snapshots set_maintenance set_snapshots].
    rewrite lookup_insert_is_Some. destruct (decide (sid = id)) as [->|]; [by left|right].
    split; [done|]. by exists x.
  - intros id x [Hx HJ]. rewrite N1 in Hx. cbn [snapshots set_maintenance set_snapshots] in Hx.
    apply lookup_insert_Some in Hx as [[<- <-]|[Hne Hx]].
    + exists n. split; [by split|]. intros _. apply live_spec. right. unfold is_draft in Hd.
      apply andb_true_iff in Hd as [Hd Hp]. apply andb_true_iff in Hd as [HJ' Hr].
      apply String.eqb_eq in HJ', Hr. apply bool_decide_eq_true, list_elem_of_singleton in Hp.
      split; [done|]. rewrite Hr. apply HJd. cbn in HJ. congruence.
    + exists x. by split.
Qed.

Lemma request_frame J userID m now d :
  frame jobID draft d (RequestBackupRepositoryDeletionContext J userID m now d).2.
Proof.
  unfold RequestBackupRepositoryDeletionContext.
  destruct (update_row J _ _ _) as [[] js]; cbn [negb orb]; [|by apply frame_same].
  destruct (bool_decide _); [by apply frame_same|]. cbn [snd].
  apply frame_snapshots; try done.
  - intros id n Hn. cbn [snapshots set_maintenance set_snapshots set_runs set_schedules_on set_jobs].
    rewrite update_where_lookup, Hn. by eexists.
  - intros id n' [Hn' HJ]. cbn [snapshots set_maintenance set_snapshots set_runs set_schedules_on set_jobs] in Hn'.
    rewrite update_where_lookup in Hn'. destruct (snapshots d !! id) as [n|] eqn:En; [|done].
    cbn in Hn'. injection Hn' as Hn'. exists n. destruct (_ && _) eqn:Ec; subst n'; [|by split].
    split; [by split|]. intros [Hl|[Hl _]]%live_spec; [|done]. unfold visible in Hl. cbn in Hl. set_solver.
Qed.

Lemma cleanup_frame J d :
  J <> jobID -> frame jobID draft d (DeleteBackupJobAfterRepositoryCleanupContext J d).2.
Proof.
  intros Hne. unfold DeleteBackupJobAfterRepositoryCleanupContext.
  destruct (jobs d !! J); [|by apply frame_same]. destruct (_ || _); [by apply frame_same|].
  destruct (any_row _ (blocks d)) eqn:Eb; [by apply frame_same|]. cbn [snd].
  eapply frame_trans; [apply (frame_delete_snapshots jobID draft (fun _ n => String.eqb (sn_job n) J))|].
  set (d1 := delete_snapshots _ d). intros Hfk. split; try (by apply Hfk);
    cbn [packs blocks items item_blocks snapshots set_maintenance set_packs set_runs set_jobs]; try done.
  - split; [apply Hfk..|]. cbn [blocks packs]. intros id x Hx.
    destruct (fk_packs d1 Hfk id x Hx) as (p & Hp & HpJ). exists p. split; [|done].
    apply map_lookup_filter_Some. split; [done|]. rewrite HpJ.
    exact (proj1 (any_row_false _ _) Eb id x Hx).
  - intros pid p Hp. rewrite map_lookup_filter_Some. split; [by intros [? _]|]. intros Hpp.
    split; [done|]. rewrite Hp. apply String.eqb_neq. congruence.
  - intros i it n Hi Hn. split; [done|]. split; [done|]. by exists n.
  - intros sid n Hn. split; [by exists n|done].
Qed.

(** Everything but the deletion of this job's repository, a new draft of it and the
    publication of another run's draft. *)
Definition spares (o : backup_op) : Prop :=
  match o with
  | OCleanup J => J <> jobID
  | ODraft _ J _ _ => J <> jobID
  | OPublish J _ runID _ _ _ _ _ => J = jobID -> draft = Some runID
  | _ => True
  end.

Lemma draft_frame sid J runID roots now d :
  J <> jobID -> frame jobID draft d (CreateBackupSnapshotDraftContext sid J runID roots now d).2.
Proof.
  intros Hne. unfold CreateBackupSnapshotDraftContext.
  destruct (bool_decide (is_Some (snapshots d !! sid))) eqn:Es; [by apply frame_same|].
  destruct (_ || _); [by apply frame_same|]. cbn [snd].
  apply bool_decide_eq_false, eq_None_not_Some in Es. apply frame_snapshots; try done.
  - intros id n Hn. cbn [snapshots set_snapshots]. rewrite lookup_insert_is_Some.
    destruct (decide (sid = id)); [by left|right]. split; [done|by exists n].
  - intros id n' [Hn' HJ]. cbn [snapshots set_snapshots] in Hn'.
    apply lookup_insert_Some in Hn' as [[<- <-]|[_ Hn']]; [done|]. exists n'. by split.
Qed.

Lemma apply_op_frame now o d : spares o -> frame jobID draft d (apply_op now o d).
Proof.
  destruct o; cbn [spares apply_op]; intros Hs.
  - unfold ClaimBackupJobPassContext. repeat (case_match; try by apply frame_same).
  - unfold ClaimNextQueuedBackupRunContext. repeat (case_match; try by apply frame_same).
  - apply transition_frame.
  - apply finalize_frame.
  - apply fail_frame.
  - apply publish_frame; [|done]. destruct complete; unfold visible; set_solver.
  - by apply draft_frame.
  - apply frame_delete_snapshots.
  - unfold RecoverStaleBackupRunsContext.
    eapply frame_trans; [|apply frame_delete_snapshots]. by apply frame_same.
  - by apply frame_same.
  - unfold handlePauseBackup. repeat (case_match; try by apply frame_same).
  - unfold handleResumeBackup. repeat (case_match; try by apply frame_same).
  - apply request_frame.
  - by apply cleanup_frame.
  - by apply frame_same.
Qed.
End Ops.
