(* ===== verification/BackupStore.v ===== *)
(** * What the repository of a backup job holds

    The invariant that ties the catalog of a job to the packs on its target: every
    READY pack is readable, well formed and catalogued entry by entry, and every
    file of a live snapshot is backed by stored blocks.  The lemmas say what the
    catalog statements and the target operations do to it. *)

From S2P Require Import Prelude GoPath HashString Storage Tables Bytes BackupRepo Ranges RestoreReader.
From S2P Require Import BackupDb BackupRuns BackupCatalog BackupScan BackupWriter BackupFrame.

(** ** What a target promises *)

(** The files of a target; an upload or a deletion may leave anything under its own
    path, an existing file has the size that is told, and a download delivers a prefix. *)
Class TargetLaws {T} (target : backup_target T) (contents : T -> string -> option bytes) := {
  law_listing p t q : contents (tgt_Listing target p t).2 q = contents t q;
  law_parents p t q : contents (tgt_CreateParents target p t).2 q = contents t q;
  law_upload p data n t q : q <> p -> contents (tgt_Upload target p data n t).2 q = contents t q;
  law_exists p t q : contents (tgt_FileExists target p t).2 q = contents t q;
  law_download p t q : contents (tgt_Download target p t).2 q = contents t q;
  law_delete p t q : q <> p -> contents (tgt_Delete target p t).2 q = contents t q;
  law_size p t n : (tgt_FileExists target p t).1 = Ok (true, n) ->
    exists c, contents t p = Some c /\ zlen c = n;
  law_data p t data e : (tgt_Download target p t).1 = Ok (data, e) ->
    exists rest, contents t p = Some (data ++ rest);
}.

(** ** Paths of packs *)

Lemma hash_key_inj h h' : hash_key h = hash_key h' -> h = h'.
Proof.
  intros H. rewrite <- (list_byte_of_string_of_list_byte h), <- (list_byte_of_string_of_list_byte h').
  unfold hash_key in H. by rewrite H.
Qed.

Lemma hash_key_length h : String.length (hash_key h) = length h.
Proof. unfold hash_key. induction h as [|b h IH]; [done|]. cbn in *. by rewrite <- IH. Qed.

Definition nibbles : list Z := map Z.of_nat (seq 0 16).

Lemma nibble_in n : 0 <= n < 16 -> In n nibbles.
Proof. intros Hn. apply in_map_iff. exists (Z.to_nat n). split; [lia|]. apply in_seq. lia. Qed.

Lemma hex_lower_inj n m : 0 <= n < 16 -> 0 <= m < 16 -> hex_lower n = hex_lower m -> n = m.
Proof.
  intros Hn Hm E.
  assert (forallb (fun n => forallb (fun m => negb (Ascii.eqb (hex_lower n) (hex_lower m)) || (n =? m))
    nibbles) nibbles = true) as H by (vm_compute; reflexivity).
  rewrite forallb_forall in H. specialize (H n (nibble_in n Hn)).
  rewrite forallb_forall in H. specialize (H m (nibble_in m Hm)).
  rewrite E, Ascii.eqb_refl in H. by apply Z.eqb_eq.
Qed.

Lemma hex_lower_not_slash n : 0 <= n < 16 -> Ascii.eqb (hex_lower n) slash = false.
Proof.
  intros Hn. assert (forallb (fun n => negb (Ascii.eqb (hex_lower n) slash)) nibbles = true) as H
    by (vm_compute; reflexivity).
  rewrite forallb_forall in H. by apply negb_true_iff, H, nibble_in.
Qed.

Lemma hex_encode_inj l l' : hex_encode l = hex_encode l' -> l = l'.
Proof.
  revert l'. induction l as [|b l IH]; intros [|b' l']; cbn; try done. intros [= H1 H2 H3].
  pose proof (z_of_range b) as Hb. pose proof (z_of_range b') as Hb'.
  apply hex_lower_inj in H1; [|Z.to_euclidean_division_equations; lia..].
  apply hex_lower_inj in H2; [|Z.to_euclidean_division_equations; lia..].
  apply IH in H3. subst l'. f_equal. rewrite <- (byte_of_z_of b), <- (byte_of_z_of b'). f_equal.
  rewrite (Z.div_mod (z_of b) 16), (Z.div_mod (z_of b') 16) by done. by rewrite H1, H2.
Qed.

Lemma hex_encode_no_slash l : str_count slash (hex_encode l) = O.
Proof.
  induction l as [|b l IH]; [done|]. cbn [hex_encode str_count]. rewrite IH.
  pose proof (z_of_range b) as Hb.
  by rewrite !hex_lower_not_slash by (Z.to_euclidean_division_equations; lia).
Qed.

Lemma str_last_app s1 s2 t1 t2 :
  String.length s2 = String.length t2 -> (s1 +:+ s2 = t1 +:+ t2)%string -> s1 = t1 /\ s2 = t2.
Proof.
  intros Hl. revert t1. induction s1 as [|c s1 IH]; intros [|d t1] H.
  - done.
  - rewrite str_app_nil_l, str_app_cons in H. apply (f_equal String.length) in H. cbn in H.
    rewrite str_length_app in H. lia.
  - rewrite str_app_nil_l, str_app_cons in H. apply (f_equal String.length) in H. cbn in H.
    rewrite str_length_app in H. lia.
  - rewrite !str_app_cons in H. injection H as <- H. apply IH in H as [-> ->]. done.
Qed.

Lemma str_app_cancel s t u : (s +:+ t = s +:+ u)%string -> t = u.
Proof. induction s as [|c s IH]; [done|]. rewrite !str_app_cons. intros [= H]. auto. Qed.

Section Paths.
Context `{GoSpace} (root : string).

Lemma repositoryPath_ok parts p :
  repositoryPath root parts = Ok p -> root <> "" /\ p = path_join (root :: parts).
Proof.
  unfold repositoryPath, safeRemotePath. destruct (_ || _) eqn:E; [done|].
  apply orb_false_iff in E as [E _]. destruct (existsb _ _); [done|].
  destruct (_ || _); [done|]. destruct (existsb _ _); [done|]. intros [= <-].
  split; [|done]. intros ->. cbn in E. done.
Qed.

Lemma pack_name_good id : good_comp (hex_encode id +:+ ".pack")%string.
Proof.
  pose proof (str_length_app (hex_encode id) ".pack") as Hl. cbn in Hl.
  split_and!; try (intros E; rewrite E in Hl; cbn in Hl; lia).
  rewrite str_count_app, hex_encode_no_slash. done.
Qed.

Lemma pack_path_eq id p :
  pack_path root id = Ok p ->
  p = (path_join [root; "packs"] +:+ String slash (hex_encode id +:+ ".pack"))%string.
Proof.
  intros Hp. apply repositoryPath_ok in Hp as [Hr ->].
  apply path_join_snoc; [done|by repeat split|apply pack_name_good].
Qed.

(** Packs with different identifiers have different paths. *)
Lemma pack_path_inj id id' p : pack_path root id = Ok p -> pack_path root id' = Ok p -> id = id'.
Proof.
  intros H1%pack_path_eq H2%pack_path_eq. rewrite H1 in H2. apply str_app_cancel in H2.
  injection H2 as H2. apply str_last_app in H2 as [H2 _]; [|done]. by apply hex_encode_inj.
Qed.

Lemma pack_path_nonempty id p : pack_path root id = Ok p -> p <> "".
Proof.
  intros ->%pack_path_eq E. apply (f_equal String.length) in E. rewrite str_length_app in E.
  cbn in E. lia.
Qed.

(** The format file is not a pack. *)
Lemma format_path_not_pack id p q :
  pack_path root id = Ok p -> repositoryPath root ["format-v1.json"] = Ok q -> q <> p.
Proof.
  intros ->%pack_path_eq [Hr ->]%repositoryPath_ok E.
  assert (path_join [root; "format-v1.json"]
    = (path_clean (root +:+ String slash (join_with "/" ["format-v1.json"]))%string)) as Ej.
  { unfold path_join. by rewrite !filter_cons_True by done. }
  rewrite Ej, path_clean_below in E; [|done|done|by repeat constructor].
  set (l := rev _) in E.
  assert (exists s, join_with "/" (l ++ ["format-v1.json"]) = (s +:+ ".json")%string) as [s Hs].
  { destruct l as [|x l]; [by exists "format-v1"|]. rewrite join_with_snoc by done.
    exists (join_with "/" (x :: l) +:+ "/format-v1")%string. by rewrite <- str_app_assoc. }
  rewrite Hs, str_app_assoc in E.
  change (String slash (hex_encode id +:+ ".pack"))
    with (String slash (hex_encode id) +:+ ".pack")%string in E.
  rewrite str_app_assoc in E. apply str_last_app in E as [_ E]; done.
Qed.
End Paths.

(** ** The invariant *)

Section Store.
Context `{GoSpace} (sha256 : bytes -> bytes).
Hypothesis sha256_length : forall l, length (sha256 l) = 32%nat.

(** Blocks among which the hash has no collision, nor has it among their packs. *)
Context (known : bytes -> Prop).
Hypothesis collision_free : forall x y, known x -> known y -> sha256 x = sha256 y -> x = y.
Hypothesis packs_collision_free : forall es es' p p' stream stream',
  EncodePack sha256 es = Ok (p, stream) -> EncodePack sha256 es' = Ok (p', stream') ->
  Forall (fun e => known (e_Data e)) es -> Forall (fun e => known (e_Data e)) es' ->
  sha256 stream = sha256 stream' -> stream = stream'.

Context {T : Type} (contents : T -> string -> option bytes).
Context (jobID repositoryRoot : string) (draft : option string).

(** What a restore opens. *)
Definition opens (t : T) (path : string) : res string (bytes * option string) :=
  match contents t path with Some c => Ok (c, None) | None => Err "not found" end.

Definition ready (d : backup_db) (pid : string) (p : pack_row) : Prop :=
  packs d !! pid = Some p /\ pk_job p = jobID /\ pk_state p = PackReady.

(** The catalog row of a block of a pack. *)
Definition entry_row (pid : string) (x : Z * Entry) : block_row :=
  mkBlockRow jobID (e_Hash x.2) (zlen (e_Data x.2)) pid x.1 (zlen (e_Data x.2)).

Record pack_sound (d : backup_db) (t : T) (pid : string) (p : pack_row) (es : list Entry) : Prop :=
  mkPackSound {
  ps_path : pack_path repositoryRoot (pk_sha256 p) = Ok (pk_path p);
  ps_stream : exists pk stream, contents t (pk_path p) = Some stream
    /\ EncodePack sha256 es = Ok (pk, stream) /\ p_ID pk = pk_sha256 p;
  ps_entries : es <> [] /\ Forall not_footer es /\ Forall (fun e => known (e_Data e)) es;
  ps_rows : forall x, x ∈ located packPrefixSize es ->
    exists id, blocks d !! id = Some (entry_row pid x);
  ps_only : forall id b, blocks d !! id = Some b -> bl_job b = jobID -> bl_pack b = pid ->
    exists x, x ∈ located packPrefixSize es /\ b = entry_row pid x;
}.

(** The block with this identifier can be read back as [data]. *)
Definition stored (d : backup_db) (t : T) (id : string) (data : bytes) : Prop :=
  String.length id = 36%nat /\ known data
  /\ exists pid p x, blocks d !! id = Some (entry_row pid x) /\ ready d pid p
     /\ e_Data x.2 = data /\ sha256 data = e_Hash x.2
     /\ recipe_block sha256 (opens t) (recipe_of (entry_row pid x) p) data.

(** The links of the item lead, in order, to blocks that make up the content. *)
Definition backed (d : backup_db) (t : T) (itemID : string) (content : bytes) : Prop :=
  exists ids datas, (forall n, item_blocks d !! (itemID, n) = ids !! n)
    /\ Forall2 (stored d t) ids datas /\ concat datas = content.

(** The item's row fits the content. *)
Definition intact (it : snapshot_item) (content : bytes) : Prop :=
  it_sha256 it = Some (sha256 content) /\ 0 <= it_size it.

(** The job has one row per block and one pack per path. *)
Definition unique_blocks (m : gmap string block_row) : Prop := forall id id' b b',
  m !! id = Some b -> m !! id' = Some b' -> bl_job b = jobID -> bl_job b' = jobID ->
  bl_sha256 b = bl_sha256 b' -> id = id'.
Definition unique_paths (m : gmap string pack_row) : Prop := forall pid pid' p p',
  m !! pid = Some p -> m !! pid' = Some p' -> pk_job p = jobID -> pk_job p' = jobID ->
  pk_path p = pk_path p' -> pid = pid'.

Record repository (d : backup_db) (t : T) : Prop := mkRepository {
  rp_fk : catalog_fk d;
  rp_packs : forall pid p, ready d pid p -> exists es, pack_sound d t pid p es;
  rp_blocks : forall id b, blocks d !! id = Some b -> bl_job b = jobID ->
    String.length id = 36%nat /\ exists p, packs d !! bl_pack b = Some p /\ pk_job p = jobID;
  rp_unique : unique_blocks (blocks d);
  rp_paths : unique_paths (packs d);
  rp_items : forall i it n, items d !! i = Some it -> job_snapshot jobID d (it_snapshot it) n ->
    live draft n = true -> it_is_dir it = false ->
    exists content, backed d t i content /\ intact it content;
}.

(** No readable block of the job has this hash. *)
Definition uncatalogued (d : backup_db) (hash : bytes) : Prop :=
  forall id b p, blocks d !! id = Some b -> bl_job b = jobID -> bl_sha256 b = hash ->
    ~ ready d (bl_pack b) p.

Lemma pack_entry_stored d t pid p es id x :
  pack_sound d t pid p es -> ready d pid p -> String.length id = 36%nat ->
  blocks d !! id = Some (entry_row pid x) -> x ∈ located packPrefixSize es ->
  stored d t id (e_Data x.2).
Proof.
  intros [Hp (pk & stream & Hc & He & Hid) (_ & Hnf & Hk) _ _] Hr Hl Hb Hx.
  pose proof (located_entry _ _ _ Hx) as [_ Hin]. rewrite Forall_forall in Hk.
  pose proof He as He'. apply encode_ok in He' as (_ & Hv & _). rewrite Forall_forall in Hv.
  destruct (Hv _ Hin) as [_ Hs]. split; [done|]. split; [by apply Hk|].
  exists pid, p, x. split_and!; try done.
  pose proof (entry_recipe_block sha256 (opens t) (pk_path p) pk es stream x) as Hrec.
  unfold entry_recipe in Hrec. rewrite Hid in Hrec. apply Hrec; try done.
  - by eapply pack_path_nonempty.
  - unfold opens. by rewrite Hc.
Qed.

Lemma row_stored d t id b p :
  repository d t -> blocks d !! id = Some b -> bl_job b = jobID -> ready d (bl_pack b) p ->
  exists data, stored d t id data /\ sha256 data = bl_sha256 b.
Proof.
  intros Hrep Hb HJ Hr. destruct (rp_blocks _ _ Hrep id b Hb HJ) as [Hl _].
  destruct (rp_packs _ _ Hrep _ _ Hr) as [es Hps].
  destruct (ps_only _ _ _ _ _ Hps id b Hb HJ eq_refl) as (x & Hx & Ex).
  assert (blocks d !! id = Some (entry_row (bl_pack b) x)) as Hb' by congruence.
  exists (e_Data x.2). pose proof (pack_entry_stored d t _ p es id x Hps Hr Hl Hb' Hx) as Hst.
  split; [done|]. destruct Hst as (_ & _ & pid & p' & x' & Hb2 & _ & _ & Hs & _).
  rewrite Hb' in Hb2. injection Hb2 as Hh _ _ _. rewrite Ex. cbn. by rewrite Hs, Hh.
Qed.

(** ** Changes of the database that keep the frame *)

Lemma frame_ready d d' pid p : framed jobID draft d d' -> ready d' pid p <-> ready d pid p.
Proof.
  intros Hf. unfold ready. split; intros (Hp & HJ & Hs); (split; [|done]);
    by apply (fr_packs _ _ _ _ Hf).
Qed.

Lemma stored_frame d d' t id data : framed jobID draft d d' -> stored d t id data -> stored d' t id data.
Proof.
  intros Hf (Hl & Hk & pid & p & x & Hb & Hr & Hx). split; [done|]. split; [done|].
  exists pid, p, x. split; [by apply (fr_blocks _ _ _ _ Hf)|].
  split; [by apply (frame_ready d d')|done].
Qed.

Lemma uncatalogued_frame d d' h : framed jobID draft d d' -> uncatalogued d h -> uncatalogued d' h.
Proof.
  intros Hf Hu id b p Hb HJ Hh Hr. apply (Hu id b p); [by apply (fr_blocks _ _ _ _ Hf)|done|done|].
  by apply (frame_ready d d').
Qed.

Lemma backed_links d d' t t' i content :
  (forall k, item_blocks d' !! (i, k) = item_blocks d !! (i, k)) ->
  (forall id data, stored d t id data -> stored d' t' id data) ->
  backed d t i content -> backed d' t' i content.
Proof.
  intros Hl Hs (ids & datas & Hids & Hf & Hc). exists ids, datas. split; [|split; [|done]].
  - intros n. by rewrite Hl.
  - eapply Forall2_impl; [done|]. apply Hs.
Qed.

Lemma pack_sound_frame d d' t pid p es :
  framed jobID draft d d' -> pack_sound d t pid p es -> pack_sound d' t pid p es.
Proof.
  intros Hf [H1 H2 H3 H4 H5]. split; try done.
  - intros x Hx. destruct (H4 x Hx) as [id Hid]. exists id. by apply (fr_blocks _ _ _ _ Hf).
  - intros id b Hb HJ. apply (H5 id b); [by apply (fr_blocks _ _ _ _ Hf id b HJ)|done].
Qed.

Lemma repository_frame d d' t : repository d t -> framed jobID draft d d' -> repository d' t.
Proof.
  intros [Hfk Hp Hb Hu Hup Hi] Hf. split.
  - apply Hf.
  - intros pid p Hr. destruct (Hp pid p) as [es Hes]; [by apply (frame_ready d d')|].
    exists es. by apply (pack_sound_frame d d').
  - intros id b Hb' HJ. apply (fr_blocks _ _ _ _ Hf id b HJ) in Hb'.
    destruct (Hb id b Hb' HJ) as (Hl & p & Hpp & HpJ). split; [done|]. exists p.
    split; [|done]. by apply (fr_packs _ _ _ _ Hf).
  - intros id id' b b' H1 H2 J1 J2. apply (fr_blocks _ _ _ _ Hf id b J1) in H1.
    apply (fr_blocks _ _ _ _ Hf id' b' J2) in H2. by apply (Hu id id' b b').
  - intros pid pid' p p' H1 H2 J1 J2. apply (fr_packs _ _ _ _ Hf pid p J1) in H1.
    apply (fr_packs _ _ _ _ Hf pid' p' J2) in H2. by apply (Hup pid pid' p p').
  - intros i it n Hit Hn Hl Hdir.
    destruct (fr_item _ _ _ _ Hf i it n Hit Hn) as (Hit0 & Hk & n0 & Hn0 & Hl0).
    destruct (Hi i it n0 Hit0 Hn0 (Hl0 Hl) Hdir) as (content & Hc & Hs). exists content.
    split; [|done]. apply (backed_links d d' t t); [done| |done].
    intros id data. by apply stored_frame.
Qed.

(** ** Changes of the target *)

(** The packs are as they were. *)
Definition packs_kept (d : backup_db) (t t' : T) : Prop :=
  forall pid p, ready d pid p -> contents t' (pk_path p) = contents t (pk_path p).

Lemma stored_target d t t' id data : packs_kept d t t' -> stored d t id data -> stored d t' id data.
Proof.
  intros Hc (Hl & Hk & pid & p & x & Hb & Hr & Hx & Hs & Hi & stream & Ho & Hh).
  split; [done|]. split; [done|]. exists pid, p, x. split_and!; try done. split; [done|].
  exists stream. split; [|done]. unfold opens in *. cbn [recipe_of PackPath] in *.
  by rewrite (Hc pid p Hr).
Qed.

Lemma repository_target d t t' : repository d t -> packs_kept d t t' -> repository d t'.
Proof.
  intros [Hfk Hp Hb Hu Hup Hi] Hc. split; try done.
  - intros pid p Hr. destruct (Hp pid p Hr) as [es [H1 H2 H3 H4 H5]]. exists es. split; try done.
    by rewrite (Hc pid p Hr).
  - intros i it n Hit Hn Hl Hdir. destruct (Hi i it n Hit Hn Hl Hdir) as (content & Hbk & Hs).
    exists content. split; [|done]. apply (backed_links d d t t'); [done| |done].
    intros id data. by apply stored_target.
Qed.

(** ** Reading a pack back *)

Definition pack_block (x : Z * Entry) : BackupPackBlock :=
  mkPackBlock (e_Hash x.2) (zlen (e_Data x.2)) x.1 (zlen (e_Data x.2)).

Lemma confirm_run entries es : forall o n bs bs' n',
  run_callback (confirm_entry entries) (bs, n) (located o es) = Ok (bs', n') ->
  take (length es) (drop n entries) = es /\ n' = (n + length es)%nat
  /\ bs' = bs ++ map pack_block (located o es).
Proof.
  induction es as [|e es IH]; intros o n bs bs' n'; cbn [located run_callback].
  { intros [= <- <-]. cbn. rewrite app_nil_r. split_and!; [done|lia|done]. }
  unfold confirm_entry at 1. cbn [fst snd].
  destruct (entries !! n) as [e0|] eqn:En; [|done].
  destruct (_ || _) eqn:Ec; [done|]. apply orb_false_iff in Ec as [E1 E2].
  apply negb_false_iff, bool_decide_eq_true in E1. apply negb_false_iff, bool_decide_eq_true in E2.
  assert (e = e0) as -> by (destruct e, e0; cbn in *; by subst).
  intros (Ht & -> & ->)%IH. cbn [length map]. rewrite (drop_S _ e0) by done.
  cbn [take]. rewrite Ht. split_and!; [done|lia|]. by rewrite <- app_assoc.
Qed.

Lemma confirm_pack_ok entries pack stream remote blks :
  EncodePack sha256 entries = Ok (pack, stream) ->
  confirm_pack sha256 entries pack remote = Ok blks ->
  remote = stream /\ Forall not_footer entries
  /\ blks = map pack_block (located packPrefixSize entries).
Proof.
  intros He. unfold confirm_pack.
  destruct (ValidatePack _ _ _ _ _) as [[p [bs n]]|] eqn:Ev; [|done].
  destruct (_ || _) eqn:Ec; [done|]. intros [= <-]. apply orb_false_iff in Ec as [_ Ec].
  apply negb_false_iff, Nat.eqb_eq in Ec.
  apply validate_sound in Ev as (es & Hes & _ & Hnf & Hrun); [|done].
  apply confirm_run in Hrun as (Ht & Hn & ->). cbn [app drop] in *.
  assert (es = entries) as ->. { rewrite <- Ht. apply take_ge. lia. }
  rewrite He in Hes. injection Hes as _ <-. done.
Qed.

(** ** Looking a block up *)

Lemma ready_pack_iff d pid : ready_pack d jobID pid = true <-> exists p, ready d pid p.
Proof.
  unfold ready_pack, ready. destruct (packs d !! pid) as [p|].
  - rewrite andb_true_iff, String.eqb_eq, bool_decide_eq_true. split.
    + intros [? ?]. by exists p.
    + by intros (p' & [= <-] & ? & ?).
  - split; [done|]. by intros (p & ? & _).
Qed.

Lemma find_block_some d h id :
  FindBackupBlockContext jobID h d = Some id ->
  exists b p, blocks d !! id = Some b /\ bl_job b = jobID /\ bl_sha256 b = h /\ ready d (bl_pack b) p.
Proof.
  intros (b & Hb & Hp)%find_key_some. apply andb_true_iff in Hp as [Hs Hr].
  unfold same_block in Hs. apply andb_true_iff in Hs as [HJ Hh].
  apply String.eqb_eq in HJ. apply bool_decide_eq_true in Hh. rewrite HJ in Hr.
  apply ready_pack_iff in Hr as [p Hr]. by exists b, p.
Qed.

Lemma find_block_none d h : FindBackupBlockContext jobID h d = None -> uncatalogued d h.
Proof.
  intros Hn id b p Hb HJ Hh Hr.
  pose proof (find_key_none _ _ Hn id b Hb) as Hf. cbv beta in Hf.
  apply andb_false_iff in Hf as [Hf|Hf].
  - unfold same_block in Hf. rewrite HJ, Hh, String.eqb_refl, bool_decide_true in Hf by done. done.
  - rewrite HJ in Hf. assert (ready_pack d jobID (bl_pack b) = true); [|congruence].
    apply ready_pack_iff. by exists p.
Qed.

(** ** Recording a pack *)

Lemma insert_blocks_spec packID l : forall newID m ids m' ids',
  insert_blocks jobID packID newID (map pack_block l) m ids = Some (m', ids') ->
  (forall id b, m !! id = Some b -> m' !! id = Some b)
  /\ (forall id b, m' !! id = Some b -> m !! id = Some b
        \/ exists i x, id = newID i /\ x ∈ l /\ b = entry_row packID x)
  /\ (forall x, x ∈ l -> exists i, m' !! newID i = Some (entry_row packID x)
        /\ is_Some (ids' !! hash_key (e_Hash x.2)))
  /\ (forall k id, ids' !! k = Some id -> ids !! k = Some id
        \/ exists i x, id = newID i /\ x ∈ l /\ k = hash_key (e_Hash x.2)
             /\ m' !! id = Some (entry_row packID x))
  /\ (forall k, is_Some (ids !! k) -> is_Some (ids' !! k)).
Proof.
  induction l as [|x l IH]; intros newID m ids m' ids'; cbn [map insert_blocks].
  { intros [= <- <-]. split; [done|]. split; [by left|]. split; [by intros x ?%elem_of_nil|].
    split; [by left|done]. }
  cbn [pack_block ppb_Hash ppb_PlaintextSize ppb_PayloadOffset ppb_PayloadLength].
  fold (entry_row packID x). unfold insert_block. destruct (_ || _) eqn:Ec; [done|].
  repeat (apply orb_false_iff in Ec as [Ec _]). apply bool_decide_eq_false, eq_None_not_Some in Ec.
  intros (I1 & I2 & I3 & I4 & I5)%IH.
  assert (m' !! newID O = Some (entry_row packID x)) as Hx by (apply I1, lookup_insert_eq).
  split_and!.
  - intros id b Hb. apply I1. rewrite lookup_insert_ne; [done|]. intros <-. congruence.
  - intros id b [Hb|(i & y & -> & Hy & ->)]%I2.
    + apply lookup_insert_Some in Hb as [[<- <-]|[_ Hb]]; [|by left].
      right. exists O, x. split_and!; [done|by left|done].
    + right. exists (Datatypes.S i), y. split_and!; [done|by right|done].
  - intros y [->|Hy]%elem_of_cons.
    + exists O. split; [done|]. apply I5. rewrite lookup_insert_eq. done.
    + destruct (I3 y Hy) as (i & Hi & Hs). by exists (Datatypes.S i).
  - intros k id [Hk|(i & y & -> & Hy & -> & Hm)]%I4.
    + apply lookup_insert_Some in Hk as [[<- <-]|[_ Hk]]; [|by left].
      right. exists O, x. split_and!; [done|by left|done|done].
    + right. exists (Datatypes.S i), y. split_and!; [done|by right|done|done].
  - intros k Hk. apply I5. rewrite lookup_insert_is_Some.
    destruct (decide (hash_key (e_Hash x.2) = k)); [by left|by right].
Qed.

Lemma insert_block_unique id b m m' :
  insert_block id b m = Some m' -> unique_blocks m -> unique_blocks m'.
Proof.
  unfold insert_block. destruct (_ || _) eqn:Ec; [done|]. intros [= <-].
  repeat (apply orb_false_iff in Ec as [Ec ?]).
  assert (forall k x, m !! k = Some x -> bl_job x = bl_job b -> bl_sha256 x = bl_sha256 b -> False) as Hno.
  { intros k x Hk HJ Hh. assert (same_block (bl_job b) (bl_sha256 b) x = true) as Hs.
    { unfold same_block. by rewrite HJ, Hh, String.eqb_refl, bool_decide_true by done. }
    assert (any_row (same_block (bl_job b) (bl_sha256 b)) m = true); [|congruence].
    apply any_row_true. by exists k, x. }
  intros Hu k k' x x' [[<- <-]|[_ Hx]]%lookup_insert_Some [[<- <-]|[_ Hx']]%lookup_insert_Some HJ HJ' Hh.
  - done.
  - exfalso. apply (Hno k' x'); congruence.
  - exfalso. apply (Hno k x); congruence.
  - by apply (Hu k k' x x').
Qed.

Lemma insert_blocks_unique J packID l : forall newID m ids m' ids',
  insert_blocks J packID newID l m ids = Some (m', ids') -> unique_blocks m -> unique_blocks m'.
Proof.
  induction l as [|b l IH]; intros newID m ids m' ids'; cbn [insert_blocks]; [by intros [= <- _]|].
  destruct (insert_block _ _ m) as [m1|] eqn:E; [|done]. intros H1 Hu.
  eapply IH; [exact H1|]. by eapply insert_block_unique.
Qed.

Lemma insert_pack_spec id p m m' :
  insert_pack id p m = Some m' -> m !! id = None /\ m' = <[id := p]> m.
Proof.
  unfold insert_pack. destruct (_ || _) eqn:Ec; [done|]. intros [= <-].
  repeat (apply orb_false_iff in Ec as [Ec _]). by apply bool_decide_eq_false, eq_None_not_Some in Ec.
Qed.

Lemma insert_pack_paths id p m m' : insert_pack id p m = Some m' -> unique_paths m -> unique_paths m'.
Proof.
  unfold insert_pack. destruct (_ || _) eqn:Ec; [done|]. intros [= <-].
  repeat (apply orb_false_iff in Ec as [Ec ?]).
  assert (forall k q, m !! k = Some q -> pk_job q = pk_job p -> pk_path q = pk_path p -> False) as Hno.
  { intros k q Hk HJ Hh. assert (pack_conflict p q = true) as Hs.
    { unfold pack_conflict. by rewrite HJ, Hh, !String.eqb_refl. }
    assert (any_row (pack_conflict p) m = true); [|congruence]. apply any_row_true. by exists k, q. }
  intros Hu k k' x x' [[<- <-]|[_ Hx]]%lookup_insert_Some [[<- <-]|[_ Hx']]%lookup_insert_Some HJ HJ' Hh.
  - done.
  - exfalso. apply (Hno k' x'); congruence.
  - exfalso. apply (Hno k x); congruence.
  - by apply (Hu k k' x x').
Qed.

(** ** How the state of a run moves on *)

(** Stored blocks stay, and no snapshot of the job gains an item or becomes live. *)
Record later (d : backup_db) (t : T) (d' : backup_db) (t' : T) : Prop := mkLater {
  lt_stored : forall id data, stored d t id data -> stored d' t' id data;
  lt_item : forall i it n, items d' !! i = Some it -> job_snapshot jobID d' (it_snapshot it) n ->
    items d !! i = Some it /\ (forall k, item_blocks d' !! (i, k) = item_blocks d !! (i, k))
    /\ exists n0, job_snapshot jobID d (it_snapshot it) n0 /\ (live draft n = true -> live draft n0 = true);
}.

(** A snapshot of the job that is there was there, and keeps its items. *)
Definition kept (d d' : backup_db) : Prop := forall sid n, job_snapshot jobID d' sid n ->
  (exists n0, job_snapshot jobID d sid n0)
  /\ forall i it, items d !! i = Some it -> it_snapshot it = sid -> items d' !! i = Some it.

Lemma later_refl d t : later d t d t.
Proof. split; [done|]. intros i it n Hi Hn. split; [done|]. split; [done|]. by exists n. Qed.

Lemma later_trans d1 t1 d2 t2 d3 t3 : later d1 t1 d2 t2 -> later d2 t2 d3 t3 -> later d1 t1 d3 t3.
Proof.
  intros [S1 I1] [S2 I2]. split; [auto|].
  intros i it n Hi Hn. destruct (I2 i it n Hi Hn) as (Hi2 & Hk2 & n2 & Hn2 & Hl2).
  destruct (I1 i it n2 Hi2 Hn2) as (Hi1 & Hk1 & n1 & Hn1 & Hl1). split; [done|].
  split; [intros k; by rewrite Hk2|]. exists n1. auto.
Qed.

Lemma kept_refl d : kept d d.
Proof. intros sid n Hn. split; [by exists n|done]. Qed.

Lemma kept_trans d1 d2 d3 : kept d1 d2 -> kept d2 d3 -> kept d1 d3.
Proof.
  intros K1 K2 sid n Hn. destruct (K2 sid n Hn) as [[n2 Hn2] Ki2].
  destruct (K1 sid n2 Hn2) as [Hex Ki1]. split; [done|]. intros i it Hi Hs. eauto.
Qed.

Lemma framed_later d d' t : framed jobID draft d d' -> later d t d' t.
Proof. intros Hf. split; [intros id data; by apply stored_frame|apply (fr_item _ _ _ _ Hf)]. Qed.

Lemma framed_kept d d' : framed jobID draft d d' -> kept d d'.
Proof. intros Hf. exact (fr_kept _ _ _ _ Hf). Qed.

Lemma target_later d t t' : packs_kept d t t' -> later d t d t'.
Proof.
  intros Hc. destruct (later_refl d t) as [_ Hi].
  split; [intros id data; by apply stored_target|done].
Qed.

(** A change of packs and blocks under which every stored block stays. *)
Lemma catalog_later d d' t :
  snapshots d' = snapshots d -> items d' = items d -> item_blocks d' = item_blocks d ->
  (forall id data, stored d t id data -> stored d' t id data) -> later d t d' t /\ kept d d'.
Proof.
  intros Hs Hi Hl Hst. split; [split; [done|]|].
  - intros i it n. unfold job_snapshot. rewrite Hs, Hi, Hl. intros H1 H2. split; [done|].
    split; [done|]. by exists n.
  - intros sid n. unfold job_snapshot. rewrite Hs, Hi. intros Hn. split; [by exists n|done].
Qed.

(** A new pack is not written over a readable one. *)
Lemma new_pack_path d t es pk stream path pid p :
  repository d t -> EncodePack sha256 es = Ok (pk, stream) -> es <> [] ->
  Forall (fun e => known (e_Data e)) es -> Forall (fun e => uncatalogued d (e_Hash e)) es ->
  pack_path repositoryRoot (p_ID pk) = Ok path -> ready d pid p -> pk_path p <> path.
Proof.
  intros Hrep He Hne Hk Hu Hp Hr E.
  destruct (rp_packs _ _ Hrep pid p Hr) as [es' [Hp' (pk' & stream' & _ & He' & Hid') (_ & _ & Hk') Hrows _]].
  rewrite E in Hp'. pose proof (pack_path_inj _ _ _ _ Hp Hp') as Hid. rewrite <- Hid' in Hid.
  pose proof He as He1. pose proof He' as He1'.
  apply encode_ok in He1 as (_ & _ & _ & _ & ->). apply encode_ok in He1' as (_ & _ & _ & _ & ->).
  cbn [p_ID] in Hid. apply (packs_collision_free _ _ _ _ _ _ He He' Hk Hk') in Hid. subst stream'.
  pose proof (encode_inj sha256 sha256_length _ _ _ _ _ He He') as <-.
  destruct es as [|e es]; [done|]. apply Forall_cons in Hu as [Hu _].
  destruct (Hrows (packPrefixSize + sha256_Size + 4, e)) as [id Hid2]; [by left|].
  exact (Hu id _ p Hid2 eq_refl eq_refl Hr).
Qed.

(** The catalog after a pack has been recorded. *)
Record recorded (d d' : backup_db) (packID : string) (es : list Entry)
    (ids : gmap string string) : Prop := mkRecorded {
  rc_same : snapshots d' = snapshots d /\ items d' = items d /\ item_blocks d' = item_blocks d;
  rc_unique : unique_blocks (blocks d) -> unique_blocks (blocks d');
  rc_paths : unique_paths (packs d) -> unique_paths (packs d');
  rc_fresh : packs d !! packID = None;
  rc_packs : forall pid, pid <> packID -> packs d' !! pid = packs d !! pid;
  rc_kept : forall id b, blocks d !! id = Some b -> blocks d' !! id = Some b;
  rc_blocks : forall id b, blocks d' !! id = Some b -> blocks d !! id = Some b
    \/ exists x, x ∈ located packPrefixSize es /\ b = entry_row packID x /\ String.length id = 36%nat;
  rc_rows : forall x, x ∈ located packPrefixSize es ->
    exists id, blocks d' !! id = Some (entry_row packID x) /\ String.length id = 36%nat
      /\ is_Some (ids !! hash_key (e_Hash x.2));
  rc_ids : forall k id, ids !! k = Some id ->
    exists x, x ∈ located packPrefixSize es /\ k = hash_key (e_Hash x.2)
      /\ blocks d' !! id = Some (entry_row packID x) /\ String.length id = 36%nat;
}.

Lemma record_recorded d d' es id size path packID newID now ids :
  (forall i, String.length (newID i) = 36%nat) ->
  RecordBackupPackAndBlocksContext jobID path id size (map pack_block (located packPrefixSize es))
    packID newID now d = Some (ids, d') ->
  recorded d d' packID es ids
  /\ packs d' !! packID = Some (mkPackRow jobID path id size PackReady 0 None now).
Proof.
  intros Hl. unfold RecordBackupPackAndBlocksContext.
  destruct (map pack_block (located packPrefixSize es)) as [|b0 bs] eqn:Eb; [done|].
  rewrite <- Eb. destruct (insert_pack _ _ _) as [pm|] eqn:Ep; [|done].
  destruct (insert_blocks _ _ _ _ _ _) as [[m' ids']|] eqn:Ei; [|done]. intros [= <- <-].
  pose proof (insert_pack_paths _ _ _ _ Ep) as Hpaths. apply insert_pack_spec in Ep as [Ec ->].
  pose proof (insert_blocks_unique _ _ _ _ _ _ _ _ Ei) as Huniq.
  apply insert_blocks_spec in Ei as (I1 & I2 & I3 & I4 & _).
  split; [|cbn; apply lookup_insert_eq]. split; cbn; try done.
  - intros pid Hne. by rewrite lookup_insert_ne.
  - intros bid b [Hb|(i & x & -> & Hx & ->)]%I2; [by left|right; by exists x].
  - intros x Hx. destruct (I3 x Hx) as (i & Hi & Hs). exists (newID i). done.
  - intros k bid [Hk|(i & x & -> & Hx & -> & Hm)]%I4; [by rewrite lookup_empty in Hk|].
    by exists x.
Qed.

Section Recorded.
Context (d d' : backup_db) (t : T) (packID : string) (es : list Entry) (ids : gmap string string).
Context (p : pack_row) (pk : Pack) (stream : bytes).
Hypothesis Hrep : repository d t.
Hypothesis Hrec : recorded d d' packID es ids.
Hypothesis Hnew : packs d' !! packID = Some p.
Hypothesis Hrow : pk_job p = jobID /\ pk_state p = PackReady /\ pk_sha256 p = p_ID pk.
Hypothesis Hpath : pack_path repositoryRoot (p_ID pk) = Ok (pk_path p).
Hypothesis Hcont : contents t (pk_path p) = Some stream.
Hypothesis Henc : EncodePack sha256 es = Ok (pk, stream).
Hypothesis Hes : es <> [] /\ Forall not_footer es /\ Forall (fun e => known (e_Data e)) es.

Lemma recorded_ready pid q : ready d pid q -> ready d' pid q.
Proof.
  intros (Hp & HJ & Hs). split; [|done]. rewrite (rc_packs _ _ _ _ _ Hrec); [done|].
  intros ->. by rewrite (rc_fresh _ _ _ _ _ Hrec) in Hp.
Qed.

Lemma recorded_ready_inv pid q : ready d' pid q -> pid = packID /\ q = p \/ ready d pid q.
Proof.
  intros (Hp & HJ & Hs). destruct (decide (pid = packID)) as [->|Hne].
  - left. split; [done|]. congruence.
  - right. split; [|done]. by rewrite (rc_packs _ _ _ _ _ Hrec) in Hp.
Qed.

Lemma recorded_stored id data : stored d t id data -> stored d' t id data.
Proof.
  intros (Hl & Hk & pid & q & x & Hb & Hr & Hx). split; [done|]. split; [done|].
  exists pid, q, x. split; [by apply (rc_kept _ _ _ _ _ Hrec)|]. split; [by apply recorded_ready|done].
Qed.

Lemma recorded_new_sound : pack_sound d' t packID p es.
Proof.
  destruct Hrow as (HJ & Hs & Hh). split; try done.
  - by rewrite Hh.
  - exists pk, stream. by rewrite Hh.
  - intros x Hx. destruct (rc_rows _ _ _ _ _ Hrec x Hx) as (id & Hid & _). by exists id.
  - intros id b Hb HbJ Hbp. destruct (rc_blocks _ _ _ _ _ Hrec id b Hb) as [Hb0|(x & Hx & -> & _)].
    + destruct (rp_blocks _ _ Hrep id b Hb0 HbJ) as (_ & q & Hq & _).
      by rewrite Hbp, (rc_fresh _ _ _ _ _ Hrec) in Hq.
    + by exists x.
Qed.

Lemma recorded_old_sound pid q es' : pack_sound d t pid q es' -> ready d pid q -> pack_sound d' t pid q es'.
Proof.
  intros [H1 H2 H3 H4 H5] Hr. split; try done.
  - intros x Hx. destruct (H4 x Hx) as [id Hid]. exists id. by apply (rc_kept _ _ _ _ _ Hrec).
  - intros id b Hb HbJ Hbp. destruct (rc_blocks _ _ _ _ _ Hrec id b Hb) as [Hb0|(x & Hx & -> & _)].
    + by apply (H5 id b).
    + cbn in Hbp. subst pid. destruct Hr as [Hr _]. by rewrite (rc_fresh _ _ _ _ _ Hrec) in Hr.
Qed.

Lemma recorded_repository : repository d' t.
Proof.
  pose proof (rc_same _ _ _ _ _ Hrec) as (Es & Ei & El). split.
  - destruct (rp_fk _ _ Hrep) as [F1 F2 F3]. split; rewrite ?Es, ?Ei, ?El; [done..|].
    intros id b Hb. destruct (rc_blocks _ _ _ _ _ Hrec id b Hb) as [Hb0|(x & Hx & -> & Hl)].
    + destruct (F3 id b Hb0) as (q & Hq & HqJ). exists q. split; [|done].
      rewrite (rc_packs _ _ _ _ _ Hrec); [done|].
      intros E. by rewrite E, (rc_fresh _ _ _ _ _ Hrec) in Hq.
    + exists p. cbn. split; [done|]. by destruct Hrow.
  - intros pid q [[-> ->]|Hr]%recorded_ready_inv; [exists es; apply recorded_new_sound|].
    destruct (rp_packs _ _ Hrep pid q Hr) as [es' Hes']. exists es'. by apply recorded_old_sound.
  - intros id b Hb HbJ. destruct (rc_blocks _ _ _ _ _ Hrec id b Hb) as [Hb0|(x & Hx & -> & Hl)].
    + destruct (rp_blocks _ _ Hrep id b Hb0 HbJ) as (Hl & q & Hq & HqJ). split; [done|].
      exists q. split; [|done]. rewrite (rc_packs _ _ _ _ _ Hrec); [done|].
      intros E. by rewrite E, (rc_fresh _ _ _ _ _ Hrec) in Hq.
    + split; [done|]. exists p. cbn. split; [done|]. by destruct Hrow.
  - apply (rc_unique _ _ _ _ _ Hrec), (rp_unique _ _ Hrep).
  - apply (rc_paths _ _ _ _ _ Hrec), (rp_paths _ _ Hrep).
  - intros i it n. unfold job_snapshot. rewrite Es, Ei. intros Hit Hn Hl Hdir.
    destruct (rp_items _ _ Hrep i it n Hit Hn Hl Hdir) as (content & Hbk & Hs). exists content.
    split; [|done]. apply (backed_links d d' t t); [by rewrite El| |done]. apply recorded_stored.
Qed.

Lemma recorded_later : later d t d' t /\ kept d d'.
Proof. destruct (rc_same _ _ _ _ _ Hrec) as (? & ? & ?). apply catalog_later; try done. apply recorded_stored. Qed.

Lemma recorded_entry_stored id x :
  blocks d' !! id = Some (entry_row packID x) -> String.length id = 36%nat ->
  x ∈ located packPrefixSize es -> stored d' t id (e_Data x.2).
Proof.
  intros Hb Hl Hx. apply (pack_entry_stored d' t packID p es); try done.
  - apply recorded_new_sound.
  - split; [done|]. by destruct Hrow as (? & ? & _).
Qed.

Lemma recorded_uncatalogued h :
  uncatalogued d h -> (forall e, e ∈ es -> e_Hash e <> h) -> uncatalogued d' h.
Proof.
  intros Hu Hne id b q Hb HbJ Hh Hr.
  destruct (rc_blocks _ _ _ _ _ Hrec id b Hb) as [Hb0|(x & Hx & -> & _)].
  - apply recorded_ready_inv in Hr as [[Hp _]|Hr].
    + destruct (rp_blocks _ _ Hrep id b Hb0 HbJ) as (_ & q' & Hq & _).
      by rewrite Hp, (rc_fresh _ _ _ _ _ Hrec) in Hq.
    + exact (Hu id b q Hb0 HbJ Hh Hr).
  - apply located_entry in Hx as [_ Hx]. exact (Hne _ Hx Hh).
Qed.
End Recorded.

(** ** Writing the items of the snapshot *)

Definition item_row (snapshotID : string) (b : BatchSnapshotItem) : snapshot_item :=
  mkItem snapshotID (bi_RelativePath b) (bi_IsDir b) (bi_SizeBytes b) (nullTime (bi_Mtime b))
    (bi_FileSHA256 b) (bi_State b).

Definition links_fk (im : gmap string snapshot_item) (lm : gmap (string * nat) string) : Prop :=
  forall i n b, lm !! (i, n) = Some b -> is_Some (im !! i).

Lemma insert_items_spec sid l : forall newID bs im lm im' lm',
  insert_items sid newID l bs im lm = Some (im', lm') -> links_fk im lm ->
  links_fk im' lm'
  /\ (forall i it, im !! i = Some it -> im' !! i = Some it /\ forall n, lm' !! (i, n) = lm !! (i, n))
  /\ (forall i it, im' !! i = Some it -> im !! i = Some it
        \/ exists k b, l !! k = Some b /\ i = newID k /\ it = item_row sid b)
  /\ (forall k b, l !! k = Some b -> im' !! newID k = Some (item_row sid b)
        /\ item_check b = true /\ forall n, lm' !! (newID k, n) = bi_BlockIDs b !! n).
Proof.
  induction l as [|b l IH]; intros newID bs im lm im' lm'; cbn [insert_items].
  { intros [= <- <-] Hfk. split; [done|]. split; [done|]. split; [by left|done]. }
  unfold insert_item. destruct (_ || _) eqn:Ec; [done|].
  apply orb_false_iff in Ec as [Ec _]. apply orb_false_iff in Ec as [Ec Hck].
  apply bool_decide_eq_false, eq_None_not_Some in Ec. apply negb_false_iff in Hck. fold (item_row sid b).
  destruct (insert_links _ _ _ _ _) as [lm1|] eqn:El; [|done]. intros Hins Hfk.
  apply insert_links_spec in El as [_ Hlm1]. cbn [Nat.add] in Hlm1.
  assert (forall n, lm !! (newID O, n) = None) as Hnone.
  { intros n. destruct (lm !! (newID O, n)) eqn:E; [|done]. apply Hfk in E. rewrite Ec in E. by destruct E. }
  assert (forall i n, i <> newID O -> lm1 !! (i, n) = lm !! (i, n)) as Hother.
  { intros i n Hi. rewrite Hlm1, bool_decide_false; [done|]. by intros [? _]. }
  assert (forall n, lm1 !! (newID O, n) = bi_BlockIDs b !! n) as Hmine.
  { intros n. rewrite Hlm1. case_bool_decide as Hn; [by rewrite Nat.sub_0_r|].
    rewrite Hnone. symmetry. apply lookup_ge_None. destruct (decide (n < length (bi_BlockIDs b))%nat); [|lia].
    exfalso. apply Hn. split; [done|lia]. }
  assert (links_fk (<[newID O := item_row sid b]> im) lm1) as Hfk1.
  { intros i n x Hx. rewrite lookup_insert_is_Some. destruct (decide (newID O = i)) as [|Hne]; [by left|right].
    split; [done|]. rewrite Hother in Hx by done. by apply Hfk in Hx. }
  apply IH in Hins as (H1 & H2 & H3 & H4); [|done]. split; [done|]. split_and!.
  - intros i it Hi. assert (i <> newID O) as Hne by (intros ->; congruence).
    destruct (H2 i it) as [Hi' Hl']; [by rewrite lookup_insert_ne|]. split; [done|].
    intros n. by rewrite Hl', Hother.
  - intros i it [Hi|(k & b' & Hk & -> & ->)]%H3.
    + apply lookup_insert_Some in Hi as [[<- <-]|[_ Hi]]; [right; by exists O, b|by left].
    + right. by exists (Datatypes.S k), b'.
  - intros [|k] b' Hk; cbn in Hk.
    + injection Hk as <-. destruct (H2 (newID O) (item_row sid b)) as [Hi' Hl']; [apply lookup_insert_eq|].
      split; [done|]. split; [done|]. intros n. by rewrite Hl'.
    + by apply (H4 k b').
Qed.

(** A file of the batch whose blocks are stored. *)
Definition batch_backed (d : backup_db) (t : T) (b : BatchSnapshotItem) : Prop :=
  bi_IsDir b = false -> exists datas, Forall2 (stored d t) (bi_BlockIDs b) datas
    /\ bi_FileSHA256 b = Some (sha256 (concat datas)).

Lemma batch_spec sid l newID d d' :
  BatchCreateBackupSnapshotItemsAndBlocksContext sid l newID d = Some d' -> catalog_fk d ->
  catalog_fk d' /\ snapshots d' = snapshots d /\ packs d' = packs d /\ blocks d' = blocks d
  /\ (forall i it, items d !! i = Some it -> items d' !! i = Some it
        /\ forall n, item_blocks d' !! (i, n) = item_blocks d !! (i, n))
  /\ (forall i it, items d' !! i = Some it -> items d !! i = Some it
        \/ exists k b, l !! k = Some b /\ i = newID k /\ it = item_row sid b)
  /\ (forall k b, l !! k = Some b -> items d' !! newID k = Some (item_row sid b)
        /\ item_check b = true /\ forall n, item_blocks d' !! (newID k, n) = bi_BlockIDs b !! n).
Proof.
  unfold BatchCreateBackupSnapshotItemsAndBlocksContext. intros Hd Hfk.
  destruct l as [|b0 l]; [injection Hd as <-; split_and!; try done; by left|].
  destruct (bool_decide (is_Some (snapshots d !! sid))) eqn:Es; [|done]. cbn [negb] in Hd.
  apply bool_decide_eq_true in Es.
  destruct (insert_items _ _ _ _ _ _) as [[im lm]|] eqn:Ei; [|done]. injection Hd as <-.
  apply insert_items_spec in Ei as (H1 & H2 & H3 & H4); [|intros i n b; apply (fk_links _ Hfk)].
  cbn. split_and!; try done. split; cbn; [|done|apply (fk_packs _ Hfk)].
  intros i it [Hi|(k & b & _ & _ & ->)]%H3; [by apply (fk_items _ Hfk i)|done].
Qed.

Lemma stored_same_catalog d d' t id data :
  packs d' = packs d -> blocks d' = blocks d -> stored d t id data -> stored d' t id data.
Proof.
  intros Hp Hb (Hl & Hk & pid & p & x & Hbx & Hr & Hx). split; [done|]. split; [done|].
  exists pid, p, x. unfold ready in *. by rewrite Hp, Hb.
Qed.

Lemma batch_repository sid l newID d d' t :
  repository d t -> Forall (batch_backed d t) l ->
  BatchCreateBackupSnapshotItemsAndBlocksContext sid l newID d = Some d' -> repository d' t.
Proof.
  intros Hrep Hl Hd. pose proof (batch_spec _ _ _ _ _ Hd (rp_fk _ _ Hrep))
    as (Hfk & Es & Ep & Eb & Hold & Hinv & Hnew).
  split; [done| | | | |].
  - intros pid p Hr. unfold ready in *. rewrite Ep in Hr.
    destruct (rp_packs _ _ Hrep pid p Hr) as [es [P1 P2 P3 P4 P5]]. exists es.
    split; try done; by rewrite Eb.
  - intros id b. rewrite Eb, Ep. apply (rp_blocks _ _ Hrep).
  - rewrite Eb. apply (rp_unique _ _ Hrep).
  - rewrite Ep. apply (rp_paths _ _ Hrep).
  - intros i it n Hit. unfold job_snapshot. rewrite Es. intros Hn Hlive Hdir.
    destruct (Hinv i it Hit) as [Hi0|(k & b & Hk & -> & ->)].
    + destruct (rp_items _ _ Hrep i it n Hi0 Hn Hlive Hdir) as (content & Hbk & Hs).
      exists content. split; [|done]. apply (backed_links d d' t t); [|intros ? ?; by apply stored_same_catalog|done].
      apply (Hold i it Hi0).
    + rewrite Forall_forall in Hl. destruct (Hl b) as (datas & Hf & Hs);
        [by eapply list_elem_of_lookup_2|done|].
      destruct (Hnew k b Hk) as (_ & Hck & Hlinks).
      exists (concat datas). split; [|split; [done|]].
      2: { unfold item_check in Hck. cbn in Hdir. rewrite Hdir in Hck. cbn. apply andb_true_iff in Hck as [? _]. lia. } exists (bi_BlockIDs b), datas. split; [exact Hlinks|].
      split; [|done]. eapply Forall2_impl; [done|]. intros id data. by apply stored_same_catalog.
Qed.

(** ** Damage and checks *)

Lemma snapshot_uses_true d sid packID i n it id b :
  items d !! i = Some it -> it_snapshot it = sid -> item_blocks d !! (i, n) = Some id ->
  blocks d !! id = Some b -> bl_pack b = packID -> snapshot_uses d sid packID = true.
Proof.
  intros Hi Hs Hl Hb Hp. unfold snapshot_uses. apply existsb_exists. exists ((i, n), id).
  split; [by apply list_elem_of_In, elem_of_map_to_list|].
  by rewrite Hi, Hb, Hs, Hp, !String.eqb_refl.
Qed.

Section Damaged.
Context (d : backup_db) (t : T) (packID : string) (j : backup_job).
Hypothesis Hrep : repository d t.
Hypothesis Hj : jobs d !! jobID = Some j.

Abbreviation d' := (MarkBackupPackDamagedContext jobID packID d).

Lemma damaged_tables :
  items d' = items d /\ item_blocks d' = item_blocks d /\ blocks d' = blocks d.
Proof. unfold MarkBackupPackDamagedContext. by rewrite Hj. Qed.

Lemma damaged_ready pid p : ready d' pid p <-> ready d pid p /\ pid <> packID.
Proof.
  unfold ready, MarkBackupPackDamagedContext. rewrite Hj. cbn.
  destruct (update_row_spec packID (fun p => String.eqb (pk_job p) jobID)
    (set_pack_state PackDamaged) (packs d)) as [(q & Hq & HJ & ->)|[-> Hno]]; cbn [snd].
  - rewrite lookup_insert_Some. split.
    + intros ([[<- <-]|[Hne Hp]] & HpJ & Hs); [done|]. by split.
    + intros [(Hp & HpJ & Hs) Hne]. split; [by right|done].
  - split; [|by intros [? _]]. intros (Hp & HpJ & Hs). split; [done|]. intros ->.
    specialize (Hno p Hp). cbv beta in Hno. by rewrite HpJ, String.eqb_refl in Hno.
Qed.

Lemma damaged_packs pid p' : packs d' !! pid = Some p' ->
  exists p, packs d !! pid = Some p /\ pk_job p = pk_job p' /\ pk_path p = pk_path p'.
Proof.
  unfold MarkBackupPackDamagedContext. rewrite Hj. cbn.
  destruct (update_row_spec packID (fun p => String.eqb (pk_job p) jobID)
    (set_pack_state PackDamaged) (packs d)) as [(q & Hq & _ & ->)|[-> _]]; cbn [snd]; [|by exists p'].
  intros [[<- <-]|[_ Hp]]%lookup_insert_Some; [by exists q|by exists p'].
Qed.

Lemma damaged_row pid p : packs d !! pid = Some p ->
  exists p', packs d' !! pid = Some p' /\ pk_job p' = pk_job p.
Proof.
  unfold MarkBackupPackDamagedContext. rewrite Hj. cbn. intros Hp.
  destruct (update_row_spec packID (fun p => String.eqb (pk_job p) jobID)
    (set_pack_state PackDamaged) (packs d)) as [(q & Hq & _ & ->)|[-> _]]; cbn [snd]; [|by exists p].
  destruct (decide (packID = pid)) as [<-|Hne].
  - rewrite lookup_insert_eq. eexists. split; [done|]. cbn. congruence.
  - rewrite lookup_insert_ne by done. by exists p.
Qed.

Lemma damaged_snapshot id n' :
  job_snapshot jobID d' id n' -> exists n, job_snapshot jobID d id n
    /\ (live draft n' = true -> live draft n = true /\ snapshot_uses d id packID = false).
Proof.
  unfold job_snapshot, MarkBackupPackDamagedContext. rewrite Hj. cbn.
  rewrite map_lookup_imap. destruct (snapshots d !! id) as [n|] eqn:En; [|by intros [? _]].
  cbn. intros [[= Hn'] HJ]. exists n. destruct (_ && _) eqn:Ec; subst n'.
  - split; [done|]. intros [Hl|[Hl _]]%live_spec; [|done]. unfold visible in Hl. cbn in Hl. set_solver.
  - split; [done|]. intros Hl. split; [done|]. rewrite HJ, String.eqb_refl in Ec.
    assert (snapshot_in [PUBLISHING; READY; PARTIAL] (sn_state n) = true) as E.
    { apply live_spec in Hl as [Hl|[Hl _]]; unfold snapshot_in; rewrite in_true; [unfold visible in Hl|]; set_solver. }
    rewrite E in Ec. exact Ec.
Qed.

Lemma damaged_repository : repository d' t.
Proof.
  destruct damaged_tables as (Ei & El & Eb). split.
  - destruct (rp_fk _ _ Hrep) as [F1 F2 F3]. split; rewrite ?Ei, ?El, ?Eb; [|done|].
    + intros i it Hi. destruct (F1 i it Hi) as [n Hn].
      unfold MarkBackupPackDamagedContext. rewrite Hj. cbn. rewrite map_lookup_imap, Hn. done.
    + intros id b Hb. destruct (F3 id b Hb) as (q & Hq & HqJ).
      destruct (damaged_row _ _ Hq) as (q' & Hq' & E). exists q'. by rewrite E.
  - intros pid p [Hr _]%damaged_ready. destruct (rp_packs _ _ Hrep pid p Hr) as [es [P1 P2 P3 P4 P5]].
    exists es. split; try done; by rewrite Eb.
  - intros id b. rewrite Eb. intros Hb HbJ. destruct (rp_blocks _ _ Hrep id b Hb HbJ) as (Hl & q & Hq & HqJ).
    split; [done|]. destruct (damaged_row _ _ Hq) as (q' & Hq' & E). exists q'. by rewrite E.
  - rewrite Eb. apply (rp_unique _ _ Hrep).
  - intros pid pid' p p' (q & Hq & <- & <-)%damaged_packs (q' & Hq' & <- & <-)%damaged_packs.
    by apply (rp_paths _ _ Hrep).
  - intros i it n'. rewrite Ei. intros Hi (n & Hn & Huse)%damaged_snapshot Hl Hdir.
    destruct (Huse Hl) as [Hln Hu].
    destruct (rp_items _ _ Hrep i it n Hi Hn Hln Hdir) as (content & (ids & datas & Hids & Hf & Hc) & Hs).
    exists content. split; [|done]. exists ids, datas. rewrite El. split; [done|]. split; [|done].
    apply Forall2_same_length_lookup. split; [by eapply Forall2_length|].
    intros k id data Hk Hd. pose proof (Forall2_lookup_lr _ _ _ _ _ _ Hf Hk Hd)
      as (Hlen & Hkn & pid & p & x & Hb & Hr & Hx).
    split; [done|]. split; [done|]. exists pid, p, x. rewrite Eb. split; [done|].
    split; [|done]. apply damaged_ready. split; [done|]. intros ->.
    enough (snapshot_uses d (it_snapshot it) packID = true) by congruence.
    apply (snapshot_uses_true d _ packID i k it id (entry_row packID x)); try done. by rewrite Hids.
Qed.
End Damaged.

Lemma damaged_keeps d t packID :
  repository d t -> repository (MarkBackupPackDamagedContext jobID packID d) t.
Proof.
  intros Hrep. destruct (jobs d !! jobID) as [j|] eqn:Ej; [by apply (damaged_repository d t packID j)|].
  unfold MarkBackupPackDamagedContext. by rewrite Ej.
Qed.

Lemma checked_lookup ids now d pid p' :
  packs (MarkBackupPacksCheckedContext jobID ids now d) !! pid = Some p' <->
  exists p, packs d !! pid = Some p
    /\ p' = if String.eqb (pk_job p) jobID && bool_decide (pk_state p = PackReady)
               && bool_decide (pid ∈ ids) then set_checked now p else p.
Proof.
  cbn. rewrite map_lookup_imap. destruct (packs d !! pid) as [p|]; cbn.
  - split; [intros [= <-]; by exists p|]. by intros (q & [= <-] & ->).
  - split; [done|]. by intros (q & ? & _).
Qed.

Lemma checked_keeps d t ids now :
  repository d t ->
  let d' := MarkBackupPacksCheckedContext jobID ids now d in
  repository d' t /\ later d t d' t /\ kept d d'
  /\ forall h, uncatalogued d h -> uncatalogued d' h.
Proof.
  intros Hrep. cbv zeta. set (d' := MarkBackupPacksCheckedContext jobID ids now d).
  assert (forall p b, exists c, (if b : bool then set_checked now p else p)
    = mkPackRow (pk_job p) (pk_path p) (pk_sha256 p) (pk_size p) (pk_state p) (pk_generation p) c (pk_created p)) as Hrow.
  { intros p []; [by eexists|]. exists (pk_checked p). by destruct p. }
  assert (forall pid p, ready d pid p -> exists p', ready d' pid p' /\ pk_path p' = pk_path p
    /\ pk_sha256 p' = pk_sha256 p) as Hup.
  { intros pid p (Hp & HJ & Hs). eexists. split; [split; [apply checked_lookup; by exists p|]|];
      destruct (Hrow p (String.eqb (pk_job p) jobID && bool_decide (pk_state p = PackReady)
               && bool_decide (pid ∈ ids))) as [c ->]; done. }
  assert (forall pid p', ready d' pid p' -> exists p, ready d pid p /\ pk_path p' = pk_path p
    /\ pk_sha256 p' = pk_sha256 p) as Hdown.
  { intros pid p' (Hp & HJ & Hs). apply checked_lookup in Hp as (p & Hp & ->).
    destruct (Hrow p (String.eqb (pk_job p) jobID && bool_decide (pk_state p = PackReady)
               && bool_decide (pid ∈ ids))) as [c E]. rewrite E in *. by exists p. }
  assert (forall id data, stored d t id data -> stored d' t id data) as Hst.
  { intros id data (Hl & Hk & pid & p & x & Hb & Hr & Hd & Hs & Hrc). split; [done|]. split; [done|].
    destruct (Hup pid p Hr) as (p' & Hr' & Ep & Eh). exists pid, p', x. split_and!; try done.
    unfold recipe_of in *. by rewrite Ep, Eh. }
  destruct (catalog_later d d' t) as [Hl Hk]; [done..|].
  split; [|split; [exact Hl|split; [exact Hk|]]].
  2: { intros h Hu id b p' Hb HJ Hh Hr'. destruct (Hdown _ _ Hr') as (p & Hr & _).
       exact (Hu id b p Hb HJ Hh Hr). }
  clear Hl Hk. assert (forall pid p, packs d !! pid = Some p -> exists p', packs d' !! pid = Some p' /\ pk_job p' = pk_job p) as Hrows.
  { intros pid q Hq. eexists. split; [apply checked_lookup; by exists q|].
    destruct (Hrow q (String.eqb (pk_job q) jobID && bool_decide (pk_state q = PackReady)
               && bool_decide (pid ∈ ids))) as [c ->]. done. }
  split; [| | |exact (rp_unique _ _ Hrep)| |].
  - destruct (rp_fk _ _ Hrep) as [F1 F2 F3]. split; [exact F1|exact F2|]. intros id b Hb.
    destruct (F3 id b Hb) as (q & Hq & HqJ). destruct (Hrows _ _ Hq) as (q' & Hq' & E).
    exists q'. by rewrite E.
  - intros pid p' Hr'. destruct (Hdown pid p' Hr') as (p & Hr & Ep & Eh).
    destruct (rp_packs _ _ Hrep pid p Hr) as [es [P1 P2 P3 P4 P5]]. exists es.
    split; rewrite ?Ep, ?Eh; done.
  - intros id b Hb HbJ. destruct (rp_blocks _ _ Hrep id b Hb HbJ) as (Hl & q & Hq & HqJ).
    split; [done|]. destruct (Hrows _ _ Hq) as (q' & Hq' & E). exists q'. by rewrite E.
  - intros pid pid' p p' (q & Hq & ->)%checked_lookup (q' & Hq' & ->)%checked_lookup.
    repeat match goal with |- context [if ?b then set_checked now ?x else ?x] =>
      destruct (Hrow x b) as [? ->] end. exact (rp_paths _ _ Hrep pid pid' q q' Hq Hq').
  - intros i it n Hi Hn Hl Hdir. destruct (rp_items _ _ Hrep i it n Hi Hn Hl Hdir) as (content & Hbk & Hs).
    exists content. split; [|done]. by apply (backed_links d d' t t).
Qed.

(** ** Restoring an item *)

(** The file comes back byte for byte, or is refused because the size recorded for
    it is not the size of what was backed up. *)
Definition restored (it : snapshot_item) (content : bytes) : output * option restore_error :=
  (mkOutput content content (zlen content),
   if it_size it =? zlen content then None
   else Some (ErrRepositoryCorrupt "reconstructed file size mismatch")).

Definition append_write (dest data : bytes) : bytes * option string := (dest ++ data, None).

(** The reconstruction of the item from the recipes a restore freezes. *)
Definition restore_item (d : backup_db) (t : T) (itemID : string) (it : snapshot_item)
    : output * option restore_error :=
  ReconstructFile sha256 append_write (opens t) [] (restore_item_blocks d jobID itemID) (it_size it)
    (default [] (it_sha256 it)).

Lemma append_run_writes blks dest : run_writes append_write dest blks = Some (dest ++ concat blks).
Proof.
  revert dest. induction blks as [|b blks IH]; intros dest; cbn; [by rewrite app_nil_r|].
  by rewrite IH, <- app_assoc.
Qed.

Lemma frozen_recipes d t i ids datas :
  (forall n, item_blocks d !! (i, n) = ids !! n) -> Forall2 (stored d t) ids datas ->
  Forall2 (recipe_block sha256 (opens t)) (restore_item_blocks d jobID i) datas.
Proof.
  intros Hl Hf. unfold restore_item_blocks. rewrite (item_links_exact _ _ ids) by done.
  assert (forall f : nat -> string -> nat * string, (forall n x, (f n x).2 = x) ->
    Forall2 (recipe_block sha256 (opens t))
      (omap (fun '(_, blockID) => freeze_link d jobID blockID) (imap f ids)) datas) as Hg;
    [|by apply Hg].
  clear Hl. induction Hf as [|id data ids datas Hst Hf IH]; intros f Hf2; cbn; [constructor|].
  destruct (f O id) as [n x] eqn:E. pose proof (Hf2 O id) as Hx. rewrite E in Hx. cbn in Hx. subst x.
  destruct Hst as (_ & _ & pid & p & x & Hb & Hr & _ & _ & Hrec).
  assert (freeze_link d jobID id = Some (recipe_of (entry_row pid x) p)) as ->.
  { unfold freeze_link. rewrite Hb. cbn [bl_pack bl_job entry_row]. pose proof Hr as (Hp & _).
    rewrite Hp, String.eqb_refl. cbn [andb].
    assert (ready_pack d jobID pid = true) as ->; [|done]. apply ready_pack_iff. by exists p. }
  constructor; [done|]. apply IH. intros m y. apply (Hf2 (Datatypes.S m) y).
Qed.

(** A backed item is restored as its content, or refused if its recorded size is
    not the size of the content. *)
Lemma restore_backed d t i it content :
  backed d t i content -> intact it content ->
  restore_item d t i it
  = (mkOutput content content (zlen content),
     if it_size it =? zlen content then None
     else Some (ErrRepositoryCorrupt "reconstructed file size mismatch")).
Proof.
  intros (ids & datas & Hl & Hf & Hc) [Hs Hsz]. pose proof (frozen_recipes d t i ids datas Hl Hf) as Hr.
  unfold restore_item, ReconstructFile. destruct (it_size it <? 0) eqn:E0; [lia|].
  set (recipes := restore_item_blocks d jobID i) in *.
  assert (group_loop sha256 append_write (opens t) (length recipes) recipes (mkOutput [] [] 0)
    = Some (mkOutput content content (zlen content), None)) as ->.
  { apply group_loop_ok; [done|done|]. exists datas. split; [done|]. apply write_all_ok.
    exists content. cbn. rewrite append_run_writes, Hc. done. }
  rewrite Hs. cbn [default]. unfold check_file. cbn [o_written o_hashed].
  rewrite Z.eqb_sym. destruct (it_size it =? zlen content); cbn [negb]; [|done].
  by rewrite bool_decide_true.
Qed.
End Store.
