(* ===== verification/BackupSound.v ===== *)
(** * A backup run keeps and extends what can be restored

    The run of BackupWriter.v against the invariant of BackupStore.v: whatever the
    source delivers, whatever fails and wherever the run stops, every file of a
    live snapshot stays restorable; and the files of a snapshot the run published
    restore to what the source delivered for them, or to what the snapshot they
    were taken over from held. *)

From S2P Require Import Prelude GoPath HashString Storage Tables Bytes BackupRepo Ranges RestoreReader.
From S2P Require Import BackupDb BackupRuns BackupCatalog BackupScan BackupWriter BackupFrame BackupStore.

Create HintDb keeps discriminated.

Section Sound.
Context `{GoSpace} (sha256 : bytes -> bytes).
Hypothesis sha256_length : forall l, length (sha256 l) = 32%nat.

Context {S T : Type} (source : backup_source S) (target : backup_target T).
Context (contents : T -> string -> option bytes).
Context `{!TargetLaws target contents}.

(** Other workers leave this job's catalog alone, and identifiers of snapshots are
    not given to another job. *)
Context (jobID runID : string) (generation : Z) (repositoryRoot : string).
Context (other : nat -> backup_db -> backup_db) (fault : nat -> option run_error).
Hypothesis other_frame : forall n d, frame jobID (Some runID) d (other n d).
Hypothesis other_owner : forall n d id r r',
  snapshots d !! id = Some r -> snapshots (other n d) !! id = Some r' -> sn_job r' = sn_job r.

(** Generated identifiers are UUIDs in their text form. *)
Context (now : nat -> Z) (uuid : nat -> nat -> string) (sample : nat -> Z).
Hypothesis uuid_length : forall n i, String.length (uuid n i) = 36%nat.

(** No collision among the blocks of the repository and of the source, nor among
    their packs. *)
Context (known : bytes -> Prop).
Hypothesis collision_free : forall x y, known x -> known y -> sha256 x = sha256 y -> x = y.
Hypothesis packs_collision_free : forall es es' p p' stream stream',
  EncodePack sha256 es = Ok (p, stream) -> EncodePack sha256 es' = Ok (p', stream') ->
  Forall (fun e => known (e_Data e)) es -> Forall (fun e => known (e_Data e)) es' ->
  sha256 stream = sha256 stream' -> stream = stream'.
Hypothesis known_source : forall path s d s' es,
  src_Download source path s = (Ok d, s') -> blocks_of sha256 (dl_data d) es ->
  Forall (fun e => known (e_Data e)) es.

Abbreviation worker := (worker S T).
Abbreviation M := (@M S T).
Abbreviation repository := (repository sha256 known contents jobID repositoryRoot (Some runID)).
Abbreviation stored := (stored sha256 known contents jobID).
Abbreviation backed := (backed sha256 known contents jobID).
Abbreviation later := (later sha256 known contents jobID (Some runID)).
Abbreviation uncatalogued := (uncatalogued jobID).
Abbreviation db_call := (@db_call S T other fault now uuid).

(** ** The builder *)

Record builder_ok (d : backup_db) (t : T) (b : packBuilder) : Prop := mkBuilderOk {
  bo_entries : Forall (fun e => valid_entry sha256 e /\ known (e_Data e)) (pb_entries b);
  bo_fresh : Forall (fun e => uncatalogued d (e_Hash e)) (pb_entries b);
  bo_pending : forall k, k ∈ pb_pending b <-> exists e, e ∈ pb_entries b /\ hash_key (e_Hash e) = k;
  bo_ids : forall k id, pb_ids b !! k = Some id ->
    exists data, stored d t id data /\ hash_key (sha256 data) = k;
}.

(** The builder knows the block with this key. *)
Definition refers (b : packBuilder) (k : string) : Prop := k ∈ pb_pending b \/ is_Some (pb_ids b !! k).

(** A reference the builder handed out for the block. *)
Definition ref_ok (w : worker) (ref : string) (data : bytes) : Prop :=
  known data /\ (stored (wk_db w) (wk_target w) ref data
                 \/ ref = hash_key (sha256 data) /\ refers (wk_builder w) ref).

Lemma builder_frame d d' t b : framed jobID (Some runID) d d' -> builder_ok d t b -> builder_ok d' t b.
Proof.
  intros Hf [B1 B2 B3 B4]. split; [done| |done|].
  - eapply Forall_impl; [exact B2|]. intros e. by apply (uncatalogued_frame _ (Some runID) d d').
  - intros k id Hk. destruct (B4 k id Hk) as (data & Hs & Hh). exists data. split; [|done].
    by apply (stored_frame _ _ _ _ (Some runID) d d').
Qed.

Lemma builder_target d t t' b :
  packs_kept contents jobID d t t' -> builder_ok d t b -> builder_ok d t' b.
Proof.
  intros Hk [B1 B2 B3 B4]. split; try done.
  intros k id Hid. destruct (B4 k id Hid) as (data & Hs & Hh). exists data. split; [|done].
  by apply (stored_target _ _ _ _ d t t').
Qed.

(** ** Moving on *)

Record moved (w w' : worker) : Prop := mkMoved {
  mv_later : later (wk_db w) (wk_target w) (wk_db w') (wk_target w');
  mv_kept : kept jobID (wk_db w) (wk_db w');
  mv_builder : builder_ok (wk_db w) (wk_target w) (wk_builder w) ->
    builder_ok (wk_db w') (wk_target w') (wk_builder w');
  mv_refers : forall k, refers (wk_builder w) k -> refers (wk_builder w') k;
  mv_delivered : forall x, x ∈ wk_delivered w -> x ∈ wk_delivered w';
  mv_unstable : rs_unstableFiles (wk_stats w) <= rs_unstableFiles (wk_stats w');
}.

#[local] Instance moved_preorder : PreOrder moved.
Proof.
  split.
  - intros w. split; [apply later_refl|apply kept_refl|done|done|done|cbn; lia].
  - intros w1 w2 w3 [L1 K1 B1 R1 D1 U1] [L2 K2 B2 R2 D2 U2].
    split; [by eapply later_trans|by eapply kept_trans|auto|auto|auto|lia].
Qed.

Lemma ref_ok_moved w w' ref data : moved w w' -> ref_ok w ref data -> ref_ok w' ref data.
Proof.
  intros Hm [Hk [Hs|[-> Hr]]]; (split; [done|]).
  - left. by apply (lt_stored _ _ _ _ _ _ _ _ _ (mv_later _ _ Hm)).
  - right. split; [done|]. by apply (mv_refers _ _ Hm).
Qed.

Lemma refs_moved w w' refs datas :
  moved w w' -> Forall2 (ref_ok w) refs datas -> Forall2 (ref_ok w') refs datas.
Proof. intros Hm Hf. eapply Forall2_impl; [done|]. intros. by eapply ref_ok_moved. Qed.

(** ** Weakest preconditions, with the invariant at the end *)

Definition wp {X} (m : M X) (w : worker) (Q : res run_error X -> worker -> Prop) : Prop :=
  let '(r, w') := m w in repository (wk_db w') (wk_target w') /\ Q r w'.

Lemma wp_bind {X Y} (m : M X) (k : X -> M Y) w Q :
  wp m w (fun r w' => match r with Ok x => wp (k x) w' Q | Err e => Q (Err e) w' end) ->
  wp (bind m k) w Q.
Proof.
  unfold wp, bind. destruct (m w) as [[x|e] w'].
  - by intros [_ H1].
  - done.
Qed.

Lemma wp_mono {X} (m : M X) w (Q Q' : res run_error X -> worker -> Prop) :
  wp m w Q -> (forall r w', repository (wk_db w') (wk_target w') -> Q r w' -> Q' r w') -> wp m w Q'.
Proof. unfold wp. destruct (m w) as [r w']. intros [? ?] HQ. auto. Qed.

Lemma wp_attempt {X} (m : M X) w (Q : res run_error (res run_error X) -> worker -> Prop) :
  wp m w (fun r w' => Q (Ok r) w') -> wp (attempt m) w Q.
Proof. unfold wp, attempt. by destruct (m w) as [r w']. Qed.

(** Programs that only move on, whatever they answer. *)
Definition keeps {X} (m : M X) : Prop := forall w,
  repository (wk_db w) (wk_target w) -> wp m w (fun _ w' => moved w w').

Lemma keeps_wp {X} (m : M X) w (Q : res run_error X -> worker -> Prop) :
  keeps m -> repository (wk_db w) (wk_target w) ->
  (forall r w', repository (wk_db w') (wk_target w') -> moved w w' -> Q r w') -> wp m w Q.
Proof. intros Hm Hr HQ. eapply wp_mono; [by apply Hm|done]. Qed.

Lemma keeps_bind {X Y} (m : M X) (k : X -> M Y) : keeps m -> (forall x, keeps (k x)) -> keeps (bind m k).
Proof.
  intros Hm Hk w Hr. apply wp_bind. apply keeps_wp; [done|done|].
  intros [x|e] w1 Hr1 Hm1; [|done]. apply keeps_wp; [apply Hk|done|].
  intros r w2 _ Hm2. by etrans.
Qed.

Lemma keeps_attempt {X} (m : M X) : keeps m -> keeps (attempt m).
Proof. intros Hm w Hr. apply wp_attempt, keeps_wp; done. Qed.

Lemma keeps_lift {X} (r : res run_error X) : keeps (lift r).
Proof. intros w Hr. by split. Qed.

Lemma keeps_get {X} (f : worker -> X) : keeps (get f).
Proof. intros w Hr. by split. Qed.

Lemma keeps_set_stats f :
  (forall s, rs_unstableFiles s <= rs_unstableFiles (f s)) -> keeps (set_stats f).
Proof.
  intros Hf w Hr. split; [done|]. split; [apply later_refl|apply kept_refl|done|done|done|apply Hf].
Qed.

Lemma keeps_deduplicated n : keeps (set_stats (add_deduplicated n)).
Proof. apply keeps_set_stats. intros s. cbn. lia. Qed.

Lemma keeps_set_state s : keeps (set_state s).
Proof. intros w Hr. split; [done|]. split; [apply later_refl|apply kept_refl|done|done|done|cbn; lia]. Qed.

Lemma keeps_deliver p data : keeps (deliver p data).
Proof.
  intros w Hr. split; [done|]. split; [apply later_refl|apply kept_refl|done|done| |cbn; lia].
  intros x Hx. by right.
Qed.

Lemma keeps_source {X} (f : S -> res run_error X * S) : keeps (source_call f).
Proof.
  intros w Hr. unfold wp, source_call. destruct (f (wk_source w)) as [r s]. split; [done|].
  split; [apply later_refl|apply kept_refl|done|done|done|cbn; lia].
Qed.

(** An operation of the target that leaves the packs alone. *)
Lemma moved_target w t :
  packs_kept contents jobID (wk_db w) (wk_target w) t ->
  let w' := mkWorker (wk_db w) (wk_source w) t (wk_clock w) (wk_builder w) (wk_stats w) (wk_state w)
              (wk_delivered w) in
  moved w w'.
Proof.
  intros Hk. split; cbn; [by apply target_later|apply kept_refl| |done|done|lia].
  by apply builder_target.
Qed.

Lemma keeps_target {X} (f : T -> res run_error X * T) :
  (forall t q, contents (f t).2 q = contents t q) -> keeps (target_call f).
Proof.
  intros Hf w Hr. unfold wp, target_call. destruct (f (wk_target w)) as [r t] eqn:E.
  assert (packs_kept contents jobID (wk_db w) (wk_target w) t) as Hk.
  { intros pid p _. specialize (Hf (wk_target w) (pk_path p)). by rewrite E in Hf. }
  split; [by apply (repository_target _ _ _ _ _ _ _ (wk_target w))|by apply moved_target].
Qed.

(** A statement: other transactions may run first, and it may fail. *)
Definition after_db (w : worker) (d : backup_db) : worker :=
  mkWorker d (wk_source w) (wk_target w) (Datatypes.S (wk_clock w)) (wk_builder w) (wk_stats w)
    (wk_state w) (wk_delivered w).

Lemma moved_framed w d : framed jobID (Some runID) (wk_db w) d -> moved w (after_db w d).
Proof.
  intros Hf. split; cbn; [by apply (framed_later _ _ _ _ (Some runID))|by apply (framed_kept _ (Some runID))| |done|done|lia].
  by apply builder_frame.
Qed.

Lemma wp_db {X} (f : Z -> (nat -> string) -> backup_db -> res run_error X * backup_db) w Q :
  repository (wk_db w) (wk_target w) ->
  (forall d0 e, repository d0 (wk_target w) -> moved w (after_db w d0) -> Q (Err e) (after_db w d0)) ->
  (forall d0, d0 = other (wk_clock w) (wk_db w) -> framed jobID (Some runID) (wk_db w) d0 ->
     repository d0 (wk_target w) -> moved w (after_db w d0) ->
     let '(r, d1) := f (now (wk_clock w)) (uuid (wk_clock w)) d0 in
     repository d1 (wk_target w) /\ Q r (after_db w d1)) ->
  wp (db_call f) w Q.
Proof.
  intros Hr HE HQ. unfold wp, BackupWriter.db_call.
  pose proof (other_frame (wk_clock w) (wk_db w) (rp_fk _ _ _ _ _ _ _ _ Hr)) as Hf.
  pose proof (repository_frame _ _ _ _ _ _ _ _ _ Hr Hf) as Hr0.
  pose proof (moved_framed w _ Hf) as Hm.
  destruct (fault (wk_clock w)) as [e|].
  - split; [done|]. by apply HE.
  - specialize (HQ _ eq_refl Hf Hr0 Hm).
    by destruct (f (now (wk_clock w)) (uuid (wk_clock w)) (other (wk_clock w) (wk_db w))) as [r d1].
Qed.

(** A statement that keeps the frame. *)
Lemma keeps_db {X} (f : Z -> (nat -> string) -> backup_db -> res run_error X * backup_db) :
  (forall n ids d, frame jobID (Some runID) d (f n ids d).2) -> keeps (db_call f).
Proof.
  intros Hf w Hr. apply wp_db; [done|done|]. intros d0 _ Hf0 Hr0 Hm0.
  pose proof (Hf (now (wk_clock w)) (uuid (wk_clock w)) d0 (rp_fk _ _ _ _ _ _ _ _ Hr0)) as Hf1.
  destruct (f _ _ _) as [r d1]. cbn in Hf1.
  split; [by apply (repository_frame _ _ _ _ _ _ d0)|]. apply moved_framed. by eapply framed_trans.
Qed.

Lemma keeps_read {X} (f : backup_db -> X) : keeps (db_call (fun _ _ d => (Ok (f d), d))).
Proof. apply keeps_db. intros n ids d. by apply frame_same. Qed.

Hint Resolve keeps_bind keeps_attempt keeps_lift keeps_get keeps_deduplicated keeps_set_state
  keeps_source keeps_read : keeps.
Hint Extern 1 (keeps (ret ?x)) => exact (keeps_lift (Ok x)) : keeps.
Hint Extern 1 (keeps (throw ?e)) => exact (keeps_lift (Err e)) : keeps.

(** ** Ending a run moves on *)

Lemma keeps_fail code : keeps (fail (S := S) (T := T) other fault now uuid jobID runID generation code).
Proof.
  unfold fail. apply keeps_bind; [auto with keeps|]. intros s. apply keeps_bind; [|auto with keeps].
  apply keeps_attempt, keeps_db. intros n ids d.
  pose proof (fail_frame jobID (Some runID) jobID generation runID s code n d) as Hf.
  by destruct (FailBackupRunContext _ _ _ _ _ _ _).
Qed.

Lemma keeps_finishOrFail s e :
  keeps (finishOrFail (S := S) (T := T) other fault now uuid jobID runID generation s e).
Proof.
  unfold finishOrFail. destruct e; [|apply keeps_fail].
  apply keeps_bind; [auto with keeps|]. intros st. apply keeps_bind; [|auto with keeps].
  apply keeps_attempt, keeps_db. intros n ids d.
  pose proof (finalize_frame jobID (Some runID) jobID generation runID s RCANCELLED (run_totals_of st) None n d) as Hf.
  by destruct (FinalizeBackupRunContext _ _ _ _ _ _ _ _ _).
Qed.

Lemma keeps_runActive sid :
  keeps (runActive (S := S) (T := T) other fault now uuid jobID runID generation sid).
Proof.
  unfold runActive. apply keeps_bind; [auto with keeps|]. intros [[]|e].
  - auto with keeps.
  - apply keeps_bind; [|auto with keeps]. apply keeps_attempt, keeps_db. intros n ids d.
    apply frame_delete_snapshots.
  - apply keeps_bind; [apply keeps_fail|auto with keeps].
Qed.

Lemma keeps_claim_step code f :
  (forall n d, frame jobID (Some runID) d (f n d).2) ->
  keeps (claim_step (S := S) (T := T) other fault now uuid jobID runID generation code f).
Proof.
  intros Hf. unfold claim_step. apply keeps_bind.
  - apply keeps_attempt, keeps_db. intros n ids d. specialize (Hf n d). by destruct (f n d).
  - intros [[]|e]; auto with keeps; apply keeps_bind; auto using keeps_fail with keeps.
Qed.

(** ** Flushing the builder *)

Lemma pending_empty d t b : builder_ok d t b -> pb_entries b = [] -> pb_pending b = ∅.
Proof.
  intros [_ _ B3 _] He. apply leibniz_equiv. intros k. rewrite B3, He.
  split; [by intros (e & ?%elem_of_nil & _)|]. by intros ?%elem_of_empty.
Qed.

(** What holds once a flush succeeded. *)
Definition flush_done (w w' : worker) : Prop :=
  moved w w' /\ pb_pending (wk_builder w') = ∅
  /\ forall h, uncatalogued (wk_db w) h -> hash_key h ∉ pb_pending (wk_builder w) ->
       uncatalogued (wk_db w') h.

(** The upload of a new pack touches no readable pack. *)
Lemma upload_kept (w : worker) pack encoded path n :
  repository (wk_db w) (wk_target w) ->
  builder_ok (wk_db w) (wk_target w) (wk_builder w) -> pb_entries (wk_builder w) <> [] ->
  EncodePack sha256 (pb_entries (wk_builder w)) = Ok (pack, encoded) ->
  pack_path repositoryRoot (p_ID pack) = Ok path ->
  packs_kept contents jobID (wk_db w) (wk_target w) (tgt_Upload target path encoded n (wk_target w)).2.
Proof.
  intros Hr [B1 B2 _ _] Hne He Hp pid p Hrd. apply law_upload.
  eapply (new_pack_path sha256 sha256_length known packs_collision_free contents jobID
    repositoryRoot (Some runID) (wk_db w) (wk_target w)); try done.
  eapply Forall_impl; [exact B1|]. by intros e [_ ?].
Qed.

(** Recording the pack that was read back. *)
Lemma record_wp (w : worker) pack stream path :
  repository (wk_db w) (wk_target w) ->
  builder_ok (wk_db w) (wk_target w) (wk_builder w) -> pb_entries (wk_builder w) <> [] ->
  EncodePack sha256 (pb_entries (wk_builder w)) = Ok (pack, stream) ->
  Forall not_footer (pb_entries (wk_builder w)) ->
  pack_path repositoryRoot (p_ID pack) = Ok path -> contents (wk_target w) path = Some stream ->
  wp (bind (record_pack other fault now uuid jobID path pack
              (map pack_block (located packPrefixSize (pb_entries (wk_builder w)))))
           (fun ids => set_builder (flushed ids (wk_builder w)))) w
    (fun r w' => match r with Ok _ => flush_done w w' | Err _ => True end).
Proof.
  intros Hr Hb Hne He Hnf Hp Hc. apply wp_bind. unfold record_pack. apply wp_db; [done|done|].
  intros d0 _ Hf0 Hr0 Hm0.
  destruct (RecordBackupPackAndBlocksContext _ _ _ _ _ _ _ _ _) as [[ids d1]|] eqn:Erec; [|by split].
  apply record_recorded in Erec as [Hrec Hnew]; [|intros i; apply uuid_length].
  set (row := mkPackRow _ _ _ _ _ _ _ _) in Hnew.
  pose proof (mv_builder _ _ Hm0 Hb) as [B1 B2 B3 B4].
  cbn [wk_db wk_target wk_builder after_db] in B1, B2, B3, B4.
  assert (pb_entries (wk_builder w) <> [] /\ Forall not_footer (pb_entries (wk_builder w))
    /\ Forall (fun e => known (e_Data e)) (pb_entries (wk_builder w))) as Hes.
  { split; [done|]. split; [done|]. eapply Forall_impl; [exact B1|]. by intros e [_ ?]. }
  assert (pk_job row = jobID /\ pk_state row = PackReady /\ pk_sha256 row = p_ID pack) as Hrow by done.
  pose proof (recorded_repository sha256 known contents jobID repositoryRoot (Some runID)
    d0 d1 (wk_target w) _ _ ids row pack stream Hr0 Hrec Hnew Hrow Hp Hc He Hes) as Hr1.
  pose proof (recorded_later sha256 known contents jobID (Some runID)
    d0 d1 (wk_target w) _ _ ids Hrec) as [Hl Hk].
  split; [exact Hr1|]. split; [exact Hr1|].
  assert (forall e, e ∈ pb_entries (wk_builder w) -> is_Some (ids !! hash_key (e_Hash e))) as Hdom.
  { intros e He'. destruct (entry_located packPrefixSize _ e He') as [o Ho].
    destruct (rc_rows _ _ _ _ _ _ Hrec _ Ho) as (id & _ & _ & Hs). exact Hs. }
  assert (pb_pending (flushed ids (wk_builder w)) = ∅) as Hpend.
  { apply leibniz_equiv. intros k. cbn. rewrite elem_of_difference, B3, elem_of_dom.
    split; [|by intros ?%elem_of_empty]. intros [(e & He' & <-) Hno]. exfalso. by apply Hno, Hdom. }
  split; [|split; [exact Hpend|]].
  - etrans; [exact Hm0|]. split; cbn; [done|done| | |done|lia].
    + intros _. split; cbn; [constructor|constructor| |].
      * intros k. change (k ∈ pb_pending (flushed ids (wk_builder w)) <-> exists e, e ∈ [] /\ hash_key (e_Hash e) = k).
        rewrite Hpend. split; [by intros ?%elem_of_empty|]. by intros (e & ?%elem_of_nil & _).
      * intros k id Hid. apply lookup_union_Some_raw in Hid as [Hid|[_ Hid]].
        -- destruct (rc_ids _ _ _ _ _ _ Hrec k id Hid) as (x & Hx & -> & Hrowb & Hlen).
           exists (e_Data x.2). split.
           ++ by apply (recorded_entry_stored sha256 known contents jobID repositoryRoot (Some runID)
                d0 d1 (wk_target w) _ _ ids row pack stream Hr0 Hrec Hnew Hrow Hp Hc He Hes).
           ++ apply located_entry in Hx as [_ Hx]. rewrite Forall_forall in B1.
              destruct (B1 _ Hx) as [[_ Hs] _]. by rewrite Hs.
        -- destruct (B4 k id Hid) as (data & Hs & Hh). exists data. split; [|done].
           by apply (recorded_stored sha256 known contents jobID d0 d1 (wk_target w) _ _ ids Hrec).
    + intros k [Hk'|Hk']; right; cbn.
      * apply B3 in Hk' as (e & He' & <-). destruct (Hdom e He') as [id Hid]. exists id.
        by apply lookup_union_Some_l.
      * destruct Hk' as [id Hid]. apply lookup_union_is_Some. right. by exists id.
  - intros h Hu Hnp. cbn.
    apply (recorded_uncatalogued sha256 known contents jobID repositoryRoot (Some runID)
      d0 d1 (wk_target w) _ _ ids row Hr0 Hrec Hnew).
    + by apply (uncatalogued_frame _ (Some runID) (wk_db w) d0).
    + intros e He' E. apply Hnp, B3. exists e. by rewrite E.
Qed.

Lemma wp_keeps {X} (m : M X) w (Q : res run_error X -> worker -> Prop) :
  keeps m -> repository (wk_db w) (wk_target w) ->
  (forall r w', m w = (r, w') -> repository (wk_db w') (wk_target w') -> moved w w' -> Q r w') ->
  wp m w Q.
Proof.
  intros Hm Hr HQ. specialize (Hm w Hr). unfold wp in *. destruct (m w) as [r w']. destruct Hm. auto.
Qed.

Lemma keeps_confirm path pack entries :
  keeps (confirm_upload (S := S) sha256 target path pack entries).
Proof.
  unfold confirm_upload. apply keeps_bind.
  - apply keeps_attempt, keeps_target. intros t q. apply law_exists.
  - intros [[[] n]|e]; [|exact (keeps_lift (Err _))..].
    destruct (negb _); [exact (keeps_lift (Err _))|].
    apply keeps_bind; [|auto with keeps]. apply keeps_target. intros t q. apply law_download.
Qed.

(** A confirmed upload is there, byte for byte. *)
Lemma confirm_upload_ok (w w' : worker) path pack stream entries blks :
  EncodePack sha256 entries = Ok (pack, stream) ->
  confirm_upload sha256 target path pack entries w = (Ok blks, w') ->
  contents (wk_target w') path = Some stream /\ Forall not_footer entries
  /\ blks = map pack_block (located packPrefixSize entries)
  /\ wk_builder w' = wk_builder w /\ wk_db w' = wk_db w.
Proof.
  intros He. unfold confirm_upload, bind, attempt, target_call, throw, lift.
  pose proof (law_exists path (wk_target w) path) as L1.
  pose proof (law_size path (wk_target w)) as L2.
  destruct (tgt_FileExists target path (wk_target w)) as [[[[] n]|e] t1]; cbn [fst snd] in L1, L2;
    [|done..].
  destruct (L2 n eq_refl) as (c & Hc & Hn). destruct (n =? p_Size pack) eqn:En; [|done]. cbn [negb].
  cbn [wk_target]. pose proof (law_download path t1 path) as L3. pose proof (law_data path t1) as L4.
  destruct (tgt_Download target path t1) as [[[data ce]|e] t2]; cbn [fst snd] in L3, L4; [|done].
  destruct (L4 data ce eq_refl) as [rest Hd]. cbn [fst].
  destruct (confirm_pack sha256 entries pack data) as [bs|e] eqn:Ec; [|done]. intros [= <- <-].
  apply (confirm_pack_ok sha256 sha256_length entries pack stream) in Ec as (-> & Hnf & ->); [|done].
  cbn [wk_target wk_builder wk_db]. split_and!; try done.
  rewrite L3, Hd. rewrite Hd in L1. rewrite <- L1 in Hc. injection Hc as <-.
  pose proof (encode_size sha256 sha256_length _ _ _ He) as Hz. rewrite zlen_app in Hn.
  apply Z.eqb_eq in En. f_equal. assert (zlen rest = 0) as Hr by lia.
  by rewrite (zlen_nil_inv _ Hr), app_nil_r.
Qed.

Lemma moved_flush_done w w1 w2 :
  moved w w1 -> wk_builder w1 = wk_builder w -> wk_db w1 = wk_db w -> flush_done w1 w2 -> flush_done w w2.
Proof.
  intros Hm Eb Ed (Hm2 & Hp & Hu). split; [by etrans|]. split; [done|]. intros h. rewrite <- Ed, <- Eb. apply Hu.
Qed.

Lemma target_call_same {X} (f : T -> res run_error X * T) (w w' : worker) r :
  target_call f w = (r, w') -> wk_builder w' = wk_builder w /\ wk_db w' = wk_db w.
Proof. unfold target_call. destruct (f _). by intros [= <- <-]. Qed.

Lemma flush_wp w :
  repository (wk_db w) (wk_target w) -> builder_ok (wk_db w) (wk_target w) (wk_builder w) ->
  wp (flush sha256 target other fault now uuid jobID repositoryRoot) w
    (fun r w' => match r with Ok _ => flush_done w w' | Err _ => True end).
Proof.
  intros Hr Hb. unfold flush. apply wp_bind. split; [done|].
  destruct (pb_entries (wk_builder w)) as [|e0 es] eqn:Ees.
  { split; [done|]. split; [done|]. split; [by eapply pending_empty|done]. }
  rewrite <- Ees. assert (pb_entries (wk_builder w) <> []) as Hne by by rewrite Ees.
  destruct (EncodePack sha256 (pb_entries (wk_builder w))) as [[pack encoded]|e] eqn:He; [|by split].
  apply wp_bind. unfold wp at 1, lift.
  destruct (pack_path repositoryRoot (p_ID pack)) as [path|e] eqn:Hp; [|by split].
  split; [done|]. apply wp_bind. apply wp_keeps.
  { apply keeps_target. intros t q. apply law_parents. }
  { done. }
  intros [[]|e] w1 Ew1 Hr1 Hm1; [|done]. apply target_call_same in Ew1 as [Eb1 Ed1].
  pose proof (mv_builder _ _ Hm1 Hb) as Hb1. rewrite <- Eb1 in He, Hne.
  apply wp_bind. unfold wp at 1, target_call.
  pose proof (upload_kept w1 pack encoded path (p_Size pack) Hr1 Hb1 Hne He Hp) as Hkept.
  destruct (tgt_Upload target path encoded (p_Size pack) (wk_target w1)) as [r t2]. cbn [snd] in Hkept.
  pose proof (moved_target w1 t2 Hkept) as Hm2. cbv zeta in Hm2.
  set (w2 := mkWorker _ _ t2 _ _ _ _ _) in *.
  assert (repository (wk_db w2) (wk_target w2)) as Hr2
    by by apply (repository_target _ _ _ _ _ _ _ (wk_target w1)).
  split; [exact Hr2|]. destruct r as [[]|e]; [|done].
  apply wp_bind, wp_keeps; [apply keeps_confirm|done|].
  intros [blks|e] w3 Ew3 Hr3 Hm3; [|done]. rewrite <- Eb1 in Ew3.
  apply (confirm_upload_ok _ _ _ _ encoded) in Ew3 as (Hc & Hnf & -> & Eb3 & Ed3); [|done].
  assert (wk_builder w3 = wk_builder w) as Eb by by rewrite Eb3.
  rewrite Eb1. rewrite <- Eb. rewrite Eb1, <- Eb in He, Hne, Hnf.
  eapply wp_mono.
  { apply (record_wp w3 pack encoded path); try done.
    apply (mv_builder _ _ Hm3), (mv_builder _ _ Hm2), Hb1. }
  intros [[]|e] w4 _ Hd; [|done]. apply (moved_flush_done _ w3); try done.
  - by do 2 (etrans; [done|]).
  - by rewrite Ed3.
Qed.

(** ** Storing blocks *)

Lemma add_wp w e :
  repository (wk_db w) (wk_target w) -> builder_ok (wk_db w) (wk_target w) (wk_builder w) ->
  valid_entry sha256 e -> known (e_Data e) -> uncatalogued (wk_db w) (e_Hash e) ->
  wp (add sha256 target other fault now uuid jobID repositoryRoot e) w
    (fun r w' => match r with
                 | Ok _ => moved w w' /\ refers (wk_builder w') (hash_key (e_Hash e))
                 | Err _ => True
                 end).
Proof.
  intros Hr Hb Hv Hk Hu. unfold add. apply wp_bind. split; [done|].
  unfold hasPendingBlock. case_bool_decide as Hp; [split; [done|]; split; [done|by left]|].
  assert (forall w1, moved w w1 -> repository (wk_db w1) (wk_target w1) ->
    uncatalogued (wk_db w1) (e_Hash e) ->
    wp (let* b := get wk_builder in set_builder (append_entry e b))%worker w1
      (fun r w' => match r with
                   | Ok _ => moved w w' /\ refers (wk_builder w') (hash_key (e_Hash e))
                   | Err _ => True
                   end)) as Happ.
  { intros w1 Hm1 Hr1 Hu1. apply wp_bind. split; [done|]. split; [done|].
    pose proof (mv_builder _ _ Hm1 Hb) as [B1 B2 B3 B4]. split.
    - etrans; [exact Hm1|]. split; [apply later_refl|apply kept_refl| | |done|cbn; lia]; cbn.
      + intros _. split; cbn; [by apply Forall_app; split; [|apply Forall_singleton]
          |by apply Forall_app; split; [|apply Forall_singleton]| |done].
        intros k. rewrite elem_of_union, elem_of_singleton, B3. setoid_rewrite elem_of_app.
        setoid_rewrite list_elem_of_singleton. split.
        * intros [->|(x & Hx & <-)]; [exists e; auto|exists x; auto].
        * intros (x & [Hx| ->] & <-); [right; by exists x|by left].
      + intros k [Hk'|Hk']; [left; cbn; set_solver|by right].
    - left. cbn. set_solver. }
  apply wp_bind. destruct (_ && _).
  - eapply wp_mono; [by apply flush_wp|]. intros [[]|x] w1 Hr1; [|done]. intros (Hm1 & _ & Hfresh).
    apply Happ; [done..|]. by apply Hfresh.
  - split; [done|]. by apply Happ.
Qed.

(** A block whose hash a stored block has is that block. *)
Lemma stored_same d t id data data' :
  stored d t id data -> known data' -> sha256 data = sha256 data' -> stored d t id data'.
Proof.
  intros Hs Hk E. assert (data = data') as <-; [|done]. apply collision_free; [|done|done].
  by destruct Hs as (_ & ? & _).
Qed.

Lemma store_block_wp w ids e :
  repository (wk_db w) (wk_target w) -> builder_ok (wk_db w) (wk_target w) (wk_builder w) ->
  valid_entry sha256 e -> known (e_Data e) ->
  wp (store_block sha256 target other fault now uuid jobID repositoryRoot ids e) w
    (fun r w' => match r with
                 | Ok ids' => moved w w' /\ exists ref, ids' = ids ++ [ref] /\ ref_ok w' ref (e_Data e)
                 | Err _ => True
                 end).
Proof.
  intros Hr Hb Hv Hk. pose proof Hv as [_ Hh]. unfold store_block.
  assert (forall (w1 : worker) n ref, repository (wk_db w1) (wk_target w1) -> moved w w1 ->
    ref_ok w1 ref (e_Data e) ->
    wp (let* _ := set_stats (add_deduplicated n) in ret (ids ++ [ref]))%worker w1
      (fun r w' => match r with
                   | Ok ids' => moved w w' /\ exists ref, ids' = ids ++ [ref] /\ ref_ok w' ref (e_Data e)
                   | Err _ => True
                   end)) as Hret.
  { intros w1 n ref Hr1 Hm1 Href. apply wp_bind. split; [done|]. split; [done|].
    pose proof (keeps_deduplicated n w1 Hr1) as [_ Hm2].
    split; [by etrans|]. exists ref. split; [done|]. by apply (ref_ok_moved w1). }
  apply wp_bind. split; [done|]. unfold catalogBlockID, hasPendingBlock.
  destruct (pb_ids (wk_builder w) !! hash_key (e_Hash e)) as [id|] eqn:Eid.
  { apply Hret; [done|done|]. destruct (bo_ids _ _ _ Hb _ _ Eid) as (data & Hs & Hkey).
    split; [done|]. left. apply (stored_same _ _ _ data); [done|done|].
    apply hash_key_inj in Hkey. congruence. }
  case_bool_decide as Hp.
  { apply Hret; [done|done|]. split; [done|]. right. rewrite Hh. split; [done|by left]. }
  apply wp_bind. apply wp_db; [done|done|]. intros d0 _ Hf0 Hr0 Hm0. split; [done|].
  destruct (FindBackupBlockContext jobID (e_Hash e) d0) as [id|] eqn:Ef.
  - apply Hret; [done|done|]. apply find_block_some in Ef as (b & p & Hb0 & HbJ & Hbh & Hrd).
    destruct (row_stored sha256 known contents jobID repositoryRoot (Some runID) d0 (wk_target w) id b p
      Hr0 Hb0 HbJ Hrd) as (data & Hs & Hd). split; [done|]. left.
    apply (stored_same _ _ _ data); [done|done|]. congruence.
  - apply find_block_none in Ef. apply wp_bind. eapply wp_mono.
    { apply add_wp; [done|by apply (mv_builder _ _ Hm0)|done|done|done]. }
    intros [[]|x] w1 Hr1; [|done]. intros [Hm1 Href]. split; [done|]. split; [by etrans|].
    exists (hash_key (e_Hash e)). split; [done|]. split; [done|]. right. by rewrite Hh.
Qed.

Lemma run_store es : forall w ids,
  repository (wk_db w) (wk_target w) -> builder_ok (wk_db w) (wk_target w) (wk_builder w) ->
  Forall (fun e => valid_entry sha256 e /\ known (e_Data e)) es ->
  match run_blocks (split_callback sha256 target other fault now uuid jobID repositoryRoot) (ids, w) es with
  | Ok (ids', w') => repository (wk_db w') (wk_target w') /\ moved w w'
      /\ exists refs, ids' = ids ++ refs /\ Forall2 (ref_ok w') refs (map e_Data es)
  | Err (_, w') => repository (wk_db w') (wk_target w')
  end.
Proof.
  induction es as [|e es IH]; intros w ids Hr Hb Hes; cbn [run_blocks].
  { split; [done|]. split; [done|]. exists []. split; [by rewrite app_nil_r|constructor]. }
  apply Forall_cons in Hes as [[Hv Hk] Hes]. unfold split_callback at 1. cbn [fst snd].
  pose proof (store_block_wp w ids e Hr Hb Hv Hk) as Hw. unfold wp in Hw.
  destruct (store_block _ _ _ _ _ _ _ _ ids e w) as [[ids1|x] w1]; [|by destruct Hw].
  destruct Hw as (Hr1 & Hm1 & ref & -> & Href).
  pose proof (IH w1 (ids ++ [ref]) Hr1 (mv_builder _ _ Hm1 Hb) Hes) as Hrun.
  destruct (run_blocks _ _ es) as [[ids' w']|[x w']]; [|done].
  destruct Hrun as (Hr' & Hm' & refs & -> & Hrefs). split; [done|]. split; [by etrans|].
  exists (ref :: refs). split; [by rewrite <- app_assoc|]. constructor; [|done].
  by apply (ref_ok_moved w1).
Qed.

(** ** One file *)

(** Some references lead to the content. *)
Definition refs_to (w : worker) (refs : list string) (content : bytes) : Prop :=
  exists datas, Forall2 (ref_ok w) refs datas /\ concat datas = content.

Lemma refs_to_moved w w' refs content : moved w w' -> refs_to w refs content -> refs_to w' refs content.
Proof. intros Hm (datas & Hf & Hc). exists datas. split; [by apply (refs_moved w)|done]. Qed.

Lemma blocks_of_valid l es : blocks_of sha256 l es -> Forall (valid_entry sha256) es.
Proof.
  induction 1 as [|l Hl|b l es Hb _ IH]; constructor; try done; unfold valid_entry; cbn;
    unfold BlockSize in *; split; done || lia.
Qed.

Lemma split_file_wp w path s s' d :
  repository (wk_db w) (wk_target w) -> builder_ok (wk_db w) (wk_target w) (wk_builder w) ->
  src_Download source path s = (Ok d, s') ->
  wp (split_file sha256 target other fault now uuid jobID repositoryRoot d) w
    (fun r w' => match r with
                 | Ok (hash, refs) => moved w w' /\ hash = sha256 (dl_data d)
                     /\ refs_to w' refs (dl_data d)
                 | Err _ => True
                 end).
Proof.
  intros Hr Hb Hd. unfold wp, split_file, SplitBlocks.
  destruct (split_loop_blocks sha256
    (fun (acc : list string * worker) e => (read_error e, acc.2))
    (split_callback sha256 target other fault now uuid jobID repositoryRoot) (dl_end d)
    (Datatypes.S (length (dl_data d))) (dl_data d) ([], w)) as (es & Hes & ->); [lia|].
  unfold run_stream.
  assert (Forall (fun e => valid_entry sha256 e /\ known (e_Data e)) es) as Hall.
  { apply Forall_and. split; [by eapply blocks_of_valid|by eapply known_source]. }
  pose proof (run_store es w [] Hr Hb Hall) as Hrun.
  destruct (run_blocks _ _ es) as [[ids' w']|[x w']]; [|by split].
  destruct Hrun as (Hr' & Hm' & refs & -> & Hrefs). cbn [app].
  assert (refs_to w' refs (dl_data d)) as Hto.
  { exists (map e_Data es). split; [done|]. by apply (blocks_of_data sha256). }
  destruct (dl_end d); by split.
Qed.

(** Where the content of a file comes from. *)
Definition delivered (w : worker) (file : scannedFile) (content : bytes) : Prop :=
  (sf_sourcePath file, content) ∈ wk_delivered w.

Lemma file_attempts_wp n file : forall w,
  repository (wk_db w) (wk_target w) -> builder_ok (wk_db w) (wk_target w) (wk_builder w) ->
  wp (file_attempts sha256 source target other fault now uuid jobID repositoryRoot n file) w
    (fun r w' => match r with
                 | Ok None => moved w w'
                 | Ok (Some item) => moved w w' /\ pf_file item = file /\ exists content,
                     refs_to w' (pf_blockIDs item) content /\ pf_fileHash item = sha256 content
                     /\ delivered w' file content
                 | Err _ => True
                 end).
Proof.
  induction n as [|n IH]; intros w Hr Hb; [by split|]. cbn [file_attempts].
  assert (forall w1, moved w w1 -> repository (wk_db w1) (wk_target w1) ->
    wp (file_attempts sha256 source target other fault now uuid jobID repositoryRoot n file) w1
    (fun r w' => match r with
                 | Ok None => moved w w'
                 | Ok (Some item) => moved w w' /\ pf_file item = file /\ exists content,
                     refs_to w' (pf_blockIDs item) content /\ pf_fileHash item = sha256 content
                     /\ delivered w' file content
                 | Err _ => True
                 end)) as Hnext.
  { intros w1 Hm1 Hr1. eapply wp_mono; [by apply IH; [|apply (mv_builder _ _ Hm1)]|].
    intros [[item|]|e] w2 _; [|by intros; etrans|done]. intros (Hm2 & ? & ?). split; [by etrans|done]. }
  apply wp_bind, wp_keeps; [auto with keeps|done|].
  intros [current|e] w1 _ Hr1 Hm1; [|done]. destruct (negb _); [by apply Hnext|].
  apply wp_bind, wp_keeps; [auto with keeps|done|].
  intros [d|e] w2 E2 Hr2 Hm2; [|done].
  assert (exists s s', src_Download source (sf_sourcePath file) s = (Ok d, s')) as (s & s' & Hd).
  { unfold source_call in E2. destruct (src_Download _ _ _) as [r s'] eqn:Es.
    injection E2 as -> _. by eexists _, _. }
  assert (moved w w2) as Hm02 by by etrans.
  apply wp_bind. eapply wp_mono; [apply (split_file_wp w2 (sf_sourcePath file) s s'); [done|by apply (mv_builder _ _ Hm02)|done]|].
  intros [[hash refs]|e] w3 Hr3; [|done]. intros (Hm3 & -> & Hto).
  apply wp_bind. destruct (dl_close d); [by split|]. split; [done|].
  apply wp_bind, wp_keeps; [apply keeps_deliver|done|]. intros [[]|e] w4 E4 Hr4 Hm4; [|done].
  apply wp_bind, wp_keeps; [auto with keeps|done|]. intros [after|e] w5 _ Hr5 Hm5; [|done].
  assert (moved w w5) as Hm05 by (do 3 (etrans; [done|]); done).
  destruct (sameSource file after); [|by apply Hnext].
  split; [done|]. split; [done|]. split; [done|]. exists (dl_data d). cbn.
  split; [by apply (refs_to_moved w4), (refs_to_moved w3)|]. split; [done|].
  unfold delivered. apply (mv_delivered _ _ Hm5). injection E4 as <-. cbn. by left.
Qed.

(** A block has one content. *)
Lemma stored_unique d t id data data' : stored d t id data -> stored d t id data' -> data = data'.
Proof.
  intros (_ & Hk & pid & p & x & Hb & _ & _ & Hs & _) (_ & Hk' & pid' & p' & x' & Hb' & _ & _ & Hs' & _).
  rewrite Hb in Hb'. injection Hb' as Hh _ _ _. apply collision_free; [done|done|congruence].
Qed.

Lemma backed_later d t d' t' i content content' :
  later d t d' t' -> (forall k, item_blocks d' !! (i, k) = item_blocks d !! (i, k)) ->
  backed d t i content -> backed d' t' i content' -> content = content'.
Proof.
  intros Hl Hk (ids & datas & Hids & Hf & <-) (ids' & datas' & Hids' & Hf' & <-).
  assert (ids' = ids) as -> by (apply list_eq; intros k; by rewrite <- Hids', <- Hids, Hk).
  f_equal. clear Hids Hids'. revert datas' Hf'.
  induction Hf as [|id data ids datas Hs Hf IH]; intros datas' Hf'.
  - by apply Forall2_nil_inv_l in Hf'.
  - apply Forall2_cons_inv_l in Hf' as (data' & rest & Hs' & Hf' & ->). f_equal; [|by apply IH].
    apply (lt_stored _ _ _ _ _ _ _ _ _ Hl) in Hs. by apply (stored_unique d' t' id).
Qed.

(** The second components of indexed elements. *)
Lemma map_snd_imap {A} (l : list A) : map snd (imap pair l) = l.
Proof.
  assert (forall f : nat -> A -> nat * A, (forall m x, (f m x).2 = x) -> map snd (imap f l) = l) as Hg;
    [|by apply Hg].
  induction l as [|x l IH]; intros f Hf; cbn; [done|]. rewrite Hf. f_equal. apply IH.
  intros m y. apply (Hf (Datatypes.S m)).
Qed.

(** ** Files taken over from the previous snapshot *)

Section Run.
(** The database and the target when the run began. *)
Context (d0 : backup_db) (t0 : T).
Hypothesis repository0 : repository d0 t0.

(** The file's content is what an item of an earlier live snapshot of the job, of
    the same path, size and time, is backed by. *)
Definition taken_over (path : string) (size : Z) (mtime : gotime) (content : bytes) : Prop :=
  exists i it n, items d0 !! i = Some it /\ job_snapshot jobID d0 (it_snapshot it) n
    /\ live (Some runID) n = true /\ it_is_dir it = false /\ it_path it = path /\ it_size it = size
    /\ it_mtime it = Some mtime /\ backed d0 t0 i content.

(** Some stored blocks make up the content. *)
Definition stored_as (w : worker) (ids : list string) (content : bytes) : Prop :=
  exists datas, Forall2 (stored (wk_db w) (wk_target w)) ids datas /\ concat datas = content.

Lemma stored_as_refs w ids content : stored_as w ids content -> refs_to w ids content.
Proof.
  intros (datas & Hf & Hc). exists datas. split; [|done]. eapply Forall2_impl; [exact Hf|].
  intros id data Hs. pose proof Hs as (_ & Hk & _). split; [done|by left].
Qed.

Definition catalog_ok (w : worker) (catalog : gmap string BackupSnapshotCatalogItem) : Prop :=
  forall path ci, catalog !! path = Some ci -> exists content,
    taken_over path (ci_SizeBytes ci) (ci_Mtime ci) content
    /\ ci_FileSHA256 ci = sha256 content /\ stored_as w (ci_BlockIDs ci) content.

Lemma catalog_ok_moved w w' catalog : moved w w' -> catalog_ok w catalog -> catalog_ok w' catalog.
Proof.
  intros Hm Hc path ci Hci. destruct (Hc path ci Hci) as (content & Ht & Hh & datas & Hf & Hd).
  exists content. split; [done|]. split; [done|]. exists datas. split; [|done].
  eapply Forall2_impl; [exact Hf|]. apply (lt_stored _ _ _ _ _ _ _ _ _ (mv_later _ _ Hm)).
Qed.

(** A file the run is going to list. *)
Definition pending_ok (w : worker) (item : pendingFile) : Prop := exists content,
  refs_to w (pf_blockIDs item) content /\ pf_fileHash item = sha256 content
  /\ (delivered w (pf_file item) content
      \/ taken_over (sf_relativePath (pf_file item)) (sf_size (pf_file item))
           (sf_mtime (pf_file item)) content).

Lemma pending_moved w w' item : moved w w' -> pending_ok w item -> pending_ok w' item.
Proof.
  intros Hm (content & Hr & Hh & Ho). exists content. split; [by apply (refs_to_moved w)|].
  split; [done|]. destruct Ho as [Ho|Ho]; [left; by apply (mv_delivered _ _ Hm)|by right].
Qed.

(** The catalog read from a database the run moved on to. *)
Lemma loaded_ok w sid n dc :
  repository (wk_db w) (wk_target w) -> later d0 t0 (wk_db w) (wk_target w) ->
  job_snapshot jobID (wk_db w) sid n -> live (Some runID) n = true ->
  framed jobID (Some runID) (wk_db w) dc -> (exists n', job_snapshot jobID dc sid n') ->
  catalog_ok (after_db w dc) (GetBackupSnapshotFileCatalogContext sid dc).
Proof.
  intros Hr Hl Hn Hlive Hf [n' Hn'] path ci Hci.
  apply file_catalog_lookup in Hci as (i & it & Hi & Hs & Hdir & Hp & Hci).
  rewrite <- Hs in Hn'. destruct (fr_item _ _ _ _ Hf i it n' Hi Hn') as (Hi1 & Hk1 & n1 & Hn1 & _).
  assert (n1 = n) as -> by (unfold job_snapshot in *; rewrite Hs in Hn1; destruct Hn, Hn1; congruence).
  destruct (lt_item _ _ _ _ _ _ _ _ _ Hl i it n Hi1 Hn1) as (Hi0 & Hk0 & n0 & Hn0 & Hlive0).
  destruct (rp_items _ _ _ _ _ _ _ _ Hr i it n Hi1 Hn1 Hlive Hdir) as (content & Hbk & Hsha & _).
  destruct Hbk as (ids & datas & Hids & Hst & Hcat).
  assert (forall k, item_blocks dc !! (i, k) = ids !! k) as Hids'
    by (intros k; by rewrite Hk1).
  apply catalog_item_spec in Hci as (C1 & C2 & C3 & _ & C5 & _).
  2: { intros k E. rewrite Hids' in E. pose proof (Forall2_lookup_l _ _ _ _ _ Hst E) as (x & _ & Hx & _).
       done. }
  rewrite (item_links_exact _ _ ids Hids') in C5.
  rewrite map_snd_imap in C5.
  assert (exists content0, backed d0 t0 i content0) as [content0 Hb0].
  { destruct (rp_items _ _ _ _ _ _ _ _ repository0 i it n0 Hi0 Hn0 (Hlive0 Hlive) Hdir) as (c & Hc & _). by exists c. }
  assert (content0 = content) as ->.
  { apply (backed_later _ _ _ _ i content0 content Hl Hk0 Hb0). by exists ids, datas. }
  exists content. split; [|split].
  - exists i, it, n0. rewrite C2, C3. split_and!; auto.
  - congruence.
  - rewrite C5. exists datas. split; [|done]. eapply Forall2_impl; [exact Hst|].
    intros id data. by apply (stored_frame _ _ _ _ (Some runID)).
Qed.

Lemma load_catalog_wp w :
  repository (wk_db w) (wk_target w) -> later d0 t0 (wk_db w) (wk_target w) ->
  wp (load_catalog other fault now uuid jobID) w
    (fun r w' => match r with Ok catalog => moved w w' /\ catalog_ok w' catalog | Err _ => True end).
Proof.
  intros Hr Hl. unfold load_catalog. apply wp_bind, wp_db; [done|done|].
  intros d1 _ Hf1 Hr1 Hm1. split; [done|].
  destruct (GetLatestValidBackupSnapshotIDContext jobID d1) as [sid|] eqn:Es.
  2: { split; [done|]. split; [done|]. intros path ci Hci. by rewrite lookup_empty in Hci. }
  apply latest_valid in Es as (n & Hn & HJ & Hv).
  apply wp_db; [done|done|]. intros d2 E2 Hf2 Hr2 Hm2. split; [done|]. split; [by etrans|].
  assert (live (Some runID) n = true) as Hlive.
  { apply live_spec. left. unfold snapshot_in in Hv. by apply in_true in Hv. }
  destruct (decide (is_Some (snapshots d2 !! sid))) as [[n' Hn']|Hno].
  - apply (loaded_ok (after_db w d1) sid n d2); try done.
    + eapply later_trans; [exact Hl|exact (mv_later _ _ Hm1)].
    + exists n'. split; [done|]. rewrite <- HJ. rewrite E2 in Hn'.
      by apply (other_owner _ _ _ _ _ Hn Hn').
  - intros path ci Hci. apply file_catalog_lookup in Hci as (i & it & Hi & Hs & _).
    exfalso. apply Hno. rewrite <- Hs. by apply (fk_items _ (rp_fk _ _ _ _ _ _ _ _ Hr2) i).
Qed.

(** ** The files of the run *)

Lemma try_reuse_wp w catalog file :
  repository (wk_db w) (wk_target w) -> catalog_ok w catalog ->
  wp (try_reuse source catalog file) w
    (fun r w' => moved w w' /\ match r with
                 | Ok (Some item) => pf_file item = file /\ pending_ok w' item
                 | _ => True
                 end).
Proof.
  intros Hr Hc. unfold try_reuse, reusable_entry.
  destruct (catalog !! sf_relativePath file) as [prev|] eqn:Ep; [|by split].
  destruct (_ && _) eqn:Ec; [|by split].
  repeat (apply andb_true_iff in Ec as [Ec ?]).
  apply wp_bind, wp_attempt, wp_keeps; [auto with keeps|done|].
  intros [current|e] w1 _ Hr1 Hm1; [|by split]. destruct (sameSource file current); [|by split].
  apply wp_bind, wp_keeps; [auto with keeps|done|]. intros [[]|e] w2 _ Hr2 Hm2; [|split; [by etrans|done]].
  split; [done|]. split; [by etrans|]. split; [done|].
  destruct (Hc _ _ Ep) as (content & Ht & Hh & Hto%stored_as_refs). exists content. cbn.
  split; [by apply (refs_to_moved w1), (refs_to_moved w)|]. split; [done|]. right.
  assert (ci_Mtime prev = sf_mtime file) as <- by lia.
  assert (ci_SizeBytes prev = sf_size file) as <- by lia. done.
Qed.

(** Every file is pending, or one was left out; nothing else is pending. *)
Definition covers (w : worker) (files : list scannedFile) (pending : list pendingFile) : Prop :=
  (forall f, f ∈ files -> (exists item, item ∈ pending /\ pf_file item = f)
    \/ 0 < rs_unstableFiles (wk_stats w))
  /\ forall item, item ∈ pending -> pf_file item ∈ files.

Lemma covers_moved w w' files pending : moved w w' -> covers w files pending -> covers w' files pending.
Proof.
  intros Hm [Hc Hl]. split; [|done]. intros f Hf. destruct (Hc f Hf) as [?|Hu]; [by left|right].
  pose proof (mv_unstable _ _ Hm). lia.
Qed.

Lemma file_loop_wp sid catalog files : forall w pending done_,
  repository (wk_db w) (wk_target w) -> builder_ok (wk_db w) (wk_target w) (wk_builder w) ->
  catalog_ok w catalog -> Forall (pending_ok w) pending -> covers w done_ pending ->
  0 <= rs_unstableFiles (wk_stats w) ->
  wp (file_loop sha256 source target other fault now uuid jobID runID generation repositoryRoot
        sid catalog files pending) w
    (fun r w' => match r with
                 | Ok (Some pending') => moved w w' /\ Forall (pending_ok w') pending'
                     /\ covers w' (done_ ++ files) pending'
                 | _ => True
                 end).
Proof.
  induction files as [|file files IH]; intros w pending done_ Hr Hb Hc Hp Hcov Hu; cbn [file_loop].
  { split; [done|]. split; [done|]. by rewrite app_nil_r. }
  assert (forall (w1 : worker) pending1, repository (wk_db w1) (wk_target w1) -> moved w w1 ->
    Forall (pending_ok w1) pending1 -> covers w1 (done_ ++ [file]) pending1 ->
    wp (file_loop sha256 source target other fault now uuid jobID runID generation repositoryRoot
        sid catalog files pending1) w1
    (fun r w' => match r with
                 | Ok (Some pending') => moved w w' /\ Forall (pending_ok w') pending'
                     /\ covers w' (done_ ++ file :: files) pending'
                 | _ => True
                 end)) as Hnext.
  { intros w1 pending1 Hr1 Hm1 Hp1 Hcov1. eapply wp_mono.
    - apply (IH w1 pending1 (done_ ++ [file])); try done.
      + by apply (mv_builder _ _ Hm1).
      + by apply (catalog_ok_moved w).
      + pose proof (mv_unstable _ _ Hm1). lia.
    - intros [[pending'|]|e] w2 _; [|done..]. intros (Hm2 & Hp2 & Hcov2). split; [by etrans|].
      split; [done|]. by rewrite <- app_assoc in Hcov2. }
  assert (forall (w1 : worker) item, moved w w1 -> pf_file item = file -> pending_ok w1 item ->
    Forall (pending_ok w1) (pending ++ [item]) /\ covers w1 (done_ ++ [file]) (pending ++ [item])) as Hadd.
  { intros w1 item Hm1 Hfile Hi. split.
    - apply Forall_app. split; [|by apply Forall_singleton]. eapply Forall_impl; [exact Hp|].
      intros x. by apply pending_moved.
    - destruct (covers_moved _ _ _ _ Hm1 Hcov) as [Hall Hlist].
      split; [intros f [Hf| ->%list_elem_of_singleton]%elem_of_app|].
      + destruct (Hall f Hf) as [(x & Hx & Hxf)|?]; [left|by right].
        exists x. split; [|done]. apply elem_of_app. by left.
      + left. exists item. split; [|done]. apply elem_of_app. right. by left.
      + intros x [Hx| ->%list_elem_of_singleton]%elem_of_app; apply elem_of_app; [left; by apply Hlist|right].
        rewrite Hfile. by left. }
  apply wp_bind, wp_keeps; [apply keeps_runActive|done|].
  intros [[]|e] w1 _ Hr1 Hm1; cbn [negb]; [|by split|done].
  apply wp_bind. eapply wp_mono; [apply try_reuse_wp; [done|by apply (catalog_ok_moved w)]|].
  intros [[item|]|e] w2 Hr2 [Hm2 Hit]; [| |done].
  { destruct Hit as [Hfile Hok]. assert (moved w w2) as Hm02 by by etrans.
    destruct (Hadd w2 item Hm02 Hfile Hok). by apply Hnext. }
  assert (moved w w2) as Hm02 by by etrans.
  apply wp_bind, wp_attempt. eapply wp_mono;
    [apply file_attempts_wp; [done|by apply (mv_builder _ _ Hm02)]|].
  intros [[item|]|e] w3 Hr3 Hatt.
  - destruct Hatt as (Hm3 & Hfile & content & Hto & Hh & Hdel). assert (moved w w3) as Hm03 by by etrans.
    destruct (Hadd w3 item Hm03 Hfile) as [HP HC]; [|by apply Hnext].
    exists content. split; [done|]. split; [done|]. left. by rewrite Hfile.
  - assert (moved w w3) as Hm03 by by etrans. apply wp_bind. apply wp_keeps.
    { apply keeps_set_stats. intros s. cbn. lia. }
    { done. }
    intros [[]|e] w4 E4 Hr4 Hm4; [|done]. assert (moved w w4) as Hm04 by by etrans.
    apply Hnext; [done|done| |].
    + eapply Forall_impl; [exact Hp|]. intros x. by apply pending_moved.
    + split; [intros f _; right; injection E4 as <-; cbn; pose proof (mv_unstable _ _ Hm03); lia|].
      intros x Hx. apply elem_of_app. left. by apply Hcov.
  - apply wp_bind, wp_keeps; [apply keeps_finishOrFail|done|]. intros [[]|e'] w4 _ Hr4 Hm4; by try split.
Qed.

(** ** The items of the snapshot *)

(** After the last flush every reference leads to a stored block. *)
Lemma resolve_stored w ref data :
  builder_ok (wk_db w) (wk_target w) (wk_builder w) -> pb_pending (wk_builder w) = ∅ ->
  ref_ok w ref data -> stored (wk_db w) (wk_target w) (resolveBlockID (wk_builder w) ref) data.
Proof.
  intros Hb Hp [Hk [Hs|[-> Hr]]]; unfold resolveBlockID, catalogBlockID.
  - destruct (pb_ids (wk_builder w) !! ref) as [id|] eqn:E; [|done]. exfalso.
    destruct (bo_ids _ _ _ Hb _ _ E) as (data' & _ & Hkey). pose proof Hs as (Hlen & _).
    rewrite <- Hkey, hash_key_length, sha256_length in Hlen. lia.
  - destruct Hr as [Hr|[id E]]; [rewrite Hp in Hr; by apply elem_of_empty in Hr|].
    rewrite E. cbn [default]. destruct (bo_ids _ _ _ Hb _ _ E) as (data' & Hs & Hkey).
    apply (stored_same _ _ _ data'); [done|done|]. by apply hash_key_inj.
Qed.

Lemma resolved_refs w refs content :
  builder_ok (wk_db w) (wk_target w) (wk_builder w) -> pb_pending (wk_builder w) = ∅ ->
  refs_to w refs content -> exists datas,
    Forall2 (stored (wk_db w) (wk_target w)) (map (resolveBlockID (wk_builder w)) refs) datas
    /\ concat datas = content.
Proof.
  intros Hb Hp (datas & Hf & Hc). exists datas. split; [|done].
  clear Hc. induction Hf; cbn; constructor; [by apply resolve_stored|done].
Qed.

(** The content of a file of the snapshot is what was delivered or taken over. *)
Definition sourced (w : worker) (files : list scannedFile) (it : snapshot_item) (content : bytes) : Prop :=
  (exists file, file ∈ files /\ sf_relativePath file = it_path it /\ sf_size file = it_size it /\ delivered w file content)
  \/ exists mtime, taken_over (it_path it) (it_size it) mtime content.

Definition snapshot_ok (w : worker) (sid : string) (files : list scannedFile) : Prop := forall i it n,
  items (wk_db w) !! i = Some it -> it_snapshot it = sid -> it_is_dir it = false ->
  job_snapshot jobID (wk_db w) sid n ->
  exists content, backed (wk_db w) (wk_target w) i content
    /\ intact sha256 it content /\ sourced w files it content.

(** Every scanned file is listed, unless one was left out. *)
Definition complete (w : worker) (sid : string) (files : list scannedFile) : Prop :=
  forall f n, f ∈ files -> job_snapshot jobID (wk_db w) sid n ->
    rs_unstableFiles (wk_stats w) <= 0 ->
    exists i it, items (wk_db w) !! i = Some it /\ it_snapshot it = sid /\ it_is_dir it = false
      /\ it_path it = sf_relativePath f /\ it_size it = sf_size f.

(** The snapshot has no items yet. *)
Definition empty_snapshot (w : worker) (sid : string) : Prop := forall i it n,
  items (wk_db w) !! i = Some it -> it_snapshot it = sid -> job_snapshot jobID (wk_db w) sid n -> False.

Lemma empty_moved w w' sid : moved w w' -> empty_snapshot w sid -> empty_snapshot w' sid.
Proof.
  intros Hm He i it n Hi Hs Hn. rewrite <- Hs in Hn.
  destruct (lt_item _ _ _ _ _ _ _ _ _ (mv_later _ _ Hm) i it n Hi Hn) as (Hi0 & _ & n0 & Hn0 & _).
  rewrite Hs in Hn0. by apply (He i it n0).
Qed.

Lemma complete_moved w w' sid files : moved w w' -> complete w sid files -> complete w' sid files.
Proof.
  intros Hm Hc f n Hf Hn Hu. destruct (mv_kept _ _ Hm sid n Hn) as [[n0 Hn0] Hk].
  pose proof (mv_unstable _ _ Hm). destruct (Hc f n0 Hf Hn0) as (i & it & Hi & Hs & Hrest); [lia|].
  exists i, it. split; [by apply Hk|done].
Qed.

Lemma snapshot_moved w w' sid files : moved w w' -> snapshot_ok w sid files -> snapshot_ok w' sid files.
Proof.
  intros Hm Hok i it n Hi Hs Hdir Hn. rewrite <- Hs in Hn.
  destruct (lt_item _ _ _ _ _ _ _ _ _ (mv_later _ _ Hm) i it n Hi Hn) as (Hi0 & Hk & n0 & Hn0 & _).
  rewrite Hs in Hn0. destruct (Hok i it n0 Hi0 Hs Hdir Hn0) as (content & Hb & Hin & Hso).
  exists content. split; [|split; [done|]].
  - apply (backed_links _ _ _ _ (wk_db w) _ (wk_target w)); [done| |done].
    apply (lt_stored _ _ _ _ _ _ _ _ _ (mv_later _ _ Hm)).
  - destruct Hso as [(file & H0 & H1 & H2 & H3)|?]; [left|by right]. exists file. split_and!; try done.
    by apply (mv_delivered _ _ Hm).
Qed.

Lemma batch_items_backed w dirs pending :
  builder_ok (wk_db w) (wk_target w) (wk_builder w) -> pb_pending (wk_builder w) = ∅ ->
  Forall (pending_ok w) pending ->
  Forall (batch_backed sha256 known contents jobID (wk_db w) (wk_target w))
    (batch_items (wk_builder w) dirs pending).
Proof.
  intros Hb Hp Hok. apply Forall_app. split.
  - apply Forall_fmap, Forall_true. intros dir. unfold batch_backed. cbn. done.
  - apply Forall_fmap. eapply Forall_impl; [exact Hok|]. intros item (content & Hto & Hh & _) _.
    destruct (resolved_refs w _ _ Hb Hp Hto) as (datas & Hf & Hc). exists datas. split; [done|].
    cbn. by rewrite Hh, Hc.
Qed.

Lemma write_items_wp w sid dirs pending files :
  repository (wk_db w) (wk_target w) -> builder_ok (wk_db w) (wk_target w) (wk_builder w) ->
  pb_pending (wk_builder w) = ∅ -> Forall (pending_ok w) pending -> covers w files pending ->
  empty_snapshot w sid ->
  wp (write_items other fault now uuid sid (batch_items (wk_builder w) dirs pending)) w
    (fun r w' => match r with Ok _ => snapshot_ok w' sid files /\ complete w' sid files | Err _ => True end).
Proof.
  intros Hr Hb Hp Hok Hcov He. unfold write_items. apply wp_db; [done|done|].
  intros d1 _ Hf1 Hr1 Hm1. pose proof (mv_builder _ _ Hm1 Hb) as Hb1.
  assert (Forall (pending_ok (after_db w d1)) pending) as Hok1.
  { eapply Forall_impl; [exact Hok|]. intros item. by apply pending_moved. }
  pose proof (batch_items_backed (after_db w d1) dirs pending Hb1 Hp Hok1) as Hbb.
  cbn [wk_db wk_target wk_builder after_db] in Hbb.
  destruct (BatchCreateBackupSnapshotItemsAndBlocksContext _ _ _ _) as [d2|] eqn:Eb; [|by split].
  pose proof (batch_repository _ _ _ _ _ _ _ _ _ _ _ _ Hr1 Hbb Eb) as Hr2.
  split; [exact Hr2|]. pose proof (batch_spec _ _ _ _ _ Eb (rp_fk _ _ _ _ _ _ _ _ Hr1))
    as (_ & Es & Epk & Ebl & Hold & Hinv & Hnew).
  pose proof (empty_moved _ _ _ Hm1 He) as He1.
  assert (forall n, job_snapshot jobID d2 sid n -> job_snapshot jobID d1 sid n) as Hsn
    by (intros n; unfold job_snapshot; by rewrite Es).
  split.
  - intros i it n Hi Hs Hdir Hn. cbn in Hi, Hn. destruct (Hinv i it Hi) as [Hi0|(k & b & Hk & -> & ->)].
    { exfalso. exact (He1 i it n Hi0 Hs (Hsn n Hn)). }
    destruct (Hnew k b Hk) as (Hi2 & Hck & Hlinks). cbn in Hdir.
    apply list_elem_of_lookup_2, elem_of_app in Hk as [Hk|Hk].
    { apply list_elem_of_fmap in Hk as (dir & -> & _). done. }
    apply list_elem_of_fmap in Hk as (item & -> & Hitem). rewrite Forall_forall in Hok1.
    destruct (Hok1 item Hitem) as (content & Hto & Hh & Ho). exists content.
    destruct (resolved_refs (after_db w d1) _ _ Hb1 Hp Hto) as (datas & Hf & Hc). split; [|split].
    + exists (map (resolveBlockID (wk_builder w)) (pf_blockIDs item)), datas.
      split; [exact Hlinks|]. split; [|done]. eapply Forall2_impl; [exact Hf|].
      intros id data. by apply stored_same_catalog.
    + split; [cbn; by rewrite Hh|]. unfold item_check in Hck. cbn in Hck |- *.
      apply andb_true_iff in Hck as [? _]. lia.
    + destruct Ho as [Ho|Ho]; [left; exists (pf_file item); by split; [apply Hcov|]|right; by eexists].
  - intros f n Hf Hn Hu. cbn in Hn, Hu. destruct (proj1 Hcov f Hf) as [(item & Hitem & <-)|?]; [|lia].
    assert (file_item (wk_builder w) item ∈ batch_items (wk_builder w) dirs pending) as Hin.
    { apply elem_of_app. right. apply list_elem_of_fmap. by exists item. }
    apply list_elem_of_lookup in Hin as [k Hk]. destruct (Hnew k _ Hk) as (Hi & _).
    eexists _, _. split; [exact Hi|]. by split_and!.
Qed.

(** ** The transfer *)

Lemma draft_wp w roots :
  repository (wk_db w) (wk_target w) ->
  wp (create_draft other fault now uuid jobID runID roots) w
    (fun r w' => later (wk_db w) (wk_target w) (wk_db w') (wk_target w')
       /\ rs_unstableFiles (wk_stats w') = rs_unstableFiles (wk_stats w)
       /\ match r with Ok sid => empty_snapshot w' sid | Err _ => True end).
Proof.
  intros Hr. unfold create_draft. apply wp_db; [done| |].
  { intros d1 e _ Hm. split; [apply Hm|done]. }
  intros d1 _ Hf1 Hr1 Hm1. unfold CreateBackupSnapshotDraftContext. set (sid := uuid (wk_clock w) O).
  destruct (_ || _) eqn:Ec; [split; [done|]; split; [apply Hm1|done]|].
  repeat (apply orb_false_iff in Ec as [Ec ?]). apply bool_decide_eq_false, eq_None_not_Some in Ec.
  set (row := mkSnapshot _ _ _ _ _ _ _).
  assert (forall i it, items d1 !! i = Some it -> it_snapshot it <> sid) as Hfree.
  { intros i it Hi E. destruct (fk_items _ (rp_fk _ _ _ _ _ _ _ _ Hr1) i it Hi) as [n Hn]. congruence. }
  assert (forall i it n, items d1 !! i = Some it ->
    job_snapshot jobID (set_snapshots (insert sid row) d1) (it_snapshot it) n ->
    job_snapshot jobID d1 (it_snapshot it) n) as Hdown.
  { intros i it n Hi [Hn HJ]. split; [|done]. cbn in Hn.
    rewrite lookup_insert_ne in Hn; [done|]. intros E. by apply (Hfree i it Hi). }
  split; [|split; [|split; [done|]]].
  - destruct Hr1 as [[F1 F2 F3] R2 R3 RU RP R4]. split; try done.
    + split; [|exact F2|exact F3]. intros i it Hi. cbn. rewrite lookup_insert_ne; [by apply (F1 i)|].
      intros E. by apply (Hfree i it Hi).
    + intros pid p Hp. destruct (R2 pid p Hp) as [es [P1 P2 P3 P4 P5]]. by exists es.
    + intros i it n Hi Hn. by apply (R4 i it n Hi), (Hdown i).
  - eapply later_trans; [apply Hm1|]. split; [done|]. intros i it n Hi Hn.
    split; [done|]. split; [done|]. exists n. split; [by apply (Hdown i)|done].
  - intros i it n Hi Hs _. by apply (Hfree i it Hi).
Qed.

Lemma claim_transition_keeps code e n :
  keeps (claim_step (S := S) (T := T) other fault now uuid jobID runID generation code
           (TransitionBackupRunContext jobID generation runID e n)).
Proof. apply keeps_claim_step. intros x d. apply transition_frame. Qed.

Lemma new_builder_ok d t : builder_ok d t newPackBuilder.
Proof.
  split; [by apply Forall_nil|by apply Forall_nil| |by intros k id Hid; cbn in Hid; rewrite lookup_empty in Hid].
  intros k. split; [by intros ?%elem_of_empty|]. by intros (e & ?%elem_of_nil & _).
Qed.

(** What the transfer hands to the conclusion. *)
Definition drafted (files : list scannedFile) (r : res run_error (option string)) (w : worker) : Prop :=
  match r with
  | Ok (Some sid) => snapshot_ok w sid files /\ complete w sid files
  | _ => True
  end.

Lemma ended {X} (m : M X) w files :
  keeps m -> repository (wk_db w) (wk_target w) ->
  wp (let* _ := m in ret (@None string))%worker w (drafted files).
Proof. intros Hm Hr. apply wp_bind, wp_keeps; [done|done|]. intros [x|e] w' _ Hr' _; by split. Qed.

Lemma keeps_count pending : keeps (set_stats (count_processed pending)).
Proof.
  apply keeps_set_stats. intros s. unfold count_processed. revert s.
  induction pending as [|p l IH]; intros s; cbn; [lia|]. etrans; [|apply IH]. cbn. lia.
Qed.


(** Programs that leave the builder alone. *)
Definition quiet {X} (m : M X) : Prop := forall w, wk_builder (m w).2 = wk_builder w.

Lemma quiet_bind {X Y} (m : M X) (k : X -> M Y) : quiet m -> (forall x, quiet (k x)) -> quiet (bind m k).
Proof.
  intros Hm Hk w. unfold bind. specialize (Hm w). destruct (m w) as [[x|e] w1]; cbn in *; [|done].
  by rewrite Hk.
Qed.

Lemma quiet_attempt {X} (m : M X) : quiet m -> quiet (attempt m).
Proof. intros Hm w. unfold attempt. specialize (Hm w). by destruct (m w). Qed.

Lemma quiet_db {X} (f : Z -> (nat -> string) -> backup_db -> res run_error X * backup_db) :
  quiet (db_call f).
Proof. intros w. unfold BackupWriter.db_call. by destruct (match fault _ with Some _ => _ | None => _ end). Qed.

Lemma quiet_runActive sid :
  quiet (runActive (S := S) (T := T) other fault now uuid jobID runID generation sid).
Proof.
  apply quiet_bind; [apply quiet_attempt, quiet_db|]. intros [[]|e]; [done| |].
  - apply quiet_bind; [apply quiet_attempt, quiet_db|done].
  - apply quiet_bind; [|done]. apply quiet_bind; [done|]. intros s.
    apply quiet_bind; [apply quiet_attempt, quiet_db|done].
Qed.

(** A check that the run is still active goes before every step. *)
Lemma wp_active {X} (sid : string) (k : M X) x w (Q : res run_error X -> worker -> Prop) :
  repository (wk_db w) (wk_target w) ->
  (forall w', repository (wk_db w') (wk_target w') -> moved w w' -> wk_builder w' = wk_builder w -> wp k w' Q) ->
  (forall w', Q (Ok x) w') -> (forall e w', Q (Err e) w') ->
  wp (let* active := runActive (S := S) (T := T) other fault now uuid jobID runID generation sid in
      if negb active then ret x else k)%worker w Q.
Proof.
  intros Hr Hk Hx He. apply wp_bind, wp_keeps; [apply keeps_runActive|done|].
  intros [[]|e] w1 E1 Hr1 Hm1; cbn [negb]; [|by split|done]. apply Hk; [done|done|].
  pose proof (quiet_runActive sid w) as Hq. by rewrite E1 in Hq.
Qed.

Lemma store_items_wp w sid dirs pending files :
  repository (wk_db w) (wk_target w) -> builder_ok (wk_db w) (wk_target w) (wk_builder w) ->
  Forall (pending_ok w) pending -> covers w files pending -> empty_snapshot w sid ->
  wp (store_items sha256 target other fault now uuid jobID runID generation repositoryRoot
        sid dirs pending) w (drafted files).
Proof.
  intros Hr Hb Hok Hcov He. unfold store_items.
  apply wp_active; [done| |done|done]. intros w1 Hr1 Hm1 _.
  apply wp_bind, wp_attempt. eapply wp_mono; [by apply flush_wp, (mv_builder _ _ Hm1)|].
  intros [[]|e] w2 Hr2; [intros (Hm2 & Hp & _)|intros _].
  2: { apply ended; [apply keeps_finishOrFail|done]. }
  apply wp_active; [done| |done|done]. intros w3 Hr3 Hm3 E3.
  apply wp_bind. split; [done|]. apply wp_bind, wp_keeps; [apply keeps_count|done|].
  intros [[]|e] w4 E4 Hr4 Hm4; [|done].
  assert (wk_builder w4 = wk_builder w3) as Eb by by injection E4 as <-.
  assert (moved w w4) as Hm by (do 3 (etrans; [done|]); done). rewrite <- Eb.
  apply wp_bind, wp_attempt. eapply wp_mono.
  { apply (write_items_wp w4 sid dirs pending files); [done|by apply (mv_builder _ _ Hm)| | | |].
    - by rewrite Eb, E3.
    - eapply Forall_impl; [exact Hok|]. intros item. by apply pending_moved.
    - by apply (covers_moved w).
    - by apply (empty_moved w). }
  intros [[]|e] w5 Hr5.
  - by intros [Hs Hc].
  - intros _. apply ended; [apply keeps_finishOrFail|done].
Qed.

Lemma transfer_wp w setup files dirs :
  repository (wk_db w) (wk_target w) -> later d0 t0 (wk_db w) (wk_target w) ->
  0 <= rs_unstableFiles (wk_stats w) ->
  wp (transfer sha256 source target other fault now uuid jobID runID generation repositoryRoot
        setup files dirs) w (drafted files).
Proof.
  intros Hr Hl Hu. unfold transfer. apply wp_bind, wp_keeps; [apply claim_transition_keeps|done|].
  intros [[]|e] w1 _ Hr1 Hm1; cbn [negb]; [|by split|done].
  apply wp_bind, wp_keeps; [apply keeps_set_state|done|]. intros [[]|e] w2 _ Hr2 Hm2; [|done].
  apply wp_bind, wp_attempt. eapply wp_mono; [by apply draft_wp|].
  intros [sid|e] w3 Hr3 (Hl3 & Hu3 & He); [|apply ended; [apply keeps_fail|done]].
  assert (later d0 t0 (wk_db w3) (wk_target w3)) as Hl03.
  { eapply later_trans; [|exact Hl3]. eapply later_trans; [|apply Hm2].
    eapply later_trans; [exact Hl|apply Hm1]. }
  apply wp_bind, wp_attempt. eapply wp_mono; [by apply load_catalog_wp|].
  intros [catalog|e] w4 Hr4 Hcat; [|apply ended; [apply keeps_fail|done]].
  destruct Hcat as [Hm4 Hcat]. apply wp_bind. split; [done|].
  set (w5 := mkWorker _ _ _ _ newPackBuilder _ _ _).
  pose proof (empty_moved _ _ _ Hm4 He) as He5.
  apply wp_bind. eapply wp_mono.
  { apply (file_loop_wp sid catalog files w5 [] []); try done.
    - apply new_builder_ok.
    - split; by intros f ?%elem_of_nil.
    - cbn. pose proof (mv_unstable _ _ Hm4). pose proof (mv_unstable _ _ Hm1). pose proof (mv_unstable _ _ Hm2). lia. }
  intros [[pending|]|e] w6 Hr6; [|by split|done]. intros (Hm6 & Hp6 & Hcov6).
  apply store_items_wp; try done.
  - apply (mv_builder _ _ Hm6), new_builder_ok.
  - by apply (empty_moved w5).
Qed.

(** ** Verification and publication *)

Lemma guarded_wp code (m : M unit) w (Q : worker -> Prop) :
  wp m w (fun r w' => match r with Ok _ => Q w' | Err _ => True end) ->
  wp (guarded (S := S) (T := T) other fault now uuid jobID runID generation code m) w
    (fun r w' => match r with Ok true => Q w' | _ => True end).
Proof.
  intros Hw. apply wp_bind, wp_attempt. eapply wp_mono; [exact Hw|].
  intros [[]|e] w1 Hr1 HQ; [by split|].
  apply wp_bind, wp_keeps; [apply keeps_fail|done|]. by intros [[]|?] w2 _ Hr2 _.
Qed.

Lemma guarded_keeps code (m : M unit) :
  keeps m -> keeps (guarded (S := S) (T := T) other fault now uuid jobID runID generation code m).
Proof.
  intros Hm. apply keeps_bind; [by apply keeps_attempt|]. intros [[]|e]; [auto with keeps|].
  apply keeps_bind; [apply keeps_fail|auto with keeps].
Qed.

Lemma check_pack_keeps pack : keeps (check_pack (S := S) sha256 target pack).
Proof.
  unfold check_pack. destruct (_ || _); [exact (keeps_lift (Ok _))|].
  apply keeps_bind; [apply keeps_attempt, keeps_target; intros t q; apply law_exists|].
  intros [[[] n]|e]; [|exact (keeps_lift (Ok _))..].
  destruct (negb _); [exact (keeps_lift (Ok _))|].
  apply keeps_bind; [apply keeps_attempt, keeps_target; intros t q; apply law_download|].
  intros [[stream [ce|]]|e]; [| |exact (keeps_lift (Ok _))];
    destruct (ValidatePack _ _ _ _ _); exact (keeps_lift (Ok _)).
Qed.

(** Marking a damaged pack keeps the invariant, though files may be lost. *)
Lemma markPackDamaged_wp packID w :
  repository (wk_db w) (wk_target w) ->
  wp (markPackDamaged (S := S) (T := T) other fault now uuid jobID packID) w (fun _ _ => True).
Proof.
  intros Hr. apply wp_bind, wp_attempt, wp_db; [done|by split|].
  intros d1 _ Hf1 Hr1 Hm1. assert (repository (MarkBackupPackDamagedContext jobID packID d1) (wk_target w)).
  { by apply damaged_keeps. }
  by split.
Qed.

Lemma verify_loop_wp packs : forall w remaining checked,
  repository (wk_db w) (wk_target w) ->
  wp (verify_loop sha256 target other fault now uuid jobID packs remaining checked) w
    (fun r w' => match r with Ok _ => moved w w' | Err _ => True end).
Proof.
  induction packs as [|[packID pack] packs IH]; intros w remaining checked Hr; cbn [verify_loop]; [by split|].
  destruct (_ <? _); [by apply IH|].
  apply wp_bind, wp_keeps; [apply check_pack_keeps|done|].
  intros [[[]|e]|e] w1 _ Hr1 Hm1; [| |done].
  - destruct (_ =? _); [by split|]. eapply wp_mono; [by apply IH|].
    intros [l|e] w2 _; [|done]. intros Hm2. by etrans.
  - apply wp_bind. eapply wp_mono; [by apply markPackDamaged_wp|]. by intros [[]|?] w2 Hr2 _.
Qed.

Lemma verifySnapshotSample_wp sid w :
  repository (wk_db w) (wk_target w) ->
  wp (verifySnapshotSample sha256 target other fault now uuid sample jobID sid) w
    (fun r w' => match r with Ok _ => moved w w' | Err _ => True end).
Proof.
  intros Hr. apply wp_bind, wp_keeps; [auto with keeps|done|].
  intros [packs|e] w1 _ Hr1 Hm1; [|done]. destruct packs as [|p packs]; [by split|].
  apply wp_bind. split; [done|]. apply wp_bind. eapply wp_mono; [by apply verify_loop_wp|].
  intros [checked|e] w2 Hr2 Hm2; [|done]. apply wp_db; [done|done|].
  intros d1 _ Hf1 Hr1' Hm3.
  destruct (checked_keeps sha256 known contents jobID repositoryRoot (Some runID) d1 (wk_target w2) checked
    (now (wk_clock w2)) Hr1') as (Hr4 & Hl & Hk & Hu).
  split; [done|]. assert (moved w w2) as Hm by by etrans. etrans; [exact Hm|]. etrans; [exact Hm3|].
  split; cbn; [done|done| |done|done|lia]. intros [B1 B2 B3 B4]. split; [done| |done|].
  - eapply Forall_impl; [exact B2|]. intros e. apply Hu.
  - intros k id Hk'. destruct (B4 k id Hk') as (data & Hs & He). exists data. split; [|done].
    by apply (lt_stored _ _ _ _ _ _ _ _ _ Hl).
Qed.

Lemma published_row gid sid s f st t mid n d d' :
  PublishBackupSnapshotAndFinalizeContext jobID generation gid sid s f st t mid n d = (true, d') ->
  exists row, job_snapshot jobID d' sid row /\ sn_state row = s.
Proof.
  unfold PublishBackupSnapshotAndFinalizeContext.
  destruct (update_row_spec sid (is_draft jobID gid)
    (fun n => mkSnapshot (sn_job n) (sn_run n) s (sn_roots n) st VALID (sn_created n)) (snapshots d))
    as [(r & Hr & Hd & ->)|[-> _]]; cbn [negb]; [|done].
  destruct (move_run _ _ _ _ _ _ _) as [ok d1] eqn:E.
  apply move_run_tables in E as (E1 & E2 & E3 & E4 & E5).
  destruct (_ || _); [done|]. intros [= <-].
  match goal with |- context [createBackupNotificationEventTx _ ?x] =>
    destruct (notify_tables gid x) as (N1 & _) end.
  unfold job_snapshot. rewrite N1. cbn. rewrite lookup_insert_eq.
  eexists. split; [split; [done|]|done]. cbn. unfold is_draft in Hd.
  apply andb_true_iff in Hd as [Hd _]. apply andb_true_iff in Hd as [Hd _].
  by apply String.eqb_eq.
Qed.

(** The snapshot has been published: complete, or partial. *)
Definition published (w : worker) (sid : string) (files : list scannedFile) : Prop :=
  snapshot_ok w sid files /\ complete w sid files
  /\ exists n, job_snapshot jobID (wk_db w) sid n
     /\ sn_state n = (if 0 <? rs_unstableFiles (wk_stats w) then PARTIAL else READY).

Lemma publish_wp w sid files :
  repository (wk_db w) (wk_target w) -> drafted files (Ok (Some sid)) w ->
  wp (publish other fault now uuid jobID runID generation sid (wk_stats w)) w
    (fun r w' => match r with Ok true => published w' sid files | _ => True end).
Proof.
  intros Hr [Hs Hc]. apply wp_bind, wp_attempt, wp_db; [done| |].
  { intros d1 e Hr1 _. apply wp_bind, wp_keeps; [apply keeps_fail|done|]. by intros [[]|?] w2 _ Hr2 _. }
  intros d1 _ Hf1 Hr1 Hm1. set (state := if negb _ then READY else PARTIAL).
  match goal with |- context [PublishBackupSnapshotAndFinalizeContext ?a ?b ?c ?e ?s ?f ?st ?t ?m ?x ?y] =>
    pose proof (publish_frame jobID (Some runID) a b c e s f st t m x y) as Hf2;
    pose proof (published_row c e s f st t m x y) as Hrow;
    destruct (PublishBackupSnapshotAndFinalizeContext a b c e s f st t m x y) as [ok d2] eqn:Ep
  end. cbn [snd] in Hf2.
  assert (framed jobID (Some runID) d1 d2) as Hf.
  { apply Hf2; [unfold state, visible; destruct (negb _); set_solver|done|apply (rp_fk _ _ _ _ _ _ _ _ Hr1)]. }
  pose proof (repository_frame _ _ _ _ _ _ _ _ _ Hr1 Hf) as Hr2. split; [exact Hr2|].
  destruct ok.
  - assert (moved w (after_db w d2)) as Hm by (apply moved_framed; by eapply framed_trans).
    split; [done|]. split; [by apply (snapshot_moved w)|]. split; [by apply (complete_moved w)|].
    destruct (Hrow d2 eq_refl) as (n & Hn & Hstate). exists n. split; [exact Hn|].
    rewrite Hstate. unfold state. cbn. by destruct (0 <? _).
  - apply wp_bind, wp_keeps; [apply keeps_fail|done|]. by intros [[]|?] w2 _ Hr3 _.
Qed.

Lemma drafted_moved w w' sid files :
  moved w w' -> drafted files (Ok (Some sid)) w -> drafted files (Ok (Some sid)) w'.
Proof.
  intros Hm [Hs Hc]. split; [by apply (snapshot_moved w)|by apply (complete_moved w)].
Qed.

Lemma conclude_wp w sid files :
  repository (wk_db w) (wk_target w) -> drafted files (Ok (Some sid)) w ->
  wp (conclude sha256 target other fault now uuid sample jobID runID generation sid) w
    (fun r w' => match r with Ok true => published w' sid files | _ => True end).
Proof.
  intros Hr Hd. apply wp_active; [done| |done|done]. intros w1 Hr1 Hm1 _.
  apply wp_bind, wp_keeps; [apply claim_transition_keeps|done|].
  intros [[]|e] w2 _ Hr2 Hm2; cbn [negb]; [|by split|done].
  apply wp_bind, wp_keeps; [apply keeps_set_state|done|]. intros [[]|e] w3 _ Hr3 Hm3; [|done].
  apply wp_bind. eapply wp_mono.
  { apply guarded_wp. by apply verifySnapshotSample_wp. }
  intros [[]|e] w4 Hr4; [|by split|done]. cbv beta. intros Hm4. cbn [negb].
  apply wp_bind. split; [done|]. apply publish_wp; [done|].
  apply (drafted_moved w); [|done]. do 3 (etrans; [done|]). done.
Qed.

(** ** Before the scan *)

Lemma keeps_dedicated dir rid : keeps (ensureDedicatedTarget (S := S) target dir rid).
Proof.
  assert (forall p, keeps (target_call (S := S) (tgt_Listing target p))) as Hl.
  { intros p. apply keeps_target. intros t q. apply law_listing. }
  apply keeps_bind; [apply Hl|]. intros [|e more]; [auto with keeps|].
  apply keeps_bind; [auto with keeps|]. intros container.
  destruct (_ || _); [auto with keeps|]. apply keeps_bind; [apply keeps_attempt, Hl|].
  intros [[|x [|y l]]|err]; auto with keeps.
  destruct (repositoryPath _ _); [|auto with keeps]. destruct (_ && _); auto with keeps.
Qed.

Lemma keeps_format_upload p data n :
  repositoryPath repositoryRoot ["format-v1.json"] = Ok p ->
  keeps (target_call (S := S) (tgt_Upload target p data n)).
Proof.
  intros Hp w Hr. unfold wp, target_call.
  assert (packs_kept contents jobID (wk_db w) (wk_target w) (tgt_Upload target p data n (wk_target w)).2) as Hk.
  { intros pid row Hrd. apply law_upload. destruct (rp_packs _ _ _ _ _ _ _ _ Hr pid row Hrd) as [es [Hpath _ _ _ _]].
    intros E. exact (format_path_not_pack _ _ _ _ Hpath Hp (eq_sym E)). }
  destruct (tgt_Upload target p data n (wk_target w)) as [r t].
  split; [by apply (repository_target _ _ _ _ _ _ _ (wk_target w))|by apply moved_target].
Qed.

Lemma keeps_lift_bind {X Y} (r : res run_error X) (k : X -> M Y) :
  (forall x, r = Ok x -> keeps (k x)) -> keeps (bind (lift r) k).
Proof.
  intros Hk w Hr. apply wp_bind. split; [done|]. destruct r as [x|e]; [by apply Hk|done].
Qed.

Lemma keeps_format rid : keeps (ensureFormat (S := S) target repositoryRoot rid).
Proof.
  apply keeps_lift_bind. intros p Hp.
  apply keeps_bind; [apply keeps_target; intros t q; apply law_exists|]. intros [found n]. cbn [fst snd].
  destruct (negb found).
  - apply keeps_bind; [apply keeps_target; intros t q; apply law_parents|]. intros _.
    by apply keeps_format_upload.
  - destruct (negb _); [auto with keeps|].
    apply keeps_bind; [apply keeps_target; intros t q; apply law_download|]. intros content.
    destruct (bool_decide _); auto with keeps.
Qed.

Lemma keeps_prepare setup :
  keeps (prepare (S := S) target other fault now uuid jobID runID generation repositoryRoot setup).
Proof.
  assert (forall code, keeps (let* _ := fail other fault now uuid jobID runID generation code in
    ret (@None string))%worker) as Hf.
  { intros code. apply keeps_bind; [apply keeps_fail|auto with keeps]. }
  unfold prepare. destruct (_ || _); [apply Hf|].
  apply keeps_bind; [apply guarded_keeps; auto with keeps|]. intros []; cbn [negb]; [|auto with keeps].
  apply keeps_bind; [apply guarded_keeps, keeps_dedicated|]. intros []; cbn [negb]; [|auto with keeps].
  apply keeps_bind; [apply guarded_keeps, keeps_format|]. intros []; cbn [negb]; [|auto with keeps].
  destruct (su_sameConnection setup); [auto with keeps|apply Hf].
Qed.

(** ** The whole run *)

Lemma after_scan_wp w setup r :
  repository (wk_db w) (wk_target w) -> later d0 t0 (wk_db w) (wk_target w) ->
  wp (after_scan sha256 source target other fault now uuid sample jobID runID generation
        repositoryRoot setup r) w
    (fun result w' => match result, r with
                      | Ok (Some sid), Ok (files, _) => published w' sid files
                      | Ok (Some _), Err _ => False
                      | _, _ => True
                      end).
Proof.
  intros Hr Hl. destruct r as [[files dirs]|e]; cbn [after_scan].
  2: { apply wp_bind, wp_keeps; [apply keeps_finishOrFail|done|]. by intros [[]|?] w1 _ Hr1 _. }
  apply wp_bind. split; [done|]. set (w1 := mkWorker _ _ _ _ _ (scan_stats files dirs) _ _).
  apply wp_bind. eapply wp_mono; [by apply (transfer_wp w1)|].
  intros [[sid|]|e] w2 Hr2 Hd; [|by split|done].
  apply wp_bind. eapply wp_mono; [by apply conclude_wp|].
  by intros [[]|e] w3 Hr3 Hp.
Qed.

(** What the scan of the run found. *)
Definition scanned (setup : run_setup) (files : list scannedFile) : Prop :=
  exists excluded s dirs s',
    scanFiles source (su_fuel setup) (su_selectedPaths setup) excluded s = Some (Ok (files, dirs), s').

Lemma execute_spec w setup r w' :
  wk_db w = d0 -> wk_target w = t0 ->
  execute sha256 source target other fault now uuid sample jobID runID generation repositoryRoot
    setup w = Some (r, w') ->
  repository (wk_db w') (wk_target w')
  /\ forall sid, r = Ok (Some sid) -> exists files, scanned setup files /\ published w' sid files.
Proof.
  intros Ed Et. assert (repository (wk_db w) (wk_target w)) as Hr by by rewrite Ed, Et.
  unfold execute. pose proof (keeps_prepare setup w Hr) as Hp. unfold wp in Hp.
  destruct (prepare _ _ _ _ _ _ _ _ _ setup w) as [[[excluded|]|e] w1]; destruct Hp as [Hr1 Hm1];
    [|by intros [= <- <-]..].
  unfold scan_source. destruct (scanFiles _ _ _ _ _) as [[sr s]|] eqn:Es; [|done].
  set (w2 := mkWorker _ s _ _ _ _ _ _).
  pose proof (after_scan_wp w2 setup sr Hr1) as Ha. unfold wp in Ha. intros [= E]. rewrite E in Ha.
  destruct Ha as [Hr' Hq].
  { cbn. rewrite <- Ed, <- Et. apply Hm1. }
  split; [done|]. intros sid ->. destruct sr as [[files dirs]|e]; [|done].
  exists files. split; [by exists excluded, (wk_source w1), dirs, s|done].
Qed.
End Run.

(** ** What a run achieves *)

(** The restore of an item writes the content, whole and in order, and accepts it
    exactly when it has the size recorded for the item. *)
Definition comes_back (d : backup_db) (t : T) (i : string) (it : snapshot_item) (content : bytes) : Prop :=
  (restore_item sha256 contents jobID d t i it).1 = mkOutput content content (zlen content)
  /\ ((restore_item sha256 contents jobID d t i it).2 = None <-> it_size it = zlen content).

(** The restore of the item is accepted. *)
Definition accepted (d : backup_db) (t : T) (i : string) (it : snapshot_item) : Prop :=
  (restore_item sha256 contents jobID d t i it).2 = None.

Lemma backed_comes_back d t i it content :
  backed d t i content -> intact sha256 it content -> comes_back d t i it content.
Proof.
  intros Hb Hin. unfold comes_back.
  assert (restore_item sha256 contents jobID d t i it = restored it content) as ->
    by (by apply (restore_backed sha256 sha256_length known)). unfold restored.
  split; [done|]. cbn [snd]. destruct (Z.eqb_spec (it_size it) (zlen content)) as [E|E]; by split.
Qed.

(** Every file of every snapshot that is visible, or about to be. *)
Definition live_file (d : backup_db) (i : string) (it : snapshot_item) : Prop :=
  exists n, items d !! i = Some it /\ job_snapshot jobID d (it_snapshot it) n
    /\ live (Some runID) n = true /\ it_is_dir it = false.

Definition restorable (w : worker) : Prop := forall i it, live_file (wk_db w) i it ->
  exists content, it_sha256 it = Some (sha256 content) /\ comes_back (wk_db w) (wk_target w) i it content.

Lemma repository_restorable w : repository (wk_db w) (wk_target w) -> restorable w.
Proof.
  intros Hr i it (n & Hi & Hn & Hl & Hd). destruct (rp_items _ _ _ _ _ _ _ _ Hr i it n Hi Hn Hl Hd) as (c & Hb & Hin).
  exists c. split; [apply Hin|]. by apply backed_comes_back.
Qed.

(** The downloads of the run delivered as many bytes as the scan had listed. *)
Definition full_downloads (files : list scannedFile) (w : worker) : Prop := forall file content,
  file ∈ files -> delivered w file content -> zlen content = sf_size file.

(** C18: A run keeps a sound repository sound: started on a repository in which every
    READY pack is on the target as it was written and every file of a live snapshot is
    backed by its blocks ([repository]; retention that was cut short leaves one that is
    not), whatever the source, the target and the other workers do, whichever
    statements fail and wherever the run stops - in the preparation, the scan, a file,
    a flush, the catalog, the verification or the publication - it leaves such a
    repository.  Of every file of every snapshot that is visible, or about to be, a
    restore writes content with the digest recorded for the file, and accepts it
    exactly when it has the recorded size: a file whose download was shorter or longer
    than listed is kept as delivered, and refused. *)
Theorem run_keeps_repository w setup r w' :
  repository (wk_db w) (wk_target w) ->
  execute sha256 source target other fault now uuid sample jobID runID generation repositoryRoot
    setup w = Some (r, w') ->
  repository (wk_db w') (wk_target w') /\ restorable w'.
Proof.
  intros Hr He. destruct (execute_spec _ _ Hr w setup r w' eq_refl eq_refl He) as [Hr' _].
  split; [done|]. by apply repository_restorable.
Qed.

End Sound.

(** ** A run *)

(** Files of one byte are backed up to a store of objects; the hash of the example
    tells apart byte strings of different lengths. *)
Definition ex_hash (l : bytes) : bytes := be_put 32 (zlen l).
Definition ex_known (l : bytes) : Prop := l = [x41].

Definition ex_resource (path : string) : CloudResource := mkResource path "f" 1 false "" "" 7.
Definition ex_source : backup_source unit := mkSource unit
  (fun path s => (Ok (ex_resource path), s))
  (fun _ s => (Ok [], s))
  (fun _ s => (Ok (mkDownload [x41] AtEOF None), s)).

Definition ex_target : backup_target (gmap string bytes) := mkTarget _
  (fun _ t => (Ok [], t))
  (fun _ t => (Ok tt, t))
  (fun path data _ t => (Ok tt, <[ path := data ]> t))
  (fun path t => (Ok (match t !! path with Some c => (true, zlen c) | None => (false, 0) end), t))
  (fun path t => (match t !! path with Some c => Ok (c, None) | None => Err (ErrRun "not found") end, t))
  (fun path t => (Ok tt, delete path t)).

Definition ex_contents (t : gmap string bytes) (path : string) : option bytes := t !! path.

#[local] Instance ex_laws : TargetLaws ex_target ex_contents.
Proof.
  split; try done.
  - intros p data n t q Hne. apply lookup_insert_ne. congruence.
  - intros p t q Hne. apply lookup_delete_ne. congruence.
  - intros p t n. cbn. unfold ex_contents. destruct (t !! p) as [c|]; [|done].
    intros [= <-]. by exists c.
  - intros p t data e. cbn. unfold ex_contents. destruct (t !! p) as [c|]; [|done].
    intros [= <- _]. exists []. by rewrite app_nil_r.
Qed.

#[local] Instance ex_space : GoSpace := Build_GoSpace (fun s => s).

Definition ex_uuid (n i : nat) : string :=
  String (ascii_of_nat n) (String (ascii_of_nat i) "3456789012345678901234567890123456").

Definition ex_db : backup_db :=
  mkBackupDb {[ "b" := mkBackupJob "u" BSCANNING 1 NotDeleting None no_totals None ]}
    {[ "r" := mkBackupRun "b" 1 Manual None RSCANNING no_totals None 0 0 ]} ∅ ∅ ∅ ∅ ∅ ∅ ∅ ∅ ∅ [].

Definition ex_setup : run_setup :=
  mkSetup ["/a"; "/b"] "/backup" "id" true (Ok tt) (Ok false) 5.

Definition ex_start : worker unit (gmap string bytes) :=
  mkWorker ex_db tt ∅ 0 newPackBuilder no_stats RSCANNING [].

(** The run under failing statements. *)
Definition ex_run (fault : nat -> option run_error)
    : option (res run_error (option string) * worker unit (gmap string bytes)) :=
  execute ex_hash ex_source ex_target (fun _ d => d) fault
    (fun n => Z.of_nat n) ex_uuid (fun _ => 0) "b" "r" 1 "/backup/.clumoove-backup/id" ex_setup ex_start.

Definition ex_root : string := "/backup/.clumoove-backup/id".

Lemma ex_hash_length l : length (ex_hash l) = 32%nat.
Proof. apply be_put_length. Qed.

Lemma ex_packs es es' p p' stream stream' :
  EncodePack ex_hash es = Ok (p, stream) -> EncodePack ex_hash es' = Ok (p', stream') ->
  Forall (fun e => ex_known (e_Data e)) es -> Forall (fun e => ex_known (e_Data e)) es' ->
  ex_hash stream = ex_hash stream' -> stream = stream'.
Proof.
  intros He He' Hk Hk' Hh.
  pose proof (encode_size ex_hash ex_hash_length _ _ _ He) as Hz.
  pose proof (encode_size ex_hash ex_hash_length _ _ _ He') as Hz'.
  pose proof He as (_ & Hv & Hm & _ & Ep)%encode_ok. pose proof He' as (_ & Hv' & Hm' & _ & Ep')%encode_ok.
  assert (forall es, Forall (valid_entry ex_hash) es -> Forall (fun e => ex_known (e_Data e)) es ->
    es = replicate (length es) (mkEntry (ex_hash [x41]) [x41]) /\ payload_size es = 37 * zlen es) as Hall.
  { clear. intros es Hv Hk. induction Hv as [|[h d] es [_ Hs] Hv IH]; [done|].
    apply Forall_cons in Hk as [Hd Hk]. unfold ex_known in Hd. cbn in Hd, Hs. subst d h.
    destruct (IH Hk) as [E1 E2]. split; [cbn; by f_equal|].
    rewrite payload_size_cons, E2. unfold zlen. cbn [length].
    change (entry_size _) with 37. lia. }
  destruct (Hall es Hv Hk) as [E1 E2]. destruct (Hall es' Hv' Hk') as [E1' E2'].
  apply (f_equal be_get) in Hh. unfold ex_hash in Hh. rewrite !be_get_put in Hh.
  assert (forall z, 0 <= z <= MaxPackSize -> z mod 256 ^ Z.of_nat 32 = z) as Hmod.
  { intros z Hz0. apply Z.mod_small. change (256 ^ Z.of_nat 32) with (2 ^ 256). unfold MaxPackSize in Hz0.
    assert (2 ^ 27 < 2 ^ 256) by (vm_compute; reflexivity). lia. }
  rewrite Ep in Hz. rewrite Ep' in Hz'. cbn [p_Size] in Hz, Hz'.
  unfold zlen in *. rewrite !Hmod in Hh by lia. unfold zlen in *.
  assert (es = es') as <-; [|congruence].
  etrans; [exact E1|]. etrans; [|exact (eq_sym E1')]. f_equal. lia.
Qed.

Lemma ex_blocks path s d s' es :
  src_Download ex_source path s = (Ok d, s') -> blocks_of ex_hash (dl_data d) es ->
  Forall (fun e => ex_known (e_Data e)) es.
Proof.
  intros [= <- <-]. cbn. intros Hb. remember [x41] as l eqn:El. destruct Hb as [|l Hl|b l es Hb _].
  - done.
  - by repeat constructor.
  - exfalso. apply (f_equal zlen) in El. rewrite zlen_app, Hb in El. unfold zlen, BlockSize in El. cbn in El. lia.
Qed.

Lemma ex_repository : repository ex_hash ex_known ex_contents "b" ex_root (Some "r") ex_db ∅.
Proof. split; [split|..]; intros *; cbn; try done. by intros (? & _). Qed.

Lemma ex_frame (n : nat) d : frame "b" (Some "r") d d.
Proof. by apply frame_same. Qed.

Lemma ex_owner (n : nat) (d : backup_db) id r r' :
  snapshots d !! id = Some r -> snapshots d !! id = Some r' -> sn_job r' = sn_job r.
Proof. congruence. Qed.

(** Every statement from the eighth on fails: the run stops within its first file. *)
Definition ex_crash (n : nat) : option run_error := if (n <? 8)%nat then None else Some (ErrRun "down").

Lemma run_keeps_repository_witness :
  match ex_run ex_crash with
  | Some (_, w') => repository ex_hash ex_known ex_contents "b" ex_root (Some "r") (wk_db w') (wk_target w')
      /\ restorable ex_hash ex_contents "b" "r" w'
  | None => False
  end.
Proof.
  destruct (ex_run ex_crash) as [[r w']|] eqn:E.
  - apply (run_keeps_repository ex_hash ex_hash_length ex_source ex_target ex_contents "b" "r" 1 ex_root
      (fun _ d => d) ex_crash ex_frame ex_owner (fun n => Z.of_nat n) ex_uuid (fun _ => 0)
      (fun _ _ => eq_refl) ex_known (fun x y Hx Hy _ => eq_trans Hx (eq_sym Hy)) ex_packs ex_blocks
      ex_start ex_setup r w'); [apply ex_repository|exact E].
  - assert (match ex_run ex_crash with Some _ => true | None => false end = true) as Hs
      by (vm_compute; reflexivity).
    rewrite E in Hs. discriminate Hs.
Defined.


(** ** A download that ends early *)

(** The source lists two bytes and its download breaks off after one. *)
Definition short_source : backup_source unit := mkSource unit
  (fun path s => (Ok (mkResource path "f" 2 false "" "" 7), s))
  (fun _ s => (Ok [], s))
  (fun _ s => (Ok (mkDownload [x41] Truncated None), s)).

Definition short_run : option (res run_error (option string) * worker unit (gmap string bytes)) :=
  execute ex_hash short_source ex_target (fun _ d => d) (fun _ => None)
    (fun n => Z.of_nat n) ex_uuid (fun _ => 0) "b" "r" 1 ex_root ex_setup ex_start.

(** The run publishes a READY snapshot none of whose files a restore accepts. *)
Example short_download_published :
  match short_run with
  | Some (Ok (Some sid), w') =>
      option_map sn_state (snapshots (wk_db w') !! sid) = Some READY
      /\ map (fun '(i, it) => (it_path it, it_size it,
                (restore_item ex_hash ex_contents "b" (wk_db w') (wk_target w') i it).2))
           (map_to_list (items (wk_db w')))
         = map (fun p => (p, 2, Some (ErrRepositoryCorrupt "reconstructed file size mismatch"))) ["b"; "a"]
  | _ => False
  end.
Proof. vm_compute. done. Qed.
