(* ===== verification/BackupKeeper.v ===== *)
(** * Maintenance of a backup repository: the coordinator

    The part of src/backend/internal/backup/coordinator.go that claims maintenance
    work and carries it out under the advisory lock of the job: retention,
    compaction of one pack, verification and deletion of the repository.  Like the
    worker of BackupWriter.v it is a state and error program over the target and the
    statements of BackupMaintenance.v, with other transactions before every statement
    and any statement failing.  The construction of the provider and the permits for
    pack buffers are left out. *)

From S2P Require Import Prelude GoPath HashString Storage Tables Bytes BackupRepo Ranges RestoreReader.
From S2P Require Import BackupDb BackupRuns BackupCatalog BackupMaintenance BackupScan BackupWriter.

Definition errVerifyMoreWork : run_error := ErrRun "repository check has more bounded work".

(** The validation errors that wrap the end of the stream. *)
Definition isRetryableVerifyReadError (e : string) : bool :=
  bool_decide (e ∈ ["read pack prefix"; "read pack entry or footer"; "read block hash";
                    "read block length"; "read block payload"; "read pack footer"]).

Definition maxVerifyClaimBytes : Z := 536870912.

Section Keeper.
Context `{GoSpace} (sha256 : bytes -> bytes).
Context {S T : Type} (target : backup_target T).
Context (other : nat -> backup_db -> backup_db) (fault : nat -> option run_error).
Context (now : nat -> Z) (uuid : nat -> nat -> string).

(** Whether the ten minutes of a check have passed. *)
Context (late : nat -> bool).
Context (jobID repositoryRoot workerID : string).

Abbreviation M := (@M S T).
Abbreviation db_call := (@db_call S T other fault now uuid).

(** A statement whose failure is ignored. *)
Definition quietly (f : Z -> backup_db -> backup_db) : M unit :=
  let* _ := attempt (db_call (fun now _ d => (Ok tt, f now d))) in ret tt.

Definition statement (f : Z -> backup_db -> backup_db) : M unit :=
  db_call (fun now _ d => (Ok tt, f now d)).

Definition query {X} (f : backup_db -> X) : M X := db_call (fun _ _ d => (Ok (f d), d)).

(** A transaction that may be refused. *)
Definition transaction (msg : string) (f : Z -> (nat -> string) -> backup_db -> option backup_db) : M unit :=
  db_call (fun now newID d => match f now newID d with
                              | Some d => (Ok tt, d)
                              | None => (Err (ErrRun msg), d)
                              end).

Definition deleteRemotePack (pack : pack_row) : M unit :=
  let* found := target_call (tgt_FileExists target (pk_path pack)) in
  if found.1 then target_call (tgt_Delete target (pk_path pack)) else ret tt.

Definition mark_deleted (packID : string) : M unit :=
  transaction "backup pack is pinned by an active restore"
    (fun _ _ d => MarkBackupPackDeletedContext jobID packID d).

Fixpoint delete_packs (l : list (string * pack_row)) : M unit :=
  match l with
  | [] => ret tt
  | (packID, pack) :: l =>
      let* _ := deleteRemotePack pack in
      let* _ := mark_deleted packID in
      delete_packs l
  end.

Definition enqueue_work (kind : maintenance_kind) : M unit :=
  transaction "insert backup maintenance"
    (fun now newID d => EnqueueBackupMaintenanceContext jobID kind (newID O) now d).

(** ** Retention *)

Definition packLimit : nat := Z.to_nat 1000.

Definition applyRetention (keep : nat) : M unit :=
  let* _ := statement (fun _ d => ExpireBackupSnapshotsContext jobID keep d) in
  let* packs := query (ListBackupReclaimablePacksContext jobID packLimit) in
  let* _ := delete_packs packs in
  if zlen packs =? 1000 then enqueue_work RETENTION
  else
    let* candidate := query (FindBackupCompactionCandidateContext jobID) in
    match candidate with
    | Some _ => enqueue_work COMPACTION
    | None => ret tt
    end.

(** ** Compaction *)

(** [live] of the code: the last row of a hash counts. *)
Definition live_map (l : list BackupLiveBlock) : gmap string BackupLiveBlock :=
  fold_left (fun m b => <[ hash_key (lb_Hash b) := b ]> m) l ∅.

Definition keep_live (live : gmap string BackupLiveBlock) (acc : list Entry * list string) (_ : Z)
    (entry : Entry) : res string (list Entry * list string) :=
  match live !! hash_key (e_Hash entry) with
  | Some b =>
      if negb (lb_Size b =? zlen (e_Data entry)) then Err "backup live block size mismatch"
      else Ok (acc.1 ++ [entry], acc.2 ++ [lb_ID b])
  | None => Ok acc
  end.

(** The live entries of the pack, with the blocks they are. *)
Definition read_live (pack : pack_row) (liveBlocks : list BackupLiveBlock)
    : M (list Entry * list string) :=
  let* reader := target_call (tgt_Download target (pk_path pack)) in
  if negb (zlen (pk_sha256 pack) =? 32) then throw (ErrRun "invalid compacted pack hash")
  else match ValidatePack sha256 (keep_live (live_map liveBlocks)) reader.1 (pk_sha256 pack) ([], []) with
  | Ok (_, (entries, blockIDs)) =>
      if negb (zlen entries =? zlen liveBlocks)
      then throw (ErrRun "backup compaction source pack validation failed")
      else ret (entries, blockIDs)
  | Err _ => throw (ErrRun "backup compaction source pack validation failed")
  end.

(** The replacement is on the target as it was written. *)
Definition confirm_replacement (remotePath : string) (replacement : Pack) : M unit :=
  let* found := attempt (target_call (tgt_FileExists target remotePath)) in
  match found with
  | Ok (true, size) =>
      if negb (size =? p_Size replacement)
      then throw (ErrRun "replacement backup pack size confirmation failed")
      else
        let* verified := target_call (tgt_Download target remotePath) in
        match ValidatePack sha256 discard_entry verified.1 (p_ID replacement) tt, verified.2 with
        | Err e, _ => throw (ErrRun e)
        | Ok _, Some e => throw e
        | Ok _, None => ret tt
        end
  | _ => throw (ErrRun "replacement backup pack size confirmation failed")
  end.

(** The locators of the replacement, read off the bytes that were written. *)
Definition replacement_locators (entries : list Entry) (encoded : bytes) (replacement : Pack)
    : res run_error (list BackupPackBlock) :=
  match ValidatePack sha256 (confirm_entry entries) encoded (p_ID replacement) ([], O) with
  | Ok (_, (locators, entryIndex)) =>
      if negb (entryIndex =? length entries)%nat
      then Err (ErrRun "replacement backup pack validation failed") else Ok locators
  | Err _ => Err (ErrRun "replacement backup pack validation failed")
  end.

Definition replace_pack (packID : string) (entries : list Entry) (blockIDs : list string) : M unit :=
  match EncodePack sha256 entries with
  | Err e => throw (ErrRun e)
  | Ok (replacement, encoded) =>
      let* remotePath := lift (pack_path repositoryRoot (p_ID replacement)) in
      let* _ := target_call (tgt_CreateParents target remotePath) in
      let* _ := target_call (tgt_Upload target remotePath encoded (p_Size replacement)) in
      let* _ := confirm_replacement remotePath replacement in
      let* locators := lift (replacement_locators entries encoded replacement) in
      transaction "backup block changed during compaction" (fun now newID d =>
        ReplaceBackupPackLocatorsContext jobID packID remotePath (p_ID replacement)
          (p_Size replacement) locators blockIDs (newID O) now d)
  end.

Definition compactOnePack : M unit :=
  let* candidate := query (FindBackupCompactionCandidateContext jobID) in
  match candidate with
  | None => ret tt
  | Some (packID, pack) =>
      let* liveBlocks := query (ListBackupLiveBlocksContext jobID packID) in
      let* read := read_live pack liveBlocks in
      let* _ := replace_pack packID read.1 read.2 in
      let* _ := deleteRemotePack pack in
      let* _ := mark_deleted packID in
      let* next := query (FindBackupCompactionCandidateContext jobID) in
      match next with
      | Some _ => enqueue_work COMPACTION
      | None => ret tt
      end
  end.

(** ** Deletion of the repository *)

Definition deleteRepository (maintenanceID : string) : M unit :=
  let* packs := query (ListBackupPacksForDeletionContext jobID packLimit) in
  let* _ := delete_packs packs in
  if zlen packs =? 1000
  then statement (RetryBackupMaintenanceContext maintenanceID "")
  else
    let* formatPath := lift (repositoryPath repositoryRoot ["format-v1.json"]) in
    let* found := target_call (tgt_FileExists target formatPath) in
    let* _ := if found.1 then target_call (tgt_Delete target formatPath) else ret tt in
    let* deleted := db_call (fun _ _ d =>
      let '(r, d) := DeleteBackupJobAfterRepositoryCleanupContext jobID d in
      (match r with Ok ok => Ok ok | Err e => Err (ErrRun e) end, d)) in
    if deleted : bool then ret tt else throw (ErrRun "backup repository cleanup did not finalize").

(** ** Verification *)

Record check_budget := mkBudget { ck_mode : verify_mode; ck_limit : Z; ck_claim : Z; ck_total : Z }.

Definition reads_pack (b : check_budget) : bool :=
  match ck_mode b with
  | FULL => true
  | BUDGETED => ck_total b <? ck_limit b
  | METADATA => false
  end.

Definition complete_target (targetID : string) (exists_ : bool) (expected actual epoch : Z)
    : M target_state :=
  db_call (fun _ _ d =>
    let '(s, d) := CompleteBackupVerifyTargetContext targetID exists_ expected actual epoch d in (Ok s, d)).

Definition release_target (targetID : string) (epoch : Z) : M unit :=
  quietly (fun _ => ReleaseBackupVerifyTargetClaimContext targetID epoch).

(** A pack that was read without fault counts against both budgets. *)
Definition spend (n : Z) (b : check_budget) : check_budget :=
  mkBudget (ck_mode b) (ck_limit b) (ck_claim b + n) (ck_total b + n).

Definition record_read (maintenanceID targetID : string) (t : verify_target) (size : Z) : M target_state :=
  let* _ := statement (fun _ => AddBackupVerifyProcessedBytesContext maintenanceID (vt_size t)) in
  let* _ := statement (fun _ => MarkBackupVerifyTargetReadContext targetID (vt_size t) (vt_epoch t)) in
  let* _ := match vt_pack t with
            | Some packID => statement (MarkBackupPacksCheckedContext jobID [packID])
            | None => ret tt
            end in
  complete_target targetID true (vt_size t) size (vt_epoch t).

(** The whole pack is read. *)
Definition read_target (maintenanceID targetID : string) (t : verify_target) (size : Z) (b : check_budget)
    : M (target_state * check_budget) :=
  if (0 <? ck_claim b) && (maxVerifyClaimBytes <? ck_claim b + vt_size t)
  then let* _ := release_target targetID (vt_epoch t) in throw errVerifyMoreWork
  else
    let* reader := attempt (target_call (tgt_Download target (vt_path t))) in
    match reader with
    | Err e => let* _ := release_target targetID (vt_epoch t) in throw e
    | Ok (stream, _) =>
        if negb (zlen (vt_sha256 t) =? 32) then throw (ErrRun "invalid backup verify pack hash")
        else match ValidatePack sha256 discard_entry stream (vt_sha256 t) tt with
        | Err e =>
            if isRetryableVerifyReadError e
            then let* _ := release_target targetID (vt_epoch t) in throw (ErrRun e)
            else
              let* _ := statement (fun _ => MarkBackupVerifyTargetDamagedContext targetID (vt_epoch t)) in
              ret (TDAMAGED, b)
        | Ok _ =>
            let* s := record_read maintenanceID targetID t size in ret (s, spend (vt_size t) b)
        end
    end.

(** One target: what it turned out to be. *)
Definition verify_one (maintenanceID targetID : string) (t : verify_target) (b : check_budget)
    : M (target_state * check_budget) :=
  let* found := attempt (target_call (tgt_FileExists target (vt_path t))) in
  match found with
  | Err e => let* _ := release_target targetID (vt_epoch t) in throw e
  | Ok (exists_, size) =>
      if negb exists_ || negb (size =? vt_size t)
      then let* s := complete_target targetID exists_ (vt_size t) size (vt_epoch t) in ret (s, b)
      else if reads_pack b then read_target maintenanceID targetID t size b
      else let* s := complete_target targetID true (vt_size t) size (vt_epoch t) in ret (s, b)
  end.

(** After a target: a bad pack is marked, the lease renewed. *)
Definition settle_target (maintenanceID : string) (t : verify_target) (s : target_state) : M unit :=
  let* _ := match s, vt_pack t with
            | TCOMPLETED, _ => ret tt
            | _, Some packID => statement (fun _ => MarkBackupPackDamagedContext jobID packID)
            | _, None => ret tt
            end in
  statement (AdvanceBackupVerifyCursorContext maintenanceID).

(** [false]: the check is being cancelled. *)
Fixpoint check_loop (fuel : nat) (maintenanceID : string) (b : check_budget) : M bool :=
  match fuel with
  | O => throw errVerifyMoreWork
  | Datatypes.S fuel =>
      let* claimed := db_call (fun now _ d =>
        let '(r, d) := ClaimNextBackupVerifyTargetContext maintenanceID workerID now d in (Ok r, d)) in
      match claimed with
      | None => ret true
      | Some (targetID, t) =>
          let* n := get wk_clock in
          if late n
          then let* _ := release_target targetID (vt_epoch t) in throw errVerifyMoreWork
          else
            let* cancelling := query (IsBackupMaintenanceCancellingContext maintenanceID) in
            if cancelling : bool then let* _ := release_target targetID (vt_epoch t) in ret false
            else
              let* r := verify_one maintenanceID targetID t b in
              let* _ := settle_target maintenanceID t r.1 in
              check_loop fuel maintenanceID r.2
      end
  end.

Definition verifyRepositoryMetadata (fuel : nat) (maintenanceID : string) (m : maintenance_row) : M unit :=
  match mt_mode m with
  | None => throw (ErrRun "invalid repository check mode")
  | Some mode =>
      let* _ := transaction "snapshot verify targets" (fun _ newID d =>
                  SnapshotBackupVerifyTargetsContext maintenanceID jobID newID d) in
      let* all := check_loop fuel maintenanceID
                    (mkBudget mode (default 0 (mt_budget m)) 0 (mt_processed m)) in
      if all : bool
      then transaction "repository check changed during finalization"
             (fun _ _ d => CompleteBackupVerifyContext maintenanceID d)
      else ret tt
  end.

(** ** One claim *)

(** Whether the provider could be connected, and how many snapshots the job keeps. *)
Definition executeMaintenance (fuel keep : nat) (connected : res run_error unit)
    (maintenanceID : string) (m : maintenance_row) : M unit :=
  let* _ := lift connected in
  match mt_kind m with
  | RETENTION => applyRetention keep
  | COMPACTION => compactOnePack
  | DELETE_REPOSITORY => deleteRepository maintenanceID
  | VERIFY => verifyRepositoryMetadata fuel maintenanceID m
  end.

(** From the claim on, with the advisory lock of the job held. *)
Definition runMaintenance (fuel keep : nat) (connected : res run_error unit)
    (maintenanceID : string) (m : maintenance_row) : M unit :=
  let* r := attempt (executeMaintenance fuel keep connected maintenanceID m) in
  match r with
  | Err e =>
      if bool_decide (e = errVerifyMoreWork)
      then statement (RetryBackupMaintenanceContext maintenanceID "BACKUP_VERIFY_CONTINUING")
      else quietly (RetryBackupMaintenanceContext maintenanceID "BACKUP_MAINTENANCE_FAILED")
  | Ok _ =>
      transaction "complete backup maintenance"
        (fun _ _ d => CompleteBackupMaintenanceContext maintenanceID d)
  end.
End Keeper.
