(* ===== verification/BackupUpkeep.v ===== *)
(** * What maintenance does to the repository

    The statements of BackupMaintenance.v against the invariant of BackupStore.v:
    taking a pack without live blocks out of the catalog, moving the live blocks of
    a pack to its replacement, and removing the catalog of a deleted job.  While a
    dead pack is being deleted its file may be gone before the catalog knows;
    [holds] is the invariant that allows for that. *)

From S2P Require Import Prelude GoPath HashString Storage Tables Bytes BackupRepo Ranges RestoreReader.
From S2P Require Import BackupDb BackupRuns BackupCatalog BackupMaintenance BackupScan BackupWriter.
From S2P Require Import BackupFrame BackupStore BackupKeeper.

(** ** Prefixes of packs *)

Section Prefixes.
Context (sha256 : bytes -> bytes).
Hypothesis sha256_length : forall l, length (sha256 l) = 32%nat.

Lemma ztake_app_ge {A} n (l1 l2 : list A) : n <= zlen l1 -> ztake n (l1 ++ l2) = ztake n l1.
Proof. intros Hn. rewrite !ztake_take. apply take_app_le. unfold zlen in Hn. lia. Qed.

Lemma encode_entry_head e rest :
  valid_entry sha256 e -> ztake 8 (encode_entry e ++ rest) = ztake 8 (e_Hash e).
Proof.
  intros Hv. pose proof (hash_length sha256 sha256_length e Hv) as Hh.
  unfold encode_entry. rewrite <- !app_assoc. apply ztake_app_ge. lia.
Qed.

Lemma footer_head n m rest : ztake 8 (pack_footer n m ++ rest) = footerMagic.
Proof. unfold pack_footer. rewrite <- !app_assoc. by rewrite ztake_app. Qed.

Lemma entry_length_pos e : valid_entry sha256 e -> 36 <= zlen (encode_entry e).
Proof.
  intros Hv. rewrite (encode_entry_length sha256 sha256_length) by done. apply entry_size_pos.
Qed.

Lemma entries_prefix es : forall es' n n' m m' rest,
  Forall (valid_entry sha256) es -> Forall (valid_entry sha256) es' ->
  Forall not_footer es -> Forall not_footer es' ->
  concat (map encode_entry es') ++ pack_footer n' m' ++ rest
  = concat (map encode_entry es) ++ pack_footer n m -> es' = es.
Proof.
  induction es as [|e es IH]; intros [|e' es'] n n' m m' rest Hv Hv' Hn Hn' H; [done|..]; cbn [map concat] in H.
  - exfalso. apply Forall_cons in Hv' as [Hv' _]. apply (f_equal zlen) in H.
    rewrite app_nil_l, !zlen_app, !footer_length in H. pose proof (entry_length_pos e' Hv').
    pose proof (zlen_nonneg (concat (map encode_entry es'))).
    pose proof (zlen_nonneg rest). lia.
  - exfalso. apply Forall_cons in Hv as [Hv _]. apply Forall_cons in Hn as [Hn _]. apply Hn.
    rewrite app_nil_l in H. apply (f_equal (ztake 8)) in H.
    rewrite footer_head, <- app_assoc, encode_entry_head in H by done. done.
  - apply Forall_cons in Hv as [He Hv]. apply Forall_cons in Hv' as [He' Hv'].
    apply Forall_cons in Hn as [_ Hn]. apply Forall_cons in Hn' as [_ Hn'].
    rewrite <- !app_assoc in H.
    assert (forall x, valid_entry sha256 x -> 0 + entry_size x + packFooterSize <= MaxPackSize) as Hm.
    { intros x [Hx _]. unfold entry_size, sha256_Size, packFooterSize, MaxPackSize, BlockSize in *. lia. }
    pose proof (read_entry_encode sha256 sha256_length 0 e (concat (map encode_entry es) ++ pack_footer n m)
      He ltac:(done) (Hm e He)) as R.
    pose proof (read_entry_encode sha256 sha256_length 0 e'
      (concat (map encode_entry es') ++ pack_footer n' m' ++ rest) He' ltac:(done) (Hm e' He')) as R'.
    rewrite <- H, R' in R. injection R as -> Hc. f_equal. by apply (IH es' n n' m m' rest).
Qed.

(** A pack that is a prefix of a pack has its entries. *)
Lemma pack_prefix_entries es es' p p' stream stream' rest :
  EncodePack sha256 es = Ok (p, stream) -> EncodePack sha256 es' = Ok (p', stream') ->
  Forall not_footer es -> Forall not_footer es' -> stream = stream' ++ rest -> es' = es.
Proof.
  intros (_ & Hv & _ & Hs & _)%encode_ok (_ & Hv' & _ & Hs' & _)%encode_ok Hn Hn' E; [|done..].
  rewrite Hs, Hs', <- !app_assoc in E. apply app_inv_head, app_inv_head in E.
  by eapply entries_prefix; [..|symmetry; exact E].
Qed.
End Prefixes.

(** ** Live blocks *)

Lemma block_live_spec d b :
  block_live d b = true <->
  exists i k it n, item_blocks d !! (i, k) = Some b /\ items d !! i = Some it
    /\ snapshots d !! it_snapshot it = Some n /\ sn_state n ∈ visible.
Proof.
  unfold block_live. rewrite existsb_exists. split.
  - intros ([[i k] b'] & Hin & Hc). apply andb_true_iff in Hc as [->%String.eqb_eq Hc].
    destruct (items d !! i) as [it|] eqn:Ei; [|done].
    destruct (snapshots d !! it_snapshot it) as [n|] eqn:En; [|done].
    apply bool_decide_eq_true in Hc. exists i, k, it, n. split; [|done].
    by apply elem_of_map_to_list, list_elem_of_In.
  - intros (i & k & it & n & Hb & Hi & Hn & Hs). exists ((i, k), b).
    split; [by apply list_elem_of_In, elem_of_map_to_list|].
    rewrite String.eqb_refl, Hi, Hn. by apply bool_decide_eq_true.
Qed.

(** Fewer links from visible snapshots. *)
Record fewer (d d' : backup_db) : Prop := mkFewer {
  fw_links : forall x b, item_blocks d' !! x = Some b -> item_blocks d !! x = Some b;
  fw_items : forall i it, items d' !! i = Some it -> items d !! i = Some it;
  fw_visible : forall sid n', snapshots d' !! sid = Some n' -> sn_state n' ∈ visible ->
    exists n, snapshots d !! sid = Some n /\ sn_state n ∈ visible;
}.

Lemma fewer_same d d' :
  snapshots d' = snapshots d -> items d' = items d -> item_blocks d' = item_blocks d -> fewer d d'.
Proof. intros Hs Hi Hl. split; rewrite ?Hs, ?Hi, ?Hl; try done. intros sid n Hn Hv. by exists n. Qed.

Lemma fewer_live d d' b : fewer d d' -> block_live d b = false -> block_live d' b = false.
Proof.
  intros [Hl Hi Hv] Hd. apply not_true_iff_false. intros (i & k & it & n & Hb & Hit & Hn & Hs)%block_live_spec.
  destruct (Hv _ _ Hn Hs) as (n0 & Hn0 & Hs0). rewrite <- not_true_iff_false in Hd. apply Hd.
  apply block_live_spec. exists i, k, it, n0. auto.
Qed.

Section Upkeep.
Context (jobID : string).

(** No block of the pack is live. *)
Definition dead (d : backup_db) (pid : string) : Prop := forall id b,
  blocks d !! id = Some b -> bl_job b = jobID -> bl_pack b = pid -> block_live d id = false.

Lemma pack_live_dead d pid : pack_live d pid = false -> dead d pid.
Proof.
  intros Hp id b Hb _ Hpid. apply not_true_iff_false. intros Hl.
  enough (pack_live d pid = true) by congruence. unfold pack_live. apply existsb_exists.
  exists (id, b). split; [by apply list_elem_of_In, elem_of_map_to_list|].
  by rewrite Hpid, String.eqb_refl.
Qed.

Lemma fewer_dead d d' pid :
  fewer d d' -> (forall id b, blocks d' !! id = Some b -> bl_job b = jobID -> blocks d !! id = Some b) ->
  dead d pid -> dead d' pid.
Proof. intros Hf Hb Hd id b Hb' HJ Hp. apply (fewer_live d); [done|]. apply (Hd id b); auto. Qed.

Lemma expired_snapshot keep d id n' :
  snapshots (ExpireBackupSnapshotsContext jobID keep d) !! id = Some n' ->
  exists n, snapshots d !! id = Some n /\ sn_job n = sn_job n' /\ sn_run n = sn_run n'
    /\ (n' = n \/ sn_state n' = EXPIRED).
Proof.
  cbn. rewrite map_lookup_imap. destruct (snapshots d !! id) as [n|]; [|done]. cbn.
  intros [= <-]. exists n. split; [done|]. destruct (bool_decide _); auto.
Qed.

Lemma expire_frame J draft keep d : frame J draft d (ExpireBackupSnapshotsContext jobID keep d).
Proof.
  apply frame_snapshots; try done.
  - intros id n Hn. cbn. rewrite map_lookup_imap, Hn. done.
  - intros id n' [Hn' HJ]. apply expired_snapshot in Hn' as (n & Hn & EJ & Er & Hs).
    exists n. split; [by split; [|congruence]|]. destruct Hs as [->|Hs]; [done|].
    intros [Hl|[Hl _]]%live_spec; rewrite Hs in Hl; [|done]. unfold visible in Hl. set_solver.
Qed.

Lemma expire_fewer keep d : fewer d (ExpireBackupSnapshotsContext jobID keep d).
Proof.
  split; try done. intros sid n' Hn' Hv. apply expired_snapshot in Hn' as (n & Hn & _ & _ & Hs).
  exists n. split; [done|]. destruct Hs as [->|Hs]; [done|]. rewrite Hs in Hv. unfold visible in Hv. set_solver.
Qed.

Lemma damaged_fewer d packID : fewer d (MarkBackupPackDamagedContext jobID packID d).
Proof.
  unfold MarkBackupPackDamagedContext. destruct (jobs d !! jobID); [|by apply fewer_same].
  split; cbn; try done. intros sid n'. rewrite map_lookup_imap.
  destruct (snapshots d !! sid) as [n|] eqn:En; [|done]. cbn. intros [= <-]. destruct (_ && _).
  - cbn. intros Hv. unfold visible in Hv. set_solver.
  - intros Hv. by exists n.
Qed.

(** ** Taking a pack out of the catalog *)

(** A READY or DELETE_PENDING pack without live blocks is forgotten: the links of
    snapshots that are gone and the blocks no item has are dropped. *)
Record trimmed (d d' : backup_db) (packID : string) : Prop := mkTrimmed {
  tm_same : snapshots d' = snapshots d /\ items d' = items d;
  tm_links : forall x b, item_blocks d' !! x = Some b -> item_blocks d !! x = Some b;
  tm_kept : forall i it n k b, items d !! i = Some it -> snapshots d !! it_snapshot it = Some n ->
    sn_state n ∈ visible -> item_blocks d !! (i, k) = Some b -> item_blocks d' !! (i, k) = Some b;
  tm_blocks : forall id b, blocks d' !! id = Some b -> blocks d !! id = Some b;
  tm_others : forall id b, blocks d !! id = Some b -> bl_pack b <> packID -> blocks d' !! id = Some b;
  tm_down : forall pid p', packs d' !! pid = Some p' -> exists p, packs d !! pid = Some p
    /\ pk_job p' = pk_job p /\ pk_path p' = pk_path p /\ (pid <> packID -> p' = p);
  tm_up : forall pid p, packs d !! pid = Some p -> exists p', packs d' !! pid = Some p'
    /\ pk_job p' = pk_job p /\ pk_path p' = pk_path p /\ (pid <> packID -> p' = p);
  tm_gone : forall p, ~ ready jobID d' packID p;
}.

Lemma trimmed_fewer d d' packID : trimmed d d' packID -> fewer d d'.
Proof.
  intros Ht. destruct (tm_same _ _ _ Ht) as [Es Ei]. split; [apply (tm_links _ _ _ Ht)|by rewrite Ei|].
  rewrite Es. intros sid n Hn Hv. by exists n.
Qed.

Lemma trimmed_dead d d' packID pid : trimmed d d' packID -> dead d pid -> dead d' pid.
Proof.
  intros Ht. apply fewer_dead; [by eapply trimmed_fewer|]. intros id b Hb _. by apply (tm_blocks _ _ _ Ht).
Qed.

Lemma trimmed_ready d d' packID pid p :
  trimmed d d' packID -> ready jobID d' pid p <-> ready jobID d pid p /\ pid <> packID.
Proof.
  intros Ht. split.
  - intros Hr. assert (pid <> packID) as Hne by (intros ->; by apply (tm_gone _ _ _ Ht p)).
    split; [|done]. destruct Hr as (Hp & HJ & Hs).
    destruct (tm_down _ _ _ Ht _ _ Hp) as (p0 & Hp0 & _ & _ & E). by rewrite <- (E Hne) in Hp0.
  - intros [(Hp & HJ & Hs) Hne]. destruct (tm_up _ _ _ Ht _ _ Hp) as (p' & Hp' & _ & _ & E).
    by rewrite (E Hne) in Hp'.
Qed.

(** What the two statements that drop links and blocks do. *)
Lemma drop_trimmed packID d :
  let d' := drop_unlinked_blocks jobID packID (drop_dead_links jobID packID d) in
  (forall p, ~ ready jobID d packID p) -> trimmed d d' packID.
Proof.
  cbv zeta. intros Hg. split; cbn; try done.
  - intros x b [Hb _]%map_lookup_filter_Some. done.
  - intros i it n k b Hi Hn Hv Hb. apply map_lookup_filter_Some. split; [done|].
    unfold dead_link. rewrite Hi. destruct (blocks d !! b) as [r|]; [|done]. rewrite Hn.
    assert (snapshot_in [EXPIRED; DELETING] (sn_state n) = false) as ->; [|by rewrite andb_false_r].
    unfold snapshot_in. apply bool_decide_eq_false. destruct (sn_state n); unfold visible in Hv; set_solver.
  - intros id b [Hb _]%map_lookup_filter_Some. done.
  - intros id b Hb Hne. apply map_lookup_filter_Some. split; [done|].
    assert (String.eqb (bl_pack b) packID = false) as -> by by apply String.eqb_neq.
    by rewrite andb_false_r.
  - intros pid p Hp. by exists p.
  - intros pid p Hp. by exists p.
Qed.

(** ** The invariant while packs are being deleted *)

Context `{GoSpace} (sha256 : bytes -> bytes).
Hypothesis sha256_length : forall l, length (sha256 l) = 32%nat.
Context (known : bytes -> Prop).
Hypothesis collision_free : forall x y, known x -> known y -> sha256 x = sha256 y -> x = y.
Context (repositoryRoot : string).

(** The repository over what the files of the target ought to be. *)
Definition files : Type := string -> option bytes.
Definition file_contents (g : files) (path : string) : option bytes := g path.

Abbreviation sound := (repository sha256 known file_contents jobID repositoryRoot None).
Abbreviation sound_pack := (pack_sound sha256 known file_contents jobID repositoryRoot).
Abbreviation stored := (stored sha256 known file_contents jobID).

Lemma trimmed_stored d d' packID g id data i it n k :
  trimmed d d' packID -> dead d packID -> items d !! i = Some it ->
  snapshots d !! it_snapshot it = Some n -> sn_state n ∈ visible -> item_blocks d !! (i, k) = Some id ->
  stored d g id data -> stored d' g id data.
Proof.
  intros Ht Hd Hit Hn Hv Hl (Hlen & Hk & pid & p & x & Hx & Hr & Hrest).
  assert (pid <> packID) as Hne.
  { intros ->. assert (block_live d id = true) as Hlive by (apply block_live_spec; by exists i, k, it, n).
    by rewrite (Hd id _ Hx eq_refl eq_refl) in Hlive. }
  split; [done|]. split; [done|]. exists pid, p, x.
  split; [by apply (tm_others _ _ _ Ht)|]. split; [by apply (trimmed_ready d d' packID)|done].
Qed.

Lemma trimmed_sound d d' packID g :
  trimmed d d' packID -> dead d packID -> sound d g -> sound d' g.
Proof.
  intros Ht Hd [[F1 F2 F3] Hp Hb Hu Hup Hi]. destruct (tm_same _ _ _ Ht) as [Es Ei].
  split.
  - split.
    + rewrite Es, Ei. exact F1.
    + rewrite Ei. intros i n b Hl. by apply (F2 i n b), (tm_links _ _ _ Ht).
    + intros id b Hbl. apply (tm_blocks _ _ _ Ht) in Hbl. destruct (F3 id b Hbl) as (p & Hpk & HJ).
      destruct (tm_up _ _ _ Ht _ _ Hpk) as (p' & Hp' & E & _). exists p'. by rewrite E.
  - intros pid p [Hr Hne]%(trimmed_ready d d' packID); [|done].
    destruct (Hp pid p Hr) as [es [P1 P2 P3 P4 P5]]. exists es. split; try done.
    + intros x Hx. destruct (P4 x Hx) as [id Hid]. exists id. by apply (tm_others _ _ _ Ht).
    + intros id b Hbl. apply (P5 id b), (tm_blocks _ _ _ Ht), Hbl.
  - intros id b Hbl HJ. apply (tm_blocks _ _ _ Ht) in Hbl. destruct (Hb id b Hbl HJ) as (Hl & p & Hpk & HpJ).
    split; [done|]. destruct (tm_up _ _ _ Ht _ _ Hpk) as (p' & Hp' & E & _). exists p'. by rewrite E.
  - intros id id' b b' H1%(tm_blocks _ _ _ Ht) H2%(tm_blocks _ _ _ Ht). by apply (Hu id id' b b').
  - intros pid pid' p p' (q & Hq & -> & -> & _)%(tm_down _ _ _ Ht) (q' & Hq' & -> & -> & _)%(tm_down _ _ _ Ht).
    by apply (Hup pid pid' q q').
  - intros i it n. unfold job_snapshot. rewrite Es, Ei. intros Hit Hn Hl Hdir.
    destruct (Hi i it n Hit Hn Hl Hdir) as (content & (ids & datas & Hids & Hf & Hc) & Hin).
    exists content. split; [|done].
    apply live_spec in Hl as [Hv|[_ Hv]]; [|done]. destruct Hn as [Hn HJ].
    exists ids, datas. split; [|split; [|done]].
    + intros k. rewrite <- Hids. destruct (item_blocks d !! (i, k)) as [b|] eqn:Eb.
      * by apply (tm_kept _ _ _ Ht i it n).
      * destruct (item_blocks d' !! (i, k)) eqn:Eb'; [|done].
        apply (tm_links _ _ _ Ht) in Eb'. congruence.
    + apply Forall2_same_length_lookup. split; [by eapply Forall2_length|].
      intros k id data Hk Hdk. apply (trimmed_stored d d' packID g id data i it n k); try done; [by rewrite Hids|].
      by apply (Forall2_lookup_lr _ _ _ _ _ _ Hf Hk Hdk).
Qed.

(** Dead packs of the set may be missing from the target; every other READY pack is
    there. *)
Context {T : Type} (contents : T -> string -> option bytes).

Definition there (B : string -> Prop) (d : backup_db) (t : T) (g : files) : Prop := forall pid p,
  ready jobID d pid p -> contents t (pk_path p) = g (pk_path p)
    \/ (contents t (pk_path p) = None /\ dead d pid /\ B pid).

Definition holds (B : string -> Prop) (d : backup_db) (t : T) : Prop :=
  exists g, sound d g /\ there B d t g.

Lemma holds_mono (B B' : string -> Prop) d t : (forall pid, B pid -> B' pid) -> holds B d t -> holds B' d t.
Proof.
  intros HB (g & Hg & Ht). exists g. split; [done|]. intros pid p Hr.
  destruct (Ht pid p Hr) as [?|(? & ? & ?)]; auto.
Qed.

Lemma repository_files d t :
  repository sha256 known contents jobID repositoryRoot None d t <-> sound d (contents t).
Proof.
  split; intros [Hfk Hp Hb Hu Hup Hi]; (split; [done| |done..|done]).
  - intros pid p Hr. destruct (Hp pid p Hr) as [es [P1 P2 P3 P4 P5]]. by exists es.
  - intros pid p Hr. destruct (Hp pid p Hr) as [es [P1 P2 P3 P4 P5]]. by exists es.
Qed.

(** No pack is missing. *)
Lemma holds_repository d t :
  holds (fun _ => False) d t <-> repository sha256 known contents jobID repositoryRoot None d t.
Proof.
  split.
  - intros (g & Hg & Ht). apply repository_files.
    apply (repository_target _ _ _ _ _ _ _ g); [done|]. intros pid p Hr.
    destruct (Ht pid p Hr) as [E|(_ & _ & [])]. exact E.
  - intros Hr. exists (contents t). split; [by apply repository_files|]. by left.
Qed.

(** Every file of a visible snapshot is restored. *)
Lemma holds_items B d t i it n :
  holds B d t -> items d !! i = Some it -> job_snapshot jobID d (it_snapshot it) n ->
  sn_state n ∈ visible -> it_is_dir it = false ->
  exists content, backed sha256 known contents jobID d t i content /\ intact sha256 it content.
Proof.
  intros (g & Hg & Ht) Hi Hn Hv Hdir.
  destruct (rp_items _ _ _ _ _ _ _ _ Hg i it n Hi Hn) as (content & (ids & datas & Hids & Hf & Hc) & Hin);
    [apply live_spec; by left|done|].
  exists content. split; [|done]. exists ids, datas. split; [done|]. split; [|done].
  apply Forall2_same_length_lookup. split; [by eapply Forall2_length|].
  intros k id data Hk Hdk.
  destruct (Forall2_lookup_lr _ _ _ _ _ _ Hf Hk Hdk) as (Hlen & Hkn & pid & p & x & Hx & Hr & E1 & E2 & Hpd & stream & Ho & Hh).
  split; [done|]. split; [done|]. exists pid, p, x. split_and!; try done. split; [done|].
  exists stream. split; [|done].
  destruct (Ht pid p Hr) as [E|(_ & Hd & _)].
  - unfold opens in *. cbn [recipe_of PackPath] in *. rewrite E. exact Ho.
  - exfalso. assert (block_live d id = true) as Hlive.
    { apply block_live_spec. exists i, k, it, n. destruct Hn. by rewrite Hids. }
    by rewrite (Hd id _ Hx eq_refl eq_refl) in Hlive.
Qed.

(** ** Between runs and maintenance *)

(** When a run is over its draft no longer counts. *)
Lemma repository_settled draft d t :
  repository sha256 known contents jobID repositoryRoot draft d t ->
  repository sha256 known contents jobID repositoryRoot None d t.
Proof.
  intros [Hfk Hp Hb Hu Hup Hi]. split; try done. intros i it n Hit Hn Hl. apply (Hi i it n Hit Hn).
  apply live_spec in Hl as [Hl|[_ Hl]]; [|done]. apply live_spec. by left.
Qed.

(** A run starts without a draft of its own. *)
Lemma repository_opened draft d t :
  repository sha256 known contents jobID repositoryRoot None d t ->
  (forall id n, job_snapshot jobID d id n -> sn_state n = PUBLISHING -> draft <> Some (sn_run n)) ->
  repository sha256 known contents jobID repositoryRoot draft d t.
Proof.
  intros [Hfk Hp Hb Hu Hup Hi] Hd. split; try done. intros i it n Hit Hn Hl. apply (Hi i it n Hit Hn).
  apply live_spec in Hl as [Hl|[Hs Hl]]; [apply live_spec; by left|]. by destruct (Hd _ n Hn Hs).
Qed.

(** ** Other transactions and the target *)

(** What the rest of the system leaves of the job while maintenance has its lock: the
    frame without a draft, and no dead block comes back to life. *)
Definition onward (d d' : backup_db) : Prop :=
  framed jobID None d d'
  /\ forall id b, blocks d !! id = Some b -> bl_job b = jobID ->
       block_live d id = false -> block_live d' id = false.

Lemma onward_fewer d d' : framed jobID None d d' -> fewer d d' -> onward d d'.
Proof. intros Hf Hw. split; [done|]. intros id b _ _. by apply fewer_live. Qed.

Lemma onward_trans d1 d2 d3 : onward d1 d2 -> onward d2 d3 -> onward d1 d3.
Proof.
  intros [F1 L1] [F2 L2]. split; [by eapply framed_trans|]. intros id b Hb HJ Hl.
  apply (L2 id b); [by apply (fr_blocks _ _ _ _ F1)|done|]. by apply (L1 id b).
Qed.

Lemma onward_dead d d' pid : onward d d' -> dead d pid -> dead d' pid.
Proof.
  intros [Hf Hl] Hd id b Hb HJ Hp. apply (fr_blocks _ _ _ _ Hf id b HJ) in Hb.
  apply (Hl id b); [done|done|]. by apply (Hd id b).
Qed.

Lemma holds_onward B d d' t : onward d d' -> holds B d t -> holds B d' t.
Proof.
  intros Ho (g & Hg & Ht). pose proof Ho as [Hf _]. exists g.
  split; [by apply (repository_frame _ _ _ _ _ None d)|]. intros pid p Hr.
  apply (frame_ready jobID None d d') in Hr; [|done].
  destruct (Ht pid p Hr) as [?|(? & ? & ?)]; [by left|right].
  split; [done|]. split; [|done]. by apply (onward_dead d).
Qed.

(** The files of READY packs are as they were. *)
Lemma holds_target B d t t' : packs_kept contents jobID d t t' -> holds B d t -> holds B d t'.
Proof.
  intros Hk (g & Hg & Ht). exists g. split; [done|]. intros pid p Hr.
  rewrite (Hk pid p Hr). by apply Ht.
Qed.

(** The file of a dead pack is taken away, or not. *)
Lemma holds_delete B d t t' packID pack :
  packs d !! packID = Some pack -> pk_job pack = jobID -> dead d packID ->
  (forall q, q <> pk_path pack -> contents t' q = contents t q) ->
  (contents t' (pk_path pack) = contents t (pk_path pack) \/ contents t' (pk_path pack) = None) ->
  holds B d t -> holds (fun pid => B pid \/ pid = packID) d t'.
Proof.
  intros Hp HJ Hd Hq Hown (g & Hg & Ht). exists g. split; [done|]. intros pid p Hr.
  destruct (decide (pk_path p = pk_path pack)) as [E|Hne].
  - assert (pid = packID) as -> by (destruct Hr as (? & ? & _); by apply (rp_paths _ _ _ _ _ _ _ _ Hg pid packID p pack)).
    destruct Hown as [Ho|Ho]; rewrite E, Ho in *; [|by right; auto].
    rewrite <- E. destruct (Ht _ p Hr) as [Hc|(Hc & Hc' & HB)]; rewrite E in *; [by left|right; auto].
  - rewrite Hq by done. destruct (Ht pid p Hr) as [?|(? & ? & ?)]; [by left|right; auto].
Qed.

Lemma holds_trimmed B d d' t packID :
  trimmed d d' packID -> dead d packID -> holds B d t ->
  holds (fun pid => B pid /\ pid <> packID) d' t.
Proof.
  intros Htr Hd (g & Hg & Ht). exists g. split; [by apply (trimmed_sound d d' packID)|].
  intros pid p [Hr Hne]%(trimmed_ready d d' packID); [|done].
  destruct (Ht pid p Hr) as [?|(? & Hdp & ?)]; [by left|right]. split; [done|]. split; [|done].
  by apply (trimmed_dead d d' packID).
Qed.

(** ** The statements *)

Lemma drop_packs packID d :
  packs (drop_unlinked_blocks jobID packID (drop_dead_links jobID packID d)) = packs d.
Proof. done. Qed.

(** The row of the pack is no longer READY. *)
Lemma set_state_trimmed d d1 packID p s :
  packs d !! packID = Some p -> s <> PackReady ->
  trimmed (set_packs (insert packID (set_pack_state s p)) id d) (set_packs (insert packID (set_pack_state s p)) id d1) packID ->
  trimmed d (set_packs (insert packID (set_pack_state s p)) id d1) packID.
Proof.
  intros Hp Hs [T1 T2 T3 T4 T5 T6 T7 T8]. split; try done; cbn in *.
  - intros pid p' Hp'. destruct (T6 pid p' Hp') as (q & Hq & E1 & E2 & E3).
    apply lookup_insert_Some in Hq as [[<- <-]|[Hne Hq]]; [exists p; by split_and!|by exists q].
  - intros pid q Hq. destruct (decide (packID = pid)) as [<-|Hne].
    + destruct (T7 packID (set_pack_state s p)) as (p' & Hp' & E1 & E2 & _); [apply lookup_insert_eq|].
      exists p'. rewrite Hp in Hq. injection Hq as <-. by split_and!.
    + apply (T7 pid q). by rewrite lookup_insert_ne.
Qed.

Lemma mark_deleted_trimmed packID d d' :
  MarkBackupPackDeletedContext jobID packID d = Some d' -> trimmed d d' packID.
Proof.
  unfold MarkBackupPackDeletedContext. set (d1 := drop_unlinked_blocks _ _ _).
  destruct (update_row_spec packID (fun p => String.eqb (pk_job p) jobID && negb (held d1 packID))
    (set_pack_state PackDeleted) (packs d1)) as [(p & Hp & _ & ->)|[-> _]]; [|done].
  cbn [negb]. intros [= <-]. unfold d1 in Hp. rewrite drop_packs in Hp.
  apply (set_state_trimmed d d1 packID p PackDeleted); [done|done|].
  set (d2 := set_packs (insert packID (set_pack_state PackDeleted p)) id d).
  change (trimmed d2 (drop_unlinked_blocks jobID packID (drop_dead_links jobID packID d2)) packID).
  apply drop_trimmed.
  intros q (Hq & _ & Hs). cbn in Hq. rewrite lookup_insert_eq in Hq. injection Hq as <-. done.
Qed.

(** ** Moving the live blocks of a pack *)

(** The row of a pack that has left the readable ones. *)
Definition retired (d : backup_db) (packID path : string) : Prop :=
  dead d packID /\ exists p, packs d !! packID = Some p /\ pk_job p = jobID /\ pk_path p = path.

Lemma onward_retired d d' packID path : onward d d' -> retired d packID path -> retired d' packID path.
Proof.
  intros Ho (Hd & p & Hp & HJ & E). split; [by apply (onward_dead d)|]. exists p. split; [|done].
  destruct Ho as [Hf _]. by apply (fr_packs _ _ _ _ Hf).
Qed.

Definition moved_row (newID : string) (r : block_row) (b : BackupPackBlock) : block_row :=
  mkBlockRow (bl_job r) (bl_sha256 r) (bl_plaintext r) newID (ppb_PayloadOffset b) (ppb_PayloadLength b).

(** The row is one of the old pack with the hash of the locator. *)
Definition movable (oldID : string) (bs : gmap string block_row) (id : string) (b : BackupPackBlock)
    (r : block_row) : Prop :=
  bs !! id = Some r /\ bl_job r = jobID /\ bl_pack r = oldID /\ bl_sha256 r = ppb_Hash b.

Lemma move_blocks_spec oldID newID l : oldID <> newID -> forall bs bs',
  move_blocks jobID oldID newID l bs = Some bs' ->
  (forall id b, (id, b) ∈ l -> exists r, movable oldID bs id b r /\ bs' !! id = Some (moved_row newID r b))
  /\ (forall id r, bs !! id = Some r -> bl_pack r <> oldID -> bs' !! id = Some r)
  /\ (forall id r', bs' !! id = Some r' -> (bs !! id = Some r' /\ id ∉ l.*1)
        \/ exists b r, (id, b) ∈ l /\ movable oldID bs id b r /\ r' = moved_row newID r b).
Proof.
  intros Hne. induction l as [|[id0 b0] l IH]; intros bs bs'; cbn [move_blocks].
  { intros [= <-]. split_and!; [by intros ? ? ?%elem_of_nil|done|]. intros id r Hr. left.
    split; [done|]. apply not_elem_of_nil. }
  destruct (update_row_spec id0 (fun r => String.eqb (bl_job r) jobID && String.eqb (bl_pack r) oldID
    && bool_decide (bl_sha256 r = ppb_Hash b0)) (fun r => moved_row newID r b0) bs)
    as [(r0 & Hr0 & Hc & E)|[E _]]; unfold moved_row in E; rewrite E; cbn [negb orb]; [|done].
  destruct (_ || _); [done|]. fold (moved_row newID r0 b0).
  apply andb_true_iff in Hc as [Hc Hh]. apply andb_true_iff in Hc as [HJ Hp].
  apply String.eqb_eq in HJ, Hp. apply bool_decide_eq_true in Hh.
  intros (I1 & I2 & I3)%IH.
  assert (forall id b r, movable oldID (<[id0 := moved_row newID r0 b0]> bs) id b r -> movable oldID bs id b r) as Hm.
  { intros id b r (Hb & HbJ & Hbp & Hbh). apply lookup_insert_Some in Hb as [[<- <-]|[_ Hb]]; [|done].
    by destruct Hne. }
  split_and!.
  - intros id b [[= -> ->]|Hin]%elem_of_cons.
    + exists r0. split; [done|]. apply I2; [apply lookup_insert_eq|]. cbn. congruence.
    + destruct (I1 id b Hin) as (r & Hr & Hr'). exists r. split; [by apply Hm|done].
  - intros id r Hr Hrp. apply I2; [|done]. rewrite lookup_insert_ne; [done|]. intros <-. congruence.
  - intros id r' [[Hr' Hni]|(b & r & Hin & Hr & ->)]%I3.
    + apply lookup_insert_Some in Hr' as [[<- <-]|[Hn Hr']].
      * right. exists b0, r0. split_and!; [by left|done..].
      * left. split; [done|]. rewrite fmap_cons, not_elem_of_cons. done.
    + right. exists b, r. split_and!; [by right|by apply Hm|done].
Qed.

Lemma located_length o es : length (located o es) = length es.
Proof. revert o. induction es as [|e es IH]; intros o; cbn; [done|]. by rewrite IH. Qed.

Section Replaced.
Context (d : backup_db) (g : files) (oldID newID path : string) (old row : pack_row).
Context (entries : list Entry) (pk : Pack) (stream : bytes) (blockIDs : list string)
  (bs : gmap string block_row).
Abbreviation locs := (located packPrefixSize entries).
Hypothesis Hsound : sound d g.
Hypothesis Hold : ready jobID d oldID old.
Hypothesis Hfresh : packs d !! newID = None.
Hypothesis Hunique : unique_paths jobID (<[newID := row]> (packs d)).
Hypothesis Hrow : pk_job row = jobID /\ pk_state row = PackReady /\ pk_sha256 row = p_ID pk /\ pk_path row = path.
Hypothesis Hlen : length blockIDs = length entries.
Hypothesis Hmove : move_blocks jobID oldID newID (zip blockIDs (map pack_block locs)) (blocks d) = Some bs.
Hypothesis Hpath : pack_path repositoryRoot (p_ID pk) = Ok path.
Hypothesis Hcont : g path = Some stream.
Hypothesis Henc : EncodePack sha256 entries = Ok (pk, stream).
Hypothesis Hes : entries <> [] /\ Forall not_footer entries /\ Forall (fun e => known (e_Data e)) entries.
Hypothesis Hrows : forall e, e ∈ entries -> exists id off, blocks d !! id = Some (entry_row jobID oldID (off, e)).
Hypothesis Hlive : forall id b, blocks d !! id = Some b -> bl_job b = jobID -> bl_pack b = oldID ->
  block_live d id = true -> id ∈ blockIDs.

Definition replaced : backup_db :=
  set_packs (fun _ => <[oldID := set_pack_state PackDeletePending old]> (<[newID := row]> (packs d)))
    (fun _ => bs) d.

Lemma old_new : oldID <> newID.
Proof. intros E. destruct Hold as [Ho _]. rewrite E, Hfresh in Ho. done. Qed.

(** The block with the identifier moves to this place. *)
Definition moves (id : string) (x : Z * Entry) : Prop :=
  x ∈ locs /\ bs !! id = Some (entry_row jobID newID x)
  /\ exists off, blocks d !! id = Some (entry_row jobID oldID (off, x.2)).

Lemma paired_moves j id x : blockIDs !! j = Some id -> locs !! j = Some x -> moves id x.
Proof.
  intros Hid Hx. destruct (move_blocks_spec _ _ _ old_new _ _ Hmove) as (M1 & _ & _).
  destruct (M1 id (pack_block x)) as (r & (Hr & HJ & Hp & Hh) & Hr').
  { apply list_elem_of_lookup. exists j. apply lookup_zip_Some. split; [done|].
    by rewrite list_lookup_fmap, Hx. }
  apply list_elem_of_lookup_2 in Hx. split; [done|].
  apply located_entry in Hx as [_ Hx]. destruct (Hrows _ Hx) as (id' & off & Hid').
  assert (id = id') as <-.
  { apply (rp_unique _ _ _ _ _ _ _ _ Hsound id id' r (entry_row jobID oldID (off, x.2))); done. }
  rewrite Hr in Hid'. injection Hid' as ->. split; [exact Hr'|by exists off].
Qed.

Lemma zipped_moves id b :
  (id, b) ∈ zip blockIDs (map pack_block locs) -> exists x, b = pack_block x /\ moves id x.
Proof.
  intros [j Hj]%list_elem_of_lookup. apply lookup_zip_Some in Hj as [Hid Hb].
  rewrite list_lookup_fmap in Hb. destruct (locs !! j) as [x|] eqn:Ex; [|done].
  injection Hb as <-. exists x. split; [done|]. by apply (paired_moves j).
Qed.

Lemma locs_move x : x ∈ locs -> exists id, moves id x.
Proof.
  intros [j Hj]%list_elem_of_lookup. pose proof Hj as Hlt. apply lookup_lt_Some in Hlt.
  rewrite located_length, <- Hlen in Hlt. apply lookup_lt_is_Some_2 in Hlt as [id Hid].
  exists id. by apply (paired_moves j).
Qed.

Lemma ids_move id : id ∈ blockIDs -> exists x, moves id x.
Proof.
  intros [j Hj]%list_elem_of_lookup. pose proof Hj as Hlt. apply lookup_lt_Some in Hlt.
  rewrite Hlen, <- (located_length packPrefixSize) in Hlt. apply lookup_lt_is_Some_2 in Hlt as [x Hx].
  exists x. by apply (paired_moves j).
Qed.

Lemma unmoved id r : blocks d !! id = Some r -> bl_pack r <> oldID -> bs !! id = Some r.
Proof. destruct (move_blocks_spec _ _ _ old_new _ _ Hmove) as (_ & M2 & _). apply M2. Qed.

Lemma after_move id r : bs !! id = Some r ->
  blocks d !! id = Some r /\ id ∉ blockIDs \/ exists x, moves id x /\ r = entry_row jobID newID x.
Proof.
  intros Hr. destruct (move_blocks_spec _ _ _ old_new _ _ Hmove) as (_ & _ & M3).
  destruct (M3 id r Hr) as [[Hb Hni]|(b & r0 & Hin & _ & _)].
  - left. split; [done|]. intros Hin. apply Hni. rewrite fst_zip; [done|].
    rewrite length_map, located_length. lia.
  - right. destruct (zipped_moves id b Hin) as (x & _ & Hx). exists x. split; [done|].
    destruct Hx as (_ & Hx & _). congruence.
Qed.

Lemma replaced_ready pid p :
  ready jobID replaced pid p <-> (pid = newID /\ p = row) \/ (ready jobID d pid p /\ pid <> oldID).
Proof.
  pose proof old_new as Hne. unfold ready, replaced. cbn [packs set_packs]. split.
  - intros (Hp & HJ & Hs). apply lookup_insert_Some in Hp as [[<- <-]|[Hn Hp]]; [done|].
    apply lookup_insert_Some in Hp as [[<- <-]|[_ Hp]]; [by left|by right].
  - destruct Hrow as (RJ & Rs & _). intros [[-> ->]|[(Hp & HJ & Hs) Hn]].
    + rewrite lookup_insert_ne by done. rewrite lookup_insert_eq. done.
    + rewrite lookup_insert_ne by done. rewrite lookup_insert_ne; [done|]. intros <-. congruence.
Qed.

Lemma replaced_dead : dead replaced oldID.
Proof.
  intros id b Hb HJ Hp. change (block_live d id = false). apply not_true_iff_false. intros Hl.
  destruct (after_move id b Hb) as [[Hb0 Hni]|(x & _ & ->)].
  - apply Hni. by apply (Hlive id b).
  - by apply old_new.
Qed.

Lemma replaced_other_dead pid : pid <> newID -> dead d pid -> dead replaced pid.
Proof.
  intros Hn Hd id b Hb HJ Hp. change (block_live d id = false).
  destruct (after_move id b Hb) as [[Hb0 _]|(x & _ & ->)]; [by apply (Hd id b)|]. cbn in Hp. congruence.
Qed.

Lemma replaced_new_sound : sound_pack replaced g newID row entries.
Proof.
  destruct Hrow as (RJ & Rs & Rh & Rp). split; rewrite ?Rh, ?Rp; try done.
  - by exists pk, stream.
  - intros x Hx. destruct (locs_move x Hx) as (id & _ & Hid & _). by exists id.
  - intros id b Hb HJ Hp. destruct (after_move id b Hb) as [[Hb0 _]|(x & (Hx & _) & ->)]; [|by exists x].
    destruct (fk_packs _ (rp_fk _ _ _ _ _ _ _ _ Hsound) id b Hb0) as (q & Hq & _).
    by rewrite Hp, Hfresh in Hq.
Qed.

Lemma replaced_old_sound pid p es :
  sound_pack d g pid p es -> pid <> oldID -> pid <> newID -> sound_pack replaced g pid p es.
Proof.
  intros [P1 P2 P3 P4 P5] Hn Hn'. split; try done.
  - intros x Hx. destruct (P4 x Hx) as [id Hid]. exists id. by apply unmoved.
  - intros id b Hb HJ Hp. destruct (after_move id b Hb) as [[Hb0 _]|(x & _ & ->)]; [by apply (P5 id b)|].
    cbn in Hp. congruence.
Qed.

Lemma replaced_stored id data : block_live d id = true -> stored d g id data -> stored replaced g id data.
Proof.
  intros Hl (Hlen1 & Hk & pid & p & x & Hx & Hr & E1 & E2 & Hrest).
  destruct (decide (pid = oldID)) as [->|Hne].
  - assert (id ∈ blockIDs) as Hin by by apply (Hlive id (entry_row jobID oldID x)).
    destruct (ids_move id Hin) as (y & Hy & Hid & off & Hoff).
    assert (data = e_Data y.2) as ->.
    { rewrite Hx in Hoff. injection Hoff as Hh _ _ _. pose proof (located_entry _ _ _ Hy) as [_ Hin2].
      destruct Hes as (_ & _ & Hkn). rewrite Forall_forall in Hkn.
      apply encode_ok in Henc as (_ & Hv & _). rewrite Forall_forall in Hv.
      destruct (Hv _ Hin2) as [_ Hs]. apply collision_free; [done|by apply Hkn|]. congruence. }
    apply (pack_entry_stored sha256 known file_contents jobID repositoryRoot replaced g newID row entries id y);
      [apply replaced_new_sound|apply replaced_ready; by left|done|exact Hid|done].
  - split; [done|]. split; [done|]. exists pid, p, x. split; [by apply unmoved|].
    split; [apply replaced_ready; by right|done].
Qed.

Lemma replaced_packs pid p' : packs replaced !! pid = Some p' ->
  exists p, <[newID := row]> (packs d) !! pid = Some p /\ pk_job p' = pk_job p /\ pk_path p' = pk_path p.
Proof.
  cbn. intros [[<- <-]|[_ Hp]]%lookup_insert_Some; [|by exists p'].
  exists old. split; [|done]. rewrite lookup_insert_ne by (intros E; by apply old_new). by destruct Hold.
Qed.

Lemma replaced_packs_up pid p : packs d !! pid = Some p ->
  exists p', packs replaced !! pid = Some p' /\ pk_job p' = pk_job p.
Proof.
  intros Hp. cbn. destruct (decide (oldID = pid)) as [<-|Hne].
  - rewrite lookup_insert_eq. eexists. split; [done|]. destruct Hold as [Ho _]. cbn. congruence.
  - rewrite lookup_insert_ne by done. rewrite lookup_insert_ne; [by exists p|]. intros <-. congruence.
Qed.

Lemma replaced_new_row : packs replaced !! newID = Some row.
Proof. cbn. rewrite lookup_insert_ne by apply old_new. apply lookup_insert_eq. Qed.

Lemma replaced_sound : sound replaced g.
Proof.
  pose proof Hsound as [[F1 F2 F3] Rp Rb Ru Rup Ri]. destruct Hrow as (RJ & _). split.
  - split; [exact F1|exact F2|]. intros id b Hb. destruct (after_move id b Hb) as [[Hb0 _]|(x & _ & ->)].
    + destruct (F3 id b Hb0) as (q & Hq & HqJ). destruct (replaced_packs_up _ _ Hq) as (q' & Hq' & E).
      exists q'. by rewrite E.
    + exists row. split; [apply replaced_new_row|done].
  - intros pid p [[-> ->]|[Hr Hn]]%replaced_ready; [exists entries; apply replaced_new_sound|].
    destruct (Rp pid p Hr) as [es Hps]. exists es. apply replaced_old_sound; [done|done|].
    intros ->. destruct Hr as [Hr _]. congruence.
  - intros id b Hb HJ. destruct (after_move id b Hb) as [[Hb0 _]|(x & (_ & _ & off & Hoff) & ->)].
    + destruct (Rb id b Hb0 HJ) as (Hl & q & Hq & HqJ). split; [done|].
      destruct (replaced_packs_up _ _ Hq) as (q' & Hq' & E). exists q'. by rewrite E.
    + destruct (Rb id _ Hoff eq_refl) as [Hl _]. split; [done|]. exists row.
      split; [apply replaced_new_row|done].
  - assert (forall id r, bs !! id = Some r -> exists r0, blocks d !! id = Some r0
      /\ bl_job r0 = bl_job r /\ bl_sha256 r0 = bl_sha256 r) as Hdown.
    { intros id r Hr. destruct (after_move id r Hr) as [[Hb0 _]|(x & (_ & _ & off & Hoff) & ->)];
        [by exists r|]. eexists. split; [exact Hoff|done]. }
    intros id id' b b' (r & Hr & <- & <-)%Hdown (r' & Hr' & <- & <-)%Hdown. by apply (Ru id id' r r').
  - intros pid pid' p p' (q & Hq & -> & ->)%replaced_packs (q' & Hq' & -> & ->)%replaced_packs.
    by apply (Hunique pid pid' q q').
  - intros i it n Hi Hn Hl Hdir. destruct (Ri i it n Hi Hn Hl Hdir) as (content & (ids & datas & Hids & Hf & Hc) & Hin).
    exists content. split; [|done]. exists ids, datas. split; [done|]. split; [|done].
    apply Forall2_same_length_lookup. split; [by eapply Forall2_length|].
    intros k id data Hk Hdk. apply replaced_stored; [|by apply (Forall2_lookup_lr _ _ _ _ _ _ Hf Hk Hdk)].
    apply live_spec in Hl as [Hv|[_ Hv]]; [|done]. destruct Hn as [Hn _].
    apply block_live_spec. exists i, k, it, n. by rewrite Hids.
Qed.

Lemma replaced_holds B t :
  there B d t g -> contents t path = Some stream ->
  let d' := drop_unlinked_blocks jobID oldID (drop_dead_links jobID oldID replaced) in
  holds B d' t /\ retired d' oldID (pk_path old) /\ forall p, ~ ready jobID d' oldID p.
Proof.
  intros Ht Hc. cbv zeta.
  assert (trimmed replaced (drop_unlinked_blocks jobID oldID (drop_dead_links jobID oldID replaced)) oldID) as Htr.
  { apply drop_trimmed. intros p [[E _]|[_ []]]%replaced_ready; [|done]. by apply old_new. }
  split.
  - apply (holds_mono (fun pid => B pid /\ pid <> oldID)); [by intros ? [? _]|].
    apply (holds_trimmed B replaced); [done|apply replaced_dead|]. exists g. split; [apply replaced_sound|].
    intros pid p [[-> ->]|[Hr Hn]]%replaced_ready.
    + left. destruct Hrow as (_ & _ & _ & ->). by rewrite Hcont.
    + destruct (Ht pid p Hr) as [?|(? & Hdp & ?)]; [by left|right]. split; [done|]. split; [|done].
      apply replaced_other_dead; [|done]. intros ->. destruct Hr as [Hr _]. congruence.
  - split; [|exact (tm_gone _ _ _ Htr)].
    split; [apply (trimmed_dead replaced _ oldID); [done|apply replaced_dead]|].
    destruct (tm_up _ _ _ Htr oldID (set_pack_state PackDeletePending old))
      as (p' & Hp' & EJ & Ep & _); [cbn; apply lookup_insert_eq|].
    exists p'. split; [done|]. rewrite EJ, Ep. destruct Hold as (_ & HJ & _). done.
Qed.
End Replaced.

Lemma replace_spec oldID path hash size l blockIDs newID now d d' :
  ReplaceBackupPackLocatorsContext jobID oldID path hash size l blockIDs newID now d = Some d' ->
  forall old, ready jobID d oldID old ->
  let row := mkPackRow jobID path hash size PackReady 1 None now in
  exists bs, packs d !! newID = None /\ zlen l <> 0 /\ zlen l = zlen blockIDs
    /\ (unique_paths jobID (packs d) -> unique_paths jobID (<[newID := row]> (packs d)))
    /\ move_blocks jobID oldID newID (zip blockIDs l) (blocks d) = Some bs
    /\ d' = drop_unlinked_blocks jobID oldID (drop_dead_links jobID oldID (replaced d oldID newID old row bs)).
Proof.
  unfold ReplaceBackupPackLocatorsContext. destruct (_ || _) eqn:Ec; [done|].
  apply orb_false_iff in Ec as [E1 E2]. destruct (insert_pack _ _ _) as [ps|] eqn:Ep; [|done].
  destruct (move_blocks _ _ _ _ _) as [bs|] eqn:Em; [|done]. intros E old (Ho & HJ & Hs). cbv zeta.
  pose proof (insert_pack_paths jobID _ _ _ _ Ep) as Hup. apply insert_pack_spec in Ep as [Hn ->].
  exists bs. split_and!; [done|lia|lia|done|done|]. injection E as <-.
  assert (oldID <> newID) as Hne by congruence.
  set (ps := <[newID := _]> (packs d)).
  assert ((update_row oldID (fun p => String.eqb (pk_job p) jobID && bool_decide (pk_state p = PackReady))
    (set_pack_state PackDeletePending) ps).2 = <[oldID := set_pack_state PackDeletePending old]> ps) as Hf.
  { unfold update_row, ps. rewrite lookup_insert_ne, Ho, HJ, Hs, String.eqb_refl by done.
    by rewrite bool_decide_true by done. }
  unfold replaced. fold ps. rewrite <- Hf. reflexivity.
Qed.

(** ** Planning a compaction *)

Hypothesis packs_collision_free : forall es es' p p' stream stream',
  EncodePack sha256 es = Ok (p, stream) -> EncodePack sha256 es' = Ok (p', stream') ->
  Forall (fun e => known (e_Data e)) es -> Forall (fun e => known (e_Data e)) es' ->
  sha256 stream = sha256 stream' -> stream = stream'.

(** What holds of the pack chosen for compaction: it is READY and the block is a dead
    one of it. *)
Record chosen (d : backup_db) (packID : string) (pack : pack_row) (k : string) : Prop := mkChosen {
  ch_ready : exists p, ready jobID d packID p /\ pk_path p = pk_path pack /\ pk_sha256 p = pk_sha256 pack;
  ch_block : exists b, blocks d !! k = Some b /\ bl_job b = jobID /\ bl_pack b = packID;
  ch_dead : block_live d k = false;
}.

(** The listed blocks are blocks of the pack, every live one among them. *)
Record listed (d : backup_db) (packID k : string) (l : list BackupLiveBlock) : Prop := mkListed {
  ls_in : forall lb, lb ∈ l -> lb_ID lb <> k /\ exists b, blocks d !! lb_ID lb = Some b
    /\ bl_job b = jobID /\ bl_pack b = packID /\ bl_sha256 b = lb_Hash lb;
  ls_live : forall id b, blocks d !! id = Some b -> bl_job b = jobID -> bl_pack b = packID ->
    block_live d id = true -> exists lb, lb ∈ l /\ lb_ID lb = id /\ lb_Hash lb = bl_sha256 b;
}.

(** The entries of the replacement are live blocks of the pack, and every live block
    is among the identifiers that move. *)
Record planned (d : backup_db) (packID k : string) (entries : list Entry) (ids : list string) : Prop := mkPlanned {
  pl_entries : Forall not_footer entries /\ Forall (fun e => known (e_Data e)) entries;
  pl_rows : forall e, e ∈ entries -> exists id off,
    blocks d !! id = Some (entry_row jobID packID (off, e)) /\ id <> k;
  pl_live : forall id b, blocks d !! id = Some b -> bl_job b = jobID -> bl_pack b = packID ->
    block_live d id = true -> id ∈ ids;
}.

Lemma onward_live d d' id b : onward d d' -> blocks d' !! id = Some b -> bl_job b = jobID ->
  block_live d' id = true -> block_live d id = true.
Proof.
  intros [Hf Hl] Hb HJ Hlive. apply not_false_iff_true. intros Hd.
  rewrite (Hl id b) in Hlive; [done| |done|done]. by apply (fr_blocks _ _ _ _ Hf).
Qed.

Lemma chosen_onward d d' packID pack k : onward d d' -> chosen d packID pack k -> chosen d' packID pack k.
Proof.
  intros [Hf Hl] [(p & Hr & E) (b & Hb & HJ & Hp) Hd]. split.
  - exists p. split; [|done]. by apply (frame_ready jobID None d d').
  - exists b. split; [|done]. by apply (fr_blocks _ _ _ _ Hf).
  - by apply (Hl k b).
Qed.

Lemma listed_onward d d' packID k l : onward d d' -> listed d packID k l -> listed d' packID k l.
Proof.
  intros Ho [L1 L2]. pose proof Ho as [Hf _]. split.
  - intros lb Hin. destruct (L1 lb Hin) as (Hn & b & Hb & HJ & Hrest). split; [done|]. exists b.
    split; [|done]. by apply (fr_blocks _ _ _ _ Hf).
  - intros id b Hb HJ Hp Hl. apply (L2 id b); [by apply (fr_blocks _ _ _ _ Hf id b HJ)|done|done|].
    by apply (onward_live d d' id b).
Qed.

Lemma planned_onward d d' packID k es ids : onward d d' -> planned d packID k es ids -> planned d' packID k es ids.
Proof.
  intros Ho [P1 P2 P3]. pose proof Ho as [Hf _]. split; [done| |].
  - intros e He. destruct (P2 e He) as (id & off & Hb & Hn). exists id, off. split; [|done].
    by apply (fr_blocks _ _ _ _ Hf).
  - intros id b Hb HJ Hp Hl. apply (P3 id b); [by apply (fr_blocks _ _ _ _ Hf id b HJ)|done|done|].
    by apply (onward_live d d' id b).
Qed.

(** *** The candidate and its blocks *)

Lemma candidate_chosen d packID pack :
  catalog_fk d -> FindBackupCompactionCandidateContext jobID d = Some (packID, pack) ->
  exists k, chosen d packID pack k.
Proof.
  intros Hfk Hc. unfold FindBackupCompactionCandidateContext in Hc. apply head_Some_elem_of in Hc.
  apply oldest_in in Hc as [Hp Hc]. cbn [fst snd] in Hp, Hc.
  apply andb_true_iff in Hc as [Hc Hex]. apply andb_true_iff in Hc as [Hc _].
  apply andb_true_iff in Hc as [HJ Hs]. apply String.eqb_eq in HJ. apply bool_decide_eq_true in Hs.
  apply existsb_exists in Hex as ([k b] & Hin & Hb). apply andb_true_iff in Hb as [Hbp Hl].
  apply String.eqb_eq in Hbp. apply negb_true_iff in Hl.
  apply list_elem_of_In, elem_of_map_to_list in Hin. exists k. split; [by exists pack| |done].
  exists b. split; [done|]. split; [|done]. destruct (fk_packs d Hfk k b Hin) as (q & Hq & HqJ).
  rewrite Hbp, Hp in Hq. injection Hq as ->. congruence.
Qed.

Lemma live_blocks_listed d packID pack k :
  chosen d packID pack k -> listed d packID k (ListBackupLiveBlocksContext jobID packID d).
Proof.
  intros [_ _ Hd]. unfold ListBackupLiveBlocksContext. split.
  - intros lb Hin. apply list_elem_of_In, in_map_iff in Hin as ([id b] & <- & Hin).
    apply list_elem_of_In in Hin. rewrite merge_sort_Permutation in Hin.
    apply list_elem_of_In, filter_In in Hin as [Hin Hc].
    apply andb_true_iff in Hc as [Hc Hl]. apply andb_true_iff in Hc as [HJ Hp].
    apply String.eqb_eq in HJ, Hp. cbn. split; [intros ->; congruence|]. exists b. split; [|done].
    by apply elem_of_map_to_list, list_elem_of_In.
  - intros id b Hb HJ Hp Hl. exists (mkLiveBlock id (bl_sha256 b) (bl_plaintext b)). split; [|done].
    apply list_elem_of_In, in_map_iff. exists (id, b). split; [done|].
    apply list_elem_of_In. rewrite merge_sort_Permutation. apply list_elem_of_In, filter_In.
    split; [by apply list_elem_of_In, elem_of_map_to_list|]. by rewrite HJ, Hp, !String.eqb_refl, Hl.
Qed.

(** *** Reading the live entries *)

Lemma live_map_from l : forall (m : gmap string BackupLiveBlock) key lb,
  fold_left (fun m b => <[ hash_key (lb_Hash b) := b ]> m) l m !! key = Some lb ->
  m !! key = Some lb \/ lb ∈ l /\ hash_key (lb_Hash lb) = key.
Proof.
  induction l as [|b l IH]; intros m key lb; cbn; [by left|]. intros [Hm|[Hin Hk]]%IH.
  - apply lookup_insert_Some in Hm as [[Hk <-]|[_ Hm]]; [|by left]. right. split; [by left|done].
  - right. split; [by right|done].
Qed.

Lemma live_map_some l key lb :
  live_map l !! key = Some lb -> lb ∈ l /\ hash_key (lb_Hash lb) = key.
Proof. intros [Hm|Hm]%live_map_from; [by rewrite lookup_empty in Hm|done]. Qed.

Lemma live_map_keeps l : forall (m : gmap string BackupLiveBlock) key,
  is_Some (m !! key) -> is_Some (fold_left (fun m b => <[ hash_key (lb_Hash b) := b ]> m) l m !! key).
Proof.
  induction l as [|b l IH]; intros m key Hs; cbn; [done|]. apply IH. rewrite lookup_insert_is_Some.
  destruct (decide (hash_key (lb_Hash b) = key)); [by left|by right].
Qed.

Lemma live_map_in l lb : lb ∈ l -> is_Some (live_map l !! hash_key (lb_Hash lb)).
Proof.
  unfold live_map. generalize (∅ : gmap string BackupLiveBlock).
  induction l as [|b l IH]; intros m; [by intros ?%elem_of_nil|]. cbn.
  intros [->|Hin]%elem_of_cons; [|by apply IH]. apply live_map_keeps. by rewrite lookup_insert_eq.
Qed.

Lemma keep_live_run live xs : forall es ids es' ids',
  run_callback (keep_live live) (es, ids) xs = Ok (es', ids') ->
  (forall e, e ∈ es' -> e ∈ es \/ exists off lb, (off, e) ∈ xs /\ live !! hash_key (e_Hash e) = Some lb)
  /\ (forall x lb, x ∈ xs -> live !! hash_key (e_Hash x.2) = Some lb -> lb_ID lb ∈ ids')
  /\ (forall id, id ∈ ids -> id ∈ ids').
Proof.
  induction xs as [|[o e] xs IH]; intros es ids es' ids'; cbn [run_callback].
  { intros [= <- <-]. split_and!; [by left|by intros ? ? ?%elem_of_nil|done]. }
  unfold keep_live at 1. destruct (live !! hash_key (e_Hash e)) as [lb|] eqn:El.
  - destruct (negb _); [done|]. cbn [fst snd]. intros (I1 & I2 & I3)%IH. split_and!.
    + intros e' [He|(off & lb' & Hin & Hl)]%I1.
      * apply elem_of_app in He as [He| ->%list_elem_of_singleton]; [by left|].
        right. exists o, lb. split; [by left|done].
      * right. exists off, lb'. split; [by right|done].
    + intros x lb' [->|Hx]%elem_of_cons Hl; [|by apply (I2 x)].
      apply I3. cbn in Hl. rewrite El in Hl. injection Hl as <-. apply elem_of_app. right. by left.
    + intros id Hid. apply I3, elem_of_app. by left.
  - intros (I1 & I2 & I3)%IH. split_and!; [| |done].
    + intros e' [He|(off & lb' & Hin & Hl)]%I1; [by left|]. right. exists off, lb'. split; [by right|done].
    + intros x lb' [->|Hx]%elem_of_cons Hl; [|by apply (I2 x)]. cbn in Hl. congruence.
Qed.

(** What the whole pack yields. *)
Lemma entries_planned d g packID pack k es l entries ids :
  sound d g -> sound_pack d g packID pack es -> listed d packID k l ->
  run_callback (keep_live (live_map l)) ([], []) (located packPrefixSize es) = Ok (entries, ids) ->
  planned d packID k entries ids.
Proof.
  intros Hs [_ _ (_ & Hnf & Hkn) Hrows Honly] [L1 L2] (R1 & R2 & _)%keep_live_run.
  rewrite Forall_forall in Hnf, Hkn.
  assert (forall e, e ∈ entries -> e ∈ es /\ exists off lb, (off, e) ∈ located packPrefixSize es
    /\ live_map l !! hash_key (e_Hash e) = Some lb) as Hin.
  { intros e [He|(off & lb & Hx & Hl)]%R1; [by apply elem_of_nil in He|].
    split; [by apply located_entry in Hx as [_ Hx]|by exists off, lb]. }
  split.
  - split; apply Forall_forall; intros e He; destruct (Hin e He) as [Hes _]; auto.
  - intros e He. destruct (Hin e He) as (_ & off & lb & Hx & Hl).
    destruct (Hrows _ Hx) as [id Hid]. exists id, off. split; [done|].
    apply live_map_some in Hl as [Hlb Hh%hash_key_inj].
    destruct (L1 lb Hlb) as (Hn & b & Hb & HJ & _ & Hbh).
    assert (id = lb_ID lb) as ->; [|done].
    apply (rp_unique _ _ _ _ _ _ _ _ Hs id (lb_ID lb) (entry_row jobID packID (off, e)) b); try done.
    cbn. congruence.
  - intros id b Hb HJ Hp Hlive. destruct (Honly id b Hb HJ Hp) as (x & Hx & ->).
    destruct (L2 id _ Hb HJ Hp Hlive) as (lb & Hlb & Hid & Hh). cbn in Hh.
    destruct (live_map_in l lb Hlb) as [lb' Hl']. rewrite Hh in Hl'.
    pose proof (R2 x lb' Hx Hl') as Hin'. apply live_map_some in Hl' as [Hlb' Hh'%hash_key_inj].
    destruct (L1 lb' Hlb') as (_ & b' & Hb' & HJ' & _ & Hbh').
    assert (id = lb_ID lb') as ->; [|done].
    apply (rp_unique _ _ _ _ _ _ _ _ Hs id (lb_ID lb') (entry_row jobID packID x) b'); try done.
    cbn. congruence.
Qed.

Lemma read_planned B d t packID pack k l stream rest entries ids p :
  holds B d t -> chosen d packID pack k -> listed d packID k l ->
  contents t (pk_path pack) = Some (stream ++ rest) ->
  ValidatePack sha256 (keep_live (live_map l)) stream (pk_sha256 pack) ([], []) = Ok (p, (entries, ids)) ->
  planned d packID k entries ids.
Proof.
  intros (g & Hg & Ht) [(q & Hr & Eq & _) _ _] Hl Hc (es' & He' & _ & Hnf' & Hrun)%validate_sound; [|done].
  destruct (rp_packs _ _ _ _ _ _ _ _ Hg packID q Hr) as [es Hps].
  pose proof Hps as [_ (pk & s & Hgc & He & _) (_ & Hnf & _) _ _].
  assert (s = stream ++ rest) as ->.
  { unfold file_contents in Hgc. destruct (Ht packID q Hr) as [E|(E & _)]; rewrite Eq in *; congruence. }
  assert (es' = es) as -> by by apply (pack_prefix_entries sha256 sha256_length es es' pk p (stream ++ rest) stream rest).
  by apply (entries_planned d g packID q k es l).
Qed.

(** The replacement is not written over a READY pack. *)
Lemma new_path_free d g packID pack k entries ids pk stream path pid p :
  sound d g -> chosen d packID pack k -> planned d packID k entries ids ->
  EncodePack sha256 entries = Ok (pk, stream) -> pack_path repositoryRoot (p_ID pk) = Ok path ->
  ready jobID d pid p -> pk_path p <> path.
Proof.
  intros Hg [_ (b & Hb & HJ & Hbp) _] [(Hnf & Hkn) Prows _] He Hpath Hr E.
  destruct (rp_packs _ _ _ _ _ _ _ _ Hg pid p Hr) as [es [Hp' (pk' & s' & _ & He' & Hid') (Hne & _ & Hkn') Hrows Honly]].
  rewrite E in Hp'. pose proof (pack_path_inj _ _ _ _ Hpath Hp') as Hid. rewrite <- Hid' in Hid.
  pose proof He as (_ & _ & _ & _ & Ep)%encode_ok. pose proof He' as (_ & _ & _ & _ & Ep')%encode_ok.
  rewrite Ep, Ep' in Hid. cbn [p_ID] in Hid.
  apply (packs_collision_free _ _ _ _ _ _ He He' Hkn Hkn') in Hid. subst s'.
  pose proof (encode_inj sha256 sha256_length _ _ _ _ _ He He') as <-.
  assert (forall x, x ∈ located packPrefixSize entries -> exists id, pid = packID
    /\ blocks d !! id = Some (entry_row jobID pid x) /\ id <> k) as Hall.
  { intros x Hx. destruct (Hrows x Hx) as [id Hrow]. pose proof (located_entry _ _ _ Hx) as [_ Hxe].
    destruct (Prows _ Hxe) as (id' & off & Hrow' & Hn).
    assert (id = id') as <- by (by apply (rp_unique _ _ _ _ _ _ _ _ Hg id id' _ _ Hrow Hrow')).
    exists id. split_and!; [|done|done]. rewrite Hrow in Hrow'. by injection Hrow'. }
  assert (pid = packID) as <-.
  { destruct entries as [|e es]; [done|]. destruct (Hall (packPrefixSize + sha256_Size + 4, e)) as (? & ? & _); [by left|done]. }
  destruct (Honly k b Hb HJ Hbp) as (x & Hx & ->).
  destruct (Hall x Hx) as (id & _ & Hid & Hn). apply Hn.
  by apply (rp_unique _ _ _ _ _ _ _ _ Hg id k _ _ Hid Hb).
Qed.

(** *** The switch of the locators *)

(** The ghost may be what is on the target wherever no READY pack is. *)
Lemma holds_at B d t path :
  (forall pid p, ready jobID d pid p -> pk_path p <> path) -> holds B d t ->
  exists g, sound d g /\ there B d t g /\ g path = contents t path.
Proof.
  intros Hfree (g & Hg & Ht).
  set (g' := fun q => if String.eqb q path then contents t path else g q : option bytes).
  assert (forall pid p, ready jobID d pid p -> g' (pk_path p) = g (pk_path p)) as Hsame.
  { intros pid p Hr. unfold g'. specialize (Hfree pid p Hr). apply String.eqb_neq in Hfree. by rewrite Hfree. }
  exists g'. split_and!.
  - apply (repository_target _ _ _ _ _ _ _ g); [done|]. intros pid p Hr. by apply (Hsame pid p).
  - intros pid p Hr. rewrite (Hsame pid p Hr). by apply Ht.
  - unfold g'. by rewrite String.eqb_refl.
Qed.

Lemma replace_holds B d t d' packID pack k entries ids pk stream path newID now :
  holds B d t -> chosen d packID pack k -> planned d packID k entries ids ->
  EncodePack sha256 entries = Ok (pk, stream) -> pack_path repositoryRoot (p_ID pk) = Ok path ->
  contents t path = Some stream ->
  ReplaceBackupPackLocatorsContext jobID packID path (p_ID pk) (p_Size pk)
    (map pack_block (located packPrefixSize entries)) ids newID now d = Some d' ->
  holds B d' t /\ retired d' packID (pk_path pack) /\ forall p, ~ ready jobID d' packID p.
Proof.
  intros Hh Hch Hpl He Hp Hc Hrep. pose proof Hch as [(old & Hold & Eold & _) _ _].
  destruct (replace_spec _ _ _ _ _ _ _ _ _ _ Hrep old Hold) as (bs & Hfresh & Hne & Hlen & Huq & Hmove & ->).
  assert (forall pid p, ready jobID d pid p -> pk_path p <> path) as Hfree.
  { destruct Hh as (g & Hg & _). intros pid p Hr. by eapply new_path_free. }
  destruct (holds_at B d t path Hfree Hh) as (g & Hg & Ht & Hgp). rewrite Hc in Hgp.
  specialize (Huq (rp_paths _ _ _ _ _ _ _ _ Hg)). destruct Hpl as [(Hnf & Hkn) Prows Plive].
  rewrite <- Eold. apply (replaced_holds d g packID newID path old _ entries pk stream ids bs); try done.
  - unfold zlen in Hlen. rewrite length_map, located_length in Hlen. lia.
  - split; [|done]. by intros ->.
  - intros e Hin. destruct (Prows e Hin) as (id & off & Hb & _). by exists id, off.
Qed.

(** ** The statements that only keep the invariant *)

Lemma holds_damaged B d t packID :
  holds B d t -> holds B (MarkBackupPackDamagedContext jobID packID d) t.
Proof.
  intros (g & Hg & Ht). exists g. split; [by apply damaged_keeps|]. intros pid p Hr.
  destruct (jobs d !! jobID) as [j|] eqn:Ej.
  - apply (damaged_ready jobID d packID j) in Hr as [Hr _]; [|done].
    destruct (Ht pid p Hr) as [?|(? & Hd & ?)]; [by left|right]. split; [done|]. split; [|done].
    apply (fewer_dead d); [apply damaged_fewer| |done]. intros id b Hb _.
    by destruct (damaged_tables jobID d packID j Ej) as (_ & _ & <-).
  - unfold MarkBackupPackDamagedContext in Hr |- *. rewrite Ej in *. by apply Ht.
Qed.

Lemma holds_checked B d t ids now :
  holds B d t -> holds B (MarkBackupPacksCheckedContext jobID ids now d) t.
Proof.
  intros (g & Hg & Ht). exists g.
  split; [by destruct (checked_keeps sha256 known file_contents jobID repositoryRoot None d g ids now Hg)|].
  intros pid p (Hp & HJ & Hs). apply checked_lookup in Hp as (q & Hq & ->).
  assert (ready jobID d pid q /\ pk_path (if String.eqb (pk_job q) jobID && bool_decide (pk_state q = PackReady)
    && bool_decide (pid ∈ ids) then set_checked now q else q) = pk_path q) as [Hr ->].
  { destruct (_ && _); done. }
  exact (Ht pid q Hr).
Qed.

(** Once the job is gone nothing of it is left. *)
Lemma cleanup_tables d d' :
  DeleteBackupJobAfterRepositoryCleanupContext jobID d = (Ok true, d') ->
  (forall pid p, packs d' !! pid = Some p -> pk_job p <> jobID)
  /\ (forall id b, blocks d' !! id = Some b -> bl_job b <> jobID)
  /\ (forall id n, snapshots d' !! id = Some n -> sn_job n <> jobID).
Proof.
  unfold DeleteBackupJobAfterRepositoryCleanupContext. destruct (jobs d !! jobID) as [j|]; [|done].
  destruct (_ || _); [done|]. destruct (any_row _ (blocks d)) eqn:Eb; [done|]. intros [= <-]. cbn. split_and!.
  - intros pid p [_ Hp]%map_lookup_filter_Some. by apply String.eqb_neq.
  - intros id b Hb HJ. pose proof (proj1 (any_row_false _ _) Eb id b Hb) as Hf. cbv beta in Hf.
    by rewrite HJ, String.eqb_refl in Hf.
  - intros id n [_ Hn]%map_lookup_filter_Some. apply not_true_iff_false in Hn. intros HJ. apply Hn.
    by rewrite HJ, String.eqb_refl.
Qed.

Lemma holds_cleanup B d t :
  holds B d t -> holds B (DeleteBackupJobAfterRepositoryCleanupContext jobID d).2 t.
Proof.
  intros Hh. destruct (DeleteBackupJobAfterRepositoryCleanupContext jobID d) as [r d'] eqn:E. cbn [snd].
  destruct r as [[]|e].
  2, 3: assert (d' = d) as ->; [|done];
    unfold DeleteBackupJobAfterRepositoryCleanupContext in E; repeat case_match; congruence.
  destruct (cleanup_tables d d' E) as (Hp & Hb & Hs). destruct Hh as (g & Hg & _).
  assert (catalog_fk d') as Hfk.
  { assert (jobID <> (jobID +:+ "x")%string) as Hne.
    { intros Ex. apply (f_equal String.length) in Ex. rewrite str_length_app in Ex. cbn in Ex. lia. }
    pose proof (cleanup_frame (jobID +:+ "x")%string None jobID d Hne (rp_fk _ _ _ _ _ _ _ _ Hg)) as Hf.
    rewrite E in Hf. apply Hf. }
  exists g. split.
  - split; [done| | | | |].
    + intros pid p (Hq & HJ & _). by destruct (Hp pid p Hq).
    + intros id b Hq HJ. by destruct (Hb id b Hq).
    + intros id id' b b' Hq _ HJ. by destruct (Hb id b Hq).
    + intros pid pid' p p' Hq _ HJ. by destruct (Hp pid p Hq).
    + intros i it n _ [Hn HJ]. by destruct (Hs _ n Hn).
  - intros pid p (Hq & HJ & _). by destruct (Hp pid p Hq).
Qed.
End Upkeep.
