(* ===== verification/BackupKeeperSound.v ===== *)
(** * Maintenance keeps what can be restored

    The programs of BackupKeeper.v against the invariant of BackupUpkeep.v: whatever
    the target and the other workers do, whichever statements fail and wherever the
    work stops, every file of every visible snapshot stays restorable; and only work
    that deletes packs, when it is cut short, leaves the catalog with a pack that is
    no longer there. *)

From S2P Require Import Prelude GoPath HashString Storage Tables Bytes BackupRepo Ranges RestoreReader.
From S2P Require Import BackupDb BackupRuns BackupCatalog BackupMaintenance BackupScan BackupWriter.
From S2P Require Import BackupFrame BackupStore BackupSound BackupKeeper BackupUpkeep.

(** A successful upload leaves a prefix of the data, and a deletion leaves the file
    or nothing. *)
Class TidyTarget {T} (target : backup_target T) (contents : T -> string -> option bytes) := {
  law_stored p data n t t' : tgt_Upload target p data n t = (Ok tt, t') ->
    exists c rest, contents t' p = Some c /\ data = c ++ rest;
  law_removed p t : contents (tgt_Delete target p t).2 p = contents t p
    \/ contents (tgt_Delete target p t).2 p = None;
}.

Create HintDb upkeep discriminated.

Section KeeperSound.
Context `{GoSpace} (sha256 : bytes -> bytes).
Hypothesis sha256_length : forall l, length (sha256 l) = 32%nat.

Context {S T : Type} (target : backup_target T).
Context (contents : T -> string -> option bytes).
Context `{!TargetLaws target contents} `{!TidyTarget target contents}.

(** The work holds the lock of the job: no draft of it is published, and no other
    transaction gives its dead blocks new items. *)
Context (jobID repositoryRoot workerID : string).
Context (other : nat -> backup_db -> backup_db) (fault : nat -> option run_error).
Hypothesis other_onward : forall n d, catalog_fk d -> onward jobID d (other n d).
Context (now : nat -> Z) (uuid : nat -> nat -> string) (late : nat -> bool).

(** No collision among the blocks of the repository, nor among packs of them. *)
Context (known : bytes -> Prop).
Hypothesis collision_free : forall x y, known x -> known y -> sha256 x = sha256 y -> x = y.
Hypothesis packs_collision_free : forall es es' p p' stream stream',
  EncodePack sha256 es = Ok (p, stream) -> EncodePack sha256 es' = Ok (p', stream') ->
  Forall (fun e => known (e_Data e)) es -> Forall (fun e => known (e_Data e)) es' ->
  sha256 stream = sha256 stream' -> stream = stream'.

Abbreviation worker := (worker S T).
Abbreviation M := (@M S T).
Abbreviation db_call := (@db_call S T other fault now uuid).
Abbreviation holds := (holds jobID sha256 known repositoryRoot contents).

(** ** Triples *)

Section Triples.

(** The packs that may be missing if the work fails. *)
Context (W : string -> Prop).

Definition assertion : Type := backup_db -> T -> Prop.

(** From [R], the program keeps the invariant; if it succeeds, [Q] holds. *)
Definition triple {X} (R : assertion) (m : M X) (Q : X -> assertion) : Prop := forall w,
  holds W (wk_db w) (wk_target w) -> R (wk_db w) (wk_target w) ->
  let '(r, w') := m w in
  holds W (wk_db w') (wk_target w') /\ forall x, r = Ok x -> Q x (wk_db w') (wk_target w').

(** Other transactions keep the assertion. *)
Definition steady (R : assertion) : Prop := forall d d' t, onward jobID d d' -> R d t -> R d' t.

Definition any : assertion := fun _ _ => True.

Lemma triple_bind {X Y} R (m : M X) Q (k : X -> M Y) Q' :
  triple R m Q -> (forall x, triple (Q x) (k x) Q') -> triple R (bind m k) Q'.
Proof.
  intros Hm Hk w Hh Hr. specialize (Hm w Hh Hr). unfold bind.
  destruct (m w) as [[x|e] w1]; destruct Hm as [Hh1 HQ]; [|done].
  exact (Hk x w1 Hh1 (HQ x eq_refl)).
Qed.

Lemma triple_pre {X} (R R' : assertion) (m : M X) Q :
  (forall d t, holds W d t -> R d t -> R' d t) -> triple R' m Q -> triple R m Q.
Proof. intros HR Hm w Hh Hr. apply Hm; auto. Qed.

Lemma triple_post {X} R (m : M X) (Q Q' : X -> assertion) :
  triple R m Q -> (forall x d t, Q x d t -> Q' x d t) -> triple R m Q'.
Proof.
  intros Hm HQ w Hh Hr. specialize (Hm w Hh Hr). destruct (m w) as [r w1].
  destruct Hm as [Hh1 H1]. split; [done|]. intros x E. by apply HQ, H1.
Qed.

(** A fact that is no assertion. *)
Lemma triple_pure {X} (R : assertion) (P : Prop) (m : M X) Q :
  (P -> triple R m Q) -> triple (fun d t => R d t /\ P) m Q.
Proof. intros Hm w Hh [Hr Hp]. by apply (Hm Hp). Qed.

Lemma triple_lift {X} R (r : res run_error X) : triple R (lift r) (fun x d t => R d t /\ r = Ok x).
Proof. intros w Hh Hr. split; [done|]. by intros x ->. Qed.

Lemma triple_ret {X} R (x : X) Q : (forall d t, R d t -> Q x d t) -> triple R (ret x) Q.
Proof. intros HQ w Hh Hr. split; [done|]. intros y [= <-]. by apply HQ. Qed.

Lemma triple_throw {X} R (Q : X -> assertion) e : triple R (throw e) Q.
Proof. intros w Hh Hr. by split. Qed.

Lemma triple_attempt {X} R (m : M X) (Q : X -> assertion) :
  triple R m Q -> triple R (attempt m) (fun r d t => match r with Ok x => Q x d t | Err _ => True end).
Proof.
  intros Hm w Hh Hr. specialize (Hm w Hh Hr). unfold attempt. destruct (m w) as [r w1].
  destruct Hm as [Hh1 H1]. split; [done|]. intros x [= <-]. destruct r; auto.
Qed.

(** The attempt also keeps an assertion the program keeps when it fails. *)
Lemma triple_attempt_keep {X} (R : assertion) (m : M X) (Q : X -> assertion) :
  triple R m Q -> (forall w, R (wk_db w) (wk_target w) -> R (wk_db (m w).2) (wk_target (m w).2)) ->
  triple R (attempt m) (fun r d t => R d t /\ match r with Ok x => Q x d t | Err _ => True end).
Proof.
  intros Hm Hk w Hh Hr. specialize (Hm w Hh Hr). specialize (Hk w Hr). unfold attempt.
  destruct (m w) as [r w1]. destruct Hm as [Hh1 H1]. split; [done|]. intros x [= <-].
  split; [done|]. destruct r; auto.
Qed.

Lemma triple_get {X} R (f : worker -> X) : triple R (get f) (fun _ => R).
Proof. intros w Hh Hr. by split. Qed.

(** A statement, with other transactions before it. *)
Lemma triple_db {X} R (f : Z -> (nat -> string) -> backup_db -> res run_error X * backup_db) Q :
  steady R ->
  (forall n ids d t, holds W d t -> R d t ->
     holds W (f n ids d).2 t /\ forall x, (f n ids d).1 = Ok x -> Q x (f n ids d).2 t) ->
  triple R (db_call f) Q.
Proof.
  intros Hs Hf w Hh Hr. unfold BackupWriter.db_call.
  assert (catalog_fk (wk_db w)) as Hfk by (destruct Hh as (g & Hg & _); exact (rp_fk _ _ _ _ _ _ _ _ Hg)).
  pose proof (other_onward (wk_clock w) (wk_db w) Hfk) as Ho.
  assert (holds W (other (wk_clock w) (wk_db w)) (wk_target w)) as Hh1 by by eapply holds_onward.
  destruct (fault (wk_clock w)) as [e|]; [done|].
  specialize (Hf (now (wk_clock w)) (uuid (wk_clock w)) _ _ Hh1 (Hs _ _ _ Ho Hr)).
  by destruct (f _ _ _) as [r d'].
Qed.

(** A statement on other tables. *)
Definition aside (f : backup_db -> backup_db) : Prop := forall d,
  snapshots (f d) = snapshots d /\ items (f d) = items d /\ item_blocks (f d) = item_blocks d
  /\ packs (f d) = packs d /\ blocks (f d) = blocks d.

Lemma aside_onward f d : aside f -> catalog_fk d -> onward jobID d (f d).
Proof.
  intros Hf Hfk. destruct (Hf d) as (Es & Ei & El & Ep & Eb). apply onward_fewer.
  - by apply frame_same.
  - by apply fewer_same.
Qed.

Lemma holds_fk B d t : holds B d t -> catalog_fk d.
Proof. intros (g & Hg & _). exact (rp_fk _ _ _ _ _ _ _ _ Hg). Qed.

Lemma triple_aside {X} R (f : Z -> (nat -> string) -> backup_db -> res run_error X * backup_db) :
  steady R -> (forall n ids, aside (fun d => (f n ids d).2)) -> triple R (db_call f) (fun _ => R).
Proof.
  intros Hs Hf. apply triple_db; [done|]. intros n ids d t Hh Hr.
  pose proof (aside_onward _ d (Hf n ids) (holds_fk _ _ _ Hh)) as Ho. split; [by eapply holds_onward|].
  intros _ _. by apply (Hs d).
Qed.

Lemma triple_query {X} R (f : backup_db -> X) :
  steady R -> triple R (query other fault now uuid f) (fun x d t => R d t /\ x = f d).
Proof. intros Hs. apply triple_db; [done|]. intros n ids d t Hh Hr. cbn. split; [done|]. by intros x [= <-]. Qed.

(** A call of the target that leaves the READY packs alone. *)
Lemma triple_target {X} (R : assertion) (f : T -> res run_error X * T) Q :
  (forall d t, holds W d t -> R d t -> holds W d (f t).2 /\ forall x, (f t).1 = Ok x -> Q x d (f t).2) ->
  triple R (target_call f) Q.
Proof.
  intros Hf w Hh Hr. unfold target_call. specialize (Hf _ _ Hh Hr). by destruct (f (wk_target w)) as [r t].
Qed.

(** A call that only reads. *)
Lemma triple_read {X} (R : assertion) (f : T -> res run_error X * T) Q :
  (forall t q, contents (f t).2 q = contents t q) ->
  (forall d t, R d t -> forall x, (f t).1 = Ok x -> Q x d (f t).2) -> triple R (target_call f) Q.
Proof.
  intros Hc HQ. apply triple_target. intros d t Hh Hr. split; [|by apply HQ].
  apply (holds_target jobID sha256 known repositoryRoot contents W d t); [|done].
  intros pid p _. apply Hc.
Qed.
End Triples.

(** ** Statements and calls of the coordinator *)

Lemma triple_transaction W (R : assertion) msg f (Q : assertion) :
  steady R ->
  (forall n ids d t d', holds W d t -> R d t -> f n ids d = Some d' -> holds W d' t /\ Q d' t) ->
  triple W R (transaction other fault now uuid msg f) (fun _ => Q).
Proof.
  intros Hs Hf. apply triple_db; [done|]. intros n ids d t Hh Hr.
  specialize (Hf n ids d t). destruct (f n ids d) as [d'|]; cbn; [|done].
  destruct (Hf d' Hh Hr eq_refl) as [H1 H2]. split; [done|]. by intros x [= <-].
Qed.

(** A refused or unconcerned transaction on other tables. *)
Lemma triple_transaction_aside W (R : assertion) msg f :
  steady R -> (forall n ids d d', f n ids d = Some d' ->
    snapshots d' = snapshots d /\ items d' = items d /\ item_blocks d' = item_blocks d
    /\ packs d' = packs d /\ blocks d' = blocks d) ->
  triple W R (transaction other fault now uuid msg f) (fun _ => R).
Proof.
  intros Hs Hf. apply triple_aside; [done|]. intros n ids d. cbn.
  destruct (f n ids d) as [d'|] eqn:E; [by apply (Hf n ids)|done].
Qed.

Lemma enqueue_triple W R kind :
  steady R -> triple W R (enqueue_work other fault now uuid jobID kind) (fun _ => R).
Proof.
  intros Hs. apply triple_transaction_aside; [done|]. intros n ids d d' E.
  unfold EnqueueBackupMaintenanceContext in E. destruct (_ || _); [done|]. by injection E as <-.
Qed.

Lemma steady_and (R R' : assertion) : steady R -> steady R' -> steady (fun d t => R d t /\ R' d t).
Proof. intros H1 H2 d d' t Ho [? ?]. split; [by apply (H1 d)|by apply (H2 d)]. Qed.

Lemma steady_holds B : steady (holds B).
Proof. intros d d' t Ho. by apply holds_onward. Qed.

Lemma steady_any : steady any.
Proof. done. Qed.

Lemma steady_target (P : T -> Prop) : steady (fun _ t => P t).
Proof. by intros d d' t _. Qed.

Definition no_ready (packID : string) : assertion := fun d _ => forall p, ~ ready jobID d packID p.

Lemma steady_no_ready packID : steady (no_ready packID).
Proof.
  intros d d' t [Hf _] Hn p Hr. apply (Hn p). by apply (frame_ready jobID None d d').
Qed.

Lemma steady_retired packID path : steady (fun d _ => retired jobID d packID path).
Proof. intros d d' t Ho. by apply onward_retired. Qed.

Lemma steady_all {A} (l : list A) (P : A -> assertion) :
  (forall x, steady (P x)) -> steady (fun d t => Forall (fun x => P x d t) l).
Proof. intros Hs d d' t Ho Hl. eapply Forall_impl; [exact Hl|]. intros x. by apply Hs. Qed.

Hint Resolve steady_and steady_holds steady_any steady_target steady_no_ready steady_retired : upkeep.

(** A pack that is not READY is not missed. *)
Lemma holds_unready B d t packID :
  (forall p, ~ ready jobID d packID p) -> holds (fun pid => B pid \/ pid = packID) d t -> holds B d t.
Proof.
  intros Hn (g & Hg & Ht). exists g. split; [done|]. intros pid p Hr.
  destruct (Ht pid p Hr) as [?|(? & ? & [?| ->])]; [by left|by right|by destruct (Hn p)].
Qed.

(** The file of a retired pack is taken off the target. *)
Lemma removed_file B d t packID path :
  retired jobID d packID path -> holds B d t ->
  holds (fun pid => B pid \/ pid = packID) d (tgt_Delete target path t).2.
Proof.
  intros (Hd & p & Hp & HJ & <-) Hh.
  apply (holds_delete jobID sha256 known repositoryRoot contents B d t _ packID p); try done.
  - intros q Hq. by apply law_delete.
  - destruct (law_removed (pk_path p) t) as [E|E]; [by left|by right].
Qed.

Lemma remote_triple W (R R' : assertion) pack :
  (forall d t t', (forall q, contents t' q = contents t q) -> holds W d t -> R d t -> R d t') ->
  (forall d t, holds W d t -> R d t ->
     holds W d (tgt_Delete target (pk_path pack) t).2 /\ R' d (tgt_Delete target (pk_path pack) t).2) ->
  (forall d t, R d t -> R' d t) ->
  triple W R (deleteRemotePack target pack) (fun _ => R').
Proof.
  intros Hsame Hdel Himp. unfold deleteRemotePack. eapply triple_bind.
  - apply (triple_target W R _ (fun _ => R)). intros d t Hh Hr.
    assert (forall q, contents (tgt_FileExists target (pk_path pack) t).2 q = contents t q) as Hc
      by (intros q; apply law_exists).
    split; [|intros _ _; by apply (Hsame d t)].
    apply (holds_target jobID sha256 known repositoryRoot contents W d t); [|done]. intros pid p _. apply Hc.
  - intros [[] n]; cbn [fst].
    + apply triple_target. intros d t Hh Hr. destruct (Hdel d t Hh Hr) as [H1 H2]. by split.
    + by apply triple_ret.
Qed.

(** *** Deleting packs *)

Abbreviation retired_all l := (fun d (_ : T) => Forall (fun x => retired jobID d x.1 (pk_path x.2)) l).

Lemma marked_retired d d' packID pid path :
  trimmed jobID d d' packID -> retired jobID d pid path -> retired jobID d' pid path.
Proof.
  intros Ht (Hd & p & Hp & HJ & E). split; [by apply (trimmed_dead jobID d d' packID)|].
  destruct (tm_up _ _ _ _ Ht pid p Hp) as (p' & Hp' & EJ & Ep & _). exists p'.
  by rewrite EJ, Ep.
Qed.

Lemma weaken (B B' : string -> Prop) d t : (forall pid, B pid -> B' pid) -> holds B d t -> holds B' d t.
Proof. apply holds_mono. Qed.

Lemma holds_same B d t t' : (forall q, contents t' q = contents t q) -> holds B d t -> holds B d t'.
Proof. intros Hc. apply holds_target. intros pid p _. apply Hc. Qed.

Lemma delete_packs_triple B l :
  triple (fun _ => True) (fun d t => holds B d t /\ retired_all l d t)
    (delete_packs target other fault now uuid jobID l) (fun _ => holds B).
Proof.
  induction l as [|[packID pack] l IH]; cbn [delete_packs]; [by apply triple_ret; intros d t [? _]|].
  set (B' := fun pid => B pid \/ pid = packID).
  eapply triple_bind.
  - apply (remote_triple _ _ (fun d t => holds B' d t /\ retired_all ((packID, pack) :: l) d t)).
    + intros d t t' Hc _ [Hh Hl]. split; [by apply (holds_same B d t)|done].
    + intros d t Hw [Hh Hl]. pose proof Hl as [Hr _]%Forall_cons. split; [|split; [|done]].
      * apply (weaken (fun pid => True \/ pid = packID)); [done|]. by apply removed_file.
      * by apply removed_file.
    + intros d t [Hh Hl]. split; [|done]. apply (weaken B); [by left|exact Hh].
  - intros u. eapply triple_bind; [|intros u'; exact IH]. apply triple_transaction.
    + apply steady_and; [apply steady_holds|]. apply (steady_all _ (fun x d _ => retired jobID d x.1 (pk_path x.2))).
      intros x. apply steady_retired.
    + intros n ids d t d' _ [Hh [[Hd Hrow] Hl]%Forall_cons] E. cbn in Hd.
      pose proof (mark_deleted_trimmed jobID packID d d' E) as Ht.
      assert (holds (fun pid => B' pid /\ pid <> packID) d' t) as Hh'
        by by apply (holds_trimmed jobID sha256 known repositoryRoot contents B' d).
      split; [by apply (weaken (fun pid => B' pid /\ pid <> packID))|]. split.
      * apply (weaken (fun pid => B' pid /\ pid <> packID)); [by intros pid [[?| ->] ?]|exact Hh'].
      * eapply Forall_impl; [exact Hl|]. intros x. by apply (marked_retired d d' packID).
Qed.

(** ** Retention and deletion *)

Lemma reclaimable_retired d :
  Forall (fun x => retired jobID d x.1 (pk_path x.2)) (ListBackupReclaimablePacksContext jobID packLimit d).
Proof.
  apply Forall_forall. intros [pid p] Hin. apply oldest_in in Hin as [Hp Hc]. cbn [fst snd] in *.
  apply andb_true_iff in Hc as [Hc Hl]. apply andb_true_iff in Hc as [Hc _].
  apply andb_true_iff in Hc as [HJ _]. apply negb_true_iff in Hl. apply String.eqb_eq in HJ.
  split; [by apply pack_live_dead|by exists p].
Qed.

Lemma expire_triple W B keep :
  triple W (holds B) (statement other fault now uuid (fun _ d => ExpireBackupSnapshotsContext jobID keep d))
    (fun _ => holds B).
Proof.
  apply triple_db; [apply steady_holds|]. intros n ids d t Hh Hr. cbn.
  assert (onward jobID d (ExpireBackupSnapshotsContext jobID keep d)) as Ho.
  { apply onward_fewer; [apply expire_frame; by eapply holds_fk|apply expire_fewer]. }
  split; [by eapply holds_onward|]. intros _ _. by eapply holds_onward.
Qed.

Lemma retention_triple B keep :
  triple (fun _ => True) (holds B) (applyRetention target other fault now uuid jobID keep) (fun _ => holds B).
Proof.
  unfold applyRetention. eapply triple_bind; [apply expire_triple|]. intros u.
  eapply triple_bind; [apply triple_query, steady_holds|]. intros packs. cbn beta.
  eapply triple_bind.
  - eapply triple_pre; [|apply (delete_packs_triple B packs)]. intros d t _ [Hh ->].
    split; [done|apply reclaimable_retired].
  - intros u'. destruct (_ =? _); [apply enqueue_triple, steady_holds|].
    eapply triple_bind; [apply triple_query, steady_holds|]. intros [c|]; cbn beta.
    + eapply triple_pre; [|apply enqueue_triple, steady_holds]. by intros d t _ [? _].
    + apply triple_ret. by intros d t [? _].
Qed.

(** No snapshot of the job is visible any more. *)
Definition nothing_live : assertion := fun d _ => forall pid, dead jobID d pid.

Lemma steady_nothing_live : steady nothing_live.
Proof. intros d d' t Ho Hn pid. by apply (onward_dead jobID d). Qed.

Lemma deletable_retired d t :
  nothing_live d t ->
  Forall (fun x => retired jobID d x.1 (pk_path x.2)) (ListBackupPacksForDeletionContext jobID packLimit d).
Proof.
  intros Hn. apply Forall_forall. intros [pid p] Hin. apply oldest_in in Hin as [Hp Hc]. cbn [fst snd] in *.
  apply andb_true_iff in Hc as [Hc _]. apply andb_true_iff in Hc as [HJ _]. apply String.eqb_eq in HJ.
  split; [apply Hn|by exists p].
Qed.

(** A file that is no pack may go. *)
Lemma format_removed W d t path :
  repositoryPath repositoryRoot ["format-v1.json"] = Ok path -> holds W d t ->
  holds W d (tgt_Delete target path t).2.
Proof.
  intros Hf Hh. apply (holds_target jobID sha256 known repositoryRoot contents W d t); [|done].
  intros pid p Hr. apply law_delete. destruct Hh as (g & Hg & _).
  destruct (rp_packs _ _ _ _ _ _ _ _ Hg pid p Hr) as [es [Hp _ _ _ _]].
  intros E. by apply (format_path_not_pack repositoryRoot _ _ _ Hp Hf).
Qed.

Lemma deletion_triple B maintenanceID :
  triple (fun _ => True) (fun d t => holds B d t /\ nothing_live d t)
    (deleteRepository target other fault now uuid jobID repositoryRoot maintenanceID) (fun _ => holds B).
Proof.
  unfold deleteRepository. eapply triple_bind.
  { apply triple_query, steady_and; [apply steady_holds|apply steady_nothing_live]. }
  intros packs. cbn beta. eapply (triple_bind _ _ _ (fun _ => holds B)).
  { eapply triple_pre; [|apply (delete_packs_triple B packs)]. intros d t _ [[Hh Hn] ->].
    split; [done|]. by eapply deletable_retired. }
  intros u. destruct (_ =? _).
  { apply triple_aside; [apply steady_holds|done]. }
  eapply triple_bind; [apply triple_lift|]. intros path. cbn beta. apply triple_pure. intros Hpath.
  eapply (triple_bind _ _ _ (fun _ => holds B)).
  { apply triple_read; [intros t q; apply law_exists|]. intros d t Hh x _.
    apply (holds_same B d t); [intros q; apply law_exists|done]. }
  intros found. eapply (triple_bind _ _ _ (fun _ => holds B)).
  { destruct (found.1); [|by apply triple_ret]. apply triple_target. intros d t Hh Hb.
    split; [by apply format_removed|]. intros _ _. by apply format_removed. }
  intros u'. eapply (triple_bind _ _ _ (fun _ => holds B)).
  { apply triple_db; [apply steady_holds|]. intros n ids d t Hw Hb.
    pose proof (holds_cleanup jobID sha256 known repositoryRoot contents _ d t Hw) as Hcw.
    pose proof (holds_cleanup jobID sha256 known repositoryRoot contents _ d t Hb) as Hcb.
    destruct (DeleteBackupJobAfterRepositoryCleanupContext jobID d) as [[] d']; by split. }
  intros []; [by apply triple_ret|apply triple_throw].
Qed.

(** ** Compaction *)

Lemma triple_exists {A X} W (R : A -> assertion) (m : M X) Q :
  (forall a, triple W (R a) m Q) -> triple W (fun d t => exists a, R a d t) m Q.
Proof. intros Hm w Hh [a Hr]. by apply (Hm a). Qed.

Abbreviation chosen packID pack k := (fun d (_ : T) => chosen jobID d packID pack k).
Abbreviation listed packID k l := (fun d (_ : T) => listed jobID d packID k l).
Abbreviation planned packID k es ids := (fun d (_ : T) => planned jobID known d packID k es ids).

Lemma steady_chosen packID pack k : steady (chosen packID pack k).
Proof. intros d d' t Ho. by apply chosen_onward. Qed.
Lemma steady_listed packID k l : steady (listed packID k l).
Proof. intros d d' t Ho. by apply listed_onward. Qed.
Lemma steady_planned packID k es ids : steady (planned packID k es ids).
Proof. intros d d' t Ho. by apply planned_onward. Qed.
Hint Resolve steady_chosen steady_listed steady_planned : upkeep.

Lemma read_live_triple W packID pack k l :
  triple W (fun d t => chosen packID pack k d t /\ listed packID k l d t)
    (read_live sha256 target pack l)
    (fun r d t => chosen packID pack k d t /\ planned packID k r.1 r.2 d t).
Proof.
  unfold read_live.
  eapply (triple_bind _ _ _ (fun reader d t => (chosen packID pack k d t /\ listed packID k l d t)
    /\ exists rest, contents t (pk_path pack) = Some (reader.1 ++ rest))).
  { apply triple_read; [intros t q; apply law_download|]. intros d t Hr [data e] E. split; [done|].
    destruct (law_data (pk_path pack) t data e E) as [rest Hc]. exists rest. by rewrite law_download. }
  intros [data e]. cbn [fst]. destruct (negb _); [apply triple_throw|].
  destruct (ValidatePack _ _ _ _ _) as [[p [entries ids]]|] eqn:Ev; [|apply triple_throw].
  destruct (negb _); [apply triple_throw|].
  intros w Hh ((Hch & Hl) & rest & Hc). split; [done|]. intros x [= <-]. split; [done|]. cbn [fst snd].
  by apply (read_planned jobID sha256 sha256_length known repositoryRoot contents W (wk_db w) (wk_target w)
    packID pack k l data rest entries ids p).
Qed.

(** The upload of the replacement touches no READY pack. *)
Lemma upload_triple W packID pack k entries ids pk stream path :
  EncodePack sha256 entries = Ok (pk, stream) -> pack_path repositoryRoot (p_ID pk) = Ok path ->
  triple W (fun d t => chosen packID pack k d t /\ planned packID k entries ids d t)
    (target_call (tgt_Upload target path stream (p_Size pk)))
    (fun _ d t => (chosen packID pack k d t /\ planned packID k entries ids d t)
       /\ exists c rest, contents t path = Some c /\ stream = c ++ rest).
Proof.
  intros He Hp. apply triple_target. intros d t Hh (Hch & Hpl). split.
  - apply (holds_target jobID sha256 known repositoryRoot contents W d t); [|done].
    intros pid p Hr. apply law_upload. destruct Hh as (g & Hg & _).
    by eapply (new_path_free jobID sha256 sha256_length known repositoryRoot packs_collision_free d g).
  - intros [] E. split; [done|]. destruct (tgt_Upload target path stream (p_Size pk) t) as [r t'] eqn:Eu.
    cbn in E. subst r. exact (law_stored _ _ _ _ _ Eu).
Qed.

(** Once its size is confirmed the file is the pack that was encoded. *)
Lemma confirm_triple W (R : assertion) entries pk stream path :
  EncodePack sha256 entries = Ok (pk, stream) ->
  (forall d t t', (forall q, contents t' q = contents t q) -> R d t -> R d t') ->
  triple W (fun d t => R d t /\ exists c rest, contents t path = Some c /\ stream = c ++ rest)
    (confirm_replacement sha256 target path pk)
    (fun _ d t => R d t /\ contents t path = Some stream).
Proof.
  intros He HR. unfold confirm_replacement.
  eapply (triple_bind _ _ _ (fun found d t => match found with
    | Ok (true, n) => R d t /\ exists c rest, contents t path = Some c /\ stream = c ++ rest /\ zlen c = n
    | _ => True end)).
  { eapply triple_post; [apply (triple_attempt _ _ _ (fun x d t => match x with
      | (true, n) => R d t /\ exists c rest, contents t path = Some c /\ stream = c ++ rest /\ zlen c = n
      | _ => True end))|].
    - apply triple_read; [intros t q; apply law_exists|].
      intros d t (Hr & c & rest & Hc & Es) [[] n] E; [|done].
      destruct (law_size path t n E) as (c' & Hc' & Hn). rewrite Hc in Hc'. injection Hc' as <-.
      split; [by apply (HR d t); [intros q; apply law_exists|]|]. exists c, rest.
      by rewrite law_exists.
    - by intros [[[] n]|e] d t Hx. }
  intros [[[] n]|e]; [|apply triple_throw..].
  destruct (negb (n =? p_Size pk)) eqn:En; [apply triple_throw|]. apply negb_false_iff, Z.eqb_eq in En.
  eapply (triple_bind _ _ _ (fun _ d t => R d t /\ contents t path = Some stream)).
  - apply triple_read; [intros t q; apply law_download|].
    intros d t (Hr & c & rest & Hc & Es & Hn) x _.
    split; [by apply (HR d t); [intros q; apply law_download|]|]. rewrite law_download, Hc. f_equal.
    pose proof (encode_size sha256 sha256_length _ _ _ He) as Hz. rewrite Es, zlen_app in Hz.
    assert (rest = []) as -> by (apply zlen_nil_inv; lia). by rewrite app_nil_r in Es.
  - intros [data e]. destruct (ValidatePack _ _ _ _ _) as [v|]; [|apply triple_throw].
    destruct (snd _); [apply triple_throw|]. by apply triple_ret.
Qed.

Lemma replacement_locators_ok entries pk stream l :
  EncodePack sha256 entries = Ok (pk, stream) -> replacement_locators sha256 entries stream pk = Ok l ->
  l = map pack_block (located packPrefixSize entries).
Proof.
  intros He. unfold replacement_locators.
  destruct (ValidatePack _ _ _ _ _) as [[p [bs n]]|] eqn:Ev; [|done].
  destruct (negb _); [done|]. intros [= <-].
  apply validate_sound in Ev as (es & Hes & _ & _ & Hrun); [|done].
  pose proof (encode_inj sha256 sha256_length _ _ _ _ _ He Hes) as <-.
  apply confirm_run in Hrun as (_ & _ & ->). done.
Qed.

Abbreviation replaced packID path := (fun d t => retired jobID d packID path /\ no_ready packID d t).

Lemma replace_triple W packID pack k entries ids :
  triple W (fun d t => chosen packID pack k d t /\ planned packID k entries ids d t)
    (replace_pack sha256 target other fault now uuid jobID repositoryRoot packID entries ids)
    (fun _ => replaced packID (pk_path pack)).
Proof.
  unfold replace_pack. destruct (EncodePack sha256 entries) as [[pk stream]|e] eqn:He; [|apply triple_throw].
  set (R := fun d t => chosen packID pack k d t /\ planned packID k entries ids d t).
  assert (forall d t t', (forall q, contents t' q = contents t q) -> R d t -> R d t') as HR by done.
  eapply triple_bind; [apply triple_lift|]. intros path. cbn beta.
  eapply (triple_bind _ _ _ (fun _ d t => R d t /\ pack_path repositoryRoot (p_ID pk) = Ok path)).
  { apply triple_read; [intros t q; apply law_parents|]. by intros d t Hr x _. }
  intros u. apply triple_pure. intros Hp. eapply triple_bind; [by apply upload_triple|]. intros u1.
  eapply triple_bind; [by apply (confirm_triple W R entries)|]. intros u2. cbn beta.
  eapply triple_bind; [apply triple_lift|]. intros l. cbn beta. apply triple_transaction.
  { repeat apply steady_and; auto with upkeep. }
  intros n newID d t d' Hh [[[Hch Hpl] Hc] El] E.
  rewrite (replacement_locators_ok _ _ _ _ He El) in E.
  destruct (replace_holds jobID sha256 sha256_length known collision_free repositoryRoot contents
    packs_collision_free W d t d' packID pack k entries ids pk stream path (newID O) n Hh Hch Hpl He Hp Hc E)
    as (Hh' & Hret & Hno).
  done.
Qed.

Lemma compaction_triple W :
  triple W any (compactOnePack sha256 target other fault now uuid jobID repositoryRoot) (fun _ => any).
Proof.
  unfold compactOnePack. eapply triple_bind; [apply triple_query, steady_any|].
  intros [[packID pack]|]; cbn beta; [|by apply triple_ret].
  apply (triple_pre _ _ (fun d t => exists k, chosen packID pack k d t)).
  { intros d t Hh [_ E]. apply candidate_chosen; [by eapply holds_fk|done]. }
  apply triple_exists. intros k.
  eapply triple_bind; [apply triple_query, steady_chosen|]. intros l.
  eapply triple_bind.
  { eapply triple_pre; [|apply (read_live_triple W packID pack k l)].
    intros d t _ [Hch ->]. split; [done|by eapply live_blocks_listed]. }
  intros [entries ids]. cbn [fst snd]. eapply triple_bind; [apply replace_triple|]. intros u.
  eapply (triple_bind _ _ _ (fun _ => replaced packID (pk_path pack))).
  { apply remote_triple; [by intros d t t' _ _ Hr| |done].
    intros d t Hh [Hr Hn]. split; [|done]. by apply (holds_unready W d _ packID); [|apply removed_file]. }
  intros u1. eapply (triple_bind _ _ _ (fun _ => any)).
  { apply triple_transaction; [auto with upkeep|]. intros n newID d t d' Hh [[Hd _] _] E. split; [|done].
    apply (weaken (fun pid => W pid /\ pid <> packID)); [by intros pid [? _]|].
    apply (holds_trimmed jobID sha256 known repositoryRoot contents W d); [|done..].
    by apply mark_deleted_trimmed. }
  intros u2. eapply triple_bind; [apply triple_query, steady_any|]. intros [c|]; [|by apply triple_ret].
  eapply triple_pre; [|apply enqueue_triple, steady_any]. done.
Qed.

(** ** Verification *)

Section Verification.
Context (W : string -> Prop).

(** Programs that keep the invariant whatever they answer. *)
Definition upholds {X} (m : M X) : Prop := triple W any m (fun _ => any).

Lemma upholds_bind {X Y} (m : M X) (k : X -> M Y) :
  upholds m -> (forall x, upholds (k x)) -> upholds (bind m k).
Proof. apply triple_bind. Qed.

Lemma upholds_lift {X} (r : res run_error X) : upholds (lift r).
Proof. intros w Hh _. by split. Qed.

Lemma upholds_attempt {X} (m : M X) : upholds m -> upholds (attempt m).
Proof. intros Hm. eapply triple_post; [by apply triple_attempt|done]. Qed.

Lemma upholds_get {X} (f : worker -> X) : upholds (get f).
Proof. apply triple_get. Qed.

Lemma upholds_aside {X} (f : Z -> (nat -> string) -> backup_db -> res run_error X * backup_db) :
  (forall n ids, aside (fun d => (f n ids d).2)) -> upholds (db_call f).
Proof. apply triple_aside, steady_any. Qed.

Lemma upholds_query {X} (f : backup_db -> X) : upholds (query other fault now uuid f).
Proof. eapply triple_post; [apply triple_query, steady_any|done]. Qed.

Lemma upholds_statement (f : Z -> backup_db -> backup_db) :
  (forall n, aside (f n)) -> upholds (statement other fault now uuid f).
Proof. intros Hf. apply upholds_aside. intros n ids. apply Hf. Qed.

Lemma upholds_quietly (f : Z -> backup_db -> backup_db) :
  (forall n, aside (f n)) -> upholds (quietly other fault now uuid f).
Proof.
  intros Hf. apply upholds_bind; [apply upholds_attempt, upholds_aside; intros n ids; apply Hf|].
  intros r. apply (upholds_lift (Ok tt)).
Qed.

Lemma upholds_read {X} (f : T -> res run_error X * T) :
  (forall t q, contents (f t).2 q = contents t q) -> upholds (target_call f).
Proof. intros Hc. by apply triple_read. Qed.

Lemma upholds_exists p : upholds (target_call (tgt_FileExists target p)).
Proof. apply upholds_read. intros t q. apply law_exists. Qed.

Lemma upholds_download p : upholds (target_call (tgt_Download target p)).
Proof. apply upholds_read. intros t q. apply law_download. Qed.

Lemma upholds_release id epoch : upholds (release_target other fault now uuid id epoch).
Proof. by apply upholds_quietly. Qed.

Lemma upholds_complete id ex expected actual epoch :
  upholds (complete_target other fault now uuid id ex expected actual epoch).
Proof. by apply upholds_aside. Qed.

Lemma upholds_checked ids :
  upholds (statement other fault now uuid (MarkBackupPacksCheckedContext jobID ids)).
Proof.
  apply triple_db; [apply steady_any|]. intros n newID d t Hh _. split; [|done]. by apply holds_checked.
Qed.

Lemma upholds_damaged packID :
  upholds (statement other fault now uuid (fun _ d => MarkBackupPackDamagedContext jobID packID d)).
Proof.
  apply triple_db; [apply steady_any|]. intros n newID d t Hh _. split; [|done]. by apply holds_damaged.
Qed.

Hint Resolve upholds_bind upholds_lift upholds_attempt upholds_get upholds_query upholds_exists
  upholds_download upholds_release upholds_complete upholds_checked upholds_damaged : upkeep.
Hint Extern 1 (upholds (ret ?x)) => exact (upholds_lift (Ok x)) : upkeep.
Hint Extern 1 (upholds (throw ?e)) => exact (upholds_lift (Err e)) : upkeep.
Hint Extern 1 (upholds (statement _ _ _ _ _)) => apply upholds_statement; done : upkeep.

Lemma upholds_record_read maintenanceID id t size :
  upholds (record_read other fault now uuid jobID maintenanceID id t size).
Proof. unfold record_read. destruct (vt_pack t); auto 10 with upkeep. Qed.

Lemma upholds_read_target maintenanceID id t size b :
  upholds (read_target sha256 target other fault now uuid jobID maintenanceID id t size b).
Proof.
  unfold read_target. destruct (_ && _); [auto with upkeep|].
  apply upholds_bind; [auto with upkeep|]. intros [[stream e]|e]; [|auto with upkeep].
  destruct (negb _); [auto with upkeep|]. destruct (ValidatePack _ _ _ _ _).
  - apply upholds_bind; [apply upholds_record_read|auto with upkeep].
  - destruct (isRetryableVerifyReadError _); auto with upkeep.
Qed.

Lemma upholds_verify_one maintenanceID id t b :
  upholds (verify_one sha256 target other fault now uuid jobID maintenanceID id t b).
Proof.
  unfold verify_one. apply upholds_bind; [auto with upkeep|]. intros [[ex size]|e]; [|auto with upkeep].
  destruct (_ || _); [auto with upkeep|]. destruct (reads_pack b); [apply upholds_read_target|auto with upkeep].
Qed.

Lemma upholds_settle maintenanceID t s :
  upholds (settle_target other fault now uuid jobID maintenanceID t s).
Proof. unfold settle_target. destruct s, (vt_pack t); auto with upkeep. Qed.

Lemma claim_aside maintenanceID n :
  aside (fun d => (ClaimNextBackupVerifyTargetContext maintenanceID workerID n d).2).
Proof.
  intros d. unfold ClaimNextBackupVerifyTargetContext. destruct (merge_sort _ _) as [|[id t] l]; done.
Qed.

Lemma upholds_loop fuel maintenanceID : forall b,
  upholds (check_loop sha256 target other fault now uuid late jobID workerID fuel maintenanceID b).
Proof.
  induction fuel as [|fuel IH]; intros b; cbn [check_loop]; [auto with upkeep|].
  apply upholds_bind.
  { apply upholds_aside. intros n ids d. pose proof (claim_aside maintenanceID n d) as Ha.
    cbv beta in Ha. by destruct (ClaimNextBackupVerifyTargetContext _ _ _ _). }
  intros [[id t]|]; [|auto with upkeep]. apply upholds_bind; [auto with upkeep|]. intros n.
  destruct (late n); [auto with upkeep|]. apply upholds_bind; [auto with upkeep|]. intros [].
  - auto with upkeep.
  - apply upholds_bind; [apply upholds_verify_one|]. intros r.
    apply upholds_bind; [apply upholds_settle|]. intros u. apply IH.
Qed.

Lemma upholds_transaction msg f :
  (forall n ids d d', f n ids d = Some d' ->
    snapshots d' = snapshots d /\ items d' = items d /\ item_blocks d' = item_blocks d
    /\ packs d' = packs d /\ blocks d' = blocks d) ->
  upholds (transaction other fault now uuid msg f).
Proof. apply triple_transaction_aside, steady_any. Qed.

Lemma upholds_verify fuel maintenanceID m :
  upholds (verifyRepositoryMetadata sha256 target other fault now uuid late jobID workerID fuel maintenanceID m).
Proof.
  unfold verifyRepositoryMetadata. destruct (mt_mode m); [|auto with upkeep].
  apply upholds_bind.
  { apply upholds_transaction. intros n ids d d' E. unfold SnapshotBackupVerifyTargetsContext in E.
    destruct (_ && _); [done|]. destruct (insert_targets _ _ _ _); [|done]. by injection E as <-. }
  intros u. apply upholds_bind; [apply upholds_loop|]. intros []; [|auto with upkeep].
  apply upholds_transaction. intros n ids d d' E. unfold CompleteBackupVerifyContext in E.
  destruct (update_row _ _ _ _) as [[] ms]; [|done]. by injection E as <-.
Qed.
End Verification.

(** ** One claim *)

Lemma triple_narrow {X} B (m : M X) :
  triple B any m (fun _ => any) -> triple (fun _ => True) (holds B) m (fun _ => holds B).
Proof.
  intros Hm w Hh Hr. specialize (Hm w Hr I). destruct (m w) as [r w1]. destruct Hm as [Hb _].
  split; [by apply (weaken B)|done].
Qed.

(** A claim of the deletion of the repository is made when no snapshot is visible. *)
Definition fit (m : maintenance_row) : assertion := fun d t =>
  mt_kind m = DELETE_REPOSITORY -> nothing_live d t.

Abbreviation carry_out fuel keep connected id m :=
  (executeMaintenance sha256 target other fault now uuid late jobID repositoryRoot workerID
     fuel keep connected id m).

Lemma execute_triple B fuel keep connected id m :
  triple (fun _ => True) (fun d t => holds B d t /\ fit m d t) (carry_out fuel keep connected id m)
    (fun _ => holds B).
Proof.
  unfold executeMaintenance. eapply triple_bind; [apply triple_lift|]. intros u. cbn beta.
  apply triple_pure. intros _. unfold fit. destruct (mt_kind m).
  - eapply triple_pre; [|apply retention_triple]. by intros d t _ [? _].
  - eapply triple_pre; [|apply triple_narrow, compaction_triple]. by intros d t _ [? _].
  - eapply triple_pre; [|apply deletion_triple]. intros d t _ [Hh Hn]. split; [done|by apply Hn].
  - eapply triple_pre; [|apply triple_narrow, upholds_verify]. by intros d t _ [? _].
Qed.

Lemma run_triple fuel keep connected id m :
  triple (fun _ => True) (fit m)
    (runMaintenance sha256 target other fault now uuid late jobID repositoryRoot workerID
       fuel keep connected id m) (fun _ => any).
Proof.
  unfold runMaintenance. eapply (triple_bind _ _ _ (fun _ => any)).
  { eapply triple_post; [apply triple_attempt|done].
    eapply triple_pre; [|apply (execute_triple (fun _ => True))]. by intros d t Hh Hf. }
  intros [u|e].
  - apply upholds_transaction. intros n ids d d' E. unfold CompleteBackupMaintenanceContext in E.
    destruct (maintenance d !! id); [|done]. destruct (update_row _ _ _ _) as [[] ms]; by injection E as <-.
  - destruct (bool_decide _); [by apply upholds_statement|by apply upholds_quietly].
Qed.

(** Every file of a visible snapshot of the job is restored. *)
Definition restores (d : backup_db) (t : T) : Prop := forall i it n,
  items d !! i = Some it -> job_snapshot jobID d (it_snapshot it) n -> sn_state n ∈ visible ->
  it_is_dir it = false ->
  exists content, it_sha256 it = Some (sha256 content)
    /\ restore_item sha256 contents jobID d t i it = restored it content.

Lemma holds_restores B d t : holds B d t -> restores d t.
Proof.
  intros Hh i it n Hi Hn Hv Hd.
  destruct (holds_items jobID sha256 known repositoryRoot contents B d t i it n Hh Hi Hn Hv Hd) as (c & Hb & Hin).
  exists c. split; [apply Hin|]. by apply (restore_backed sha256 sha256_length known).
Qed.

(** C19: Maintenance never loses a file.  Starting from a repository in which at most
    packs without live blocks are missing - so also after earlier maintenance was cut
    short - retention, compaction, verification and deletion leave, whatever the target
    and the other workers do, whichever statements fail and however they end, every
    file of every snapshot that is still visible restorable with the digest recorded
    for it. *)
Theorem maintenance_keeps_files fuel keep connected id m (w : worker) :
  holds (fun _ => True) (wk_db w) (wk_target w) ->
  (mt_kind m = DELETE_REPOSITORY -> nothing_live (wk_db w) (wk_target w)) ->
  let w' := (runMaintenance sha256 target other fault now uuid late jobID repositoryRoot workerID
               fuel keep connected id m w).2 in
  holds (fun _ => True) (wk_db w') (wk_target w') /\ restores (wk_db w') (wk_target w').
Proof.
  intros Hh Hf. pose proof (run_triple fuel keep connected id m w Hh Hf) as Ht.
  destruct (runMaintenance _ _ _ _ _ _ _ _ _ _ _ _ _ _ _ _) as [r w']. destruct Ht as [Ht _].
  split; [exact Ht|]. by eapply holds_restores.
Qed.

(** Maintenance keeps the repository sound - every READY pack on the target as it
    was written, catalogued block by block - whenever it succeeds; compaction and
    verification keep it so even when they fail.  Only retention and deletion that are
    cut short leave READY packs that are gone. *)
Theorem maintenance_keeps_repository fuel keep connected id m (w : worker) r w' :
  repository sha256 known contents jobID repositoryRoot None (wk_db w) (wk_target w) ->
  (mt_kind m = DELETE_REPOSITORY -> nothing_live (wk_db w) (wk_target w)) ->
  carry_out fuel keep connected id m w = (r, w') ->
  r = Ok tt \/ mt_kind m = COMPACTION \/ mt_kind m = VERIFY ->
  repository sha256 known contents jobID repositoryRoot None (wk_db w') (wk_target w').
Proof.
  intros Hr Hf E Hk. apply holds_repository in Hr. apply holds_repository.
  assert (triple (fun _ => False) any (carry_out fuel keep connected id m) (fun _ => any)
    \/ r = Ok tt) as [Ht| ->].
  { destruct Hk as [Hk|Hk]; [by right|left]. unfold executeMaintenance.
    apply upholds_bind; [apply upholds_lift|]. intros u.
    destruct Hk as [-> | ->]; [apply compaction_triple|apply upholds_verify]. }
  - specialize (Ht w Hr I). rewrite E in Ht. apply Ht.
  - pose proof (execute_triple (fun _ => False) fuel keep connected id m w) as Ht. rewrite E in Ht.
    destruct Ht as [_ Ht]; [by apply (weaken (fun _ => False))|done|]. by apply (Ht tt).
Qed.
End KeeperSound.

(** ** Maintenance of the example *)

#[local] Existing Instance ex_space.
#[local] Existing Instance ex_laws.

#[local] Instance ex_tidy : TidyTarget ex_target ex_contents.
Proof.
  split.
  - intros p data n t t'. cbn. intros [= <-]. exists data, []. unfold ex_contents.
    by rewrite lookup_insert_eq, app_nil_r.
  - intros p t. right. cbn. unfold ex_contents. apply lookup_delete_eq.
Qed.

(** The state a run leaves behind. *)
Definition ex_published : worker unit (gmap string bytes) :=
  match ex_run (fun _ => None) with Some (_, w) => w | None => ex_start end.

Lemma ex_published_repository :
  repository ex_hash ex_known ex_contents "b" ex_root None (wk_db ex_published) (wk_target ex_published).
Proof.
  unfold ex_published. destruct (ex_run (fun _ => None)) as [[r w']|] eqn:E.
  - apply (repository_settled "b" ex_hash ex_known ex_root ex_contents (Some "r")).
    apply (execute_spec ex_hash ex_hash_length ex_source ex_target ex_contents "b" "r" 1 ex_root
      (fun _ d => d) (fun _ => None) ex_frame ex_owner (fun n => Z.of_nat n) ex_uuid (fun _ => 0)
      (fun _ _ => eq_refl) ex_known (fun x y Hx Hy _ => eq_trans Hx (eq_sym Hy)) ex_packs ex_blocks
      ex_db ∅ ex_repository ex_start ex_setup r w' eq_refl eq_refl E).
  - apply (repository_settled "b" ex_hash ex_known ex_root ex_contents (Some "r")). apply ex_repository.
Qed.

Lemma ex_onward (n : nat) d : catalog_fk d -> onward "b" d d.
Proof. intros Hfk. apply onward_fewer; [by apply framed_refl|by apply fewer_same]. Qed.

Definition ex_claim (kind : maintenance_kind) : maintenance_row := new_maintenance "b" kind None None 0.

(** A retention that keeps no snapshot. *)
Definition ex_retention (fault : nat -> option run_error) :=
  executeMaintenance ex_hash ex_target (fun _ d => d) fault (fun n => Z.of_nat n) ex_uuid (fun _ => false)
    "b" ex_root "k" 10 0 (Ok tt) "m" (ex_claim RETENTION) ex_published.

(** The statement that would mark the pack fails. *)
Definition ex_crash_mark (n : nat) : option run_error :=
  if (n =? wk_clock ex_published + 2)%nat then Some (ErrRun "down") else None.

(** The pack of the run is taken away, and the row marked. *)
Example ex_retention_deletes :
  bool_decide (length (map_to_list (packs (wk_db (ex_retention (fun _ => None)).2))) = 1%nat)
  && match (ex_retention (fun _ => None)).1 with Ok _ => true | Err _ => false end
  && (negb (any_row (fun p => negb (bool_decide (pk_state p = PackDeleted)))
         (packs (wk_db (ex_retention (fun _ => None)).2))))
  && bool_decide (length (map_to_list (wk_target (ex_retention (fun _ => None)).2)) = 1%nat) = true.
Proof. vm_compute. reflexivity. Qed.

Lemma maintenance_keeps_files_witness :
  let w' := (runMaintenance ex_hash ex_target (fun _ d => d) ex_crash_mark (fun n => Z.of_nat n) ex_uuid
    (fun _ => false) "b" ex_root "k" 10 0 (Ok tt) "m" (ex_claim RETENTION) ex_published).2 in
  holds "b" ex_hash ex_known ex_root ex_contents (fun _ => True) (wk_db w') (wk_target w')
  /\ restores ex_hash ex_contents "b" (wk_db w') (wk_target w').
Proof.
  apply (maintenance_keeps_files ex_hash ex_hash_length ex_target ex_contents "b" ex_root "k"
    (fun _ d => d) ex_crash_mark ex_onward (fun n => Z.of_nat n) ex_uuid (fun _ => false) ex_known
    (fun x y Hx Hy _ => eq_trans Hx (eq_sym Hy)) ex_packs).
  - exact (holds_mono "b" ex_hash ex_known ex_root ex_contents (fun _ => False) (fun _ => True)
      (wk_db ex_published) (wk_target ex_published) (fun _ _ => I)
      (proj2 (holds_repository "b" ex_hash ex_known ex_root ex_contents (wk_db ex_published)
        (wk_target ex_published)) ex_published_repository)).
  - intros Hk. discriminate Hk.
Defined.

Lemma maintenance_keeps_repository_witness :
  repository ex_hash ex_known ex_contents "b" ex_root None (wk_db (ex_retention (fun _ => None)).2)
    (wk_target (ex_retention (fun _ => None)).2).
Proof.
  apply (maintenance_keeps_repository ex_hash ex_hash_length ex_target ex_contents "b" ex_root "k"
    (fun _ d => d) (fun _ => None) ex_onward (fun n => Z.of_nat n) ex_uuid (fun _ => false) ex_known
    (fun x y Hx Hy _ => eq_trans Hx (eq_sym Hy)) ex_packs 10 0 (Ok tt) "m" (ex_claim RETENTION) ex_published
    (ex_retention (fun _ => None)).1 (ex_retention (fun _ => None)).2).
  - apply ex_published_repository.
  - intros Hk. discriminate Hk.
  - exact (surjective_pairing (ex_retention (fun _ => None))).
  - left. vm_compute. reflexivity.
Defined.

(** ** What the invariant rules out *)

Abbreviation after_crash := (wk_db (ex_retention ex_crash_mark).2).

(** Retention that stops between the file and the row leaves a block that a later run
    still finds by its hash, in a pack whose file is gone. *)
Example interrupted_retention_dangles :
  match FindBackupBlockContext "b" (ex_hash [x41]) after_crash with
  | Some id =>
      match blocks after_crash !! id with
      | Some b =>
          match packs after_crash !! bl_pack b with
          | Some p => bool_decide (pk_state p = PackReady)
              && negb (bool_decide (is_Some (wk_target (ex_retention ex_crash_mark).2 !! pk_path p)))
          | None => false
          end
      | None => false
      end
  | None => false
  end = true.
Proof. vm_compute. reflexivity. Qed.

(** The next run of the job, over what completed retention left. *)
Definition ex_again : worker unit (gmap string bytes) :=
  let w := (ex_retention (fun _ => None)).2 in
  mkWorker (set_runs (insert "r2" (mkBackupRun "b" 2 Manual None RSCANNING no_totals None 0 0))
      (set_jobs (insert "b" (mkBackupJob "u" BSCANNING 2 NotDeleting None no_totals None)) (wk_db w)))
    tt (wk_target w) (wk_clock w) newPackBuilder no_stats RSCANNING [].

(** Content whose pack was reclaimed cannot be backed up again: the row of the deleted
    pack keeps its hash and path, and recording the same pack fails on it. *)
Example reclaimed_content_is_refused :
  match execute ex_hash ex_source ex_target (fun _ d => d) (fun _ => None)
          (fun n => Z.of_nat n) ex_uuid (fun _ => 0) "b" "r2" 2 ex_root ex_setup ex_again with
  | Some (Ok None, w) =>
      match runs (wk_db w) !! "r2" with
      | Some r => bool_decide (br_state r = RFAILED)
      | None => false
      end
  | _ => false
  end = true.
Proof. vm_compute. reflexivity. Qed.
