(* ===== verification/RestoreDb.v ===== *)
(** * The restore tables

    restore_previews, restore_jobs, restore_runs, restore_items, restore_item_blocks,
    restore_path_reservations and restore_pack_pins of src/db/schema.sql, beside the
    backup tables of BackupDb.v, as the statements of
    src/backend/internal/db/restore.go read and write them.  The encrypted credentials
    of the target are one record, [None] when all of its columns are NULL; the columns
    of a claim - generation or epoch, lease, worker - are one record. *)

From S2P Require Import Prelude HashString Tables Bytes Utf8 RestoreReader BackupDb.

Inductive restore_strategy := RSkip | ROverwrite | RRename.
#[export] Instance restore_strategy_dec : EqDecision restore_strategy.
Proof. solve_decision. Defined.

Inductive preview_status := PQueued | PRunning | PReady | PFailed | PExpired | PConsumed | PCancelled.
#[export] Instance preview_status_dec : EqDecision preview_status.
Proof. solve_decision. Defined.

Inductive restore_status :=
  SQueued | SPlanning | SRunning | SVerifying | SCancelling | SCompleted | SPartial | SFailed | SCancelled.
#[export] Instance restore_status_dec : EqDecision restore_status.
Proof. solve_decision. Defined.

Inductive item_status := IPending | IRunning | ICompleted | ISkipped | IWarning | IFailed | ICancelled.
#[export] Instance item_status_dec : EqDecision item_status.
Proof. solve_decision. Defined.

(** What a preview and the job made of it share. *)
Record restore_spec := mkSpec {
  sp_job : option string;
  sp_snapshot : option string;
  sp_paths : list string;
  sp_provider : string;
  sp_identity : string;
  sp_root : string;
  sp_strategy : restore_strategy;
}.

Record lease := mkLease { ls_generation : Z; ls_until : option Z; ls_worker : option string }.

(** Of a preview: aggregates, and at most a hundred examples of conflicts. *)
Record RestorePreviewStats := mkPreviewStats {
  ps_Files : Z;
  ps_Directories : Z;
  ps_ExistingFiles : Z;
  ps_MergeableDirectories : Z;
  ps_TypeConflicts : Z;
  ps_UnavailableItems : Z;
  ps_ExpectedSkips : Z;
  ps_ExpectedRenames : Z;
  ps_MetadataWarnings : Z;
  ps_Bytes : Z;
  ps_ConflictExamples : list (string * string);
}.

Definition no_preview_stats : RestorePreviewStats := mkPreviewStats 0 0 0 0 0 0 0 0 0 0 [].

(** Password or access token, refresh token, MEGA session and master key, encrypted, and
    when the access token expires.  The statements that end a preview leave the last of
    these columns, which nothing reads any more; here it goes with the others. *)
Record target_credential := mkCredential {
  tc_password : option string;
  tc_refresh : option string;
  tc_session : option string;
  tc_master_key : option string;
  tc_expires : option Z;
}.

Definition no_columns : target_credential := mkCredential None None None None None.

(** COALESCE(target_password_encrypted, empty) *)
Definition password_of (c : option target_credential) : string := default "" (c ≫= tc_password).

Record preview_row := mkPreview {
  pv_user : string;
  pv_spec : restore_spec;
  pv_retry : option string;
  pv_threads : Z;
  pv_fingerprint : bytes;
  pv_credential : option target_credential;
  pv_status : preview_status;
  pv_stats : RestorePreviewStats;
  pv_error : option string;
  pv_lease : lease;
  pv_expires : option Z;
  pv_created : Z;
  pv_updated : Z;
}.

Record restore_job_row := mkRestoreJob {
  rj_user : string;
  rj_spec : restore_spec;
  rj_threads : Z;
  rj_fingerprint : bytes;
}.

Record restore_totals := mkRestoreTotals {
  rt_files : Z;
  rt_bytes : Z;
  rt_processed_files : Z;
  rt_processed_bytes : Z;
  rt_failed_files : Z;
}.

Record restore_run_row := mkRestoreRun {
  rr_job : string;
  rr_generation : Z;
  rr_threads : Z;
  rr_credential : option target_credential;
  rr_status : restore_status;
  rr_totals : restore_totals;
  rr_error : option string;
  rr_lease : lease;
  rr_created : Z;
  rr_updated : Z;
}.

(** The columns of an item that change while it is worked on. *)
Record item_state := mkItemState {
  is_status : item_status;
  is_verification : option string;
  is_attempts : Z;
  is_next_retry : option Z;
  is_epoch : Z;
  is_worker : option string;
  is_deadline : option Z;
  is_error : option string;
  is_updated : Z;
}.

Record restore_item_row := mkRestoreItem {
  ri_run : string;
  ri_parent : option string;
  ri_path : string;
  ri_is_dir : bool;
  ri_size : Z;
  ri_sha256 : option bytes;
  ri_mtime : option gotime;
  ri_target : string;
  ri_state : item_state;
  ri_created : Z;
}.

(** [pins] is a table of the backup database: retention reads it. *)
Record restore_db := mkRestoreDb {
  rd_backup : backup_db;
  previews : gmap string preview_row;
  restore_jobs : gmap string restore_job_row;
  restore_runs : gmap string restore_run_row;
  restore_items : gmap string restore_item_row;
  restore_blocks : gmap (string * nat) BlockRecipe;
  reservations : gmap (string * string) string;
  restore_notified : list string;
}.

Definition set_backup f d := mkRestoreDb (f (rd_backup d)) (previews d) (restore_jobs d) (restore_runs d)
  (restore_items d) (restore_blocks d) (reservations d) (restore_notified d).
Definition set_previews f d := mkRestoreDb (rd_backup d) (f (previews d)) (restore_jobs d) (restore_runs d)
  (restore_items d) (restore_blocks d) (reservations d) (restore_notified d).
Definition set_restore_jobs f d := mkRestoreDb (rd_backup d) (previews d) (f (restore_jobs d)) (restore_runs d)
  (restore_items d) (restore_blocks d) (reservations d) (restore_notified d).
Definition set_restore_runs f d := mkRestoreDb (rd_backup d) (previews d) (restore_jobs d) (f (restore_runs d))
  (restore_items d) (restore_blocks d) (reservations d) (restore_notified d).
Definition set_restore_items f g d := mkRestoreDb (rd_backup d) (previews d) (restore_jobs d) (restore_runs d)
  (f (restore_items d)) (g (restore_blocks d)) (reservations d) (restore_notified d).
Definition set_reservations f d := mkRestoreDb (rd_backup d) (previews d) (restore_jobs d) (restore_runs d)
  (restore_items d) (restore_blocks d) (f (reservations d)) (restore_notified d).
Definition set_restore_notified f d := mkRestoreDb (rd_backup d) (previews d) (restore_jobs d) (restore_runs d)
  (restore_items d) (restore_blocks d) (reservations d) (f (restore_notified d)).

Definition preview_in (l : list preview_status) (s : preview_status) : bool := bool_decide (s ∈ l).
Definition restore_in (l : list restore_status) (s : restore_status) : bool := bool_decide (s ∈ l).
Definition item_in (l : list item_status) (s : item_status) : bool := bool_decide (s ∈ l).

(** The runs of idx_restore_runs_active. *)
Definition active_restores : list restore_status := [SQueued; SPlanning; SRunning; SVerifying; SCancelling].

(** ** LIKE

    The match of SQL: [%] stands for any characters, [_] for one, and a backslash
    takes the next character of the pattern literally. *)

Fixpoint like_runes (p s : list Z) : bool :=
  match p with
  | [] => match s with [] => true | _ :: _ => false end
  | c :: p =>
      if c =? 37 then
        (fix any (s : list Z) : bool :=
           like_runes p s || match s with [] => false | _ :: s => any s end) s
      else if c =? 92 then
        match p, s with
        | e :: p, x :: s => (x =? e) && like_runes p s
        | _, _ => false
        end
      else match s with
      | [] => false
      | x :: s => ((c =? 95) || (x =? c)) && like_runes p s
      end
  end.

Definition like (s pattern : string) : bool := like_runes (runes pattern) (runes s).

(** path LIKE dir || '/%' *)
Definition like_below (path dir : string) : bool := like path (dir +:+ "/%").

(** The selection of a restore: the path itself or what is below it. *)
Definition selected (paths : list string) (path : string) : bool :=
  existsb (fun s => String.eqb s "" || String.eqb path s || like_below path s) paths.

(** char_length *)
Definition char_length (s : string) : Z := zlen (runes s).

(** substring(s FROM n + 1) *)
Definition substring_from (s : string) (n : Z) : string := encode_runes (zdrop n (runes s)).
