(* ===== verification/RestoreRuns.v ===== *)
(** * Previews and runs of a restore

    The statements of src/backend/internal/db/restore.go that create, claim, plan,
    cancel and end previews and runs.  [now] is the database clock in seconds; a
    refused or rolled back transaction answers [None]; the audit log is left out. *)

From S2P Require Import Prelude GoPath HashString Tables Bytes Utf8 RestoreReader.
From S2P Require Import BackupDb BackupRuns BackupCatalog RestoreDb.

(** ** Leases *)

Definition no_worker (l : lease) : lease := mkLease (ls_generation l) None None.
Definition nullableStringValue (value : string) : option string :=
  if String.eqb value "" then None else Some value.

(** A claim: one generation on, two minutes, the worker's identity. *)
Definition claim_lease (now : Z) (workerID : string) (l : lease) : lease :=
  mkLease (ls_generation l + 1) (Some (now + minutes 2)) (nullableStringValue workerID).

(** The coordinator has gone silent. *)
Definition lapsed (now : Z) (l : lease) (updated : Z) : bool :=
  match ls_until l with Some t => t <? now | None => updated <? now - minutes 5 end.

(** ** Previews *)

Definition set_preview (s : preview_status) (st : RestorePreviewStats) (err : option string)
    (l : lease) (credential : option target_credential) (expires : option Z) (now : Z) (p : preview_row) : preview_row :=
  mkPreview (pv_user p) (pv_spec p) (pv_retry p) (pv_threads p) (pv_fingerprint p) credential s st err l
    expires (pv_created p) now.

Definition CreateRestorePreviewContext (userID : string) (spec : restore_spec) (retry : option string)
    (threads : Z) (fingerprint : bytes) (credential : option target_credential) (newID : string) (now : Z)
    (d : restore_db) : option restore_db :=
  match sp_job spec, sp_snapshot spec with
  | Some job, Some snapshot =>
      if String.eqb userID "" || String.eqb job "" || String.eqb snapshot ""
         || String.eqb (sp_provider spec) "" || String.eqb (sp_root spec) ""
         || bool_decide (is_Some (previews d !! newID))
         || negb (bool_decide (is_Some (jobs (rd_backup d) !! job)))
         || negb (bool_decide (is_Some (snapshots (rd_backup d) !! snapshot)))
         || negb ((1 <=? threads) && (threads <=? 16)) || negb (zlen fingerprint =? 32)
      then None
      else Some (set_previews (insert newID (mkPreview userID spec retry threads fingerprint credential
                   PQueued no_preview_stats None (mkLease 0 None None) None now now)) d)
  | _, _ => None
  end.

Definition older_preview (a b : string * preview_row) : Prop := pv_created a.2 <= pv_created b.2.
#[export] Instance older_preview_dec : RelDecision older_preview.
Proof. intros a b. unfold older_preview. apply _. Defined.

Definition ClaimNextRestorePreviewForWorkerContext (workerID : string) (now : Z) (d : restore_db)
    : option (string * preview_row) * restore_db :=
  match merge_sort older_preview
          (List.filter (fun '(_, p) => preview_in [PQueued] (pv_status p)) (map_to_list (previews d))) with
  | [] => (None, d)
  | (id_, p) :: _ =>
      let p := set_preview PRunning (pv_stats p) (pv_error p) (claim_lease now workerID (pv_lease p))
                 (pv_credential p) (pv_expires p) now p in
      (Some (id_, p), set_previews (insert id_ p) d)
  end.

(** The claim is still held; generation zero claims nothing in particular. *)
Definition preview_fence (generation : Z) (workerID : string) (p : preview_row) : bool :=
  preview_in [PRunning] (pv_status p)
  && ((generation =? 0)
      || (ls_generation (pv_lease p) =? generation)
         && bool_decide (ls_worker (pv_lease p) = nullableStringValue workerID)).

Definition CompleteRestorePreviewWithStatsFencedContext (previewID : string) (generation : Z)
    (workerID : string) (stats : RestorePreviewStats) (now : Z) (d : restore_db) : bool * restore_db :=
  let '(ok, ps) := update_row previewID (preview_fence generation workerID)
    (fun p => set_preview PReady stats None (no_worker (pv_lease p)) (pv_credential p)
                (Some (now + minutes 30)) now p) (previews d) in
  (ok, set_previews (fun _ => ps) d).

Definition FailRestorePreviewFencedContext (previewID : string) (generation : Z) (workerID errorCode : string)
    (now : Z) (d : restore_db) : restore_db :=
  set_previews (fun ps => (update_row previewID (preview_fence generation workerID)
    (fun p => set_preview PFailed (pv_stats p) (Some errorCode) (no_worker (pv_lease p)) None
                (pv_expires p) now p) ps).2) d.

Definition RenewRestorePreviewLeaseContext (previewID : string) (generation : Z) (workerID : string)
    (now : Z) (d : restore_db) : bool * restore_db :=
  let '(ok, ps) := update_row previewID
    (fun p => preview_in [PRunning] (pv_status p) && (ls_generation (pv_lease p) =? generation)
              && bool_decide (ls_worker (pv_lease p) = nullableStringValue workerID))
    (fun p => set_preview (pv_status p) (pv_stats p) (pv_error p)
       (mkLease (ls_generation (pv_lease p)) (Some (now + minutes 2)) (ls_worker (pv_lease p)))
       (pv_credential p) (pv_expires p) now p) (previews d) in
  (ok, set_previews (fun _ => ps) d).

Definition open_preview (userID : string) (p : preview_row) : bool :=
  String.eqb (pv_user p) userID && preview_in [PQueued; PRunning; PReady] (pv_status p).

Definition cancel_preview (now : Z) (p : preview_row) : preview_row :=
  set_preview PCancelled (pv_stats p) (Some "RESTORE_PREVIEW_CANCELLED") (no_worker (pv_lease p)) None
    (pv_expires p) now p.

Definition CancelRestorePreviewForOwnerContext (previewID userID : string) (now : Z) (d : restore_db)
    : bool * restore_db :=
  let '(ok, ps) := update_row previewID (open_preview userID) (cancel_preview now) (previews d) in
  (ok, set_previews (fun _ => ps) d).

Definition expired (now : Z) (t : option Z) : bool := match t with Some t => t <=? now | None => false end.

Definition ExpireRestorePreviewsContext (now : Z) (d : restore_db) : restore_db :=
  set_previews (update_where
    (fun p => preview_in [PReady] (pv_status p) && expired now (pv_expires p))
    (fun p => set_preview PExpired (pv_stats p) (pv_error p) (no_worker (pv_lease p)) None
                (pv_expires p) now p)) d.

(** ** The selection *)

(** The snapshot can be restored from. *)
Definition restorable_snapshot (d : backup_db) (jobID snapshotID : string) : bool :=
  match snapshots d !! snapshotID with
  | Some n => String.eqb (sn_job n) jobID && snapshot_in visible (sn_state n)
              && negb (bool_decide (sn_integrity n = BROKEN))
  | None => false
  end.

(** The selected items of a snapshot. *)
Definition selected_items (d : backup_db) (snapshotID : string) (paths : list string)
    : list (string * snapshot_item) :=
  List.filter (fun '(_, i) => String.eqb (it_snapshot i) snapshotID && selected paths (it_path i))
    (map_to_list (items d)).

Definition preview_order (a b : string * snapshot_item) : Prop :=
  if negb (Bool.eqb (it_is_dir a.2) (it_is_dir b.2)) then it_is_dir a.2 = true
  else char_length (it_path a.2) < char_length (it_path b.2)
       \/ (char_length (it_path a.2) = char_length (it_path b.2)
           /\ String.leb (it_path a.2) (it_path b.2) = true).
#[export] Instance preview_order_dec : RelDecision preview_order.
Proof. intros a b. unfold preview_order. case_match; apply _. Defined.

Definition ListRestorePreviewItemsContext (spec : restore_spec) (d : restore_db) : list snapshot_item :=
  match sp_job spec, sp_snapshot spec with
  | Some job, Some snapshot =>
      if restorable_snapshot (rd_backup d) job snapshot
      then map snd (merge_sort preview_order (selected_items (rd_backup d) snapshot (sp_paths spec)))
      else []
  | _, _ => []
  end.

Definition available (i : snapshot_item) : bool := negb (it_is_dir i) && String.eqb (it_state i) "AVAILABLE".

Definition CountRestorePreviewSelectionContext (spec : restore_spec) (d : restore_db) : option (Z * Z) :=
  match sp_paths spec with
  | [] => None
  | _ =>
      let l := List.filter available (ListRestorePreviewItemsContext spec d) in
      Some (zlen l, foldr (fun i n => it_size i + n) 0 l)
  end.

(** ** From a preview to a run *)

Inductive consume_error :=
  ErrRestorePreviewNotFound | ErrRestorePreviewExpired | ErrRestorePreviewInvalidState
| ErrRestoreSnapshotUnavailable | ErrRestoreRetryMismatch | ErrRestoreRetryActive | ErrConsume (msg : string).

Definition run_active (r : restore_run_row) : bool := restore_in active_restores (rr_status r).
Definition run_of (jobID : string) (r : restore_run_row) : bool := String.eqb (rr_job r) jobID.

(** COALESCE(MAX(generation) + 1, 1) *)
Definition next_generation (jobID : string) (rs : gmap string restore_run_row) : Z :=
  foldr (fun '(_, r) n => if run_of jobID r then Z.max (rr_generation r + 1) n else n) 1 (map_to_list rs).

(** UNIQUE (restore_job_id, generation) and the index of active runs. *)
Definition insert_run (id : string) (r : restore_run_row) (rs : gmap string restore_run_row)
    : option (gmap string restore_run_row) :=
  if bool_decide (is_Some (rs !! id))
     || any_row (fun x => run_of (rr_job r) x && (rr_generation x =? rr_generation r)) rs
     || run_active r && any_row (fun x => run_of (rr_job r) x && run_active x) rs
  then None else Some (<[id := r]> rs).

Definition no_restore_totals : restore_totals := mkRestoreTotals 0 0 0 0 0.

(** The job the run belongs to: the one that is retried, or a new one. *)
Definition consume_job (userID newID : string) (p : preview_row) (d : restore_db)
    : res consume_error (string * restore_db) :=
  match pv_retry p with
  | Some jobID =>
      match restore_jobs d !! jobID with
      | Some j =>
          if negb (String.eqb (rj_user j) userID) then Err (ErrConsume "load retry restore job")
          else if negb (bool_decide (rj_fingerprint j = pv_fingerprint p)) then Err ErrRestoreRetryMismatch
          else if any_row (fun r => run_of jobID r && run_active r) (restore_runs d)
          then Err ErrRestoreRetryActive
          else Ok (jobID, d)
      | None => Err (ErrConsume "load retry restore job")
      end
  | None =>
      if bool_decide (is_Some (restore_jobs d !! newID)) then Err (ErrConsume "create restore job")
      else Ok (newID, set_restore_jobs (insert newID
                        (mkRestoreJob userID (pv_spec p) (pv_threads p) (pv_fingerprint p))) d)
  end.

(** The clock of the process is [wall]. *)
Definition ConsumeRestorePreviewContext (previewID userID : string) (newID : nat -> string) (wall now : Z)
    (d : restore_db) : res consume_error (string * string * restore_db) :=
  match previews d !! previewID with
  | None => Err ErrRestorePreviewNotFound
  | Some p =>
      if negb (String.eqb (pv_user p) userID) then Err ErrRestorePreviewNotFound
      else if preview_in [PExpired] (pv_status p) || expired wall (pv_expires p)
      then Err ErrRestorePreviewExpired
      else if negb (preview_in [PReady] (pv_status p)) then Err ErrRestorePreviewInvalidState
      else match sp_job (pv_spec p), sp_snapshot (pv_spec p) with
      | Some job, Some snapshot =>
          let owned := match jobs (rd_backup d) !! job with
                       | Some j => String.eqb (bj_user j) userID && bool_decide (bj_deletion j = NotDeleting)
                       | None => false
                       end in
          if negb (owned && restorable_snapshot (rd_backup d) job snapshot)
          then Err ErrRestoreSnapshotUnavailable
          else match consume_job userID (newID O) p d with
          | Err e => Err e
          | Ok (jobID, d) =>
              match insert_run (newID 1%nat)
                      (mkRestoreRun jobID (next_generation jobID (restore_runs d)) (pv_threads p)
                         (pv_credential p) SQueued no_restore_totals None (mkLease 0 None None) now now)
                      (restore_runs d) with
              | None => Err (ErrConsume "create restore run")
              | Some rs =>
                  Ok (jobID, newID 1%nat,
                      set_previews (insert previewID (set_preview PConsumed (pv_stats p) (pv_error p)
                                      (pv_lease p) None (pv_expires p) now p))
                        (set_restore_runs (fun _ => rs) d))
              end
          end
      | _, _ => Err ErrRestoreSnapshotUnavailable
      end
  end.

(** ** Runs *)

Definition set_run (s : restore_status) (t : restore_totals) (err : option string) (l : lease)
    (credential : option target_credential) (now : Z) (r : restore_run_row) : restore_run_row :=
  mkRestoreRun (rr_job r) (rr_generation r) (rr_threads r) credential s t err l (rr_created r) now.

Definition older_run (a b : string * restore_run_row) : Prop := rr_created a.2 <= rr_created b.2.
#[export] Instance older_run_dec : RelDecision older_run.
Proof. intros a b. unfold older_run. apply _. Defined.

(** The claimed run with its job. *)
Definition ClaimNextQueuedRestoreRunForWorkerContext (workerID : string) (now : Z) (d : restore_db)
    : option (string * restore_run_row) * restore_db :=
  match merge_sort older_run
          (List.filter (fun '(_, r) => restore_in [SQueued] (rr_status r)
                         && bool_decide (is_Some (restore_jobs d !! rr_job r)))
             (map_to_list (restore_runs d))) with
  | [] => (None, d)
  | (id_, r) :: _ =>
      let r := set_run SPlanning (rr_totals r) (rr_error r) (claim_lease now workerID (rr_lease r))
                 (rr_credential r) now r in
      (Some (id_, r), set_restore_runs (insert id_ r) d)
  end.

(** One event per run that ended. *)
Definition createRestoreNotificationEventTx (runID : string) (d : restore_db) : option restore_db :=
  match restore_runs d !! runID with
  | Some r =>
      if negb (bool_decide (is_Some (restore_jobs d !! rr_job r))) then None
      else if restore_in [SCompleted; SPartial; SFailed] (rr_status r)
              && negb (bool_decide (runID ∈ restore_notified d))
      then Some (set_restore_notified (cons runID) d) else Some d
  | None => None
  end.

Definition FailRestoreRunPlanningContext (jobID runID : string) (generation : Z) (errorCode : string)
    (now : Z) (d : restore_db) : bool * restore_db :=
  let '(ok, rs) := update_row runID
    (fun r => run_of jobID r && (rr_generation r =? generation) && restore_in [SPlanning] (rr_status r))
    (fun r => set_run SFailed (rr_totals r) (Some errorCode) (no_worker (rr_lease r)) None now r)
    (restore_runs d) in
  if negb ok then (false, d)
  else match createRestoreNotificationEventTx runID (set_restore_runs (fun _ => rs) d) with
       | Some d => (true, d)
       | None => (false, d)
       end.

(** Phases without writes to the target are taken back. *)
Definition RecoverStaleRestorePlanningContext (now : Z) (d : restore_db) : restore_db :=
  set_restore_runs (update_where
    (fun r => restore_in [SPlanning] (rr_status r) && lapsed now (rr_lease r) (rr_updated r))
    (fun r => set_run SQueued (rr_totals r) None (no_worker (rr_lease r)) (rr_credential r) now r))
  (set_previews (update_where
    (fun p => preview_in [PRunning] (pv_status p) && lapsed now (pv_lease p) (pv_updated p))
    (fun p => set_preview PQueued (pv_stats p) None (no_worker (pv_lease p)) (pv_credential p)
                (pv_expires p) now p)) d).

(** ** Planning *)

Definition set_pins (f : gset (string * string) -> gset (string * string)) (d : backup_db) : backup_db :=
  mkBackupDb (jobs d) (runs d) (snapshots d) (items d) (item_blocks d) (packs d) (blocks d)
    (maintenance d) (verify_targets d) (f (pins d)) (schedules_on d) (notified d).

(** A file with content whose blocks are not all in READY packs of the job. *)
Definition invalid_recipe_item (d : backup_db) (jobID itemID : string) (i : snapshot_item) : bool :=
  negb (it_is_dir i) && String.eqb (it_state i) "AVAILABLE" && (0 <? it_size i)
  && match item_links (item_blocks d) itemID with
     | [] => true
     | l => existsb (fun '(_, blockID) =>
         match blocks d !! blockID with
         | Some b => match packs d !! bl_pack b with
                     | Some p => negb (String.eqb (pk_job p) jobID) || negb (bool_decide (pk_state p = PackReady))
                                 || (pk_size p <? bl_offset b + bl_length b)
                     | None => false
                     end
         | None => false
         end) l
     end.

Definition restore_target_path (root path : string) : string :=
  if String.eqb root "/" then ("/" +:+ path)%string else (root +:+ "/" +:+ path)%string.

Definition new_item_state (i : snapshot_item) (now : Z) : item_state :=
  mkItemState (if it_is_dir i || String.eqb (it_state i) "AVAILABLE" then IPending else ISkipped)
    None 0 None 0 None None
    (if it_is_dir i || String.eqb (it_state i) "AVAILABLE" then None else Some "RESTORE_SOURCE_UNAVAILABLE") now.

Definition plan_item (runID root : string) (now : Z) (i : snapshot_item) : restore_item_row :=
  mkRestoreItem runID None (it_path i) (it_is_dir i) (it_size i) (it_sha256 i) (it_mtime i)
    (restore_target_path root (it_path i)) (new_item_state i now) now.

(** The rows of the INSERT ... SELECT; UNIQUE (restore_run_id, snapshot_relative_path). *)
Fixpoint insert_plan (runID root : string) (now : Z) (newID : nat -> string)
    (l : list (string * snapshot_item)) (m : gmap string restore_item_row)
    : option (gmap string restore_item_row) :=
  match l with
  | [] => Some m
  | (_, i) :: l =>
      if bool_decide (is_Some (m !! newID O))
         || any_row (fun x => String.eqb (ri_run x) runID && String.eqb (ri_path x) (it_path i)) m
      then None
      else insert_plan runID root now (fun k => newID (S k)) l
             (<[newID O := plan_item runID root now i]> m)
  end.

(** Of a path with a slash, regexp_replace(path, '/[^/]+$', ''). *)
Definition parent_path (p : string) : option string :=
  let d := dir_part p in
  if String.eqb d "" then None
  else if String.eqb d p then Some p
  else Some (str_take (String.length d - 1) d).

Definition link_parent (runID : string) (m : gmap string restore_item_row) (x : restore_item_row)
    : restore_item_row :=
  if String.eqb (ri_run x) runID then
    match parent_path (ri_path x) with
    | Some dir =>
        match find_key (fun y => String.eqb (ri_run y) runID && ri_is_dir y && String.eqb (ri_path y) dir) m with
        | Some parentID => mkRestoreItem (ri_run x) (Some parentID) (ri_path x) (ri_is_dir x) (ri_size x)
                             (ri_sha256 x) (ri_mtime x) (ri_target x) (ri_state x) (ri_created x)
        | None => x
        end
    | None => x
    end
  else x.

Definition link_parents (runID : string) (m : gmap string restore_item_row) : gmap string restore_item_row :=
  link_parent runID m <$> m.

Definition planned_file (runID : string) (x : restore_item_row) : bool :=
  String.eqb (ri_run x) runID && item_in [IPending] (is_status (ri_state x)) && negb (ri_is_dir x).

(** The links of the snapshot item an item of the run was made from. *)
Definition source_links (d : backup_db) (snapshotID path : string) : list (nat * string) :=
  match find_key (fun i => String.eqb (it_snapshot i) snapshotID && String.eqb (it_path i) path) (items d) with
  | Some itemID => item_links (item_blocks d) itemID
  | None => []
  end.

Definition planned_files (runID : string) (m : gmap string restore_item_row)
    : list (string * restore_item_row) :=
  List.filter (fun '(_, x) => planned_file runID x) (map_to_list m).

Definition frozen_blocks (d : backup_db) (jobID snapshotID : string) (x : string * restore_item_row)
    : list ((string * nat) * BlockRecipe) :=
  omap (fun '(n, blockID) => pair (x.1, n) <$> freeze_link d jobID blockID)
    (source_links d snapshotID (ri_path x.2)).

Definition block_pack (d : backup_db) (jobID blockID : string) : option string :=
  match blocks d !! blockID with
  | Some b => if String.eqb (bl_job b) jobID then Some (bl_pack b) else None
  | None => None
  end.

Definition pinned_packs (d : backup_db) (jobID snapshotID : string) (x : string * restore_item_row)
    : list string :=
  omap (fun '(_, blockID) => block_pack d jobID blockID) (source_links d snapshotID (ri_path x.2)).

(** COUNT and SUM of the files of the run. *)
Definition plan_totals (runID : string) (m : gmap string restore_item_row) : restore_totals :=
  let files := filter (fun '(_, x) => String.eqb (ri_run x) runID && negb (ri_is_dir x) = true) m in
  mkRestoreTotals (Z.of_nat (size files)) (map_fold (fun _ x n => ri_size x + n) 0 files) 0 0 0.

Definition planned_run (jobID : string) (generation : Z) (r : restore_run_row) : bool :=
  run_of jobID r && (rr_generation r =? generation) && restore_in [SPlanning] (rr_status r).

(** The job and the run are those a claim returned. *)
Definition PlanRestoreRunContext (jobID : string) (j : restore_job_row) (runID : string) (generation : Z)
    (newID : nat -> string) (now : Z) (d : restore_db) : option restore_db :=
  match sp_job (rj_spec j), sp_snapshot (rj_spec j) with
  | Some job, Some snapshot =>
      let b := rd_backup d in
      let l := selected_items b snapshot (sp_paths (rj_spec j)) in
      if String.eqb jobID "" || String.eqb runID ""
         || negb (restorable_snapshot b job snapshot)
         || negb (match jobs b !! job with
                  | Some x => bool_decide (bj_deletion x = NotDeleting) | None => false end)
         || existsb (fun '(itemID, i) => invalid_recipe_item b job itemID i) l
      then None
      else match insert_plan runID (sp_root (rj_spec j)) now newID l (restore_items d) with
      | None => None
      | Some m =>
          let m := link_parents runID m in
          let files := planned_files runID m in
          let '(ok, rs) := update_row runID (planned_run jobID generation)
            (fun r => set_run SRunning
                        (let t := plan_totals runID m in
                         mkRestoreTotals (rt_files t) (rt_bytes t) (rt_processed_files (rr_totals r))
                           (rt_processed_bytes (rr_totals r)) (rt_failed_files (rr_totals r)))
                        (rr_error r) (no_worker (rr_lease r)) (rr_credential r) now r) (restore_runs d) in
          if negb ok then None
          else Some
            (set_restore_runs (fun _ => rs)
              (set_restore_items (fun _ => m)
                 (fun bs => list_to_map (concat (map (frozen_blocks b job snapshot) files)) ∪ bs)
                 (set_backup (set_pins (fun s =>
                    list_to_set (map (pair runID) (concat (map (pinned_packs b job snapshot) files))) ∪ s)) d)))
      end
  | _, _ => None
  end.

(** ** The end of a run *)

Definition item_of (runID : string) (x : restore_item_row) : bool := String.eqb (ri_run x) runID.
Definition status_is (l : list item_status) (x : restore_item_row) : bool := item_in l (is_status (ri_state x)).

Definition any_item (runID : string) (l : list item_status) (d : restore_db) : bool :=
  any_row (fun x => item_of runID x && status_is l x) (restore_items d).

Definition set_state (f : item_state -> item_state) (x : restore_item_row) : restore_item_row :=
  mkRestoreItem (ri_run x) (ri_parent x) (ri_path x) (ri_is_dir x) (ri_size x) (ri_sha256 x) (ri_mtime x)
    (ri_target x) (f (ri_state x)) (ri_created x).

(** The pins of a run are released. *)
Definition release_pins (runID : string) (d : restore_db) : restore_db :=
  set_backup (set_pins (filter (fun p => p.1 <> runID))) d.

Definition cancel_state (now : Z) (s : item_state) : item_state :=
  mkItemState ICancelled (is_verification s) (is_attempts s) (is_next_retry s) (is_epoch s) (is_worker s)
    (is_deadline s) (Some "RESTORE_CANCELLED") now.

Definition end_cancelled (now : Z) (r : restore_run_row) : restore_run_row :=
  set_run SCancelled (rr_totals r) (rr_error r) (no_worker (rr_lease r)) None now r.

Definition owned_run (userID : string) (d : restore_db) (r : restore_run_row) : bool :=
  match restore_jobs d !! rr_job r with Some j => String.eqb (rj_user j) userID | None => false end.

(** A run no item of which is being worked on is cancelled at once. *)
Definition CancelRestoreRunForOwnerContext (runID userID : string) (now : Z) (d : restore_db)
    : bool * restore_db :=
  let '(ok, rs) := update_row runID
    (fun r => owned_run userID d r && restore_in [SQueued; SPlanning; SRunning] (rr_status r))
    (fun r => set_run SCancelling (rr_totals r) (rr_error r) (rr_lease r) (rr_credential r) now r)
    (restore_runs d) in
  if negb ok then (false, d)
  else
    let d := set_restore_items (update_where (fun x => item_of runID x && status_is [IPending] x)
               (set_state (cancel_state now))) id (set_restore_runs (fun _ => rs) d) in
    if any_item runID [IRunning] d then (true, d)
    else (true, release_pins runID (set_restore_runs (fun rs =>
           (update_row runID (fun r => restore_in [SCancelling] (rr_status r)) (end_cancelled now) rs).2) d)).

(** The delete of a job takes its runs, their items, recipes, reservations and pins. *)
Definition delete_restore_job (jobID : string) (d : restore_db) : restore_db :=
  let run_gone id := match restore_runs d !! id with Some r => run_of jobID r | None => false end in
  let item_gone id := match restore_items d !! id with Some x => run_gone (ri_run x) | None => false end in
  mkRestoreDb
    (set_pins (filter (fun p => run_gone p.1 = false)) (rd_backup d))
    ((fun p => if bool_decide (pv_retry p = Some jobID)
               then mkPreview (pv_user p) (pv_spec p) None (pv_threads p) (pv_fingerprint p)
                      (pv_credential p) (pv_status p) (pv_stats p) (pv_error p) (pv_lease p)
                      (pv_expires p) (pv_created p) (pv_updated p)
               else p) <$> previews d)
    (delete jobID (restore_jobs d))
    (filter (fun '(_, r) => run_of jobID r = false) (restore_runs d))
    (filter (fun '(_, x) => run_gone (ri_run x) = false) (restore_items d))
    (filter (fun '((i, _), _) => item_gone i = false) (restore_blocks d))
    (filter (fun '((r, _), _) => run_gone r = false) (reservations d))
    (List.filter (fun r => negb (run_gone r)) (restore_notified d)).

Definition DeleteRestoreJobForOwnerContext (jobID userID : string) (d : restore_db) : bool * restore_db :=
  match restore_jobs d !! jobID with
  | Some j =>
      if String.eqb (rj_user j) userID
         && negb (any_row (fun r => run_of jobID r && run_active r) (restore_runs d))
      then (true, delete_restore_job jobID d) else (false, d)
  | None => (false, d)
  end.

(** Of the items of a run: ended well, ended not well, and the bytes of the former. *)
Definition run_items (runID : string) (d : restore_db) : gmap string restore_item_row :=
  filter (fun '(_, x) => item_of runID x = true) (restore_items d).

Definition done_well : list item_status := [ICompleted; IWarning].
Definition imperfect : list item_status := [IFailed; ISkipped; IWarning; ICancelled].

Definition summary (runID : string) (d : restore_db) : Z * Z * Z :=
  let m := run_items runID d in
  (count_where (status_is done_well) m, count_where (status_is imperfect) m,
   map_fold (fun _ x n => (if status_is done_well x then ri_size x else 0) + n) 0 m).

Definition final_status (completed imperfect : Z) : restore_status :=
  if (0 <? imperfect) && (0 <? completed) then SPartial
  else if (0 <? imperfect) || (completed =? 0) then SFailed
  else SCompleted.

Definition finalize_run (now : Z) (d : restore_db) (v : string * (Z * Z * Z)) : option restore_db :=
  let '(runID, (completed, imperfect, bytes)) := v in
  createRestoreNotificationEventTx runID
    (release_pins runID (set_restore_runs (fun rs =>
       (update_row runID (fun r => restore_in [SRunning] (rr_status r))
          (fun r => set_run (final_status completed imperfect)
                      (mkRestoreTotals (rt_files (rr_totals r)) (rt_bytes (rr_totals r)) completed bytes imperfect)
                      (rr_error r) (no_worker (rr_lease r)) None now r) rs).2) d)).

(** The runs in [l] of those that another worker has not locked. *)
Definition drained (s : restore_status) (l : list item_status) (d : restore_db) (runID : string) : bool :=
  match restore_runs d !! runID with
  | Some r => restore_in [s] (rr_status r) && bool_decide (is_Some (restore_jobs d !! rr_job r))
              && negb (any_item runID l d)
  | None => false
  end.

Fixpoint fold_tx {A B} (f : A -> B -> option A) (a : A) (l : list B) : option A :=
  match l with
  | [] => Some a
  | b :: l => match f a b with Some a => fold_tx f a l | None => None end
  end.

Definition FinalizeCompletedRestoreRunsContext (now : Z) (d : restore_db) : option (nat * restore_db) :=
  let l := List.filter (drained SRunning [IPending; IRunning] d) (map fst (map_to_list (restore_runs d))) in
  match fold_tx (finalize_run now) d (map (fun id => (id, summary id d)) l) with
  | Some d => Some (length l, d)
  | None => None
  end.

Definition cancel_drained (now : Z) (d : restore_db) (runID : string) : restore_db :=
  release_pins runID (set_restore_runs (fun rs =>
    (update_row runID (fun r => restore_in [SCancelling] (rr_status r)) (end_cancelled now) rs).2) d).

Definition FinalizeCancellingRestoreRunsContext (now : Z) (d : restore_db) : nat * restore_db :=
  let l := List.filter (drained SCancelling [IRunning] d) (map fst (map_to_list (restore_runs d))) in
  (length l, fold_left (cancel_drained now) l d).

(** ** The credential of a run *)

(** A refreshed token replaces the one it was made from, in a run that is on. *)
Definition UpdateRestoreRunOAuthTokens (runID access refresh : string) (expires : Z) (expectedRefresh : string)
    (now : Z) (d : restore_db) : bool * restore_db :=
  if String.eqb expectedRefresh "" then (false, d)
  else
    let '(ok, rs) := update_row runID
      (fun r => bool_decide ((rr_credential r ≫= tc_refresh) = Some expectedRefresh) && run_active r)
      (fun r => let c := default no_columns (rr_credential r) in
         set_run (rr_status r) (rr_totals r) (rr_error r) (rr_lease r)
           (Some (mkCredential (Some access) (Some refresh) (tc_session c) (tc_master_key c) (Some expires))) now r)
      (restore_runs d) in
    (ok, set_restore_runs (fun _ => rs) d).

Definition UpdateRestoreRunMegaSessionContext (runID sessionID masterKey : string) (now : Z) (d : restore_db)
    : restore_db :=
  set_restore_runs (fun rs => (update_row runID run_active
    (fun r => let c := default no_columns (rr_credential r) in
       set_run (rr_status r) (rr_totals r) (rr_error r) (rr_lease r)
         (Some (mkCredential (tc_password c) (tc_refresh c) (nullableStringValue sessionID)
                  (nullableStringValue masterKey) (tc_expires c))) now r) rs).2) d.

(** ** The suspension of an account *)

(** SuspendUser (src/backend/internal/db/users.go) on the restores of the user: previews,
    runs and items are cancelled, and the pins of the cancelled runs released. *)
Definition run_owned (userID : string) (d : restore_db) (runID : string) : bool :=
  match restore_runs d !! runID with Some r => owned_run userID d r | None => false end.

Definition suspend_previews (userID : string) (now : Z) (d : restore_db) : restore_db :=
  set_previews (update_where (open_preview userID) (cancel_preview now)) d.

Definition suspend_runs (userID : string) (now : Z) (d : restore_db) : restore_db :=
  set_restore_runs (update_where (fun r => owned_run userID d r && run_active r) (end_cancelled now)) d.

Definition suspend_items (userID : string) (now : Z) (d : restore_db) : restore_db :=
  set_restore_items (fmap (fun x => if run_owned userID d (ri_run x) && status_is [IPending; IRunning] x
    then set_state (cancel_state now) x else x)) id d.

Definition cancelled_unpinned (userID : string) (d : restore_db) (runID : string) : bool :=
  run_owned userID d runID
  && match restore_runs d !! runID with Some r => restore_in [SCancelled] (rr_status r) | None => false end
  && negb (any_item runID [IRunning] d).

Definition suspend_pins (userID : string) (d : restore_db) : restore_db :=
  set_backup (set_pins (filter (fun p => cancelled_unpinned userID d p.1 = false))) d.

(** The suspension, with what it does to the backups. *)
Definition SuspendUser (userID : string) (now : Z) (d : restore_db) : restore_db :=
  set_backup (suspend_backups userID now)
    (suspend_pins userID (suspend_items userID now (suspend_runs userID now (suspend_previews userID now d)))).
