(* ===== verification/RestoreItems.v ===== *)
(** * The items of a restore

    The statements of src/backend/internal/db/restore.go by which workers claim,
    rename, complete, retry, skip and recover the items of a running restore, and the
    reservations of target paths.  A claim is held by its epoch: a statement of a
    worker names the epoch of its claim, and zero names none. *)

From S2P Require Import Prelude GoPath HashString Tables Bytes Utf8 RestoreReader.
From S2P Require Import BackupDb BackupRuns BackupCatalog RestoreDb RestoreRuns.

(** ** Claims *)

Definition due (now : Z) (s : item_state) : bool :=
  match is_next_retry s with Some t => t <=? now | None => true end.

(** A directory above the item is still to be made. *)
Definition awaits_parent (m : gmap string restore_item_row) (x : restore_item_row) : bool :=
  any_row (fun y => item_of (ri_run x) y && ri_is_dir y && status_is [IPending; IRunning] y
                    && negb (String.eqb (ri_path y) (ri_path x)) && like_below (ri_path x) (ri_path y)) m.

Definition running_items (runID : string) (m : gmap string restore_item_row) : Z :=
  count_where (fun y => item_of runID y && status_is [IRunning] y) m.

Definition claimable (now : Z) (d : restore_db) (x : restore_item_row) : bool :=
  status_is [IPending] x && due now (ri_state x)
  && match restore_runs d !! ri_run x with
     | Some r =>
         match restore_jobs d !! rr_job r with
         | Some j => restore_in [SRunning] (rr_status r)
                     && (running_items (ri_run x) (restore_items d) <? rj_threads j)
         | None => false
         end
     | None => false
     end
  && negb (awaits_parent (restore_items d) x).

(** ORDER BY is_dir DESC, length(snapshot_relative_path), created_at *)
Definition item_before (a b : string * restore_item_row) : Prop :=
  if negb (Bool.eqb (ri_is_dir a.2) (ri_is_dir b.2)) then ri_is_dir a.2 = true
  else char_length (ri_path a.2) < char_length (ri_path b.2)
       \/ (char_length (ri_path a.2) = char_length (ri_path b.2) /\ ri_created a.2 <= ri_created b.2).
#[export] Instance item_before_dec : RelDecision item_before.
Proof. intros a b. unfold item_before. case_match; apply _. Defined.

Definition claim_state (workerID : string) (now : Z) (s : item_state) : item_state :=
  mkItemState IRunning (is_verification s) (is_attempts s) None (is_epoch s + 1)
    (nullableStringValue workerID) (Some (now + minutes 2)) None now.

Definition ClaimNextRestoreItemForWorkerContext (workerID : string) (now : Z) (d : restore_db)
    : option (string * restore_item_row) * restore_db :=
  match merge_sort item_before
          (List.filter (fun '(_, x) => claimable now d x) (map_to_list (restore_items d))) with
  | [] => (None, d)
  | (id_, x) :: _ =>
      let x := set_state (claim_state workerID now) x in
      (Some (id_, x), set_restore_items (insert id_ x) id d)
  end.

Definition ListRestoreItemBlocksContext (itemID runID : string) (d : restore_db) : list BlockRecipe :=
  match restore_items d !! itemID with
  | Some x =>
      if item_of runID x
      then omap (fun n => restore_blocks d !! (itemID, n))
             (seq 0 (max_list (map (fun '((_, n), _) => S n) (map_to_list (restore_blocks d)))))
      else []
  | None => []
  end.

(** ** Ends of a claim *)

(** The row is still what the claim left: its epoch, unless none is named. *)
Definition claim_fence (runID : string) (l : list item_status) (claimEpoch : Z) (x : restore_item_row) : bool :=
  item_of runID x && status_is l x && ((claimEpoch =? 0) || (is_epoch (ri_state x) =? claimEpoch)).

Definition end_state (st : item_status) (verification err : option string) (now : Z) (s : item_state)
    : item_state :=
  mkItemState st verification (is_attempts s) (is_next_retry s) (is_epoch s) (is_worker s) None err now.

Definition update_item (itemID : string) (p : restore_item_row -> bool)
    (f : restore_item_row -> restore_item_row) (d : restore_db) : bool * restore_db :=
  let '(ok, m) := update_row itemID p f (restore_items d) in (ok, set_restore_items (fun _ => m) id d).

Definition add_processed_file (size now : Z) (r : restore_run_row) : restore_run_row :=
  let t := rr_totals r in
  set_run (rr_status r)
    (mkRestoreTotals (rt_files t) (rt_bytes t) (rt_processed_files t + 1) (rt_processed_bytes t + size)
       (rt_failed_files t)) (rr_error r) (rr_lease r) (rr_credential r) now r.

Definition CompleteRestoreItemContext (itemID runID : string) (sizeBytes : Z) (verificationKind : string)
    (claimEpoch now : Z) (d : restore_db) : bool * restore_db :=
  let '(ok, d) := update_item itemID (claim_fence runID [IRunning] claimEpoch)
    (set_state (end_state ICompleted (Some verificationKind) None now)) d in
  if ok then
    (true, set_restore_runs (fun rs =>
       (update_row runID (fun r => restore_in [SRunning; SCancelling] (rr_status r))
          (add_processed_file sizeBytes now) rs).2) d)
  else (false, d).

Definition keep_verification (st : item_status) (err : option string) (now : Z) (s : item_state) : item_state :=
  end_state st (is_verification s) err now s.

(** [None]: the directory changed while completing. *)
Definition CompleteRestoreDirectoryContext (itemID runID : string) (claimEpoch now : Z) (d : restore_db)
    : option restore_db :=
  let '(ok, d) := update_item itemID (fun x => claim_fence runID [IRunning] claimEpoch x && ri_is_dir x)
    (set_state (keep_verification ICompleted None now)) d in
  if ok then Some d else None.

Definition WarnRestoreItemContext (itemID runID errorCode : string) (claimEpoch now : Z) (d : restore_db)
    : restore_db :=
  (update_item itemID (claim_fence runID [ICompleted] claimEpoch)
     (set_state (fun s => mkItemState IWarning (is_verification s) (is_attempts s) (is_next_retry s)
        (is_epoch s) (is_worker s) (is_deadline s) (Some errorCode) now)) d).2.

Definition FailRestoreItemContext (itemID runID errorCode : string) (claimEpoch now : Z) (d : restore_db)
    : restore_db :=
  (update_item itemID (claim_fence runID [IRunning] claimEpoch)
     (set_state (keep_verification IFailed (Some errorCode) now)) d).2.

Definition SkipRestoreItemContext (itemID runID errorCode : string) (claimEpoch now : Z) (d : restore_db)
    : restore_db :=
  (update_item itemID (claim_fence runID [IRunning] claimEpoch)
     (set_state (keep_verification ISkipped (Some errorCode) now)) d).2.

(** The array of intervals, indexed from one. *)
Definition retry_delay (attempt : Z) : option Z :=
  match attempt with 1 => Some 10 | 2 => Some 30 | 3 => Some 90 | _ => None end.

Definition retry_state (errorCode : string) (now : Z) (s : item_state) : item_state :=
  let attempts := is_attempts s + 1 in
  mkItemState (if 4 <=? attempts then IFailed else IPending) (is_verification s) attempts
    (if 4 <=? attempts then None else (fun t => now + t) <$> retry_delay attempts)
    (is_epoch s) None None (Some errorCode) now.

Definition RetryRestoreItemContext (itemID runID errorCode : string) (claimEpoch now : Z) (d : restore_db)
    : bool * restore_db :=
  update_item itemID (claim_fence runID [IRunning] claimEpoch) (set_state (retry_state errorCode now)) d.

Definition HeartbeatRestoreItemContext (itemID runID workerID : string) (claimEpoch now : Z) (d : restore_db)
    : restore_db :=
  (update_item itemID
     (fun x => item_of runID x && status_is [IRunning] x && negb (String.eqb workerID "")
               && bool_decide (is_worker (ri_state x) = Some workerID) && (is_epoch (ri_state x) =? claimEpoch))
     (set_state (fun s => mkItemState (is_status s) (is_verification s) (is_attempts s) (is_next_retry s)
        (is_epoch s) (is_worker s) (Some (now + minutes 2)) (is_error s) now)) d).2.

(** ** Target paths *)

Definition set_target (targetPath : string) (now : Z) (x : restore_item_row) : restore_item_row :=
  let s := ri_state x in
  mkRestoreItem (ri_run x) (ri_parent x) (ri_path x) (ri_is_dir x) (ri_size x) (ri_sha256 x) (ri_mtime x)
    targetPath (mkItemState (is_status s) (is_verification s) (is_attempts s) (is_next_retry s) (is_epoch s)
                  (is_worker s) (is_deadline s) (is_error s) now) (ri_created x).

Definition SetRestoreItemTargetPathContext (itemID runID targetPath : string) (claimEpoch now : Z)
    (d : restore_db) : restore_db :=
  (update_item itemID (claim_fence runID [IRunning] claimEpoch) (set_target targetPath now) d).2.

(** [None]: the directory changed while renaming. *)
Definition SetRestoreDirectoryTargetPathContext (itemID runID snapshotPath targetPath : string)
    (claimEpoch now : Z) (d : restore_db) : option restore_db :=
  let '(ok, d) := update_item itemID
    (fun x => claim_fence runID [IRunning] claimEpoch x && String.eqb (ri_path x) snapshotPath && ri_is_dir x)
    (set_target targetPath now) d in
  if ok then
    Some (set_restore_items (fmap (fun x =>
      if item_of runID x && like_below (ri_path x) snapshotPath
      then set_target (targetPath +:+ substring_from (ri_path x) (char_length snapshotPath)) now x
      else x)) id d)
  else None.

Definition canonical_path `{GoUnicode} (targetPath : string) : string :=
  let p := path_clean targetPath in
  let canonical := ToLower (if has_prefix p "/" then str_drop 1 p else p) in
  if String.eqb canonical "." || String.eqb canonical "" then "/" else canonical.

Definition reserved_by (runID itemID : string) (m : gmap (string * string) string) : bool :=
  existsb (fun '((r, _), i) => String.eqb r runID && String.eqb i itemID) (map_to_list m).

(** [None]: the insert violates UNIQUE (restore_run_id, restore_item_id). *)
Definition ReserveRestoreTargetPathContext `{GoUnicode} (runID itemID targetPath : string) (d : restore_db)
    : option (bool * restore_db) :=
  let key := (runID, canonical_path targetPath) in
  match reservations d !! key with
  | Some holder => Some (String.eqb holder itemID, d)
  | None =>
      if reserved_by runID itemID (reservations d) then None
      else Some (true, set_reservations (insert key itemID) d)
  end.

Definition MoveRestoreTargetReservationContext `{GoUnicode} (runID itemID targetPath : string)
    (d : restore_db) : bool * restore_db :=
  let key := (runID, canonical_path targetPath) in
  let m := filter (fun '((r, _), i) => negb (String.eqb r runID && String.eqb i itemID) = true) (reservations d) in
  match m !! key with
  | Some _ => (false, d)
  | None => (true, set_reservations (fun _ => <[key := itemID]> m) d)
  end.

(** ** Recovery *)

(** A directory above the item will not be made. *)
Definition blocked (m : gmap string restore_item_row) (x : restore_item_row) : bool :=
  status_is [IPending] x
  && any_row (fun y => item_of (ri_run x) y && ri_is_dir y && status_is [ISkipped; IFailed; ICancelled] y
                       && like_below (ri_path x) (ri_path y)) m.

Definition block_state (now : Z) (s : item_state) : item_state :=
  mkItemState ISkipped (is_verification s) (is_attempts s) (is_next_retry s) (is_epoch s) (is_worker s)
    (is_deadline s) (Some "RESTORE_PARENT_UNAVAILABLE") now.

Definition SkipBlockedRestoreItemsContext (now : Z) (d : restore_db) : Z * restore_db :=
  (count_where (blocked (restore_items d)) (restore_items d),
   set_restore_items (fun m => update_where (blocked m) (set_state (block_state now)) m) id d).

Definition item_lapsed (now : Z) (s : item_state) : bool :=
  match is_deadline s with Some t => t <? now | None => is_updated s <? now - minutes 10 end.

Definition stale_item (now : Z) (d : restore_db) (x : restore_item_row) : bool :=
  status_is [IRunning] x && item_lapsed now (ri_state x)
  && match restore_runs d !! ri_run x with
     | Some r => restore_in [SRunning; SCancelling] (rr_status r)
     | None => false
     end.

Definition recover_state (cancelling : bool) (now : Z) (s : item_state) : item_state :=
  mkItemState (if cancelling then ICancelled else IPending) (is_verification s) (is_attempts s) None
    (is_epoch s) None None
    (Some (if cancelling then "RESTORE_CANCELLED" else "RESTORE_WORKER_RECOVERED")) now.

Definition run_cancelling (d : restore_db) (runID : string) : bool :=
  match restore_runs d !! runID with Some r => restore_in [SCancelling] (rr_status r) | None => false end.

Definition RecoverStaleRestoreItemsContext (now : Z) (d : restore_db) : Z * restore_db :=
  (count_where (stale_item now d) (restore_items d),
   set_restore_items (update_where (stale_item now d)
     (fun x => set_state (recover_state (run_cancelling d (ri_run x)) now) x)) id d).
