(* ===== verification/RestoreState.v ===== *)
(** * The restore tables keep their invariant

    [restore_step] is one statement of the system as the restore tables see it: every
    statement of RestoreRuns.v and RestoreItems.v, the suspension of an account, and the
    statements of the backup side that touch packs.  [restore_wf] is what all of them
    keep: a preview holds a lease only while it is worked on, ended previews and runs
    hold no credential and ended runs no lease, a job has one active run, items belong
    to planned runs and count their attempts, a recipe belongs to an item - also after
    the run of the item has ended -, and the packs of the recipes are pinned until their
    run ends. *)

From S2P Require Import Prelude GoPath HashString Tables Bytes Utf8 RestoreReader.
From S2P Require Import BackupDb BackupRuns BackupCatalog BackupMaintenance RestoreDb RestoreRuns RestoreItems.

(** ** The invariant *)

Definition preview_over : list preview_status := [PFailed; PExpired; PConsumed; PCancelled].
Definition run_over : list restore_status := [SCompleted; SPartial; SFailed; SCancelled].

(** A run that holds pins. *)
Definition moving : list restore_status := [SRunning; SCancelling].
Definition unplanned : list restore_status := [SQueued; SPlanning].

Definition preview_ok (p : preview_row) : Prop :=
  (preview_in preview_over (pv_status p) = true -> pv_credential p = None)
  /\ (pv_status p <> PRunning -> ls_until (pv_lease p) = None /\ ls_worker (pv_lease p) = None).

Definition run_ok (js : gmap string restore_job_row) (r : restore_run_row) : Prop :=
  is_Some (js !! rr_job r)
  /\ (restore_in run_over (rr_status r) = true ->
      rr_credential r = None /\ ls_until (rr_lease r) = None /\ ls_worker (rr_lease r) = None).

Definition counters_ok (s : item_state) : Prop :=
  0 <= is_attempts s <= 4 /\ 0 <= is_epoch s
  /\ (is_status s = IPending -> is_attempts s <= 3)
  /\ (is_status s = IRunning -> is_attempts s <= 3 /\ 1 <= is_epoch s).

Definition item_ok (rs : gmap string restore_run_row) (x : restore_item_row) : Prop :=
  counters_ok (ri_state x)
  /\ exists r, rs !! ri_run x = Some r /\ restore_in unplanned (rr_status r) = false
       /\ (status_is [IRunning] x = true -> restore_in moving (rr_status r) = true).

Definition run_moving (rs : gmap string restore_run_row) (runID : string) : Prop :=
  exists r, rs !! runID = Some r /\ restore_in moving (rr_status r) = true.

(** The pack of a recipe is pinned by the run, is what the recipe says and is not
    deleted. *)
Definition pinned_recipe (b : backup_db) (runID : string) (rec : BlockRecipe) : Prop :=
  exists packID p, (runID, packID) ∈ pins b /\ packs b !! packID = Some p
    /\ pk_path p = PackPath rec /\ pk_sha256 p = PackSHA256 rec /\ pk_state p <> PackDeleted.

Record restore_wf (d : restore_db) : Prop := mkWf {
  wf_previews : forall id p, previews d !! id = Some p -> preview_ok p;
  wf_runs : forall id r, restore_runs d !! id = Some r -> run_ok (restore_jobs d) r;
  wf_active : forall a b ra rb, restore_runs d !! a = Some ra -> restore_runs d !! b = Some rb ->
    run_active ra = true -> run_active rb = true -> rr_job ra = rr_job rb -> a = b;
  wf_items : forall id x, restore_items d !! id = Some x -> item_ok (restore_runs d) x;
  wf_blocks : forall id n rec, restore_blocks d !! (id, n) = Some rec -> is_Some (restore_items d !! id);
  wf_pins : forall runID packID, (runID, packID) ∈ pins (rd_backup d) -> run_moving (restore_runs d) runID;
  wf_recipes : forall id n rec x, restore_blocks d !! (id, n) = Some rec -> restore_items d !! id = Some x ->
    run_moving (restore_runs d) (ri_run x) -> pinned_recipe (rd_backup d) (ri_run x) rec;
}.

(** ** Changes that keep it *)

(** A run changes and stays where it is in its life, as far as items and pins go. *)
Record run_change (r r' : restore_run_row) : Prop := mkRunChange {
  rc_job : rr_job r' = rr_job r;
  rc_over : restore_in run_over (rr_status r') = true ->
    rr_credential r' = None /\ ls_until (rr_lease r') = None /\ ls_worker (rr_lease r') = None;
  rc_active : run_active r' = true -> run_active r = true;
  rc_planned : restore_in unplanned (rr_status r) = false -> restore_in unplanned (rr_status r') = false;
  rc_moving : restore_in moving (rr_status r') = true ->
    restore_in moving (rr_status r) = true \/ restore_in unplanned (rr_status r) = true;
}.

(** The run leaves nothing behind: no item is being worked on and no pin is left. *)
Definition released (d : restore_db) (runID : string) : Prop :=
  (forall id x, restore_items d !! id = Some x -> ri_run x = runID -> status_is [IRunning] x = false)
  /\ forall packID, (runID, packID) ∉ pins (rd_backup d).

Lemma wf_set_runs d rs :
  restore_wf d ->
  (forall id r', rs !! id = Some r' -> exists r, restore_runs d !! id = Some r /\ run_change r r') ->
  (forall id r, restore_runs d !! id = Some r -> exists r', rs !! id = Some r' /\
     (restore_in moving (rr_status r) = true -> restore_in moving (rr_status r') = true \/ released d id)) ->
  restore_wf (set_restore_runs (fun _ => rs) d).
Proof.
  intros [Wp Wr Wa Wi Wb Wn Wc] Hback Hfwd. split; cbn; try done.
  - intros id r' Hr'. destruct (Hback id r' Hr') as (r & Hr & Hc). destruct (Wr id r Hr) as [Hj _].
    split; [by rewrite (rc_job _ _ Hc)|apply Hc].
  - intros a b ra rb Ha Hb Aa Ab Ej. destruct (Hback a ra Ha) as (ra0 & Ha0 & Ca).
    destruct (Hback b rb Hb) as (rb0 & Hb0 & Cb).
    apply (Wa a b ra0 rb0 Ha0 Hb0); [by apply (rc_active _ ra)|by apply (rc_active _ rb)|].
    by rewrite <- (rc_job _ _ Ca), <- (rc_job _ _ Cb).
  - intros id x Hx. destruct (Wi id x Hx) as (Hk & r & Hr & Hpl & Hm). split; [done|].
    destruct (Hfwd _ r Hr) as (r' & Hr' & Hmv). exists r'. split; [done|]. split.
    + destruct (Hback _ r' Hr') as (r0 & Hr0 & Hc). simplify_eq. by apply Hc.
    + intros Hs. destruct (Hmv (Hm Hs)) as [?|[Hno _]]; [done|]. by rewrite (Hno id x Hx eq_refl) in Hs.
  - intros runID packID Hin. destruct (Wn runID packID Hin) as (r & Hr & Hm).
    destruct (Hfwd _ r Hr) as (r' & Hr' & Hmv). exists r'. split; [done|].
    destruct (Hmv Hm) as [?|[_ Hno]]; [done|]. by destruct (Hno packID).
  - intros id n rec x Hb Hx (r' & Hr' & Hm). apply (Wc id n rec x Hb Hx).
    destruct (Hback _ r' Hr') as (r & Hr & Hc). exists r. split; [done|].
    destruct (rc_moving _ r' Hc Hm) as [?|Hu]; [done|]. destruct (Wi id x Hx) as (_ & r1 & Hr1 & Hn & _).
    simplify_eq. congruence.
Qed.

(** One run changes. *)
Lemma wf_update_run d k p f :
  restore_wf d ->
  (forall r, restore_runs d !! k = Some r -> p r = true -> run_change r (f r)
     /\ (restore_in moving (rr_status r) = true -> restore_in moving (rr_status (f r)) = true \/ released d k)) ->
  restore_wf (set_restore_runs (fun rs => (update_row k p f rs).2) d).
Proof.
  intros Hw H. change (restore_wf (set_restore_runs (fun _ => (update_row k p f (restore_runs d)).2) d)).
  destruct (update_row_spec k p f (restore_runs d)) as [(r & Hr & Hp & ->)|[-> _]]; cbn [snd];
    [|by destruct d].
  destruct (H r Hr Hp) as [Hc Hm]. apply wf_set_runs; [done| |]; intros id r0.
  - destruct (decide (id = k)) as [->|Hne].
    + rewrite lookup_insert_eq. intros [= <-]. by exists r.
    + rewrite lookup_insert_ne by done. intros Hr0. exists r0. split; [done|].
      split; try done; [|by left]. intros Ho. by destruct (wf_runs d Hw id r0 Hr0) as [_ Hk]; apply Hk.
  - intros Hr0. destruct (decide (id = k)) as [->|Hne].
    + simplify_eq. exists (f r). rewrite lookup_insert_eq. done.
    + exists r0. rewrite lookup_insert_ne by done. split; [done|]. by left.
Qed.

Lemma wf_update_runs d p f :
  restore_wf d ->
  (forall id r, restore_runs d !! id = Some r -> p r = true -> run_change r (f r)
     /\ (restore_in moving (rr_status r) = true -> restore_in moving (rr_status (f r)) = true)) ->
  restore_wf (set_restore_runs (update_where p f) d).
Proof.
  intros Hw H. change (restore_wf (set_restore_runs (fun _ => update_where p f (restore_runs d)) d)).
  assert (forall id r, restore_runs d !! id = Some r -> run_change r r) as Hrefl.
  { intros id r Hr. split; try done; [|by left]. destruct (wf_runs d Hw id r Hr) as [_ Hk]. done. }
  apply wf_set_runs; [done| |]; intros id r.
  - rewrite update_where_lookup. destruct (restore_runs d !! id) as [r0|] eqn:Hr0; [|done]. cbn.
    intros [= <-]. exists r0. split; [done|]. destruct (p r0) eqn:Hp; [by apply (H id)|by eapply Hrefl].
  - intros Hr. rewrite update_where_lookup, Hr. cbn. eexists. split; [done|]. intros Hm. left.
    destruct (p r) eqn:Hp; [|done]. by apply (H id).
Qed.

(** Items change: the run and the counters are right, and work starts only in a run
    that is on. *)
Record item_change (rs : gmap string restore_run_row) (x x' : restore_item_row) : Prop := mkItemChange {
  ic_run : ri_run x' = ri_run x;
  ic_counters : counters_ok (ri_state x) -> counters_ok (ri_state x');
  ic_running : status_is [IRunning] x' = true -> status_is [IRunning] x = true \/ run_moving rs (ri_run x);
}.

Lemma item_change_refl rs x : item_change rs x x.
Proof. split; auto. Qed.

Lemma item_ok_change rs x x' : item_change rs x x' -> item_ok rs x -> item_ok rs x'.
Proof.
  intros [Hr Hc Hm] (Hk & r & Hrr & Hp & Hmv). split; [auto|]. rewrite Hr. exists r.
  split; [done|]. split; [done|]. intros Hs. destruct (Hm Hs) as [?|(r' & Hr' & ?)]; [auto|].
  by simplify_eq.
Qed.

Lemma wf_set_items d m :
  restore_wf d ->
  (forall id, match restore_items d !! id, m !! id with
              | Some x, Some x' => item_change (restore_runs d) x x'
              | None, None => True
              | _, _ => False
              end) ->
  restore_wf (set_restore_items (fun _ => m) id d).
Proof.
  intros [Wp Wr Wa Wi Wb Wn Wc] H. split; cbn; try done.
  - intros id x' Hx'. specialize (H id). rewrite Hx' in H.
    destruct (restore_items d !! id) as [x|] eqn:Hx; [|done]. by eapply item_ok_change, Wi.
  - intros id n rec Hb. destruct (Wb id n rec Hb) as [x Hx]. specialize (H id). rewrite Hx in H.
    destruct (m !! id) as [x'|]; [by eexists|done].
  - intros id n rec x' Hb Hx' Hm. specialize (H id). rewrite Hx' in H.
    destruct (restore_items d !! id) as [x|] eqn:Hx; [|done].
    rewrite (ic_run _ _ _ H) in *. by apply (Wc id n rec x).
Qed.

Lemma wf_update_item d k p f :
  restore_wf d ->
  (forall x, restore_items d !! k = Some x -> p x = true -> item_change (restore_runs d) x (f x)) ->
  restore_wf (update_item k p f d).2.
Proof.
  intros Hw H. unfold update_item.
  destruct (update_row_spec k p f (restore_items d)) as [(x & Hx & Hp & ->)|[-> _]]; cbn [snd];
    (apply wf_set_items; [done|]; intros id).
  - destruct (decide (id = k)) as [->|Hne].
    + rewrite lookup_insert_eq, Hx. by apply H.
    + rewrite lookup_insert_ne by done. destruct (restore_items d !! id); [apply item_change_refl|done].
  - destruct (restore_items d !! id); [apply item_change_refl|done].
Qed.

Lemma wf_map_items d g :
  restore_wf d ->
  (forall id x, restore_items d !! id = Some x -> item_change (restore_runs d) x (g x)) ->
  restore_wf (set_restore_items (fmap g) id d).
Proof.
  intros Hw H. change (restore_wf (set_restore_items (fun _ => g <$> restore_items d) id d)).
  apply wf_set_items; [done|]. intros id. rewrite lookup_fmap.
  destruct (restore_items d !! id) eqn:Hx; cbn; [by eapply H|done].
Qed.

(** ** Previews, jobs, reservations, notifications *)

Lemma wf_set_previews d ps :
  restore_wf d -> (forall id p, ps !! id = Some p -> preview_ok p) ->
  restore_wf (set_previews (fun _ => ps) d).
Proof. intros [Wp Wr Wa Wi Wb Wn Wc] H. split; done. Qed.

Lemma wf_update_preview d k p f :
  restore_wf d -> (forall x, p x = true -> preview_ok x -> preview_ok (f x)) ->
  restore_wf (set_previews (fun _ => (update_row k p f (previews d)).2) d).
Proof.
  intros Hw H. apply wf_set_previews; [done|]. intros id x.
  destruct (update_row_spec k p f (previews d)) as [(y & Hy & Hp & ->)|[-> _]]; cbn [snd];
    [|by apply wf_previews].
  destruct (decide (id = k)) as [->|Hne].
  - rewrite lookup_insert_eq. intros [= <-]. apply H; [done|]. by eapply wf_previews.
  - rewrite lookup_insert_ne by done. by apply wf_previews.
Qed.

Lemma wf_update_previews d p f :
  restore_wf d -> (forall x, p x = true -> preview_ok x -> preview_ok (f x)) ->
  restore_wf (set_previews (update_where p f) d).
Proof.
  intros Hw H. change (restore_wf (set_previews (fun _ => update_where p f (previews d)) d)).
  apply wf_set_previews; [done|]. intros id x. rewrite update_where_lookup.
  destruct (previews d !! id) as [y|] eqn:Hy; [|done]. cbn. intros [= <-].
  pose proof (wf_previews d Hw id y Hy). destruct (p y) eqn:Hp; auto.
Qed.

Lemma wf_set_reservations d f : restore_wf d -> restore_wf (set_reservations f d).
Proof. intros [Wp Wr Wa Wi Wb Wn Wc]. split; done. Qed.

Lemma wf_set_notified d f : restore_wf d -> restore_wf (set_restore_notified f d).
Proof. intros [Wp Wr Wa Wi Wb Wn Wc]. split; done. Qed.

(** ** The statements on previews *)

Lemma preview_in_eq s t : preview_in [s] t = true -> t = s.
Proof. unfold preview_in. rewrite bool_decide_eq_true. by intros ->%list_elem_of_singleton. Qed.

Lemma update_row_fst {R} k (p : R -> bool) f m ok m' : update_row k p f m = (ok, m') -> m' = (update_row k p f m).2.
Proof. by intros ->. Qed.

Lemma create_preview_wf user spec retry threads fp cred id now d d' :
  restore_wf d -> CreateRestorePreviewContext user spec retry threads fp cred id now d = Some d' -> restore_wf d'.
Proof.
  intros Hw. unfold CreateRestorePreviewContext. destruct (sp_job spec), (sp_snapshot spec); try done.
  case_match; [done|]. intros [= <-].
  change (restore_wf (set_previews (fun _ => <[id := mkPreview user spec retry threads fp cred PQueued
    no_preview_stats None (mkLease 0 None None) None now now]> (previews d)) d)).
  apply wf_set_previews; [done|]. intros k p. destruct (decide (k = id)) as [->|Hne].
  - rewrite lookup_insert_eq. intros [= <-]. done.
  - rewrite lookup_insert_ne by done. by apply wf_previews.
Qed.

Lemma claim_preview_wf w now d : restore_wf d -> restore_wf (ClaimNextRestorePreviewForWorkerContext w now d).2.
Proof.
  intros Hw. unfold ClaimNextRestorePreviewForWorkerContext. case_match; [done|]. case_match. cbn.
  match goal with |- restore_wf (set_previews (insert ?k ?p) _) =>
    change (restore_wf (set_previews (fun _ => <[k := p]> (previews d)) d)) end.
  apply wf_set_previews; [done|]. intros k q. rewrite lookup_insert. case_decide.
  - intros [= <-]. done.
  - by apply wf_previews.
Qed.

Lemma complete_preview_wf id g w st now d :
  restore_wf d -> restore_wf (CompleteRestorePreviewWithStatsFencedContext id g w st now d).2.
Proof.
  intros Hw. unfold CompleteRestorePreviewWithStatsFencedContext.
  destruct (update_row _ _ _ _) as [ok ps] eqn:E. apply update_row_fst in E as ->.
  apply wf_update_preview; [done|]. by intros x _ _.
Qed.

Lemma fail_preview_wf id g w e now d :
  restore_wf d -> restore_wf (FailRestorePreviewFencedContext id g w e now d).
Proof.
  intros Hw. unfold FailRestorePreviewFencedContext.
  apply (wf_update_preview d id); [done|]. by intros x _ _.
Qed.

Lemma renew_preview_wf id g w now d :
  restore_wf d -> restore_wf (RenewRestorePreviewLeaseContext id g w now d).2.
Proof.
  intros Hw. unfold RenewRestorePreviewLeaseContext.
  destruct (update_row _ _ _ _) as [ok ps] eqn:E. apply update_row_fst in E as ->.
  apply wf_update_preview; [done|]. intros x [[Hs%preview_in_eq _]%andb_true_iff _]%andb_true_iff [H1 _].
  split; [done|]. cbn. by intros [].
Qed.

Lemma cancel_preview_wf id u now d :
  restore_wf d -> restore_wf (CancelRestorePreviewForOwnerContext id u now d).2.
Proof.
  intros Hw. unfold CancelRestorePreviewForOwnerContext.
  destruct (update_row _ _ _ _) as [ok ps] eqn:E. apply update_row_fst in E as ->.
  apply wf_update_preview; [done|]. by intros x _ _.
Qed.

Lemma expire_previews_wf now d : restore_wf d -> restore_wf (ExpireRestorePreviewsContext now d).
Proof. intros Hw. apply wf_update_previews; [done|]. by intros x _ _. Qed.

(** ** The statements on runs *)

Lemma restore_in_eq s t : restore_in [s] t = true -> t = s.
Proof. unfold restore_in. rewrite bool_decide_eq_true. by intros ->%list_elem_of_singleton. Qed.

Lemma consume_preview_wf id user newID wall now d j r d' :
  restore_wf d -> ConsumeRestorePreviewContext id user newID wall now d = Ok (j, r, d') -> restore_wf d'.
Proof.
  intros Hw. unfold ConsumeRestorePreviewContext. destruct (previews d !! id) as [p|] eqn:Hpv; [|done].
  do 2 (case_match; [done|]). destruct (negb (preview_in [PReady] _)) eqn:Hready; [done|].
  apply negb_false_iff, preview_in_eq in Hready. destruct (sp_job (pv_spec p)), (sp_snapshot (pv_spec p)); try done.
  case_match; [done|]. destruct (consume_job user (newID 0%nat) p d) as [[jobID d1]|] eqn:Ej; [|done].
  destruct (insert_run _ _ _) as [rs|] eqn:Er; [|done]. intros [= <- <- <-].
  assert (restore_wf d1 /\ is_Some (restore_jobs d1 !! jobID) /\ previews d1 = previews d) as (HW1 & Hj & Hp).
  { unfold consume_job in Ej. destruct (pv_retry p) as [k|].
    - destruct (restore_jobs d !! k) as [x|] eqn:Ex; [|done].
      do 3 (case_match; [done|]). injection Ej as <- <-. split_and!; eauto.
    - case_match; [done|]. injection Ej as <- <-. split; [|split; [|done]]; cbn.
      + destruct Hw as [Wp Wr Wa Wi Wb Wn Wc]. split; cbn; try done.
        intros k x Hx. destruct (Wr k x Hx) as [[y Hy] Hz]. split; [|done].
        destruct (decide (newID 0%nat = rr_job x)) as [<-|]; [rewrite lookup_insert_eq; by eexists|].
        rewrite lookup_insert_ne by done. by eexists.
      + rewrite lookup_insert_eq. by eexists. }
  unfold insert_run in Er. destruct (_ || _ || _) eqn:Eg; [done|]. injection Er as <-.
  apply orb_false_iff in Eg as [[Hfresh _]%orb_false_iff Hact].
  apply andb_false_iff in Hact as [Hact|Hact]; [by vm_compute in Hact|]. cbn [rr_job] in Hact.
  rewrite bool_decide_eq_false, <- eq_None_not_Some in Hfresh.
  destruct HW1 as [Wp Wr Wa Wi Wb Wn Wc].
  assert (forall k r0, restore_runs d1 !! k = Some r0 -> k <> newID 1%nat) as Hne by (intros k r0 Hk ->; congruence).
  split; cbn.
  - intros k q. rewrite lookup_insert. case_decide; [|by apply Wp]. intros [= <-]. split; [done|]. intros _. cbn.
    apply (Wp id p); [by rewrite Hp|by rewrite Hready].
  - intros k q. rewrite lookup_insert. case_decide; [by intros [= <-]|]. by apply Wr.
  - rewrite any_row_false in Hact. intros a b ra rb. rewrite !lookup_insert.
    repeat case_decide; subst; try done; [intros [= <-] Hb _ Ab Eb|intros Ha [= <-] Aa _ Ea|by apply Wa].
    + specialize (Hact b rb Hb). unfold run_of in Hact. cbn in Eb, Hact. rewrite Ab, <- Eb, String.eqb_refl in Hact. done.
    + specialize (Hact a ra Ha). unfold run_of in Hact. cbn in Ea, Hact. rewrite Aa, Ea, String.eqb_refl in Hact. done.
  - intros k x Hx. destruct (Wi k x Hx) as (Hk & r0 & Hr0 & Hrest). split; [done|]. exists r0.
    rewrite lookup_insert_ne; [done|]. by apply not_eq_sym, (Hne _ r0).
  - done.
  - intros a b Hin. destruct (Wn a b Hin) as (r0 & Hr0 & Hm). exists r0.
    rewrite lookup_insert_ne; [done|]. by apply not_eq_sym, (Hne _ r0).
  - intros k n rec x Hb Hx (r0 & Hr0 & Hm). apply (Wc k n rec x Hb Hx). exists r0. split; [|done].
    rewrite lookup_insert_ne in Hr0; [done|]. destruct (Wi k x Hx) as (_ & r1 & Hr1 & _).
    by apply not_eq_sym, (Hne _ r1).
Qed.

(** A run in [from] moves to [to], neither of them ended or holding pins. *)
Lemma run_change_early r t e l c now to :
  restore_in active_restores (rr_status r) = true ->
  restore_in moving to = false -> restore_in run_over to = false ->
  (restore_in unplanned (rr_status r) = false -> restore_in unplanned to = false) ->
  run_change r (set_run to t e l c now r).
Proof.
  intros Ha Hm Ho Hu. split; cbn; try done.
  - by rewrite Ho.
  - by rewrite Hm.
Qed.

Lemma claim_run_wf w now d : restore_wf d -> restore_wf (ClaimNextQueuedRestoreRunForWorkerContext w now d).2.
Proof.
  intros Hw. unfold ClaimNextQueuedRestoreRunForWorkerContext.
  destruct (merge_sort _ _) as [|[k r] l] eqn:E; [done|]. cbn [snd].
  assert ((k, r) ∈ (k, r) :: l) as Hin by by left.
  rewrite <- E, merge_sort_Permutation, list_elem_of_In, filter_In in Hin.
  destruct Hin as [Hin [Hs _]%andb_true_iff]. apply restore_in_eq in Hs.
  apply list_elem_of_In, elem_of_map_to_list in Hin.
  pose proof (wf_update_run d k (fun _ => true)
    (fun r => set_run SPlanning (rr_totals r) (rr_error r) (claim_lease now w (rr_lease r)) (rr_credential r) now r) Hw) as H.
  unfold update_row in H. unfold set_restore_runs in H |- *. cbn beta in H. rewrite Hin in H. apply H.
  intros r' [= <-] _. split; [|by rewrite Hs]. apply run_change_early; try rewrite Hs; done.
Qed.

Lemma notify_wf k d d' : restore_wf d -> createRestoreNotificationEventTx k d = Some d' -> restore_wf d'.
Proof.
  intros Hw. unfold createRestoreNotificationEventTx. repeat (case_match; try done); intros [= <-]; [|done].
  by apply wf_set_notified.
Qed.

Lemma update_runs_eq k p f d ok rs :
  update_row k p f (restore_runs d) = (ok, rs) ->
  set_restore_runs (fun _ => rs) d = set_restore_runs (fun rs => (update_row k p f rs).2) d.
Proof. intros E. unfold set_restore_runs. by rewrite E. Qed.

Lemma fail_planning_wf J k g e now d : restore_wf d -> restore_wf (FailRestoreRunPlanningContext J k g e now d).2.
Proof.
  intros Hw. unfold FailRestoreRunPlanningContext. destruct (update_row _ _ _ _) as [ok rs] eqn:E.
  rewrite (update_runs_eq _ _ _ _ _ _ E). destruct (negb ok); [done|].
  destruct (createRestoreNotificationEventTx _ _) as [d'|] eqn:En; [|done]. cbn.
  eapply notify_wf; [|exact En]. apply wf_update_run; [done|]. intros r Hr [_ Hs]%andb_true_iff.
  apply restore_in_eq in Hs. split; [|by rewrite Hs]. by split.
Qed.

Lemma recover_planning_wf now d : restore_wf d -> restore_wf (RecoverStaleRestorePlanningContext now d).
Proof.
  intros Hw. apply wf_update_runs; [apply wf_update_previews; [done|by intros x _ _]|].
  intros k r Hr [Hs _]%andb_true_iff. apply restore_in_eq in Hs. split; [|by rewrite Hs].
  apply run_change_early; try rewrite Hs; done.
Qed.

(** ** Pins *)

(** Pins only go. *)
Lemma wf_fewer_pins d f :
  restore_wf d -> (forall s, f s ⊆ s) ->
  (forall runID packID, (runID, packID) ∈ pins (rd_backup d) -> (runID, packID) ∉ f (pins (rd_backup d)) ->
     ~ run_moving (restore_runs d) runID) ->
  restore_wf (set_backup (set_pins f) d).
Proof.
  intros [Wp Wr Wa Wi Wb Wn Wc] Hf Hgone. split; cbn; try done.
  - intros runID packID Hin. apply (Wn runID packID). by apply Hf.
  - intros k n rec x Hb Hx Hm. destruct (Wc k n rec x Hb Hx Hm) as (pid & p & Hin & Hp & E).
    exists pid, p. split; [|done]. destruct (decide ((ri_run x, pid) ∈ f (pins (rd_backup d)))); [done|].
    exfalso. by apply (Hgone _ _ Hin).
Qed.

Lemma wf_release d k : restore_wf d -> ~ run_moving (restore_runs d) k -> restore_wf (release_pins k d).
Proof.
  intros Hw Hk. apply wf_fewer_pins; [done|set_solver|]. intros a b Hin Hn Hm.
  assert (a = k) as -> by (destruct (decide (a = k)); [done|]; set_solver). done.
Qed.

(** The pins and recipes of a run about to end are given up first; the model of a
    transaction that does it the other way round is the same. *)
Definition end_run (k : string) (p : restore_run_row -> bool) (f : restore_run_row -> restore_run_row)
    (d : restore_db) : restore_db :=
  release_pins k (set_restore_runs (fun rs => (update_row k p f rs).2) d).

Lemma wf_end_run d k p f r :
  restore_wf d -> restore_runs d !! k = Some r -> p r = true -> run_active r = true ->
  (forall id x, restore_items d !! id = Some x -> ri_run x = k -> status_is [IRunning] x = false) ->
  rr_job (f r) = rr_job r -> restore_in run_over (rr_status (f r)) = true ->
  rr_credential (f r) = None /\ ls_until (rr_lease (f r)) = None /\ ls_worker (rr_lease (f r)) = None ->
  restore_wf (end_run k p f d).
Proof.
  intros [Wp Wr Wa Wi Wb Wn Wc] Hr Hp Ha Hno Hj Ho Hcl. unfold end_run.
  unfold set_restore_runs. rewrite (update_row_hit _ _ _ _ _ Hr Hp).
  assert (restore_in unplanned (rr_status (f r)) = false /\ restore_in moving (rr_status (f r)) = false
          /\ run_active (f r) = false) as (Hu & Hm & Hna)
    by (unfold run_active; destruct (rr_status (f r)); done).
  split; cbn; try done.
  - intros id x. rewrite lookup_insert. case_decide; [intros [= <-]; subst|by apply Wr].
    split; [|done]. rewrite Hj. by apply (Wr id r).
  - intros a b ra rb. rewrite !lookup_insert.
    repeat case_decide; subst; try done; [intros [= <-]|intros ? [= <-] ?|by apply Wa]; congruence.
  - intros id x Hx. destruct (Wi id x Hx) as (Hk & r0 & Hr0 & Hup & Hmv). split; [done|].
    destruct (decide (ri_run x = k)) as [<-|Hne].
    + exists (f r). rewrite lookup_insert_eq. split; [done|]. split; [done|]. intros Hs.
      by rewrite (Hno id x Hx eq_refl) in Hs.
    + exists r0. by rewrite lookup_insert_ne.
  - intros a b [Hne Hin]%elem_of_filter. cbn in Hne. destruct (Wn a b Hin) as (r0 & Hr0 & Hm0). exists r0. by rewrite lookup_insert_ne.
  - intros id n rec x Hb Hx (r0 & Hr0 & Hm0). destruct (decide (ri_run x = k)) as [<-|Hne].
    { rewrite lookup_insert_eq in Hr0. simplify_eq. congruence. }
    rewrite lookup_insert_ne in Hr0 by done.
    destruct (Wc id n rec x Hb Hx) as (pid & q & Hin & Hq & E); [by exists r0|].
    exists pid, q. split; [by apply elem_of_filter|done].
Qed.

Lemma not_any_item d k l id x :
  any_item k l d = false -> restore_items d !! id = Some x -> ri_run x = k -> status_is l x = false.
Proof.
  unfold any_item. rewrite any_row_false. intros H Hx <-. specialize (H id x Hx). unfold item_of in H.
  by rewrite String.eqb_refl in H.
Qed.

(** ** The end of runs *)

Lemma status_is_one s x : status_is [s] x = true <-> is_status (ri_state x) = s.
Proof. unfold status_is, item_in. rewrite bool_decide_eq_true. by rewrite list_elem_of_singleton. Qed.

(** An item whose work ends or is dropped. *)
Lemma item_change_idle rs f x :
  (counters_ok (ri_state x) -> counters_ok (f (ri_state x))) ->
  is_status (f (ri_state x)) <> IRunning ->
  item_change rs x (set_state f x).
Proof. intros Hc Hs. split; [done|done|]. intros H%status_is_one. done. Qed.

(** No counter changes and the item is no longer pending or running. *)
Lemma counters_over s s' :
  is_attempts s' = is_attempts s -> is_epoch s' = is_epoch s ->
  is_status s' <> IPending -> is_status s' <> IRunning -> counters_ok s -> counters_ok s'.
Proof. intros Ha He Hp Hr (H1 & H2 & _ & _). split_and!; rewrite ?Ha, ?He; try lia; done. Qed.

Ltac over := apply item_change_idle; [apply counters_over|]; done.

Lemma wf_cancel_items d now k :
  restore_wf d ->
  restore_wf (set_restore_items (update_where (fun x => item_of k x && status_is [IPending] x)
                (set_state (cancel_state now))) id d).
Proof.
  intros Hw. apply wf_map_items; [done|]. intros i x Hx. case_match; [over|apply item_change_refl].
Qed.

Lemma cancel_run_wf k u now d : restore_wf d -> restore_wf (CancelRestoreRunForOwnerContext k u now d).2.
Proof.
  intros Hw. unfold CancelRestoreRunForOwnerContext. destruct (update_row _ _ _ _) as [ok rs] eqn:E.
  destruct ok; [|done]. cbn [negb].
  assert (restore_wf (set_restore_runs (fun _ => rs) d)) as H1.
  { rewrite (update_runs_eq _ _ _ _ _ _ E). apply wf_update_run; [done|].
    intros r Hr [_ Hs]%andb_true_iff. split; [|by left].
    split; try done; cbn; intros _; unfold run_active; destruct (rr_status r); first [done|by left|by right]. }
  apply (wf_cancel_items _ now k) in H1. set (d1 := set_restore_items _ _ _) in *.
  destruct (any_item k [IRunning] d1) eqn:Ei; [done|]. cbn [snd].
  assert (exists r, restore_runs d1 !! k = Some r /\ rr_status r = SCancelling) as (r & Hr & Hs).
  { unfold d1. cbn. match type of E with update_row _ ?p ?f _ = _ =>
      destruct (update_row_spec k p f (restore_runs d)) as [(r & Hr & Hp & E')|[E' _]] end;
      rewrite E' in E; [|done]. injection E as <-. eexists. split; [apply lookup_insert_eq|done]. }
  apply (wf_end_run _ k _ _ r); try done; try (by unfold restore_in, run_active; rewrite Hs).
  intros i x Hx Hk. by apply (not_any_item d1 k _ i).
Qed.

Lemma in_drained s l d k :
  k ∈ List.filter (drained s l d) (map fst (map_to_list (restore_runs d))) ->
  exists r, restore_runs d !! k = Some r /\ rr_status r = s /\ any_item k l d = false.
Proof.
  intros [_ Hd]%list_elem_of_In%filter_In. unfold drained in Hd.
  destruct (restore_runs d !! k) as [r|]; [|done].
  apply andb_true_iff in Hd as [[Hs%restore_in_eq _]%andb_true_iff Hn%negb_true_iff]. by exists r.
Qed.

Lemma drained_NoDup s l d : NoDup (List.filter (drained s l d) (map fst (map_to_list (restore_runs d)))).
Proof. apply NoDup_ListNoDup, List.NoDup_filter, NoDup_ListNoDup, NoDup_fst_map_to_list. Qed.

Lemma end_run_other k p f d k' : k' <> k -> restore_runs (end_run k p f d) !! k' = restore_runs d !! k'.
Proof.
  intros Hne. unfold end_run. cbn. destruct (update_row_spec k p f (restore_runs d)) as [(r & Hr & Hp & ->)|[-> _]];
    [|done]. cbn. by rewrite lookup_insert_ne.
Qed.

(** What a pass over the drained runs keeps: those still to come are as they were. *)
Definition pending_runs (d0 d : restore_db) (l : list string) : Prop :=
  restore_wf d /\ restore_items d = restore_items d0
  /\ forall k, k ∈ l -> restore_runs d !! k = restore_runs d0 !! k.

Lemma not_running_of l d k i x :
  IRunning ∈ l -> any_item k l d = false -> restore_items d !! i = Some x -> ri_run x = k ->
  status_is [IRunning] x = false.
Proof.
  intros Hl Ha Hx Hk. pose proof (not_any_item d k l i x Ha Hx Hk) as H. apply not_true_is_false.
  intros Hs%status_is_one. unfold status_is, item_in in H. rewrite Hs in H.
  by rewrite bool_decide_eq_false in H.
Qed.

Lemma pending_end_run d0 d k l p f r s ls :
  pending_runs d0 d (k :: l) -> k ∉ l -> restore_runs d0 !! k = Some r -> rr_status r = s ->
  IRunning ∈ ls -> any_item k ls d0 = false -> p r = true -> run_active r = true ->
  rr_job (f r) = rr_job r -> restore_in run_over (rr_status (f r)) = true ->
  rr_credential (f r) = None /\ ls_until (rr_lease (f r)) = None /\ ls_worker (rr_lease (f r)) = None ->
  pending_runs d0 (end_run k p f d) l.
Proof.
  intros (Hw & Hi & Hl) Hk Hr Hs Hin Ha Hp Hact Hj Ho Hc. split; [|split; [done|]].
  - apply (wf_end_run d k p f r); try done; [rewrite Hl; [done|by left]|].
    rewrite Hi. intros i x Hx Hx'. by apply (not_running_of ls d0 k i).
  - intros k' Hk'. rewrite end_run_other; [apply Hl; by right|]. by intros ->.
Qed.

Lemma finalize_cancelling_wf now d : restore_wf d -> restore_wf (FinalizeCancellingRestoreRunsContext now d).2.
Proof.
  intros Hw. unfold FinalizeCancellingRestoreRunsContext. cbn [snd].
  pose proof (drained_NoDup SCancelling [IRunning] d) as Hnd.
  pose proof (in_drained SCancelling [IRunning] d) as Hin.
  assert (forall l d1, NoDup l -> (forall k, k ∈ l -> exists r, restore_runs d !! k = Some r
      /\ rr_status r = SCancelling /\ any_item k [IRunning] d = false) ->
    pending_runs d d1 l -> restore_wf (fold_left (cancel_drained now) l d1)) as H.
  { induction l as [|k l IH]; intros d1 Hl Hall Hp; [apply Hp|]. apply NoDup_cons in Hl as [Hk Hl].
    destruct (Hall k) as (r & Hr & Hs & Ha); [by left|]. cbn [fold_left]. apply IH; [done| |].
    - intros k' Hk'. apply Hall. by right.
    - apply (pending_end_run d d1 k l _ _ r SCancelling [IRunning]); try done;
        try (by unfold restore_in, run_active; rewrite Hs). by left. }
  apply H; [done|done|]. split; [done|]. split; done.
Qed.

Lemma notify_pending d0 d k l d' :
  createRestoreNotificationEventTx k d = Some d' -> pending_runs d0 d l -> pending_runs d0 d' l.
Proof.
  intros E (Hw & Hi & Hl). split; [by eapply notify_wf|]. revert E. unfold createRestoreNotificationEventTx.
  repeat (case_match; try done); by intros [= <-].
Qed.

Lemma finalize_completed_wf now d n d' :
  restore_wf d -> FinalizeCompletedRestoreRunsContext now d = Some (n, d') -> restore_wf d'.
Proof.
  intros Hw. unfold FinalizeCompletedRestoreRunsContext.
  pose proof (drained_NoDup SRunning [IPending; IRunning] d) as Hnd.
  pose proof (in_drained SRunning [IPending; IRunning] d) as Hin.
  assert (forall l d1, NoDup l -> (forall k, k ∈ l -> exists r, restore_runs d !! k = Some r
      /\ rr_status r = SRunning /\ any_item k [IPending; IRunning] d = false) ->
    pending_runs d d1 l ->
    forall d2, fold_tx (finalize_run now) d1 (map (fun id => (id, summary id d)) l) = Some d2 -> restore_wf d2) as H.
  { induction l as [|k l IH]; intros d1 Hl Hall Hp d2; [intros [= <-]; apply Hp|].
    apply NoDup_cons in Hl as [Hk Hl]. cbn [map fold_tx]. unfold finalize_run at 1.
    destruct (summary k d) as [[c i] b]. destruct (createRestoreNotificationEventTx _ _) as [d3|] eqn:En; [|done]. intros E2.
    destruct (Hall k) as (r & Hr & Hs & Ha); [by left|].
    eapply IH; [done| |eapply notify_pending; [exact En|]|exact E2].
    - intros k' Hk'. apply Hall. by right.
    - apply (pending_end_run d d1 k l _ _ r SRunning [IPending; IRunning]); try done;
        try (by unfold restore_in, run_active; rewrite Hs); [by right; left|].
      unfold final_status, set_run. cbn. repeat case_match; done. }
  destruct (fold_tx _ _ _) eqn:E; [|done]. intros [= <- <-]. eapply H; [done|done| |exact E]. by split_and!.
Qed.

(** ** Credentials *)

(** An active run gets other credentials. *)
Lemma wf_credential d k p f :
  restore_wf d -> (forall r, p r = true -> run_active r = true) ->
  (forall r, rr_job (f r) = rr_job r /\ rr_status (f r) = rr_status r) ->
  restore_wf (set_restore_runs (fun rs => (update_row k p f rs).2) d).
Proof.
  intros Hw Hp Hf. apply wf_update_run; [done|]. intros r _ Ha%Hp. destruct (Hf r) as [E1 E2]. split.
  - split; rewrite ?E1, ?E2; try done.
    + unfold run_active in Ha. intros Ho. exfalso. by destruct (rr_status r).
    + by left.
  - rewrite E2. by left.
Qed.

Lemma update_tokens_wf k a b t e now d : restore_wf d -> restore_wf (UpdateRestoreRunOAuthTokens k a b t e now d).2.
Proof.
  intros Hw. unfold UpdateRestoreRunOAuthTokens. destruct (String.eqb e ""); [done|].
  destruct (update_row _ _ _ _) as [ok rs] eqn:E. cbn [snd]. rewrite (update_runs_eq _ _ _ _ _ _ E).
  apply wf_credential; [done| |done]. by intros r [_ Ha]%andb_true_iff.
Qed.

Lemma update_session_wf k a b now d : restore_wf d -> restore_wf (UpdateRestoreRunMegaSessionContext k a b now d).
Proof. intros Hw. by apply (wf_credential d k). Qed.

(** ** The deletion of a job *)

Lemma delete_job_wf J u d : restore_wf d -> restore_wf (DeleteRestoreJobForOwnerContext J u d).2.
Proof.
  intros [Wp Wr Wa Wi Wb Wn Wc]. unfold DeleteRestoreJobForOwnerContext.
  destruct (restore_jobs d !! J) as [j|]; [|done]. destruct (_ && _); [|done]. cbn [snd].
  set (gone := fun k => match restore_runs d !! k with Some r => run_of J r | None => false end).
  assert (forall k r, restore_runs d !! k = Some r -> gone k = false ->
    filter (fun '(_, r) => run_of J r = false) (restore_runs d) !! k = Some r) as Hrun.
  { intros k r Hr Hg. apply map_lookup_filter_Some. split; [done|]. unfold gone in Hg. by rewrite Hr in Hg. }
  unfold delete_restore_job. fold gone. split; cbn.
  - intros k p. rewrite lookup_fmap. destruct (previews d !! k) as [q|] eqn:Hq; [|done]. cbn.
    intros [= <-]. specialize (Wp k q Hq). by case_bool_decide.
  - intros k r [Hr Hj]%map_lookup_filter_Some. destruct (Wr k r Hr) as [[y Hy] Ho]. split; [|done].
    unfold run_of in Hj. apply String.eqb_neq in Hj. rewrite lookup_delete_ne by done. by exists y.
  - intros a b ra rb [Ha _]%map_lookup_filter_Some [Hb _]%map_lookup_filter_Some. by apply Wa.
  - intros k x [Hx Hg]%map_lookup_filter_Some. destruct (Wi k x Hx) as (Hk & r & Hr & H). split; [done|].
    exists r. split; [by apply Hrun|done].
  - intros k n rec [Hb Hg]%map_lookup_filter_Some. destruct (Wb k n rec Hb) as [x Hx]. exists x.
    apply map_lookup_filter_Some. rewrite Hx in Hg. done.
  - intros a b [Hg Hin]%elem_of_filter. cbn in Hg. destruct (Wn a b Hin) as (r & Hr & Hm).
    exists r. split; [by apply Hrun|done].
  - intros k n rec x [Hb _]%map_lookup_filter_Some [Hx Hg]%map_lookup_filter_Some
      (r & [Hr _]%map_lookup_filter_Some & Hm).
    destruct (Wc k n rec x Hb Hx) as (pid & p & Hin & Hp & E); [by exists r|].
    exists pid, p. split; [by apply elem_of_filter|done].
Qed.

(** ** The statements on items *)

Lemma claim_item_wf w now d : restore_wf d -> restore_wf (ClaimNextRestoreItemForWorkerContext w now d).2.
Proof.
  intros Hw. unfold ClaimNextRestoreItemForWorkerContext.
  destruct (merge_sort _ _) as [|[k x] l] eqn:E; [done|]. cbn [snd].
  assert ((k, x) ∈ (k, x) :: l) as Hin by by left.
  rewrite <- E, merge_sort_Permutation, list_elem_of_In, filter_In in Hin. destruct Hin as [Hin Hs].
  apply list_elem_of_In, elem_of_map_to_list in Hin. unfold claimable in Hs.
  apply andb_true_iff in Hs as [[[Hp%status_is_one _]%andb_true_iff Hr]%andb_true_iff _].
  change (restore_wf (set_restore_items (fun _ => <[k := set_state (claim_state w now) x]> (restore_items d)) id d)).
  apply wf_set_items; [done|]. intros i. rewrite lookup_insert. case_decide as Hi.
  - subst i. rewrite Hin. split; [done| |].
    + intros (H1 & H2 & H3 & _). specialize (H3 Hp). cbn. split_and!; cbn; try lia; done.
    + intros _. right. destruct (restore_runs d !! ri_run x) as [r|] eqn:Er; [|done].
      destruct (restore_jobs d !! rr_job r); [|done]. apply andb_true_iff in Hr as [Hr%restore_in_eq _].
      exists r. split; [done|]. by rewrite Hr.
  - destruct (restore_items d !! i); [apply item_change_refl|done].
Qed.

Lemma fence_one k s e x : claim_fence k [s] e x = true -> ri_run x = k /\ is_status (ri_state x) = s.
Proof.
  unfold claim_fence, item_of. rewrite !andb_true_iff, String.eqb_eq, status_is_one. tauto.
Qed.

Lemma set_state_wf k p f d :
  restore_wf d ->
  (forall x, restore_items d !! k = Some x -> p x = true -> item_change (restore_runs d) x (set_state f x)) ->
  restore_wf (update_item k p (set_state f) d).2.
Proof. apply wf_update_item. Qed.

Lemma complete_item_wf k r size v e now d :
  restore_wf d -> restore_wf (CompleteRestoreItemContext k r size v e now d).2.
Proof.
  intros Hw. unfold CompleteRestoreItemContext.
  destruct (update_item _ _ _ _) as [ok d'] eqn:E.
  assert (restore_wf d') as Hw'.
  { replace d' with (update_item k (claim_fence r [IRunning] e)
      (set_state (end_state ICompleted (Some v) None now)) d).2 by by rewrite E.
    apply set_state_wf; [done|]. intros x Hx _. over. }
  destruct ok; [|done]. cbn [snd]. apply wf_update_run; [done|]. intros x Hx Hs. split; [|by left].
  split; try done; cbn; [|by left]. intros Ho. by destruct (wf_runs d' Hw' _ x Hx) as [_ H]; apply H.
Qed.

Lemma complete_directory_wf k r e now d d' :
  restore_wf d -> CompleteRestoreDirectoryContext k r e now d = Some d' -> restore_wf d'.
Proof.
  intros Hw. unfold CompleteRestoreDirectoryContext. destruct (update_item _ _ _ _) as [[] d1] eqn:E; [|done].
  intros [= <-]. apply (f_equal snd) in E. cbn in E. rewrite <- E. apply set_state_wf; [done|].
  intros x Hx _. over.
Qed.

Lemma warn_item_wf k r c e now d : restore_wf d -> restore_wf (WarnRestoreItemContext k r c e now d).
Proof. intros Hw. apply set_state_wf; [done|]. intros x Hx _. over. Qed.

Lemma fail_item_wf k r c e now d : restore_wf d -> restore_wf (FailRestoreItemContext k r c e now d).
Proof. intros Hw. apply set_state_wf; [done|]. intros x Hx _. over. Qed.

Lemma skip_item_wf k r c e now d : restore_wf d -> restore_wf (SkipRestoreItemContext k r c e now d).
Proof. intros Hw. apply set_state_wf; [done|]. intros x Hx _. over. Qed.

Lemma retry_item_wf k r c e now d : restore_wf d -> restore_wf (RetryRestoreItemContext k r c e now d).2.
Proof.
  intros Hw. apply set_state_wf; [done|]. intros x Hx [_ Hs]%fence_one. apply item_change_idle.
  - intros (H1 & H2 & _ & H4). destruct (H4 Hs) as [H5 H6]. cbn.
    split_and!; cbn; try lia; destruct (4 <=? is_attempts (ri_state x) + 1) eqn:E4; try done; lia.
  - cbn. by destruct (4 <=? _).
Qed.

Lemma heartbeat_item_wf k r w e now d : restore_wf d -> restore_wf (HeartbeatRestoreItemContext k r w e now d).
Proof.
  intros Hw. apply set_state_wf; [done|]. intros x Hx Hp. split; [done|done|]. intros Hs. by left.
Qed.

Lemma set_target_change rs p now x : item_change rs x (set_target p now x).
Proof. split; [done|done|]. intros Hs. by left. Qed.

Lemma set_item_target_wf k r p e now d :
  restore_wf d -> restore_wf (SetRestoreItemTargetPathContext k r p e now d).
Proof. intros Hw. apply wf_update_item; [done|]. intros x Hx _. apply set_target_change. Qed.

Lemma set_directory_target_wf k r s p e now d d' :
  restore_wf d -> SetRestoreDirectoryTargetPathContext k r s p e now d = Some d' -> restore_wf d'.
Proof.
  intros Hw. unfold SetRestoreDirectoryTargetPathContext.
  destruct (update_item _ _ _ _) as [[] d1] eqn:E; [|done]. intros [= <-].
  apply (f_equal snd) in E. cbn in E. apply wf_map_items.
  - rewrite <- E. apply wf_update_item; [done|]. intros x Hx _. apply set_target_change.
  - intros i x Hx. destruct (_ && _); [apply set_target_change|apply item_change_refl].
Qed.

Lemma reserve_wf `{GoUnicode} r k p d b d' :
  restore_wf d -> ReserveRestoreTargetPathContext r k p d = Some (b, d') -> restore_wf d'.
Proof.
  intros Hw. unfold ReserveRestoreTargetPathContext. repeat (case_match; try done); intros [= <- <-]; [done|].
  by apply wf_set_reservations.
Qed.

Lemma move_reservation_wf `{GoUnicode} r k p d :
  restore_wf d -> restore_wf (MoveRestoreTargetReservationContext r k p d).2.
Proof.
  intros Hw. unfold MoveRestoreTargetReservationContext. case_match; [done|]. by apply wf_set_reservations.
Qed.

Lemma skip_blocked_wf now d : restore_wf d -> restore_wf (SkipBlockedRestoreItemsContext now d).2.
Proof.
  intros Hw. cbn. change (restore_wf (set_restore_items (fmap (fun x => if blocked (restore_items d) x
    then set_state (block_state now) x else x)) id d)).
  apply wf_map_items; [done|]. intros i x Hx. destruct (blocked _ _); [over|apply item_change_refl].
Qed.

Lemma recover_items_wf now d : restore_wf d -> restore_wf (RecoverStaleRestoreItemsContext now d).2.
Proof.
  intros Hw. cbn. apply wf_map_items; [done|]. intros i x Hx. destruct (stale_item now d x) eqn:Es; [|apply item_change_refl].
  unfold stale_item in Es. apply andb_true_iff in Es as [[Hs%status_is_one _]%andb_true_iff _].
  apply item_change_idle.
  - intros (H1 & H2 & _ & H4). destruct (H4 Hs) as [H5 H6]. destruct (run_cancelling d (ri_run x)); cbn;
      split_and!; cbn; try lia; done.
  - by destruct (run_cancelling d (ri_run x)).
Qed.

(** ** Planning *)

Lemma insert_plan_spec k root now l : forall newID m m',
  insert_plan k root now newID l m = Some m' ->
  m ⊆ m' /\ forall id x, m' !! id = Some x -> m !! id = Some x \/ m !! id = None /\ exists i, x = plan_item k root now i.
Proof.
  induction l as [|[j i] l IH]; intros newID m m'; cbn [insert_plan].
  { intros [= <-]. split; [done|]. intros id x Hx. by left. }
  destruct (_ || _) eqn:E; [done|]. apply orb_false_iff in E as [Hf _].
  rewrite bool_decide_eq_false, <- eq_None_not_Some in Hf. intros H. apply IH in H as [Hsub Hin]. split.
  - etrans; [by apply (insert_subseteq m (newID 0%nat) (plan_item k root now i))|done].
  - intros id x Hx. destruct (Hin id x Hx) as [H1|[H1 H2]].
    + rewrite lookup_insert in H1. case_decide; [|by left]. right. simplify_eq. split; [done|by eexists].
    + right. rewrite lookup_insert in H1. case_decide; [done|]. done.
Qed.

Lemma link_parent_same k m x :
  ri_run (link_parent k m x) = ri_run x /\ ri_state (link_parent k m x) = ri_state x
  /\ ri_is_dir (link_parent k m x) = ri_is_dir x /\ ri_path (link_parent k m x) = ri_path x.
Proof. unfold link_parent. by repeat case_match. Qed.

Lemma plan_item_counters k root now i : counters_ok (ri_state (plan_item k root now i)).
Proof. cbn. unfold new_item_state. case_match; split_and!; cbn; done || lia. Qed.

Lemma planned_item k root now i :
  status_is [IRunning] (plan_item k root now i) = false /\ ri_run (plan_item k root now i) = k.
Proof. split; [|done]. unfold status_is, plan_item, new_item_state. cbn. by case_match. Qed.

(** A frozen recipe is of a pack that gets pinned. *)
Lemma frozen_pinned b J sid x id n rec :
  ((id, n), rec) ∈ frozen_blocks b J sid x ->
  id = x.1 /\ exists packID p, packID ∈ pinned_packs b J sid x /\ packs b !! packID = Some p
    /\ pk_path p = PackPath rec /\ pk_sha256 p = PackSHA256 rec /\ pk_state p <> PackDeleted.
Proof.
  unfold frozen_blocks. rewrite list_elem_of_omap. intros ([m blockID] & Hin & Hf).
  destruct (freeze_link b J blockID) as [r|] eqn:Er; [|done]. injection Hf as <- <- <-. split; [done|].
  unfold freeze_link in Er. destruct (blocks b !! blockID) as [bl|] eqn:Eb; [|done].
  destruct (packs b !! bl_pack bl) as [p|] eqn:Ep; [|done].
  destruct (_ && _) eqn:Ec; [|done]. injection Er as <-. apply andb_true_iff in Ec as [HJ Hr].
  exists (bl_pack bl), p. split_and!; try done.
  - unfold pinned_packs. rewrite list_elem_of_omap. exists (m, blockID). split; [done|].
    unfold block_pack. by rewrite Eb, HJ.
  - unfold ready_pack in Hr. rewrite Ep in Hr. intros E. rewrite E in Hr. by rewrite andb_comm in Hr.
Qed.

Section Plan.
Context (d : restore_db) (Hw : restore_wf d) (job snapshot runID root : string) (now : Z).
Context (r : restore_run_row) (Hr : restore_runs d !! runID = Some r).
Context (Hs : rr_status r = SPlanning) (m : gmap string restore_item_row).
Context (Hsub : restore_items d ⊆ m).
Context (Hnew : forall id x, m !! id = Some x -> restore_items d !! id = Some x
  \/ restore_items d !! id = None /\ exists i, x = plan_item runID root now i).

Lemma unplanned_empty id x : restore_items d !! id = Some x -> ri_run x <> runID.
Proof.
  intros Hx E. destruct (wf_items d Hw id x Hx) as (_ & r0 & Hr0 & Hu & _). rewrite E in Hr0.
  simplify_eq. by rewrite Hs in Hu.
Qed.

Lemma run_moving_now t : run_moving (<[runID := set_run SRunning t (rr_error r) (no_worker (rr_lease r))
  (rr_credential r) now r]> (restore_runs d)) runID.
Proof. eexists. split; [apply lookup_insert_eq|done]. Qed.

Lemma plan_wf t :
  let b := rd_backup d in
  let m' := link_parents runID m in
  restore_wf
    (set_restore_runs (fun _ => <[runID := set_run SRunning t (rr_error r) (no_worker (rr_lease r))
                                   (rr_credential r) now r]> (restore_runs d))
      (set_restore_items (fun _ => m')
         (fun bs => list_to_map (concat (map (frozen_blocks b job snapshot) (planned_files runID m'))) ∪ bs)
         (set_backup (set_pins (fun s =>
            list_to_set (map (pair runID) (concat (map (pinned_packs b job snapshot) (planned_files runID m')))) ∪ s)) d))).
Proof using Hw Hr Hs Hsub Hnew.
  destruct Hw as [Wp Wr Wa Wi Wb Wn Wc]. cbn zeta.
  set (files := planned_files runID (link_parents runID m)).
  assert (forall id x, link_parents runID m !! id = Some x -> exists x0, m !! id = Some x0 /\ ri_run x = ri_run x0
     /\ ri_state x = ri_state x0) as Hlink.
  { intros id x. unfold link_parents. rewrite lookup_fmap. destruct (m !! id) as [x0|]; [|done]. cbn.
    intros [= <-]. destruct (link_parent_same runID m x0) as (E1 & E2 & _). by exists x0. }
  assert (forall key rec, list_to_map (M := gmap (string * nat) BlockRecipe)
      (concat (map (frozen_blocks (rd_backup d) job snapshot) files)) !! key = Some rec ->
    exists x, (key.1, x) ∈ files /\ (key, rec) ∈ frozen_blocks (rd_backup d) job snapshot (key.1, x)) as Hfr.
  { intros [id n] rec Hk. apply elem_of_list_to_map_2, list_elem_of_In, in_concat in Hk as (l & Hl & Hk).
    apply in_map_iff in Hl as ([id' x] & <- & Hx). apply list_elem_of_In in Hk.
    destruct (frozen_pinned _ _ _ _ _ _ _ Hk) as [E _]. cbn in E |- *. subst id'. exists x.
    split; [by apply list_elem_of_In|done]. }
  assert (forall id x, (id, x) ∈ files -> link_parents runID m !! id = Some x /\ ri_run x = runID) as Hfiles.
  { intros id x [Hin Hp]%list_elem_of_In%filter_In. split; [by apply elem_of_map_to_list, list_elem_of_In|].
    unfold planned_file in Hp. apply andb_true_iff in Hp as [[Hp _]%andb_true_iff _]. by apply String.eqb_eq. }
  assert (forall a ra, restore_runs d !! a = Some ra -> run_active ra = true -> rr_job ra = rr_job r -> a = runID) as Hact.
  { intros a ra Ha Aa Ej. apply (Wa a runID ra r); try done. unfold run_active. by rewrite Hs. }
  split; cbn; try done.
  - intros id x. rewrite lookup_insert. case_decide; [intros [= <-]; subst|by apply Wr]. split; [|done].
    exact (proj1 (Wr _ r Hr)).
  - intros a b ra rb. rewrite !lookup_insert. repeat case_decide; subst; try done.
    + intros [= <-] Hb _ Ab Ej. symmetry. by eapply Hact.
    + intros Ha [= <-] Aa _ Ej. by eapply Hact.
    + by apply Wa.
  - intros id x Hx. destruct (Hlink id x Hx) as (x0 & Hx0 & E1 & E2).
    unfold item_ok, status_is. rewrite E1, E2. destruct (Hnew id x0 Hx0) as [Ho|(_ & i & ->)].
    + destruct (Wi id x0 Ho) as (Hk & r0 & Hr0 & H). split; [done|]. exists r0.
      rewrite lookup_insert_ne; [done|]. by apply not_eq_sym, (unplanned_empty id).
    + split; [apply plan_item_counters|]. eexists. split; [apply lookup_insert_eq|]. done.
  - intros id n rec [Hk|[_ Hk]]%lookup_union_Some_raw.
    + destruct (Hfr _ _ Hk) as (x & Hx & _). apply Hfiles in Hx as [Hx _]. by eexists.
    + destruct (Wb id n rec Hk) as [x Hx]. unfold link_parents. rewrite lookup_fmap.
      rewrite (lookup_weaken _ _ _ _ Hx Hsub). by eexists.
  - intros a b [(pid & [= -> ->] & _)%elem_of_list_to_set%list_elem_of_fmap|Hin]%elem_of_union.
    + apply run_moving_now.
    + destruct (Wn a b Hin) as (r0 & Hr0 & Hm). exists r0. rewrite lookup_insert_ne; [done|].
      intros <-. simplify_eq. by rewrite Hs in Hm.
  - intros id n rec x [Hk|[_ Hk]]%lookup_union_Some_raw Hx Hm.
    + destruct (Hfr _ _ Hk) as (x' & Hx' & Hfz). pose proof (Hfiles _ _ Hx') as [H1 H2]. cbn in H1. simplify_eq.
      destruct (frozen_pinned _ _ _ _ _ _ _ Hfz) as (_ & pid & p & Hp & Hq & E). exists pid, p. split; [|done].
      apply elem_of_union_l, elem_of_list_to_set, list_elem_of_fmap. exists pid. split; [done|].
      apply list_elem_of_In, in_concat. eexists. split; [|by apply list_elem_of_In].
      apply in_map_iff. eexists. split; [done|]. by apply list_elem_of_In.
    + destruct (Wb id n rec Hk) as [x0 Hx0]. destruct (Hlink id x Hx) as (x1 & Hx1 & E1 & _).
      pose proof (lookup_weaken _ _ _ _ Hx0 Hsub) as Hx2. assert (x1 = x0) as -> by congruence.
      rewrite E1 in Hm |- *.
      pose proof (unplanned_empty id x0 Hx0) as Hne. destruct Hm as (r0 & Hr0 & Hm).
      rewrite lookup_insert_ne in Hr0 by done.
      destruct (Wc id n rec x0 Hk Hx0) as (pid & p & Hin & Hp); [by exists r0|].
      exists pid, p. split; [by apply elem_of_union_r|done].
Qed.
End Plan.

Lemma plan_run_wf J j k g newID now d d' :
  restore_wf d -> PlanRestoreRunContext J j k g newID now d = Some d' -> restore_wf d'.
Proof.
  intros Hw. unfold PlanRestoreRunContext. destruct (sp_job (rj_spec j)) as [job|], (sp_snapshot (rj_spec j)) as [snapshot|]; try done.
  destruct (_ || _); [done|]. destruct (insert_plan _ _ _ _ _ _) as [m|] eqn:Em; [|done].
  apply insert_plan_spec in Em as [Hsub Hnew].
  match goal with |- context [update_row k ?p ?f (restore_runs d)] =>
    destruct (update_row_spec k p f (restore_runs d)) as [(r & Hr & Hp & ->)|[-> _]] end; [|done].
  cbn [negb]. intros [= <-]. unfold planned_run in Hp.
  apply andb_true_iff in Hp as [_ Hs%restore_in_eq].
  by apply (plan_wf d Hw job snapshot k (sp_root (rj_spec j)) now r Hr Hs m Hsub Hnew).
Qed.

(** ** The backup side *)

(** A statement of the backup side: those that write packs, and any other. *)
Inductive backup_move : backup_db -> backup_db -> Prop :=
| move_else b b' : packs b' = packs b -> pins b' = pins b -> backup_move b b'
| move_record J path hash size l packID newID now b ids b' :
    RecordBackupPackAndBlocksContext J path hash size l packID newID now b = Some (ids, b') -> backup_move b b'
| move_checked J ids now b : backup_move b (MarkBackupPacksCheckedContext J ids now b)
| move_damaged J packID b : backup_move b (MarkBackupPackDamagedContext J packID b)
| move_deleted J packID b b' : MarkBackupPackDeletedContext J packID b = Some b' -> backup_move b b'
| move_replaced J old path hash size l ids newID now b b' :
    ReplaceBackupPackLocatorsContext J old path hash size l ids newID now b = Some b' -> backup_move b b'
| move_cleanup J b : backup_move b (DeleteBackupJobAfterRepositoryCleanupContext J b).2.

(** Pins stay, and a pinned pack that was not deleted is not, and is the same. *)
Definition keeps_pinned (b b' : backup_db) : Prop :=
  pins b' = pins b
  /\ forall runID packID p, (runID, packID) ∈ pins b -> packs b !! packID = Some p -> pk_state p <> PackDeleted ->
       exists p', packs b' !! packID = Some p' /\ pk_path p' = pk_path p /\ pk_sha256 p' = pk_sha256 p
         /\ pk_state p' <> PackDeleted.

Lemma keeps_pinned_map b b' :
  pins b' = pins b ->
  (forall id p, packs b !! id = Some p -> exists p', packs b' !! id = Some p' /\ pk_path p' = pk_path p
     /\ pk_sha256 p' = pk_sha256 p /\ (pk_state p' = PackDeleted -> pk_state p = PackDeleted)) ->
  keeps_pinned b b'.
Proof.
  intros Hp H. split; [done|]. intros r id p _ Hpk Hs. destruct (H id p Hpk) as (p' & H1 & H2 & H3 & H4).
  exists p'. split_and!; auto.
Qed.

Lemma insert_pack_some id p m m' : insert_pack id p m = Some m' -> m' = <[id := p]> m /\ m !! id = None.
Proof.
  unfold insert_pack. destruct (_ || _) eqn:E; [done|]. intros [= <-]. split; [done|].
  rewrite !orb_false_iff, bool_decide_eq_false, <- eq_None_not_Some in E. tauto.
Qed.

Lemma pinned_held b runID packID : (runID, packID) ∈ pins b -> pack_pinned b packID = true.
Proof.
  intros Hin. unfold pack_pinned. apply existsb_exists. exists (runID, packID).
  split; [|apply String.eqb_refl]. by apply list_elem_of_In, elem_of_elements.
Qed.

Lemma backup_move_keeps b b' : backup_move b b' -> keeps_pinned b b'.
Proof.
  destruct 1 as [b b' E1 E2|J path hash size l packID newID now b ids b' E|J ids now b|J packID b
    |J packID b b' E|J old path hash size l ids newID now b b' E|J b].
  - apply keeps_pinned_map; [done|]. intros id p Hp. rewrite E1. by exists p.
  - unfold RecordBackupPackAndBlocksContext in E. destruct l; [done|].
    destruct (insert_pack _ _ _) as [ps|] eqn:Ei; [|done]. destruct (insert_blocks _ _ _ _ _ _) as [[bs ids']|]; [|done].
    injection E as _ <-. apply insert_pack_some in Ei as [-> Hn]. apply keeps_pinned_map; [done|].
    intros id p Hp. cbn. exists p. rewrite lookup_insert_ne; [done|]. intros ->. congruence.
  - apply keeps_pinned_map; [done|]. intros id p Hp. cbn. rewrite map_lookup_imap, Hp. cbn.
    eexists. split; [done|]. by destruct (_ && _).
  - unfold MarkBackupPackDamagedContext. destruct (jobs b !! J); apply keeps_pinned_map; try done.
    + intros id p Hp. cbn. match goal with |- context [update_row packID ?q ?f (packs b)] =>
        destruct (update_row_spec packID q f (packs b)) as [(r & Hr & _ & ->)|[-> _]] end; cbn; [|by exists p].
      rewrite lookup_insert. case_decide; [|by exists p]. subst. simplify_eq. eexists. split; [done|]. done.
    + intros id p Hp. by exists p.
  - unfold MarkBackupPackDeletedContext in E. cbn in E.
    match type of E with context [update_row packID ?q ?f (packs b)] =>
      destruct (update_row_spec packID q f (packs b)) as [(r & Hr & Hq & E')|[E' _]]; rewrite E' in E end; [|done].
    injection E as <-. split; [done|]. intros runID id p Hin Hp Hs. cbn. exists p.
    rewrite lookup_insert_ne; [done|]. intros ->. apply andb_true_iff in Hq as [_ Hq%negb_true_iff].
    unfold held in Hq. apply orb_false_iff in Hq as [Hq _]. by rewrite (pinned_held _ runID) in Hq.
  - unfold ReplaceBackupPackLocatorsContext in E. destruct (_ || _); [done|].
    destruct (insert_pack _ _ _) as [ps|] eqn:Ei; [|done]. destruct (move_blocks _ _ _ _ _) as [bs|]; [|done].
    injection E as <-. apply insert_pack_some in Ei as [-> Hn]. apply keeps_pinned_map; [done|].
    intros id p Hp. cbn. match goal with |- context [update_row old ?q ?f ?m] =>
      destruct (update_row_spec old q f m) as [(r & Hr & _ & ->)|[-> _]] end; cbn.
    + rewrite lookup_insert in Hr. rewrite !lookup_insert. repeat case_decide; subst; simplify_eq;
        try (by eexists); try congruence.
    + rewrite lookup_insert_ne; [by exists p|]. intros ->. congruence.
  - unfold DeleteBackupJobAfterRepositoryCleanupContext.
    destruct (jobs b !! J) as [j|]; [|by apply keeps_pinned_map; [done|]; intros id p Hp; exists p].
    destruct (_ || _) eqn:Eg; [by apply keeps_pinned_map; [done|]; intros id p Hp; exists p|].
    destruct (any_row _ (blocks b)); [by apply keeps_pinned_map; [done|]; intros id p Hp; exists p|].
    apply orb_false_iff in Eg as [_ Eg]. rewrite any_row_false in Eg. split; [done|].
    intros runID id p Hin Hp Hs. cbn. exists p. split; [|done]. apply map_lookup_filter_Some. split; [done|].
    specialize (Eg id p Hp). apply andb_false_iff in Eg as [?|Eg]; [done|].
    by rewrite negb_false_iff, bool_decide_eq_true in Eg.
Qed.

Lemma wf_backup d b' : restore_wf d -> keeps_pinned (rd_backup d) b' -> restore_wf (set_backup (fun _ => b') d).
Proof.
  intros [Wp Wr Wa Wi Wb Wn Wc] [Hp Hk]. split; cbn; try done.
  - by rewrite Hp.
  - intros id n rec x Hb Hx Hm. destruct (Wc id n rec x Hb Hx Hm) as (pid & p & Hin & Hpk & E1 & E2 & E3).
    destruct (Hk _ pid p Hin Hpk E3) as (p' & H1 & H2 & H3 & H4). exists pid, p'. rewrite Hp.
    split_and!; congruence || done.
Qed.

(** ** The suspension of an account *)

Section Suspend.
Context (userID : string) (now : Z).

(** What the suspension leaves of a run. *)
Lemma suspended_run d k r' : restore_runs (suspend_runs userID now d) !! k = Some r' ->
  exists r, restore_runs d !! k = Some r /\
    (r' = r /\ owned_run userID d r && run_active r = false
     \/ r' = end_cancelled now r /\ owned_run userID d r = true /\ run_active r = true).
Proof.
  cbn [suspend_runs restore_runs set_restore_runs]. rewrite update_where_lookup.
  destruct (restore_runs d !! k) as [r|]; [|done]. cbn. intros [= <-]. exists r. split; [done|].
  destruct (owned_run userID d r && run_active r) eqn:E; [right|by left]. by apply andb_true_iff in E.
Qed.

Lemma suspended_owner d k r : restore_runs d !! k = Some r ->
  run_owned userID (suspend_runs userID now d) k = owned_run userID d r.
Proof.
  intros Hr. unfold run_owned. cbn [suspend_runs restore_runs set_restore_runs]. rewrite update_where_lookup, Hr. cbn.
  unfold owned_run. cbn [restore_jobs suspend_runs set_restore_runs]. by destruct (_ && _).
Qed.

(** The runs, items and pins change together: none of the statements alone keeps the
    invariant. *)
Context (d : restore_db).
Abbreviation d1 := (suspend_runs userID now d).
Abbreviation d2 := (suspend_items userID now d1).

Lemma suspended_moving k r' : restore_runs d1 !! k = Some r' -> restore_in moving (rr_status r') = true ->
  restore_runs d !! k = Some r'.
Proof. by intros (r & Hr & [[-> _]|(-> & _)])%suspended_run Hm. Qed.

(** What it leaves of an item: an item of a suspended run is not being worked on. *)
Lemma suspended_item k x : restore_items d2 !! k = Some x ->
  exists x0, restore_items d !! k = Some x0 /\ ri_run x = ri_run x0
    /\ (counters_ok (ri_state x0) -> counters_ok (ri_state x))
    /\ (status_is [IRunning] x = true -> status_is [IRunning] x0 = true /\ run_owned userID d1 (ri_run x0) = false).
Proof.
  cbn [suspend_items restore_items set_restore_items]. rewrite lookup_fmap.
  change (restore_items d1) with (restore_items d). destruct (restore_items d !! k) as [x0|]; [|done]. cbn.
  intros [= <-]. exists x0. split; [done|].
  destruct (run_owned userID d1 (ri_run x0)) eqn:Eo; cbn [andb]; [|done].
  destruct (status_is [IPending; IRunning] x0) eqn:Es.
  - split; [done|]. split; [by apply counters_over|done].
  - do 2 (split; [done|]). intros Hs%status_is_one. unfold status_is, item_in in Es. by rewrite Hs in Es.
Qed.

(** The pins it deletes are of runs that are over, and it deletes those of every run
    it ends. *)
Lemma unpinned_over k : cancelled_unpinned userID d2 k = true -> ~ run_moving (restore_runs d1) k.
Proof.
  intros Hc (r & Hr & Hm). unfold cancelled_unpinned in Hc. change (restore_runs d2) with (restore_runs d1) in Hc.
  rewrite Hr in Hc. apply andb_true_iff in Hc as [[_ Hs%restore_in_eq]%andb_true_iff _]. by rewrite Hs in Hm.
Qed.

Lemma ended_unpinned k r : restore_runs d !! k = Some r -> owned_run userID d r = true -> run_active r = true ->
  cancelled_unpinned userID d2 k = true.
Proof.
  intros Hr Ho Ha. unfold cancelled_unpinned. change (run_owned userID d2 k) with (run_owned userID d1 k).
  change (restore_runs d2) with (restore_runs d1). rewrite (suspended_owner d k r Hr), Ho.
  assert (restore_runs d1 !! k = Some (end_cancelled now r)) as ->.
  { cbn [suspend_runs restore_runs set_restore_runs]. rewrite update_where_lookup, Hr. cbn. by rewrite Ho, Ha. }
  cbn [end_cancelled rr_status set_run andb]. apply andb_true_iff. split; [done|]. apply negb_true_iff.
  apply any_row_false. intros i x Hx. destruct (suspended_item i x Hx) as (x0 & _ & Er & _ & Hs). unfold item_of.
  destruct (String.eqb_spec (ri_run x) k) as [<-|]; [|done]. cbn. apply not_true_is_false. intros [_ Hno]%Hs.
  rewrite <- Er, (suspended_owner d _ r Hr) in Hno. congruence.
Qed.

Lemma still_moving k : run_moving (restore_runs d) k -> cancelled_unpinned userID d2 k = false ->
  run_moving (restore_runs d1) k.
Proof.
  intros (r & Hr & Hm) Hc. exists r. split; [|done]. cbn [suspend_runs restore_runs set_restore_runs].
  rewrite update_where_lookup, Hr. cbn. destruct (owned_run userID d r && run_active r) eqn:E; [|done].
  apply andb_true_iff in E as [Eo Ea]. by rewrite (ended_unpinned k r Hr Eo Ea) in Hc.
Qed.

Lemma suspended_item_ok k x : restore_wf d -> restore_items d2 !! k = Some x -> item_ok (restore_runs d1) x.
Proof.
  intros Hw Hx. destruct (suspended_item k x Hx) as (x0 & Hx0 & Er & Hk & Hs).
  destruct (wf_items d Hw k x0 Hx0) as (Hc & r & Hr & Hu & Hm). split; [auto|]. rewrite Er.
  destruct (restore_runs d1 !! ri_run x0) as [r'|] eqn:Hr'.
  - exists r'. split; [done|]. destruct (suspended_run d _ r' Hr') as (r1 & Hr1 & Cr). simplify_eq.
    destruct Cr as [[-> _]|(-> & Ho & _)]; (split; [done|]); [intros [? _]%Hs; auto|].
    intros [_ Hno]%Hs. rewrite (suspended_owner d _ r Hr) in Hno. congruence.
  - cbn [suspend_runs restore_runs set_restore_runs] in Hr'. by rewrite update_where_lookup, Hr in Hr'.
Qed.

Lemma suspend_items_wf : restore_wf d -> restore_wf (suspend_pins userID d2).
Proof.
  intros Hw. destruct Hw as [Wp Wr Wa Wi Wb Wn Wc] eqn:Ew. clear Ew. split;
    cbn [suspend_pins set_backup previews restore_jobs restore_runs restore_items restore_blocks rd_backup set_pins pins packs].
  - exact Wp.
  - intros k r' (r & Hr & [[-> _]|(-> & _)])%suspended_run; [by apply (Wr k)|]. split; [|done]. by apply (Wr k r).
  - intros a b ra rb (ra0 & Ha & Ca)%suspended_run (rb0 & Hb & Cb)%suspended_run Aa Ab Ej.
    destruct Ca as [[-> _]|(-> & _)]; [|done]. destruct Cb as [[-> _]|(-> & _)]; [|done]. by apply (Wa a b ra0 rb0).
  - intros k x. by apply suspended_item_ok.
  - intros k n rec Hb. destruct (Wb k n rec Hb) as [x Hx]. cbn [suspend_items restore_items set_restore_items].
    rewrite lookup_fmap. change (restore_items d1) with (restore_items d). rewrite Hx. by eexists.
  - intros a b [Hc Hin]%elem_of_filter. cbn in Hc. apply still_moving; [|done]. exact (Wn a b Hin).
  - intros k n rec x Hb Hx Hm. destruct (suspended_item k x Hx) as (x0 & Hx0 & Er & _). rewrite Er in Hm |- *.
    assert (run_moving (restore_runs d) (ri_run x0)) as Hm0
      by (destruct Hm as (r & Hr & Hr2); exists r; split; [by apply suspended_moving|done]).
    destruct (Wc k n rec x0 Hb Hx0 Hm0) as (pid & p & Hin & Hp). exists pid, p. split; [|done].
    apply elem_of_filter. split; [|done]. cbn. apply not_true_is_false. intros Hc. by apply (unpinned_over _ Hc).
Qed.
End Suspend.

Lemma suspend_wf userID now d : restore_wf d -> restore_wf (SuspendUser userID now d).
Proof.
  intros Hw. unfold SuspendUser.
  match goal with |- restore_wf (set_backup _ ?g) => change (restore_wf (set_backup (fun _ => suspend_backups userID now
    (rd_backup g)) g)) end.
  apply wf_backup; [|by apply backup_move_keeps, move_else]. apply suspend_items_wf, wf_update_previews; [done|].
  by intros x _ _.
Qed.

(** ** One statement of the system *)

Section Steps.
Context `{GoUnicode}.

(** The deletion of a restore job is a step of its own, [delete_step]. *)
Inductive restore_step : restore_db -> restore_db -> Prop :=
| do_backup d b' : backup_move (rd_backup d) b' -> restore_step d (set_backup (fun _ => b') d)
| do_create_preview user spec retry threads fp cred id now d d' :
    CreateRestorePreviewContext user spec retry threads fp cred id now d = Some d' -> restore_step d d'
| do_claim_preview w now d : restore_step d (ClaimNextRestorePreviewForWorkerContext w now d).2
| do_complete_preview id g w st now d :
    restore_step d (CompleteRestorePreviewWithStatsFencedContext id g w st now d).2
| do_fail_preview id g w e now d : restore_step d (FailRestorePreviewFencedContext id g w e now d)
| do_renew_preview id g w now d : restore_step d (RenewRestorePreviewLeaseContext id g w now d).2
| do_cancel_preview id u now d : restore_step d (CancelRestorePreviewForOwnerContext id u now d).2
| do_expire now d : restore_step d (ExpireRestorePreviewsContext now d)
| do_consume id user newID wall now d j r d' :
    ConsumeRestorePreviewContext id user newID wall now d = Ok (j, r, d') -> restore_step d d'
| do_claim_run w now d : restore_step d (ClaimNextQueuedRestoreRunForWorkerContext w now d).2
| do_fail_planning J k g e now d : restore_step d (FailRestoreRunPlanningContext J k g e now d).2
| do_recover_planning now d : restore_step d (RecoverStaleRestorePlanningContext now d)
| do_plan J j k g newID now d d' : PlanRestoreRunContext J j k g newID now d = Some d' -> restore_step d d'
| do_cancel k u now d : restore_step d (CancelRestoreRunForOwnerContext k u now d).2
| do_finalize now d n d' : FinalizeCompletedRestoreRunsContext now d = Some (n, d') -> restore_step d d'
| do_finalize_cancelling now d : restore_step d (FinalizeCancellingRestoreRunsContext now d).2
| do_claim_item w now d : restore_step d (ClaimNextRestoreItemForWorkerContext w now d).2
| do_complete_item k r size v e now d : restore_step d (CompleteRestoreItemContext k r size v e now d).2
| do_complete_directory k r e now d d' :
    CompleteRestoreDirectoryContext k r e now d = Some d' -> restore_step d d'
| do_warn k r c e now d : restore_step d (WarnRestoreItemContext k r c e now d)
| do_fail k r c e now d : restore_step d (FailRestoreItemContext k r c e now d)
| do_skip k r c e now d : restore_step d (SkipRestoreItemContext k r c e now d)
| do_retry k r c e now d : restore_step d (RetryRestoreItemContext k r c e now d).2
| do_heartbeat k r w e now d : restore_step d (HeartbeatRestoreItemContext k r w e now d)
| do_set_target k r p e now d : restore_step d (SetRestoreItemTargetPathContext k r p e now d)
| do_set_directory_target k r s p e now d d' :
    SetRestoreDirectoryTargetPathContext k r s p e now d = Some d' -> restore_step d d'
| do_reserve r k p d b d' : ReserveRestoreTargetPathContext r k p d = Some (b, d') -> restore_step d d'
| do_move r k p d : restore_step d (MoveRestoreTargetReservationContext r k p d).2
| do_skip_blocked now d : restore_step d (SkipBlockedRestoreItemsContext now d).2
| do_recover_items now d : restore_step d (RecoverStaleRestoreItemsContext now d).2
| do_tokens k a b t e now d : restore_step d (UpdateRestoreRunOAuthTokens k a b t e now d).2
| do_session k a b now d : restore_step d (UpdateRestoreRunMegaSessionContext k a b now d)
| do_suspend user now d : restore_step d (SuspendUser user now d).

Inductive delete_step : restore_db -> restore_db -> Prop :=
| do_delete J u d : delete_step d (DeleteRestoreJobForOwnerContext J u d).2.

Definition system_step (d d' : restore_db) : Prop := restore_step d d' \/ delete_step d d'.

(** Before the first restore. *)
Definition restore_start (d : restore_db) : Prop :=
  previews d = ∅ /\ restore_jobs d = ∅ /\ restore_runs d = ∅ /\ restore_items d = ∅ /\ restore_blocks d = ∅
  /\ pins (rd_backup d) = ∅.

Lemma restore_step_wf d d' : restore_step d d' -> restore_wf d -> restore_wf d'.
Proof.
  destruct 1; intros Hw.
  - by apply wf_backup, backup_move_keeps.
  - by eapply create_preview_wf.
  - by apply claim_preview_wf.
  - by apply complete_preview_wf.
  - by apply fail_preview_wf.
  - by apply renew_preview_wf.
  - by apply cancel_preview_wf.
  - by apply expire_previews_wf.
  - by eapply consume_preview_wf.
  - by apply claim_run_wf.
  - by apply fail_planning_wf.
  - by apply recover_planning_wf.
  - by eapply plan_run_wf.
  - by apply cancel_run_wf.
  - by eapply finalize_completed_wf.
  - by apply finalize_cancelling_wf.
  - by apply claim_item_wf.
  - by apply complete_item_wf.
  - by eapply complete_directory_wf.
  - by apply warn_item_wf.
  - by apply fail_item_wf.
  - by apply skip_item_wf.
  - by apply retry_item_wf.
  - by apply heartbeat_item_wf.
  - by apply set_item_target_wf.
  - by eapply set_directory_target_wf.
  - by eapply reserve_wf.
  - by apply move_reservation_wf.
  - by apply skip_blocked_wf.
  - by apply recover_items_wf.
  - by apply update_tokens_wf.
  - by apply update_session_wf.
  - by apply suspend_wf.
Qed.

Lemma system_step_wf d d' : system_step d d' -> restore_wf d -> restore_wf d'.
Proof. intros [Hs|[J u]] Hw; [by eapply restore_step_wf|by apply delete_job_wf]. Qed.

Lemma restore_reachable_wf d0 d : restore_start d0 -> rtc system_step d0 d -> restore_wf d.
Proof.
  intros (E1 & E2 & E3 & E4 & E5 & E6) Hr. assert (restore_wf d0) as Hw.
  { split; rewrite ?E1, ?E3, ?E4, ?E5, ?E6; set_solver. }
  clear E1 E2 E3 E4 E5 E6. induction Hr as [|d1 d2 d3 Hs Hr IH]; [done|]. by apply IH, (system_step_wf d1).
Qed.

(** ** What becomes of a claim *)

(** Epochs do not go back, and an item is only put to work with a new one. *)
Definition claim_move (x x' : restore_item_row) : Prop :=
  ri_run x' = ri_run x
  /\ (is_epoch (ri_state x') = is_epoch (ri_state x)
      /\ (is_status (ri_state x') = IRunning -> is_status (ri_state x) = IRunning)
      \/ is_epoch (ri_state x) < is_epoch (ri_state x')).

Definition items_move (d d' : restore_db) : Prop :=
  forall id x, restore_items d !! id = Some x -> exists x', restore_items d' !! id = Some x' /\ claim_move x x'.

Lemma claim_move_refl x : claim_move x x.
Proof. split; [done|by left]. Qed.

Lemma moves_same d d' : restore_items d' = restore_items d -> items_move d d'.
Proof. intros E id x Hx. rewrite E. exists x. split; [done|apply claim_move_refl]. Qed.

Lemma moves_trans d1 d2 d3 : items_move d1 d2 -> items_move d2 d3 -> items_move d1 d3.
Proof.
  intros H1 H2 id x Hx. destruct (H1 id x Hx) as (y & Hy & Ey & My).
  destruct (H2 id y Hy) as (z & Hz & Ez & Mz). exists z. split; [done|]. split; [congruence|].
  destruct My as [[Ee Es]|?], Mz as [[Ee' Es']|?]; [left; split; [lia|auto]|right; lia..].
Qed.

Lemma moves_update k p f d :
  (forall x, restore_items d !! k = Some x -> p x = true -> claim_move x (f x)) -> items_move d (update_item k p f d).2.
Proof.
  intros Hf id x Hx. unfold update_item.
  destruct (update_row_spec k p f (restore_items d)) as [(y & Hy & Hp & ->)|[-> _]]; cbn.
  - rewrite lookup_insert. case_decide; [subst; simplify_eq; eauto|]. exists x. split; [done|apply claim_move_refl].
  - exists x. split; [done|apply claim_move_refl].
Qed.

Lemma moves_map g d :
  (forall id x, restore_items d !! id = Some x -> claim_move x (g x)) ->
  items_move d (set_restore_items (fmap g) id d).
Proof. intros Hg id x Hx. cbn. rewrite lookup_fmap, Hx. cbn. eauto. Qed.

Lemma state_move f x :
  is_epoch (f (ri_state x)) = is_epoch (ri_state x) ->
  (is_status (f (ri_state x)) = IRunning -> is_status (ri_state x) = IRunning) -> claim_move x (set_state f x).
Proof. intros He Hs. split; [done|]. by left. Qed.

Lemma items_kept k p f d ok d' : update_item k p f d = (ok, d') -> d' = (update_item k p f d).2.
Proof. by intros ->. Qed.

Lemma claim_item_moves w now d : items_move d (ClaimNextRestoreItemForWorkerContext w now d).2.
Proof.
  unfold ClaimNextRestoreItemForWorkerContext. destruct (merge_sort _ _) as [|[k x] l] eqn:E; [by apply moves_same|].
  assert ((k, x) ∈ (k, x) :: l) as Hin by by left.
  rewrite <- E, merge_sort_Permutation, list_elem_of_In, filter_In in Hin. destruct Hin as [Hin _].
  apply list_elem_of_In, elem_of_map_to_list in Hin. intros id y Hy. cbn. rewrite lookup_insert. case_decide.
  - subst. simplify_eq. eexists. split; [done|]. split; [done|]. right. cbn. lia.
  - exists y. split; [done|apply claim_move_refl].
Qed.

Lemma finalize_items now l d1 d2 : fold_tx (finalize_run now) d1 l = Some d2 -> restore_items d2 = restore_items d1.
Proof.
  revert d1. induction l as [|[k [[c i] b]] l IH]; intros d1; cbn; [by intros [= <-]|].
  destruct (createRestoreNotificationEventTx _ _) as [d3|] eqn:En; [|done]. intros E2. apply IH in E2 as ->.
  unfold createRestoreNotificationEventTx in En. repeat (case_match; try done); by simplify_eq.
Qed.

Lemma cancelled_items now l d1 : restore_items (fold_left (cancel_drained now) l d1) = restore_items d1.
Proof. revert d1. induction l as [|k l IH]; intros d1; [done|]. cbn [fold_left]. by rewrite IH. Qed.

Lemma plan_items_kept J j k g newID now d d' :
  PlanRestoreRunContext J j k g newID now d = Some d' -> items_move d d'.
Proof.
  unfold PlanRestoreRunContext. destruct (sp_job (rj_spec j)), (sp_snapshot (rj_spec j)); try done.
  destruct (_ || _); [done|]. destruct (insert_plan _ _ _ _ _ _) as [m|] eqn:Em; [|done].
  apply insert_plan_spec in Em as [Hsub _]. destruct (update_row _ _ _ _) as [[] rs]; [|done].
  intros [= <-] id x Hx. cbn. unfold link_parents. rewrite lookup_fmap, (lookup_weaken _ _ _ _ Hx Hsub). cbn.
  eexists. split; [done|]. destruct (link_parent_same k m x) as (E1 & E2 & _). split; [done|]. left. by rewrite E2.
Qed.

Lemma complete_item_moves k r size v e now d : items_move d (CompleteRestoreItemContext k r size v e now d).2.
Proof.
  unfold CompleteRestoreItemContext. destruct (update_item _ _ _ _) as [ok d'] eqn:E. apply items_kept in E.
  assert (items_move d d') as Hm by (rewrite E; apply moves_update; intros x Hx _; by apply state_move).
  destruct ok; [|done]. by eapply moves_trans, moves_same.
Qed.

Lemma cancel_run_moves k u now d : items_move d (CancelRestoreRunForOwnerContext k u now d).2.
Proof.
  unfold CancelRestoreRunForOwnerContext. destruct (update_row _ _ _ _) as [ok rs]. destruct ok; [|by apply moves_same].
  cbn [negb]. set (d1 := set_restore_items _ _ _). assert (items_move d d1) as Hm.
  { eapply (moves_trans _ (set_restore_runs (fun _ => rs) d)); [by apply moves_same|]. apply moves_map.
    intros id x Hx. case_match; [by apply state_move|apply claim_move_refl]. }
  destruct (any_item _ _ _); [done|]. by eapply moves_trans, moves_same.
Qed.

Ltac same_items := apply moves_same; cbn; repeat (case_match; try done); by simplify_eq.

Lemma restore_step_moves d d' : restore_step d d' -> items_move d d'.
Proof.
  destruct 1.
  - by apply moves_same.
  - unfold CreateRestorePreviewContext in *. repeat case_match; simplify_eq; by apply moves_same.
  - unfold ClaimNextRestorePreviewForWorkerContext. same_items.
  - unfold CompleteRestorePreviewWithStatsFencedContext. same_items.
  - by apply moves_same.
  - unfold RenewRestorePreviewLeaseContext. same_items.
  - unfold CancelRestorePreviewForOwnerContext. same_items.
  - by apply moves_same.
  - unfold ConsumeRestorePreviewContext, consume_job in *. repeat case_match; simplify_eq; by apply moves_same.
  - unfold ClaimNextQueuedRestoreRunForWorkerContext. same_items.
  - unfold FailRestoreRunPlanningContext, createRestoreNotificationEventTx. same_items.
  - by apply moves_same.
  - by eapply plan_items_kept.
  - apply cancel_run_moves.
  - unfold FinalizeCompletedRestoreRunsContext in *. destruct (fold_tx _ _ _) eqn:E; [|done]. simplify_eq.
    by eapply moves_same, finalize_items.
  - apply moves_same. cbn. apply cancelled_items.
  - apply claim_item_moves.
  - apply complete_item_moves.
  - unfold CompleteRestoreDirectoryContext in *. destruct (update_item _ _ _ _) as [[] d1] eqn:E; [|done].
    simplify_eq. apply items_kept in E as ->. apply moves_update. intros x Hx _. by apply state_move.
  - apply moves_update. intros x Hx _. by apply state_move.
  - apply moves_update. intros x Hx _. by apply state_move.
  - apply moves_update. intros x Hx _. by apply state_move.
  - apply moves_update. intros x Hx _. apply state_move; [done|]. cbn. by destruct (4 <=? _).
  - apply moves_update. intros x Hx _. by apply state_move.
  - apply moves_update. intros x Hx _. split; [done|]. by left.
  - unfold SetRestoreDirectoryTargetPathContext in *. destruct (update_item _ _ _ _) as [[] d1] eqn:E; [|done].
    simplify_eq. apply items_kept in E as ->. eapply moves_trans; [apply moves_update|apply moves_map].
    + intros x Hx _. split; [done|]. by left.
    + intros id x Hx. destruct (_ && _); [|apply claim_move_refl]. split; [done|]. by left.
  - unfold ReserveRestoreTargetPathContext in *. repeat case_match; simplify_eq; by apply moves_same.
  - unfold MoveRestoreTargetReservationContext. same_items.
  - apply (moves_map (fun x => if blocked (restore_items d) x then set_state (block_state now) x else x)).
    intros id x Hx. destruct (blocked _ _); [by apply state_move|apply claim_move_refl].
  - apply moves_map. intros id x Hx. destruct (stale_item _ _ _); [|apply claim_move_refl].
    apply state_move; [done|]. by destruct (run_cancelling _ _).
  - unfold UpdateRestoreRunOAuthTokens. same_items.
  - by apply moves_same.
  - change (items_move d (set_restore_items (fmap (fun x => if run_owned user (suspend_runs user now (suspend_previews user now d)) (ri_run x)
      && status_is [IPending; IRunning] x then set_state (cancel_state now) x else x)) id d)).
    apply moves_map. intros id x Hx. destruct (_ && _); [by apply state_move|apply claim_move_refl].
Qed.

(** The claim is over. *)
Definition settled (itemID : string) (epoch : Z) (d : restore_db) : Prop :=
  exists x, restore_items d !! itemID = Some x
    /\ (epoch < is_epoch (ri_state x) \/ is_epoch (ri_state x) = epoch /\ is_status (ri_state x) <> IRunning).

Lemma settled_step itemID epoch d d' : restore_step d d' -> settled itemID epoch d -> settled itemID epoch d'.
Proof.
  intros Hs (x & Hx & Hc). destruct (restore_step_moves d d' Hs itemID x Hx) as (x' & Hx' & _ & Hm).
  exists x'. split; [done|]. destruct Hm as [[He Hr]|?], Hc as [?|[? Hn]]; [left; lia| |left; lia..].
  right. split; [lia|]. intros Hq. by apply Hn, Hr.
Qed.

Lemma settled_steps itemID epoch d d' : rtc restore_step d d' -> settled itemID epoch d -> settled itemID epoch d'.
Proof. induction 1; eauto using settled_step. Qed.


(** ** The ends of a claim *)

Inductive item_end :=
| EndComplete (size : Z) (verification : string)
| EndDirectory
| EndFail (code : string)
| EndRetry (code : string)
| EndSkip (code : string).

Definition claim_held (itemID runID : string) (epoch : Z) (d : restore_db) : bool :=
  match restore_items d !! itemID with Some x => claim_fence runID [IRunning] epoch x | None => false end.

(** The statement and whether it had a row to change. *)
Definition apply_end (o : item_end) (itemID runID : string) (epoch now : Z) (d : restore_db)
    : bool * restore_db :=
  match o with
  | EndComplete size v => CompleteRestoreItemContext itemID runID size v epoch now d
  | EndDirectory => match CompleteRestoreDirectoryContext itemID runID epoch now d with
                    | Some d' => (true, d') | None => (false, d) end
  | EndFail code => (claim_held itemID runID epoch d, FailRestoreItemContext itemID runID code epoch now d)
  | EndRetry code => RetryRestoreItemContext itemID runID code epoch now d
  | EndSkip code => (claim_held itemID runID epoch d, SkipRestoreItemContext itemID runID code epoch now d)
  end.

Lemma set_items_id d : set_restore_items (fun _ => restore_items d) id d = d.
Proof. by destruct d. Qed.

Lemma update_item_hit k p f d x :
  restore_items d !! k = Some x -> p x = true ->
  update_item k p f d = (true, set_restore_items (fun _ => <[k := f x]> (restore_items d)) id d).
Proof. intros Hx Hp. unfold update_item. by rewrite (update_row_hit k p f _ x Hx Hp). Qed.

Lemma update_item_miss k p f d :
  (forall x, restore_items d !! k = Some x -> p x = false) -> update_item k p f d = (false, d).
Proof.
  intros Hp. unfold update_item.
  destruct (update_row_spec k p f (restore_items d)) as [(x & Hx & Hq & _)|[-> _]]; [|by rewrite set_items_id].
  by rewrite (Hp x Hx) in Hq.
Qed.

Lemma settled_fence itemID runID epoch d x :
  0 < epoch -> settled itemID epoch d -> restore_items d !! itemID = Some x ->
  claim_fence runID [IRunning] epoch x = false.
Proof.
  intros He (y & Hy & Hc) Hx. simplify_eq. apply not_true_is_false. intros Hf. unfold claim_fence in Hf.
  apply andb_true_iff in Hf as [[_ Hs%status_is_one]%andb_true_iff Hep].
  apply orb_true_iff in Hep as [?|?]; destruct Hc as [?|[? ?]]; (lia || done).
Qed.

(** No end of a claim that is over has an effect. *)
Lemma settled_end o itemID runID epoch now d :
  0 < epoch -> settled itemID epoch d -> apply_end o itemID runID epoch now d = (false, d).
Proof.
  intros He Hs. pose proof (fun x => settled_fence itemID runID epoch d x He Hs) as Hf.
  assert (claim_held itemID runID epoch d = false) as Hh.
  { unfold claim_held. destruct (restore_items d !! itemID) as [x|] eqn:Hx; [by apply Hf|done]. }
  destruct o; cbn; rewrite ?Hh.
  - unfold CompleteRestoreItemContext. by rewrite update_item_miss.
  - unfold CompleteRestoreDirectoryContext. rewrite update_item_miss; [done|]. intros x Hx. by rewrite Hf.
  - unfold FailRestoreItemContext. by rewrite update_item_miss.
  - unfold RetryRestoreItemContext. by rewrite update_item_miss.
  - unfold SkipRestoreItemContext. by rewrite update_item_miss.
Qed.

Lemma update_settles k p f d x epoch :
  restore_items d !! k = Some x -> p x = true ->
  is_epoch (ri_state (f x)) = epoch -> is_status (ri_state (f x)) <> IRunning ->
  settled k epoch (update_item k p f d).2.
Proof.
  intros Hx Hp He Hs. rewrite (update_item_hit k p f d x Hx Hp). eexists. cbn.
  split; [apply lookup_insert_eq|]. by right.
Qed.

Lemma fence_epoch runID l epoch x : 0 < epoch -> claim_fence runID l epoch x = true -> is_epoch (ri_state x) = epoch.
Proof. intros He [_ [?|?]%orb_true_iff]%andb_true_iff; lia. Qed.

Lemma end_settles o itemID runID epoch now d d' :
  0 < epoch -> apply_end o itemID runID epoch now d = (true, d') -> settled itemID epoch d'.
Proof.
  intros He. assert (forall f d1, claim_held itemID runID epoch d = true ->
    d1 = (update_item itemID (claim_fence runID [IRunning] epoch) (set_state f) d).2 ->
    (forall s, is_epoch (f s) = is_epoch s /\ is_status (f s) <> IRunning) -> settled itemID epoch d1) as Hgo.
  { intros f d1 Hh -> Hf. unfold claim_held in Hh. destruct (restore_items d !! itemID) as [x|] eqn:Hx; [|done].
    apply (update_settles _ _ _ _ x); [done|done| |apply Hf]. cbn. rewrite (proj1 (Hf _)). by eapply fence_epoch. }
  assert (forall f d1, update_item itemID (claim_fence runID [IRunning] epoch) (set_state f) d = (true, d1) ->
    claim_held itemID runID epoch d = true) as Hok.
  { intros f d1. unfold update_item, claim_held, update_row. destruct (restore_items d !! itemID); [|done].
    by destruct (claim_fence _ _ _ _). }
  destruct o; cbn.
  - unfold CompleteRestoreItemContext. destruct (update_item _ _ _ _) as [[] d1] eqn:E; [|done]. intros [= <-].
    assert (settled itemID epoch d1) as (x & Hx & Hc); [|by exists x].
    apply (Hgo (end_state ICompleted (Some verification) None now)); [by eapply Hok|by rewrite E|done].
  - unfold CompleteRestoreDirectoryContext. destruct (update_item _ _ _ _) as [[] d1] eqn:E; [|done]. intros [= <-].
    apply items_kept in E as E1. unfold update_item, update_row in E.
    destruct (restore_items d !! itemID) as [x|] eqn:Hx; [|done]. destruct (_ && _) eqn:Hp; [|done].
    rewrite E1. apply andb_true_iff in Hp as Hp2. apply (update_settles _ _ _ _ x); [done|by rewrite Hp| |done].
    exact (fence_epoch runID [IRunning] epoch x He (proj1 Hp2)).
  - intros [= Hh <-]. by apply (Hgo (keep_verification IFailed (Some code) now)).
  - intros E. apply (Hgo (retry_state code now)); [by eapply Hok|unfold RetryRestoreItemContext in E; by rewrite E|].
    intros s. split; [done|]. cbn. by destruct (4 <=? _).
  - intros [= Hh <-]. by apply (Hgo (keep_verification ISkipped (Some code) now)).
Qed.

Lemma claimed_item w now d itemID x d' :
  restore_wf d -> ClaimNextRestoreItemForWorkerContext w now d = (Some (itemID, x), d') ->
  restore_items d' !! itemID = Some x /\ 0 < is_epoch (ri_state x)
  /\ forall y, restore_items d !! itemID = Some y -> is_epoch (ri_state x) = is_epoch (ri_state y) + 1.
Proof.
  intros Hw. unfold ClaimNextRestoreItemForWorkerContext. destruct (merge_sort _ _) as [|[k y] l] eqn:E; [done|].
  assert ((k, y) ∈ (k, y) :: l) as Hin by by left.
  rewrite <- E, merge_sort_Permutation, list_elem_of_In, filter_In in Hin. destruct Hin as [Hin _].
  apply list_elem_of_In, elem_of_map_to_list in Hin. intros [= <- <- <-]. cbn.
  split; [apply lookup_insert_eq|]. destruct (wf_items d Hw k y Hin) as [(_ & He & _) _].
  split; [lia|]. intros z Hz. by simplify_eq.
Qed.

Lemma restore_steps d d' : rtc restore_step d d' -> restore_wf d -> restore_wf d' /\ items_move d d'.
Proof.
  induction 1 as [|d1 d2 d3 Hs Hr IH]; intros Hw; [split; [done|by apply moves_same]|].
  destruct IH as [Hw3 Hm]; [by eapply restore_step_wf|]. split; [done|].
  by eapply moves_trans, Hm; apply restore_step_moves.
Qed.
End Steps.

(** ** The theorems *)

(** C26: the restore tables are well formed in every state the system reaches, whatever
    its statements and in whatever order, the suspension of an account and the deletion
    of a job included: a preview holds a lease only while it is RUNNING, ended previews
    and runs hold no credential and ended runs no lease; every run has its job and a job
    at most one active run; every item belongs to a planned run, is RUNNING only while
    the run is RUNNING or CANCELLING and counts its attempts up to four; a frozen recipe
    belongs to an item, also after its run has ended; pins belong to runs that are
    RUNNING or CANCELLING, and while the run of an item is, every pack its recipes name
    is pinned by the run, is the pack they name and is not deleted. *)
Theorem restore_tables_well_formed `{GoUnicode} d0 d :
  restore_start d0 -> rtc system_step d0 d -> restore_wf d.
Proof. apply restore_reachable_wf. Qed.

(** C20: as long as a restore runs or is being cancelled, the pack every frozen recipe of
    its items names is in the catalog as the recipe says and not deleted, retention and
    repository deletion do not list it and the statement that marks a pack deleted
    refuses it. *)
Theorem frozen_recipes_protected `{GoUnicode} d0 d itemID n rec x r :
  restore_start d0 -> rtc system_step d0 d ->
  restore_blocks d !! (itemID, n) = Some rec -> restore_items d !! itemID = Some x ->
  restore_runs d !! ri_run x = Some r -> restore_in moving (rr_status r) = true ->
  exists packID p, packs (rd_backup d) !! packID = Some p
    /\ pk_path p = PackPath rec /\ pk_sha256 p = PackSHA256 rec /\ pk_state p <> PackDeleted
    /\ forall J limit, MarkBackupPackDeletedContext J packID (rd_backup d) = None
         /\ (forall q, (packID, q) ∉ ListBackupReclaimablePacksContext J limit (rd_backup d))
         /\ (forall q, (packID, q) ∉ ListBackupPacksForDeletionContext J limit (rd_backup d)).
Proof.
  intros Hd Hr Hb Hx Hrun Hm. apply restore_reachable_wf in Hr; [|done].
  destruct (wf_recipes d Hr itemID n rec x Hb Hx) as (packID & p & Hin & Hp & E1 & E2 & E3); [by exists r|].
  exists packID, p. split_and!; try done. intros J limit.
  assert (held (rd_backup d) packID = true) as Hh by (unfold held; by rewrite (pinned_held _ (ri_run x))).
  split_and!.
  - unfold MarkBackupPackDeletedContext. cbn.
    match goal with |- context [update_row packID ?q ?f ?m] =>
      destruct (update_row_spec packID q f m) as [(y & Hy & Hq & ->)|[-> _]] end; [|done].
    apply andb_true_iff in Hq as [_ Hq]. by rewrite negb_true_iff in Hq; unfold held in *; cbn in Hq;
      rewrite (pinned_held _ (ri_run x)) in Hq.
  - intros q [_ Hq]%oldest_in. cbn in Hq. rewrite Hh in Hq. by rewrite !andb_false_r in Hq.
  - intros q [_ Hq]%oldest_in. cbn in Hq. rewrite Hh in Hq. by rewrite !andb_false_r in Hq.
Qed.

(** C21: in every interleaving an epoch of an item is handed out once and ended at most
    once: a later claim of the item has a greater epoch, and once one of completion,
    failure, retry or skip has taken effect for an epoch, none has again. *)
Theorem restore_claim_ends_once `{GoUnicode} d0 d w now itemID x d1 d2 :
  restore_start d0 -> rtc system_step d0 d ->
  ClaimNextRestoreItemForWorkerContext w now d = (Some (itemID, x), d1) -> rtc restore_step d1 d2 ->
  let epoch := is_epoch (ri_state x) in
  (forall w' now' y d3, ClaimNextRestoreItemForWorkerContext w' now' d2 = (Some (itemID, y), d3) ->
     epoch < is_epoch (ri_state y))
  /\ (forall o now1 d3 d4, apply_end o itemID (ri_run x) epoch now1 d2 = (true, d3) -> rtc restore_step d3 d4 ->
        forall o' now2, apply_end o' itemID (ri_run x) epoch now2 d4 = (false, d4)).
Proof.
  intros Hd Hr Hc Hs. cbn zeta. apply restore_reachable_wf in Hr; [|done].
  destruct (claimed_item w now d itemID x d1 Hr Hc) as (Hx & He & _). split.
  - intros w' now' y d3 Hc'.
    assert (restore_wf d1) as Hw1 by (pose proof (claim_item_wf w now d Hr) as Hw1; by rewrite Hc in Hw1).
    destruct (restore_steps d1 d2 Hs Hw1) as [Hw2 Hm].
    destruct (Hm itemID x Hx) as (x2 & Hx2 & _ & Hmv).
    destruct (claimed_item w' now' d2 itemID y d3 Hw2 Hc') as (_ & _ & Hy). rewrite (Hy x2 Hx2).
    destruct Hmv as [[? _]|?]; lia.
  - intros o now1 d3 d4 Ho Hs' o' now2. apply settled_end; [done|].
    by eapply settled_steps, end_settles.
Qed.

(** ** A restore, statement by statement *)

Definition ex_digest (b : byte) : bytes := repeat b 32.

(** One snapshot with a directory and a file of one block. *)
Definition ex_catalog : backup_db :=
  mkBackupDb {[ "job" := mkBackupJob "user" BIDLE 1 NotDeleting None no_totals None ]} ∅
    {[ "snap" := mkSnapshot "job" "run" READY [] (mkSnapshotTotals 1 1 3 0 0) UNKNOWN 0 ]}
    {[ "i1" := mkItem "snap" "d" true 0 None None "AVAILABLE";
       "i2" := mkItem "snap" "d/f" false 3 None (Some (ex_digest x03)) "AVAILABLE" ]}
    {[ ("i2", O) := "blk" ]}
    {[ "pk" := mkPackRow "job" "packs/1.pack" (ex_digest x02) 100 PackReady 1 None 0 ]}
    {[ "blk" := mkBlockRow "job" (ex_digest x03) 3 "pk" 50 3 ]} ∅ ∅ ∅ ∅ [].

Definition ex_start : restore_db := mkRestoreDb ex_catalog ∅ ∅ ∅ ∅ ∅ ∅ [].

Definition ex_spec : restore_spec := mkSpec (Some "job") (Some "snap") ["d"] "local" "profile:" "/out" RRename.

Definition ex_ids (k : nat) : string := nth k ["a"; "b"] "c".

Definition ex_previewed : restore_db :=
  default ex_start (CreateRestorePreviewContext "user" ex_spec None 2 (ex_digest x04) None "p" 1 ex_start).
Definition ex_claimed_preview : restore_db := (ClaimNextRestorePreviewForWorkerContext "w" 2 ex_previewed).2.
Definition ex_ready : restore_db :=
  (CompleteRestorePreviewWithStatsFencedContext "p" 1 "w" no_preview_stats 3 ex_claimed_preview).2.
Definition ex_queued : restore_db :=
  match ConsumeRestorePreviewContext "p" "user" ex_ids 4 4 ex_ready with Ok (_, _, d) => d | Err _ => ex_ready end.
Definition ex_planning : restore_db := (ClaimNextQueuedRestoreRunForWorkerContext "w" 5 ex_queued).2.
Definition ex_job : restore_job_row := mkRestoreJob "user" ex_spec 2 (ex_digest x04).
Definition ex_running : restore_db :=
  default ex_planning (PlanRestoreRunContext "a" ex_job "b" 1 (fun k => nth k ["x1"; "x2"] "x3") 6 ex_planning).
Definition ex_working : restore_db := (ClaimNextRestoreItemForWorkerContext "w" 7 ex_running).2.

Lemma ex_running_reachable `{GoUnicode} : rtc system_step ex_start ex_running.
Proof.
  eapply rtc_l; [left; apply (do_create_preview "user" ex_spec None 2 (ex_digest x04) None "p" 1 _ ex_previewed); by vm_compute|].
  eapply rtc_l; [left; apply (do_claim_preview "w" 2)|].
  eapply rtc_l; [left; apply (do_complete_preview "p" 1 "w" no_preview_stats 3)|].
  eapply rtc_l; [left; apply (do_consume "p" "user" ex_ids 4 4 _ "a" "b" ex_queued); by vm_compute|].
  eapply rtc_l; [left; apply (do_claim_run "w" 5)|].
  eapply rtc_l; [left; apply (do_plan "a" ex_job "b" 1 (fun k => nth k ["x1"; "x2"] "x3") 6 _ ex_running); by vm_compute|].
  apply rtc_refl.
Qed.

Lemma ex_start_ok : restore_start ex_start.
Proof. by split_and!. Qed.

Lemma restore_tables_well_formed_witness : restore_wf ex_running.
Proof. apply (@restore_tables_well_formed ascii_tables ex_start ex_running); [by split_and!|apply ex_running_reachable]. Defined.

Lemma ex_state : (fun x => (ri_path x, is_status (ri_state x))) <$> restore_items ex_working
  = {[ "x1" := ("d", IRunning); "x2" := ("d/f", IPending) ]}.
Proof. by vm_compute. Qed.

Definition ex_recipe : BlockRecipe := mkBlockRecipe "packs/1.pack" (ex_digest x02) 50 3 (ex_digest x03) 3.

Lemma frozen_recipes_protected_witness :
  exists packID p, packs (rd_backup ex_running) !! packID = Some p /\ pk_path p = "packs/1.pack"
    /\ MarkBackupPackDeletedContext "job" packID (rd_backup ex_running) = None.
Proof.
  assert (exists x r, restore_items ex_running !! "x2" = Some x /\ restore_blocks ex_running !! ("x2", O) = Some ex_recipe
    /\ restore_runs ex_running !! ri_run x = Some r /\ restore_in moving (rr_status r) = true)
    as (x & r & Hx & Hb & Hr & Hm) by (eexists; eexists; split; [by vm_compute|split; [by vm_compute|split; by vm_compute]]).
  destruct (@frozen_recipes_protected ascii_tables ex_start ex_running "x2" O ex_recipe x r)
    as (packID & p & Hp & E & _ & _ & Hd); [by split_and!|apply ex_running_reachable|done..|].
  exists packID, p. split; [done|]. split; [done|]. by apply (Hd "job" O).
Defined.

Definition ex_claimed : restore_item_row :=
  match ClaimNextRestoreItemForWorkerContext "w" 7 ex_running with
  | (Some (_, x), _) => x
  | (None, _) => plan_item "" "" 0 (mkItem "" "" false 0 None None "")
  end.
Definition ex_completed : restore_db := (apply_end EndDirectory "x1" (ri_run ex_claimed) (is_epoch (ri_state ex_claimed)) 8 ex_working).2.

Lemma restore_claim_ends_once_witness :
  ClaimNextRestoreItemForWorkerContext "w" 7 ex_running = (Some ("x1", ex_claimed), ex_working)
  /\ is_epoch (ri_state ex_claimed) = 1
  /\ apply_end (EndRetry "late") "x1" (ri_run ex_claimed) (is_epoch (ri_state ex_claimed)) 9 ex_completed
     = (false, ex_completed).
Proof.
  split; [by vm_compute|]. split; [by vm_compute|].
  refine (proj2 (@restore_claim_ends_once ascii_tables ex_start ex_running "w" 7 "x1" ex_claimed ex_working ex_working
    _ ex_running_reachable _ (rtc_refl _ _)) EndDirectory 8 ex_completed ex_completed _ (rtc_refl _ _) (EndRetry "late") 9);
    [by split_and!|by vm_compute|by vm_compute].
Defined.
