(* ===== verification/RestoreWorker.v ===== *)
(** * The restore worker

    src/backend/internal/restore/coordinator.go: the preview of a restore against its
    target, the restore of one item - directory or file - and the poll that claims
    previews, runs and items, over the statements of RestoreRuns.v and RestoreItems.v.
    The worker is a state and error program.  What surrounds it is a parameter: the
    target with its own state, the repository as it answers at every step, the
    transactions of other workers before each statement, the statements that fail and
    the clock.  The pipe between reconstruction and upload is its contents: an upload
    says how much it read, and a reconstruction whose bytes are not all read fails in
    its write.  What the token endpoints, the ciphers and the providers answer while
    connections are opened is a parameter, [connector]; the tokens and the session of the
    target that the worker then stores are statements.  Those of the repository change
    credential columns of backup_jobs and nothing else; these columns are left out, as
    are throttling, permits, JSON metadata and audits.  Heartbeats are among the
    transactions before a statement. *)

From S2P Require Import Prelude GoPath HashString Digits Tables Bytes Utf8 Sanitize RestoreReader Overwrite.
From S2P Require Import BackupDb BackupRuns BackupCatalog RestoreDb RestoreRuns RestoreItems.

(** ** Errors *)

(** The errors the coordinator tells apart; others are told apart by what they wrap. *)
Inductive restore_failure :=
| FailCorrupt (what : string)
| FailTypeConflict
| Failure (what : string).

Definition of_reader (e : restore_error) : restore_failure :=
  match e with ErrRepositoryCorrupt s => FailCorrupt s | ErrTransfer s => Failure s end.

(** [permanent_storage] holds of the errors that wrap one of the permanent errors of
    the storage package. *)
Definition isPermanentRestoreError (permanent_storage : string -> bool) (e : restore_failure) : bool :=
  match e with FailCorrupt _ | FailTypeConflict => true | Failure s => permanent_storage s end.

(** ** Names *)

Definition trimExtension (name : string) : string :=
  str_take (String.length name - String.length (path_ext name)) name.

Definition shortRestoreID (value : string) : string :=
  if (8 <? String.length value)%nat then str_take 8 value else value.

Definition staged_path (itemID p : string) : string := (p +:+ ".clumoove-restore-" +:+ shortRestoreID itemID)%string.
Definition backup_path (itemID p : string) : string :=
  (p +:+ ".clumoove-restore-backup-" +:+ shortRestoreID itemID)%string.

(** "name (n)" beside [p]; the extension of a file stays last. *)
Definition numbered (isDir : bool) (p : string) (suffix : Z) : string :=
  let n := (" (" +:+ format_int suffix +:+ ")")%string in
  path_join [path_dir p; if isDir then (path_base p +:+ n)%string
                         else (trimExtension (path_base p) +:+ n +:+ path_ext p)%string].

Definition resolveWithinRoot (root relative : string) : option string :=
  let root := path_clean root in
  let root := if String.eqb root "." || String.eqb root "" then "/" else root in
  if String.eqb relative "" then Some root
  else
    let relative := str_map (fun a => if Ascii.eqb a "\"%char then slash else a) relative in
    let joined := path_clean (path_join [root; relative]) in
    if String.eqb root "/" then if has_prefix joined "/" then Some joined else None
    else if String.eqb joined root || has_prefix joined (root +:+ "/") then Some joined else None.

Definition previewTargetPath (root relative : string) : option string := resolveWithinRoot root relative.

(** ** Promotion *)

Definition promote_staged (uploadPath targetPath backupPath : string) (overwriteExisting : bool)
    : target_prog (res string unit) :=
  RenameFile uploadPath targetPath (fun r =>
    match r with
    | Err e =>
        DeleteFile uploadPath (fun _ =>
          if overwriteExisting then RenameFile backupPath targetPath (fun _ => Return (Err e))
          else Return (Err e))
    | Ok _ => if overwriteExisting then DeleteFile backupPath Return else Return (Ok tt)
    end).

Definition preserve_existing (uploadPath targetPath backupPath : string) : target_prog (res string unit) :=
  RenameFile targetPath backupPath (fun r =>
    match r with
    | Err e => Return (Err e)
    | Ok _ => promote_staged uploadPath targetPath backupPath true
    end).

Definition promoteRestoreUpload (uploadPath targetPath backupPath : string) (overwriteExisting : bool)
    : target_prog (res string unit) :=
  if overwriteExisting then
    FileExists backupPath (fun r =>
      match r with
      | Err e => Return (Err e)
      | Ok true => DeleteFile backupPath (fun r =>
          match r with
          | Err e => Return (Err e)
          | Ok _ => preserve_existing uploadPath targetPath backupPath
          end)
      | Ok false => preserve_existing uploadPath targetPath backupPath
      end)
  else promote_staged uploadPath targetPath backupPath false.

(** ** What the worker talks to *)

(** An upload is given what the pipe delivers and whether it ends well; it answers how
    many bytes it read.  [rg_Inspect] tells a directory; [rg_Hash] is [None] where the
    target has none; [rg_Metadata] is the interface MetadataApplier. *)
Record restore_target (T : Type) := mkRestoreTarget {
  rg_Exists : string -> T -> res string (bool * Z) * T;
  rg_Inspect : string -> T -> res string bool * T;
  rg_Listing : string -> T -> res string (list (string * bool)) * T;
  rg_CreateParents : string -> T -> res string unit * T;
  rg_CreateDirectory : string -> T -> res string unit * T;
  rg_Upload : string -> bytes -> bool -> Z -> T -> (Z * res string unit) * T;
  rg_Rename : string -> string -> T -> res string unit * T;
  rg_Delete : string -> T -> res string unit * T;
  rg_Hash : string -> T -> res string (option string) * T;
  rg_Metadata : option (string -> gotime -> T -> res string unit * T);
  rg_AtomicRename : bool;
  rg_CryptographicHash : bool;
}.
Arguments rg_Exists {T} _ _ _.
Arguments rg_Inspect {T} _ _ _.
Arguments rg_Listing {T} _ _ _.
Arguments rg_CreateParents {T} _ _ _.
Arguments rg_CreateDirectory {T} _ _ _.
Arguments rg_Upload {T} _ _ _ _ _ _.
Arguments rg_Rename {T} _ _ _ _.
Arguments rg_Delete {T} _ _ _.
Arguments rg_Hash {T} _ _ _.
Arguments rg_Metadata {T} _.
Arguments rg_AtomicRename {T} _.
Arguments rg_CryptographicHash {T} _.

(** The packs as they can be read: whole, and by ranges where the provider can. *)
Record repository_view := mkRepository {
  rv_openPack : string -> res string (bytes * option string);
  rv_openRange : option (string -> Z -> Z -> res string (bytes * option string * option string));
}.

(** How opening connections turns out, by step: [cn_connect] is the failure of loading
    or connecting, [cn_refresh] the encrypted access and refresh tokens and the seconds
    they last, [cn_session] the session and master key a MEGA target hands out. *)
Record connector := mkConnector {
  cn_connect : nat -> option string;
  cn_refresh : nat -> res string (string * string * Z);
  cn_session : nat -> option (res string (string * string));
}.

(** [rw_path] is the target path of the item in the worker's hands. *)
Record restorer (T : Type) := mkRestorer {
  rw_db : restore_db;
  rw_target : T;
  rw_clock : nat;
  rw_path : string;
}.
Arguments mkRestorer {T} _ _ _ _.
Arguments rw_db {T} _.
Arguments rw_target {T} _.
Arguments rw_clock {T} _.
Arguments rw_path {T} _.

Section Monad.
Context {T : Type}.

Definition R (X : Type) : Type := restorer T -> res restore_failure X * restorer T.

Definition yield {X} (x : X) : R X := fun w => (Ok x, w).
Definition stop {X} (e : restore_failure) : R X := fun w => (Err e, w).
Definition andthen {X Y} (m : R X) (k : X -> R Y) : R Y := fun w =>
  match m w with
  | (Ok x, w) => k x w
  | (Err e, w) => (Err e, w)
  end.

Definition target_path : R string := fun w => (Ok (rw_path w), w).
Definition set_path (p : string) : R unit := fun w =>
  (Ok tt, mkRestorer (rw_db w) (rw_target w) (rw_clock w) p).

(** A call of the target, with its error as a value. *)
Definition try_call {X} (f : T -> X * T) : R X := fun w =>
  let '(r, t) := f (rw_target w) in (Ok r, mkRestorer (rw_db w) t (rw_clock w) (rw_path w)).

Definition lift {X} (r : res string X) : R X := fun w =>
  (match r with Ok x => Ok x | Err e => Err (Failure e) end, w).

Definition call {X} (f : T -> res string X * T) : R X := andthen (try_call f) lift.

(** The error of a program as a value. *)
Definition attempt {X} (m : R X) : R (res restore_failure X) := fun w => let '(r, w) := m w in (Ok r, w).
End Monad.

Declare Scope restore_scope.
Delimit Scope restore_scope with restore.
Notation "'let*' x := m 'in' k" := (andthen m (fun x => k))
  (at level 10, x pattern, m at level 200, k at level 200) : restore_scope.
Open Scope restore_scope.

Section Worker.
Context `{UnicodeTables} (sha256 : bytes -> bytes).
Context {T : Type} (target : restore_target T) (repository : nat -> repository_view).

(** What runs between two statements, the failing ones, the clock, the outcome of
    connections. *)
Context (other : nat -> restore_db -> restore_db) (fault : nat -> option string).
Context (now : nat -> Z) (connect : connector).

Abbreviation R := (@R T).

(** A failing statement has no effect. *)
Definition statement {X} (f : Z -> restore_db -> res string X * restore_db) : R X := fun w =>
  let n := rw_clock w in
  let d := other n (rw_db w) in
  let '(r, d) := match fault n with Some e => (Err e, d) | None => f (now n) d end in
  (match r with Ok x => Ok x | Err e => Err (Failure e) end,
   mkRestorer d (rw_target w) (Datatypes.S n) (rw_path w)).

Definition update (f : Z -> restore_db -> restore_db) : R unit := statement (fun now d => (Ok tt, f now d)).
Definition query {X} (f : restore_db -> X) : R X := statement (fun _ d => (Ok (f d), d)).
Definition checked (msg : string) (f : Z -> restore_db -> option restore_db) : R unit :=
  statement (fun now d => match f now d with Some d => (Ok tt, d) | None => (Err msg, d) end).

(** What is answered at the step the worker is at, which it then leaves. *)
Definition answered {X} (f : nat -> X) : R X := fun w =>
  (Ok (f (rw_clock w)), mkRestorer (rw_db w) (rw_target w) (Datatypes.S (rw_clock w)) (rw_path w)).

Definition connections : R unit :=
  let* outcome := answered (cn_connect connect) in
  match outcome with Some e => stop (Failure e) | None => yield tt end.

Fixpoint run_prog {A} (p : target_prog A) : R A :=
  match p with
  | Return a => yield a
  | FileExists path k =>
      let* r := try_call (rg_Exists target path) in
      run_prog (k (match r with Ok x => Ok x.1 | Err e => Err e end))
  | DeleteFile path k => let* r := try_call (rg_Delete target path) in run_prog (k r)
  | RenameFile old new k => let* r := try_call (rg_Rename target old new) in run_prog (k r)
  end.

(** ** One item *)

Section Item.

(** The row the claim returned. *)
Context (itemID : string) (item : restore_item_row).

Definition claimEpoch : Z := is_epoch (ri_state item).

Definition set_item_path (p : string) : R unit :=
  if ri_is_dir item
  then checked "restore directory changed while renaming"
         (SetRestoreDirectoryTargetPathContext itemID (ri_run item) (ri_path item) p claimEpoch)
  else update (SetRestoreItemTargetPathContext itemID (ri_run item) p claimEpoch).

Definition reserve (candidate : string) : R bool :=
  statement (fun _ d => match ReserveRestoreTargetPathContext (ri_run item) itemID candidate d with
                        | Some (b, d) => (Ok b, d)
                        | None => (Err "duplicate key value violates unique constraint", d)
                        end).

(** [n] candidates are left; [suffix] numbers the next one. *)
Fixpoint reserve_loop (n : nat) (suffix : Z) (candidate : string) : R unit :=
  match n with
  | O => stop (Failure "restore target path reservations exhausted")
  | Datatypes.S n =>
      let* reserved := reserve candidate in
      let* current := target_path in
      if reserved then
        if String.eqb candidate current then yield tt
        else let* _ := set_item_path candidate in set_path candidate
      else reserve_loop n (suffix + 1) (numbered (ri_is_dir item) current suffix)
  end.

Definition reserveRestoreTargetPath : R unit :=
  let* candidate := target_path in reserve_loop 101 1 candidate.

Definition moveRestoreTargetReservation (candidate : string) : R bool :=
  let* reserved := statement (fun _ d =>
    let '(b, d) := MoveRestoreTargetReservationContext (ri_run item) itemID candidate d in (Ok b, d)) in
  if reserved then
    let* _ := set_item_path candidate in
    let* _ := set_path candidate in
    yield true
  else yield false.

Fixpoint rename_loop (n : nat) (suffix : Z) (original : string) : R unit :=
  match n with
  | O => yield tt
  | Datatypes.S n =>
      let candidate := numbered (ri_is_dir item) original suffix in
      let* found := call (rg_Exists target candidate) in
      if found.1 then rename_loop n (suffix + 1) original
      else
        let* reserved := moveRestoreTargetReservation candidate in
        if reserved then yield tt else rename_loop n (suffix + 1) original
  end.

(** The first free name of a hundred, reserved. *)
Definition rename_item (msg : string) : R unit :=
  let* original := target_path in
  let* _ := rename_loop 100 1 original in
  let* current := target_path in
  if String.eqb current original then stop (Failure msg) else yield tt.

Definition skip_item (errorCode : string) : R unit :=
  update (SkipRestoreItemContext itemID (ri_run item) errorCode claimEpoch).

Definition complete_directory : R unit :=
  checked "restore directory changed while completing"
    (CompleteRestoreDirectoryContext itemID (ri_run item) claimEpoch).

Definition create_directory : R unit :=
  let* p := target_path in
  let* _ := call (rg_CreateParents target p) in
  let* _ := call (rg_CreateDirectory target p) in
  complete_directory.

Definition restoreDirectory (conflictStrategy : restore_strategy) : R unit :=
  let* p := target_path in
  let* found := call (rg_Exists target p) in
  if found.1 then
    let* isDir := call (rg_Inspect target p) in
    if isDir then complete_directory
    else match conflictStrategy with
    | RSkip => skip_item "RESTORE_TARGET_FILE_CONFLICT"
    | ROverwrite => let* _ := call (rg_Delete target p) in create_directory
    | RRename =>
        let* _ := rename_item "restore directory rename candidates exhausted" in create_directory
    end
  else create_directory.

(** ** Files *)

(** [None]: the item is skipped; otherwise whether an existing file is replaced. *)
Definition settle_conflict (conflictStrategy : restore_strategy) : R (option bool) :=
  let* p := target_path in
  let* found := call (rg_Exists target p) in
  if found.1 then
    let* isDir := call (rg_Inspect target p) in
    match conflictStrategy with
    | RSkip => let* _ := skip_item "RESTORE_TARGET_EXISTS" in yield None
    | ROverwrite => if isDir then stop FailTypeConflict else yield (Some true)
    | RRename => let* _ := rename_item "restore rename candidates exhausted" in yield (Some false)
    end
  else yield (Some false).

Definition append (d data : bytes) : bytes * option string := (d ++ data, None).

(** What goes into the pipe, and the error it ends with. *)
Definition reconstruct (v : repository_view) (recipes : list BlockRecipe) (expected : bytes)
    : bytes * option restore_error :=
  let '(o, e) :=
    match rv_openRange v with
    | None => ReconstructFile sha256 append (rv_openPack v) [] recipes (ri_size item) expected
    | Some openRange => ReconstructFileWithRanges sha256 append openRange [] recipes (ri_size item) expected
    end in
  (o_dest o, e).

Definition pipe_outcome (consumed : Z) (stream : bytes) (e : option restore_error) : option restore_error :=
  if consumed <? zlen stream then Some (ErrTransfer "io: read/write on closed pipe") else e.

Definition is_none {X} (x : option X) : bool := match x with None => true | Some _ => false end.

Definition discard_upload (uploadPath : string) : R unit :=
  if rg_AtomicRename target then let* _ := try_call (rg_Delete target uploadPath) in yield tt else yield tt.

Definition transfer (recipes : list BlockRecipe) (expected : bytes) (uploadPath : string) : R unit :=
  let* v := (fun w => (Ok (repository (rw_clock w)), w)) in
  let '(stream, e) := reconstruct v recipes expected in
  let* (consumed, uploaded) := try_call (rg_Upload target uploadPath stream (is_none e) (ri_size item)) in
  match pipe_outcome consumed stream e, uploaded with
  | Some e, _ => let* _ := discard_upload uploadPath in stop (of_reader e)
  | None, Err e => let* _ := discard_upload uploadPath in stop (Failure e)
  | None, Ok _ => yield tt
  end.

Definition recipe_hashes (r : BlockRecipe) : bool :=
  (zlen (PackSHA256 r) =? 32) && (zlen (BlockSHA256 r) =? 32).

(** The size, and the hash where the target has one. *)
Definition verify_target_file (expected : bytes) : R string :=
  let* p := target_path in
  let* found := try_call (rg_Exists target p) in
  match found with
  | Ok (true, size) =>
      if negb (size =? ri_size item) then stop (Failure "restore target size verification failed")
      else if rg_CryptographicHash target then
        let* targetHash := call (rg_Hash target p) in
        let '(algorithm, actual) := ParseHashString (default "" targetHash) in
        if String.eqb (default "" targetHash) "" then yield "SIZE_VERIFIED"
        else if String.eqb algorithm "SHA256" then
          if String.eqb actual (hex_encode expected) then yield "HASH_VERIFIED"
          else stop (Failure "restore target hash verification failed")
        else yield "SIZE_VERIFIED"
      else yield "SIZE_VERIFIED"
  | _ => stop (Failure "restore target size verification failed")
  end.

Definition warn (errorCode : string) : R unit :=
  update (WarnRestoreItemContext itemID (ri_run item) errorCode claimEpoch).

Definition applyItemMetadata : R unit :=
  match ri_mtime item with
  | None => yield tt
  | Some t =>
      match rg_Metadata target with
      | None => warn "RESTORE_METADATA_UNSUPPORTED"
      | Some apply =>
          let* p := target_path in
          let* r := try_call (apply p t) in
          match r with Ok _ => yield tt | Err _ => warn "RESTORE_METADATA_FAILED" end
      end
  end.

Definition restore_content (overwriteExisting : bool) : R unit :=
  let* p := target_path in
  let* _ := call (rg_CreateParents target p) in
  let* recipes := query (ListRestoreItemBlocksContext itemID (ri_run item)) in
  if negb (forallb recipe_hashes recipes) then stop (Failure "invalid restore block hash")
  else match ri_sha256 item with
  | None => stop (Failure "invalid restore file hash")
  | Some expected =>
      if negb (zlen expected =? 32) then stop (Failure "invalid restore file hash")
      else
        let staged := staged_path itemID p in
        let* _ := transfer recipes expected (if rg_AtomicRename target then staged else p) in
        let* promoted := if rg_AtomicRename target
          then run_prog (promoteRestoreUpload staged p (backup_path itemID p) overwriteExisting)
          else yield (Ok tt) in
        let* _ := lift promoted in
        let* verificationKind := verify_target_file expected in
        let* _ := statement (fun now d =>
          let '(ok, d) := CompleteRestoreItemContext itemID (ri_run item) (ri_size item) verificationKind
                            claimEpoch now d in (Ok ok, d)) in
        applyItemMetadata
  end.

(** The strategy, the provider and the credential of the item's run. *)
Definition load_run (d : restore_db) : option (restore_strategy * string * option target_credential) :=
  match restore_runs d !! ri_run item with
  | Some r =>
      match restore_jobs d !! rr_job r with
      | Some j => match sp_job (rj_spec j) with
                  | Some _ => Some (sp_strategy (rj_spec j), sp_provider (rj_spec j), rr_credential r)
                  | None => None
                  end
      | None => None
      end
  | None => None
  end.

(** The last name as the provider takes it. *)
Definition sanitize_path (provider : string) : R unit :=
  let* p := target_path in
  let s := SanitizeFilename (path_base p) provider in
  if Changed s then
    let resolved := path_join [path_dir p; SanitizedName s] in
    let* _ := set_item_path resolved in set_path resolved
  else yield tt.

(** *** Connections *)

Definition oauth_provider (provider : string) : bool :=
  existsb (String.eqb provider) ["dropbox"; "google"; "onedrive"; "hidrive"].

(** The token of the winner of a concurrent refresh. *)
Definition adopted_token (latest : option target_credential) : R string :=
  match latest ≫= tc_expires with
  | Some _ => if String.eqb (password_of latest) "" then stop (Failure "adopt concurrent restore OAuth token")
              else yield (password_of latest)
  | None => stop (Failure "adopt concurrent restore OAuth token")
  end.

Definition store_token (refreshEncrypted : string) : R string :=
  let* refreshed := answered (cn_refresh connect) in
  let* (access, rotatedRefresh, expiresIn) := lift refreshed in
  let* t := answered now in
  let expiresIn := if expiresIn <=? 0 then 3600 else expiresIn in
  let* stored := statement (fun now d =>
    let '(ok, d) := UpdateRestoreRunOAuthTokens (ri_run item) access rotatedRefresh (t + expiresIn)
                      refreshEncrypted now d in (Ok ok, d)) in
  if stored then yield access
  else
    let* latest := query (fun d => restore_runs d !! ri_run item ≫= rr_credential) in
    adopted_token latest.

Definition ensureFreshRestoreTargetOAuthToken (provider : string) (credential : option target_credential) : R string :=
  if negb (oauth_provider provider) then yield (password_of credential)
  else
    let refreshEncrypted := default "" (credential ≫= tc_refresh) in
    if String.eqb refreshEncrypted "" then stop (Failure "restore OAuth refresh credential is unavailable")
    else
      let* t := answered now in
      if match credential ≫= tc_expires with Some e => t <? e - minutes 2 | None => false end
      then yield (password_of credential)
      else store_token refreshEncrypted.

(** The session a MEGA target was opened with is kept in the run. *)
Definition keep_session : R unit :=
  let* session := answered (cn_session connect) in
  match session with
  | None => yield tt
  | Some session =>
      let* (sessionID, masterKey) := lift session in
      update (UpdateRestoreRunMegaSessionContext (ri_run item) sessionID masterKey)
  end.

Definition open_connections (provider : string) (credential : option target_credential) : R unit :=
  let* _ := connections in
  if String.eqb (password_of credential) "" && negb (String.eqb provider "local")
  then stop (Failure "restore target credential snapshot is unavailable")
  else
    let* _ := ensureFreshRestoreTargetOAuthToken provider credential in
    let* _ := connections in
    keep_session.

(** *** The item *)

Definition restore_loaded (conflictStrategy : restore_strategy) (provider : string) : R unit :=
  let* _ := sanitize_path provider in
  let* _ := reserveRestoreTargetPath in
  if ri_is_dir item then restoreDirectory conflictStrategy
  else
    let* overwriteExisting := settle_conflict conflictStrategy in
    match overwriteExisting with
    | None => yield tt
    | Some overwriteExisting => restore_content overwriteExisting
    end.

Definition restoreItem : R unit :=
  let* loaded := query load_run in
  match loaded with
  | None => stop (Failure "load restore connections")
  | Some (conflictStrategy, provider, credential) =>
      let* _ := open_connections provider credential in
      restore_loaded conflictStrategy provider
  end.
End Item.

(** ** The preview *)

(** A directory listed with its paths made absolute. *)
Definition absolute (p : string) : string :=
  let clean := path_clean p in if has_prefix clean "/" then clean else ("/" +:+ clean)%string.

(** [None]: the fuel is used up. *)
Fixpoint enumerate_loop (fuel : nat) (queue : list string) (visited : gset string)
    (result : gmap string bool) : R (option (gmap string bool)) :=
  match queue with
  | [] => yield (Some result)
  | current :: queue =>
      match fuel with
      | O => yield None
      | Datatypes.S fuel =>
          if bool_decide (current ∈ visited) then enumerate_loop fuel queue visited result
          else
            let* entries := call (rg_Listing target current) in
            let entries := map (fun e => (absolute e.1, e.2)) entries in
            enumerate_loop fuel (queue ++ map fst (List.filter snd entries)) ({[ current ]} ∪ visited)
              (fold_left (fun m e => <[ e.1 := e.2 ]> m) entries result)
      end
  end.

Definition enumeratePreviewTargetTree (fuel : nat) (root : string) : R (option (gmap string bool)) :=
  let root := path_clean root in
  let root := if String.eqb root "." then "/" else root in
  if String.eqb root "/" then enumerate_loop fuel [root] ∅ ∅
  else
    let* found := call (rg_Exists target root) in
    if found.1 then enumerate_loop fuel [root] ∅ ∅ else yield (Some ∅).

Fixpoint expected_paths (root : string) (l : list snapshot_item) (m : gmap string snapshot_item)
    : option (gmap string snapshot_item) :=
  match l with
  | [] => Some m
  | i :: l => match previewTargetPath root (it_path i) with
              | Some p => expected_paths root l (<[p := i]> m)
              | None => None
              end
  end.

Definition conflict_outcome (strategy : restore_strategy) (same_type : bool) : string :=
  match strategy with
  | RSkip => if same_type then "SKIP" else "TYPE_SKIP"
  | RRename => if same_type then "RENAME" else "TYPE_RENAME"
  | ROverwrite => if same_type then "" else "TYPE_OVERWRITE"
  end.

(** One selected item against what the target has at its path. *)
Definition preview_one (strategy : restore_strategy) (metadataSupported : bool) (tree : gmap string bool)
    (s : RestorePreviewStats) (x : string * snapshot_item) : RestorePreviewStats :=
  let '(targetPath, item) := x in
  let isDir := it_is_dir item in
  let unavailable := negb isDir && negb (String.eqb (it_state item) "AVAILABLE") in
  let resource := if unavailable then None else tree !! targetPath in
  let merged := bool_decide (resource = Some true) && isDir in
  let existing := bool_decide (resource = Some false) && negb isDir in
  let mismatch := bool_decide (is_Some resource) && negb merged && negb existing in
  let outcome := if existing || mismatch then conflict_outcome strategy existing else "" in
  mkPreviewStats (ps_Files s + b2z (negb isDir)) (ps_Directories s + b2z isDir)
    (ps_ExistingFiles s + b2z existing) (ps_MergeableDirectories s + b2z merged)
    (ps_TypeConflicts s + b2z mismatch) (ps_UnavailableItems s + b2z unavailable)
    (ps_ExpectedSkips s + b2z ((existing || mismatch) && bool_decide (strategy = RSkip)))
    (ps_ExpectedRenames s + b2z ((existing || mismatch) && bool_decide (strategy = RRename)))
    (ps_MetadataWarnings s
       + b2z (negb unavailable && negb metadataSupported && bool_decide (is_Some (it_mtime item))))
    (ps_Bytes s + if isDir then 0 else it_size item)
    (ps_ConflictExamples s
       ++ if negb (String.eqb outcome "") && (length (ps_ConflictExamples s) <? 100)%nat
          then [((if has_prefix targetPath "/" then str_drop 1 targetPath else targetPath), outcome)]
          else []).

Definition by_path (a b : string * snapshot_item) : Prop := String.leb a.1 b.1 = true.
#[global] Instance by_path_dec : RelDecision by_path.
Proof. intros a b. unfold by_path. apply _. Defined.

Definition preview_stats (strategy : restore_strategy) (metadataSupported : bool) (tree : gmap string bool)
    (expected : gmap string snapshot_item) : RestorePreviewStats :=
  fold_left (preview_one strategy metadataSupported tree) (merge_sort by_path (map_to_list expected))
    no_preview_stats.

Definition previewTarget (fuel : nat) (p : preview_row) : R RestorePreviewStats :=
  let spec := pv_spec p in
  let* l := query (ListRestorePreviewItemsContext spec) in
  if String.eqb (password_of (pv_credential p)) "" && negb (String.eqb (sp_provider spec) "local")
  then stop (Failure "restore preview target credential is unavailable")
  else
    let* _ := connections in
    match expected_paths (sp_root spec) l ∅ with
    | None => stop (Failure "path escapes root")
    | Some expected =>
        let* tree := enumeratePreviewTargetTree fuel (sp_root spec) in
        match tree with
        | None => stop (Failure "out of fuel")
        | Some tree => yield (preview_stats (sp_strategy spec) (negb (is_none (rg_Metadata target))) tree expected)
        end
    end.

(** ** The poll *)

Context (permanent_storage : string -> bool) (uuid : nat -> nat -> string) (workerID : string).

Definition claim_run (now : Z) (d : restore_db)
    : res string (option (string * restore_run_row * restore_job_row)) * restore_db :=
  match ClaimNextQueuedRestoreRunForWorkerContext workerID now d with
  | (Some (runID, r), d') =>
      match restore_jobs d !! rr_job r with
      | Some j => (Ok (Some (runID, r, j)), d')
      | None => (Ok None, d')
      end
  | (None, d) => (Ok None, d)
  end.

Definition poll_preview (fuel : nat) (previewID : string) (p : preview_row) : R bool :=
  let generation := ls_generation (pv_lease p) in
  let* outcome := attempt (previewTarget fuel p) in
  match outcome with
  | Err _ =>
      let* _ := update (FailRestorePreviewFencedContext previewID generation workerID "RESTORE_PREVIEW_FAILED") in
      yield true
  | Ok stats =>
      let* _ := statement (fun now d =>
        let '(ok, d) := CompleteRestorePreviewWithStatsFencedContext previewID generation workerID stats now d in
        (Ok ok, d)) in
      yield true
  end.

Definition poll_run (runID : string) (r : restore_run_row) (j : restore_job_row) : R bool :=
  let* n := (fun w => (Ok (rw_clock w), w)) in
  let* planned := attempt (checked "plan restore run"
    (PlanRestoreRunContext (rr_job r) j runID (rr_generation r) (uuid n))) in
  match planned with
  | Ok _ => yield true
  | Err _ =>
      let* _ := statement (fun now d =>
        let '(ok, d) := FailRestoreRunPlanningContext (rr_job r) runID (rr_generation r)
                          "RESTORE_PLANNING_FAILED" now d in (Ok ok, d)) in
      yield true
  end.

Definition restore_code (e : restore_failure) : string :=
  match e with FailTypeConflict => "RESTORE_TYPE_CONFLICT" | _ => "RESTORE_TRANSFER_FAILED" end.

(** A failure of the item is permanent or a retry; recording it may fail unseen. *)
Definition poll_item (itemID : string) (x : restore_item_row) : R bool :=
  let epoch := is_epoch (ri_state x) in
  let* _ := set_path (ri_target x) in
  let* outcome := attempt (restoreItem itemID x) in
  match outcome with
  | Ok _ => yield true
  | Err e =>
      let* _ := attempt (if isPermanentRestoreError permanent_storage e
        then update (FailRestoreItemContext itemID (ri_run x) (restore_code e) epoch)
        else let* _ := statement (fun now d =>
               let '(ok, d) := RetryRestoreItemContext itemID (ri_run x) (restore_code e) epoch now d in
               (Ok ok, d)) in yield tt) in
      yield true
  end.

Definition poll_finalize : R bool :=
  let* finalized := statement (fun now d =>
    match FinalizeCompletedRestoreRunsContext now d with
    | Some (n, d) => (Ok n, d)
    | None => (Err "finalize restore runs", d)
    end) in
  let* cancelled := statement (fun now d =>
    let '(n, d) := FinalizeCancellingRestoreRunsContext now d in (Ok n, d)) in
  yield (negb (finalized =? 0)%nat || negb (cancelled =? 0)%nat).

Definition PollOnce (fuel : nat) : R bool :=
  let* recovered := statement (fun now d => let '(n, d) := RecoverStaleRestoreItemsContext now d in (Ok n, d)) in
  if 0 <? recovered then yield true
  else
    let* _ := update ExpireRestorePreviewsContext in
    let* _ := update RecoverStaleRestorePlanningContext in
    let* preview := statement (fun now d =>
      let '(r, d) := ClaimNextRestorePreviewForWorkerContext workerID now d in (Ok r, d)) in
    match preview with
    | Some (previewID, p) => poll_preview fuel previewID p
    | None =>
        let* run := statement claim_run in
        match run with
        | Some (runID, r, j) => poll_run runID r j
        | None =>
            let* skipped := statement (fun now d =>
              let '(n, d) := SkipBlockedRestoreItemsContext now d in (Ok n, d)) in
            if 0 <? skipped then yield true
            else
              let* item := statement (fun now d =>
                let '(r, d) := ClaimNextRestoreItemForWorkerContext workerID now d in (Ok r, d)) in
              match item with
              | Some (itemID, x) => poll_item itemID x
              | None => poll_finalize
              end
        end
    end.
End Worker.
