(* ===== verification/RestoreSound.v ===== *)
(** * What a restore does to its target

    Promotion of a staged file at every point where it may stop, and the restore of an
    item over a target that keeps files: what it leaves alone, what a success means and
    that a poll ends the claim it took. *)

From S2P Require Import Prelude GoPath HashString Digits Tables Bytes Utf8 Sanitize RestoreReader Overwrite.
From S2P Require Import BackupDb BackupRuns BackupCatalog RestoreDb RestoreRuns RestoreItems RestoreState RestoreWorker.

(** ** Promotion *)

(** The same operations; a success of the second is one of the first. *)
Inductive similar : target_prog (res string unit) -> target_prog (res string unit) -> Prop :=
| sim_return r r' : (r' = Ok tt -> r = Ok tt) -> similar (Return r) (Return r')
| sim_exists path k k' : (forall x, similar (k x) (k' x)) -> similar (FileExists path k) (FileExists path k')
| sim_delete path k k' : (forall x, similar (k x) (k' x)) -> similar (DeleteFile path k) (DeleteFile path k')
| sim_rename old new k k' :
    (forall x, similar (k x) (k' x)) -> similar (RenameFile old new k) (RenameFile old new k').

Lemma always_similar {F} T U B (fs0 : gmap string F) Q p q : similar p q -> forall fs,
  always Q (promotion_post T U B fs0) p fs -> always Q (promotion_post T U B fs0) q fs.
Proof.
  induction 1 as [r r' Hr|path k k' _ IH|path k k' _ IH|old new k k' _ IH]; intros fs; cbn.
  - intros [Hq Hp]. split; [done|]. unfold promotion_post in *. destruct r' as [[]|]; [|done].
    by rewrite Hr in Hp.
  - naive_solver.
  - naive_solver.
  - naive_solver.
Qed.

Lemma staged_similar U T B b : similar (promote_upload T U B b) (promote_staged U T B b).
Proof.
  apply sim_rename. intros [[]|e]; destruct b; cbn; unfold finish_promotion, cleanupStagingUpload.
  - apply sim_delete. intros [[]|e]; by apply sim_return.
  - by apply sim_return.
  - apply sim_delete. intros r. apply sim_rename. intros [[]|e']; by apply sim_return.
  - apply sim_delete. intros r. by apply sim_return.
Qed.

Lemma preserve_similar U T B : similar (preserve_target T U B) (preserve_existing U T B).
Proof. apply sim_rename. intros [[]|e]; [apply staged_similar|by apply sim_return]. Qed.

Lemma staged_not_backup id p : staged_path id p <> backup_path id p.
Proof.
  unfold staged_path, backup_path. intros E. apply (f_equal String.length) in E. rewrite !str_length_app in E.
  cbn in E. lia.
Qed.

Lemma promote_restore_always {F} T U B (fs0 : gmap string F) overwrite :
  T <> U -> T <> B -> U <> B -> (overwrite = true <-> is_Some (fs0 !! T)) ->
  always (promotion_safe T U B fs0) (promotion_post T U B fs0) (promoteRestoreUpload U T B overwrite) fs0.
Proof.
  intros HTU HTB HUB Ho. pose proof (promotion_safe_start T U B fs0) as Hs.
  pose proof (holding_start T U B fs0 fs0 eq_refl) as Hh. unfold promoteRestoreUpload. destruct overwrite.
  - destruct Ho as [[old Hold] _]; [done|]. rewrite Hold in Hh.
    assert (always (promotion_safe T U B fs0) (promotion_post T U B fs0) (preserve_existing U T B) fs0) as Hp.
    { eapply always_similar; [apply preserve_similar|]. by eapply preserve_safe. }
    cbn [always]. split; [done|]. split; [|done]. destruct (bool_decide _); [|done].
    pose proof (holding_delete_B T U B HTU HTB HUB fs0 _ _ _ _ Hh) as Hd.
    assert (promotion_safe T U B fs0 (delete B fs0)) as Hsd.
    { eapply holding_safe; [exact Hd| |congruence]. intros o Ho. left. congruence. }
    cbn [always]. split; [done|]. split; [|by intros e].
    eapply always_similar; [apply preserve_similar|]. by eapply preserve_safe.
  - assert (fs0 !! T = None) as Hn.
    { destruct (fs0 !! T) eqn:E; [|done]. destruct Ho as [_ Ho]. by discriminate Ho. }
    rewrite Hn in Hh. eapply always_similar; [apply staged_similar|]. by apply promote_fresh_safe.
Qed.

(** C23: promoting a restored file never loses data.  Wherever the promotion stops and
    whichever operations fail, before or after taking effect: a file that was to be
    replaced is in place, is kept under the backup path, or has been replaced by the
    complete upload; without a file to replace nothing but the target and the staged
    path changes; and when it succeeds the upload is the target and nothing of the
    attempt is left. *)
Theorem promote_restore_safe {F} targetPath itemID overwriteExisting (fs0 fs : gmap string F) p :
  let U := staged_path itemID targetPath in
  let B := backup_path itemID targetPath in
  (overwriteExisting = true <-> is_Some (fs0 !! targetPath)) ->
  rtc target_step (promoteRestoreUpload U targetPath B overwriteExisting, fs0) (p, fs) ->
  (forall old, fs0 !! targetPath = Some old ->
    fs !! targetPath = Some old \/ fs !! B = Some old
    \/ (is_Some (fs0 !! U) /\ fs !! targetPath = fs0 !! U))
  /\ (fs0 !! targetPath = None -> fs !! B = fs0 !! B)
  /\ (forall q, q <> targetPath -> q <> U -> q <> B -> fs !! q = fs0 !! q)
  /\ (p = Return (Ok tt) ->
      is_Some (fs0 !! U) /\ fs !! targetPath = fs0 !! U /\ fs !! U = None
      /\ (is_Some (fs0 !! targetPath) -> fs !! B = None)).
Proof.
  cbn zeta. intros Ho Hr.
  apply (always_reach (promotion_safe targetPath (staged_path itemID targetPath) (backup_path itemID targetPath) fs0)
    (promotion_post targetPath (staged_path itemID targetPath) (backup_path itemID targetPath) fs0)) in Hr.
  - destruct (always_now _ _ _ _ Hr) as (H1 & H2 & H3). split_and!; try done.
    all: intros ->; by destruct Hr as [_ [Hx Hy]].
  - apply promote_restore_always; [by apply str_app_neq|by apply str_app_neq|apply staged_not_backup|done].
Qed.

Lemma promote_restore_safe_witness :
  let fs0 := {[ "/a" := 1%Z; staged_path "id" "/a" := 2%Z ]} : gmap string Z in
  let fs := {[ backup_path "id" "/a" := 1%Z ]} : gmap string Z in
  exists p, rtc target_step (promoteRestoreUpload (staged_path "id" "/a") "/a" (backup_path "id" "/a") true, fs0) (p, fs)
    /\ (fs !! "/a" = Some 1%Z \/ fs !! backup_path "id" "/a" = Some 1%Z
        \/ (is_Some (fs0 !! staged_path "id" "/a") /\ fs !! "/a" = fs0 !! staged_path "id" "/a")).
Proof.
  cbn zeta.
  assert (exists p, rtc target_step (promoteRestoreUpload (staged_path "id" "/a") "/a" (backup_path "id" "/a") true,
      {[ "/a" := 1%Z; staged_path "id" "/a" := 2%Z ]} : gmap string Z)
    (p, {[ backup_path "id" "/a" := 1%Z ]})) as [p Hr].
  { eexists. eapply rtc_l; [apply exists_answer|]. cbn.
    eapply rtc_l; [apply rename_done; by eexists|].
    eapply rtc_l; [apply (rename_error _ _ _ _ "timeout")|].
    eapply rtc_l; [apply delete_done|]. apply rtc_refl. }
  exists p. split; [exact Hr|].
  destruct (fun Ho => promote_restore_safe "/a" "id" true _ _ p Ho Hr) as (H1 & _); [|by apply H1].
  split; [by eexists|done].
Defined.

(** ** What comes out of the pipe *)

Section Pipe.
Context (sha256 : bytes -> bytes).

(** The destination got what was hashed and counted. *)
Definition mirrored (o : output) : Prop := o_dest o = o_hashed o /\ o_written o = zlen (o_hashed o).

Lemma write_all_mirrored bs o : mirrored o -> mirrored (write_all append bs o).1.
Proof.
  revert o. induction bs as [|b bs IH]; intros o Ho; [done|]. cbn. apply IH. destruct Ho as [E1 E2].
  split; cbn; [by rewrite E1|by rewrite E2, zlen_app].
Qed.

Lemma group_loop_mirrored openPack n recipes o o' e :
  mirrored o -> group_loop sha256 append openPack n recipes o = Some (o', e) -> mirrored o'.
Proof.
  revert recipes o. induction n as [|n IH]; intros [|r rest] o Ho; cbn [group_loop]; try (by intros [= <- _]).
  destruct (same_pack _ _ rest) as [more rest']. destruct (read_group _ _ _ _ _) as [blocks|]; [|by intros [= <- _]].
  pose proof (write_all_mirrored blocks o Ho) as Hw. destruct (write_all append blocks o) as [o1 [e1|]]; cbn in Hw.
  - by intros [= <- _].
  - by apply IH.
Qed.

Lemma range_loop_mirrored openRange recipes o :
  mirrored o -> mirrored (range_loop sha256 append openRange recipes o).1.
Proof.
  revert o. induction recipes as [|r recipes IH]; intros o Ho; [done|]. cbn [range_loop].
  destruct (read_range _ _ r) as [payload|]; [|done].
  pose proof (write_all_mirrored [payload] o Ho) as Hw. destruct (write_all append [payload] o) as [o1 [e1|]]; cbn in Hw; [done|].
  by apply IH.
Qed.

Lemma check_file_mirrored size expected o o' :
  mirrored o -> check_file sha256 size expected o = (o', None) ->
  zlen (o_dest o') = size /\ sha256 (o_dest o') = expected.
Proof. intros [E1 E2] H. apply check_file_ok in H as (-> & Hs & Hh). rewrite E1, <- E2. done. Qed.

Lemma reconstructed item v recipes expected stream :
  reconstruct sha256 item v recipes expected = (stream, None) ->
  zlen stream = ri_size item /\ sha256 stream = expected.
Proof.
  assert (mirrored (mkOutput [] [] 0)) as H0 by done. unfold reconstruct.
  assert (forall o e, (match rv_openRange v with
      | None => ReconstructFile sha256 append (rv_openPack v) [] recipes (ri_size item) expected
      | Some openRange => ReconstructFileWithRanges sha256 append openRange [] recipes (ri_size item) expected
      end) = (o, e) -> e = None -> zlen (o_dest o) = ri_size item /\ sha256 (o_dest o) = expected) as H.
  { intros o e. destruct (rv_openRange v) as [openRange|];
      [unfold ReconstructFileWithRanges|unfold ReconstructFile]; (destruct (_ <? 0); [by intros [= _ <-]|]).
    - pose proof (range_loop_mirrored openRange recipes _ H0) as Hm.
      destruct (range_loop _ _ _ _ _) as [o1 [e1|]]; [by intros [= _ <-]|]. intros E ->. by eapply check_file_mirrored.
    - destruct (group_loop _ _ _ _ _ _) as [[o1 [e1|]]|] eqn:Eg; [by intros [= _ <-]| |by intros [= _ <-]].
      apply group_loop_mirrored in Eg; [|done]. intros E ->. by eapply check_file_mirrored. }
  match goal with |- context [match ?m with (o, e) => (o_dest o, e) end] => destruct m as [o e] eqn:E end.
  intros Hx. injection Hx as <- He. by apply (H o e).
Qed.
End Pipe.

(** ** A target that keeps files *)

(** [q] is [p] or below it. *)
Definition within (p q : string) : Prop := q = p \/ exists t, q = (p +:+ "/" +:+ t)%string.

(** What a provider's operations do to the files it holds: reading changes nothing,
    writing changes what it names, and an upload that read everything it was given and
    reports success stored it. *)
Class RestoreStore {T} (target : restore_target T) := {
  files : T -> gmap string bytes;
  exists_quiet p t : files (rg_Exists target p t).2 = files t;
  exists_free p t n q : (rg_Exists target p t).1 = Ok (false, n) -> within p q -> files t !! q = None;
  inspect_quiet p t : files (rg_Inspect target p t).2 = files t;
  inspect_file p t : (rg_Inspect target p t).1 = Ok false -> is_Some (files t !! p);
  parents_quiet p t : files (rg_CreateParents target p t).2 = files t;
  directory_quiet p t : files (rg_CreateDirectory target p t).2 = files t;
  hash_quiet p t : files (rg_Hash target p t).2 = files t;
  metadata_quiet f p m t : rg_Metadata target = Some f -> files (f p m t).2 = files t;
  upload_frame p s b n t q : q <> p -> files (rg_Upload target p s b n t).2 !! q = files t !! q;
  upload_stored p s n t k : (rg_Upload target p s true n t).1 = (k, Ok tt) -> zlen s <= k ->
    files (rg_Upload target p s true n t).2 !! p = Some s;
  delete_frame p t q : ~ within p q -> files (rg_Delete target p t).2 !! q = files t !! q;
  rename_frame a b t q : ~ within a q -> ~ within b q -> files (rg_Rename target a b t).2 !! q = files t !! q;
  rename_moved a b t c : (rg_Rename target a b t).1 = Ok tt -> files t !! a = Some c ->
    files (rg_Rename target a b t).2 !! b = Some c;
}.

Section Restore.
Context `{UnicodeTables} (sha256 : bytes -> bytes).
Context {T : Type} (target : restore_target T) `{!RestoreStore target} (repository : nat -> repository_view).
Context (other : nat -> restore_db -> restore_db) (fault : nat -> option string).
Context (now : nat -> Z) (connect : connector).
Context (itemID : string) (item : restore_item_row).

Abbreviation R := (@R T).

(** *** Assertions on the files and on the path in hand *)

Definition assertion := gmap string bytes -> string -> Prop.

(** From [P], a success ends in [Q] and a failure in [E]. *)
Definition spec {X} (P : assertion) (m : R X) (Q : X -> assertion) (E : assertion) : Prop := forall w,
  P (files (rw_target w)) (rw_path w) ->
  match m w with
  | (Ok x, w') => Q x (files (rw_target w')) (rw_path w')
  | (Err _, w') => E (files (rw_target w')) (rw_path w')
  end.

Lemma spec_bind {X Y} P (m : R X) Q (k : X -> R Y) Q' E :
  spec P m Q E -> (forall x, spec (Q x) (k x) Q' E) -> spec P (andthen m k) Q' E.
Proof.
  intros Hm Hk w Hp. specialize (Hm w Hp). unfold andthen. destruct (m w) as [[x|e] w1]; [|done].
  by apply Hk.
Qed.

Lemma spec_weaken {X} P P' (m : R X) Q Q' E E' :
  spec P' m Q' E' -> (forall f p, P f p -> P' f p) -> (forall x f p, Q' x f p -> Q x f p) ->
  (forall f p, E' f p -> E f p) -> spec P m Q E.
Proof.
  intros Hm HP HQ HE w Hp. specialize (Hm w (HP _ _ Hp)). destruct (m w) as [[x|e] w1]; auto.
Qed.

Lemma spec_yield {X} (P : assertion) (x : X) Q E : (forall f p, P f p -> Q x f p) -> spec P (yield x) Q E.
Proof. intros HQ w Hp. by apply HQ. Qed.

Lemma spec_stop {X} (P : assertion) e (Q : X -> assertion) (E : assertion) : (forall f p, P f p -> E f p) -> spec P (stop e) Q E.
Proof. intros HE w Hp. by apply HE. Qed.

Lemma spec_pure {X} (P : assertion) (A : Prop) (m : R X) Q E :
  (A -> spec P m Q E) -> spec (fun f p => P f p /\ A) m Q E.
Proof. intros Hm w [Hp Ha]. by apply Hm. Qed.

(** Statements and connections leave the target alone. *)
Lemma spec_statement {X} (P : assertion) (f : Z -> restore_db -> res string X * restore_db) :
  spec P (statement other fault now f) (fun _ => P) P.
Proof.
  intros w Hp. unfold statement. destruct (match fault _ with Some e => _ | None => _ end) as [[x|e] d]; done.
Qed.

Lemma spec_query {X} (P : assertion) (f : restore_db -> X) : spec P (query other fault now f) (fun _ => P) P.
Proof. apply spec_statement. Qed.

Lemma spec_update (P : assertion) f : spec P (update (T := T) other fault now f) (fun _ => P) P.
Proof. apply spec_statement. Qed.

Lemma spec_checked (P : assertion) msg f : spec P (checked (T := T) other fault now msg f) (fun _ => P) P.
Proof. apply spec_statement. Qed.

Lemma spec_answered {X} (P : assertion) (f : nat -> X) : spec P (answered (T := T) f) (fun _ => P) P.
Proof. by intros w Hp. Qed.

Lemma spec_lift {X} (P : assertion) (r : res string X) : spec P (lift (T := T) r) (fun _ => P) P.
Proof. intros w Hp. by destruct r. Qed.

Lemma spec_connections (P : assertion) : spec P (connections (T := T) connect) (fun _ => P) P.
Proof. intros w Hp. unfold connections, answered, andthen. by destruct (cn_connect _ _). Qed.

Lemma spec_path (P : assertion) : spec P (target_path (T := T)) (fun x f p => P f p /\ x = p) P.
Proof. intros w Hp. by split. Qed.

Lemma spec_set_path (P : assertion) x : spec (fun f _ => P f x) (set_path (T := T) x) (fun _ => P) P.
Proof. intros w Hp. done. Qed.

Lemma spec_call {X} (P : assertion) (f : T -> res string X * T) Q E :
  (forall t p, P (files t) p -> match (f t).1 with
     | Ok x => Q x (files (f t).2) p
     | Err _ => E (files (f t).2) p
     end) -> spec P (call f) Q E.
Proof.
  intros Hf w Hp. unfold call, andthen, try_call, lift. specialize (Hf _ _ Hp).
  destruct (f (rw_target w)) as [[x|e] t]; done.
Qed.

Lemma spec_try {X} (P : assertion) (f : T -> X * T) Q E :
  (forall t p, P (files t) p -> Q (f t).1 (files (f t).2) p) -> spec P (try_call f) Q E.
Proof.
  intros Hf w Hp. unfold try_call. specialize (Hf _ _ Hp). destruct (f (rw_target w)) as [x t]. done.
Qed.

(** A call that only reads. *)
Lemma spec_quiet {X} (P : assertion) (f : T -> res string X * T) :
  (forall t, files (f t).2 = files t) -> spec P (call f) (fun _ => P) P.
Proof. intros Hf. apply spec_call. intros t p Hp. destruct (f t).1; by rewrite Hf. Qed.

Lemma spec_pre {X} (P P' : assertion) (m : R X) Q E :
  (forall f p, P f p -> P' f p) -> spec P' m Q E -> spec P m Q E.
Proof. intros HP Hm w Hp. by apply Hm, HP. Qed.

(** A step that keeps the assertion. *)
Lemma spec_step {X Y} (P : assertion) (m : R X) (k : X -> R Y) Q (E : assertion) :
  spec P m (fun _ => P) P -> (forall f p, P f p -> E f p) -> (forall x, spec P (k x) Q E) ->
  spec P (andthen m k) Q E.
Proof.
  intros Hm HE Hk. apply (spec_bind _ _ (fun _ => P)); [|done].
  intros w Hp. specialize (Hm w Hp). destruct (m w) as [[x|e] w1]; auto.
Qed.

(** The path is read. *)
Lemma spec_here {Y} (P : assertion) (k : string -> R Y) Q E :
  (forall p, spec (fun f q => P f q /\ q = p) (k p) Q E) -> spec P (andthen target_path k) Q E.
Proof. intros Hk w Hp. unfold andthen, target_path. by apply Hk. Qed.

(** The path is set. *)
Lemma spec_path_set {Y} (P : assertion) q (k : unit -> R Y) Q E :
  spec (fun f q' => q' = q /\ exists p, P f p) (k tt) Q E -> spec P (andthen (set_path q) k) Q E.
Proof. intros Hk w Hp. unfold andthen, set_path. apply Hk. cbn. eauto. Qed.

(** *** Before the first write *)

Definition calm (F : gmap string bytes) : assertion := fun f _ => f = F.
Definition poised (F : gmap string bytes) (p : string) : assertion := fun f q => f = F /\ q = p.
Definition free (F : gmap string bytes) (p : string) : Prop := forall q, within p q -> F !! q = None.

Context (F : gmap string bytes).

Lemma spec_set_item_path (P : assertion) p :
  spec P (set_item_path (T := T) other fault now itemID item p) (fun _ => P) P.
Proof. unfold set_item_path. destruct (ri_is_dir item); [apply spec_checked|apply spec_update]. Qed.

Lemma spec_reserve (P : assertion) p :
  spec P (reserve (T := T) other fault now itemID item p) (fun _ => P) P.
Proof. apply spec_statement. Qed.

Lemma spec_reserve_loop n suffix p :
  spec (calm F) (reserve_loop (T := T) other fault now itemID item n suffix p) (fun _ => calm F) (calm F).
Proof.
  revert suffix p. induction n as [|n IH]; intros suffix p; cbn [reserve_loop]; [by apply spec_stop|].
  apply spec_step; [apply spec_reserve|done|]. intros reserved. apply spec_here. intros current.
  apply (spec_pre _ (calm F)); [by intros f q []|].
  destruct reserved; [|apply IH]. destruct (String.eqb _ _); [by apply spec_yield|].
  apply spec_step; [apply spec_set_item_path|done|]. intros _. apply (spec_set_path (calm F)).
Qed.

Lemma spec_reservation :
  spec (calm F) (reserveRestoreTargetPath (T := T) other fault now itemID item) (fun _ => calm F) (calm F).
Proof. apply spec_here. intros p. apply (spec_pre _ (calm F)); [by intros f q []|]. apply spec_reserve_loop. Qed.

Lemma spec_sanitize provider :
  spec (calm F) (sanitize_path (T := T) other fault now itemID item provider) (fun _ => calm F) (calm F).
Proof.
  apply spec_here. intros p. apply (spec_pre _ (calm F)); [by intros f q []|].
  cbv zeta. destruct (Changed (SanitizeFilename (path_base p) provider)); [|by apply spec_yield].
  apply spec_step; [apply spec_set_item_path|done|]. intros _. apply (spec_set_path (calm F)).
Qed.

Lemma poised_calm p f q : poised F p f q -> calm F f q.
Proof. by intros []. Qed.

Lemma spec_move_reservation p q :
  spec (poised F p) (moveRestoreTargetReservation (T := T) other fault now itemID item q)
    (fun b => poised F (if b : bool then q else p)) (calm F).
Proof.
  apply spec_step; [apply spec_statement|apply poised_calm|]. intros []; [|by apply spec_yield].
  apply spec_step; [apply spec_set_item_path|apply poised_calm|]. intros _.
  apply spec_path_set, spec_yield. by intros f x (-> & p' & -> & _).
Qed.

(** Looking whether something is at [q]. *)
Lemma spec_exists p q :
  spec (poised F p) (call (rg_Exists target q)) (fun found f x => poised F p f x /\ (found.1 = false -> free F q)) (calm F).
Proof.
  apply spec_call. intros t x [<- ->]. pose proof (exists_quiet q t) as Hq.
  destruct (rg_Exists target q t).1 as [[b k]|] eqn:Er; [|done]. cbn. split; [by rewrite Hq|].
  intros ->. intros q'. by apply (exists_free _ t k).
Qed.

(** The path is the original or one where nothing is. *)
Lemma spec_rename_loop n suffix p :
  spec (poised F p) (rename_loop target other fault now itemID item n suffix p)
    (fun _ f q => f = F /\ (q = p \/ free F q)) (calm F).
Proof.
  revert suffix. induction n as [|n IH]; intros suffix; cbn [rename_loop].
  { apply spec_yield. intros f q []. by split; [|left]. }
  eapply spec_bind; [apply spec_exists|]. intros [b k]. apply spec_pure. cbn. intros Hfree.
  destruct b; [apply IH|]. eapply spec_bind; [apply spec_move_reservation|]. intros []; [|apply IH].
  apply spec_yield. intros f q [-> ->]. split; [done|]. right. by apply Hfree.
Qed.

Lemma spec_rename_item msg p :
  spec (poised F p) (rename_item target other fault now itemID item msg) (fun _ f q => f = F /\ free F q) (calm F).
Proof.
  apply spec_here. intros original. apply (spec_pre _ (fun f q => poised F p f q /\ original = p)).
  { by intros f q [[-> ->] ->]. }
  apply spec_pure. intros ->.
  eapply spec_bind; [apply spec_rename_loop|]. intros []. apply spec_here. intros current.
  destruct (String.eqb current p) eqn:E.
  - apply spec_stop. by intros f q [[-> _] _].
  - apply spec_yield. intros f q [[-> Hor] ->]. split; [done|]. apply String.eqb_neq in E. by destruct Hor.
Qed.

(** What a strategy does with what is at the path. *)
Definition settled_for (strategy : restore_strategy) (r : option bool) : assertion := fun f q =>
  f = F /\ match r with
           | None => strategy = RSkip
           | Some true => strategy = ROverwrite
           | Some false => free F q
           end.

Lemma spec_settle strategy :
  spec (calm F) (settle_conflict target other fault now itemID item strategy)
    (settled_for strategy) (calm F).
Proof.
  apply spec_here. intros p. apply (spec_pre _ (poised F p)); [done|].
  eapply spec_bind; [apply spec_exists|]. intros [b k]. apply spec_pure. cbn. intros Hfree. destruct b.
  2: { apply spec_yield. intros f q [-> ->]. split; [done|]. by apply Hfree. }
  apply spec_step; [apply spec_quiet, inspect_quiet|apply poised_calm|]. intros isDir. destruct strategy.
  - apply spec_step; [apply spec_update|apply poised_calm|]. intros _. apply spec_yield. by intros f q [-> _].
  - destruct isDir; [apply spec_stop; by intros f q []|]. apply spec_yield. by intros f q [-> _].
  - eapply spec_bind; [apply spec_rename_item|]. intros []. apply spec_yield. by intros f q [-> Hq].
Qed.

(** *** Paths that do not meet *)

Lemma within_beyond p s : s <> "" -> ~ within (p +:+ s) p.
Proof.
  intros Hs [E|[u E]]; apply (f_equal String.length) in E; rewrite ?str_length_app in E;
    destruct s; cbn in *; try done; lia.
Qed.

Lemma within_suffix p a s : Ascii.eqb a slash = false -> ~ within p (p +:+ String a s).
Proof.
  intros Ha [E|[u E]].
  - apply (f_equal String.length) in E. rewrite str_length_app in E. cbn in E. lia.
  - apply (f_equal (str_drop (String.length p))) in E. rewrite !str_drop_app in E. injection E as -> _.
    by rewrite Ascii.eqb_refl in Ha.
Qed.

Lemma staged_apart p : ~ within p (staged_path itemID p) /\ ~ within (backup_path itemID p) (staged_path itemID p)
  /\ ~ within (backup_path itemID p) p /\ ~ within (staged_path itemID p) p.
Proof.
  split_and!.
  - by apply within_suffix.
  - intros [E|[u E]]; [by apply (staged_not_backup itemID p)|]. apply (f_equal String.length) in E.
    unfold staged_path, backup_path in E. rewrite !str_length_app in E. cbn in E. lia.
  - by apply (within_beyond p (".clumoove-restore-backup-" +:+ shortRestoreID itemID)).
  - by apply (within_beyond p (".clumoove-restore-" +:+ shortRestoreID itemID)).
Qed.

(** *** The writes of a file *)

(** Everything but what is at or below [p] is as it was. *)
Definition only (F : gmap string bytes) (p : string) (f : gmap string bytes) : Prop :=
  forall q, ~ within p q -> f !! q = F !! q.

(** The content the item stands for. *)
Definition content (data : bytes) : Prop := zlen data = ri_size item /\ ri_sha256 item = Some (sha256 data).

(** Besides the path and the staged file only the backup path, when there is a file to
    replace, may have changed. *)
Definition kept (overwrite : bool) (p : string) (f : gmap string bytes) : Prop :=
  forall q, ~ within p q -> ~ within (staged_path itemID p) q ->
    (overwrite = true -> ~ within (backup_path itemID p) q) -> f !! q = F !! q.

Definition placed (f : gmap string bytes) (p : string) : Prop := exists data, f !! p = Some data /\ content data.

Lemma spec_discard p u :
  spec (fun f q => only F u f /\ q = p) (discard_upload target u) (fun _ f q => only F u f /\ q = p)
    (fun f q => only F u f /\ q = p).
Proof.
  unfold discard_upload. destruct (rg_AtomicRename target); [|by apply spec_yield].
  eapply (spec_bind _ _ (fun _ f q => only F u f /\ q = p)); [|intros x; by apply spec_yield].
  apply spec_try. intros t q [Ho ->]. split; [|done]. intros x Hx. rewrite delete_frame; auto.
Qed.

Lemma spec_transfer p u recipes expected :
  ri_sha256 item = Some expected ->
  spec (poised F p) (transfer sha256 target repository item recipes expected u)
    (fun _ f q => only F u f /\ placed f u /\ q = p) (fun f q => only F u f /\ q = p).
Proof.
  intros He. unfold transfer.
  apply (spec_bind _ _ (fun _ => poised F p)); [by intros w Hw|]. intros v.
  destruct (reconstruct sha256 item v recipes expected) as [stream e] eqn:Er.
  eapply (spec_bind _ _ (fun r f q => only F u f /\ q = p
    /\ (e = None -> zlen stream <= r.1 -> r.2 = Ok tt -> f !! u = Some stream))).
  { apply spec_try. intros t q [Hf ->]. split; [|split; [done|]].
    - intros x Hx. rewrite upload_frame, Hf; [done|]. intros ->. apply Hx. by left.
    - intros -> Hl Hr. cbn in *.
      destruct (rg_Upload target u stream true (ri_size item) t).1 as [k r] eqn:Eu. cbn in Hr, Hl. subst r.
      by eapply upload_stored. }
  intros [consumed uploaded]. cbn.
  destruct (pipe_outcome consumed stream e) as [e'|] eqn:Ep.
  { apply (spec_pre _ (fun f q => only F u f /\ q = p)); [by intros f q (? & ? & _)|].
    eapply spec_bind; [apply spec_discard|]. intros []. by apply spec_stop. }
  destruct uploaded as [[]|e''].
  2: { apply (spec_pre _ (fun f q => only F u f /\ q = p)); [by intros f q (? & ? & _)|].
    eapply spec_bind; [apply spec_discard|]. intros []. by apply spec_stop. }
  apply spec_yield. intros f q (Ho & -> & Hs). split_and!; try done.
  unfold pipe_outcome in Ep. destruct (consumed <? zlen stream) eqn:Ec; [done|]. subst e.
  exists stream. split; [apply Hs; [done|lia|done]|]. apply reconstructed in Er as [E1 E2].
  split; [done|]. by rewrite He, E2.
Qed.

Lemma only_kept b p f : only F (staged_path itemID p) f -> kept b p f.
Proof. intros Ho q _ H2 _. by apply Ho. Qed.

(** The staged file takes the place of the target. *)
Lemma spec_promote_staged p b :
  spec (fun f q => kept b p f /\ placed f (staged_path itemID p) /\ q = p)
    (run_prog target (promote_staged (staged_path itemID p) p (backup_path itemID p) b))
    (fun r f q => kept b p f /\ q = p /\ (r = Ok tt -> placed f p)) (fun f q => kept b p f /\ q = p).
Proof.
  destruct (staged_apart p) as (A1 & A2 & A3 & A4). unfold promote_staged. cbn [run_prog].
  eapply (spec_bind _ _ (fun r f q => kept b p f /\ q = p /\ (r = Ok tt -> placed f p))).
  { apply spec_try. intros t q (Hk & (data & Hd & Hc) & ->). split; [|split; [done|]].
    - intros x H1 H2 H3. rewrite rename_frame by done. by apply Hk.
    - intros Hr. exists data. split; [by apply rename_moved|done]. }
  intros [[]|e].
  - destruct b; [|apply spec_yield; naive_solver]. cbn [run_prog].
    eapply (spec_bind _ _ (fun r f q => kept true p f /\ q = p /\ placed f p)).
    { apply spec_try. intros t q (Hk & -> & Hp). split; [|split; [done|]].
      - intros x H1 H2 H3. rewrite delete_frame by auto. by apply Hk.
      - destruct (Hp eq_refl) as (data & Hd & Hc). exists data. by rewrite delete_frame. }
    intros r. apply spec_yield. naive_solver.
  - cbn [run_prog]. eapply (spec_bind _ _ (fun r f q => kept b p f /\ q = p)).
    { apply spec_try. intros t q (Hk & -> & _). split; [|done]. intros x H1 H2 H3. rewrite delete_frame by done. by apply Hk. }
    intros r. destruct b; [|by apply spec_yield; naive_solver]. cbn [run_prog].
    eapply (spec_bind _ _ (fun r f q => kept true p f /\ q = p)).
    { apply spec_try. intros t q (Hk & ->). split; [|done]. intros x H1 H2 H3. rewrite rename_frame by auto. by apply Hk. }
    intros r'. apply spec_yield. naive_solver.
Qed.

Lemma spec_promote p b :
  spec (fun f q => kept b p f /\ placed f (staged_path itemID p) /\ q = p)
    (run_prog target (promoteRestoreUpload (staged_path itemID p) p (backup_path itemID p) b))
    (fun r f q => kept b p f /\ q = p /\ (r = Ok tt -> placed f p)) (fun f q => kept b p f /\ q = p).
Proof.
  destruct (staged_apart p) as (A1 & A2 & A3 & A4).
  unfold promoteRestoreUpload. destruct b; [|apply spec_promote_staged].
  set (Pre := fun f q => kept true p f /\ placed f (staged_path itemID p) /\ q = p).
  assert (spec Pre (run_prog target (preserve_existing (staged_path itemID p) p (backup_path itemID p)))
    (fun r f q => kept true p f /\ q = p /\ (r = Ok tt -> placed f p)) (fun f q => kept true p f /\ q = p)) as Hpre.
  { unfold preserve_existing. cbn [run_prog]. eapply (spec_bind _ _ (fun _ => Pre)).
    - apply spec_try. intros t q (Hk & (data & Hd & Hc) & ->). split_and!; [| |done].
      + intros x H1 H2 H3. rewrite rename_frame by auto. by apply Hk.
      + exists data. by rewrite rename_frame.
    - intros [[]|e]; [apply spec_promote_staged|]. apply spec_yield. by intros f q (Hk & _ & ->). }
  cbn [run_prog]. eapply (spec_bind _ _ (fun _ => Pre)).
  { apply spec_try. intros t q Hp. by rewrite exists_quiet. }
  intros [[b k]|e]; [|apply spec_yield; by intros f q (Hk & _ & ->)]. cbn. destruct b; [|done]. cbn [run_prog].
  eapply (spec_bind _ _ (fun _ => Pre)); [|intros [[]|e]; [done|apply spec_yield; by intros f q (Hk & _ & ->)]].
  apply spec_try. intros t q (Hk & (data & Hd & Hc) & ->). split_and!; [| |done].
  - intros x H1 H2 H3. rewrite delete_frame by auto. by apply Hk.
  - exists data. by rewrite delete_frame.
Qed.

(** *** The whole item *)

(** Other paths are as they were; without OVERWRITE so is every file there was. *)
Definition touched (strategy : restore_strategy) (f : gmap string bytes) (p : string) : Prop :=
  (forall q, ~ within p q -> ~ within (staged_path itemID p) q -> ~ within (backup_path itemID p) q -> f !! q = F !! q)
  /\ (strategy <> ROverwrite -> forall q c, F !! q = Some c -> ~ within (staged_path itemID p) q -> f !! q = Some c).

Lemma calm_touched s f p : calm F f p -> touched s f p.
Proof. by intros ->. Qed.

Lemma poised_touched s p f q : poised F p f q -> touched s f q.
Proof. by intros [-> _]. Qed.

Lemma only_touched f p : only F p f -> touched ROverwrite f p.
Proof. intros Ho. split; [|done]. intros q H1 _ _. by apply Ho. Qed.

(** What is settled for a replacement, and what follows for the files. *)
Definition may_write (strategy : restore_strategy) (b : bool) (p : string) : Prop :=
  if b then strategy = ROverwrite else free F p.

Lemma kept_touched s b p f : may_write s b p -> kept b p f -> touched s f p.
Proof.
  intros Hm Hk. split; [intros q H1 H2 H3; by apply Hk|]. intros Hs q c Hc H2. destruct b; [done|].
  rewrite (Hk q); [done| |done|done]. intros Hq. by rewrite (Hm q Hq) in Hc.
Qed.

Lemma spec_create_directory s p :
  spec (fun f q => touched s f q /\ q = p) (create_directory target other fault now itemID item)
    (fun _ => touched s) (touched s).
Proof.
  apply spec_here. intros p'.
  apply (spec_pre _ (touched s)); [by intros f q [[? _] _]|].
  apply spec_step; [apply spec_quiet, parents_quiet|done|]. intros _.
  apply spec_step; [apply spec_quiet, directory_quiet|done|]. intros _. apply spec_checked.
Qed.

Lemma spec_restore_directory s :
  spec (calm F) (restoreDirectory target other fault now itemID item s) (fun _ => touched s) (touched s).
Proof.
  assert (forall p, spec (poised F p) (create_directory target other fault now itemID item) (fun _ => touched s) (touched s)) as Hcreate.
  { intros p. apply (spec_pre _ (fun f q => touched s f q /\ q = p)); [|apply spec_create_directory].
    intros f q [-> ->]. split; [by apply calm_touched|done]. }
  apply spec_here. intros p. apply (spec_pre _ (poised F p)); [done|].
  apply spec_step; [apply spec_quiet, exists_quiet|apply poised_touched|]. intros [b k]. cbn. destruct b; [|done].
  apply spec_step; [apply spec_quiet, inspect_quiet|apply poised_touched|]. intros isDir.
  destruct isDir.
  { eapply spec_weaken; [apply (spec_checked (poised F p))|done|intros ?; apply poised_touched|apply poised_touched]. }
  destruct s.
  - eapply spec_weaken; [apply (spec_update (poised F p))|done|intros ?; apply poised_touched|apply poised_touched].
  - eapply (spec_bind _ _ (fun _ f q => touched ROverwrite f q /\ q = p)); [|intros _; apply spec_create_directory].
    apply spec_call. intros t q [Hf ->]. assert (only F p (files (rg_Delete target p t).2)) as Ho
      by (intros x Hx; by rewrite delete_frame, Hf). apply only_touched in Ho.
    by destruct (rg_Delete target p t).1.
  - eapply (spec_bind _ _ (fun _ f q => f = F /\ free F q)).
    + eapply spec_weaken; [apply spec_rename_item|done|done|]. intros f q. apply calm_touched.
    + intros [] w [Hf _]. exact (Hcreate (rw_path w) w (conj Hf eq_refl)).
Qed.

Lemma spec_verify (P : assertion) expected : spec P (verify_target_file target item expected) (fun _ => P) P.
Proof.
  apply spec_here. intros p. apply (spec_pre _ P); [by intros f q []|].
  apply spec_step; [apply spec_try; intros t q Hp; by rewrite exists_quiet|done|].
  intros [[[] size]|e]; [|by apply spec_stop..]. destruct (negb _); [by apply spec_stop|].
  destruct (rg_CryptographicHash target); [|by apply spec_yield].
  apply spec_step; [apply spec_quiet, hash_quiet|done|]. intros h.
  destruct (ParseHashString _) as [algorithm actual].
  repeat (match goal with |- spec _ (if ?b then _ else _) _ _ => destruct b end); first [by apply spec_yield|by apply spec_stop].
Qed.

Lemma spec_metadata (P : assertion) : spec P (applyItemMetadata target other fault now itemID item) (fun _ => P) P.
Proof.
  unfold applyItemMetadata. destruct (ri_mtime item) as [m|]; [|by apply spec_yield].
  destruct (rg_Metadata target) as [apply|] eqn:Em; [|apply spec_update].
  apply spec_here. intros p. apply (spec_pre _ P); [by intros f q []|].
  apply spec_step; [apply spec_try; intros t q Hp; by rewrite (metadata_quiet apply)|done|].
  intros [[]|e]; [by apply spec_yield|apply spec_update].
Qed.

Lemma spec_content s b p :
  may_write s b p ->
  spec (poised F p) (restore_content sha256 target repository other fault now itemID item b)
    (fun _ f q => touched s f q /\ placed f q) (touched s).
Proof.
  intros Hm. apply spec_here. intros p'. apply (spec_pre _ (fun f q => poised F p f q /\ p' = p)).
  { by intros f q [[-> ->] ->]. }
  apply spec_pure. intros ->.
  apply spec_step; [apply spec_quiet, parents_quiet|apply poised_touched|]. intros _.
  apply spec_step; [apply spec_query|apply poised_touched|]. intros recipes.
  destruct (negb _); [apply spec_stop; apply poised_touched|].
  destruct (ri_sha256 item) as [expected|] eqn:Ee; [|apply spec_stop; apply poised_touched].
  destruct (negb _); [apply spec_stop; apply poised_touched|]. cbv zeta.
  assert (forall f q, kept b p f /\ q = p -> touched s f q) as Hk by (intros f q [H1 ->]; by eapply kept_touched).
  set (u := if rg_AtomicRename target then staged_path itemID p else p).
  assert (forall f, only F u f -> kept b p f) as Hu.
  { intros f Ho q H1 H2 _. apply Ho. unfold u. by destruct (rg_AtomicRename target). }
  apply (spec_bind _ _ (fun _ f q => only F u f /\ placed f u /\ q = p)).
  { eapply spec_weaken; [by apply spec_transfer|done|done|]. intros f q [H1 ->]. apply Hk. auto. }
  intros []. apply (spec_bind _ _ (fun r f q => kept b p f /\ q = p /\ (r = Ok tt -> placed f p))).
  - unfold u in *. destruct (rg_AtomicRename target).
    + eapply spec_weaken; [apply spec_promote| |done|exact Hk]. naive_solver.
    + apply spec_yield. naive_solver.
  - intros r. apply (spec_bind _ _ (fun _ f q => touched s f q /\ placed f q)).
    { intros w (H1 & H2 & H3). unfold lift. destruct r as [[]|e]; [|by apply Hk].
      split; [by apply Hk|]. rewrite H2. by apply H3. }
    intros []. apply spec_step; [apply spec_verify|by intros ? ? []|]. intros kind.
    apply spec_step; [apply spec_statement|by intros ? ? []|]. intros ok.
    eapply spec_weaken; [apply (spec_metadata (fun f q => touched s f q /\ placed f q))|done|done|by intros ? ? []].
Qed.

Definition restored (s : restore_strategy) : assertion := fun f q =>
  touched s f q /\ (ri_is_dir item = false -> placed f q \/ s = RSkip /\ f = F).

Lemma spec_token (P : assertion) provider credential :
  spec P (ensureFreshRestoreTargetOAuthToken other fault now connect item provider credential) (fun _ => P) P.
Proof.
  unfold ensureFreshRestoreTargetOAuthToken. destruct (negb _); [by apply spec_yield|]. cbv zeta.
  destruct (String.eqb _ ""); [by apply spec_stop|].
  apply spec_step; [apply spec_answered|done|]. intros t. destruct (match _ with Some e => _ | None => _ end); [by apply spec_yield|].
  apply spec_step; [apply spec_answered|done|]. intros refreshed.
  apply spec_step; [apply spec_lift|done|]. intros [[access rotated] expiresIn].
  apply spec_step; [apply spec_answered|done|]. intros t'. cbv zeta.
  apply spec_step; [apply spec_statement|done|]. intros []; [by apply spec_yield|].
  apply spec_step; [apply spec_query|done|]. intros latest. unfold adopted_token.
  destruct (latest ≫= tc_expires); [|by apply spec_stop]. destruct (String.eqb _ ""); [by apply spec_stop|by apply spec_yield].
Qed.

Lemma spec_open (P : assertion) provider credential :
  spec P (open_connections other fault now connect item provider credential) (fun _ => P) P.
Proof.
  apply spec_step; [apply spec_connections|done|]. intros _. destruct (_ && _); [by apply spec_stop|].
  apply spec_step; [apply spec_token|done|]. intros _.
  apply spec_step; [apply spec_connections|done|]. intros _.
  apply spec_step; [apply spec_answered|done|]. intros [session|]; [|by apply spec_yield].
  apply spec_step; [apply spec_lift|done|]. intros [sessionID masterKey]. apply spec_update.
Qed.

Lemma spec_loaded s provider :
  spec (calm F) (restore_loaded sha256 target repository other fault now itemID item s provider)
    (fun _ => restored s) (touched s).
Proof.
  apply spec_step; [apply spec_sanitize|apply calm_touched|]. intros _.
  apply spec_step; [apply spec_reservation|apply calm_touched|]. intros _.
  destruct (ri_is_dir item) eqn:Ed.
  - eapply spec_weaken; [apply spec_restore_directory|done| |done]. intros [] f q Ht. split; [done|].
    intros E. congruence.
  - eapply (spec_bind _ _ (settled_for s)).
    + eapply spec_weaken; [apply spec_settle|done|done|]. intros f q. apply calm_touched.
    + intros [b|]; [|apply spec_yield; intros f q [-> ->]; split; [done|]; intros _; by right].
      intros w [Hf Hb]. assert (may_write s b (rw_path w)) as Hm by (by destruct b).
      pose proof (spec_content s b (rw_path w) Hm w (conj Hf eq_refl)) as Hw.
      destruct (restore_content _ _ _ _ _ _ _ _ _ _) as [[[]|e] w']; [|done].
      destruct Hw as [Ht Hp]. split; [done|]. intros _. by left.
Qed.
End Restore.

(** C22: restoring an item, with any outcome, changes on the target nothing but the path
    it ends with and the staged and backup files beside it; and unless the strategy is
    OVERWRITE every file there was keeps its content.  When the restore of a file
    succeeds, the target holds at that path a file of the recorded size and digest, or
    the strategy is SKIP and nothing changed. *)
Theorem restore_item_exact `{UnicodeTables} sha256 {T} (target : restore_target T) `{!RestoreStore target}
    repository other fault now connect itemID item w r w' s provider credential :
  load_run item (other (rw_clock w) (rw_db w)) = Some (s, provider, credential) ->
  restoreItem sha256 target repository other fault now connect itemID item w = (r, w') ->
  let before := files (rw_target w) in
  let after := files (rw_target w') in
  let p := rw_path w' in
  (forall q, ~ within p q -> ~ within (staged_path itemID p) q -> ~ within (backup_path itemID p) q ->
     after !! q = before !! q)
  /\ (s <> ROverwrite -> forall q c, before !! q = Some c -> ~ within (staged_path itemID p) q -> after !! q = Some c)
  /\ (r = Ok tt -> ri_is_dir item = false ->
      (exists data, after !! p = Some data /\ zlen data = ri_size item /\ ri_sha256 item = Some (sha256 data))
      \/ s = RSkip /\ after = before).
Proof.
  intros Hl Hr. cbn zeta. unfold restoreItem, andthen at 1, query, statement in Hr. cbn beta in Hr.
  destruct (fault (rw_clock w)) as [e|].
  { injection Hr as <- <-. cbn. split_and!; done. }
  rewrite Hl in Hr. cbn in Hr.
  match type of Hr with ?m ?w1 = _ => assert (spec target (calm (files (rw_target w))) m
    (fun _ => restored sha256 itemID item (files (rw_target w)) s) (touched itemID (files (rw_target w)) s)) as Hs end.
  { apply spec_step; [apply spec_open|intros f q; apply calm_touched|]. intros _. by apply spec_loaded. }
  match type of Hr with ?m ?w1 = _ => specialize (Hs w1 eq_refl) end.
  unfold restored in Hs.
  match type of Hr with ?m = _ => change m with (r, w') in Hs || rewrite Hr in Hs end.
  destruct r as [[]|e].
  - destruct Hs as [[H1 H2] H3]. split_and!; done.
  - destruct Hs as [H1 H2]. split_and!; done.
Qed.

(** ** The claim ends *)

Section Claim.
Context `{UnicodeTables} (sha256 : bytes -> bytes).
Context {T : Type} (target : restore_target T) (repository : nat -> repository_view).
Context (other : nat -> restore_db -> restore_db) (fault : nat -> option string).
Context (now : nat -> Z) (connect : connector).

#[local] Existing Instance uni_case.

Abbreviation R := (@R T).

(** *** What a program does to the database *)

(** One transaction: of another worker, or one of [own]. *)
Inductive turn (own : restore_db -> restore_db -> Prop) (d d' : restore_db) : Prop :=
| turn_other n : d' = other n d -> turn own d d'
| turn_own : own d d' -> turn own d d'.

Section Steady.
Context (own : restore_db -> restore_db -> Prop).

(** Besides those of others, the program runs statements of [own] and nothing else. *)
Definition steady {X} (m : R X) : Prop := forall w, rtc (turn own) (rw_db w) (rw_db (m w).2).

Lemma turns_own d d' : rtc own d d' -> rtc (turn own) d d'.
Proof. induction 1 as [|d1 d2 d3 H1 _ IH]; [done|]. eapply rtc_l; [|exact IH]. by apply turn_own. Qed.

Lemma turns_other n d : rtc (turn own) d (other n d).
Proof. apply rtc_once. by eapply turn_other. Qed.

Lemma steady_bind {X Y} (m : R X) (k : X -> R Y) : steady m -> (forall x, steady (k x)) -> steady (andthen m k).
Proof.
  intros Hm Hk w. unfold andthen. specialize (Hm w). destruct (m w) as [[x|e] w1]; [|done].
  etrans; [exact Hm|apply Hk].
Qed.

Lemma steady_quiet {X} (m : R X) : (forall w, rw_db (m w).2 = rw_db w) -> steady m.
Proof. intros Hm w. rewrite Hm. apply rtc_refl. Qed.

Lemma steady_yield {X} (x : X) : steady (yield x).
Proof. by apply steady_quiet. Qed.

Lemma steady_stop {X} e : steady (stop (X := X) e).
Proof. by apply steady_quiet. Qed.

Lemma steady_path : steady target_path.
Proof. by apply steady_quiet. Qed.

Lemma steady_set_path p : steady (set_path p).
Proof. by apply steady_quiet. Qed.

Lemma steady_answered {X} (f : nat -> X) : steady (answered f).
Proof. by apply steady_quiet. Qed.

Lemma steady_try {X} (f : T -> X * T) : steady (try_call f).
Proof. apply steady_quiet. intros w. unfold try_call. by destruct (f _). Qed.

Lemma steady_lift {X} (r : res string X) : steady (lift r).
Proof. by apply steady_quiet. Qed.

Lemma steady_call {X} (f : T -> res string X * T) : steady (call f).
Proof. apply steady_bind; [apply steady_try|]. intros r. apply steady_lift. Qed.

Lemma steady_connections : steady (connections connect).
Proof. apply steady_bind; [apply steady_answered|]. intros [e|]; [apply steady_stop|apply steady_yield]. Qed.

Lemma steady_attempt {X} (m : R X) : steady m -> steady (attempt m).
Proof. intros Hm w. specialize (Hm w). unfold attempt. by destruct (m w). Qed.

Lemma steady_statement {X} (f : Z -> restore_db -> res string X * restore_db) :
  (forall n d, rtc own d (f n d).2) -> steady (statement other fault now f).
Proof.
  intros Hf w. unfold statement. destruct (fault _) as [e|]; cbn; [apply turns_other|].
  specialize (Hf (now (rw_clock w)) (other (rw_clock w) (rw_db w))).
  destruct (f _ _) as [r d]. cbn in *. etrans; [apply turns_other|by apply turns_own].
Qed.

Lemma steady_query {X} (f : restore_db -> X) : steady (query other fault now f).
Proof. apply steady_statement. intros. apply rtc_refl. Qed.

Lemma steady_update f : (forall n d, own d (f n d)) -> steady (update other fault now f).
Proof. intros Hf. apply steady_statement. intros n d. cbn. by apply rtc_once. Qed.

Lemma steady_checked msg f :
  (forall n d d', f n d = Some d' -> own d d') -> steady (checked other fault now msg f).
Proof.
  intros Hf. apply steady_statement. intros n d. destruct (f n d) eqn:E; cbn; [|apply rtc_refl].
  by eapply rtc_once, Hf.
Qed.

(** A statement given as the pair of an answer and a database. *)
Lemma steady_answer {X} (f : Z -> restore_db -> X * restore_db) :
  (forall n d, own d (f n d).2) ->
  steady (statement other fault now (fun n d => let '(x, d) := f n d in (Ok x, d))).
Proof. intros Hf. apply steady_statement. intros n d. specialize (Hf n d). destruct (f n d). cbn in *. by apply rtc_once. Qed.
End Steady.

Create HintDb steady discriminated.
Ltac steady :=
  repeat match goal with
  | |- steady _ (andthen _ _) => apply steady_bind; [|intros ?]
  | |- steady _ (yield _) => apply steady_yield
  | |- steady _ (stop _) => apply steady_stop
  | |- steady _ target_path => apply steady_path
  | |- steady _ (set_path _) => apply steady_set_path
  | |- steady _ (answered _) => apply steady_answered
  | |- steady _ (try_call _) => apply steady_try
  | |- steady _ (call _) => apply steady_call
  | |- steady _ (lift _) => apply steady_lift
  | |- steady _ (connections _) => apply steady_connections
  | |- steady _ (query _ _ _ _) => apply steady_query
  | |- steady _ (attempt _) => apply steady_attempt
  | |- steady _ (if ?b then _ else _) => destruct b
  | |- steady _ (match ?x with _ => _ end) => destruct x
  | |- steady _ (let _ := _ in _) => cbv zeta
  | _ => solve [eauto with steady nocore]
  end.

Section Item.
Context (itemID : string) (item : restore_item_row).

(** The statements of the work on an item: they name it, its run and the epoch of the
    claim. *)
Inductive item_statement : restore_db -> restore_db -> Prop :=
| own_tokens access refresh expires expected now d :
    item_statement d (UpdateRestoreRunOAuthTokens (ri_run item) access refresh expires expected now d).2
| own_session sessionID masterKey now d :
    item_statement d (UpdateRestoreRunMegaSessionContext (ri_run item) sessionID masterKey now d)
| own_set p now d :
    item_statement d (SetRestoreItemTargetPathContext itemID (ri_run item) p (is_epoch (ri_state item)) now d)
| own_set_directory p now d d' :
    SetRestoreDirectoryTargetPathContext itemID (ri_run item) (ri_path item) p (is_epoch (ri_state item)) now d = Some d' ->
    item_statement d d'
| own_reserve p d b d' : ReserveRestoreTargetPathContext (ri_run item) itemID p d = Some (b, d') -> item_statement d d'
| own_move p d : item_statement d (MoveRestoreTargetReservationContext (ri_run item) itemID p d).2
| own_skip code now d :
    item_statement d (SkipRestoreItemContext itemID (ri_run item) code (is_epoch (ri_state item)) now d)
| own_directory now d d' :
    CompleteRestoreDirectoryContext itemID (ri_run item) (is_epoch (ri_state item)) now d = Some d' -> item_statement d d'
| own_complete kind now d :
    item_statement d (CompleteRestoreItemContext itemID (ri_run item) (ri_size item) kind (is_epoch (ri_state item)) now d).2
| own_warn code now d :
    item_statement d (WarnRestoreItemContext itemID (ri_run item) code (is_epoch (ri_state item)) now d).

Lemma item_statement_step d d' : item_statement d d' -> restore_step d d'.
Proof.
  intros []; [apply do_tokens|apply do_session|apply do_set_target|by eapply do_set_directory_target|by eapply do_reserve
    |apply do_move|apply do_skip|by eapply do_complete_directory|apply do_complete_item|apply do_warn].
Qed.

Abbreviation steady := (steady item_statement).

Lemma steady_set_item_path p : steady (set_item_path other fault now itemID item p).
Proof.
  unfold set_item_path. destruct (ri_is_dir item).
  - apply steady_checked. intros n d d'. apply own_set_directory.
  - apply steady_update. intros n d. apply own_set.
Qed.

Lemma steady_reserve p : steady (reserve other fault now itemID item p).
Proof.
  apply steady_statement. intros n d. destruct (ReserveRestoreTargetPathContext _ _ _ _) as [[b d']|] eqn:E;
    [by eapply rtc_once, own_reserve|apply rtc_refl].
Qed.

Lemma steady_move p : steady (moveRestoreTargetReservation other fault now itemID item p).
Proof.
  unfold moveRestoreTargetReservation. apply steady_bind.
  { apply (steady_answer _ (fun _ d => MoveRestoreTargetReservationContext (ri_run item) itemID p d)).
    intros n d. apply own_move. }
  pose proof steady_set_item_path. intros []; steady.
Qed.

Lemma steady_reserve_loop n suffix p : steady (reserve_loop other fault now itemID item n suffix p).
Proof.
  revert suffix p. induction n as [|n IH]; intros suffix p; cbn [reserve_loop]; [steady|].
  pose proof steady_reserve. pose proof steady_set_item_path. steady.
Qed.

Lemma steady_reservation : steady (reserveRestoreTargetPath other fault now itemID item).
Proof. pose proof steady_reserve_loop. unfold reserveRestoreTargetPath. steady. Qed.

Lemma steady_sanitize provider : steady (sanitize_path other fault now itemID item provider).
Proof. pose proof steady_set_item_path. unfold sanitize_path. steady. Qed.

Lemma steady_rename_loop n suffix p : steady (rename_loop target other fault now itemID item n suffix p).
Proof.
  revert suffix. induction n as [|n IH]; intros suffix; cbn [rename_loop]; [steady|].
  pose proof steady_move. steady.
Qed.

Lemma steady_rename_item msg : steady (rename_item target other fault now itemID item msg).
Proof. pose proof steady_rename_loop. unfold rename_item. steady. Qed.

Lemma steady_skip c : steady (skip_item other fault now itemID item c).
Proof. apply steady_update. intros n d. apply own_skip. Qed.

Lemma steady_complete : steady (complete_directory other fault now itemID item).
Proof. apply steady_checked. intros n d d'. apply own_directory. Qed.

Lemma steady_warn c : steady (warn other fault now itemID item c).
Proof. apply steady_update. intros n d. apply own_warn. Qed.

Lemma steady_create_directory : steady (create_directory target other fault now itemID item).
Proof. pose proof steady_complete. unfold create_directory. steady. Qed.

Lemma steady_restore_directory s : steady (restoreDirectory target other fault now itemID item s).
Proof.
  pose proof steady_create_directory. pose proof steady_complete. pose proof steady_skip.
  pose proof steady_rename_item. unfold restoreDirectory. steady.
Qed.

Lemma steady_settle s : steady (settle_conflict target other fault now itemID item s).
Proof. pose proof steady_skip. pose proof steady_rename_item. unfold settle_conflict. steady. Qed.

Lemma steady_prog {A} (p : target_prog A) : steady (run_prog target p).
Proof. induction p as [a|path k IH|path k IH|old new k IH]; cbn [run_prog]; steady. Qed.

Lemma steady_transfer recipes expected u : steady (transfer sha256 target repository item recipes expected u).
Proof.
  unfold transfer, discard_upload. apply steady_bind; [by apply steady_quiet|]. intros v.
  destruct (reconstruct _ _ _ _ _) as [stream e]. apply steady_bind; [apply steady_try|].
  intros [consumed uploaded]. steady.
Qed.

Lemma steady_verify expected : steady (verify_target_file target item expected).
Proof. unfold verify_target_file. steady. Qed.

Lemma steady_metadata : steady (applyItemMetadata target other fault now itemID item).
Proof. pose proof steady_warn. unfold applyItemMetadata. steady. Qed.

Lemma steady_completion verification :
  steady (statement other fault now (fun now d =>
    let '(ok, d) := CompleteRestoreItemContext itemID (ri_run item) (ri_size item) verification (claimEpoch item) now d in
    (Ok ok, d))).
Proof.
  apply (steady_answer _ (fun now d => CompleteRestoreItemContext itemID (ri_run item) (ri_size item) verification (claimEpoch item) now d)).
  intros n d. apply own_complete.
Qed.

Lemma steady_content b : steady (restore_content sha256 target repository other fault now itemID item b).
Proof.
  pose proof steady_transfer. pose proof (@steady_prog (res string unit)). pose proof steady_verify. pose proof steady_completion.
  pose proof steady_metadata. unfold restore_content. steady.
Qed.

Lemma steady_store_token refresh : steady (store_token other fault now connect item refresh).
Proof.
  unfold store_token, adopted_token. apply steady_bind; [steady|]. intros refreshed. apply steady_bind; [steady|].
  intros [[access rotated] expiresIn]. apply steady_bind; [steady|]. intros t. apply steady_bind; [|intros ?; steady].
  apply (steady_answer _ (fun now d => UpdateRestoreRunOAuthTokens (ri_run item) access rotated
    (t + (if expiresIn <=? 0 then 3600 else expiresIn)) refresh now d)). intros n d. apply own_tokens.
Qed.

Lemma steady_session : steady (keep_session other fault now connect item).
Proof.
  unfold keep_session. apply steady_bind; [steady|]. intros [session|]; [|steady]. apply steady_bind; [steady|].
  intros [sessionID masterKey]. apply steady_update. intros n d. apply own_session.
Qed.

Lemma steady_open provider credential : steady (open_connections other fault now connect item provider credential).
Proof.
  pose proof steady_store_token. pose proof steady_session.
  unfold open_connections, ensureFreshRestoreTargetOAuthToken. steady.
Qed.

Lemma steady_loaded s provider :
  steady (restore_loaded sha256 target repository other fault now itemID item s provider).
Proof.
  pose proof steady_sanitize. pose proof steady_reservation. pose proof steady_restore_directory.
  pose proof steady_settle. pose proof steady_content. unfold restore_loaded. steady.
Qed.

Lemma steady_item : steady (restoreItem sha256 target repository other fault now connect itemID item).
Proof. pose proof steady_open. pose proof steady_loaded. unfold restoreItem. steady. Qed.

(** *** From a claim to its end *)

Abbreviation epoch := (claimEpoch item).

(** Other workers run statements, too. *)
Context (Hother : forall n d, rtc restore_step d (other n d)).

Lemma item_turns d d' : rtc (turn item_statement) d d' -> rtc restore_step d d'.
Proof.
  induction 1 as [|d1 d2 d3 H1 _ IH]; [done|]. etrans; [|exact IH].
  destruct H1 as [n ->|H1]; [apply Hother|by apply rtc_once, item_statement_step].
Qed.

(** The item is there, at the epoch of the claim or a later one. *)
Definition alive (d : restore_db) : Prop :=
  exists x, restore_items d !! itemID = Some x /\ ri_run x = ri_run item /\ epoch <= is_epoch (ri_state x).

Lemma alive_steps d d' : rtc restore_step d d' -> alive d -> alive d'.
Proof.
  induction 1 as [|d1 d2 d3 Hs Hr IH]; [done|]. intros (x & Hx & E & He). apply IH.
  destruct (restore_step_moves d1 d2 Hs itemID x Hx) as (x' & Hx' & E' & Hm). exists x'.
  split; [done|]. split; [congruence|]. destruct Hm as [[? _]|?]; lia.
Qed.

(** An end of the claim leaves it settled, whether it was still held or not. *)
Lemma fenced_settles f d :
  0 < epoch -> alive d -> (forall s, is_epoch (f s) = is_epoch s /\ is_status (f s) <> IRunning) ->
  settled itemID epoch (update_item itemID (claim_fence (ri_run item) [IRunning] epoch) (set_state f) d).2.
Proof.
  intros He (x & Hx & Er & Hep) Hf. destruct (claim_fence (ri_run item) [IRunning] epoch x) eqn:Ec.
  - apply (update_settles _ _ _ _ x); [done|done| |apply Hf]. cbn. rewrite (proj1 (Hf _)). by eapply fence_epoch.
  - rewrite update_item_miss by (intros y Hy; by simplify_eq). exists x. split; [done|]. cbn.
    unfold claim_fence, item_of in Ec. rewrite Er, String.eqb_refl in Ec. cbn in Ec.
    destruct (decide (is_epoch (ri_state x) = epoch)) as [E|]; [right|left; lia]. split; [done|].
    intros Hs%status_is_one. rewrite Hs in Ec. cbn in Ec. rewrite E, Z.eqb_refl, orb_true_r in Ec. done.
Qed.

(** If it succeeds the claim is over. *)
Definition ends {X} (m : R X) : Prop := forall w, alive (rw_db w) ->
  forall x w', m w = (Ok x, w') -> settled itemID epoch (rw_db w').

Lemma ends_bind {X Y} (m : R X) (k : X -> R Y) : steady m -> (forall x, ends (k x)) -> ends (andthen m k).
Proof.
  intros Hm Hk w Ha x w'. unfold andthen. specialize (Hm w). destruct (m w) as [[y|e] w1]; [|done].
  apply Hk. by eapply alive_steps, Ha; apply item_turns.
Qed.

Lemma ends_then {X Y} (m : R X) (k : X -> R Y) : ends m -> (forall x, steady (k x)) -> ends (andthen m k).
Proof.
  intros Hm Hk w Ha x w'. unfold andthen. specialize (Hm w Ha). destruct (m w) as [[y|e] w1]; [|done].
  intros E. specialize (Hk y w1). rewrite E in Hk. eapply settled_steps; [by apply item_turns|]. exact (Hm y w1 eq_refl).
Qed.

Lemma ends_stop {X} e : ends (stop (X := X) e).
Proof. by intros w _ x w'. Qed.

Lemma ends_statement {X} (f : Z -> restore_db -> res string X * restore_db) :
  (forall n d x, alive d -> (f n d).1 = Ok x -> settled itemID epoch (f n d).2) -> ends (statement other fault now f).
Proof.
  intros Hf w Ha x w'. unfold statement. destruct (fault _); [done|].
  specialize (Hf (now (rw_clock w)) (other (rw_clock w) (rw_db w))). destruct (f _ _) as [[y|e] d]; [|done].
  intros [= <- <-]. apply (Hf y); [|done]. eapply alive_steps; [apply Hother|exact Ha].
Qed.

Section Held.
Context (Hepoch : 0 < epoch).

Lemma ends_skip c : ends (skip_item other fault now itemID item c).
Proof. apply ends_statement. intros n d x Ha _. by apply fenced_settles. Qed.

Lemma ends_directory : ends (complete_directory other fault now itemID item).
Proof.
  apply ends_statement. intros n d [] Ha. unfold CompleteRestoreDirectoryContext.
  destruct (update_item _ _ _ _) as [[] d1] eqn:E; [|done]. intros _. cbn. apply items_kept in E as E1.
  unfold update_item, update_row in E. destruct (restore_items d !! itemID) as [x|] eqn:Hx; [|done].
  destruct (_ && _) eqn:Hp; [|done]. rewrite E1. apply andb_true_iff in Hp as Hp2.
  apply (update_settles _ _ _ _ x); [done|by rewrite Hp| |done].
  exact (fence_epoch (ri_run item) [IRunning] epoch x Hepoch (proj1 Hp2)).
Qed.

Lemma ends_completion size verification :
  ends (statement other fault now (fun now d =>
    let '(ok, d) := CompleteRestoreItemContext itemID (ri_run item) size verification epoch now d in (Ok ok, d))).
Proof.
  apply ends_statement. intros n d b Ha _. unfold CompleteRestoreItemContext.
  assert (settled itemID epoch (update_item itemID (claim_fence (ri_run item) [IRunning] epoch)
    (set_state (end_state ICompleted (Some verification) None n)) d).2) as Hs by by apply fenced_settles.
  destruct (update_item _ _ _ _) as [ok d1]. cbn in Hs. by destruct ok.
Qed.

Lemma ends_create_directory : ends (create_directory target other fault now itemID item).
Proof.
  unfold create_directory. apply ends_bind; [steady|]. intros p.
  apply ends_bind; [steady|]. intros []. apply ends_bind; [steady|]. intros []. apply ends_directory.
Qed.

Lemma ends_restore_directory s : ends (restoreDirectory target other fault now itemID item s).
Proof.
  pose proof ends_create_directory as Hc. pose proof ends_directory as Hd.
  unfold restoreDirectory. apply ends_bind; [steady|]. intros p. apply ends_bind; [steady|]. intros [b k].
  cbn. destruct b; [|done]. apply ends_bind; [steady|]. intros isDir. destruct isDir; [done|].
  destruct s; [apply ends_skip|apply ends_bind; [steady|done]|].
  apply ends_bind; [apply steady_rename_item|done].
Qed.

(** A conflict that is settled by skipping ends the claim. *)
Lemma ends_settle_skip s w w' :
  alive (rw_db w) -> settle_conflict target other fault now itemID item s w = (Ok None, w') ->
  settled itemID epoch (rw_db w').
Proof.
  assert (forall {X} (m : R X) (k : X -> R (option bool)) w w', steady m ->
    (forall x w1, alive (rw_db w1) -> k x w1 = (Ok None, w') -> settled itemID epoch (rw_db w')) ->
    alive (rw_db w) -> andthen m k w = (Ok None, w') -> settled itemID epoch (rw_db w')) as Hb.
  { intros X m k w0 w1 Hm Hk Ha. unfold andthen. specialize (Hm w0). destruct (m w0) as [[x|e] w2]; [|done].
    apply Hk. by eapply alive_steps, Ha; apply item_turns. }
  unfold settle_conflict. apply Hb; [steady|]. intros p w1. apply Hb; [steady|]. intros [b k] w2. cbn.
  destruct b; [|done]. apply Hb; [steady|]. intros isDir w3 Ha. destruct s.
  - intros E. eapply (ends_then (skip_item other fault now itemID item "RESTORE_TARGET_EXISTS") (fun _ => yield None));
      [apply ends_skip|intros []; apply steady_yield|exact Ha|exact E].
  - by destruct isDir.
  - unfold andthen. by destruct (rename_item _ _ _ _ _ _ _ _) as [[]].
Qed.

Lemma ends_content b : ends (restore_content sha256 target repository other fault now itemID item b).
Proof.
  unfold restore_content. apply ends_bind; [steady|]. intros p. apply ends_bind; [steady|]. intros [].
  apply ends_bind; [steady|]. intros recipes. destruct (negb _); [apply ends_stop|].
  destruct (ri_sha256 item) as [expected|]; [|apply ends_stop]. destruct (negb _); [apply ends_stop|]. cbv zeta.
  apply ends_bind; [apply steady_transfer|]. intros [].
  apply ends_bind; [destruct (rg_AtomicRename target); [apply steady_prog|apply steady_yield]|]. intros promoted.
  apply ends_bind; [steady|]. intros []. apply ends_bind; [apply steady_verify|]. intros kind.
  apply ends_then; [apply ends_completion|]. intros _. apply steady_metadata.
Qed.

Lemma ends_item : ends (restoreItem sha256 target repository other fault now connect itemID item).
Proof.
  unfold restoreItem. apply ends_bind; [steady|]. intros [[[s provider] credential]|]; [|apply ends_stop].
  apply ends_bind; [apply steady_open|]. intros []. unfold restore_loaded.
  apply ends_bind; [apply steady_sanitize|]. intros [].
  apply ends_bind; [apply steady_reservation|]. intros []. destruct (ri_is_dir item); [apply ends_restore_directory|].
  intros w Ha x w'. unfold andthen. pose proof (steady_settle s w) as Hs.
  destruct (settle_conflict _ _ _ _ _ _ s w) as [[[b|]|e] w1] eqn:E; [| |done].
  - apply ends_content. by eapply alive_steps, Ha; apply item_turns.
  - intros [= <- <-]. by eapply ends_settle_skip.
Qed.
End Held.
End Item.

(** *** The poll *)

Context (permanent_storage : string -> bool) (uuid : nat -> nat -> string) (workerID : string) (fuel : nat).

(** The statements of a poll that are about no claim. *)
Inductive upkeep : restore_db -> restore_db -> Prop :=
| up_recover now d : upkeep d (RecoverStaleRestoreItemsContext now d).2
| up_expire now d : upkeep d (ExpireRestorePreviewsContext now d)
| up_planning now d : upkeep d (RecoverStaleRestorePlanningContext now d)
| up_blocked now d : upkeep d (SkipBlockedRestoreItemsContext now d).2
| up_finalize now d n d' : FinalizeCompletedRestoreRunsContext now d = Some (n, d') -> upkeep d d'
| up_cancelling now d : upkeep d (FinalizeCancellingRestoreRunsContext now d).2
| up_no_preview now d d' : ClaimNextRestorePreviewForWorkerContext workerID now d = (None, d') -> upkeep d d'
| up_no_run now d d' : claim_run workerID now d = (Ok None, d') -> upkeep d d'
| up_no_item now d d' : ClaimNextRestoreItemForWorkerContext workerID now d = (None, d') -> upkeep d d'.

(** What the next statement of the worker leaves, after the transactions of others; a
    failing one has no effect. *)
Definition stored (f : Z -> restore_db -> restore_db) (w : restorer T) : restore_db :=
  let d := other (rw_clock w) (rw_db w) in
  match fault (rw_clock w) with Some _ => d | None => f (now (rw_clock w)) d end.

Definition preview_result (previewID : string) (p : preview_row) (outcome : res restore_failure RestorePreviewStats)
    (now : Z) (d : restore_db) : restore_db :=
  match outcome with
  | Ok stats => (CompleteRestorePreviewWithStatsFencedContext previewID (ls_generation (pv_lease p)) workerID stats now d).2
  | Err _ => FailRestorePreviewFencedContext previewID (ls_generation (pv_lease p)) workerID "RESTORE_PREVIEW_FAILED" now d
  end.

Definition item_failure (itemID : string) (x : restore_item_row) (e : restore_failure) (now : Z) (d : restore_db)
    : restore_db :=
  if isPermanentRestoreError permanent_storage e
  then FailRestoreItemContext itemID (ri_run x) (restore_code e) (is_epoch (ri_state x)) now d
  else (RetryRestoreItemContext itemID (ri_run x) (restore_code e) (is_epoch (ri_state x)) now d).2.

(** The plan, if the statement succeeds. *)
Definition planned (runID : string) (r : restore_run_row) (j : restore_job_row) (w : restorer T) : option restore_db :=
  match fault (rw_clock w) with
  | Some _ => None
  | None => PlanRestoreRunContext (rr_job r) j runID (rr_generation r) (uuid (rw_clock w)) (now (rw_clock w))
              (other (rw_clock w) (rw_db w))
  end.

(** What a poll makes of the database [d] in which it looks for work: nothing, or it
    claims a preview, a run or an item, works under that claim and records the outcome. *)
Inductive work (d : restore_db) : restore_db -> Prop :=
| work_none : work d d
| work_preview at_ previewID p w outcome w' :
    ClaimNextRestorePreviewForWorkerContext workerID at_ d = (Some (previewID, p), rw_db w) ->
    previewTarget target other fault now connect fuel p w = (outcome, w') ->
    rtc (turn (fun _ _ => False)) (rw_db w) (rw_db w') ->
    work d (stored (preview_result previewID p outcome) w')
| work_run at_ runID r j w d' :
    claim_run workerID at_ d = (Ok (Some (runID, r, j)), rw_db w) -> planned runID r j w = Some d' -> work d d'
| work_unplanned at_ runID r j w w' :
    claim_run workerID at_ d = (Ok (Some (runID, r, j)), rw_db w) -> planned runID r j w = None ->
    rw_db w' = other (rw_clock w) (rw_db w) ->
    work d (stored (fun now d => (FailRestoreRunPlanningContext (rr_job r) runID (rr_generation r)
                                    "RESTORE_PLANNING_FAILED" now d).2) w')
| work_item at_ itemID x w outcome w' :
    ClaimNextRestoreItemForWorkerContext workerID at_ d = (Some (itemID, x), rw_db w) -> rw_path w = ri_target x ->
    restoreItem sha256 target repository other fault now connect itemID x w = (outcome, w') ->
    rtc (turn (item_statement itemID x)) (rw_db w) (rw_db w') ->
    work d (match outcome with Ok _ => rw_db w' | Err e => stored (item_failure itemID x e) w' end).

Lemma steady_enumerate_loop own n queue visited result : steady own (enumerate_loop target n queue visited result).
Proof.
  revert queue visited result. induction n as [|n IH]; intros [|current queue] visited result;
    cbn [enumerate_loop]; steady.
Qed.

Lemma steady_preview own p : steady own (previewTarget target other fault now connect fuel p).
Proof.
  pose proof (steady_enumerate_loop own). unfold previewTarget, enumeratePreviewTargetTree. steady.
Qed.

Lemma stored_update f (w : restorer T) : rw_db (update other fault now f w).2 = stored f w.
Proof. unfold update, statement, stored. by destruct (fault _). Qed.

Lemma stored_answer {X} (f : Z -> restore_db -> X * restore_db) (w : restorer T) :
  rw_db (statement other fault now (fun n d => let '(x, d) := f n d in (Ok x, d)) w).2 = stored (fun n d => (f n d).2) w.
Proof. unfold statement, stored. destruct (fault _); [done|]. by destruct (f _ _). Qed.

(** What follows does not touch the database. *)
Lemma db_then {X Y} (m : R X) (k : X -> R Y) w : (forall x w, rw_db (k x w).2 = rw_db w) ->
  rw_db (andthen m k w).2 = rw_db (m w).2.
Proof. intros Hk. unfold andthen. destruct (m w) as [[x|e] w1]; [apply Hk|done]. Qed.

Lemma poll_preview_works at_ d previewID p w :
  ClaimNextRestorePreviewForWorkerContext workerID at_ d = (Some (previewID, p), rw_db w) ->
  work d (rw_db (poll_preview target other fault now connect workerID fuel previewID p w).2).
Proof.
  intros Hc. pose proof (steady_preview (fun _ _ => False) p w) as Hs.
  unfold poll_preview, attempt. unfold andthen at 1. cbv zeta.
  destruct (previewTarget _ _ _ _ _ _ p w) as [outcome w1] eqn:E. cbn [snd] in Hs.
  pose proof (work_preview d at_ previewID p w outcome w1 Hc E Hs) as Hw. destruct outcome as [stats|e]; rewrite db_then by done.
  - by rewrite (stored_answer (fun now d => CompleteRestorePreviewWithStatsFencedContext previewID
      (ls_generation (pv_lease p)) workerID stats now d)).
  - by rewrite stored_update.
Qed.

Lemma poll_run_works at_ d runID r j w :
  claim_run workerID at_ d = (Ok (Some (runID, r, j)), rw_db w) ->
  work d (rw_db (poll_run (T := T) other fault now uuid runID r j w).2).
Proof.
  intros Hc. pose proof (work_run d at_ runID r j w) as Hp. pose proof (work_unplanned d at_ runID r j w) as Hu.
  unfold poll_run. unfold andthen at 1. cbn beta iota. unfold andthen at 1, attempt, checked. unfold statement at 1.
  unfold planned in Hp, Hu. cbn [rw_clock rw_db] in *. destruct (fault (rw_clock w)) as [e|].
  2: destruct (PlanRestoreRunContext _ _ _ _ _ _ _) as [d'|]; [by apply Hp|].
  all: rewrite db_then by done;
    rewrite (stored_answer (fun now d => FailRestoreRunPlanningContext (rr_job r) runID (rr_generation r)
      "RESTORE_PLANNING_FAILED" now d)); by apply Hu.
Qed.

Lemma poll_item_works at_ d itemID x w :
  ClaimNextRestoreItemForWorkerContext workerID at_ d = (Some (itemID, x), rw_db w) ->
  work d (rw_db (poll_item sha256 target repository other fault now connect permanent_storage itemID x w).2).
Proof.
  intros Hc. unfold poll_item. unfold andthen at 1, set_path. cbn beta iota.
  set (w0 := mkRestorer _ _ _ _). change (rw_db w) with (rw_db w0) in Hc.
  pose proof (steady_item itemID x w0) as Hs. unfold attempt at 1. unfold andthen at 1.
  destruct (restoreItem _ _ _ _ _ _ _ _ _ w0) as [outcome w1] eqn:E. cbn [snd] in Hs.
  pose proof (work_item d at_ itemID x w0 outcome w1 Hc eq_refl E Hs) as Hw. destruct outcome as [[]|e]; [exact Hw|].
  rewrite db_then by done. unfold attempt.
  match goal with |- context [let '(r, w) := ?m in _] => replace (let '(r, w) := m in (Ok (E := restore_failure) r, w)).2 with m.2
    by (by destruct m) end.
  unfold stored, item_failure in Hw. destruct (isPermanentRestoreError permanent_storage e).
  - by rewrite stored_update.
  - rewrite db_then by done. by rewrite (stored_answer (fun now d => RetryRestoreItemContext itemID (ri_run x)
      (restore_code e) (is_epoch (ri_state x)) now d)).
Qed.

(** Upkeep, and then at most one piece of work. *)
Definition polls (m : R bool) : Prop := forall w, exists d, rtc (turn upkeep) (rw_db w) d /\ work d (rw_db (m w).2).

Lemma polls_steady m : steady upkeep m -> polls m.
Proof. intros Hm w. eexists. split; [apply Hm|apply work_none]. Qed.

Lemma polls_bind {X} (m : R X) k : steady upkeep m -> (forall x, polls (k x)) -> polls (andthen m k).
Proof.
  intros Hm Hk w. specialize (Hm w). unfold andthen. destruct (m w) as [[x|e] w1].
  - destruct (Hk x w1) as (d & Hd & Hw). exists d. split; [by etrans|done].
  - eexists. split; [exact Hm|apply work_none].
Qed.

Lemma polls_claim {X} (f : Z -> restore_db -> res string (option X) * restore_db) k :
  (forall n d, exists r d', f n d = (Ok r, d')) ->
  (forall n d d', f n d = (Ok None, d') -> upkeep d d') -> polls (k None) ->
  (forall n d x w, f n d = (Ok (Some x), rw_db w) -> work d (rw_db (k (Some x) w).2)) ->
  polls (andthen (statement other fault now f) k).
Proof.
  intros Htot Hnone Hk Hsome w. unfold andthen, statement.
  pose proof (turns_other upkeep (rw_clock w) (rw_db w)) as Ho. destruct (fault (rw_clock w)).
  { eexists. split; [exact Ho|apply work_none]. }
  destruct (Htot (now (rw_clock w)) (other (rw_clock w) (rw_db w))) as (r & d' & E). rewrite E. destruct r as [x|].
  - eexists. split; [exact Ho|]. by eapply Hsome.
  - destruct (Hk (mkRestorer d' (rw_target w) (S (rw_clock w)) (rw_path w))) as (d & Hd & Hw). exists d.
    split; [|exact Hw]. etrans; [exact Ho|]. eapply rtc_l; [|exact Hd]. by eapply turn_own, Hnone.
Qed.

Lemma steady_finalize : steady upkeep (poll_finalize (T := T) other fault now).
Proof.
  unfold poll_finalize. apply steady_bind; [|intros n; apply steady_bind; [|intros ?; steady]].
  - apply steady_statement. intros n d. destruct (FinalizeCompletedRestoreRunsContext n d) as [[k d']|] eqn:E;
      [by eapply rtc_once, up_finalize|apply rtc_refl].
  - apply (steady_answer _ (fun now d => FinalizeCancellingRestoreRunsContext now d)). intros k d. apply up_cancelling.
Qed.

Lemma poll_works :
  polls (PollOnce sha256 target repository other fault now connect permanent_storage uuid workerID fuel).
Proof.
  unfold PollOnce.
  apply polls_bind; [apply (steady_answer _ (fun now d => RecoverStaleRestoreItemsContext now d)); intros; apply up_recover|].
  intros recovered. destruct (0 <? recovered); [apply polls_steady; steady|].
  apply polls_bind; [apply steady_update; intros; apply up_expire|]. intros [].
  apply polls_bind; [apply steady_update; intros; apply up_planning|]. intros [].
  apply polls_claim.
  { intros n d. destruct (ClaimNextRestorePreviewForWorkerContext _ _ _). eauto. }
  { intros n d d'. destruct (ClaimNextRestorePreviewForWorkerContext _ _ _) as [r d1] eqn:E. intros [= -> ->]. by eapply up_no_preview. }
  2: { intros n d [previewID p] w. destruct (ClaimNextRestorePreviewForWorkerContext _ _ _) as [r d1] eqn:E.
       intros [= -> ->]. by eapply poll_preview_works. }
  apply polls_claim.
  { intros n d. unfold claim_run. destruct (ClaimNextQueuedRestoreRunForWorkerContext _ _ _) as [[[k r]|] d1]; [|eauto].
    destruct (restore_jobs d !! rr_job r); eauto. }
  { intros n d d' E. by eapply up_no_run. }
  2: { intros n d [[runID r] j] w E. by eapply poll_run_works. }
  apply polls_bind; [apply (steady_answer _ (fun now d => SkipBlockedRestoreItemsContext now d)); intros; apply up_blocked|].
  intros skipped. destruct (0 <? skipped); [apply polls_steady; steady|].
  apply polls_claim.
  { intros n d. destruct (ClaimNextRestoreItemForWorkerContext _ _ _). eauto. }
  { intros n d d'. destruct (ClaimNextRestoreItemForWorkerContext _ _ _) as [r d1] eqn:E. intros [= -> ->]. by eapply up_no_item. }
  2: { intros n d [itemID x] w. destruct (ClaimNextRestoreItemForWorkerContext _ _ _) as [r d1] eqn:E.
       intros [= -> ->]. by eapply poll_item_works. }
  apply polls_steady, steady_finalize.
Qed.

(** Other workers run statements, too. *)
Context (Hother : forall n d, rtc restore_step d (other n d)).

(** A program whose statements do not fail: the failure of an item is recorded. *)
Lemma poll_item_settled itemID item w :
  (forall n, fault n = None) -> 0 < is_epoch (ri_state item) -> alive itemID item (rw_db w) ->
  settled itemID (is_epoch (ri_state item))
    (rw_db (poll_item sha256 target repository other fault now connect permanent_storage itemID item w).2).
Proof.
  intros Hf He Ha. unfold poll_item, andthen, set_path, attempt. cbn beta iota.
  set (w1 := mkRestorer _ _ _ _).
  pose proof (steady_item itemID item w1) as Hs. pose proof (ends_item itemID item Hother He w1 Ha) as Hend.
  destruct (restoreItem _ _ _ _ _ _ _ _ _ w1) as [[[]|e] w2]; cbn in Hs; [exact (Hend tt w2 eq_refl)|].
  assert (alive itemID item (other (rw_clock w2) (rw_db w2))) as Ha2.
  { eapply alive_steps; [apply Hother|]. eapply alive_steps; [by eapply item_turns|exact Ha]. }
  destruct (isPermanentRestoreError permanent_storage e).
  - unfold update, statement. rewrite Hf. cbn. by apply (fenced_settles itemID item).
  - assert (settled itemID (claimEpoch item) (RetryRestoreItemContext itemID (ri_run item) (restore_code e)
      (claimEpoch item) (now (rw_clock w2)) (other (rw_clock w2) (rw_db w2))).2) as Hr.
    { apply (fenced_settles itemID item); [done|done|]. intros s. split; [done|]. cbn. by destruct (4 <=? _). }
    unfold statement. rewrite Hf. cbn. unfold claimEpoch in Hr.
    destruct (RetryRestoreItemContext _ _ _ _ _ _) as [ok d]. exact Hr.
Qed.
End Claim.

(** C24: whatever the target and the repository answer, whichever statements fail and
    whatever other workers do in between, a poll of the coordinator is upkeep followed by
    at most one piece of work, and each of its statements is one of these: it claims a
    preview, which it counts without a statement that changes anything and completes or
    fails as the count turned out; or it claims a run, which it plans or else fails; or
    it claims an item, changes the database only by the statements that name this item,
    its run and the epoch of the claim, and records a failure of the restore - as final
    if the error is permanent, as a retry otherwise. *)
Theorem poll_works_on_claim `{UnicodeTables} sha256 {T} (target : restore_target T) repository other fault now
    connect permanent_storage uuid workerID fuel w :
  exists d, rtc (turn other (upkeep workerID)) (rw_db w) d
    /\ work sha256 target repository other fault now connect permanent_storage uuid workerID fuel d
         (rw_db (PollOnce sha256 target repository other fault now connect permanent_storage uuid workerID fuel w).2).
Proof. apply poll_works. Qed.

(** C25: while its statements do not fail, the poll that works on a claimed item ends the
    claim, whatever happens on the target, in the repository and to the item meanwhile:
    afterwards the item is no longer RUNNING under that epoch. *)
Theorem poll_item_ends_claim `{UnicodeTables} sha256 {T} (target : restore_target T) repository other now
    connect permanent_storage d0 d worker at_ itemID x d1 w :
  restore_start d0 -> rtc system_step d0 d ->
  ClaimNextRestoreItemForWorkerContext worker at_ d = (Some (itemID, x), d1) ->
  rtc restore_step d1 (rw_db w) -> (forall n d, rtc restore_step d (other n d)) ->
  settled itemID (is_epoch (ri_state x))
    (rw_db (poll_item sha256 target repository other (fun _ => None) now connect permanent_storage itemID x w).2).
Proof.
  intros Hd Hr Hc Hs Ho. apply restore_reachable_wf in Hr; [|done].
  destruct (claimed_item worker at_ d itemID x d1 Hr Hc) as (Hx & He & _).
  apply poll_item_settled; [done|done|done|]. eapply alive_steps; [exact Hs|]. by exists x.
Qed.

(** ** A store of files *)

Definition at_or_below (p q : string) : bool := String.eqb q p || has_prefix q (p +:+ "/").

Lemma at_or_below_spec p q : at_or_below p q = true <-> within p q.
Proof.
  unfold at_or_below, within. rewrite orb_true_iff, String.eqb_eq. split.
  - intros [->|[t E]%has_prefix_true]; [by left|right]. exists t. by rewrite E, <- str_app_assoc.
  - intros [->|[t ->]]; [by left|right]. rewrite str_app_assoc. apply has_prefix_app.
Qed.

Definition file_store : restore_target (gmap string bytes) := {|
  rg_Exists p f := (Ok (existsb (fun '(q, _) => at_or_below p q) (map_to_list f),
                        match f !! p with Some c => zlen c | None => 0 end), f);
  rg_Inspect p f := (Ok (match f !! p with Some _ => false | None => true end), f);
  rg_Listing p f := (Ok [], f);
  rg_CreateParents p f := (Ok tt, f);
  rg_CreateDirectory p f := (Ok tt, f);
  rg_Upload p s complete n f :=
    if complete then ((zlen s, Ok tt), <[p := s]> f) else ((zlen s, Err "unexpected EOF"), f);
  rg_Rename a b f := match f !! a with
                     | Some c => (Ok tt, <[b := c]> (delete a f))
                     | None => (Err "not found", f)
                     end;
  rg_Delete p f := (Ok tt, delete p f);
  rg_Hash p f := (Ok None, f);
  rg_Metadata := None;
  rg_AtomicRename := true;
  rg_CryptographicHash := false;
|}.

#[export] Instance file_store_ok : RestoreStore file_store.
Proof.
  refine (Build_RestoreStore _ file_store id _ _ _ _ _ _ _ _ _ _ _ _ _); cbn; try done.
  - intros p f n q [= H _] Hq. destruct (f !! q) as [c|] eqn:Eq; [|done]. exfalso.
    apply not_true_iff_false in H. apply H, existsb_exists. exists (q, c). split; [|by apply at_or_below_spec].
    by apply list_elem_of_In, elem_of_map_to_list.
  - intros p f. destruct (f !! p); [by eexists|done].
  - intros p s b n f q Hq. destruct b; [|done]. cbn. by rewrite lookup_insert_ne.
  - intros p s n f k _ _. apply lookup_insert_eq.
  - intros p f q Hq. rewrite lookup_delete_ne; [done|]. intros ->. apply Hq. by left.
  - intros a b f q Ha Hb. destruct (f !! a); [|done]. cbn.
    rewrite lookup_insert_ne, lookup_delete_ne; [done|..]; intros ->; [apply Ha|apply Hb]; by left.
  - intros a b f c. destruct (f !! a); [|done]. intros _ [= ->]. apply lookup_insert_eq.
Defined.

Section Example.
#[local] Instance plain : UnicodeTables := {|
  uni_case := ascii_tables; uni_So := fun _ => false; uni_Mn := fun _ => false; uni_Cf := fun _ => false;
|}.

Definition ex_second : restore_db := (ClaimNextRestoreItemForWorkerContext "w" 9 ex_completed).2.
Definition ex_file : restore_item_row :=
  match ClaimNextRestoreItemForWorkerContext "w" 9 ex_completed with
  | (Some (_, x), _) => x
  | (None, _) => ex_claimed
  end.
Definition ex_repository (_ : nat) : repository_view :=
  mkRepository (fun _ => Err "not found") (Some (fun _ _ _ => Ok ([x61; x62; x63], None, None))).
Definition ex_connector : connector := mkConnector (fun _ => None) (fun _ => Err "offline") (fun _ => None).
Definition ex_sha (_ : bytes) : bytes := ex_digest x03.
Definition ex_before : restorer (gmap string bytes) := mkRestorer ex_second {[ "/out/d/f" := [x01] ]} 0 (ri_target ex_file).
Definition ex_restore : RestoreWorker.R (T := gmap string bytes) unit :=
  restoreItem ex_sha file_store ex_repository (fun _ d => d) (fun _ => None) (fun _ => 10) ex_connector "x2" ex_file.

Lemma ex_file_size : ri_size ex_file = 3.
Proof. vm_compute. reflexivity. Qed.
Lemma ex_file_digest : ri_sha256 ex_file = Some (ex_digest x03).
Proof. vm_compute. reflexivity. Qed.
Lemma ex_file_kind : ri_is_dir ex_file = false.
Proof. vm_compute. reflexivity. Qed.
Lemma ex_restored : let w' := (ex_restore ex_before).2 in ex_restore ex_before = (Ok tt, w').
Proof. vm_compute. reflexivity. Qed.
Lemma ex_restored_path : rw_path (ex_restore ex_before).2 = "/out/d/f (1)".
Proof. vm_compute. reflexivity. Qed.
Lemma ex_loaded : load_run ex_file ((fun (_ : nat) d => d) (rw_clock ex_before) (rw_db ex_before)) = Some (RRename, "local", None).
Proof. vm_compute. reflexivity. Qed.
Lemma restore_item_exact_witness :
  let after := rw_target (ex_restore ex_before).2 in
  after !! "/out/d/f" = Some [x01]
  /\ exists data, after !! "/out/d/f (1)" = Some data /\ zlen data = 3 /\ ex_sha data = ex_digest x03.
Proof.
  cbn zeta. pose proof ex_restored as Hr. pose proof ex_restored_path as Hp.
  pose proof ex_loaded as Hl.
  unfold ex_restore in Hr, Hp |- *. cbn zeta in Hr.
  pose proof (restore_item_exact ex_sha file_store ex_repository (fun _ d => d) (fun _ => None) (fun _ => 10) ex_connector
    "x2" ex_file ex_before (Ok tt) _ RRename "local" None Hl Hr) as Hw.
  set (w1 := (restoreItem ex_sha file_store ex_repository (fun _ d => d) (fun _ => None) (fun _ => 10)
    ex_connector "x2" ex_file ex_before).2) in *. clearbody w1. clear Hr.
  cbn zeta in Hw. destruct Hw as (_ & Hold & Hnew). rewrite Hp in Hold, Hnew.
  rewrite ex_file_size, ex_file_digest in Hnew. split.
  - refine (Hold _ "/out/d/f" [x01] _ _); [discriminate|exact eq_refl|].
    intros Hq%at_or_below_spec. vm_compute in Hq. discriminate.
  - destruct (Hnew eq_refl ex_file_kind) as [(data & Hd & Hz & Hs)|[Hs _]]; [|discriminate].
    exists data. split; [exact Hd|]. split; [exact Hz|]. congruence.
Defined.

Lemma ex_working_steps : rtc restore_step ex_working ex_working.
Proof. apply rtc_refl. Qed.

Lemma poll_item_ends_claim_witness :
  settled "x1" 1 (rw_db (poll_item ex_sha file_store ex_repository (fun _ d => d) (fun _ => None) (fun _ => 10)
    ex_connector (fun _ => false) "x1" ex_claimed (mkRestorer ex_working ∅ 0 "")).2).
Proof.
  pose proof ex_start_ok as Hs.
  assert (ClaimNextRestoreItemForWorkerContext "w" 7 ex_running = (Some ("x1", ex_claimed), ex_working)) as Hc
    by (vm_compute; reflexivity).
  exact (poll_item_ends_claim ex_sha file_store ex_repository (fun _ d => d) (fun _ => 10) ex_connector
    (fun _ => false) ex_start ex_running "w" 7 "x1" ex_claimed ex_working (mkRestorer ex_working ∅ 0 "")
    Hs ex_running_reachable Hc ex_working_steps (fun n d => rtc_refl restore_step d)).
Defined.
End Example.
