(* ===== verification/MigrationDb.v ===== *)
(** * The tables of migrations

    A migration copies the selected resources of one storage to another once:
    an indexer discovers them and inserts a task for each, workers carry the
    tasks out, a verifier compares checksums.  Rows of migrations, of their
    tasks, of indexing_errors and of notification_events
    (src/backend/internal/db/migrations.go, tasks.go, notifications.go,
    verification.go), with the row changes the statements share.  Tasks of sync
    jobs, in the same SQL table, are those of Database.v; the columns only they
    use are left out here. *)

From S2P Require Import Prelude Tables HashString SyncDelta SyncBaseline Database.

(** ** Rows *)

Inductive migration_status : Type :=
| MSCHEDULED | MINDEXING | MRUNNING | MVERIFYING | MPAUSED | MPAUSED_CONNECTION_LOSS
| MCOMPLETED | MCOMPLETED_WITH_ERRORS | MFAILED | MCANCELLED.

#[export] Instance migration_status_eq_dec : EqDecision migration_status.
Proof. solve_decision. Defined.

Definition isTerminalMigrationStatus (s : migration_status) : bool :=
  match s with MCOMPLETED | MCOMPLETED_WITH_ERRORS | MFAILED => true | _ => false end.

Inductive strategy : Type := SKIP | OVERWRITE | RENAME.

Record progress := mkProgress {
  mp_total_files : Z;
  mp_total_bytes : Z;
  mp_processed_files : Z;
  mp_processed_bytes : Z;
  mp_live_bytes : Z;
  mp_verified_files : Z;
  mp_skipped_files : Z;
  mp_failed_files : Z;
}.

Record discovery := mkDiscovery {
  dc_complete : bool;
  dc_generation : Z;
  dc_lease : option Z;
}.

Record verification := mkVerification { vf_generation : Z; vf_lease : option Z }.

(** A connection's OAuth columns, encrypted: access token, refresh token, expiry. *)
Record oauth_columns := mkOAuth { oa_access : string; oa_refresh : option string; oa_expires : option Z }.

(** What the creation of a migration fixes. *)
Record migration_spec := mkSpec {
  ms_user : option string;
  ms_source_provider : string;
  ms_target_provider : string;
  ms_target_dir : string;
  ms_strategy : strategy;
  ms_selected_paths : list string;
  ms_selected_calendars : list string;
  ms_selected_contacts : list string;
  ms_picker_session : string;
}.

Record migration_row := mkMigration {
  mg_spec : migration_spec;
  mg_source : oauth_columns;
  mg_target : oauth_columns;
  mg_status : migration_status;
  mg_progress : progress;
  mg_discovery : discovery;
  mg_verification : verification;
  mg_error : option string;
  mg_retry_done : bool;
  mg_notification : Z;
  mg_email_sent : bool;
  mg_threads : Z;
  mg_updated : Z;
}.

(** The part of a task's JSON metadata the modelled code reads: the action, other
    fields of the object, the time and the custom properties. *)
Record task_metadata := mkMetadata {
  md_action : string;
  md_fields : list (string * string);
  md_modified : option Z;
  md_custom : list (string * string);
}.

Definition directoryTaskMetadata : task_metadata := mkMetadata "mkdir" [] None [].
Definition is_mkdir (m : task_metadata) : bool := String.eqb (md_action m) "mkdir".

Record mtask_row := mkMTask {
  mt_migration : string;
  mt_resource : string;
  mt_path : string;
  mt_size : Z;
  mt_metadata : task_metadata;
  mt_created : Z;
  mt_resolved : option string;
  mt_status : task_status;
  mt_attempts : Z;
  mt_error : option string;
  mt_next_retry : option Z;
  mt_worker : option string;
  mt_epoch : Z;
  mt_source_hash : option string;
  mt_target_hash : option string;
  mt_verified : bool;
  mt_updated : Z;
}.

Record indexing_error := mkIndexingError {
  ie_migration : string;
  ie_resource : string;
  ie_path : string;
  ie_message : string;
}.

#[export] Instance strategy_eq_dec : EqDecision strategy.
Proof. solve_decision. Defined.
#[export] Instance task_metadata_eq_dec : EqDecision task_metadata.
Proof. solve_decision. Defined.
#[export] Instance mtask_row_eq_dec : EqDecision mtask_row.
Proof. solve_decision. Defined.
#[export] Instance indexing_error_eq_dec : EqDecision indexing_error.
Proof. solve_decision. Defined.

(** [notified] are the keys of notification_events, unique by migration and
    generation; [migration_schedules] the schedules of task type 'migration'. *)
Record migration_db := mkMigrationDb {
  migrations : gmap string migration_row;
  mtasks : gmap string mtask_row;
  indexing_errors : list indexing_error;
  notified : gset (string * Z);
  migration_schedules : gmap string schedule_row;
}.

Definition set_migrations f d :=
  mkMigrationDb (f (migrations d)) (mtasks d) (indexing_errors d) (notified d) (migration_schedules d).
Definition set_mtasks f d :=
  mkMigrationDb (migrations d) (f (mtasks d)) (indexing_errors d) (notified d) (migration_schedules d).
Definition set_indexing_errors f d :=
  mkMigrationDb (migrations d) (mtasks d) (f (indexing_errors d)) (notified d) (migration_schedules d).
Definition set_notified f d :=
  mkMigrationDb (migrations d) (mtasks d) (indexing_errors d) (f (notified d)) (migration_schedules d).
Definition set_migration_schedules f d :=
  mkMigrationDb (migrations d) (mtasks d) (indexing_errors d) (notified d) (f (migration_schedules d)).

(** ** Row changes *)

Definition with_status (s : migration_status) (err : option string) (m : migration_row) : migration_row :=
  mkMigration (mg_spec m) (mg_source m) (mg_target m) s (mg_progress m) (mg_discovery m)
    (mg_verification m) err (mg_retry_done m) (mg_notification m) (mg_email_sent m) (mg_threads m) (mg_updated m).

Definition with_progress (f : progress -> progress) (m : migration_row) : migration_row :=
  mkMigration (mg_spec m) (mg_source m) (mg_target m) (mg_status m) (f (mg_progress m)) (mg_discovery m)
    (mg_verification m) (mg_error m) (mg_retry_done m) (mg_notification m) (mg_email_sent m) (mg_threads m) (mg_updated m).

Definition with_discovery (f : discovery -> discovery) (m : migration_row) : migration_row :=
  mkMigration (mg_spec m) (mg_source m) (mg_target m) (mg_status m) (mg_progress m) (f (mg_discovery m))
    (mg_verification m) (mg_error m) (mg_retry_done m) (mg_notification m) (mg_email_sent m) (mg_threads m) (mg_updated m).

Definition with_verification (f : verification -> verification) (m : migration_row) : migration_row :=
  mkMigration (mg_spec m) (mg_source m) (mg_target m) (mg_status m) (mg_progress m) (mg_discovery m)
    (f (mg_verification m)) (mg_error m) (mg_retry_done m) (mg_notification m) (mg_email_sent m) (mg_threads m) (mg_updated m).

Definition with_retry_done (b : bool) (m : migration_row) : migration_row :=
  mkMigration (mg_spec m) (mg_source m) (mg_target m) (mg_status m) (mg_progress m) (mg_discovery m)
    (mg_verification m) (mg_error m) b (mg_notification m) (mg_email_sent m) (mg_threads m) (mg_updated m).

(** [notification_generation + 1] *)
Definition next_notification (m : migration_row) : migration_row :=
  mkMigration (mg_spec m) (mg_source m) (mg_target m) (mg_status m) (mg_progress m) (mg_discovery m)
    (mg_verification m) (mg_error m) (mg_retry_done m) (mg_notification m + 1) (mg_email_sent m) (mg_threads m) (mg_updated m).

Definition with_email (b : bool) (m : migration_row) : migration_row :=
  mkMigration (mg_spec m) (mg_source m) (mg_target m) (mg_status m) (mg_progress m) (mg_discovery m)
    (mg_verification m) (mg_error m) (mg_retry_done m) (mg_notification m) b (mg_threads m) (mg_updated m).

Definition with_threads (n : Z) (m : migration_row) : migration_row :=
  mkMigration (mg_spec m) (mg_source m) (mg_target m) (mg_status m) (mg_progress m) (mg_discovery m)
    (mg_verification m) (mg_error m) (mg_retry_done m) (mg_notification m) (mg_email_sent m) n (mg_updated m).

Definition with_oauth (source : bool) (o : oauth_columns) (m : migration_row) : migration_row :=
  mkMigration (mg_spec m) (if source then o else mg_source m) (if source then mg_target m else o) (mg_status m)
    (mg_progress m) (mg_discovery m) (mg_verification m) (mg_error m) (mg_retry_done m) (mg_notification m)
    (mg_email_sent m) (mg_threads m) (mg_updated m).

(** [updated_at = CURRENT_TIMESTAMP] *)
Definition at_time (now : Z) (m : migration_row) : migration_row :=
  mkMigration (mg_spec m) (mg_source m) (mg_target m) (mg_status m) (mg_progress m) (mg_discovery m)
    (mg_verification m) (mg_error m) (mg_retry_done m) (mg_notification m) (mg_email_sent m) (mg_threads m) now.

(** The columns of a task that its claim and its end write. *)
Record task_state := mkTaskState {
  ts_status : task_status;
  ts_attempts : Z;
  ts_error : option string;
  ts_next_retry : option Z;
  ts_worker : option string;
  ts_source_hash : option string;
  ts_target_hash : option string;
  ts_verified : bool;
}.

Definition state_of (t : mtask_row) : task_state :=
  mkTaskState (mt_status t) (mt_attempts t) (mt_error t) (mt_next_retry t) (mt_worker t)
    (mt_source_hash t) (mt_target_hash t) (mt_verified t).

Definition with_state (s : task_state) (now : Z) (t : mtask_row) : mtask_row :=
  mkMTask (mt_migration t) (mt_resource t) (mt_path t) (mt_size t) (mt_metadata t) (mt_created t) (mt_resolved t)
    (ts_status s) (ts_attempts s) (ts_error s) (ts_next_retry s) (ts_worker s) (mt_epoch t) (ts_source_hash s)
    (ts_target_hash s) (ts_verified s) now.

Definition with_epoch (e : Z) (t : mtask_row) : mtask_row :=
  mkMTask (mt_migration t) (mt_resource t) (mt_path t) (mt_size t) (mt_metadata t) (mt_created t) (mt_resolved t)
    (mt_status t) (mt_attempts t) (mt_error t) (mt_next_retry t) (mt_worker t) e (mt_source_hash t)
    (mt_target_hash t) (mt_verified t) (mt_updated t).

Definition with_resolved (p : string) (now : Z) (t : mtask_row) : mtask_row :=
  mkMTask (mt_migration t) (mt_resource t) (mt_path t) (mt_size t) (mt_metadata t) (mt_created t) (Some p)
    (mt_status t) (mt_attempts t) (mt_error t) (mt_next_retry t) (mt_worker t) (mt_epoch t) (mt_source_hash t)
    (mt_target_hash t) (mt_verified t) now.

Definition with_metadata (md : task_metadata) (now : Z) (t : mtask_row) : mtask_row :=
  mkMTask (mt_migration t) (mt_resource t) (mt_path t) (mt_size t) md (mt_created t) (mt_resolved t)
    (mt_status t) (mt_attempts t) (mt_error t) (mt_next_retry t) (mt_worker t) (mt_epoch t) (mt_source_hash t)
    (mt_target_hash t) (mt_verified t) now.

(** ** Guards *)

Definition mstatus_in (l : list migration_status) (m : migration_row) : bool := bool_decide (mg_status m ∈ l).
Definition tstatus_in (l : list task_status) (t : mtask_row) : bool := bool_decide (mt_status t ∈ l).
Definition of_migration (id : string) (t : mtask_row) : bool := String.eqb (mt_migration t) id.

(** [status = 'FAILED' AND next_retry_at IS NULL], and its opposite. *)
Definition failed_for_good (t : mtask_row) : bool :=
  tstatus_in [TFAILED] t && negb (bool_decide (is_Some (mt_next_retry t))).
Definition parked (t : mtask_row) : bool :=
  tstatus_in [TFAILED] t && bool_decide (is_Some (mt_next_retry t)).
(** Work a worker has yet to finish. *)
Definition active_task (t : mtask_row) : bool := tstatus_in [PENDING; TRUNNING] t || parked t.

Definition sum_where {R} (p : R -> bool) (f : R -> Z) (m : gmap string R) : Z :=
  foldr (fun '(_, r) acc => (if p r then f r else 0) + acc) 0 (map_to_list m).

(** ** One row, in a transaction *)

Definition update_migration (id : string) (p : migration_row -> bool) (f : migration_row -> migration_row)
    (d : migration_db) : bool * migration_db :=
  let '(ok, m) := update_row id p f (migrations d) in (ok, set_migrations (fun _ => m) d).

Definition update_mtask (id : string) (p : mtask_row -> bool) (f : mtask_row -> mtask_row) (d : migration_db)
    : bool * migration_db :=
  let '(ok, m) := update_row id p f (mtasks d) in (ok, set_mtasks (fun _ => m) d).

(** The event of a terminal migration, once per generation.  [None] is the
    error of a missing row or a row without owner. *)
Definition createMigrationNotificationEventTx (id : string) (d : migration_db) : option migration_db :=
  match migrations d !! id with
  | Some m =>
      match ms_user (mg_spec m) with
      | Some _ =>
          if isTerminalMigrationStatus (mg_status m)
          then Some (set_notified (fun n => {[ (id, mg_notification m) ]} ∪ n) d) else Some d
      | None => None
      end
  | None => None
  end.

(** A transaction whose last statement may fail: the state before it survives. *)
Definition commit {X} (x refused : X) (d : migration_db) (r : option migration_db) : X * migration_db :=
  match r with Some d' => (x, d') | None => (refused, d) end.
