(* ===== verification/MigrationOps.v ===== *)
(** * The life of a migration

    The statements of src/backend/internal/db/migrations.go and of
    db/tasks.go that move a migration as a whole, the handlers of
    src/backend/cmd/api/migration_handlers.go that call them and the recovery of
    src/backend/internal/scheduler/scheduler.go.  A discovery generation fences
    an indexer, a notification generation numbers the ends of a migration. *)

From S2P Require Import Prelude Tables HashString SyncDelta SyncBaseline Database MigrationDb.

(** ** Creation *)

Definition no_progress : progress := mkProgress 0 0 0 0 0 0 0 0.

Definition new_migration (spec : migration_spec) (source target : oauth_columns) (status : migration_status)
    (threads now : Z) : migration_row :=
  mkMigration spec source target status no_progress (mkDiscovery false 1 None) (mkVerification 0 None)
    None false 0 false threads now.

(** [id] is the generated key; the insertion of an existing one fails. *)
Definition CreateMigration (id : string) (m : migration_row) (d : migration_db) : bool * migration_db :=
  match migrations d !! id with
  | Some _ => (false, d)
  | None => (true, set_migrations (insert id m) d)
  end.

Definition CreateMigrationAndSchedule (id : string) (m : migration_row) (s : schedule_row) (d : migration_db)
    : bool * migration_db :=
  let '(ok, d1) := CreateMigration id m d in
  if ok then (true, set_migration_schedules (insert id s) d1) else (false, d).

(** ** Status changes *)

Definition notify_change (s : migration_status) (m : migration_row) : migration_row :=
  if isTerminalMigrationStatus (mg_status m) && negb (isTerminalMigrationStatus s) then next_notification m else m.

(** The statement has no guard; the event follows in the same transaction. *)
Definition UpdateMigrationStatus (id : string) (s : migration_status) (errMsg : option string) (now : Z)
    (d : migration_db) : bool * migration_db :=
  let '(_, d1) := update_migration id (fun _ => true)
    (fun m => at_time now (with_status s errMsg (notify_change s m))) d in
  if isTerminalMigrationStatus s
  then commit true false d (createMigrationNotificationEventTx id d1) else (true, d1).

Definition no_lease (c : discovery) : discovery := mkDiscovery (dc_complete c) (dc_generation c) None.

Definition PauseMigrationForConnectionLoss (id : string) (now : Z) (d : migration_db) : bool * migration_db :=
  update_migration id (mstatus_in [MRUNNING; MINDEXING])
    (fun m => at_time now (with_status MPAUSED_CONNECTION_LOSS None (with_discovery no_lease m))) d.

(** The suspension of an account (SuspendUser, src/backend/internal/db/users.go). *)
Definition SuspendUser (userID : string) (now : Z) (d : migration_db) : migration_db :=
  let of_user m := bool_decide (ms_user (mg_spec m) = Some userID) in
  set_migration_schedules (map_imap (fun id s => Some (match migrations d !! id with
      | Some m => if of_user m then mkSchedule false (next_run_at s) else s
      | None => s
      end)))
    (set_migrations (update_where (fun m => of_user m && mstatus_in [MRUNNING; MINDEXING] m)
      (fun m => at_time now (with_status MPAUSED (mg_error m) (with_discovery no_lease m)))) d).

Definition indexingLeaseDuration : Z := 20 * 60.

(** RUNNING when discovery is complete, otherwise a new attempt at it. *)
Definition continue_row (err : migration_row -> option string) (now : Z) (m : migration_row) : migration_row :=
  let c := mg_discovery m in
  at_time now
    (if dc_complete c
     then with_status MRUNNING (err m) (with_discovery no_lease m)
     else with_status MINDEXING (err m)
            (with_discovery (fun c => mkDiscovery false (dc_generation c + 1) (Some (now + indexingLeaseDuration))) m)).

Definition needs_discovery (id : string) (d : migration_db) : bool :=
  match migrations d !! id with Some m => negb (dc_complete (mg_discovery m)) | None => false end.

Definition RecoverConnectionLostMigration (id : string) (now : Z) (d : migration_db) : bool * bool * migration_db :=
  let '(ok, d1) := update_migration id (mstatus_in [MPAUSED_CONNECTION_LOSS]) (continue_row mg_error now) d in
  (ok, ok && needs_discovery id d1, d1).

Definition ResumeMigration (id : string) (now : Z) (d : migration_db) : bool * migration_db :=
  let '(ok, d1) := update_migration id (mstatus_in [MPAUSED; MPAUSED_CONNECTION_LOSS])
    (continue_row (fun _ => None) now) d in
  (ok && needs_discovery id d1, d1).

(** ** The indexer's claim *)

(** [status = 'INDEXING' AND ($g = 0 OR discovery_generation = $g)] *)
Definition indexing_claim (generation : Z) (m : migration_row) : bool :=
  mstatus_in [MINDEXING] m && ((generation =? 0) || (dc_generation (mg_discovery m) =? generation)).

Definition FailMigrationWhileIndexingClaim (id : string) (generation : Z) (errMsg : option string) (now : Z)
    (d : migration_db) : bool * migration_db :=
  let '(ok, d1) := update_migration id (indexing_claim generation)
    (fun m => at_time now (next_notification (with_status MFAILED errMsg (with_discovery no_lease m)))) d in
  if ok then commit true false d (createMigrationNotificationEventTx id d1) else (false, d).

Definition FailMigrationWhileIndexing (id : string) := FailMigrationWhileIndexingClaim id 0.

(** [indexing_lease_until IS NULL OR indexing_lease_until <= NOW()] *)
Definition lease_over (now : Z) (m : migration_row) : bool :=
  match dc_lease (mg_discovery m) with None => true | Some l => l <=? now end.

Definition FailStaleIndexingMigration (id : string) (errMsg : option string) (now : Z) (d : migration_db)
    : bool * migration_db :=
  let '(ok, d1) := update_migration id (fun m => mstatus_in [MINDEXING] m && lease_over now m)
    (fun m => at_time now (next_notification (with_status MFAILED errMsg m))) d in
  if ok then commit true false d (createMigrationNotificationEventTx id d1) else (false, d).

Definition ClaimScheduledMigrationForIndexing (id : string) (now : Z) (d : migration_db) : bool * migration_db :=
  update_migration id (mstatus_in [MSCHEDULED])
    (fun m => at_time now (with_status MINDEXING None (with_discovery
       (fun c => mkDiscovery false (dc_generation c + 1) (Some (now + indexingLeaseDuration))) m))) d.

Definition RenewMigrationIndexingLease (id : string) (generation duration now : Z) (d : migration_db)
    : bool * migration_db :=
  update_migration id (fun m => mstatus_in [MINDEXING] m && (dc_generation (mg_discovery m) =? generation))
    (with_discovery (fun c => mkDiscovery (dc_complete c) (dc_generation c) (Some (now + duration)))) d.

(** [false] is ErrMigrationIndexingClaimLost. *)
Definition TransitionMigrationIndexingToRunningClaim (id : string) (generation now : Z) (d : migration_db)
    : bool * migration_db :=
  update_migration id (indexing_claim generation)
    (fun m => at_time now (with_status MRUNNING (mg_error m) (with_retry_done false
       (with_discovery (fun c => mkDiscovery true (dc_generation c) None) m)))) d.

Definition TransitionMigrationIndexingToCompletedClaim (id : string) (generation now : Z) (d : migration_db)
    : bool * migration_db :=
  let '(ok, d1) := update_migration id (indexing_claim generation)
    (fun m => at_time now (next_notification (with_status MCOMPLETED (mg_error m)
       (with_discovery (fun c => mkDiscovery true (dc_generation c) (dc_lease c)) m)))) d in
  if ok then commit true false d (createMigrationNotificationEventTx id d1) else (false, d).

(** ** The indexer's tasks *)

Record task_input := mkInput {
  in_resource : string;
  in_path : string;
  in_size : Z;
  in_hash : option string;
  in_metadata : task_metadata;
}.

Definition new_mtask (migrationID : string) (t : task_input) (now : Z) : mtask_row :=
  mkMTask migrationID (in_resource t) (in_path t) (in_size t) (in_metadata t) now None PENDING 0 None None None 0
    (in_hash t) None false now.

(** The rows of one INSERT, with their generated keys: an existing key fails it. *)
Fixpoint insert_tasks (l : list (string * mtask_row)) (m : gmap string mtask_row) : option (gmap string mtask_row) :=
  match l with
  | [] => Some m
  | (k, t) :: l => match m !! k with Some _ => None | None => insert_tasks l (<[k := t]> m) end
  end.

Definition has_claim (id : string) (p : migration_row -> bool) (d : migration_db) : bool :=
  match migrations d !! id with Some m => p m | None => false end.

Definition CreateMigrationTaskWhileIndexingClaim (id : string) (generation : Z) (key : string) (t : task_input)
    (now : Z) (d : migration_db) : bool * migration_db :=
  if has_claim id (indexing_claim generation) d
  then match insert_tasks [(key, new_mtask id t now)] (mtasks d) with
       | Some m => (true, set_mtasks (fun _ => m) d)
       | None => (false, d)
       end
  else (false, d).

(** The batches of one call share a transaction: all of its rows or none. *)
Definition BulkCreateMigrationTasksWhileIndexingClaim (id : string) (generation : Z)
    (ts : list (string * task_input)) (now : Z) (d : migration_db) : bool * migration_db :=
  match ts with
  | [] => (true, d)
  | _ => if has_claim id (fun m => mstatus_in [MINDEXING] m && (dc_generation (mg_discovery m) =? generation)) d
         then match insert_tasks (map (fun '(k, t) => (k, new_mtask id t now)) ts) (mtasks d) with
              | Some m => (true, set_mtasks (fun _ => m) d)
              | None => (false, d)
              end
         else (false, d)
  end.

Definition UpdateMigrationTotalsWhileIndexingClaim (id : string) (generation totalFiles totalBytes now : Z)
    (d : migration_db) : bool * migration_db :=
  update_migration id (fun m => mstatus_in [MINDEXING] m && (dc_generation (mg_discovery m) =? generation))
    (fun m => at_time now (with_progress (fun p => mkProgress totalFiles totalBytes (mp_processed_files p)
       (mp_processed_bytes p) (mp_live_bytes p) (mp_verified_files p) (mp_skipped_files p) (mp_failed_files p)) m)) d.

(** What a restarted traversal skips: a directory's task has a key of its own. *)
Definition resourceIndexKey (resourceType filePath : string) : string := resourceType +:+ ":" +:+ filePath.
Definition directory_key (resourceType filePath : string) : string := "dir:" +:+ resourceIndexKey resourceType filePath.

Definition task_key (t : mtask_row) : string :=
  if is_mkdir (mt_metadata t) then directory_key (mt_resource t) (mt_path t)
  else resourceIndexKey (mt_resource t) (mt_path t).

Definition tasks_of (id : string) (d : migration_db) : list mtask_row :=
  map snd (map_to_list (filter (fun '(_, t) => of_migration id t = true) (mtasks d))).

Definition MigrationIndexedTaskKeys (id : string) (d : migration_db) : gset string :=
  list_to_set (map task_key (tasks_of id d)).

Definition MigrationTaskTotals (id : string) (d : migration_db) : Z * Z :=
  (count_where (of_migration id) (mtasks d), sum_where (of_migration id) mt_size (mtasks d)).

Definition RecordIndexingErrors (id : string) (errors : list (string * string * string)) (d : migration_db)
    : migration_db :=
  set_indexing_errors (fun l => l ++ map (fun '(resource, path, msg) =>
    mkIndexingError id (if String.eqb resource "" then "files" else resource) path msg) errors) d.

(** ** Progress *)

Definition UpdateMigrationThreads (id : string) (threads now : Z) (d : migration_db) : migration_db :=
  (update_migration id (fun _ => true) (fun m => at_time now (with_threads threads m)) d).2.

Definition AddLiveBytes (id : string) (bytesDelta now : Z) (d : migration_db) : migration_db :=
  (update_migration id (fun _ => true) (fun m => at_time now (with_progress (fun p =>
     mkProgress (mp_total_files p) (mp_total_bytes p) (mp_processed_files p) (mp_processed_bytes p)
       (mp_live_bytes p + bytesDelta) (mp_verified_files p) (mp_skipped_files p) (mp_failed_files p)) m)) d).2.

Definition ResetLiveBytes (id : string) (now : Z) (d : migration_db) : migration_db :=
  (update_migration id (fun _ => true) (fun m => at_time now (with_progress (fun p =>
     mkProgress (mp_total_files p) (mp_total_bytes p) (mp_processed_files p) (mp_processed_bytes p)
       (mp_processed_bytes p) (mp_verified_files p) (mp_skipped_files p) (mp_failed_files p)) m)) d).2.
