(* ===== verification/MigrationTasks.v ===== *)
(** * The tasks of a migration

    The queue (src/backend/internal/queue/queue.go), a worker's fenced writes and
    the ends of tasks (db/tasks.go), the verifier's (db/verification.go), the
    retries and recoveries of src/backend/internal/processor/schedulers.go, the
    reconciliation of a migration with its tasks (db/migrations.go) and the
    handlers of src/backend/cmd/api/migration_handlers.go. *)

From S2P Require Import Prelude Tables HashString SyncDelta SyncBaseline Database MigrationDb MigrationOps.

(** ** The queue *)

Record migration_payload := mkMPayload { mpl_task : string; mpl_migration : string; mpl_epoch : Z }.

Definition running_tasks (id : string) (d : migration_db) : Z :=
  count_where (fun t => of_migration id t && tstatus_in [TRUNNING] t) (mtasks d).

(** The parent accepts another claim. *)
Definition has_capacity (id : string) (d : migration_db) : bool :=
  has_claim id (fun m => mstatus_in [MRUNNING; MINDEXING] m && (running_tasks id d <? mg_threads m)) d.

Definition claim_mtask (workerID : string) (now : Z) (t : mtask_row) : mtask_row :=
  with_epoch (mt_epoch t + 1) (with_state (mkTaskState TRUNNING (mt_attempts t) (mt_error t) (mt_next_retry t)
    (Some workerID) (mt_source_hash t) (mt_target_hash t) (mt_verified t)) now t).

(** [pick] is the row the candidate query returned: an older pending task that
    no other worker had locked.  The parent is tested again under its lock. *)
Definition DequeueSQL (workerID : string) (pick : option string) (now : Z) (d : migration_db)
    : option migration_payload * migration_db :=
  match pick with
  | None => (None, d)
  | Some k =>
      match mtasks d !! k with
      | Some t =>
          if tstatus_in [PENDING] t && has_capacity (mt_migration t) d
          then (Some (mkMPayload k (mt_migration t) (mt_epoch t + 1)),
                set_mtasks (insert k (claim_mtask workerID now t)) d)
          else (None, d)
      | None => (None, d)
      end
  end.

Definition minutes (n : Z) : Z := 60 * n.

(** PENDING again, without a worker. *)
Definition released_task (now : Z) (t : mtask_row) : mtask_row :=
  with_state (mkTaskState PENDING (mt_attempts t) (mt_error t) (mt_next_retry t) None (mt_source_hash t)
    (mt_target_hash t) (mt_verified t)) now t.

Definition RecoverAbandonedTasks (workerID : string) (now : Z) (d : migration_db) : migration_db :=
  set_mtasks (update_where (fun t => tstatus_in [TRUNNING] t && bool_decide (mt_worker t = Some workerID)
    && (mt_updated t <? now - minutes 2)) (released_task now)) d.

Definition requeueOrphanedRunningTasks (now : Z) (d : migration_db) : migration_db :=
  set_mtasks (update_where (fun t => tstatus_in [TRUNNING] t && (mt_updated t <? now - minutes 10)
    && has_claim (mt_migration t) (mstatus_in [MRUNNING; MINDEXING]) d) (released_task now)) d.

(** The statement does not touch updated_at. *)
Definition requeueFailedTasks (now : Z) (d : migration_db) : migration_db :=
  set_mtasks (update_where (fun t => tstatus_in [TFAILED] t
      && match mt_next_retry t with Some r => r <=? now | None => false end
      && has_claim (mt_migration t) (mstatus_in [MRUNNING; MINDEXING; MVERIFYING]) d)
    (fun t => with_state (mkTaskState PENDING (mt_attempts t) (mt_error t) None (mt_worker t) (mt_source_hash t)
       (mt_target_hash t) false) (mt_updated t) t)) d.

(** ** The worker's writes *)

Definition holds_mclaim (epoch : Z) (t : mtask_row) : bool :=
  tstatus_in [TRUNNING] t && (mt_epoch t =? epoch).

(** [s] is what the worker's copy of the task says. *)
Definition UpdateClaimedTaskStatus (taskID : string) (epoch : Z) (s : task_state) (now : Z) (d : migration_db)
    : bool * migration_db :=
  update_mtask taskID (holds_mclaim epoch) (with_state s now) d.

Definition HeartbeatTaskClaim (taskID : string) (epoch now : Z) (d : migration_db) : bool * migration_db :=
  update_mtask taskID (holds_mclaim epoch) (fun t => with_state (state_of t) now t) d.

Definition TransitionClaimedTask (taskID : string) (epoch : Z) (s : task_status) (now : Z) (d : migration_db)
    : bool * migration_db :=
  update_mtask taskID (holds_mclaim epoch)
    (fun t => with_state (mkTaskState s (mt_attempts t) (mt_error t) (mt_next_retry t) None (mt_source_hash t)
       (mt_target_hash t) (mt_verified t)) now t) d.

Definition UpdateClaimedTaskResolvedTargetPath (taskID : string) (epoch : Z) (targetPath : string) (now : Z)
    (d : migration_db) : bool * migration_db :=
  update_mtask taskID (holds_mclaim epoch) (with_resolved targetPath now) d.

Definition UpdateClaimedTaskMetadata (taskID : string) (epoch : Z) (md : task_metadata) (now : Z)
    (d : migration_db) : bool * migration_db :=
  update_mtask taskID (holds_mclaim epoch) (with_metadata md now) d.

(** The end of a task with the migration's counters, in one transaction. *)
Definition UpdateMigrationTaskAndProgress (taskID migrationID : string) (epoch : Z) (s : task_state)
    (filesDelta bytesDelta skippedDelta failedDelta liveBytesDelta now : Z) (d : migration_db) : bool * migration_db :=
  let '(ok, d1) := update_mtask taskID (fun t => of_migration migrationID t && holds_mclaim epoch t)
    (with_state s now) d in
  if negb ok then (false, d)
  else
    let '(counted, d2) := update_migration migrationID (fun _ => true)
      (fun m => at_time now (with_progress (fun p => mkProgress (mp_total_files p) (mp_total_bytes p)
         (mp_processed_files p + filesDelta) (mp_processed_bytes p + bytesDelta)
         (mp_live_bytes p + bytesDelta + liveBytesDelta) (mp_verified_files p + b2z (ts_verified s))
         (mp_skipped_files p + skippedDelta) (mp_failed_files p + failedDelta)) m)) d1 in
    if counted then (true, d2) else (false, d).

Definition cancelled (now : Z) (t : mtask_row) : mtask_row :=
  with_state (mkTaskState CANCELLED (mt_attempts t) (mt_error t) (mt_next_retry t) (mt_worker t) (mt_source_hash t)
    (mt_target_hash t) (mt_verified t)) now t.

Definition CancelPendingTasks (id : string) (now : Z) (d : migration_db) : migration_db :=
  set_mtasks (update_where (fun t => of_migration id t && tstatus_in [PENDING] t) (cancelled now)) d.

(** ** Tasks and their migration *)

Definition done_status (s : list task_status) (id : string) (t : mtask_row) : bool :=
  of_migration id t && tstatus_in s t.

Definition count_status (s : list task_status) (id : string) (d : migration_db) : Z :=
  count_where (done_status s id) (mtasks d).

Definition done_bytes (id : string) (d : migration_db) : Z :=
  sum_where (done_status [COMPLETED] id) mt_size (mtasks d).

(** The failed task, every open one, the counters, the status and the event.
    A migration that is no longer active keeps everything. *)
Definition FailMigrationForAuthentication (taskID migrationID : string) (epoch : Z) (errMsg : string) (now : Z)
    (d : migration_db) : bool * migration_db :=
  let '(ok, d1) := update_mtask taskID (fun t => of_migration migrationID t && holds_mclaim epoch t)
    (fun t => with_state (mkTaskState TFAILED (mt_attempts t) (Some errMsg) None (mt_worker t) (mt_source_hash t)
       (mt_target_hash t) (mt_verified t)) now t) d in
  if negb ok then (false, d)
  else
    let d2 := set_mtasks (update_where (fun t => of_migration migrationID t && tstatus_in [PENDING; TRUNNING] t)
      (fun t => with_state (mkTaskState CANCELLED (mt_attempts t) (mt_error t) None (mt_worker t) (mt_source_hash t)
         (mt_target_hash t) (mt_verified t)) now t)) d1 in
    let '(failed, d3) := update_migration migrationID (mstatus_in [MRUNNING; MINDEXING])
      (fun m => at_time now (with_status MFAILED (Some errMsg) (next_notification (with_progress (fun p =>
         mkProgress (mp_total_files p) (mp_total_bytes p)
           (count_status [COMPLETED; SKIPPED; TFAILED; CANCELLED] migrationID d2) (done_bytes migrationID d2)
           (done_bytes migrationID d2) (mp_verified_files p) (count_status [SKIPPED] migrationID d2)
           (count_status [TFAILED; CANCELLED] migrationID d2)) m)))) d2 in
    if failed then commit true false d (createMigrationNotificationEventTx migrationID d3) else (false, d).

(** PENDING as at first. *)
Definition reset_task (verified : mtask_row -> bool) (now : Z) (t : mtask_row) : mtask_row :=
  with_state (mkTaskState PENDING 0 None None None (mt_source_hash t) (mt_target_hash t) (verified t)) now t.

Definition ResetFailedTasksForRetry (id : string) (now : Z) (d : migration_db) : Z * migration_db :=
  let count := count_status [TFAILED; CANCELLED] id d in
  let bytesSum := sum_where (done_status [TFAILED; CANCELLED] id) mt_size (mtasks d) in
  if count =? 0 then (0, d)
  else
    let d1 := set_mtasks (update_where (done_status [TFAILED; CANCELLED] id) (reset_task mt_verified now)) d in
    let '(ok, d2) := update_migration id (mstatus_in [MCOMPLETED; MFAILED; MCOMPLETED_WITH_ERRORS])
      (fun m => at_time now (with_status MRUNNING None (with_retry_done false (next_notification
         (with_progress (fun p => mkProgress (mp_total_files p) (mp_total_bytes p)
            (Z.max 0 (mp_processed_files p - count)) (Z.max 0 (mp_processed_bytes p - bytesSum))
            (Z.max 0 (mp_processed_bytes p - bytesSum)) (mp_verified_files p) (mp_skipped_files p)
            (Z.max 0 (mp_failed_files p - count))) m))))) d1 in
    if ok then (count, d2) else (0, d).

Definition ResetMigrationForReindex (id : string) (now : Z) (d : migration_db) : migration_db :=
  let d1 := set_mtasks (filter (fun '(_, t) => of_migration id t = false)) d in
  let d2 := set_indexing_errors (filter (fun e => String.eqb (ie_migration e) id = false)) d1 in
  (update_migration id (fun _ => true)
    (fun m => at_time now (with_status MINDEXING None (with_email false (next_notification
       (with_discovery (fun c => mkDiscovery false (dc_generation c + 1) (dc_lease c))
       (with_progress (fun p => mkProgress 0 0 0 0 0 (mp_verified_files p) 0 0) m)))))) d2).2.

(** The final retry, once per discovery. *)
Definition final_retry_due (id : string) (d : migration_db) (m : migration_row) : bool :=
  mstatus_in [MRUNNING] m && negb (mg_retry_done m)
  && any_row (fun t => of_migration id t && failed_for_good t) (mtasks d)
  && negb (any_row (fun t => of_migration id t && active_task t) (mtasks d)).

Definition MaybeRetryFailedMigrationTasks (id : string) (now : Z) (d : migration_db) : bool * migration_db :=
  let '(ok, d1) := update_migration id (final_retry_due id d) (fun m => at_time now (with_retry_done true m)) d in
  if ok then (true, set_mtasks (update_where (fun t => of_migration id t && failed_for_good t)
                (reset_task (fun _ => false) now)) d1)
  else (false, d).

Definition count_unverified (verified : bool) (id : string) (d : migration_db) : Z :=
  count_where (fun t => done_status [COMPLETED] id t && Bool.eqb (mt_verified t) verified) (mtasks d).

Definition active_files (id : string) (d : migration_db) : Z :=
  count_where (fun t => of_migration id t && active_task t) (mtasks d).

Definition error_count (id : string) (d : migration_db) : Z :=
  Z.of_nat (length (filter (fun e => String.eqb (ie_migration e) id = true) (indexing_errors d))).

Definition reconciled_status (id : string) (d : migration_db) (m : migration_row) : migration_status :=
  if mstatus_in [MCANCELLED; MPAUSED; MPAUSED_CONNECTION_LOSS; MCOMPLETED; MCOMPLETED_WITH_ERRORS; MFAILED] m
  then mg_status m
  else if mstatus_in [MINDEXING] m && negb (dc_complete (mg_discovery m)) then MINDEXING
  else if 0 <? active_files id d then MRUNNING
  else if 0 <? count_unverified false id d then MVERIFYING
  else if 0 <? count_status [TFAILED; CANCELLED] id d + error_count id d then MCOMPLETED_WITH_ERRORS
  else MCOMPLETED.

Definition reconciled (id : string) (now : Z) (d : migration_db) (m : migration_row) : migration_row :=
  let ends := mstatus_in [MRUNNING; MVERIFYING] m && (active_files id d =? 0) && (count_unverified false id d =? 0) in
  let m1 := with_progress (fun p => mkProgress (mp_total_files p) (mp_total_bytes p)
      (count_status [COMPLETED; SKIPPED; TFAILED; CANCELLED] id d) (done_bytes id d) (done_bytes id d)
      (count_unverified true id d) (count_status [SKIPPED] id d) (count_status [TFAILED; CANCELLED] id d))
    (if ends then next_notification m else m) in
  at_time now (with_status (reconciled_status id d m) (mg_error m) m1).

Definition holds_verification (generation now : Z) (m : migration_row) : bool :=
  mstatus_in [MVERIFYING] m && (vf_generation (mg_verification m) =? generation)
  && match vf_lease (mg_verification m) with Some l => now <? l | None => false end.

(** [None] as generation is the caller without a verification claim. *)
Definition reconcileMigrationProgress (id : string) (generation : option Z) (now : Z) (d : migration_db)
    : bool * migration_db :=
  let '(ok, d1) := update_migration id
    (fun m => match generation with None => true | Some g => holds_verification g now m end)
    (reconciled id now d) d in
  if ok then
    if has_claim id (fun m => isTerminalMigrationStatus (mg_status m)) d1
    then commit true false d (createMigrationNotificationEventTx id d1) else (true, d1)
  else (false, d).

Definition ReconcileMigrationProgress (id : string) (now : Z) (d : migration_db) : migration_db :=
  (reconcileMigrationProgress id None now d).2.

Definition ReconcileMigrationProgressWhileVerifying (id : string) (generation : Z) :=
  reconcileMigrationProgress id (Some generation).

Definition reconcile_one (id : string) (now : Z) (d : migration_db) : migration_db :=
  ReconcileMigrationProgress id now (MaybeRetryFailedMigrationTasks id now d).2.

(** ** Verification *)

Definition ClaimMigrationVerification (id : string) (now : Z) (d : migration_db) : option Z * migration_db :=
  let '(ok, d1) := update_migration id
    (fun m => mstatus_in [MVERIFYING] m
       && match vf_lease (mg_verification m) with None => true | Some l => l <=? now end)
    (fun m => at_time now (with_verification
       (fun v => mkVerification (vf_generation v + 1) (Some (now + minutes 2))) m)) d in
  (if ok then (fun m => vf_generation (mg_verification m)) <$> migrations d1 !! id else None, d1).

Definition RenewMigrationVerificationLease (id : string) (generation now : Z) (d : migration_db) : bool * migration_db :=
  update_migration id (holds_verification generation now)
    (fun m => at_time now (with_verification (fun v => mkVerification (vf_generation v) (Some (now + minutes 2))) m)) d.

Definition ReleaseMigrationVerificationLease (id : string) (generation now : Z) (d : migration_db) : migration_db :=
  (update_migration id (fun m => mstatus_in [MVERIFYING] m && (vf_generation (mg_verification m) =? generation))
    (fun m => at_time now (with_verification (fun v => mkVerification (vf_generation v) None) m)) d).2.

Definition unverified_under (generation now : Z) (d : migration_db) (t : mtask_row) : bool :=
  tstatus_in [COMPLETED] t && negb (mt_verified t) && has_claim (mt_migration t) (holds_verification generation now) d.

Definition keep_hash (targetHash : string) (t : mtask_row) : option string :=
  if String.eqb targetHash "" then mt_target_hash t else Some targetHash.

Definition MarkMigrationTaskChecksumVerifiedWhileVerifying (taskID targetHash : string) (generation now : Z)
    (d : migration_db) : bool * migration_db :=
  match mtasks d !! taskID with
  | Some t =>
      let '(ok, d1) := update_mtask taskID (unverified_under generation now d)
        (fun t => with_state (mkTaskState (mt_status t) (mt_attempts t) (mt_error t) (mt_next_retry t) (mt_worker t)
           (mt_source_hash t) (keep_hash targetHash t) true) now t) d in
      if ok then update_migration (mt_migration t) (fun _ => true)
        (fun m => at_time now (with_progress (fun p => mkProgress (mp_total_files p) (mp_total_bytes p)
           (mp_processed_files p) (mp_processed_bytes p) (mp_live_bytes p) (mp_verified_files p + 1)
           (mp_skipped_files p) (mp_failed_files p)) m)) d1
      else (false, d)
  | None => (false, d)
  end.

(** A mismatch with a retry time puts the migration back to RUNNING. *)
Definition MarkMigrationTaskChecksumMismatchWhileVerifying (taskID : string) (errMsg : option string)
    (retry : option Z) (targetHash : option string) (generation now : Z) (d : migration_db) : bool * migration_db :=
  match mtasks d !! taskID with
  | Some t =>
      let '(ok, d1) := update_mtask taskID (unverified_under generation now d)
        (fun t => with_state (mkTaskState TFAILED (mt_attempts t) errMsg retry (mt_worker t) (mt_source_hash t)
           targetHash false) now t) d in
      if ok then update_migration (mt_migration t) (fun _ => true)
        (fun m => at_time now (with_status (match retry with Some _ => MRUNNING | None => mg_status m end) (mg_error m) m)) d1
      else (false, d)
  | None => (false, d)
  end.

(** ** Tokens, deletion, notifications *)

Definition oauth_of (source : bool) (m : migration_row) : oauth_columns :=
  if source then mg_source m else mg_target m.

(** Compare and set on the encrypted refresh token; [false] is ErrOAuthTokenConflict. *)
Definition UpdateMigrationOAuthTokens (id : string) (source : bool) (o : oauth_columns) (expected : string) (now : Z)
    (d : migration_db) : bool * migration_db :=
  if String.eqb expected "" then (false, d)
  else update_migration id (fun m => bool_decide (oa_refresh (oauth_of source m) = Some expected))
    (fun m => at_time now (with_oauth source o m)) d.

Definition UpdateMigrationOAuthTokensForReauth (id : string) (source : bool) (o : oauth_columns) (now : Z)
    (d : migration_db) : migration_db :=
  (update_migration id (fun _ => true) (fun m => at_time now (with_oauth source o m)) d).2.

(** The tasks, errors and events of a deleted migration go with it. *)
Definition forget_migrations (gone : string -> bool) (d : migration_db) : migration_db :=
  mkMigrationDb (filter (fun '(k, _) => gone k = false) (migrations d))
    (filter (fun '(_, t) => gone (mt_migration t) = false) (mtasks d))
    (filter (fun e => gone (ie_migration e) = false) (indexing_errors d))
    (filter (fun '(k, _) => gone k = false) (notified d))
    (migration_schedules d).

Definition DeleteMigrationCascade (id : string) (d : migration_db) : migration_db :=
  forget_migrations (String.eqb id) (set_migration_schedules (delete id) d).

Definition days (n : Z) : Z := n * 24 * 60 * 60.

Definition DeleteOldMigrations (now : Z) (d : migration_db) : migration_db :=
  forget_migrations (fun k => has_claim k (fun m =>
    mstatus_in [MCOMPLETED; MFAILED; MCANCELLED; MCOMPLETED_WITH_ERRORS] m && (mg_updated m <? now - days 30)) d) d.

Definition CreateMigrationNotificationEvent (id : string) (d : migration_db) : bool * migration_db :=
  commit true false d (createMigrationNotificationEventTx id d).

(** A terminal migration without the event of its generation. *)
Definition missing_event (d : migration_db) (id : string) : bool :=
  has_claim id (fun m => isTerminalMigrationStatus (mg_status m)
    && negb (bool_decide ((id, mg_notification m) ∈ notified d))) d.

Fixpoint repair_loop (ids : list string) (n : Z) (d : migration_db) : Z * migration_db :=
  match ids with
  | [] => (n, d)
  | id :: ids =>
      let '(ok, d1) := CreateMigrationNotificationEvent id d in
      if ok then repair_loop ids (n + 1) d1 else (0, d1)
  end.

(** [picked]: the first [limit] rows by age. *)
Definition RepairMissingMigrationNotificationEvents (picked : list string -> list string) (d : migration_db)
    : Z * migration_db :=
  repair_loop (picked (filter (fun k => missing_event d k = true) (map fst (map_to_list (migrations d))))) 0 d.

(** ** Recovery of lost indexers *)

Definition recoverScheduledMigrations (recoveryMsg : string) (now : Z) (d : migration_db) : migration_db :=
  let lost := fun k => has_claim k (fun m => mstatus_in [MINDEXING] m && lease_over now m) d
                       && bool_decide (is_Some (migration_schedules d !! k)) in
  let d1 := set_migrations (map_imap (fun k m => Some (if lost k
     then at_time now (with_status MSCHEDULED (Some recoveryMsg) (with_discovery no_lease m)) else m))) d in
  set_migration_schedules (map_imap (fun k s => Some (if lost k then mkSchedule true now else s))) d1.

(** ** The API *)

(** The guard was read before; [seen] is the status at that time. *)
Definition handlePause (seen : migration_status) (id : string) (now : Z) (d : migration_db) : bool * migration_db :=
  if bool_decide (seen = MRUNNING) || bool_decide (seen = MINDEXING)
  then UpdateMigrationStatus id MPAUSED None now d else (false, d).

Definition handleCancel (id : string) (now : Z) (d : migration_db) : bool * migration_db :=
  let '(ok, d1) := UpdateMigrationStatus id MCANCELLED None now d in
  if ok then (true, CancelPendingTasks id now d1) else (false, d1).

Definition handleRetryFailed (seen : migration_status) (id : string) (now : Z) (d : migration_db) : Z * migration_db :=
  if isTerminalMigrationStatus seen then ResetFailedTasksForRetry id now d else (0, d).

Definition handleReindex (seen : migration_status) (id : string) (now : Z) (d : migration_db) : migration_db :=
  if bool_decide (seen = MFAILED) || bool_decide (seen = MCOMPLETED_WITH_ERRORS)
  then ResetMigrationForReindex id now d else d.

(** [published]: the cancel event reached the queue. *)
Definition handleDeleteMigration (published : bool) (id : string) (now : Z) (d : migration_db) : bool * migration_db :=
  let '(ok, d1) := handleCancel id now d in
  if ok && published then (true, DeleteMigrationCascade id d1) else (false, d1).
