(* ===== verification/MigrationState.v ===== *)
(** * Migrations under interleaving

    Every statement of MigrationOps.v and MigrationTasks.v as a step that any
    process may take at any time, and what holds of every state so reached: a
    discovery generation and a task claim are ended once and fence what comes
    late, every end of a migration is notified exactly once, and a
    reconciliation states what the tasks of a migration are. *)

From S2P Require Import Prelude Tables HashString SyncDelta SyncBaseline Database MigrationDb MigrationOps MigrationTasks.

(** ** Steps *)

(** The statements the program issues, with the values it issues them with. *)
Inductive statement : (migration_db -> migration_db) -> Prop :=
| S_UpdateMigrationStatus id s e now : s = MPAUSED \/ s = MCANCELLED \/ s = MFAILED ->
    statement (fun d => (UpdateMigrationStatus id s e now d).2)
| S_PauseMigrationForConnectionLoss id now : statement (fun d => (PauseMigrationForConnectionLoss id now d).2)
| S_SuspendUser user now : statement (SuspendUser user now)
| S_RecoverConnectionLostMigration id now : statement (fun d => (RecoverConnectionLostMigration id now d).2)
| S_ResumeMigration id now : statement (fun d => (ResumeMigration id now d).2)
| S_FailMigrationWhileIndexingClaim id g e now : statement (fun d => (FailMigrationWhileIndexingClaim id g e now d).2)
| S_FailStaleIndexingMigration id e now : statement (fun d => (FailStaleIndexingMigration id e now d).2)
| S_ClaimScheduledMigrationForIndexing id now : statement (fun d => (ClaimScheduledMigrationForIndexing id now d).2)
| S_RenewMigrationIndexingLease id g n now : statement (fun d => (RenewMigrationIndexingLease id g n now d).2)
| S_TransitionToRunning id g now : statement (fun d => (TransitionMigrationIndexingToRunningClaim id g now d).2)
| S_TransitionToCompleted id g now : statement (fun d => (TransitionMigrationIndexingToCompletedClaim id g now d).2)
| S_UpdateTotals id g n b now : statement (fun d => (UpdateMigrationTotalsWhileIndexingClaim id g n b now d).2)
| S_RecordIndexingErrors id l : statement (RecordIndexingErrors id l)
| S_UpdateMigrationThreads id n now : statement (UpdateMigrationThreads id n now)
| S_AddLiveBytes id n now : statement (AddLiveBytes id n now)
| S_ResetLiveBytes id now : statement (ResetLiveBytes id now)
| S_DequeueSQL w pick now : statement (fun d => (DequeueSQL w pick now d).2)
| S_RecoverAbandonedTasks w now : statement (RecoverAbandonedTasks w now)
| S_requeueOrphanedRunningTasks now : statement (requeueOrphanedRunningTasks now)
| S_requeueFailedTasks now : statement (requeueFailedTasks now)
| S_UpdateClaimedTaskStatus k e s now : statement (fun d => (UpdateClaimedTaskStatus k e s now d).2)
| S_HeartbeatTaskClaim k e now : statement (fun d => (HeartbeatTaskClaim k e now d).2)
| S_TransitionClaimedTask k e s now : statement (fun d => (TransitionClaimedTask k e s now d).2)
| S_UpdateResolved k e p now : statement (fun d => (UpdateClaimedTaskResolvedTargetPath k e p now d).2)
| S_UpdateMetadata k e md now : statement (fun d => (UpdateClaimedTaskMetadata k e md now d).2)
| S_UpdateTaskAndProgress k id e s f b sk fl l now :
    statement (fun d => (UpdateMigrationTaskAndProgress k id e s f b sk fl l now d).2)
| S_CancelPendingTasks id now : statement (CancelPendingTasks id now)
| S_FailForAuthentication k id e msg now : statement (fun d => (FailMigrationForAuthentication k id e msg now d).2)
| S_ResetFailedTasksForRetry id now : statement (fun d => (ResetFailedTasksForRetry id now d).2)
| S_ResetMigrationForReindex id now : statement (ResetMigrationForReindex id now)
| S_MaybeRetryFailed id now : statement (fun d => (MaybeRetryFailedMigrationTasks id now d).2)
| S_Reconcile id g now : statement (fun d => (reconcileMigrationProgress id g now d).2)
| S_ClaimVerification id now : statement (fun d => (ClaimMigrationVerification id now d).2)
| S_RenewVerification id g now : statement (fun d => (RenewMigrationVerificationLease id g now d).2)
| S_ReleaseVerification id g now : statement (ReleaseMigrationVerificationLease id g now)
| S_MarkVerified k h g now : statement (fun d => (MarkMigrationTaskChecksumVerifiedWhileVerifying k h g now d).2)
| S_MarkMismatch k e r h g now :
    statement (fun d => (MarkMigrationTaskChecksumMismatchWhileVerifying k e r h g now d).2)
| S_UpdateOAuth id src o x now : statement (fun d => (UpdateMigrationOAuthTokens id src o x now d).2)
| S_UpdateOAuthForReauth id src o now : statement (UpdateMigrationOAuthTokensForReauth id src o now)
| S_DeleteMigrationCascade id : statement (DeleteMigrationCascade id)
| S_DeleteOldMigrations now : statement (DeleteOldMigrations now)
| S_CreateNotificationEvent id : statement (fun d => (CreateMigrationNotificationEvent id d).2)
| S_recoverScheduledMigrations msg now : statement (recoverScheduledMigrations msg now).

(** Keys are generated once: [sys_used] are those of all rows there ever were. *)
Record migration_sys := mkSys { sys_mdb : migration_db; sys_used : gset string }.

Inductive migration_step : migration_sys -> migration_sys -> Prop :=
| Step_statement f d used : statement f -> migration_step (mkSys d used) (mkSys (f d) used)
| Step_create id spec src tgt s threads now sched d used : id ∉ used -> s = MINDEXING \/ s = MSCHEDULED ->
    migration_step (mkSys d used) (mkSys (match sched with
      | Some sc => (CreateMigrationAndSchedule id (new_migration spec src tgt s threads now) sc d).2
      | None => (CreateMigration id (new_migration spec src tgt s threads now) d).2
      end) ({[id]} ∪ used))
| Step_task id g key t now d used : key ∉ used ->
    migration_step (mkSys d used) (mkSys (CreateMigrationTaskWhileIndexingClaim id g key t now d).2 ({[key]} ∪ used))
| Step_tasks id g ts now d used : NoDup (map fst ts) -> (forall k, k ∈ map fst ts -> k ∉ used) ->
    migration_step (mkSys d used)
      (mkSys (BulkCreateMigrationTasksWhileIndexingClaim id g ts now d).2 (list_to_set (map fst ts) ∪ used)).

Definition migration_start : migration_sys := mkSys (mkMigrationDb ∅ ∅ [] ∅ ∅) ∅.

(** ** How rows evolve *)

(** A generation that is not INDEXING never becomes so again. *)
Definition discovery_moves (m m' : migration_row) : Prop :=
  dc_generation (mg_discovery m) <= dc_generation (mg_discovery m')
  /\ (dc_generation (mg_discovery m) = dc_generation (mg_discovery m') ->
      mg_status m <> MINDEXING -> mg_status m' <> MINDEXING).

(** A claim that is not RUNNING never becomes so again. *)
Definition claim_moves (t t' : mtask_row) : Prop :=
  mt_epoch t <= mt_epoch t'
  /\ (mt_epoch t = mt_epoch t' -> mt_status t <> TRUNNING -> mt_status t' <> TRUNNING).

Definition rows_move (d d' : migration_db) : Prop :=
  (forall id m', migrations d' !! id = Some m' -> exists m, migrations d !! id = Some m /\ discovery_moves m m')
  /\ (forall k t', mtasks d' !! k = Some t' -> exists t, mtasks d !! k = Some t /\ claim_moves t t').

#[export] Instance rows_move_preorder : PreOrder rows_move.
Proof.
  split.
  - intros d. split; intros k x Hx; exists x; (split; [done|]); split; try lia; done.
  - intros d1 d2 d3 [A1 B1] [A2 B2]. split; intros k x Hx.
    + destruct (A2 k x Hx) as (y & Hy & Hg & Hs). destruct (A1 k y Hy) as (z & Hz & Hg' & Hs').
      exists z. split; [done|]. split; [lia|]. intros E Hn. apply Hs; [lia|]. apply Hs'; [lia|done].
    + destruct (B2 k x Hx) as (y & Hy & Hg & Hs). destruct (B1 k y Hy) as (z & Hz & Hg' & Hs').
      exists z. split; [done|]. split; [lia|]. intros E Hn. apply Hs; [lia|]. apply Hs'; [lia|done].
Qed.

Lemma move_migration id p f d :
  (forall m, migrations d !! id = Some m -> p m = true -> discovery_moves m (f m)) ->
  rows_move d (update_migration id p f d).2.
Proof.
  intros H. unfold update_migration.
  destruct (update_row_spec id p f (migrations d)) as [(m & Hm & Hp & ->)|[-> _]]; cbn.
  - split; cbn; [|intros k t Ht; exists t; split; [done|]; split; [lia|done]].
    intros k x. destruct (decide (k = id)) as [->|Hk].
    + rewrite lookup_insert_eq. intros [= <-]. exists m. split; [done|]. by apply H.
    + rewrite lookup_insert_ne by done. intros Hx. exists x. split; [done|]. split; [lia|done].
  - destruct d; reflexivity.
Qed.

Lemma move_mtask k p f d :
  (forall t, p t = true -> claim_moves t (f t)) -> rows_move d (update_mtask k p f d).2.
Proof.
  intros H. unfold update_mtask.
  destruct (update_row_spec k p f (mtasks d)) as [(t & Ht & Hp & ->)|[-> _]]; cbn.
  - split; cbn; [intros i m Hm; exists m; split; [done|]; split; [lia|done]|].
    intros k' x. destruct (decide (k' = k)) as [->|Hk].
    + rewrite lookup_insert_eq. intros [= <-]. exists t. split; [done|]. by apply H.
    + rewrite lookup_insert_ne by done. intros Hx. exists x. split; [done|]. split; [lia|done].
  - destruct d; reflexivity.
Qed.

Lemma move_mtasks p f d :
  (forall t, p t = true -> claim_moves t (f t)) -> rows_move d (set_mtasks (update_where p f) d).
Proof.
  intros H. split; cbn; [intros i m Hm; exists m; split; [done|]; split; [lia|done]|].
  intros k x. rewrite update_where_lookup. destruct (mtasks d !! k) as [t|]; [|done]. intros [= <-].
  exists t. split; [done|]. destruct (p t) eqn:Hp; [by apply H|]. split; [lia|done].
Qed.

Lemma move_same d d' : migrations d' = migrations d -> mtasks d' = mtasks d -> rows_move d d'.
Proof. intros E1 E2. split; [rewrite E1|rewrite E2]; intros k x Hx; exists x; (split; [done|]); split; try lia; done. Qed.

Lemma move_event {X} (x r : X) id d d1 :
  rows_move d d1 -> rows_move d (commit x r d (createMigrationNotificationEventTx id d1)).2.
Proof.
  intros H. unfold commit, createMigrationNotificationEventTx.
  destruct (migrations d1 !! id) as [m|]; [|reflexivity]. destruct (ms_user _); [|reflexivity].
  destruct (isTerminalMigrationStatus _); [|done]. cbn. etransitivity; [exact H|]. by apply move_same.
Qed.

Lemma move_forget gone d : rows_move d (forget_migrations gone d).
Proof.
  split; cbn; intros k x [Hx _]%map_lookup_filter_Some; exists x; (split; [done|]); split; try lia; done.
Qed.

(** A change of one row that keeps its discovery generation and does not enter
    INDEXING, and one that starts the next generation. *)
Lemma moves_same_generation m m' :
  dc_generation (mg_discovery m') = dc_generation (mg_discovery m) ->
  (mg_status m <> MINDEXING -> mg_status m' <> MINDEXING) -> discovery_moves m m'.
Proof. intros E H. split; [lia|]. by intros _. Qed.

Lemma moves_next_generation m m' :
  dc_generation (mg_discovery m') = dc_generation (mg_discovery m) + 1 -> discovery_moves m m'.
Proof. intros E. split; lia. Qed.

Lemma mstatus_in_true l m : mstatus_in l m = true <-> mg_status m ∈ l.
Proof. apply bool_decide_eq_true. Qed.
Lemma tstatus_in_true l t : tstatus_in l t = true <-> mt_status t ∈ l.
Proof. apply bool_decide_eq_true. Qed.

(** Rows by cases on the status, the row changes unfolded. *)
Ltac unfold_rows :=
  unfold notify_change, continue_row, with_status, with_progress, with_discovery, with_verification,
    with_retry_done, next_notification, with_email, with_threads, with_oauth, at_time, no_lease in *.

Ltac same_generation :=
  intros; apply moves_same_generation; unfold_rows;
  repeat match goal with |- context [if ?b then _ else _] => destruct b end; cbn; congruence.

Lemma move_reconcile id g now d : rows_move d (reconcileMigrationProgress id g now d).2.
Proof.
  unfold reconcileMigrationProgress.
  assert (rows_move d (update_migration id (fun m => match g with None => true | Some g => holds_verification g now m end)
    (reconciled id now d) d).2) as H.
  { apply move_migration. intros m _ _. apply moves_same_generation; unfold reconciled.
    - destruct (_ && _ && _); reflexivity.
    - intros Hn. cbn. unfold reconciled_status, mstatus_in.
      destruct (bool_decide (mg_status m ∈ [MINDEXING])) eqn:E.
      + apply bool_decide_eq_true in E. apply list_elem_of_singleton in E. done.
      + destruct (bool_decide _); [done|]. cbn. repeat case_match; done. }
  destruct (update_migration _ _ _ _) as [[] d1]; [|reflexivity].
  cbn in H. destruct (has_claim _ _ d1); [by apply move_event|done].
Qed.

Lemma claim_leaves_running t t' :
  mt_epoch t' = mt_epoch t -> (mt_status t <> TRUNNING -> mt_status t' <> TRUNNING) -> claim_moves t t'.
Proof. intros E H. split; [lia|]. by intros _. Qed.

(** What a worker's fenced write does to the row is of no concern. *)
Lemma holds_mclaim_moves e f t :
  mt_epoch (f t) = mt_epoch t -> holds_mclaim e t = true -> claim_moves t (f t).
Proof.
  intros E [Hs _]%andb_true_iff. apply tstatus_in_true, list_elem_of_singleton in Hs.
  by apply claim_leaves_running.
Qed.

Ltac worker_write := intros; eapply holds_mclaim_moves; [reflexivity|eassumption].

Ltac task_leaves := intros; apply claim_leaves_running; [reflexivity|cbn; congruence].

Lemma move_authentication k id e msg now d : rows_move d (FailMigrationForAuthentication k id e msg now d).2.
Proof.
  unfold FailMigrationForAuthentication.
  match goal with |- context [update_mtask k ?p ?f d] =>
    assert (rows_move d (update_mtask k p f d).2) as H1 end.
  { apply move_mtask. intros t _. task_leaves. }
  destruct (update_mtask _ _ _ d) as [[] d1]; [|reflexivity]. cbn [negb] in *.
  match goal with |- context [set_mtasks ?u d1] => assert (rows_move d (set_mtasks u d1)) as H2 end.
  { etransitivity; [exact H1|]. apply move_mtasks. task_leaves. }
  match goal with |- context [update_migration id ?p ?f ?d2] =>
    assert (rows_move d (update_migration id p f d2).2) as H3 end.
  { etransitivity; [exact H2|]. apply move_migration. same_generation. }
  destruct (update_migration _ _ _ _) as [[] d3]; [|reflexivity]. by apply move_event.
Qed.

Lemma move_task_progress k id e s f b sk fl l now d :
  rows_move d (UpdateMigrationTaskAndProgress k id e s f b sk fl l now d).2.
Proof.
  unfold UpdateMigrationTaskAndProgress.
  match goal with |- context [update_mtask k ?p ?g d] =>
    assert (rows_move d (update_mtask k p g d).2) as H1 end.
  { apply move_mtask. intros t [_ Ht]%andb_true_iff. eapply holds_mclaim_moves; [reflexivity|done]. }
  destruct (update_mtask _ _ _ d) as [[] d1]; [|reflexivity]. cbn [negb] in *.
  match goal with |- context [update_migration id ?p ?g d1] =>
    assert (rows_move d (update_migration id p g d1).2) as H3 end.
  { etransitivity; [exact H1|]. apply move_migration. same_generation. }
  destruct (update_migration _ _ _ _) as [[] d3]; [exact H3|reflexivity].
Qed.

Lemma move_verified k h g now d : rows_move d (MarkMigrationTaskChecksumVerifiedWhileVerifying k h g now d).2.
Proof.
  unfold MarkMigrationTaskChecksumVerifiedWhileVerifying. destruct (mtasks d !! k) as [t|]; [|reflexivity].
  match goal with |- context [update_mtask k ?p ?f d] =>
    assert (rows_move d (update_mtask k p f d).2) as H1 by (apply move_mtask; task_leaves) end.
  destruct (update_mtask _ _ _ d) as [[] d1]; [|reflexivity]. cbn in H1 |- *.
  etransitivity; [exact H1|]. apply move_migration. same_generation.
Qed.

Lemma move_mismatch k e r h g now d :
  rows_move d (MarkMigrationTaskChecksumMismatchWhileVerifying k e r h g now d).2.
Proof.
  unfold MarkMigrationTaskChecksumMismatchWhileVerifying. destruct (mtasks d !! k) as [t|]; [|reflexivity].
  match goal with |- context [update_mtask k ?p ?f d] =>
    assert (rows_move d (update_mtask k p f d).2) as H1 by (apply move_mtask; task_leaves) end.
  destruct (update_mtask _ _ _ d) as [[] d1]; [|reflexivity]. cbn in H1 |- *.
  etransitivity; [exact H1|]. apply move_migration. intros m _ _. apply moves_same_generation; [done|].
  cbn. by destruct r.
Qed.

Lemma move_retry id now d : rows_move d (ResetFailedTasksForRetry id now d).2.
Proof.
  unfold ResetFailedTasksForRetry. destruct (_ =? 0); [reflexivity|].
  match goal with |- context [update_migration id ?p ?f ?d1] =>
    assert (rows_move d (update_migration id p f d1).2) as H1 end.
  { transitivity (set_mtasks (update_where (done_status [TFAILED; CANCELLED] id) (reset_task mt_verified now)) d);
      [apply move_mtasks; task_leaves|apply move_migration; same_generation]. }
  by destruct (update_migration _ _ _ _) as [[] d2].
Qed.

Lemma move_reindex id now d : rows_move d (ResetMigrationForReindex id now d).
Proof.
  unfold ResetMigrationForReindex. etransitivity; [|apply move_migration; intros m _ _; by apply moves_next_generation].
  split; cbn; intros k x Hx; exists x; [|apply map_lookup_filter_Some in Hx as [Hx _]];
    (split; [done|]); split; try lia; done.
Qed.

Lemma move_final_retry id now d : rows_move d (MaybeRetryFailedMigrationTasks id now d).2.
Proof.
  unfold MaybeRetryFailedMigrationTasks.
  match goal with |- context [update_migration id ?p ?f d] =>
    assert (rows_move d (update_migration id p f d).2) as H1 by (apply move_migration; same_generation) end.
  destruct (update_migration _ _ _ _) as [[] d1]; [|reflexivity]. cbn in H1 |- *.
  etransitivity; [exact H1|]. apply move_mtasks. task_leaves.
Qed.

Lemma move_dequeue w pick now d : rows_move d (DequeueSQL w pick now d).2.
Proof.
  unfold DequeueSQL. destruct pick as [k|]; [|reflexivity]. destruct (mtasks d !! k) as [t|] eqn:Et; [|reflexivity].
  destruct (_ && _); [|reflexivity]. split; cbn; [intros i m Hm; exists m; split; [done|]; split; [lia|done]|].
  intros i x. destruct (decide (i = k)) as [->|Hi].
  - rewrite lookup_insert_eq. intros [= <-]. exists t. split; [done|]. split; cbn; lia.
  - rewrite lookup_insert_ne by done. intros Hx. exists x. split; [done|]. split; [lia|done].
Qed.

Lemma move_recover_scheduled msg now d : rows_move d (recoverScheduledMigrations msg now d).
Proof.
  split; cbn; [|intros k t Ht; exists t; split; [done|]; split; [lia|done]].
  intros k x Hx. rewrite map_lookup_imap in Hx. destruct (migrations d !! k) as [m|] eqn:Em; [|done].
  cbn in Hx. injection Hx as <-. exists m. split; [done|]. apply moves_same_generation; destruct (_ && _); done.
Qed.

Lemma move_suspend user now d : rows_move d (SuspendUser user now d).
Proof.
  split; cbn; [|intros k t Ht; exists t; split; [done|]; split; [lia|done]].
  intros k x. rewrite update_where_lookup. destruct (migrations d !! k) as [m|]; [|done]. intros [= <-].
  exists m. split; [done|]. apply moves_same_generation; by destruct (_ && _).
Qed.

Create HintDb mig.
#[export] Hint Resolve move_reconcile move_authentication move_task_progress move_verified move_mismatch move_retry
  move_reindex move_final_retry move_dequeue move_recover_scheduled move_forget
  move_suspend : mig.

(** An end of a migration: the row, then the event. *)
Lemma move_end id p f d :
  (forall m, migrations d !! id = Some m -> p m = true -> discovery_moves m (f m)) ->
  rows_move d (let '(ok, d1) := update_migration id p f d in
    if ok then commit true false d (createMigrationNotificationEventTx id d1) else (false, d)).2.
Proof.
  intros H. pose proof (move_migration id p f d H) as H1.
  destruct (update_migration id p f d) as [[] d1]; [by apply move_event|reflexivity].
Qed.

Lemma move_continue p err id now d :
  (forall m, p m = true -> mg_status m = MPAUSED \/ mg_status m = MPAUSED_CONNECTION_LOSS) ->
  rows_move d (update_migration id p (continue_row err now) d).2.
Proof.
  intros Hp. apply move_migration. intros m _ _. unfold continue_row.
  destruct (dc_complete _); [apply moves_same_generation|apply moves_next_generation]; done.
Qed.

Lemma statement_moves f d : statement f -> rows_move d (f d).
Proof.
  destruct 1; auto with mig.
  - unfold UpdateMigrationStatus.
    match goal with |- context [update_migration id ?p ?f d] =>
      assert (rows_move d (update_migration id p f d).2) as H1 end.
    { apply move_migration. intros m _ _. apply moves_same_generation; unfold notify_change; destruct (_ && _); [done..| |];
        cbn; intros _; destruct H as [-> | [-> | ->]]; done. }
    destruct (update_migration _ _ _ _) as [ok d1]. destruct (isTerminalMigrationStatus s); [by apply move_event|done].
  - apply move_migration. same_generation.
  - unfold RecoverConnectionLostMigration.
    pose proof (move_continue (mstatus_in [MPAUSED_CONNECTION_LOSS]) mg_error id now d) as H.
    destruct (update_migration _ _ _ _) as [ok d1]. apply H.
    intros m Hm%mstatus_in_true%list_elem_of_singleton. by right.
  - unfold ResumeMigration.
    pose proof (move_continue (mstatus_in [MPAUSED; MPAUSED_CONNECTION_LOSS]) (fun _ => None) id now d) as H.
    destruct (update_migration _ _ _ _) as [ok d1]. apply H.
    intros m Hm%mstatus_in_true. apply list_elem_of_In in Hm. destruct Hm as [<-|[<-|[]]]; auto.
  - apply move_end. same_generation.
  - apply move_end. same_generation.
  - apply move_migration. intros m _ _. by apply moves_next_generation.
  - apply move_migration. same_generation.
  - apply move_migration. same_generation.
  - apply move_end. same_generation.
  - apply move_migration. same_generation.
  - by apply move_same.
  - apply move_migration. same_generation.
  - apply move_migration. same_generation.
  - apply move_migration. same_generation.
  - apply move_mtasks. task_leaves.
  - apply move_mtasks. task_leaves.
  - apply move_mtasks. task_leaves.
  - apply move_mtask. worker_write.
  - apply move_mtask. worker_write.
  - apply move_mtask. worker_write.
  - apply move_mtask. worker_write.
  - apply move_mtask. worker_write.
  - apply move_mtasks. task_leaves.
  - unfold ClaimMigrationVerification. 
    match goal with |- context [update_migration id ?p ?f d] =>
      assert (rows_move d (update_migration id p f d).2) as H1 by (apply move_migration; same_generation) end.
    by destruct (update_migration _ _ _ _) as [[] d1].
  - apply move_migration. same_generation.
  - apply move_migration. same_generation.
  - unfold UpdateMigrationOAuthTokens. destruct (String.eqb _ _); [reflexivity|]. apply move_migration. same_generation.
  - apply move_migration. same_generation.
  - unfold DeleteMigrationCascade. etransitivity; [|apply move_forget]. by apply move_same.
  - unfold DeleteOldMigrations. apply move_forget.
  - apply move_event. reflexivity.
Qed.

(** ** The system *)

Definition keys_used (s : migration_sys) : Prop :=
  dom (migrations (sys_mdb s)) ⊆ sys_used s /\ dom (mtasks (sys_mdb s)) ⊆ sys_used s.

(** A row of the later state is new, under a key never used, or has moved. *)
Definition sys_moves (s s' : migration_sys) : Prop :=
  sys_used s ⊆ sys_used s'
  /\ (forall id m', migrations (sys_mdb s') !! id = Some m' ->
        id ∉ sys_used s \/ exists m, migrations (sys_mdb s) !! id = Some m /\ discovery_moves m m')
  /\ (forall k t', mtasks (sys_mdb s') !! k = Some t' ->
        k ∉ sys_used s \/ exists t, mtasks (sys_mdb s) !! k = Some t /\ claim_moves t t').

Lemma insert_tasks_lookup l m m' k t :
  insert_tasks l m = Some m' -> m' !! k = Some t -> m !! k = Some t \/ k ∈ map fst l.
Proof.
  revert m. induction l as [|[k0 t0] l IH]; intros m Hi Hk; cbn in Hi; [injection Hi as <-; by left|].
  destruct (m !! k0); [done|]. destruct (IH _ Hi Hk) as [H|H]; [|right; cbn; by right].
  destruct (decide (k = k0)) as [->|Hn]; [right; cbn; by left|]. left. by rewrite lookup_insert_ne in H.
Qed.

Lemma insert_tasks_keeps l m m' k t : insert_tasks l m = Some m' -> m !! k = Some t -> m' !! k = Some t.
Proof.
  revert m. induction l as [|[k0 t0] l IH]; intros m Hi Hk; cbn in Hi; [by injection Hi as <-|].
  destruct (m !! k0) eqn:E; [done|]. apply (IH _ Hi). rewrite lookup_insert_ne; [done|]. congruence.
Qed.

Lemma moves_sys d d' used used' :
  rows_move d d' -> used ⊆ used' -> sys_moves (mkSys d used) (mkSys d' used').
Proof.
  intros [A B] Hu. split; [done|]. split; cbn; intros k x Hx; right; [by apply A|by apply B].
Qed.

Lemma inserted_sys d used m l :
  insert_tasks l (mtasks d) = Some m -> (forall k, k ∈ map fst l -> k ∉ used) ->
  sys_moves (mkSys d used) (mkSys (set_mtasks (fun _ => m) d) (list_to_set (map fst l) ∪ used)).
Proof.
  intros Hi Hf. split; [cbn; set_solver|]. split; cbn; intros k x Hx.
  - right. exists x. split; [done|]. split; [lia|done].
  - destruct (insert_tasks_lookup _ _ _ _ _ Hi Hx) as [Hx'|Hk]; [|left; by apply Hf].
    right. exists x. split; [done|]. split; [lia|done].
Qed.

Lemma input_keys id now (ts : list (string * task_input)) :
  map fst (map (fun '(k, t) => (k, new_mtask id t now)) ts) = map fst ts.
Proof. rewrite map_map. apply map_ext. intros [k t]. reflexivity. Qed.

Lemma step_moves s s' : migration_step s s' -> sys_moves s s'.
Proof.
  destruct 1 as [f d used Hf|id spec src tgt st threads now sched d used Hid _|id g key t now d used Hk|id g ts now d used Hn Hk].
  - apply moves_sys; [by apply statement_moves|done].
  - assert (forall m, sys_moves (mkSys d used) (mkSys (CreateMigration id m d).2 ({[id]} ∪ used))) as H.
    { intros m. unfold CreateMigration. destruct (migrations d !! id); [apply moves_sys; [reflexivity|set_solver]|].
      split; [cbn; set_solver|]. split; cbn; intros k x Hx.
      - destruct (decide (k = id)) as [->|Hne]; [by left|]. rewrite lookup_insert_ne in Hx by done.
        right. exists x. split; [done|]. split; [lia|done].
      - right. exists x. split; [done|]. split; [lia|done]. }
    destruct sched as [sc|]; [|apply H]. unfold CreateMigrationAndSchedule.
    specialize (H (new_migration spec src tgt st threads now)).
    destruct (CreateMigration _ _ _) as [[] d1]; [exact H|apply moves_sys; [reflexivity|set_solver]].
  - unfold CreateMigrationTaskWhileIndexingClaim. destruct (has_claim _ _ _); [|apply moves_sys; [reflexivity|set_solver]].
    destruct (insert_tasks _ _) as [m|] eqn:E; [|apply moves_sys; [reflexivity|set_solver]].
    replace ({[key]} ∪ used) with (list_to_set (map fst [(key, new_mtask id t now)]) ∪ used) by (apply leibniz_equiv; set_solver).
    apply inserted_sys; [done|]. intros k Hin. cbn in Hin. apply list_elem_of_singleton in Hin. by subst.
  - unfold BulkCreateMigrationTasksWhileIndexingClaim.
    assert (used ⊆ list_to_set (map fst ts) ∪ used) by set_solver.
    destruct ts as [|x ts]; [by apply moves_sys|]. destruct (has_claim _ _ _); [|by apply moves_sys].
    destruct (insert_tasks _ _) as [m|] eqn:E; [|by apply moves_sys].
    rewrite <- (input_keys id now (x :: ts)). apply inserted_sys; [done|]. by rewrite input_keys.
Qed.

Lemma keys_grow d used used' : keys_used (mkSys d used) -> used ⊆ used' -> keys_used (mkSys d used').
Proof. intros [A B] Hu. split; cbn in *; set_solver. Qed.

Lemma keys_inserted d used l m :
  keys_used (mkSys d used) -> insert_tasks l (mtasks d) = Some m ->
  keys_used (mkSys (set_mtasks (fun _ => m) d) (list_to_set (map fst l) ∪ used)).
Proof.
  intros [A B] Hi. split; cbn in *; [set_solver|]. intros k [x Hx]%elem_of_dom.
  destruct (insert_tasks_lookup _ _ _ _ _ Hi Hx) as [Hx'|Hin].
  - apply elem_of_union_r, B, elem_of_dom. by eexists.
  - by apply elem_of_union_l, elem_of_list_to_set.
Qed.

Lemma keys_created d used id m : keys_used (mkSys d used) -> keys_used (mkSys (CreateMigration id m d).2 ({[id]} ∪ used)).
Proof.
  intros Hk. unfold CreateMigration. destruct (migrations d !! id) eqn:E; [eapply keys_grow; [done|set_solver]|].
  destruct Hk as [A B]. split; cbn [snd sys_mdb sys_used migrations mtasks set_migrations] in *; [|set_solver].
  rewrite dom_insert_L. set_solver.
Qed.

Lemma step_keys s s' : migration_step s s' -> keys_used s -> keys_used s'.
Proof.
  destruct 1 as [f d used Hf|id spec src tgt st threads now sched d used Hid _|id g key t now d used Hk|id g ts now d used Hn Hk];
    intros Hu.
  - destruct Hu as [A B]. destruct (statement_moves f d Hf) as [Am Bm].
    split; cbn [sys_mdb sys_used] in *; intros k [x Hx]%elem_of_dom.
    + destruct (Am k x Hx) as (y & Hy & _). apply A, elem_of_dom. by eexists.
    + destruct (Bm k x Hx) as (y & Hy & _). apply B, elem_of_dom. by eexists.
  - destruct sched as [sc|]; [|by apply keys_created]. unfold CreateMigrationAndSchedule.
    pose proof (keys_created d used id (new_migration spec src tgt st threads now) Hu) as H.
    destruct (CreateMigration _ _ _) as [[] d1]; [exact H|]. eapply keys_grow; [done|set_solver].
  - unfold CreateMigrationTaskWhileIndexingClaim.
    assert (keys_used (mkSys d ({[key]} ∪ used))) as Hg by (eapply keys_grow; [done|set_solver]).
    destruct (has_claim _ _ _); [|done]. destruct (insert_tasks _ _) as [m|] eqn:E; [|done].
    pose proof (keys_inserted _ _ _ _ Hg E) as H. eapply keys_grow; [exact H|]. cbn. set_solver.
  - unfold BulkCreateMigrationTasksWhileIndexingClaim.
    assert (keys_used (mkSys d (list_to_set (map fst ts) ∪ used))) as Hg by (eapply keys_grow; [done|set_solver]).
    destruct ts as [|x ts]; [done|]. destruct (has_claim _ _ _); [|done].
    destruct (insert_tasks _ _) as [m|] eqn:E; [|done]. rewrite <- (input_keys id now (x :: ts)).
    by apply keys_inserted.
Qed.

Lemma reachable_keys s s' : keys_used s -> rtc migration_step s s' -> keys_used s'.
Proof. intros Hk Hr. induction Hr; [done|]. apply IHHr. by eapply step_keys. Qed.

Lemma start_keys : keys_used migration_start.
Proof. split; cbn; set_solver. Qed.

(** ** Fences *)

Definition discovery_over (id : string) (g : Z) (s : migration_sys) : Prop :=
  id ∈ sys_used s /\ forall m, migrations (sys_mdb s) !! id = Some m ->
    g <= dc_generation (mg_discovery m)
    /\ (dc_generation (mg_discovery m) = g -> mg_status m <> MINDEXING).

Definition claim_over (k : string) (e : Z) (s : migration_sys) : Prop :=
  k ∈ sys_used s /\ forall t, mtasks (sys_mdb s) !! k = Some t -> e <= mt_epoch t /\ (mt_epoch t = e -> mt_status t <> TRUNNING).

Lemma over_step s s' : migration_step s s' ->
  (forall id g, discovery_over id g s -> discovery_over id g s') /\ (forall k e, claim_over k e s -> claim_over k e s').
Proof.
  intros (Hu & Hm & Ht)%step_moves. split.
  - intros id g [Hi H]. split; [set_solver|]. intros m' Hm'. destruct (Hm id m' Hm') as [|(m & E & Hg & Hs)]; [done|].
    destruct (H m E) as [H1 H2]. split; [lia|]. intros Eg. apply Hs; [lia|]. apply H2. lia.
  - intros k e [Hi H]. split; [set_solver|]. intros t' Ht'. destruct (Ht k t' Ht') as [|(t & E & Hg & Hs)]; [done|].
    destruct (H t E) as [H1 H2]. split; [lia|]. intros Eg. apply Hs; [lia|]. apply H2. lia.
Qed.

Lemma over_steps s s' : rtc migration_step s s' ->
  (forall id g, discovery_over id g s -> discovery_over id g s') /\ (forall k e, claim_over k e s -> claim_over k e s').
Proof.
  induction 1 as [|s1 s2 s3 H _ [A B]]; [done|]. destruct (over_step _ _ H) as [A' B'].
  split; intros; [apply A, A'|apply B, B']; done.
Qed.

(** What an indexer writes under its generation. *)
Inductive discovery_write :=
| W_task (key : string) (t : task_input)
| W_tasks (ts : list (string * task_input))
| W_totals (files bytes : Z)
| W_lease (duration : Z)
| W_running
| W_completed
| W_fail (errMsg : option string).

Definition write_discovery (w : discovery_write) (id : string) (g now : Z) (d : migration_db) : bool * migration_db :=
  match w with
  | W_task key t => CreateMigrationTaskWhileIndexingClaim id g key t now d
  | W_tasks ts => BulkCreateMigrationTasksWhileIndexingClaim id g ts now d
  | W_totals files bytes => UpdateMigrationTotalsWhileIndexingClaim id g files bytes now d
  | W_lease duration => RenewMigrationIndexingLease id g duration now d
  | W_running => TransitionMigrationIndexingToRunningClaim id g now d
  | W_completed => TransitionMigrationIndexingToCompletedClaim id g now d
  | W_fail errMsg => FailMigrationWhileIndexingClaim id g errMsg now d
  end.

Definition ends_discovery (w : discovery_write) : bool :=
  match w with W_running | W_completed | W_fail _ => true | _ => false end.

(** What a worker writes under its claim. *)
Inductive claim_write :=
| C_status (s : task_state)
| C_heartbeat
| C_transition (s : task_status)
| C_resolved (p : string)
| C_metadata (md : task_metadata)
| C_progress (migrationID : string) (s : task_state) (files bytes skipped failed live : Z)
| C_authentication (migrationID msg : string).

Definition write_claim (w : claim_write) (k : string) (e now : Z) (d : migration_db) : bool * migration_db :=
  match w with
  | C_status s => UpdateClaimedTaskStatus k e s now d
  | C_heartbeat => HeartbeatTaskClaim k e now d
  | C_transition s => TransitionClaimedTask k e s now d
  | C_resolved p => UpdateClaimedTaskResolvedTargetPath k e p now d
  | C_metadata md => UpdateClaimedTaskMetadata k e md now d
  | C_progress id s files bytes skipped failed live =>
      UpdateMigrationTaskAndProgress k id e s files bytes skipped failed live now d
  | C_authentication id msg => FailMigrationForAuthentication k id e msg now d
  end.

Definition ends_claim (w : claim_write) : bool :=
  match w with
  | C_status s | C_progress _ s _ _ _ _ _ => negb (bool_decide (ts_status s = TRUNNING))
  | C_transition s => negb (bool_decide (s = TRUNNING))
  | C_authentication _ _ => true
  | _ => false
  end.

Lemma update_migration_refused id p f d :
  (forall m, migrations d !! id = Some m -> p m = false) -> update_migration id p f d = (false, d).
Proof.
  intros H. unfold update_migration. destruct (update_row_spec id p f (migrations d)) as [(m & Hm & Hp & _)|[-> _]].
  - by rewrite (H m Hm) in Hp.
  - by destruct d.
Qed.

Lemma update_mtask_refused k p f d :
  (forall t, mtasks d !! k = Some t -> p t = false) -> update_mtask k p f d = (false, d).
Proof.
  intros H. unfold update_mtask. destruct (update_row_spec k p f (mtasks d)) as [(t & Ht & Hp & _)|[-> _]].
  - by rewrite (H t Ht) in Hp.
  - by destruct d.
Qed.

Lemma over_no_claim id g s m : 1 <= g -> discovery_over id g s -> migrations (sys_mdb s) !! id = Some m ->
  indexing_claim g m = false /\ mstatus_in [MINDEXING] m && (dc_generation (mg_discovery m) =? g) = false.
Proof.
  intros Hg [_ H] Hm. destruct (H m Hm) as [_ Hs]. unfold indexing_claim.
  destruct (mstatus_in _ _) eqn:E; [|done]. apply mstatus_in_true, list_elem_of_singleton in E. cbn.
  destruct (dc_generation (mg_discovery m) =? g) eqn:Eg; [apply Z.eqb_eq in Eg; by destruct (Hs Eg)|].
  split; [|done]. apply orb_false_iff. split; [lia|done].
Qed.

Lemma over_refuses_discovery w id g now s :
  1 <= g -> discovery_over id g s -> w <> W_tasks [] ->
  write_discovery w id g now (sys_mdb s) = (false, sys_mdb s).
Proof.
  intros Hg Ho Hw. pose proof (fun m => over_no_claim id g s m Hg Ho) as H.
  assert (forall p, (forall m, migrations (sys_mdb s) !! id = Some m -> p m = false) -> has_claim id p (sys_mdb s) = false) as Hc.
  { intros p Hp. unfold has_claim. destruct (migrations _ !! id) as [m|]; [by apply Hp|done]. }
  destruct w as [key t|ts|files bytes|duration| | |errMsg]; cbn.
  - unfold CreateMigrationTaskWhileIndexingClaim. rewrite Hc; [done|]. intros m Hm. by apply H.
  - unfold BulkCreateMigrationTasksWhileIndexingClaim. destruct ts; [done|]. rewrite Hc; [done|]. intros m Hm. by apply H.
  - apply update_migration_refused. intros m Hm. by apply H.
  - apply update_migration_refused. intros m Hm. by apply H.
  - apply update_migration_refused. intros m Hm. by apply H.
  - unfold TransitionMigrationIndexingToCompletedClaim. rewrite update_migration_refused; [done|].
    intros m Hm. by apply H.
  - unfold FailMigrationWhileIndexingClaim. rewrite update_migration_refused; [done|]. intros m Hm. by apply H.
Qed.

Lemma over_refuses_claim w k e now s :
  claim_over k e s -> write_claim w k e now (sys_mdb s) = (false, sys_mdb s).
Proof.
  intros [_ H].
  assert (forall t, mtasks (sys_mdb s) !! k = Some t -> holds_mclaim e t = false) as Hc.
  { intros t Ht. destruct (H t Ht) as [_ Hs]. unfold holds_mclaim. destruct (tstatus_in _ _) eqn:E; [|done].
    apply tstatus_in_true, list_elem_of_singleton in E. cbn. apply Z.eqb_neq. intros He. by apply (Hs He). }
  destruct w as [st| |st|p|md|id st files bytes skipped failed live|id msg]; cbn; try by apply update_mtask_refused.
  - unfold UpdateMigrationTaskAndProgress. rewrite update_mtask_refused; [done|].
    intros t Ht. rewrite (Hc t Ht). apply andb_false_r.
  - unfold FailMigrationForAuthentication. rewrite update_mtask_refused; [done|].
    intros t Ht. rewrite (Hc t Ht). apply andb_false_r.
Qed.

Lemma update_migration_done id p f d d1 : update_migration id p f d = (true, d1) ->
  exists m, migrations d !! id = Some m /\ p m = true /\ d1 = set_migrations (insert id (f m)) d.
Proof.
  unfold update_migration. destruct (update_row_spec id p f (migrations d)) as [(m & Hm & Hp & ->)|[-> _]].
  - intros [= <-]. by exists m.
  - by intros [= ? _].
Qed.

Lemma update_mtask_done k p f d d1 : update_mtask k p f d = (true, d1) ->
  exists t, mtasks d !! k = Some t /\ p t = true /\ d1 = set_mtasks (insert k (f t)) d.
Proof.
  unfold update_mtask. destruct (update_row_spec k p f (mtasks d)) as [(t & Ht & Hp & ->)|[-> _]].
  - intros [= <-]. by exists t.
  - by intros [= ? _].
Qed.

Lemma event_rows id d d1 : createMigrationNotificationEventTx id d = Some d1 ->
  migrations d1 = migrations d /\ mtasks d1 = mtasks d.
Proof.
  unfold createMigrationNotificationEventTx. destruct (migrations d !! id); [|done]. destruct (ms_user _); [|done].
  by destruct (isTerminalMigrationStatus _); intros [= <-].
Qed.

Lemma commit_done d o d1 : commit true false d o = (true, d1) -> o = Some d1.
Proof. unfold commit. by destruct o; intros [= <-]. Qed.

Lemma indexing_claim_generation g m : 1 <= g -> indexing_claim g m = true -> dc_generation (mg_discovery m) = g.
Proof. intros Hg [_ [H|H]%orb_true_iff]%andb_true_iff; [lia|lia]. Qed.

Lemma over_after id g d used m m' d1 :
  keys_used (mkSys d used) -> migrations d !! id = Some m -> dc_generation (mg_discovery m) = g ->
  dc_generation (mg_discovery m') = g -> mg_status m' <> MINDEXING ->
  migrations d1 = <[id := m']> (migrations d) -> discovery_over id g (mkSys d1 used).
Proof.
  intros [A _] Hm Eg Eg' Hs E1. split; cbn; [apply A; cbn; apply elem_of_dom; by eexists|].
  intros m2. rewrite E1, lookup_insert_eq. intros [= <-]. split; [lia|done].
Qed.

Lemma end_is_over w id g now d used d1 :
  1 <= g -> keys_used (mkSys d used) -> ends_discovery w = true ->
  write_discovery w id g now d = (true, d1) -> discovery_over id g (mkSys d1 used).
Proof.
  intros Hg Hk He Hw. destruct w as [| | | | | |errMsg]; try done; cbn in Hw.
  - apply update_migration_done in Hw as (m & Hm & Hp & ->). apply (indexing_claim_generation g m Hg) in Hp.
    eapply (over_after id g d used); [done|exact Hm|done| | |reflexivity]; [exact Hp|cbn; discriminate].
  - unfold TransitionMigrationIndexingToCompletedClaim in Hw.
    destruct (update_migration _ _ _ _) as [[] d2] eqn:E; [|done].
    apply update_migration_done in E as (m & Hm & Hp & ->). apply (indexing_claim_generation g m Hg) in Hp.
    apply commit_done in Hw. apply event_rows in Hw as [E1 _].
    eapply (over_after id g d used); [done|exact Hm|done| | |exact E1]; [exact Hp|cbn; discriminate].
  - unfold FailMigrationWhileIndexingClaim in Hw.
    destruct (update_migration _ _ _ _) as [[] d2] eqn:E; [|done].
    apply update_migration_done in E as (m & Hm & Hp & ->). apply (indexing_claim_generation g m Hg) in Hp.
    apply commit_done in Hw. apply event_rows in Hw as [E1 _].
    eapply (over_after id g d used); [done|exact Hm|done| | |exact E1]; [exact Hp|cbn; discriminate].
Qed.

Lemma task_over_after k e d used t t' d1 :
  keys_used (mkSys d used) -> mtasks d !! k = Some t -> holds_mclaim e t = true ->
  mt_epoch t' = mt_epoch t -> mt_status t' <> TRUNNING ->
  mtasks d1 = <[k := t']> (mtasks d) -> claim_over k e (mkSys d1 used).
Proof.
  intros [_ B] Ht [_ He]%andb_true_iff E Hs E1. split; cbn; [apply B; cbn; apply elem_of_dom; by eexists|].
  intros t2. rewrite E1, lookup_insert_eq. intros [= <-]. split; [lia|done].
Qed.

Lemma claim_over_moves k e d d' used :
  claim_over k e (mkSys d used) ->
  (forall t', mtasks d' !! k = Some t' -> exists t, mtasks d !! k = Some t /\ claim_moves t t') ->
  claim_over k e (mkSys d' used).
Proof.
  intros [Hi H] B. split; [done|]. cbn in *. intros t' Ht'. destruct (B t' Ht') as (t & Ht & Hg & Hs).
  destruct (H t Ht) as [H1 H2]. split; [lia|]. intros E. apply Hs; [lia|]. apply H2. lia.
Qed.

Lemma end_claim_is_over w k e now d used d1 :
  keys_used (mkSys d used) -> ends_claim w = true -> write_claim w k e now d = (true, d1) -> claim_over k e (mkSys d1 used).
Proof.
  intros Hk He Hw. destruct w as [st| |st|p|md|id st files bytes skipped failed live|id msg]; try done; cbn in Hw, He.
  - apply negb_true_iff, bool_decide_eq_false in He.
    apply update_mtask_done in Hw as (t & Ht & Hp & ->).
    eapply (task_over_after k e d used); [done|exact Ht|exact Hp| | |reflexivity]; [reflexivity|exact He].
  - apply negb_true_iff, bool_decide_eq_false in He.
    apply update_mtask_done in Hw as (t & Ht & Hp & ->).
    eapply (task_over_after k e d used); [done|exact Ht|exact Hp| | |reflexivity]; [reflexivity|exact He].
  - apply negb_true_iff, bool_decide_eq_false in He. unfold UpdateMigrationTaskAndProgress in Hw.
    destruct (update_mtask _ _ _ d) as [[] d2] eqn:E; [|done]. cbn [negb] in Hw.
    apply update_mtask_done in E as (t & Ht & [_ Hp]%andb_true_iff & ->).
    destruct (update_migration _ _ _ _) as [[] d3] eqn:E; [|done]. injection Hw as <-.
    apply update_migration_done in E as (m & _ & _ & ->).
    eapply (task_over_after k e d used); [done|exact Ht|exact Hp| | |reflexivity]; [reflexivity|exact He].
  - unfold FailMigrationForAuthentication in Hw.
    destruct (update_mtask _ _ _ d) as [[] d2] eqn:E; [|done]. cbn [negb] in Hw.
    apply update_mtask_done in E as (t & Ht & [_ Hp]%andb_true_iff & E2).
    assert (claim_over k e (mkSys d2 used)) as Ho.
    { eapply (task_over_after k e d used); [done|exact Ht|exact Hp| | |by rewrite E2]; [reflexivity|cbn; discriminate]. }
    clear E2. match type of Hw with context [update_migration id ?p ?f ?d3] =>
      destruct (update_migration id p f d3) as [[] d4] eqn:E; [|done] end.
    apply commit_done in Hw. apply event_rows in Hw as [_ E1]. apply update_migration_done in E as (m & _ & _ & ->).
    eapply claim_over_moves; [exact Ho|]. intros t'. rewrite E1. cbn [mtasks set_migrations set_mtasks].
    rewrite update_where_lookup. destruct (mtasks d2 !! k) as [x|]; [|done]. intros [= <-].
    exists x. split; [done|]. destruct (_ && _); [task_leaves|]. split; [lia|done].
Qed.

(** C27: what ends a discovery ends it for good: once the indexer of a generation moved
    its migration to RUNNING, COMPLETED or FAILED, no write under that generation (a
    task, totals, a lease, another end) takes effect any more, whatever pauses,
    resumptions, recoveries, retries and other processes do in between. *)
Theorem discovery_ends_once w id g now d used d1 s :
  rtc migration_step migration_start (mkSys d used) -> 1 <= g -> ends_discovery w = true ->
  write_discovery w id g now d = (true, d1) -> rtc migration_step (mkSys d1 used) s ->
  forall w' now', w' <> W_tasks [] -> write_discovery w' id g now' (sys_mdb s) = (false, sys_mdb s).
Proof.
  intros Hr Hg He Hw Hs w' now' Hn. apply over_refuses_discovery; [done| |done].
  apply (over_steps _ _ Hs). eapply end_is_over; try done. by eapply reachable_keys; [apply start_keys|].
Qed.

(** C28: a claim of a migration task is handed out once, and once its worker has ended
    it no write under that claim takes effect any more: not the recovered worker's late
    completion, nor its progress, its target path or its heartbeat. *)
Theorem migration_claim_ends_once w k e now d used d1 s :
  rtc migration_step migration_start (mkSys d used) -> ends_claim w = true ->
  write_claim w k e now d = (true, d1) -> rtc migration_step (mkSys d1 used) s ->
  (forall w' now', write_claim w' k e now' (sys_mdb s) = (false, sys_mdb s))
  /\ (forall worker pick now' p d2, DequeueSQL worker pick now' (sys_mdb s) = (Some p, d2) ->
       mpl_task p = k -> e < mpl_epoch p).
Proof.
  intros Hr He Hw Hs.
  assert (claim_over k e s) as Ho.
  { apply (over_steps _ _ Hs). eapply end_claim_is_over; try done. by eapply reachable_keys; [apply start_keys|]. }
  split; [intros w' now'; by apply over_refuses_claim|].
  intros worker pick now' p d2 Hd Hk. unfold DequeueSQL in Hd. destruct pick as [k'|]; [|done].
  destruct (mtasks (sys_mdb s) !! k') as [t|] eqn:Et; [|done]. destruct (_ && _); [|done].
  injection Hd as <- <-. cbn in *. subst. destruct Ho as [_ Ho]. destruct (Ho t Et) as [H _]. lia.
Qed.

(** ** Every end is notified once *)

Definition terminal (m : migration_row) : bool := isTerminalMigrationStatus (mg_status m).

Definition ends_notified (d : migration_db) : Prop :=
  (forall id m, migrations d !! id = Some m ->
     (terminal m = true <-> (id, mg_notification m) ∈ notified d)
     /\ forall g, (id, g) ∈ notified d -> g <= mg_notification m)
  /\ (forall id g, (id, g) ∈ notified d -> is_Some (migrations d !! id)).

(** The row stays at its end, or is not at one under a number without event. *)
Definition end_kept (m m' : migration_row) : Prop :=
  (terminal m' = true /\ terminal m = true /\ mg_notification m' = mg_notification m)
  \/ (terminal m' = false /\ (mg_notification m < mg_notification m'
                             \/ mg_notification m' = mg_notification m /\ terminal m = false)).

Lemma notified_update id p f d :
  (forall m, migrations d !! id = Some m -> p m = true -> end_kept m (f m)) -> ends_notified d ->
  ends_notified (update_migration id p f d).2.
Proof.
  intros Hf [A B]. unfold update_migration.
  destruct (update_row_spec id p f (migrations d)) as [(m & Hm & Hp & ->)|[-> _]]; cbn; [|by destruct d].
  destruct (A id m Hm) as [[A1 A1'] A2]. split; cbn.
  - intros k x. destruct (decide (k = id)) as [->|Hk]; [|rewrite lookup_insert_ne by done; apply A].
    rewrite lookup_insert_eq. intros [= <-]. destruct (Hf m Hm Hp) as [(H1 & H2 & H3)|[H1 [H2|[H2 H3]]]].
    + rewrite H1, H3. split; [|done]. split; [intros _; by apply A1|done].
    + rewrite H1. split; [split; [done|]|].
      * intros Hin. apply A2 in Hin. lia.
      * intros g Hg. apply A2 in Hg. lia.
    + rewrite H1, H2. split; [|done]. split; [done|]. intros Hin. apply A1' in Hin. congruence.
  - intros k g Hg. destruct (decide (k = id)) as [->|Hk]; [rewrite lookup_insert_eq; by eexists|].
    rewrite lookup_insert_ne by done. by eapply B.
Qed.

(** The row comes to an end and its event is written with it. *)
Lemma notified_end {X} (x r : X) id m m' d d1 :
  ends_notified d -> migrations d !! id = Some m -> migrations d1 = <[id := m']> (migrations d) ->
  notified d1 = notified d -> terminal m' = true -> mg_notification m <= mg_notification m' ->
  ends_notified (commit x r d (createMigrationNotificationEventTx id d1)).2.
Proof.
  intros [A B] Hm E1 E2 Ht Hn. unfold commit, createMigrationNotificationEventTx.
  rewrite E1, lookup_insert_eq. destruct (ms_user _); [|done]. unfold terminal in Ht. rewrite Ht. cbn.
  destruct (A id m Hm) as [_ A2].
  split; cbn; rewrite E1, E2.
  - intros k y. destruct (decide (k = id)) as [->|Hk].
    + rewrite lookup_insert_eq. intros [= <-]. split; [unfold terminal; rewrite Ht; split; [set_solver|done]|].
      intros g [[= ->]%elem_of_singleton|Hg]%elem_of_union; [lia|]. apply A2 in Hg. lia.
    + rewrite lookup_insert_ne by done. intros Hy. destruct (A k y Hy) as [A1 A3]. split.
      * rewrite A1. set_solver.
      * intros g [[= ->]%elem_of_singleton|Hg]%elem_of_union; [done|by apply A3].
  - intros k g [[= -> ->]%elem_of_singleton|Hg]%elem_of_union; [rewrite lookup_insert_eq; by eexists|].
    destruct (decide (k = id)) as [->|Hk]; [rewrite lookup_insert_eq; by eexists|].
    rewrite lookup_insert_ne by done. by eapply B.
Qed.

Lemma notified_update_end id p f d :
  (forall m, p m = true -> terminal (f m) = true /\ mg_notification m <= mg_notification (f m)) ->
  ends_notified d ->
  ends_notified (let '(ok, d1) := update_migration id p f d in
    if ok then commit true false d (createMigrationNotificationEventTx id d1) else (false, d)).2.
Proof.
  intros Hf Hd. destruct (update_migration id p f d) as [[] d1] eqn:E; [|done].
  apply update_migration_done in E as (m & Hm & Hp & ->). destruct (Hf m Hp).
  by apply (notified_end true false id m (f m)).
Qed.

Lemma notified_same d d' :
  migrations d' = migrations d -> notified d' = notified d -> ends_notified d -> ends_notified d'.
Proof. intros E1 E2. unfold ends_notified. by rewrite E1, E2. Qed.

Lemma notified_forget gone d : ends_notified d -> ends_notified (forget_migrations gone d).
Proof.
  intros [A B]. split; cbn.
  - intros id m [Hm Hg]%map_lookup_filter_Some. destruct (A id m Hm) as [A1 A2].
    rewrite elem_of_filter. split; [rewrite A1; tauto|]. intros g [_ H]%elem_of_filter. by apply A2.
  - intros id g [Hg Hin]%elem_of_filter. destruct (B id g Hin) as [m Hm]. exists m.
    by apply map_lookup_filter_Some.
Qed.

(** A row change by cases on the status. *)
Ltac end_cases :=
  intros; match goal with m : migration_row |- _ => destruct m end;
  match goal with c : discovery |- _ => destruct c as [[] ? ?] end;
  unfold end_kept, terminal, notify_change, continue_row, mstatus_in, indexing_claim in *; unfold_rows; cbn in *;
  match goal with s : migration_status |- _ => destruct s end; cbn in *; try discriminate;
  first [left; split_and!; reflexivity | right; split; [reflexivity|first [left; lia|right; split; reflexivity]]].

Lemma notified_status id st e now d :
  st = MPAUSED \/ st = MCANCELLED \/ st = MFAILED -> ends_notified d ->
  ends_notified (UpdateMigrationStatus id st e now d).2.
Proof.
  intros Hs Hd. unfold UpdateMigrationStatus.
  match goal with |- context [update_migration id ?p ?f d] =>
    destruct (update_migration id p f d) as [ok d1] eqn:E;
    assert (isTerminalMigrationStatus st = false -> ends_notified (update_migration id p f d).2) as H end.
  { intros Ht. apply notified_update; [|done]. destruct Hs as [-> | [-> | ->]]; [| |done]; end_cases. }
  rewrite E in H. destruct (isTerminalMigrationStatus st) eqn:Ht; [|by apply H].
  unfold update_migration in E.
  destruct (update_row_spec id (fun _ => true) (fun m => at_time now (with_status st e (notify_change st m)))
    (migrations d)) as [(m & Hm & _ & E')|[E' Hn]]; rewrite E' in E; injection E as <- <-.
  - eapply (notified_end true false id m); [done|exact Hm|reflexivity|reflexivity|exact Ht|].
    unfold notify_change. destruct (_ && _); cbn; lia.
  - unfold commit, createMigrationNotificationEventTx. cbn. destruct (migrations d !! id) as [m|] eqn:Em; [|done].
    by specialize (Hn m eq_refl).
Qed.

Lemma reconciled_end id now d m :
  mg_notification m <= mg_notification (reconciled id now d m)
  /\ (terminal (reconciled id now d m) = false -> end_kept m (reconciled id now d m)).
Proof.
  unfold reconciled. destruct (mstatus_in [MRUNNING; MVERIFYING] m && _ && _) eqn:E; cbn; (split; [lia|]); intros Ht; right;
    (split; [done|]); cbn; [left; lia|right]. split; [done|].
  unfold terminal in Ht |- *. cbn in Ht. unfold reconciled_status in Ht.
  destruct (mstatus_in [MCANCELLED; _; _; _; _; _] m) eqn:E1; [done|].
  apply bool_decide_eq_false in E1. destruct (mg_status m) eqn:Em; try done; exfalso; apply E1; set_solver.
Qed.

Lemma notified_reconcile id g now d : ends_notified d -> ends_notified (reconcileMigrationProgress id g now d).2.
Proof.
  intros Hd. unfold reconcileMigrationProgress.
  match goal with |- context [update_migration id ?p ?f d] => destruct (update_migration id p f d) as [[] d1] eqn:E; [|done] end.
  apply update_migration_done in E as (m & Hm & Hp & ->).
  destruct (reconciled_end id now d m) as [Hn Hk]. unfold has_claim. cbn [migrations set_migrations].
  rewrite lookup_insert_eq. fold (terminal (reconciled id now d m)).
  destruct (terminal (reconciled id now d m)) eqn:Ht.
  - by apply (notified_end true false id m (reconciled id now d m)).
  - pose proof (notified_update id (fun _ => true) (reconciled id now d) d) as H.
    unfold update_migration in H. rewrite (update_row_hit _ _ _ _ m Hm eq_refl) in H. apply H; [|done].
    intros m2 Hm2 _. rewrite Hm in Hm2. injection Hm2 as <-. by apply Hk.
Qed.

Lemma notified_authentication k id e msg now d :
  ends_notified d -> ends_notified (FailMigrationForAuthentication k id e msg now d).2.
Proof.
  intros Hd. unfold FailMigrationForAuthentication.
  match goal with |- context [update_mtask k ?p ?f d] => destruct (update_mtask k p f d) as [[] d1] eqn:E; [|done] end.
  apply update_mtask_done in E as (t & _ & _ & ->). cbn [negb].
  match goal with |- context [update_migration id ?p ?f ?d2] => destruct (update_migration id p f d2) as [[] d3] eqn:E; [|done] end.
  apply update_migration_done in E as (m & Hm & Hp & ->). cbn [migrations set_mtasks] in Hm.
  eapply (notified_end true false id m); [done|exact Hm|reflexivity|reflexivity|reflexivity|cbn; lia].
Qed.

Lemma notified_retry id now d : ends_notified d -> ends_notified (ResetFailedTasksForRetry id now d).2.
Proof.
  intros Hd. unfold ResetFailedTasksForRetry. destruct (_ =? 0); [done|].
  match goal with |- context [update_migration id ?p ?f ?d1] =>
    assert (ends_notified (update_migration id p f d1).2) as H end.
  { apply notified_update; [|by eapply notified_same; [| |exact Hd]].
    intros m _ _. right. split; [reflexivity|]. left. cbn. lia. }
  by destruct (update_migration _ _ _ _) as [[] d2].
Qed.

Lemma notified_scheduled msg now d : ends_notified d -> ends_notified (recoverScheduledMigrations msg now d).
Proof.
  intros [A B]. split; cbn.
  - intros id x Hx. rewrite map_lookup_imap in Hx. destruct (migrations d !! id) as [m|] eqn:Em; [|done].
    cbn in Hx. injection Hx as <-. destruct (A id m Em) as [A1 A2]. destruct (_ && _) eqn:E; [|done].
    split; [|done]. cbn. rewrite <- A1. apply andb_true_iff in E as [E _].
    unfold has_claim in E. rewrite Em in E. apply andb_true_iff in E as [E _].
    apply mstatus_in_true, list_elem_of_singleton in E. unfold terminal. cbn. by rewrite E.
  - intros id g Hg. destruct (B id g Hg) as [m Hm]. rewrite map_lookup_imap, Hm. cbn. by eexists.
Qed.

Lemma notified_suspend user now d : ends_notified d -> ends_notified (SuspendUser user now d).
Proof.
  intros [A B]. split; cbn.
  - intros id x. rewrite update_where_lookup. destruct (migrations d !! id) as [m|] eqn:Em; [|done].
    cbn. intros [= <-]. destruct (A id m Em) as [A1 A2]. destruct (_ && _) eqn:E; [|done].
    split; [|done]. cbn. rewrite <- A1. apply andb_true_iff in E as [_ E].
    apply mstatus_in_true in E. unfold terminal. cbn. by apply list_elem_of_In in E as [<-|[<-|[]]].
  - intros id g Hg. destruct (B id g Hg) as [m Hm]. rewrite update_where_lookup, Hm. cbn. by eexists.
Qed.

(** A statement on tasks, errors or schedules. *)
Ltac tasks_only Hd :=
  eapply notified_same; [| |exact Hd]; unfold DequeueSQL, UpdateClaimedTaskStatus, HeartbeatTaskClaim, TransitionClaimedTask,
    UpdateClaimedTaskResolvedTargetPath, UpdateClaimedTaskMetadata, update_mtask; repeat case_match; reflexivity.

Lemma update_mtask_rows k p f d :
  migrations (update_mtask k p f d).2 = migrations d /\ notified (update_mtask k p f d).2 = notified d.
Proof. unfold update_mtask. by destruct (update_row _ _ _ _). Qed.

Lemma notified_progress k id e s f b sk fl l now d :
  ends_notified d -> ends_notified (UpdateMigrationTaskAndProgress k id e s f b sk fl l now d).2.
Proof.
  intros Hd. unfold UpdateMigrationTaskAndProgress.
  match goal with |- context [update_mtask k ?p ?g d] => pose proof (update_mtask_rows k p g d) as [E1 E2] end.
  destruct (update_mtask _ _ _ d) as [[] d1]; [|done]. cbn [negb snd] in *.
  match goal with |- context [update_migration id ?p ?g d1] => assert (ends_notified (update_migration id p g d1).2) as H end.
  { apply notified_update; [end_cases|]. by eapply notified_same; [| |exact Hd]. }
  by destruct (update_migration _ _ _ _) as [[] d2].
Qed.

Lemma notified_verified k h g now d :
  ends_notified d -> ends_notified (MarkMigrationTaskChecksumVerifiedWhileVerifying k h g now d).2.
Proof.
  intros Hd. unfold MarkMigrationTaskChecksumVerifiedWhileVerifying. destruct (mtasks d !! k) as [t|]; [|done].
  match goal with |- context [update_mtask k ?p ?g d] => pose proof (update_mtask_rows k p g d) as [E1 E2] end.
  destruct (update_mtask _ _ _ d) as [[] d1]; [|done]. cbn [snd] in *.
  apply notified_update; [end_cases|]. by eapply notified_same; [| |exact Hd].
Qed.

Lemma notified_mismatch k e r h g now d :
  ends_notified d -> ends_notified (MarkMigrationTaskChecksumMismatchWhileVerifying k e r h g now d).2.
Proof.
  intros Hd. unfold MarkMigrationTaskChecksumMismatchWhileVerifying. destruct (mtasks d !! k) as [t|] eqn:Et; [|done].
  match goal with |- context [update_mtask k ?p ?f d] =>
    pose proof (update_mtask_rows k p f d) as [E1 E2]; destruct (update_mtask k p f d) as [[] d1] eqn:E; [|done] end.
  cbn [snd] in *. apply update_mtask_done in E as (t' & Ht' & Hu & _). rewrite Et in Ht'. injection Ht' as <-.
  apply andb_true_iff in Hu as [_ Hu]. unfold has_claim in Hu.
  apply notified_update; [|by eapply notified_same; [| |exact Hd]].
  intros m Hm _. rewrite E1 in Hm. rewrite Hm in Hu. apply andb_true_iff in Hu as [Hu _].
  apply andb_true_iff in Hu as [Hu _]. apply mstatus_in_true, list_elem_of_singleton in Hu.
  right. unfold terminal. cbn. rewrite Hu. split; [by destruct r|]. by right.
Qed.

Lemma notified_final_retry id now d : ends_notified d -> ends_notified (MaybeRetryFailedMigrationTasks id now d).2.
Proof.
  intros Hd. unfold MaybeRetryFailedMigrationTasks.
  match goal with |- context [update_migration id ?p ?f d] =>
    assert (ends_notified (update_migration id p f d).2) as H end.
  { apply notified_update; [|done]. intros m _ _. unfold end_kept, terminal. cbn.
    destruct (isTerminalMigrationStatus (mg_status m)); [by left|]. right. split; [done|]. by right. }
  destruct (update_migration _ _ _ _) as [[] d1]; [|done]. by eapply notified_same; [| |exact H].
Qed.

Lemma notified_verification id now d : ends_notified d -> ends_notified (ClaimMigrationVerification id now d).2.
Proof.
  intros Hd. unfold ClaimMigrationVerification.
  match goal with |- context [update_migration id ?p ?f d] =>
    assert (ends_notified (update_migration id p f d).2) as H end.
  { apply notified_update; [|done]. end_cases. }
  by destruct (update_migration _ _ _ _) as [[] d1].
Qed.

Lemma notified_event id d : ends_notified d -> ends_notified (CreateMigrationNotificationEvent id d).2.
Proof.
  intros Hd. unfold CreateMigrationNotificationEvent.
  destruct (migrations d !! id) as [m|] eqn:Em.
  - destruct (terminal m) eqn:Ht.
    + eapply (notified_end true false id m m); [done|done|by rewrite insert_id|done|done|lia].
    + unfold commit, createMigrationNotificationEventTx. rewrite Em. unfold terminal in Ht. rewrite Ht.
      by destruct (ms_user _).
  - unfold commit, createMigrationNotificationEventTx. by rewrite Em.
Qed.

Ltac to_end := intros m _; split; [reflexivity|cbn; lia].

Lemma notified_statement f d : statement f -> ends_notified d -> ends_notified (f d).
Proof.
  destruct 1; intros Hd.
  - by apply notified_status.
  - apply notified_update; [end_cases|done].
  - by apply notified_suspend.
  - unfold RecoverConnectionLostMigration.
    pose proof (notified_update id (mstatus_in [MPAUSED_CONNECTION_LOSS]) (continue_row mg_error now) d) as H.
    destruct (update_migration _ _ _ _) as [ok d1]. apply H; [end_cases|done].
  - unfold ResumeMigration.
    pose proof (notified_update id (mstatus_in [MPAUSED; MPAUSED_CONNECTION_LOSS]) (continue_row (fun _ => None) now) d) as H.
    destruct (update_migration _ _ _ _) as [ok d1]. apply H; [end_cases|done].
  - apply notified_update_end; [to_end|done].
  - apply notified_update_end; [to_end|done].
  - apply notified_update; [end_cases|done].
  - apply notified_update; [end_cases|done].
  - apply notified_update; [end_cases|done].
  - apply notified_update_end; [to_end|done].
  - apply notified_update; [end_cases|done].
  - by eapply notified_same; [| |exact Hd].
  - apply notified_update; [end_cases|done].
  - apply notified_update; [end_cases|done].
  - apply notified_update; [end_cases|done].
  - tasks_only Hd.
  - by eapply notified_same; [| |exact Hd].
  - by eapply notified_same; [| |exact Hd].
  - by eapply notified_same; [| |exact Hd].
  - tasks_only Hd.
  - tasks_only Hd.
  - tasks_only Hd.
  - tasks_only Hd.
  - tasks_only Hd.
  - by apply notified_progress.
  - by eapply notified_same; [| |exact Hd].
  - by apply notified_authentication.
  - by apply notified_retry.
  - unfold ResetMigrationForReindex. apply notified_update; [|by eapply notified_same; [| |exact Hd]].
    intros m _ _. right. split; [done|]. left. cbn. lia.
  - by apply notified_final_retry.
  - by apply notified_reconcile.
  - by apply notified_verification.
  - apply notified_update; [end_cases|done].
  - apply notified_update; [end_cases|done].
  - by apply notified_verified.
  - by apply notified_mismatch.
  - unfold UpdateMigrationOAuthTokens. destruct (String.eqb _ _); [done|]. apply notified_update; [end_cases|done].
  - apply notified_update; [end_cases|done].
  - unfold DeleteMigrationCascade. apply notified_forget. by eapply notified_same; [| |exact Hd].
  - unfold DeleteOldMigrations. by apply notified_forget.
  - by apply notified_event.
  - by apply notified_scheduled.
Qed.

Lemma notified_step s s' : migration_step s s' -> keys_used s -> ends_notified (sys_mdb s) -> ends_notified (sys_mdb s').
Proof.
  destruct 1 as [f d used Hf|id spec src tgt st threads now sched d used Hid Hst|id g key t now d used Hk|id g ts now d used Hn Hk];
    intros [Hu _] Hd; cbn [sys_mdb sys_used] in *.
  - by apply notified_statement.
  - assert (ends_notified (CreateMigration id (new_migration spec src tgt st threads now) d).2) as H.
    { unfold CreateMigration. destruct (migrations d !! id) eqn:E; [done|]. destruct Hd as [A B]. split; cbn.
      - intros k x. destruct (decide (k = id)) as [->|Hk]; [|rewrite lookup_insert_ne by done; apply A].
        rewrite lookup_insert_eq. intros [= <-].
        assert (forall g, (id, g) ∉ notified d) as Hno by (intros g Hg; destruct (B id g Hg) as [m Hm]; congruence).
        unfold terminal. cbn. split; [|intros g Hg; by destruct (Hno g)]. destruct Hst as [-> | ->]; cbn; split; try done;
          intros Hg; by destruct (Hno 0).
      - intros k g Hg. destruct (decide (k = id)) as [->|Hk]; [rewrite lookup_insert_eq; by eexists|].
        rewrite lookup_insert_ne by done. by eapply B. }
    destruct sched; [|done]. unfold CreateMigrationAndSchedule.
    destruct (CreateMigration _ _ _) as [[] d1]; [|done]. by eapply notified_same; [| |exact H].
  - unfold CreateMigrationTaskWhileIndexingClaim. destruct (has_claim _ _ _); [|done].
    destruct (insert_tasks _ _); [|done]. by eapply notified_same; [| |exact Hd].
  - unfold BulkCreateMigrationTasksWhileIndexingClaim. destruct ts; [done|]. destruct (has_claim _ _ _); [|done].
    destruct (insert_tasks _ _); [|done]. by eapply notified_same; [| |exact Hd].
Qed.

Lemma reachable_notified s : rtc migration_step migration_start s -> keys_used s /\ ends_notified (sys_mdb s).
Proof.
  intros Hr. pose proof start_keys as Hk.
  assert (ends_notified (sys_mdb migration_start)) as Hn.
  { split; cbn; [intros id m; by rewrite lookup_empty|set_solver]. }
  induction Hr as [|s1 s2 s3 H _ IH]; [done|]. apply IH; [by eapply step_keys|by eapply notified_step].
Qed.

(** C29: in every state the program reaches, a migration has the notification event of
    its current number exactly when it is COMPLETED, COMPLETED_WITH_ERRORS or FAILED, and
    no event of a later one: every end is notified once, a retried or re-indexed migration
    is notified again, and the repair sweep finds nothing missing. *)
Theorem migration_ends_notified s :
  rtc migration_step migration_start s ->
  (forall id m, migrations (sys_mdb s) !! id = Some m ->
     (isTerminalMigrationStatus (mg_status m) = true <-> (id, mg_notification m) ∈ notified (sys_mdb s))
     /\ (forall g, (id, g) ∈ notified (sys_mdb s) -> g <= mg_notification m))
  /\ (forall picked, (forall l, l = [] -> picked l = []) ->
      RepairMissingMigrationNotificationEvents picked (sys_mdb s) = (0, sys_mdb s)).
Proof.
  intros Hr. apply reachable_notified in Hr as [_ [A B]]. split; [exact A|].
  intros picked Hp. unfold RepairMissingMigrationNotificationEvents. rewrite Hp; [done|].
  destruct (filter _ _) as [|k l] eqn:E; [done|]. exfalso.
  assert (k ∈ filter (fun k => missing_event (sys_mdb s) k = true) (map fst (map_to_list (migrations (sys_mdb s)))))
    as Hk by (rewrite E; by left).
  apply list_elem_of_filter in Hk as [Hk _]. unfold missing_event, has_claim in Hk.
  destruct (migrations (sys_mdb s) !! k) as [m|] eqn:Em; [|done].
  apply andb_true_iff in Hk as [Ht Hn]. apply negb_true_iff, bool_decide_eq_false in Hn.
  destruct (A k m Em) as [[A1 _] _]. by apply Hn, A1.
Qed.

(** ** Reconciliation *)

Lemma count_where_zero {R} (p : R -> bool) (m : gmap string R) :
  count_where p m = 0 <-> forall k r, m !! k = Some r -> p r = false.
Proof.
  split.
  - intros H k r Hr. apply not_true_is_false. intros Hp. pose proof (count_where_pos p m k r Hr Hp). lia.
  - intros H. unfold count_where. destruct (decide (filter (fun '(_, r) => p r = true) m = ∅)) as [->|Hn]; [done|].
    apply map_choose in Hn as (k & r & [Hr Hp]%map_lookup_filter_Some). by rewrite (H k r Hr) in Hp.
Qed.

Lemma count_where_positive {R} (p : R -> bool) (m : gmap string R) :
  (0 <? count_where p m) = true <-> exists k r, m !! k = Some r /\ p r = true.
Proof.
  rewrite Z.ltb_lt. split; [|intros (k & r & Hr & Hp); exact (count_where_pos p m k r Hr Hp)].
  intros H. apply any_row_true. destruct (any_row p m) eqn:Hn; [done|].
  pose proof (proj1 (any_row_false p m) Hn) as Hz. apply count_where_zero in Hz. lia.
Qed.

Lemma of_migration_true id t : of_migration id t = true <-> mt_migration t = id.
Proof. apply String.eqb_eq. Qed.

Definition task_in (id : string) (d : migration_db) (p : mtask_row -> bool) : Prop :=
  exists k t, mtasks d !! k = Some t /\ mt_migration t = id /\ p t = true.

Lemma active_files_spec id d : (0 <? active_files id d) = true <-> task_in id d active_task.
Proof.
  unfold active_files. rewrite count_where_positive. unfold task_in. setoid_rewrite andb_true_iff.
  by setoid_rewrite of_migration_true.
Qed.

Definition unverified_task (t : mtask_row) : bool := tstatus_in [COMPLETED] t && negb (mt_verified t).

Lemma unverified_spec id d : (0 <? count_unverified false id d) = true <-> task_in id d unverified_task.
Proof.
  unfold count_unverified, done_status, unverified_task. rewrite count_where_positive. unfold task_in.
  split; intros (k & t & Ht & H); exists k, t; (split; [done|]); destruct (mt_verified t), (tstatus_in [COMPLETED] t) eqn:E;
    rewrite ?andb_false_r, ?andb_true_r in *; cbn in *; (rewrite of_migration_true in * || idtac); naive_solver.
Qed.

Definition failed_task (t : mtask_row) : bool := tstatus_in [TFAILED; CANCELLED] t.

Lemma failed_spec id d :
  (0 <? count_status [TFAILED; CANCELLED] id d + error_count id d) = true
  <-> task_in id d failed_task \/ exists e, e ∈ indexing_errors d /\ ie_migration e = id.
Proof.
  assert (0 <= count_status [TFAILED; CANCELLED] id d) by (unfold count_status, count_where; lia).
  assert ((0 <? count_status [TFAILED; CANCELLED] id d) = true <-> task_in id d failed_task) as H1.
  { unfold count_status, done_status, task_in. rewrite count_where_positive. setoid_rewrite andb_true_iff.
    by setoid_rewrite of_migration_true. }
  assert (0 < error_count id d <-> exists e, e ∈ indexing_errors d /\ ie_migration e = id) as H2.
  { unfold error_count. split.
    - intros Hn. destruct (filter _ (indexing_errors d)) as [|e l] eqn:E; [cbn in Hn; lia|].
      exists e. assert (e ∈ filter (fun e => String.eqb (ie_migration e) id = true) (indexing_errors d)) as He
        by (rewrite E; by left). apply list_elem_of_filter in He as [He Hin]. split; [done|]. by apply String.eqb_eq.
    - intros (e & Hin & He). destruct (filter _ (indexing_errors d)) as [|x l] eqn:E; [|cbn; lia].
      exfalso. assert (e ∈ ([] : list indexing_error)) as Hx; [|by apply not_elem_of_nil in Hx].
      rewrite <- E. apply list_elem_of_filter. split; [by apply String.eqb_eq|done]. }
  assert (0 <= error_count id d) by (unfold error_count; lia). rewrite <- H1, <- H2, !Z.ltb_lt. lia.
Qed.

(** What a reconciled migration is, from its tasks. *)
Definition reconciled_as (id : string) (d : migration_db) (s : migration_status) : Prop :=
  match s with
  | MRUNNING => task_in id d active_task
  | MVERIFYING => ~ task_in id d active_task /\ task_in id d unverified_task
  | MCOMPLETED_WITH_ERRORS => ~ task_in id d active_task /\ ~ task_in id d unverified_task
      /\ (task_in id d failed_task \/ exists e, e ∈ indexing_errors d /\ ie_migration e = id)
  | MCOMPLETED => ~ task_in id d active_task /\ ~ task_in id d unverified_task
      /\ ~ (task_in id d failed_task \/ exists e, e ∈ indexing_errors d /\ ie_migration e = id)
  | _ => False
  end.

(** C30: reconciling a migration that is RUNNING or VERIFYING leaves it RUNNING exactly
    while a task is pending, running or parked for a retry, VERIFYING while a completed
    task is unverified, and completes it only after that: with errors exactly when a task
    failed or was cancelled or a resource could not be indexed.  Its counters are those
    of its tasks; a paused, cancelled or ended migration keeps its status. *)
Theorem reconcile_exact id now d m :
  migrations d !! id = Some m -> is_Some (ms_user (mg_spec m)) ->
  exists m', migrations (ReconcileMigrationProgress id now d) !! id = Some m'
  /\ mtasks (ReconcileMigrationProgress id now d) = mtasks d
  /\ (mstatus_in [MRUNNING; MVERIFYING] m = true -> reconciled_as id d (mg_status m'))
  /\ (mstatus_in [MCANCELLED; MPAUSED; MPAUSED_CONNECTION_LOSS; MCOMPLETED; MCOMPLETED_WITH_ERRORS; MFAILED] m = true ->
      mg_status m' = mg_status m)
  /\ mp_processed_files (mg_progress m') = count_status [COMPLETED; SKIPPED; TFAILED; CANCELLED] id d
  /\ mp_processed_bytes (mg_progress m') = done_bytes id d
  /\ mp_failed_files (mg_progress m') = count_status [TFAILED; CANCELLED] id d
  /\ mp_skipped_files (mg_progress m') = count_status [SKIPPED] id d.
Proof.
  intros Hm [u Hu]. exists (reconciled id now d m).
  assert (mg_progress (reconciled id now d m) = mg_progress (reconciled id now d m)) as Hp by done.
  unfold ReconcileMigrationProgress, reconcileMigrationProgress, update_migration.
  rewrite (update_row_hit id _ _ _ m Hm eq_refl). cbn beta iota zeta. unfold has_claim. cbn [migrations set_migrations].
  rewrite lookup_insert_eq. unfold commit, createMigrationNotificationEventTx. cbn [migrations set_migrations].
  rewrite lookup_insert_eq.
  assert (ms_user (mg_spec (reconciled id now d m)) = Some u) as -> by (unfold reconciled; by destruct (_ && _ && _)).
  assert (mg_status (reconciled id now d m) = reconciled_status id d m) as Es by (unfold reconciled; by destruct (_ && _ && _)).
  split_and!.
  - destruct (isTerminalMigrationStatus _); cbn; apply lookup_insert_eq.
  - by destruct (isTerminalMigrationStatus _).
  - intros Hr. rewrite Es. apply mstatus_in_true, list_elem_of_In in Hr. unfold reconciled_status.
    assert (forall l, ~ In MRUNNING l -> ~ In MVERIFYING l -> mstatus_in l m = false) as Hl.
    { intros l H1 H2. apply bool_decide_eq_false. intros Hx%list_elem_of_In. by destruct Hr as [Hr|[Hr|[]]]; rewrite <- Hr in Hx. }
    rewrite !Hl by (cbn; intuition discriminate). cbn [andb].
    pose proof (active_files_spec id d) as H1. pose proof (unverified_spec id d) as H2. pose proof (failed_spec id d) as H3.
    destruct (0 <? active_files id d); [by apply H1|].
    assert (~ task_in id d active_task) as Ha by (intros Hx; by apply H1 in Hx).
    destruct (0 <? count_unverified false id d); [cbn; split; [done|by apply H2]|].
    assert (~ task_in id d unverified_task) as Hn by (intros Hx; by apply H2 in Hx).
    destruct (0 <? _ + _); cbn; (split_and!; [done|done|]); [by apply H3|intros Hx; by apply H3 in Hx].
  - intros Hr. rewrite Es. unfold reconciled_status. by rewrite Hr.
  - unfold reconciled. by destruct (_ && _ && _).
  - unfold reconciled. by destruct (_ && _ && _).
  - unfold reconciled. by destruct (_ && _ && _).
  - unfold reconciled. by destruct (_ && _ && _).
Qed.

(** ** A migration *)

Section Example.
Definition ex_oauth : oauth_columns := mkOAuth "secret" None None.
Definition ex_spec : migration_spec :=
  mkSpec (Some "user") "nextcloud" "dropbox" "/" SKIP ["/a"] [] [] "".
Definition ex_input : task_input := mkInput "files" "/a/f" 3 None (mkMetadata "" [] None []).

Definition ex_created : migration_db :=
  (CreateMigration "m" (new_migration ex_spec ex_oauth ex_oauth MINDEXING 4 1) (sys_mdb migration_start)).2.
Definition ex_indexed : migration_db := (CreateMigrationTaskWhileIndexingClaim "m" 1 "t" ex_input 2 ex_created).2.
Definition ex_running : migration_db := (TransitionMigrationIndexingToRunningClaim "m" 1 3 ex_indexed).2.
Definition ex_claimed : migration_db := (DequeueSQL "w" (Some "t") 4 ex_running).2.
Definition ex_done_state : task_state := mkTaskState COMPLETED 0 None None None None None true.
Definition ex_transferred : migration_db :=
  (UpdateMigrationTaskAndProgress "t" "m" 1 ex_done_state 1 3 0 0 0 5 ex_claimed).2.
Definition ex_ended : migration_db := ReconcileMigrationProgress "m" 6 ex_transferred.

Definition ex_used : gset string := {["t"]} ∪ ({["m"]} ∪ ∅).

Lemma ex_indexed_reachable : rtc migration_step migration_start (mkSys ex_indexed ex_used).
Proof.
  eapply rtc_l.
  - exact (Step_create "m" ex_spec ex_oauth ex_oauth MINDEXING 4 1 None _ _ (not_elem_of_empty "m") (or_introl eq_refl)).
  - apply rtc_once. apply (Step_task "m" 1 "t" ex_input 2). set_solver.
Qed.

Lemma ex_claimed_reachable : rtc migration_step migration_start (mkSys ex_claimed ex_used).
Proof.
  etransitivity; [exact ex_indexed_reachable|]. eapply rtc_l.
  - exact (Step_statement _ _ _ (S_TransitionToRunning "m" 1 3)).
  - apply rtc_once. exact (Step_statement _ _ _ (S_DequeueSQL "w" (Some "t") 4)).
Qed.

Lemma ex_ended_reachable : rtc migration_step migration_start (mkSys ex_ended ex_used).
Proof.
  etransitivity; [exact ex_claimed_reachable|]. eapply rtc_l.
  - exact (Step_statement _ _ _ (S_UpdateTaskAndProgress "t" "m" 1 ex_done_state 1 3 0 0 0 5)).
  - apply rtc_once. exact (Step_statement _ _ _ (S_Reconcile "m" None 6)).
Qed.

Lemma discovery_ends_once_witness :
  write_discovery (W_fail (Some "late")) "m" 1 9 ex_running = (false, ex_running).
Proof.
  apply (discovery_ends_once W_running "m" 1 3 ex_indexed ex_used ex_running (mkSys ex_running ex_used));
    [exact ex_indexed_reachable|lia|reflexivity|vm_compute; reflexivity|apply rtc_refl|discriminate].
Defined.

Lemma migration_claim_ends_once_witness :
  write_claim (C_status ex_done_state) "t" 1 9 ex_transferred = (false, ex_transferred).
Proof.
  refine (proj1 (migration_claim_ends_once (C_progress "m" ex_done_state 1 3 0 0 0) "t" 1 5 ex_claimed ex_used ex_transferred
    (mkSys ex_transferred ex_used) ex_claimed_reachable eq_refl _ (rtc_refl _ _)) (C_status ex_done_state) 9).
  vm_compute. reflexivity.
Defined.

Definition ex_ended_row : migration_row :=
  default (new_migration ex_spec ex_oauth ex_oauth MINDEXING 4 1) (migrations ex_ended !! "m").

Lemma ex_ended_lookup : migrations ex_ended !! "m" = Some ex_ended_row.
Proof. vm_compute. reflexivity. Qed.
Lemma ex_ended_status : isTerminalMigrationStatus (mg_status ex_ended_row) = true.
Proof. vm_compute. reflexivity. Qed.

Lemma migration_ends_notified_witness : ("m", mg_notification ex_ended_row) ∈ notified ex_ended.
Proof.
  exact (proj1 (proj1 (proj1 (migration_ends_notified (mkSys ex_ended ex_used) ex_ended_reachable)
    "m" ex_ended_row ex_ended_lookup)) ex_ended_status).
Defined.

Definition ex_transferred_row : migration_row :=
  default (new_migration ex_spec ex_oauth ex_oauth MINDEXING 4 1) (migrations ex_transferred !! "m").

Lemma ex_transferred_lookup : migrations ex_transferred !! "m" = Some ex_transferred_row.
Proof. vm_compute. reflexivity. Qed.
Lemma ex_transferred_status : mstatus_in [MRUNNING; MVERIFYING] ex_transferred_row = true.
Proof. vm_compute. reflexivity. Qed.
Lemma ex_transferred_owner : is_Some (ms_user (mg_spec ex_transferred_row)).
Proof. exists "user". vm_compute. reflexivity. Qed.

Lemma reconcile_exact_witness :
  exists m', migrations (ReconcileMigrationProgress "m" 6 ex_transferred) !! "m" = Some m'
  /\ reconciled_as "m" ex_transferred (mg_status m').
Proof.
  destruct (reconcile_exact "m" 6 ex_transferred ex_transferred_row ex_transferred_lookup ex_transferred_owner)
    as (m' & Hm & _ & Hr & _). exists m'. split; [exact Hm|]. exact (Hr ex_transferred_status).
Defined.

(** An authentication failure while the source is still being indexed, then a retry: the
    migration completes although its discovery never did. *)
Lemma retry_completes_undiscovered :
  let d1 := (DequeueSQL "w" (Some "t") 4 ex_indexed).2 in
  let d2 := (FailMigrationForAuthentication "t" "m" 1 "401" 5 d1).2 in
  let d3 := (ResetFailedTasksForRetry "m" 6 d2).2 in
  let d4 := (DequeueSQL "w" (Some "t") 7 d3).2 in
  let d5 := (UpdateMigrationTaskAndProgress "t" "m" 2 ex_done_state 1 3 0 0 0 8 d4).2 in
  (fun m => (mg_status m, dc_complete (mg_discovery m))) <$> migrations (ReconcileMigrationProgress "m" 9 d5) !! "m"
  = Some (MCOMPLETED, false).
Proof. vm_compute. reflexivity. Qed.
End Example.
