(* ===== verification/Indexer.v ===== *)
(** * Discovery

    src/backend/internal/indexer/indexer.go: the selection without overlaps,
    [indexFolderWithClaim] as the coordinator of four listing workers, with its
    queue, its batches and its interruption, and [Start], the run of an indexer
    over the selected resources.  The source is a function from folders to
    listings; a provider, a database and an end of the context that answer
    anything are parameters of the run. *)

From S2P Require Import Prelude GoPath Tables HashString SyncDelta SyncBaseline Database MigrationDb MigrationOps.

(** ** The selection *)

Definition isSameOrDescendantPath (candidate parent : string) : bool :=
  String.eqb candidate parent || String.eqb parent "/"
  || has_prefix candidate ((if has_suffix parent "/" then str_take (String.length parent - 1) parent else parent) +:+ "/").

Definition selected_path (candidate : string) : string :=
  let c := path_clean candidate in if String.eqb c "." then "/" else c.

Definition dedup_step (selected : list string) (candidate : string) : list string :=
  let c := selected_path candidate in
  let covered := existsb (isSameOrDescendantPath c) selected in
  let filtered := List.filter (fun e => isSameOrDescendantPath c e || negb (isSameOrDescendantPath e c)) selected in
  if covered then filtered else filtered ++ [c].

Definition deduplicateSelectedPaths (paths : list string) : list string := fold_left dedup_step paths [].

(** ** Resources *)

(** A listed resource with the metadata the indexer reads. *)
Record source_item := mkItem {
  si_path : string;
  si_name : string;
  si_size : Z;
  si_is_dir : bool;
  si_hash : string;
  si_last_modified : option Z;
  si_modified_time : option Z;
  si_custom_props : list (string * string);
}.

Definition custom_prop (key : string) (r : source_item) : option string :=
  snd <$> find (fun '(k, _) => String.eqb k key) (si_custom_props r).

Definition IsPersonalVault (r : source_item) : bool :=
  bool_decide (custom_prop "onedrive_special_folder" r = Some "vault").

(** storage.providerRegistry, as far as the indexer asks it. *)
Definition known_providers : list string :=
  ["nextcloud"; "opencloud"; "google"; "onedrive"; "webdav"; "dropbox"; "hidrive"; "smb"; "s3"; "sftp"; "ftp";
   "magentacloud"; "koofr"; "local"; "immich"; "seafile"; "mega"].

Definition ProviderSupportsResourceType (provider resourceType : string) : bool :=
  if String.eqb resourceType "files" then bool_decide (provider ∈ known_providers)
  else bool_decide (resourceType ∈ ["calendars"; "contacts"]) && bool_decide (provider ∈ ["nextcloud"; "google"]).

Definition IsVirtualProvider (provider : string) : bool := String.eqb provider "immich".

Definition immich_extensions : list string :=
  ["3fr"; "3g2"; "3gp"; "ari"; "arw"; "avif"; "avi"; "bay"; "bmp"; "cap"; "cine"; "cr2"; "cr3"; "crw"; "dcr"; "dcs";
   "dng"; "drf"; "eip"; "erf"; "fff"; "flv"; "gif"; "heic"; "heif"; "iiq"; "jpeg"; "jpg"; "k25"; "kdc"; "m4v"; "mef";
   "mjpeg"; "mkv"; "mos"; "mov"; "mp4"; "mpeg"; "mpg"; "mrw"; "nef"; "nrw"; "orf"; "ori"; "pef"; "png"; "ptx"; "pxn";
   "raf"; "raw"; "rwl"; "rw2"; "r3d"; "sr2"; "srf"; "srw"; "tif"; "tiff"; "vob"; "webm"; "webp"; "wmv"; "x3f"].

Definition isImmichMedia `{GoUnicode} (name : string) : bool :=
  bool_decide (ToLower (trim_prefix (path_ext name) ".") ∈ immich_extensions).

(** [resolve] is the provider's ResourceSizeResolver, when it has one. *)
Definition resolveIndexedFileSize (resolve : option (string -> res string Z)) (r : source_item) : res string Z :=
  if bool_decide (custom_prop "google_workspace_export" r = Some "true")
  then match resolve with
       | Some f => f (si_path r)
       | None => Err "provider does not resolve Google Workspace export sizes"
       end
  else Ok (si_size r).

Definition item_metadata (r : source_item) : task_metadata :=
  mkMetadata "" [] (match si_modified_time r with Some t => Some t | None => si_last_modified r end) (si_custom_props r).

Definition directory_input (resourceType path : string) : task_input :=
  mkInput resourceType path 0 None directoryTaskMetadata.

Definition file_input (resourceType : string) (size : Z) (r : source_item) : task_input :=
  mkInput resourceType (si_path r) size (if String.eqb (si_hash r) "" then None else Some (si_hash r)) (item_metadata r).

Definition input_key (t : task_input) : string :=
  if is_mkdir (in_metadata t) then directory_key (in_resource t) (in_path t)
  else resourceIndexKey (in_resource t) (in_path t).

(** ** The traversal of a folder *)

Definition index_error : Type := string * string * string.
Definition list_error (resourceType path : string) : index_error := (resourceType, path, "Unable to list folder.").
Definition size_error (resourceType path : string) : index_error := (resourceType, path, "Unable to determine file size.").
Definition interrupt_error (resourceType path : string) : index_error :=
  (resourceType, path, "Indexing interrupted before the folder could be listed.").

(** The coordinator's variables.  [wk_flushed] are the batches it handed to the
    database, in order; [wk_failed] says that the last of them was refused. *)
Record walk := mkWalk {
  wk_queue : list string;
  wk_visited : gset string;
  wk_inFlight : list string;
  wk_keys : gset string;
  wk_batch : list task_input;
  wk_flushed : list (list task_input);
  wk_errors : list index_error;
  wk_interrupted : bool;
  wk_failed : bool;
}.

Definition set_walk_queue q v i w :=
  mkWalk q v i (wk_keys w) (wk_batch w) (wk_flushed w) (wk_errors w) (wk_interrupted w) (wk_failed w).
Definition add_key k w :=
  mkWalk (wk_queue w) (wk_visited w) (wk_inFlight w) ({[k]} ∪ wk_keys w) (wk_batch w) (wk_flushed w) (wk_errors w)
    (wk_interrupted w) (wk_failed w).
Definition add_walk_error e w :=
  mkWalk (wk_queue w) (wk_visited w) (wk_inFlight w) (wk_keys w) (wk_batch w) (wk_flushed w) (wk_errors w ++ [e])
    (wk_interrupted w) (wk_failed w).

Definition batch_limit : nat := 500.
Definition indexFolderListingWorkers : nat := 4.

Section Traversal.
Context `{GoUnicode}.
Context (listing : string -> res string (list source_item)).
Context (resolve : option (string -> res string Z)).
Context (resourceType sourceProvider targetProvider : string).

(** Whether the transaction of the last of these batches commits. *)
Context (accepts : list (list task_input) -> bool).

Definition makes_directories : bool := negb (String.eqb targetProvider "immich") && negb (IsVirtualProvider sourceProvider).
Definition media_only : bool := String.eqb targetProvider "immich" && String.eqb resourceType "files".

Definition flushBatch (w : walk) : walk :=
  match wk_batch w with
  | [] => w
  | b => mkWalk (wk_queue w) (wk_visited w) (wk_inFlight w) (wk_keys w) [] (wk_flushed w ++ [b]) (wk_errors w)
           (wk_interrupted w) (negb (accepts (wk_flushed w ++ [b])))
  end.

(** A task joins the batch, which is written when it is full. *)
Definition emit (t : task_input) (w : walk) : walk :=
  let w := mkWalk (wk_queue w) (wk_visited w) (wk_inFlight w) (wk_keys w) (wk_batch w ++ [t]) (wk_flushed w)
             (wk_errors w) (wk_interrupted w) (wk_failed w) in
  if (batch_limit <=? length (wk_batch w))%nat then flushBatch w else w.

Definition enqueue_folder (p : string) (w : walk) : walk :=
  if wk_failed w || bool_decide (p ∈ wk_visited w) then w
  else set_walk_queue (wk_queue w ++ [p]) ({[p]} ∪ wk_visited w) (wk_inFlight w) w.

Definition take_folder (r : source_item) (w : walk) : walk :=
  let key := directory_key resourceType (si_path r) in
  let w := if makes_directories && negb (bool_decide (key ∈ wk_keys w))
           then emit (directory_input resourceType (si_path r)) (add_key key w) else w in
  enqueue_folder (si_path r) w.

Definition take_file (r : source_item) (w : walk) : walk :=
  if media_only && negb (isImmichMedia (si_name r)) then w
  else
    let key := resourceIndexKey resourceType (si_path r) in
    if bool_decide (key ∈ wk_keys w) then w
    else
      let w := add_key key w in
      match resolveIndexedFileSize resolve r with
      | Err _ => add_walk_error (size_error resourceType (si_path r)) w
      | Ok size => emit (file_input resourceType size r) w
      end.

(** One entry of a listing; after a refused batch the function has returned. *)
Definition take_item (w : walk) (r : source_item) : walk :=
  if wk_failed w then w
  else if IsPersonalVault r then w
  else if si_is_dir r then take_folder r w else take_file r w.

Definition take_listing (p : string) (w : walk) : walk :=
  match listing p with
  | Err _ => add_walk_error (list_error resourceType p) w
  | Ok items => fold_left take_item items w
  end.

Definition walk_start (startPath : string) (keys : gset string) (errors : list index_error) : walk :=
  mkWalk [startPath] {[startPath]} [] keys [] [] errors false false.

(** A turn of the coordinator: a folder goes to a worker, the listing of any
    folder in flight arrives, or the context ends and the queue is given up. *)
Inductive walk_step : walk -> walk -> Prop :=
| walk_dispatch w p rest :
    wk_failed w = false -> wk_interrupted w = false -> wk_queue w = p :: rest ->
    (length (wk_inFlight w) < indexFolderListingWorkers)%nat ->
    walk_step w (set_walk_queue rest (wk_visited w) (p :: wk_inFlight w) w)
| walk_listed w l1 p l2 :
    wk_failed w = false -> wk_inFlight w = l1 ++ p :: l2 ->
    walk_step w (take_listing p (set_walk_queue (wk_queue w) (wk_visited w) (l1 ++ l2) w))
| walk_interrupted w p rest :
    wk_failed w = false -> wk_interrupted w = false -> wk_queue w = p :: rest ->
    walk_step w (mkWalk [] (wk_visited w) (wk_inFlight w) (wk_keys w) (wk_batch w) (wk_flushed w)
                   (wk_errors w ++ [interrupt_error resourceType p]) true false).

(** The loop ends; the last batch is written then. *)
Definition walk_done (w : walk) : bool :=
  wk_failed w || (bool_decide (wk_queue w = []) && bool_decide (wk_inFlight w = [])).

Definition walk_result (w : walk) : walk := if wk_failed w then w else flushBatch w.
End Traversal.

(** ** The selection covers what was chosen *)

(** A path without the slash it may end in. *)
Definition stem (p : string) : string :=
  if has_suffix p "/" then str_take (String.length p - 1) p else p.

Lemma str_take_length s t : str_take (String.length s) (s +:+ t) = s.
Proof. induction s as [|c s IH]; [by destruct t|]. rewrite str_app_cons. cbn. by rewrite IH. Qed.

Lemma stem_spec p : p = stem p \/ p = (stem p +:+ "/")%string.
Proof.
  unfold stem. destruct (has_suffix p "/") eqn:E; [right|by left].
  apply has_suffix_slash in E as [q ->]. rewrite str_length_app. cbn [String.length].
  by replace (String.length q + 1 - 1)%nat with (String.length q) by lia; rewrite str_take_length.
Qed.

Lemma descendant_spec c p : isSameOrDescendantPath c p = true <->
  c = p \/ p = "/"%string \/ exists x, c = (stem p +:+ ("/" +:+ x))%string.
Proof.
  unfold isSameOrDescendantPath. fold (stem p). rewrite !orb_true_iff, !String.eqb_eq. split.
  - intros [[H|H]|[x H]%has_prefix_true]; [by left|by right; left|]. right; right. exists x.
    by rewrite H, <- str_app_assoc.
  - intros [H|[H|[x ->]]]; [by left; left|by left; right|]. right. rewrite str_app_assoc. apply has_prefix_app.
Qed.

Lemma descendant_refl c : isSameOrDescendantPath c c = true.
Proof. apply descendant_spec. by left. Qed.

(** A proper path below [q]: what its own descendants share with it. *)
Lemma stem_below p x : exists y, stem (stem p +:+ ("/" +:+ x)) = (stem p +:+ y)%string /\ (y = "" \/ exists z, y = ("/" +:+ z)%string).
Proof.
  unfold stem at 1. destruct (has_suffix _ "/") eqn:E; [|by exists ("/" +:+ x)%string; split; [|right; exists x]].
  apply has_suffix_slash in E as [q E]. rewrite E, str_length_app. cbn [String.length].
  replace (String.length q + 1 - 1)%nat with (String.length q) by lia. rewrite str_take_length.
  clear - E. revert q E. generalize (stem p) as s. intros s. induction s as [|a s IH]; intros q E.
  - rewrite str_app_nil_l in E. exists q. split; [done|]. destruct q as [|b q]; [by left|right].
    rewrite str_app_cons in E. injection E as <- _. by exists q.
  - rewrite str_app_cons in E. destruct q as [|b q].
    + destruct s; discriminate E.
    + rewrite str_app_cons in E. injection E as <- E. destruct (IH q E) as (y & -> & Hy). by exists y.
Qed.

Lemma descendant_trans a b c : a <> ""%string ->
  isSameOrDescendantPath c b = true -> isSameOrDescendantPath b a = true -> isSameOrDescendantPath c a = true.
Proof.
  intros Ha. rewrite !descendant_spec. intros [->|[->|[x ->]]]; [done| |].
  - intros [<-|[->|[y E]]]; [by right; left|by right; left|].
    right; left. destruct (stem_spec a) as [Ea|Ea], (stem a) as [|w s]; try done;
      rewrite str_app_cons in E; injection E as _ E; by destruct s.
  - intros [->|[->|[y ->]]]; [by right; right; exists x|by right; left|].
    right; right. destruct (stem_below a y) as (z & -> & [->|[u ->]]).
    + exists x. by rewrite str_app_nil_r.
    + exists (u +:+ ("/" +:+ x))%string. by rewrite <- !str_app_assoc.
Qed.

Lemma selected_path_nonempty p : selected_path p <> ""%string.
Proof.
  unfold selected_path. destruct (String.eqb (path_clean p) ".") eqn:E; [done|].
  unfold path_clean in *. destruct (String.eqb p ""); [done|]. destruct (rooted p); [done|].
  set (body := join_with _ _) in *. destruct (String.eqb body "") eqn:E2; [done|]. by apply String.eqb_neq.
Qed.

(** A path is among the selected ones, or below one of them. *)
Definition selects (l : list string) (q : string) : bool := existsb (isSameOrDescendantPath q) l.

Lemma selects_spec l q : selects l q = true <-> exists p, p ∈ l /\ isSameOrDescendantPath q p = true.
Proof.
  unfold selects. rewrite existsb_exists. split; intros (p & H & ?); exists p; (split; [|done]);
    by apply list_elem_of_In in H || apply list_elem_of_In.
Qed.

(** No path of the list is the same as, or below, another one. *)
Definition separate (l : list string) : Prop :=
  NoDup l /\ forall p q, p ∈ l -> q ∈ l -> isSameOrDescendantPath p q = true -> p = q.

Lemma dedup_kept l c e : e ∈ List.filter (fun e => isSameOrDescendantPath c e || negb (isSameOrDescendantPath e c)) l
  <-> e ∈ l /\ (isSameOrDescendantPath c e = true \/ isSameOrDescendantPath e c = false).
Proof. by rewrite !list_elem_of_In, filter_In, orb_true_iff, negb_true_iff. Qed.

Lemma dedup_step_separate l candidate : separate l -> separate (dedup_step l candidate).
Proof.
  unfold dedup_step. set (c := selected_path candidate). intros [Hn Hs].
  assert (separate (List.filter (fun e => isSameOrDescendantPath c e || negb (isSameOrDescendantPath e c)) l)) as [Fn Fs].
  { split; [by apply NoDup_ListNoDup, List.NoDup_filter, NoDup_ListNoDup|].
    intros p q [Hp _]%dedup_kept [Hq _]%dedup_kept. by apply Hs. }
  destruct (existsb _ l) eqn:E; [by split|].
  assert (forall e, e ∈ l -> isSameOrDescendantPath c e = false) as Hc.
  { intros e He. destruct (isSameOrDescendantPath c e) eqn:Ee; [|done]. unfold selects in E.
    enough (selects l c = true) as Hx by (unfold selects in Hx; congruence). apply selects_spec. by exists e. }
  split.
  - apply NoDup_app. split; [done|]. split; [|apply NoDup_singleton].
    intros e [He _]%dedup_kept ->%list_elem_of_singleton. specialize (Hc c He). by rewrite descendant_refl in Hc.
  - intros p q. rewrite !elem_of_app, !list_elem_of_singleton. intros [Hp|Hp] [Hq|Hq] H; subst; [by apply Fs| | |done].
    + apply dedup_kept in Hp as [Hp [Hx|Hx]]; [|congruence]. by rewrite (Hc p Hp) in Hx.
    + apply dedup_kept in Hq as [Hq _]. by rewrite (Hc q Hq) in H.
Qed.

Lemma dedup_step_from l candidate x : x ∈ dedup_step l candidate -> x ∈ l \/ x = selected_path candidate.
Proof.
  unfold dedup_step. destruct (existsb _ l); [intros [H _]%dedup_kept; by left|].
  rewrite elem_of_app, list_elem_of_singleton. intros [[H _]%dedup_kept|H]; auto.
Qed.

Lemma dedup_step_selects l candidate q : ""%string ∉ l ->
  selects (dedup_step l candidate) q = selects l q || isSameOrDescendantPath q (selected_path candidate).
Proof.
  intros Hl. apply Bool.eq_iff_eq_true. rewrite orb_true_iff, !selects_spec. split.
  - intros (p & [Hp|Hp]%dedup_step_from & H); subst; [left; by exists p|by right].
  - pose proof (selected_path_nonempty candidate) as Hne. unfold dedup_step. set (c := selected_path candidate) in *.
    assert (isSameOrDescendantPath q c = true -> exists p, p ∈ (if existsb (isSameOrDescendantPath c) l
        then List.filter (fun e => isSameOrDescendantPath c e || negb (isSameOrDescendantPath e c)) l
        else List.filter (fun e => isSameOrDescendantPath c e || negb (isSameOrDescendantPath e c)) l ++ [c])
        /\ isSameOrDescendantPath q p = true) as Hc.
    { intros Hq. destruct (existsb _ l) eqn:E.
      - apply existsb_exists in E as (e & He%list_elem_of_In & Hce). exists e. split; [apply dedup_kept; auto|].
        eapply descendant_trans; [|exact Hq|exact Hce]. by intros ->.
      - exists c. split; [|done]. apply elem_of_app. right. by apply list_elem_of_singleton. }
    intros [(p & Hp & H)|H]; [|by apply Hc]. destruct (isSameOrDescendantPath p c) eqn:E.
    + destruct (isSameOrDescendantPath c p) eqn:E2; [|apply Hc; by eapply descendant_trans].
      exists p. split; [|done]. destruct (existsb _ l); rewrite ?elem_of_app; [|left]; apply dedup_kept; auto.
    + exists p. split; [|done]. destruct (existsb _ l); rewrite ?elem_of_app; [|left]; apply dedup_kept; auto.
Qed.

Lemma dedup_fold paths l q : ""%string ∉ l -> separate l ->
  separate (fold_left dedup_step paths l)
  /\ (forall x, x ∈ fold_left dedup_step paths l -> x ∈ l \/ x ∈ map selected_path paths)
  /\ selects (fold_left dedup_step paths l) q = selects l q || selects (map selected_path paths) q.
Proof.
  revert l. induction paths as [|p paths IH]; intros l Hl Hs; cbn [fold_left map].
  - split; [done|]. split; [by left|]. by rewrite orb_false_r.
  - destruct (IH (dedup_step l p)) as (A & B & C).
    + intros [H|H]%dedup_step_from; [done|]. by apply (selected_path_nonempty p).
    + by apply dedup_step_separate.
    + split; [done|]. split.
      * intros x [[H|H]%dedup_step_from|H]%B; subst; [by left|right; by left|right; by right].
      * rewrite C, dedup_step_selects by done. rewrite <- orb_assoc. done.
Qed.

(** ** Below, read from the components

    A path contains another one when its components are the first components of
    the other one; the root contains every path.  On the paths a selection can
    have, this is what the prefix test of [isSameOrDescendantPath] decides. *)
Definition contains (p q : string) : Prop := p = "/" \/ split_on slash p `prefix_of` split_on slash q.

(** No path of the list contains another one, and none is there twice. *)
Definition disjoint_trees (l : list string) : Prop :=
  NoDup l /\ forall p q, p ∈ l -> q ∈ l -> contains q p -> p = q.

Lemma join_split c s : join_with (String c "") (split_on c s) = s.
Proof.
  induction s as [|a s IH]; [done|]. cbn [split_on]. destruct (Ascii.eqb_spec a c) as [->|Hn].
  - pose proof (split_on_not_nil c s). destruct (split_on c s) as [|x l]; [done|]. cbn [join_with] in *.
    by rewrite IH, str_app_nil_l.
  - destruct (split_on c s) as [|x l] eqn:E; [by destruct (split_on_not_nil c s)|]. rewrite <- IH. by destruct l.
Qed.

Lemma join_pieces_app sep l k : l <> [] -> k <> [] ->
  join_with sep (l ++ k) = (join_with sep l +:+ (sep +:+ join_with sep k))%string.
Proof.
  intros Hl Hk. induction l as [|x l IH]; [done|]. destruct l as [|y l].
  - destruct k; [done|]. done.
  - change ((x +:+ (sep +:+ join_with sep ((y :: l) ++ k)))%string
            = ((x +:+ (sep +:+ join_with sep (y :: l))) +:+ (sep +:+ join_with sep k))%string).
    rewrite IH by done. by rewrite !str_app_assoc.
Qed.

(** A cleaned path ends in a slash only when it is the root. *)
Lemma clean_step_parts root stk e :
  Forall (fun x => x <> "" /\ str_count slash x = O) stk -> str_count slash e = O ->
  Forall (fun x => x <> "" /\ str_count slash x = O) (clean_step root stk e).
Proof.
  intros Hs He. unfold clean_step. destruct (String.eqb_spec e ""); [done|]. destruct (String.eqb e "."); [done|].
  cbn [orb]. destruct (String.eqb e "..").
  - destruct Hs as [|top rest [Ht Ht2] Hr]; [destruct root; [constructor|by repeat constructor]|].
    destruct (String.eqb top ".."); [|done]. repeat constructor; done.
  - by constructor.
Qed.

Lemma fold_clean_parts root l stk :
  Forall (fun x => x <> "" /\ str_count slash x = O) stk -> Forall (fun x => str_count slash x = O) l ->
  Forall (fun x => x <> "" /\ str_count slash x = O) (fold_left (clean_step root) l stk).
Proof.
  revert stk. induction l as [|e l IH]; intros stk Hs Hl; [done|]. apply Forall_cons in Hl as [He Hl].
  apply IH; [|done]. by apply clean_step_parts.
Qed.

Lemma selected_path_end p : selected_path p = "/" \/ stem (selected_path p) = selected_path p.
Proof.
  assert (forall q, q <> "/"%string -> Forall (fun x => x <> "") (tl (split_on slash q)) -> stem q = q) as Hq.
  { intros q Hr Hf. unfold stem. destruct (has_suffix q "/") eqn:E; [|done]. exfalso.
    apply has_suffix_slash in E as [r ->].
    replace (r +:+ "/")%string with (r +:+ String slash "")%string in * by done. rewrite split_on_app in Hf.
    pose proof (split_on_not_nil slash r). destruct (split_on slash r) as [|x l] eqn:Er; [done|].
    cbn in Hf. apply Forall_app in Hf as [_ Hf]. apply Forall_cons in Hf as [Hf _]. by apply Hf. }
  unfold selected_path, path_clean. destruct (String.eqb p ""); [by left|].
  set (l := rev (fold_left (clean_step (rooted p)) (split_on slash p) [])).
  assert (Forall (fun x => x <> "" /\ str_count slash x = O) l) as Hl
    by (apply Forall_rev, fold_clean_parts; [constructor|apply split_on_parts]).
  assert (split_on slash (join_with "/" l) = if decide (l = []) then [""] else l) as Hj.
  { destruct (decide (l = [])) as [->|Hne]; [done|]. apply (split_on_join slash); [done|].
    eapply Forall_impl; [exact Hl|]. by intros x []. }
  assert (Forall (fun x => x <> "") l) as Hl' by (eapply Forall_impl; [exact Hl|]; by intros x []).
  destruct (rooted p).
  - destruct (String.eqb _ "."); [by left|]. destruct (decide (l = [])) as [->|Hne]; [by left|]. right. apply Hq.
    + destruct l as [|x l0]; [done|]. apply Forall_cons in Hl' as [Hx _]. destruct x; [done|]. by destruct l0.
    + change ("/" +:+ join_with "/" l)%string with ("" +:+ String slash (join_with "/" l))%string.
      rewrite split_on_app, Hj. done.
  - destruct (String.eqb (join_with "/" l) "") eqn:E0; [by left|].
    destruct (String.eqb (join_with "/" l) "."); [by left|]. right. apply Hq.
    + intros E. rewrite E in Hj. destruct (decide (l = [])) as [E1|]; [discriminate Hj|]. cbn in Hj. rewrite <- Hj in Hl'.
      by apply Forall_cons in Hl' as [].
    + rewrite Hj. destruct (decide (l = [])); [constructor|]. by destruct Hl'.
Qed.

Lemma descendant_contains p q : p = "/"%string \/ stem p = p ->
  isSameOrDescendantPath q p = true <-> contains p q.
Proof.
  intros Hp. rewrite descendant_spec. unfold contains. split.
  - intros [->|[->|[x ->]]]; [by right|by left|]. destruct Hp as [->|Hp]; [by left|]. right. rewrite Hp.
    change (p +:+ ("/" +:+ x))%string with (p +:+ String slash x)%string. rewrite split_on_app. by apply prefix_app_r.
  - intros [->|[k Hk]]; [by right; left|]. destruct Hp as [->|Hp]; [by right; left|]. rewrite Hp.
    rewrite <- (join_split slash q), Hk. destruct k as [|x k].
    + left. by rewrite app_nil_r, join_split.
    + right; right. exists (join_with "/" (x :: k)).
      rewrite (join_pieces_app "/") by (done || apply split_on_not_nil). by rewrite join_split.
Qed.

Lemma selects_contains l q : (forall p, p ∈ l -> p = "/"%string \/ stem p = p) ->
  selects l q = true <-> exists p, p ∈ l /\ contains p q.
Proof.
  intros Hl. rewrite selects_spec. split; intros (p & Hp & H); exists p; (split; [done|]); by apply descendant_contains; auto.
Qed.

(** C33: the selection that is walked is equivalent to the one the user made: it keeps
    selected paths only; a path is at or below one of its paths exactly when it is at or
    below one the user selected; and it has no path twice and none inside another one,
    whatever the order and spelling in which parents, children and repetitions were
    chosen.  Selected paths are cleaned first; "at or below" is read from the
    components ([contains]), so [/ab] is not below [/a]. *)
Theorem dedup_exact paths :
  (forall q, (exists p, p ∈ deduplicateSelectedPaths paths /\ contains p q)
             <-> (exists p, p ∈ paths /\ contains (selected_path p) q))
  /\ (forall x, x ∈ deduplicateSelectedPaths paths -> x ∈ map selected_path paths)
  /\ disjoint_trees (deduplicateSelectedPaths paths).
Proof.
  assert (separate []) as Hs by (split; [constructor|intros p q []%elem_of_nil]).
  assert (""%string ∉ []) as Hl by apply not_elem_of_nil.
  assert (forall x, x ∈ deduplicateSelectedPaths paths -> x ∈ map selected_path paths) as Hin.
  { intros x Hx. destruct (dedup_fold paths [] x Hl Hs) as (_ & H & _). by destruct (H x Hx) as [[]%elem_of_nil|]. }
  assert (forall x, x ∈ map selected_path paths -> x = "/"%string \/ stem x = x) as Hend.
  { intros x (p & -> & _)%list_elem_of_fmap. apply selected_path_end. }
  split_and!; [|done|].
  - intros q. rewrite <- selects_contains by auto. destruct (dedup_fold paths [] q Hl Hs) as (_ & _ & E).
    unfold deduplicateSelectedPaths. rewrite E. cbn [selects existsb orb]. rewrite selects_contains by done. split.
    + intros (x & (p & -> & Hp)%list_elem_of_fmap & H). by exists p.
    + intros (p & Hp & H). exists (selected_path p). split; [|done]. apply list_elem_of_fmap. by exists p.
  - destruct (dedup_fold paths [] "" Hl Hs) as ([Hn Hd] & _). split; [done|].
    intros p q Hp Hq H. apply Hd; [done|done|]. apply descendant_contains; auto.
Qed.

(** ** What a traversal has to find *)

Section Walk_spec.
Context `{GoUnicode}.
Context (listing : string -> res string (list source_item)).
Context (resolve : option (string -> res string Z)).
Context (resourceType sourceProvider targetProvider : string).
Context (accepts : list (list task_input) -> bool).
Context (startPath : string) (keys0 : gset string) (errors0 : list index_error).

Local Abbreviation step := (walk_step listing resolve resourceType sourceProvider targetProvider accepts).
Local Abbreviation start := (walk_start startPath keys0 errors0).
Local Abbreviation item_step := (take_item resolve resourceType sourceProvider targetProvider accepts).
Local Abbreviation dirs := (makes_directories sourceProvider targetProvider).

(** A folder that can be reached through the listings; the vault is not entered. *)
Inductive source_folder : string -> Prop :=
| folder_start : source_folder startPath
| folder_child d items r :
    source_folder d -> listing d = Ok items -> r ∈ items -> IsPersonalVault r = false -> si_is_dir r = true ->
    source_folder (si_path r).

(** An entry of such a folder the migration takes: a folder unless the target has
    none, a file unless only media are taken. *)
Inductive source_entry : source_item -> Prop :=
| entry_listed d items r :
    source_folder d -> listing d = Ok items -> r ∈ items -> IsPersonalVault r = false ->
    (if si_is_dir r then dirs = true
     else media_only resourceType targetProvider && negb (isImmichMedia (si_name r)) = false) ->
    source_entry r.

Definition entry_key (r : source_item) : string :=
  if si_is_dir r then directory_key resourceType (si_path r) else resourceIndexKey resourceType (si_path r).

(** The task of an entry: its size is the listed one, or the one an export has. *)
Inductive entry_task : source_item -> task_input -> Prop :=
| task_directory r : si_is_dir r = true -> entry_task r (directory_input resourceType (si_path r))
| task_file r size : si_is_dir r = false -> resolveIndexedFileSize resolve r = Ok size ->
    entry_task r (file_input resourceType size r).

Definition emitted (w : walk) : list task_input := concat (wk_flushed w) ++ wk_batch w.

(** ** What the operations keep *)

Definition walk_extends (w w' : walk) : Prop :=
  wk_keys w ⊆ wk_keys w' /\ wk_visited w ⊆ wk_visited w' /\ wk_errors w ⊆ wk_errors w'.

#[local] Instance walk_extends_preorder : PreOrder walk_extends.
Proof. split; [by intros w|]. intros w1 w2 w3 (?&?&?) (?&?&?). split_and!; by etrans. Qed.

Lemma entry_task_key r t : entry_task r t -> input_key t = entry_key r.
Proof. unfold entry_key. by intros [r' ->|r' size -> _]. Qed.

(** The queue of folders: only a new folder changes it, and a refused batch. *)
Lemma emit_keeps t w :
  wk_queue (emit accepts t w) = wk_queue w /\ wk_visited (emit accepts t w) = wk_visited w
  /\ wk_inFlight (emit accepts t w) = wk_inFlight w /\ wk_keys (emit accepts t w) = wk_keys w
  /\ wk_errors (emit accepts t w) = wk_errors w /\ wk_interrupted (emit accepts t w) = wk_interrupted w
  /\ emitted (emit accepts t w) = emitted w ++ [t].
Proof.
  unfold emit, flushBatch, emitted. case_match; cbn; [|by rewrite app_assoc].
  destruct (wk_batch w ++ [t]) eqn:E; cbn; [by destruct (wk_batch w)|]. split_and!; [done..|].
  rewrite <- E, concat_app. cbn [concat]. by rewrite !app_nil_r, app_assoc.
Qed.

Definition batches_bounded (w : walk) : Prop :=
  Forall (fun b => (1 <= length b <= batch_limit)%nat) (wk_flushed w)
  /\ (length (wk_batch w) < batch_limit)%nat.

Lemma emit_bounded t w : batches_bounded w -> batches_bounded (emit accepts t w).
Proof.
  unfold batches_bounded, emit, flushBatch. intros [Hf Hb]. cbn [wk_batch wk_flushed].
  assert (length (wk_batch w ++ [t]) = length (wk_batch w) + 1)%nat as El by (by rewrite length_app).
  destruct (batch_limit <=? length (wk_batch w ++ [t]))%nat eqn:E; cbn [wk_batch wk_flushed]; [|split; [done|]; apply Nat.leb_gt in E; lia].
  apply Nat.leb_le in E. destruct (wk_batch w ++ [t]) eqn:Eb; [by destruct (wk_batch w)|]. cbn [wk_batch wk_flushed].
  split; [|cbn [length]; unfold batch_limit; lia]. apply Forall_app. split; [done|]. apply Forall_singleton. lia.
Qed.

(** A key is taken before the traversal, or by a task, or by a file without a size. *)
Definition explained (w : walk) (k : string) : Prop :=
  k ∈ keys0 \/ k ∈ map input_key (emitted w)
  \/ exists p, k = resourceIndexKey resourceType p /\ size_error resourceType p ∈ wk_errors w.

Definition entry_settled (w : walk) (r : source_item) : Prop :=
  IsPersonalVault r = true
  \/ (si_is_dir r = true -> si_path r ∈ wk_visited w)
     /\ ((if si_is_dir r then dirs = true
          else media_only resourceType targetProvider && negb (isImmichMedia (si_name r)) = false) ->
         entry_key r ∈ wk_keys w).

Definition folder_settled (w : walk) (p : string) : Prop :=
  match listing p with
  | Err _ => list_error resourceType p ∈ wk_errors w
  | Ok items => forall r, r ∈ items -> entry_settled w r
  end.

Definition outstanding (w : walk) (p : string) : Prop := p ∈ wk_queue w ++ wk_inFlight w.

Record walk_inv (w : walk) : Prop := {
  wi_folders : forall p, p ∈ wk_visited w -> source_folder p;
  wi_outstanding : forall p, outstanding w p -> p ∈ wk_visited w;
  wi_tasks : forall t, t ∈ emitted w -> exists r, source_entry r /\ entry_task r t;
  wi_fresh : forall t, t ∈ emitted w -> input_key t ∉ keys0;
  wi_once : NoDup (map input_key (emitted w));
  wi_keys0 : keys0 ⊆ wk_keys w;
  wi_taken : forall t, t ∈ emitted w -> input_key t ∈ wk_keys w;
  wi_explained : forall k, k ∈ wk_keys w -> explained w k;
  wi_errors : errors0 ⊆ wk_errors w;
  wi_batches : wk_failed w = false -> batches_bounded w;
}.

Lemma add_new_key k t w :
  walk_inv w -> k ∉ wk_keys w -> input_key t = k ->
  (exists r, source_entry r /\ entry_task r t) -> wk_failed w = false -> walk_inv (emit accepts t (add_key k w)).
Proof.
  intros [I1 I2 I3 I4 I5 I6 I7 I8 I9 I10] Hk <- Hr Hf.
  destruct (emit_keeps t (add_key (input_key t) w)) as (E1 & E2 & E3 & E4 & E5 & E6 & E7).
  assert (emitted (add_key (input_key t) w) = emitted w) as E8 by done. rewrite E8 in E7.
  split; unfold outstanding, explained; rewrite ?E1, ?E2, ?E3, ?E4, ?E5, ?E7; cbn [wk_keys wk_visited wk_queue wk_inFlight wk_errors add_key].
  - done.
  - done.
  - intros t' [Ht| ->%list_elem_of_singleton]%elem_of_app; auto.
  - intros t' [Ht| ->%list_elem_of_singleton]%elem_of_app; [auto|]. intros Hx. by apply Hk, I6.
  - rewrite map_app. cbn. apply NoDup_app. split; [done|]. split; [|apply NoDup_singleton].
    intros k Hx ->%list_elem_of_singleton. apply list_elem_of_fmap in Hx as (t' & E & Ht).
    apply Hk. rewrite E. by apply I7.
  - set_solver.
  - intros t' [Ht| ->%list_elem_of_singleton]%elem_of_app; [|set_solver]. specialize (I7 t' Ht). set_solver.
  - intros k. rewrite elem_of_union, elem_of_singleton, map_app, elem_of_app. intros [->|Hx].
    + right; left; right. by left.
    + destruct (I8 k Hx) as [Ha|[Ha|Ha]]; auto.
  - done.
  - intros _. apply emit_bounded. by apply I10.
Qed.

Lemma same_inv w w' :
  wk_queue w' = wk_queue w -> wk_visited w' = wk_visited w -> wk_inFlight w' = wk_inFlight w ->
  wk_keys w' = wk_keys w -> wk_batch w' = wk_batch w -> wk_flushed w' = wk_flushed w -> wk_failed w' = wk_failed w ->
  wk_errors w ⊆ wk_errors w' -> walk_inv w -> walk_inv w'.
Proof.
  intros E1 E2 E3 E4 E5 E6 E7 He [I1 I2 I3 I4 I5 I6 I7 I8 I9 I10].
  assert (emitted w' = emitted w) as E8 by (unfold emitted; by rewrite E5, E6).
  split; unfold outstanding, batches_bounded; rewrite ?E1, ?E2, ?E3, ?E4, ?E5, ?E6, ?E7, ?E8; try done; [|set_solver].
  intros k Hk. destruct (I8 k Hk) as [Ha|[Ha|(q & -> & Ha)]]; [by left|right; left; by rewrite E8|].
  right; right. exists q. split; [done|]. set_solver.
Qed.

(** A file without a size takes its key and leaves an error. *)
Lemma size_failure_inv q w : walk_inv w ->
  walk_inv (add_walk_error (size_error resourceType q) (add_key (resourceIndexKey resourceType q) w)).
Proof.
  intros [I1 I2 I3 I4 I5 I6 I7 I8 I9 I10]. split; cbn; try done.
  - etrans; [done|]. set_solver.
  - intros t Ht. specialize (I7 t Ht). set_solver.
  - intros k. rewrite elem_of_union, elem_of_singleton. unfold explained. cbn [wk_errors add_walk_error add_key]. intros [->|Hx].
    + right; right. exists q. split; [done|]. set_solver.
    + destruct (I8 k Hx) as [Ha|[Ha|(p & -> & Ha)]]; [by left|by right; left|]. right; right. exists p. set_solver.
  - set_solver.
Qed.

Lemma enqueue_folder_inv q w : source_folder q -> walk_inv w -> walk_inv (enqueue_folder q w).
Proof.
  intros Hq. unfold enqueue_folder. destruct (_ || _) eqn:E; [done|].
  intros [I1 I2 I3 I4 I5 I6 I7 I8 I9 I10]. split; cbn; try done.
  - intros p. set_solver.
  - intros p. unfold outstanding in *. cbn. specialize (I2 p). set_solver.
Qed.

(** What an entry does to the queue, besides the tasks. *)
Definition queue_grows (w w' : walk) : Prop :=
  wk_inFlight w' = wk_inFlight w /\ wk_interrupted w' = wk_interrupted w
  /\ (exists l, wk_queue w' = wk_queue w ++ l)
  /\ forall p, p ∈ wk_visited w' -> p ∈ wk_visited w \/ p ∈ wk_queue w'.

Lemma queue_grows_trans w1 w2 w3 : queue_grows w1 w2 -> queue_grows w2 w3 -> queue_grows w1 w3.
Proof.
  intros (A1 & B1 & [l1 C1] & D1) (A2 & B2 & [l2 C2] & D2). split_and!; [congruence|congruence| |].
  - exists (l1 ++ l2). by rewrite C2, C1, app_assoc.
  - intros p [Hp|Hp]%D2; [|by right]. apply D1 in Hp as [Hp|Hp]; [by left|right]. rewrite C2. apply elem_of_app. by left.
Qed.

Lemma same_queue_grows w w' : wk_queue w' = wk_queue w -> wk_visited w' = wk_visited w ->
  wk_inFlight w' = wk_inFlight w -> wk_interrupted w' = wk_interrupted w -> queue_grows w w'.
Proof. intros E1 E2 E3 E4. unfold queue_grows. rewrite E1, E2. split_and!; try done; [exists []; by rewrite app_nil_r|by left]. Qed.

Lemma enqueue_grows q w : queue_grows w (enqueue_folder q w) /\ walk_extends w (enqueue_folder q w)
  /\ wk_failed (enqueue_folder q w) = wk_failed w
  /\ (wk_failed w = false -> q ∈ wk_visited (enqueue_folder q w)).
Proof.
  unfold enqueue_folder. destruct (wk_failed w) eqn:Ef; cbn [orb]; [by split_and!; [by apply same_queue_grows|done|..]|].
  case_bool_decide; [by split_and!; [by apply same_queue_grows|done|..]|]. split_and!; [| |done|cbn; set_solver].
  - split_and!; try done; [by eexists|]. cbn. set_solver.
  - split_and!; cbn; set_solver.
Qed.

Lemma emit_new k t w :
  queue_grows w (emit accepts t (add_key k w)) /\ walk_extends w (emit accepts t (add_key k w))
  /\ k ∈ wk_keys (emit accepts t (add_key k w)).
Proof.
  destruct (emit_keeps t (add_key k w)) as (E1 & E2 & E3 & E4 & E5 & E6 & _).
  split; [by apply same_queue_grows|]. unfold walk_extends. rewrite E2, E4, E5. cbn. set_solver.
Qed.

Lemma item_keeps d items r w :
  source_folder d -> listing d = Ok items -> r ∈ items -> walk_inv w -> wk_failed w = false ->
  walk_inv (item_step w r) /\ queue_grows w (item_step w r) /\ walk_extends w (item_step w r)
  /\ (wk_failed (item_step w r) = false -> entry_settled (item_step w r) r).
Proof.
  intros Hd Hl Hr Hi Hf. unfold take_item. rewrite Hf.
  destruct (IsPersonalVault r) eqn:Ev.
  { split_and!; [done|by apply same_queue_grows|done|by left]. }
  destruct (si_is_dir r) eqn:Ed.
  - unfold take_folder. set (key := directory_key resourceType (si_path r)).
    assert (entry_key r = key) as Ek by (unfold entry_key; by rewrite Ed).
    assert (source_folder (si_path r)) as Hp by (by eapply folder_child).
    set (w1 := if _ && _ then _ else w).
    assert (walk_inv w1 /\ queue_grows w w1 /\ walk_extends w w1 /\ (dirs = true -> key ∈ wk_keys w1)) as (I1 & Q1 & X1 & K1).
    { unfold w1. destruct dirs eqn:Em; cbn [andb negb]; [|split_and!; [done|by apply same_queue_grows|done|done]].
      case_bool_decide as Hk; cbn [negb]; [split_and!; [done|by apply same_queue_grows|done|by destruct (decide (key ∈ wk_keys w)); [|tauto]]|].
      destruct (emit_new key (directory_input resourceType (si_path r)) w) as (A & B & C).
      split_and!; [|done|done|done]. apply add_new_key; [done|done|done| |done].
      exists r. split; [|by constructor]. apply (entry_listed d items r Hd Hl Hr Ev). by rewrite Ed. }
    destruct (enqueue_grows (si_path r) w1) as (Q2 & X2 & F2 & V2).
    split_and!; [by apply enqueue_folder_inv|by eapply queue_grows_trans|by etrans|].
    rewrite F2. intros Hf1. right. rewrite Ed, Ek. split; [intros _; by apply V2|].
    intros Hm. destruct X2 as (HK & _). by apply HK, K1.
  - unfold take_file.
    destruct (media_only resourceType targetProvider && negb (isImmichMedia (si_name r))) eqn:Em.
    { split_and!; [done|by apply same_queue_grows|done|]. intros _. right. rewrite Ed. by split; [|rewrite Em]. }
    set (key := resourceIndexKey resourceType (si_path r)).
    assert (entry_key r = key) as Ek by (unfold entry_key; by rewrite Ed).
    assert (forall w', key ∈ wk_keys w' -> entry_settled w' r) as Hs.
    { intros w' Hk. right. rewrite Ed, Ek. by split. }
    case_bool_decide as Hk; [by split_and!; [done|by apply same_queue_grows|done|intros _; apply Hs]|].
    destruct (resolveIndexedFileSize resolve r) as [size|e] eqn:Es.
    + destruct (emit_new key (file_input resourceType size r) w) as (A & B & C).
      split_and!; [|done|done|intros _; by apply Hs]. apply add_new_key; [done|done|done| |done].
      exists r. split; [|by constructor]. apply (entry_listed d items r Hd Hl Hr Ev). by rewrite Ed.
    + split_and!; [by apply size_failure_inv|by apply same_queue_grows| |intros _; apply Hs; cbn; set_solver].
      unfold walk_extends. cbn. set_solver.
Qed.

Lemma entry_settled_extends w w' r : walk_extends w w' -> entry_settled w r -> entry_settled w' r.
Proof. intros (A & B & C) [H1|[H1 H2]]; [by left|right]. split; [|intros Hk; by apply A, H2]. intros Hd. by apply B, H1. Qed.

Lemma folder_settled_extends w w' p : walk_extends w w' -> folder_settled w p -> folder_settled w' p.
Proof.
  unfold folder_settled. intros Hx. destruct (listing p); [|by destruct Hx as (_ & _ & He); apply He].
  intros Hs r Hr. by eapply entry_settled_extends, Hs.
Qed.

Lemma failed_items items w : wk_failed w = true -> fold_left item_step items w = w.
Proof. intros Hf. induction items as [|r items IH]; [done|]. cbn [fold_left]. unfold take_item at 2. by rewrite Hf. Qed.

Lemma items_keep d items l w :
  source_folder d -> listing d = Ok items -> l ⊆ items -> walk_inv w -> wk_failed w = false ->
  walk_inv (fold_left item_step l w) /\ queue_grows w (fold_left item_step l w)
  /\ walk_extends w (fold_left item_step l w)
  /\ (wk_failed (fold_left item_step l w) = false -> forall r, r ∈ l -> entry_settled (fold_left item_step l w) r).
Proof.
  intros Hd Hl. revert w. induction l as [|r l IH]; intros w Hsub Hi Hf; cbn [fold_left].
  { split_and!; [done|by apply same_queue_grows|done|]. by intros _ r []%elem_of_nil. }
  destruct (item_keeps d items r w Hd Hl ltac:(set_solver) Hi Hf) as (I1 & Q1 & X1 & S1).
  destruct (wk_failed (item_step w r)) eqn:Ef; [by rewrite failed_items; [rewrite Ef|]|].
  destruct (IH (item_step w r) ltac:(set_solver) I1 Ef) as (I2 & Q2 & X2 & S2).
  split_and!; [done|by eapply queue_grows_trans|by etrans|].
  intros Hf2 r' [->|Hr]%elem_of_cons; [|by apply S2]. eapply entry_settled_extends; [done|]. by apply S1.
Qed.

(** Every folder seen is waiting, or with a worker, or settled. *)
Definition covered (w : walk) : Prop :=
  forall p, p ∈ wk_visited w -> outstanding w p \/ folder_settled w p.

Definition walk_ok (w : walk) : Prop :=
  walk_inv w /\ (wk_failed w = false -> wk_interrupted w = false -> covered w)
  /\ (wk_interrupted w = true -> exists p, interrupt_error resourceType p ∈ wk_errors w)
  /\ startPath ∈ wk_visited w.

Lemma start_outstanding p : p ∈ wk_visited start -> outstanding start p.
Proof. cbn. intros ->%elem_of_singleton. unfold outstanding. cbn. by left. Qed.

Lemma start_inv : walk_inv start.
Proof.
  split; unfold outstanding, emitted; cbn.
  - intros p ->%elem_of_singleton. constructor.
  - intros p ->%list_elem_of_singleton. set_solver.
  - intros t []%elem_of_nil.
  - intros t []%elem_of_nil.
  - constructor.
  - done.
  - intros t []%elem_of_nil.
  - intros k Hk. by left.
  - done.
  - intros _. split; [constructor|unfold batch_limit; cbn; lia].
Qed.

Lemma walk_start_ok : walk_ok start.
Proof. split_and!; [apply start_inv|intros _ _ p Hp; left; by apply start_outstanding|done|cbn; set_solver]. Qed.

Lemma dispatch_inv w q i : wk_queue w ++ wk_inFlight w ≡ₚ q ++ i -> walk_inv w ->
  walk_inv (set_walk_queue q (wk_visited w) i w).
Proof.
  intros Hp [I1 I2 I3 I4 I5 I6 I7 I8 I9 I10]. split; try done. intros p. unfold outstanding in *. cbn. rewrite <- Hp. apply I2.
Qed.

Lemma listed_inv w l1 p l2 : wk_inFlight w = l1 ++ p :: l2 -> walk_inv w ->
  walk_inv (set_walk_queue (wk_queue w) (wk_visited w) (l1 ++ l2) w).
Proof.
  intros Hq [I1 I2 I3 I4 I5 I6 I7 I8 I9 I10]. split; try done. intros x. unfold outstanding in *. cbn.
  specialize (I2 x). rewrite Hq in I2. set_solver.
Qed.

Lemma listing_keeps w p : source_folder p -> walk_inv w -> wk_failed w = false ->
  let w' := take_listing listing resolve resourceType sourceProvider targetProvider accepts p w in
  walk_inv w' /\ queue_grows w w' /\ walk_extends w w' /\ (wk_failed w' = false -> folder_settled w' p).
Proof.
  intros Hp Hi Hf. cbn zeta. unfold take_listing, folder_settled. destruct (listing p) as [items|e] eqn:El.
  - by apply (items_keep p items).
  - split_and!; [|by apply same_queue_grows| |intros _; cbn; set_solver].
    + eapply same_inv; [..|exact Hi]; try done. cbn. set_solver.
    + unfold walk_extends. cbn. set_solver.
Qed.

Lemma walk_step_ok w w' : step w w' -> walk_ok w -> walk_ok w'.
Proof.
  intros [v p rest Hf Hn Hq Hlen|v l1 p l2 Hf Hq|v p rest Hf Hn Hq] (Hi & Hc & He & Hs).
  - split_and!; [apply dispatch_inv; [|done]; rewrite Hq; cbn; by apply Permutation_middle| |done|done].
    intros _ _ x Hx. destruct (Hc Hf Hn x Hx) as [Ho|Ho]; [left|by right].
    unfold outstanding in *. rewrite Hq in Ho. cbn. set_solver.
  - set (v0 := set_walk_queue (wk_queue v) (wk_visited v) (l1 ++ l2) v).
    assert (walk_inv v0) as Hi0 by (by eapply listed_inv).
    assert (source_folder p) as Hp.
    { apply (wi_folders _ Hi), (wi_outstanding _ Hi). unfold outstanding. rewrite Hq. set_solver. }
    destruct (listing_keeps v0 p Hp Hi0 Hf) as (I1 & (Q1 & Q2 & [l Q3] & Q4) & X & S). cbn zeta in *.
    set (v1 := take_listing _ _ _ _ _ _ p v0) in *. split_and!; [done| | |].
    + intros Hf1 Hn1 x Hx. destruct (Q4 x Hx) as [Hx0|Hx0]; [|left; apply elem_of_app; by left].
      assert (wk_interrupted v = false) as Hn by (by rewrite <- Hn1, Q2).
      destruct (Hc Hf Hn x Hx0) as [Ho|Ho]; [|right; eapply folder_settled_extends; [exact X|exact Ho]].
      unfold outstanding in *. rewrite Hq in Ho. rewrite Q1, Q3. cbn.
      destruct (decide (x = p)) as [->|]; [right; by apply S|left; set_solver].
    + rewrite Q2. intros Hn. destruct (He Hn) as [x Hx]. exists x. by apply X.
    + by apply X.
  - split_and!; [|done| |done].
    + destruct Hi as [I1 I2 I3 I4 I5 I6 I7 I8 I9 I10]. split; cbn; try done.
      * intros x Hx. apply I2. unfold outstanding in *. cbn in Hx. rewrite Hq. set_solver.
      * intros k Hk. destruct (I8 k Hk) as [Ha|[Ha|(x & -> & Ha)]]; [by left|by right; left|].
        right; right. exists x. split; [done|]. cbn. set_solver.
      * set_solver.
      * intros _. by apply I10.
    + intros _. exists p. cbn. set_solver.
Qed.

Definition walk_reach (w : walk) : Prop := rtc step start w.

Lemma walk_reach_ok w : walk_reach w -> walk_ok w.
Proof.
  intros Hr. eapply (rtc_ind_r walk_ok); [apply walk_start_ok| |exact Hr]. intros w1 w2 _ Hs. by apply walk_step_ok.
Qed.

Lemma flush_keeps w : walk_ok w -> wk_errors (flushBatch accepts w) = wk_errors w
  /\ wk_batch (flushBatch accepts w) = [] /\ emitted (flushBatch accepts w) = emitted w
  /\ (wk_failed w = false -> Forall (fun b => (1 <= length b <= batch_limit)%nat) (wk_flushed (flushBatch accepts w))).
Proof.
  intros (Hi & _). unfold flushBatch, emitted. pose proof (wi_batches _ Hi) as Hb. unfold batches_bounded in Hb.
  destruct (wk_batch w) as [|t b] eqn:E; cbn; [rewrite ?E; split_and!; [done..|]; intros Hf; by apply Hb|].
  split_and!; [done|done| |].
  - by rewrite concat_app, app_nil_r; cbn; rewrite app_nil_r.
  - intros Hf. destruct (Hb Hf) as [H1 H2]. apply Forall_app. split; [done|]. apply Forall_singleton. cbn [length] in *. lia.
Qed.

Lemma walk_done_settled w d : walk_ok w -> walk_done w = true -> wk_failed w = false -> wk_interrupted w = false ->
  d ∈ wk_visited w -> folder_settled w d.
Proof.
  intros (Hi & Hc & _) Hd Hf Hn Hv.
  destruct (Hc Hf Hn d Hv) as [Ho|]; [|done].
  unfold walk_done in Hd. rewrite Hf in Hd. cbn [orb] in Hd. apply andb_prop in Hd as [E1 E2]. apply bool_decide_eq_true in E1, E2.
  unfold outstanding in Ho. rewrite E1, E2 in Ho. by apply elem_of_nil in Ho.
Qed.

Lemma walk_done_visited w d : walk_ok w -> walk_done w = true -> wk_failed w = false -> wk_interrupted w = false ->
  source_folder d -> d ∈ wk_visited w.
Proof.
  intros Hw Hd Hf Hn. induction 1 as [|d items r Hp IH Hl Hr Hv Hdir]; [by apply Hw|].
  pose proof (walk_done_settled w d Hw Hd Hf Hn IH) as Hs. unfold folder_settled in Hs. rewrite Hl in Hs.
  destruct (Hs r Hr) as [|[H1 _]]; [congruence|]. by apply H1.
Qed.

(** What a traversal wrote. *)
Definition written (w : walk) : list task_input := concat (wk_flushed (walk_result accepts w)).

Lemma result_written w : walk_ok w -> wk_failed w = false ->
  written w = emitted w /\ wk_errors (walk_result accepts w) = wk_errors w
  /\ Forall (fun b => (1 <= length b <= batch_limit)%nat) (wk_flushed (walk_result accepts w)).
Proof.
  intros Hw Hf. destruct (flush_keeps w Hw) as (E1 & E2 & E3 & E4). unfold written, walk_result. rewrite Hf.
  split_and!; [|done|by apply E4]. rewrite <- E3. unfold emitted. by rewrite E2, app_nil_r.
Qed.

(** C32: a traversal that ends without a refused batch wrote one task for each wanted
    entry below its start, and nothing else, in whatever order the four workers
    answered.  Every task is that of an entry reached through the listings, its key is
    new and no key is written twice, in batches of 1 to 500.  Conversely the
    key of every entry was there before or was written, unless the entry is a file whose
    size could not be determined, and that is among the errors; so is every folder
    that could not be listed, and an interruption. *)
Theorem traversal_exact w :
  walk_reach w -> walk_done w = true -> wk_failed w = false ->
  let errors := wk_errors (walk_result accepts w) in
  (forall t, t ∈ written w -> (input_key t ∉ keys0) /\ exists r, source_entry r /\ entry_task r t)
  /\ NoDup (map input_key (written w))
  /\ Forall (fun b => (1 <= length b <= batch_limit)%nat) (wk_flushed (walk_result accepts w))
  /\ errors0 ⊆ errors
  /\ (wk_interrupted w = true -> exists p, interrupt_error resourceType p ∈ errors)
  /\ (wk_interrupted w = false ->
       (forall d e, source_folder d -> listing d = Err e -> list_error resourceType d ∈ errors)
       /\ forall r, source_entry r -> entry_key r ∈ keys0 \/ entry_key r ∈ map input_key (written w)
            \/ exists p, entry_key r = resourceIndexKey resourceType p /\ size_error resourceType p ∈ errors).
Proof.
  intros Hr Hd Hf. cbn zeta. pose proof (walk_reach_ok w Hr) as Hw.
  destruct (result_written w Hw Hf) as (-> & -> & Hb). pose proof Hw as (Hi & Hc & He & Hs). split_and!; [| |done|apply Hi|done|].
  - intros t Ht. split; [by apply (wi_fresh _ Hi)|by apply (wi_tasks _ Hi)].
  - apply Hi.
  - intros Hn. split.
    + intros d e Hsd El. pose proof (walk_done_settled w d Hw Hd Hf Hn (walk_done_visited w d Hw Hd Hf Hn Hsd)) as Hx.
      unfold folder_settled in Hx. by rewrite El in Hx.
    + intros r [d items r' Hsd El Hr' Hv Hm]. apply (wi_explained _ Hi).
      pose proof (walk_done_settled w d Hw Hd Hf Hn (walk_done_visited w d Hw Hd Hf Hn Hsd)) as Hx.
      unfold folder_settled in Hx. rewrite El in Hx. destruct (Hx r' Hr') as [|[_ H2]]; [congruence|]. by apply H2.
Qed.

(** ** Termination *)

(** Work left when all folders are in [D]: two steps for a folder not seen yet or
    waiting, one for a listing in flight. *)
Definition walk_work (D : gset string) (w : walk) : nat :=
  (2 * size (D ∖ wk_visited w) + 2 * length (wk_queue w) + length (wk_inFlight w))%nat.

Lemma enqueue_folder_work D q w : q ∈ D -> (walk_work D (enqueue_folder q w) <= walk_work D w)%nat.
Proof.
  intros Hq. unfold enqueue_folder. destruct (wk_failed w); cbn [orb]; [done|]. case_bool_decide as Hv; [done|].
  unfold walk_work. cbn. rewrite length_app. cbn.
  assert (size (D ∖ wk_visited w) = S (size (D ∖ ({[q]} ∪ wk_visited w)))) as ->; [|lia].
  transitivity (size ({[q]} ∪ (D ∖ ({[q]} ∪ wk_visited w)))).
  - f_equal. apply set_eq. intros x. destruct (decide (x = q)) as [->|]; set_solver.
  - rewrite size_union, size_singleton by set_solver. done.
Qed.

Lemma take_item_work D r w : (IsPersonalVault r = false -> si_is_dir r = true -> si_path r ∈ D) ->
  (walk_work D (item_step w r) <= walk_work D w)%nat.
Proof.
  intros HD. unfold take_item. destruct (wk_failed w); [done|]. destruct (IsPersonalVault r); [done|].
  assert (forall k t, walk_work D (emit accepts t (add_key k w)) = walk_work D w) as He.
  { intros k t. unfold walk_work. by destruct (emit_keeps t (add_key k w)) as (-> & -> & -> & _). }
  destruct (si_is_dir r).
  - unfold take_folder. etrans; [by apply enqueue_folder_work, HD|]. destruct (_ && _); [|done]. by rewrite He.
  - unfold take_file. repeat case_match; try done. by rewrite He.
Qed.

Lemma take_listing_work D p w : (forall q, source_folder q -> q ∈ D) -> source_folder p ->
  (walk_work D (take_listing listing resolve resourceType sourceProvider targetProvider accepts p w) <= walk_work D w)%nat.
Proof.
  intros HD Hp. unfold take_listing. destruct (listing p) as [items|] eqn:El; [|done].
  assert (forall l, l ⊆ items -> forall w, (walk_work D (fold_left item_step l w) <= walk_work D w)%nat) as Hl; [|by apply Hl].
  clear w. intros l. induction l as [|r l IH]; intros Hs w; [done|]. cbn [fold_left].
  etrans; [apply IH; set_solver|]. apply take_item_work. intros Hv Hdir. apply HD. eapply folder_child; [done|done| |done|done].
  set_solver.
Qed.

Lemma walk_step_work D w w' : (forall q, source_folder q -> q ∈ D) -> walk_ok w -> step w w' ->
  (walk_work D w' < walk_work D w)%nat.
Proof.
  intros HD (Hi & _) Hs. revert Hi. destruct Hs as [v p rest _ _ Hq _|v l1 p l2 Hf Hq|v p rest _ _ Hq]; intros Hi.
  - unfold walk_work. cbn. rewrite Hq. cbn. lia.
  - eapply Nat.le_lt_trans; [apply take_listing_work; [done|]|].
    + apply (wi_folders _ Hi), (wi_outstanding _ Hi). unfold outstanding. rewrite Hq. set_solver.
    + unfold walk_work. cbn. rewrite Hq, !length_app. cbn. lia.
  - unfold walk_work. cbn. rewrite Hq. cbn. lia.
Qed.

(** The traversal of a source with finitely many folders takes at most two turns
    per folder, and until it is interrupted it is never stuck: either it is done, or
    a folder can be handed out or a listing arrives. *)
Theorem traversal_terminates (D : gset string) :
  (forall q, source_folder q -> q ∈ D) ->
  (forall n w, nsteps step n start w -> (n <= 2 * size D)%nat)
  /\ (forall w, walk_reach w -> wk_interrupted w = false -> walk_done w = true \/ exists w', step w w').
Proof.
  intros HD. split.
  - intros n w Hn.
    assert (forall w1, nsteps step n w1 w -> walk_ok w1 -> (n + walk_work D w <= walk_work D w1)%nat) as Hw.
    { clear Hn. induction n as [|n IH]; intros w1 Hn Hw1; inversion Hn as [|n' w1' w2 w3 H1 H2]; subst; [done|].
      pose proof (walk_step_work D _ _ HD Hw1 H1). specialize (IH w2 H2 (walk_step_ok _ _ H1 Hw1)). lia. }
    specialize (Hw start Hn walk_start_ok). enough (walk_work D start <= 2 * size D)%nat by lia.
    unfold walk_work. cbn.
    assert (startPath ∈ D) as Hs by (apply HD; constructor).
    assert (size D = S (size (D ∖ {[startPath]}))) as ->; [|lia].
    transitivity (size ({[startPath]} ∪ D ∖ {[startPath]})).
    + f_equal. apply set_eq. intros x. destruct (decide (x = startPath)) as [->|]; set_solver.
    + rewrite size_union, size_singleton by set_solver. done.
  - intros w Hr Hn. unfold walk_done. destruct (wk_failed w) eqn:Ef; [by left|]. cbn [orb].
    destruct (wk_inFlight w) as [|p l] eqn:Ei; [|right; eexists; by apply (walk_listed _ _ _ _ _ _ w [] p l)].
    destruct (wk_queue w) as [|p l] eqn:Eq; [by left|right]. eexists. apply walk_dispatch; [done|done|exact Eq|].
    rewrite Ei. unfold indexFolderListingWorkers. cbn. lia.
Qed.
End Walk_spec.

(** ** A traversal by a single worker *)

Section Run.
Context `{GoUnicode}.
Context (listing : string -> res string (list source_item)).
Context (resolve : option (string -> res string Z)).
Context (resourceType sourceProvider targetProvider : string).
Context (accepts : list (list task_input) -> bool).

Fixpoint walk_run (fuel : nat) (w : walk) : walk :=
  match fuel with
  | O => w
  | S fuel =>
      if wk_failed w then w
      else match wk_inFlight w, wk_queue w with
      | p :: rest, _ =>
          walk_run fuel (take_listing listing resolve resourceType sourceProvider targetProvider accepts p
            (set_walk_queue (wk_queue w) (wk_visited w) rest w))
      | [], p :: rest =>
          if wk_interrupted w then w else walk_run fuel (set_walk_queue rest (wk_visited w) (p :: wk_inFlight w) w)
      | [], [] => w
      end
  end.

Lemma walk_run_steps fuel w :
  rtc (walk_step listing resolve resourceType sourceProvider targetProvider accepts) w (walk_run fuel w).
Proof.
  revert w. induction fuel as [|fuel IH]; intros w; [constructor|]. cbn.
  destruct (wk_failed w) eqn:Ef; [constructor|]. destruct (wk_inFlight w) as [|p rest] eqn:Ei.
  - destruct (wk_queue w) as [|p rest] eqn:Eq; [constructor|]. destruct (wk_interrupted w) eqn:En; [constructor|].
    eapply rtc_l; [apply walk_dispatch; [done|done|exact Eq|rewrite Ei; unfold indexFolderListingWorkers; cbn; lia]|].
    rewrite Ei. apply IH.
  - eapply rtc_l; [by apply (walk_listed _ _ _ _ _ _ w [] p rest)|]. apply IH.
Qed.
End Run.

#[local] Existing Instance ascii_tables.

Definition ex_file (p : string) (size : Z) : source_item := mkItem p (path_base p) size false "" None None [].
Definition ex_folder (p : string) : source_item := mkItem p (path_base p) 0 true "" None None [].
Definition ex_listing (p : string) : res string (list source_item) :=
  if String.eqb p "/" then Ok [ex_file "/f" 1; ex_folder "/d"; ex_folder "/x"]
  else if String.eqb p "/d" then Ok [ex_file "/d/g" 2; ex_folder "/d/e"] else Err "offline".

Definition ex_walk : walk :=
  walk_run ex_listing None "files" "webdav" "nextcloud" (fun _ => true) 20 (walk_start "/" {["files:/f"]} []).

Example ex_walk_written : map input_key (written (fun _ => true) ex_walk) = ["dir:files:/d"; "dir:files:/x"; "files:/d/g"; "dir:files:/d/e"]
  /\ wk_errors ex_walk = [list_error "files" "/x"; list_error "files" "/d/e"].
Proof. vm_compute. done. Qed.

Lemma ex_folders p :
  source_folder ex_listing "/" p -> p ∈ ["/"; "/d"; "/x"; "/d/e"].
Proof.
  induction 1 as [|d items r Hd IH Hl Hr Hv Hdir]; [by left|]. rewrite !elem_of_cons in IH.
  destruct IH as [->|[->|[->|[->|IH]]]]; [..|by apply elem_of_nil in IH]; try discriminate Hl; injection Hl as <-;
    rewrite !elem_of_cons in Hr; (destruct Hr as [->|[->|Hr]]; [discriminate Hdir|set_solver|]);
    [destruct Hr as [->|Hr%elem_of_nil]; [set_solver|done]|by apply elem_of_nil in Hr].
Qed.

Lemma traversal_exact_witness :
  walk_done ex_walk = true
  /\ forall r, source_entry ex_listing "files" "webdav" "nextcloud" "/" r ->
       entry_key "files" r ∈ ({["files:/f"]} : gset string)
       \/ entry_key "files" r ∈ map input_key (written (fun _ => true) ex_walk)
       \/ exists p, entry_key "files" r = resourceIndexKey "files" p
            /\ size_error "files" p ∈ wk_errors (walk_result (fun _ => true) ex_walk).
Proof.
  assert (walk_done ex_walk = true) as Hd by (vm_compute; reflexivity). split; [exact Hd|].
  destruct (traversal_exact ex_listing None "files" "webdav" "nextcloud" (fun _ => true) "/" {["files:/f"]} [] ex_walk)
    as (_ & _ & _ & _ & _ & H).
  - apply walk_run_steps.
  - exact Hd.
  - vm_compute. reflexivity.
  - apply H. vm_compute. reflexivity.
Defined.

Lemma traversal_terminates_witness :
  exists n, nsteps (walk_step ex_listing None "files" "webdav" "nextcloud" (fun _ => true)) n
    (walk_start "/" {["files:/f"]} []) ex_walk /\ (n <= 8)%nat.
Proof.
  destruct (traversal_terminates ex_listing None "files" "webdav" "nextcloud" (fun _ => true) "/" {["files:/f"]} []
              {["/"; "/d"; "/x"; "/d/e"]}) as [H _].
  { intros q Hq. apply ex_folders in Hq. set_solver. }
  destruct (rtc_nsteps_1 _ _ (walk_run_steps ex_listing None "files" "webdav" "nextcloud" (fun _ => true) 20
    (walk_start "/" {["files:/f"]} []))) as [n Hn].
  exists n. split; [exact Hn|]. exact (H n _ Hn).
Defined.

(** ** An interruption the coordinator does not survive *)

(** The root is listed, [/d] is handed out, the context ends and [/x] is given up,
    and then the listing of [/d] arrives with a folder below it. *)
Definition ex_take (p : string) (w : walk) : walk :=
  take_listing ex_listing None "files" "webdav" "nextcloud" (fun _ => true) p (set_walk_queue (wk_queue w) (wk_visited w) [] w).
Definition ex_give (p : string) (rest : list string) (w : walk) : walk :=
  set_walk_queue rest (wk_visited w) (p :: wk_inFlight w) w.
Definition ex_root : walk := ex_give "/" [] (walk_start "/" {["files:/f"]} []).
Definition ex_before : walk := ex_give "/d" ["/x"] (ex_take "/" ex_root).
Definition ex_stopped : walk :=
  mkWalk [] (wk_visited ex_before) (wk_inFlight ex_before) (wk_keys ex_before) (wk_batch ex_before) (wk_flushed ex_before)
    (wk_errors ex_before ++ [interrupt_error "files" "/x"]) true false.

(** A listing that was started before the interruption may add a folder after it, and
    then the loop of the coordinator neither ends nor has anything left to do. *)
Lemma interrupted_walk_spins :
  exists w, walk_reach ex_listing None "files" "webdav" "nextcloud" (fun _ => true) "/" {["files:/f"]} [] w
    /\ walk_done w = false
    /\ forall w', ~ walk_step ex_listing None "files" "webdav" "nextcloud" (fun _ => true) w w'.
Proof.
  exists (ex_take "/d" ex_stopped). split; [|split].
  - apply (rtc_l _ _ ex_root); [apply walk_dispatch; [reflexivity..|cbn; unfold indexFolderListingWorkers; lia]|].
    apply (rtc_l _ _ (ex_take "/" ex_root)); [by apply (walk_listed _ _ _ _ _ _ ex_root [] "/" [])|].
    apply (rtc_l _ _ ex_before); [apply walk_dispatch; [vm_compute; reflexivity..|apply Nat.leb_le; vm_compute; reflexivity]|].
    apply (rtc_l _ _ ex_stopped); [apply (walk_interrupted _ _ _ _ _ _ ex_before "/x" []); vm_compute; reflexivity|].
    apply rtc_once. apply (walk_listed _ _ _ _ _ _ ex_stopped [] "/d" []); vm_compute; reflexivity.
  - vm_compute. reflexivity.
  - intros w' Hs. remember (ex_take "/d" ex_stopped) as w eqn:E.
    destruct Hs as [v p rest _ Hn|v l1 p l2 _ Hq|v p rest _ Hn]; subst v; [discriminate Hn| |discriminate Hn].
    vm_compute in Hq. by destruct l1.
Qed.
