(* ===== verification/IndexerRun.v ===== *)
(** * The run of an indexer

    [Indexer.Start] (src/backend/internal/indexer/indexer.go): the claim it
    checks and renews, the selected files, calendars and contacts it walks,
    the tasks it inserts under its generation, and the end it decides.  The run
    is that of an indexer nobody interferes with; what other processes do
    between its statements is the subject of MigrationState.v, and every
    statement here may be refused. *)

From S2P Require Import Prelude GoPath Tables HashString SyncDelta SyncBaseline Database MigrationDb MigrationOps MigrationTasks Indexer.

(** The variables of a run: the keys that are taken, the errors, the database. *)
Record index_state := mkIndex {
  ix_keys : gset string;
  ix_errors : list index_error;
  ix_db : migration_db;
}.

(** A run goes on, or stops after ErrMigrationIndexingClaimLost. *)
Inductive index_outcome : Type :=
| Continue (s : index_state)
| Stop (d : migration_db).

Definition index_bind (o : index_outcome) (f : index_state -> index_outcome) : index_outcome :=
  match o with Continue s => f s | Stop d => Stop d end.

Definition record_error (e : index_error) (s : index_state) : index_state :=
  mkIndex (ix_keys s) (ix_errors s ++ [e]) (ix_db s).
Definition take_key (k : string) (s : index_state) : index_state :=
  mkIndex ({[k]} ∪ ix_keys s) (ix_errors s) (ix_db s).

Section Indexing.
Context `{GoUnicode}.

(** The source: its inspections, its listings by resource type, its resolver of
    export sizes.  [fresh] generates the key of a task. *)
Context (inspect : string -> res string source_item).
Context (listing : string -> string -> res string (list source_item)).
Context (resolve : string -> option (string -> res string Z)).
Context (fresh : gset string -> string).
Context (id : string) (generation now : Z) (sourceProvider targetProvider : string).

(** The run of a traversal: where it ends, among the runs [walk_step] allows. *)
Context (traverse : string -> string -> gset string -> list index_error -> (list (list task_input) -> bool) -> walk).

Fixpoint with_ids (used : gset string) (ts : list task_input) : list (string * task_input) :=
  match ts with
  | [] => []
  | t :: ts => (fresh used, t) :: with_ids ({[fresh used]} ∪ used) ts
  end.

Definition create_task (t : task_input) (d : migration_db) : bool * migration_db :=
  CreateMigrationTaskWhileIndexingClaim id generation (fresh (dom (mtasks d))) t now d.

Definition create_batch (b : list task_input) (d : migration_db) : bool * migration_db :=
  BulkCreateMigrationTasksWhileIndexingClaim id generation (with_ids (dom (mtasks d)) b) now d.

(** The batches of a traversal, up to one that is refused. *)
Definition create_batches (bs : list (list task_input)) (d : migration_db) : bool * migration_db :=
  fold_left (fun r b => let '(ok, d) := r in if (ok : bool) then create_batch b d else (false, d)) bs (true, d).

Definition indexFolderClaim (resourceType p : string) (s : index_state) : index_outcome :=
  let accepts bs := fst (create_batches bs (ix_db s)) in
  let w := walk_result accepts (traverse resourceType p (ix_keys s) (ix_errors s) accepts) in
  let '(ok, d) := create_batches (wk_flushed w) (ix_db s) in
  if ok then Continue (mkIndex (wk_keys w) (wk_errors w) d) else Stop d.

Definition insert_one (k : string) (t : task_input) (s : index_state) : index_outcome :=
  let '(ok, d) := create_task t (ix_db s) in
  if ok then Continue (mkIndex ({[k]} ∪ ix_keys s) (ix_errors s) d) else Stop d.

(** The task of a selected folder; the root exists on every target. *)
Definition index_root (p : string) (s : index_state) : index_outcome :=
  let key := directory_key "files" p in
  if negb (String.eqb p "/") && makes_directories sourceProvider targetProvider && negb (bool_decide (key ∈ ix_keys s))
  then insert_one key (directory_input "files" p) s else Continue s.

(** A selected file; the task has the selected path, whatever path the source reports. *)
Definition index_file (p : string) (r : source_item) (s : index_state) : index_outcome :=
  if String.eqb targetProvider "immich" && negb (isImmichMedia (si_name r)) then Continue s
  else
    let key := resourceIndexKey "files" p in
    if bool_decide (key ∈ ix_keys s) then Continue s
    else
      let r := mkItem p (si_name r) (si_size r) (si_is_dir r) (si_hash r) (si_last_modified r) (si_modified_time r)
                 (si_custom_props r) in
      match resolveIndexedFileSize (resolve "files") r with
      | Err _ => Continue (record_error (size_error "files" p) (take_key key s))
      | Ok size => insert_one key (file_input "files" size r) s
      end.

Definition vault_message : string := "OneDrive Personal Vault cannot be migrated through the API".

Definition index_path (p : string) (s : index_state) : index_outcome :=
  match inspect p with
  | Err _ => Continue (record_error ("files", p, "Unable to inspect selected path.") s)
  | Ok r =>
      if IsPersonalVault r then Continue (record_error ("files", p, vault_message) s)
      else if si_is_dir r then index_bind (index_root p s) (indexFolderClaim "files" p)
      else index_file p r s
  end.

Definition index_all (f : string -> index_state -> index_outcome) (l : list string) (s : index_state) : index_outcome :=
  fold_left (fun o p => index_bind o (f p)) l (Continue s).

Definition unsupported (resourceType p : string) : index_error :=
  (resourceType, p, "resource type " +:+ resourceType +:+ " not supported by source " +:+ sourceProvider
     +:+ " or target " +:+ targetProvider).

(** Calendars and contacts are walked when both providers have them. *)
Definition index_collections (resourceType : string) (l : list string) (s : index_state) : index_outcome :=
  if ProviderSupportsResourceType sourceProvider resourceType && ProviderSupportsResourceType targetProvider resourceType
  then index_all (indexFolderClaim resourceType) l s
  else Continue (mkIndex (ix_keys s) (ix_errors s ++ map (unsupported resourceType) l) (ix_db s)).

Definition index_selection (paths calendars contacts : list string) (s : index_state) : index_outcome :=
  index_bind (index_bind (index_all index_path (deduplicateSelectedPaths paths) s)
    (index_collections "calendars" calendars)) (index_collections "contacts" contacts).
End Indexing.

Section Start.
Context `{GoUnicode}.
Context (SanitizeError : string -> string).
Context (inspect : string -> res string source_item).
Context (listing : string -> string -> res string (list source_item)).
Context (resolve : string -> option (string -> res string Z)).
Context (fresh : gset string -> string).

Definition failMigration (id : string) (generation : Z) (msg : string) (now : Z) (d : migration_db) : migration_db :=
  (FailMigrationWhileIndexingClaim id generation (Some (SanitizeError msg)) now d).2.

Definition record_errors (id : string) (errors : list index_error) (d : migration_db) : migration_db :=
  match errors with [] => d | _ => RecordIndexingErrors id errors d end.

(** The totals are those of the stored tasks; they decide the end. *)
Definition finish_indexing (id : string) (generation now : Z) (s : index_state) : migration_db :=
  let d := record_errors id (ix_errors s) (ix_db s) in
  let '(totalItems, totalBytes) := MigrationTaskTotals id d in
  let '(ok, d1) := UpdateMigrationTotalsWhileIndexingClaim id generation totalItems totalBytes now d in
  if negb ok then failMigration id generation "Unable to finalize indexing totals." now d1
  else if (totalItems =? 0) && negb (length (ix_errors s) =? 0)%nat
  then failMigration id generation "No selected resources could be indexed." now d1
  else if totalItems =? 0 then (TransitionMigrationIndexingToCompletedClaim id generation now d1).2
  else
    let '(ok, d2) := TransitionMigrationIndexingToRunningClaim id generation now d1 in
    if ok then ReconcileMigrationProgress id now d2 else d2.

(** [prepare] is the outcome of what precedes the traversal: credentials, token
    refresh, session, client and connection, with the message of the first that
    fails. *)
Definition Start (prepare : option string) (lease : Z)
    (traverse : Z -> string -> string -> string -> string -> gset string -> list index_error ->
                (list (list task_input) -> bool) -> walk)
    (id : string) (now : Z) (d : migration_db) : migration_db :=
  match migrations d !! id with
  | None => failMigration id 0 "Unable to load migration details." now d
  | Some m =>
      if negb (mstatus_in [MINDEXING] m) || dc_complete (mg_discovery m) then d
      else
        let g := dc_generation (mg_discovery m) in
        let sp := ms_source_provider (mg_spec m) in
        let tp := ms_target_provider (mg_spec m) in
        let '(owned, d1) := RenewMigrationIndexingLease id g lease now d in
        if negb owned then d1
        else match prepare with
        | Some msg => failMigration id g msg now d1
        | None =>
            match index_selection inspect resolve fresh id g now sp tp (traverse g sp tp)
                    (ms_selected_paths (mg_spec m)) (ms_selected_calendars (mg_spec m)) (ms_selected_contacts (mg_spec m))
                    (mkIndex (MigrationIndexedTaskKeys id d1) [] d1) with
            | Continue s => finish_indexing id g now s
            | Stop d2 => d2
            end
        end
  end.
End Start.

(** ** What an uninterrupted run keeps *)

Section Indexing_spec.
Context `{GoUnicode}.
Context (inspect : string -> res string source_item).
Context (listing : string -> string -> res string (list source_item)).
Context (resolve : string -> option (string -> res string Z)).
Context (fresh : gset string -> string).
Context (id : string) (generation now : Z) (sourceProvider targetProvider : string).
Context (traverse : string -> string -> gset string -> list index_error -> (list (list task_input) -> bool) -> walk).

(** A generated key is new, and a traversal is one of those the coordinator may make. *)
Context (fresh_new : forall used, fresh used ∉ used).
Context (traverse_runs : forall rt p keys errors accepts,
  walk_reach (listing rt) (resolve rt) rt sourceProvider targetProvider accepts p keys errors (traverse rt p keys errors accepts)
  /\ walk_done (traverse rt p keys errors accepts) = true).

Local Abbreviation batches := (create_batches fresh id generation now).
Local Abbreviation batch := (create_batch fresh id generation now).
Local Abbreviation new := (fun t => new_mtask id t now).

Lemma tasks_of_insert k t (d : migration_db) m : m !! k = None -> of_migration id t = true ->
  tasks_of id (set_mtasks (fun _ => <[k := t]> m) d) ≡ₚ t :: tasks_of id (set_mtasks (fun _ => m) d).
Proof.
  intros Hk Ht. unfold tasks_of. cbn [mtasks set_mtasks]. rewrite map_filter_insert_True by done.
  rewrite map_to_list_insert; [done|]. apply map_lookup_filter_None. by left.
Qed.

Lemma insert_ids ts used m (d : migration_db) : dom m ⊆ used ->
  exists m', insert_tasks (map (fun '(k, t) => (k, new t)) (with_ids fresh used ts)) m = Some m'
  /\ tasks_of id (set_mtasks (fun _ => m') d) ≡ₚ tasks_of id (set_mtasks (fun _ => m) d) ++ map new ts.
Proof.
  revert used m. induction ts as [|t ts IH]; intros used m Hd; cbn.
  { exists m. split; [done|]. by rewrite app_nil_r. }
  assert (m !! fresh used = None) as Hk.
  { apply not_elem_of_dom. pose proof (fresh_new used). set_solver. }
  rewrite Hk. destruct (IH ({[fresh used]} ∪ used) (<[fresh used := new t]> m)) as (m' & E & P).
  { rewrite dom_insert_L. set_solver. }
  exists m'. split; [exact E|]. rewrite P, tasks_of_insert by (done || apply String.eqb_refl). cbn. by rewrite Permutation_middle.
Qed.

(** The indexer holds its claim: the row is INDEXING under its generation. *)
Definition owns_discovery (d : migration_db) : Prop :=
  exists m, migrations d !! id = Some m /\ mg_status m = MINDEXING /\ dc_generation (mg_discovery m) = generation.

Lemma holds_has_claim d : owns_discovery d ->
  has_claim id (fun m => mstatus_in [MINDEXING] m && (dc_generation (mg_discovery m) =? generation)) d = true
  /\ has_claim id (indexing_claim generation) d = true.
Proof.
  intros (m & Hm & Hs & Hg). unfold has_claim, indexing_claim. rewrite Hm.
  assert (mstatus_in [MINDEXING] m = true) as -> by (apply bool_decide_eq_true; rewrite Hs; by left).
  cbn. rewrite Hg, Z.eqb_refl. by rewrite orb_true_r.
Qed.

(** A change of the tasks only. *)
Definition only_tasks (d d' : migration_db) : Prop := exists m, d' = set_mtasks (fun _ => m) d.

#[local] Instance only_tasks_preorder : PreOrder only_tasks.
Proof.
  split; [intros d; exists (mtasks d); by destruct d|].
  intros d1 d2 d3 [m1 ->] [m2 ->]. by exists m2.
Qed.

Lemma only_tasks_claim d d' : only_tasks d d' -> owns_discovery d -> owns_discovery d'.
Proof. intros [m ->]. done. Qed.

Lemma set_mtasks_id d : set_mtasks (fun _ => mtasks d) d = d.
Proof. by destruct d. Qed.

Lemma batch_accepted b d : owns_discovery d ->
  exists d', batch b d = (true, d') /\ only_tasks d d' /\ tasks_of id d' ≡ₚ tasks_of id d ++ map new b.
Proof.
  intros Hc. unfold create_batch, BulkCreateMigrationTasksWhileIndexingClaim.
  destruct (insert_ids b (dom (mtasks d)) (mtasks d) d (reflexivity _)) as (m' & E & P). rewrite set_mtasks_id in P.
  destruct b as [|t b]; [exists d; cbn; split_and!; [done|done|by rewrite app_nil_r]|].
  cbn [with_ids] in *. destruct (holds_has_claim d Hc) as [-> _]. rewrite E. eexists. split; [done|]. split; [by exists m'|done].
Qed.

Lemma batches_app bs b d : batches (bs ++ [b]) d
  = let '(ok, d1) := batches bs d in if (ok : bool) then batch b d1 else (false, d1).
Proof. unfold create_batches. by rewrite fold_left_app. Qed.

Lemma batches_accepted bs d : owns_discovery d ->
  exists d', batches bs d = (true, d') /\ only_tasks d d' /\ tasks_of id d' ≡ₚ tasks_of id d ++ map new (concat bs).
Proof.
  intros Hc. induction bs as [|b bs IH] using rev_ind.
  { exists d. split_and!; [done|done|by rewrite app_nil_r]. }
  destruct IH as (d1 & E1 & O1 & P1). rewrite batches_app, E1.
  destruct (batch_accepted b d1) as (d2 & E2 & O2 & P2); [by eapply only_tasks_claim|].
  exists d2. split_and!; [done|by etrans|]. rewrite P2, P1, concat_app, map_app. cbn. by rewrite app_nil_r, app_assoc.
Qed.

Lemma task_accepted t d : owns_discovery d ->
  exists d', create_task fresh id generation now t d = (true, d') /\ only_tasks d d'
  /\ tasks_of id d' ≡ₚ tasks_of id d ++ [new t].
Proof.
  intros Hc. unfold create_task, CreateMigrationTaskWhileIndexingClaim. destruct (holds_has_claim d Hc) as [_ ->].
  cbn. assert (mtasks d !! fresh (dom (mtasks d)) = None) as -> by (apply not_elem_of_dom, fresh_new).
  eexists. split; [done|]. split; [by eexists|]. rewrite tasks_of_insert.
  - rewrite set_mtasks_id. by apply Permutation_cons_append.
  - apply not_elem_of_dom, fresh_new.
  - apply String.eqb_refl.
Qed.

Lemma indexed_keys d k : k ∈ MigrationIndexedTaskKeys id d <-> k ∈ map task_key (tasks_of id d).
Proof. unfold MigrationIndexedTaskKeys. by rewrite elem_of_list_to_set. Qed.

Lemma new_keys ts : map task_key (map new ts) = map input_key ts.
Proof. rewrite map_map. by apply map_ext. Qed.

(** ** The invariant of a run *)

(** Why an error is recorded. *)
Inductive trouble : index_error -> Prop :=
| trouble_list rt d e : listing rt d = Err e -> trouble (list_error rt d)
| trouble_size rt r e : resolveIndexedFileSize (resolve rt) r = Err e -> trouble (size_error rt (si_path r))
| trouble_interrupt rt d : trouble (interrupt_error rt d)
| trouble_inspect p e : inspect p = Err e -> trouble ("files", p, "Unable to inspect selected path.")
| trouble_vault p r : inspect p = Ok r -> IsPersonalVault r = true -> trouble ("files", p, vault_message)
| trouble_unsupported rt p :
    ProviderSupportsResourceType sourceProvider rt && ProviderSupportsResourceType targetProvider rt = false ->
    trouble (unsupported sourceProvider targetProvider rt p).

Lemma emit_errors accepts t w : wk_errors (emit accepts t w) = wk_errors w.
Proof. by destruct (emit_keeps accepts t w) as (_ & _ & _ & _ & ? & _). Qed.

Lemma item_troubles rt sp tp accepts r w e :
  e ∈ wk_errors (take_item (resolve rt) rt sp tp accepts w r) -> e ∈ wk_errors w \/ trouble e.
Proof.
  unfold take_item. destruct (wk_failed w); [by left|]. destruct (IsPersonalVault r); [by left|]. destruct (si_is_dir r).
  - unfold take_folder, enqueue_folder. destruct (_ && _); destruct (_ || _); cbn [wk_errors set_walk_queue];
      rewrite ?emit_errors; cbn [wk_errors add_key]; by left.
  - unfold take_file. destruct (_ && _); [by left|]. destruct (bool_decide _); [by left|].
    destruct (resolveIndexedFileSize _ _) as [size|x] eqn:E; [rewrite emit_errors; by left|].
    cbn [wk_errors add_walk_error add_key]. rewrite elem_of_app, list_elem_of_singleton. intros [| ->]; [by left|right].
    by eapply trouble_size.
Qed.

Lemma walk_troubles rt sp tp accepts p keys errors w e :
  walk_reach (listing rt) (resolve rt) rt sp tp accepts p keys errors w -> e ∈ wk_errors w -> e ∈ errors \/ trouble e.
Proof.
  intros Hr. revert e.
  refine (rtc_ind_r (fun w => forall e, e ∈ wk_errors w -> e ∈ errors \/ trouble e) (walk_start p keys errors) _ _ w Hr); [by left|].
  intros w1 w2 _ Hs IH. destruct Hs as [v q rest|v l1 q l2|v q rest]; [done| |].
  - intros e. unfold take_listing. set (v0 := set_walk_queue _ _ _ _).
    assert (forall e, e ∈ wk_errors v0 -> e ∈ errors \/ trouble e) as Hv0 by done. clearbody v0.
    destruct (listing rt q) as [items|x] eqn:El.
    + clear El. revert v0 Hv0. induction items as [|r items IHl]; intros v0 Hv0; [apply Hv0|]. cbn [fold_left]. apply IHl.
      intros e' [He|]%item_troubles; [by apply Hv0|by right].
    + cbn [wk_errors add_walk_error]. rewrite elem_of_app, list_elem_of_singleton. intros [He| ->]; [by apply Hv0|right].
      by eapply trouble_list.
  - intros e. cbn [wk_errors]. rewrite elem_of_app, list_elem_of_singleton. intros [He| ->]; [by apply IH|right; constructor].
Qed.

Definition without_size (errors : list index_error) (k : string) : Prop :=
  exists rt p, k = resourceIndexKey rt p /\ size_error rt p ∈ errors.

Record run_inv (d1 : migration_db) (s : index_state) : Prop := {
  ri_db : only_tasks d1 (ix_db s);
  ri_keys : forall k, k ∈ ix_keys s -> k ∈ map task_key (tasks_of id (ix_db s)) \/ without_size (ix_errors s) k;
  ri_taken : forall k, k ∈ map task_key (tasks_of id (ix_db s)) -> k ∈ ix_keys s;
  ri_once : NoDup (map task_key (tasks_of id d1)) -> NoDup (map task_key (tasks_of id (ix_db s)));
  ri_errors : forall e, e ∈ ix_errors s -> trouble e;
}.

Definition run_extends (s s' : index_state) : Prop :=
  ix_keys s ⊆ ix_keys s' /\ ix_errors s ⊆ ix_errors s'.

#[local] Instance run_extends_preorder : PreOrder run_extends.
Proof. split; [by intros s|]. intros s1 s2 s3 (?&?) (?&?). split; by etrans. Qed.

(** An operation goes on, keeps the invariant, and establishes [Q]. *)
Definition goes_on (d1 : migration_db) (Q : index_state -> Prop) (s : index_state) (o : index_outcome) : Prop :=
  exists s', o = Continue s' /\ run_inv d1 s' /\ run_extends s s' /\ Q s'.

Lemma goes_on_bind d1 Q R s o f : goes_on d1 Q s o ->
  (forall s', run_inv d1 s' -> run_extends s s' -> Q s' -> goes_on d1 R s' (f s')) -> goes_on d1 R s (index_bind o f).
Proof.
  intros (s1 & -> & I1 & X1 & H1) Hf. destruct (Hf s1 I1 X1 H1) as (s2 & E & I2 & X2 & H2).
  exists s2. split_and!; [done|done|by etrans|done].
Qed.

Lemma goes_on_all d1 (Q : string -> index_state -> Prop) f l s :
  (forall p s s', run_extends s s' -> Q p s -> Q p s') ->
  (forall p s, p ∈ l -> run_inv d1 s -> goes_on d1 (Q p) s (f p s)) ->
  run_inv d1 s -> goes_on d1 (fun s' => forall p, p ∈ l -> Q p s') s (index_all f l s).
Proof.
  intros HQ Hf Hi. unfold index_all. revert Hf. induction l as [|p l IH] using rev_ind; intros Hf.
  { exists s. split_and!; [done|done|done|]. by intros p []%elem_of_nil. }
  rewrite fold_left_app. eapply goes_on_bind; [apply IH; intros; apply Hf; [set_solver|done]|].
  intros s1 I1 X1 H1. destruct (Hf p s1 ltac:(set_solver) I1) as (s2 & E & I2 & X2 & H2).
  exists s2. split_and!; [done|done|done|]. intros q [Hq| ->%list_elem_of_singleton]%elem_of_app; [|done].
  by apply (HQ q s1 s2), H1.
Qed.

Lemma goes_on_same d1 (Q : index_state -> Prop) s : run_inv d1 s -> Q s -> goes_on d1 Q s (Continue s).
Proof. intros. by exists s. Qed.

Lemma record_inv d1 e s : run_inv d1 s -> trouble e -> run_inv d1 (record_error e s) /\ run_extends s (record_error e s).
Proof.
  intros [I1 I2 I3 I4 I5] Ht. split; [|split; cbn; set_solver]. split; try done; cbn.
  - intros k Hk. destruct (I2 k Hk) as [|(rt & p & ? & ?)]; [by left|right]. exists rt, p. set_solver.
  - intros e'. rewrite elem_of_app, list_elem_of_singleton. intros [He| ->]; [by apply I5|done].
Qed.

Lemma goes_on_error d1 (Q : index_state -> Prop) e s : run_inv d1 s -> trouble e -> Q (record_error e s) ->
  goes_on d1 Q s (Continue (record_error e s)).
Proof. intros Hi Ht HQ. destruct (record_inv d1 e s Hi Ht). by exists (record_error e s). Qed.

(** More tasks, with keys that are new and differ. *)
Lemma grown_inv d1 s keys errors d' ts :
  owns_discovery d1 -> run_inv d1 s -> only_tasks (ix_db s) d' -> tasks_of id d' ≡ₚ tasks_of id (ix_db s) ++ map new ts ->
  ix_errors s ⊆ errors ->
  (forall t, t ∈ ts -> input_key t ∉ ix_keys s) -> NoDup (map input_key ts) -> ix_keys s ⊆ keys ->
  (forall k, k ∈ keys -> k ∈ ix_keys s \/ k ∈ map input_key ts \/ without_size errors k) ->
  (forall t, t ∈ ts -> input_key t ∈ keys) -> (forall e, e ∈ errors -> e ∈ ix_errors s \/ trouble e) ->
  run_inv d1 (mkIndex keys errors d') /\ run_extends s (mkIndex keys errors d').
Proof.
  intros Hc [I1 I2 I3 I4 I5] Ho Hp He Hf Hn Hk Hx Ht Htr. split; [|by split].
  assert (map task_key (tasks_of id d') ≡ₚ map task_key (tasks_of id (ix_db s)) ++ map input_key ts) as Hp'.
  { rewrite Hp, map_app, new_keys. done. }
  split; cbn [ix_keys ix_db ix_errors].
  - by etrans.
  - intros k Hk'. rewrite Hp', elem_of_app. destruct (Hx k Hk') as [Ha|[Ha|Ha]]; [|by left; right|by right].
    destruct (I2 k Ha) as [|(rt & p & -> & Hb)]; [by left; left|right]. exists rt, p. set_solver.
  - intros k. rewrite Hp', elem_of_app. intros [Ha|Ha]; [by apply Hk, I3|].
    apply list_elem_of_fmap in Ha as (t & -> & Ha). by apply Ht.
  - intros H0. rewrite Hp'. apply NoDup_app. split; [by apply I4|]. split; [|done].
    intros k Ha Hb. apply list_elem_of_fmap in Hb as (t & -> & Hb). by apply (Hf t Hb), I3.
  - intros e Hin. destruct (Htr e Hin); [by apply I5|done].
Qed.

(** ** One selection *)

Local Abbreviation dirs := (makes_directories sourceProvider targetProvider).

(** A folder that was walked: every folder below it was listed or is in the errors,
    every entry has its key, unless the traversal was interrupted. *)
Definition walked (rt p : string) (s : index_state) : Prop :=
  (exists q, interrupt_error rt q ∈ ix_errors s)
  \/ (forall d e, source_folder (listing rt) p d -> listing rt d = Err e -> list_error rt d ∈ ix_errors s)
     /\ forall r, source_entry (listing rt) rt sourceProvider targetProvider p r -> entry_key rt r ∈ ix_keys s.

Lemma walked_extends rt p s s' : run_extends s s' -> walked rt p s -> walked rt p s'.
Proof.
  intros [Hk He] [[q Hq]|[H1 H2]]; [left; exists q; by apply He|right]. split.
  - intros d e Hd El. by apply He, (H1 d e).
  - intros r Hr. by apply Hk, H2.
Qed.

(** A traversal whose batches are accepted does not fail. *)
Lemma accepted_unfailed rt p keys errors accepts w :
  (forall l, accepts l = true) ->
  walk_reach (listing rt) (resolve rt) rt sourceProvider targetProvider accepts p keys errors w -> wk_failed w = false.
Proof.
  intros Ha Hr. assert (forall w, wk_failed w = false -> wk_failed (flushBatch accepts w) = false) as Hflush.
  { intros v Hv. unfold flushBatch. destruct (wk_batch v); [done|]. cbn. by rewrite Ha. }
  assert (forall t w, wk_failed w = false -> wk_failed (emit accepts t w) = false) as Hemit.
  { intros t v Hv. unfold emit. case_match; [|done]. by apply Hflush. }
  assert (forall q w, wk_failed w = false -> wk_failed (enqueue_folder q w) = false) as Hq.
  { intros q v Hv. unfold enqueue_folder. by destruct (_ || _). }
  assert (forall r w, wk_failed w = false -> wk_failed (take_item (resolve rt) rt sourceProvider targetProvider accepts w r) = false) as Hitem.
  { intros r v Hv. unfold take_item. rewrite Hv. destruct (IsPersonalVault r); [done|]. destruct (si_is_dir r).
    - unfold take_folder. apply Hq. destruct (_ && _); [by apply Hemit|done].
    - unfold take_file. repeat case_match; try done. by apply Hemit. }
  refine (rtc_ind_r (fun w => wk_failed w = false) (walk_start p keys errors) _ _ w Hr); [done|].
  intros w1 w2 _ Hs Hf. destruct Hs as [v q rest Hv|v l1 q l2 Hv|v q rest Hv]; [done| |done].
  unfold take_listing. destruct (listing rt q) as [items|]; [|done].
  set (v0 := set_walk_queue _ _ _ _). assert (wk_failed v0 = false) as Hf0 by done. clearbody v0.
  revert v0 Hf0. induction items as [|r items IH]; intros v0 Hf0; [done|]. cbn [fold_left]. by apply IH, Hitem.
Qed.

Lemma accepted_prefixes d bs : owns_discovery d -> fst (batches bs d) = true.
Proof. intros Hc. by destruct (batches_accepted bs d Hc) as (d' & -> & _). Qed.

Lemma folder_goes_on d1 rt p s : owns_discovery d1 -> run_inv d1 s ->
  goes_on d1 (walked rt p) s (indexFolderClaim fresh id generation now traverse rt p s).
Proof.
  intros Hc Hi. pose proof Hi as [I1 _ _ _ _]. pose proof (only_tasks_claim _ _ I1 Hc) as Hc'.
  unfold indexFolderClaim. set (accepts := fun bs => fst (batches bs (ix_db s))).
  assert (forall l, accepts l = true) as Ha by (intros l; by apply accepted_prefixes).
  destruct (traverse_runs rt p (ix_keys s) (ix_errors s) accepts) as [Hr Hd].
  set (w := traverse rt p (ix_keys s) (ix_errors s) accepts) in *.
  pose proof (accepted_unfailed rt p _ _ accepts w Ha Hr) as Hf.
  pose proof (walk_reach_ok _ _ _ _ _ _ _ _ _ w Hr) as Hw.
  destruct (result_written _ _ _ _ _ accepts _ _ _ w Hw Hf) as (Ewr & Eer & _). pose proof Hw as (Wi & _ & We & _).
  destruct (batches_accepted (wk_flushed (walk_result accepts w)) (ix_db s) Hc') as (d' & E & O & P). rewrite E.
  fold (written accepts w) in P. rewrite Ewr in P.
  assert (wk_keys (walk_result accepts w) = wk_keys w) as Ek.
  { unfold walk_result. rewrite Hf. unfold flushBatch. by destruct (wk_batch w). }
  rewrite Ek, Eer. eexists. split; [reflexivity|].
  destruct (grown_inv d1 s (wk_keys w) (wk_errors w) d' (emitted w)) as [I X]; try done; try by apply Wi.
  { intros k Hk. destruct (wi_explained _ _ _ _ _ _ _ _ _ Wi k Hk) as [|[|(q & -> & Hq)]]; [by left|by right; left|].
    right; right. by exists rt, q. }
  { intros e. by apply (walk_troubles _ _ _ _ _ _ _ _ _ Hr). }
  split_and!; [done|done|]. unfold walked. cbn [ix_errors ix_keys]. destruct (wk_interrupted w) eqn:En; [left; by apply We|right]. split.
  - intros q e Hq El. pose proof (walk_done_settled _ _ _ _ _ _ _ _ w q Hw Hd Hf En (walk_done_visited _ _ _ _ _ _ _ _ w q Hw Hd Hf En Hq)) as Hx.
    unfold folder_settled in Hx. by rewrite El in Hx.
  - intros r [q items r' Hq El Hr' Hv Hm].
    pose proof (walk_done_settled _ _ _ _ _ _ _ _ w q Hw Hd Hf En (walk_done_visited _ _ _ _ _ _ _ _ w q Hw Hd Hf En Hq)) as Hx.
    unfold folder_settled in Hx. rewrite El in Hx. destruct (Hx r' Hr') as [|[_ H2]]; [congruence|]. by apply H2.
Qed.

Lemma insert_goes_on d1 k t s (Q : index_state -> Prop) : owns_discovery d1 -> run_inv d1 s -> k ∉ ix_keys s -> input_key t = k ->
  (forall s', k ∈ ix_keys s' -> Q s') -> goes_on d1 Q s (insert_one fresh id generation now k t s).
Proof.
  intros Hc Hi Hk <- HQ. pose proof Hi as [I1 _ _ _ _]. unfold insert_one.
  destruct (task_accepted t (ix_db s) (only_tasks_claim _ _ I1 Hc)) as (d' & -> & O & P).
  destruct (grown_inv d1 s ({[input_key t]} ∪ ix_keys s) (ix_errors s) d' [t]) as [I X]; try done.
  - intros t' ->%list_elem_of_singleton. done.
  - apply NoDup_singleton.
  - set_solver.
  - intros k. rewrite elem_of_union, elem_of_singleton. intros [->|]; [right; left; by left|by left].
  - intros t' ->%list_elem_of_singleton. set_solver.
  - by left.
  - eexists. split; [reflexivity|]. split_and!; [done|done|]. apply HQ. cbn. set_solver.
Qed.

Definition path_settled (p : string) (s : index_state) : Prop :=
  match inspect p with
  | Err _ => (("files", p, "Unable to inspect selected path.") : index_error) ∈ ix_errors s
  | Ok r =>
      if IsPersonalVault r then (("files", p, vault_message) : index_error) ∈ ix_errors s
      else if si_is_dir r
      then (p <> "/"%string -> dirs = true -> directory_key "files" p ∈ ix_keys s) /\ walked "files" p s
      else String.eqb targetProvider "immich" && negb (isImmichMedia (si_name r)) = false -> resourceIndexKey "files" p ∈ ix_keys s
  end.

Lemma path_settled_extends p s s' : run_extends s s' -> path_settled p s -> path_settled p s'.
Proof.
  intros X. unfold path_settled. pose proof X as [Hk He]. destruct (inspect p) as [r|]; [|by apply He].
  destruct (IsPersonalVault r); [by apply He|]. destruct (si_is_dir r).
  - intros [H1 H2]. split; [intros Hp Hd; by apply Hk, H1|by eapply walked_extends].
  - intros H1 Hm. by apply Hk, H1.
Qed.

Lemma root_goes_on d1 p s : owns_discovery d1 -> run_inv d1 s ->
  goes_on d1 (fun s' => p <> "/"%string -> dirs = true -> directory_key "files" p ∈ ix_keys s') s
    (index_root fresh id generation now sourceProvider targetProvider p s).
Proof.
  intros Hc Hi. unfold index_root. destruct (negb (String.eqb p "/") && dirs) eqn:E; cbn [andb].
  - case_bool_decide as Hk; cbn [negb]; [by apply goes_on_same; [done|]|]. by apply insert_goes_on.
  - apply goes_on_same; [done|]. intros Hp Hd. rewrite Hd, andb_true_r in E. apply negb_false_iff, String.eqb_eq in E. done.
Qed.

Lemma file_goes_on d1 p r s : owns_discovery d1 -> run_inv d1 s ->
  goes_on d1 (fun s' => String.eqb targetProvider "immich" && negb (isImmichMedia (si_name r)) = false ->
                resourceIndexKey "files" p ∈ ix_keys s') s
    (index_file resolve fresh id generation now targetProvider p r s).
Proof.
  intros Hc Hi. unfold index_file. destruct (_ && _); [by apply goes_on_same|].
  case_bool_decide as Hk; [by apply goes_on_same|].
  destruct (resolveIndexedFileSize _ _) as [size|x] eqn:Ex; [by apply insert_goes_on|].
  eexists. split; [reflexivity|]. destruct Hi as [I1 I2 I3 I4 I5]. split_and!; [|split; cbn; set_solver|intros _; cbn; set_solver].
  split; try done; cbn.
  - intros k. rewrite elem_of_union, elem_of_singleton. intros [->|Hx]; [right; exists "files"%string, p; set_solver|].
    destruct (I2 k Hx) as [|(rt & q & -> & Hq)]; [by left|right; exists rt, q; set_solver].
  - intros k Hx. specialize (I3 k Hx). set_solver.
  - intros e. rewrite elem_of_app, list_elem_of_singleton. intros [He| ->]; [by apply I5|]. by apply (trouble_size _ _ _ Ex).
Qed.

Lemma path_goes_on d1 p s : owns_discovery d1 -> run_inv d1 s ->
  goes_on d1 (path_settled p) s
    (index_path inspect resolve fresh id generation now sourceProvider targetProvider traverse p s).
Proof.
  intros Hc Hi. unfold index_path, path_settled. destruct (inspect p) as [r|e] eqn:Ei;
    [|by apply goes_on_error; [|eapply trouble_inspect|cbn; set_solver]].
  destruct (IsPersonalVault r) eqn:Ev; [by apply goes_on_error; [|eapply trouble_vault|cbn; set_solver]|].
  destruct (si_is_dir r); [|by apply file_goes_on].
  eapply goes_on_bind; [by apply root_goes_on|]. intros s1 I1 X1 H1.
  destruct (folder_goes_on d1 "files" p s1 Hc I1) as (s2 & E & I2 & X2 & H2). exists s2. split_and!; [done|done|done| |done].
  intros Hp Hd. destruct X2 as [Hk _]. by apply Hk, H1.
Qed.

Definition collection_settled (rt p : string) (s : index_state) : Prop :=
  if ProviderSupportsResourceType sourceProvider rt && ProviderSupportsResourceType targetProvider rt
  then walked rt p s else unsupported sourceProvider targetProvider rt p ∈ ix_errors s.

Lemma collections_go_on d1 rt l s : owns_discovery d1 -> run_inv d1 s ->
  goes_on d1 (fun s' => forall p, p ∈ l -> collection_settled rt p s') s
    (index_collections fresh id generation now sourceProvider targetProvider traverse rt l s).
Proof.
  intros Hc Hi. unfold index_collections, collection_settled. destruct (_ && _) eqn:Es.
  - apply goes_on_all; [intros p s1 s2; apply walked_extends| |done]. intros p s1 _ I1. by apply folder_goes_on.
  - eexists. split; [reflexivity|]. destruct Hi as [I1 I2 I3 I4 I5]. split_and!.
    + split; try done; cbn; [intros k Hk; destruct (I2 k Hk) as [|(rt' & q & -> & Hq)]; [by left|right]; exists rt', q; set_solver|].
      intros e. rewrite elem_of_app. intros [He|(p & -> & _)%list_elem_of_fmap]; [by apply I5|by apply trouble_unsupported].
    + split; cbn; set_solver.
    + intros p Hp. cbn. apply elem_of_app. right. by apply list_elem_of_fmap_2.
Qed.

Definition selection_settled (paths calendars contacts : list string) (s : index_state) : Prop :=
  (forall p, p ∈ deduplicateSelectedPaths paths -> path_settled p s)
  /\ (forall p, p ∈ calendars -> collection_settled "calendars" p s)
  /\ (forall p, p ∈ contacts -> collection_settled "contacts" p s).

Lemma collection_settled_extends rt p s s' : run_extends s s' -> collection_settled rt p s -> collection_settled rt p s'.
Proof. intros X. unfold collection_settled. destruct (_ && _); [by apply walked_extends|]. destruct X as [_ He]. apply He. Qed.

Lemma selection_goes_on d1 paths calendars contacts s : owns_discovery d1 -> run_inv d1 s ->
  goes_on d1 (selection_settled paths calendars contacts) s
    (index_selection inspect resolve fresh id generation now sourceProvider targetProvider traverse paths calendars contacts s).
Proof.
  intros Hc Hi. unfold index_selection, selection_settled.
  eapply (goes_on_bind _ (fun s' => (forall p, p ∈ deduplicateSelectedPaths paths -> path_settled p s')
            /\ forall p, p ∈ calendars -> collection_settled "calendars" p s')).
  - eapply (goes_on_bind _ (fun s' => forall p, p ∈ deduplicateSelectedPaths paths -> path_settled p s')).
    + apply goes_on_all; [intros p s1 s2; apply path_settled_extends| |done]. intros p s1 _ I1. by apply path_goes_on.
    + intros s1 I1 X1 H1. destruct (collections_go_on d1 "calendars" calendars s1 Hc I1) as (s2 & E & I2 & X2 & H2).
      exists s2. split_and!; try done. intros p Hp. by eapply path_settled_extends, H1.
  - intros s1 I1 X1 [H1 H2]. destruct (collections_go_on d1 "contacts" contacts s1 Hc I1) as (s2 & E & I2 & X2 & H3).
    exists s2. split_and!; try done; intros p Hp; [by eapply path_settled_extends, H1|by eapply collection_settled_extends, H2].
Qed.

(** ** What is selected *)

(** The key of a resource the selection takes: a selected folder but the root, a
    selected file, an entry below a selected folder or of a supported collection. *)
Inductive selected_key (paths calendars contacts : list string) : string -> Prop :=
| key_folder p r :
    p ∈ deduplicateSelectedPaths paths -> inspect p = Ok r -> IsPersonalVault r = false -> si_is_dir r = true ->
    p <> "/"%string -> dirs = true -> selected_key paths calendars contacts (directory_key "files" p)
| key_file p r :
    p ∈ deduplicateSelectedPaths paths -> inspect p = Ok r -> IsPersonalVault r = false -> si_is_dir r = false ->
    String.eqb targetProvider "immich" && negb (isImmichMedia (si_name r)) = false ->
    selected_key paths calendars contacts (resourceIndexKey "files" p)
| key_below p r e :
    p ∈ deduplicateSelectedPaths paths -> inspect p = Ok r -> IsPersonalVault r = false -> si_is_dir r = true ->
    source_entry (listing "files") "files" sourceProvider targetProvider p e ->
    selected_key paths calendars contacts (entry_key "files" e)
| key_collection rt l p e :
    (rt, l) ∈ [("calendars"%string, calendars); ("contacts"%string, contacts)] -> p ∈ l ->
    ProviderSupportsResourceType sourceProvider rt && ProviderSupportsResourceType targetProvider rt = true ->
    source_entry (listing rt) rt sourceProvider targetProvider p e ->
    selected_key paths calendars contacts (entry_key rt e).

(** The row an error becomes. *)
Definition error_row (e : index_error) : indexing_error :=
  let '(rt, p, msg) := e in mkIndexingError id (if String.eqb rt "" then "files" else rt) p msg.

Definition recorded (d : migration_db) (e : index_error) : Prop := error_row e ∈ indexing_errors d.

(** The errors the selection itself has: a path that cannot be inspected, a vault, a
    collection one of the providers does not have. *)
Inductive selection_error (paths calendars contacts : list string) : index_error -> Prop :=
| error_inspect p e : p ∈ deduplicateSelectedPaths paths -> inspect p = Err e ->
    selection_error paths calendars contacts ("files", p, "Unable to inspect selected path.")
| error_vault p r : p ∈ deduplicateSelectedPaths paths -> inspect p = Ok r -> IsPersonalVault r = true ->
    selection_error paths calendars contacts ("files", p, vault_message)
| error_collection rt l p :
    (rt, l) ∈ [("calendars"%string, calendars); ("contacts"%string, contacts)] -> p ∈ l ->
    ProviderSupportsResourceType sourceProvider rt && ProviderSupportsResourceType targetProvider rt = false ->
    selection_error paths calendars contacts (unsupported sourceProvider targetProvider rt p).

(** The folders a run walks: the selected ones and the supported collections. *)
Inductive walked_root (paths calendars contacts : list string) : string -> string -> Prop :=
| root_folder p r : p ∈ deduplicateSelectedPaths paths -> inspect p = Ok r -> IsPersonalVault r = false ->
    si_is_dir r = true -> walked_root paths calendars contacts "files" p
| root_collection rt l p :
    (rt, l) ∈ [("calendars"%string, calendars); ("contacts"%string, contacts)] -> p ∈ l ->
    ProviderSupportsResourceType sourceProvider rt && ProviderSupportsResourceType targetProvider rt = true ->
    walked_root paths calendars contacts rt p.

Lemma settled_error paths calendars contacts s e :
  selection_settled paths calendars contacts s -> selection_error paths calendars contacts e -> e ∈ ix_errors s.
Proof.
  intros (Hp & Hc & Ho) [p x Hs Hi|p r Hs Hi Hv|rt l p Hl Hs Hb].
  - specialize (Hp p Hs). unfold path_settled in Hp. by rewrite Hi in Hp.
  - specialize (Hp p Hs). unfold path_settled in Hp. by rewrite Hi, Hv in Hp.
  - rewrite !elem_of_cons in Hl. destruct Hl as [[= -> ->]|[[= -> ->]|Hl]]; [| |by apply elem_of_nil in Hl].
    + specialize (Hc p Hs). unfold collection_settled in Hc. by rewrite Hb in Hc.
    + specialize (Ho p Hs). unfold collection_settled in Ho. by rewrite Hb in Ho.
Qed.

Lemma settled_walked paths calendars contacts s rt p :
  selection_settled paths calendars contacts s -> walked_root paths calendars contacts rt p -> walked rt p s.
Proof.
  intros (Hp & Hc & Ho) [q r Hs Hi Hv Hd|rt' l q Hl Hs Hb].
  - specialize (Hp q Hs). unfold path_settled in Hp. rewrite Hi, Hv, Hd in Hp. apply Hp.
  - rewrite !elem_of_cons in Hl. destruct Hl as [[= -> ->]|[[= -> ->]|Hl]]; [| |by apply elem_of_nil in Hl].
    + specialize (Hc q Hs). unfold collection_settled in Hc. by rewrite Hb in Hc.
    + specialize (Ho q Hs). unfold collection_settled in Ho. by rewrite Hb in Ho.
Qed.

(** A resource has a task, or an error of its own, or the walk was interrupted. *)
Definition accounted (d : migration_db) (k : string) : Prop :=
  k ∈ MigrationIndexedTaskKeys id d
  \/ (exists rt p, k = resourceIndexKey rt p /\ recorded d (size_error rt p))
  \/ exists rt p, recorded d (interrupt_error rt p).

Lemma settled_key d1 paths calendars contacts s k :
  run_inv d1 s -> selection_settled paths calendars contacts s -> selected_key paths calendars contacts k ->
  k ∈ ix_keys s \/ exists rt p, interrupt_error rt p ∈ ix_errors s.
Proof.
  intros Hi (Hp & Hc & Ho) [p r Hs Hr Hv Hd Hn Hm|p r Hs Hr Hv Hd Hm|p r e Hs Hr Hv Hd He|rt l p e Hl Hs Hb He].
  - specialize (Hp p Hs). unfold path_settled in Hp. rewrite Hr, Hv, Hd in Hp. left. by apply Hp.
  - specialize (Hp p Hs). unfold path_settled in Hp. rewrite Hr, Hv, Hd in Hp. left. by apply Hp.
  - specialize (Hp p Hs). unfold path_settled in Hp. rewrite Hr, Hv, Hd in Hp.
    destruct Hp as [_ [[q Hq]|[_ H2]]]; [right; by exists "files"%string, q|left; by apply H2].
  - assert (walked rt p s) as [[q Hq]|[_ H2]]; [|right; by exists rt, q|left; by apply H2].
    rewrite !elem_of_cons in Hl. destruct Hl as [[= -> ->]|[[= -> ->]|Hl]]; [| |by apply elem_of_nil in Hl].
    + specialize (Hc p Hs). unfold collection_settled in Hc. by rewrite Hb in Hc.
    + specialize (Ho p Hs). unfold collection_settled in Ho. by rewrite Hb in Ho.
Qed.

Lemma settled_accounted d1 paths calendars contacts s d k :
  run_inv d1 s -> selection_settled paths calendars contacts s ->
  MigrationIndexedTaskKeys id (ix_db s) = MigrationIndexedTaskKeys id d ->
  (forall e, e ∈ ix_errors s -> recorded d e) ->
  selected_key paths calendars contacts k -> accounted d k.
Proof.
  intros Hi Hs Hk He Hsel. destruct (settled_key d1 _ _ _ s k Hi Hs Hsel) as [Hx|(rt & p & Hx)].
  - destruct (ri_keys _ _ Hi k Hx) as [Hy|(rt & p & -> & Hy)].
    + left. by rewrite <- Hk, indexed_keys.
    + right; left. exists rt, p. split; [done|]. by apply (He _ Hy).
  - right; right. exists rt, p. by apply (He _ Hx).
Qed.

(** ** The end of a run *)

Lemma record_errors_spec errors d :
  let d' := record_errors id errors d in
  migrations d' = migrations d /\ mtasks d' = mtasks d /\ indexing_errors d' = indexing_errors d ++ map error_row errors.
Proof.
  cbn zeta. destruct errors as [|e0 l].
  - split_and!; [done|done|]. by rewrite app_nil_r.
  - by split_and!.
Qed.

(** The row after the totals are written. *)
Definition with_totals (files bytes : Z) (m : migration_row) : migration_row :=
  at_time now (with_progress (fun p => mkProgress files bytes (mp_processed_files p) (mp_processed_bytes p)
    (mp_live_bytes p) (mp_verified_files p) (mp_skipped_files p) (mp_failed_files p)) m).

(** How a run ends: without tasks by its errors; with tasks the migration runs until
    the reconciliation finds no task left to do or to verify. *)
Definition end_status (errors : list index_error) (d : migration_db) : migration_status :=
  if (MigrationTaskTotals id d).1 =? 0 then (if decide (errors = []) then MCOMPLETED else MFAILED)
  else if 0 <? active_files id d then MRUNNING
  else if 0 <? count_unverified false id d then MVERIFYING
  else if 0 <? count_status [TFAILED; CANCELLED] id d + error_count id d then MCOMPLETED_WITH_ERRORS
  else MCOMPLETED.

Lemma totals_row d1 d2 files bytes : owns_discovery d1 -> migrations d2 = migrations d1 ->
  exists m2, migrations d1 !! id = Some m2 /\
  UpdateMigrationTotalsWhileIndexingClaim id generation files bytes now d2
    = (true, set_migrations (insert id (with_totals files bytes m2)) d2)
  /\ mg_status m2 = MINDEXING /\ dc_generation (mg_discovery m2) = generation.
Proof.
  intros (m2 & Hm & Hs & Hg) E. exists m2. split; [done|]. split; [|done].
  unfold UpdateMigrationTotalsWhileIndexingClaim, update_migration. rewrite (update_row_hit id _ _ _ m2); [done|by rewrite E|].
  unfold mstatus_in. rewrite Hs, Hg, Z.eqb_refl. cbn. by rewrite bool_decide_true by by left.
Qed.

Lemma claim_row d m g : migrations d !! id = Some m -> mg_status m = MINDEXING -> dc_generation (mg_discovery m) = g ->
  forall f, update_migration id (indexing_claim g) f d = (true, set_migrations (insert id (f m)) d).
Proof.
  intros Hm Hs Hg f. unfold update_migration. rewrite (update_row_hit id _ _ _ m); [done|done|].
  unfold indexing_claim, mstatus_in. rewrite Hs, Hg, Z.eqb_refl, orb_true_r. by rewrite bool_decide_true by by left.
Qed.

Lemma ended_event d m f : migrations d !! id = Some m -> is_Some (ms_user (mg_spec (f m))) ->
  isTerminalMigrationStatus (mg_status (f m)) = true ->
  exists d', createMigrationNotificationEventTx id (set_migrations (insert id (f m)) d) = Some d'
  /\ migrations d' !! id = Some (f m) /\ mtasks d' = mtasks d /\ indexing_errors d' = indexing_errors d.
Proof.
  intros Hm [u Hu] Ht. unfold createMigrationNotificationEventTx. cbn [migrations set_migrations].
  rewrite lookup_insert_eq, Hu, Ht. eexists. split; [reflexivity|]. cbn. by rewrite lookup_insert_eq.
Qed.

(** The end of a run: its tasks, its errors and its row. *)
Definition ended (s : index_state) (d' : migration_db) : Prop :=
  exists m', migrations d' !! id = Some m' /\ mtasks d' = mtasks (ix_db s)
  /\ indexing_errors d' = indexing_errors (ix_db s) ++ map error_row (ix_errors s)
  /\ mg_status m' = end_status (ix_errors s) d'
  /\ (mp_total_files (mg_progress m'), mp_total_bytes (mg_progress m')) = MigrationTaskTotals id d'
  /\ ((MigrationTaskTotals id d').1 <> 0 -> dc_complete (mg_discovery m') = true).

Lemma end_status_tasks errors d d' : mtasks d' = mtasks d -> indexing_errors d' = indexing_errors d ->
  end_status errors d' = end_status errors d /\ MigrationTaskTotals id d' = MigrationTaskTotals id d.
Proof.
  intros Ht He. unfold end_status, active_files, count_unverified, count_status, error_count, MigrationTaskTotals.
  by rewrite Ht, He.
Qed.

Lemma ended_intro s d m2 files bytes d2 f :
  mtasks d = mtasks (ix_db s) -> indexing_errors d = indexing_errors (ix_db s) ++ map error_row (ix_errors s) ->
  MigrationTaskTotals id d = (files, bytes) ->
  migrations d2 !! id = Some (f (with_totals files bytes m2)) -> mtasks d2 = mtasks d -> indexing_errors d2 = indexing_errors d ->
  mg_progress (f (with_totals files bytes m2)) = mg_progress (with_totals files bytes m2) ->
  files = 0 -> mg_status (f (with_totals files bytes m2)) = (if decide (ix_errors s = []) then MCOMPLETED else MFAILED) ->
  ended s d2.
Proof.
  intros Ht He Hn Hm Ht2 He2 Hp Hz Hs. destruct (end_status_tasks (ix_errors s) d d2 Ht2 He2) as [E1 E2].
  exists (f (with_totals files bytes m2)). rewrite E1, E2, Hn, Hp, Hs, Ht2, He2. unfold end_status. rewrite Hn. cbn [fst].
  subst files. cbn. split_and!; done.
Qed.

(** The reconciliation of a migration that was just found complete. *)
Lemma reconcile_ended s d2 m2 :
  migrations d2 !! id = Some m2 -> is_Some (ms_user (mg_spec m2)) -> mg_status m2 = MRUNNING ->
  dc_complete (mg_discovery m2) = true -> mtasks d2 = mtasks (ix_db s) ->
  indexing_errors d2 = indexing_errors (ix_db s) ++ map error_row (ix_errors s) ->
  (mp_total_files (mg_progress m2), mp_total_bytes (mg_progress m2)) = MigrationTaskTotals id d2 ->
  (MigrationTaskTotals id d2).1 <> 0 -> ended s (ReconcileMigrationProgress id now d2).
Proof.
  intros Hm [u Hu] Hs Hd Ht He Hn Hz. unfold ReconcileMigrationProgress, reconcileMigrationProgress, update_migration.
  rewrite (update_row_hit id _ _ _ m2 Hm eq_refl). cbn beta iota zeta. unfold has_claim. cbn [migrations set_migrations].
  rewrite lookup_insert_eq. unfold commit, createMigrationNotificationEventTx. cbn [migrations set_migrations].
  rewrite lookup_insert_eq.
  assert (ms_user (mg_spec (reconciled id now d2 m2)) = Some u) as -> by (unfold reconciled; by destruct (_ && _ && _)).
  set (d3 := set_migrations (<[id := reconciled id now d2 m2]>) d2).
  assert (forall d', migrations d' !! id = Some (reconciled id now d2 m2) -> mtasks d' = mtasks d2 ->
            indexing_errors d' = indexing_errors d2 -> ended s d') as Hend.
  { intros d' H1 H2 H3. exists (reconciled id now d2 m2). destruct (end_status_tasks (ix_errors s) d2 d' H2 H3) as [-> ->].
    split_and!; [done|by rewrite H2|by rewrite H3| | |].
    - assert (mg_status (reconciled id now d2 m2) = reconciled_status id d2 m2) as -> by (unfold reconciled; by destruct (_ && _ && _)).
      unfold reconciled_status, end_status, mstatus_in. rewrite Hs, !bool_decide_false by (rewrite !elem_of_cons, elem_of_nil; clear; intuition discriminate). cbn [andb].
      apply Z.eqb_neq in Hz. by rewrite Hz.
    - rewrite <- Hn. unfold reconciled. by destruct (_ && _ && _).
    - intros _. unfold reconciled. by destruct (_ && _ && _). }
  destruct (isTerminalMigrationStatus _); cbn; apply Hend; try done; apply lookup_insert_eq.
Qed.

Lemma finish_spec SanitizeError s d1 :
  owns_discovery d1 -> (forall m, migrations d1 !! id = Some m -> is_Some (ms_user (mg_spec m))) -> only_tasks d1 (ix_db s) ->
  ended s (finish_indexing SanitizeError id generation now s).
Proof.
  intros Hc Hu [mt E]. unfold finish_indexing.
  destruct (record_errors_spec (ix_errors s) (ix_db s)) as (Em & Et & Hr). cbn zeta in Em, Et, Hr.
  set (d := record_errors id (ix_errors s) (ix_db s)) in *.
  destruct (MigrationTaskTotals id d) as [files bytes] eqn:En.
  destruct (totals_row d1 d files bytes Hc) as (m & Hm & -> & Hs & Hg); [by rewrite Em, E|].
  specialize (Hu m Hm). cbn [negb]. set (m1 := with_totals files bytes m).
  set (d0 := set_migrations (insert id m1) d).
  assert (migrations d0 !! id = Some m1) as Hm1 by apply lookup_insert_eq.
  pose proof (claim_row d0 m1 generation Hm1 Hs Hg) as Hrow.
  pose proof (fun d2 f => ended_intro s d m files bytes d2 f Et Hr En) as Hend. fold m1 in Hend.
  assert (negb (length (ix_errors s) =? 0)%nat = negb (bool_decide (ix_errors s = []))) as -> by (by destruct (ix_errors s)).
  destruct (files =? 0) eqn:Ez; cbn [andb].
  - apply Z.eqb_eq in Ez. destruct (bool_decide (ix_errors s = [])) eqn:Eb; cbn [negb].
    + unfold TransitionMigrationIndexingToCompletedClaim.
      match goal with |- context [update_migration id _ ?u d0] => set (f := u) end. rewrite Hrow.
      destruct (ended_event d0 m1 f Hm1 Hu eq_refl) as (d2 & E2 & H1 & H2 & H3). rewrite E2. cbn [commit snd].
      apply (Hend d2 f H1 H2 H3 eq_refl Ez). apply bool_decide_eq_true in Eb. by rewrite decide_True.
    + unfold failMigration, FailMigrationWhileIndexingClaim.
      match goal with |- context [update_migration id _ ?u d0] => set (f := u) end. rewrite Hrow.
      destruct (ended_event d0 m1 f Hm1 Hu eq_refl) as (d2 & E2 & H1 & H2 & H3). rewrite E2. cbn [commit snd].
      apply (Hend d2 f H1 H2 H3 eq_refl Ez). apply bool_decide_eq_false in Eb. by rewrite decide_False.
  - unfold TransitionMigrationIndexingToRunningClaim.
    match goal with |- context [update_migration id _ ?u d0] => set (f := u) end. rewrite Hrow.
    set (d2 := set_migrations (insert id (f m1)) d0).
    assert (MigrationTaskTotals id d2 = (files, bytes)) as Ht by exact En. apply Z.eqb_neq in Ez.
    by apply (reconcile_ended s d2 (f m1)); rewrite ?Ht; [apply lookup_insert_eq|..].
Qed.
End Indexing_spec.

(** ** Properties *)

Section Start_spec.
Context `{GoUnicode}.
Context (SanitizeError : string -> string).
Context (inspect : string -> res string source_item).
Context (listing : string -> string -> res string (list source_item)).
Context (resolve : string -> option (string -> res string Z)).
Context (fresh : gset string -> string).
Context (traverse : Z -> string -> string -> string -> string -> gset string -> list index_error ->
                (list (list task_input) -> bool) -> walk).

(** C31: an indexing run that nobody interferes with accounts for the whole selection.
    Every selected folder, file, calendar and contact the target takes, and everything
    listed below them, has a task of its own or a size error of its own, unless the end
    of the context interrupted a traversal, which is itself recorded.  The run adds its
    errors, and nothing else, to the recorded ones: every selected path that cannot be
    inspected, every selected vault and every collection a provider lacks is among them,
    and so is every folder that cannot be listed unless a traversal was interrupted; and
    each of them has such a reason.  No resource has two tasks if none had before, and
    the totals are those of the tasks.  In the end a migration without any task is
    COMPLETED when there was no error and FAILED otherwise; one with tasks is discovered
    and RUNNING while a task is pending, running or to be retried, VERIFYING while a
    completed task is unverified, and completed after that, with errors when a task
    failed or was cancelled or an indexing error is recorded.  The order of the listings
    does not matter. *)
Theorem indexing_accounts_for_selection lease id now d m :
  (forall used, fresh used ∉ used) ->
  (forall g sp tp rt p keys errors accepts,
     walk_reach (listing rt) (resolve rt) rt sp tp accepts p keys errors (traverse g sp tp rt p keys errors accepts)
     /\ walk_done (traverse g sp tp rt p keys errors accepts) = true) ->
  migrations d !! id = Some m -> mg_status m = MINDEXING -> dc_complete (mg_discovery m) = false ->
  is_Some (ms_user (mg_spec m)) ->
  let sp := ms_source_provider (mg_spec m) in
  let tp := ms_target_provider (mg_spec m) in
  let paths := ms_selected_paths (mg_spec m) in
  let calendars := ms_selected_calendars (mg_spec m) in
  let contacts := ms_selected_contacts (mg_spec m) in
  let d' := Start SanitizeError inspect resolve fresh None lease traverse id now d in
  exists errors m',
  migrations d' !! id = Some m' /\ mg_status m' = end_status id errors d'
  /\ ((MigrationTaskTotals id d').1 <> 0 -> dc_complete (mg_discovery m') = true)
  /\ (mp_total_files (mg_progress m'), mp_total_bytes (mg_progress m')) = MigrationTaskTotals id d'
  /\ indexing_errors d' = indexing_errors d ++ map (error_row id) errors
  /\ (forall e, e ∈ errors -> trouble inspect listing resolve sp tp e)
  /\ (forall e, selection_error inspect sp tp paths calendars contacts e -> e ∈ errors)
  /\ (forall rt p q e, walked_root inspect sp tp paths calendars contacts rt p ->
        source_folder (listing rt) p q -> listing rt q = Err e ->
        list_error rt q ∈ errors \/ exists q', interrupt_error rt q' ∈ errors)
  /\ (forall k, selected_key inspect listing sp tp paths calendars contacts k -> accounted id d' k)
  /\ (NoDup (map task_key (tasks_of id d)) -> NoDup (map task_key (tasks_of id d'))).
Proof.
  intros Hfresh Hruns Hm Hs Hd Hu. cbn zeta. unfold Start. rewrite Hm, Hd.
  assert (mstatus_in [MINDEXING] m = true) as Hst by (apply bool_decide_eq_true; rewrite Hs; by left).
  rewrite Hst. cbn [negb orb]. set (g := dc_generation (mg_discovery m)).
  set (sp := ms_source_provider _). set (tp := ms_target_provider _).
  unfold RenewMigrationIndexingLease, update_migration.
  rewrite (update_row_hit id _ _ _ m Hm) by (rewrite Hst; apply Z.eqb_refl). cbn [negb].
  set (f := with_discovery _). set (d1 := set_migrations _ d).
  assert (migrations d1 !! id = Some (f m)) as Hm1 by apply lookup_insert_eq.
  assert (owns_discovery id g d1) as Hc by (by exists (f m)).
  destruct (selection_goes_on inspect listing resolve fresh id g now sp tp (traverse g sp tp) Hfresh (Hruns g sp tp) d1
    (ms_selected_paths (mg_spec m)) (ms_selected_calendars (mg_spec m)) (ms_selected_contacts (mg_spec m))
    (mkIndex (MigrationIndexedTaskKeys id d1) [] d1)) as (s & E & I & _ & S); [done| |].
  { split; cbn; [by exists (mtasks d1)|intros k Hk; left; by apply indexed_keys|intros k Hk; by apply indexed_keys|done|].
    by intros e []%elem_of_nil. }
  rewrite E. pose proof (ri_db _ _ _ _ _ _ _ _ I) as Ho.
  destruct (finish_spec id g now SanitizeError s d1 Hc) as (m' & H1 & H2 & H3 & H4 & H5 & H6);
    [intros x Hx; rewrite Hm1 in Hx; by injection Hx as <-|done|].
  set (d' := finish_indexing _ _ _ _ _) in *.
  assert (tasks_of id d' = tasks_of id (ix_db s)) as Ht by (unfold tasks_of; by rewrite H2).
  assert (indexing_errors (ix_db s) = indexing_errors d) as He by (destruct Ho as [mt ->]; done). rewrite He in H3.
  assert (forall e, e ∈ ix_errors s -> recorded id d' e) as Hrec
    by (intros e Hin; unfold recorded; rewrite H3; apply elem_of_app; right; by apply list_elem_of_fmap_2).
  exists (ix_errors s), m'. split_and!; [done..|apply I| | | |].
  - intros e. by eapply settled_error.
  - intros rt p q e Hw Hq El. destruct (settled_walked _ _ _ _ _ _ _ _ _ _ S Hw) as [?|[Hl _]]; [by right|left; by eapply Hl].
  - intros k Hk. eapply settled_accounted; [exact I|exact S| |exact Hrec|exact Hk].
    unfold MigrationIndexedTaskKeys. by rewrite Ht.
  - intros Hn. rewrite Ht. by apply I.
Qed.
End Start_spec.

(** ** A run over a folder with one file *)

#[local] Existing Instance ascii_tables.

Definition flat_listing (rt p : string) : res string (list source_item) := Ok [ex_file "/a/f" 3].
Definition flat_inspect (p : string) : res string source_item :=
  if String.eqb p "/a" then Ok (ex_folder "/a") else Err "not found".
Definition flat_fresh (used : gset string) : string := base.fresh used.
Definition flat_traverse (g : Z) (sp tp rt p : string) (keys : gset string) (errors : list index_error)
    (accepts : list (list task_input) -> bool) : walk :=
  walk_run (flat_listing rt) None rt sp tp accepts 2 (walk_start p keys errors).

Lemma file_queue sp tp rt accepts r w : si_is_dir r = false ->
  wk_queue (take_item None rt sp tp accepts w r) = wk_queue w
  /\ wk_inFlight (take_item None rt sp tp accepts w r) = wk_inFlight w.
Proof.
  intros Hr. unfold take_item, take_file. rewrite Hr. destruct (wk_failed w); [done|]. destruct (IsPersonalVault r); [done|].
  destruct (_ && _); [done|]. destruct (bool_decide _); [done|]. destruct (resolveIndexedFileSize _ _) as [size|]; [|done].
  by destruct (emit_keeps accepts (file_input rt size r) (add_key (resourceIndexKey rt (si_path r)) w)) as (-> & _ & -> & _).
Qed.

Lemma flat_runs g sp tp rt p keys errors accepts :
  walk_reach (flat_listing rt) None rt sp tp accepts p keys errors (flat_traverse g sp tp rt p keys errors accepts)
  /\ walk_done (flat_traverse g sp tp rt p keys errors accepts) = true.
Proof.
  split; [apply walk_run_steps|]. unfold flat_traverse. cbn [walk_run wk_failed walk_start wk_inFlight wk_queue wk_interrupted set_walk_queue].
  unfold take_listing. cbn [flat_listing fold_left].
  match goal with |- context [take_item None rt sp tp accepts ?w ?r] =>
    destruct (file_queue sp tp rt accepts r w eq_refl) as [E1 E2]; set (w' := take_item None rt sp tp accepts w r) in * end.
  unfold walk_done. rewrite E1, E2. cbn. apply orb_true_r.
Qed.

Definition flat_spec : migration_spec := mkSpec (Some "u") "webdav" "nextcloud" "/" SKIP ["/a"; "/a/b"; "/gone"] ["work"] [] "".
Definition flat_row : migration_row :=
  new_migration flat_spec (mkOAuth "secret" None None) (mkOAuth "secret" None None) MINDEXING 4 0.
Definition flat_db : migration_db := mkMigrationDb {["m" := flat_row]} ∅ [] ∅ ∅.

Example flat_selection : deduplicateSelectedPaths (ms_selected_paths flat_spec) = ["/a"; "/gone"].
Proof. vm_compute. reflexivity. Qed.

Definition flat_result : migration_db :=
  Start (fun s => s) flat_inspect (fun _ => None) flat_fresh None 60 flat_traverse "m" 1 flat_db.

Example flat_end :
  map (fun m => (mg_status m, mp_total_files (mg_progress m))) (map snd (map_to_list (migrations flat_result))) = [(MRUNNING, 2)]
  /\ MigrationIndexedTaskKeys "m" flat_result = {["dir:files:/a"; "files:/a/f"]}
  /\ map ie_path (indexing_errors flat_result) = ["/gone"; "work"].
Proof. vm_compute. done. Qed.

Lemma indexing_accounts_for_selection_witness :
  accounted "m" flat_result (directory_key "files" "/a") /\ accounted "m" flat_result (resourceIndexKey "files" "/a/f")
  /\ exists errors, indexing_errors flat_result = map (error_row "m") errors
     /\ ("files", "/gone", "Unable to inspect selected path.") ∈ errors
     /\ unsupported "webdav" "nextcloud" "calendars" "work" ∈ errors.
Proof.
  destruct (indexing_accounts_for_selection (fun s => s) flat_inspect flat_listing (fun _ => None) flat_fresh flat_traverse
              60 "m" 1 flat_db flat_row) as (errors & m' & _ & _ & _ & _ & H5 & _ & H7 & _ & H9 & _).
  - intros used. apply is_fresh.
  - intros. apply flat_runs.
  - reflexivity.
  - reflexivity.
  - reflexivity.
  - by exists "u".
  - assert (forall p, p ∈ ["/a"; "/gone"] -> p ∈ deduplicateSelectedPaths (ms_selected_paths flat_spec)) as Hsel
      by (rewrite flat_selection; done).
    assert ("/a" ∈ ["/a"; "/gone"]) as Ha by by left.
    split_and!.
    + apply H9. by apply (key_folder _ _ _ _ _ _ _ "/a" (ex_folder "/a")); [apply Hsel|..].
    + apply H9. apply (key_below _ _ _ _ _ _ _ "/a" (ex_folder "/a") (ex_file "/a/f" 3)); [by apply Hsel|done..|].
      eapply (entry_listed _ _ _ _ _ "/a"); [constructor|reflexivity|by left|done|done].
    + exists errors. split; [exact H5|]. split; apply H7.
      * apply (error_inspect _ _ _ _ _ _ "/gone" "not found"); [apply Hsel; by right; left|done].
      * by apply (error_collection _ _ _ _ _ _ "calendars" ["work"]); [left|left|].
Defined.
