(* ===== verification/WorkerMonad.v ===== *)
(** * Workers as programs

    The state and error monad of the processor's workers
    (src/backend/internal/processor): statements on a shared database between which
    other transactions run and which may fail, calls of providers, the counters of the
    process; and the rules by which assertions on the providers are proved of such
    programs. *)

From S2P Require Import Prelude HashString Tables SyncDelta SyncBaseline Database SyncLifecycle SyncTasks SyncFailure.

(** The database, the providers, the number of statements so far, the source paths a move
    removed and the counters of the process. *)
Record mworker (D T : Type) := mkMWorker {
  mw_db : D;
  mw_target : T;
  mw_clock : nat;
  mw_removed : list string;
  mw_mem : worker_mem;
}.
Arguments mkMWorker {D T} _ _ _ _ _.
Arguments mw_db {D T} _.
Arguments mw_target {D T} _.
Arguments mw_clock {D T} _.
Arguments mw_removed {D T} _.
Arguments mw_mem {D T} _.

Section Monad.
Context {D T : Type}.

Definition W (X : Type) : Type := mworker D T -> res string X * mworker D T.

Definition wret {X} (x : X) : W X := fun w => (Ok x, w).
Definition wstop {X} (e : string) : W X := fun w => (Err e, w).
Definition wbind {X Y} (m : W X) (k : X -> W Y) : W Y := fun w =>
  match m w with
  | (Ok x, w) => k x w
  | (Err e, w) => (Err e, w)
  end.

(** A call of a provider, with its error as a value; and with a text before its error. *)
Definition wtry {X} (f : T -> X * T) : W X := fun w =>
  let '(r, t) := f (mw_target w) in (Ok r, mkMWorker (mw_db w) t (mw_clock w) (mw_removed w) (mw_mem w)).
Definition wlift {X} (msg : string) (r : res string X) : W X :=
  match r with Ok x => wret x | Err e => wstop (msg +:+ e) end.
Definition wcall {X} (msg : string) (f : T -> res string X * T) : W X := wbind (wtry f) (wlift msg).

(** The error of a program is only logged. *)
Definition wlogged (m : W unit) : W unit := fun w => let '(_, w) := m w in (Ok tt, w).

Definition wmem (f : worker_mem -> worker_mem) : W unit := fun w =>
  (Ok tt, mkMWorker (mw_db w) (mw_target w) (mw_clock w) (mw_removed w) (f (mw_mem w))).
Definition wremoved (p : string) : W unit := fun w =>
  (Ok tt, mkMWorker (mw_db w) (mw_target w) (mw_clock w) (mw_removed w ++ [p]) (mw_mem w)).

(** What runs between two statements, the failing ones, the clock of the database and
    the outcome of connections, by the number of the statement. *)
Context (other : nat -> D -> D) (fault : nat -> option string).
Context (now : nat -> Z) (connect : nat -> option string).

Definition wstatement {X} (f : Z -> D -> res string X * D) : W X := fun w =>
  let n := mw_clock w in
  let d := other n (mw_db w) in
  let '(r, d) := match fault n with Some e => (Err e, d) | None => f (now n) d end in
  (r, mkMWorker d (mw_target w) (Datatypes.S n) (mw_removed w) (mw_mem w)).

(** A statement that has to change a row. *)
Definition wchecked (f : Z -> D -> bool * D) : W unit :=
  wstatement (fun now d => let '(ok, d) := f now d in (if ok then Ok tt else Err "sql: no rows in result set", d)).
Definition wupdate (f : Z -> D -> D) : W unit := wstatement (fun now d => (Ok tt, f now d)).
Definition wfetch {X} (msg : string) (f : D -> option X) : W X :=
  wstatement (fun _ d => (match f d with Some x => Ok x | None => Err (msg +:+ "sql: no rows in result set") end, d)).

Definition wconnections : W unit := fun w =>
  let w' := mkMWorker (mw_db w) (mw_target w) (Datatypes.S (mw_clock w)) (mw_removed w) (mw_mem w) in
  match connect (mw_clock w) with Some e => (Err e, w') | None => (Ok tt, w') end.
End Monad.

Declare Scope worker_scope.
Delimit Scope worker_scope with worker.
Notation "'let*' x := m 'in' k" := (wbind m (fun x => k))
  (at level 10, x pattern, m at level 200, k at level 200) : worker_scope.
Open Scope worker_scope.

(** ** Assertions *)

Section Spec.
Context {D T O : Type} (seen : T -> O).

(** On what is seen of the providers and the source paths a move removed. *)
Definition assertion := O -> list string -> Prop.

(** From [P], a success ends in [Q] and a failure in [E]. *)
Definition wspec {X} (P : assertion) (m : W (D := D) (T := T) X) (Q : X -> assertion) (E : assertion) : Prop := forall w,
  P (seen (mw_target w)) (mw_removed w) ->
  match m w with
  | (Ok x, w') => Q x (seen (mw_target w')) (mw_removed w')
  | (Err _, w') => E (seen (mw_target w')) (mw_removed w')
  end.

Lemma wspec_bind {X Y} P (m : W X) Q (k : X -> W Y) Q' E :
  wspec P m Q E -> (forall x, wspec (Q x) (k x) Q' E) -> wspec P (wbind m k) Q' E.
Proof.
  intros Hm Hk w Hp. specialize (Hm w Hp). unfold wbind. destruct (m w) as [[x|e] w1]; [|done]. by apply Hk.
Qed.

Lemma wspec_weaken {X} (P P' : assertion) (m : W X) Q Q' (E E' : assertion) :
  wspec P' m Q' E' -> (forall f r, P f r -> P' f r) -> (forall x f r, Q' x f r -> Q x f r) ->
  (forall f r, E' f r -> E f r) -> wspec P m Q E.
Proof. intros Hm HP HQ HE w Hp. specialize (Hm w (HP _ _ Hp)). destruct (m w) as [[x|e] w1]; auto. Qed.

Lemma wspec_from {X} (P P' : assertion) (m : W X) Q (E : assertion) :
  wspec P' m Q E -> (forall f r, P f r -> P' f r) -> wspec P m Q E.
Proof. intros Hm HP. by apply (wspec_weaken _ _ _ _ _ _ _ Hm HP). Qed.

Lemma wspec_fails {X} (P : assertion) (m : W X) Q (E E' : assertion) :
  wspec P m Q E' -> (forall f r, E' f r -> E f r) -> wspec P m Q E.
Proof. intros Hm HE. by apply (wspec_weaken _ _ _ _ _ _ _ Hm). Qed.

Lemma wspec_pure {X} (P : assertion) (A : Prop) (m : W X) Q (E : assertion) :
  (A -> wspec P m Q E) -> wspec (fun f r => P f r /\ A) m Q E.
Proof. intros Hm w [Hp Ha]. by apply Hm. Qed.

Lemma wspec_ret {X} (P : assertion) (x : X) (Q : X -> assertion) E : (forall f r, P f r -> Q x f r) -> wspec P (wret x) Q E.
Proof. intros HQ w Hp. by apply HQ. Qed.

Lemma wspec_stop {X} (P : assertion) e (Q : X -> assertion) (E : assertion) : (forall f r, P f r -> E f r) -> wspec P (wstop e) Q E.
Proof. intros HE w Hp. by apply HE. Qed.

(** A step that keeps an assertion. *)
Definition wkeeps {X} (m : W (D := D) (T := T) X) : Prop := forall P, wspec P m (fun _ => P) P.

Lemma wspec_step {X Y} (P : assertion) (m : W X) (k : X -> W Y) Q (E : assertion) :
  wkeeps m -> (forall f r, P f r -> E f r) -> (forall x, wspec P (k x) Q E) -> wspec P (wbind m k) Q E.
Proof.
  intros Hm HE Hk. apply (wspec_bind _ _ (fun _ => P)); [|done].
  intros w Hp. specialize (Hm P w Hp). destruct (m w) as [[x|e] w1]; auto.
Qed.

Lemma wkeeps_bind {X Y} (m : W X) (k : X -> W Y) : wkeeps m -> (forall x, wkeeps (k x)) -> wkeeps (wbind m k).
Proof. intros Hm Hk P. apply wspec_step; [done|done|]. intros x. apply Hk. Qed.

Lemma wkeeps_ret {X} (x : X) : wkeeps (wret x).
Proof. intros P w Hp. done. Qed.
Lemma wkeeps_stop {X} e : wkeeps (wstop (X := X) e).
Proof. intros P w Hp. done. Qed.
Lemma wkeeps_mem f : wkeeps (wmem f).
Proof. intros P w Hp. done. Qed.
Lemma wkeeps_lift {X} msg (r : res string X) : wkeeps (wlift msg r).
Proof. destruct r; [apply wkeeps_ret|apply wkeeps_stop]. Qed.

Lemma wkeeps_logged m : wkeeps m -> wkeeps (wlogged m).
Proof. intros Hm P w Hp. specialize (Hm P w Hp). unfold wlogged. by destruct (m w) as [[x|e] w1]. Qed.

Lemma wkeeps_try {X} (f : T -> X * T) : (forall t, seen (f t).2 = seen t) -> wkeeps (wtry f).
Proof. intros Hf P w Hp. unfold wtry. specialize (Hf (mw_target w)). destruct (f (mw_target w)) as [x t]. cbn in *. by rewrite Hf. Qed.

Lemma wkeeps_call {X} msg (f : T -> res string X * T) : (forall t, seen (f t).2 = seen t) -> wkeeps (wcall msg f).
Proof. intros Hf. apply wkeeps_bind; [by apply wkeeps_try|]. intros r. apply wkeeps_lift. Qed.

Lemma wkeeps_statement {X} other fault now (f : Z -> D -> res string X * D) :
  wkeeps (wstatement other fault now f).
Proof. intros P w Hp. unfold wstatement. destruct (match fault _ with Some e => _ | None => _ end) as [[x|e] d]; done. Qed.

Lemma wkeeps_checked other fault now f : wkeeps (wchecked other fault now f).
Proof. apply wkeeps_statement. Qed.
Lemma wkeeps_update other fault now f : wkeeps (wupdate other fault now f).
Proof. apply wkeeps_statement. Qed.

Lemma wkeeps_connections connect : wkeeps (wconnections connect).
Proof. intros P w Hp. unfold wconnections. by destruct (connect _). Qed.
End Spec.

Create HintDb worker.
#[export] Hint Resolve wkeeps_ret wkeeps_stop wkeeps_mem wkeeps_lift wkeeps_checked wkeeps_update wkeeps_statement
  wkeeps_connections wkeeps_logged : worker.

