(* ===== verification/MigrationFailure.v ===== *)
(** * Failed migration tasks

    [handleTaskFailure] (src/backend/internal/processor/processor.go): what a
    worker does with a migration task whose processing failed, over the
    statements of MigrationTasks.v and with the error classes, schedules and
    counters of SyncFailure.v.  Times are in seconds. *)

From S2P Require Import Prelude HashString Tables SyncDelta SyncBaseline Database SyncFailure.
From S2P Require Import MigrationDb MigrationOps MigrationTasks.

Definition fileManagerTransferOperation (pickerSessionID : string) : string :=
  if has_prefix pickerSessionID "file-manager-transfer:"
  then trim_prefix pickerSessionID "file-manager-transfer:" else "".

(** File-manager transfers are reconciled at once, others by the sweep. *)
Definition reconcileFileManagerTransferIfDone (id : string) (m : migration_row) (now : Z) (d : migration_db)
    : migration_db :=
  if String.eqb (fileManagerTransferOperation (ms_picker_session (mg_spec m))) "" then d
  else ReconcileMigrationProgress id now d.

(** The worker's copy of the row with the fields the handler changes. *)
Definition failed_copy (s : task_status) (attempts : Z) (err : option string) (retry : option Z) (t : mtask_row) : task_state :=
  mkTaskState s attempts err retry (mt_worker t) (mt_source_hash t) (mt_target_hash t) (mt_verified t).

(** Which way the handler went. *)
Inductive task_outcome :=
| OUnreadable
| OCancelled
| ORequeued
| ONotWritten
| ORetry (at_ : Z)
| OPaused
| OPauseRefused
| OMigrationFailed
| OFailRefused
| OTerminal
| ONotRecorded
| OPanicked.

#[export] Instance task_outcome_eq : EqDecision task_outcome.
Proof. solve_decision. Defined.

(** Everything remembered about the migration and the task. *)
Definition forget_migration (migrationID taskID : string) (m : worker_mem) : worker_mem :=
  forget_recovery (recoveryAttemptKey false migrationID) (clearConnLossTask taskID (clearConnLoss migrationID m)).

Section Handler.
Context `{GoUnicode}.
(** The redaction of error texts, and whether the token of a role could be refreshed. *)
Context (SanitizeError : string -> string) (refreshOAuthToken : string -> bool).
Context (taskID migrationID : string) (epoch : Z).

Definition migration_auth_msg : string :=
  "Authentication failed — please check your credentials and start a new migration".

Definition isMigrationAuthError (e : task_error) : bool :=
  isAuthError e || contains_str (er_text e) "invalid authentication credentials".

Definition write_copy (s : task_state) (now : Z) (d : migration_db) : migration_db :=
  (UpdateClaimedTaskStatus taskID epoch s now d).2.

Definition migration_conn_loss (t : mtask_row) (err : option string) (now : Z) (m : worker_mem) (d : migration_db)
    : task_outcome * worker_mem * migration_db :=
  let attempts := mt_attempts t + 1 in
  let '(lossCount, m) := recordConnLoss migrationID m in
  let '(taskConnLoss, m) := recordConnLossTask taskID m in
  if (lossCount <? connLossEscalationThreshold) && (taskConnLoss <? maxConnLossTaskAttempts) then
    let nextRetry := now + retryBackoff taskConnLoss in
    (ORetry nextRetry, m, write_copy (failed_copy TFAILED attempts err (Some nextRetry) t) now d)
  else
    let '(paused, d) := PauseMigrationForConnectionLoss migrationID now d in
    if negb paused then (OPauseRefused, m, d)
    else (OPaused, forget_migration migrationID taskID m,
          write_copy (failed_copy PENDING attempts err (mt_next_retry t) t) now d).

(** [mig] is the row the handler could read; without one the code dereferences a nil
    pointer to look up the providers. *)
Definition migration_auth (t : mtask_row) (mig : option migration_row) (e : task_error) (now : Z) (m : worker_mem)
    (d : migration_db) : task_outcome * worker_mem * migration_db :=
  let attempts := mt_attempts t + 1 in
  match mig with
  | None => (OPanicked, m, d)
  | Some row =>
      let role := oauthAuthFailureRoleForProviders (ms_source_provider (mg_spec row)) (ms_target_provider (mg_spec row)) (er_text e) in
      if negb (String.eqb role "") && (attempts <=? 3) && refreshOAuthToken role then
        let nextRetry := now + retryBackoff attempts in
        (ORetry nextRetry, m, write_copy (failed_copy TFAILED attempts (Some refreshed_msg) (Some nextRetry) t) now d)
      else
        let '(finalized, d) := FailMigrationForAuthentication taskID migrationID epoch migration_auth_msg now d in
        (if finalized then OMigrationFailed else OFailRefused, forget_migration migrationID taskID m, d)
  end.

Definition migration_transfer_failure (t : mtask_row) (mig : option migration_row) (e : task_error) (err : option string)
    (now : Z) (m : worker_mem) (d : migration_db) : task_outcome * worker_mem * migration_db :=
  let attempts := mt_attempts t + 1 in
  if (attempts <? 3) && negb (isPermanentTransferError e) then
    let nextRetry := now + retryDelay e attempts in
    let '(ok, d) := UpdateMigrationTaskAndProgress taskID (mt_migration t) epoch
                      (failed_copy TFAILED attempts err (Some nextRetry) t) 1 (mt_size t) 0 1 0 now d in
    (if ok then ORetry nextRetry else ONotRecorded, m, d)
  else
    let d := write_copy (failed_copy TFAILED attempts err None t) now d in
    (OTerminal, clearConnLossTask taskID m,
     match mig with Some row => reconcileFileManagerTransferIfDone migrationID row now d | None => d end).

(** [readTask] and [readMigration] say whether the two reads succeeded, [ctxDone]
    whether the worker's context has ended: the statements on the task are executed under
    that context, and none of them then reaches the database. *)
Definition handleTaskFailure (e : task_error) (ctxDone readTask readMigration : bool) (now : Z) (m : worker_mem)
    (d : migration_db) : task_outcome * worker_mem * migration_db :=
  match (if readTask then mtasks d !! taskID else None) with
  | None => (OUnreadable, m, d)
  | Some t =>
      let mig := if readMigration then migrations d !! migrationID else None in
      if ctxDone then (ONotWritten, m, d)
      else if (match mig with Some row => mstatus_in [MCANCELLED] row | None => false end)
      then (OCancelled, m, write_copy (failed_copy CANCELLED (mt_attempts t) (mt_error t) (mt_next_retry t) t) now d)
      else if er_canceled e
      then (ORequeued, m, write_copy (failed_copy PENDING (mt_attempts t) (mt_error t) (mt_next_retry t) t) now d)
      else
        let err := Some (SanitizeError (er_text e)) in
        if isNetworkError e then migration_conn_loss t err now m d
        else if isMigrationAuthError e then migration_auth t mig e now m d
        else migration_transfer_failure t mig e err now m d
  end.
End Handler.

(** ** What the handler leaves behind *)

Lemma update_mtask_hit k p f d t : mtasks d !! k = Some t -> p t = true ->
  update_mtask k p f d = (true, set_mtasks (fun _ => <[k := f t]> (mtasks d)) d).
Proof. intros Ht Hp. unfold update_mtask. by rewrite (update_row_hit k p f _ t). Qed.

Lemma update_migration_hit id p f d m : migrations d !! id = Some m -> p m = true ->
  update_migration id p f d = (true, set_migrations (fun _ => <[id := f m]> (migrations d)) d).
Proof. intros Hm Hp. unfold update_migration. by rewrite (update_row_hit id p f _ m). Qed.

Lemma update_migration_miss id p f d m : migrations d !! id = Some m -> p m = false -> update_migration id p f d = (false, d).
Proof.
  intros Hm Hp. unfold update_migration, update_row. rewrite Hm, Hp. by destruct d.
Qed.

(** A reconciliation writes its migration's row and nothing else of the two tables. *)
Lemma reconcile_done_frame id now d m : migrations d !! id = Some m ->
  exists m', migrations (ReconcileMigrationProgress id now d) = <[id := m']> (migrations d)
  /\ mtasks (ReconcileMigrationProgress id now d) = mtasks d.
Proof.
  intros Hm. unfold ReconcileMigrationProgress, reconcileMigrationProgress. rewrite (update_migration_hit _ _ _ _ m) by done.
  set (m1 := reconciled id now d m). set (d1 := set_migrations _ d).
  assert (exists m', migrations d1 = <[id := m']> (migrations d) /\ mtasks d1 = mtasks d) as H1 by (by exists m1).
  destruct (has_claim _ _ d1); [|done]. unfold commit. destruct (createMigrationNotificationEventTx id d1) as [d2|] eqn:E.
  - unfold createMigrationNotificationEventTx in E. destruct (migrations d1 !! id); [|done]. destruct (ms_user _); [|done].
    destruct (isTerminalMigrationStatus _); injection E as <-; done.
  - exists m. by rewrite insert_id.
Qed.

Section Settles.
Context `{GoUnicode}.
Context (SanitizeError : string -> string) (refreshOAuthToken : string -> bool).
Context (taskID migrationID : string) (epoch : Z) (t : mtask_row) (m : migration_row) (d : migration_db).

(** The worker holds its claim, on a task of a migration that has an owner. *)
Hypothesis Htask : mtasks d !! taskID = Some t.
Hypothesis Hclaim : holds_mclaim epoch t = true.
Hypothesis Hof : mt_migration t = migrationID.
Hypothesis Hmig : migrations d !! migrationID = Some m.
Hypothesis Howner : is_Some (ms_user (mg_spec m)).

(** What the rows of the task and of the migration are after each way. *)
Definition left_as (o : task_outcome) (now : Z) (d' : migration_db) : Prop :=
  exists t' m', mtasks d' !! taskID = Some t' /\ mt_epoch t' = epoch /\ migrations d' !! migrationID = Some m' /\
  match o with
  | OCancelled => mt_status t' = CANCELLED /\ mt_attempts t' = mt_attempts t /\ m' = m /\ mg_status m = MCANCELLED
  | ORequeued => mt_status t' = PENDING /\ mt_attempts t' = mt_attempts t /\ m' = m
  | ORetry r => mt_status t' = TFAILED /\ mt_attempts t' = mt_attempts t + 1 /\ mt_next_retry t' = Some r
      /\ now + 10 <= r /\ mg_status m' = mg_status m
  | OPaused => mt_status t' = PENDING /\ mt_attempts t' = mt_attempts t + 1 /\ mg_status m' = MPAUSED_CONNECTION_LOSS
      /\ mstatus_in [MRUNNING; MINDEXING] m = true
  | OPauseRefused | OFailRefused => d' = d /\ mstatus_in [MRUNNING; MINDEXING] m = false
  | OMigrationFailed => mt_status t' = TFAILED /\ mt_next_retry t' = None /\ mg_status m' = MFAILED
      /\ (migrationID, mg_notification m') ∈ notified d'
      /\ forall k u, mtasks d' !! k = Some u -> mt_migration u = migrationID -> mt_status u <> PENDING /\ mt_status u <> TRUNNING
  | OTerminal => mt_status t' = TFAILED /\ mt_attempts t' = mt_attempts t + 1 /\ mt_next_retry t' = None
  | OUnreadable | ONotWritten | ONotRecorded | OPanicked => False
  end.

(** Of the other tasks only the open ones of a migration failed for authentication change,
    to CANCELLED, and no other migration does. *)
Definition others_kept (o : task_outcome) (d' : migration_db) : Prop :=
  (forall k, k <> taskID ->
     match mtasks d !! k, mtasks d' !! k with
     | Some u, Some u' =>
         if bool_decide (o = OMigrationFailed) && of_migration migrationID u && tstatus_in [PENDING; TRUNNING] u
         then mt_status u' = CANCELLED /\ mt_next_retry u' = None else u' = u
     | None, None => True
     | _, _ => False
     end)
  /\ forall id, id <> migrationID -> migrations d' !! id = migrations d !! id.

(** The other rows are as they were. *)
Lemma untouched_kept o d' :
  o <> OMigrationFailed -> (forall k, k <> taskID -> mtasks d' !! k = mtasks d !! k) ->
  (forall id, id <> migrationID -> migrations d' !! id = migrations d !! id) -> others_kept o d'.
Proof.
  intros Ho Hk Hi. split; [|done]. intros k Hne. rewrite (Hk k Hne), bool_decide_false by done. by destruct (mtasks d !! k).
Qed.

Lemma held_write s now d0 : mtasks d0 = mtasks d ->
  write_copy taskID epoch s now d0 = set_mtasks (fun _ => <[taskID := with_state s now t]> (mtasks d)) d0.
Proof.
  intros E. unfold write_copy, UpdateClaimedTaskStatus. rewrite (update_mtask_hit _ _ _ _ t) by (by rewrite ?E). cbn. by rewrite E.
Qed.

Lemma held_epoch : mt_epoch t = epoch.
Proof. apply andb_prop in Hclaim as [_ He]. by apply Z.eqb_eq in He. Qed.

Lemma written_left s now o :
  (exists t', t' = with_state s now t /\
    match o with
    | OCancelled => mt_status t' = CANCELLED /\ mt_attempts t' = mt_attempts t /\ mg_status m = MCANCELLED
    | ORequeued => mt_status t' = PENDING /\ mt_attempts t' = mt_attempts t
    | ORetry r => mt_status t' = TFAILED /\ mt_attempts t' = mt_attempts t + 1 /\ mt_next_retry t' = Some r /\ now + 10 <= r
    | OTerminal => mt_status t' = TFAILED /\ mt_attempts t' = mt_attempts t + 1 /\ mt_next_retry t' = None
    | _ => False
    end) -> left_as o now (write_copy taskID epoch s now d) /\ others_kept o (write_copy taskID epoch s now d).
Proof.
  intros (t' & Et & Ho). rewrite held_write by done. split.
  - exists t', m. cbn. rewrite <- Et, lookup_insert_eq. split; [done|]. split; [rewrite Et; apply held_epoch|].
    split; [done|]. destruct o; naive_solver.
  - apply untouched_kept; [by intros ->| |done]. intros k Hk. cbn. by rewrite lookup_insert_ne.
Qed.

Lemma reconcile_left now d0 : left_as OTerminal now d0 -> others_kept OTerminal d0 ->
  left_as OTerminal now (reconcileFileManagerTransferIfDone migrationID m now d0)
  /\ others_kept OTerminal (reconcileFileManagerTransferIfDone migrationID m now d0).
Proof.
  intros (t' & m' & Ht & He & Hm & Ho) [Hk Hi]. unfold reconcileFileManagerTransferIfDone.
  destruct (String.eqb _ _); [split; [by exists t', m'|done]|].
  destruct (reconcile_done_frame migrationID now d0 m' Hm) as (m2 & E1 & E2). unfold left_as, others_kept. rewrite E1, E2. split.
  - exists t', m2. by rewrite lookup_insert_eq.
  - split; [done|]. intros id Hne. rewrite lookup_insert_ne by done. by apply Hi.
Qed.

Lemma cancelled_left now : mg_status m = MCANCELLED ->
  left_as OCancelled now (write_copy taskID epoch (failed_copy CANCELLED (mt_attempts t) (mt_error t) (mt_next_retry t) t) now d)
  /\ others_kept OCancelled (write_copy taskID epoch (failed_copy CANCELLED (mt_attempts t) (mt_error t) (mt_next_retry t) t) now d).
Proof. intros Hs. apply written_left. by eexists. Qed.

Lemma conn_loss_left err now mem :
  let '(o, _, d') := migration_conn_loss taskID migrationID epoch t err now mem d in left_as o now d' /\ others_kept o d'.
Proof.
  unfold migration_conn_loss. destruct (recordConnLoss _ mem) as [lc mem1]. destruct (recordConnLossTask _ mem1) as [tc mem2].
  pose proof (retryBackoff_pos tc). destruct (_ && _).
  - apply written_left. eexists. split; [reflexivity|]. cbn. split_and!; try done. lia.
  - unfold PauseMigrationForConnectionLoss. destruct (mstatus_in [MRUNNING; MINDEXING] m) eqn:Es.
    + rewrite (update_migration_hit _ _ _ _ m) by done. cbn [negb].
      rewrite held_write by done. split; [|apply untouched_kept; [done|intros k Hk|intros id Hk]; cbn; by rewrite lookup_insert_ne].
      eexists _, _. cbn. rewrite !lookup_insert_eq. split; [reflexivity|]. split; [apply held_epoch|]. done.
    + rewrite (update_migration_miss _ _ _ _ m) by done. cbn [negb]. split; [|by apply untouched_kept].
      exists t, m. split_and!; try done. apply held_epoch.
Qed.

(** What the failure of the migration writes into its tasks. *)
Lemma authentication_left msg now :
  let '(ok, d') := FailMigrationForAuthentication taskID migrationID epoch msg now d in
  left_as (if ok then OMigrationFailed else OFailRefused) now d' /\ others_kept (if ok then OMigrationFailed else OFailRefused) d'.
Proof.
  unfold FailMigrationForAuthentication. rewrite (update_mtask_hit _ _ _ _ t) by (try done; unfold of_migration; by rewrite Hof, String.eqb_refl).
  cbn [negb]. set (t1 := with_state _ now t). set (d1 := set_mtasks _ d). set (d2 := set_mtasks (update_where _ _) d1).
  match goal with |- context [update_migration migrationID _ ?f d2] => set (upd := f) end.
  assert (migrations d2 !! migrationID = Some m) as Hm2 by done.
  destruct (mstatus_in [MRUNNING; MINDEXING] m) eqn:Es.
  2: { rewrite (update_migration_miss _ _ _ _ m) by done. split; [|by apply untouched_kept]. exists t, m. split_and!; try done. apply held_epoch. }
  rewrite (update_migration_hit _ _ _ _ m) by done. unfold commit, createMigrationNotificationEventTx.
  cbn [migrations set_migrations]. rewrite lookup_insert_eq. destruct Howner as [u Hu].
  assert (ms_user (mg_spec (upd m)) = Some u) as -> by done. cbn [isTerminalMigrationStatus mg_status upd at_time with_status].
  split.
  - exists t1, (upd m). cbn [mtasks set_notified set_migrations set_mtasks d1 d2].
    assert (update_where (fun t0 => of_migration migrationID t0 && tstatus_in [PENDING; TRUNNING] t0)
      (fun t0 => with_state (mkTaskState CANCELLED (mt_attempts t0) (mt_error t0) None (mt_worker t0) (mt_source_hash t0)
         (mt_target_hash t0) (mt_verified t0)) now t0) (<[taskID := t1]> (mtasks d)) !! taskID = Some t1) as Ht1.
    { rewrite update_where_lookup, lookup_insert_eq. cbn [fmap option_fmap option_map]. by rewrite andb_false_r. }
    split; [exact Ht1|]. split; [apply held_epoch|]. cbn [migrations notified set_notified set_migrations]. split; [by rewrite lookup_insert_eq|].
    split_and!; try done; [set_solver|]. intros k v. rewrite update_where_lookup, fmap_Some. intros (v0 & _ & ->) Hv.
    destruct (of_migration migrationID v0 && tstatus_in [PENDING; TRUNNING] v0) eqn:Ev; [done|].
    unfold of_migration in Ev. rewrite Hv, String.eqb_refl in Ev. cbn in Ev. apply bool_decide_eq_false in Ev. set_solver.
  - split; [|intros id Hid; cbn; by rewrite lookup_insert_ne].
    intros k Hk. cbn [mtasks set_notified set_migrations set_mtasks d1 d2]. rewrite update_where_lookup, lookup_insert_ne by done.
    destruct (mtasks d !! k) as [u0|]; [|done]. cbn [fmap option_fmap option_map]. rewrite bool_decide_true by done. cbn [andb].
    by destruct (of_migration migrationID u0 && _).
Qed.

Lemma transfer_left mig e err now mem : mig = None \/ mig = Some m ->
  let '(o, _, d') := migration_transfer_failure taskID migrationID epoch t mig e err now mem d in left_as o now d' /\ others_kept o d'.
Proof.
  intros Hmg. unfold migration_transfer_failure. pose proof (retryDelay_pos e (mt_attempts t + 1)). destruct (_ && _).
  - unfold UpdateMigrationTaskAndProgress. rewrite (update_mtask_hit _ _ _ _ t) by (try done; unfold of_migration; by rewrite String.eqb_refl).
    cbn [negb]. rewrite (update_migration_hit _ _ _ _ m) by (cbn; by rewrite ?Hof). split.
    + eexists _, _. cbn. rewrite Hof, !lookup_insert_eq. split; [reflexivity|]. split; [apply held_epoch|]. split; [reflexivity|].
      cbn. split_and!; try done. lia.
    + apply untouched_kept; [done|intros k Hk|intros id Hk]; cbn; rewrite ?Hof; by rewrite lookup_insert_ne.
  - assert (left_as OTerminal now (write_copy taskID epoch (failed_copy TFAILED (mt_attempts t + 1) err None t) now d)
      /\ others_kept OTerminal (write_copy taskID epoch (failed_copy TFAILED (mt_attempts t + 1) err None t) now d)) as [Hl Hk].
    { apply written_left. by eexists. }
    destruct Hmg as [->| ->]; [done|]. by apply reconcile_left.
Qed.

(** C2: a failed migration task is settled.  While its worker holds the claim and can
    read the task, whatever the error was, as long as the worker's context has not ended:
    the task leaves RUNNING, to the status the way of the handler calls for, a retry lies
    at least ten seconds ahead, and no other task or migration changes, except that an
    authentication failure cancels the open tasks of the failed, notified migration.  The
    task stays RUNNING, and nothing changes, if the migration that was to be paused or
    failed is not RUNNING or INDEXING any more; the one other way out is the crash on an
    authentication error after the migration could not be read.  If the context has
    ended, as it has at a shutdown, nothing is written and the task stays RUNNING. *)
Theorem migration_failure_settles e ctxDone readMigration now mem :
  let '(o, _, d') := handleTaskFailure SanitizeError refreshOAuthToken taskID migrationID epoch e ctxDone true readMigration now mem d in
  (ctxDone = true -> o = ONotWritten /\ d' = d)
  /\ (ctxDone = false -> (o = OPanicked -> readMigration = false /\ isMigrationAuthError e = true)
        /\ (o <> OPanicked -> left_as o now d' /\ others_kept o d')).
Proof.
  unfold handleTaskFailure. rewrite Htask.
  assert ((if readMigration then migrations d !! migrationID else None) = if readMigration then Some m else None) as ->
    by (by destruct readMigration).
  destruct ctxDone; [done|].
  destruct (match (if readMigration then Some m else None) with Some row => mstatus_in [MCANCELLED] row | None => false end) eqn:Ec.
  { split; [done|]. intros _. split; [done|]. intros _. apply cancelled_left. destruct readMigration; [|done].
    apply bool_decide_eq_true, list_elem_of_singleton in Ec. done. }
  destruct (er_canceled e); [split; [done|]; intros _; split; [done|]; intros _; apply written_left; by eexists|].
  destruct (isNetworkError e).
  { pose proof (conn_loss_left (Some (SanitizeError (er_text e))) now mem) as C.
    destruct (migration_conn_loss _ _ _ _ _ _ _ _) as [[o mem'] d'] eqn:E. split; [done|]. intros _. split; [|done]. intros ->. exfalso. by destruct C as [(?&?&?&?&?&?) _]. }
  destruct (isMigrationAuthError e).
  { unfold migration_auth. destruct readMigration; [|split; [done|]; intros _; by split]. pose proof (retryBackoff_pos (mt_attempts t + 1)). destruct (_ && _).
    - split; [done|]. intros _. split; [done|]. intros _. apply written_left. eexists. split; [reflexivity|]. cbn. split_and!; try done. lia.
    - pose proof (authentication_left migration_auth_msg now) as C.
      destruct (FailMigrationForAuthentication _ _ _ _ _ _) as [b d']. destruct b; (split; [done|]; intros _; by split). }
  pose proof (transfer_left (if readMigration then Some m else None) e (Some (SanitizeError (er_text e))) now mem) as C.
  destruct (migration_transfer_failure _ _ _ _ _ _ _ _ _ _) as [[o mem'] d'].
  assert (left_as o now d' /\ others_kept o d') as C' by (apply C; destruct readMigration; auto).
  split; [done|]. intros _. split; [|done]. intros ->. exfalso. by destruct C' as [(?&?&?&?&?&?) _].
Qed.
End Settles.

(** ** The counters of a failure *)

(** A failure that will be retried already counts a processed and a failed file; the
    last one, which is not retried, counts nothing. *)
Lemma retry_counts_progress `{GoUnicode} SanitizeError refresh taskID migrationID epoch t m d e now mem :
  mtasks d !! taskID = Some t -> holds_mclaim epoch t = true -> mt_migration t = migrationID ->
  migrations d !! migrationID = Some m -> mg_status m = MRUNNING -> fileManagerTransferOperation (ms_picker_session (mg_spec m)) = "" ->
  er_canceled e = false -> isNetworkError e = false -> isMigrationAuthError e = false -> isPermanentTransferError e = false ->
  exists m', migrations (handleTaskFailure SanitizeError refresh taskID migrationID epoch e false true true now mem d).2 !! migrationID = Some m'
  /\ (mp_processed_files (mg_progress m'), mp_failed_files (mg_progress m'), mp_processed_bytes (mg_progress m'))
     = if mt_attempts t + 1 <? 3
       then (mp_processed_files (mg_progress m) + 1, mp_failed_files (mg_progress m) + 1, mp_processed_bytes (mg_progress m) + mt_size t)
       else (mp_processed_files (mg_progress m), mp_failed_files (mg_progress m), mp_processed_bytes (mg_progress m)).
Proof.
  intros Ht Hc Hof Hm Hs Hp H1 H2 H3 H4. unfold handleTaskFailure. rewrite Ht, Hm.
  assert (mstatus_in [MCANCELLED] m = false) as -> by (apply bool_decide_eq_false; rewrite Hs; intros Hx%list_elem_of_singleton; discriminate).
  rewrite H1, H2, H3. cbn [orb]. unfold migration_transfer_failure. rewrite H4. cbn [negb]. rewrite andb_true_r.
  destruct (mt_attempts t + 1 <? 3).
  - unfold UpdateMigrationTaskAndProgress. rewrite (update_mtask_hit _ _ _ _ t) by (try done; unfold of_migration; by rewrite String.eqb_refl).
    cbn [negb]. rewrite (update_migration_hit _ _ _ _ m) by (cbn; by rewrite ?Hof). cbn. rewrite Hof, lookup_insert_eq.
    eexists. split; [reflexivity|]. done.
  - unfold reconcileFileManagerTransferIfDone. rewrite Hp. cbn. unfold write_copy, UpdateClaimedTaskStatus.
    rewrite (update_mtask_hit _ _ _ _ t) by done. cbn. exists m. by split.
Qed.

(** ** A failed download *)

#[local] Existing Instance ascii_tables.

Definition mf_row : migration_row :=
  with_status MRUNNING None (new_migration (mkSpec (Some "u") "webdav" "nextcloud" "/" SKIP ["/a"] [] [] "")
    (mkOAuth "secret" None None) (mkOAuth "secret" None None) MINDEXING 4 0).
Definition mf_task : mtask_row :=
  mkMTask "m" "files" "/a/f" 3 (mkMetadata "" [] None []) 0 None TRUNNING 0 None None (Some "w") 1 None None false 0.
Definition mf_db : migration_db := mkMigrationDb {["m" := mf_row]} {["t" := mf_task]} [] ∅ ∅.
Definition mf_error : task_error := mkError "failed to download from source: status 500" false false false false None.

Lemma migration_failure_settles_witness :
  let d' := (handleTaskFailure (fun s => s) (fun _ => false) "t" "m" 1 mf_error false true true 100 (mkMem ∅ ∅ ∅) mf_db).2 in
  exists t', mtasks d' !! "t" = Some t' /\ mt_status t' = TFAILED /\ mt_next_retry t' = Some 110.
Proof.
  cbn zeta.
  pose proof (migration_failure_settles (fun s => s) (fun _ => false) "t" "m" 1 mf_task mf_row mf_db eq_refl eq_refl eq_refl eq_refl
    ltac:(by eexists) mf_error false true 100 (mkMem ∅ ∅ ∅)) as C.
  assert (handleTaskFailure (fun s => s) (fun _ => false) "t" "m" 1 mf_error false true true 100 (mkMem ∅ ∅ ∅) mf_db
    = (ORetry 110, mkMem ∅ ∅ ∅,
       (handleTaskFailure (fun s => s) (fun _ => false) "t" "m" 1 mf_error false true true 100 (mkMem ∅ ∅ ∅) mf_db).2)) as E
    by (vm_compute; reflexivity).
  rewrite E in C. cbv beta iota in C. destruct C as [_ C]. destruct (C eq_refl) as [_ [(t' & m' & H1 & _ & _ & H2 & _ & H3 & _) _]]; [discriminate|].
  exists t'. split; [exact H1|]. split; [exact H2|exact H3].
Defined.
