(* ===== verification/MigrationWorker.v ===== *)
(** * The migration worker

    [processTask] (src/backend/internal/processor/processor.go): what a worker does
    with the migration task it claimed - the state of the migration, directories,
    the choice of the target path, conflicts, the transfer and its promotion, the
    end of the task - as a state and error program over the statements of
    MigrationTasks.v, the transfer core and the promotion.  What surrounds it is a
    parameter: the source and the target as they answer for the resource type of
    the task, the transactions of other workers before each statement, the
    statements that fail, the clock, and the outcome of credentials, tokens and
    connections.  Progress display, heartbeats and locks on target paths are left
    out. *)

From S2P Require Import Prelude GoPath HashString Digits Ranges Tables Bytes Utf8 Storage Sanitize Streams TransferCore.
From S2P Require Import SyncDelta SyncBaseline Database SyncFailure MigrationDb MigrationOps MigrationTasks MigrationFailure Indexer IndexerRun Overwrite WorkerMonad.

(** ** Target paths *)

Section Paths.
Context `{UnicodeTables}.
#[local] Existing Instance uni_case.

(** [time.Parse(time.RFC3339, s)] of a time that is not zero, as year and month. *)
Context (rfc3339 : string -> option (string * string)).

Definition field_of (key : string) (l : list (string * string)) : string :=
  default "" (snd <$> find (fun '(k, _) => String.eqb k key) l).

(** A key of the object itself, or of its custom properties. *)
Definition immich_field (key : string) (md : task_metadata) : string :=
  let v := field_of key (md_fields md) in
  if String.eqb v "" then field_of key (md_custom md) else v.

Definition immichFilenameFromMetadata : task_metadata -> string := immich_field "immich_filename".
Definition immichAlbumNameFromMetadata : task_metadata -> string := immich_field "immich_album_name".

Definition immichYearMonthFromMetadata (md : task_metadata) : string * string :=
  let year := immich_field "immich_year" md in
  let month := immich_field "immich_month" md in
  if negb (String.eqb year "") && negb (String.eqb month "") then (year, month)
  else
    let createdAt := immich_field "immich_file_created_at" md in
    let createdAt := if String.eqb createdAt "" then immich_field "immich_file_modified_at" md else createdAt in
    if String.eqb createdAt "" then ("", "") else default ("", "") (rfc3339 createdAt).

Definition immich_relative (filePath : string) (md : task_metadata) : string :=
  let filename := immichFilenameFromMetadata md in
  let filename := if String.eqb filename "" then path_base filePath else filename in
  let albumName := immichAlbumNameFromMetadata md in
  let '(year, month) := immichYearMonthFromMetadata md in
  if negb (String.eqb albumName "") then path_join [albumName; filename]
  else if negb (String.eqb year "") && negb (String.eqb month "") then path_join [year; month; filename]
  else filename.

Definition sanitize_part (targetProvider part : string) : string :=
  if String.eqb part "" || String.eqb part "." || String.eqb part ".." then part
  else SanitizedName (SanitizeFilename part targetProvider).

Definition ResolveTargetPath (resourceType filePath : string) (md : task_metadata)
    (targetDir sourceProvider targetProvider : string) : string :=
  if negb (String.eqb resourceType "files") then filePath
  else
    let relativePath := if String.eqb sourceProvider "immich" then immich_relative filePath md else filePath in
    let relativePath := if IsVirtualProvider targetProvider then relativePath
                        else join_with "/" (map (sanitize_part targetProvider) (split_on slash relativePath)) in
    if negb (String.eqb targetDir "") && negb (String.eqb targetDir "/")
    then path_clean (path_join [targetDir; relativePath]) else path_clean relativePath.

Definition effectiveTargetPath (task : mtask_row) (targetDir sourceProvider targetProvider : string) : string :=
  match mt_resolved task with
  | Some p => if String.eqb p "" then ResolveTargetPath (mt_resource task) (mt_path task) (mt_metadata task) targetDir sourceProvider targetProvider else p
  | None => ResolveTargetPath (mt_resource task) (mt_path task) (mt_metadata task) targetDir sourceProvider targetProvider
  end.
End Paths.

(** ** Collections nobody may write *)

Fixpoint trim_left_slashes (s : string) : string :=
  match s with
  | EmptyString => EmptyString
  | String a s' => if Ascii.eqb a slash then trim_left_slashes s' else s
  end.

Section Collections.
Context `{GoUnicode, GoSpace}.

Definition IsSystemOrAppGeneratedCollection (name : string) : bool :=
  let n := ToLower (TrimSpace name) in
  if String.eqb n "" then false
  else existsb (has_prefix n) ["app-generated--"; "z-server-generated--"; "z-app-generated--"]
       || bool_decide (n ∈ ["contact_birthdays"; "contact-birthdays"; "contact_birthdays.ics"; "birthdays"; "inbox";
                            "outbox"; "notifications"; "notification-inbox"; "trashbin"; "trash"]).

Definition IsSystemOrAppGeneratedPath (p : string) : bool :=
  let c := trim_right_slashes (trim_left_slashes p) in
  if String.eqb c "" then false else existsb IsSystemOrAppGeneratedCollection (split_on slash c).

Definition isWebDAVSystemConflict (err : string) : bool :=
  let s := ToLower err in
  existsb (contains_str s)
    ["sabredav"; "sabre\dav"; "sabre/dav"; "propfind check failed with status:"; "propfind for hash failed: status";
     "status: 400"; "status 400"; "status: 403"; "status 403"; "status: 404"; "status 404"; "status: 409"; "status 409";
     "delete failed with status: 403"; "could not be found"].
End Collections.

(** ** Checksums as text *)

Definition base64_char (n : Z) : ascii :=
  let n := Z.to_nat n in
  ascii_of_nat (if (n <? 26)%nat then 65 + n else if (n <? 52)%nat then 71 + n else if (n <? 62)%nat then n - 4
                else if (n =? 62)%nat then 43 else 47).

Fixpoint base64_encode (l : bytes) : string :=
  match l with
  | [] => ""
  | [a] =>
      let n := z_of a * 65536 in
      String (base64_char (n / 262144)) (String (base64_char (n / 4096 mod 64)) "==")
  | [a; b] =>
      let n := z_of a * 65536 + z_of b * 256 in
      String (base64_char (n / 262144)) (String (base64_char (n / 4096 mod 64)) (String (base64_char (n / 64 mod 64)) "="))
  | a :: b :: c :: l =>
      let n := z_of a * 65536 + z_of b * 256 + z_of c in
      String (base64_char (n / 262144)) (String (base64_char (n / 4096 mod 64)) (String (base64_char (n / 64 mod 64))
        (String (base64_char (n mod 64)) (base64_encode l))))
  end.

Example base64_ex : (base64_encode [x4d; x61; x6e], base64_encode [x4d; x61], base64_encode [xfb; xff; xff; xff]) = ("TWFu", "TWE=", "+////w==").
Proof. vm_compute. reflexivity. Qed.

(** [sum] is the digest of the algorithm. *)
Definition formatWorkerHashValue (sum : string -> bytes -> bytes) (algo : string) (hashed : bytes) : string :=
  if String.eqb algo "QUICKXOR" then base64_encode (sum algo hashed) else hex_encode (sum algo hashed).

(** ** What the worker talks to *)

Record migration_source (R : Type) := mkMSource {
  sc_Download : string -> res string R;
  sc_Inspect : string -> res string source_item;
  sc_Delete : string -> option string;
}.
Arguments sc_Download {R} _ _.
Arguments sc_Inspect {R} _ _.
Arguments sc_Delete {R} _ _.

(** The target for the resource type of the task.  [tg_Metadata] is the interface
    MetadataApplier, whose errors are only logged; [tg_Receipt] the resource the last
    upload reported. *)
Record migration_target (T : Type) := mkMTarget {
  tg_streams : target (T := T);
  tg_Listing : string -> T -> res storage_error (list CloudResource) * T;
  tg_CreateParents : string -> T -> res string unit * T;
  tg_CreateDirectory : string -> T -> res string unit * T;
  tg_Delete : string -> T -> res string unit * T;
  tg_Rename : string -> string -> T -> res string unit * T;
  tg_Hash : string -> T -> res string string * T;
  tg_Metadata : option (string -> task_metadata -> T -> T);
  tg_AtomicRename : bool;
  tg_NativeDuplicates : bool;
  tg_SizeOnly : bool;
  tg_CryptographicHash : bool;
  tg_Receipt : T -> string;
}.
Arguments tg_streams {T} _.
Arguments tg_Listing {T} _ _ _.
Arguments tg_CreateParents {T} _ _ _.
Arguments tg_CreateDirectory {T} _ _ _.
Arguments tg_Delete {T} _ _ _.
Arguments tg_Rename {T} _ _ _ _.
Arguments tg_Hash {T} _ _ _.
Arguments tg_Metadata {T} _.
Arguments tg_AtomicRename {T} _.
Arguments tg_NativeDuplicates {T} _.
Arguments tg_SizeOnly {T} _.
Arguments tg_CryptographicHash {T} _.
Arguments tg_Receipt {T} _ _.

(** At which of its ends without an error the code arrived. *)
Inductive task_end := EndRefused | EndSkipped | EndDirectory | EndTransferred.

(** ** One task *)

Section Worker.
Context `{UnicodeTables, GoSpace}.
#[local] Existing Instance uni_case.
Context (rfc3339 : string -> option (string * string)) (sum : string -> bytes -> bytes) (SanitizeError : string -> string).
Context {R L T : Type} (read : read_op R) (source : migration_source R) (target : migration_target T).
Context (down up : option (throttler (L := L))) (l0 : L).

(** Which upload errors wrap ErrNativeDuplicate and ErrDuplicateUID. *)
Context (native_duplicate duplicate_uid : string -> bool).

(** What runs between two statements, the failing ones, the database clock, the
    outcome of credentials, tokens, sessions and connections. *)
Context (other : nat -> migration_db -> migration_db) (fault : nat -> option string).
Context (now : nat -> Z) (connect : nat -> option string).

(** The payload of the claim. *)
Context (taskID migrationID : string) (epoch : Z).

Abbreviation W := (@W migration_db T).
Abbreviation wstatement := (wstatement other fault now).
Abbreviation wchecked := (wchecked other fault now).
Abbreviation wupdate := (wupdate other fault now).
Abbreviation wfetch := (wfetch other fault now).
Abbreviation wconnections := (wconnections connect).

Fixpoint wprog {A} (p : target_prog A) : W A :=
  match p with
  | Return a => wret a
  | Overwrite.FileExists path k =>
      let* r := wtry (fun t => TransferCore.FileExists (tg_streams target) t path) in
      wprog (k (match r with Ok x => Ok x.1 | Err e => Err e end))
  | DeleteFile path k => let* r := wtry (tg_Delete target path) in wprog (k r)
  | RenameFile old new k => let* r := wtry (tg_Rename target old new) in wprog (k r)
  end.

Definition claimed_to (s : task_status) : W unit := wlogged (wchecked (TransitionClaimedTask taskID epoch s)).

(** Whether the migration lets the task go on. *)
Definition admitted (m : migration_row) : W bool :=
  if mstatus_in [MPAUSED_CONNECTION_LOSS; MPAUSED] m then let* _ := claimed_to PENDING in wret false
  else if mstatus_in [MCOMPLETED; MCOMPLETED_WITH_ERRORS; MFAILED] m then let* _ := claimed_to SKIPPED in wret false
  else if mstatus_in [MCANCELLED] m then let* _ := claimed_to CANCELLED in wret false
  else if negb (mstatus_in [MRUNNING; MINDEXING] m)
  then let* _ := claimed_to PENDING in wstop "migration is in another state, task skipped for now"
  else wret true.

Section Task.
Context (mig : migration_row) (task : mtask_row).

Let SourceProvider := ms_source_provider (mg_spec mig).
Let TargetProvider := ms_target_provider (mg_spec mig).
Let operation := fileManagerTransferOperation (ms_picker_session (mg_spec mig)).
Definition is_files : bool := String.eqb (mt_resource task) "files".

(** The worker's copy of the row when the task ends. *)
Definition end_copy (s : task_status) (err : option string) (verified : bool) : task_state :=
  mkTaskState s (mt_attempts task) err (mt_next_retry task) (mt_worker task) (mt_source_hash task) (mt_target_hash task) verified.

Definition record_end (s : task_state) (files bytes skipped live : Z) : W unit :=
  wchecked (UpdateMigrationTaskAndProgress taskID (mt_migration task) epoch s files bytes skipped 0 live).

Definition skip_with (msg : string) : W unit :=
  record_end (end_copy SKIPPED (Some msg) (mt_verified task)) 1 (mt_size task) 1 (mt_size task).
Definition skipTask (reason : string) : W unit := skip_with (SanitizeError reason).

Definition clear_losses : W unit := wmem (fun m => clearConnLossTask taskID (clearConnLoss migrationID m)).
Definition reconcile_transfer : W unit :=
  if String.eqb operation "" then wret tt else wlogged (wupdate (ReconcileMigrationProgress migrationID)).

(** *** Directories *)

Definition directory_collision (targetPath : string) : W string :=
  if is_files && IsCaseInsensitive TargetProvider then
    let* items := wtry (tg_Listing target (path_dir targetPath)) in
    wret (match CheckCaseCollision items (path_base targetPath) with Ok c => c | Err _ => "" end)
  else wret "".

Definition make_directory : W task_end :=
  let targetPath :=
    if is_files then ResolveTargetPath rfc3339 (mt_resource task) (mt_path task) (mt_metadata task)
                       (ms_target_dir (mg_spec mig)) SourceProvider TargetProvider
    else mt_path task in
  let* collision := directory_collision targetPath in
  if negb (String.eqb collision "")
  then
    let* _ := record_end (end_copy SKIPPED (Some ("Directory skipped due to case collision with " +:+ collision)) (mt_verified task)) 1 0 0 0 in
    wret EndSkipped
  else
    let* _ := wcall "failed to create directory on target: " (tg_CreateDirectory target targetPath) in
    let* _ := record_end (end_copy COMPLETED None (negb (String.eqb operation "") || mt_verified task)) 1 0 0 0 in
    let* _ := clear_losses in
    let* _ := reconcile_transfer in
    wret EndDirectory.

(** *** The target path *)

Definition persisted : bool := match mt_resolved task with Some p => negb (String.eqb p "") | None => false end.

Definition first_target : string :=
  if is_files then effectiveTargetPath rfc3339 task (ms_target_dir (mg_spec mig)) SourceProvider TargetProvider
  else mt_path task.

Definition sanitized_target (targetPath : string) : string :=
  let r := SanitizeFilename (path_base targetPath) TargetProvider in
  if Changed r then path_join [path_dir targetPath; SanitizedName r] else targetPath.

Definition settle_name : W string :=
  if is_files && negb persisted && negb (String.eqb TargetProvider "immich") then
    let targetPath := sanitized_target first_target in
    if IsCaseInsensitive TargetProvider then
      let* items := wtry (tg_Listing target (path_dir targetPath)) in
      match CheckCaseCollision items (path_base targetPath) with
      | Err _ => wret targetPath
      | Ok collision =>
          if String.eqb collision "" then wret targetPath
          else
            let* items := wtry (tg_Listing target (path_dir targetPath)) in
            let* resolved := wlift "failed to resolve case collision: " (ResolveCollision items (path_base targetPath) TargetProvider) in
            wret (path_join [path_dir targetPath; resolved])
      end
    else wret targetPath
  else wret first_target.

Definition exists_at (p : string) : W (res string (bool * Z)) :=
  wtry (fun t => TransferCore.FileExists (tg_streams target) t p).

(** "base_copyN.ext" beside the target. *)
Definition rename_candidate (targetPath : string) (counter : Z) : string :=
  let ext := path_ext targetPath in
  let name := path_base targetPath in
  let base := if has_suffix name ext then str_take (String.length name - String.length ext) name else name in
  path_join [path_dir targetPath; (base +:+ "_copy" +:+ format_int counter +:+ ext)%string].

(** [None]: the task was skipped.  [n] candidates are left. *)
Fixpoint rename_target (n : nat) (counter : Z) (targetPath : string) : W (option string) :=
  match n with
  | O => wstop "failed to rename target file after 100 attempts"
  | Datatypes.S n =>
      let candidate := rename_candidate targetPath counter in
      let* r := exists_at candidate in
      match r with
      | Err e =>
          if isWebDAVSystemConflict e
          then let* _ := skipTask ("Target rename candidate check skipped (WebDAV system conflict): " +:+ e) in wret None
          else wstop ("failed to check existence of rename candidate: " +:+ e)
      | Ok (found, _) => if (found : bool) then rename_target n (counter + 1) targetPath else wret (Some candidate)
      end
  end.

(** The path to write and whether the file there is replaced after the upload. *)
Definition choose_target (targetPath : string) : W (option (string * bool)) :=
  if persisted || tg_NativeDuplicates target then wret (Some (targetPath, false))
  else if is_files && bool_decide (ms_strategy (mg_spec mig) = OVERWRITE) then wret (Some (targetPath, true))
  else
    let* r := exists_at targetPath in
    match r with
    | Err e =>
        if isWebDAVSystemConflict e
        then let* _ := skipTask ("Target file existence check skipped (WebDAV system conflict): " +:+ e) in wret None
        else wstop ("failed to check if target file exists: " +:+ e)
    | Ok (false, _) => wret (Some (targetPath, false))
    | Ok (true, _) =>
        if negb is_files then
          let* r := wtry (tg_Delete target targetPath) in
          match r with
          | Ok _ => wret (Some (targetPath, false))
          | Err e =>
              if isWebDAVSystemConflict e
              then let* _ := skipTask ("Skipped calendar/contact entry: " +:+ e) in wret None
              else wstop ("failed to delete existing calendar/contact entry for overwrite: " +:+ e)
          end
        else match ms_strategy (mg_spec mig) with
        | SKIP => let* _ := skipTask "File already exists in target (SKIP)" in wret None
        | RENAME => let* p := rename_target 100 1 targetPath in wret (match p with Some p => Some (p, false) | None => None end)
        | OVERWRITE => wret (Some (targetPath, false))
        end
    end.

(** *** The transfer *)

(** The metadata of the transfer; the source is asked for a missing time. *)
Definition transfer_metadata : task_metadata :=
  let md := mt_metadata task in
  let time := match md_modified md with
              | Some _ => md_modified md
              | None => match sc_Inspect source (mt_path task) with Ok r => si_last_modified r | Err _ => None end
              end in
  mkMetadata "" (List.filter (fun '(k, _) => String.eqb k "description") (md_fields md)) time (md_custom md).

Definition with_asset (asset : string) (md : task_metadata) : task_metadata :=
  mkMetadata (md_action md) (md_fields md) (md_modified md)
    (("immich_target_asset_id", asset) :: List.filter (fun '(k, _) => negb (String.eqb k "immich_target_asset_id")) (md_custom md)).

Definition upload_path (targetPath : string) (deleteAfterUpload : bool) : string :=
  if useTempThenRename (tg_AtomicRename target) deleteAfterUpload then targetPath +:+ ".tmp" else targetPath.

(** A program over the target alone, as the core runs it. *)
Fixpoint prog_target {A} (p : target_prog A) (t : T) : A * T :=
  match p with
  | Return a => (a, t)
  | Overwrite.FileExists path k =>
      let '(r, t) := TransferCore.FileExists (tg_streams target) t path in
      prog_target (k (match r with Ok x => Ok x.1 | Err e => Err e end)) t
  | DeleteFile path k => let '(r, t) := tg_Delete target path t in prog_target (k r) t
  | RenameFile old new k => let '(r, t) := tg_Rename target old new t in prog_target (k r) t
  end.

Definition finalize (targetPath : string) (deleteAfterUpload : bool) : option (T -> option string * T) :=
  if useTempThenRename (tg_AtomicRename target) deleteAfterUpload
  then Some (fun t =>
    let '(r, t) := prog_target (promoteOverwrite targetPath (upload_path targetPath deleteAfterUpload)
                                  (overwriteBackupPath targetPath taskID)) t in
    (match r with Ok _ => None | Err e => Some e end, t))
  else None.

Definition request (targetPath : string) (deleteAfterUpload : bool) : transferRequest :=
  mkRequest SourceProvider TargetProvider (mt_resource task) (mt_path task) (upload_path targetPath deleteAfterUpload)
    targetPath (mt_size task) (default "" (mt_source_hash task)).

Definition run_transfer (targetPath : string) (deleteAfterUpload : bool) : W (res string transferResult) :=
  wtry (runTransferCore read (sc_Download source) (tg_streams target) down up l0 (finalize targetPath deleteAfterUpload)
          (request targetPath deleteAfterUpload)).

(** [None]: the task was skipped. *)
Definition stream_file (targetPath : string) (deleteAfterUpload : bool) : W (option transferResult) :=
  let* r := run_transfer targetPath deleteAfterUpload in
  match r with
  | Ok result => wret (Some result)
  | Err e =>
      if native_duplicate e
      then let* _ := skipTask "Asset already exists in Immich; duplicate handled natively (SKIP)" in wret None
      else if duplicate_uid e || isWebDAVSystemConflict e
      then let* _ := skipTask ("Sabredav/WebDAV target entry skipped (system conflict/forbidden): " +:+ e) in wret None
      else wstop e
  end.

(** The asset Immich gave the upload, kept with the task. *)
Definition keep_asset (md : task_metadata) : W task_metadata :=
  if String.eqb TargetProvider "immich" then
    let* asset := wtry (fun t => (tg_Receipt target t, t)) in
    if String.eqb asset "" then wstop "immich upload completed without target asset ID"
    else
      let md := with_asset asset md in
      let* _ := wchecked (UpdateClaimedTaskMetadata taskID epoch md) in
      wret md
  else wret md.

Definition apply_metadata (targetPath : string) (md : task_metadata) : W unit :=
  match tg_Metadata target with
  | Some apply =>
      if bool_decide (is_Some (md_modified md)) || negb (String.eqb (field_of "description" (md_fields md)) "")
      then wtry (fun t => (tt, apply targetPath md t)) else wret tt
  | None => wret tt
  end.

(** A file-manager move deletes the source file after the transfer. *)
Definition remove_source : W unit :=
  if String.eqb operation "move" && is_files then
    match sc_Delete source (mt_path task) with
    | Some e => wstop ("delete source after file-manager move: " +:+ e)
    | None => wremoved (mt_path task)
    end
  else wret tt.

Definition isDirectoryTask : bool := has_suffix (mt_path task) "/" || is_mkdir (mt_metadata task).

(** The checksums of a transferred file and whether they are verified at once. *)
Definition verify_inline (targetPath : string) (result : transferResult) : W (option string * option string * bool) :=
  if is_files then
    let workerHash :=
      match TargetHasher result with
      | Some h => TargetAlgorithm result +:+ ":" +:+ formatWorkerHashValue sum (TargetAlgorithm result) h
      | None => SourceAlgorithm result +:+ ":" +:+ formatWorkerHashValue sum (SourceAlgorithm result) (SourceHasher result)
      end in
    if isDirectoryTask || tg_SizeOnly target then wret (Some workerHash, Some workerHash, true)
    else if tg_CryptographicHash target then
      let* h := wtry (tg_Hash target targetPath) in
      let '(_, t) := tryInlineHashVerify (TransferCore.mkTask (mt_source_hash task) (Some workerHash) (Some workerHash) (mt_verified task)) h in
      wret (Some workerHash, t_TargetHash t, t_ChecksumVerified t)
    else wret (Some workerHash, Some workerHash, mt_verified task)
  else wret (Some "DYNAMIC", Some "DYNAMIC", true).

Definition complete_task (worker_hash target_hash : option string) (verified : bool) : W unit :=
  let s := mkTaskState COMPLETED (mt_attempts task) None (mt_next_retry task) worker_hash (mt_source_hash task) target_hash
             (negb (String.eqb operation "") || verified) in
  let* _ := record_end s 1 (mt_size task) 0 0 in
  let* _ := clear_losses in
  let* _ := wlogged (wupdate (ResetLiveBytes migrationID)) in
  reconcile_transfer.

Definition transfer_file (targetPath : string) (deleteAfterUpload : bool) : W task_end :=
  let* _ := if is_files && negb persisted
            then wchecked (UpdateClaimedTaskResolvedTargetPath taskID epoch targetPath) else wret tt in
  let* r := stream_file targetPath deleteAfterUpload in
  match r with
  | None => wret EndSkipped
  | Some result =>
      let* md := keep_asset transfer_metadata in
      let* _ := apply_metadata targetPath md in
      let* _ := remove_source in
      let* hashes := verify_inline targetPath result in
      let '(worker_hash, target_hash, verified) := hashes in
      let* _ := complete_task worker_hash target_hash verified in
      wret EndTransferred
  end.

Definition process_file : W task_end :=
  let* targetPath := settle_name in
  let* _ := if is_files then wcall "failed to create target directories: " (tg_CreateParents target targetPath) else wret tt in
  let* r := choose_target targetPath in
  match r with
  | None => wret EndSkipped
  | Some (targetPath, deleteAfterUpload) => transfer_file targetPath deleteAfterUpload
  end.

Definition is_vault : bool :=
  String.eqb SourceProvider "onedrive" && is_files
  && match sc_Inspect source (mt_path task) with Ok r => IsPersonalVault r | Err _ => false end.

Definition process_claimed : W task_end :=
  let* _ := wconnections in
  let* _ := wchecked (UpdateClaimedTaskStatus taskID epoch (end_copy TRUNNING (mt_error task) (mt_verified task))) in
  if negb is_files && IsSystemOrAppGeneratedPath (mt_path task)
  then let* _ := skip_with "Skipped read-only system or app-generated collection (SKIP)" in wret EndSkipped
  else if is_vault then let* _ := skip_with vault_message in wret EndSkipped
  else if isDirectoryTask then make_directory
  else process_file.
End Task.

Definition processTask : W task_end :=
  let* mig := wfetch "failed to fetch migration: " (fun d => migrations d !! migrationID) in
  let* go := admitted mig in
  if (go : bool) then
    let* task := wfetch "failed to fetch task: " (fun d => mtasks d !! taskID) in
    process_claimed mig task
  else wret EndRefused.
End Worker.
