(* ===== verification/MigrationTransfer.v ===== *)
(** * What a migration does to its target

    The worker of MigrationWorker.v over a target that keeps files: what a task
    leaves alone, whatever fails, and what its success means. *)

From S2P Require Import Prelude GoPath HashString Digits Ranges Tables Bytes Utf8 Storage Sanitize Streams TransferCore.
From S2P Require Import SyncDelta SyncBaseline Database SyncFailure MigrationDb MigrationOps MigrationTasks MigrationFailure Indexer IndexerRun Overwrite WorkerMonad MigrationWorker.

(** [q] is [p] or below it. *)
Definition under (p q : string) : Prop := q = p \/ exists t, q = (p +:+ "/" +:+ t)%string.

(** What a provider's operations do to the files it holds: reading changes nothing,
    writing changes what it names, an upload that reports success stored what it read. *)
Class MigrationStore {T} (target : migration_target T) := {
  kept : T -> gmap string bytes;
  kept_exists p t : kept (TransferCore.FileExists (tg_streams target) t p).2 = kept t;
  kept_free p t n : (TransferCore.FileExists (tg_streams target) t p).1 = Ok (false, n) -> kept t !! p = None;
  kept_listing p t : kept (tg_Listing target p t).2 = kept t;
  kept_parents p t : kept (tg_CreateParents target p t).2 = kept t;
  kept_directory p t : kept (tg_CreateDirectory target p t).2 = kept t;
  kept_hash p t : kept (tg_Hash target p t).2 = kept t;
  kept_metadata f p md t : tg_Metadata target = Some f -> kept (f p md t) = kept t;
  upload_keeps {Q} (rd : read_op Q) t p n c st q : q <> p ->
    kept (run_consumer rd (StreamUpload (tg_streams target) t p n c) st).1.1.1.2 !! q = kept t !! q;
  chunks_keep {Q} (rd : read_op Q) t p n c st q : q <> p ->
    kept (run_consumer rd (StreamUploadChunked (tg_streams target) t p n c) st).1.1.1.2 !! q = kept t !! q;
  upload_stores {Q} (rd : read_op Q) t p n c st t' d es st' :
    run_consumer rd (StreamUpload (tg_streams target) t p n c) st = ((None, t'), d, es, st') -> kept t' !! p = Some d;
  chunks_store {Q} (rd : read_op Q) t p n c st t' d es st' :
    run_consumer rd (StreamUploadChunked (tg_streams target) t p n c) st = ((None, t'), d, es, st') -> kept t' !! p = Some d;
  delete_keeps p t q : ~ under p q -> kept (tg_Delete target p t).2 !! q = kept t !! q;
  rename_keeps a b t q : ~ under a q -> ~ under b q -> kept (tg_Rename target a b t).2 !! q = kept t !! q;
  rename_moves a b t c : (tg_Rename target a b t).1 = Ok tt -> kept t !! a = Some c -> kept (tg_Rename target a b t).2 !! b = Some c;
}.

Section Store.
Context {T : Type} (target : migration_target T) `{!MigrationStore target}.

(** Only what is under these three paths may differ. *)
Definition apart (P U B q : string) : Prop := ~ under P q /\ ~ under U q /\ ~ under B q.

(** A program that deletes and renames within the three paths. *)
Inductive within_three {A} (P U B : string) : target_prog A -> Prop :=
| three_return a : within_three P U B (Return a)
| three_exists path k : (forall r, within_three P U B (k r)) -> within_three P U B (Overwrite.FileExists path k)
| three_delete path k : path ∈ [P; U; B] -> (forall r, within_three P U B (k r)) -> within_three P U B (DeleteFile path k)
| three_rename old new k : old ∈ [P; U; B] -> new ∈ [P; U; B] -> (forall r, within_three P U B (k r)) -> within_three P U B (RenameFile old new k).

Lemma apart_not P U B q x : apart P U B q -> x ∈ [P; U; B] -> ~ under x q.
Proof. intros (H1 & H2 & H3) Hx. rewrite !elem_of_cons in Hx. by destruct Hx as [->|[->|[->|[]%elem_of_nil]]]. Qed.

Lemma prog_target_frame {A} P U B (p : target_prog A) t q : within_three P U B p -> apart P U B q ->
  kept (prog_target target p t).2 !! q = kept t !! q.
Proof.
  intros Hp Hq. revert t. induction Hp as [a|path k _ IH|path k Hx _ IH|old new k Ho Hn _ IH]; intros t; cbn [prog_target].
  - done.
  - pose proof (kept_exists path t) as E. destruct (TransferCore.FileExists _ t path) as [r t1]. rewrite IH. cbn in E. by rewrite E.
  - pose proof (delete_keeps path t q (apart_not P U B q path Hq Hx)) as E. destruct (tg_Delete target path t) as [r t1]. by rewrite IH.
  - pose proof (rename_keeps old new t q (apart_not P U B q old Hq Ho) (apart_not P U B q new Hq Hn)) as E.
    destruct (tg_Rename target old new t) as [r t1]. by rewrite IH.
Qed.

Lemma promote_within P U B : within_three P U B (promoteOverwrite P U B).
Proof.
  assert (forall b, within_three P U B (promote_upload P U B b)) as Hu.
  { intros b. unfold promote_upload, cleanupStagingUpload, finish_promotion.
    repeat first [apply three_return|apply three_rename|apply three_delete|intros [[]|]|destruct b|set_solver]. }
  assert (within_three P U B (preserve_target P U B)) as Hr.
  { unfold preserve_target. apply three_rename; [set_solver..|]. intros [[]|]; [apply Hu|apply three_return]. }
  unfold promoteOverwrite. apply three_exists. intros [[]|]; [|apply Hu|apply three_return].
  apply three_exists. intros [[]|]; [|apply Hr|apply three_return].
  apply three_delete; [set_solver|]. intros [[]|]; [apply Hr|apply three_return].
Qed.

Lemma promote_success P U B t t' c :
  ~ under B U -> ~ under P U -> ~ under B P ->
  prog_target target (promoteOverwrite P U B) t = (Ok tt, t') -> kept t !! U = Some c -> kept t' !! P = Some c.
Proof.
  intros HBU HPU HBP.
  assert (forall b t1, kept t1 !! U = Some c -> prog_target target (promote_upload P U B b) t1 = (Ok tt, t') -> kept t' !! P = Some c) as Hup.
  { intros b t1 Hc. unfold promote_upload, cleanupStagingUpload, finish_promotion. cbn [prog_target].
    pose proof (rename_moves U P t1 c) as Hm. destruct (tg_Rename target U P t1) as [[[]|e] t2]; cbn in Hm.
    - specialize (Hm eq_refl Hc). destruct b; cbn [prog_target]; [|by intros [= <-]].
      pose proof (delete_keeps B t2 P HBP) as Hd. destruct (tg_Delete target B t2) as [[[]|e] t3]; cbn; [|done].
      intros [= <-]. cbn in Hd. by rewrite Hd.
    - cbn [prog_target]. destruct (tg_Delete target U t2) as [r t3]. destruct b; cbn [prog_target]; [|done].
      by destruct (tg_Rename target B P t3) as [[[]|e'] t4]. }
  assert (forall t1, kept t1 !! U = Some c -> prog_target target (preserve_target P U B) t1 = (Ok tt, t') -> kept t' !! P = Some c) as Hpr.
  { intros t1 Hc. unfold preserve_target. cbn [prog_target]. pose proof (rename_keeps P B t1 U HPU HBU) as Hk.
    destruct (tg_Rename target P B t1) as [[[]|e] t2]; [|done]. apply Hup. cbn in Hk. by rewrite Hk. }
  intros Hrun Hc. revert Hrun. unfold promoteOverwrite. cbn [prog_target]. pose proof (kept_exists P t) as E1.
  destruct (TransferCore.FileExists _ t P) as [[[[] n]|e] t1]; cbn in E1; cbn [fst]; [| |done].
  2: { apply Hup. by rewrite E1. }
  cbn [prog_target]. pose proof (kept_exists B t1) as E2. destruct (TransferCore.FileExists _ t1 B) as [[[[] n2]|e] t2]; cbn in E2; cbn [fst]; [| |done].
  2: { apply Hpr. by rewrite E2, E1. }
  cbn [prog_target]. pose proof (delete_keeps B t2 U HBU) as Hd. destruct (tg_Delete target B t2) as [[[]|e] t3]; [|done].
  apply Hpr. cbn in Hd. by rewrite Hd, E2, E1.
Qed.
End Store.

Lemma tmp_apart P id : ~ under (overwriteBackupPath P id) (P +:+ ".tmp") /\ ~ under P (P +:+ ".tmp") /\ ~ under (overwriteBackupPath P id) P.
Proof.
  unfold under, overwriteBackupPath. set (s := if (8 <? String.length id)%nat then str_take 8 id else id). split_and!.
  - intros [E|[t E]].
    + apply str_app_inj_l in E. discriminate E.
    + rewrite <- !str_app_assoc in E. apply str_app_inj_l in E. discriminate E.
  - intros [E|[t E]].
    + apply (f_equal String.length) in E. rewrite str_length_app in E. cbn in E. lia.
    + apply str_app_inj_l in E. discriminate E.
  - intros [E|[t E]]; apply (f_equal String.length) in E; rewrite !str_length_app in E; cbn in E; lia.
Qed.

(** ** The transfer core over the store *)

Section Core.
Context `{GoUnicode} {R L T : Type} (read : read_op R) (target : migration_target T) `{!MigrationStore target}.
Context (Download : string -> res string R) (down up : option (throttler (L := L))) (l0 : L).

Lemma verify_quiet n last p t : kept (verify_attempts (tg_streams target) n last p t).2 = kept t.
Proof.
  revert last t. induction n as [|n IH]; intros last t; cbn [verify_attempts]; [done|].
  pose proof (kept_exists p t) as E. destruct (TransferCore.FileExists _ t p) as [[v|e] t1]; cbn in E; [done|]. by rewrite IH.
Qed.

Lemma check_quiet req t : kept (check_target (tg_streams target) req t).2 = kept t.
Proof.
  unfold check_target, verifyTargetSize. destruct (String.eqb _ _); [|done]. set (p := if String.eqb (VerificationPath req) "" then _ else _).
  pose proof (verify_quiet 3 (Ok (false, 0)) p t) as E. destruct (verify_attempts _ _ _ _ _) as [[[x size]|e] t1]; [|done].
  by destruct (_ || _).
Qed.

Lemma core_keeps fin req t q :
  (forall t, kept (run_finalize fin t).2 !! q = kept t !! q) -> q <> TargetPath req ->
  kept (runTransferCore read Download (tg_streams target) down up l0 fin req t).2 !! q = kept t !! q.
Proof.
  intros Hfin Hq. unfold runTransferCore. destruct (Download _) as [stream|]; [|done].
  destruct (transferSourceHasher _ _) as [sourceAlgo expectedHash].
  set (checksum := if String.eqb expectedHash "" then None else _). set (st := (newExpectedSizeReader _ _, _, _)).
  assert (kept (run_consumer (upload_read read down up) (if chunkedUploadThreshold <? FileSize req
    then StreamUploadChunked (tg_streams target) t (TargetPath req) (FileSize req) checksum
    else StreamUpload (tg_streams target) t (TargetPath req) (FileSize req) checksum) st).1.1.1.2 !! q = kept t !! q) as Hu.
  { destruct (_ <? _); [by apply chunks_keep|by apply upload_keeps]. }
  match type of Hu with context [run_consumer ?a ?b st] => destruct (run_consumer a b st) as [[[[e t1] d] es] [[reader hashed] l]] end.
  cbn in Hu. destruct e; [done|].
  destruct (VerifyComplete _ reader) as [[u|e] reader']; [|done].
  pose proof (Hfin t1) as Hf. destruct (run_finalize fin t1) as [[e|] t2]; cbn in Hf; [cbn; by rewrite Hf|].
  pose proof (check_quiet req t2) as Hc. destruct (check_target _ req t2) as [[e|] t3]; cbn in *; by rewrite Hc, Hf.
Qed.

(** After a success the promotion started from the complete upload. *)
Lemma core_stores (content : R -> bytes) `{!Source read content} fin req t result t' :
  throttler_ok down -> 0 <= FileSize req ->
  runTransferCore read Download (tg_streams target) down up l0 fin req t = (Ok result, t') ->
  exists stream t1 t2, Download (SourcePath req) = Ok stream /\ zlen (content stream) = FileSize req
  /\ kept t1 !! TargetPath req = Some (content stream) /\ run_finalize fin t1 = (None, t2) /\ kept t' = kept t2.
Proof.
  intros Hd Hz Hr. destruct (transfer_core_ok read content Download (tg_streams target) down up l0 fin req t result t' Hd Hz Hr)
    as (stream & t1 & es & st & t2 & H1 & H2 & H3 & H4 & H5 & _).
  exists stream, t1, t2. split_and!; try done.
  - destruct (_ <? _); [by eapply chunks_store|by eapply upload_stores].
  - pose proof (check_quiet req t2) as Hc. by rewrite H5 in Hc.
Qed.
End Core.

(** ** One file task *)

Section Task_spec.
Context `{UnicodeTables, GoSpace}.
#[local] Existing Instance uni_case.
Context (rfc3339 : string -> option (string * string)) (sum : string -> bytes -> bytes) (SanitizeError : string -> string).
Context {R L T : Type} (read : read_op R) (content : R -> bytes) `{!Source read content}.
Context (source : migration_source R) (target : migration_target T) `{!MigrationStore target}.
Context (down up : option (throttler (L := L))) (l0 : L).
Context (native_duplicate duplicate_uid : string -> bool).
Context (other : nat -> migration_db -> migration_db) (fault : nat -> option string).
Context (now : nat -> Z) (connect : nat -> option string).
Context (taskID migrationID : string) (epoch : Z) (mig : migration_row) (task : mtask_row).

Hypothesis Hfiles : is_files task = true.
Hypothesis Hthrottlers : throttler_ok down.
Hypothesis Hsize : 0 <= mt_size task.

(** The files before, and what moves have removed before. *)
Context (F : gmap string bytes) (removed0 : list string).

(** An existing file may be replaced. *)
Definition may_replace : bool :=
  persisted task || tg_NativeDuplicates target || bool_decide (ms_strategy (mg_spec mig) = OVERWRITE).

(** The upload is staged beside the path and promoted. *)
Definition staged : bool :=
  negb (persisted task || tg_NativeDuplicates target) && bool_decide (ms_strategy (mg_spec mig) = OVERWRITE).

Let provider := ms_target_provider (mg_spec mig).
Let mapped := first_target rfc3339 mig task.
Let sanitized := sanitized_target mig mapped.

(** The name is not settled anew when an earlier attempt has persisted it, and Immich keeps
    the source's. *)
Definition name_kept : bool := persisted task || String.eqb provider "immich".

(** The name of the file at the target: the mapped path, sanitized, and on a case-insensitive
    target made different from what a listing had. *)
Definition name_settled (p : string) : Prop :=
  if name_kept then p = mapped
  else p = sanitized \/ IsCaseInsensitive provider = true
       /\ exists items name, ResolveCollision items (path_base sanitized) provider = Ok name /\ p = path_join [path_dir sanitized; name].

(** Under RENAME a free numbered copy may take its place. *)
Definition path_of_task (p : string) : Prop :=
  exists p0, name_settled p0
  /\ (p = p0 \/ ms_strategy (mg_spec mig) = RENAME /\ may_replace = false /\ F !! p = None
        /\ exists n, 1 <= n <= 100 /\ p = rename_candidate p0 n).

Definition some_name : string := if name_kept then mapped else sanitized.

Lemma some_name_ok : path_of_task some_name.
Proof. exists some_name. split; [|by left]. unfold name_settled, some_name. destruct name_kept; [done|by left]. Qed.

Definition untouched : assertion (O := gmap string bytes) := fun f r => f = F /\ r = removed0.

(** Only the path, which is one of the task's, and its neighbours when the upload is staged
    changed; and no file that was there before unless it may be replaced. *)
Definition only_at (p : string) : assertion (O := gmap string bytes) := fun f r =>
  path_of_task p
  /\ (forall q, apart p (p +:+ ".tmp") (overwriteBackupPath p taskID) q -> f !! q = F !! q)
  /\ (staged = false -> forall q, q <> p -> f !! q = F !! q)
  /\ (may_replace = false -> F ⊆ f).

(** The path holds what the source delivers. *)
Definition holds_source (p : string) (f : gmap string bytes) : Prop :=
  exists stream, sc_Download source (mt_path task) = Ok stream /\ zlen (content stream) = mt_size task
    /\ f !! p = Some (content stream).

Definition before_removal (p : string) : assertion (O := gmap string bytes) := fun f r => only_at p f r /\ r = removed0.
Definition transferred (p : string) : assertion (O := gmap string bytes) := fun f r => only_at p f r /\ holds_source p f /\ r = removed0.

Definition moves : bool := String.eqb (fileManagerTransferOperation (ms_picker_session (mg_spec mig))) "move".

(** After a success the target holds the file, and a move has removed its source. *)
Definition finished (p : string) (e : task_end) : assertion (O := gmap string bytes) := fun f r =>
  only_at p f r
  /\ match e with
     | EndTransferred => holds_source p f /\ r = removed0 ++ (if moves then [mt_path task] else [])
     | _ => r = removed0
     end.

(** After a failure the source is gone only when the target holds the file. *)
Definition failed (p : string) : assertion (O := gmap string bytes) := fun f r =>
  only_at p f r /\ (r = removed0 \/ moves = true /\ r = removed0 ++ [mt_path task] /\ holds_source p f).

Definition chosen (p : string) (replace : bool) : Prop :=
  path_of_task p /\ (staged = false -> replace = false) /\ (may_replace = false -> F !! p = None).

Local Abbreviation spec := (wspec (D := migration_db) (kept (target := target))).
Local Abbreviation keeps := (wkeeps (D := migration_db) (kept (target := target))).
Local Abbreviation skip := (skipTask SanitizeError other fault now taskID epoch task).

Lemma keeps_skip msg : keeps (skip msg).
Proof. unfold skipTask, skip_with, record_end. auto with worker. Qed.

Lemma keeps_exists p : keeps (exists_at target p).
Proof. apply wkeeps_try. intros t. apply kept_exists. Qed.

Lemma keeps_listing p : keeps (wtry (tg_Listing target p)).
Proof. apply wkeeps_try. intros t. apply kept_listing. Qed.

Lemma not_replaced_staged : may_replace = false -> staged = false.
Proof. unfold may_replace, staged. destruct (persisted task || _); [done|]. intros E. exact E. Qed.

Lemma untouched_before p : path_of_task p -> forall f r, untouched f r -> before_removal p f r.
Proof. intros Hp f r [-> ->]. split; [|done]. by split_and!. Qed.

Lemma before_failed p f r : before_removal p f r -> failed p f r.
Proof. intros [Ho Hr]. split; [done|by left]. Qed.

(** An answer about a path: free means no file. *)
Lemma free_answer_spec p : spec untouched (exists_at target p) (fun x f r => untouched f r /\ (forall n, x = Ok (false, n) -> F !! p = None)) untouched.
Proof.
  intros w [E1 E2]. unfold exists_at, wtry. pose proof (kept_exists p (mw_target w)) as Eq. pose proof (kept_free p (mw_target w)) as Ef.
  destruct (TransferCore.FileExists _ (mw_target w) p) as [r t]. cbn in *. unfold untouched. rewrite Eq. split; [done|].
  intros n ->. rewrite <- E1. by eapply Ef.
Qed.

Lemma skip_spec msg : spec untouched (wbind (skip msg) (fun _ => wret None)) 
  (fun x f r => untouched f r /\ match x with Some (p, b) => chosen p b | None => True end) untouched.
Proof. apply wspec_step; [apply keeps_skip|done|]. intros _. apply wspec_ret. intros f r Hu. by split. Qed.

Lemma rename_spec n counter p : name_settled p -> ms_strategy (mg_spec mig) = RENAME -> may_replace = false ->
  1 <= counter -> counter + Z.of_nat n <= 101 ->
  spec untouched (rename_target SanitizeError target other fault now taskID epoch task n counter p)
  (fun x f r => untouched f r /\ match x with Some p => chosen p false | None => True end) untouched.
Proof.
  intros Hp Hs Hm. revert counter. induction n as [|n IH]; intros counter H1 H2; cbn [rename_target]; [by apply wspec_stop|].
  eapply wspec_bind; [apply free_answer_spec|]. intros [[[] k]|e].
  - eapply wspec_from; [apply IH; lia|by intros f r []].
  - apply wspec_ret. intros f r [Hu Hf]. specialize (Hf k eq_refl). split; [done|]. split; [|done].
    exists p. split; [done|]. right. split_and!; [done..|]. exists counter. split; [lia|done].
  - apply (wspec_from kept _ untouched); [|by intros f r []].
    destruct (isWebDAVSystemConflict e); [|by apply wspec_stop].
    apply wspec_step; [apply keeps_skip|done|]. intros _. apply wspec_ret. intros f r Hu. by split.
Qed.

Lemma settled_path p : name_settled p -> path_of_task p.
Proof. intros Hp. exists p. split; [done|by left]. Qed.

Lemma settle_spec p : name_settled p ->
  spec untouched (choose_target SanitizeError target other fault now taskID epoch mig task p)
  (fun x f r => untouched f r /\ match x with Some (p, b) => chosen p b | None => True end) untouched.
Proof.
  intros Hp. pose proof (settled_path p Hp) as Hq. unfold choose_target. rewrite Hfiles. cbn [andb negb].
  destruct (persisted task || tg_NativeDuplicates target) eqn:Ep.
  { apply wspec_ret. intros f r Hu. split; [done|]. split; [done|]. unfold may_replace. by rewrite Ep. }
  destruct (bool_decide (ms_strategy (mg_spec mig) = OVERWRITE)) eqn:Eo.
  { apply wspec_ret. intros f r Hu. split; [done|]. split; [done|]. unfold staged, may_replace. rewrite Ep, (bool_decide_true _ (bool_decide_eq_true_1 _ Eo)). by split. }
  assert (may_replace = false) as Hm by (apply bool_decide_eq_false in Eo; unfold may_replace; by rewrite Ep, bool_decide_false).
  eapply wspec_bind; [apply free_answer_spec|]. intros [[[] k]|e].
  - apply (wspec_from kept _ untouched); [|by intros f r []].
    destruct (ms_strategy (mg_spec mig)) eqn:Es; [apply skip_spec|by rewrite bool_decide_true in Eo|].
    eapply wspec_bind; [by apply rename_spec|]. intros [q|]; apply wspec_ret; intros f r [Hu Hc]; by split.
  - apply wspec_ret. intros f r [Hu Hf]. split; [done|]. split; [done|]. split; [done|]. intros _. by eapply Hf.
  - apply (wspec_from kept _ untouched); [|by intros f r []].
    destruct (isWebDAVSystemConflict e); [apply skip_spec|by apply wspec_stop].
Qed.

Lemma settle_name_spec : spec untouched (settle_name rfc3339 target mig task)
  (fun p f r => untouched f r /\ name_settled p) untouched.
Proof.
  unfold settle_name, name_settled. rewrite Hfiles. cbn [andb].
  assert (negb (persisted task) && negb (String.eqb (ms_target_provider (mg_spec mig)) "immich") = negb name_kept) as ->
    by (unfold name_kept; by rewrite negb_orb).
  destruct name_kept; cbn [negb].
  { apply wspec_ret. intros f r Hu. by split. }
  assert (forall q, q = sanitized -> spec untouched (wret q) (fun p f r => untouched f r /\ (p = sanitized \/ IsCaseInsensitive provider = true
       /\ exists items name, ResolveCollision items (path_base sanitized) provider = Ok name /\ p = path_join [path_dir sanitized; name])) untouched) as Hs.
  { intros q ->. apply wspec_ret. intros f r Hu. split; [done|by left]. }
  fold provider. fold mapped. fold sanitized. destruct (IsCaseInsensitive provider) eqn:Ei; [|by apply Hs].
  apply wspec_step; [apply keeps_listing|done|]. intros items.
  destruct (CheckCaseCollision _ _) as [c|]; [|by apply Hs]. destruct (String.eqb c ""); [by apply Hs|].
  apply wspec_step; [apply keeps_listing|done|]. intros items2.
  unfold wlift. destruct (ResolveCollision items2 _ _) as [name|e] eqn:Er; [|by apply wspec_stop].
  apply wspec_ret. intros f r Hu. split; [done|]. right. split; [done|]. by exists items2, name.
Qed.

(** *** The transfer *)

Lemma chosen_direct p b : chosen p b -> staged = false -> upload_path target p b = p /\ finalize target taskID p b = None.
Proof. intros (_ & Hc & _) Hm. by rewrite (Hc Hm). Qed.

Lemma finalize_keeps p b t q : apart p (p +:+ ".tmp") (overwriteBackupPath p taskID) q ->
  kept (run_finalize (finalize target taskID p b) t).2 !! q = kept t !! q.
Proof.
  intros Hq. unfold finalize, upload_path. destruct (useTempThenRename _ b); [|done]. cbn [run_finalize].
  pose proof (prog_target_frame target _ _ _ _ t q (promote_within p (p +:+ ".tmp") (overwriteBackupPath p taskID)) Hq) as E.
  by destruct (prog_target _ _ t) as [[u|e] t'].
Qed.

Lemma finalize_stores p b t t' c : kept t !! upload_path target p b = Some c ->
  run_finalize (finalize target taskID p b) t = (None, t') -> kept t' !! p = Some c.
Proof.
  unfold finalize, upload_path. destruct (useTempThenRename _ b); cbn [run_finalize]; [|by intros Hc [= <-]].
  intros Hc Hr. destruct (prog_target _ _ t) as [[[]|e] t1] eqn:Ep; [|done]. injection Hr as <-.
  destruct (tmp_apart p taskID) as (H1 & H2 & H3). exact (promote_success target _ _ _ t t1 c H1 H2 H3 Ep Hc).
Qed.

Lemma under_self p : under p p.
Proof. by left. Qed.

Lemma upload_apart p b q : apart p (p +:+ ".tmp") (overwriteBackupPath p taskID) q -> q <> upload_path target p b.
Proof. intros (H1 & H2 & _) ->. unfold upload_path in *. destruct (useTempThenRename _ b); [apply H2|apply H1]; apply under_self. Qed.

Abbreviation run p b := (run_transfer read source target down up l0 taskID mig task p b).

Lemma run_keeps p b w : kept (mw_target w) = F -> chosen p b -> only_at p (kept (mw_target (run p b w).2)) (mw_removed w).
Proof.
  intros E Hc. unfold run_transfer, wtry.
  destruct (runTransferCore _ _ _ _ _ _ _ _ _) as [r t] eqn:Er. cbn.
  assert (t = (runTransferCore read (sc_Download source) (tg_streams target) down up l0 (finalize target taskID p b)
             (request target mig task p b) (mw_target w)).2) as -> by by rewrite Er.
  assert (staged = false -> forall q, q <> p -> kept (runTransferCore read (sc_Download source) (tg_streams target) down up l0 (finalize target taskID p b)
             (request target mig task p b) (mw_target w)).2 !! q = F !! q) as Hk.
  { intros Hs q Hq. destruct (chosen_direct p b Hc Hs) as [Hu Hn]. rewrite core_keeps; [by rewrite E|intros t'; by rewrite Hn|]. cbn. by rewrite Hu. }
  split_and!; [by destruct Hc| |exact Hk|].
  - intros q Hq. rewrite core_keeps; [by rewrite E|intros t'; by apply finalize_keeps|by apply upload_apart].
  - intros Hm. destruct Hc as (_ & _ & HF). apply map_subseteq_spec. intros q c Hf.
    rewrite (Hk (not_replaced_staged Hm)); [done|]. intros ->. rewrite HF in Hf by done. done.
Qed.

Lemma run_stores p b w result w' : run p b w = (Ok (Ok result), w') -> holds_source p (kept (mw_target w')).
Proof.
  unfold run_transfer, wtry. destruct (runTransferCore _ _ _ _ _ _ _ _ _) as [r t] eqn:Er. intros [= -> <-].
  destruct (core_stores read target _ down up l0 content _ (request target mig task p b) _ _ _ Hthrottlers Hsize Er) as (stream & t1 & t2 & H1 & H2 & H3 & H4 & H5).
  exists stream. split_and!; [done..|]. cbn. rewrite H5. exact (finalize_stores p b t1 t2 _ H3 H4).
Qed.

Lemma run_removed p b w : mw_removed (run p b w).2 = mw_removed w.
Proof. unfold run_transfer, wtry. by destruct (runTransferCore _ _ _ _ _ _ _ _ _). Qed.

Lemma run_spec p b : chosen p b ->
  spec untouched (run p b) (fun r f r' => match r with Ok _ => transferred p f r' | Err _ => before_removal p f r' end) (before_removal p).
Proof.
  intros Hc w [E1 E2]. pose proof (run_keeps p b w E1 Hc) as Hk. pose proof (run_removed p b w) as Hr.
  destruct (run p b w) as [[[result|e]|e] w'] eqn:Er; cbn in *; rewrite ?Hr, ?E2.
  - split; [exact Hk|]. split; [by eapply run_stores|done].
  - split; [exact Hk|done].
  - split; [exact Hk|done].
Qed.

Lemma transfer_spec p b : chosen p b ->
  spec untouched (stream_file SanitizeError read source target down up l0 native_duplicate duplicate_uid other fault now taskID epoch mig task p b)
    (fun r f r' => match r with Some _ => transferred p f r' | None => before_removal p f r' end) (before_removal p).
Proof.
  intros Hc. unfold stream_file. eapply wspec_bind; [by apply run_spec|]. intros [result|e]; [by apply wspec_ret|].
  destruct (native_duplicate e).
  { apply wspec_step; [apply keeps_skip|done|]. intros _. by apply wspec_ret. }
  destruct (_ || _); [|by apply wspec_stop].
  apply wspec_step; [apply keeps_skip|done|]. intros _. by apply wspec_ret.
Qed.

(** *** After the transfer *)

Lemma keeps_keep_asset md : keeps (keep_asset target other fault now taskID epoch mig md).
Proof.
  unfold keep_asset. destruct (String.eqb _ "immich"); [|auto with worker]. apply wkeeps_bind; [by apply wkeeps_try|].
  intros asset. destruct (String.eqb asset ""); [auto with worker|]. apply wkeeps_bind; [auto with worker|]. intros _. auto with worker.
Qed.

Lemma keeps_apply_metadata p md : keeps (apply_metadata target p md).
Proof.
  unfold apply_metadata. destruct (tg_Metadata target) as [apply|] eqn:Ea; [|auto with worker].
  destruct (_ || _); [|auto with worker]. apply wkeeps_try. intros t. exact (kept_metadata apply p md t Ea).
Qed.

Lemma keeps_verify p result : keeps (verify_inline sum target task p result).
Proof.
  unfold verify_inline. destruct (is_files task); [|auto with worker]. destruct (_ || _); [auto with worker|].
  destruct (tg_CryptographicHash target); [|auto with worker].
  apply wkeeps_bind; [apply wkeeps_try; intros t; apply kept_hash|]. intros h.
  destruct (tryInlineHashVerify _ h) as [v t]. auto with worker.
Qed.

Lemma keeps_reconcile : keeps (reconcile_transfer other fault now migrationID mig).
Proof. unfold reconcile_transfer. destruct (String.eqb _ ""); auto with worker. Qed.

Lemma keeps_complete wh th v : keeps (complete_task other fault now taskID migrationID epoch mig task wh th v).
Proof.
  unfold complete_task, record_end, clear_losses. repeat (apply wkeeps_bind; [auto with worker|intros _]). apply keeps_reconcile.
Qed.

Lemma remove_spec p : spec (transferred p) (remove_source source mig task) (fun _ => finished p EndTransferred) (failed p).
Proof.
  unfold remove_source. rewrite Hfiles, andb_true_r.
  assert (moves = String.eqb (fileManagerTransferOperation (ms_picker_session (mg_spec mig))) "move") as Em by done.
  destruct (String.eqb _ "move").
  - destruct (sc_Delete source (mt_path task)) as [e|].
    + apply wspec_stop. intros f r (Ho & Hh & Hr). split; [done|by left].
    + intros w (Ho & Hh & Hr). cbn. split; [done|]. by rewrite Em, Hr.
  - apply wspec_ret. intros f r (Ho & Hh & Hr). split; [done|]. rewrite Em, Hr. by rewrite app_nil_r.
Qed.

Lemma finished_failed p e f r : finished p e f r -> failed p f r.
Proof.
  intros [Ho He]. split; [done|]. destruct e; [by left..|]. destruct He as [Hh ->]. destruct moves; [right; done|left; by rewrite app_nil_r].
Qed.

Lemma transferred_failed p f r : transferred p f r -> failed p f r.
Proof. intros (Ho & _ & Hr). split; [done|by left]. Qed.

Abbreviation ends m := (spec untouched m (fun e f r => exists p, finished p e f r) (fun f r => exists p, failed p f r)).

Lemma transfer_file_spec p b : chosen p b ->
  spec untouched (transfer_file sum SanitizeError read source target down up l0 native_duplicate duplicate_uid other fault now
                    taskID migrationID epoch mig task p b) (finished p) (failed p).
Proof.
  intros Hc. unfold transfer_file.
  assert (forall f r, untouched f r -> failed p f r) as Hu by (intros f r Hf; apply before_failed; apply untouched_before; [by destruct Hc|done]).
  apply wspec_step; [destruct (_ && _); auto with worker|done|]. intros _.
  eapply (wspec_bind kept untouched _ (fun r f r' => match r with Some _ => transferred p f r' | None => before_removal p f r' end)).
  { exact (wspec_fails kept _ _ _ _ _ (transfer_spec p b Hc) (before_failed p)). }
  intros [result|]; [|by apply wspec_ret].
  apply wspec_step; [apply keeps_keep_asset|apply transferred_failed|]. intros md.
  apply wspec_step; [apply keeps_apply_metadata|apply transferred_failed|]. intros _.
  apply (wspec_bind kept _ _ _ _ _ _ (remove_spec p)). intros [].
  apply wspec_step; [apply keeps_verify|apply finished_failed|]. intros [[wh th] v].
  apply wspec_step; [apply keeps_complete|apply finished_failed|]. intros _. by apply wspec_ret.
Qed.

Lemma process_file_spec : ends (process_file rfc3339 sum SanitizeError read source target down up l0 native_duplicate duplicate_uid
  other fault now taskID migrationID epoch mig task).
Proof.
  unfold process_file.
  assert (forall f r, untouched f r -> exists p, failed p f r) as Hu
    by (intros f r Hf; exists some_name; apply before_failed; apply untouched_before; [apply some_name_ok|done]).
  eapply (wspec_bind kept untouched _ (fun p f r => untouched f r /\ name_settled p)).
  { exact (wspec_fails kept _ _ _ _ _ settle_name_spec Hu). }
  intros p. apply wspec_pure. intros Hp.
  apply wspec_step; [rewrite Hfiles; apply wkeeps_call; intros t; apply kept_parents|exact Hu|]. intros _.
  eapply (wspec_bind kept untouched _ (fun x f r => untouched f r /\ match x with Some (p, b) => chosen p b | None => True end)).
  { exact (wspec_fails kept _ _ _ _ _ (settle_spec p Hp) Hu). }
  intros [[q b]|]; apply wspec_pure; intros Hc.
  - apply (wspec_weaken kept _ _ _ _ _ _ _ (transfer_file_spec q b Hc)); [done|intros e f r Hf; by exists q|intros f r Hf; by exists q].
  - apply wspec_ret. intros f r Hun. exists some_name. apply untouched_before; [apply some_name_ok|done].
Qed.

Lemma make_directory_spec : ends (make_directory rfc3339 target other fault now taskID migrationID epoch mig task).
Proof.
  assert (forall f r, untouched f r -> exists p, failed p f r) as Hu
    by (intros f r Hf; exists some_name; apply before_failed; apply untouched_before; [apply some_name_ok|done]).
  unfold make_directory, record_end, clear_losses, directory_collision. rewrite Hfiles. cbn [andb].
  assert (forall e, e <> EndTransferred -> spec untouched (wret e) (fun e f r => exists p, finished p e f r) (fun f r => exists p, failed p f r)) as He.
  { intros e Hn. apply wspec_ret. intros f r Hun. exists some_name.
    destruct (untouched_before some_name some_name_ok f r Hun) as [Ho Hr]. split; [done|]. by destruct e. }
  apply wspec_step; [|exact Hu|].
  { destruct (IsCaseInsensitive _); [|auto with worker]. apply wkeeps_bind; [apply keeps_listing|]. intros items. auto with worker. }
  intros c. destruct (negb (String.eqb c "")).
  { apply wspec_step; [auto with worker|exact Hu|]. intros _. by apply He. }
  apply wspec_step; [apply wkeeps_call; intros t; apply kept_directory|exact Hu|]. intros _.
  do 2 (apply wspec_step; [auto with worker|exact Hu|]; intros _).
  apply wspec_step; [apply keeps_reconcile|exact Hu|]. intros _. by apply He.
Qed.

Lemma process_claimed_spec : ends (process_claimed rfc3339 sum SanitizeError read source target down up l0 native_duplicate duplicate_uid
  other fault now connect taskID migrationID epoch mig task).
Proof.
  assert (forall f r, untouched f r -> exists p, failed p f r) as Hu
    by (intros f r Hf; exists some_name; apply before_failed; apply untouched_before; [apply some_name_ok|done]).
  unfold process_claimed. rewrite Hfiles. cbn [negb andb].
  do 2 (apply wspec_step; [auto with worker|exact Hu|]; intros _).
  destruct (is_vault source mig task).
  - unfold skip_with, record_end. apply wspec_step; [auto with worker|exact Hu|]. intros _. apply wspec_ret. intros f r Hun.
    exists some_name. apply untouched_before; [apply some_name_ok|done].
  - destruct (isDirectoryTask task); [apply make_directory_spec|apply process_file_spec].
Qed.
End Task_spec.

(** C1: what a migration worker does to a target.  For a task of files that [process_claimed]
    carries out - whatever the other workers, the failing statements and the failing calls -
    there is a path that is one of the task's: the persisted path of an earlier attempt, or
    the mapped and sanitized path, on a case-insensitive target made different from what a
    listing had, or under RENAME a free numbered copy of it.  Files other than this path
    are unchanged, except, under OVERWRITE and without a persisted path, its staging file,
    its backup and what is below them.  No file that was there before is changed unless the
    strategy is OVERWRITE, the path was persisted by an earlier attempt of the task, or the
    target handles duplicates itself.  If the task ends as transferred, the path holds
    exactly what the source delivered, of the indexed size; and the source file of a move
    is deleted only when the target holds it. *)
Theorem migration_transfer_exact `{UnicodeTables, GoSpace} rfc3339 sum SanitizeError {R L T} (read : read_op R)
    (content : R -> bytes) `{!Source read content} source (target : migration_target T) `{!MigrationStore target}
    down up (l0 : L) native_duplicate duplicate_uid other fault now connect taskID migrationID epoch mig task w :
  is_files task = true -> throttler_ok down -> 0 <= mt_size task ->
  match process_claimed rfc3339 sum SanitizeError read source target down up l0 native_duplicate duplicate_uid
          other fault now connect taskID migrationID epoch mig task w with
  | (Ok e, w') => exists p,
      finished rfc3339 content source target taskID mig task (kept (mw_target w)) (mw_removed w) p e (kept (mw_target w')) (mw_removed w')
  | (Err _, w') => exists p,
      failed rfc3339 content source target taskID mig task (kept (mw_target w)) (mw_removed w) p (kept (mw_target w')) (mw_removed w')
  end.
Proof.
  intros Hf Hd Hz. exact (process_claimed_spec rfc3339 sum SanitizeError read content source target down up l0 native_duplicate
    duplicate_uid other fault now connect taskID migrationID epoch mig task Hf Hd Hz _ _ w (conj eq_refl eq_refl)).
Qed.

(** ** A move that overwrites *)

#[local] Instance mx_tables : UnicodeTables := {|
  uni_case := ascii_tables; uni_So := fun _ => false; uni_Mn := fun _ => false; uni_Cf := fun _ => false;
|}.
#[local] Instance mx_space : GoSpace := Build_GoSpace (fun s => s).

(** A target that holds files in a map; an upload stores what it read. *)
Fixpoint mx_upload (fuel : nat) (acc : bytes) (p : string) (t : gmap string bytes) : consumer (option string * gmap string bytes) :=
  match fuel with
  | O => Done (Some "timeout", t)
  | S fuel => ReadMore 4 (fun d e =>
      match e with
      | None => mx_upload fuel (acc ++ d) p t
      | Some EOF => Done (None, <[p := acc ++ d]> t)
      | Some _ => Done (Some "read", t)
      end)
  end.

Definition mx_exists (t : gmap string bytes) (p : string) : res string (bool * Z) * gmap string bytes :=
  (Ok (match t !! p with Some c => (true, zlen c) | None => (false, 0) end), t).

Definition mx_rename (a b : string) (t : gmap string bytes) : res string unit * gmap string bytes :=
  match t !! a with Some c => (Ok tt, <[b := c]> (delete a t)) | None => (Err "404", t) end.

Definition mx_target : migration_target (gmap string bytes) :=
  mkMTarget _ (mkTarget (fun t p _ _ => mx_upload 9 [] p t) (fun t p _ _ => mx_upload 9 [] p t) mx_exists)
    (fun _ t => (Ok [], t)) (fun _ t => (Ok tt, t)) (fun _ t => (Ok tt, t)) (fun p t => (Ok tt, delete p t)) mx_rename
    (fun _ t => (Err "no checksum", t)) None true false false false (fun _ => "").

Lemma mx_upload_keeps {Q} (rd : read_op Q) fuel acc p t st q : q <> p ->
  (run_consumer rd (mx_upload fuel acc p t) st).1.1.1.2 !! q = t !! q.
Proof.
  intros Hq. revert acc st. induction fuel as [|fuel IH]; intros acc st; [done|]. cbn [mx_upload run_consumer].
  destruct (rd st (Z.max 0 4)) as [[d e] st1]. destruct e as [[]|]; cbn [run_consumer]; try done.
  - cbn. by rewrite lookup_insert_ne.
  - specialize (IH (acc ++ d) st1). by destruct (run_consumer rd _ st1) as [[[a d'] es] st2].
Qed.

Lemma mx_upload_stores {Q} (rd : read_op Q) fuel acc p t st t' d es st' :
  run_consumer rd (mx_upload fuel acc p t) st = ((None, t'), d, es, st') -> t' !! p = Some (acc ++ d).
Proof.
  revert acc st d es. induction fuel as [|fuel IH]; intros acc st d es; [done|]. cbn [mx_upload run_consumer].
  destruct (rd st (Z.max 0 4)) as [[d1 e] st1]. destruct e as [[]|]; cbn [run_consumer]; try done.
  - intros [= <- <- <- <-]. by rewrite app_nil_r, lookup_insert_eq.
  - destruct (run_consumer rd _ st1) as [[[a d2] es2] st2] eqn:E. intros [= -> <- <- <-]. rewrite app_assoc. by eapply IH.
Qed.

#[local] Instance mx_store : MigrationStore mx_target.
Proof.
  refine (Build_MigrationStore _ _ (fun t => t) _ _ _ _ _ _ _ _ _ _ _ _ _ _).
  - done.
  - intros p t n. cbn. by destruct (t !! p).
  - done.
  - done.
  - done.
  - done.
  - done.
  - intros Q rd t p n c st q. exact (mx_upload_keeps rd _ _ p t st q).
  - intros Q rd t p n c st q. exact (mx_upload_keeps rd _ _ p t st q).
  - intros Q rd t p n c st t' d es st' E. exact (mx_upload_stores rd _ _ _ _ _ _ _ _ _ E).
  - intros Q rd t p n c st t' d es st' E. exact (mx_upload_stores rd _ _ _ _ _ _ _ _ _ E).
  - intros p t q Hq. cbn. apply lookup_delete_ne. intros ->. apply Hq. by left.
  - intros a b t q Ha Hb. cbn. unfold mx_rename. destruct (t !! a) as [c|]; [|done]. cbn.
    rewrite lookup_insert_ne by (intros ->; apply Hb; by left). apply lookup_delete_ne. intros ->. apply Ha. by left.
  - intros a b t c _ Hc. cbn. unfold mx_rename. rewrite Hc. cbn. apply lookup_insert_eq.
Defined.

Definition mx_source : migration_source (list bytes) :=
  mkMSource _ (fun _ => Ok [[x41; x42]; [x43]]) (fun _ => Err "no metadata") (fun _ => None).
Definition mx_mig : migration_row :=
  with_status MRUNNING None (new_migration (mkSpec (Some "u") "webdav" "nextcloud" "/" OVERWRITE ["/a"] [] [] "file-manager-transfer:move")
    (mkOAuth "secret" None None) (mkOAuth "secret" None None) MINDEXING 4 0).
Definition mx_task : mtask_row :=
  mkMTask "m" "files" "/a/f" 3 (mkMetadata "" [] None []) 0 None TRUNNING 0 None None (Some "w") 1 None None false 0.
Definition mx_start : mworker migration_db (gmap string bytes) :=
  mkMWorker (mkMigrationDb {["m" := mx_mig]} {["t" := mx_task]} [] ∅ ∅) {["/a/f" := [x30]; "/b" := [x31]]} 0 [] (mkMem ∅ ∅ ∅).

Abbreviation mx_run := (process_claimed (fun _ => None) (fun _ d => d) (fun s => s) chunk_read mx_source mx_target None None tt
  (fun _ => false) (fun _ => false) (fun _ d => d) (fun _ => None) (fun _ => 100) (fun _ => None) "t" "m" 1 mx_mig mx_task mx_start).

Lemma mx_run_ends : (mx_run.1, mw_removed mx_run.2, mw_target mx_run.2 !! "/a/f", mw_target mx_run.2 !! "/b", size (mw_target mx_run.2))
  = (Ok EndTransferred, ["/a/f"], Some [x41; x42; x43], Some [x31], 2%nat).
Proof. vm_compute. reflexivity. Qed.

Lemma migration_transfer_exact_witness : exists p, holds_source (fun l : list bytes => concat l) mx_source mx_task p (mw_target mx_run.2)
  /\ mw_removed mx_run.2 = ["/a/f"].
Proof.
  pose proof (migration_transfer_exact (fun _ => None) (fun _ d => d) (fun s => s) chunk_read (@concat byte) mx_source mx_target None None tt
    (fun _ => false) (fun _ => false) (fun _ d => d) (fun _ => None) (fun _ => 100) (fun _ => None) "t" "m" 1 mx_mig mx_task mx_start
    eq_refl I ltac:(done)) as C.
  pose proof mx_run_ends as E. destruct mx_run as [r w']. cbn in E. injection E as -> E _ _ _.
  destruct C as (p & _ & Hh & Hr). exists p. split; [exact Hh|exact E].
Defined.

(** A task with a persisted path is uploaded straight onto that path: whatever the strategy,
    no staging file and no promotion. *)
Lemma retry_unstaged `{GoUnicode} SanitizeError {T} (target : migration_target T) other fault now taskID epoch mig task p :
  persisted task = true ->
  choose_target SanitizeError target other fault now taskID epoch mig task p = wret (Some (p, false))
  /\ upload_path target p false = p /\ finalize target taskID p false = None.
Proof. intros Hp. unfold choose_target. by rewrite Hp. Qed.

(** When the last statement of a move fails, the source is gone and the task has failed: a
    retry has nothing to download. *)
Lemma moved_then_failed :
  let '(r, w) := process_claimed (fun _ => None) (fun _ d => d) (fun s => s) chunk_read mx_source mx_target None None tt
    (fun _ => false) (fun _ => false) (fun _ d => d) (fun n => if (n =? 3)%nat then Some "connection reset" else None) (fun _ => 100)
    (fun _ => None) "t" "m" 1 mx_mig mx_task mx_start in
  r = Err "connection reset" /\ mw_removed w = ["/a/f"] /\ mw_target w !! "/a/f" = Some [x41; x42; x43]
  /\ (mt_status <$> mtasks (mw_db w) !! "t") = Some TRUNNING.
Proof. vm_compute. done. Qed.
