(* ===== verification/SyncWorker.v ===== *)
(** * The sync worker

    [processSyncTask] (src/backend/internal/processor/sync_task.go): what a worker does
    with a sync task it claimed - directories, deletions, conflict copies, and the
    transfer of a file to the other side - as a program over the statements of
    SyncTasks.v and the two providers.  What surrounds it is a parameter: the
    transactions of other workers before each statement, the statements that fail, the
    clock, and the outcome of credentials, tokens and connections.  Progress display,
    heartbeats and the locks on MEGA accounts are left out. *)

From S2P Require Import Prelude GoPath HashString Digits Ranges Tables Bytes Utf8 Storage Sanitize Streams TransferCore.
From S2P Require Import SyncDelta SyncBaseline Database SyncLifecycle SyncTasks SyncFailure MigrationDb Overwrite WorkerMonad MigrationWorker.

(** ** What the worker talks to *)

(** A provider of a sync job: it is read and written.  [sd_Modified] is the time
    [InspectResource] gives when it succeeds with one; [sd_Apply] the interface
    MetadataApplier with the error the worker passes on, an authentication error. *)
Record sync_side (R S : Type) := mkSide {
  sd_Download : string -> S -> res string R;
  sd_Modified : string -> S -> option Z;
  sd_Apply : option (string -> Z -> S -> option string * S);
  sd_target : migration_target S;
}.
Arguments sd_Download {R S} _ _ _.
Arguments sd_Modified {R S} _ _ _.
Arguments sd_Apply {R S} _.
Arguments sd_target {R S} _.

(** What a job fixes, and the columns of a task no statement changes. *)
Record sync_spec := mkSyncSpec {
  ss_source_provider : string;
  ss_target_provider : string;
  ss_target_dir : string;
}.

Record sync_task := mkSyncTask {
  st_resource : string;
  st_path : string;
  st_size : Z;
  st_action : string;
  st_side : string;
}.

(** At which of its ends without an error the code arrived. *)
Inductive sync_end := SyncRefused | SyncStopped | SyncSkipped | SyncMade | SyncDeleted | SyncCopied | SyncTransferred.

(** *** Two sides *)

Section Sides.
Context {D A B : Type}.

Definition swapped {A B} (w : mworker D (A * B)) : mworker D (B * A) :=
  mkMWorker (mw_db w) ((mw_target w).2, (mw_target w).1) (mw_clock w) (mw_removed w) (mw_mem w).

(** A program for the sides the other way round, for the second and for the first side. *)
Definition wswap {X} (m : W (D := D) (T := B * A) X) : W (D := D) (T := A * B) X := fun w =>
  let '(r, w) := m (swapped w) in (r, swapped w).

Definition wsecond {X} (m : W (D := D) (T := B) X) : W (D := D) (T := A * B) X := fun w =>
  let '(r, w') := m (mkMWorker (mw_db w) (mw_target w).2 (mw_clock w) (mw_removed w) (mw_mem w)) in
  (r, mkMWorker (mw_db w') ((mw_target w).1, mw_target w') (mw_clock w') (mw_removed w') (mw_mem w')).

(** Reading the first side. *)
Definition wread {X} (f : A -> X) : W (D := D) (T := A * B) X := wtry (fun t => (f t.1, t)).
End Sides.

Definition wfirst {D A B X} (m : W (D := D) (T := A) X) : W (D := D) (T := A * B) X := wswap (wsecond m).

Section Worker.
Context `{UnicodeTables}.
#[local] Existing Instance uni_case.
Context (sum : string -> bytes -> bytes).
Context {R L : Type} (read : read_op R).
Context (down up : option (throttler (L := L))) (l0 : L).
Context (other : nat -> database -> database) (fault : nat -> option string).
Context (now : nat -> Z) (connect : nat -> option string).

(** [time.Now().Format("20060102150405")] at the statement. *)
Context (stamp : nat -> string).
Context (payload : Payload) (job : sync_spec) (task : sync_task).

Abbreviation statement := (wstatement other fault now).
Abbreviation checked := (wchecked other fault now).
Abbreviation connection := (wconnections connect).

(** [path.Clean(path.Join(job.TargetDir, task.FilePath))] *)
Definition on_target : string := path_clean (path_join [ss_target_dir job; st_path task]).

Section Row.
(** The row as the worker read it. *)
Context (row : task_row).

(** The worker's copy when the task ends; an earlier error text stays. *)
Definition sync_ack (s : task_status) (err worker target : option string) (verified : bool) : ack :=
  let a := ack_of (pl_TaskID payload) (pl_ClaimEpoch payload) row in
  mkAck (ack_id a) (ack_sync_job a) (ack_epoch a) (ack_generation a) s (ack_attempts a) (coalesce err (ack_error a)) (ack_next_retry a)
    worker (ack_source_hash a) target verified.

(** A status without counters; its error is ignored. *)
Definition sync_leave {T} (s : task_status) : W (D := database) (T := T) unit :=
  wlogged (checked (UpdateClaimedSyncTaskStatus (sync_ack s None (worker_hash row) (target_hash row) (checksum_verified row)))).

Definition sync_done {T} (a : ack) (changed deleted bytes : Z) : W (D := database) (T := T) unit :=
  checked (UpdateSyncTaskStatusAndIncrementProgress a 1 changed deleted 0 bytes).

Definition done_verified : ack := sync_ack COMPLETED None (worker_hash row) (target_hash row) true.

(** *** Directories *)

Definition sanitized_dir (provider mkPath : string) : string :=
  let sanitized := SanitizeFilename (path_base mkPath) provider in
  if Changed sanitized then path_join [path_dir mkPath; SanitizedName sanitized] else mkPath.

Definition dir_collision {S} (side : sync_side R S) (provider mkPath : string) : W (D := database) (T := S) string :=
  if IsCaseInsensitive provider then
    let* items := wtry (tg_Listing (sd_target side) (path_dir mkPath)) in
    wret (match CheckCaseCollision items (path_base mkPath) with Ok c => c | Err _ => "" end)
  else wret "".

(** The directory on one side alone. *)
Definition make_on {S} (side : sync_side R S) (provider mkPath : string) : W (D := database) (T := S) sync_end :=
  let* _ := connection in
  let mkPath := sanitized_dir provider mkPath in
  let* collision := dir_collision side provider mkPath in
  if negb (String.eqb collision "") then
    let* _ := sync_done (sync_ack SKIPPED (Some ("Directory skipped due to case collision with " +:+ collision)) (worker_hash row) (target_hash row)
                           (checksum_verified row)) 1 0 0 in
    wret SyncSkipped
  else
    let* _ := wcall "failed to create directory: " (tg_CreateDirectory (sd_target side) mkPath) in
    let* _ := sync_done done_verified 1 0 0 in
    wret SyncMade.

(** *** Deletions and conflict copies *)

(** Both providers are connected, whichever side loses the file. *)
Definition delete_on {S} (side : sync_side R S) (msg p : string) : W (D := database) (T := S) sync_end :=
  let* _ := connection in
  let* _ := connection in
  let* _ := wcall msg (tg_Delete (sd_target side) p) in
  let* _ := sync_done done_verified 0 1 0 in
  wret SyncDeleted.

(** "name.conflict-20060102150405.ext" beside the file. *)
Definition conflict_path (ts tgtPath : string) : string :=
  let base := path_base tgtPath in
  let ext := path_ext base in
  let name := if has_suffix base ext then str_take (String.length base - String.length ext) base else base in
  path_clean (path_join [path_dir tgtPath; (name +:+ ".conflict-" +:+ ts +:+ ext)%string]).

Definition copy_conflict {S} (side : sync_side R S) : W (D := database) (T := S) sync_end :=
  let* _ := connection in
  let* _ := (fun w => wcall "failed to rename target to conflict copy: "
               (tg_Rename (sd_target side) on_target (conflict_path (stamp (mw_clock w)) on_target)) w) in
  let* _ := sync_done done_verified 1 0 0 in
  wret SyncCopied.

(** *** The transfer of a file *)

Section Transfer.
Context {S1 S2 : Type} (src : sync_side R S1) (dst : sync_side R S2).
Context (srcProvider tgtProvider srcPath tgtPath : string).

Definition useTempUpload : bool := useTempThenRename (tg_AtomicRename (sd_target dst)) true.
Definition staging : string := if useTempUpload then tgtPath +:+ ".tmp" else tgtPath.

(** The algorithm of the source hasher and the checksum for the upload. *)
Definition sync_source_hasher : string * string :=
  let hash := default "" (source_hash row) in
  let '(algo, checksum) :=
    if negb (String.eqb hash "") && negb (String.eqb srcProvider "webdav") then
      let '(algo, cleanHash) := ParseHashString hash in
      if String.eqb algo "SHA1" || String.eqb algo "SHA256" || String.eqb algo "MD5" || String.eqb algo "DROPBOX"
      then (algo, cleanHash) else ("SHA1", "")
    else ("SHA1", "") in
  let algo :=
    if String.eqb srcProvider "dropbox" then "DROPBOX"
    else if String.eqb srcProvider "google" || String.eqb srcProvider "koofr" then "MD5"
    else if String.eqb srcProvider "onedrive" then "QUICKXOR" else algo in
  (if String.eqb algo "MD5" || String.eqb algo "DROPBOX" || String.eqb algo "SHA256" || String.eqb algo "QUICKXOR"
   then algo else "SHA1", checksum).

Definition sync_target_hasher : string :=
  if String.eqb tgtProvider "dropbox" then "DROPBOX"
  else if String.eqb tgtProvider "s3" then "SHA256"
  else if String.eqb tgtProvider "google" || String.eqb tgtProvider "koofr" then "MD5"
  else if String.eqb tgtProvider "hidrive" then "HIDRIVE"
  else if String.eqb tgtProvider "onedrive" then "QUICKXOR"
  else "SHA1".

Definition announced : option string :=
  let '(algo, checksum) := sync_source_hasher in
  if negb (String.eqb checksum "") && negb (String.eqb algo "ETAG") then Some (algo +:+ ":" +:+ checksum)%string else None.

(** The upload to the staging path and the size check: what was hashed. *)
Definition stage (stream : R) (t : S2) : res string bytes * S2 :=
  let tgt := tg_streams (sd_target dst) in
  let upload := if chunkedUploadThreshold <? st_size task
                then StreamUploadChunked tgt t staging (st_size task) announced
                else StreamUpload tgt t staging (st_size task) announced in
  let st := (newExpectedSizeReader (stream, l0) (st_size task), [], l0) in
  let '((uploadErr, t), _, _, (reader, hashed, _)) := run_consumer (upload_read read down up) upload st in
  match uploadErr with
  | Some e => (Err ("failed to upload: " +:+ e), t)
  | None =>
    match VerifyComplete (download_read read down) reader with
    | (Err e, _) => (Err e, t)
    | (Ok _, _) => (Ok hashed, t)
    end
  end.

Definition discard (e : string) : W (D := database) (T := S2) bytes :=
  let* _ := if useTempUpload then let* _ := wtry (tg_Delete (sd_target dst) staging) in wret tt else wret tt in
  wstop e.

Definition upload_staged (stream : R) : W (D := database) (T := S2) bytes :=
  let* r := wtry (stage stream) in
  match r with Ok hashed => wret hashed | Err e => discard e end.

Definition promote : W (D := database) (T := S2) unit :=
  if useTempUpload then
    wcall "failed to promote temporary upload to target path: "
      (prog_target (sd_target dst) (promoteOverwrite tgtPath staging (overwriteBackupPath tgtPath (pl_TaskID payload))))
  else wret tt.

Definition apply_time (modified : option Z) : W (D := database) (T := S2) unit :=
  match modified, sd_Apply dst with
  | Some time, Some apply =>
      let* e := wtry (apply tgtPath time) in
      match e with Some e => wstop e | None => wret tt end
  | _, _ => wret tt
  end.

Definition check_size : W (D := database) (T := S2) unit :=
  if String.eqb (st_resource task) "files" then
    let* r := wcall "failed to verify target size: " (verifyTargetSize (tg_streams (sd_target dst)) tgtPath) in
    if negb r.1 || negb (r.2 =? st_size task) then wstop "target size mismatch" else wret tt
  else wret tt.

Definition hash_text (hashed : bytes) : string :=
  let algo := if String.eqb sync_source_hasher.1 sync_target_hasher then sync_source_hasher.1 else sync_target_hasher in
  (algo +:+ ":" +:+ formatWorkerHashValue sum algo hashed)%string.

(** The row of the finished transfer. *)
Definition transfer_ack (hashed : bytes) : W (D := database) (T := S2) ack :=
  let h := Some (hash_text hashed) in
  if negb (String.eqb (st_resource task) "files") || has_suffix (st_path task) "/" || String.eqb (st_action task) "mkdir"
     || tg_SizeOnly (sd_target dst)
  then wret (sync_ack COMPLETED None h h true)
  else if tg_CryptographicHash (sd_target dst) then
    let* r := wtry (tg_Hash (sd_target dst) tgtPath) in
    let '(_, t) := tryInlineHashVerify (TransferCore.mkTask (source_hash row) h h (checksum_verified row)) r in
    wret (sync_ack COMPLETED None h (t_TargetHash t) (t_ChecksumVerified t))
  else wret (sync_ack COMPLETED None h h (checksum_verified row)).

Definition transfer_to : W (D := database) (T := S1 * S2) sync_end :=
  let* _ := connection in
  let* _ := connection in
  let* _ := wsecond (wcall "failed to create target directories: " (tg_CreateParents (sd_target dst) tgtPath)) in
  let* r := wread (sd_Download src srcPath) in
  let* stream := wlift "failed to download from source: " r in
  let* hashed := wsecond (upload_staged stream) in
  let* _ := wsecond promote in
  let* modified := wread (sd_Modified src srcPath) in
  let* _ := wsecond (apply_time modified) in
  let* _ := wsecond check_size in
  let* a := wsecond (transfer_ack hashed) in
  let* _ := sync_done a 1 0 (st_size task) in
  wret SyncTransferred.
End Transfer.

(** *** The action *)

Section Action.
Context {A B : Type} (source : sync_side R A) (target : sync_side R B).

Definition run_action : W (D := database) (T := A * B) sync_end :=
  if String.eqb (st_action task) "mkdir" then
    if String.eqb (st_side task) "source" then wfirst (make_on source (ss_source_provider job) (st_path task))
    else wsecond (make_on target (ss_target_provider job) on_target)
  else if String.eqb (st_action task) "delete" then
    if String.eqb (st_side task) "source" then wfirst (delete_on source "failed to delete source file: " (st_path task))
    else wsecond (delete_on target "failed to delete target file: " on_target)
  else if String.eqb (st_action task) "conflict_copy" then wsecond (copy_conflict target)
  else if String.eqb (st_action task) "download" then
    wswap (transfer_to target source (ss_target_provider job) (ss_source_provider job) on_target (st_path task))
  else transfer_to source target (ss_source_provider job) (ss_target_provider job) (st_path task) on_target.
End Action.
End Row.

Definition processSyncTask {A B} (source : sync_side R A) (target : sync_side R B) : W (D := database) (T := A * B) sync_end :=
  let* row := wfetch other fault now "failed to fetch sync job: " (fun d => sync_jobs d !! pl_SyncJobID payload) in
  let* t := wfetch other fault now "failed to fetch task: " (fun d => tasks d !! pl_TaskID payload) in
  if negb (String.eqb (tr_sync_job t) (pl_SyncJobID payload)) || negb (pass_generation t =? run_generation row) then wret SyncRefused
  else if status_in [PAUSED; PAUSED_CONNECTION_LOSS] (jr_status row) then let* _ := sync_leave t CANCELLED in wret SyncStopped
  else if status_in [JFAILED] (jr_status row) then let* _ := sync_leave t SKIPPED in wret SyncStopped
  else
    let* _ := connection in
    run_action t source target.
End Worker.
