(* ===== verification/SyncTransfer.v ===== *)
(** * What a sync task does to its two sides

    The worker of SyncWorker.v over two providers that keep files: what each action
    changes, whatever fails, and what its success means for the files and the task. *)

From S2P Require Import Prelude GoPath HashString Digits Ranges Tables Bytes Utf8 Storage Sanitize Streams TransferCore.
From S2P Require Import SyncDelta SyncBaseline Database SyncLifecycle SyncTasks SyncFailure MigrationDb Overwrite WorkerMonad MigrationWorker MigrationTransfer SyncWorker.

(** A provider of a sync job: a store whose downloads deliver what it keeps. *)
Class SyncStore {R S} (content : R -> bytes) (side : sync_side R S) := {
  side_store :: MigrationStore (sd_target side);
  download_delivers p t r : sd_Download side p t = Ok r -> kept t !! p = Some (content r);
  apply_keeps f p z t : sd_Apply side = Some f -> kept (f p z t).2 = kept t;
  delete_removes p t : (tg_Delete (sd_target side) p t).1 = Ok tt -> kept (tg_Delete (sd_target side) p t).2 !! p = None;
}.

Abbreviation files := (gmap string bytes).

(** Outside these paths and what is below them nothing changed. *)
Definition unchanged_but (F : files) (ps : list string) (f : files) : Prop :=
  forall q, Forall (fun p => ~ under p q) ps -> f !! q = F !! q.

(** ** Two sides *)

Section Both.
Context {A B : Type} (seenA : A -> files) (seenB : B -> files).

Definition both (t : A * B) : files * files := (seenA t.1, seenB t.2).
End Both.

Section Lifting.
Context {D A B : Type} (seenA : A -> files) (seenB : B -> files).

Lemma second_spec {X} (P : assertion) (m : W (D := D) (T := B) X) Q E F1 :
  wspec seenB P m Q E ->
  wspec (both seenA seenB) (fun f r => f.1 = F1 /\ P f.2 r) (wsecond m) (fun x f r => f.1 = F1 /\ Q x f.2 r) (fun f r => f.1 = F1 /\ E f.2 r).
Proof.
  intros Hm w [H1 Hp]. specialize (Hm (mkMWorker (mw_db w) (mw_target w).2 (mw_clock w) (mw_removed w) (mw_mem w)) Hp).
  unfold wsecond. destruct (m _) as [[x|e] w']; cbn in *; by split.
Qed.

Lemma swap_spec {X} (P : assertion) (m : W (D := D) (T := B * A) X) Q E :
  wspec (both seenB seenA) P m Q E ->
  wspec (both seenA seenB) (fun f r => P (f.2, f.1) r) (wswap m) (fun x f r => Q x (f.2, f.1) r) (fun f r => E (f.2, f.1) r).
Proof. intros Hm w Hp. specialize (Hm (swapped w) Hp). unfold wswap. destruct (m _) as [[x|e] w']; exact Hm. Qed.

Lemma read_spec {X} (P : assertion) (f : A -> X) (E : assertion) :
  wspec (D := D) (both seenA seenB) P (wread f) (fun x g r => P g r /\ exists t, seenA t = g.1 /\ x = f t) E.
Proof. intros w Hp. cbn. split; [exact Hp|]. by exists (mw_target w).1. Qed.

Lemma second_keeps {X} (m : W (D := D) (T := B) X) : wkeeps seenB m -> wkeeps (both seenA seenB) (wsecond m).
Proof.
  intros Hm P w Hp.
  specialize (Hm (fun f r => P (seenA (mw_target w).1, f) r) (mkMWorker (mw_db w) (mw_target w).2 (mw_clock w) (mw_removed w) (mw_mem w)) Hp).
  unfold wsecond. by destruct (m _) as [[x|e] w'].
Qed.
End Lifting.

Section Task_spec.
Context `{UnicodeTables}.
#[local] Existing Instance uni_case.
Context (sum : string -> bytes -> bytes).
Context {R L : Type} (read : read_op R) (content : R -> bytes) `{!Source read content}.
Context (down up : option (throttler (L := L))) (l0 : L).
Context (other : nat -> database -> database) (fault : nat -> option string).
Context (now : nat -> Z) (connect : nat -> option string) (stamp : nat -> string).
Context (payload : Payload) (job : sync_spec) (task : sync_task) (row : task_row).
Hypothesis Hthrottlers : throttler_ok down.
Hypothesis Hsize : 0 <= st_size task.

Section Side.
Context {S : Type} (side : sync_side R S) `{!SyncStore content side} (F : files) (r0 : list string).
Local Abbreviation spec := (wspec (D := database) (kept (target := sd_target side))).
Local Abbreviation keeps := (wkeeps (D := database) (kept (target := sd_target side))).

Definition same_files : assertion (O := files) := fun f r => f = F /\ r = r0.

Definition outside (ps : list string) : assertion (O := files) := fun f r => unchanged_but F ps f /\ r = r0.

Lemma same_outside ps f r : same_files f r -> outside ps f r.
Proof. intros [-> ->]. by split. Qed.

Lemma keeps_connection : keeps (wconnections connect).
Proof. auto with worker. Qed.

Lemma keeps_done a c d b : keeps (sync_done other fault now a c d b).
Proof. unfold sync_done. auto with worker. Qed.

Lemma keeps_make provider p : keeps (make_on other fault now connect payload row side provider p).
Proof.
  unfold make_on, dir_collision. apply wkeeps_bind; [auto with worker|]. intros _. apply wkeeps_bind.
  { destruct (IsCaseInsensitive provider); [|auto with worker]. apply wkeeps_bind; [apply wkeeps_try; intros t; apply kept_listing|].
    intros items. auto with worker. }
  intros c. destruct (negb _).
  - apply wkeeps_bind; [apply keeps_done|]. intros _. auto with worker.
  - apply wkeeps_bind; [apply wkeeps_call; intros t; apply kept_directory|]. intros _.
    apply wkeeps_bind; [apply keeps_done|]. intros _. auto with worker.
Qed.

Lemma delete_spec msg p : spec same_files (delete_on other fault now connect payload row side msg p)
  (fun e f r => outside [p] f r /\ f !! p = None) (outside [p]).
Proof.
  unfold delete_on. do 2 (apply wspec_step; [apply keeps_connection|apply same_outside|]; intros _).
  apply (wspec_bind _ _ _ (fun _ f r => outside [p] f r /\ f !! p = None)).
  - intros w [E1 E2]. unfold wcall, wbind, wtry.
    pose proof (delete_keeps p (mw_target w)) as Hk. pose proof (delete_removes p (mw_target w)) as Hr.
    destruct (tg_Delete _ p (mw_target w)) as [[[]|e] t]; cbn in *.
    + split; [|by apply Hr]. split; [|done]. intros q Hq. rewrite Hk, E1; [done|]. by inversion Hq.
    + split; [|done]. intros q Hq. rewrite Hk, E1; [done|]. by inversion Hq.
  - intros []. apply wspec_step; [apply keeps_done|by intros f r []|]. intros _. by apply wspec_ret.
Qed.

(** The conflict copy at the time of some statement. *)
Definition conflict_of (n : nat) : string := conflict_path (stamp n) (on_target job task).

Lemma copy_spec : spec same_files (copy_conflict other fault now connect stamp payload job task row side)
  (fun e f r => exists n, outside [on_target job task; conflict_of n] f r
     /\ forall c, F !! on_target job task = Some c -> f !! conflict_of n = Some c)
  (fun f r => exists n, outside [on_target job task; conflict_of n] f r).
Proof.
  unfold copy_conflict. apply wspec_step; [apply keeps_connection|intros f r Hf; exists 0%nat; by apply same_outside|]. intros _.
  apply (wspec_bind _ _ _ (fun _ f r => exists n, outside [on_target job task; conflict_of n] f r
     /\ forall c, F !! on_target job task = Some c -> f !! conflict_of n = Some c)).
  - intros w [E1 E2]. unfold wcall, wbind, wtry. fold (conflict_of (mw_clock w)).
    pose proof (rename_keeps (on_target job task) (conflict_of (mw_clock w)) (mw_target w)) as Hk.
    pose proof (rename_moves (on_target job task) (conflict_of (mw_clock w)) (mw_target w)) as Hm.
    destruct (tg_Rename _ _ _ (mw_target w)) as [[[]|e] t]; cbn in *; exists (mw_clock w).
    + split.
      * split; [|done]. intros q Hq. inversion_clear Hq as [|x y H1 Hq']. inversion_clear Hq' as [|x y H2 _]. by rewrite Hk, E1.
      * intros c Hc. apply Hm; [done|]. by rewrite E1.
    + split; [|done]. intros q Hq. inversion_clear Hq as [|x y H1 Hq']. inversion_clear Hq' as [|x y H2 _]. by rewrite Hk, E1.
  - intros []. apply wspec_step; [apply keeps_done|intros f r (n & Ho & _); by exists n|]. intros _. by apply wspec_ret.
Qed.
End Side.

(** *** The transfer *)

Section Copy.
Context {S1 S2 : Type} (src : sync_side R S1) (dst : sync_side R S2) `{!SyncStore content src, !SyncStore content dst}.
Context (srcProvider tgtProvider srcPath tgtPath : string) (F1 F2 : files) (r0 : list string).
Local Abbreviation spec := (wspec (D := database) (kept (target := sd_target dst))).
Local Abbreviation keeps := (wkeeps (D := database) (kept (target := sd_target dst))).
Local Abbreviation near := (outside F2 r0 [tgtPath; tgtPath +:+ ".tmp"; overwriteBackupPath tgtPath (pl_TaskID payload)]).
Local Abbreviation stage := (stage read down up l0 task row dst srcProvider tgtPath).

Definition stands (p : string) (c : bytes) : assertion (O := files) := fun f r => near f r /\ f !! p = Some c.

Lemma staging_apart q : apart tgtPath (tgtPath +:+ ".tmp") (overwriteBackupPath tgtPath (pl_TaskID payload)) q ->
  q <> staging dst tgtPath.
Proof. intros (H1 & H2 & _) ->. unfold staging in *. destruct (useTempUpload dst); [apply H2|apply H1]; apply under_self. Qed.

Lemma near_apart f r : (forall q, apart tgtPath (tgtPath +:+ ".tmp") (overwriteBackupPath tgtPath (pl_TaskID payload)) q -> f !! q = F2 !! q) ->
  r = r0 -> near f r.
Proof.
  intros Hf Hr. split; [|done]. intros q Hq. inversion_clear Hq as [|x y H1 Hq']. inversion_clear Hq' as [|x y H2 Hq''].
  inversion_clear Hq'' as [|x y H3 _]. by apply Hf.
Qed.

Lemma apart_near f r q : near f r -> apart tgtPath (tgtPath +:+ ".tmp") (overwriteBackupPath tgtPath (pl_TaskID payload)) q -> f !! q = F2 !! q.
Proof. intros [Hf _] (H1 & H2 & H3). apply Hf. by repeat constructor. Qed.

Lemma stage_keeps stream t q : q <> staging dst tgtPath -> kept (stage stream t).2 !! q = kept t !! q.
Proof.
  intros Hq. unfold SyncWorker.stage. set (st := (newExpectedSizeReader _ _, _, _)). set (a := announced _ _).
  assert (kept (run_consumer (upload_read read down up) (if chunkedUploadThreshold <? st_size task
    then StreamUploadChunked (tg_streams (sd_target dst)) t (staging dst tgtPath) (st_size task) a
    else StreamUpload (tg_streams (sd_target dst)) t (staging dst tgtPath) (st_size task) a) st).1.1.1.2 !! q = kept t !! q) as Hu.
  { destruct (_ <? _); [by apply chunks_keep|by apply upload_keeps]. }
  match type of Hu with context [run_consumer ?x ?y st] => destruct (run_consumer x y st) as [[[[e t1] d] es] [[reader hashed] l]] end.
  cbn in Hu. destruct e; [done|]. by destruct (VerifyComplete _ reader) as [[u|e] reader'].
Qed.

Lemma stage_stores stream t hashed t' : stage stream t = (Ok hashed, t') ->
  zlen (content stream) = st_size task /\ kept t' !! staging dst tgtPath = Some (content stream).
Proof.
  unfold SyncWorker.stage. set (a := announced _ _). set (c := if chunkedUploadThreshold <? _ then _ else _).
  destruct (run_consumer _ c _) as [[[[e t1] d] es] [[reader hashed'] l]] eqn:Er. destruct e; [done|].
  destruct (VerifyComplete _ reader) as [[[]|e] reader'] eqn:Ev; [|done]. intros [= -> ->].
  destruct (upload_all read content c down up l0 _ _ _ _ _ _ _ _ _ Hthrottlers Hsize Er Ev) as (-> & _ & Hz). split; [exact Hz|].
  unfold c in Er. destruct (_ <? _); [by eapply chunks_store|by eapply upload_stores].
Qed.

Lemma upload_staged_spec stream : spec (same_files F2 r0) (upload_staged read down up l0 task row dst srcProvider tgtPath stream)
  (fun _ f r => stands (staging dst tgtPath) (content stream) f r /\ zlen (content stream) = st_size task) near.
Proof.
  unfold upload_staged.
  apply (wspec_bind _ _ _ (fun x f r => near f r
    /\ (forall h, x = Ok h -> f !! staging dst tgtPath = Some (content stream) /\ zlen (content stream) = st_size task))).
  - intros w [E1 E2]. unfold wtry. pose proof (stage_keeps stream (mw_target w)) as Hk. pose proof (stage_stores stream (mw_target w)) as Hs.
    destruct (stage stream (mw_target w)) as [x t]. cbn in *. split.
    + apply near_apart; [|done]. intros q Hq. rewrite Hk, E1; [done|]. by apply staging_apart.
    + intros h ->. by destruct (Hs h t eq_refl).
  - intros [h|e].
    + apply wspec_ret. intros f r [Hn Hs]. destruct (Hs h eq_refl). by split_and!.
    + apply (wspec_from _ _ near); [|by intros f r []]. unfold discard.
      apply (wspec_bind _ _ _ (fun _ => near)); [|intros u; by apply wspec_stop].
      unfold useTempUpload, staging. destruct (useTempThenRename _ true) eqn:Eu; [|by apply wspec_ret].
      intros w Hn. unfold wbind, wtry, wret. pose proof (delete_keeps (tgtPath +:+ ".tmp") (mw_target w)) as Hk.
      unfold staging, useTempUpload. rewrite Eu. destruct (tg_Delete _ _ (mw_target w)) as [x t]. cbn in *.
      apply near_apart; [|by destruct Hn]. intros q Hq. rewrite Hk; [by eapply apart_near|]. by destruct Hq as (_ & H2 & _).
Qed.

Lemma promote_spec c : spec (stands (staging dst tgtPath) c) (promote payload dst tgtPath) (fun _ => stands tgtPath c) near.
Proof.
  unfold promote, staging. destruct (useTempUpload dst) eqn:Eu; [|by apply wspec_ret].
  intros w [Hn Hc]. unfold wcall, wbind, wtry, wlift.
  pose proof (fun q => prog_target_frame (sd_target dst) _ _ _ _ (mw_target w) q
    (promote_within tgtPath (tgtPath +:+ ".tmp") (overwriteBackupPath tgtPath (pl_TaskID payload)))) as Hk.
  destruct (tmp_apart tgtPath (pl_TaskID payload)) as (H1 & H2 & H3).
  pose proof (fun t' => promote_success (sd_target dst) _ _ _ (mw_target w) t' c H1 H2 H3) as Hp.
  destruct (prog_target (sd_target dst) _ (mw_target w)) as [[[]|e] t] eqn:Er; cbn in *.
  - split; [|by apply Hp]. apply near_apart; [|by destruct Hn]. intros q Hq. rewrite Hk by done. by eapply apart_near.
  - apply near_apart; [|by destruct Hn]. intros q Hq. rewrite Hk by done. by eapply apart_near.
Qed.

Lemma keeps_apply m : keeps (apply_time dst tgtPath m).
Proof.
  unfold apply_time. destruct m as [z|]; [|auto with worker]. destruct (sd_Apply dst) as [f|] eqn:Ef; [|auto with worker].
  apply wkeeps_bind; [apply wkeeps_try; intros t; exact (apply_keeps f tgtPath z t Ef)|]. intros [e|]; auto with worker.
Qed.

Lemma keeps_check : keeps (check_size task dst tgtPath).
Proof.
  unfold check_size. destruct (String.eqb _ _); [|auto with worker].
  apply wkeeps_bind; [apply wkeeps_call; intros t; apply verify_quiet|]. intros [b n]. destruct (_ || _); auto with worker.
Qed.

Lemma keeps_ack h : keeps (transfer_ack sum payload task row dst srcProvider tgtProvider tgtPath h).
Proof.
  unfold transfer_ack. destruct (_ || _); [auto with worker|]. destruct (tg_CryptographicHash _); [|auto with worker].
  apply wkeeps_bind; [apply wkeeps_try; intros t; apply kept_hash|]. intros x. destruct (tryInlineHashVerify _ x) as [v t]. auto with worker.
Qed.

Definition near_paths : list string := [tgtPath; tgtPath +:+ ".tmp"; overwriteBackupPath tgtPath (pl_TaskID payload)].

(** The file of the first side, of the indexed size, is at the path of the second. *)
Definition carried (f : files) : Prop :=
  exists c, F1 !! srcPath = Some c /\ zlen c = st_size task /\ f !! tgtPath = Some c.

Definition start : assertion (O := files * files) := fun f r => f.1 = F1 /\ same_files F2 r0 f.2 r.
Definition partial : assertion (O := files * files) := fun f r => f.1 = F1 /\ near f.2 r.

Lemma start_partial f r : start f r -> partial f r.
Proof. intros [H1 H2]. split; [exact H1|by apply same_outside]. Qed.

Abbreviation spec2 := (wspec (D := database) (both (kept (target := sd_target src)) (kept (target := sd_target dst)))).
Abbreviation keeps2 := (wkeeps (D := database) (both (kept (target := sd_target src)) (kept (target := sd_target dst)))).

Definition standing (p : string) (c : bytes) : assertion (O := files * files) := fun f r =>
  (f.1 = F1 /\ stands p c f.2 r) /\ F1 !! srcPath = Some c /\ zlen c = st_size task.

Lemma standing_partial p c f r : standing p c f r -> partial f r.
Proof. intros [[H1 [H2 _]] _]. by split. Qed.

Lemma settle_transfer_spec c h : spec2 (standing tgtPath c)
  (let* modified := wread (sd_Modified src srcPath) in
   let* _ := wsecond (apply_time dst tgtPath modified) in
   let* _ := wsecond (check_size task dst tgtPath) in
   let* a := wsecond (transfer_ack sum payload task row dst srcProvider tgtProvider tgtPath h) in
   let* _ := sync_done other fault now a 1 0 (st_size task) in
   wret SyncTransferred)
  (fun e f r => partial f r /\ carried f.2) partial.
Proof.
  assert (keeps2 (wread (sd_Modified src srcPath))) as Hr by (intros P w Hp; exact Hp).
  apply wspec_step; [exact Hr|apply standing_partial|]. intros m.
  apply wspec_step; [apply second_keeps, keeps_apply|apply standing_partial|]. intros _.
  apply wspec_step; [apply second_keeps, keeps_check|apply standing_partial|]. intros _.
  apply wspec_step; [apply second_keeps, keeps_ack|apply standing_partial|]. intros a.
  apply wspec_step; [unfold sync_done; auto with worker|apply standing_partial|]. intros _.
  apply wspec_ret. intros f r Hs. split; [by eapply standing_partial|]. destruct Hs as [[_ [_ Hp]] [Hc Hz]]. by exists c.
Qed.

Lemma transfer_spec2 : spec2 start
  (transfer_to sum read down up l0 other fault now connect payload task row src dst srcProvider tgtProvider srcPath tgtPath)
  (fun e f r => partial f r /\ carried f.2) partial.
Proof.
  unfold transfer_to. do 2 (apply wspec_step; [auto with worker|apply start_partial|]; intros _).
  apply wspec_step; [apply second_keeps, wkeeps_call; intros t; apply kept_parents|apply start_partial|]. intros _.
  apply (wspec_bind _ _ _ _ _ _ _ (read_spec _ _ start (sd_Download src srcPath) partial)). intros x.
  apply (wspec_bind _ _ _ (fun stream f r => start f r /\ F1 !! srcPath = Some (content stream))).
  { destruct x as [stream|e]; [apply wspec_ret|apply wspec_stop]; intros f r [Hs (t & Ht & Hx)]; [|by apply start_partial].
    split; [exact Hs|]. destruct Hs as [<- _]. rewrite <- Ht. by apply download_delivers. }
  intros stream. apply wspec_pure. intros Hc.
  apply (wspec_bind _ _ _ (fun _ f r => standing (staging dst tgtPath) (content stream) f r)).
  { apply (wspec_weaken _ _ _ _ _ _ _ _ (second_spec (kept (target := sd_target src)) _ _ _ _ _ F1 (upload_staged_spec stream)));
      [done| |done]. intros _ f r (H1 & Hs & Hz). by split_and!. }
  intros h. apply (wspec_bind _ _ _ (fun _ => standing tgtPath (content stream))); [|intros u; apply settle_transfer_spec].
  intros w [[H1 Hs] Hcz].
  pose proof (second_spec (kept (target := sd_target src)) _ _ _ _ _ F1 (promote_spec (content stream)) w (conj H1 Hs)) as Hp.
  destruct (wsecond _ w) as [[u|e] w']; [by split|exact Hp].
Qed.
End Copy.
End Task_spec.

(** ** The commit of the task *)

Section Commit.
Context `{UnicodeTables}.
#[local] Existing Instance uni_case.
Context (sum : string -> bytes -> bytes) {R L : Type} (read : read_op R) (down up : option (throttler (L := L))) (l0 : L).
Context (other : nat -> database -> database) (fault : nat -> option string).
Context (now : nat -> Z) (connect : nat -> option string) (stamp : nat -> string).
Context (payload : Payload) (job : sync_spec) (task : sync_task).

Definition ended_as (e : sync_end) : task_status := match e with SyncSkipped => SKIPPED | _ => COMPLETED end.

(** Changed files, deleted files and bytes an end counts. *)
Definition counted_as (e : sync_end) : Z * Z * Z :=
  match e with
  | SyncDeleted => (0, 1, 0)
  | SyncTransferred => (1, 0, st_size task)
  | _ => (1, 0, 0)
  end.

(** The last statement was the acknowledgement of the claimed task with its counters. *)
Definition task_committed (e : sync_end) (d : database) : Prop :=
  match e with
  | SyncRefused | SyncStopped => False
  | _ => exists a n d0, ack_id a = pl_TaskID payload /\ ack_epoch a = pl_ClaimEpoch payload /\ ack_status a = ended_as e
      /\ UpdateSyncTaskStatusAndIncrementProgress a 1 (counted_as e).1.1 (counted_as e).1.2 0 (counted_as e).2 (now n) d0 = (true, d)
  end.

(** A program that ends only with its task committed. *)
Definition commits {T} (m : W (D := database) (T := T) sync_end) : Prop :=
  forall w e w', m w = (Ok e, w') -> task_committed e (mw_db w').

Lemma commits_bind {T X} (m : W (D := database) (T := T) X) k : (forall x, commits (k x)) -> commits (wbind m k).
Proof. intros Hk w e w'. unfold wbind. destruct (m w) as [[x|y] w1]; [apply Hk|done]. Qed.

Lemma commits_bind_post {T X} (m : W (D := database) (T := T) X) k (Q : X -> Prop) :
  (forall w x w', m w = (Ok x, w') -> Q x) -> (forall x, Q x -> commits (k x)) -> commits (wbind m k).
Proof. intros Hm Hk w e w'. unfold wbind. destruct (m w) as [[x|y] w1] eqn:E; [|done]. by apply (Hk x (Hm _ _ _ E)). Qed.

Lemma commits_done {T} a e c d b : counted_as e = (c, d, b) -> ack_id a = pl_TaskID payload -> ack_epoch a = pl_ClaimEpoch payload ->
  ack_status a = ended_as e -> e <> SyncRefused /\ e <> SyncStopped ->
  commits (T := T) (let* _ := sync_done other fault now a c d b in wret e).
Proof.
  intros Ec H1 H2 H3 Hn w e' w'. unfold sync_done, wchecked, wstatement, wbind, wret.
  destruct (fault (mw_clock w)); [done|].
  destruct (UpdateSyncTaskStatusAndIncrementProgress _ _ _ _ _ _ _ _) as [[] d1] eqn:Ed; [|done].
  intros [= <- <-]. assert (exists a n d0, ack_id a = pl_TaskID payload /\ ack_epoch a = pl_ClaimEpoch payload /\ ack_status a = ended_as e
      /\ UpdateSyncTaskStatusAndIncrementProgress a 1 (counted_as e).1.1 (counted_as e).1.2 0 (counted_as e).2 (now n) d0 = (true, d1)) as Hx.
  { exists a, (mw_clock w), (other (mw_clock w) (mw_db w)). rewrite Ec. by split_and!. }
  destruct Hn. by destruct e.
Qed.

Lemma commits_swap {A B} (m : W (D := database) (T := B * A) sync_end) : commits m -> commits (T := A * B) (wswap m).
Proof.
  intros Hm w e w'. unfold wswap. destruct (m _) as [r w1] eqn:E. intros [= -> <-]. exact (Hm _ _ _ E).
Qed.

Lemma commits_second {A B} (m : W (D := database) (T := B) sync_end) : commits m -> commits (T := A * B) (wsecond m).
Proof.
  intros Hm w e w'. unfold wsecond. destruct (m _) as [r w1] eqn:E. intros [= -> <-]. exact (Hm _ _ _ E).
Qed.

Lemma transfer_ack_of {S2} row (dst : sync_side R S2) srcProvider tgtProvider tgtPath h w a w' :
  transfer_ack sum payload task row dst srcProvider tgtProvider tgtPath h w = (Ok a, w') ->
  ack_id a = pl_TaskID payload /\ ack_epoch a = pl_ClaimEpoch payload /\ ack_status a = COMPLETED.
Proof.
  unfold transfer_ack. destruct (_ || _); [by intros [= <- _]|]. destruct (tg_CryptographicHash _); [|by intros [= <- _]].
  unfold wbind, wtry. destruct (tg_Hash _ _ _) as [r t]. destruct (tryInlineHashVerify _ r) as [v u]. by intros [= <- _].
Qed.

Lemma transfer_commits {S1 S2} row (src : sync_side R S1) (dst : sync_side R S2) srcProvider tgtProvider srcPath tgtPath :
  commits (transfer_to sum read down up l0 other fault now connect payload task row src dst srcProvider tgtProvider srcPath tgtPath).
Proof.
  unfold transfer_to. do 10 (apply commits_bind; intros ?).
  apply (commits_bind_post _ _ (fun a => ack_id a = pl_TaskID payload /\ ack_epoch a = pl_ClaimEpoch payload /\ ack_status a = COMPLETED)).
  - intros w a w'. unfold wsecond. destruct (transfer_ack _ _ _ _ _ _ _ _ _ _) as [r w1] eqn:E. intros [= -> _]. by eapply transfer_ack_of.
  - intros a (H1 & H2 & H3). by apply commits_done.
Qed.

Lemma make_commits {S} row (side : sync_side R S) provider p :
  commits (make_on other fault now connect payload row side provider p).
Proof.
  unfold make_on. apply commits_bind. intros _. apply commits_bind. intros c. destruct (negb _); [by apply commits_done|].
  apply commits_bind. intros _. by apply commits_done.
Qed.

Lemma action_commits {A B} row (source : sync_side R A) (target : sync_side R B) :
  commits (run_action sum read down up l0 other fault now connect stamp payload job task row source target).
Proof.
  unfold run_action. destruct (String.eqb _ "mkdir").
  { destruct (String.eqb _ "source"); [apply commits_swap|]; apply commits_second, make_commits. }
  destruct (String.eqb _ "delete").
  { destruct (String.eqb _ "source"); [apply commits_swap|]; apply commits_second; unfold delete_on;
      (do 3 (apply commits_bind; intros _)); by apply commits_done. }
  destruct (String.eqb _ "conflict_copy").
  { apply commits_second. unfold copy_conflict. do 2 (apply commits_bind; intros _). by apply commits_done. }
  destruct (String.eqb _ "download"); [apply commits_swap|]; apply transfer_commits.
Qed.

End Commit.

(** ** Every action *)

Section Effect.
Context (payload : Payload) (job : sync_spec) (task : sync_task) (stamp : nat -> string).

(** What the action may change on the two sides, and what it has done at the end. *)
Definition sync_effect (done : bool) (F f : files * files) : Prop :=
  let p := st_path task in
  let q := on_target job task in
  if String.eqb (st_action task) "mkdir" then f = F
  else if String.eqb (st_action task) "delete" then
    if String.eqb (st_side task) "source"
    then f.2 = F.2 /\ unchanged_but F.1 [p] f.1 /\ (done = true -> f.1 !! p = None)
    else f.1 = F.1 /\ unchanged_but F.2 [q] f.2 /\ (done = true -> f.2 !! q = None)
  else if String.eqb (st_action task) "conflict_copy" then
    f.1 = F.1 /\ exists n, unchanged_but F.2 [q; conflict_of stamp job task n] f.2
      /\ (done = true -> forall c, F.2 !! q = Some c -> f.2 !! conflict_of stamp job task n = Some c)
  else if String.eqb (st_action task) "download" then
    f.2 = F.2 /\ unchanged_but F.1 (near_paths payload p) f.1 /\ (done = true -> carried task q p F.2 f.1)
  else f.1 = F.1 /\ unchanged_but F.2 (near_paths payload q) f.2 /\ (done = true -> carried task p q F.1 f.2).

Lemma effect_refl F : sync_effect false F F.
Proof.
  unfold sync_effect, unchanged_but.
  destruct (String.eqb (st_action task) "mkdir"); [done|].
  destruct (String.eqb (st_action task) "delete"); [by destruct (String.eqb (st_side task) "source")|].
  destruct (String.eqb (st_action task) "conflict_copy"); [split; [done|]; by exists 0%nat|].
  by destruct (String.eqb (st_action task) "download").
Qed.
End Effect.

Section All.
Context `{UnicodeTables}.
#[local] Existing Instance uni_case.
Context (sum : string -> bytes -> bytes) {R L : Type} (read : read_op R) (content : R -> bytes) `{!Source read content}.
Context (down up : option (throttler (L := L))) (l0 : L).
Context (other : nat -> database -> database) (fault : nat -> option string).
Context (now : nat -> Z) (connect : nat -> option string) (stamp : nat -> string).
Context (payload : Payload) (job : sync_spec) (task : sync_task).
Hypothesis Hthrottlers : throttler_ok down.
Hypothesis Hsize : 0 <= st_size task.
Context {A B : Type} (source : sync_side R A) (target : sync_side R B) `{!SyncStore content source, !SyncStore content target}.
Context (F : files * files) (r0 : list string).

Abbreviation sides := (both (kept (target := sd_target source)) (kept (target := sd_target target))).
Abbreviation sides_swapped := (both (kept (target := sd_target target)) (kept (target := sd_target source))).
Abbreviation effect := (sync_effect payload job task stamp).

Definition before : assertion (O := files * files) := fun f r => f = F /\ r = r0.

Lemma first_spec {X} (P : assertion) (m : W (D := database) (T := A) X) Q E :
  wspec (kept (target := sd_target source)) P m Q E ->
  wspec sides (fun f r => f.2 = F.2 /\ P f.1 r) (wfirst m) (fun x f r => f.2 = F.2 /\ Q x f.1 r) (fun f r => f.2 = F.2 /\ E f.1 r).
Proof. intros Hm. exact (swap_spec _ _ _ _ _ _ (second_spec (kept (target := sd_target target)) _ P m Q E F.2 Hm)). Qed.

Lemma action_effect row : wspec sides before
  (run_action sum read down up l0 other fault now connect stamp payload job task row source target)
  (fun _ f r => effect true F f) (fun f r => effect false F f).
Proof.
  assert (forall f r, before f r -> f.1 = F.1 /\ same_files F.2 r0 f.2 r) as Hb2 by (by intros f r [-> ->]).
  assert (forall f r, before f r -> f.2 = F.2 /\ same_files F.1 r0 f.1 r) as Hb1 by (by intros f r [-> ->]).
  unfold run_action. destruct (String.eqb (st_action task) "mkdir") eqn:E1; [destruct (String.eqb (st_side task) "source")|].
  - apply (wspec_weaken _ _ _ _ _ _ _ _ (first_spec _ _ _ _ (keeps_make _ _ _ _ _ _ _ source _ _ (same_files F.1 r0)))); [exact Hb1|..];
      unfold sync_effect; rewrite E1; [intros _ [f1 f2] r|intros [f1 f2] r]; destruct F; intros (H1 & H2 & _); cbn in *; congruence.
  - apply (wspec_weaken _ _ _ _ _ _ _ _ (second_spec (kept (target := sd_target source)) _ _ _ _ _ F.1
      (keeps_make _ _ _ _ _ _ _ target _ _ (same_files F.2 r0)))); [exact Hb2|..];
      unfold sync_effect; rewrite E1; [intros _ [f1 f2] r|intros [f1 f2] r]; destruct F; intros (H1 & H2 & _); cbn in *; congruence.
  - destruct (String.eqb (st_action task) "delete") eqn:E2; [destruct (String.eqb (st_side task) "source") eqn:E3|].
    + apply (wspec_weaken _ _ _ _ _ _ _ _ (first_spec _ _ _ _ (delete_spec _ _ _ _ _ _ _ source F.1 r0 _ _))); [exact Hb1|..];
        unfold sync_effect; rewrite E1, E2, E3; [intros _ f r (H1 & [H2 _] & H3)|intros f r (H1 & H2 & _)]; by split_and!.
    + apply (wspec_weaken _ _ _ _ _ _ _ _ (second_spec (kept (target := sd_target source)) _ _ _ _ _ F.1
        (delete_spec _ _ _ _ _ _ _ target F.2 r0 _ _))); [exact Hb2|..];
        unfold sync_effect; rewrite E1, E2, E3; [intros _ f r (H1 & [H2 _] & H3)|intros f r (H1 & H2 & _)]; by split_and!.
    + destruct (String.eqb (st_action task) "conflict_copy") eqn:E4; [|destruct (String.eqb (st_action task) "download") eqn:E5].
      * apply (wspec_weaken _ _ _ _ _ _ _ _ (second_spec (kept (target := sd_target source)) _ _ _ _ _ F.1
          (copy_spec _ _ _ _ _ _ _ _ _ _ target F.2 r0))); [exact Hb2|..];
          unfold sync_effect; rewrite E1, E2, E4; [intros _ f r (H1 & n & [H2 _] & H3)|intros f r (H1 & n & H2 & _)]; (split; [done|]); by exists n.
      * apply (wspec_weaken _ _ _ _ _ _ _ _ (swap_spec _ _ _ _ _ _ (transfer_spec2 sum read content down up l0 other fault now connect payload
          task row Hthrottlers Hsize target source (ss_target_provider job) (ss_source_provider job) (on_target job task) (st_path task) F.2 F.1 r0)));
          [by intros f r [-> ->]|..]; unfold sync_effect; rewrite E1, E2, E4, E5;
          [intros _ f r [(H1 & H2 & _) H3]|intros f r (H1 & H2 & _)]; by split_and!.
      * apply (wspec_weaken _ _ _ _ _ _ _ _ (transfer_spec2 sum read content down up l0 other fault now connect payload
          task row Hthrottlers Hsize source target (ss_source_provider job) (ss_target_provider job) (st_path task) (on_target job task) F.1 F.2 r0));
          [by intros f r [-> ->]|..]; unfold sync_effect; rewrite E1, E2, E4, E5;
          [intros _ f r [(H1 & H2 & _) H3]|intros f r (H1 & H2 & _)]; by split_and!.
Qed.

Lemma action_ends row : wspec sides before
  (run_action sum read down up l0 other fault now connect stamp payload job task row source target)
  (fun e f r => effect true F f /\ e <> SyncRefused /\ e <> SyncStopped) (fun f r => effect false F f).
Proof.
  intros w Hb. pose proof (action_effect row w Hb) as He.
  pose proof (action_commits sum read down up l0 other fault now connect stamp payload job task row source target w) as Hc.
  destruct (run_action _ _ _ _ _ _ _ _ _ _ _ _ _ _ _ _ w) as [[e|m] w']; [|exact He]. specialize (Hc e w' eq_refl).
  split; [exact He|]. by destruct e.
Qed.

(** An end of the worker on the files of both sides. *)
Definition ended_with (e : sync_end) (f : files * files) : Prop :=
  match e with SyncRefused | SyncStopped => f = F | _ => effect true F f end.

Lemma process_effect : wspec sides before
  (processSyncTask sum read down up l0 other fault now connect stamp payload job task source target)
  (fun e f r => ended_with e f) (fun f r => effect false F f).
Proof.
  assert (forall f r, before f r -> effect false F f) as Hu by (intros f r [-> ->]; apply effect_refl).
  assert (forall e f r, e = SyncRefused \/ e = SyncStopped -> before f r -> ended_with e f) as He by (by intros e f r [-> | ->] [-> ->]).
  unfold processSyncTask. do 2 (apply wspec_step; [unfold wfetch; auto with worker|exact Hu|]; intros ?).
  destruct (_ || _); [apply wspec_ret; intros f r; apply He; by left|].
  destruct (status_in _ _); [apply wspec_step; [unfold sync_leave; auto with worker|exact Hu|]; intros _; apply wspec_ret; intros f r; apply He; by right|].
  destruct (status_in _ _); [apply wspec_step; [unfold sync_leave; auto with worker|exact Hu|]; intros _; apply wspec_ret; intros f r; apply He; by right|].
  apply wspec_step; [auto with worker|exact Hu|]. intros _.
  apply (wspec_weaken _ _ _ _ _ _ _ _ (action_ends _)); [done| |done]. intros e f r (Hx & H1 & H2). by destruct e.
Qed.
End All.

Lemma process_commits `{UnicodeTables} sum {R L A B} (read : read_op R) down up (l0 : L) other fault now connect stamp payload job task
    (source : sync_side R A) (target : sync_side R B) w e w' :
  processSyncTask sum read down up l0 other fault now connect stamp payload job task source target w = (Ok e, w') ->
  e <> SyncRefused -> e <> SyncStopped -> task_committed now payload task e (mw_db w').
Proof.
  intros Hr H1 H2. revert Hr. unfold processSyncTask, wbind.
  destruct (wfetch _ _ _ _ _ w) as [[row|m] w1]; [|done]. destruct (wfetch _ _ _ _ _ w1) as [[t|m] w2]; [|done].
  destruct (_ || _); [by intros [= <- _]|].
  destruct (status_in _ _); [unfold sync_leave, wlogged; destruct (wchecked _ _ _ _ w2) as [x w3]; by intros [= <- _]|].
  destruct (status_in _ _); [unfold sync_leave, wlogged; destruct (wchecked _ _ _ _ w2) as [x w3]; by intros [= <- _]|].
  destruct (wconnections _ w2) as [[u|m] w3]; [|done]. by apply action_commits.
Qed.

(** C3: what a worker does with a claimed sync task.  Whatever the other workers, the failing
    statements and the failing calls: a task of another job or pass, or of a paused or
    failed job, touches no file; a directory task touches no file; a deletion changes only
    what is at its path on its side; a conflict copy only the file and its copy on the
    target; an upload or download only its path, the staging file and the backup on the
    receiving side.  If the task ends, the file is gone, preserved at the copy, or the
    receiving side holds exactly the other side's file of the indexed size, and the
    acknowledgement of the claim with its counters has been committed last. *)
Theorem sync_task_exact `{UnicodeTables} sum {R L A B} (read : read_op R) (content : R -> bytes) `{!Source read content}
    down up (l0 : L) other fault now connect stamp payload job task (source : sync_side R A) (target : sync_side R B)
    `{!SyncStore content source, !SyncStore content target} w :
  throttler_ok down -> 0 <= st_size task ->
  let F := both (kept (target := sd_target source)) (kept (target := sd_target target)) (mw_target w) in
  match processSyncTask sum read down up l0 other fault now connect stamp payload job task source target w with
  | (Ok (SyncRefused | SyncStopped), w') => both kept kept (mw_target w') = F
  | (Ok e, w') => sync_effect payload job task stamp true F (both kept kept (mw_target w')) /\ task_committed now payload task e (mw_db w')
  | (Err _, w') => sync_effect payload job task stamp false F (both kept kept (mw_target w'))
  end.
Proof.
  intros Hd Hz F.
  pose proof (process_effect sum read content down up l0 other fault now connect stamp payload job task Hd Hz source target F (mw_removed w) w
    (conj eq_refl eq_refl)) as He.
  pose proof (process_commits sum read down up l0 other fault now connect stamp payload job task source target w) as Hc.
  destruct (processSyncTask _ _ _ _ _ _ _ _ _ _ _ _ _ _ _ w) as [[e|m] w']; [|exact He].
  specialize (Hc e w' eq_refl). destruct e; try exact He; (split; [exact He|by apply Hc]).
Qed.

(** The transfer of a sync task chooses its hashers as the transfer core does. *)
Lemma sync_hashers_agree `{UnicodeTables} row srcProvider tgtProvider :
  sync_source_hasher row srcProvider = transferSourceHasher (H := uni_case) srcProvider (default "" (source_hash row))
  /\ sync_target_hasher tgtProvider = transferTargetHasher tgtProvider.
Proof.
  split; [|done]. unfold sync_source_hasher, transferSourceHasher. cbv zeta.
  match goal with |- context [let '(algo, checksum) := ?x in _] => destruct x as [algo v] end.
  cbv beta iota. set (a := if String.eqb srcProvider "dropbox" then _ else _).
  by destruct (String.eqb a "MD5" || String.eqb a "DROPBOX" || String.eqb a "SHA256" || String.eqb a "QUICKXOR").
Qed.

(** ** An upload over an older file *)

#[local] Existing Instance mx_tables.
#[local] Existing Instance mx_store.

Definition sx_side : sync_side (list bytes) (gmap string bytes) :=
  mkSide _ _ (fun p t => match t !! p with Some c => Ok [c] | None => Err "404" end) (fun _ _ => Some 7) None mx_target.

#[local] Instance sx_store : SyncStore (@concat byte) sx_side.
Proof.
  refine (Build_SyncStore _ _ (@concat byte) sx_side mx_store _ _ _).
  - intros p t r. cbn. intros Hr. destruct (t !! p) as [c|] eqn:E; [|done]. injection Hr as <-. cbn. by rewrite app_nil_r.
  - done.
  - intros p t _. apply lookup_delete_eq.
Defined.

Definition sx_payload : Payload := mkPayload "t" "j" 1 1.
Definition sx_job : sync_spec := mkSyncSpec "webdav" "nextcloud" "/backup".
Definition sx_task : sync_task := mkSyncTask "files" "/a" 3 "upload" "".
Definition sx_db : database :=
  mkDb {["j" := mkJobRow RUNNING 1 0 None None None (mkCounters 1 3 0 0 0 0 0 0 0) 4 0]}
    {["t" := mkTaskRow "j" 1 None TRUNNING 0 None None (Some "w") 1 None None false 0]} ∅ ∅.
Definition sx_start : mworker database (gmap string bytes * gmap string bytes) :=
  mkMWorker sx_db ({["/a" := [x41; x42; x43]]}, {["/backup/a" := [x30]; "/backup/b" := [x31]]}) 0 [] (mkMem ∅ ∅ ∅).

Abbreviation sx_run := (processSyncTask (fun _ d => d) chunk_read None None tt (fun _ d => d) (fun _ => None) (fun _ => 100)
  (fun _ => None) (fun _ => "20250101000000") sx_payload sx_job sx_task sx_side sx_side sx_start).

Lemma sx_run_ends : (sx_run.1, (mw_target sx_run.2).2 !! "/backup/a", size (mw_target sx_run.2).2, tr_status <$> tasks (mw_db sx_run.2) !! "t")
  = (Ok SyncTransferred, Some [x41; x42; x43], 2%nat, Some COMPLETED).
Proof. vm_compute. reflexivity. Qed.

Lemma sync_task_exact_witness : carried sx_task "/a" "/backup/a" {["/a" := [x41; x42; x43]]} (mw_target sx_run.2).2
  /\ task_committed (fun _ => 100) sx_payload sx_task SyncTransferred (mw_db sx_run.2).
Proof.
  pose proof (sync_task_exact (fun _ d => d) chunk_read (@concat byte) None None tt (fun _ d => d) (fun _ => None) (fun _ => 100)
    (fun _ => None) (fun _ => "20250101000000") sx_payload sx_job sx_task sx_side sx_side sx_start I ltac:(done)) as C.
  pose proof sx_run_ends as E. destruct sx_run as [r w']. cbn in E. injection E as -> _ _ _.
  destruct C as [(_ & _ & Hc) Hd]. split; [exact (Hc eq_refl)|exact Hd].
Defined.
