(* ===== verification/Verifier.v ===== *)
(** * The checksum verifier

    What follows the transfers: a pass over the completed, unverified tasks of a
    migration or a sync job that asks the target for a checksum or a size and marks
    each task verified or failed (runVerificationPass, verifyMigrationChecksums and
    verifySyncJobChecksums of src/backend/internal/processor/verifier.go).  The pass is
    a transition system: workers take tasks from a shared queue, ask the target and
    write one statement each, in any order, while other transactions run.  The target
    is a provider as in MigrationWorker.v; progress lines and the dispatcher's bounded
    queues are left out. *)

From S2P Require Import Prelude GoPath HashString Digits Ranges Tables Bytes Utf8 Storage Sanitize Streams TransferCore.
From S2P Require Import SyncDelta SyncBaseline Database SyncLifecycle SyncTasks SyncFailure MigrationDb MigrationOps MigrationTasks.
From S2P Require Import Indexer IndexerRun Overwrite WorkerMonad MigrationWorker SyncWorker.

(** ** One task *)

(** The columns of a task the verifier reads. *)
Record vtask := mkVTask {
  vt_id : string;
  vt_resource : string;
  vt_path : string;
  vt_resolved : option string;
  vt_metadata : task_metadata;
  vt_size : Z;
  vt_source_hash : option string;
  vt_worker_hash : option string;
  vt_target_hash : option string;
  vt_attempts : Z;
}.

(** What is written: nothing, a verification or a mismatch, with the target's checksum. *)
Inductive verdict := VNothing | VVerified (targetHash : string) | VMismatch (message targetHash : string).

(** Whether the worker ends unless the task is marked verified. *)
Record decision := mkDecision { dn_verdict : verdict; dn_strict : bool }.

Section Task.
Context `{UnicodeTables, GoSpace}.
#[local] Existing Instance uni_case.
Context (rfc3339 : string -> option (string * string)).

(** The target, asked about one of its own identifiers when the text is not empty,
    which errors are final and which mean that nothing is there. *)
Context {T : Type} (target : string -> migration_target T) (hash_unsupported not_found : string -> bool).

(** The configuration of the pass. *)
Context (SourceProvider TargetProvider TargetDir : string).

Definition is_directory_error (e : string) : bool :=
  contains_str (ToLower e) "is a directory" || contains_str (ToLower e) "is a folder".

Definition isNonRetryableHashError (e : string) : bool :=
  hash_unsupported e
  || existsb (contains_str (ToLower e))
       ["checksum not available"; "not supported"; "not implemented"; "is a directory"; "is a folder"].

Definition verified_directory (t : vtask) : bool := has_suffix (vt_path t) "/" || is_mkdir (vt_metadata t).

Definition verified_path (t : vtask) : string :=
  match vt_resolved t with
  | Some p => if String.eqb p "" then ResolveTargetPath rfc3339 (vt_resource t) (vt_path t) (vt_metadata t) TargetDir SourceProvider TargetProvider else p
  | None => ResolveTargetPath rfc3339 (vt_resource t) (vt_path t) (vt_metadata t) TargetDir SourceProvider TargetProvider
  end.

Section Asked.
Context (tgt : migration_target T) (t : vtask) (p : string).

(** [markVerifiedForFile]: the size decides, a directory is accepted. *)
Definition decide_size (h : string) (errHash : option string) (s : T) : verdict * T :=
  if match errHash with Some e => is_directory_error e | None => false end then (VVerified h, s)
  else
    match verifyTargetSize (tg_streams tgt) p s with
    | (Err e, s) => ((if is_directory_error e then VVerified h else VNothing), s)
    | (Ok (found, size), s) =>
        ((if negb found || (negb (size =? vt_size t) && negb ((vt_size t =? 0) && verified_directory t))
          then VMismatch "target size mismatch" h else VVerified h), s)
    end.

(** At most three attempts; an answer without checksum is final. *)
Fixpoint ask_hash (attempts : nat) (s : T) : res string string * T :=
  match attempts with
  | O => (Err "", s)
  | Datatypes.S attempts =>
      match tg_Hash tgt p s with
      | (Ok h, s) => (Ok h, s)
      | (Err e, s) =>
          if isNonRetryableHashError e || (String.eqb TargetProvider "immich" && not_found e) then (Err e, s)
          else match attempts with O => (Err e, s) | _ => ask_hash attempts s end
      end
  end.

(** The hash of the source to compare with one of the target. *)
Definition compared_hash (targetAlgo : string) : string :=
  let srcHash := bestSourceHash (TransferCore.mkTask (vt_source_hash t) (vt_worker_hash t) None false) in
  match vt_worker_hash t with
  | Some w =>
      if String.eqb (ParseHashString w).1 targetAlgo && negb (String.eqb (ParseHashString srcHash).1 targetAlgo)
      then w else srcHash
  | None => srcHash
  end.

Definition decide_hash (s : T) : decision * T :=
  let '(r, s) := ask_hash 3 s in
  match r with
  | Ok targetHash =>
      if String.eqb targetHash "" then let '(v, s) := decide_size "" None s in (mkDecision v true, s)
      else
        let '(targetAlgo, cleanTarget) := ParseHashString targetHash in
        let srcHash := compared_hash targetAlgo in
        if String.eqb srcHash "" then let '(v, s) := decide_size targetHash None s in (mkDecision v false, s)
        else
          let '(sourceAlgo, cleanSource) := ParseHashString srcHash in
          if isComparableHash sourceAlgo && isComparableHash targetAlgo && String.eqb sourceAlgo targetAlgo then
            (mkDecision (if String.eqb cleanSource cleanTarget then VVerified targetHash else VMismatch "checksum mismatch" targetHash) false, s)
          else let '(v, s) := decide_size targetHash None s in (mkDecision v false, s)
  | Err e => let '(v, s) := decide_size "" (Some e) s in (mkDecision v true, s)
  end.

Definition decide_file (s : T) : decision * T :=
  if tg_SizeOnly (target "") then let '(v, s) := decide_size "" None s in (mkDecision v true, s)
  else if tg_CryptographicHash (target "") then decide_hash s
  else (mkDecision VNothing false, s).
End Asked.

Definition asset_of (t : vtask) : string := field_of "immich_target_asset_id" (md_custom (vt_metadata t)).

Definition decide (t : vtask) (s : T) : decision * T :=
  if negb (String.eqb (vt_resource t) "files") || verified_directory t then (mkDecision (VVerified "") true, s)
  else if String.eqb TargetProvider "immich" then
    if String.eqb (TrimSpace (asset_of t)) "" then (mkDecision VNothing false, s)
    else decide_file (target (asset_of t)) t (verified_path t) s
  else decide_file (target "") t (verified_path t) s.
End Task.

(** ** The pass *)

(** What a pass knows of the migration or the job (verificationPassConfig). *)
Record pass_config (D : Type) := mkConfig {
  pc_tasks : D -> list vtask;
  pc_verified : vtask -> string -> Z -> D -> bool * D;
  pc_mismatch : vtask -> string -> string -> Z -> D -> bool * D;
  pc_reconcile : Z -> D -> D;
  pc_renew : Z -> D -> bool * D;
  pc_release : Z -> D -> D;
}.
Arguments pc_tasks {D} _ _.
Arguments pc_verified {D} _ _ _ _ _.
Arguments pc_mismatch {D} _ _ _ _ _ _.
Arguments pc_reconcile {D} _ _ _.
Arguments pc_renew {D} _ _ _.
Arguments pc_release {D} _ _ _.

(** The checksum the row keeps after a mismatch. *)
Definition mismatch_hash (t : vtask) (targetHash : string) : option string :=
  if String.eqb targetHash "" then vt_target_hash t else Some targetHash.

Definition of_mtask (id : string) (r : mtask_row) : vtask :=
  mkVTask id (mt_resource r) (mt_path r) (mt_resolved r) (mt_metadata r) (mt_size r) (mt_source_hash r) (mt_worker r)
    (mt_target_hash r) (mt_attempts r).

Definition GetUnverifiedCompletedTasks (id : string) (d : migration_db) : list vtask :=
  map (fun '(k, r) => of_mtask k r)
    (List.filter (fun '(_, r) => of_migration id r && tstatus_in [COMPLETED] r && negb (mt_verified r)) (map_to_list (mtasks d))).

(** The retry time is cleared before the statement. *)
Definition migration_config (id : string) (generation : Z) : pass_config migration_db :=
  mkConfig _ (GetUnverifiedCompletedTasks id)
    (fun t h => MarkMigrationTaskChecksumVerifiedWhileVerifying (vt_id t) h generation)
    (fun t message h => MarkMigrationTaskChecksumMismatchWhileVerifying (vt_id t) (Some message) None (mismatch_hash t h) generation)
    (fun now d => (ReconcileMigrationProgressWhileVerifying id generation now d).2)
    (RenewMigrationVerificationLease id generation)
    (ReleaseMigrationVerificationLease id generation).

(** The columns of the tasks of a sync job that no statement changes. *)
Definition of_sync_row (columns : string -> sync_task) (id : string) (r : task_row) : vtask :=
  let c := columns id in
  mkVTask id (st_resource c) (st_path c) None (mkMetadata (st_action c) [] None []) (st_size c) (source_hash r) (worker_hash r)
    (target_hash r) (attempts r).

Definition GetUnverifiedCompletedSyncTasks (columns : string -> sync_task) (id : string) (generation : Z) (d : database) : list vtask :=
  map (fun '(k, r) => of_sync_row columns k r)
    (List.filter (fun '(_, r) => of_pass id generation r && has_status COMPLETED r && negb (checksum_verified r)) (map_to_list (tasks d))).

Definition sync_config (columns : string -> sync_task) (id : string) (generation verificationGeneration : Z) : pass_config database :=
  mkConfig _ (GetUnverifiedCompletedSyncTasks columns id generation)
    (fun t h => MarkSyncTaskChecksumVerifiedWhileVerifying (vt_id t) h generation verificationGeneration)
    (fun t message h => MarkSyncTaskChecksumMismatchWhileVerifying
       (mkAck (vt_id t) id 0 generation TFAILED (vt_attempts t) (Some message) None (vt_worker_hash t) (vt_source_hash t)
          (mismatch_hash t h) false) generation verificationGeneration)
    (fun _ d => d)
    (RenewSyncJobVerificationLease id generation verificationGeneration)
    (ReleaseSyncJobVerificationLease id verificationGeneration).

(** [ps_flight] are the tasks workers have decided and not yet written; [ps_log] the
    tasks done with, their verdict and whether it was written. *)
Record pass_state (D T : Type) := mkPass {
  ps_queue : list vtask;
  ps_flight : list (vtask * decision);
  ps_active : nat;
  ps_log : list (vtask * verdict * bool);
  ps_owned : bool;
  ps_cancelled : bool;
  ps_db : D;
  ps_target : T;
}.
Arguments mkPass {D T} _ _ _ _ _ _ _ _.
Arguments ps_queue {D T} _.
Arguments ps_flight {D T} _.
Arguments ps_active {D T} _.
Arguments ps_log {D T} _.
Arguments ps_owned {D T} _.
Arguments ps_cancelled {D T} _.
Arguments ps_db {D T} _.
Arguments ps_target {D T} _.

(** One worker, unless checksums are asked for. *)
Definition verification_workers (cryptographic : bool) (threads total : Z) : nat :=
  if cryptographic then Z.to_nat (Z.min (Z.min (if threads <=? 0 then 4 else threads) 8) total) else 1%nat.

Section Pass.
Context {D T : Type} (cfg : pass_config D) (decide : vtask -> T -> decision * T).

Definition write_verdict (t : vtask) (v : verdict) (now : Z) (d : D) : bool * D :=
  match v with
  | VNothing => (false, d)
  | VVerified h => pc_verified cfg t h now d
  | VMismatch m h => pc_mismatch cfg t m h now d
  end.

(** Whether the worker goes on after its task. *)
Definition worker_goes_on (dn : decision) (written : bool) : bool :=
  negb (dn_strict dn) || match dn_verdict dn with VVerified _ => written | _ => false end.

Definition can_write (s : pass_state D T) : bool := negb (ps_cancelled s) && ps_owned s.

(** A worker takes a task and decides; [true] marks a step of the pass itself. *)
Inductive pass_step (s : pass_state D T) : bool -> pass_state D T -> Prop :=
| step_take t q dn tg :
    ps_queue s = t :: q -> (length (ps_flight s) < ps_active s)%nat -> ps_cancelled s = false -> decide t (ps_target s) = (dn, tg) ->
    pass_step s true (mkPass q ((t, dn) :: ps_flight s) (ps_active s) (ps_log s) (ps_owned s) (ps_cancelled s) (ps_db s) tg)
| step_write l1 t dn l2 fails now written d :
    ps_flight s = l1 ++ (t, dn) :: l2 ->
    (if can_write s && negb fails then write_verdict t (dn_verdict dn) now (ps_db s) else (false, ps_db s)) = (written, d) ->
    pass_step s true (mkPass (ps_queue s) (l1 ++ l2) (if worker_goes_on dn written then ps_active s else pred (ps_active s))
      (ps_log s ++ [(t, dn_verdict dn, written)]) (ps_owned s) (ps_cancelled s) d (ps_target s))
| step_abandon l1 t dn l2 :
    ps_flight s = l1 ++ (t, dn) :: l2 -> ps_cancelled s = true ->
    pass_step s true (mkPass (ps_queue s) (l1 ++ l2) (pred (ps_active s)) (ps_log s ++ [(t, VNothing, false)]) (ps_owned s)
      (ps_cancelled s) (ps_db s) (ps_target s))
| step_leave :
    (length (ps_flight s) < ps_active s)%nat -> ps_cancelled s = true ->
    pass_step s true (mkPass (ps_queue s) (ps_flight s) (pred (ps_active s)) (ps_log s) (ps_owned s) (ps_cancelled s) (ps_db s) (ps_target s))
| step_renew now owned d :
    pc_renew cfg now (ps_db s) = (owned, d) ->
    pass_step s false (mkPass (ps_queue s) (ps_flight s) (ps_active s) (ps_log s) owned (ps_cancelled s || negb owned) d (ps_target s))
| step_renew_fails :
    pass_step s false (mkPass (ps_queue s) (ps_flight s) (ps_active s) (ps_log s) false (ps_cancelled s) (ps_db s) (ps_target s))
| step_cancel :
    pass_step s false (mkPass (ps_queue s) (ps_flight s) (ps_active s) (ps_log s) (ps_owned s) true (ps_db s) (ps_target s))
| step_other d tg :
    pass_step s false (mkPass (ps_queue s) (ps_flight s) (ps_active s) (ps_log s) (ps_owned s) (ps_cancelled s) d tg).

(** [n] steps of its own. *)
Inductive pass_run (s : pass_state D T) : nat -> pass_state D T -> Prop :=
| run_start : pass_run s 0 s
| run_own n s1 s2 : pass_run s n s1 -> pass_step s1 true s2 -> pass_run s (Datatypes.S n) s2
| run_env n s1 s2 : pass_run s n s1 -> pass_step s1 false s2 -> pass_run s n s2.

(** The beginning, after a renewal that found the lease held; with nothing to verify
    only the progress is reconciled. *)
Definition pass_start (cryptographic : bool) (threads : Z) (d : D) (tg : T) : pass_state D T :=
  let l := pc_tasks cfg d in
  mkPass l [] (verification_workers cryptographic threads (Z.of_nat (length l))) [] true false d tg.

Definition begin_pass (cryptographic : bool) (threads now : Z) (d : D) (tg : T) : pass_state D T + D :=
  let '(owned, d) := pc_renew cfg now d in
  if negb owned then inr (pc_release cfg now d)
  else if (length (pc_tasks cfg d) =? 0)%nat then inr (pc_release cfg now (pc_reconcile cfg now d))
  else inl (pass_start cryptographic threads d tg).

(** All workers are gone: no task in flight and nothing queued, or nobody to take it. *)
Definition workers_gone (s : pass_state D T) : Prop := ps_flight s = [] /\ (ps_queue s = [] \/ ps_active s = 0%nat).

Definition end_pass (now : Z) (s : pass_state D T) : D :=
  pc_release cfg now (if ps_cancelled s then ps_db s else pc_reconcile cfg now (ps_db s)).
End Pass.

(** The claim of a migration's verification and of a sync job's; [None] ends without a
    pass, [fresh] is the outcome of the token refresh. *)
Definition verifyMigrationChecksums (id : string) (fresh : bool) (now : Z) (d : migration_db)
    : option (pass_config migration_db * migration_row) * migration_db :=
  let '(generation, d) := ClaimMigrationVerification id now d in
  match generation with
  | None => (None, d)
  | Some g =>
      match migrations d !! id with
      | None => (None, ReleaseMigrationVerificationLease id g now d)
      | Some mig => if fresh then (Some (migration_config id g, mig), d) else (None, d)
      end
  end.

Definition verifySyncJobChecksums (columns : string -> sync_task) (id : string) (fresh : bool) (now : Z) (d : database)
    : option (pass_config database * job_row) * database :=
  let '(generation, d) := ClaimSyncJobVerification id now d in
  match generation with
  | None => (None, d)
  | Some v =>
      match sync_jobs d !! id with
      | None => (None, ReleaseSyncJobVerificationLease id v now d)
      | Some job =>
          if negb (status_in [VERIFYING] (jr_status job)) || negb fresh then (None, ReleaseSyncJobVerificationLease id v now d)
          else (Some (sync_config columns id (run_generation job) v, job), d)
      end
  end.

(** ** What a verdict rests on *)

Section Evidence.
Context `{UnicodeTables, GoSpace}.
#[local] Existing Instance uni_case.
Context (rfc3339 : string -> option (string * string)).
Context {T : Type} (target : string -> migration_target T) (hash_unsupported not_found : string -> bool).
Context (SourceProvider TargetProvider TargetDir : string).

(** The target was asked about the path of the task, or for Immich about its asset. *)
Definition asked (t : vtask) : migration_target T :=
  target (if String.eqb TargetProvider "immich" then asset_of t else "").

Abbreviation path_of t := (verified_path rfc3339 SourceProvider TargetProvider TargetDir t).
Abbreviation decides := (decide rfc3339 target hash_unsupported not_found SourceProvider TargetProvider TargetDir).

(** A checksum recorded for the task: of the source, or computed while streaming. *)
Definition recorded (t : vtask) (r : string) : Prop := vt_source_hash t = Some r \/ vt_worker_hash t = Some r.

Inductive evidence (t : vtask) : Prop :=
| ev_structure : vt_resource t <> "files" \/ verified_directory t = true -> evidence t
| ev_hash s s' h r algo value :
    tg_Hash (asked t) (path_of t) s = (Ok h, s') -> recorded t r ->
    ParseHashString h = (algo, value) -> ParseHashString r = (algo, value) -> isComparableHash algo = true -> evidence t
| ev_size s s' : verifyTargetSize (tg_streams (asked t)) (path_of t) s = (Ok (true, vt_size t), s') -> evidence t
| ev_directory s s' e : verifyTargetSize (tg_streams (asked t)) (path_of t) s = (Err e, s') -> is_directory_error e = true -> evidence t
| ev_directory_hash s s' e : tg_Hash (asked t) (path_of t) s = (Err e, s') -> is_directory_error e = true -> evidence t.

Inductive refutation (t : vtask) : Prop :=
| rf_hash s s' h r algo v1 v2 :
    tg_Hash (asked t) (path_of t) s = (Ok h, s') -> recorded t r ->
    ParseHashString h = (algo, v1) -> ParseHashString r = (algo, v2) -> isComparableHash algo = true -> v1 <> v2 -> refutation t
| rf_size s s' found size :
    verifyTargetSize (tg_streams (asked t)) (path_of t) s = (Ok (found, size), s') ->
    found = false \/ size <> vt_size t -> refutation t.

Definition justified (t : vtask) (v : verdict) : Prop :=
  match v with
  | VNothing => True
  | VVerified _ => evidence t
  | VMismatch _ _ => refutation t
  end.

Lemma ask_hash_err n p (tgt : migration_target T) s e s' : ask_hash hash_unsupported not_found TargetProvider tgt p (Datatypes.S n) s = (Err e, s') ->
  exists s0 s1, tg_Hash tgt p s0 = (Err e, s1).
Proof.
  revert s. induction n as [|n IH]; intros s; cbn [ask_hash]; destruct (tg_Hash tgt p s) as [[h|x] s1] eqn:E; try done.
  - destruct (_ || _); intros [= <- <-]; by exists s, s1.
  - destruct (_ || _); [intros [= <- <-]; by exists s, s1|]. apply IH.
Qed.

Lemma ask_hash_ok n p (tgt : migration_target T) s h s' : ask_hash hash_unsupported not_found TargetProvider tgt p n s = (Ok h, s') ->
  exists s0, tg_Hash tgt p s0 = (Ok h, s').
Proof.
  revert s. induction n as [|n IH]; intros s; cbn [ask_hash]; [done|]. destruct (tg_Hash tgt p s) as [[x|x] s1] eqn:E.
  - intros [= <- <-]. by exists s.
  - destruct (_ || _); [done|]. destruct n; [done|]. apply IH.
Qed.

Lemma compared_recorded t algo r : compared_hash t algo = r -> r <> "" -> recorded t r.
Proof.
  unfold compared_hash, bestSourceHash, recorded. cbn [t_SourceHash t_WorkerHash].
  destruct (vt_source_hash t) as [a|], (vt_worker_hash t) as [b|]; cbn [default]; repeat case_match; intros <-; auto; done.
Qed.

Lemma size_justified t h err s v s' : verified_directory t = false ->
  (forall e, err = Some e -> exists s0 s1, tg_Hash (asked t) (path_of t) s0 = (Err e, s1)) ->
  decide_size (asked t) t (path_of t) h err s = (v, s') -> justified t v.
Proof.
  intros Hd He. unfold decide_size. destruct (match err with Some e => is_directory_error e | None => false end) eqn:Ee.
  { intros [= <- _]. destruct err as [e|]; [|done]. destruct (He e eq_refl) as (s0 & s1 & Ea). by apply (ev_directory_hash t s0 s1 e). }
  destruct (verifyTargetSize _ _ s) as [[[found size]|e] s1] eqn:Es; intros [= <- _].
  - destruct found; cbn [negb orb]; [|by apply (rf_size t s s1 false size); [|left]].
    rewrite Hd, andb_false_r. cbn [negb]. rewrite andb_true_r. destruct (size =? vt_size t) eqn:Ez; cbn [negb].
    + apply Z.eqb_eq in Ez as ->. by apply (ev_size t s s1).
    + apply Z.eqb_neq in Ez. apply (rf_size t s s1 true size); [done|by right].
  - destruct (is_directory_error e) eqn:Ex; [|done]. by apply (ev_directory t s s1 e).
Qed.

Lemma file_justified t s dn s' : verified_directory t = false ->
  decide_file target hash_unsupported not_found TargetProvider (asked t) t (path_of t) s = (dn, s') -> justified t (dn_verdict dn).
Proof.
  intros Hd. unfold decide_file. destruct (tg_SizeOnly _).
  { destruct (decide_size _ _ _ _ _ s) as [v s1] eqn:E. intros [= <- _]. by eapply size_justified in E. }
  destruct (tg_CryptographicHash _); [|by intros [= <- _]].
  unfold decide_hash. destruct (ask_hash _ _ _ _ _ 3 s) as [[h|e] s1] eqn:Ea.
  2: { destruct (decide_size _ _ _ _ _ s1) as [v s2] eqn:E. intros [= <- _]. eapply size_justified; [done| |exact E].
       intros x [= <-]. by apply ask_hash_err in Ea. }
  apply ask_hash_ok in Ea as [s0 Ea].
  destruct (String.eqb h ""); [destruct (decide_size _ _ _ _ _ s1) as [v s2] eqn:E; intros [= <- _]; by eapply size_justified in E|].
  destruct (ParseHashString h) as [algo v1] eqn:Eh.
  destruct (String.eqb (compared_hash t algo) "") eqn:Er.
  { destruct (decide_size _ _ _ _ _ s1) as [v s2] eqn:E. intros [= <- _]. by eapply size_justified in E. }
  destruct (ParseHashString (compared_hash t algo)) as [algo2 v2] eqn:Eh2.
  destruct (_ && _) eqn:Ec; [|destruct (decide_size _ _ _ _ _ s1) as [v s2] eqn:E; intros [= <- _]; by eapply size_justified in E].
  apply andb_prop in Ec as [Ec Ez]. apply andb_prop in Ec as [Ec _]. apply String.eqb_eq in Ez. subst algo2. apply String.eqb_neq in Er.
  intros [= <- _]. cbn [dn_verdict]. destruct (String.eqb v2 v1) eqn:Ev.
  - apply String.eqb_eq in Ev as ->. apply (ev_hash t s0 s1 h (compared_hash t algo) algo v1); try done; by eapply compared_recorded.
  - apply String.eqb_neq in Ev. apply (rf_hash t s0 s1 h (compared_hash t algo) algo v1 v2); try done; first [by eapply compared_recorded|congruence].
Qed.

Lemma decide_justified t s dn s' : decides t s = (dn, s') -> justified t (dn_verdict dn).
Proof.
  unfold decide. destruct (negb _ || _) eqn:Es.
  { intros [= <- _]. apply ev_structure. apply orb_true_iff in Es as [Es|Es]; [left|by right].
    by apply negb_true_iff, String.eqb_neq in Es. }
  apply orb_false_iff in Es as [_ Hd]. pose proof (file_justified t s dn s' Hd) as Hf. unfold asked in Hf.
  destruct (String.eqb TargetProvider "immich"); [|exact Hf]. destruct (String.eqb _ ""); [by intros [= <- _]|exact Hf].
Qed.
End Evidence.

(** ** What a written verdict is in the database *)

(** The status of a task and whether it is verified, and what the two statements of a
    pass do to it: they apply to an unverified COMPLETED task alone, and a refused
    one changes nothing. *)
Class VerdictStore {D} (cfg : pass_config D) := {
  vs_row : D -> string -> option (task_status * bool);
  vs_verified t h now d d' : pc_verified cfg t h now d = (true, d') ->
    vs_row d (vt_id t) = Some (COMPLETED, false) /\ vs_row d' (vt_id t) = Some (COMPLETED, true)
    /\ forall k, k <> vt_id t -> vs_row d' k = vs_row d k;
  vs_mismatch t m h now d d' : pc_mismatch cfg t m h now d = (true, d') ->
    vs_row d (vt_id t) = Some (COMPLETED, false) /\ vs_row d' (vt_id t) = Some (TFAILED, false)
    /\ forall k, k <> vt_id t -> vs_row d' k = vs_row d k;
  vs_refused t v now d d' : write_verdict cfg t v now d = (false, d') -> d' = d;
}.

Definition migration_state (d : migration_db) (k : string) : option (task_status * bool) :=
  (fun r => (mt_status r, mt_verified r)) <$> mtasks d !! k.

(** An update of one unverified task, then of its migration. *)
Lemma migration_written k p f g d d' generation now :
  (forall r, p r = true -> unverified_under generation now d r = true) ->
  match mtasks d !! k with
  | Some t => let '(ok, d1) := update_mtask k p f d in
              if ok then update_migration (mt_migration t) (fun _ => true) g d1 else (false, d)
  | None => (false, d)
  end = (true, d') ->
  exists r, mtasks d !! k = Some r /\ mt_status r = COMPLETED /\ mt_verified r = false /\ mtasks d' = <[k := f r]> (mtasks d).
Proof.
  intros Hp. destruct (mtasks d !! k) as [r|] eqn:Er; [|done]. unfold update_mtask, update_row. rewrite Er.
  destruct (p r) eqn:Ep; [|done]. apply Hp in Ep. unfold unverified_under in Ep. apply andb_prop in Ep as [Ep _].
  apply andb_prop in Ep as [Es Ev]. apply bool_decide_eq_true, list_elem_of_singleton in Es. apply negb_true_iff in Ev.
  unfold update_migration, update_row. cbn. destruct (migrations d !! mt_migration r); [|done]. intros [= <-]. exists r. by split_and!.
Qed.

Lemma migration_refused k f g d d' generation now :
  match mtasks d !! k with
  | Some t => let '(ok, d1) := update_mtask k (unverified_under generation now d) f d in
              if ok then update_migration (mt_migration t) (fun _ => true) g d1 else (false, d)
  | None => (false, d)
  end = (false, d') -> d' = d.
Proof.
  destruct (mtasks d !! k) as [r|] eqn:Er; [|by intros [= <-]]. unfold update_mtask, update_row. rewrite Er.
  destruct (unverified_under generation now d r) eqn:Ep; [|by intros [= <-]].
  unfold unverified_under, has_claim in Ep. apply andb_prop in Ep as [_ Ep].
  unfold update_migration, update_row. cbn. destruct (migrations d !! mt_migration r); done.
Qed.

#[export] Instance migration_verdicts id generation : VerdictStore (migration_config id generation).
Proof.
  refine (Build_VerdictStore _ _ migration_state _ _ _).
  - intros t h now d d' E. cbn in E. unfold MarkMigrationTaskChecksumVerifiedWhileVerifying in E.
    apply (migration_written _ _ _ _ _ _ generation now) in E as (r & Er & Es & Ev & Ed); [|done]. unfold migration_state. rewrite Er, Ed, lookup_insert_eq.
    cbn. rewrite Es, Ev. split; [done|]. split; [done|]. intros k Hk. by rewrite lookup_insert_ne.
  - intros t m h now d d' E. cbn in E. unfold MarkMigrationTaskChecksumMismatchWhileVerifying in E.
    apply (migration_written _ _ _ _ _ _ generation now) in E as (r & Er & Es & Ev & Ed); [|done]. unfold migration_state. rewrite Er, Ed, lookup_insert_eq.
    cbn. rewrite Es, Ev. split; [done|]. split; [done|]. intros k Hk. by rewrite lookup_insert_ne.
  - intros t [|h|m h] now d d' E; cbn in E; [congruence| |]; by eapply migration_refused.
Defined.

Definition sync_state (d : database) (k : string) : option (task_status * bool) :=
  (fun r => (tr_status r, checksum_verified r)) <$> tasks d !! k.

Lemma unverified_row run verification now d t :
  unverified run verification now d t = true ->
  tr_status t = COMPLETED /\ checksum_verified t = false /\ is_Some (sync_jobs d !! tr_sync_job t).
Proof.
  unfold unverified, job_at, has_status. intros H. apply andb_prop in H as [H H4]. apply andb_prop in H as [H _]. apply andb_prop in H as [H1 H2].
  apply bool_decide_eq_true in H1. apply negb_true_iff in H2. split; [done|]. split; [done|].
  destruct (sync_jobs d !! tr_sync_job t); [by eexists|done].
Qed.

#[export] Instance sync_verdicts columns id generation verification : VerdictStore (sync_config columns id generation verification).
Proof.
  refine (Build_VerdictStore _ _ sync_state _ _ _).
  - intros t h now d d' E. cbn in E. unfold MarkSyncTaskChecksumVerifiedWhileVerifying, update_task, update_row in E.
    destruct (tasks d !! vt_id t) as [r|] eqn:Er; [|done]. destruct (unverified _ _ _ d r) eqn:Eu; [|done].
    apply unverified_row in Eu as (E1 & E2 & [j Ej]). cbn in E. rewrite lookup_insert_eq in E. unfold update_job, update_row in E. cbn in E.
    rewrite Ej in E. injection E as <-. unfold sync_state. cbn. rewrite Er, lookup_insert_eq. cbn. rewrite E1, E2.
    split; [done|]. split; [done|]. intros k Hk. by rewrite lookup_insert_ne.
  - intros t m h now d d' E. cbn in E. unfold MarkSyncTaskChecksumMismatchWhileVerifying, update_task, update_row in E. cbn in E.
    destruct (tasks d !! vt_id t) as [r|] eqn:Er; [|done]. destruct (unverified _ _ _ d r) eqn:Eu; [|done].
    apply unverified_row in Eu as (E1 & E2 & _). injection E as <-. unfold sync_state. cbn. rewrite Er, lookup_insert_eq. cbn. rewrite E1, E2.
    split; [done|]. split; [done|]. intros k Hk. by rewrite lookup_insert_ne.
  - intros t [|h|m h] now d d' E; cbn in E; [congruence| |].
    + unfold MarkSyncTaskChecksumVerifiedWhileVerifying, update_task, update_row in E.
      destruct (tasks d !! vt_id t) as [r|] eqn:Er; [|by injection E as <-]. destruct (unverified _ _ _ d r) eqn:Eu; [|by injection E as <-].
      apply unverified_row in Eu as (_ & _ & [j Ej]). cbn in E. rewrite lookup_insert_eq in E. unfold update_job, update_row in E. cbn in E.
      by rewrite Ej in E.
    + unfold MarkSyncTaskChecksumMismatchWhileVerifying, update_task, update_row in E. cbn in E.
      destruct (tasks d !! vt_id t) as [r|]; [|injection E as <-; by destruct d].
      destruct (unverified _ _ _ d r); [done|]. injection E as <-. by destruct d.
Defined.

(** ** Every interleaving of a pass *)

Section Runs.
Context {D T : Type} (cfg : pass_config D) (decide : vtask -> T -> decision * T).

Definition logged (s : pass_state D T) : list vtask := map (fun e => e.1.1) (ps_log s).
Definition waiting (s : pass_state D T) : list vtask := ps_queue s ++ map fst (ps_flight s).

Definition pass_measure (s : pass_state D T) : nat := 2 * length (ps_queue s) + length (ps_flight s) + ps_active s.

Definition confirmed (e : vtask * verdict * bool) : Prop := e.2 = true /\ exists h, e.1.2 = VVerified h.

(** What holds of every state of a pass that began with [l] and [n] workers. *)
Record pass_inv (l : list vtask) (n : nat) (s : pass_state D T) : Prop := {
  pi_tasks : Permutation l (waiting s ++ logged s);
  pi_flight : forall t dn, (t, dn) ∈ ps_flight s -> exists s0 s1, decide t s0 = (dn, s1);
  pi_log : forall t v b, (t, v, b) ∈ ps_log s -> v = VNothing \/ exists s0 s1 dn, decide t s0 = (dn, s1) /\ dn_verdict dn = v;
  pi_unwritten : forall t b, (t, VNothing, b) ∈ ps_log s -> b = false;
  pi_active : ps_cancelled s = false -> Forall confirmed (ps_log s) -> ps_active s = n;
}.

Lemma pass_inv_start cryptographic threads d tg :
  pass_inv (pc_tasks cfg d) (verification_workers cryptographic threads (Z.of_nat (length (pc_tasks cfg d)))) (pass_start cfg cryptographic threads d tg).
Proof.
  split; unfold pass_start, waiting, logged; cbn; [by rewrite !app_nil_r|..]; try done; intros *; by rewrite elem_of_nil.
Qed.

Lemma flight_moved (f : list (vtask * decision)) l1 t dn l2 (log : list vtask) q : f = l1 ++ (t, dn) :: l2 ->
  Permutation ((q ++ map fst f) ++ log) ((q ++ map fst (l1 ++ l2)) ++ log ++ [t]).
Proof. intros ->. rewrite !map_app. cbn. solve_Permutation. Qed.

Lemma pass_inv_step l n s own s' : pass_inv l n s -> pass_step cfg decide s own s' -> pass_inv l n s'.
Proof.
  intros [H1 H2 H3 H4 H5] Hs. destruct Hs as [t q dn tg Eq _ _ Ed|l1 t dn l2 fails now written d Ef Ew|l1 t dn l2 Ef Ec|Hl Ec|now owned d Er| | |d tg];
    unfold waiting, logged in H1; cbn in *.
  - split; unfold waiting, logged; cbn; try done.
    + rewrite H1, Eq. cbn. solve_Permutation.
    + intros t' dn'. rewrite elem_of_cons. intros [[= -> ->]|Hx]; [by exists (ps_target s), tg|by eapply H2].
  - assert ((t, dn) ∈ ps_flight s) as Hin by (rewrite Ef; set_solver).
    assert (forall u dn', (u, dn') ∈ l1 ++ l2 -> (u, dn') ∈ ps_flight s) as Hsub by (intros u dn'; rewrite Ef; set_solver).
    split; unfold waiting, logged; cbn.
    + etrans; [exact H1|]. rewrite (map_app _ (ps_log s)). by eapply flight_moved.
    + intros u dn' Hu. by apply H2, Hsub.
    + intros u v b. rewrite elem_of_app, list_elem_of_singleton. intros [Hu|[= -> -> ->]]; [by eapply H3|].
      right. destruct (H2 t dn Hin) as (s0 & s1 & E). by exists s0, s1, dn.
    + intros u b. rewrite elem_of_app, list_elem_of_singleton. intros [Hu|[= -> Hv ->]]; [by eapply H4|].
      rewrite <- Hv in Ew. destruct (_ && _) in Ew; cbn in Ew; congruence.
    + intros Hc [Hf He]%Forall_app. rewrite Forall_singleton in He. destruct He as [He1 [h Eh]]. cbn in He1, Eh. subst written.
      unfold worker_goes_on. rewrite Eh, orb_true_r. by apply H5.
  - assert (forall u dn', (u, dn') ∈ l1 ++ l2 -> (u, dn') ∈ ps_flight s) as Hsub by (intros u dn'; rewrite Ef; set_solver).
    split; unfold waiting, logged; cbn.
    + etrans; [exact H1|]. rewrite (map_app _ (ps_log s)). by eapply flight_moved.
    + intros u dn' Hu. by apply H2, Hsub.
    + intros u v b. rewrite elem_of_app, list_elem_of_singleton. intros [Hu|[= -> -> ->]]; [by eapply H3|by left].
    + intros u b. rewrite elem_of_app, list_elem_of_singleton. intros [Hu|[= -> ->]]; [by eapply H4|done].
    + by rewrite Ec.
  - split; unfold waiting, logged; cbn; try done. by rewrite Ec.
  - split; unfold waiting, logged; cbn; try done. intros [Hc _]%orb_false_iff. by apply H5.
  - by split.
  - by split.
  - by split.
Qed.

Lemma pass_measure_step s own s' : pass_step cfg decide s own s' -> (pass_measure s' + (if own then 1 else 0) <= pass_measure s)%nat.
Proof.
  unfold pass_measure. intros Hs.
  destruct Hs as [t q dn tg Eq _ _ _|l1 t dn l2 fails now written d Ef _|l1 t dn l2 Ef _|Hl _|now owned d _| | |d tg]; cbn [ps_queue ps_flight ps_active]; try lia.
  - rewrite Eq. cbn [length]. lia.
  - rewrite Ef, !length_app. cbn [length]. destruct (worker_goes_on _ _); lia.
  - rewrite Ef, !length_app. cbn [length]. lia.
Qed.

Lemma pass_run_inv l n0 s n s' : pass_inv l n0 s -> pass_run cfg decide s n s' ->
  pass_inv l n0 s' /\ (n + pass_measure s' <= pass_measure s)%nat.
Proof.
  intros Hi Hr. induction Hr as [|n s1 s2 _ [IH1 IH2] Hs|n s1 s2 _ [IH1 IH2] Hs]; [by split; [|lia]|..];
    (split; [by eapply pass_inv_step|]); apply pass_measure_step in Hs; lia.
Qed.

(** The row a written verdict leaves. *)
Definition verdict_state (v : verdict) : option (task_status * bool) :=
  match v with VNothing => None | VVerified _ => Some (COMPLETED, true) | VMismatch _ _ => Some (TFAILED, false) end.

(** What a step of the pass does to the database: nothing, or it ends one task, and, when
    that is recorded as written, turns its unverified COMPLETED row into the one of its
    verdict, the lease being held and the pass not cancelled. *)
Definition step_writes `{!VerdictStore cfg} (s s' : pass_state D T) : Prop :=
  ps_db s' = ps_db s /\ ps_log s' = ps_log s
  \/ exists t v written, ps_log s' = ps_log s ++ [(t, v, written)]
     /\ if (written : bool)
        then can_write s = true /\ vs_row (ps_db s) (vt_id t) = Some (COMPLETED, false)
             /\ vs_row (ps_db s') (vt_id t) = verdict_state v /\ forall k, k <> vt_id t -> vs_row (ps_db s') k = vs_row (ps_db s) k
        else ps_db s' = ps_db s.

Lemma step_writes_ok `{!VerdictStore cfg} s s' : pass_step cfg decide s true s' -> step_writes s s'.
Proof.
  inversion 1 as [t q dn tg Eq _ _ Ed|l1 t dn l2 fails now written d Ef Ew|l1 t dn l2 Ef Ec|Hl Ec| | | |]; subst; cbn; [by left| | |by left].
  - right. exists t, (dn_verdict dn), written. split; [done|]. cbn.
    destruct (can_write s && negb fails) eqn:Ec; [|by injection Ew as <- <-]. apply andb_prop in Ec as [Ec _].
    destruct written; [|by eapply vs_refused]. split; [done|].
    destruct (dn_verdict dn) as [|h|m h]; cbn in Ew; [done| |].
    + exact (vs_verified t h now _ _ Ew).
    + exact (vs_mismatch t m h now _ _ Ew).
  - right. by exists t, VNothing, false.
Qed.

(** A pass that is not over has a step of its own. *)
Lemma pass_goes_on s : workers_gone s \/ exists s', pass_step cfg decide s true s'.
Proof.
  unfold workers_gone. destruct (ps_flight s) as [|[t dn] f] eqn:Ef.
  - destruct (ps_queue s) as [|t q] eqn:Eq; [left; split; [done|by left]|].
    destruct (ps_active s) as [|a] eqn:Ea; [left; split; [done|by right]|]. right.
    destruct (ps_cancelled s) eqn:Ec.
    + eexists. apply step_leave; [rewrite Ef, Ea; cbn; lia|done].
    + destruct (decide t (ps_target s)) as [dn tg] eqn:Ed. eexists. eapply step_take; [exact Eq|rewrite Ef, Ea; cbn; lia|exact Ec|exact Ed].
  - right. eexists. apply (step_write cfg decide s [] t dn f true 0 false (ps_db s) Ef). by rewrite andb_false_r.
Qed.
End Runs.


(** ** Where a pass stops short *)

(** A checksum mismatch of a migration fails the task for good: no retry time is
    written and the migration stays where it is. *)
Lemma migration_mismatch_not_retried id generation t message h now d r m d' :
  mtasks d !! vt_id t = Some r -> migrations d !! mt_migration r = Some m ->
  pc_mismatch (migration_config id generation) t message h now d = (true, d') ->
  exists r' m', mtasks d' !! vt_id t = Some r' /\ mt_status r' = TFAILED /\ mt_next_retry r' = None
    /\ migrations d' !! mt_migration r = Some m' /\ mg_status m' = mg_status m.
Proof.
  intros Hr Hm. cbn. unfold MarkMigrationTaskChecksumMismatchWhileVerifying. rewrite Hr.
  unfold update_mtask, update_row. rewrite Hr. destruct (unverified_under _ _ _ _); [|done].
  unfold update_migration, update_row. cbn. rewrite Hm. intros [= <-]. cbn.
  rewrite !lookup_insert_eq. by do 2 eexists.
Qed.

Section Short.
Context {D T : Type} (cfg : pass_config D) (decide : vtask -> T -> decision * T).

(** Where sizes decide there is one worker, and a size that cannot be asked ends it:
    nothing is written, and what is queued behind the task waits for a later pass. *)
Lemma size_error_stops_pass threads d tg t q tg' :
  pc_tasks cfg d = t :: q -> decide t tg = (mkDecision VNothing true, tg') ->
  exists s, pass_run cfg decide (pass_start cfg false threads d tg) 2 s
    /\ workers_gone s /\ ps_queue s = q /\ ps_db s = d.
Proof.
  intros Hl Hd. eexists. split.
  - eapply run_own; [eapply run_own; [apply run_start|]|].
    + eapply step_take; unfold pass_start; cbn; [exact Hl|lia|done|exact Hd].
    + apply (step_write _ _ _ [] t (mkDecision VNothing true) [] false 0 false d); [done|by destruct (can_write _ && _)].
  - cbn. split; [split; [done|by right]|done].
Qed.
End Short.

(** ** A pass over one file *)

Definition vx_target : migration_target (gmap string bytes) :=
  mkMTarget _ (mkTarget (fun t p _ _ => Done (None, t)) (fun t p _ _ => Done (None, t))
      (fun t p => (Ok (match t !! p with Some c => (true, zlen c) | None => (false, 0) end), t)))
    (fun _ t => (Ok [], t)) (fun _ t => (Ok tt, t)) (fun _ t => (Ok tt, t)) (fun p t => (Ok tt, delete p t))
    (fun a b t => (Err "not supported", t)) (fun _ t => (Err "not supported", t)) None true false true false (fun _ => "").

#[local] Instance vx_tables : UnicodeTables := {|
  uni_case := ascii_tables; uni_So := fun _ => false; uni_Mn := fun _ => false; uni_Cf := fun _ => false;
|}.
#[local] Instance vx_space : GoSpace := Build_GoSpace (fun s => s).

Definition vx_mig : migration_row :=
  with_verification (fun _ => mkVerification 1 (Some 1000)) (with_status MVERIFYING None
    (new_migration (mkSpec (Some "u") "webdav" "webdav" "/b" SKIP ["/a"] [] [] "") (mkOAuth "secret" None None) (mkOAuth "secret" None None)
       MINDEXING 4 0)).
Definition vx_task : mtask_row :=
  mkMTask "m" "files" "/a" 3 (mkMetadata "" [] None []) 0 (Some "/b/a") COMPLETED 0 None None (Some "SHA1:AA") 1 None (Some "SHA1:AA") false 0.
Definition vx_db : migration_db := mkMigrationDb {["m" := vx_mig]} {["t" := vx_task]} [] ∅ ∅.
Definition vx_files : gmap string bytes := {["/b/a" := [x41; x42; x43]]}.

Abbreviation vx_cfg := (migration_config "m" 1).
Abbreviation vx_decide := (decide (fun _ => None) (fun _ => vx_target) (fun _ => false) (fun _ => false) "webdav" "webdav" "/b").

Definition vx_mid : pass_state migration_db (gmap string bytes) :=
  mkPass [] [(of_mtask "t" vx_task, mkDecision (VVerified "") true)] 1 [] true false vx_db vx_files.

Definition vx_end : pass_state migration_db (gmap string bytes) :=
  mkPass [] [] 1 [(of_mtask "t" vx_task, VVerified "", true)] true false
    (pc_verified vx_cfg (of_mtask "t" vx_task) "" 100 vx_db).2 vx_files.

Lemma vx_written : write_verdict vx_cfg (of_mtask "t" vx_task) (VVerified "") 100 vx_db
  = (true, (pc_verified vx_cfg (of_mtask "t" vx_task) "" 100 vx_db).2).
Proof. vm_compute. reflexivity. Qed.

Lemma vx_run : pass_run vx_cfg vx_decide (pass_start vx_cfg false 4 vx_db vx_files) 2 vx_end.
Proof.
  apply (run_own _ _ _ 1 vx_mid); [apply (run_own _ _ _ 0 (pass_start vx_cfg false 4 vx_db vx_files)); [apply run_start|]|].
  - refine (step_take vx_cfg vx_decide (pass_start vx_cfg false 4 vx_db vx_files) (of_mtask "t" vx_task) [] (mkDecision (VVerified "") true)
      vx_files _ _ _ _); [vm_compute; reflexivity|cbn; lia|done|vm_compute; reflexivity].
  - exact (step_write vx_cfg vx_decide vx_mid [] (of_mtask "t" vx_task) (mkDecision (VVerified "") true) [] false 100 true
      (pc_verified vx_cfg (of_mtask "t" vx_task) "" 100 vx_db).2 eq_refl vx_written).
Qed.


(** A sync task whose checksum is still open is asked for at the target, under a
    sanitized path: of a download this is where the file came from, and an upload of a name
    the sanitizer changes is looked for under another name than it was written to. *)
Lemma sync_verified_elsewhere :
  let download := of_sync_row (fun _ => mkSyncTask "files" "/a" 3 "download" "") "t" in
  let upload := of_sync_row (fun _ => mkSyncTask "files" "/con.txt" 3 "upload" "") "t" in
  forall r, verified_path (fun _ => None) "webdav" "smb" "/b" (download r) = on_target (mkSyncSpec "webdav" "smb" "/b") (mkSyncTask "files" "/a" 3 "download" "")
  /\ verified_path (fun _ => None) "webdav" "smb" "/b" (upload r) = "/b/_con.txt"
  /\ on_target (mkSyncSpec "webdav" "smb" "/b") (mkSyncTask "files" "/con.txt" 3 "upload" "") = "/b/con.txt".
Proof. intros download upload r. split_and!; vm_compute; reflexivity. Qed.
