(* ===== verification/Egress.v ===== *)
(** * Outbound connections

    The policy for connections to hosts a user configures
    (src/backend/internal/storage/ssrf.go): which addresses are refused, the check at
    construction and the dialer that checks again before every connection.  A resolver
    may answer differently every time it is asked; a dial may fail or succeed.  The
    predicates of the net package on addresses are written out; parsing of addresses is
    a parameter. *)

From S2P Require Import Prelude HashString.

(** ** Addresses *)

(** [net.IP]: bytes, four or sixteen of them. *)
Abbreviation IP := (list Z).

Definition byte_at (ip : IP) (n : nat) : Z := default 0 (ip !! n).

(** [ip.To4()], with the addresses ::ffff:a.b.c.d. *)
Definition To4 (ip : IP) : option IP :=
  if (length ip =? 4)%nat then Some ip
  else if (length ip =? 16)%nat && bool_decide (take 10 ip = replicate 10 0) && (byte_at ip 10 =? 255) && (byte_at ip 11 =? 255)
  then Some (drop 12 ip) else None.

Definition is_v4 (ip : IP) : bool := bool_decide (is_Some (To4 ip)).

Definition IPv6loopback : IP := replicate 15 0 ++ [1].

(** [ip.Equal] *)
Definition ip_equal (a b : IP) : bool :=
  if (length a =? length b)%nat then bool_decide (a = b)
  else if (length a =? 4)%nat && (length b =? 16)%nat then bool_decide (To4 b = Some a)
  else if (length a =? 16)%nat && (length b =? 4)%nat then bool_decide (To4 a = Some b)
  else false.

Definition IsLoopback (ip : IP) : bool :=
  match To4 ip with Some v4 => byte_at v4 0 =? 127 | None => ip_equal ip IPv6loopback end.

Definition IsLinkLocalUnicast (ip : IP) : bool :=
  match To4 ip with
  | Some v4 => (byte_at v4 0 =? 169) && (byte_at v4 1 =? 254)
  | None => (length ip =? 16)%nat && (byte_at ip 0 =? 254) && (Z.land (byte_at ip 1) 192 =? 128)
  end.

Definition IsLinkLocalMulticast (ip : IP) : bool :=
  match To4 ip with
  | Some v4 => (byte_at v4 0 =? 224) && (byte_at v4 1 =? 0) && (byte_at v4 2 =? 0)
  | None => (length ip =? 16)%nat && (byte_at ip 0 =? 255) && (Z.land (byte_at ip 1) 15 =? 2)
  end.

Definition IsPrivate (ip : IP) : bool :=
  match To4 ip with
  | Some v4 =>
      (byte_at v4 0 =? 10) || ((byte_at v4 0 =? 172) && (Z.land (byte_at v4 1) 240 =? 16))
      || ((byte_at v4 0 =? 192) && (byte_at v4 1 =? 168))
  | None => (length ip =? 16)%nat && (Z.land (byte_at ip 0) 254 =? 252)
  end.

Definition isBlockedIP (blockPrivateEgress : bool) (ip : IP) : bool :=
  IsLoopback ip || (IsLinkLocalUnicast ip || IsLinkLocalMulticast ip) || (blockPrivateEgress && IsPrivate ip).

(** Stable, IPv4 first. *)
Definition sortIPsIPv4First (ips : list IP) : list IP := List.filter is_v4 ips ++ List.filter (fun ip => negb (is_v4 ip)) ips.

(** ** The checks *)

Inductive network := Tcp | Tcp4 | Tcp6.

Section Egress.
Context `{GoUnicode}.
(** [net.ParseIP], [net.SplitHostPort], the host of [url.Parse] and MIGRATION_BLOCK_PRIVATE. *)
Context (ParseIP : string -> option IP) (SplitHostPort : string -> option (string * string)) (url_host : string -> option string).
Context (blockPrivateEgress : bool).

(** What the resolver answers the n-th time, and whether a dial to an address succeeds. *)
Context (lookup : nat -> string -> res string (list IP)) (dials : nat -> network -> IP -> string -> bool).

Definition parseEgressURL (rawURL : string) : res string string :=
  match url_host rawURL with
  | None => Err "invalid provider URL"
  | Some h => if String.eqb h "" then Err "provider URL has no host" else Ok h
  end.

Definition resolveEgressIPs (n : nat) (host : string) : res string (list IP) :=
  match lookup n host with Ok ips => Ok (sortIPsIPv4First ips) | Err e => Err e end.

Definition checkHostEgress (n : nat) (host : string) : option string :=
  match ParseIP host with
  | Some ip => if isBlockedIP blockPrivateEgress ip then Some "egress is not allowed" else None
  | None =>
      match resolveEgressIPs n host with
      | Err e => Some ("failed to resolve host: " +:+ e)
      | Ok [] => Some "host resolved to no addresses"
      | Ok ips => if existsb (isBlockedIP blockPrivateEgress) ips then Some "egress is not allowed" else None
      end
  end.

Definition validateEgressURL (n : nat) (rawURL : string) : option string :=
  match parseEgressURL rawURL with Err e => Some e | Ok h => checkHostEgress n h end.

Definition validateEgressHost (n : nat) (host : string) : option string :=
  if String.eqb host "" then Some "empty host" else checkHostEgress n host.

(** One connection attempt per address that may be used, in order: the address that
    answered and all that were dialed. *)
Fixpoint dial_first (n : nat) (port : string) (ips : list IP) : option (network * IP) * list (network * IP) :=
  match ips with
  | [] => (None, [])
  | ip :: ips =>
      if isBlockedIP blockPrivateEgress ip then dial_first n port ips
      else
        let dialNetwork := if is_v4 ip then Tcp4 else Tcp6 in
        if dials n dialNetwork ip port then (Some (dialNetwork, ip), [(dialNetwork, ip)])
        else let '(r, l) := dial_first n port ips in (r, (dialNetwork, ip) :: l)
  end.

(** The dialer for a configured host: the outcome and the addresses dialed. *)
Definition egressDialer (configuredHost : string) (n : nat) (addr : string) : res string (network * IP) * list (network * IP) :=
  let configuredIP := ParseIP configuredHost in
  match SplitHostPort addr with
  | None => (Err "egress: invalid dial address", [])
  | Some (host, port) =>
      match ParseIP host with
      | Some ip =>
          match configuredIP with
          | None => (Err "egress: literal dial address forbidden for hostname endpoint", [])
          | Some configured =>
              if negb (ip_equal configured ip) then (Err "egress: literal dial address does not match configured endpoint", [])
              else ((if dials n Tcp configured port then Ok (Tcp, configured) else Err "dial failed"), [(Tcp, configured)])
          end
      | None =>
          if negb (EqualFold host configuredHost) then (Err "egress: dial host does not match configured endpoint", [])
          else match resolveEgressIPs n host with
               | Err e => (Err ("egress: failed to resolve: " +:+ e), [])
               | Ok ips =>
                   let '(r, l) := dial_first n port (sortIPsIPv4First ips) in
                   (match r with Some c => Ok c | None => Err "egress connection failed" end, l)
               end
      end
  end.

(** The client of a user's URL: constructed only after the check; its dialer. *)
Definition NewEgressHTTPClient (n : nat) (rawURL : string) : res string (nat -> string -> res string (network * IP) * list (network * IP)) :=
  match parseEgressURL rawURL with
  | Err e => Err e
  | Ok h => match checkHostEgress n h with Some e => Err e | None => Ok (egressDialer h) end
  end.

(** Whether a redirect is followed. *)
Definition rejectEgressRedirect : bool := false.

(** ** What is dialed *)

Lemma sort_permutation ips : Permutation (sortIPsIPv4First ips) ips.
Proof.
  unfold sortIPsIPv4First. induction ips as [|ip ips IH]; [done|]. cbn. destruct (is_v4 ip); cbn; [by rewrite IH|].
  rewrite <- Permutation_middle. by rewrite IH.
Qed.

Lemma dial_first_spec n port ips r l : dial_first n port ips = (r, l) ->
  (forall k ip, (k, ip) ∈ l -> ip ∈ ips /\ isBlockedIP blockPrivateEgress ip = false /\ k = if is_v4 ip then Tcp4 else Tcp6)
  /\ match r with
     | Some (k, ip) => (k, ip) ∈ l /\ dials n k ip port = true
     | None => forall ip, ip ∈ ips -> isBlockedIP blockPrivateEgress ip = false -> dials n (if is_v4 ip then Tcp4 else Tcp6) ip port = false
     end.
Proof.
  revert r l. induction ips as [|ip ips IH]; intros r l; cbn [dial_first].
  { intros [= <- <-]. split; [by intros k ip ?%elem_of_nil|by intros ip ?%elem_of_nil]. }
  destruct (isBlockedIP _ ip) eqn:Eb.
  { intros E. destruct (IH _ _ E) as [H1 H2]. split; [intros k x Hx; destruct (H1 k x Hx); split; [set_solver|done]|].
    destruct r as [[k x]|]; [done|]. intros x [->|Hx]%elem_of_cons; [congruence|by apply H2]. }
  destruct (dials n _ ip port) eqn:Ed.
  { intros [= <- <-]. split; [|split; [set_solver|done]]. intros k x [= -> ->]%list_elem_of_singleton. split; [set_solver|done]. }
  destruct (dial_first n port ips) as [r1 l1] eqn:E. intros [= <- <-]. destruct (IH _ _ eq_refl) as [H1 H2]. split.
  - intros k x [[= -> ->]|Hx]%elem_of_cons; [split; [set_solver|done]|]. destruct (H1 k x Hx). split; [set_solver|done].
  - destruct r1 as [[k x]|]; [split; [set_solver|by destruct H2]|]. intros x [->|Hx]%elem_of_cons; [done|by apply H2].
Qed.

Lemma sorted_elem ip ips : ip ∈ sortIPsIPv4First (sortIPsIPv4First ips) <-> ip ∈ ips.
Proof. by rewrite !sort_permutation. Qed.

(** What a dial of the client may reach. *)
Definition reachable (configuredHost : string) (n : nat) (ip : IP) : Prop :=
  isBlockedIP blockPrivateEgress ip = false
  /\ (ParseIP configuredHost = Some ip
      \/ exists host ips, EqualFold host configuredHost = true /\ lookup n host = Ok ips /\ ip ∈ ips).

Lemma dialer_reaches m h n addr r l : checkHostEgress m h = None ->
  egressDialer h n addr = (r, l) ->
  (forall k ip, (k, ip) ∈ l -> reachable h n ip) /\ match r with Ok c => c ∈ l | Err _ => True end.
Proof.
  intros Hc. unfold egressDialer. destruct (SplitHostPort addr) as [[host port]|]; [|intros [= <- <-]; split; [by intros k ip ?%elem_of_nil|done]].
  destruct (ParseIP host) as [ip|] eqn:Ep.
  - destruct (ParseIP h) as [configured|] eqn:Eh; [|intros [= <- <-]; split; [by intros k x ?%elem_of_nil|done]].
    destruct (negb _); [intros [= <- <-]; split; [by intros k x ?%elem_of_nil|done]|]. intros [= <- <-].
    unfold checkHostEgress in Hc. rewrite Eh in Hc. destruct (isBlockedIP _ configured) eqn:Eb; [done|]. split.
    + intros k x [= -> ->]%list_elem_of_singleton. split; [done|by left].
    + destruct (dials _ _ _ _); [set_solver|done].
  - destruct (EqualFold host h) eqn:Ef; cbn [negb]; [|intros [= <- <-]; split; [by intros k x ?%elem_of_nil|done]].
    unfold resolveEgressIPs. destruct (lookup n host) as [ips|e] eqn:El; [|intros [= <- <-]; split; [by intros k x ?%elem_of_nil|done]].
    destruct (dial_first _ _ _) as [r1 l1] eqn:E. intros [= <- <-]. destruct (dial_first_spec _ _ _ _ _ E) as [H1 H2]. split.
    + intros k ip Hx. destruct (H1 k ip Hx) as (Hi & Hb & _). split; [done|]. right. exists host, ips. split_and!; [done..|].
      by apply sorted_elem.
    + destruct r1 as [[k ip]|]; [by destruct H2|done].
Qed.

(** A dial of the configured name tries every address that may be used. *)
Lemma dialer_tries h n addr host port ips r l :
  SplitHostPort addr = Some (host, port) -> ParseIP host = None -> EqualFold host h = true -> lookup n host = Ok ips ->
  egressDialer h n addr = (r, l) ->
  forall ip, ip ∈ ips -> isBlockedIP blockPrivateEgress ip = false -> dials n (if is_v4 ip then Tcp4 else Tcp6) ip port = true ->
  exists c, r = Ok c.
Proof.
  intros Es Ep Ef El. unfold egressDialer, resolveEgressIPs. rewrite Es, Ep, Ef, El. cbn [negb].
  destruct (dial_first _ _ _) as [r1 l1] eqn:E. intros [= <- <-] ip Hi Hb Hd. destruct (dial_first_spec _ _ _ _ _ E) as [_ H2].
  destruct r1 as [c|]; [by eexists|]. rewrite (H2 ip) in Hd; [done|by apply sorted_elem|done].
Qed.
End Egress.

(** C5: where the client of a user's URL connects to.  Once a client has been constructed,
    every connection it attempts, however the resolver's answers change in between, goes
    to an address that the policy allows and that is the literal address of the URL or one the
    resolver just gave for its host; a connection it reports is one of these attempts;
    and a dial of the host succeeds when any allowed address of its present answer accepts it. *)
Theorem egress_reaches_allowed `{GoUnicode} ParseIP SplitHostPort url_host blockPrivateEgress lookup dials m rawURL client :
  NewEgressHTTPClient ParseIP SplitHostPort url_host blockPrivateEgress lookup dials m rawURL = Ok client ->
  exists h, parseEgressURL url_host rawURL = Ok h
  /\ forall n addr, let '(r, l) := client n addr in
     (forall k ip, (k, ip) ∈ l -> reachable ParseIP blockPrivateEgress lookup h n ip)
     /\ match r with Ok c => c ∈ l | Err _ => True end
     /\ (forall host port ips ip, SplitHostPort addr = Some (host, port) -> ParseIP host = None -> EqualFold host h = true ->
           lookup n host = Ok ips -> ip ∈ ips -> isBlockedIP blockPrivateEgress ip = false ->
           dials n (if is_v4 ip then Tcp4 else Tcp6) ip port = true -> exists c, r = Ok c).
Proof.
  unfold NewEgressHTTPClient. destruct (parseEgressURL _ rawURL) as [h|e]; [|done].
  destruct (checkHostEgress _ _ _ m h) as [e|] eqn:Ec; [done|]. intros [= <-]. exists h. split; [done|]. intros n addr.
  destruct (egressDialer _ _ _ _ _ h n addr) as [r l] eqn:E.
  pose proof (dialer_reaches _ _ url_host _ _ _ m h n addr r l Ec E) as [H1 H2]. split; [exact H1|]. split; [exact H2|].
  intros host port ips ip Es Ep Ef El Hi Hb Hd. by eapply dialer_tries.
Qed.

(** ** A resolver that changes its mind *)

Definition ex_split (addr : string) : option (string * string) := Some (addr, "443").
Definition ex_lookup (n : nat) (host : string) : res string (list IP) :=
  if (n =? 0)%nat then Ok [[93; 184; 216; 34]] else Ok [[127; 0; 0; 1]; [169; 254; 169; 254]; [93; 184; 216; 34]].

Lemma egress_reaches_allowed_witness :
  let _ := ascii_tables in
  exists client, NewEgressHTTPClient (fun _ => None) ex_split Some false ex_lookup (fun _ _ _ _ => true) 0 "example.org" = Ok client
  /\ client 1%nat "example.org" = (Ok (Tcp4, [93; 184; 216; 34]), [(Tcp4, [93; 184; 216; 34])])
  /\ reachable (fun _ => None) false ex_lookup "example.org" 1 [93; 184; 216; 34].
Proof.
  cbn zeta. eexists. split; [reflexivity|]. split; [vm_compute; reflexivity|].
  destruct (egress_reaches_allowed (H := ascii_tables) (fun _ => None) ex_split Some false ex_lookup (fun _ _ _ _ => true) 0 "example.org" _ eq_refl)
    as (h & Hh & H). injection Hh as <-. specialize (H 1%nat "example.org").
  destruct (egressDialer _ _ _ _ _ _ _ _) as [r l] eqn:E in H. assert (l = [(Tcp4, [93; 184; 216; 34])]) as -> by (vm_compute in E; congruence).
  apply (proj1 H Tcp4). by left.
Defined.

(** The unspecified addresses, which a dial takes for the local host, pass. *)
Lemma unspecified_allowed b : isBlockedIP b [0; 0; 0; 0] = false /\ isBlockedIP b (replicate 16 0) = false.
Proof. by destruct b. Qed.
