(* ===== verification/Envelope.v ===== *)
(** * Encrypted columns

    The envelope of secrets in the database (src/backend/internal/crypto/crypto.go):
    a version, the nonce and the sealed text in hexadecimal, bound to the domain of the
    column, and the reading of the older envelope without version and domain.  AES-GCM and
    SHA-256 are parameters with the laws the code relies on. *)

From S2P Require Import Prelude Digits Bytes Utf8.

(** [[]byte(s)] and [string(l)] *)
Fixpoint string_bytes (s : string) : bytes :=
  match s with
  | EmptyString => []
  | String a s => byte_of (Z.of_nat (nat_of_ascii a)) :: string_bytes s
  end.

Fixpoint bytes_string (l : bytes) : string :=
  match l with
  | [] => EmptyString
  | b :: l => String (ascii_of_nat (Z.to_nat (z_of b))) (bytes_string l)
  end.

Lemma bytes_string_bytes s : bytes_string (string_bytes s) = s.
Proof.
  induction s as [|a s IH]; [done|]. cbn [string_bytes bytes_string]. rewrite IH, z_of_byte_of.
  pose proof (nat_ascii_bounded a) as Hb. rewrite Z.mod_small by lia. by rewrite Nat2Z.id, ascii_nat_embedding.
Qed.

(** ** [hex.DecodeString] *)

Definition hex_value (a : ascii) : option Z :=
  let n := Z.of_nat (nat_of_ascii a) in
  if (48 <=? n) && (n <=? 57) then Some (n - 48)
  else if (97 <=? n) && (n <=? 102) then Some (n - 87)
  else if (65 <=? n) && (n <=? 70) then Some (n - 55) else None.

Fixpoint hex_decode (s : string) : option bytes :=
  match s with
  | EmptyString => Some []
  | String a (String b s) =>
      match hex_value a, hex_value b with
      | Some x, Some y => (fun l => byte_of (16 * x + y) :: l) <$> hex_decode s
      | _, _ => None
      end
  | String _ EmptyString => None
  end.

Lemma hex_value_lower n : 0 <= n < 16 -> hex_value (hex_lower n) = Some n.
Proof.
  intros Hn. pose proof (Forall_seqZ (fun n => hex_value (hex_lower n) = Some n) 0 16) as [Hall _].
  apply Hall; [|done]. vm_compute. repeat constructor.
Qed.

Lemma hex_round_trip l : hex_decode (hex_encode l) = Some l.
Proof.
  induction l as [|b l IH]; [done|]. cbn [hex_encode hex_decode]. pose proof (z_of_range b) as Hb.
  rewrite !hex_value_lower by (Z.to_euclidean_division_equations; lia). rewrite IH. cbn.
  rewrite <- Z.div_mod by lia. by rewrite byte_of_z_of.
Qed.

(** ** The envelope *)

Inductive crypto_error :=
| ErrEmptyDomain | ErrNonce | ErrUnsupportedCiphertextVersion | ErrInvalidCiphertextEncoding | ErrCiphertextTooShort | ErrAuthentication.

Definition DomainProviderPassword : string := "clumoove:provider-password".
Definition DomainOAuthAccessToken : string := "clumoove:oauth-access-token".

Definition ConnectionCredentialDomain (isOAuthProvider : bool) : string :=
  if isOAuthProvider then DomainOAuthAccessToken else DomainProviderPassword.

Definition gcmNonceSize : Z := 12.

(** [Seal] and [Open] of an AES-256-GCM with a key: opening gives back what was sealed with
    the same nonce and data, accepts nothing else, and the tag has sixteen bytes. *)
Class AEAD := {
  gcm_Seal : bytes -> bytes -> bytes -> bytes -> bytes;
  gcm_Open : bytes -> bytes -> bytes -> bytes -> option bytes;
  gcm_open_sealed k n p a : gcm_Open k n (gcm_Seal k n p a) a = Some p;
  gcm_sealed_opened k n c a p : gcm_Open k n c a = Some p -> c = gcm_Seal k n p a;
  gcm_overhead k n p a : zlen (gcm_Seal k n p a) = zlen p + 16;
}.

Section Envelope.
Context `{AEAD} (sha256 : bytes -> bytes).

Definition deriveKey (secret : string) : bytes := sha256 (string_bytes secret).

(** [nonce] is what the random source gave, when it did. *)
Definition EncryptWithDomain (nonce : option bytes) (plainText secretKey domain : string) : res crypto_error string :=
  if String.eqb plainText "" then Ok ""
  else if String.eqb domain "" then Err ErrEmptyDomain
  else match nonce with
       | None => Err ErrNonce
       | Some nonce =>
           Ok ("v1:" +:+ hex_encode (nonce ++ gcm_Seal (deriveKey secretKey) nonce (string_bytes plainText) (string_bytes domain)))%string
       end.

(** Another version: "v" and a digit. *)
Definition other_version (s : string) : bool :=
  match s with
  | String v (String d _) => Ascii.eqb v "v" && (48 <=? Z.of_nat (nat_of_ascii d)) && (Z.of_nat (nat_of_ascii d) <=? 57)
  | _ => false
  end.

Definition DecryptBytesWithDomain (cipherText secretKey domain : string) : res crypto_error bytes :=
  if String.eqb cipherText "" then Ok []
  else if String.eqb domain "" then Err ErrEmptyDomain
  else
    let v1 := has_prefix cipherText "v1:" in
    if negb v1 && other_version cipherText then Err ErrUnsupportedCiphertextVersion
    else
      match hex_decode (if v1 then trim_prefix cipherText "v1:" else cipherText) with
      | None => Err ErrInvalidCiphertextEncoding
      | Some combined =>
          if zlen combined <? gcmNonceSize + 16 then Err ErrCiphertextTooShort
          else match gcm_Open (deriveKey secretKey) (ztake gcmNonceSize combined) (zdrop gcmNonceSize combined)
                       (if v1 then string_bytes domain else []) with
               | None => Err ErrAuthentication
               | Some p => Ok p
               end
      end.

Definition DecryptWithDomain (cipherText secretKey domain : string) : res crypto_error string :=
  match DecryptBytesWithDomain cipherText secretKey domain with Ok p => Ok (bytes_string p) | Err e => Err e end.

(** ** Facts *)

Lemma encrypt_ok nonce p k d c :
  EncryptWithDomain nonce p k d = Ok c ->
  (p = "" /\ c = "") \/ (d <> "" /\ exists n, nonce = Some n
     /\ c = ("v1:" +:+ hex_encode (n ++ gcm_Seal (deriveKey k) n (string_bytes p) (string_bytes d)))%string).
Proof.
  unfold EncryptWithDomain. destruct (String.eqb_spec p "") as [->|Hp]; [intros [= <-]; by left|].
  destruct (String.eqb_spec d "") as [->|Hd]; [done|]. destruct nonce as [n|]; [|done].
  intros [= <-]. right. by eauto.
Qed.

(** Opening a current envelope. *)
Lemma decrypt_v1 h l k d :
  d <> "" -> hex_decode h = Some l -> gcmNonceSize + 16 <= zlen l ->
  DecryptBytesWithDomain ("v1:" +:+ h)%string k d
  = match gcm_Open (deriveKey k) (ztake gcmNonceSize l) (zdrop gcmNonceSize l) (string_bytes d) with
    | None => Err ErrAuthentication | Some p => Ok p end.
Proof.
  intros Hd Hh Hl. unfold DecryptBytesWithDomain. cbv zeta. destruct (String.eqb_spec d "") as [|_]; [done|].
  unfold trim_prefix. rewrite has_prefix_app, str_drop_app, Hh. cbn [negb andb String.eqb String.append].
  destruct (Z.ltb_spec (zlen l) (gcmNonceSize + 16)); [lia|done].
Qed.

Lemma decrypt_encrypted n p k d c :
  zlen n = gcmNonceSize -> EncryptWithDomain (Some n) p k d = Ok c -> DecryptBytesWithDomain c k d = Ok (string_bytes p).
Proof.
  intros Hn He. apply encrypt_ok in He as [[-> ->]|(Hd & n' & [= <-] & ->)]; [done|].
  rewrite (decrypt_v1 _ (n ++ gcm_Seal (deriveKey k) n (string_bytes p) (string_bytes d)) k d Hd (hex_round_trip _)).
  - by rewrite ztake_app, zdrop_app, gcm_open_sealed.
  - rewrite zlen_app, gcm_overhead, Hn. pose proof (zlen_nonneg (string_bytes p)). lia.
Qed.

(** What a stored text that opens is. *)
Definition opens_as (c : string) (p : bytes) (k d : string) : Prop :=
  exists n sealed, zlen n = gcmNonceSize /\
    ((exists h, c = ("v1:" +:+ h)%string /\ hex_decode h = Some (n ++ sealed)
        /\ sealed = gcm_Seal (deriveKey k) n p (string_bytes d))
     \/ (has_prefix c "v1:" = false /\ hex_decode c = Some (n ++ sealed) /\ sealed = gcm_Seal (deriveKey k) n p [])).

Lemma decrypted_opens c p k d : DecryptBytesWithDomain c k d = Ok p -> c = "" /\ p = [] \/ d <> "" /\ opens_as c p k d.
Proof.
  unfold DecryptBytesWithDomain. cbv zeta. destruct (String.eqb_spec c "") as [->|Hc]; [intros [= <-]; by left|].
  destruct (String.eqb_spec d "") as [->|Hd]; [done|]. intros Hp. right. split; [done|].
  destruct (negb (has_prefix c "v1:") && other_version c); [done|].
  destruct (hex_decode _) as [l|] eqn:Hl; [|done].
  destruct (Z.ltb_spec (zlen l) (gcmNonceSize + 16)) as [|Hlen]; [done|].
  destruct (gcm_Open _ _ _ _) as [q|] eqn:Ho; [|done]. injection Hp as ->. apply gcm_sealed_opened in Ho.
  exists (ztake gcmNonceSize l), (zdrop gcmNonceSize l). rewrite ztake_zdrop. split.
  - rewrite zlen_ztake by (unfold gcmNonceSize; lia). unfold gcmNonceSize in *. lia.
  - destruct (has_prefix c "v1:") eqn:Hv; [left|by right].
    apply has_prefix_true in Hv as [h ->]. exists h. split; [done|]. split; [|done].
    unfold trim_prefix in Hl. by rewrite has_prefix_app, str_drop_app in Hl.
Qed.

(** C6: an encrypted column reads back as it was written, and only what was sealed for it
    is accepted.  Whatever the nonce of twelve bytes, a text encrypts unless it is not empty
    and the domain is, and decrypting the result with the same key and domain gives the text
    back.  A stored text that decrypts to [p] is either empty, with [p] empty too, or the
    current envelope of [p] sealed with this key for this very domain, or an envelope
    without version of [p], sealed with this key and no domain; a text of another version
    is refused. *)
Theorem envelope_round_trip nonce plainText secretKey domain c :
  zlen nonce = gcmNonceSize ->
  (plainText = "" \/ domain <> "" -> exists e,
     EncryptWithDomain (Some nonce) plainText secretKey domain = Ok e /\ DecryptWithDomain e secretKey domain = Ok plainText)
  /\ (forall p, DecryptBytesWithDomain c secretKey domain = Ok p ->
        c = "" /\ p = [] \/ domain <> "" /\ opens_as c p secretKey domain)
  /\ (domain <> "" -> has_prefix c "v1:" = false -> other_version c = true ->
        DecryptBytesWithDomain c secretKey domain = Err ErrUnsupportedCiphertextVersion).
Proof.
  intros Hn. split; [|split]; [|intros p; apply decrypted_opens|].
  - intros Hd. assert (exists e, EncryptWithDomain (Some nonce) plainText secretKey domain = Ok e) as [e He].
    { unfold EncryptWithDomain. destruct (String.eqb_spec plainText ""); [by eauto|].
      destruct (String.eqb_spec domain ""); [by destruct Hd|by eauto]. }
    exists e. split; [done|]. unfold DecryptWithDomain.
    by rewrite (decrypt_encrypted _ _ _ _ _ Hn He), bytes_string_bytes.
  - intros Hd Hv Ho. unfold DecryptBytesWithDomain. cbv zeta. rewrite Hv, Ho.
    destruct (String.eqb_spec c "") as [->|]; [done|]. by destruct (String.eqb_spec domain "").
Qed.
End Envelope.

(** ** An instance *)

Module EnvelopeExample.

(** A cipher with the laws: the text is followed by a tag of sixteen bytes (here zeroes). *)
Definition tag : bytes := repeat (byte_of 0) 16.
Definition toy_seal (k n p a : bytes) : bytes := p ++ tag.
Definition toy_open (k n c a : bytes) : option bytes :=
  let p := ztake (zlen c - 16) c in if decide (c = p ++ tag) then Some p else None.

Lemma toy_open_sealed k n p a : toy_open k n (toy_seal k n p a) a = Some p.
Proof.
  unfold toy_open, toy_seal. cbv zeta.
  rewrite ztake_app by (rewrite zlen_app; change (zlen tag) with 16; lia). by rewrite decide_True.
Qed.

Lemma toy_sealed_opened k n c a p : toy_open k n c a = Some p -> c = toy_seal k n p a.
Proof. unfold toy_open, toy_seal. cbv zeta. case_decide as Hd; [|done]. by intros [= <-]. Qed.

Lemma toy_overhead k n p a : zlen (toy_seal k n p a) = zlen p + 16.
Proof. unfold toy_seal. by rewrite zlen_app. Qed.

#[local] Instance toy : AEAD :=
  {| gcm_open_sealed := toy_open_sealed; gcm_sealed_opened := toy_sealed_opened; gcm_overhead := toy_overhead |}.

Definition nonce : bytes := repeat (byte_of 171) 12.

Lemma envelope_round_trip_witness :
  zlen nonce = gcmNonceSize
  /\ exists e, EncryptWithDomain id (Some nonce) "token" "key" DomainOAuthAccessToken = Ok e
       /\ DecryptWithDomain id e "key" DomainOAuthAccessToken = Ok "token"%string.
Proof.
  split; [reflexivity|].
  apply (proj1 (envelope_round_trip id nonce "token" "key" DomainOAuthAccessToken "" eq_refl)). right. done.
Defined.

End EnvelopeExample.
