(* ===== verification/ProviderPool.v ===== *)
(** * Provider pool

    The connections a worker keeps between tasks
    (src/backend/internal/processor/provider_pool.go).  [get] works in two sections under
    the mutex with the connecting between them, so other operations interleave there: a
    [get] is three steps of its goroutine, and every other operation is one.  Clients are
    numbered in the order they are created; what the factory and [Connect] do is an outcome
    given with the step. *)

From S2P Require Import Prelude Bytes Envelope.

(** ** Keys and specifications *)

Record providerPoolKey := mkPoolKey { pk_entityType : string; pk_entityID : string; pk_generation : Z }.

#[export] Instance poolkey_eq : EqDecision providerPoolKey.
Proof. solve_decision. Defined.

#[export] Program Instance poolkey_countable : Countable providerPoolKey :=
  inj_countable' (fun k => (pk_entityType k, pk_entityID k, pk_generation k)) (fun '(t, i, g) => mkPoolKey t i g) _.
Next Obligation. by intros []. Qed.

Definition migrationProviderPoolKey (migrationID : string) : providerPoolKey := mkPoolKey "migration" migrationID 0.
Definition syncProviderPoolKey (syncJobID : string) (generation : Z) : providerPoolKey :=
  mkPoolKey "sync" syncJobID generation.

Record providerPoolSpec := mkPoolSpec {
  ps_providerType : string; ps_url : string; ps_username : string; ps_password : string;
  ps_passwordEncrypted : string; ps_megaSessionIDEncrypted : string; ps_megaMasterKeyEncrypted : string;
  ps_threads : Z;
}.

(** What [fingerprint] writes into the hash: each value and a zero byte. *)
Definition fingerprint_values (s : providerPoolSpec) : list string :=
  [ps_providerType s; ps_url s; ps_username s; ps_passwordEncrypted s; ps_megaSessionIDEncrypted s;
   ps_megaMasterKeyEncrypted s].

Fixpoint fingerprint_bytes (l : list string) : bytes :=
  match l with
  | [] => []
  | v :: l => string_bytes v ++ byte_of 0 :: fingerprint_bytes l
  end.

Definition fingerprint (sha256 : bytes -> bytes) (s : providerPoolSpec) : string :=
  hex_encode (sha256 (fingerprint_bytes (fingerprint_values s))).

(** ** The pool *)

Record providerPoolEntry := mkPoolEntry { pe_client : nat; pe_fingerprint : string }.

Abbreviation pool_entries := (gmap providerPoolKey (gmap string providerPoolEntry)).

Record providerPool := mkPool {
  pp_entries : pool_entries;
  pp_entityEpochs : gmap providerPoolKey Z;
  pp_syncJobEpochs : gmap string Z;
  pp_closed : bool;
}.

Definition newProviderPool : providerPool := mkPool ∅ ∅ ∅ false.

(** A [get] that is connecting: its arguments, the epochs it read, its client once there is one. *)
Record flight := mkFlight {
  fl_key : providerPoolKey; fl_role : string; fl_spec : providerPoolSpec;
  fl_entityEpoch : Z; fl_syncJobEpoch : Z; fl_client : option nat;
}.

(** The pool, the goroutines inside [get], the clients created so far and whether each is a
    Nextcloud client with its [Threads], and the calls of [Close] on clients, in order. *)
Record pool_world := mkPoolWorld {
  pw_pool : providerPool;
  pw_flights : gmap nat flight;
  pw_next : nat;
  pw_threads : gmap nat Z;
  pw_closes : list nat;
}.

Definition new_world : pool_world := mkPoolWorld newProviderPool ∅ 0 ∅ [].

Inductive pool_error := errProviderPoolClosed | errProviderPoolInvalidated | errFactory | errRejected.
Inductive pool_outcome := Returned (client : nat) | Refused (e : pool_error).

(** What [p.factory] and [client.Connect] did: no client, or a client (with the threads it
    was made with when it is a [NextcloudProvider]) that connected or not. *)
Inductive connecting := NoClient | Client (nextcloud : option Z) (connected : bool).

Inductive pool_event :=
| BeginGet (t : nat) (key : providerPoolKey) (role : string) (spec : providerPoolSpec)
| ConnectClient (t : nat) (c : connecting)
| FinishGet (t : nat)
| Invalidate (key : providerPoolKey)
| InvalidateSyncJob (syncJobID : string)
| CloseEntity (key : providerPoolKey)
| ClosePool.

Definition uint64_incr (n : Z) : Z := (n + 1) mod 2 ^ 64.

Definition epoch `{Countable K} (m : gmap K Z) (k : K) : Z := default 0 (m !! k).
Definition bump `{Countable K} (k : K) (m : gmap K Z) : gmap K Z := <[k := uint64_incr (epoch m k)]> m.

(** [configurePooledProvider] *)
Definition configurePooledProvider (client : nat) (spec : providerPoolSpec) (threads : gmap nat Z) : gmap nat Z :=
  match threads !! client with
  | Some _ => <[client := ps_threads spec]> threads
  | None => threads
  end.

Definition role_clients (roles : gmap string providerPoolEntry) : list nat :=
  (fun re => pe_client re.2) <$> map_to_list roles.

(** [closeEntityLocked]: the entries left and the clients closed, in one order of the two
    loops over the maps (Go's order is arbitrary). *)
Definition closeEntityLocked (key : providerPoolKey) (e : pool_entries) : pool_entries * list nat :=
  (delete key e, role_clients (default ∅ (e !! key))).

(** [for key := range p.entries { ... p.closeEntityLocked(key) }] over the keys [f] selects,
    bumping their epochs when [bumped] is set. *)
Fixpoint close_keys (bumped : bool) (keys : list providerPoolKey) (p : providerPool) (closes : list nat)
  : providerPool * list nat :=
  match keys with
  | [] => (p, closes)
  | key :: keys =>
      let '(e, l) := closeEntityLocked key (pp_entries p) in
      close_keys bumped keys
        (mkPool e (if bumped then bump key (pp_entityEpochs p) else pp_entityEpochs p) (pp_syncJobEpochs p) (pp_closed p))
        (closes ++ l)
  end.

Definition pool_keys (p : providerPool) : list providerPoolKey := (map_to_list (pp_entries p)).*1.

Definition set_pool (p : providerPool) (closes : list nat) (w : pool_world) : pool_world :=
  mkPoolWorld p (pw_flights w) (pw_next w) (pw_threads w) closes.

(** *** [get] *)

(** The first section under the mutex. *)
Definition get_begin (sha256 : bytes -> bytes) (t : nat) (key : providerPoolKey) (role : string) (spec : providerPoolSpec)
    (w : pool_world) : pool_world * option pool_outcome :=
  let p := pw_pool w in
  if pp_closed p then (w, Some (Refused errProviderPoolClosed))
  else
    let connect :=
      (mkPoolWorld p
         (<[t := mkFlight key role spec (epoch (pp_entityEpochs p) key)
                   (if String.eqb (pk_entityType key) "sync" then epoch (pp_syncJobEpochs p) (pk_entityID key) else 0) None]>
            (pw_flights w)) (pw_next w) (pw_threads w) (pw_closes w), None) in
    match pp_entries p !! key ≫= lookup role with
    | Some entry =>
        if String.eqb (pe_fingerprint entry) (fingerprint sha256 spec)
        then (mkPoolWorld p (pw_flights w) (pw_next w) (configurePooledProvider (pe_client entry) spec (pw_threads w))
                (pw_closes w), Some (Returned (pe_client entry)))
        else connect
    | None => connect
    end.

(** The factory, [configurePooledProvider] and [Connect], outside the mutex. *)
Definition get_connect (t : nat) (f : flight) (c : connecting) (w : pool_world) : pool_world * option pool_outcome :=
  match c with
  | NoClient =>
      (mkPoolWorld (pw_pool w) (delete t (pw_flights w)) (pw_next w) (pw_threads w) (pw_closes w), Some (Refused errFactory))
  | Client nextcloud connected =>
      let client := pw_next w in
      let made := match nextcloud with Some n => <[client := n]> (pw_threads w) | None => pw_threads w end in
      let threads := configurePooledProvider client (fl_spec f) made in
      if connected
      then (mkPoolWorld (pw_pool w)
              (<[t := mkFlight (fl_key f) (fl_role f) (fl_spec f) (fl_entityEpoch f) (fl_syncJobEpoch f) (Some client)]>
                 (pw_flights w)) (S client) threads (pw_closes w), None)
      else (mkPoolWorld (pw_pool w) (delete t (pw_flights w)) (S client) threads (pw_closes w ++ [client]),
            Some (Refused errRejected))
  end.

(** The epochs a connecting [get] read are still the current ones. *)
Definition epochs_current (f : flight) (p : providerPool) : bool :=
  (epoch (pp_entityEpochs p) (fl_key f) =? fl_entityEpoch f)
  && (negb (String.eqb (pk_entityType (fl_key f)) "sync")
      || (epoch (pp_syncJobEpochs p) (pk_entityID (fl_key f)) =? fl_syncJobEpoch f)).

(** The second section under the mutex. *)
Definition get_finish (sha256 : bytes -> bytes) (t : nat) (f : flight) (client : nat) (w : pool_world)
  : pool_world * option pool_outcome :=
  let p := pw_pool w in
  let left := delete t (pw_flights w) in
  let refuse e :=
    (mkPoolWorld p left (pw_next w) (pw_threads w) (pw_closes w ++ [client]), Some (Refused e)) in
  if pp_closed p then refuse errProviderPoolClosed
  else if negb (epochs_current f p) then refuse errProviderPoolInvalidated
  else
    let roles := default ∅ (pp_entries p !! fl_key f) in
    let closes := match roles !! fl_role f with Some previous => [pe_client previous] | None => [] end in
    let entry := mkPoolEntry client (fingerprint sha256 (fl_spec f)) in
    (mkPoolWorld
       (mkPool (<[fl_key f := <[fl_role f := entry]> roles]> (pp_entries p)) (pp_entityEpochs p) (pp_syncJobEpochs p) false)
       left (pw_next w) (pw_threads w) (pw_closes w ++ closes), Some (Returned client)).

(** *** Invalidation and closing *)

Definition invalidate (key : providerPoolKey) (w : pool_world) : pool_world :=
  let '(p, closes) := close_keys true [key] (pw_pool w) (pw_closes w) in set_pool p closes w.

Definition of_sync_job (syncJobID : string) (key : providerPoolKey) : bool :=
  String.eqb (pk_entityType key) "sync" && String.eqb (pk_entityID key) syncJobID.

Definition invalidateSyncJob (syncJobID : string) (w : pool_world) : pool_world :=
  let p := pw_pool w in
  let p := mkPool (pp_entries p) (pp_entityEpochs p) (bump syncJobID (pp_syncJobEpochs p)) (pp_closed p) in
  let '(p, closes) := close_keys true (filter (of_sync_job syncJobID) (pool_keys p)) p (pw_closes w) in
  set_pool p closes w.

Definition closeEntity (key : providerPoolKey) (w : pool_world) : pool_world := invalidate key w.

Definition Close (w : pool_world) : pool_world :=
  let p := pw_pool w in
  if pp_closed p then w
  else
    let '(p, closes) :=
      close_keys false (pool_keys p) (mkPool (pp_entries p) (pp_entityEpochs p) (pp_syncJobEpochs p) true) (pw_closes w) in
    set_pool p closes w.

(** [prune]: the keys are read in one section, each terminal one closed in another. *)
Definition prune_events (terminal : providerPoolKey -> bool) (w : pool_world) : list pool_event :=
  CloseEntity <$> filter terminal (pool_keys (pw_pool w)).

(** ** Steps and runs *)

(** A goroutine is in one [get] at a time; a step it cannot make does nothing. *)
Definition pool_step (sha256 : bytes -> bytes) (e : pool_event) (w : pool_world) : pool_world * option pool_outcome :=
  match e with
  | BeginGet t key role spec =>
      match pw_flights w !! t with Some _ => (w, None) | None => get_begin sha256 t key role spec w end
  | ConnectClient t c =>
      match pw_flights w !! t with
      | Some f => match fl_client f with None => get_connect t f c w | Some _ => (w, None) end
      | None => (w, None)
      end
  | FinishGet t =>
      match pw_flights w !! t with
      | Some f => match fl_client f with Some client => get_finish sha256 t f client w | None => (w, None) end
      | None => (w, None)
      end
  | Invalidate key => (invalidate key w, None)
  | InvalidateSyncJob syncJobID => (invalidateSyncJob syncJobID w, None)
  | CloseEntity key => (closeEntity key w, None)
  | ClosePool => (Close w, None)
  end.

Fixpoint pool_run (sha256 : bytes -> bytes) (l : list pool_event) (w : pool_world) : pool_world :=
  match l with
  | [] => w
  | e :: l => pool_run sha256 l (pool_step sha256 e w).1
  end.

(** ** Where the clients are *)

Definition pooled (e : pool_entries) : list nat := map_to_list e ≫= (fun kr => role_clients kr.2).
Definition in_flight (m : gmap nat flight) : list nat := map_to_list m ≫= (fun tf => option_list (fl_client tf.2)).

(** The sum of a list over a map, one key taken out. *)
Lemma map_bind_delete `{Countable K} {A B} (f : A -> list B) (m : gmap K A) k :
  (map_to_list m ≫= (fun ka => f ka.2))
  ≡ₚ match m !! k with Some a => f a | None => [] end ++ (map_to_list (delete k m) ≫= (fun ka => f ka.2)).
Proof.
  destruct (m !! k) as [a|] eqn:Hk; [|by rewrite delete_id].
  by rewrite <- (map_to_list_delete m k a Hk).
Qed.

Lemma map_bind_insert `{Countable K} {A B} (f : A -> list B) (m : gmap K A) k a :
  (map_to_list (<[k := a]> m) ≫= (fun ka => f ka.2)) ≡ₚ f a ++ (map_to_list (delete k m) ≫= (fun ka => f ka.2)).
Proof. by rewrite (map_bind_delete f _ k), lookup_insert_eq, delete_insert_eq. Qed.

Lemma role_clients_bind r : role_clients r = map_to_list r ≫= (fun re => [pe_client re.2]).
Proof. unfold role_clients. induction (map_to_list r) as [|x l IH]; [done|]. cbn. by rewrite IH. Qed.

Lemma pooled_delete e k : pooled e ≡ₚ role_clients (default ∅ (e !! k)) ++ pooled (delete k e).
Proof. unfold pooled. rewrite (map_bind_delete role_clients e k). by destruct (e !! k). Qed.

Lemma pooled_insert e k r : pooled (<[k := r]> e) ≡ₚ role_clients r ++ pooled (delete k e).
Proof. apply map_bind_insert. Qed.

(** The client of a role replaced. *)
Lemma role_clients_insert r ro en :
  match r !! ro with Some previous => [pe_client previous] | None => [] end ++ role_clients (<[ro := en]> r)
  ≡ₚ pe_client en :: role_clients r.
Proof.
  rewrite !role_clients_bind, (map_bind_insert (fun en => [pe_client en])), (map_bind_delete (fun en => [pe_client en]) r ro).
  destruct (r !! ro); cbn; [by apply perm_swap|done].
Qed.

Lemma in_flight_delete m t f : m !! t = Some f -> in_flight m ≡ₚ option_list (fl_client f) ++ in_flight (delete t m).
Proof. intros Ht. unfold in_flight. by rewrite (map_bind_delete (fun f => option_list (fl_client f)) m t), Ht. Qed.

Lemma in_flight_insert m t f g :
  m !! t = Some g -> fl_client g = None -> in_flight (<[t := f]> m) ≡ₚ option_list (fl_client f) ++ in_flight m.
Proof.
  intros Ht Hg. rewrite (in_flight_delete m t g Ht), Hg. unfold in_flight.
  by rewrite (map_bind_insert (fun f => option_list (fl_client f))).
Qed.

Lemma in_flight_begin m t f : m !! t = None -> fl_client f = None -> in_flight (<[t := f]> m) ≡ₚ in_flight m.
Proof.
  intros Ht Hf. unfold in_flight. rewrite (map_bind_insert (fun f => option_list (fl_client f))), Hf. by rewrite delete_id.
Qed.

(** What closing keys leaves. *)
Lemma close_keys_spec bumped keys p closes :
  let r := close_keys bumped keys p closes in
  r.2 ++ pooled (pp_entries r.1) ≡ₚ closes ++ pooled (pp_entries p)
  /\ pp_closed r.1 = pp_closed p /\ pp_syncJobEpochs r.1 = pp_syncJobEpochs p
  /\ forall k, pp_entries r.1 !! k = if decide (k ∈ keys) then None else pp_entries p !! k.
Proof.
  cbv zeta. revert p closes. induction keys as [|key keys IH]; intros p closes.
  { by repeat split. }
  cbn [close_keys closeEntityLocked]. edestruct IH as (H1 & H2 & H3 & H4). rewrite H1, H2, H3. cbn [pp_entries pp_closed pp_syncJobEpochs].
  split; [|split; [done|split; [done|]]].
  - by rewrite (pooled_delete (pp_entries p) key), <- (assoc_L (++)).
  - intros k. rewrite H4. cbn [pp_entries]. destruct (decide (k = key)) as [->|Hk].
    + rewrite lookup_delete_eq, (decide_True (P := key ∈ key :: keys)) by (left). by destruct (decide (key ∈ keys)).
    + rewrite lookup_delete_ne by done.
      destruct (decide (k ∈ keys)); [rewrite decide_True by by right|rewrite decide_False by (rewrite elem_of_cons; tauto)]; done.
Qed.

Lemma elem_of_pool_keys p k : k ∈ pool_keys p <-> is_Some (pp_entries p !! k).
Proof.
  unfold pool_keys. rewrite list_elem_of_fmap. split.
  - intros ([k' r] & -> & Hin). apply elem_of_map_to_list in Hin. by eexists.
  - intros [r Hr]. exists (k, r). split; [done|]. by apply elem_of_map_to_list.
Qed.

Definition accounted (w : pool_world) : Prop :=
  pw_closes w ++ in_flight (pw_flights w) ++ pooled (pp_entries (pw_pool w)) ≡ₚ seq 0 (pw_next w).

Record pool_ok (w : pool_world) : Prop := {
  ok_accounted : accounted w;
  ok_closed : pp_closed (pw_pool w) = true -> pp_entries (pw_pool w) = ∅;
}.

Lemma new_world_ok : pool_ok new_world.
Proof. split; [|done]. unfold accounted. vm_compute. constructor. Qed.

(** An operation that moves clients from the pool to the closed ones. *)
Lemma moved_ok w p closes :
  pool_ok w ->
  closes ++ pooled (pp_entries p) ≡ₚ pw_closes w ++ pooled (pp_entries (pw_pool w)) ->
  (pp_closed p = true -> pp_entries p = ∅) ->
  pool_ok (set_pool p closes w).
Proof.
  intros [Ha Hc] Hp Hcl. split; [|done]. unfold accounted in *. cbn. rewrite <- Ha.
  rewrite (Permutation_app_comm (in_flight _) (pooled (pp_entries p))), (assoc_L (++)), Hp, <- (assoc_L (++)).
  by rewrite (Permutation_app_comm (pooled _)).
Qed.

Lemma close_all bumped p closes :
  pp_entries (close_keys bumped (pool_keys p) p closes).1 = ∅.
Proof.
  apply map_eq. intros k. destruct (close_keys_spec bumped (pool_keys p) p closes) as (_ & _ & _ & Hk).
  rewrite Hk, lookup_empty. case_decide as Hin; [done|]. rewrite elem_of_pool_keys in Hin. by apply eq_None_not_Some.
Qed.

Lemma close_none bumped keys p closes :
  pp_entries p = ∅ -> pp_entries (close_keys bumped keys p closes).1 = ∅.
Proof.
  intros He. apply map_eq. intros k. destruct (close_keys_spec bumped keys p closes) as (_ & _ & _ & Hk).
  rewrite Hk, He, lookup_empty. by case_decide.
Qed.

Lemma closing_ok bumped keys p w :
  pool_ok w -> pp_entries p = pp_entries (pw_pool w) -> pp_closed p = pp_closed (pw_pool w) ->
  let r := close_keys bumped keys p (pw_closes w) in pool_ok (set_pool r.1 r.2 w).
Proof.
  intros Hw He Hc r. destruct (close_keys_spec bumped keys p (pw_closes w)) as (Hp & Hcl & _ & _). subst r.
  apply moved_ok; [done|by rewrite Hp, He|]. rewrite Hcl, Hc. intros Ht. apply close_none. rewrite He. by apply (ok_closed _ Hw).
Qed.

Lemma invalidate_ok key w : pool_ok w -> pool_ok (invalidate key w).
Proof. intros Hw. apply (closing_ok true [key] (pw_pool w) w Hw eq_refl eq_refl). Qed.

Lemma invalidateSyncJob_ok job w : pool_ok w -> pool_ok (invalidateSyncJob job w).
Proof.
  intros Hw. unfold invalidateSyncJob. cbv zeta. rewrite (surjective_pairing (close_keys _ _ _ _)).
  by apply closing_ok.
Qed.

Lemma Close_ok w : pool_ok w -> pool_ok (Close w).
Proof.
  intros Hw. unfold Close. cbv zeta. destruct (pp_closed (pw_pool w)); [done|]. rewrite (surjective_pairing (close_keys _ _ _ _)).
  set (p := mkPool _ _ _ true).
  destruct (close_keys_spec false (pool_keys (pw_pool w)) p (pw_closes w)) as (Hp & _ & _ & _).
  apply moved_ok; [done|exact Hp|]. intros _. exact (close_all false p (pw_closes w)).
Qed.

Section Pool.
Context (sha256 : bytes -> bytes).

Lemma get_begin_ok t key role spec w :
  pool_ok w -> pw_flights w !! t = None -> pool_ok (get_begin sha256 t key role spec w).1.
Proof.
  intros Hw Ht. unfold get_begin. cbv zeta. destruct (pp_closed (pw_pool w)) eqn:Hcl; [exact Hw|].
  destruct (pp_entries (pw_pool w) !! key ≫= lookup role) as [entry|].
  1: destruct (String.eqb _ _); [split; apply Hw|].
  all: split; [|apply Hw]; unfold accounted; cbn; rewrite in_flight_begin by done; apply Hw.
Qed.

Lemma get_connect_ok t f c w :
  pool_ok w -> pw_flights w !! t = Some f -> fl_client f = None -> pool_ok (get_connect t f c w).1.
Proof.
  intros [Ha Hc] Ht Hf. unfold accounted in Ha. rewrite (in_flight_delete _ t f Ht), Hf in Ha.
  destruct c as [|nextcloud []]; (split; [|exact Hc]); unfold accounted; cbn [get_connect fst pw_closes pw_flights pw_pool pw_next].
  - exact Ha.
  - rewrite (in_flight_insert _ t _ f Ht Hf), seq_S, <- Ha, (in_flight_delete _ t f Ht), Hf. cbn. solve_Permutation.
  - rewrite seq_S, <- Ha. solve_Permutation.
Qed.

Lemma get_finish_ok t f client w :
  pool_ok w -> pw_flights w !! t = Some f -> fl_client f = Some client -> pool_ok (get_finish sha256 t f client w).1.
Proof.
  intros [Ha Hc] Ht Hf. unfold accounted in Ha. rewrite (in_flight_delete _ t f Ht), Hf in Ha. cbn in Ha.
  assert (forall e, pool_ok (mkPoolWorld (pw_pool w) (delete t (pw_flights w)) (pw_next w) (pw_threads w) (pw_closes w ++ [client]),
    Some (Refused e)).1) as Hrefuse.
  { intros e. split; [|exact Hc]. unfold accounted. cbn. rewrite <- Ha. solve_Permutation. }
  unfold get_finish. cbv zeta. destruct (pp_closed (pw_pool w)) eqn:Hcl; [apply Hrefuse|].
  destruct (negb (epochs_current f (pw_pool w))); [apply Hrefuse|].
  split; [|done]. unfold accounted. cbn [fst pw_closes pw_flights pw_pool pw_next pp_entries].
  rewrite <- Ha, pooled_insert, (pooled_delete (pp_entries (pw_pool w)) (fl_key f)).
  set (roles := default ∅ _). set (en := mkPoolEntry _ _).
  pose proof (role_clients_insert roles (fl_role f) en) as Hr. change (pe_client en) with client in Hr.
  set (pr := match roles !! fl_role f with Some previous => [pe_client previous] | None => [] end) in *.
  transitivity (pw_closes w ++ in_flight (delete t (pw_flights w))
    ++ (pr ++ role_clients (<[fl_role f := en]> roles)) ++ pooled (delete (fl_key f) (pp_entries (pw_pool w)))).
  - solve_Permutation.
  - rewrite Hr. solve_Permutation.
Qed.

Lemma pool_step_ok e w : pool_ok w -> pool_ok (pool_step sha256 e w).1.
Proof.
  intros Hw. destruct e as [t key role spec|t c|t|key|job|key|]; cbn [pool_step].
  - destruct (pw_flights w !! t) eqn:Ht; [done|by apply get_begin_ok].
  - destruct (pw_flights w !! t) as [f|] eqn:Ht; [|done]. destruct (fl_client f) eqn:Hf; [done|by apply get_connect_ok].
  - destruct (pw_flights w !! t) as [f|] eqn:Ht; [|done]. destruct (fl_client f) eqn:Hf; [by apply get_finish_ok|done].
  - by apply invalidate_ok.
  - by apply invalidateSyncJob_ok.
  - by apply invalidate_ok.
  - by apply Close_ok.
Qed.

Lemma pool_run_ok l w : pool_ok w -> pool_ok (pool_run sha256 l w).
Proof. revert w. induction l as [|e l IH]; intros w Hw; [done|]. cbn [pool_run]. by apply IH, pool_step_ok. Qed.

(** *** What [get] returns *)

(** The slot a [get] fills or reads. *)
Definition registered (w : pool_world) (key : providerPoolKey) (role : string) : option providerPoolEntry :=
  pp_entries (pw_pool w) !! key ≫= lookup role.

(** What the goroutine of a step asked for. *)
Definition asked (e : pool_event) (w : pool_world) : option (providerPoolKey * string * providerPoolSpec) :=
  match e with
  | BeginGet _ key role spec => Some (key, role, spec)
  | FinishGet t => (fun f => (fl_key f, fl_role f, fl_spec f)) <$> pw_flights w !! t
  | _ => None
  end.

Lemma elem_of_pooled e key role en : e !! key ≫= lookup role = Some en -> pe_client en ∈ pooled e.
Proof.
  intros Hr. destruct (e !! key) as [roles|] eqn:Hk; [|done]. cbn in Hr. unfold pooled. apply list_elem_of_bind.
  exists (key, roles). split; [|by apply elem_of_map_to_list]. cbn. unfold role_clients. apply list_elem_of_fmap.
  exists (role, en). split; [done|by apply elem_of_map_to_list].
Qed.

(** A client in the pool is open. *)
Lemma registered_open w key role en :
  pool_ok w -> registered w key role = Some en -> pe_client en ∉ pw_closes w.
Proof.
  intros [Ha _] Hr Hin. apply elem_of_pooled in Hr. pose proof (NoDup_seq 0 (pw_next w)) as Hd.
  unfold accounted in Ha. rewrite <- Ha, NoDup_app in Hd. destruct Hd as (_ & Hd & _).
  apply (Hd _ Hin). apply elem_of_app. by right.
Qed.

Lemma returned_registered e w c :
  (pool_step sha256 e w).2 = Some (Returned c) ->
  exists key role spec, asked e w = Some (key, role, spec)
    /\ registered (pool_step sha256 e w).1 key role = Some (mkPoolEntry c (fingerprint sha256 spec)).
Proof.
  destruct e as [t key role spec|t co|t|key|job|key|]; cbn [pool_step asked]; try done.
  - destruct (pw_flights w !! t); [done|]. unfold get_begin. cbv zeta. destruct (pp_closed _); [done|].
    destruct (pp_entries (pw_pool w) !! key ≫= lookup role) as [[cl fp]|] eqn:He; [|done]. cbn [pe_fingerprint pe_client].
    destruct (String.eqb_spec fp (fingerprint sha256 spec)) as [->|]; [|done]. cbn. intros [= <-]. by exists key, role, spec.
  - destruct (pw_flights w !! t) as [f|]; [|done]. destruct (fl_client f); [done|]. by destruct co as [|? []].
  - destruct (pw_flights w !! t) as [f|]; [|done]. destruct (fl_client f) as [cl|]; [|done]. unfold get_finish. cbv zeta.
    destruct (pp_closed _); [done|]. destruct (negb _); [done|]. cbn [snd fst]. intros [= <-].
    exists (fl_key f), (fl_role f), (fl_spec f). split; [done|]. unfold registered. cbn. rewrite lookup_insert_eq. cbn.
    by rewrite lookup_insert_eq.
Qed.

(** *** Epochs *)

Lemma epoch_bump `{Countable K} (m : gmap K Z) k k' :
  epoch (bump k m) k' = if decide (k' = k) then uint64_incr (epoch m k) else epoch m k'.
Proof.
  unfold bump, epoch at 1. destruct (decide (k' = k)) as [->|Hk]; [by rewrite lookup_insert_eq|].
  by rewrite lookup_insert_ne.
Qed.

Lemma close_keys_epochs keys p closes k :
  NoDup keys ->
  epoch (pp_entityEpochs (close_keys true keys p closes).1) k
  = if decide (k ∈ keys) then uint64_incr (epoch (pp_entityEpochs p) k) else epoch (pp_entityEpochs p) k.
Proof.
  revert p closes. induction keys as [|key keys IH]; intros p closes Hn; [done|]. inversion_clear Hn as [|? ? Hk Hn'].
  cbn [close_keys closeEntityLocked]. rewrite IH by done. cbn [pp_entityEpochs]. rewrite epoch_bump.
  destruct (decide (k = key)) as [->|Hne].
  - rewrite (decide_False (P := key ∈ keys)) by done. by rewrite decide_True by left.
  - destruct (decide (k ∈ keys)); [by rewrite decide_True by by right|].
    by rewrite decide_False by (rewrite elem_of_cons; tauto).
Qed.

Lemma close_keys_closing keys p closes : pp_entityEpochs (close_keys false keys p closes).1 = pp_entityEpochs p.
Proof. revert p closes. induction keys as [|key keys IH]; intros p closes; [done|]. cbn [close_keys closeEntityLocked]. by rewrite IH. Qed.

(** The event raises the epoch of the entity, or of its sync job. *)
Definition raises_entity (key : providerPoolKey) (e : pool_event) : bool :=
  match e with Invalidate k | CloseEntity k => bool_decide (k = key) | _ => false end.
Definition raises_job (job : string) (e : pool_event) : bool :=
  match e with InvalidateSyncJob j => String.eqb j job | _ => false end.
Definition invalidates (key : providerPoolKey) (e : pool_event) : bool :=
  raises_entity key e || (String.eqb (pk_entityType key) "sync" && raises_job (pk_entityID key) e).

(** [b] is [a] increased [n] times. *)
Definition raised (a n b : Z) : Prop := b mod 2 ^ 64 = (a + n) mod 2 ^ 64.

Lemma raised_refl a : raised a 0 a.
Proof. unfold raised. by rewrite Z.add_0_r. Qed.

Lemma raised_incr a : raised a 1 (uint64_incr a).
Proof. unfold raised, uint64_incr. by rewrite Z.mod_mod. Qed.

Lemma raised_trans a n b m c : raised a n b -> raised b m c -> raised a (n + m) c.
Proof.
  unfold raised. intros Hb Hc. rewrite Hc, <- Z.add_mod_idemp_l, Hb, Z.add_mod_idemp_l by done. f_equal. lia.
Qed.

Lemma raised_differs a n b : raised a n b -> 0 < n < 2 ^ 64 -> b <> a.
Proof.
  unfold raised. intros Hr Hn ->. rewrite <- (Z.add_0_r a) in Hr at 1.
  assert ((a + n - (a + 0)) mod 2 ^ 64 = 0) as Hz by (rewrite Zminus_mod, Hr, Z.sub_diag; done).
  replace (a + n - (a + 0)) with n in Hz by lia. rewrite Z.mod_small in Hz; lia.
Qed.

Lemma pool_of_get_begin t key role spec w : pw_pool (get_begin sha256 t key role spec w).1 = pw_pool w.
Proof.
  unfold get_begin. cbv zeta. destruct (pp_closed _); [done|]. destruct (_ ≫= _); [|done]. by destruct (String.eqb _ _).
Qed.

Lemma pool_of_get_connect t f c w : pw_pool (get_connect t f c w).1 = pw_pool w.
Proof. by destruct c as [|? []]. Qed.

Lemma epochs_of_get_finish t f client w :
  pp_entityEpochs (pw_pool (get_finish sha256 t f client w).1) = pp_entityEpochs (pw_pool w)
  /\ pp_syncJobEpochs (pw_pool (get_finish sha256 t f client w).1) = pp_syncJobEpochs (pw_pool w).
Proof. unfold get_finish. cbv zeta. destruct (pp_closed _); [done|]. by destruct (negb _). Qed.

Lemma step_entity_epoch e w key :
  exists n, (if raises_entity key e then 1 else 0) <= n <= 1
    /\ raised (epoch (pp_entityEpochs (pw_pool w)) key) n (epoch (pp_entityEpochs (pw_pool (pool_step sha256 e w).1)) key).
Proof.
  assert (forall e', raises_entity key e' = false -> pp_entityEpochs (pw_pool (pool_step sha256 e' w).1) = pp_entityEpochs (pw_pool w) ->
    exists n, (if raises_entity key e' then 1 else 0) <= n <= 1
    /\ raised (epoch (pp_entityEpochs (pw_pool w)) key) n (epoch (pp_entityEpochs (pw_pool (pool_step sha256 e' w).1)) key)) as Hsame.
  { intros e' -> ->. exists 0. split; [lia|apply raised_refl]. }
  assert (forall k, exists n, (if bool_decide (k = key) then 1 else 0) <= n <= 1
    /\ raised (epoch (pp_entityEpochs (pw_pool w)) key) n (epoch (pp_entityEpochs (pw_pool (invalidate k w))) key)) as Hinv.
  { intros k. change (pw_pool (invalidate k w)) with (close_keys true [k] (pw_pool w) (pw_closes w)).1.
    rewrite close_keys_epochs by apply NoDup_singleton.
    destruct (decide (key ∈ [k])) as [Hin|Hin]; rewrite list_elem_of_singleton in Hin.
    - rewrite bool_decide_true by done. exists 1. split; [lia|apply raised_incr].
    - rewrite bool_decide_false by congruence. exists 0. split; [lia|apply raised_refl]. }
  destruct e as [t k role spec|t co|t|k|job|k|]; try (apply Hinv).
  - apply Hsame; [done|]. cbn [pool_step]. destruct (pw_flights w !! t); [done|]. by rewrite pool_of_get_begin.
  - apply Hsame; [done|]. cbn [pool_step]. destruct (pw_flights w !! t) as [f|]; [|done]. destruct (fl_client f); [done|].
    by rewrite pool_of_get_connect.
  - apply Hsame; [done|]. cbn [pool_step]. destruct (pw_flights w !! t) as [f|]; [|done]. destruct (fl_client f); [|done].
    apply epochs_of_get_finish.
  - cbn [pool_step fst raises_entity]. unfold invalidateSyncJob. cbv zeta. rewrite (surjective_pairing (close_keys _ _ _ _)).
    cbn [set_pool pw_pool]. rewrite close_keys_epochs.
    + cbn [pp_entityEpochs]. case_decide; [exists 1|exists 0]; (split; [lia|]); [apply raised_incr|apply raised_refl].
    + apply NoDup_filter, NoDup_fst_map_to_list.
  - apply Hsame; [done|]. cbn [pool_step fst]. unfold Close. cbv zeta. destruct (pp_closed _); [done|].
    rewrite (surjective_pairing (close_keys _ _ _ _)). cbn [set_pool pw_pool]. by rewrite close_keys_closing.
Qed.

Lemma step_job_epoch e w job :
  raised (epoch (pp_syncJobEpochs (pw_pool w)) job) (if raises_job job e then 1 else 0)
    (epoch (pp_syncJobEpochs (pw_pool (pool_step sha256 e w).1)) job).
Proof.
  destruct e as [t k role spec|t co|t|k|j|k|]; cbn [pool_step raises_job].
  - destruct (pw_flights w !! t); [|rewrite pool_of_get_begin]; apply raised_refl.
  - destruct (pw_flights w !! t) as [f|]; [destruct (fl_client f); [|rewrite pool_of_get_connect]|]; apply raised_refl.
  - destruct (pw_flights w !! t) as [f|]; [|apply raised_refl]. destruct (fl_client f) as [client|]; [|apply raised_refl].
    rewrite (proj2 (epochs_of_get_finish t f client w)). apply raised_refl.
  - apply raised_refl.
  - cbn [fst]. unfold invalidateSyncJob. cbv zeta. rewrite (surjective_pairing (close_keys _ _ _ _)). cbn [set_pool pw_pool].
    rewrite (proj1 (proj2 (proj2 (close_keys_spec _ _ _ _)))). cbn [pp_syncJobEpochs]. rewrite epoch_bump.
    destruct (String.eqb_spec j job) as [->|Hj]; [rewrite decide_True by done; apply raised_incr|].
    rewrite decide_False by done. apply raised_refl.
  - apply raised_refl.
  - cbn [fst]. unfold Close. cbv zeta. destruct (pp_closed _); [apply raised_refl|].
    rewrite (surjective_pairing (close_keys _ _ _ _)). cbn [set_pool pw_pool].
    rewrite (proj1 (proj2 (proj2 (close_keys_spec _ _ _ _)))). apply raised_refl.
Qed.

Lemma run_entity_epoch l w key :
  exists n, (if existsb (raises_entity key) l then 1 else 0) <= n <= Z.of_nat (length l)
    /\ raised (epoch (pp_entityEpochs (pw_pool w)) key) n (epoch (pp_entityEpochs (pw_pool (pool_run sha256 l w))) key).
Proof.
  revert w. induction l as [|e l IH]; intros w; [exists 0; split; [cbn; lia|apply raised_refl]|].
  destruct (step_entity_epoch e w key) as (n & Hn & Hr). destruct (IH (pool_step sha256 e w).1) as (m & Hm & Hs).
  exists (n + m). split; [|by eapply raised_trans].
  cbn [existsb length]. destruct (raises_entity key e), (existsb (raises_entity key) l); cbn [orb] in *; lia.
Qed.

Lemma run_job_epoch l w job :
  exists n, (if existsb (raises_job job) l then 1 else 0) <= n <= Z.of_nat (length l)
    /\ raised (epoch (pp_syncJobEpochs (pw_pool w)) job) n (epoch (pp_syncJobEpochs (pw_pool (pool_run sha256 l w))) job).
Proof.
  revert w. induction l as [|e l IH]; intros w; [exists 0; split; [cbn; lia|apply raised_refl]|].
  pose proof (step_job_epoch e w job) as Hr. destruct (IH (pool_step sha256 e w).1) as (m & Hm & Hs).
  eexists. split; [|by eapply raised_trans].
  cbn [existsb length]. destruct (raises_job job e), (existsb (raises_job job) l); cbn [orb] in *; lia.
Qed.

(** *** A [get] in flight *)

Definition same_get (f g : flight) : Prop :=
  fl_key f = fl_key g /\ fl_role f = fl_role g /\ fl_spec f = fl_spec g
  /\ fl_entityEpoch f = fl_entityEpoch g /\ fl_syncJobEpoch f = fl_syncJobEpoch g.

Definition begins (t : nat) (e : pool_event) : bool := match e with BeginGet t' _ _ _ => (t' =? t)%nat | _ => false end.

(** The goroutine is still in the [get] it began, or has left it. *)
Definition still (f : flight) (o : option flight) : Prop := match o with Some g => same_get f g | None => True end.

Lemma flights_of_get_begin t t' key role spec w :
  t' <> t -> pw_flights (get_begin sha256 t' key role spec w).1 !! t = pw_flights w !! t.
Proof.
  intros Ht. unfold get_begin. cbv zeta. destruct (pp_closed _); [done|].
  destruct (_ ≫= _) as [en|]; [destruct (String.eqb _ _); [done|]|]; cbn; by rewrite lookup_insert_ne.
Qed.

Lemma step_still t f e w :
  begins t e = false -> still f (pw_flights w !! t) -> still f (pw_flights (pool_step sha256 e w).1 !! t).
Proof.
  intros Hb Hs. destruct e as [t' key role spec|t' co|t'|key|job|key|]; cbn [pool_step begins] in *.
  - apply Nat.eqb_neq in Hb. destruct (pw_flights w !! t'); [done|]. by rewrite flights_of_get_begin.
  - destruct (pw_flights w !! t') as [g|] eqn:Hg; [|done]. destruct (fl_client g); [done|].
    destruct co as [|nc []]; cbn; destruct (decide (t' = t)) as [->|Hne];
      rewrite ?lookup_delete_eq, ?lookup_delete_ne, ?lookup_insert_eq, ?lookup_insert_ne by done; try done.
    rewrite Hg in Hs. exact Hs.
  - destruct (pw_flights w !! t') as [g|] eqn:Hg; [|done]. destruct (fl_client g); [|done].
    assert (still f (delete t' (pw_flights w) !! t)) as Hd.
    { destruct (decide (t' = t)) as [->|Hne]; [by rewrite lookup_delete_eq|by rewrite lookup_delete_ne]. }
    unfold get_finish. cbv zeta. destruct (pp_closed _); [exact Hd|]. destruct (negb _); exact Hd.
  - exact Hs.
  - cbn [fst]. unfold invalidateSyncJob. cbv zeta. by rewrite (surjective_pairing (close_keys _ _ _ _)).
  - exact Hs.
  - cbn [fst]. unfold Close. cbv zeta. destruct (pp_closed _); [done|]. by rewrite (surjective_pairing (close_keys _ _ _ _)).
Qed.

Lemma run_still t f l w :
  existsb (begins t) l = false -> still f (pw_flights w !! t) -> still f (pw_flights (pool_run sha256 l w) !! t).
Proof.
  revert w. induction l as [|e l IH]; intros w Hl Hs; [done|]. cbn [existsb] in Hl. apply orb_false_iff in Hl as [He Hl].
  cbn [pool_run]. by apply IH, step_still.
Qed.

(** A [get] that started to connect holds the epochs of that moment. *)
Lemma begun_epochs t key role spec w f :
  pw_flights w !! t = None -> pw_flights (pool_step sha256 (BeginGet t key role spec) w).1 !! t = Some f ->
  fl_key f = key /\ fl_entityEpoch f = epoch (pp_entityEpochs (pw_pool w)) key
  /\ (pk_entityType key = "sync" -> fl_syncJobEpoch f = epoch (pp_syncJobEpochs (pw_pool w)) (pk_entityID key)).
Proof.
  intros Ht. cbn [pool_step]. rewrite Ht. unfold get_begin. cbv zeta. destruct (pp_closed _); [cbn; by rewrite Ht|].
  destruct (_ ≫= _) as [en|]; [destruct (String.eqb _ _); [cbn; by rewrite Ht|]|]; cbn [fst pw_flights];
    rewrite lookup_insert_eq; intros [= <-]; (split; [done|]; split; [done|]); intros Hty; cbn [fl_syncJobEpoch];
    by rewrite Hty.
Qed.

(** An entity invalidated while a [get] connects: the epochs it read are no longer current. *)
Lemma invalidated_epochs t key role spec l w f :
  pw_flights w !! t = None -> pw_flights (pool_step sha256 (BeginGet t key role spec) w).1 !! t = Some f ->
  existsb (invalidates key) l = true -> Z.of_nat (length l) < 2 ^ 64 ->
  epochs_current f (pw_pool (pool_run sha256 l (pool_step sha256 (BeginGet t key role spec) w).1)) = false.
Proof.
  intros Ht Hf Hl Hlen. destruct (begun_epochs _ _ _ _ _ _ Ht Hf) as (Hk & He & Hj).
  assert (pw_pool (pool_step sha256 (BeginGet t key role spec) w).1 = pw_pool w) as Hp.
  { cbn [pool_step]. rewrite Ht. apply pool_of_get_begin. }
  set (w1 := (pool_step _ _ w).1) in *.
  destruct (run_entity_epoch l w1 key) as (n & Hn & Hr). destruct (run_job_epoch l w1 (pk_entityID key)) as (m & Hm & Hs).
  rewrite Hp in Hr, Hs. unfold epochs_current. rewrite Hk, He. apply andb_false_iff.
  assert (existsb (raises_entity key) l = true
    \/ String.eqb (pk_entityType key) "sync" = true /\ existsb (raises_job (pk_entityID key)) l = true) as [Hi|[Hty Hi]].
  { apply existsb_exists in Hl as (e & Hin & Hi). unfold invalidates in Hi. apply orb_true_iff in Hi as [Hi|Hi].
    - left. apply existsb_exists. by exists e.
    - apply andb_true_iff in Hi as [Hty Hi]. right. split; [done|]. apply existsb_exists. by exists e. }
  - left. rewrite Hi in Hn. apply Z.eqb_neq. apply (raised_differs _ n); [done|lia].
  - right. rewrite Hty. cbn [negb orb]. rewrite Hj by (by apply String.eqb_eq). rewrite Hi in Hm.
    apply Z.eqb_neq. apply (raised_differs _ m); [done|lia].
Qed.

Lemma finish_stale t w f c :
  (forall g, pw_flights w !! t = Some g -> same_get f g) -> epochs_current f (pw_pool w) = false ->
  (pool_step sha256 (FinishGet t) w).2 <> Some (Returned c).
Proof.
  intros Hs Hc. cbn [pool_step]. destruct (pw_flights w !! t) as [g|]; [|done]. destruct (fl_client g); [|done].
  destruct (Hs g eq_refl) as (Hk & _ & _ & He & Hj). unfold get_finish. cbv zeta. destruct (pp_closed _); [done|].
  assert (epochs_current g (pw_pool w) = false) as ->; [|done].
  unfold epochs_current in *. by rewrite <- Hk, <- He, <- Hj.
Qed.

Lemma prune_spec terminal w key :
  let w' := pool_run sha256 (prune_events terminal w) w in
  pp_entries (pw_pool w') !! key = if terminal key then None else pp_entries (pw_pool w) !! key.
Proof.
  cbv zeta. unfold prune_events.
  assert (forall keys w, pp_entries (pw_pool (pool_run sha256 (CloseEntity <$> keys) w)) !! key
    = if decide (key ∈ keys) then None else pp_entries (pw_pool w) !! key) as Hrun.
  { induction keys as [|k keys IH]; intros v; [done|]. rewrite fmap_cons. cbn [pool_run pool_step fst]. rewrite IH.
    change (pp_entries (pw_pool (closeEntity k v))) with (delete k (pp_entries (pw_pool v))).
    destruct (decide (key = k)) as [->|Hne].
    - rewrite lookup_delete_eq, (decide_True (P := k ∈ k :: keys)) by left. by destruct (decide (k ∈ keys)).
    - rewrite lookup_delete_ne by done. destruct (decide (key ∈ keys)); [by rewrite decide_True by by right|].
      by rewrite decide_False by (rewrite elem_of_cons; tauto). }
  rewrite Hrun. destruct (terminal key) eqn:Ht; case_decide as Hin.
  - done.
  - apply eq_None_not_Some. intros Hs. apply Hin, list_elem_of_filter. split; [by rewrite Ht|by apply elem_of_pool_keys].
  - apply list_elem_of_filter in Hin as [Hin _]. by rewrite Ht in Hin.
  - done.
Qed.

(** C7: a worker's connections are neither leaked, nor closed twice, nor used stale.  After
    any sequence of steps, however the operations on the pool interleave with the [get]s that
    are connecting: every client created so far is exactly one of closed (once), held by one
    connecting [get], or registered in one slot of the pool; a [get] that returns a client
    returns one that is open and registered for the key and role it asked for with the
    fingerprint of its specification; once the pool is closed and no [get] is connecting,
    every client has been closed.  And a [get] during which its entity or sync job was
    invalidated (fewer than 2^64 operations happening meanwhile) never returns a client. *)
Theorem pool_clients_accounted l :
  let w := pool_run sha256 l new_world in
  pw_closes w ++ in_flight (pw_flights w) ++ pooled (pp_entries (pw_pool w)) ≡ₚ seq 0 (pw_next w)
  /\ (forall e c, (pool_step sha256 e w).2 = Some (Returned c) ->
        let w' := (pool_step sha256 e w).1 in
        (c ∉ pw_closes w') /\ exists key role spec, asked e w = Some (key, role, spec)
          /\ registered w' key role = Some (mkPoolEntry c (fingerprint sha256 spec)))
  /\ (pp_closed (pw_pool w) = true -> in_flight (pw_flights w) = [] -> pw_closes w ≡ₚ seq 0 (pw_next w))
  /\ (forall t key role spec f l' c,
        pw_flights w !! t = None -> pw_flights (pool_step sha256 (BeginGet t key role spec) w).1 !! t = Some f ->
        existsb (begins t) l' = false -> existsb (invalidates key) l' = true -> Z.of_nat (length l') < 2 ^ 64 ->
        (pool_step sha256 (FinishGet t) (pool_run sha256 l' (pool_step sha256 (BeginGet t key role spec) w).1)).2
        <> Some (Returned c)).
Proof.
  cbv zeta. pose proof (pool_run_ok l new_world new_world_ok) as Hok. set (w := pool_run sha256 l new_world) in *.
  split; [apply Hok|split; [|split]].
  - intros e c Hc. destruct (returned_registered e w c Hc) as (key & role & spec & Ha & Hr). split; [|by eauto].
    exact (registered_open _ _ _ _ (pool_step_ok e w Hok) Hr).
  - intros Hc Hf. destruct Hok as [Ha He]. unfold accounted in Ha. rewrite Hf, (He Hc) in Ha.
    by rewrite app_nil_r in Ha.
  - intros t key role spec f l' c Ht Hf Hb Hi Hlen. apply (finish_stale t _ f).
    + intros g Hg. pose proof (run_still t f l' (pool_step sha256 (BeginGet t key role spec) w).1 Hb) as Hs.
      rewrite Hg, Hf in Hs. by apply Hs.
    + by apply invalidated_epochs.
Qed.
End Pool.

(** ** Facts on the fingerprint *)

(** No zero byte: values are told apart in what is hashed. *)
Definition no_nul (s : string) : Prop := byte_of 0 ∉ string_bytes s.

Lemma string_bytes_inj s s' : string_bytes s = string_bytes s' -> s = s'.
Proof. intros He. by rewrite <- (bytes_string_bytes s), <- (bytes_string_bytes s'), He. Qed.

Lemma split_nul (a b c d : bytes) z : z ∉ a -> z ∉ b -> a ++ z :: c = b ++ z :: d -> a = b /\ c = d.
Proof.
  revert b. induction a as [|x a IH]; intros [|y b] Ha Hb He; injection He; intros; subst.
  - done.
  - exfalso. apply Hb. left.
  - exfalso. apply Ha. left.
  - assert (a = b /\ c = d) as [-> ->]; [|done]. apply IH; [..|done]; intros Hin; [apply Ha|apply Hb]; by right.
Qed.

Lemma fingerprint_bytes_inj l l' :
  length l = length l' -> Forall no_nul l -> Forall no_nul l' -> fingerprint_bytes l = fingerprint_bytes l' -> l = l'.
Proof.
  revert l'. induction l as [|v l IH]; intros [|v' l'] Hlen Hl Hl'; [done..|]. cbn [fingerprint_bytes]. intros He.
  inversion_clear Hl. inversion_clear Hl'. apply split_nul in He as [He1 He2]; [|done|done].
  apply string_bytes_inj in He1 as ->. f_equal. apply IH; [by injection Hlen|done..].
Qed.

(** ** An instance *)

Module PoolExample.

(** A connection opened for a sync job and cached, and a second one begun while the job is
    invalidated, then the pool closed. *)
Definition key : providerPoolKey := syncProviderPoolKey "job" 3.
Definition spec : providerPoolSpec := mkPoolSpec "nextcloud" "https://h" "u" "p" "v1:00" "" "" 4.

Definition setup : list pool_event :=
  [BeginGet 0 key "source" spec; ConnectClient 0 (Client (Some 1) true); FinishGet 0; BeginGet 0 key "source" spec].
Definition interrupted : list pool_event := [ConnectClient 1 (Client None true); InvalidateSyncJob "job"].

Lemma begun :
  pw_flights (pool_step id (BeginGet 1 key "target" spec) (pool_run id setup new_world)).1 !! 1%nat
  = Some (mkFlight key "target" spec 0 0 None).
Proof. vm_compute. reflexivity. Qed.

Lemma not_in_flight : pw_flights (pool_run id setup new_world) !! 1%nat = None.
Proof. vm_compute. reflexivity. Qed.

(** The second [get] with the same specification reused the first client. *)
Lemma cached :
  (pool_step id (BeginGet 0 key "source" spec) (pool_run id setup new_world)).2 = Some (Returned 0)
  /\ pw_threads (pool_run id setup new_world) !! 0%nat = Some 4.
Proof. by vm_compute. Qed.

Lemma pool_clients_accounted_witness :
  (pool_step id (FinishGet 1) (pool_run id interrupted (pool_step id (BeginGet 1 key "target" spec) (pool_run id setup new_world)).1)).2
  <> Some (Returned 1).
Proof.
  refine (proj2 (proj2 (proj2 (pool_clients_accounted id setup))) 1%nat key "target" spec _ interrupted 1%nat
    not_in_flight begun _ _ _); reflexivity.
Defined.

End PoolExample.
